(* ===== verification/_CoqProject ===== *)
-Q . S2P
Prelude.v
Hardware.v
Motor.v
Encoder.v
Pid.v
CString.v
Shell.v
App.v
AppSafety.v
AppStop.v
Float64.v
MotorDriver.v
DiffDrive.v
Link.v
Bits.v
Line.v
VoxelGrid.v
Lifecycle.v
BehaviorTree.v
ControlNodes.v
Costmap.v
CostmapPolygon.v
DecoratorNodes.v
CostmapLayer.v
Footprint.v
LayeredCostmap.v
FloatOrder.v
RoutePlanner.v
RouteSearch.v
Image.v
LabelTrees.v
Components.v
Labelling.v
Denoise.v
DenoiseLaws.v
ActionServer.v
FloatBounds.v
NavFn.v
NavFnLaws.v
NavFnSearch.v
NavfnPlanner.v
NavfnPlannerLaws.v
ArrayParser.v
Parameters.v
CollisionZones.v
CollisionSources.v
CollisionMonitor.v
CollisionLaws.v
Inflation.v
InflationLaws.v
ThetaStar.v
ThetaStarPlanner.v
ThetaStarLaws.v
ThetaStarSearch.v
ThetaStarPath.v
VelocitySmoother.v
VelocitySmootherLaws.v
MapIO.v
MapServers.v
MapLaws.v
ActionTask.v
NavMessages.v
PluginNode.v
ControllerPlugins.v
ControllerServer.v
ControllerLaws.v
FootprintCollision.v
PlannerServer.v
PlannerLaws.v
CostmapTopics.v
TopicLaws.v
TimedBehavior.v
Behaviors.v
BehaviorServer.v
BehaviorLaws.v
