(* ===== verification/Prelude.v ===== *)
(** * Verification of andino

  Andino is a small differential drive robot. Three programs take part in
  moving it: the firmware of a microcontroller that drives the motors and
  counts wheel ticks ([andino_firmware]), the hardware interface that the
  controllers on the host talk to ([andino_base]), and the navigation stack kept
  in the tree ([navigation2]). This library translates their own logic to
  functions on explicit states and proves what each part promises.

  ** Conventions

  A call of C or C++ is a value of [res] (this file): [Ok] with a result, [Throw]
  with an exception, or [UB], undefined behaviour, after which nothing is
  promised. Machine integers are [Z]: [wrapu w] and [wraps w] are the conversions
  to unsigned and signed integers of [w] bits, [chk w] a signed operation that is
  undefined when it overflows, [in_u] and [in_s] the ranges. An access outside
  an array, a null dereference and a write past a buffer are [UB]. Code that
  changes an object and can throw keeps the changes made before the exception: it
  is written in the state monad [ST], whose results carry the state of an exception
  and which has [try_runtime] and [try_all] for the catch clauses.

  Code outside the repository is a parameter: a class or a section variable. The
  laws a theorem needs of it are hypotheses of that theorem or a second class of
  laws, and every theorem with a hypothesis is applied to a concrete run by its
  [_witness].

  ** Firmware: [andino_firmware/src]

  - [Hardware]: [hw.h], [constants.h], the Arduino outputs and interrupt input. The
    world [hw] holds the levels of pins, the trace of pin operations, the pin change
    registers and the three interrupt vectors. The class [InterruptIn] is the
    interface the encoder uses; [ArduinoCore] (pin to port macros of the Arduino
    core) is a parameter. [int] has 16 bits and [long] 32, as on the target.
  - [Motor]: [motor.cpp], the two PWM pins of a bridge.
  - [Encoder]: [encoder.cpp], quadrature decoding, the registry of instances and
    the static interrupt callbacks.
  - [Pid]: [pid.cpp], integer PID with saturation and integral freeze.
  - [CString]: the C string functions the programs call.
  - [Shell]: [shell.cpp], over any type of callbacks; [ashell] is its
    specification, a line editor that keeps the pending line as a list.
  - [App]: [app.cpp], [commands.h], [main.cpp]: static members as the record [core],
    one definition per command, [setup] and the phases of [loop]. The relation
    [step] interleaves the phases of the loop with encoder interrupts, which the
    hardware may raise between any two of them. [Runtime] (clock, analog input,
    IMU) is a parameter.
  - [AppSafety]: the invariant [app_ok] and the theorems on the whole application.
  - [AppStop]: the automatic stop over whole runs, with a log of the commands that drive the robot.

  The theorems: the encoder count follows the position of the wheel, in any
  interleaving of edges ([encoder_tracks_position]); the controller computes the
  documented law and its output stays within limits ([pid_compute_law]), without
  overflow for the default gains (lemma [pid_default_no_overflow]); the shell refines its
  specification and runs exactly the command of a line ([shell_refines],
  [shell_runs_line]); every reachable state drives each bridge in one direction
  with a duty the hardware accepts ([app_invariant]); in every run, the motors are at rest when no command has driven
  them for three seconds, and a robot with a recent speed command is left alone ([app_auto_stop]);
  the lemma [app_unsafe_lines] states which input lines lead to undefined behaviour.

  ** Host: [andino_base]

  - [Float64]: binary64 arithmetic and its conversions, on the executable IEEE
    specification of the Standard Library.
  - [MotorDriver]: [motor_driver.cpp] over the class [SerialPort].
  - [DiffDrive]: [wheel.cpp] and [diffdrive_andino.cpp].
  - [Link]: the serial port instantiated with the firmware, so that theorems
    speak of both programs at once: a write of the hardware interface sets the
    targets of the firmware's controllers (lemma [link_write]), a read obtains the
    firmware's counts ([link_read]).

  ** Navigation: [navigation2]

  - [Bits], [Line]: counting bits, and the arithmetic of Bresenham's walk that
    [VoxelGrid] and [CostmapPolygon] share.
  - [VoxelGrid]: [nav2_voxel_grid], all operations on columns of 16 levels. A line
    changes exactly the voxels of the discrete line between its clipped ends
    ([voxel_raytrace]).
  - [Costmap]: [costmap_2d.cpp], storage, coordinates, windows and origin. Moving
    the origin keeps the overlap and resets the rest ([costmap_update_origin]).
  - [CostmapPolygon]: the polygon functions of the same file. A filled polygon is
    exactly the cells between two cells of its outline ([costmap_polygon]).
  - [CostmapLayer]: [costmap_layer.cpp], how a layer of the costmap merges its own
    cells into the master grid (lemma [layer_merge]).
  - [Footprint]: [footprint.cpp], [costmap_math.cpp]: the outline of the robot, its
    radii.
  - [LayeredCostmap]: [layered_costmap.cpp], the update that collects the bounds of
    the layers, resets that window and lets the layers draw in it. The class [Layers]
    holds the virtual calls of the layers, [LayerLaws] what drawing promises;
    lemma [layered_update_map] is proved against this interface, and layers
    made of [CostmapLayer] operations implement it, which gives the content of the
    master grid ([layered_stack]).
  - [Image], [LabelTrees], [Components]: [image.hpp] and [image_processing.hpp] of the
    denoise layer. An image is a window on a buffer; the equivalences of labels are a
    union-find whose parents decrease; the components of an image are labelled in two
    passes over windows of four or seven pixels. The argument [checked] of these
    definitions says what an access past a vector that was shrunk does: undefined as the
    language has it, or a read of the old element as the common implementations do. The theorems hold for both, and say
    when the access happens.
  - [Labelling]: two pixels get the same label exactly when obstacles connect them
    ([components_labelled]).
  - [Denoise], [DenoiseLaws]: histogram, dilation, groups and [denoise_layer.cpp]. The layer
    removes exactly the cells of the groups that are smaller than the minimum
    ([denoise_update]), and the specialised path for isolated pixels agrees with the
    general one ([denoise_fast_equivalent]).
  - [FloatBounds]: bounds of rounded binary floating point operations: a sum or a
    quotient of bounded numbers rounds to one within the bounds.
  - [NavFn]: [navfn.cpp], the arrays and buffers of the wave propagation and the gradient
    path, with single precision arithmetic rounded at each operation (no contraction).
    A priority buffer is the list of its live entries. [hypot] is the class [Hypot], with
    its documented bound in [HypotLaws].
  - [NavFnLaws]: bounds of one update, the set [linked] of cells that passable cells join to
    the goal, and the invariant [settled] of the propagation, preserved by each cycle.
  - [NavFnSearch]: objects stay well formed (lemma [navfn_well_formed]), costs are converted cell
    by cell (lemma [navfn_costmap]), both propagations end and their result tells whether the
    cells are linked to the goal ([navfn_dijkstra], [navfn_astar]).
  - [NavfnPlanner]: [navfn_planner.cpp], the plugin: checks, scan of the tolerance region,
    conversion of the path. [Rotation] holds [atan2] and the rotations of [tf2].
  - [NavfnPlannerLaws]: the point a plan leads to (lemma [planner_best_pose]) is linked to the
    start ([planner_paths]); the order of the exceptions (lemma [planner_errors]).
  - [ArrayParser], [Parameters]: arrays of numbers in text and node parameters, from
    [nav2_util]. What a printer wrote is read back (lemma [parse_print]).
  - [CollisionZones], [CollisionSources], [CollisionMonitor]: the collision monitor and the
    collision detector, their zones and their sources. The classes [Mathematics],
    [Transforms] and [Durations] hold the C++ library, the transform buffer of [tf2] and the
    conversions of durations.
  - [CollisionLaws]: the published action is the safest demand ([monitor_safest]), invalid
    sources and stop zones stop the robot ([monitor_stops]), the monitor is silent only when the
    robot stands ([monitor_published]); the time of a simulated collision
    (lemma [collision_time]) and the points in a rectangle (lemma [polygon_rectangle]).
  - [VelocitySmoother]: [velocity_smoother.cpp], the mean of odometry of [odometry_utils.cpp]
    and the publisher of twists. The classes [Clocks] and [Timers] hold the times and timers of the
    ROS client library.
  - [VelocitySmootherLaws]: an open loop comes to a stand when commands stop ([smoother_stops]), the
    published velocity keeps the limits ([smoother_limits]), the history of odometry is a window of time
    (lemma [history_window]); examples show what the limits do not ensure.
  - [MapIO]: [map_io.cpp] and [map_mode.cpp]: names, descriptions, thresholds and cells of maps in
    files. The libraries of images and descriptions are the classes [Magick] and [Yaml].
  - [MapServers]: the map server, the map saver and the server that announces costmap filters.
  - [MapLaws]: a map that was saved is loaded again, each cell as its mode keeps it
    ([map_roundtrip]); a request to load either fails without effect or serves the map of the files
    ([server_load]); examples show what is lost or refused.
  - [Inflation]: [inflation_layer.hpp] and [plugins/inflation_layer.cpp]: parameters, the
    tables of distances, costs and levels, and the wave over the bins of cells, with
    [hypot] and [exp] as the class [Falloff].
  - [InflationLaws]: levels order distances; the wave reaches all surroundings of the
    obstacles and gives each cell the cost of a distance to an obstacle ([inflation_covers]).
  - [ThetaStar], [ThetaStarPlanner]: [theta_star.hpp], [theta_star.cpp] and the plugin: the
    store of nodes with pointers as indices, the table of positions, the line of sight, the
    search. [hypot] ([Hypotenuse]) and the queue whose keys change ([OpenList]) are classes.
  - [ThetaStarLaws], [ThetaStarSearch], [ThetaStarPath]: what the line of sight sees
    ([los_corners]), the invariant of the search with a measure of its rounds, and the paths it
    returns ([theta_path]); examples show paths through obstacles, reads outside the map, a
    search that stops early and pointers that dangle after changes of the map.
  - [ActionServer]: [simple_action_server.hpp]. The relation [step] interleaves the
    threads (library callbacks, the worker, the callback of the task and a thread that
    deactivates) where the code releases the mutex. Goals are never lost outside the two
    slots ([server_goals]), a server that is left alone ends every goal
    ([server_drains]), and two interleavings leave a goal unserved ([server_stuck]).
  - [ActionTask]: the callback of such a task. Its [node] has members, a pointer to the action server, the
    rest of the world and the messages it sent; a call of the server ([with_server]) first lets the other
    threads move ([Others]). Rules for methods that keep an invariant however they end ([keeps], [sound])
    and the law that every callback made of these calls is a sequence of steps of [ActionServer].
  - [NavMessages]: poses, paths and velocities; [conversions.cpp] and [tf_help.cpp] of [nav_2d_utils],
    [geometry_utils.hpp]. Rotations ([Angles]), transforms ([TransformBuffer]) and clocks ([Clock]) are classes.
  - [PluginNode]: what nodes with plugins share: calls by name, loading, waiting for the costmap, deactivation.
  - [ControllerPlugins]: the interfaces of [nav2_core] for progress and goal checkers as classes, and the five
    checkers of [nav2_controller/plugins] as instances.
  - [ControllerServer]: [controller_server.cpp], the whole node over any controllers ([Controllers]).
  - [ControllerLaws]: when a task ends the last velocity is zero and the goal has its result
    ([control_stops]); no missing plugin or goal is used ([control_defined]); what a cycle publishes, or why
    it publishes nothing ([control_cycle]); the callback keeps to the protocol of the action server (lemma [control_refines]). Examples run the whole node, and show a preemption
    that leaves the robot without a goal and a pose that counts as reached without a transform.
  - [FootprintCollision]: [footprint_collision_checker.cpp] and [line_iterator.hpp], which walks the cells of
    [CostmapPolygon]'s lines: the cost of an outline (lemma [footprint_cost]).
  - [PlannerServer]: [planner_server.cpp]: the two planning actions, each over its own action server, and the whole
    node with both; the service that checks a path. A planner ([Planners]) is interactive: a run of [createPlan] is a
    tree of its questions whether the goal is cancelled ([planning]).
  - [PlannerLaws]: both callbacks always answer with a planned path or the code of an exception, without undefined
    behaviour ([plan_answers]); the legs of a path through poses are joined ([plan_through]); which paths are
    valid (lemma [path_valid]). Examples show a goal that preempts and gets the path of the one before, a dropped leg,
    paths that count as valid without a look at the map, and what transitions leave behind.
  - [CostmapTopics]: [costmap_subscriber.cpp], [footprint_subscriber.cpp], [costmap_topic_collision_checker.cpp]: what a
    node knows of the costmap and the footprint of another one, and whether the robot would be free at a pose.
  - [TopicLaws]: messages are stored until they are needed, and yet the subscriber shows what an eager one
    would ([subscriber_mirrors]); a pose is free exactly when the outline of the robot is ([checker_clear]).
  - [TimedBehavior]: [timed_behavior.hpp], the callback and the transitions of every behavior; its virtual methods are the
    class [Behavior], the collision checker the class [CollisionChecking].
  - [Behaviors]: [drive_on_heading.hpp], [back_up.cpp], [spin.cpp], [wait.cpp], [assisted_teleop.cpp] as instances of
    [Behavior]. [BehaviorServer]: [behavior_server.cpp], the node that hosts them, over any behaviors
    ([BehaviorPlugins]); each gets the checkers it wants (lemma [setup_provides]) and a configuration that fails leaves
    nothing behind (lemma [failed_configure]).
  - [BehaviorLaws]: the laws a behavior owes ([MotionLaws]), under which its callback ends every goal with a result and the
    robot at rest (lemma [execute_returned]); driving, spinning and the teleoperation implement them. For driving
    and backing up: [drive_ends], and what one cycle does and has checked ([drive_cycle]). Examples and lemmas
    show when a robot goes on moving, and that a spin looks only as far as it has turned.
  - [Lifecycle]: [lifecycle_manager.cpp] over the class [Environment] (lifecycle
    services, bonds, clock): startup order, the meaning of its result, bonds, and
    what remains after a failed hard reset and after a shutdown.
  - [BehaviorTree]: the calls a node makes to the BehaviorTree.CPP library as the
    class [Engine], its laws [EngineLaws], the clock, and [logged], an engine that
    records which child is ticked or halted.
  - [ControlNodes]: [PipelineSequence], [RecoveryNode], [RoundRobinNode].
  - [DecoratorNodes]: [SingleTrigger], [RateController], [GoalUpdatedController],
    [DistanceController], [PathLongerOnApproach], [SpeedController].
  - [FloatOrder]: sums of non-negative binary64 numbers are monotone, which is what a
    search for cheapest paths needs of its arithmetic.
  - [RoutePlanner]: [route_planner.cpp], [edge_scorer.cpp] and the types of
    [nav2_route]: a graph of nodes and edges by index, the search state of the nodes,
    the traversal and the reconstruction of the route. The plugins that score edges
    ([EdgeCostFunctions]) and the priority queue of the C++ library, which may order
    equal costs as it likes ([PriorityQueue], [PriorityQueueLaws]), are classes.
  - [RouteSearch]: the invariant of the search; a route that is returned is a path of
    the graph and no path is cheaper ([route_cheapest]).

  ** Loops and fuel

  Loops over a list or a counter that the code decreases are structural. The others
  take fuel, computed from the state where the code enters the loop, and theorems
  state that it does not run out. [RecoveryNode.tick] has two rounds for each retry
  left, since a round of the main child either ends the tick or is followed by
  one round of the recovery child, which ends it or counts a retry. A round robin
  tick has one round for each child, since a round that does not end the tick counts
  a failure or a skip and the loop ends at as many as there are children. Sorting the
  outline of a polygon of [n] cells has two steps for each pair of cells (an
  exchange removes an inversion and moves back one place) and [n] to reach the end.
  [resetMapToValue] has a round for each row between its two ends. A bit loop clears
  the lowest bit of a word of 32 bits, so 33 tests suffice. The route search is
  bounded by the code's own [max_iterations], and following the parents back by the
  number of nodes, since each parent was settled before its child. Parents of labels
  decrease, so a label bounds the way to its root; a scan along a row is bounded by the
  distance to its end. The propagation of [NavFn] has the cycles that the code computes from the
  size of the map, and its path the points that the caller allows. The scan around the goal
  of the planner adds the resolution to a coordinate, which need not increase a floating
  point number: [rounds] is an argument there, and [scan_region] says that the scan ends; the simulation
  of a collision and the cone of a range sensor are treated alike. The search of theta star lowers the cost of a node
  with every push, so costs and queue bound its rounds; its fuel is an argument and [theta_path] says that enough exists. The loop of the
  controller server runs as long as the world lets it, and so does its wait for the costmap: both take a number of
  rounds (so do the waits of the planner server), and the ending [Running] says that they were used up; the theorems hold for every number.
  Running out of fuel is
  [UB], so a theorem that gives a result also gives termination.

  ** Not modelled

  Text printed for people, log and diagnostic messages; locks (every call is
  atomic, apart from firmware interrupts, the steps of the action server and the topics of a teleoperation); the files written by [saveMap]; serial
  streams below the byte level; ROS messages, parameters, executors; bonds of nodes. A limit of speed that arrives
  while the controller server runs is part of the world of its plugins. Of the
  navigation stack the smac planner, the controllers themselves, the navigators, smoothers of paths,
  localization, the obstacle, voxel and static layers, the action and condition nodes, and
  around the route planner its server, tracker and graph files are not modelled. *)

From stdpp Require Import base option list numbers.
From Stdlib Require Import ZArith Lia.

#[global] Open Scope Z_scope.

(** ** Outcomes of a C or C++ call

  [Ok a] is a normal return, [Throw e] an exception that leaves the call,
  [UB] undefined behaviour (an out of range access, a signed overflow, a null
  dereference): nothing is promised after it. *)

Inductive exn : Type :=
  | invalid_argument
  | out_of_range
  | runtime_error
  | logic_error
  | behavior_tree_exception
  | no_valid_graph
  | no_valid_route
  | timed_out
  | label_overflow
  | bad_array_new_length
  | planner_cancelled
  | start_outside_map
  | goal_outside_map
  | goal_occupied
  | no_valid_path
  | planner_exception
  | parameter_uninitialized
  | invalid_parameter_type
  | yaml_exception
  | image_exception
  | pluginlib_exception
  | extrapolation_exception
  | transform_exception
  | controller_exception
  | invalid_controller
  | controller_tf_error
  | no_valid_control
  | failed_to_make_progress
  | patience_exceeded
  | invalid_path
  | controller_timed_out
  | invalid_planner
  | start_occupied
  | planner_timed_out
  | planner_tf_error
  | no_viapoints_given
  | collision_checker_exception
  | illegal_pose_exception
  | foreign_exception.

Inductive res (A : Type) : Type :=
  | Ok (a : A)
  | Throw (e : exn)
  | UB.

Arguments Ok {A} a.
Arguments Throw {A} e.
Arguments UB {A}.

#[export] Instance exn_eq_dec : EqDecision exn.
Proof. solve_decision. Defined.

#[export] Instance res_eq_dec {A} `{EqDecision A} : EqDecision (res A).
Proof. solve_decision. Defined.

#[export] Instance res_ret : MRet res := @Ok.

#[export] Instance res_bind : MBind res :=
  fun A B f m => match m with Ok a => f a | Throw e => Throw e | UB => UB end.

#[export] Instance res_fmap : FMap res :=
  fun A B f m => match m with Ok a => Ok (f a) | Throw e => Throw e | UB => UB end.

(** The call neither throws nor runs into undefined behaviour. *)
Definition defined {A} (m : res A) : Prop := exists a, m = Ok a.

(** A condition the language requires: violating it is undefined behaviour. *)
Definition require (b : bool) : res () := if b then Ok tt else UB.

Lemma bind_ok {A B} (m : res A) (f : A -> res B) b :
  (m ≫= f) = Ok b <-> exists a, m = Ok a /\ f a = Ok b.
Proof.
  destruct m as [a| |]; simpl; [|split; [done|by intros (?&?&?)]..].
  split; [by eauto|]. by intros (a'&[= <-]&H).
Qed.

Lemma bind_Ok {A B} (a : A) (f : A -> res B) : (Ok a ≫= f) = f a.
Proof. done. Qed.

Lemma bind_ret {A} (m : res A) : (m ≫= Ok) = m.
Proof. by destruct m. Qed.

Lemma require_ok b u : require b = Ok u <-> b = true.
Proof. destruct u, b; simpl; split; done. Qed.

Lemma defined_ok {A} (a : A) : defined (Ok a).
Proof. by exists a. Qed.

Lemma bind_assoc {A B C} (m : res A) (f : A -> res B) (g : B -> res C) :
  (m ≫= f) ≫= g = m ≫= (fun a => f a ≫= g).
Proof. by destruct m. Qed.

(** ** Calls on an object

  A method takes the object's state, may return or throw, and leaves a state in
  both cases. [outcome] is what a call out of the program does. *)

Inductive outcome (A : Type) : Type := Returned (a : A) | Raised (e : exn).
Arguments Returned {A}.
Arguments Raised {A}.

Definition of_outcome {A} (o : outcome A) : res A :=
  match o with Returned a => Ok a | Raised e => Throw e end.

Definition ST (S A : Type) : Type := S -> res A * S.

#[export] Instance ST_ret S : MRet (ST S) := fun A a s => (Ok a, s).
#[export] Instance ST_bind S : MBind (ST S) := fun A B f c s =>
  match c s with
  | (Ok a, s) => f a s
  | (Throw e, s) => (Throw e, s)
  | (UB, s) => (UB, s)
  end.

Definition get {S} : ST S S := fun s => (Ok s, s).
Definition modify {S} (f : S -> S) : ST S () := fun s => (Ok tt, f s).
Definition undefined {S A} : ST S A := fun s => (UB, s).
Definition throw {S A} (e : exn) : ST S A := fun s => (Throw e, s).

(** [try { c } catch (const std::runtime_error &) { h }]. *)
Definition try_runtime {S A} (c h : ST S A) : ST S A := fun s =>
  match c s with
  | (Throw runtime_error, s) => h s
  | r => r
  end.

(** [try { c } catch (...) { h }]. *)
Definition try_all {S A} (c h : ST S A) : ST S A := fun s =>
  match c s with
  | (Throw _, s) => h s
  | r => r
  end.

(** Expose the steps of a method. *)
Ltac expose := unfold mbind, ST_bind, mret, ST_ret; cbv beta iota.
Tactic Notation "expose" "in" hyp(H) :=
  unfold mbind, ST_bind, mret, ST_ret in H; cbv beta iota in H.

(** ** Fixed width integers

  Values of a [w]-bit type are integers in its range; [wrapu] and [wraps]
  are the conversions to the unsigned and signed type of that width, and
  [sint]/[chk] the signed arithmetic whose overflow is undefined. *)

Definition wrapu (w z : Z) : Z := z mod 2 ^ w.
Definition wraps (w z : Z) : Z := (z + 2 ^ (w - 1)) mod 2 ^ w - 2 ^ (w - 1).

Definition in_u (w z : Z) : Prop := 0 <= z < 2 ^ w.
Definition in_s (w z : Z) : Prop := - 2 ^ (w - 1) <= z < 2 ^ (w - 1).

#[export] Instance in_u_dec w z : Decision (in_u w z).
Proof. unfold in_u. apply _. Defined.
#[export] Instance in_s_dec w z : Decision (in_s w z).
Proof. unfold in_s. apply _. Defined.

Definition chk (w z : Z) : res Z := if decide (in_s w z) then Ok z else UB.

Lemma wrapu_range w z : 0 <= w -> in_u w (wrapu w z).
Proof. intros. unfold in_u, wrapu. apply Z.mod_pos_bound. lia. Qed.

Lemma wrapu_id w z : in_u w z -> wrapu w z = z.
Proof. unfold in_u, wrapu. intros. by apply Z.mod_small. Qed.

Lemma pow2_split w : 0 < w -> 2 ^ w = 2 * 2 ^ (w - 1).
Proof. intros. rewrite <- Z.pow_succ_r by lia. f_equal. lia. Qed.

Lemma wraps_range w z : 0 < w -> in_s w (wraps w z).
Proof.
  intros. unfold in_s, wraps. rewrite (pow2_split w) by done.
  pose proof (Z.mod_pos_bound (z + 2 ^ (w - 1)) (2 * 2 ^ (w - 1))). lia.
Qed.

Lemma wraps_id w z : 0 < w -> in_s w z -> wraps w z = z.
Proof.
  unfold in_s, wraps. intros Hw ?. rewrite (pow2_split w) by done.
  rewrite Z.mod_small; lia.
Qed.

Lemma wraps_eqm w a b : 0 < w -> (a - b) mod 2 ^ w = 0 -> wraps w a = wraps w b.
Proof.
  intros Hw H. unfold wraps. f_equal.
  apply Z.mod_divide in H; [|lia]. destruct H as [k Hk].
  replace (a + 2 ^ (w - 1)) with (b + 2 ^ (w - 1) + k * 2 ^ w) by lia.
  by rewrite Z.mod_add by lia.
Qed.

Lemma wraps_mod w z : 0 < w -> exists k, wraps w z = z + k * 2 ^ w.
Proof.
  intros Hw. unfold wraps.
  pose proof (Z.div_mod (z + 2 ^ (w - 1)) (2 ^ w) ltac:(lia)) as H.
  exists (- ((z + 2 ^ (w - 1)) / 2 ^ w)). lia.
Qed.

Lemma wrapu_mod w z : 0 <= w -> exists k, wrapu w z = z + k * 2 ^ w.
Proof.
  intros Hw. unfold wrapu. pose proof (Z.div_mod z (2 ^ w) ltac:(lia)).
  exists (- (z / 2 ^ w)). lia.
Qed.

Lemma wrapu_wraps w z : 0 < w -> wrapu w (wraps w z) = wrapu w z.
Proof.
  intros Hw. destruct (wraps_mod w z Hw) as [k ->]. unfold wrapu. apply Z.mod_add. lia.
Qed.

Lemma chk_ok w z z' : chk w z = Ok z' <-> in_s w z /\ z' = z.
Proof.
  unfold chk. destruct (decide (in_s w z)); split; try done.
  - by intros [= <-].
  - by intros [? ->].
  - by intros [? _].
Qed.

Lemma chk_in w z : in_s w z -> chk w z = Ok z.
Proof. intros. by apply chk_ok. Qed.

(** ** Arrays

  An array access out of range is undefined behaviour. *)

Definition aget {A} (l : list A) (i : Z) : res A :=
  if decide (0 <= i) then
    match l !! Z.to_nat i with Some a => Ok a | None => UB end
  else UB.

Definition aset {A} (l : list A) (i : Z) (x : A) : res (list A) :=
  if decide (0 <= i < Z.of_nat (length l)) then Ok (<[Z.to_nat i := x]> l) else UB.

Lemma aget_ok {A} (l : list A) i x :
  aget l i = Ok x <-> 0 <= i /\ l !! Z.to_nat i = Some x.
Proof.
  unfold aget. case_decide; [|split; [done|by intros [??]]].
  destruct (l !! Z.to_nat i); split; try done.
  - by intros [= <-].
  - by intros [? [= <-]].
  - by intros [??].
Qed.

Lemma aset_ok {A} (l : list A) i x l' :
  aset l i x = Ok l' <-> 0 <= i < Z.of_nat (length l) /\ l' = <[Z.to_nat i := x]> l.
Proof.
  unfold aset. case_decide; split; try done.
  - by intros [= <-].
  - by intros [? ->].
  - by intros [? _].
Qed.

Lemma aget_in {A} (l : list A) i : 0 <= i < Z.of_nat (length l) -> defined (aget l i).
Proof.
  intros Hi. destruct (lookup_lt_is_Some_2 l (Z.to_nat i)) as [x Hx]; [lia|].
  exists x. apply aget_ok. lia || (split; [lia|done]).
Qed.

Lemma aset_length {A} (l l' : list A) i x : aset l i x = Ok l' -> length l' = length l.
Proof. intros [_ ->]%aset_ok. by rewrite length_insert. Qed.

(** ** Counting loops *)

(** [for (i = i0; ...; i++)], [n] times. *)
Fixpoint for_each {S} (n : nat) (i : Z) (body : Z -> S -> res S) (s : S) : res S :=
  match n with
  | O => Ok s
  | S n => s ← body i s; for_each n (i + 1) body s
  end.

(** The rule of a loop that ends: [P] holds before each round. *)
Lemma for_each_inv {S} (P : Z -> S -> Prop) body n i s :
  P i s ->
  (forall j s, i <= j < i + Z.of_nat n -> P j s -> exists s', body j s = Ok s' /\ P (j + 1) s') ->
  exists s', for_each n i body s = Ok s' /\ P (i + Z.of_nat n) s'.
Proof.
  revert i s. induction n as [|n IH]; intros i s Hs Hb.
  - exists s. split; [done|]. by rewrite Z.add_0_r.
  - destruct (Hb i s) as (s1 & Hs1 & Hp1); [lia|done|].
    destruct (IH (i + 1) s1 Hp1) as (s' & Hs' & Hp'); [intros; apply Hb; [lia|done]|].
    exists s'. cbn [for_each]. rewrite Hs1, bind_Ok. split; [done|].
    by replace (i + Z.of_nat (Datatypes.S n)) with (i + 1 + Z.of_nat n) by lia.
Qed.

(** A loop over a list of values. *)
Fixpoint for_list {A S} (f : A -> S -> res S) (l : list A) (s : S) : res S :=
  match l with
  | [] => Ok s
  | a :: l => s ← f a s; for_list f l s
  end.

(** Calls that do not throw, as methods. *)
Definition amend {S} (f : S -> res S) : ST S () := fun s =>
  match f s with Ok s' => (Ok tt, s') | Throw e => (Throw e, s) | UB => (UB, s) end.
Definition query {S A} (f : S -> res A) : ST S A := fun s => (f s, s).

(** ** Automation *)

Create HintDb cxx.
Create Rewrite HintDb cxx_rw.
#[export] Hint Resolve wrapu_range wraps_range defined_ok chk_in aget_in : cxx.
#[export] Hint Extern 1 (0 < _)%Z => lia : cxx.
#[export] Hint Extern 1 (0 <= _)%Z => lia : cxx.

(** Turn every equation [m = Ok _] on a monadic term into its steps. *)
Ltac res_inv :=
  repeat match goal with
  | H : Ok _ = Ok _ |- _ => injection H as H; try subst
  | H : UB = Ok _ |- _ => discriminate H
  | H : Throw _ = Ok _ |- _ => discriminate H
  | H : Ok _ = UB |- _ => discriminate H
  | H : mret _ = Ok _ |- _ => injection H as H; try subst
  | H : (let '(_, _) := (_, _) in _) = Ok _ |- _ => cbv beta iota in H
  | p : (_ * _)%type, H : (let '(_, _) := ?p in _) = Ok _ |- _ => destruct p
  | H : (_ ≫= _) = Ok _ |- _ =>
      let a := fresh "a" in let Ha := fresh "Ha" in
      apply bind_ok in H as (a & Ha & H)
  | H : require _ = Ok _ |- _ => apply require_ok in H
  | H : chk _ _ = Ok _ |- _ =>
      let Hr := fresh "Hr" in apply chk_ok in H as [Hr H]; try subst
  | H : aget _ _ = Ok _ |- _ =>
      let Hr := fresh "Hr" in apply aget_ok in H as [Hr H]
  | H : aset _ _ _ = Ok _ |- _ =>
      let Hr := fresh "Hr" in apply aset_ok in H as [Hr H]; try subst
  end.

(** Split the booleans of hypotheses and goal into arithmetic facts. *)
Ltac bool_arith :=
  repeat match goal with
  | H : _ && _ = true |- _ => apply andb_prop in H as [? ?]
  | H : _ || _ = false |- _ => apply orb_false_elim in H as [? ?]
  | H : negb _ = true |- _ => apply negb_true_iff in H
  | H : negb _ = false |- _ => apply negb_false_iff in H
  | H : (_ <? _) = true |- _ => apply Z.ltb_lt in H
  | H : (_ <? _) = false |- _ => apply Z.ltb_ge in H
  | H : (_ <=? _) = true |- _ => apply Z.leb_le in H
  | H : (_ <=? _) = false |- _ => apply Z.leb_gt in H
  | H : (_ >? _) = true |- _ => rewrite Z.gtb_ltb in H; apply Z.ltb_lt in H
  | H : (_ >? _) = false |- _ => rewrite Z.gtb_ltb in H; apply Z.ltb_ge in H
  | H : (_ >=? _) = true |- _ => rewrite Z.geb_leb in H; apply Z.leb_le in H
  | H : (_ >=? _) = false |- _ => rewrite Z.geb_leb in H; apply Z.leb_gt in H
  | H : (_ =? _) = true |- _ => apply Z.eqb_eq in H
  | H : (_ =? _) = false |- _ => apply Z.eqb_neq in H
  end.

(** Linear arithmetic with quotients and remainders. *)
Ltac zdiv_lia := Z.to_euclidean_division_equations; lia.

(** A decidable closed fact, by evaluation. *)
Ltac solve_decide := apply (bool_decide_unpack _); vm_compute; exact I.
