(* ===== verification/Hardware.v ===== *)
(** * Firmware hardware layer

  The pin assignment and constants of the firmware ([hw.h], [constants.h]),
  and the Arduino implementations of the digital output, PWM output and
  interrupt input interfaces ([digital_out_arduino], [pwm_out_arduino],
  [interrupt_in_arduino]). The world [hw] records every pin operation in a
  trace, the pin change interrupt registers and the callbacks attached to the
  three interrupt vectors. The Arduino core macros that map a pin to its port
  and bit are not part of the repository: they are the class [ArduinoCore].

  Widths are those of the target microcontroller (ATmega328P, avr-gcc):
  [int] has 16 bits and [long] has 32. *)

From stdpp Require Import base option list numbers.
From Stdlib Require Import ZArith Lia.
From S2P Require Import Prelude.

Definition int_w : Z := 16.
Definition long_w : Z := 32.

Abbreviation in_int := (in_s 16).
Abbreviation in_long := (in_s 32).

(** ** Pin assignment and constants *)

Module Hw.
Definition kLeftEncoderChannelAGpioPin : Z := 2.
Definition kLeftEncoderChannelBGpioPin : Z := 3.
Definition kRightEncoderChannelAGpioPin : Z := 16.
Definition kRightEncoderChannelBGpioPin : Z := 17.
Definition kLeftMotorBackwardGpioPin : Z := 6.
Definition kLeftMotorForwardGpioPin : Z := 10.
Definition kLeftMotorEnableGpioPin : Z := 13.
Definition kRightMotorBackwardGpioPin : Z := 5.
Definition kRightMotorForwardGpioPin : Z := 9.
Definition kRightMotorEnableGpioPin : Z := 12.
End Hw.

Module Constants.
Definition kBaudrate : Z := 57600.
Definition kAutoStopWindow : Z := 3000.
Definition kPwmMin : Z := 0.
Definition kPwmMax : Z := 255.
Definition kPidRate : Z := 30.
(** [1000 / kPidRate] is an integer division; the [double] it initialises
    holds 33 exactly. *)
Definition kPidPeriod : Z := Z.quot 1000 kPidRate.
Definition kPidKp : Z := 30.
Definition kPidKd : Z := 10.
Definition kPidKi : Z := 0.
Definition kPidKo : Z := 10.
End Constants.

(** ** The world *)

Inductive pin_mode : Type := OUTPUT | INPUT_PULLUP.

Inductive io_event : Type :=
  | PinMode (pin : Z) (mode : pin_mode)
  | DigitalWrite (pin value : Z)
  | AnalogWrite (pin value : Z)
  | SerialBegin (baud : Z)
  | ImuSetExtCrystalUse (use : bool).

(** [trace] is the list of pin operations, newest first; [din] the level an
    input pin reads now; a callback is named by its index in the encoder's
    callback table. *)
Record hw : Type := mk_hw {
  trace : list io_event;
  pcmsk : list Z;
  pcicr : Z;
  g_callbacks : list (option nat);
  din : Z -> Z }.

Definition hw_init (levels : Z -> Z) : hw :=
  mk_hw [] [0; 0; 0] 0 [None; None; None] levels.

Definition emit (e : io_event) (h : hw) : hw :=
  mk_hw (e :: trace h) (pcmsk h) (pcicr h) (g_callbacks h) (din h).

Definition set_din (levels : Z -> Z) (h : hw) : hw :=
  mk_hw (trace h) (pcmsk h) (pcicr h) (g_callbacks h) levels.

(** The duty cycle a pin outputs: the last one written. *)
Fixpoint pwm_of (pin : Z) (tr : list io_event) : option Z :=
  match tr with
  | [] => None
  | AnalogWrite p v :: tr' => if decide (p = pin) then Some v else pwm_of pin tr'
  | _ :: tr' => pwm_of pin tr'
  end.

Definition pwm_level (pin : Z) (h : hw) : option Z := pwm_of pin (trace h).

(** ** Digital and PWM outputs *)

Module DigitalOutArduino.
Definition begin (gpio_pin : Z) (h : hw) : hw := emit (PinMode gpio_pin OUTPUT) h.
Definition write (gpio_pin value : Z) (h : hw) : hw := emit (DigitalWrite gpio_pin value) h.
End DigitalOutArduino.

Module PwmOutArduino.
Definition begin (gpio_pin : Z) (h : hw) : hw := emit (PinMode gpio_pin OUTPUT) h.
Definition write (gpio_pin value : Z) (h : hw) : hw := emit (AnalogWrite gpio_pin value) h.
End PwmOutArduino.

(** ** Interrupt inputs *)

(** The interface [interrupt_in.h] promises to the encoders: configure a pin,
    read its level, attach a callback to its change interrupt. [W] is the world
    the implementation acts on. *)
Class InterruptIn (W : Type) : Type := {
  ii_begin : Z -> W -> W;
  ii_read : Z -> W -> Z;
  ii_attach : Z -> nat -> W -> res W }.

(** The Arduino core's pin tables. *)
Class ArduinoCore : Type := {
  digitalPinToPort : Z -> Z;
  digitalPinToBitMask : Z -> Z;
  NOT_A_PORT : Z }.

Module InterruptInArduino.
Section InterruptInArduino.
Context `{ArduinoCore}.

Definition begin (gpio_pin : Z) (h : hw) : hw := emit (PinMode gpio_pin INPUT_PULLUP) h.

Definition read (gpio_pin : Z) (h : hw) : Z := din h gpio_pin.

Definition attach (gpio_pin : Z) (callback : nat) (h : hw) : res hw :=
  let bit_mask := wrapu 8 (digitalPinToBitMask gpio_pin) in
  let port := wrapu 8 (digitalPinToPort gpio_pin) in
  if port =? NOT_A_PORT then Ok h else
  let port := wrapu 8 (port - 2) in
  mask ← aget (pcmsk h) port;
  pcmsk' ← aset (pcmsk h) port (Z.lor mask bit_mask);
  let pcicr' := Z.lor (pcicr h) (wrapu 8 (Z.shiftl 1 port)) in
  g_callbacks' ← aset (g_callbacks h) port (Some callback);
  Ok (mk_hw (trace h) pcmsk' pcicr' g_callbacks' (din h)).

(** The callback the service routine of vector [PCINTk] runs, if any. *)
Definition ISR (k : nat) (h : hw) : option nat :=
  match g_callbacks h !! k with Some (Some cb) => Some cb | _ => None end.
End InterruptInArduino.
End InterruptInArduino.

#[export] Instance arduino_interrupt_in `{ArduinoCore} : InterruptIn hw := {
  ii_begin := InterruptInArduino.begin;
  ii_read := InterruptInArduino.read;
  ii_attach := InterruptInArduino.attach }.

(** ** Facts *)

Lemma pwm_level_emit pin e h :
  pwm_level pin (emit e h) =
    match e with
    | AnalogWrite p v => if decide (p = pin) then Some v else pwm_level pin h
    | _ => pwm_level pin h
    end.
Proof. by destruct e. Qed.

#[export] Hint Rewrite pwm_level_emit : cxx_rw.

(** [attach] routes the vector of the pin's port to the callback, enables that
    vector and its pin, and leaves the other vectors alone. *)
Lemma attach_spec `{ArduinoCore} pin cb h h' :
  length (g_callbacks h) = 3%nat ->
  wrapu 8 (digitalPinToPort pin) <> NOT_A_PORT ->
  InterruptInArduino.attach pin cb h = Ok h' ->
  let k := Z.to_nat (wrapu 8 (wrapu 8 (digitalPinToPort pin) - 2)) in
  InterruptInArduino.ISR k h' = Some cb /\
  (forall j, j <> k -> InterruptInArduino.ISR j h' = InterruptInArduino.ISR j h) /\
  Z.testbit (pcicr h') (Z.of_nat k) = true /\
  trace h' = trace h /\ length (g_callbacks h') = 3%nat.
Proof.
  intros Hlen Hport Hat. unfold InterruptInArduino.attach in Hat.
  rewrite (proj2 (Z.eqb_neq _ _) Hport) in Hat.
  set (p := wrapu 8 (wrapu 8 (digitalPinToPort pin) - 2)) in *.
  res_inv. unfold InterruptInArduino.ISR; simpl in *.
  assert (p < 3) by (rewrite Hlen in *; lia).
  repeat split.
  - rewrite list_lookup_insert_eq; [done|lia].
  - intros j Hj. by rewrite list_lookup_insert_ne by done.
  - rewrite Z.lor_spec. apply orb_true_iff. right. unfold wrapu.
    rewrite Z2Nat.id by lia.
    assert (p = 0 \/ p = 1 \/ p = 2) as [->|[->| ->]] by lia; reflexivity.
  - by rewrite length_insert.
Qed.
