(* ===== verification/Motor.v ===== *)
(** * Motor driver of the firmware ([motor.h], [motor.cpp])

  A motor drives one half of an L298N bridge through an enable pin and two
  PWM pins. *)

From stdpp Require Import base option list numbers.
From Stdlib Require Import ZArith Lia.
From S2P Require Import Prelude Hardware.

Module Motor.

Definition kMinSpeed : Z := 0.
Definition kMaxSpeed : Z := 255.

Record motor : Type := mk_motor {
  enable_digital_out : Z;
  forward_pwm_out : Z;
  backward_pwm_out : Z }.

Definition begin (m : motor) (h : hw) : hw :=
  let h := DigitalOutArduino.begin (enable_digital_out m) h in
  let h := PwmOutArduino.begin (forward_pwm_out m) h in
  PwmOutArduino.begin (backward_pwm_out m) h.

Definition enable (m : motor) (enabled : bool) (h : hw) : hw :=
  DigitalOutArduino.write (enable_digital_out m) (if enabled then 1 else 0) h.

Definition set_speed (m : motor) (speed : Z) (h : hw) : res hw :=
  '(speed, forward) ←
    (if speed <? kMinSpeed then s ← chk 16 (- speed); Ok (s, false)
     else Ok (speed, true));
  let speed := if speed >? kMaxSpeed then kMaxSpeed else speed in
  Ok (if forward : bool then
        PwmOutArduino.write (backward_pwm_out m) 0
          (PwmOutArduino.write (forward_pwm_out m) speed h)
      else
        PwmOutArduino.write (forward_pwm_out m) 0
          (PwmOutArduino.write (backward_pwm_out m) speed h)).

(** ** Specification *)

Definition wired (m : motor) : Prop := forward_pwm_out m <> backward_pwm_out m.

(** The duty cycles a speed asks for. *)
Definition forward_duty (speed : Z) : Z := if speed <? 0 then 0 else Z.min speed 255.
Definition backward_duty (speed : Z) : Z := if speed <? 0 then Z.min (- speed) 255 else 0.

Definition outputs (m : motor) (h : hw) : option Z * option Z :=
  (pwm_level (forward_pwm_out m) h, pwm_level (backward_pwm_out m) h).

(** Everything [set_speed] leaves alone. *)
Definition same_registers (h h' : hw) : Prop :=
  pcmsk h' = pcmsk h /\ pcicr h' = pcicr h /\ g_callbacks h' = g_callbacks h /\
  din h' = din h.

Lemma set_speed_defined m speed h :
  in_int speed -> speed <> - 2 ^ 15 -> defined (set_speed m speed h).
Proof.
  unfold set_speed, in_s, kMinSpeed. intros Hs Hne.
  destruct (Z.ltb_spec speed 0); [|simpl; apply defined_ok].
  rewrite chk_in by (unfold in_s; lia). simpl. apply defined_ok.
Qed.

Lemma set_speed_outputs m speed h h' :
  wired m -> set_speed m speed h = Ok h' ->
  outputs m h' = (Some (forward_duty speed), Some (backward_duty speed)) /\
  (forall p, p <> forward_pwm_out m -> p <> backward_pwm_out m ->
     pwm_level p h' = pwm_level p h) /\
  same_registers h h'.
Proof.
  unfold set_speed, outputs, forward_duty, backward_duty, kMinSpeed, kMaxSpeed, wired.
  intros Hw H.
  destruct (Z.ltb_spec speed 0); res_inv; simpl in *; res_inv.
  all: split_and!; try done.
  all: intros; unfold PwmOutArduino.write; autorewrite with cxx_rw.
  all: repeat case_decide; try congruence.
  all: repeat f_equal; rewrite Z.gtb_ltb.
  all: match goal with |- context [255 <? ?x] => destruct (Z.ltb_spec 255 x) end; lia.
Qed.

Lemma duty_exclusive speed : forward_duty speed = 0 \/ backward_duty speed = 0.
Proof. unfold forward_duty, backward_duty. destruct (speed <? 0); auto. Qed.

Lemma duty_range speed :
  0 <= forward_duty speed <= 255 /\ 0 <= backward_duty speed <= 255.
Proof. unfold forward_duty, backward_duty. destruct (Z.ltb_spec speed 0); lia. Qed.

(** ** Properties *)

(** [set_speed] accepts every [int] but the smallest one, whose negation
    overflows. The pin of the commanded direction gets the magnitude of the
    speed saturated at 255 and the other pin gets 0, so both duties are legal and
    the bridge is never left driven both ways; every other pin and every
    register keeps its value. *)
Theorem motor_set_speed m speed h (Hw : wired m) (Hs : in_int speed) :
  if decide (speed = - 2 ^ 15) then set_speed m speed h = UB
  else exists h', set_speed m speed h = Ok h' /\
    outputs m h' = (Some (forward_duty speed), Some (backward_duty speed)) /\
    0 <= forward_duty speed <= 255 /\ 0 <= backward_duty speed <= 255 /\
    (forward_duty speed = 0 \/ backward_duty speed = 0) /\
    forward_duty speed - backward_duty speed = Z.max (-255) (Z.min 255 speed) /\
    (forall p, p <> forward_pwm_out m -> p <> backward_pwm_out m ->
       pwm_level p h' = pwm_level p h) /\
    same_registers h h'.
Proof.
  case_decide as Hd; [by subst|].
  destruct (set_speed_defined m speed h Hs Hd) as [h' Hh].
  destruct (set_speed_outputs m speed h h' Hw Hh) as (Ho & Hp & Hr).
  pose proof (duty_range speed). exists h'. split_and!; try tauto.
  - apply duty_exclusive.
  - unfold forward_duty, backward_duty. destruct (Z.ltb_spec speed 0); lia.
Qed.

Lemma motor_set_speed_witness :
  let m := mk_motor 13 10 6 in
  wired m /\ in_int (-300) /\ exists h', set_speed m (-300) (hw_init (fun _ => 0)) = Ok h' /\
    outputs m h' = (Some 0, Some 255).
Proof.
  intros m. assert (wired m) as Hw by done. assert (in_int (-300)) as Hs by (unfold in_s; lia).
  pose proof (motor_set_speed m (-300) (hw_init (fun _ => 0)) Hw Hs) as Hp.
  split; [exact Hw|]. split; [exact Hs|]. simpl in Hp.
  destruct Hp as (h' & Hh & Ho & _). exists h'. split; [exact Hh|exact Ho].
Defined.

End Motor.
