(* ===== verification/Encoder.v ===== *)
(** * Quadrature encoder of the firmware ([encoder.h], [encoder.cpp])

  Each pin change interrupt of a channel runs [callback], which shifts the
  two channel levels into a state byte and adds the entry of a 16 entry table
  to the tick count. The static members of the class (the table of instances
  and its size) are the record [registry]; encoder objects are named by their
  index in a store. The component is written against the [InterruptIn]
  interface, for any world [W]. *)

From stdpp Require Import base option list numbers.
From Stdlib Require Import ZArith Lia.
From S2P Require Import Prelude Hardware.

Module Encoder.

Definition kTicksDelta : list Z := [0; 1; -1; 0; -1; 0; 0; 1; 1; 0; 0; -1; 0; -1; 1; 0].
Definition kInstancesMax : Z := 2.

Record encoder : Type := mk_encoder {
  channel_a : Z;
  channel_b : Z;
  state : Z;
  count : Z }.

(** The static members: [instances_] and [instance_count_]. [kCallbacks] is
    the table [callback_0, callback_1]: a callback is its index. *)
Record registry : Type := mk_registry {
  instances : list (option nat);
  instance_count : Z }.

Definition new (a b : Z) : encoder := mk_encoder a b 0 0.
Definition registry_init : registry := mk_registry [None; None] 0.

Section Ops.
Context {W : Type} `{InterruptIn W}.

(** [begin] of the object [self]. *)
Definition begin (self : nat) (e : encoder) (r : registry) (w : W) : res (registry * W) :=
  if instance_count r =? kInstancesMax then Ok (r, w) else
  let cb := Z.to_nat (instance_count r) in
  w ← ii_attach (channel_a e) cb (ii_begin (channel_a e) w);
  w ← ii_attach (channel_b e) cb (ii_begin (channel_b e) w);
  instances' ← aset (instances r) (instance_count r) (Some self);
  n ← chk 16 (instance_count r + 1);
  Ok (mk_registry instances' n, w).

Definition read (e : encoder) : Z := count e.

Definition reset (e : encoder) : encoder :=
  mk_encoder (channel_a e) (channel_b e) (state e) 0.

(** [state_ <<= 2; state_ |= (b->read() << 1) | a->read();
    count_ += kTicksDelta[state_ & 0x0F]]. *)
Definition callback (e : encoder) (w : W) : res encoder :=
  let state1 := wrapu 8 (Z.shiftl (state e) 2) in
  let state2 := wrapu 8
    (Z.lor state1
       (Z.lor (Z.shiftl (ii_read (channel_b e) w) 1) (ii_read (channel_a e) w))) in
  delta ← aget kTicksDelta (Z.land state2 15);
  count' ← chk 32 (count e + delta);
  Ok (mk_encoder (channel_a e) (channel_b e) state2 count').

(** The static wrappers [callback_0] and [callback_1]: redirect to the
    registered instance, if there is one. *)
Definition callback_i (i : nat) (r : registry) (store : list encoder) (w : W) :
    res (list encoder) :=
  match instances r !! i with
  | Some (Some self) =>
      match store !! self with
      | Some e => e' ← callback e w; Ok (<[self := e']> store)
      | None => UB
      end
  | Some None => Ok store
  | None => UB
  end.

(** A sequence of interrupts, each seeing its own world. *)
Fixpoint callbacks (e : encoder) (ws : list W) : res encoder :=
  match ws with
  | [] => Ok e
  | w :: ws => e' ← callback e w; callbacks e' ws
  end.

(** ** Specification: the quadrature code of a position *)

Definition gray (p : Z) : Z :=
  let q := p mod 4 in if q =? 2 then 3 else if q =? 3 then 2 else q.

(** The channels show the position [p]: A is the low bit of its code and B
    the high bit. *)
Definition shows (e : encoder) (p : Z) (w : W) : Prop :=
  ii_read (channel_a e) w = Z.land (gray p) 1 /\
  ii_read (channel_b e) w = Z.shiftr (gray p) 1.

(** The last two bits of the state are the code of the position. *)
Definition at_position (e : encoder) (p : Z) : Prop :=
  in_u 8 (state e) /\ Z.land (state e) 3 = gray p.

(** A path of positions moving at most one step at a time, staying where the
    count [c + (p - p0)] fits a [long]. *)
Fixpoint path (c p0 p : Z) (ps : list Z) : Prop :=
  match ps with
  | [] => True
  | q :: ps => Z.abs (q - p) <= 1 /\ in_long (c + (q - p0)) /\ path c p0 q ps
  end.

(** The position a path ends at. *)
Definition final (p : Z) (ps : list Z) : Z := fold_left (fun _ q => q) ps p.

Lemma gray_cases p :
  (p mod 4 = 0 /\ gray p = 0) \/ (p mod 4 = 1 /\ gray p = 1) \/
  (p mod 4 = 2 /\ gray p = 3) \/ (p mod 4 = 3 /\ gray p = 2).
Proof.
  unfold gray. pose proof (Z.mod_pos_bound p 4 ltac:(lia)).
  assert (p mod 4 = 0 \/ p mod 4 = 1 \/ p mod 4 = 2 \/ p mod 4 = 3)
    as [->|[->|[->| ->]]] by lia; cbn; tauto.
Qed.

(** The state byte after an interrupt, read modulo 16: the previous code in
    bits 2 and 3, the current one in bits 0 and 1. *)
Lemma state_nibble s x :
  0 <= x < 4 ->
  let s2 := wrapu 8 (Z.lor (wrapu 8 (Z.shiftl s 2)) x) in
  Z.land s2 15 = 4 * Z.land s 3 + x /\ Z.land s2 3 = x.
Proof.
  intros Hx s2. subst s2. unfold wrapu.
  rewrite <- !Z.land_ones by lia. rewrite Z.land_lor_distr_l.
  rewrite <- Z.land_assoc, Z.land_diag.
  assert (Z.land x (Z.ones 8) = x) as ->.
  { rewrite Z.land_ones by lia. apply Z.mod_small. lia. }
  assert (forall m, Z.land (Z.lor (Z.land (Z.shiftl s 2) (Z.ones 8)) x) m =
    Z.lor (Z.land (Z.shiftl s 2) (Z.land (Z.ones 8) m)) (Z.land x m)) as Hm.
  { intros m. by rewrite Z.land_lor_distr_l, Z.land_assoc. }
  rewrite !Hm. change (Z.land (Z.ones 8) 15) with (Z.ones 4).
  change (Z.land (Z.ones 8) 3) with (Z.ones 2).
  change 15 with (Z.ones 4). change 3 with (Z.ones 2).
  rewrite !Z.land_ones, !Z.shiftl_mul_pow2 by lia.
  change (2 ^ 4) with (4 * 2 ^ 2). change (2 ^ 2) with 4.
  rewrite (Z.mul_comm s 4), Z.mul_mod_distr_l, !(Z.mod_small x) by lia.
  rewrite (Z.mul_comm 4 s), Z.mod_mul by lia.
  split; [|done].
  rewrite <- Z.add_lor_land.
  assert (Z.land (4 * (s mod 4)) x = 0) as ->; [|lia].
  pose proof (Z.mod_pos_bound s 4 ltac:(lia)).
  assert (x = 0 \/ x = 1 \/ x = 2 \/ x = 3) as Hc by lia.
  assert (s mod 4 = 0 \/ s mod 4 = 1 \/ s mod 4 = 2 \/ s mod 4 = 3) as Hd by lia.
  destruct Hc as [->|[->|[->| ->]]], Hd as [->|[->|[->| ->]]]; reflexivity.
Qed.

(** The table is the difference of the positions, for steps of at most one. *)
Lemma ticks_delta_step p q :
  Z.abs (q - p) <= 1 -> aget kTicksDelta (4 * gray p + gray q) = Ok (q - p).
Proof.
  intros Hq.
  destruct (gray_cases p) as [[Hp ->]|[[Hp ->]|[[Hp ->]|[Hp ->]]]];
    destruct (gray_cases q) as [[Hm ->]|[[Hm ->]|[[Hm ->]|[Hm ->]]]].
  all: assert (q - p = 0 \/ q - p = 1 \/ q - p = -1) as [Hd|[Hd|Hd]] by lia; rewrite Hd;
    first [reflexivity | exfalso; Z.to_euclidean_division_equations; lia].
Qed.

Lemma reading_code e p w :
  shows e p w ->
  Z.lor (Z.shiftl (ii_read (channel_b e) w) 1) (ii_read (channel_a e) w) = gray p /\
  0 <= gray p < 4.
Proof.
  intros [-> ->].
  destruct (gray_cases p) as [[_ ->]|[[_ ->]|[[_ ->]|[_ ->]]]]; split; done || lia.
Qed.

(** One interrupt moves the count by the displacement of the shaft. *)
Lemma callback_step e p q w :
  at_position e p -> shows e q w -> Z.abs (q - p) <= 1 ->
  in_long (count e + (q - p)) ->
  exists e', callback e w = Ok e' /\ at_position e' q /\
    count e' = count e + (q - p) /\
    channel_a e' = channel_a e /\ channel_b e' = channel_b e.
Proof.
  intros [Hs Hg] Hsh Hq Hc. destruct (reading_code e q w Hsh) as [Hr Hrange].
  pose proof (state_nibble (state e) (gray q) Hrange) as [H15 H3].
  unfold callback. rewrite Hr, H15, Hg, ticks_delta_step by done. simpl.
  rewrite chk_in by done. simpl. eexists; split; [reflexivity|]. simpl.
  split; [|done]. split; [|done]. simpl. apply wrapu_range. lia.
Qed.

Lemma callbacks_path c p0 ps : forall e p ws,
  at_position e p -> count e = c + (p - p0) -> path c p0 p ps ->
  Forall2 (shows e) ps ws ->
  exists e', callbacks e ws = Ok e' /\ at_position e' (final p ps) /\
    count e' = c + (final p ps - p0).
Proof.
  induction ps as [|q ps IH]; intros e p ws Hat Hc Hp Hall.
  - apply Forall2_nil_inv_l in Hall as ->. by exists e.
  - apply Forall2_cons_inv_l in Hall as (w & ws' & Hw & Hws & ->).
    simpl in Hp. destruct Hp as (Hstep & Hin & Hp).
    destruct (callback_step e p q w) as (e1 & He1 & Hat1 & Hc1 & Ha & Hb); try done.
    { by replace (count e + (q - p)) with (c + (q - p0)) by lia. }
    destruct (IH e1 q ws') as (e' & He' & Hat' & Hc'); [done|lia|done| |].
    { eapply Forall2_impl; [|exact Hws]. unfold shows. intros ??. by rewrite Ha, Hb. }
    exists e'. simpl. rewrite He1. simpl. done.
Qed.

(** Any interrupt moves the count by at most one and keeps the state a byte. *)
Lemma callback_bounded e w e' :
  callback e w = Ok e' -> Z.abs (count e' - count e) <= 1 /\ in_u 8 (state e').
Proof.
  unfold callback. intros Hcb. res_inv. simpl. split.
  - assert (Forall (fun z => Z.abs z <= 1) kTicksDelta) as Hf
      by (unfold kTicksDelta; repeat constructor; lia).
    match goal with
    | Hl : kTicksDelta !! _ = Some ?d |- _ => pose proof (Forall_lookup_1 _ _ _ _ Hf Hl)
    end. simpl in *. lia.
  - apply wrapu_range. lia.
Qed.
(** ** Properties *)

(** The encoder decodes quadrature. Started on the code of position [p0],
    after any sequence of interrupts along a path of positions that moves at most
    one step at a time, the count has moved by exactly the displacement of the
    shaft, and the decoder is on the code of the last position. *)
Theorem encoder_tracks_position e p0 ps ws
  (Hat : at_position e p0) (Hpath : path (count e) p0 p0 ps)
  (Hshow : Forall2 (shows e) ps ws) :
  exists e', callbacks e ws = Ok e' /\ at_position e' (final p0 ps) /\
    read e' = read e + (final p0 ps - p0) /\ read (reset e') = 0.
Proof.
  destruct (callbacks_path (count e) p0 ps e p0 ws) as (e' & Hc & Ha & Hn);
    [done|lia|done|done|]. by exists e'.
Qed.

End Ops.

(** A turn of three steps forward and one back on the pins of the left wheel. *)
Definition demo_levels (p : Z) : hw :=
  hw_init (fun pin => if pin =? 2 then Z.land (gray p) 1 else Z.shiftr (gray p) 1).

Definition demo_core : ArduinoCore := {|
  digitalPinToPort _ := 4; digitalPinToBitMask p := 2 ^ p; NOT_A_PORT := 0 |}.

Lemma encoder_tracks_position_witness :
  exists e', callbacks (H := @arduino_interrupt_in demo_core) (new 2 3)
    (map demo_levels [1; 2; 3; 2]) = Ok e' /\ count e' = 2.
Proof.
  pose (e := new 2 3).
  assert (at_position e 0) as Ha by (split; [unfold in_u; simpl; lia|reflexivity]).
  assert (path (count e) 0 0 [1; 2; 3; 2]) as Hp
    by (simpl; unfold in_s; repeat split; lia).
  assert (Forall2 (shows (H := @arduino_interrupt_in demo_core) e) [1; 2; 3; 2]
    (map demo_levels [1; 2; 3; 2])) as Hs by (repeat constructor).
  destruct (encoder_tracks_position e 0 [1; 2; 3; 2] _ Ha Hp Hs) as (e' & Hc & _ & Hr & _).
  exists e'. split; [exact Hc|exact Hr].
Defined.
End Encoder.
