(* ===== verification/Pid.v ===== *)
(** * PID controller of the firmware ([pid.h], [pid.cpp])

  Integer PID with saturated output. [int] arithmetic has 16 bits and [long]
  arithmetic 32: a signed overflow is undefined behaviour, and the conversion
  of a [long] to an [int] wraps. *)

From stdpp Require Import base option list numbers.
From Stdlib Require Import ZArith Lia.
From S2P Require Import Prelude Hardware.

Module Pid.

Record pid : Type := mk_pid {
  kp : Z; kd : Z; ki : Z; ko : Z;
  output_min : Z; output_max : Z;
  is_enabled : bool;
  setpoint : Z;
  integral_term : Z;
  last_encoder_count : Z;
  last_input : Z;
  last_output : Z }.

Definition new (kp kd ki ko output_min output_max : Z) : pid :=
  mk_pid kp kd ki ko output_min output_max false 0 0 0 0 0.

Definition reset (encoder_count : Z) (p : pid) : pid :=
  mk_pid (kp p) (kd p) (ki p) (ko p) (output_min p) (output_max p) (is_enabled p)
    0 0 encoder_count 0 0.

Definition enabled (p : pid) : bool := is_enabled p.

Definition set_enabled (b : bool) (p : pid) : pid :=
  mk_pid (kp p) (kd p) (ki p) (ko p) (output_min p) (output_max p) b
    (setpoint p) (integral_term p) (last_encoder_count p) (last_input p) (last_output p).

Definition enable : pid -> pid := set_enabled true.
Definition disable : pid -> pid := set_enabled false.

(** [computed_output] is a reference argument: its new value is returned. *)
Definition compute (encoder_count computed_output : Z) (p : pid) : res (pid * Z) :=
  if negb (is_enabled p) then
    Ok (if last_input p =? 0 then p else reset encoder_count p, computed_output)
  else
    diff ← chk 32 (encoder_count - last_encoder_count p);
    let input := wraps 16 diff in
    error ← chk 16 (setpoint p - input);
    prop ← chk 32 (kp p * error);
    dinput ← chk 16 (input - last_input p);
    deriv ← chk 16 (kd p * dinput);
    sum ← chk 32 (prop - deriv);
    sum ← chk 32 (sum + integral_term p);
    _ ← require (negb (ko p =? 0));
    output ← chk 32 (Z.quot sum (ko p));
    output ← chk 32 (output + last_output p);
    '(output, integral) ←
      (if output >=? output_max p then Ok (output_max p, integral_term p)
       else if output <=? output_min p then Ok (output_min p, integral_term p)
       else
         inc ← chk 32 (ki p * error);
         acc ← chk 32 (integral_term p + inc);
         Ok (output, wraps 16 acc));
    Ok (mk_pid (kp p) (kd p) (ki p) (ko p) (output_min p) (output_max p) (is_enabled p)
          (setpoint p) integral encoder_count input output,
        wraps 16 output).

Definition set_setpoint (s : Z) (p : pid) : pid :=
  mk_pid (kp p) (kd p) (ki p) (ko p) (output_min p) (output_max p) (is_enabled p)
    s (integral_term p) (last_encoder_count p) (last_input p) (last_output p).

Definition set_tunings (kp kd ki ko : Z) (p : pid) : pid :=
  mk_pid kp kd ki ko (output_min p) (output_max p) (is_enabled p)
    (setpoint p) (integral_term p) (last_encoder_count p) (last_input p) (last_output p).

(** ** Specification *)

(** The limits are a non empty range of [int]s around zero. *)
Definition limits_ok (p : pid) : Prop :=
  in_int (output_min p) /\ in_int (output_max p) /\ output_min p <= 0 <= output_max p.

(** The last output respects the limits: every operation keeps this. *)
Definition wf (p : pid) : Prop :=
  limits_ok p /\ output_min p <= last_output p <= output_max p.

Definition clamp (lo hi z : Z) : Z := Z.max lo (Z.min hi z).

(** The control law over unbounded integers: the raw output before
    saturation, for a displacement of [input] ticks since the last call. *)
Definition raw_output (p : pid) (input : Z) : Z :=
  Z.quot (kp p * (setpoint p - input) - kd p * (input - last_input p) + integral_term p)
    (ko p) + last_output p.

(** The displacement the controller sees: the counts are truncated to [int]s. *)
Definition displacement (p : pid) (encoder_count : Z) : Z :=
  wraps 16 (encoder_count - last_encoder_count p).

Lemma compute_disabled p c o :
  is_enabled p = false ->
  compute c o p = Ok (if last_input p =? 0 then p else reset c p, o).
Proof. unfold compute. by intros ->. Qed.

(** What a defined call of an enabled controller computes. *)
Lemma compute_enabled p c o p' o' :
  is_enabled p = true -> limits_ok p -> compute c o p = Ok (p', o') ->
  let input := displacement p c in
  o' = clamp (output_min p) (output_max p) (raw_output p input) /\
  last_output p' = o' /\ last_input p' = input /\ last_encoder_count p' = c /\
  setpoint p' = setpoint p /\ is_enabled p' = true /\
  (kp p' = kp p /\ kd p' = kd p /\ ki p' = ki p /\ ko p' = ko p) /\
  (output_min p' = output_min p /\ output_max p' = output_max p) /\
  integral_term p' =
    (if (output_min p <? raw_output p input) && (raw_output p input <? output_max p)
     then wraps 16 (integral_term p + ki p * (setpoint p - input))
     else integral_term p).
Proof.
  intros He (Hmin & Hmax & Hrange). unfold compute, displacement, raw_output, clamp.
  rewrite He. simpl. intros Hc. res_inv. simpl in *.
  rewrite Z.geb_leb in *.
  match goal with H : require _ = _ |- _ => clear H | _ => idtac end.
  set (raw := _ `quot` ko p + last_output p) in *.
  destruct (Z.leb_spec (output_max p) raw); [|destruct (Z.leb_spec raw (output_min p))].
  all: res_inv; simpl; rewrite wraps_id by (unfold in_s in *; lia).
  all: split; [lia|]; repeat (split; [done|]).
  - destruct (Z.ltb_spec raw (output_max p)); [lia|]. by rewrite andb_false_r.
  - destruct (Z.ltb_spec (output_min p) raw); [lia|done].
  - rewrite !(proj2 (Z.ltb_lt _ _)) by lia. done.
Qed.

(** The counts may be truncated: the displacement is exact as long as it fits
    an [int]. *)
Lemma displacement_exact p c0 c :
  last_encoder_count p = wraps 16 c0 -> in_int (c - c0) ->
  displacement p (wraps 16 c) = c - c0.
Proof.
  intros Hl Hc. unfold displacement. rewrite Hl.
  destruct (wraps_mod 16 c ltac:(lia)) as [k Hk].
  destruct (wraps_mod 16 c0 ltac:(lia)) as [k0 Hk0].
  rewrite <- (wraps_id 16 (c - c0)) by (lia || done). apply wraps_eqm; [lia|].
  rewrite Hk, Hk0.
  replace (c + k * 2 ^ 16 - (c0 + k0 * 2 ^ 16) - (c - c0)) with ((k - k0) * 2 ^ 16) by lia.
  apply Z.mod_mul. lia.
Qed.

(** Bounds under which no intermediate result overflows: those of the default
    gains, with the setpoints a speed command can reach and displacements well
    below what the motors can do in one period. *)
Definition within_bounds (p : pid) : Prop :=
  kp p = Constants.kPidKp /\ kd p = Constants.kPidKd /\ ki p = Constants.kPidKi /\
  ko p = Constants.kPidKo /\ output_min p = - Constants.kPwmMax /\
  output_max p = Constants.kPwmMax /\ integral_term p = 0 /\
  Z.abs (setpoint p) <= 1092 /\ Z.abs (last_input p) <= 1600 /\
  in_int (last_encoder_count p) /\ Z.abs (last_output p) <= 255.

Lemma quot_bound a b m : 0 < b -> Z.abs a <= m -> Z.abs (Z.quot a b) <= m.
Proof.
  intros Hb Ha. rewrite <- Z.quot_abs, Z.quot_div_nonneg by lia.
  pose proof (Z.div_le_upper_bound (Z.abs a) (Z.abs b) (Z.abs a) ltac:(lia)). nia.
Qed.

Lemma compute_defined p c o :
  within_bounds p -> in_int c -> Z.abs (displacement p c) <= 1600 ->
  exists p' o', compute c o p = Ok (p', o') /\ within_bounds p' /\
    (is_enabled p = true ->
     o' = clamp (-255) 255 (raw_output p (displacement p c))).
Proof.
  unfold within_bounds. intros (Hkp & Hkd & Hki & Hko & Hmin & Hmax & Hint & Hsp & Hli
    & Hlc & Hlo) Hc Hd.
  destruct (is_enabled p) eqn:He; cycle 1.
  { rewrite compute_disabled by done. do 2 eexists. split; [reflexivity|].
    split; [|done]. destruct (last_input p =? 0); simpl; split_and!; try done; lia. }
  assert (exists p' o', compute c o p = Ok (p', o')) as (p' & o' & Hcomp).
  { unfold compute. rewrite He. simpl. unfold displacement in Hd.
    unfold in_s in Hc, Hlc. rewrite Hkp, Hkd, Hki, Hko, Hint, Hmin, Hmax.
    cbv [Constants.kPidKp Constants.kPidKd Constants.kPidKi Constants.kPidKo
         Constants.kPwmMax].
    rewrite chk_in by (unfold in_s; lia). simpl.
    set (input := wraps 16 _) in *.
    rewrite chk_in by (unfold in_s; lia). simpl.
    rewrite chk_in by (unfold in_s; lia). simpl.
    rewrite chk_in by (unfold in_s; lia). simpl.
    rewrite chk_in by (unfold in_s; lia). simpl.
    rewrite chk_in by (unfold in_s; lia). simpl.
    rewrite chk_in by (unfold in_s; lia). simpl.
    match goal with |- context [Z.quot ?a 10] =>
      pose proof (quot_bound a 10 200000 ltac:(lia) ltac:(lia)) as Hq end.
    rewrite chk_in by (unfold in_s; lia). simpl.
    rewrite chk_in by (unfold in_s; lia). simpl.
    repeat case_match; simpl; eauto. }
  exists p', o'. split; [done|].
  pose proof (compute_enabled p c o p' o' He) as Hspec.
  destruct Hspec as (Ho & Hlo' & Hli' & Hlc' & Hsp' & He' & (Hk1 & Hk2 & Hk3 & Hk4) &
    (Hm1 & Hm2) & Hi'); [|done|].
  { unfold limits_ok, in_s. rewrite Hmin, Hmax. unfold Constants.kPwmMax. lia. }
  cbv [Constants.kPwmMax] in *. rewrite Hmin, Hmax in Ho.
  split; [|done]. split_and!; try congruence; try lia.
  - rewrite Hi', Hki, Hint. unfold Constants.kPidKi. case_match; [|done].
    apply wraps_id; [lia|]. unfold in_s. lia.
  - rewrite Hlo', Ho. unfold clamp. lia.
Qed.

Lemma wf_new gkp gkd gki gko lo hi :
  in_int lo -> in_int hi -> lo <= 0 <= hi -> wf (new gkp gkd gki gko lo hi).
Proof. intros. unfold wf, limits_ok. simpl. auto with lia. Qed.

Lemma wf_reset c p : wf p -> wf (reset c p).
Proof. intros [Hl _]. split; [exact Hl|]. apply Hl. Qed.

Lemma wf_compute p c o p' o' : wf p -> compute c o p = Ok (p', o') -> wf p'.
Proof.
  intros Hwf Hc. destruct (is_enabled p) eqn:He.
  - destruct Hwf as [Hl _].
    destruct (compute_enabled p c o p' o' He Hl Hc) as
      (Ho & Hlo & _ & _ & _ & _ & _ & (Hm1 & Hm2) & _).
    unfold wf, limits_ok. rewrite Hm1, Hm2, Hlo, Ho.
    split; [exact Hl|]. destruct Hl as (_ & _ & ?). unfold clamp. lia.
  - rewrite compute_disabled in Hc by done. injection Hc as <- _.
    destruct (last_input p =? 0); [done|by apply wf_reset].
Qed.

Lemma wf_set_enabled b p : wf p -> wf (set_enabled b p).
Proof. done. Qed.
Lemma wf_set_setpoint s p : wf p -> wf (set_setpoint s p).
Proof. done. Qed.
Lemma wf_set_tunings a b c d p : wf p -> wf (set_tunings a b c d p).
Proof. done. Qed.

Create HintDb pid.
#[export] Hint Resolve wf_reset wf_compute wf_set_enabled wf_set_setpoint
  wf_set_tunings : pid.

(** ** Properties *)

(** C35: The control law. Whenever a call of an enabled controller with sane
    limits is defined, its output is the PID law over exact integers saturated to
    the limits, the integral term accumulates only when the output is not
    saturated, the tunings and limits are kept, and the new state is well formed.
    The displacement it sees is exact even though the counts are truncated to 16
    bits, as long as the wheel moved less than 2^15 ticks. *)
Theorem pid_compute_law p c0 c p' o o'
  (He : is_enabled p = true) (Hl : limits_ok p)
  (Hc0 : last_encoder_count p = wraps 16 c0) (Hd : in_int (c - c0))
  (Hc : compute (wraps 16 c) o p = Ok (p', o')) :
  let raw := raw_output p (c - c0) in
  o' = clamp (output_min p) (output_max p) raw /\
  last_output p' = o' /\ last_input p' = c - c0 /\ last_encoder_count p' = wraps 16 c /\
  integral_term p' =
    (if (output_min p <? raw) && (raw <? output_max p)
     then wraps 16 (integral_term p + ki p * (setpoint p - (c - c0)))
     else integral_term p) /\
  (setpoint p', kp p', kd p', ki p', ko p') = (setpoint p, kp p, kd p, ki p, ko p) /\
  is_enabled p' = true /\ wf p'.
Proof.
  pose proof (compute_enabled p _ o p' o' He Hl Hc) as Hs.
  rewrite (displacement_exact p c0 c Hc0 Hd) in Hs.
  destruct Hs as (Ho & Hlo & Hli & Hlc & Hsp & He' & (Hk1 & Hk2 & Hk3 & Hk4) & (Hm1 & Hm2) & Hi).
  assert (wf p') as Hwf.
  { unfold wf, limits_ok. rewrite Hm1, Hm2, Hlo, Ho. split; [exact Hl|].
    destruct Hl as (_ & _ & ?). unfold clamp. lia. }
  intros raw. do 5 (split; [done|]). split; [congruence|]. done.
Qed.

Lemma pid_compute_law_witness :
  let p := set_enabled true (set_setpoint 20 (reset (wraps 16 40000) (new 30 10 0 10 (-255) 255))) in
  exists p', compute (wraps 16 40012) 0 p = Ok (p', 12) /\ last_input p' = 12 /\ wf p'.
Proof.
  intros p. destruct (compute (wraps 16 40012) 0 p) as [[p' o']| |] eqn:Hc; [|discriminate..].
  assert (limits_ok p) as Hl by (unfold limits_ok, in_s; simpl; lia).
  assert (in_int (40012 - 40000)) as Hd by (unfold in_s; lia).
  destruct (pid_compute_law p 40000 40012 p' 0 o' eq_refl Hl eq_refl Hd Hc)
    as (Ho & _ & Hi & _ & _ & _ & _ & Hw).
  exists p'. rewrite Ho. split; [reflexivity|]. split; [exact Hi|exact Hw].
Defined.

(** No overflow in regular use. With the default gains and limits, setpoints
    a 16-bit speed command can reach and displacements of at most 1600 ticks per
    period, a call of [compute] is defined for every count, and it keeps these
    bounds, so every later call is defined too. *)
Theorem pid_default_no_overflow p c o
  (Hb : within_bounds p) (Hc : in_int c) (Hd : Z.abs (displacement p c) <= 1600) :
  exists p' o', compute c o p = Ok (p', o') /\ within_bounds p' /\
    (is_enabled p = true -> o' = clamp (-255) 255 (raw_output p (displacement p c))).
Proof. by apply compute_defined. Qed.

Lemma pid_default_no_overflow_witness :
  let p := set_enabled true (set_setpoint (-1092)
    (reset 32000 (new Constants.kPidKp Constants.kPidKd Constants.kPidKi Constants.kPidKo
      (- Constants.kPwmMax) Constants.kPwmMax))) in
  exists p' o', compute (-32000) 0 p = Ok (p', o') /\ within_bounds p' /\ o' = -255.
Proof.
  intros p. assert (within_bounds p) as Hb
    by (unfold within_bounds, in_s; simpl; repeat split; lia).
  assert (in_int (-32000)) as Hc by (unfold in_s; lia).
  assert (Z.abs (displacement p (-32000)) <= 1600) as Hd by (vm_compute; discriminate).
  destruct (pid_default_no_overflow p (-32000) 0 Hb Hc Hd) as (p' & o' & Ho & Hw & Hv).
  exists p', o'. split; [exact Ho|]. split; [exact Hw|]. exact (Hv eq_refl).
Defined.

End Pid.
