(* ===== verification/CString.v ===== *)
(** * Characters and C strings

  The parts of the C and C++ standard library that the firmware and the
  driver use on text: NUL terminated strings in a buffer, [strtok], [strcmp],
  [strcpy], [atoi], and decimal printing. *)

From stdpp Require Import base option list numbers strings.
From Stdlib Require Import ZArith Lia Ascii.
From S2P Require Import Prelude.

Abbreviation text := (list ascii) (only parsing).

Definition NUL : ascii := ascii_of_nat 0.
Definition CR : ascii := ascii_of_nat 13.
Definition LF : ascii := ascii_of_nat 10.
Definition SP : ascii := ascii_of_nat 32.

Definition txt (s : string) : text := String.list_ascii_of_string s.

Definition code (c : ascii) : Z := Z.of_nat (nat_of_ascii c).

(** The C string at the start of a buffer: up to its first NUL. Reading a
    buffer that has none runs past its end. *)
Fixpoint c_string (buf : text) : res text :=
  match buf with
  | [] => UB
  | c :: buf => if decide (c = NUL) then Ok [] else s ← c_string buf; Ok (c :: s)
  end.

(** [strcpy] into an array of [n] characters: the NUL needs room too. *)
Definition strcpy (n : Z) (s : text) : res text :=
  _ ← require (Z.of_nat (length s) <? n); Ok s.

(** ** Tokens *)

Fixpoint skip (delim : ascii) (s : text) : text :=
  match s with
  | c :: s' => if decide (c = delim) then skip delim s' else s
  | [] => []
  end.

(** The characters up to the first delimiter, and what follows it. *)
Fixpoint span (delim : ascii) (s : text) : text * text :=
  match s with
  | c :: s' =>
      if decide (c = delim) then ([], s')
      else let '(t, r) := span delim s' in (c :: t, r)
  | [] => ([], [])
  end.

(** One call of [strtok]: the next token and the rest to scan, if there is a
    token. *)
Definition strtok (delim : ascii) (s : text) : option (text * text) :=
  match skip delim s with
  | [] => None
  | s' => Some (span delim s')
  end.

(** At most [n] tokens, as a loop of [strtok] calls collects them. *)
Fixpoint tokens (n : nat) (delim : ascii) (s : text) : list text :=
  match n with
  | O => []
  | S n => match strtok delim s with
           | None => []
           | Some (t, r) => t :: tokens n delim r
           end
  end.

(** ** Numbers *)

Definition is_space (c : ascii) : bool := (code c =? 32) || ((9 <=? code c) && (code c <=? 13)).
Definition is_digit (c : ascii) : bool := (48 <=? code c) && (code c <=? 57).
Definition digit_val (c : ascii) : Z := code c - 48.

Fixpoint skip_space (s : text) : text :=
  match s with
  | c :: s' => if is_space c then skip_space s' else s
  | [] => []
  end.

(** The value of the leading digits, continuing from [acc]. *)
Fixpoint digits_val (acc : Z) (s : text) : Z :=
  match s with
  | c :: s' => if is_digit c then digits_val (10 * acc + digit_val c) s' else acc
  | [] => acc
  end.

Definition signed_val (s : text) : Z :=
  match s with
  | c :: s' =>
      if code c =? 45 then - digits_val 0 s'
      else if code c =? 43 then digits_val 0 s'
      else digits_val 0 s
  | [] => 0
  end.

(** [atoi] for a [w]-bit [int]: undefined when the value does not fit. *)
Definition atoi (w : Z) (s : text) : res Z := chk w (signed_val (skip_space s)).

(** Decimal printing. *)
Definition digit_char (d : Z) : ascii := ascii_of_nat (Z.to_nat (d + 48)).

Fixpoint print_digits (fuel : nat) (n : Z) (acc : text) : text :=
  match fuel with
  | O => acc
  | S fuel =>
      let acc := digit_char (n mod 10) :: acc in
      if n <? 10 then acc else print_digits fuel (n / 10) acc
  end.

Definition print_nonneg (n : Z) : text := print_digits (S (Z.to_nat (Z.log2 n))) n [].

Definition print_int (n : Z) : text :=
  if n <? 0 then "-"%char :: print_nonneg (- n) else print_nonneg n.

(** ** Facts *)

Lemma span_nil_delim d t r : d ∉ t -> span d (t ++ d :: r) = (t, r).
Proof.
  induction t as [|c t IH]; simpl; intros Hd; [by rewrite decide_True|].
  apply not_elem_of_cons in Hd as [? ?]. rewrite decide_False by done.
  by rewrite IH.
Qed.

Lemma span_end d t : d ∉ t -> span d t = (t, []).
Proof.
  induction t as [|c t IH]; simpl; intros Hd; [done|].
  apply not_elem_of_cons in Hd as [? ?]. rewrite decide_False by done.
  by rewrite IH.
Qed.

(** A word: not empty, without delimiter. *)
Definition word (d : ascii) (t : text) : Prop := t <> [] /\ d ∉ t.

#[export] Instance word_dec d t : Decision (word d t).
Proof. unfold word. apply _. Defined.

Lemma strtok_word d t r : word d t -> strtok d (t ++ d :: r) = Some (t, r).
Proof.
  intros [Hne Hd]. unfold strtok.
  assert (skip d (t ++ d :: r) = t ++ d :: r) as ->.
  { destruct t as [|c t]; [done|]. simpl. apply not_elem_of_cons in Hd as [Hc Hd].
    by rewrite decide_False. }
  destruct t as [|c t]; [done|].
  change (Some (span d ((c :: t) ++ d :: r)) = Some (c :: t, r)).
  by rewrite span_nil_delim.
Qed.

Lemma strtok_last d t : word d t -> strtok d t = Some (t, []).
Proof.
  intros [Hne Hd]. unfold strtok.
  assert (skip d t = t) as ->.
  { destruct t as [|c t]; [done|]. simpl. apply not_elem_of_cons in Hd as [Hc Hd].
    by rewrite decide_False. }
  destruct t as [|c t]; [done|].
  change (Some (span d (c :: t)) = Some (c :: t, [])). by rewrite span_end.
Qed.

(** Words joined by one delimiter. *)
Fixpoint join (d : ascii) (ws : list text) : text :=
  match ws with
  | [] => []
  | [w] => w
  | w :: ws => w ++ d :: join d ws
  end.

Lemma tokens_nil n d : tokens n d [] = [].
Proof. by destruct n. Qed.

(** Splitting what [join] produced gives the words back. *)
Lemma tokens_join d ws : forall n,
  Forall (word d) ws -> (length ws <= n)%nat -> tokens n d (join d ws) = ws.
Proof.
  induction ws as [|w ws IH]; intros n Hw Hn; [apply tokens_nil|].
  apply Forall_cons in Hw as [Hw Hws]. simpl in Hn. destruct n as [|n]; [lia|].
  destruct ws as [|w' ws].
  - simpl. by rewrite strtok_last, tokens_nil.
  - change (join d (w :: w' :: ws)) with (w ++ d :: join d (w' :: ws)).
    cbn [tokens]. rewrite strtok_word by done. f_equal. apply IH; [done|simpl in *; lia].
Qed.

Lemma c_string_app s buf : NUL ∉ s -> c_string (s ++ NUL :: buf) = Ok s.
Proof.
  induction s as [|c s IH]; simpl; intros Hs; [done|].
  apply not_elem_of_cons in Hs as [? ?].
  rewrite decide_False by done. by rewrite IH.
Qed.

Lemma code_digit d : 0 <= d < 10 -> code (digit_char d) = d + 48.
Proof. intros. unfold code, digit_char. rewrite nat_ascii_embedding; lia. Qed.

Lemma digits_val_digit acc d s :
  0 <= d < 10 -> digits_val acc (digit_char d :: s) = digits_val (10 * acc + d) s.
Proof.
  intros Hd. simpl. unfold is_digit, digit_val. rewrite code_digit by done.
  rewrite (proj2 (Z.leb_le 48 _)), (proj2 (Z.leb_le _ 57)) by lia.
  simpl. f_equal. lia.
Qed.

Lemma digits_val_print fuel : forall n rest,
  0 <= n < 2 ^ Z.of_nat fuel ->
  digits_val 0 (print_digits fuel n rest) = digits_val n rest.
Proof.
  induction fuel as [|fuel IH]; intros n rest Hn.
  { simpl. f_equal. simpl in Hn. lia. }
  simpl. pose proof (Z.mod_pos_bound n 10 ltac:(lia)).
  destruct (Z.ltb_spec n 10).
  - rewrite digits_val_digit by done. f_equal. rewrite Z.mod_small; lia.
  - rewrite Nat2Z.inj_succ, Z.pow_succ_r in Hn by lia.
    rewrite IH.
    + rewrite digits_val_digit by done. f_equal.
      pose proof (Z.div_mod n 10). lia.
    + split; [apply Z.div_pos; lia|]. apply Z.div_lt_upper_bound; lia.
Qed.

Lemma print_fuel n : 0 <= n -> n < 2 ^ Z.of_nat (S (Z.to_nat (Z.log2 n))).
Proof.
  intros. rewrite Nat2Z.inj_succ, Z2Nat.id by apply Z.log2_nonneg.
  destruct (Z.eq_dec n 0) as [->|]; [done|]. apply Z.log2_spec. lia.
Qed.

(** Printed digits are digits. *)
Lemma print_digits_forall fuel : forall n acc,
  0 <= n -> Forall (fun c => is_digit c = true) acc ->
  Forall (fun c => is_digit c = true) (print_digits fuel n acc).
Proof.
  induction fuel as [|fuel IH]; intros n acc Hn Hacc; [done|]. simpl.
  assert (is_digit (digit_char (n mod 10)) = true) as Hd.
  { pose proof (Z.mod_pos_bound n 10 ltac:(lia)). unfold is_digit.
    rewrite code_digit by done.
    rewrite (proj2 (Z.leb_le 48 _)), (proj2 (Z.leb_le _ 57)) by lia. done. }
  destruct (n <? 10); [by constructor|]. apply IH; [apply Z.div_pos; lia|by constructor].
Qed.

Lemma print_nonneg_digits n : 0 <= n -> Forall (fun c => is_digit c = true) (print_nonneg n).
Proof. intros. apply print_digits_forall; [done|constructor]. Qed.

Lemma print_digits_app fuel : forall n acc rest,
  print_digits fuel n acc ++ rest = print_digits fuel n (acc ++ rest).
Proof.
  induction fuel as [|fuel IH]; intros n acc rest; simpl; [done|].
  destruct (n <? 10); [done|]. apply IH.
Qed.

Lemma print_nonneg_nonempty n : print_nonneg n <> [].
Proof.
  unfold print_nonneg. cbn [print_digits]. destruct (n <? 10); [done|].
  generalize (Z.to_nat (Z.log2 n)), (n / 10).
  assert (forall f m acc, acc <> [] -> print_digits f m acc <> []) as Hne.
  { induction f; simpl; intros m acc Hacc; [done|]. destruct (m <? 10); [done|].
    by apply IHf. }
  intros. by apply Hne.
Qed.

(** What [is_digit] excludes. *)
Lemma digit_not c d : is_digit c = true -> is_digit d = false -> c <> d.
Proof. intros Hc Hd ->. congruence. Qed.

Lemma print_int_no d n :
  is_digit d = false -> d <> "-"%char -> d ∉ print_int n.
Proof.
  intros Hd Hm. unfold print_int.
  assert (forall m, 0 <= m -> d ∉ print_nonneg m) as Hno.
  { intros m Hm0 Hin. pose proof (print_nonneg_digits m Hm0) as Hall.
    rewrite Forall_forall in Hall. specialize (Hall _ Hin). simpl in Hall. congruence. }
  destruct (Z.ltb_spec n 0); [|by apply Hno].
  apply not_elem_of_cons. split; [done|]. apply Hno. lia.
Qed.

Lemma print_int_nonempty n : print_int n <> [].
Proof. unfold print_int. destruct (n <? 0); [done|]. apply print_nonneg_nonempty. Qed.

Lemma print_int_word d n : is_digit d = false -> d <> "-"%char -> word d (print_int n).
Proof. intros. split; [apply print_int_nonempty|by apply print_int_no]. Qed.

(** Text that does not continue a number. *)
Definition stops (rest : text) : Prop :=
  match rest with [] => True | c :: _ => is_digit c = false end.

Lemma digits_val_stops n rest : stops rest -> digits_val n rest = n.
Proof. destruct rest as [|c rest]; simpl; [done|]. by intros ->. Qed.

Lemma is_digit_code c : is_digit c = true -> 48 <= code c <= 57.
Proof. unfold is_digit. intros. bool_arith. lia. Qed.

Lemma signed_val_print n rest :
  stops rest -> signed_val (skip_space (print_int n ++ rest)) = n.
Proof.
  intros Hr. unfold print_int.
  assert (forall m, 0 <= m -> digits_val 0 (print_nonneg m ++ rest) = m) as Hv.
  { intros m Hm. unfold print_nonneg. rewrite print_digits_app, digits_val_print.
    - by apply digits_val_stops.
    - split; [done|]. by apply print_fuel. }
  destruct (Z.ltb_spec n 0).
  - change (signed_val ("-"%char :: print_nonneg (- n) ++ rest) = n).
    unfold signed_val. change (code "-" =? 45) with true. cbv iota.
    rewrite Hv by lia. lia.
  - pose proof (Hv n ltac:(lia)) as Hvn.
    pose proof (print_nonneg_digits n ltac:(lia)) as Hall.
    pose proof (print_nonneg_nonempty n) as Hne.
    destruct (print_nonneg n) as [|c t]; [done|].
    apply Forall_cons in Hall as [Hc _]. apply is_digit_code in Hc.
    cbn [app] in *. cbn [skip_space].
    assert (is_space c = false) as ->.
    { unfold is_space. rewrite (proj2 (Z.eqb_neq _ _)), (proj2 (Z.leb_gt _ 13)) by lia.
      by rewrite andb_false_r. }
    unfold signed_val.
    rewrite (proj2 (Z.eqb_neq _ 45)), (proj2 (Z.eqb_neq _ 43)) by lia. done.
Qed.

(** [atoi] reads back a printed number. *)
Lemma atoi_print w n rest :
  in_s w n -> stops rest -> atoi w (print_int n ++ rest) = Ok n.
Proof. intros. unfold atoi. rewrite signed_val_print by done. by apply chk_in. Qed.

(** A printed number is short. *)
Lemma print_digits_length fuel : forall n acc,
  (length (print_digits fuel n acc) <= fuel + length acc)%nat.
Proof.
  induction fuel as [|fuel IH]; intros n acc; simpl; [done|].
  destruct (n <? 10); simpl; [lia|]. etrans; [apply IH|]. simpl. lia.
Qed.

Lemma print_int_length n k :
  0 < k -> Z.abs n < 2 ^ k -> Z.of_nat (length (print_int n)) <= k + 1.
Proof.
  intros Hk Hn.
  assert (forall m, 0 <= m < 2 ^ k -> Z.of_nat (length (print_nonneg m)) <= k) as Hm.
  { intros m Hm. unfold print_nonneg.
    pose proof (print_digits_length (S (Z.to_nat (Z.log2 m))) m []) as Hl.
    change (length (@nil ascii)) with 0%nat in Hl.
    pose proof (Z.log2_nonneg m). destruct (decide (m = 0)) as [->|].
    { change (Z.log2 0) with 0 in *. lia. }
    pose proof (proj1 (Z.log2_lt_pow2 m k ltac:(lia)) ltac:(lia)). lia. }
  unfold print_int. destruct (Z.ltb_spec n 0); simpl.
  - specialize (Hm (- n)). lia.
  - specialize (Hm n). lia.
Qed.

Lemma atoi_print_int w n : in_s w n -> atoi w (print_int n) = Ok n.
Proof. intros. rewrite <- (app_nil_r (print_int n)). by apply atoi_print. Qed.
