(* ===== verification/Shell.v ===== *)
(** * Command shell of the firmware ([shell.h], [shell.cpp])

  The shell collects characters in a 64 character buffer until a carriage
  return, splits the message at spaces and runs the callback registered for
  its first word. Callbacks are values of a type [C]; [run] executes one on
  the world [W]. *)

From stdpp Require Import base option list numbers strings.
From Stdlib Require Import ZArith Lia Ascii.
From S2P Require Import Prelude CString.

Module Shell.

Definition kCommandNameLengthMax : Z := 8.
Definition kCommandsMax : Z := 16.
Definition kCommandArgMax : Z := 16.
Definition kCommandPromptLengthMax : Z := 64.

#[local] Arguments tokens : simpl never.

Section Shell.
Context {C W : Type} (run : C -> Z -> list text -> W -> res W).

Record command : Type := mk_command { name : text; callback : C }.

(** [commands] is the used prefix of the registry, [commands_count_] its
    length. *)
Record shell : Type := mk_shell {
  serial_stream_set : bool;
  default_callback : option C;
  commands : list command;
  message_buffer : text;
  message_index : Z }.

(** The buffer's initial contents are indeterminate: any [buf] will do. *)
Definition new (buf : text) : shell := mk_shell false None [] buf 0.

Definition set_serial_stream (s : shell) : shell :=
  mk_shell true (default_callback s) (commands s) (message_buffer s) (message_index s).

Definition set_default_callback (cb : C) (s : shell) : shell :=
  mk_shell (serial_stream_set s) (Some cb) (commands s) (message_buffer s) (message_index s).

Definition register_command (nm : text) (cb : C) (s : shell) : res shell :=
  if Z.of_nat (length (commands s)) >=? kCommandsMax then Ok s else
  nm ← strcpy kCommandNameLengthMax nm;
  Ok (mk_shell (serial_stream_set s) (default_callback s)
        (commands s ++ [mk_command nm cb]) (message_buffer s) (message_index s)).

(** The loop of [execute_callback]: [argv[0]] is passed to [strcmp], so it
    must not be null once there is a command to compare it with. *)
Fixpoint find_command (arg0 : option text) (cmds : list command) : res (option C) :=
  match cmds with
  | [] => Ok None
  | c :: cmds =>
      match arg0 with
      | None => UB
      | Some a => if decide (a = name c) then Ok (Some (callback c))
                  else find_command arg0 cmds
      end
  end.

Definition execute_callback (s : shell) (argc : Z) (argv : list text) (w : W) : res W :=
  found ← find_command (head argv) (commands s);
  match found with
  | Some cb => run cb argc argv w
  | None =>
      match default_callback s with
      | Some cb => run cb argc argv w
      | None => Ok w
      end
  end.

(** [strtok] also overwrites the delimiters of the consumed message in the
    buffer; the buffer is rewritten from its start before it is read again. *)
Definition parse_message (s : shell) (w : W) : res W :=
  message ← c_string (message_buffer s);
  let argv := tokens (Z.to_nat (kCommandArgMax - 1)) SP message in
  execute_callback s (Z.of_nat (length argv)) argv w.

Definition set_message (buf : text) (i : Z) (s : shell) : shell :=
  mk_shell (serial_stream_set s) (default_callback s) (commands s) buf i.

(** One iteration of the loop of [process_input]. *)
Definition process_char (input : ascii) (sw : shell * W) : res (shell * W) :=
  let '(s, w) := sw in
  if decide (input = CR) then
    buf ← aset (message_buffer s) (message_index s) NUL;
    let s := set_message buf (message_index s + 1) s in
    w ← parse_message s w;
    Ok (set_message (message_buffer s) 0 s, w)
  else if decide (input = LF) then Ok (s, w)
  else
    buf ← aset (message_buffer s) (message_index s) input;
    let i := message_index s + 1 in
    Ok (set_message buf (if i >=? kCommandPromptLengthMax then 0 else i) s, w).

Fixpoint process_chars (input : text) (sw : shell * W) : res (shell * W) :=
  match input with
  | [] => Ok sw
  | c :: input => sw ← process_char c sw; process_chars input sw
  end.

(** [input]: the bytes the stream has available during the call. *)
Definition process_input (input : text) (s : shell) (w : W) : res (shell * W) :=
  _ ← require (serial_stream_set s); process_chars input (s, w).

(** ** Specification

    An abstract shell keeps the pending characters as a list, with no buffer
    and no index. *)

Record ashell : Type := mk_ashell {
  a_default : option C;
  a_commands : list command;
  pending : text }.

(** The command a first word names. *)
Definition lookup_command (a : ashell) (w0 : text) : option C :=
  match find (fun c => bool_decide (w0 = name c)) (a_commands a) with
  | Some c => Some (callback c)
  | None => a_default a
  end.

(** The part of a message that C string functions see. *)
Fixpoint until_nul (t : text) : text :=
  match t with
  | [] => []
  | c :: t => if decide (c = NUL) then [] else c :: until_nul t
  end.

(** Run a message: its words, at most 15 of them. A blank message with a non
    empty registry compares a null pointer. *)
Definition a_message (a : ashell) (w : W) : res W :=
  let argv := tokens 15 SP (until_nul (pending a)) in
  match argv with
  | [] => if decide (a_commands a = []) then
            match a_default a with Some cb => run cb 0 [] w | None => Ok w end
          else UB
  | w0 :: _ =>
      match lookup_command a w0 with
      | Some cb => run cb (Z.of_nat (length argv)) argv w
      | None => Ok w
      end
  end.

Definition a_char (input : ascii) (aw : ashell * W) : res (ashell * W) :=
  let '(a, w) := aw in
  if decide (input = CR) then
    w ← a_message a w; Ok (mk_ashell (a_default a) (a_commands a) [], w)
  else if decide (input = LF) then Ok (a, w)
  else
    let t := pending a ++ [input] in
    Ok (mk_ashell (a_default a) (a_commands a)
          (if Z.of_nat (length t) >=? 64 then [] else t), w).

Fixpoint a_chars (input : text) (aw : ashell * W) : res (ashell * W) :=
  match input with
  | [] => Ok aw
  | c :: input => aw ← a_char c aw; a_chars input aw
  end.

(** The invariant: the index is inside the buffer. *)
Definition wf (s : shell) : Prop :=
  Z.of_nat (length (message_buffer s)) = 64 /\ 0 <= message_index s < 64.

(** The abstraction relation. *)
Definition abstracts (a : ashell) (s : shell) : Prop :=
  wf s /\ a_default a = default_callback s /\ a_commands a = commands s /\
  pending a = take (Z.to_nat (message_index s)) (message_buffer s).

(** Equal outcomes, with related shells when both return. *)
Definition agree (ra : res (ashell * W)) (rs : res (shell * W)) : Prop :=
  match ra, rs with
  | Ok (a, w), Ok (s, w') => w = w' /\ abstracts a s
  | Throw e, Throw e' => e = e'
  | UB, UB => True
  | _, _ => False
  end.

Lemma find_command_spec a cmds :
  find_command (Some a) cmds =
    Ok (match find (fun c => bool_decide (a = name c)) cmds with
        | Some c => Some (callback c) | None => None end).
Proof.
  induction cmds as [|c cmds IH]; simpl; [done|].
  case_decide as Hd; [by rewrite bool_decide_eq_true_2|].
  by rewrite bool_decide_eq_false_2.
Qed.

Lemma c_string_until_nul t buf : c_string (t ++ NUL :: buf) = Ok (until_nul t).
Proof.
  induction t as [|c t IH]; simpl; [done|]. case_decide; [done|]. by rewrite IH.
Qed.

Lemma take_insert_nul (buf : text) i :
  (i < length buf)%nat -> exists rest, <[i := NUL]> buf = take i buf ++ NUL :: rest.
Proof.
  intros Hi. exists (drop (S i) buf). rewrite insert_take_drop by done. done.
Qed.

Lemma take_insert_snoc (buf : text) i c :
  (i < length buf)%nat -> take (S i) (<[i := c]> buf) = take i buf ++ [c].
Proof.
  intros Hi. rewrite (take_S_r _ _ c) by (by apply list_lookup_insert_eq).
  by rewrite take_insert_ge.
Qed.

Lemma parse_message_spec a s w :
  abstracts a s ->
  (buf ← aset (message_buffer s) (message_index s) NUL;
   parse_message (set_message buf (message_index s + 1) s) w) = a_message a w.
Proof.
  intros ((Hlen & Hidx) & Hd & Hc & Hp). unfold aset.
  rewrite decide_True by lia. simpl.
  destruct (take_insert_nul (message_buffer s) (Z.to_nat (message_index s))) as [rest Hr];
    [lia|].
  unfold parse_message, execute_callback, set_message. cbn [message_buffer].
  rewrite Hr, c_string_until_nul. cbn [mbind res_bind].
  unfold a_message. rewrite Hp. change (Z.to_nat (kCommandArgMax - 1)) with 15%nat.
  generalize (tokens 15 SP
    (until_nul (take (Z.to_nat (message_index s)) (message_buffer s)))) as argv.
  intros argv. simpl.
  rewrite Hc, Hd. destruct argv as [|w0 argv']; simpl.
  - by destruct (commands s).
  - rewrite find_command_spec. simpl. unfold lookup_command. rewrite Hc, Hd.
    by destruct (find _ (commands s)).
Qed.

Lemma process_char_refines c a s w :
  abstracts a s -> agree (a_char c (a, w)) (process_char c (s, w)).
Proof.
  intros Hab. pose proof (parse_message_spec a s w Hab) as Hpm.
  destruct Hab as ((Hlen & Hidx) & Hd & Hc & Hp).
  unfold a_char, process_char, kCommandPromptLengthMax. case_decide.
  - rewrite <- Hpm. unfold aset. rewrite decide_True by lia. simpl.
    destruct (parse_message _ w); simpl; [|done|done].
    split; [done|]. unfold abstracts, wf. simpl. rewrite length_insert, take_0.
    split_and!; try done; lia.
  - case_decide; [done|]. unfold aset. rewrite decide_True by lia. simpl.
    split; [done|]. unfold abstracts, wf. simpl. rewrite length_insert, Hp.
    rewrite length_app, length_take, Nat.min_l by lia. simpl.
    rewrite Nat2Z.inj_add, Z2Nat.id by lia. change (Z.of_nat 1) with 1.
    rewrite Z.geb_leb. destruct (Z.leb_spec 64 (message_index s + 1)); simpl.
    + rewrite take_0. split_and!; try done; lia.
    + replace (Z.to_nat (message_index s + 1)) with (S (Z.to_nat (message_index s))) by lia.
      rewrite take_insert_snoc by lia. split_and!; try done; lia.
Qed.

Lemma process_chars_refines input : forall a s w,
  abstracts a s -> agree (a_chars input (a, w)) (process_chars input (s, w)).
Proof.
  induction input as [|c input IH]; intros a s w Hab; [done|].
  cbn [a_chars process_chars]. pose proof (process_char_refines c a s w Hab) as Hch.
  destruct (a_char c (a, w)) as [[a' w']| |], (process_char c (s, w)) as [[s' w'']| |];
    simpl in *; try done.
  destruct Hch as [<- Hab']. by apply IH.
Qed.

(** Ordinary characters accumulate. *)
Lemma a_chars_plain t : forall a w,
  (CR ∉ t) -> (LF ∉ t) -> Z.of_nat (length (pending a ++ t)) < 64 ->
  a_chars t (a, w) = Ok (mk_ashell (a_default a) (a_commands a) (pending a ++ t), w).
Proof.
  induction t as [|c t IH]; intros a w Hcr Hlf Hl.
  { rewrite app_nil_r. by destruct a. }
  apply not_elem_of_cons in Hcr as [Hc1 Hcr], Hlf as [Hc2 Hlf].
  cbn [a_chars]. unfold a_char. rewrite !decide_False by done. simpl.
  rewrite length_app in Hl. simpl in Hl.
  rewrite length_app. simpl. rewrite Z.geb_leb, (proj2 (Z.leb_gt _ _)) by lia.
  rewrite IH; simpl; [|done|done|].
  - by rewrite <- app_assoc.
  - rewrite <- app_assoc, length_app. simpl. lia.
Qed.

Lemma until_nul_id t : NUL ∉ t -> until_nul t = t.
Proof.
  induction t as [|c t IH]; simpl; intros Hn; [done|].
  apply not_elem_of_cons in Hn as [? ?]. rewrite decide_False by done. by rewrite IH.
Qed.

(** Words a message line can hold. *)
Definition plain (t : text) : Prop := (CR ∉ t) /\ (LF ∉ t) /\ (NUL ∉ t).

#[export] Instance plain_dec t : Decision (plain t).
Proof. unfold plain. apply _. Defined.

(** A complete line is one call of the callback its first word names. *)
Lemma a_chars_line ws w0 wr a w :
  ws = w0 :: wr -> Forall (word SP) ws -> (length ws <= 15)%nat ->
  plain (join SP ws) -> Z.of_nat (length (join SP ws)) < 64 -> pending a = [] ->
  a_chars (join SP ws ++ [CR]) (a, w) =
    (w' ← match lookup_command a w0 with
          | Some cb => run cb (Z.of_nat (length ws)) ws w
          | None => Ok w
          end;
     Ok (mk_ashell (a_default a) (a_commands a) [], w')).
Proof.
  intros Hws Hwords Hn (Hcr & Hlf & Hnul) Hlen Hp.
  assert (forall t u aw, a_chars (t ++ u) aw = (aw' ← a_chars t aw; a_chars u aw')) as Happ.
  { induction t as [|c t IH]; intros u aw; [done|]. simpl.
    destruct (a_char c aw) as [aw'| |]; simpl; [apply IH|done|done]. }
  rewrite Happ, a_chars_plain by (rewrite ?Hp; done). rewrite Hp. simpl.
  unfold a_message. simpl. rewrite until_nul_id, tokens_join by done.
  rewrite Hws at 1. unfold lookup_command. simpl.
  destruct (match find _ _ with Some c => _ | None => _ end); simpl; [|done].
  by destruct (run _ _ _ _).
Qed.

(** A blank line compares the null pointer [argv[0]] with the names. *)
Lemma blank_line s w :
  wf s -> commands s <> [] -> message_index s = 0 -> process_chars [CR] (s, w) = UB.
Proof.
  intros Hwf Hne Hidx.
  pose proof (process_chars_refines [CR]
    (mk_ashell (default_callback s) (commands s) []) s w) as Href.
  assert (a_chars [CR] (mk_ashell (default_callback s) (commands s) [], w) = UB) as Ha.
  { cbn [a_chars]. unfold a_char. rewrite decide_True by done. unfold a_message.
    cbn [pending until_nul a_commands]. change (tokens 15 SP []) with (@nil text).
    cbn iota beta. by rewrite decide_False. }
  rewrite Ha in Href.
  destruct (process_chars [CR] (s, w)) as [[]| |]; try done; exfalso; apply Href.
  all: split; [done|]; rewrite Hidx; by rewrite take_0.
Qed.

(** A property of the world every callback keeps is kept by the shell. *)
Lemma process_chars_inv (P : W -> Prop) input : forall s w s' w',
  (forall cb argc argv w w', P w -> run cb argc argv w = Ok w' -> P w') ->
  P w -> process_chars input (s, w) = Ok (s', w') -> P w'.
Proof.
  induction input as [|c input IH]; intros s w s' w' Hrun Hw Hp; cbn [process_chars] in Hp.
  { by injection Hp as <- <-. }
  apply bind_ok in Hp as ([s1 w1] & Hc & Hp).
  eapply IH; [done| |exact Hp].
  simpl in Hc. case_decide; [|case_decide]; res_inv; [|done|done].
  unfold parse_message, execute_callback in *. res_inv.
  repeat case_match; res_inv; eauto.
Qed.

(** Processing input keeps the invariant, the registry and the stream. *)
Lemma process_chars_shell input : forall s w s' w',
  wf s -> process_chars input (s, w) = Ok (s', w') ->
  wf s' /\ commands s' = commands s /\ default_callback s' = default_callback s /\
  serial_stream_set s' = serial_stream_set s.
Proof.
  induction input as [|c input IH]; intros s w s' w' Hw Hp; cbn [process_chars] in Hp.
  { by injection Hp as <- <-. }
  apply bind_ok in Hp as ([s1 w1] & Hc & Hp).
  assert (wf s1 /\ commands s1 = commands s /\ default_callback s1 = default_callback s /\
          serial_stream_set s1 = serial_stream_set s) as (Hw1 & <- & <- & <-);
    [|by eapply IH].
  destruct Hw as [Hlen Hi]. unfold wf, process_char, kCommandPromptLengthMax in *.
  case_decide; [|case_decide]; res_inv; simpl; rewrite ?length_insert; split_and!; try done;
    rewrite ?Z.geb_leb; try (destruct (Z.leb_spec 64 (message_index s + 1))); lia.
Qed.

Lemma shell_wf_new buf : Z.of_nat (length buf) = 64 -> wf (new buf).
Proof. intros. split; [done|]. simpl. lia. Qed.

Lemma process_chars_app i1 i2 : forall sw,
  process_chars (i1 ++ i2) sw = (sw' ← process_chars i1 sw; process_chars i2 sw').
Proof.
  induction i1 as [|c i1 IH]; intros sw; [done|]. simpl.
  destruct (process_char c sw); simpl; [apply IH|done|done].
Qed.

(** ** Properties *)

(** C36: The shell with its 64 character buffer and index implements the abstract
    shell that keeps the pending characters as a list, from which a carriage return makes a message and which it
    drops when it reaches 64 characters, as the code restarts its index: on any input they give
    the same outcome and stay related, so the index never leaves the buffer, and
    how the input is cut into calls of [process_input] does not matter. *)
Theorem shell_refines a s w i1 i2
  (Hab : abstracts a s) (Hst : serial_stream_set s = true) :
  agree (a_chars (i1 ++ i2) (a, w))
    ('(s', w') ← process_input i1 s w; process_input i2 s' w').
Proof.
  pose proof (process_chars_refines (i1 ++ i2) a s w Hab) as Hr.
  rewrite process_chars_app in Hr. unfold process_input. rewrite Hst. cbn [require mbind res_bind].
  destruct (process_chars i1 (s, w)) as [[s' w']| |] eqn:H1; [|done..].
  cbn [mbind res_bind] in *.
  destruct (process_chars_shell i1 s w s' w') as (_ & _ & _ & ->); [apply Hab|done|].
  by rewrite Hst.
Qed.

(** A line run by [process_input]. *)
Lemma line_runs s w w0 wr w'
  (Hwf : wf s) (Hst : serial_stream_set s = true) (Hidx : message_index s = 0)
  (Hwords : Forall (word SP) (w0 :: wr)) (Hn : (length (w0 :: wr) <= 15)%nat)
  (Hplain : plain (join SP (w0 :: wr)))
  (Hlen : Z.of_nat (length (join SP (w0 :: wr))) < 64)
  (Hrun : match lookup_command (mk_ashell (default_callback s) (commands s) []) w0 with
          | Some cb => run cb (Z.of_nat (length (w0 :: wr))) (w0 :: wr) w
          | None => Ok w
          end = Ok w') :
  exists s', process_input (join SP (w0 :: wr) ++ [CR]) s w = Ok (s', w') /\
    wf s' /\ message_index s' = 0 /\ commands s' = commands s /\
    default_callback s' = default_callback s /\ serial_stream_set s' = true.
Proof.
  set (a := mk_ashell (default_callback s) (commands s) []) in *.
  assert (abstracts a s) as Hab by (split; [done|]; rewrite Hidx; by rewrite take_0).
  pose proof (process_chars_refines (join SP (w0 :: wr) ++ [CR]) a s w Hab) as Hr.
  rewrite (a_chars_line (w0 :: wr) w0 wr a w) in Hr by done.
  rewrite Hrun in Hr. cbn [mbind res_bind] in Hr.
  unfold process_input. rewrite Hst. cbn [require mbind res_bind].
  destruct (process_chars (join SP (w0 :: wr) ++ [CR]) (s, w)) as [[s' w'']| |] eqn:Hp; [|done..].
  destruct Hr as [<- Hab']. exists s'.
  destruct (process_chars_shell _ _ _ _ _ Hwf Hp) as (Hwf' & Hc & Hd & Hs).
  repeat (split; [done|]). split; [|by rewrite Hs].
  destruct Hab' as (_ & _ & _ & Hpend). destruct Hwf' as [Hl Hi]. simpl in Hpend.
  apply (f_equal length) in Hpend. rewrite length_take in Hpend. simpl in Hpend. lia.
Qed.

(** A line of at most 15 words that fits the buffer runs the callback
    registered for its first word, or the default one, once, on exactly those
    words; the shell is then ready for the next line with its registry intact. *)
Theorem shell_runs_line s w w0 wr w'
  (Hwf : wf s) (Hst : serial_stream_set s = true) (Hidx : message_index s = 0)
  (Hwords : Forall (word SP) (w0 :: wr)) (Hn : (length (w0 :: wr) <= 15)%nat)
  (Hplain : plain (join SP (w0 :: wr)))
  (Hlen : Z.of_nat (length (join SP (w0 :: wr))) < 64)
  (Hrun : match lookup_command (mk_ashell (default_callback s) (commands s) []) w0 with
          | Some cb => run cb (Z.of_nat (length (w0 :: wr))) (w0 :: wr) w
          | None => Ok w
          end = Ok w') :
  exists s', process_input (join SP (w0 :: wr) ++ [CR]) s w = Ok (s', w') /\
    wf s' /\ message_index s' = 0 /\ commands s' = commands s /\
    default_callback s' = default_callback s /\ serial_stream_set s' = true.
Proof. by apply line_runs. Qed.

End Shell.

Arguments command C : clear implicits.
Arguments shell C : clear implicits.
Arguments ashell C : clear implicits.

(** A shell with one command that logs its arguments. *)
Definition demo_run (cb : nat) (argc : Z) (argv : list text) (log : list (nat * list text)) :
  res (list (nat * list text)) := Ok ((cb, argv) :: log).
Definition demo_shell : shell nat :=
  mk_shell true (Some 0%nat) [mk_command (txt "m") 7%nat] (replicate 64 NUL) 0.

Lemma demo_shell_wf : wf demo_shell.
Proof. split; [reflexivity|]. simpl. lia. Qed.

Lemma shell_refines_witness :
  let a := mk_ashell (Some 0%nat) [mk_command (txt "m") 7%nat] [] in
  abstracts a demo_shell /\
  agree (a_chars demo_run (txt "m 1" ++ [CR; LF]) (a, []))
    ('(s', w') ← process_input demo_run (txt "m ") demo_shell [];
     process_input demo_run (txt "1" ++ [CR; LF]) s' w').
Proof.
  intros a. assert (abstracts a demo_shell) as Ha by (split; [exact demo_shell_wf|done]).
  split; [exact Ha|].
  exact (shell_refines demo_run a demo_shell [] (txt "m ") (txt "1" ++ [CR; LF]) Ha eq_refl).
Defined.

Lemma shell_runs_line_witness :
  exists s', process_input demo_run (txt "m 10 -3" ++ [CR]) demo_shell [] =
    Ok (s', [(7%nat, [txt "m"; txt "10"; txt "-3"])]) /\ wf s'.
Proof.
  assert (Forall (word SP) [txt "m"; txt "10"; txt "-3"]) as Hw
    by (repeat apply Forall_cons_2; try apply Forall_nil_2; solve_decide).
  assert (plain (join SP [txt "m"; txt "10"; txt "-3"])) as Hp
    by solve_decide.
  destruct (shell_runs_line demo_run demo_shell [] (txt "m") [txt "10"; txt "-3"]
    [(7%nat, [txt "m"; txt "10"; txt "-3"])] demo_shell_wf eq_refl eq_refl Hw
    ltac:(simpl; lia) Hp ltac:(vm_compute; reflexivity) ltac:(vm_compute; reflexivity))
    as (s' & Hs & Hwf & _).
  exists s'. split; [exact Hs|exact Hwf].
Defined.
End Shell.
