(* ===== verification/App.v ===== *)
(** * Firmware application ([app.h], [app.cpp], [commands.h], [main.cpp])

  The static members of [App] are the record [core] (encoders, controllers,
  timers, serial output) and the command shell. [setup] runs once, then
  [loop] runs for ever: it processes the serial input, computes the PIDs at
  the configured rate and stops the motors when no speed command arrived for
  three seconds. Pin change interrupts run between the phases of the loop.
  The Arduino runtime (clock, analog input, IMU) is the class [Runtime]. *)

From stdpp Require Import base option list numbers strings relations.
From Stdlib Require Import ZArith Lia Ascii.
From S2P Require Import Prelude CString Hardware Motor Encoder Pid Shell.

(** The runtime the firmware is linked with. [millis_at k] is what the [k]-th
    call of [millis] returns; [real] is the IMU library's number type. *)
Class Runtime : Type := {
  core_pins :: ArduinoCore;
  millis_at : nat -> Z;
  millis_range : forall k, in_u 32 (millis_at k);
  analogRead : Z -> hw -> Z;
  imu_begin : bool;
  real : Type;
  imu_quat : hw -> list real;
  imu_gyro : hw -> list real;
  imu_accel : hw -> list real;
  print_real : real -> Z -> text }.

(** ** Commands *)

Module Commands.
Definition kReadAnalogGpio : text := txt "a".
Definition kReadDigitalGpio : text := txt "d".
Definition kReadEncoders : text := txt "e".
Definition kResetEncoders : text := txt "r".
Definition kSetMotorsSpeed : text := txt "m".
Definition kSetMotorsPwm : text := txt "o".
Definition kSetPidsTuningGains : text := txt "u".
Definition kGetIsImuConnected : text := txt "h".
Definition kReadEncodersAndImu : text := txt "i".
End Commands.

Inductive cmd : Type :=
  | cmd_unknown_cb
  | cmd_read_analog_gpio_cb
  | cmd_read_digital_gpio_cb
  | cmd_read_encoders_cb
  | cmd_reset_encoders_cb
  | cmd_set_motors_speed_cb
  | cmd_set_motors_pwm_cb
  | cmd_set_pid_tuning_gains_cb
  | cmd_get_is_imu_connected_cb
  | cmd_read_encoders_and_imu_cb.

Module App.

Definition left_motor : Motor.motor :=
  Motor.mk_motor Hw.kLeftMotorEnableGpioPin Hw.kLeftMotorForwardGpioPin
    Hw.kLeftMotorBackwardGpioPin.
Definition right_motor : Motor.motor :=
  Motor.mk_motor Hw.kRightMotorEnableGpioPin Hw.kRightMotorForwardGpioPin
    Hw.kRightMotorBackwardGpioPin.

(** Encoder objects, as indices in the store. *)
Definition left_id : nat := 0.
Definition right_id : nat := 1.

Record core : Type := mk_core {
  world : hw;
  encoders : list Encoder.encoder;
  registry : Encoder.registry;
  left_pid : Pid.pid;
  right_pid : Pid.pid;
  last_pid_computation : Z;
  last_set_motors_speed_cmd : Z;
  is_imu_connected : bool;
  serial_out : text;
  millis_calls : nat }.

Record app : Type := mk_app { the_core : core; the_shell : Shell.shell cmd }.

Definition set_world (h : hw) (c : core) : core :=
  mk_core h (encoders c) (registry c) (left_pid c) (right_pid c) (last_pid_computation c)
    (last_set_motors_speed_cmd c) (is_imu_connected c) (serial_out c) (millis_calls c).
Definition set_encoders (l : list Encoder.encoder) (c : core) : core :=
  mk_core (world c) l (registry c) (left_pid c) (right_pid c) (last_pid_computation c)
    (last_set_motors_speed_cmd c) (is_imu_connected c) (serial_out c) (millis_calls c).
Definition set_registry (r : Encoder.registry) (c : core) : core :=
  mk_core (world c) (encoders c) r (left_pid c) (right_pid c) (last_pid_computation c)
    (last_set_motors_speed_cmd c) (is_imu_connected c) (serial_out c) (millis_calls c).
Definition set_pids (l r : Pid.pid) (c : core) : core :=
  mk_core (world c) (encoders c) (registry c) l r (last_pid_computation c)
    (last_set_motors_speed_cmd c) (is_imu_connected c) (serial_out c) (millis_calls c).
Definition set_last_pid (t : Z) (c : core) : core :=
  mk_core (world c) (encoders c) (registry c) (left_pid c) (right_pid c) t
    (last_set_motors_speed_cmd c) (is_imu_connected c) (serial_out c) (millis_calls c).
Definition set_last_cmd (t : Z) (c : core) : core :=
  mk_core (world c) (encoders c) (registry c) (left_pid c) (right_pid c)
    (last_pid_computation c) t (is_imu_connected c) (serial_out c) (millis_calls c).
Definition set_imu (b : bool) (c : core) : core :=
  mk_core (world c) (encoders c) (registry c) (left_pid c) (right_pid c)
    (last_pid_computation c) (last_set_motors_speed_cmd c) b (serial_out c) (millis_calls c).

(** Serial output. [println] ends a line with CR LF. *)
Definition print (t : text) (c : core) : core :=
  mk_core (world c) (encoders c) (registry c) (left_pid c) (right_pid c)
    (last_pid_computation c) (last_set_motors_speed_cmd c) (is_imu_connected c)
    (serial_out c ++ t) (millis_calls c).
Definition println (t : text) (c : core) : core := print (t ++ [CR; LF]) c.

Section App.
Context `{Runtime}.

(** Read the clock: the next reading, and the core that made the call. *)
Definition millis (c : core) : Z * core :=
  (millis_at (millis_calls c),
   mk_core (world c) (encoders c) (registry c) (left_pid c) (right_pid c)
     (last_pid_computation c) (last_set_motors_speed_cmd c) (is_imu_connected c)
     (serial_out c) (S (millis_calls c))).

(** [left_encoder_] and [right_encoder_]. *)
Definition encoder_at (i : nat) (c : core) : res Encoder.encoder :=
  aget (encoders c) (Z.of_nat i).
Definition read_encoder (i : nat) (c : core) : res Z :=
  e ← encoder_at i c; Ok (Encoder.read e).
Definition reset_encoder (i : nat) (c : core) : res core :=
  e ← encoder_at i c;
  l ← aset (encoders c) (Z.of_nat i) (Encoder.reset e);
  Ok (set_encoders l c).

Definition motor_speed (m : Motor.motor) (speed : Z) (c : core) : res core :=
  h ← Motor.set_speed m speed (world c); Ok (set_world h c).

(** [pid.reset(encoder.read())] for both wheels: the count is converted from
    [long] to [int]. *)
Definition reset_pids (c : core) : res core :=
  l ← read_encoder left_id c;
  r ← read_encoder right_id c;
  Ok (set_pids (Pid.reset (wraps 16 l) (left_pid c)) (Pid.reset (wraps 16 r) (right_pid c)) c).

Definition disable_pids (c : core) : core :=
  set_pids (Pid.disable (left_pid c)) (Pid.disable (right_pid c)) c.
Definition enable_pids (c : core) : core :=
  set_pids (Pid.enable (left_pid c)) (Pid.enable (right_pid c)) c.

Definition adjust_motors_speed (c : core) : res core :=
  lc ← read_encoder left_id c;
  '(lp, left_motor_speed) ← Pid.compute (wraps 16 lc) 0 (left_pid c);
  rc ← read_encoder right_id c;
  '(rp, right_motor_speed) ← Pid.compute (wraps 16 rc) 0 (right_pid c);
  let c := set_pids lp rp c in
  c ← (if Pid.enabled (left_pid c) then motor_speed left_motor left_motor_speed c else Ok c);
  if Pid.enabled (right_pid c) then motor_speed right_motor right_motor_speed c else Ok c.

Definition stop_motors (c : core) : res core :=
  c ← motor_speed left_motor 0 c;
  c ← motor_speed right_motor 0 c;
  Ok (disable_pids c).

(** ** Command callbacks *)

Definition arg (argv : list text) (i : Z) : res text := aget argv i.

Definition set_motors_speed (argc : Z) (argv : list text) (c : core) : res core :=
  if argc <? 3 then Ok c else
  a1 ← arg argv 1; left_motor_speed ← atoi 16 a1;
  a2 ← arg argv 2; right_motor_speed ← atoi 16 a2;
  let '(now, c) := millis c in
  let c := set_last_cmd now c in
  c ← (if (left_motor_speed =? 0) && (right_motor_speed =? 0) then
         c ← motor_speed left_motor 0 c;
         c ← motor_speed right_motor 0 c;
         c ← reset_pids c;
         Ok (disable_pids c)
       else Ok (enable_pids c));
  let c := set_pids
    (Pid.set_setpoint (Z.quot left_motor_speed Constants.kPidRate) (left_pid c))
    (Pid.set_setpoint (Z.quot right_motor_speed Constants.kPidRate) (right_pid c)) c in
  Ok (println (txt "OK") c).

Definition set_motors_pwm (argc : Z) (argv : list text) (c : core) : res core :=
  if argc <? 3 then Ok c else
  a1 ← arg argv 1; left_motor_pwm ← atoi 16 a1;
  a2 ← arg argv 2; right_motor_pwm ← atoi 16 a2;
  c ← reset_pids c;
  let c := disable_pids c in
  c ← motor_speed left_motor left_motor_pwm c;
  c ← motor_speed right_motor right_motor_pwm c;
  Ok (println (txt "OK") c).

(** The [strtok_r] loop of the gains command: at most four numbers, missing
    ones stay 0. *)
Fixpoint pid_args (n : nat) (s : text) : res (list Z) :=
  match n with
  | O => Ok []
  | S n =>
      match strtok ":"%char s with
      | None => Ok (replicate (S n) 0)
      | Some (str, s) => v ← atoi 16 str; vs ← pid_args n s; Ok (v :: vs)
      end
  end.

Definition set_pid_tuning_gains (argc : Z) (argv : list text) (c : core) : res core :=
  if argc <? 2 then Ok c else
  a1 ← arg argv 1;
  s ← strcpy 20 a1;
  args ← pid_args 4 s;
  match args with
  | [kp; kd; ki; ko] =>
      let c := set_pids (Pid.set_tunings kp kd ki ko (left_pid c))
                 (Pid.set_tunings kp kd ki ko (right_pid c)) c in
      let c := print (txt "PID Updated: ") c in
      let c := print (print_int kp) c in
      let c := print (txt " ") c in
      let c := print (print_int kd) c in
      let c := print (txt " ") c in
      let c := print (print_int ki) c in
      let c := print (txt " ") c in
      let c := println (print_int ko) c in
      Ok (println (txt "OK") c)
  | _ => UB
  end.

Definition read_encoders (c : core) : res core :=
  l ← read_encoder left_id c;
  let c := print (print_int l) c in
  let c := print (txt " ") c in
  r ← read_encoder right_id c;
  Ok (println (print_int r) c).

Definition reset_encoders (c : core) : res core :=
  c ← reset_encoder left_id c;
  c ← reset_encoder right_id c;
  c ← reset_pids c;
  Ok (println (txt "OK") c).

(** The readings of one sensor vector, separated by spaces. *)
Fixpoint print_reals (digits : Z) (vs : list real) (c : core) : core :=
  match vs with
  | [] => c
  | [v] => print (print_real v digits) c
  | v :: vs => print_reals digits vs (print (txt " ") (print (print_real v digits) c))
  end.

Definition read_encoders_and_imu (c : core) : res core :=
  l ← read_encoder left_id c;
  let c := print (txt " ") (print (print_int l) c) in
  r ← read_encoder right_id c;
  let c := print (txt " ") (print (print_int r) c) in
  let c := print (txt " ") (print_reals 4 (imu_quat (world c)) c) in
  let c := print (txt " ") (print_reals 2 (imu_gyro (world c)) c) in
  Ok (print_reals 2 (imu_accel (world c)) c).

Definition run (cb : cmd) (argc : Z) (argv : list text) (c : core) : res core :=
  match cb with
  | cmd_unknown_cb => Ok (println (txt "Unknown command.") c)
  | cmd_read_analog_gpio_cb =>
      if argc <? 2 then Ok c else
      a1 ← arg argv 1; pin ← atoi 16 a1;
      Ok (println (print_int (analogRead pin (world c))) c)
  | cmd_read_digital_gpio_cb =>
      if argc <? 2 then Ok c else
      a1 ← arg argv 1; pin ← atoi 16 a1;
      Ok (println (print_int (din (world c) pin)) c)
  | cmd_read_encoders_cb => read_encoders c
  | cmd_reset_encoders_cb => reset_encoders c
  | cmd_set_motors_speed_cb => set_motors_speed argc argv c
  | cmd_set_motors_pwm_cb => set_motors_pwm argc argv c
  | cmd_set_pid_tuning_gains_cb => set_pid_tuning_gains argc argv c
  | cmd_get_is_imu_connected_cb =>
      Ok (println (print_int (if is_imu_connected c then 1 else 0)) c)
  | cmd_read_encoders_and_imu_cb => read_encoders_and_imu c
  end.

(** ** Setup and main loop *)

Definition default_pid : Pid.pid :=
  Pid.new Constants.kPidKp Constants.kPidKd Constants.kPidKi Constants.kPidKo
    (- Constants.kPwmMax) Constants.kPwmMax.

(** The static members before [setup]. [buf] and [levels] are arbitrary. *)
Definition initial (buf : text) (levels : Z -> Z) : app :=
  mk_app
    (mk_core (hw_init levels)
       [Encoder.new Hw.kLeftEncoderChannelAGpioPin Hw.kLeftEncoderChannelBGpioPin;
        Encoder.new Hw.kRightEncoderChannelAGpioPin Hw.kRightEncoderChannelBGpioPin]
       Encoder.registry_init default_pid default_pid 0 0 false [] 0)
    (Shell.new buf).

Definition begin_encoder (i : nat) (c : core) : res core :=
  e ← encoder_at i c;
  '(r, h) ← Encoder.begin i e (registry c) (world c);
  Ok (set_world h (set_registry r c)).

Definition on_world (f : hw -> hw) (c : core) : core := set_world (f (world c)) c.

(** The command table of [setup]. *)
Definition command_table : list (text * cmd) :=
  [(Commands.kReadAnalogGpio, cmd_read_analog_gpio_cb);
   (Commands.kReadDigitalGpio, cmd_read_digital_gpio_cb);
   (Commands.kReadEncoders, cmd_read_encoders_cb);
   (Commands.kResetEncoders, cmd_reset_encoders_cb);
   (Commands.kSetMotorsSpeed, cmd_set_motors_speed_cb);
   (Commands.kSetMotorsPwm, cmd_set_motors_pwm_cb);
   (Commands.kSetPidsTuningGains, cmd_set_pid_tuning_gains_cb);
   (Commands.kGetIsImuConnected, cmd_get_is_imu_connected_cb);
   (Commands.kReadEncodersAndImu, cmd_read_encoders_and_imu_cb)].

Fixpoint register_all (l : list (text * cmd)) (s : Shell.shell cmd) : res (Shell.shell cmd) :=
  match l with
  | [] => Ok s
  | (nm, cb) :: l => s ← Shell.register_command nm cb s; register_all l s
  end.

Definition setup (a : app) : res app :=
  let c := on_world (emit (SerialBegin Constants.kBaudrate)) (the_core a) in
  c ← begin_encoder left_id c;
  c ← begin_encoder right_id c;
  let c := on_world (Motor.begin left_motor) c in
  let c := on_world (Motor.enable left_motor true) c in
  let c := on_world (Motor.begin right_motor) c in
  let c := on_world (Motor.enable right_motor true) c in
  c ← reset_pids c;
  let s := Shell.set_serial_stream (the_shell a) in
  let s := Shell.set_default_callback cmd_unknown_cb s in
  s ← register_all command_table s;
  let c := if imu_begin then set_imu true (on_world (emit (ImuSetExtCrystalUse true)) c)
           else c in
  Ok (mk_app c s).

(** The three phases of [loop]. *)
Definition loop_shell (bytes : text) (a : app) : res app :=
  '(s, c) ← Shell.process_input run bytes (the_shell a) (the_core a);
  Ok (mk_app c s).

(** [kPidPeriod] is a [double]: converting the elapsed time to it is monotone
    and exact up to 2^24, so the comparison is the one of integers. *)
Definition loop_pid (c : core) : res core :=
  let '(now, c) := millis c in
  if wrapu 32 (now - last_pid_computation c) >? Constants.kPidPeriod then
    let '(now, c) := millis c in
    adjust_motors_speed (set_last_pid now c)
  else Ok c.

Definition loop_stop (c : core) : res core :=
  let '(now, c) := millis c in
  if wrapu 32 (now - last_set_motors_speed_cmd c) >? Constants.kAutoStopWindow then
    let '(now, c) := millis c in
    stop_motors (set_last_cmd now c)
  else Ok c.

Definition loop (bytes : text) (a : app) : res app :=
  a ← loop_shell bytes a;
  c ← loop_pid (the_core a);
  c ← loop_stop c;
  Ok (mk_app c (the_shell a)).

(** The interrupt service routine of vector [k], with the input pins at
    [levels] when it runs. *)
Definition isr (k : nat) (levels : Z -> Z) (c : core) : res core :=
  let h := set_din levels (world c) in
  match InterruptInArduino.ISR k h with
  | None => Ok (set_world h c)
  | Some cb =>
      l ← Encoder.callback_i cb (registry c) (encoders c) h;
      Ok (set_encoders l (set_world h c))
  end.

(** ** The firmware as a transition system *)

Inductive phase : Type := AtShell | AtPid | AtStop.

(** What a step takes from outside: the bytes received, an interrupt. *)
Inductive input : Type :=
  | Bytes (bytes : text)
  | Tick
  | Interrupt (k : nat) (levels : Z -> Z).

Inductive step : phase * app -> input -> phase * app -> Prop :=
  | step_shell bytes a a' :
      loop_shell bytes a = Ok a' -> step (AtShell, a) (Bytes bytes) (AtPid, a')
  | step_pid a c' :
      loop_pid (the_core a) = Ok c' ->
      step (AtPid, a) Tick (AtStop, mk_app c' (the_shell a))
  | step_stop a c' :
      loop_stop (the_core a) = Ok c' ->
      step (AtStop, a) Tick (AtShell, mk_app c' (the_shell a))
  | step_isr p k levels a c' :
      isr k levels (the_core a) = Ok c' ->
      step (p, a) (Interrupt k levels) (p, mk_app c' (the_shell a)).

(** A run of the firmware on a list of inputs. *)
Inductive steps : phase * app -> list input -> phase * app -> Prop :=
  | steps_nil s : steps s [] s
  | steps_cons s i s' l s'' : step s i s' -> steps s' l s'' -> steps s (i :: l) s''.

End App.
End App.
