(* ===== verification/AppSafety.v ===== *)
(** * Safety of the firmware application

  An invariant of every reachable state of [App] (controllers inside their
  limits, bridges never driven both ways at rest), the automatic stop, and
  what the individual commands do. *)

From stdpp Require Import base option list numbers strings relations.
From Stdlib Require Import ZArith Lia Ascii.
From S2P Require Import Prelude CString Hardware Motor Encoder Pid Shell App.

Import App.

#[local] Arguments tokens : simpl never.
#[local] Arguments Pid.compute : simpl never.
#[local] Arguments Motor.set_speed : simpl never.

(** ** Motors *)

(** The bridge of [m] was never driven, or is driven at some speed. *)
Definition driven (m : Motor.motor) (h : hw) : Prop :=
  Motor.outputs m h = (None, None) \/
  exists speed, Motor.outputs m h =
    (Some (Motor.forward_duty speed), Some (Motor.backward_duty speed)).

Definition halted (m : Motor.motor) (h : hw) : Prop := Motor.outputs m h = (Some 0, Some 0).

(** Commands on one motor do not touch the pins of the other. *)
Definition independent (m m' : Motor.motor) : Prop :=
  forall h h' speed, Motor.set_speed m speed h = Ok h' ->
    Motor.outputs m' h' = Motor.outputs m' h.

Lemma independent_lr : independent left_motor right_motor.
Proof.
  intros h h' s Hs. apply Motor.set_speed_outputs in Hs as (_ & Ho & _); [|done].
  unfold Motor.outputs. by rewrite !Ho.
Qed.

Lemma independent_rl : independent right_motor left_motor.
Proof.
  intros h h' s Hs. apply Motor.set_speed_outputs in Hs as (_ & Ho & _); [|done].
  unfold Motor.outputs. by rewrite !Ho.
Qed.

Section Safety.
Context `{Runtime}.

(** ** The invariant *)

(** What [setup] leaves in the static tables: the left encoder is instance 0,
    served by vector 2 (port D), the right one is instance 1, served by
    vector 1 (port C). *)
Definition ready_registry : Encoder.registry :=
  Encoder.mk_registry [Some left_id; Some right_id] 2.
Definition ready_vectors : list (option nat) := [None; Some 1%nat; Some 0%nat].

Record core_ok (c : core) : Prop := {
  ok_channels : map (fun e => (Encoder.channel_a e, Encoder.channel_b e)) (encoders c) =
    [(Hw.kLeftEncoderChannelAGpioPin, Hw.kLeftEncoderChannelBGpioPin);
     (Hw.kRightEncoderChannelAGpioPin, Hw.kRightEncoderChannelBGpioPin)];
  ok_registry : registry c = ready_registry;
  ok_vectors : g_callbacks (world c) = ready_vectors;
  ok_left_pid : Pid.wf (left_pid c);
  ok_right_pid : Pid.wf (right_pid c);
  ok_left_motor : driven left_motor (world c);
  ok_right_motor : driven right_motor (world c) }.

Lemma core_ok_pids l r c : core_ok c -> Pid.wf l -> Pid.wf r -> core_ok (set_pids l r c).
Proof. by intros []. Qed.

(** Updating an encoder in the store, on the same channels. *)
Lemma core_ok_encoder i e e' c :
  core_ok c -> encoders c !! i = Some e ->
  Encoder.channel_a e' = Encoder.channel_a e -> Encoder.channel_b e' = Encoder.channel_b e ->
  core_ok (set_encoders (<[i := e']> (encoders c)) c).
Proof.
  intros [Hch] Hi Ha Hb. split; simpl; try done. rewrite <- Hch.
  change (fmap (fun e => (Encoder.channel_a e, Encoder.channel_b e)) (<[i := e']> (encoders c))
    = fmap (fun e => (Encoder.channel_a e, Encoder.channel_b e)) (encoders c)).
  rewrite list_fmap_insert, Ha, Hb. apply list_insert_id.
  by rewrite list_lookup_fmap, Hi.
Qed.

(** The fields the invariant reads: an update that keeps them keeps it. *)
Lemma core_ok_same c c' :
  core_ok c -> encoders c' = encoders c -> registry c' = registry c ->
  left_pid c' = left_pid c -> right_pid c' = right_pid c -> world c' = world c ->
  core_ok c'.
Proof. intros [] He Hg Hl Hr Hw. split; by rewrite ?He, ?Hg, ?Hl, ?Hr, ?Hw. Qed.

Lemma core_ok_print t c : core_ok c -> core_ok (print t c).
Proof. intros. by eapply core_ok_same. Qed.
Lemma core_ok_println t c : core_ok c -> core_ok (println t c).
Proof. intros. by eapply core_ok_same. Qed.
Lemma core_ok_last_cmd t c : core_ok c -> core_ok (set_last_cmd t c).
Proof. intros. by eapply core_ok_same. Qed.
Lemma core_ok_last_pid t c : core_ok c -> core_ok (set_last_pid t c).
Proof. intros. by eapply core_ok_same. Qed.
Lemma core_ok_millis c : core_ok c -> core_ok (millis c).2.
Proof. intros. by eapply core_ok_same. Qed.
Lemma core_ok_print_reals d vs : forall c, core_ok c -> core_ok (print_reals d vs c).
Proof.
  induction vs as [|v [|v' vs] IH]; intros c Hc; [done|by apply core_ok_print|].
  apply IH. by do 2 apply core_ok_print.
Qed.

(** New input levels do not change the outputs. *)
Lemma core_ok_din levels c : core_ok c -> core_ok (set_world (set_din levels (world c)) c).
Proof. by intros []. Qed.

(** What [motor_speed] does to the core. *)
Lemma motor_speed_ok m speed c c' :
  motor_speed m speed c = Ok c' ->
  exists h, Motor.set_speed m speed (world c) = Ok h /\ c' = set_world h c.
Proof. unfold motor_speed. intros. res_inv. eauto. Qed.

Lemma core_ok_left speed c c' :
  core_ok c -> motor_speed left_motor speed c = Ok c' -> core_ok c'.
Proof.
  intros [] (h & Hs & ->)%motor_speed_ok.
  pose proof (independent_lr _ _ _ Hs) as Hi.
  apply Motor.set_speed_outputs in Hs as (Ho & _ & (_ & _ & Hg & _)); [|done].
  split; simpl; unfold driven; rewrite ?Hi, ?Hg; eauto.
Qed.

Lemma core_ok_right speed c c' :
  core_ok c -> motor_speed right_motor speed c = Ok c' -> core_ok c'.
Proof.
  intros [] (h & Hs & ->)%motor_speed_ok.
  pose proof (independent_rl _ _ _ Hs) as Hi.
  apply Motor.set_speed_outputs in Hs as (Ho & _ & (_ & _ & Hg & _)); [|done].
  split; simpl; unfold driven; rewrite ?Hi, ?Hg; eauto.
Qed.

Lemma reset_pids_ok c c' :
  reset_pids c = Ok c' ->
  exists l r, c' = set_pids (Pid.reset l (left_pid c)) (Pid.reset r (right_pid c)) c.
Proof. unfold reset_pids. intros. res_inv. eauto. Qed.

Lemma core_ok_reset_pids c c' : core_ok c -> reset_pids c = Ok c' -> core_ok c'.
Proof.
  intros Hc (l & r & ->)%reset_pids_ok.
  apply core_ok_pids; [done|..]; apply Pid.wf_reset; apply Hc.
Qed.

Lemma core_ok_disable c : core_ok c -> core_ok (disable_pids c).
Proof. intros []. by apply core_ok_pids. Qed.
Lemma core_ok_enable c : core_ok c -> core_ok (enable_pids c).
Proof. intros []. by apply core_ok_pids. Qed.

Lemma core_ok_reset_encoder i c c' : core_ok c -> reset_encoder i c = Ok c' -> core_ok c'.
Proof.
  intros Hc Hr. unfold reset_encoder, encoder_at in Hr. res_inv.
  by eapply core_ok_encoder.
Qed.

(** Push the invariant forward through the operations of a handler. *)
Ltac push_ok :=
  repeat match goal with
  | Hc : core_ok ?c, Hm : motor_speed left_motor _ ?c = Ok _ |- _ =>
      apply (core_ok_left _ _ _ Hc) in Hm
  | Hc : core_ok ?c, Hm : motor_speed right_motor _ ?c = Ok _ |- _ =>
      apply (core_ok_right _ _ _ Hc) in Hm
  | Hc : core_ok ?c, Hm : reset_pids ?c = Ok _ |- _ =>
      apply (core_ok_reset_pids _ _ Hc) in Hm
  | Hc : core_ok ?c, Hm : reset_encoder _ ?c = Ok _ |- _ =>
      apply (core_ok_reset_encoder _ _ _ Hc) in Hm
  end.

Create HintDb app.
Hint Resolve core_ok_print core_ok_println core_ok_last_cmd core_ok_last_pid core_ok_millis
  core_ok_print_reals core_ok_disable core_ok_enable core_ok_pids ok_left_pid ok_right_pid
  Pid.wf_set_setpoint Pid.wf_set_tunings : app.

Lemma core_ok_set_motors_speed argc argv c c' :
  core_ok c -> set_motors_speed argc argv c = Ok c' -> core_ok c'.
Proof.
  intros Hc Hr. unfold set_motors_speed, millis in Hr. case_match; res_inv; [done|].
  pose proof (core_ok_last_cmd (millis_at (millis_calls c)) _ (core_ok_millis _ Hc)) as Hc1.
  unfold millis in Hc1. cbn [snd] in Hc1.
  match goal with Hb : (if _ then _ else _) = Ok ?c1 |- _ =>
    assert (core_ok c1) as [] by (case_match; res_inv; push_ok; auto with app) end.
  apply core_ok_println. by split.
Qed.

Lemma core_ok_set_motors_pwm argc argv c c' :
  core_ok c -> set_motors_pwm argc argv c = Ok c' -> core_ok c'.
Proof.
  intros Hc Hr. unfold set_motors_pwm in Hr. case_match; res_inv; [done|].
  push_ok.
  match goal with Hd : core_ok ?c1, Hm : motor_speed left_motor _ (disable_pids ?c1) = _ |- _ =>
    apply core_ok_disable in Hd end.
  push_ok. auto with app.
Qed.

Lemma core_ok_set_gains argc argv c c' :
  core_ok c -> set_pid_tuning_gains argc argv c = Ok c' -> core_ok c'.
Proof.
  intros Hc Hr. unfold set_pid_tuning_gains in Hr. case_match; res_inv; [done|].
  repeat case_match; try done. res_inv.
  repeat (apply core_ok_println || apply core_ok_print).
  apply core_ok_pids; [done|..]; apply Hc.
Qed.

Lemma core_ok_run cb argc argv c c' : core_ok c -> run cb argc argv c = Ok c' -> core_ok c'.
Proof.
  intros Hc Hr. destruct cb; simpl in Hr.
  - res_inv. auto with app.
  - case_match; res_inv; auto with app.
  - case_match; res_inv; auto with app.
  - unfold read_encoders in Hr. res_inv. auto with app.
  - unfold reset_encoders in Hr. res_inv. push_ok. auto with app.
  - by eapply core_ok_set_motors_speed.
  - by eapply core_ok_set_motors_pwm.
  - by eapply core_ok_set_gains.
  - res_inv. auto with app.
  - unfold read_encoders_and_imu in Hr. res_inv. auto 12 with app.
Qed.

Lemma core_ok_cond (b : bool) m speed c c' :
  m = left_motor \/ m = right_motor -> core_ok c ->
  (if b then motor_speed m speed c else Ok c) = Ok c' -> core_ok c'.
Proof.
  intros Hm Hc Hr. destruct b; [|by res_inv].
  destruct Hm as [-> | ->]; [by eapply core_ok_left|by eapply core_ok_right].
Qed.

Lemma core_ok_adjust c c' : core_ok c -> adjust_motors_speed c = Ok c' -> core_ok c'.
Proof.
  intros Hc Hr. unfold adjust_motors_speed in Hr. res_inv.
  match goal with
  | Hl : Pid.compute _ _ (left_pid c) = Ok (?lp, _),
    Hrr : Pid.compute _ _ (right_pid c) = Ok (?rp, _) |- _ =>
      apply Pid.wf_compute in Hl; [|apply Hc]; apply Pid.wf_compute in Hrr; [|apply Hc];
      pose proof (core_ok_pids lp rp c Hc Hl Hrr) as Hc1
  end.
  eapply core_ok_cond; [|eapply core_ok_cond; [|exact Hc1|eassumption]|eassumption]; auto.
Qed.

Lemma core_ok_stop c c' : core_ok c -> stop_motors c = Ok c' -> core_ok c'.
Proof. intros Hc Hr. unfold stop_motors in Hr. res_inv. push_ok. auto with app. Qed.

Lemma core_ok_loop_pid c c' : core_ok c -> loop_pid c = Ok c' -> core_ok c'.
Proof.
  intros Hc Hr. unfold loop_pid, millis in Hr. simpl in Hr.
  case_match; res_inv; [|by eapply core_ok_same].
  eapply core_ok_adjust; [|done]. by eapply core_ok_same.
Qed.

Lemma core_ok_loop_stop c c' : core_ok c -> loop_stop c = Ok c' -> core_ok c'.
Proof.
  intros Hc Hr. unfold loop_stop, millis in Hr. simpl in Hr.
  case_match; res_inv; [|by eapply core_ok_same].
  eapply core_ok_stop; [|done]. by eapply core_ok_same.
Qed.

(** ** Interrupts *)

(** The two encoders of a ready application. *)
Lemma two_encoders c :
  core_ok c -> exists el er, encoders c = [el; er] /\
    Encoder.channel_a el = 2 /\ Encoder.channel_b el = 3 /\
    Encoder.channel_a er = 16 /\ Encoder.channel_b er = 17.
Proof.
  intros [Hch _ _ _ _ _ _]. destruct (encoders c) as [|el [|er [|x l]]]; try done.
  simpl in Hch. injection Hch as ? ? ? ?. by exists el, er.
Qed.

(** Each vector serves one encoder; any other vector serves none. *)
Lemma isr_left levels c el er :
  core_ok c -> encoders c = [el; er] ->
  isr 2 levels c =
    (e ← Encoder.callback el (set_din levels (world c));
     Ok (set_encoders [e; er] (set_world (set_din levels (world c)) c))).
Proof.
  intros [_ Hreg Hvec _ _ _ _] He. unfold isr, InterruptInArduino.ISR. simpl.
  rewrite Hvec, Hreg, He. simpl. unfold Encoder.callback_i. simpl.
  by destruct (Encoder.callback el _).
Qed.

Lemma isr_right levels c el er :
  core_ok c -> encoders c = [el; er] ->
  isr 1 levels c =
    (e ← Encoder.callback er (set_din levels (world c));
     Ok (set_encoders [el; e] (set_world (set_din levels (world c)) c))).
Proof.
  intros [_ Hreg Hvec _ _ _ _] He. unfold isr, InterruptInArduino.ISR. simpl.
  rewrite Hvec, Hreg, He. simpl. unfold Encoder.callback_i. simpl.
  by destruct (Encoder.callback er _).
Qed.

Lemma isr_none k levels c :
  core_ok c -> k <> 1%nat -> k <> 2%nat ->
  isr k levels c = Ok (set_world (set_din levels (world c)) c).
Proof.
  intros [_ _ Hvec _ _ _ _] H1 H2. unfold isr, InterruptInArduino.ISR. simpl.
  rewrite Hvec. destruct k as [|[|[|k]]]; try done.
Qed.

Lemma callback_channels e h e' :
  Encoder.callback (W := hw) e h = Ok e' ->
  Encoder.channel_a e' = Encoder.channel_a e /\ Encoder.channel_b e' = Encoder.channel_b e.
Proof. unfold Encoder.callback. intros. by res_inv. Qed.

Lemma core_ok_isr k levels c c' : core_ok c -> isr k levels c = Ok c' -> core_ok c'.
Proof.
  intros Hc Hi. destruct (two_encoders c Hc) as (el & er & He & _).
  pose proof (core_ok_din levels c Hc) as Hd.
  destruct (decide (k = 2%nat)) as [->|]; [|destruct (decide (k = 1%nat)) as [->|]].
  - rewrite (isr_left levels c el er) in Hi by done. res_inv.
    match goal with Hcb : Encoder.callback _ _ = Ok ?e1 |- _ =>
      apply callback_channels in Hcb as [Ha Hb];
      pose proof (core_ok_encoder 0 el e1 _ Hd) as Hgoal
    end.
    simpl in Hgoal. rewrite He in Hgoal. by apply Hgoal.
  - rewrite (isr_right levels c el er) in Hi by done. res_inv.
    match goal with Hcb : Encoder.callback _ _ = Ok ?e1 |- _ =>
      apply callback_channels in Hcb as [Ha Hb];
      pose proof (core_ok_encoder 1 er e1 _ Hd) as Hgoal
    end.
    simpl in Hgoal. rewrite He in Hgoal. by apply Hgoal.
  - rewrite isr_none in Hi by done. by res_inv.
Qed.

(** ** The application *)

Definition table : list (Shell.command cmd) :=
  map (fun '(nm, cb) => Shell.mk_command nm cb) command_table.

Record app_ok (a : app) : Prop := {
  ok_core : core_ok (the_core a);
  ok_shell : Shell.wf (the_shell a);
  ok_commands : Shell.commands (the_shell a) = table;
  ok_default : Shell.default_callback (the_shell a) = Some cmd_unknown_cb;
  ok_stream : Shell.serial_stream_set (the_shell a) = true }.

Lemma app_ok_core c a : app_ok a -> core_ok c -> app_ok (mk_app c (the_shell a)).
Proof. by intros []. Qed.

Lemma app_ok_loop_shell bytes a a' : app_ok a -> loop_shell bytes a = Ok a' -> app_ok a'.
Proof.
  intros [] Hl. unfold loop_shell, Shell.process_input in Hl. res_inv.
  match goal with Hp : Shell.process_chars _ _ _ = Ok _ |- _ =>
    pose proof (Shell.process_chars_shell run _ _ _ _ _ ok_shell0 Hp) as (? & Hc & Hd & Hs);
    pose proof (Shell.process_chars_inv run core_ok _ _ _ _ _ core_ok_run ok_core0 Hp)
  end.
  split; simpl; congruence.
Qed.

Lemma app_ok_step p a i p' a' : step (p, a) i (p', a') -> app_ok a -> app_ok a'.
Proof.
  intros Hs Ha. inversion Hs; subst; clear Hs.
  - by eapply app_ok_loop_shell.
  - apply app_ok_core; [done|]. eapply core_ok_loop_pid; [apply Ha|done].
  - apply app_ok_core; [done|]. eapply core_ok_loop_stop; [apply Ha|done].
  - apply app_ok_core; [done|]. eapply core_ok_isr; [apply Ha|done].
Qed.

Lemma app_ok_steps s l s' : steps s l s' -> app_ok s.2 -> app_ok s'.2.
Proof.
  induction 1 as [|[p a] i [p' a'] l s'' Hs Hss IH]; [done|].
  intros Ha. apply IH. by eapply app_ok_step.
Qed.
End Safety.

(** ** Setup on the target board *)

(** The Arduino core's pin map for the encoder pins of the board: digital pins 2
    and 3 are bits 2 and 3 of port D, pins 16 and 17 bits 2 and 3 of port C. *)
Class UnoPins `{ArduinoCore} : Prop := {
  uno_port_2 : digitalPinToPort 2 = 4;
  uno_port_3 : digitalPinToPort 3 = 4;
  uno_port_16 : digitalPinToPort 16 = 3;
  uno_port_17 : digitalPinToPort 17 = 3;
  uno_mask_2 : digitalPinToBitMask 2 = 4;
  uno_mask_3 : digitalPinToBitMask 3 = 8;
  uno_mask_16 : digitalPinToBitMask 16 = 4;
  uno_mask_17 : digitalPinToBitMask 17 = 8;
  uno_not_a_port : NOT_A_PORT = 0 }.

(** A concrete runtime: the pin map of the whole board, a clock that advances by
    ten milliseconds per reading. *)
Definition uno_core : ArduinoCore := {|
  digitalPinToPort p := if p <=? 7 then 4 else if p <=? 13 then 2 else
                        if p <=? 19 then 3 else 0;
  digitalPinToBitMask p := if p <=? 7 then 2 ^ p else if p <=? 13 then 2 ^ (p - 8)
                           else 2 ^ (p - 14);
  NOT_A_PORT := 0 |}.

Lemma demo_millis_range k : in_u 32 (wrapu 32 (10 * Z.of_nat k)).
Proof. by apply wrapu_range. Qed.

Definition demo_runtime : Runtime := {|
  core_pins := uno_core;
  millis_at k := wrapu 32 (10 * Z.of_nat k);
  millis_range := demo_millis_range;
  analogRead pin h := 512;
  imu_begin := false;
  real := Z;
  imu_quat h := [0; 0; 0; 1];
  imu_gyro h := [0; 0; 0];
  imu_accel h := [0; 0; 0];
  print_real r d := print_int r |}.

Lemma uno_core_pins : @UnoPins uno_core.
Proof. by split. Qed.

Section Properties.
Context `{Runtime}.

(** The channels are attached: instance 0 to vector 2, instance 1 to vector 1,
    and the change interrupts of the four pins are enabled. *)
Lemma begin_encoders `{!UnoPins} c :
  encoders c = encoders (the_core (initial [] (fun _ => 0))) ->
  registry c = Encoder.registry_init -> world c = emit (SerialBegin Constants.kBaudrate) (hw_init (din (world c))) ->
  exists h, (c ← begin_encoder left_id c; begin_encoder right_id c) =
      Ok (set_world h (set_registry ready_registry c)) /\
    g_callbacks h = ready_vectors /\ pcmsk h = [0; 12; 12] /\ pcicr h = 6 /\
    din h = din (world c) /\
    (forall pin, pwm_of pin (trace h) = None).
Proof.
  intros He Hr Hw.
  unfold begin_encoder, Encoder.begin, encoder_at. rewrite He, Hr, Hw. simpl.
  unfold InterruptInArduino.attach, Hw.kLeftEncoderChannelAGpioPin,
    Hw.kLeftEncoderChannelBGpioPin.
  rewrite ?uno_port_2, ?uno_port_3, ?uno_mask_2, ?uno_mask_3, ?uno_not_a_port. simpl.
  rewrite He. simpl.
  unfold InterruptInArduino.attach, Hw.kRightEncoderChannelAGpioPin,
    Hw.kRightEncoderChannelBGpioPin.
  rewrite ?uno_port_16, ?uno_port_17, ?uno_mask_16, ?uno_mask_17, ?uno_not_a_port. simpl.
  eexists. split; [reflexivity|]. done.
Qed.

(** No motor was driven yet, both controllers are disabled, and the clock was not read. *)
Record fresh (c : core) : Prop := {
  fresh_timer : last_set_motors_speed_cmd c = 0;
  fresh_calls : millis_calls c = O;
  fresh_left : Motor.outputs left_motor (world c) = (None, None);
  fresh_right : Motor.outputs right_motor (world c) = (None, None);
  fresh_left_pid : Pid.is_enabled (left_pid c) = false;
  fresh_right_pid : Pid.is_enabled (right_pid c) = false }.

Lemma setup_ready `{!UnoPins} buf levels :
  Z.of_nat (length buf) = 64 ->
  exists a, setup (initial buf levels) = Ok a /\ app_ok a /\
    pcmsk (world (the_core a)) = [0; 12; 12] /\ pcicr (world (the_core a)) = 6 /\
    is_imu_connected (the_core a) = imu_begin /\ fresh (the_core a).
Proof.
  intros Hbuf.
  set (c0 := on_world (emit (SerialBegin Constants.kBaudrate)) (the_core (initial buf levels))).
  destruct (begin_encoders c0) as (h & Hb & Hvec & Hmask & Hcr & Hdin & Hpwm); [done..|].
  apply bind_ok in Hb as (c1 & H1 & H2).
  unfold setup. change (the_core (initial buf levels)) with (the_core (initial buf levels)).
  fold c0. rewrite H1. cbn [mbind res_bind]. rewrite H2. cbn [mbind res_bind].
  match goal with |- context [reset_pids ?c] => set (c2 := c) end.
  assert (core_ok c2) as Hc2.
  { split; try done; try (by repeat split).
    all: left; unfold Motor.outputs; cbn; by rewrite !Hpwm. }
  assert (fresh c2) as Hf2.
  { split; try done; unfold Motor.outputs; cbn; by rewrite !Hpwm. }
  assert (pcmsk (world c2) = [0; 12; 12]) as Hm2 by exact Hmask.
  assert (pcicr (world c2) = 6) as Hr2 by exact Hcr.
  assert (is_imu_connected c2 = false) as Hi2 by done.
  clearbody c2. clear c0 c1 H1 H2 Hvec Hmask Hcr Hdin Hpwm h.
  destruct (two_encoders c2 Hc2) as (el & er & He & _).
  destruct (reset_pids c2) as [c3| |] eqn:Hrp;
    [|by unfold reset_pids, read_encoder, encoder_at in Hrp; rewrite He in Hrp..].
  cbn [mbind res_bind].
  destruct (reset_pids_ok _ _ Hrp) as (l & r & Hc3eq).
  pose proof (core_ok_reset_pids _ _ Hc2 Hrp) as Hc3.
  assert (pcmsk (world c3) = [0; 12; 12] /\ pcicr (world c3) = 6 /\
          is_imu_connected c3 = false) as (Hm3 & Hr3 & Hi3) by by subst c3.
  assert (fresh c3) as Hf3 by (subst c3; by destruct Hf2).
  clear Hrp Hc3eq l r.
  assert (register_all command_table
    (Shell.set_default_callback cmd_unknown_cb
      (Shell.set_serial_stream (the_shell (initial buf levels)))) =
    Ok (Shell.mk_shell true (Some cmd_unknown_cb) table buf 0)) as -> by reflexivity.
  cbn [mbind res_bind]. eexists. split; [reflexivity|]. cbn [the_core the_shell].
  split; [split; [|by split|done..]|]; destruct imu_begin; try done.
  - eapply core_ok_same; [|done..]. by destruct Hc3.
  - do 3 (split; [done|]). by destruct Hf3.
Qed.

(** ** The automatic stop *)

Definition stopped (c : core) : Prop :=
  halted left_motor (world c) /\ halted right_motor (world c) /\
  Pid.is_enabled (left_pid c) = false /\ Pid.is_enabled (right_pid c) = false.

Lemma motor_speed_run m speed c :
  in_int speed -> speed <> - 2 ^ 15 ->
  exists h, motor_speed m speed c = Ok (set_world h c) /\
    Motor.set_speed m speed (world c) = Ok h.
Proof.
  intros Hs Hne. destruct (Motor.set_speed_defined m speed (world c) Hs Hne) as [h Hh].
  exists h. unfold motor_speed. by rewrite Hh.
Qed.

(** Both motors commanded in turn: each bridge shows its own duty. *)
Lemma both_motors sl sr c :
  in_int sl -> sl <> - 2 ^ 15 -> in_int sr -> sr <> - 2 ^ 15 ->
  exists h, (c ← motor_speed left_motor sl c; motor_speed right_motor sr c) =
      Ok (set_world h c) /\
    Motor.outputs left_motor h =
      (Some (Motor.forward_duty sl), Some (Motor.backward_duty sl)) /\
    Motor.outputs right_motor h =
      (Some (Motor.forward_duty sr), Some (Motor.backward_duty sr)).
Proof.
  intros Hl Hl' Hr Hr'.
  destruct (motor_speed_run left_motor sl c Hl Hl') as (h1 & H1 & Hs1).
  destruct (motor_speed_run right_motor sr (set_world h1 c) Hr Hr') as (h2 & H2 & Hs2).
  exists h2. rewrite H1. cbn [mbind res_bind]. rewrite H2. split; [done|].
  pose proof (independent_rl _ _ _ Hs2) as Hi.
  apply Motor.set_speed_outputs in Hs1 as [Ho1 _]; [|done].
  apply Motor.set_speed_outputs in Hs2 as [Ho2 _]; [|done]. by rewrite Hi.
Qed.

Lemma stop_motors_stops c : exists c', stop_motors c = Ok c' /\ stopped c'.
Proof.
  destruct (both_motors 0 0 c) as (h & Hh & Hol & Hor); [by unfold in_s|done|by unfold in_s|done|].
  apply bind_ok in Hh as (c1 & H1 & H2).
  exists (disable_pids (set_world h c)). unfold stop_motors. rewrite H1.
  cbn [mbind res_bind]. rewrite H2. split; [done|]. by repeat split.
Qed.

Lemma stopped_same c c' :
  stopped c -> world c' = world c -> left_pid c' = left_pid c ->
  right_pid c' = right_pid c -> stopped c'.
Proof. unfold stopped. by intros ? -> -> ->. Qed.

Lemma stopped_adjust c c' : stopped c -> adjust_motors_speed c = Ok c' -> stopped c'.
Proof.
  intros (Hl & Hr & Hel & Her) Ha. unfold adjust_motors_speed in Ha. res_inv.
  repeat match goal with Hc : Pid.compute _ _ _ = Ok _ |- _ =>
    rewrite Pid.compute_disabled in Hc by done; injection Hc as <- <- end.
  unfold Pid.enabled in *. simpl in *.
  assert (forall p n, Pid.is_enabled p = false -> Pid.is_enabled
    (if Pid.last_input p =? 0 then p else Pid.reset n p) = false) as Hd
    by (intros p n ?; by destruct (Pid.last_input p =? 0)).
  rewrite (Hd (left_pid c)) in * by done. res_inv. simpl in *.
  rewrite (Hd (right_pid c)) in * by done. res_inv.
  repeat split; simpl; auto.
Qed.

Lemma stopped_loop_pid c c' : stopped c -> loop_pid c = Ok c' -> stopped c'.
Proof.
  intros Hs Hr. unfold loop_pid, millis in Hr. simpl in Hr.
  case_match; res_inv; [|by eapply stopped_same].
  eapply stopped_adjust; [|done]. by eapply stopped_same.
Qed.

Lemma loop_stop_cases c :
  exists c', loop_stop c = Ok c' /\
    (stopped c' \/
     (wrapu 32 (millis_at (millis_calls c) - last_set_motors_speed_cmd c)
        <= Constants.kAutoStopWindow /\ c' = (millis c).2)).
Proof.
  unfold loop_stop, millis. simpl.
  set (elapsed := wrapu 32 _). rewrite Z.gtb_ltb.
  destruct (Z.ltb_spec Constants.kAutoStopWindow elapsed); [|by eauto].
  match goal with |- exists _, stop_motors ?c0 = _ /\ _ =>
    destruct (stop_motors_stops c0) as (c' & -> & Hs) end. eauto.
Qed.

Lemma stopped_isr k levels c c' :
  core_ok c -> stopped c -> isr k levels c = Ok c' -> stopped c'.
Proof.
  intros Hc Hs Hi. destruct (two_encoders c Hc) as (el & er & He & _).
  destruct (decide (k = 2%nat)) as [->|]; [|destruct (decide (k = 1%nat)) as [->|]].
  - rewrite (isr_left levels c el er) in Hi by done. by res_inv.
  - rewrite (isr_right levels c el er) in Hi by done. by res_inv.
  - rewrite isr_none in Hi by done. by res_inv.
Qed.

(** No byte arrives. *)
Definition silent (i : input) : Prop :=
  match i with Bytes bytes => bytes = [] | _ => True end.

Lemma stopped_step p a i p' a' :
  step (p, a) i (p', a') -> silent i -> app_ok a -> stopped (the_core a) ->
  stopped (the_core a').
Proof.
  intros Hs Hi Ha Hst. inversion Hs; subst; clear Hs; simpl in *.
  - subst. unfold loop_shell, Shell.process_input in *. res_inv.
    match goal with Hp : Shell.process_chars _ [] _ = _ |- _ => by injection Hp as <- <- end.
  - by eapply stopped_loop_pid.
  - destruct (loop_stop_cases (the_core a)) as (c1 & Hc1 & Hor).
    assert (c1 = c') as -> by congruence. destruct Hor as [?|[_ ->]]; [done|].
    by eapply stopped_same.
  - eapply stopped_isr; [apply Ha|done..].
Qed.

(** ** Commands *)

(** The speed command with both wheels stopped or moving. *)
Definition speed_argv (l r : Z) : list text :=
  [Commands.kSetMotorsSpeed; print_int l; print_int r].

Lemma set_motors_speed_eq l r c :
  in_int l -> in_int r -> core_ok c ->
  exists c1, set_motors_speed 3 (speed_argv l r) c = Ok (println (txt "OK") (set_pids
      (Pid.set_setpoint (Z.quot l 30) (left_pid c1))
      (Pid.set_setpoint (Z.quot r 30) (right_pid c1)) c1)) /\
    last_set_motors_speed_cmd c1 = millis_at (millis_calls c) /\
    serial_out c1 = serial_out c /\
    Pid.is_enabled (left_pid c1) = negb ((l =? 0) && (r =? 0)) /\
    Pid.is_enabled (right_pid c1) = negb ((l =? 0) && (r =? 0)) /\
    ((l =? 0) && (r =? 0) = true ->
      halted left_motor (world c1) /\ halted right_motor (world c1)) /\
    encoders c1 = encoders c.
Proof.
  intros Hl Hr Hc. unfold set_motors_speed, speed_argv, arg.
  change (3 <? 3) with false. cbv iota.
  change (aget _ 1) with (Ok (print_int l)). cbn [mbind res_bind].
  rewrite atoi_print_int by done. cbn [mbind res_bind].
  change (aget _ 2) with (Ok (print_int r)). cbn [mbind res_bind].
  rewrite atoi_print_int by done. cbn [mbind res_bind]. unfold millis.
  match goal with |- context [set_last_cmd ?t ?cm] => set (c0 := set_last_cmd t cm) end.
  destruct ((l =? 0) && (r =? 0)).
  - destruct (both_motors 0 0 c0) as (h & Hh & Hol & Hor);
      [by unfold in_s|done|by unfold in_s|done|].
    apply bind_ok in Hh as (ca & Ha & Hb). rewrite Ha. cbn [mbind res_bind].
    rewrite Hb. cbn [mbind res_bind].
    destruct (two_encoders c Hc) as (el & er & He & _).
    assert (reset_pids (set_world h c0) = Ok (set_pids
      (Pid.reset (wraps 16 (Encoder.count el)) (left_pid c0))
      (Pid.reset (wraps 16 (Encoder.count er)) (right_pid c0)) (set_world h c0))) as ->.
    { unfold reset_pids, read_encoder, encoder_at. simpl. by rewrite He. }
    cbn [mbind res_bind]. eexists. split; [reflexivity|]. by repeat split.
  - cbn [mbind res_bind]. eexists. split; [reflexivity|]. by repeat split.
Qed.

End Properties.

(** ** Properties *)

(** C1: Every state the firmware reaches after [setup], whatever bytes arrive and
    whenever the encoder interrupts fire, keeps the application's invariant: each
    bridge is either untouched or driven in one direction only with a duty between
    0 and 255, both controllers hold an output inside their limits, the shell's
    index is inside its buffer, and the interrupt vectors still serve the encoders
    they were attached to. *)
Theorem app_invariant `{Runtime} `{!UnoPins} buf levels a inputs p a'
  (Hbuf : Z.of_nat (length buf) = 64)
  (Hsetup : setup (initial buf levels) = Ok a)
  (Hrun : steps (AtShell, a) inputs (p, a')) :
  app_ok a' /\
  (forall m, m = left_motor \/ m = right_motor ->
    Motor.outputs m (world (the_core a')) = (None, None) \/
    exists f b, Motor.outputs m (world (the_core a')) = (Some f, Some b) /\
      0 <= f <= 255 /\ 0 <= b <= 255 /\ (f = 0 \/ b = 0)).
Proof.
  destruct (setup_ready buf levels Hbuf) as (a0 & Ha0 & Hok & _).
  assert (a0 = a) as -> by congruence.
  pose proof (app_ok_steps _ _ _ Hrun Hok) as Hok'. simpl in Hok'.
  split; [done|]. destruct Hok' as [[] _ _ _ _].
  intros m [-> | ->].
  all: match goal with Hd : driven ?m _ |- context [Motor.outputs ?m _] =>
    destruct Hd as [?|[s Hs]]; [by left|right] end.
  all: exists (Motor.forward_duty s), (Motor.backward_duty s); rewrite Hs.
  all: pose proof (Motor.duty_range s); pose proof (Motor.duty_exclusive s); tauto.
Qed.

(** On the target board [setup] always succeeds: it leaves the two encoders
    attached to vectors 2 and 1 with their change interrupts enabled, the nine
    commands registered and the invariant established. *)
Theorem app_setup `{Runtime} `{!UnoPins} buf levels
  (Hbuf : Z.of_nat (length buf) = 64) :
  exists a, setup (initial buf levels) = Ok a /\ app_ok a /\
    pcmsk (world (the_core a)) = [0; 12; 12] /\ pcicr (world (the_core a)) = 6.
Proof. destruct (setup_ready buf levels Hbuf) as (a & ? & ? & ? & ? & _). eauto. Qed.

(** Once stopped, the robot stays stopped while the host is silent: no sequence
    of loop phases without received bytes, interleaved with any interrupts, drives
    a motor or enables a controller. *)
Theorem app_silent_stays_stopped `{Runtime} s inputs s'
  (Hrun : steps s inputs s') (Hsilent : Forall silent inputs)
  (Hok : app_ok s.2) (Hstop : stopped (the_core s.2)) :
  stopped (the_core s'.2).
Proof.
  induction Hrun as [|[p a] i [p' a'] l s'' Hs Hss IH]; [done|].
  apply Forall_cons in Hsilent as [Hi Hl].
  apply IH; [done|by eapply app_ok_step|by eapply stopped_step].
Qed.

(** The speed command [m <l> <r>] restarts the stop timer, gives each
    controller the setpoint [l / 30], [r / 30] ticks per period (truncated towards
    zero), enables both controllers, or halts both motors and disables both
    controllers when both speeds are zero, and answers OK. *)
Theorem app_set_speed `{Runtime} l r c
  (Hl : in_int l) (Hr : in_int r) (Hok : core_ok c) :
  exists c', run cmd_set_motors_speed_cb 3 (speed_argv l r) c = Ok c' /\
    Pid.setpoint (left_pid c') = Z.quot l 30 /\ Pid.setpoint (right_pid c') = Z.quot r 30 /\
    Pid.is_enabled (left_pid c') = negb ((l =? 0) && (r =? 0)) /\
    Pid.is_enabled (right_pid c') = negb ((l =? 0) && (r =? 0)) /\
    (l = 0 -> r = 0 -> stopped c') /\
    last_set_motors_speed_cmd c' = millis_at (millis_calls c) /\
    serial_out c' = serial_out c ++ txt "OK" ++ [CR; LF].
Proof.
  destruct (set_motors_speed_eq l r c Hl Hr Hok) as
    (c1 & Hc1 & Ht & Hs & Hel & Her & Hhalt & _).
  eexists. split; [exact Hc1|]. simpl. rewrite Hs.
  split_and!; try done. intros -> ->. destruct Hhalt as [? ?]; [done|].
  by repeat split.
Qed.

(** The interrupts decode both wheels. While the left channels (vector 2) go
    through a path of positions, the left count moves by exactly the displacement,
    the right encoder and everything but the input levels are untouched. *)
Theorem app_left_odometry `{Runtime} el er p0 ps c levels
  (Hok : core_ok c) (Hencs : encoders c = [el; er])
  (Hat : Encoder.at_position el p0)
  (Hpath : Encoder.path (Encoder.count el) p0 p0 ps)
  (Hshow : Forall2 (fun q lv => Encoder.shows el q (set_din lv (hw_init lv))) ps levels) :
  exists c' el', fold_left (fun m lv => c ← m; isr 2 lv c) levels (Ok c) = Ok c' /\
    encoders c' = [el'; er] /\
    Encoder.count el' = Encoder.count el + (Encoder.final p0 ps - p0) /\
    left_pid c' = left_pid c /\ right_pid c' = right_pid c /\
    trace (world c') = trace (world c).
Proof.
  enough (forall levels ps el1 p c, core_ok c -> encoders c = [el1; er] ->
    Encoder.at_position el1 p ->
    Encoder.count el1 = Encoder.count el + (p - p0) ->
    Encoder.path (Encoder.count el) p0 p ps ->
    Forall2 (fun q lv => Encoder.shows el1 q (set_din lv (hw_init lv))) ps levels ->
    exists c' el', fold_left (fun m lv => c ← m; isr 2 lv c) levels (Ok c) = Ok c' /\
      encoders c' = [el'; er] /\
      Encoder.count el' = Encoder.count el + (Encoder.final p ps - p0) /\
      left_pid c' = left_pid c /\ right_pid c' = right_pid c /\
      trace (world c') = trace (world c)) as Hgen.
  { eapply Hgen; try done. lia. }
  clear. induction levels as [|lv levels IH]; intros ps el1 p c Hok Hencs Hat Hcount Hpath Hshow.
  - apply Forall2_nil_inv_r in Hshow as ->. by exists c, el1.
  - apply Forall2_cons_inv_r in Hshow as (q & ps' & Hq & Hps & ->).
    destruct Hpath as (Hstep & Hin & Hpath).
    destruct (Encoder.callback_step el1 p q (set_din lv (world c))) as
      (e' & He' & Hat' & Hc' & Ha & Hb); [done|done|done| |].
    { by replace (Encoder.count el1 + (q - p)) with (Encoder.count el + (q - p0)) by lia. }
    pose proof (isr_left lv c el1 er Hok Hencs) as Hisr. rewrite He' in Hisr.
    cbn [mbind res_bind] in Hisr.
    pose proof (core_ok_isr _ _ _ _ Hok Hisr) as Hok'.
    destruct (IH ps' e' q _ Hok' eq_refl Hat') as (c' & el' & Hf & He & Hcnt & Hlp & Hrp & Htr);
      [lia|done| |].
    { eapply Forall2_impl; [exact Hps|]. unfold Encoder.shows. intros ??. by rewrite Ha, Hb. }
    exists c', el'. cbn [fold_left mbind res_bind]. by rewrite Hisr.
Qed.

(** Two command lines the shell accepts reach undefined behaviour: a blank
    line compares a null pointer with the command names, and a gains argument of
    20 characters or more overflows the local buffer it is copied to. Gains with
    fewer than four fields leave the output divisor at 0, so that the next
    computation of an enabled controller divides by zero. *)
Theorem app_unsafe_lines `{Runtime} a arg1 c :
  (app_ok a -> Shell.message_index (the_shell a) = 0 -> loop_shell [CR] a = UB) /\
  (20 <= Z.of_nat (length arg1) ->
     run cmd_set_pid_tuning_gains_cb 2 [Commands.kSetPidsTuningGains; arg1] c = UB) /\
  (forall p count out, Pid.is_enabled p = true -> Pid.ko p = 0 -> Pid.compute count out p = UB).
Proof.
  split; [|split].
  - intros [_ [Hlen Hi] Hcmd Hdef Hst] Hidx. unfold loop_shell, Shell.process_input.
    rewrite Hst. cbn [require mbind res_bind].
    rewrite (Shell.blank_line run); [done|by split|by rewrite Hcmd|done].
  - intros Hlen. unfold run, set_pid_tuning_gains, arg. simpl. unfold strcpy.
    by rewrite (proj2 (Z.ltb_ge _ _)) by lia.
  - intros p count out He Hko. unfold Pid.compute. rewrite He, Hko. simpl.
    repeat (match goal with |- context [chk ?w ?z] => destruct (chk w z) as [?| |] eqn:? end;
      simpl; try done); unfold chk in *; repeat case_decide; done.
Qed.

(** ** The properties on a concrete run *)

Section Demo.
#[local] Existing Instance demo_runtime.

Definition demo_levels (p : Z) (pin : Z) : Z :=
  if pin =? 2 then Z.land (Encoder.gray p) 1 else Z.shiftr (Encoder.gray p) 1.

Definition demo_inputs : list input :=
  [Bytes (txt "m 300 -300" ++ [CR]); Interrupt 2 (demo_levels 1); Tick; Tick].

Lemma app_setup_witness :
  exists a, setup (initial (replicate 64 NUL) (fun _ => 0)) = Ok a /\ app_ok a.
Proof.
  destruct (app_setup (H := demo_runtime) (H0 := uno_core_pins)
    (replicate 64 NUL) (fun _ => 0) eq_refl) as (a & Ha & Hok & _).
  exists a. split; [exact Ha|exact Hok].
Defined.

Lemma app_invariant_witness :
  exists a a', setup (initial (replicate 64 NUL) (fun _ => 0)) = Ok a /\
    steps (AtShell, a) demo_inputs (AtShell, a') /\ app_ok a'.
Proof.
  assert (exists a a', setup (initial (replicate 64 NUL) (fun _ => 0)) = Ok a /\
    steps (AtShell, a) demo_inputs (AtShell, a')) as (a & a' & Hset & Hrun).
  { do 2 eexists. split; [vm_compute; reflexivity|]. unfold demo_inputs.
    eapply steps_cons; [apply step_shell; vm_compute; reflexivity|].
    eapply steps_cons; [apply step_isr; vm_compute; reflexivity|].
    eapply steps_cons; [apply step_pid; vm_compute; reflexivity|].
    eapply steps_cons; [apply step_stop; vm_compute; reflexivity|].
    apply steps_nil. }
  exists a, a'. split; [exact Hset|]. split; [exact Hrun|].
  exact (proj1 (app_invariant (H := demo_runtime) (H0 := uno_core_pins)
    (replicate 64 NUL) (fun _ => 0) a demo_inputs AtShell a' eq_refl Hset Hrun)).
Defined.

(** The state [setup] leaves. *)
Definition demo_app : app :=
  match setup (initial (replicate 64 NUL) (fun _ => 0)) with
  | Ok a => a
  | _ => initial [] (fun _ => 0)
  end.

Lemma demo_app_ok : app_ok demo_app.
Proof.
  destruct (setup_ready (H := demo_runtime) (H0 := uno_core_pins) (replicate 64 NUL)
    (fun _ => 0) eq_refl) as (a & Ha & Hok & _).
  unfold demo_app. by rewrite Ha.
Qed.

(** The same after the host stopped the motors. *)
Definition demo_halted : app :=
  match loop_shell (txt "m 0 0" ++ [CR]) demo_app with Ok a => a | _ => demo_app end.

Lemma demo_halted_ok : app_ok demo_halted.
Proof.
  unfold demo_halted. destruct (loop_shell _ demo_app) eqn:Hl; [|exact demo_app_ok..].
  exact (app_ok_loop_shell _ _ _ demo_app_ok Hl).
Qed.

Lemma app_silent_stays_stopped_witness :
  exists a', steps (AtPid, demo_halted) [Tick; Interrupt 2 (demo_levels 1); Tick; Bytes []]
      (AtPid, a') /\ stopped (the_core a').
Proof.
  assert (exists a', steps (AtPid, demo_halted)
    [Tick; Interrupt 2 (demo_levels 1); Tick; Bytes []] (AtPid, a')) as (a' & Hrun).
  { eexists.
    eapply steps_cons; [apply step_pid; vm_compute; reflexivity|].
    eapply steps_cons; [apply step_isr; vm_compute; reflexivity|].
    eapply steps_cons; [apply step_stop; vm_compute; reflexivity|].
    eapply steps_cons; [apply step_shell; vm_compute; reflexivity|].
    apply steps_nil. }
  exists a'. split; [exact Hrun|].
  refine (app_silent_stays_stopped _ _ _ Hrun _ demo_halted_ok _).
  - repeat constructor.
  - repeat split; vm_compute; reflexivity.
Defined.

Lemma app_set_speed_witness :
  exists c', run cmd_set_motors_speed_cb 3 (speed_argv 300 (-299)) (the_core demo_app) = Ok c' /\
    Pid.setpoint (left_pid c') = 10 /\ Pid.setpoint (right_pid c') = -9 /\
    Pid.is_enabled (left_pid c') = true.
Proof.
  assert (in_int 300) as Hl by (unfold in_s; lia).
  assert (in_int (-299)) as Hr by (unfold in_s; lia).
  destruct (app_set_speed 300 (-299) (the_core demo_app) Hl Hr (ok_core _ demo_app_ok))
    as (c' & Hc & Hsl & Hsr & He & _).
  exists c'. split; [exact Hc|]. split; [exact Hsl|]. split; [exact Hsr|exact He].
Defined.

Lemma app_left_odometry_witness :
  exists c', fold_left (fun m lv => c ← m; isr 2 lv c) (map demo_levels [1; 2; 3; 2])
      (Ok (the_core demo_app)) = Ok c' /\
    map Encoder.count (encoders c') = [2; 0].
Proof.
  pose (el := Encoder.new 2 3). pose (er := Encoder.new 16 17).
  assert (encoders (the_core demo_app) = [el; er]) as He by (vm_compute; reflexivity).
  assert (Encoder.at_position el 0) as Hat
    by (split; [unfold in_u; simpl; lia|reflexivity]).
  assert (Encoder.path (Encoder.count el) 0 0 [1; 2; 3; 2]) as Hp
    by (simpl; unfold in_s; repeat split; lia).
  assert (Forall2 (fun q lv => Encoder.shows el q (set_din lv (hw_init lv))) [1; 2; 3; 2]
    (map demo_levels [1; 2; 3; 2])) as Hs by (repeat constructor).
  destruct (app_left_odometry el er 0 [1; 2; 3; 2] (the_core demo_app)
    (map demo_levels [1; 2; 3; 2]) (ok_core _ demo_app_ok) He Hat Hp Hs)
    as (c' & el' & Hf & He' & Hn & _).
  exists c'. split; [exact Hf|]. rewrite He'. cbn [map]. rewrite Hn. reflexivity.
Defined.

Lemma app_unsafe_lines_witness :
  loop_shell [CR] demo_app = UB /\
  run cmd_set_pid_tuning_gains_cb 2 [Commands.kSetPidsTuningGains; replicate 20 "1"%char]
    (the_core demo_app) = UB.
Proof.
  destruct (app_unsafe_lines demo_app (replicate 20 "1"%char) (the_core demo_app))
    as (H1 & H2 & _).
  split; [apply H1; [exact demo_app_ok|vm_compute; reflexivity]|].
  apply H2. vm_compute. discriminate.
Defined.
End Demo.
