(* ===== verification/AppStop.v ===== *)
(** * The automatic stop of the firmware over its runs

  [App] stops the motors when no speed command arrived for three seconds. Here the
  commands that drive the robot are logged with the time of the clock when they end,
  and the stop is stated for every run from [setup]: the timer of [App] follows the
  log, so a robot that no command has driven for longer is at rest, and a robot
  with a recent speed command is left alone. *)

From stdpp Require Import base option list numbers strings relations.
From Stdlib Require Import ZArith Lia Ascii.
From S2P Require Import Prelude CString Hardware Motor Encoder Pid Shell App AppSafety.

Import App.

#[local] Arguments tokens : simpl never.
#[local] Arguments Pid.compute : simpl never.
#[local] Arguments Motor.set_speed : simpl never.

(** ** The clock *)

(** [time k] is the true time of the [k]-th reading, in milliseconds since the board
    was switched on; the clock shows it modulo [2^32]. Consecutive readings are less
    than 12 days apart, while the clock may wrap around any number of times. *)
Record steady `{Runtime} (time : nat -> Z) : Prop := {
  steady_shown : forall k, millis_at k = wrapu 32 (time k);
  steady_first : 0 <= time O <= 2 ^ 30;
  steady_next : forall k, time k <= time (S k) <= time k + 2 ^ 30 }.

(** The last of the first [k] readings. *)
Definition read_at (time : nat -> Z) (k : nat) : Z :=
  match k with O => 0 | S j => time j end.

(** ** Commands that drive the robot *)

Definition sets_speed (cb : cmd) (argc : Z) : bool :=
  match cb with cmd_set_motors_speed_cb => 3 <=? argc | _ => false end.

Definition drives (cb : cmd) (argc : Z) : bool :=
  match cb with cmd_set_motors_speed_cb | cmd_set_motors_pwm_cb => 3 <=? argc | _ => false end.

(** When the last speed command, and the last command that drives at all, ended. *)
Record log : Type := mk_log { last_speed : option Z; last_drive : option Z }.
Definition no_log : log := mk_log None None.

Section Watch.
Context `{Runtime} (time : nat -> Z).

Definition note (cb : cmd) (argc : Z) (c : core) (l : log) : log :=
  let t := read_at time (millis_calls c) in
  mk_log (if sets_speed cb argc then Some t else last_speed l)
    (if drives cb argc then Some t else last_drive l).

(** A callback that is logged. *)
Definition logged (cb : cmd) (argc : Z) (argv : list text) (cl : core * log) : res (core * log) :=
  c ← run cb argc argv cl.1; Ok (c, note cb argc c cl.2).

(** The log after a step. *)
Definition log_step (a : app) (i : input) (l : log) : log :=
  match i with
  | Bytes bytes =>
      match Shell.process_input logged bytes (the_shell a) (the_core a, l) with
      | Ok (_, (_, l)) => l
      | _ => l
      end
  | _ => l
  end.

(** A run with its log. *)
Inductive observed : phase * app -> log -> list input -> phase * app -> log -> Prop :=
  | observed_nil s l : observed s l [] s l
  | observed_cons s l i s' inputs s'' l' :
      step s i s' -> observed s' (log_step s.2 i l) inputs s'' l' ->
      observed s l (i :: inputs) s'' l'.

Lemma steps_observed s inputs s' : steps s inputs s' -> forall l, exists l', observed s l inputs s' l'.
Proof.
  induction 1 as [s|s i s' inputs s'' Hs _ IH]; intros l; [exists l; constructor|].
  destruct (IH (log_step s.2 i l)) as [l' Hl']. exists l'. by econstructor.
Qed.

(** ** At rest *)

Definition quiet_motor (m : Motor.motor) (h : hw) : Prop :=
  Motor.outputs m h = (None, None) \/ halted m h.

(** No bridge is driven and no controller will drive one. *)
Definition at_rest (c : core) : Prop :=
  quiet_motor left_motor (world c) /\ quiet_motor right_motor (world c) /\
  Pid.is_enabled (left_pid c) = false /\ Pid.is_enabled (right_pid c) = false.

Lemma stopped_rest c : stopped c -> at_rest c.
Proof. intros (Hl & Hr & ? & ?). split; [by right|]. split; [by right|done]. Qed.

(** What [at_rest] reads, and the timer. *)
Record kept (c c' : core) : Prop := {
  kept_left : Motor.outputs left_motor (world c') = Motor.outputs left_motor (world c);
  kept_right : Motor.outputs right_motor (world c') = Motor.outputs right_motor (world c);
  kept_left_pid : Pid.is_enabled (left_pid c') = Pid.is_enabled (left_pid c);
  kept_right_pid : Pid.is_enabled (right_pid c') = Pid.is_enabled (right_pid c);
  kept_timer : last_set_motors_speed_cmd c' = last_set_motors_speed_cmd c;
  kept_calls : millis_calls c' = millis_calls c }.

Lemma kept_rest c c' : kept c c' -> at_rest c -> at_rest c'.
Proof.
  intros [Hl Hr Hel Her _ _]. unfold at_rest, quiet_motor, halted. by rewrite Hl, Hr, Hel, Her.
Qed.

Lemma untouched_refl c : kept c c.
Proof. by split. Qed.

Lemma untouched_trans c1 c2 c3 : kept c1 c2 -> kept c2 c3 -> kept c1 c3.
Proof. intros [] []. split; congruence. Qed.

Lemma kept_print t c : kept c (print t c).
Proof. by split. Qed.
Lemma kept_println t c : kept c (println t c).
Proof. by split. Qed.
Lemma kept_print_reals d vs : forall c, kept c (print_reals d vs c).
Proof.
  induction vs as [|v [|v' vs] IH]; intros c; [apply untouched_refl|apply kept_print|].
  eapply untouched_trans; [|apply IH]. by split.
Qed.

Lemma kept_reset_pids c c' : reset_pids c = Ok c' -> kept c c'.
Proof. intros (l & r & ->)%reset_pids_ok. by split. Qed.
Lemma kept_reset_encoder i c c' : reset_encoder i c = Ok c' -> kept c c'.
Proof. unfold reset_encoder. intros Hr. res_inv. by split. Qed.

(** The commands that do not drive change nothing of it. *)
Lemma run_kept cb argc argv c c' : drives cb argc = false -> run cb argc argv c = Ok c' -> kept c c'.
Proof.
  intros Hd Hr. destruct cb; cbn [run drives] in *.
  - res_inv. apply kept_println.
  - case_match; res_inv; [apply untouched_refl|apply kept_println].
  - case_match; res_inv; [apply untouched_refl|apply kept_println].
  - unfold read_encoders in Hr. res_inv. by split.
  - unfold reset_encoders in Hr. res_inv.
    repeat match goal with
    | Hx : reset_encoder _ _ = Ok _ |- _ => apply kept_reset_encoder in Hx
    | Hx : reset_pids _ = Ok _ |- _ => apply kept_reset_pids in Hx
    end.
    eapply untouched_trans; [|apply kept_println]. eauto using untouched_trans.
  - apply Z.leb_gt in Hd. unfold set_motors_speed in Hr.
    rewrite (proj2 (Z.ltb_lt _ _)) in Hr by done. res_inv. apply untouched_refl.
  - apply Z.leb_gt in Hd. unfold set_motors_pwm in Hr.
    rewrite (proj2 (Z.ltb_lt _ _)) in Hr by done. res_inv. apply untouched_refl.
  - unfold set_pid_tuning_gains in Hr. case_match; res_inv; [apply untouched_refl|].
    repeat case_match; try done. res_inv. by split.
  - res_inv. apply kept_println.
  - unfold read_encoders_and_imu in Hr. res_inv.
    eapply untouched_trans; [|apply kept_print_reals]. eapply untouched_trans; [|apply kept_print].
    eapply untouched_trans; [|apply kept_print_reals]. eapply untouched_trans; [|apply kept_print].
    eapply untouched_trans; [|apply kept_print_reals]. by split.
Qed.

(** A speed command sets the timer to the reading it makes. *)
Lemma speed_timer argc argv c c' : 3 <= argc -> set_motors_speed argc argv c = Ok c' ->
  millis_calls c' = S (millis_calls c) /\ last_set_motors_speed_cmd c' = millis_at (millis_calls c).
Proof.
  intros Ha Hr. unfold set_motors_speed in Hr. rewrite (proj2 (Z.ltb_ge _ _)) in Hr by done.
  unfold millis in Hr. res_inv.
  match goal with Hb : (if _ then _ else _) = Ok ?c1 |- _ =>
    assert (millis_calls c1 = S (millis_calls c) /\ last_set_motors_speed_cmd c1 = millis_at (millis_calls c)) as Hc1 end.
  { case_match; res_inv; [|done]. unfold motor_speed in *. res_inv.
    match goal with Hx : reset_pids _ = Ok _ |- _ => apply kept_reset_pids in Hx as [_ _ _ _ Ht Hk] end.
    cbn in *. by rewrite Ht, Hk. }
  exact Hc1.
Qed.

(** A command of the duty leaves the timer alone. *)
Lemma pwm_timer argc argv c c' : set_motors_pwm argc argv c = Ok c' ->
  millis_calls c' = millis_calls c /\ last_set_motors_speed_cmd c' = last_set_motors_speed_cmd c.
Proof.
  intros Hr. unfold set_motors_pwm in Hr. case_match; res_inv; [done|]. unfold motor_speed in *. res_inv.
  match goal with Hx : reset_pids _ = Ok _ |- _ => apply kept_reset_pids in Hx as [_ _ _ _ Ht Hk] end.
  cbn in *. by rewrite Ht, Hk.
Qed.

(** ** The timer follows the log *)

Context (Hclock : steady time).

(** [T] is the true time the timer stands for: at most [gap] before the last reading,
    after no command that moves a robot which is not at rest, and not before the last speed
    command. *)
Definition watch (gap : Z) (c : core) (l : log) : Prop := exists T,
  last_set_motors_speed_cmd c = wrapu 32 T /\
  T <= read_at time (millis_calls c) <= T + gap /\
  (at_rest c \/ exists t, last_drive l = Some t /\ T <= t) /\
  (forall t, last_speed l = Some t -> t <= T).

Lemma watch_kept gap c c' l : kept c c' -> watch gap c l -> watch gap c' l.
Proof.
  intros Hk (T & H1 & H2 & H3 & H4). pose proof (kept_rest _ _ Hk). destruct Hk as [_ _ _ _ Ht Hc].
  exists T. rewrite Ht, Hc. split; [done|]. split; [done|]. split; [|done].
  destruct H3; [left; auto|by right].
Qed.

Lemma read_next k : read_at time k <= time k <= read_at time k + 2 ^ 30.
Proof. destruct Hclock as [_ H0 Hn]. destruct k as [|k]; cbn [read_at]; [lia|apply Hn]. Qed.

Lemma logged_watch cb argc argv gap cl cl' : 0 <= gap -> watch gap cl.1 cl.2 ->
  logged cb argc argv cl = Ok cl' -> watch gap cl'.1 cl'.2.
Proof.
  destruct cl as [c l]. unfold logged. cbn [fst snd]. intros Hgap Hw Hr. res_inv. cbn [fst snd].
  rename select (run _ _ _ _ = Ok _) into Hrun.
  destruct (drives cb argc) eqn:Hd.
  2: { assert (sets_speed cb argc = false) as Hs by (by destruct cb).
       unfold note. rewrite Hd, Hs. destruct l. eapply watch_kept; [|exact Hw]. by eapply run_kept. }
  destruct Hw as (T & H1 & H2 & H3 & H4). unfold note. rewrite Hd.
  destruct cb; try done; cbn [drives sets_speed run] in *; apply Z.leb_le in Hd.
  - destruct (speed_timer _ _ _ _ Hd Hrun) as [Hk Ht]. rewrite (proj2 (Z.leb_le _ _)) by done.
    exists (time (millis_calls c)). rewrite Hk, Ht, (steady_shown time Hclock). cbn [read_at last_drive last_speed].
    split; [done|]. split; [lia|]. split; [right; by eexists|]. by intros t [= <-].
  - destruct (pwm_timer _ _ _ _ Hrun) as [Hk Ht]. exists T. rewrite Hk, Ht. cbn [last_drive last_speed].
    split; [done|]. split; [done|]. split; [|done]. right. eexists. split; [done|]. apply H2.
Qed.
End Watch.

(** ** Running the shell with the log *)

(** A shell on two worlds that correspond goes through corresponding states. *)
Lemma process_chars_sim {C W1 W2} (run1 : C -> Z -> list text -> W1 -> res W1)
    (run2 : C -> Z -> list text -> W2 -> res W2) (R : W1 -> W2 -> Prop) :
  (forall cb argc argv w1 w2 w1', R w1 w2 -> run1 cb argc argv w1 = Ok w1' ->
     exists w2', run2 cb argc argv w2 = Ok w2' /\ R w1' w2') ->
  forall bytes s w1 w2 s' w1', R w1 w2 -> Shell.process_chars run1 bytes (s, w1) = Ok (s', w1') ->
  exists w2', Shell.process_chars run2 bytes (s, w2) = Ok (s', w2') /\ R w1' w2'.
Proof.
  intros Hrun. induction bytes as [|b bytes IH]; intros s w1 w2 s' w1' HR Hp; cbn [Shell.process_chars] in *.
  { injection Hp as <- <-. by exists w2. }
  apply bind_ok in Hp as ([s1 v1] & Hc & Hp).
  enough (exists v2, Shell.process_char run2 b (s, w2) = Ok (s1, v2) /\ R v1 v2) as (v2 & -> & Hv)
    by (rewrite bind_Ok; by apply (IH s1 v1 v2)).
  unfold Shell.process_char in *. case_decide; [|case_decide].
  - apply bind_ok in Hc as (buf & -> & Hc). rewrite bind_Ok. apply bind_ok in Hc as (w' & Hm & [= <- <-]).
    enough (exists v2, Shell.parse_message run2 (Shell.set_message buf (Shell.message_index s + 1) s) w2 = Ok v2 /\ R w' v2)
      as (v2 & -> & Hv) by by exists v2.
    unfold Shell.parse_message, Shell.execute_callback in *.
    apply bind_ok in Hm as (msg & -> & Hm). rewrite bind_Ok.
    apply bind_ok in Hm as (found & -> & Hm). rewrite bind_Ok.
    destruct found as [cb|]; [by apply (Hrun cb _ _ _ _ _ HR)|].
    destruct (Shell.default_callback _) as [cb|]; [by apply (Hrun cb _ _ _ _ _ HR)|].
    injection Hm as <-. by exists w2.
  - injection Hc as <- <-. by exists w2.
  - apply bind_ok in Hc as (buf & -> & [= <- <-]). by exists w2.
Qed.

Section Stop.
Context `{Runtime} (time : nat -> Z) (Hclock : steady time).

(** Processing bytes keeps the watch, and logs what was run. *)
Lemma shell_watch bytes a a' l gap : 0 <= gap -> loop_shell bytes a = Ok a' -> watch time gap (the_core a) l ->
  watch time gap (the_core a') (log_step time a (Bytes bytes) l).
Proof.
  intros Hgap Hl Hw. unfold loop_shell, Shell.process_input in Hl. cbn [log_step]. unfold Shell.process_input.
  apply bind_ok in Hl as ([s c] & Hp & [= <-]). cbn [the_core]. apply bind_ok in Hp as (u & -> & Hp). rewrite bind_Ok.
  destruct (process_chars_sim run (logged time) (fun c cl => c = cl.1)) with (2 := eq_refl (the_core a, l).1) (3 := Hp)
    as ([c2 l2] & Hp2 & ->).
  { intros cb argc argv c1 [c2 l2] c1' -> Hr. cbn [fst] in Hr. unfold logged. cbn [fst snd]. rewrite Hr, bind_Ok. by eexists. }
  rewrite Hp2. cbn [fst].
  apply (Shell.process_chars_inv (logged time) (fun cl => watch time gap cl.1 cl.2) bytes (the_shell a) (the_core a, l) s (c2, l2));
    [|exact Hw|exact Hp2].
  intros cb argc argv cl cl' Hcl Hr. by apply (logged_watch time Hclock cb argc argv gap cl cl').
Qed.

Lemma rest_adjust c c' : Pid.is_enabled (left_pid c) = false -> Pid.is_enabled (right_pid c) = false ->
  adjust_motors_speed c = Ok c' -> kept c c'.
Proof.
  intros Hel Her Ha. unfold adjust_motors_speed in Ha. res_inv.
  repeat match goal with Hc : Pid.compute _ _ _ = Ok _ |- _ =>
    rewrite Pid.compute_disabled in Hc by done; injection Hc as <- <- end.
  assert (forall p n, Pid.is_enabled p = false -> Pid.is_enabled
    (if Pid.last_input p =? 0 then p else Pid.reset n p) = false) as Hd
    by (intros p n ?; by destruct (Pid.last_input p =? 0)).
  unfold Pid.enabled in *. cbn in *.
  rewrite (Hd (left_pid c)) in * by done. res_inv. cbn in *.
  rewrite (Hd (right_pid c)) in * by done. res_inv.
  split; cbn; try done; rewrite ?Hel, ?Her; by apply Hd.
Qed.

Lemma motor_speed_timer m speed c c' : motor_speed m speed c = Ok c' ->
  last_set_motors_speed_cmd c' = last_set_motors_speed_cmd c /\ millis_calls c' = millis_calls c.
Proof. unfold motor_speed. intros. by res_inv. Qed.

Lemma adjust_timer c c' : adjust_motors_speed c = Ok c' ->
  last_set_motors_speed_cmd c' = last_set_motors_speed_cmd c /\ millis_calls c' = millis_calls c.
Proof.
  intros Ha. unfold adjust_motors_speed in Ha. res_inv.
  repeat match goal with
  | Hm : motor_speed _ _ _ = Ok _ |- _ => apply motor_speed_timer in Hm as [? ?]
  | Hm : (if ?b then _ else _) = Ok _ |- _ => destruct b; res_inv
  end; cbn in *; split; congruence.
Qed.

Lemma stop_timer c c' : stop_motors c = Ok c' ->
  last_set_motors_speed_cmd c' = last_set_motors_speed_cmd c /\ millis_calls c' = millis_calls c.
Proof.
  intros Ha. unfold stop_motors in Ha. res_inv.
  repeat match goal with Hm : motor_speed _ _ _ = Ok _ |- _ => apply motor_speed_timer in Hm as [? ?] end.
  cbn in *. split; congruence.
Qed.

(** A change that keeps the timer and a robot at rest. *)
Lemma watch_same gap c c' l : last_set_motors_speed_cmd c' = last_set_motors_speed_cmd c ->
  millis_calls c' = millis_calls c -> (at_rest c -> at_rest c') -> watch time gap c l -> watch time gap c' l.
Proof.
  intros Ht Hk Hr (T & H1 & H2 & H3 & H4). exists T. rewrite Ht, Hk. split; [done|]. split; [done|].
  split; [|done]. destruct H3; [left; auto|by right].
Qed.

Lemma watch_read gap c l : watch time gap c l -> watch time (gap + 2 ^ 30) (millis c).2 l.
Proof.
  intros (T & H1 & H2 & H3 & H4). exists T. pose proof (read_next time Hclock (millis_calls c)).
  split; [done|]. split; [cbn [millis snd millis_calls read_at]; lia|]. by split.
Qed.

Lemma watch_weaken gap gap' c l : gap <= gap' -> watch time gap c l -> watch time gap' c l.
Proof. intros Hle (T & H1 & H2 & H3 & H4). exists T. split; [done|]. split; [lia|]. by split. Qed.

Lemma pid_watch gap c c' l : loop_pid c = Ok c' -> watch time gap c l -> watch time (gap + 2 ^ 31) c' l.
Proof.
  intros Hl Hw. unfold loop_pid in Hl. rewrite (surjective_pairing (millis c)) in Hl.
  pose proof (watch_read gap c l Hw) as Hw1. destruct (_ >? _).
  - rewrite (surjective_pairing (millis (millis c).2)) in Hl.
    pose proof (watch_read _ _ _ Hw1) as Hw2. destruct (adjust_timer _ _ Hl) as [Ht Hk].
    apply (watch_weaken (gap + 2 ^ 30 + 2 ^ 30)); [lia|]. eapply watch_same; [exact Ht|exact Hk| |exact Hw2].
    intros (? & ? & Hel & Her). eapply kept_rest; [by eapply rest_adjust|]. by repeat split.
  - injection Hl as <-. apply (watch_weaken (gap + 2 ^ 30)); [lia|done].
Qed.

Lemma isr_watch gap k levels c c' l : core_ok c -> isr k levels c = Ok c' -> watch time gap c l -> watch time gap c' l.
Proof.
  intros Hc Hi. destruct (two_encoders c Hc) as (el & er & He & _).
  assert (kept c c') as Hk; [|by apply watch_kept].
  destruct (decide (k = 2%nat)) as [->|]; [|destruct (decide (k = 1%nat)) as [->|]].
  - rewrite (isr_left levels c el er) in Hi by done. by res_inv.
  - rewrite (isr_right levels c el er) in Hi by done. by res_inv.
  - rewrite isr_none in Hi by done. by res_inv.
Qed.

(** The stop phase, which reads the clock at [now]. *)
Lemma stop_watch gap c c' l : gap + 2 ^ 30 < 2 ^ 32 -> loop_stop c = Ok c' -> watch time gap c l ->
  let now := time (millis_calls c) in
  watch time Constants.kAutoStopWindow c' l /\
  ((forall t, last_drive l = Some t -> Constants.kAutoStopWindow < now - t) -> at_rest c') /\
  (forall t, last_speed l = Some t -> now - t <= Constants.kAutoStopWindow -> c' = (millis c).2).
Proof.
  intros Hgap Hl Hw now. pose proof (watch_read gap c l Hw) as (T' & H1' & H2' & _ & _).
  destruct Hw as (T & H1 & H2 & H3 & H4). pose proof (read_next time Hclock (millis_calls c)) as Hn. fold now in Hn.
  unfold loop_stop in Hl. rewrite (surjective_pairing (millis c)) in Hl.
  replace (wrapu 32 ((millis c).1 - last_set_motors_speed_cmd (millis c).2)) with (now - T) in Hl.
  2: { cbn [millis fst snd last_set_motors_speed_cmd]. rewrite H1, (steady_shown time Hclock). fold now.
       unfold wrapu. rewrite <- Zminus_mod, Z.mod_small; [done|lia]. }
  rewrite Z.gtb_ltb in Hl. destruct (Z.ltb_spec Constants.kAutoStopWindow (now - T)) as [Hlt|Hge].
  - rewrite (surjective_pairing (millis (millis c).2)) in Hl.
    match type of Hl with stop_motors ?c0 = _ => destruct (stop_motors_stops c0) as (c2 & Hc2 & Hst) end.
    assert (c2 = c') as -> by congruence. destruct (stop_timer _ _ Hl) as [Ht Hk].
    apply stopped_rest in Hst. split.
    + exists (time (S (millis_calls c))). rewrite Ht, Hk. cbn [millis snd fst last_set_motors_speed_cmd set_last_cmd millis_calls read_at].
      rewrite (steady_shown time Hclock). split; [done|]. split; [unfold Constants.kAutoStopWindow; lia|].
      split; [by left|]. intros t Hs. specialize (H4 t Hs). pose proof (steady_next time Hclock (millis_calls c)) as Hnx. fold now in Hnx. lia.
    + split; [done|]. intros t Hs Hle. specialize (H4 t Hs). lia.
  - injection Hl as <-. split; [|split; [|done]].
    + exists T. cbn [millis snd last_set_motors_speed_cmd millis_calls read_at]. fold now. split; [done|]. split; [lia|]. by split.
    + intros Hd. destruct H3 as [Hr|(t & Ht & Hle)]; [done|]. specialize (Hd t Ht). lia.
Qed.

(** ** Runs *)

Definition slack (p : phase) : Z :=
  match p with AtStop => Constants.kAutoStopWindow + 2 ^ 31 | _ => Constants.kAutoStopWindow end.

Lemma step_watch p a i p' a' l : step (p, a) i (p', a') -> app_ok a ->
  watch time (slack p) (the_core a) l -> watch time (slack p') (the_core a') (log_step time a i l).
Proof.
  intros Hs Ha Hw. inversion Hs; subst; clear Hs.
  - by apply (shell_watch bytes).
  - by apply (pid_watch Constants.kAutoStopWindow (the_core a)).
  - by apply (stop_watch (slack AtStop) (the_core a)).
  - by eapply isr_watch; [apply Ha|..].
Qed.

Lemma observed_watch s l inputs s' l' : observed time s l inputs s' l' -> app_ok s.2 ->
  watch time (slack s.1) (the_core s.2) l -> watch time (slack s'.1) (the_core s'.2) l' /\ app_ok s'.2.
Proof.
  induction 1 as [s l|[p a] l i [p' a'] inputs s'' l' Hs _ IH]; intros Ha Hw; [done|].
  cbn [fst snd] in *. apply IH; [by eapply app_ok_step|by eapply step_watch].
Qed.

(** The watch begins with [setup]. *)
Lemma fresh_watch c : fresh c -> watch time Constants.kAutoStopWindow c no_log.
Proof.
  intros [Ht Hk Hl Hr Hel Her]. exists 0. rewrite Ht, Hk. cbn [read_at]. split; [done|].
  split; [unfold Constants.kAutoStopWindow; lia|]. split; [left|by intros t [=]].
  split; [by left|]. split; [by left|done].
Qed.
End Stop.

(** ** Property *)

(** C3: The automatic stop, over the runs of the firmware from [setup], whatever bytes arrive and whenever
    the interrupts fire. [log] holds the times at which the last speed command ([m]) and the last
    command that drives at all ([m] or [o], the duty), with all their arguments, ended. When a stop phase
    reads the clock at [now]: if no driving command ended within the last three seconds, then after the phase
    neither bridge is driven and both controllers are disabled; and if a speed command did, the
    phase leaves all but the clock alone. The clock may wrap around; consecutive readings are at most
    [2^30] ms apart. *)
Theorem app_auto_stop `{Runtime} `{!UnoPins} time buf levels a inputs a1 l a' : steady time ->
  Z.of_nat (length buf) = 64 -> setup (initial buf levels) = Ok a ->
  observed time (AtShell, a) no_log inputs (AtStop, a1) l -> step (AtStop, a1) Tick (AtShell, a') ->
  let now := time (millis_calls (the_core a1)) in
  ((forall t, last_drive l = Some t -> 3000 < now - t) -> at_rest (the_core a')) /\
  (forall t, last_speed l = Some t -> now - t <= 3000 -> the_core a' = (millis (the_core a1)).2).
Proof.
  intros Hclock Hbuf Hsetup Hobs Hstep now.
  destruct (setup_ready buf levels Hbuf) as (a0 & Ha0 & Hok & _ & _ & _ & Hf).
  assert (a0 = a) as -> by congruence.
  destruct (observed_watch time Hclock _ _ _ _ _ Hobs Hok (fresh_watch time _ Hf)) as [Hw _].
  inversion Hstep; subst. by eapply (stop_watch time Hclock (slack AtStop)).
Qed.

(** ** A run *)

Section Demo.

(** The board of [AppSafety] with a clock that advances by [ms] milliseconds per reading. *)
Lemma paced_range ms k : in_u 32 (wrapu 32 (ms * Z.of_nat k)).
Proof. by apply wrapu_range. Qed.

Definition paced (ms : Z) : Runtime := {|
  core_pins := uno_core;
  millis_at k := wrapu 32 (ms * Z.of_nat k);
  millis_range := paced_range ms;
  analogRead := @analogRead demo_runtime;
  imu_begin := false;
  real := Z;
  imu_quat h := [0; 0; 0; 1];
  imu_gyro h := [0; 0; 0];
  imu_accel h := [0; 0; 0];
  print_real r d := print_int r |}.

Lemma paced_steady ms : 0 <= ms <= 2 ^ 30 -> steady (H := paced ms) (fun k => ms * Z.of_nat k).
Proof. intros Hms. split; [done|lia|lia]. Qed.

Definition paced_app (ms : Z) : app :=
  match setup (H := paced ms) (initial (replicate 64 NUL) (fun _ => 0)) with
  | Ok a => a
  | _ => initial [] (fun _ => 0)
  end.

(** After the command [m 300 -300], and after the phase of the controllers. *)
Definition sent (ms : Z) : app :=
  match loop_shell (H := paced ms) (txt "m 300 -300" ++ [CR]) (paced_app ms) with Ok a => a | _ => paced_app ms end.
Definition commanded (ms : Z) : app :=
  match loop_pid (H := paced ms) (the_core (sent ms)) with
  | Ok c => mk_app c (the_shell (sent ms))
  | _ => sent ms
  end.
Definition after_stop (ms : Z) : app :=
  match loop_stop (H := paced ms) (the_core (commanded ms)) with
  | Ok c => mk_app c (the_shell (commanded ms))
  | _ => commanded ms
  end.

(** With two seconds per reading the command is too old at the stop phase, and the motors stop; with ten
    milliseconds it is recent, and they are left alone. *)
Lemma app_auto_stop_witness :
  at_rest (the_core (after_stop 2000)) /\
  the_core (after_stop 10) = (millis (H := paced 10) (the_core (commanded 10))).2.
Proof.
  assert (forall ms, (ms = 2000 \/ ms = 10) ->
    observed (H := paced ms) (fun k => ms * Z.of_nat k) (AtShell, paced_app ms) no_log
      [Bytes (txt "m 300 -300" ++ [CR]); Tick] (AtStop, commanded ms) (mk_log (Some 0) (Some 0)) /\
    step (H := paced ms) (AtStop, commanded ms) Tick (AtShell, after_stop ms)) as Hrun.
  { intros ms Hms.
    assert (loop_shell (H := paced ms) (txt "m 300 -300" ++ [CR]) (paced_app ms) = Ok (sent ms)) as H1
      by (destruct Hms as [-> | ->]; vm_compute; reflexivity).
    assert (loop_pid (H := paced ms) (the_core (sent ms)) = Ok (the_core (commanded ms)) /\
      mk_app (the_core (commanded ms)) (the_shell (sent ms)) = commanded ms) as [H2 E2]
      by (destruct Hms as [-> | ->]; split; vm_compute; reflexivity).
    assert (loop_stop (H := paced ms) (the_core (commanded ms)) = Ok (the_core (after_stop ms)) /\
      mk_app (the_core (after_stop ms)) (the_shell (commanded ms)) = after_stop ms) as [H3 E3]
      by (destruct Hms as [-> | ->]; split; vm_compute; reflexivity).
    assert (log_step (H := paced ms) (fun k => ms * Z.of_nat k) (paced_app ms) (Bytes (txt "m 300 -300" ++ [CR])) no_log =
      mk_log (Some 0) (Some 0)) as El by (destruct Hms as [-> | ->]; vm_compute; reflexivity).
    split; [|rewrite <- E3; by apply step_stop].
    eapply observed_cons; [by apply step_shell|]. cbn [snd]. rewrite El.
    eapply observed_cons; [by apply step_pid|]. rewrite E2. apply observed_nil. }
  split.
  - destruct (Hrun 2000 (or_introl eq_refl)) as [Hobs Hstep].
    refine (proj1 (app_auto_stop (H := paced 2000) (H0 := uno_core_pins) _ (replicate 64 NUL) (fun _ => 0) _ _ _ _ _
      (paced_steady 2000 _) eq_refl _ Hobs Hstep) _); [lia|vm_compute; reflexivity|].
    intros t [= <-]. vm_compute. reflexivity.
  - destruct (Hrun 10 (or_intror eq_refl)) as [Hobs Hstep].
    refine (proj2 (app_auto_stop (H := paced 10) (H0 := uno_core_pins) _ (replicate 64 NUL) (fun _ => 0) _ _ _ _ _
      (paced_steady 10 _) eq_refl _ Hobs Hstep) 0 eq_refl _); [lia|vm_compute; reflexivity|].
    vm_compute. discriminate.
Defined.
End Demo.
