(* ===== verification/Float64.v ===== *)
(** * Double precision arithmetic

    The C++ [double] is the IEEE 754 binary64 format, with the executable
    specification of the Standard Library ([SpecFloat], 53 bits of precision,
    maximal exponent 1024) and round to nearest, ties to even. *)

From stdpp Require Import base option list numbers.
From Stdlib Require Import ZArith Lia SpecFloat.
From S2P Require Import Prelude.

Abbreviation f64 := spec_float (only parsing).

Definition f64_prec : Z := 53.
Definition f64_emax : Z := 1024.

Definition f64_zero : f64 := S754_zero false.
Definition f64_add : f64 -> f64 -> f64 := SFadd f64_prec f64_emax.
Definition f64_sub : f64 -> f64 -> f64 := SFsub f64_prec f64_emax.
Definition f64_mul : f64 -> f64 -> f64 := SFmul f64_prec f64_emax.
Definition f64_div : f64 -> f64 -> f64 := SFdiv f64_prec f64_emax.

(** The conversion of an integer, rounded. *)
Definition f64_of_Z (z : Z) : f64 := binary_normalize f64_prec f64_emax z 0 false.

(** Comparisons: false as soon as an operand is a NaN. *)
Definition f64_lt : f64 -> f64 -> bool := SFltb.
Definition f64_le : f64 -> f64 -> bool := SFleb.
Definition f64_eq : f64 -> f64 -> bool := SFeqb.

(** The integer part, towards zero; none for an infinity or a NaN. *)
Definition f64_trunc (x : f64) : option Z :=
  match x with
  | S754_zero _ => Some 0
  | S754_finite s m e =>
      let a := if 0 <=? e then Z.pos m * 2 ^ e else Z.pos m / 2 ^ (- e) in
      Some (if s then - a else a)
  | _ => None
  end.

(** [static_cast] to a [w]-bit signed integer: undefined when the integer part
    does not fit. *)
Definition f64_to_int (w : Z) (x : f64) : res Z :=
  match f64_trunc x with Some z => chk w z | None => UB end.

(** [static_cast] to a [w]-bit unsigned integer. *)
Definition f64_to_uint (w : Z) (x : f64) : res Z :=
  match f64_trunc x with
  | Some z => _ ← require (bool_decide (in_u w z)); Ok z
  | None => UB
  end.

Definition f64_sqrt : f64 -> f64 := SFsqrt f64_prec f64_emax.

(** [std::min]: the first argument unless the second one is smaller. *)
Definition f64_min (a b : f64) : f64 := if f64_lt b a then b else a.

(** The value of [M_PI], and the product [2 * M_PI]. *)
Definition f64_pi : f64 := S754_finite false 7074237752028440 (-51).
Definition f64_two_pi : f64 := f64_mul (f64_of_Z 2) f64_pi.

Lemma f64_to_int_ok w x z :
  f64_to_int w x = Ok z <-> f64_trunc x = Some z /\ in_s w z.
Proof.
  unfold f64_to_int. destruct (f64_trunc x) as [z'|]; [|by split; [|intros []]].
  rewrite chk_ok. split; [by intros [? ->]|by intros [[= ->] ?]].
Qed.

(** A truncated quotient is not larger than the value it comes from. *)
Lemma f64_trunc_zero x : f64_eq x f64_zero = true -> f64_trunc x = Some 0.
Proof. by destruct x as [[]|[]| |[]]. Qed.

Lemma f64_to_uint_ok w x z :
  f64_to_uint w x = Ok z <-> f64_trunc x = Some z /\ in_u w z.
Proof.
  unfold f64_to_uint. destruct (f64_trunc x) as [z'|]; [|by split; [|intros []]].
  destruct (bool_decide (in_u w z')) eqn:Hd; simpl.
  - apply bool_decide_eq_true in Hd. split; [by intros [= <-]|by intros [[= ->] _]].
  - apply bool_decide_eq_false in Hd. split; [done|]. by intros [[= ->] ?].
Qed.

(** [std::max]: the first argument unless the second one is larger. *)
Definition f64_max (a b : f64) : f64 := if f64_lt a b then b else a.

(** The conversion to [float], the binary32 format, and its comparison. *)
Definition f32_of_f64 (x : f64) : spec_float :=
  match x with
  | S754_finite s m e => binary_normalize 24 128 (cond_Zopp s (Z.pos m)) e s
  | _ => x
  end.
Definition f32_of_Z (z : Z) : spec_float := binary_normalize 24 128 z 0 false.

(** [std::ceil] and [std::round] (halves away from zero) of a finite number are
    integers. *)
Definition f64_integer (f : bool -> positive -> Z -> Z) (x : f64) : f64 :=
  match x with
  | S754_finite s m e =>
      if 0 <=? e then x else binary_normalize f64_prec f64_emax (f s m e) 0 s
  | _ => x
  end.
Definition f64_ceil : f64 -> f64 :=
  f64_integer (fun s m e => - ((- cond_Zopp s (Z.pos m)) / 2 ^ (- e))).
Definition f64_round : f64 -> f64 :=
  f64_integer (fun s m e => cond_Zopp s ((2 * Z.pos m + 2 ^ (- e)) / (2 * 2 ^ (- e)))).

(** [float] arithmetic, and the conversion back to [double]. *)
Definition f32_div : spec_float -> spec_float -> spec_float := SFdiv 24 128.
Definition f32_add : spec_float -> spec_float -> spec_float := SFadd 24 128.
Definition f32_sub : spec_float -> spec_float -> spec_float := SFsub 24 128.
Definition f32_mul : spec_float -> spec_float -> spec_float := SFmul 24 128.
Definition f32_round (x : spec_float) : spec_float :=
  match x with
  | S754_finite s m e =>
      if 0 <=? e then x else
      binary_normalize 24 128 (cond_Zopp s ((2 * Z.pos m + 2 ^ (- e)) / (2 * 2 ^ (- e)))) 0 s
  | _ => x
  end.
Definition f64_of_f32 (x : spec_float) : f64 :=
  match x with
  | S754_finite s m e => binary_normalize f64_prec f64_emax (cond_Zopp s (Z.pos m)) e s
  | _ => x
  end.

(** ** Order *)

Definition is_nan (x : f64) : bool := match x with S754_nan => true | _ => false end.

Lemma SFcompare_antisym a b : SFcompare b a = option_map CompOpp (SFcompare a b).
Proof.
  destruct a as [[]|[]| |[] m e], b as [[]|[]| |[] m' e']; try done; cbn [SFcompare option_map];
    rewrite (Z.compare_antisym e e'); destruct (Z.compare e e'); try done; cbn [CompOpp];
    fold Pos.compare; by rewrite (Pos.compare_antisym m m').
Qed.

Lemma f64_le_refl a : is_nan a = false -> f64_le a a = true.
Proof.
  destruct a as [[]|[]| |[] m e]; try done; intros _; unfold f64_le, SFleb, SFcompare;
    by rewrite Z.compare_refl, Pos.compare_refl.
Qed.

Lemma f64_not_lt a b : is_nan a = false -> is_nan b = false -> f64_lt a b = false -> f64_le b a = true.
Proof.
  intros Ha Hb. unfold f64_lt, f64_le, SFltb, SFleb. rewrite (SFcompare_antisym a b).
  assert (exists c, SFcompare a b = Some c) as [c ->].
  { destruct a as [[]|[]| |[] m e], b as [[]|[]| |[] m' e']; try done; eexists; reflexivity. }
  by destruct c.
Qed.

(** Numbers other than NaN are ordered as these triples, lexicographically. *)
Definition f64_key (x : f64) : Z * Z * Z :=
  match x with
  | S754_zero _ | S754_nan => (0, 0, 0)
  | S754_infinity s => (if s then -2 else 2, 0, 0)
  | S754_finite s m e => if s then (-1, - e, - Z.pos m) else (1, e, Z.pos m)
  end.

Definition key_le (a b : Z * Z * Z) : Prop :=
  let '(a1, a2, a3) := a in
  let '(b1, b2, b3) := b in
  a1 < b1 \/ a1 = b1 /\ (a2 < b2 \/ a2 = b2 /\ a3 <= b3).

Lemma key_le_trans a b c : key_le a b -> key_le b c -> key_le a c.
Proof. destruct a as [[??]?], b as [[??]?], c as [[??]?]. unfold key_le. lia. Qed.

Lemma f64_le_key a b : is_nan a = false -> is_nan b = false ->
  f64_le a b = true <-> key_le (f64_key a) (f64_key b).
Proof.
  intros Ha Hb. destruct a as [[]|[]| |[] m e], b as [[]|[]| |[] m' e']; try done;
    unfold f64_le, SFleb, SFcompare, f64_key, key_le; try (split; [lia|done]); try (split; [done|lia]);
    destruct (Z.compare_spec e e'); try subst e'; cbn [CompOpp];
    fold Pos.compare; try destruct (Pos.compare_spec m m'); subst; cbn [CompOpp];
    (split; [intros Hle; try done; lia|try done; lia]).
Qed.

Lemma f64_le_trans a b c : is_nan a = false -> is_nan b = false -> is_nan c = false ->
  f64_le a b = true -> f64_le b c = true -> f64_le a c = true.
Proof.
  intros Ha Hb Hc. rewrite !f64_le_key by done. apply key_le_trans.
Qed.

Lemma f64_lt_le a b : f64_lt a b = true -> f64_le a b = true.
Proof. unfold f64_lt, f64_le, SFltb, SFleb. by destruct (SFcompare a b) as [[]|]. Qed.

Lemma f64_lt_not_nan a b : f64_lt a b = true -> is_nan a = false /\ is_nan b = false.
Proof. unfold f64_lt, SFltb. by destruct a as [|[]| |[]], b as [|[]| |[]]. Qed.

Lemma f64_lt_trans a b c : f64_lt a b = true -> f64_lt b c = true -> f64_lt a c = true.
Proof.
  intros Hab Hbc. destruct (f64_lt_not_nan a b Hab) as [Na Nb]. destruct (f64_lt_not_nan b c Hbc) as [_ Nc].
  destruct (f64_lt a c) eqn:Hac; [done|exfalso].
  pose proof (f64_not_lt a c Na Nc Hac) as Hca.
  pose proof (f64_le_trans c a b Nc Na Nb Hca (f64_lt_le a b Hab)) as Hcb.
  unfold f64_lt, SFltb in Hbc. unfold f64_le, SFleb in Hcb. rewrite SFcompare_antisym in Hcb.
  by destruct (SFcompare b c) as [[]|].
Qed.

Lemma f64_lt_irrefl a : f64_lt a a = false.
Proof.
  unfold f64_lt, SFltb. pose proof (SFcompare_antisym a a) as Ha. by destruct (SFcompare a a) as [[]|].
Qed.

Lemma f64_min_spec a b : is_nan a = false -> is_nan b = false ->
  f64_le (f64_min a b) a = true /\ f64_le (f64_min a b) b = true /\
  (f64_min a b = a \/ f64_min a b = b).
Proof.
  intros Ha Hb. unfold f64_min. destruct (f64_lt b a) eqn:H.
  - split; [by apply f64_lt_le|]. split; [by apply f64_le_refl|auto].
  - split; [by apply f64_le_refl|]. split; [by apply f64_not_lt|auto].
Qed.

Lemma f64_max_spec a b : is_nan a = false -> is_nan b = false ->
  f64_le a (f64_max a b) = true /\ f64_le b (f64_max a b) = true /\
  (f64_max a b = a \/ f64_max a b = b).
Proof.
  intros Ha Hb. unfold f64_max. destruct (f64_lt a b) eqn:H.
  - split; [by apply f64_lt_le|]. split; [by apply f64_le_refl|auto].
  - split; [by apply f64_le_refl|]. split; [by apply f64_not_lt|auto].
Qed.
