(* ===== verification/MotorDriver.v ===== *)
(** * Host side motor driver ([andino_base/motor_driver.h], [motor_driver.cpp])

    The driver sends text commands over a serial port and reads the answer up to
    a line feed. The serial port library is not part of the repository: it is
    the class [SerialPort], over any type of port states. The messages printed
    on the standard streams are not modelled. *)

From stdpp Require Import base option list numbers strings.
From Stdlib Require Import ZArith Lia Ascii.
From S2P Require Import Prelude CString Float64.

(** What [Setup] sets on the port, each a call of the library that may throw. *)
Inductive port_setting : Type :=
  | BAUD_57600
  | CHAR_SIZE_8
  | PARITY_NONE
  | STOP_BITS_1
  | FLOW_CONTROL_NONE
  | DTR (on : bool)
  | RTS (on : bool)
  | FlushIOBuffers.

(** How [ReadLine] ends: with a line, with the characters received before the
    timeout exception, or with another exception. *)
Inductive read_result (P : Type) : Type :=
  | ReadLine (response : text) (p : P)
  | ReadTimeout (partial : text) (p : P)
  | ReadThrow (e : exn).
Arguments ReadLine {P}.
Arguments ReadTimeout {P}.
Arguments ReadThrow {P}.

Class SerialPort (P : Type) : Type := {
  sp_open : text -> P -> P * option exn;
  sp_set : port_setting -> P -> res P;
  sp_is_open : P -> bool;
  sp_write : text -> P -> res P;
  sp_read_line : ascii -> Z -> P -> read_result P }.

(** ** Strings of the C++ library *)

Definition npos : Z := 2 ^ 64 - 1.

(** [find] of one character, from position [i] on. *)
Fixpoint find_from (d : ascii) (s : text) (i : Z) : Z :=
  match s with
  | [] => npos
  | c :: s => if decide (c = d) then i else find_from d s (i + 1)
  end.

Definition find_char (d : ascii) (s : text) : Z := find_from d s 0.

(** [substr]: throws when it starts past the end. *)
Definition substr (pos count : Z) (s : text) : res text :=
  if Z.of_nat (length s) <? pos then Throw out_of_range
  else Ok (take (Z.to_nat (Z.min count (Z.of_nat (length s)))) (drop (Z.to_nat pos) s)).

(** The string a [const char*] conversion keeps: up to the first NUL. *)
Fixpoint through_c_str (s : text) : text :=
  match s with
  | [] => []
  | c :: s => if decide (c = NUL) then [] else c :: through_c_str s
  end.

Module MotorDriver.
Section Driver.
Context {P : Type} `{SerialPort P}.

(** [SerialPort] prints floats with the default stream format. *)
Variable print_float : f64 -> text.

Record driver : Type := mk_driver { serial_port : P; timeout_ms : Z }.

Definition new (p : P) : driver := mk_driver p 25.

Definition setup_settings : list port_setting :=
  [BAUD_57600; CHAR_SIZE_8; PARITY_NONE; STOP_BITS_1; FLOW_CONTROL_NONE;
   DTR false; RTS false; FlushIOBuffers].

Fixpoint set_all (l : list port_setting) (p : P) : res P :=
  match l with
  | [] => Ok p
  | s :: l => p ← sp_set s p; set_all l p
  end.

(** An exception of [Open] is caught; the settings are applied whatever the
    requested rate. *)
Definition Setup (serial_device : text) (baud_rate timeout : Z) (d : driver) : res driver :=
  let '(p, _) := sp_open serial_device (serial_port d) in
  p ← set_all setup_settings p;
  Ok (mk_driver p timeout).

Definition is_connected (d : driver) : bool := sp_is_open (serial_port d).

Definition SendMsg (msg : text) (d : driver) : res (text * driver) :=
  let msg_to_send := msg ++ [CR] in
  p ← sp_write msg_to_send (serial_port d);
  match sp_read_line LF (timeout_ms d) p with
  | ReadLine response p => Ok (response, mk_driver p (timeout_ms d))
  | ReadTimeout response p => Ok (response, mk_driver p (timeout_ms d))
  | ReadThrow e => Throw e
  end.

Definition SendEmptyMsg (d : driver) : res driver :=
  '(_, d) ← SendMsg [] d; Ok d.

(** The parsing half of [ReadEncoderValues]: the position after the delimiter
    wraps around when there is none. *)
Definition parse_encoders (response : text) : res (Z * Z) :=
  let del_pos := find_char SP response in
  token_1 ← substr 0 del_pos response;
  token_2 ← substr (wrapu 64 (del_pos + 1)) npos response;
  v1 ← atoi 32 (through_c_str (through_c_str token_1));
  v2 ← atoi 32 (through_c_str (through_c_str token_2));
  Ok (v1, v2).

Definition ReadEncoderValues (d : driver) : res ((Z * Z) * driver) :=
  '(response, d) ← SendMsg (txt "e") d;
  v ← parse_encoders response;
  Ok (v, d).

Definition motor_values_msg (val_1 val_2 : Z) : text :=
  txt "m " ++ print_int val_1 ++ txt " " ++ print_int val_2.

Definition SetMotorValues (val_1 val_2 : Z) (d : driver) : res driver :=
  '(_, d) ← SendMsg (motor_values_msg val_1 val_2) d; Ok d.

Definition SetPidValues (k_p k_d k_i k_o : f64) (d : driver) : res driver :=
  '(_, d) ← SendMsg (txt "u " ++ print_float k_p ++ txt ":" ++ print_float k_d ++ txt ":" ++
                     print_float k_i ++ txt ":" ++ print_float k_o) d;
  Ok d.

End Driver.
Arguments driver P : clear implicits.

(** ** Facts *)

Lemma find_from_app d s rest : forall i,
  (d ∉ s) -> find_from d (s ++ d :: rest) i = i + Z.of_nat (length s).
Proof.
  induction s as [|c s IH]; intros i Hd; simpl; [rewrite decide_True; [lia|done]|].
  apply not_elem_of_cons in Hd as [? Hd]. rewrite decide_False by done.
  rewrite IH by done. lia.
Qed.

Lemma find_from_none d s : forall i, (d ∉ s) -> find_from d s i = npos.
Proof.
  induction s as [|c s IH]; intros i Hd; [done|].
  apply not_elem_of_cons in Hd as [? Hd]. simpl. rewrite decide_False by done. by apply IH.
Qed.

Lemma through_c_str_id s : (NUL ∉ s) -> through_c_str s = s.
Proof.
  induction s as [|c s IH]; intros Hn; [done|].
  apply not_elem_of_cons in Hn as [? Hn]. simpl. rewrite decide_False by done.
  by rewrite IH.
Qed.

Lemma substr_prefix s rest :
  substr 0 (Z.of_nat (length s)) (s ++ rest) = Ok s.
Proof.
  unfold substr. rewrite (proj2 (Z.ltb_ge _ _)) by lia. f_equal.
  rewrite length_app, Z.min_l, Nat2Z.id by lia. simpl. apply take_app_length.
Qed.

Lemma substr_suffix s c rest :
  Z.of_nat (length (s ++ c :: rest)) < npos ->
  substr (Z.of_nat (length s) + 1) npos (s ++ c :: rest) = Ok rest.
Proof.
  unfold substr. intros Hn. rewrite length_app in *. simpl in *.
  rewrite (proj2 (Z.ltb_ge _ _)) by lia. f_equal.
  rewrite Z.min_r by lia.
  replace (Z.to_nat (Z.of_nat (length s) + 1)) with (length (s ++ [c]))
    by (rewrite length_app; simpl; lia).
  change (s ++ c :: rest) with (s ++ [c] ++ rest). rewrite app_assoc.
  rewrite drop_app_length. apply take_ge. lia.
Qed.

Lemma substr_all s : substr 0 npos s = Ok (take (Z.to_nat (Z.min npos (Z.of_nat (length s)))) s).
Proof. unfold substr. by rewrite (proj2 (Z.ltb_ge _ _)) by lia. Qed.

(** The answer of the firmware to the encoder request is read back. *)
Lemma parse_encoders_print l r :
  in_s 32 l -> in_s 32 r ->
  parse_encoders (print_int l ++ SP :: print_int r ++ [CR; LF]) = Ok (l, r).
Proof.
  intros Hl Hr.
  pose proof (print_int_length l 32 ltac:(lia) ltac:(unfold in_s in Hl; lia)).
  pose proof (print_int_length r 32 ltac:(lia) ltac:(unfold in_s in Hr; lia)).
  unfold parse_encoders, find_char.
  assert (SP ∉ print_int l) as Hsp by by apply print_int_no.
  rewrite find_from_app by done. rewrite Z.add_0_l, substr_prefix. cbn [mbind res_bind].
  rewrite wrapu_id by (unfold in_u; lia).
  rewrite substr_suffix by
    (rewrite length_app; simpl; rewrite length_app; simpl; unfold npos; lia).
  cbn [mbind res_bind].
  assert (NUL ∉ print_int l) as Hn1 by by apply print_int_no.
  assert (NUL ∉ print_int r ++ [CR; LF]) as Hn2.
  { rewrite not_elem_of_app. split; [by apply print_int_no|].
    apply (bool_decide_unpack _). by vm_compute. }
  rewrite 2!(through_c_str_id (print_int l)), 2!(through_c_str_id (_ ++ _)) by done.
  by rewrite atoi_print_int, atoi_print by done.
Qed.

(** Without a delimiter both values are read from the whole response. *)
Lemma parse_encoders_no_delimiter s v :
  (SP ∉ s) -> Z.of_nat (length s) < npos ->
  atoi 32 (through_c_str (through_c_str s)) = Ok v -> parse_encoders s = Ok (v, v).
Proof.
  intros Hs Hl Hv. unfold parse_encoders, find_char. rewrite find_from_none by done.
  change (wrapu 64 (npos + 1)) with 0.
  assert (substr 0 npos s = Ok s) as ->.
  { rewrite substr_all, take_ge by lia. done. }
  cbn [mbind res_bind]. by rewrite Hv.
Qed.

End MotorDriver.
