(* ===== verification/DiffDrive.v ===== *)
(** * Hardware interface of the robot ([andino_base/wheel.h], [wheel.cpp],
    [diffdrive_andino.h], [diffdrive_andino.cpp])

    The ros2_control system interface: it validates the robot description,
    exports the wheel states and commands, reads the encoders and writes the
    wheel speeds through the motor driver. The base class of the framework is a
    parameter; log messages are not modelled. *)

From stdpp Require Import base option list numbers strings gmap.
From Stdlib Require Import ZArith Lia Ascii SpecFloat.
From S2P Require Import Prelude CString Float64 MotorDriver.

(** ** [std::stoi] *)

(** The leading number, if there is at least one digit. *)
Definition number_of (s : text) : option Z :=
  match skip_space s with
  | c :: s' =>
      let digits := if (code c =? 45) || (code c =? 43) then s' else c :: s' in
      match digits with
      | d :: _ => if is_digit d then Some (signed_val (c :: s')) else None
      | [] => None
      end
  | [] => None
  end.

Definition stoi (s : text) : res Z :=
  match number_of s with
  | None => Throw invalid_argument
  | Some z => if decide (in_s 32 z) then Ok z else Throw out_of_range
  end.

Module Wheel.

(** [enc] is an [unsigned int]. *)
Record wheel : Type := mk_wheel {
  name : text;
  enc : Z;
  cmd : f64;
  pos : f64;
  vel : f64;
  eff : f64;
  vel_set_pt : f64;
  rads_per_tick : f64 }.

Definition new : wheel :=
  mk_wheel [] 0 f64_zero f64_zero f64_zero f64_zero f64_zero f64_zero.

Definition Setup (wheel_name : text) (ticks_per_rev : Z) (w : wheel) : wheel :=
  mk_wheel wheel_name (enc w) (cmd w) (pos w) (vel w) (eff w) (vel_set_pt w)
    (f64_div f64_two_pi (f64_of_Z ticks_per_rev)).

Definition Angle (w : wheel) : f64 := f64_mul (f64_of_Z (enc w)) (rads_per_tick w).

(** Assignments of the hardware interface to the public fields. *)
Definition set_enc (n : Z) (w : wheel) : wheel :=
  mk_wheel (name w) (wrapu 32 n) (cmd w) (pos w) (vel w) (eff w) (vel_set_pt w)
    (rads_per_tick w).
Definition set_cmd (x : f64) (w : wheel) : wheel :=
  mk_wheel (name w) (enc w) x (pos w) (vel w) (eff w) (vel_set_pt w) (rads_per_tick w).
Definition set_state (p v : f64) (w : wheel) : wheel :=
  mk_wheel (name w) (enc w) (cmd w) p v (eff w) (vel_set_pt w) (rads_per_tick w).

End Wheel.

Module DiffDrive.

Inductive callback_return : Type := SUCCESS | ERROR.
Inductive return_type : Type := RET_OK | RET_ERROR.

Record component_info : Type := mk_component_info {
  joint_name : text;
  command_interfaces : list text;
  state_interfaces : list text }.

Record hardware_info : Type := mk_hardware_info {
  hardware_parameters : gmap string text;
  joints : list component_info }.

Definition kLeftWheelNameParam : string := "left_wheel_name".
Definition kRightWheelNameParam : string := "right_wheel_name".
Definition kSerialDeviceParam : string := "serial_device".
Definition kBaudRateParam : string := "baud_rate".
Definition kTimeoutParam : string := "timeout".
Definition kEncTicksPerRevParam : string := "enc_ticks_per_rev".

Record config : Type := mk_config {
  left_wheel_name : text;
  right_wheel_name : text;
  enc_ticks_per_rev : Z;
  serial_device : text;
  baud_rate : Z;
  timeout : Z }.

Definition default_config : config :=
  mk_config (txt "left_wheel") (txt "right_wheel") 700 (txt "/dev/ttyUSB0") 57600 1000.

(** The exported handles: a wheel's name, the interface and the field it
    points to. *)
Inductive side : Type := Left | Right.
Inductive interface : Type := HW_IF_VELOCITY | HW_IF_POSITION.
Inductive field : Type := vel_ | pos_ | cmd_.
Record handle : Type := mk_handle {
  prefix : text; interface_name : interface; target : side * field }.

Section DiffDrive.
Context {P : Type} `{SerialPort P}.

(** [SystemInterface::on_init] of the framework: whether it succeeds, and the
    [info_] it leaves. *)
Variable base_on_init : hardware_info -> callback_return * hardware_info.

Record dd : Type := mk_dd {
  info : hardware_info;
  the_config : config;
  motor_driver : MotorDriver.driver P;
  left_wheel : Wheel.wheel;
  right_wheel : Wheel.wheel }.

Definition new (p : P) : dd :=
  mk_dd (mk_hardware_info ∅ []) default_config (MotorDriver.new p) Wheel.new Wheel.new.

(** [info_.hardware_parameters[key]]: a missing key is inserted with an empty
    value. *)
Definition param (key : string) (i : hardware_info) : text * hardware_info :=
  match hardware_parameters i !! key with
  | Some v => (v, i)
  | None => ([], mk_hardware_info (<[key := []]> (hardware_parameters i)) (joints i))
  end.

(** The loop over the joints: the first one with an unexpected number of
    interfaces is an error. *)
Definition joint_ok (j : component_info) : bool :=
  bool_decide (length (command_interfaces j) = 1%nat) &&
  bool_decide (length (state_interfaces j) = 2%nat).

Fixpoint check_joints (js : list component_info) : bool :=
  match js with
  | [] => true
  | j :: js =>
      if negb (bool_decide (length (command_interfaces j) = 1%nat)) then false
      else if negb (bool_decide (length (state_interfaces j) = 2%nat)) then false
      else check_joints js
  end.

Definition on_init (i : hardware_info) (s : dd) : res (callback_return * dd) :=
  let '(base, i_) := base_on_init i in
  match base with
  | ERROR => Ok (ERROR, mk_dd i_ (the_config s) (motor_driver s) (left_wheel s) (right_wheel s))
  | SUCCESS =>
      let '(left_name, i_) := param kLeftWheelNameParam i_ in
      let '(right_name, i_) := param kRightWheelNameParam i_ in
      let '(device, i_) := param kSerialDeviceParam i_ in
      let '(baud, i_) := param kBaudRateParam i_ in
      baud ← stoi baud;
      let '(tmo, i_) := param kTimeoutParam i_ in
      tmo ← stoi tmo;
      let '(ticks, i_) := param kEncTicksPerRevParam i_ in
      ticks ← stoi ticks;
      let cfg := mk_config left_name right_name ticks device baud tmo in
      if check_joints (joints i) then
        Ok (SUCCESS, mk_dd i_ cfg (motor_driver s)
              (Wheel.Setup left_name ticks (left_wheel s))
              (Wheel.Setup right_name ticks (right_wheel s)))
      else Ok (ERROR, mk_dd i_ cfg (motor_driver s) (left_wheel s) (right_wheel s))
  end.

Definition set_driver (d : MotorDriver.driver P) (s : dd) : dd :=
  mk_dd (info s) (the_config s) d (left_wheel s) (right_wheel s).

Definition on_configure (s : dd) : res (callback_return * dd) :=
  d ← MotorDriver.Setup (serial_device (the_config s)) (baud_rate (the_config s))
        (timeout (the_config s)) (motor_driver s);
  Ok (SUCCESS, set_driver d s).

Definition export_state_interfaces (s : dd) : list handle :=
  [mk_handle (Wheel.name (left_wheel s)) HW_IF_VELOCITY (Left, vel_);
   mk_handle (Wheel.name (left_wheel s)) HW_IF_POSITION (Left, pos_);
   mk_handle (Wheel.name (right_wheel s)) HW_IF_VELOCITY (Right, vel_);
   mk_handle (Wheel.name (right_wheel s)) HW_IF_POSITION (Right, pos_)].

Definition export_command_interfaces (s : dd) : list handle :=
  [mk_handle (Wheel.name (left_wheel s)) HW_IF_VELOCITY (Left, cmd_);
   mk_handle (Wheel.name (right_wheel s)) HW_IF_VELOCITY (Right, cmd_)].

(** What the controllers read and write through a handle. *)
Definition wheel_of (sd : side) (s : dd) : Wheel.wheel :=
  match sd with Left => left_wheel s | Right => right_wheel s end.
Definition peek (h : handle) (s : dd) : f64 :=
  let w := wheel_of (target h).1 s in
  match (target h).2 with vel_ => Wheel.vel w | pos_ => Wheel.pos w | cmd_ => Wheel.cmd w end.

Definition poke (h : handle) (x : f64) (s : dd) : dd :=
  let put w := match (target h).2 with
    | vel_ => Wheel.set_state (Wheel.pos w) x w
    | pos_ => Wheel.set_state x (Wheel.vel w) w
    | cmd_ => Wheel.set_cmd x w
    end in
  match (target h).1 with
  | Left => mk_dd (info s) (the_config s) (motor_driver s) (put (left_wheel s)) (right_wheel s)
  | Right => mk_dd (info s) (the_config s) (motor_driver s) (left_wheel s) (put (right_wheel s))
  end.

Definition on_activate (s : dd) : callback_return * dd := (SUCCESS, s).
Definition on_deactivate (s : dd) : callback_return * dd := (SUCCESS, s).

(** The update of one wheel in [read]. *)
Definition update_wheel (n : Z) (delta_secs : f64) (w : Wheel.wheel) : Wheel.wheel :=
  let w := Wheel.set_enc n w in
  let pos_prev := Wheel.pos w in
  let p := Wheel.Angle w in
  Wheel.set_state p (f64_div (f64_sub p pos_prev) delta_secs) w.

Definition read (delta_secs : f64) (s : dd) : res (return_type * dd) :=
  if negb (MotorDriver.is_connected (motor_driver s)) then Ok (RET_ERROR, s) else
  '((l, r), d) ← MotorDriver.ReadEncoderValues (motor_driver s);
  Ok (RET_OK, mk_dd (info s) (the_config s) d (update_wheel l delta_secs (left_wheel s))
                (update_wheel r delta_secs (right_wheel s))).

Definition write (s : dd) : res (return_type * dd) :=
  if negb (MotorDriver.is_connected (motor_driver s)) then Ok (RET_ERROR, s) else
  left_value_target ←
    f64_to_int 32 (f64_div (Wheel.cmd (left_wheel s)) (Wheel.rads_per_tick (left_wheel s)));
  right_value_target ←
    f64_to_int 32 (f64_div (Wheel.cmd (right_wheel s)) (Wheel.rads_per_tick (right_wheel s)));
  d ← MotorDriver.SetMotorValues left_value_target right_value_target (motor_driver s);
  Ok (RET_OK, set_driver d s).

(** ** Initialisation *)

Definition value (key : string) (i : hardware_info) : text :=
  default [] (hardware_parameters i !! key).

Lemma param_spec key i :
  exists i', param key i = (value key i, i') /\ joints i' = joints i /\
    forall k, value k i' = value k i.
Proof.
  unfold param, value. destruct (hardware_parameters i !! key) as [v|] eqn:Hk; simpl; [by eauto|].
  eexists. split; [done|]. split; [done|]. intros k. simpl.
  destruct (decide (k = key)) as [->|]; [by rewrite lookup_insert_eq, Hk|].
  by rewrite lookup_insert_ne.
Qed.

Lemma check_joints_forallb js : check_joints js = forallb joint_ok js.
Proof.
  induction js as [|j js IH]; [done|]. simpl. unfold joint_ok at 1.
  destruct (bool_decide _), (bool_decide _); simpl; done.
Qed.

(** The parameters are read before the joints are checked. *)
Lemma on_init_eq i i_ s :
  base_on_init i = (SUCCESS, i_) ->
  exists i', joints i' = joints i_ /\
    on_init i s =
      (baud ← stoi (value kBaudRateParam i_);
       tmo ← stoi (value kTimeoutParam i_);
       ticks ← stoi (value kEncTicksPerRevParam i_);
       let ln := value kLeftWheelNameParam i_ in
       let rn := value kRightWheelNameParam i_ in
       let cfg := mk_config ln rn ticks (value kSerialDeviceParam i_) baud tmo in
       Ok (if forallb joint_ok (joints i) then
             (SUCCESS, mk_dd i' cfg (motor_driver s) (Wheel.Setup ln ticks (left_wheel s))
                         (Wheel.Setup rn ticks (right_wheel s)))
           else (ERROR, mk_dd i' cfg (motor_driver s) (left_wheel s) (right_wheel s)))).
Proof.
  intros Hb. unfold on_init. rewrite Hb.
  destruct (param_spec kLeftWheelNameParam i_) as (i1 & -> & Hj1 & Hv1).
  destruct (param_spec kRightWheelNameParam i1) as (i2 & -> & Hj2 & Hv2).
  destruct (param_spec kSerialDeviceParam i2) as (i3 & -> & Hj3 & Hv3).
  destruct (param_spec kBaudRateParam i3) as (i4 & -> & Hj4 & Hv4).
  destruct (param_spec kTimeoutParam i4) as (i5 & -> & Hj5 & Hv5).
  destruct (param_spec kEncTicksPerRevParam i5) as (i6 & -> & Hj6 & Hv6).
  exists i6. split; [congruence|]. rewrite !Hv5, !Hv4, !Hv3, !Hv2, !Hv1.
  rewrite check_joints_forallb.
  destruct (stoi (value kBaudRateParam i_)); simpl; [|done..].
  destruct (stoi (value kTimeoutParam i_)); simpl; [|done..].
  destruct (stoi (value kEncTicksPerRevParam i_)); simpl; [|done..].
  by destruct (forallb _ _).
Qed.

Lemma stoi_not_ub s : stoi s <> UB.
Proof. unfold stoi. destruct (number_of s); [case_decide|]; done. Qed.

(** ** Properties *)

(** [on_init] succeeds exactly when the base class does, the three numeric
    parameters are integers in range and every joint has one command and two state
    interfaces. The wheels then carry the configured names and
    [2 * M_PI / ticks] radians per tick, with positions and commands untouched. *)
Theorem dd_on_init i s :
  (forall s', on_init i s = Ok (SUCCESS, s') ->
     Wheel.name (left_wheel s') = value kLeftWheelNameParam (base_on_init i).2 /\
     Wheel.name (right_wheel s') = value kRightWheelNameParam (base_on_init i).2 /\
     Wheel.rads_per_tick (left_wheel s') =
       f64_div f64_two_pi (f64_of_Z (enc_ticks_per_rev (the_config s'))) /\
     Wheel.rads_per_tick (right_wheel s') = Wheel.rads_per_tick (left_wheel s') /\
     (forall h, peek h s' = peek h s) /\
     motor_driver s' = motor_driver s) /\
  ((exists s', on_init i s = Ok (SUCCESS, s')) <->
     (base_on_init i).1 = SUCCESS /\
     (forall k, k = kBaudRateParam \/ k = kTimeoutParam \/ k = kEncTicksPerRevParam ->
        exists z, number_of (value k (base_on_init i).2) = Some z /\ in_s 32 z) /\
     Forall (fun j => length (command_interfaces j) = 1%nat /\
                      length (state_interfaces j) = 2%nat) (joints i)).
Proof.
  destruct (base_on_init i) as [base i_] eqn:Hb. cbn [fst snd].
  assert (forall t, (exists z, number_of t = Some z /\ in_s 32 z) <-> exists z, stoi t = Ok z) as Hn.
  { intros t. unfold stoi. destruct (number_of t) as [z|]; [case_decide|].
    - split; intros; eauto.
    - by split; [intros (? & [= <-] & ?)|intros [? ?]].
    - by split; [intros (? & ? & ?)|intros [? ?]]. }
  assert (forall js, forallb joint_ok js = true <->
    Forall (fun j => length (command_interfaces j) = 1%nat /\
                     length (state_interfaces j) = 2%nat) js) as Hj.
  { induction js as [|j js IHj]; [by split|]. simpl. rewrite andb_true_iff, Forall_cons, IHj.
    unfold joint_ok. by rewrite andb_true_iff, !bool_decide_eq_true. }
  destruct base; cycle 1.
  { unfold on_init. rewrite Hb. split; [by intros|]. by split; [intros [? ?]|intros [? _]]. }
  destruct (on_init_eq i i_ s Hb) as (i' & _ & ->). split.
  - intros s' Hs. res_inv. destruct (forallb joint_ok (joints i)); [|done].
    cbv zeta in Hs. injection Hs as <-. cbn [left_wheel right_wheel the_config].
    do 4 (split; [reflexivity|]). split; [|done]. by intros [? ? [[] []]].
  - rewrite <- Hj. split.
    + intros [s' Hs]. res_inv. destruct (forallb joint_ok (joints i)); [|done].
      split; [done|]. split; [|done].
      intros k [->|[->| ->]]; apply Hn; eauto.
    + intros (_ & Hk & ->).
      destruct (proj1 (Hn _) (Hk kBaudRateParam ltac:(auto))) as [baud ->].
      destruct (proj1 (Hn _) (Hk kTimeoutParam ltac:(auto))) as [tmo ->].
      destruct (proj1 (Hn _) (Hk kEncTicksPerRevParam ltac:(auto))) as [ticks ->].
      by eexists.
Qed.

(** A read whose answer times out is not reported: [read] returns OK, both
    encoder counts become 0 and both positions jump to that of count 0. Any partial
    answer without a space is taken as the count of both wheels. *)
Theorem dd_read_timeout delta s p1 p2 partial v
  (Hconn : MotorDriver.is_connected (motor_driver s) = true)
  (Hw : sp_write (txt "e" ++ [CR]) (MotorDriver.serial_port (motor_driver s)) = Ok p1)
  (Hr : sp_read_line LF (MotorDriver.timeout_ms (motor_driver s)) p1 = ReadTimeout partial p2)
  (Hp : (SP ∉ partial) /\ Z.of_nat (length partial) < npos)
  (Hv : atoi 32 (through_c_str (through_c_str partial)) = Ok v) :
  exists s', read delta s = Ok (RET_OK, s') /\
    Wheel.enc (left_wheel s') = wrapu 32 v /\ Wheel.enc (right_wheel s') = wrapu 32 v /\
    (partial = [] -> Wheel.enc (left_wheel s') = 0 /\ Wheel.enc (right_wheel s') = 0 /\
       Wheel.pos (left_wheel s') = f64_mul f64_zero (Wheel.rads_per_tick (left_wheel s))).
Proof.
  destruct Hp as [Hsp Hlen].
  pose proof (MotorDriver.parse_encoders_no_delimiter partial v Hsp Hlen Hv) as Hpe.
  unfold read. rewrite Hconn. cbn [negb].
  unfold MotorDriver.ReadEncoderValues, MotorDriver.SendMsg. rewrite Hw. cbn [mbind res_bind].
  rewrite Hr. cbn [mbind res_bind]. rewrite Hpe. cbn [mbind res_bind].
  eexists. split; [reflexivity|]. do 2 (split; [reflexivity|]).
  intros ->. injection Hv as <-. by repeat split.
Qed.

End DiffDrive.
Arguments dd P : clear implicits.

(** A port nobody answers on. *)
Definition dead_port : SerialPort bool := {|
  sp_open _ _ := (true, None);
  sp_set _ p := Ok p;
  sp_is_open p := p;
  sp_write _ p := Ok p;
  sp_read_line _ _ p := ReadTimeout [] p |}.

Definition demo_info : hardware_info :=
  mk_hardware_info
    (list_to_map [(kLeftWheelNameParam, txt "l"); (kRightWheelNameParam, txt "r");
       (kSerialDeviceParam, txt "/dev/ttyUSB0"); (kBaudRateParam, txt "57600");
       (kTimeoutParam, txt "1000"); (kEncTicksPerRevParam, txt "700")])
    [mk_component_info (txt "l") [txt "velocity"] [txt "velocity"; txt "position"];
     mk_component_info (txt "r") [txt "velocity"] [txt "velocity"; txt "position"]].

Lemma dd_on_init_witness :
  exists s', on_init (fun i => (SUCCESS, i)) demo_info (new true) = Ok (SUCCESS, s') /\
    Wheel.name (left_wheel s') = txt "l".
Proof.
  destruct (dd_on_init (fun i => (SUCCESS, i)) demo_info (new true)) as [Hok Hiff].
  assert (exists s', on_init (fun i => (SUCCESS, i)) demo_info (new true) = Ok (SUCCESS, s'))
    as [s' Hs'].
  { apply Hiff. split; [reflexivity|]. split.
    - intros k [->|[->| ->]]; [exists 57600|exists 1000|exists 700];
        (split; [vm_compute; reflexivity|unfold in_s; lia]).
    - repeat constructor. }
  exists s'. split; [exact Hs'|]. exact (proj1 (Hok s' Hs')).
Defined.

Lemma dd_read_timeout_witness :
  let s := new (P := bool) true in
  exists s', read (H := dead_port) (f64_of_Z 1) s = Ok (RET_OK, s') /\
    Wheel.enc (left_wheel s') = 0.
Proof.
  intros s.
  assert ((SP ∉ []) /\ Z.of_nat (length (@nil ascii)) < npos) as Hp
    by (split; [apply not_elem_of_nil|reflexivity]).
  destruct (dd_read_timeout (H := dead_port) (f64_of_Z 1) s true true [] 0 eq_refl eq_refl eq_refl
    Hp eq_refl) as (s' & Hs & _ & _ & Hz).
  exists s'. split; [exact Hs|]. exact (proj1 (Hz eq_refl)).
Defined.
End DiffDrive.
