(* ===== verification/Link.v ===== *)
(** * Host and firmware connected by a serial line

    The serial port of the host driver is instantiated with the firmware: bytes
    written are processed by the firmware's shell, and lines are read from what
    the firmware printed. The theorems of this file are about the two programs
    together. *)

From stdpp Require Import base option list numbers strings gmap.
From Stdlib Require Import ZArith Lia Ascii SpecFloat.
From S2P Require Import Prelude CString Hardware Motor Encoder Pid Shell App AppSafety.
From S2P Require Import Float64 MotorDriver DiffDrive.

#[local] Arguments tokens : simpl never.
#[local] Arguments join : simpl never.


(** The firmware, the number of its characters the host has read, and whether
    the port is open. *)
Record link : Type := mk_link { fw : App.app; consumed : nat; port_open : bool }.

Section Link.
Context `{Runtime}.

(** The first line, with its line feed, if there is one. *)
Fixpoint first_line (d : ascii) (s : text) : option text :=
  match s with
  | [] => None
  | c :: s => if decide (c = d) then Some [c] else l ← first_line d s; Some (c :: l)
  end.

Definition unread (p : link) : text :=
  drop (consumed p) (App.serial_out (App.the_core (fw p))).

(** A port that is not open throws on every call but [Open]. *)
#[export] Instance link_port : SerialPort link := {|
  sp_open device p :=
    if port_open p then (p, Some logic_error) else (mk_link (fw p) (consumed p) true, None);
  sp_set _ p := if port_open p then Ok p else Throw runtime_error;
  sp_is_open p := port_open p;
  sp_write msg p :=
    if port_open p then a ← App.loop_shell msg (fw p); Ok (mk_link a (consumed p) true)
    else Throw runtime_error;
  sp_read_line d timeout p :=
    if port_open p then
      match first_line d (unread p) with
      | Some l => ReadLine l (mk_link (fw p) (consumed p + length l) true)
      | None => ReadTimeout (unread p)
                  (mk_link (fw p) (length (App.serial_out (App.the_core (fw p)))) true)
      end
    else ReadThrow runtime_error |}.

(** The line is idle: the firmware is ready for a command and the host has read
    every answer. *)
Record synced (p : link) : Prop := {
  sy_app : app_ok (fw p);
  sy_idle : Shell.message_index (App.the_shell (fw p)) = 0;
  sy_read : consumed p = length (App.serial_out (App.the_core (fw p)));
  sy_open : port_open p = true }.

(** The firmware's state, seen from the host's driver. *)
Definition firmware (d : MotorDriver.driver link) : App.core :=
  App.the_core (fw (MotorDriver.serial_port d)).

Definition in_sync (d : MotorDriver.driver link) : Prop := synced (MotorDriver.serial_port d).

Lemma first_line_spec d t rest : (d ∉ t) -> first_line d (t ++ d :: rest) = Some (t ++ [d]).
Proof.
  induction t as [|c t IH]; intros Hd; simpl; [by rewrite decide_True|].
  apply not_elem_of_cons in Hd as [? Hd]. rewrite decide_False by done. by rewrite IH.
Qed.

Definition app_shell_spec (a : App.app) : Shell.ashell cmd :=
  Shell.mk_ashell (Shell.default_callback (App.the_shell a)) (Shell.commands (App.the_shell a)) [].

(** One command line and its answer. *)
Lemma exchange w0 wr cb out c' d :
  in_sync d ->
  Forall (word SP) (w0 :: wr) -> (length (w0 :: wr) <= 15)%nat ->
  Shell.plain (join SP (w0 :: wr)) -> Z.of_nat (length (join SP (w0 :: wr))) < 64 ->
  Shell.lookup_command (app_shell_spec (fw (MotorDriver.serial_port d))) w0 = Some cb ->
  App.run cb (Z.of_nat (length (w0 :: wr))) (w0 :: wr) (firmware d) = Ok c' ->
  App.serial_out c' = App.serial_out (firmware d) ++ out ++ [CR; LF] -> (LF ∉ out) ->
  exists d', MotorDriver.SendMsg (join SP (w0 :: wr)) d = Ok (out ++ [CR; LF], d') /\
    in_sync d' /\ firmware d' = c' /\ MotorDriver.timeout_ms d' = MotorDriver.timeout_ms d.
Proof.
  destruct d as [[a n o] tmo]. unfold in_sync, firmware. simpl.
  intros [Hok Hidx Hn Ho] Hw Hlen Hplain Hl Hcb Hrun Hout Hlf. unfold app_shell_spec in Hcb. simpl in *. subst n o.
  destruct (Shell.line_runs App.run (App.the_shell a) (App.the_core a) w0 wr c')
    as (s' & Hp & Hwf & Hi & Hc & Hd & Hs); [apply Hok|apply Hok|done..|by rewrite Hcb|].
  assert (App.loop_shell (join SP (w0 :: wr) ++ [CR]) a = Ok (App.mk_app c' s')) as Hloop
    by (unfold App.loop_shell; by rewrite Hp).
  assert (app_ok (App.mk_app c' s')) as Hok' by by eapply app_ok_loop_shell.
  unfold MotorDriver.SendMsg. cbn [MotorDriver.serial_port MotorDriver.timeout_ms].
  cbn [sp_write sp_read_line link_port port_open fw consumed].
  change (join SP (w0 :: wr) ++ [CR]) with (join SP (w0 :: wr) ++ [CR]).
  rewrite Hloop. cbn [mbind res_bind port_open]. unfold unread. cbn [consumed fw].
  change (App.serial_out (App.the_core (App.mk_app c' s'))) with (App.serial_out c').
  rewrite Hout, drop_app_length.
  replace (out ++ [CR; LF]) with ((out ++ [CR]) ++ LF :: []) by by rewrite <- app_assoc.
  rewrite first_line_spec; cycle 1.
  { rewrite not_elem_of_app. split; [done|]. by intros [=]%list_elem_of_singleton. }
  rewrite <- app_assoc. cbn [app]. eexists. split; [reflexivity|]. split; [|done].
  split; simpl; [done|done| |done]. rewrite Hout, !length_app. simpl. lia.
Qed.

Lemma motor_values_words l r : MotorDriver.motor_values_msg l r = join SP (speed_argv l r).
Proof. reflexivity. Qed.

Lemma plain_app s t : Shell.plain s -> Shell.plain t -> Shell.plain (s ++ t).
Proof. unfold Shell.plain. rewrite !not_elem_of_app. tauto. Qed.

Lemma plain_cons c t :
  c <> CR -> c <> LF -> c <> NUL -> Shell.plain t -> Shell.plain (c :: t).
Proof. unfold Shell.plain. rewrite !not_elem_of_cons. intuition congruence. Qed.

Lemma plain_print_int n : Shell.plain (print_int n).
Proof. split; [|split]; by apply print_int_no. Qed.

(** The speed request reaches the controllers. *)
Lemma set_speed_exchange l r d :
  in_sync d -> in_int l -> in_int r ->
  exists d', MotorDriver.SetMotorValues l r d = Ok d' /\ in_sync d' /\
    Pid.setpoint (App.left_pid (firmware d')) = Z.quot l 30 /\
    Pid.setpoint (App.right_pid (firmware d')) = Z.quot r 30 /\
    Pid.is_enabled (App.left_pid (firmware d')) = negb ((l =? 0) && (r =? 0)) /\
    Pid.is_enabled (App.right_pid (firmware d')) = negb ((l =? 0) && (r =? 0)) /\
    App.encoders (firmware d') = App.encoders (firmware d).
Proof.
  intros Hd Hl Hr.
  assert (core_ok (firmware d)) as Hcore by apply (ok_core _ (sy_app _ Hd)).
  destruct (set_motors_speed_eq l r (firmware d) Hl Hr Hcore)
    as (c1 & Hrun & _ & Hout & Hel & Her & _ & Henc).
  match type of Hrun with _ = Ok ?c => set (c' := c) in * end.
  destruct (exchange (txt "m") [print_int l; print_int r] cmd_set_motors_speed_cb (txt "OK")
    c' d Hd) as (d' & Hsend & Hsync & Hfw & _); try exact Hrun.
  - repeat (apply Forall_cons_2 || apply Forall_nil_2);
      [solve_decide|by apply print_int_word..].
  - simpl. lia.
  - unfold join. apply plain_app; [solve_decide|].
    apply plain_cons; try done. apply plain_app; [apply plain_print_int|].
    apply plain_cons; try done. apply plain_print_int.
  - pose proof (print_int_length l 16 ltac:(lia) ltac:(unfold in_s in Hl; lia)).
    pose proof (print_int_length r 16 ltac:(lia) ltac:(unfold in_s in Hr; lia)).
    unfold join. rewrite length_app. simpl. rewrite length_app. simpl. lia.
  - unfold app_shell_spec. rewrite (ok_commands _ (sy_app _ Hd)). reflexivity.
  - simpl. by rewrite Hout.
  - solve_decide.
  - exists d'. unfold MotorDriver.SetMotorValues. rewrite motor_values_words.
    unfold speed_argv. change Commands.kSetMotorsSpeed with (txt "m").
    rewrite Hsend. cbn [mbind res_bind]. rewrite Hfw. by repeat (split; [done|]).
Qed.

(** The counts are read back. *)
Lemma read_exchange el er d :
  in_sync d -> App.encoders (firmware d) = [el; er] ->
  in_long (Encoder.count el) -> in_long (Encoder.count er) ->
  exists d', MotorDriver.ReadEncoderValues d = Ok ((Encoder.count el, Encoder.count er), d') /\
    in_sync d' /\ App.encoders (firmware d') = [el; er] /\
    App.left_pid (firmware d') = App.left_pid (firmware d) /\
    App.right_pid (firmware d') = App.right_pid (firmware d) /\
    App.world (firmware d') = App.world (firmware d).
Proof.
  intros Hd He Hl Hr.
  set (l := Encoder.count el) in *. set (r := Encoder.count er) in *.
  set (c' := App.println (print_int r) (App.print (txt " ") (App.print (print_int l) (firmware d)))).
  destruct (exchange (txt "e") [] cmd_read_encoders_cb (print_int l ++ SP :: print_int r)
    c' d Hd) as (d' & Hsend & Hsync & Hfw & _).
  - repeat (apply Forall_cons_2 || apply Forall_nil_2).
    solve_decide.
  - simpl. lia.
  - solve_decide.
  - reflexivity.
  - unfold app_shell_spec. rewrite (ok_commands _ (sy_app _ Hd)). reflexivity.
  - unfold App.run, App.read_encoders, App.read_encoder, App.encoder_at. simpl.
    by rewrite He.
  - simpl. rewrite <- !app_assoc. by rewrite <- app_comm_cons.
  - rewrite not_elem_of_app, not_elem_of_cons.
    split; [by apply print_int_no|]. split; [done|by apply print_int_no].
  - exists d'. unfold MotorDriver.ReadEncoderValues. change (join SP [txt "e"]) with (txt "e") in Hsend.
    rewrite Hsend. cbn [mbind res_bind].
    rewrite <- app_assoc, <- app_comm_cons, MotorDriver.parse_encoders_print by done.
    rewrite Hfw. by repeat (split; [done|]).
Qed.

(** A 16-bit value is a 32-bit one. *)
Lemma in_int_in_s32 n : in_int n -> in_s 32 n.
Proof. unfold in_s. lia. Qed.

(** ** Properties *)

(** End to end command path. With the line idle, the hardware interface's
    [write] divides each wheel command by the radians per tick and truncates; when
    the two targets are 16-bit values it returns OK, the firmware's controllers end
    up with these targets in ticks per period, both enabled (both disabled for a
    double zero), the encoders are untouched, and the line is idle again. *)
Theorem link_write l r (s : DiffDrive.dd link)
  (Hsync : in_sync (DiffDrive.motor_driver s))
  (Hl : f64_trunc (f64_div (Wheel.cmd (DiffDrive.left_wheel s))
          (Wheel.rads_per_tick (DiffDrive.left_wheel s))) = Some l /\ in_int l)
  (Hr : f64_trunc (f64_div (Wheel.cmd (DiffDrive.right_wheel s))
          (Wheel.rads_per_tick (DiffDrive.right_wheel s))) = Some r /\ in_int r) :
  exists s', DiffDrive.write s = Ok (DiffDrive.RET_OK, s') /\
    in_sync (DiffDrive.motor_driver s') /\
    let c := firmware (DiffDrive.motor_driver s') in
    Pid.setpoint (App.left_pid c) = Z.quot l 30 /\
    Pid.setpoint (App.right_pid c) = Z.quot r 30 /\
    Pid.is_enabled (App.left_pid c) = negb ((l =? 0) && (r =? 0)) /\
    Pid.is_enabled (App.right_pid c) = negb ((l =? 0) && (r =? 0)) /\
    App.encoders c = App.encoders (firmware (DiffDrive.motor_driver s)).
Proof.
  destruct Hl as [Hl Hl16], Hr as [Hr Hr16].
  destruct (set_speed_exchange l r _ Hsync Hl16 Hr16) as (d' & Hset & Hsync' & Hrest).
  exists (DiffDrive.set_driver d' s). split; [|by split].
  unfold DiffDrive.write, MotorDriver.is_connected. cbn [sp_is_open link_port].
  rewrite (sy_open _ Hsync). cbn [negb].
  apply (fun H => conj H (in_int_in_s32 _ Hl16)), f64_to_int_ok in Hl.
  apply (fun H => conj H (in_int_in_s32 _ Hr16)), f64_to_int_ok in Hr.
  rewrite Hl. cbn [mbind res_bind]. rewrite Hr.
  cbn [mbind res_bind]. by rewrite Hset.
Qed.

(** C38: End to end odometry path. With the line idle, the hardware interface's
    [read] gets exactly the firmware's counts, stores them modulo 2^32 and derives
    position and velocity from them; the firmware is not changed and the line is
    idle again. A count that is not negative is stored as it is, but a negative
    count [n], after turning backwards, is stored as [2^32 + n]. *)
Theorem link_read el er delta (s : DiffDrive.dd link)
  (Hsync : in_sync (DiffDrive.motor_driver s))
  (Hencs : App.encoders (firmware (DiffDrive.motor_driver s)) = [el; er])
  (Hl : in_long (Encoder.count el)) (Hr : in_long (Encoder.count er)) :
  exists s', DiffDrive.read delta s = Ok (DiffDrive.RET_OK, s') /\
    in_sync (DiffDrive.motor_driver s') /\
    App.encoders (firmware (DiffDrive.motor_driver s')) = [el; er] /\
    (forall sd, let w := DiffDrive.wheel_of sd s in let w' := DiffDrive.wheel_of sd s' in
       let n := Encoder.count (match sd with DiffDrive.Left => el | DiffDrive.Right => er end) in
       Wheel.enc w' = (if n <? 0 then 2 ^ 32 + n else n) /\
       Wheel.pos w' = f64_mul (f64_of_Z (Wheel.enc w')) (Wheel.rads_per_tick w) /\
       Wheel.vel w' = f64_div (f64_sub (Wheel.pos w') (Wheel.pos w)) delta /\
       Wheel.cmd w' = Wheel.cmd w).
Proof.
  destruct (read_exchange el er _ Hsync Hencs Hl Hr) as (d' & Hread & Hsync' & He' & _).
  unfold DiffDrive.read, MotorDriver.is_connected. cbn [sp_is_open link_port].
  rewrite (sy_open _ Hsync). cbn [negb]. rewrite Hread. cbn [mbind res_bind].
  eexists. split; [reflexivity|]. split; [exact Hsync'|]. split; [exact He'|].
  assert (forall n, in_long n -> wrapu 32 n = if n <? 0 then 2 ^ 32 + n else n) as Hwrap.
  { unfold in_s. intros n Hn. destruct (Z.ltb_spec n 0); [|by apply wrapu_id; unfold in_u; lia].
    unfold wrapu. rewrite <- (Z.mod_add n 1) by lia. rewrite Z.mod_small; lia. }
  intros []; (split; [by apply Hwrap|done]).
Qed.

End Link.

(** ** The properties on a concrete run *)

Section Demo.
#[local] Existing Instance demo_runtime.

(** A host connected to the firmware [setup] left, with 700 ticks per turn. *)
Definition demo_link : link :=
  mk_link demo_app (length (App.serial_out (App.the_core demo_app))) true.

Definition demo_wheel (c : Z) : Wheel.wheel :=
  Wheel.set_cmd (f64_of_Z c) (Wheel.Setup (txt "w") 700 Wheel.new).

Definition demo_host : DiffDrive.dd link :=
  DiffDrive.mk_dd (DiffDrive.mk_hardware_info ∅ []) DiffDrive.default_config (MotorDriver.new demo_link)
    (demo_wheel 5) (demo_wheel (-5)).

Lemma demo_synced : in_sync (DiffDrive.motor_driver demo_host).
Proof. split; [exact demo_app_ok|vm_compute; reflexivity..]. Qed.

Lemma link_write_witness :
  exists s', DiffDrive.write demo_host = Ok (DiffDrive.RET_OK, s') /\
    Pid.setpoint (App.left_pid (firmware (DiffDrive.motor_driver s'))) = 18 /\
    Pid.setpoint (App.right_pid (firmware (DiffDrive.motor_driver s'))) = -18.
Proof.
  destruct (link_write 557 (-557) demo_host demo_synced
    ltac:(split; [vm_compute; reflexivity|unfold in_s; lia])
    ltac:(split; [vm_compute; reflexivity|unfold in_s; lia])) as (s' & Hs & _ & Hl & Hr & _).
  exists s'. split; [exact Hs|]. split; [exact Hl|exact Hr].
Defined.

Lemma link_read_witness :
  exists s', DiffDrive.read (f64_of_Z 1) demo_host = Ok (DiffDrive.RET_OK, s') /\
    Wheel.enc (DiffDrive.left_wheel s') = 0.
Proof.
  assert (App.encoders (firmware (DiffDrive.motor_driver demo_host)) =
    [Encoder.new 2 3; Encoder.new 16 17]) as He by (vm_compute; reflexivity).
  assert (in_long 0) as Hz by (unfold in_s; lia).
  destruct (link_read (Encoder.new 2 3) (Encoder.new 16 17) (f64_of_Z 1) demo_host demo_synced
    He Hz Hz) as (s' & Hs & _ & _ & Hw).
  exists s'. split; [exact Hs|]. exact (proj1 (Hw DiffDrive.Left)).
Defined.
End Demo.
