(* ===== verification/Bits.v ===== *)
(** * Counting bits

    The number of set bits of an integer, the loop that counts them by clearing
    the lowest one, and the masks of a column of voxels. *)

From stdpp Require Import base option list numbers.
From Stdlib Require Import ZArith Lia.
From S2P Require Import Prelude.

Fixpoint pos_popcount (p : positive) : Z :=
  match p with
  | xH => 1
  | xO p => pos_popcount p
  | xI p => 1 + pos_popcount p
  end.

Definition popcount (n : Z) : Z := match n with Z.pos p => pos_popcount p | _ => 0 end.

Lemma pos_popcount_pos p : 0 < pos_popcount p.
Proof. induction p; simpl; lia. Qed.

Lemma popcount_nonneg n : 0 <= popcount n.
Proof. destruct n as [|p|p]; simpl; [lia| |lia]. pose proof (pos_popcount_pos p). lia. Qed.

Lemma popcount_zero n : 0 <= n -> popcount n = 0 <-> n = 0.
Proof.
  destruct n as [|p|p]; simpl; intros; [done| |lia]. pose proof (pos_popcount_pos p). lia.
Qed.

Lemma popcount_double n : popcount (2 * n) = popcount n.
Proof. by destruct n. Qed.

Lemma popcount_succ_double n : 0 <= n -> popcount (2 * n + 1) = 1 + popcount n.
Proof. by destruct n. Qed.

Lemma popcount_step n : 0 <= n -> popcount n = Z.b2z (Z.odd n) + popcount (Z.div2 n).
Proof.
  intros Hn. rewrite (Z.div2_odd n) at 1.
  destruct (Z.odd n); cbn [Z.b2z].
  - rewrite popcount_succ_double; [done|]. rewrite Z.div2_div. apply Z.div_pos; lia.
  - rewrite Z.add_0_r, popcount_double. done.
Qed.

Lemma popcount_shift k n : 0 <= k -> popcount (n * 2 ^ k) = popcount n.
Proof.
  intros Hk. revert n. pattern k. apply natlike_ind; [|clear k Hk|done].
  - intros n. by rewrite Z.mul_1_r.
  - intros k Hk IH n. rewrite Z.pow_succ_r by done.
    replace (n * (2 * 2 ^ k)) with (2 * (n * 2 ^ k)) by lia. by rewrite popcount_double, IH.
Qed.

(** Clearing the lowest set bit removes exactly one. *)
Lemma land_pred_odd m : Z.land (2 * m + 1) (2 * m) = 2 * m.
Proof.
  apply Z.bits_inj'. intros i Hi. rewrite Z.land_spec.
  destruct (Z.eq_dec i 0) as [->|].
  - by rewrite Z.testbit_odd_0, Z.testbit_even_0.
  - replace i with (Z.succ (i - 1)) by lia.
    rewrite Z.testbit_odd_succ, Z.testbit_even_succ by lia. by destruct (Z.testbit m (i - 1)).
Qed.

Lemma land_pred_even m : Z.land (2 * m) (2 * m - 1) = 2 * Z.land m (m - 1).
Proof.
  apply Z.bits_inj'. intros i Hi. rewrite Z.land_spec.
  destruct (Z.eq_dec i 0) as [->|].
  - by rewrite !Z.testbit_even_0.
  - replace i with (Z.succ (i - 1)) by lia.
    replace (2 * m - 1) with (2 * (m - 1) + 1) by lia.
    rewrite Z.testbit_odd_succ, !Z.testbit_even_succ, Z.land_spec by lia. done.
Qed.

Lemma popcount_clear n : 0 < n -> popcount (Z.land n (n - 1)) = popcount n - 1.
Proof.
  destruct n as [|p|p]; try lia. intros _. induction p as [p IH|p IH|].
  - replace (Z.pos p~1) with (2 * Z.pos p + 1) by lia.
    replace (2 * Z.pos p + 1 - 1) with (2 * Z.pos p) by lia.
    rewrite land_pred_odd, popcount_double, popcount_succ_double by lia. lia.
  - replace (Z.pos p~0) with (2 * Z.pos p) by lia.
    by rewrite land_pred_even, !popcount_double.
  - done.
Qed.

Lemma land_pred_range n : 0 < n -> 0 <= Z.land n (n - 1) < n.
Proof.
  intros Hn. split; [apply Z.land_nonneg; lia|].
  destruct n as [|p|p]; try lia. induction p as [p IH|p IH|].
  - replace (Z.pos p~1) with (2 * Z.pos p + 1) by lia.
    replace (2 * Z.pos p + 1 - 1) with (2 * Z.pos p) by lia.
    rewrite land_pred_odd. lia.
  - replace (Z.pos p~0) with (2 * Z.pos p) by lia. rewrite land_pred_even. lia.
  - done.
Qed.

(** The bits of an integer below [2 ^ w], one by one. *)
Fixpoint count_bits (w : nat) (f : Z -> bool) : Z :=
  match w with
  | O => 0
  | S w => count_bits w f + Z.b2z (f (Z.of_nat w))
  end.

Lemma count_bits_ext w f g :
  (forall i, 0 <= i < Z.of_nat w -> f i = g i) -> count_bits w f = count_bits w g.
Proof.
  induction w as [|w IH]; intros Hf; simpl; [done|].
  rewrite Hf by lia. f_equal. apply IH. intros i Hi. apply Hf. lia.
Qed.

Lemma count_bits_succ w f :
  count_bits (S w) f = Z.b2z (f 0) + count_bits w (fun i => f (i + 1)).
Proof.
  induction w as [|w IH]; [cbn [count_bits]; change (Z.of_nat 0) with 0; lia|].
  change (count_bits (S (S w)) f) with (count_bits (S w) f + Z.b2z (f (Z.of_nat (S w)))).
  rewrite IH. cbn [count_bits]. replace (Z.of_nat (S w)) with (Z.of_nat w + 1) by lia. lia.
Qed.

Lemma popcount_bits w n :
  0 <= n < 2 ^ Z.of_nat w -> popcount n = count_bits w (Z.testbit n).
Proof.
  revert n. induction w as [|w IH]; intros n Hn.
  { simpl in *. assert (n = 0) as -> by lia. done. }
  rewrite count_bits_succ, popcount_step by lia.
  rewrite Nat2Z.inj_succ, Z.pow_succ_r in Hn by lia.
  rewrite Z.bit0_odd. f_equal.
  rewrite IH by (rewrite Z.div2_div; split; [apply Z.div_pos|apply Z.div_lt_upper_bound]; lia).
  apply count_bits_ext. intros i Hi. by rewrite Z.div2_spec, Z.shiftr_spec by lia.
Qed.

Lemma popcount_le w n : 0 <= n < 2 ^ Z.of_nat w -> popcount n <= Z.of_nat w.
Proof.
  intros Hn. rewrite (popcount_bits w) by done. clear Hn.
  induction w as [|w IH]; cbn [count_bits]; [lia|].
  assert (forall b, Z.b2z b <= 1) by (intros []; simpl; lia).
  specialize (H (Z.testbit n (Z.of_nat w))). lia.
Qed.
