(* ===== verification/Line.v ===== *)
(** * Discrete lines

    The arithmetic of Bresenham's walk, shared by the voxel grid and the costmap:
    while the dominant axis makes one step at a time, another axis of displacement
    [d] has made [steps da d i] steps after [i] of them, and its error term is
    [err da d i]. *)

From stdpp Require Import base option list numbers.
From Stdlib Require Import ZArith Lia.
From S2P Require Import Prelude.

Definition sign (i : Z) : Z := if i >? 0 then 1 else -1.

(** Steps made on an axis of displacement [d] after [i] steps of the dominant
    one, of displacement [da]. *)
Definition steps (da d i : Z) : Z := (da / 2 + i * d) / da.
Definition err (da d i : Z) : Z := (da / 2 + i * d) mod da.

Lemma steps_start da d : 0 <= da -> steps da d 0 = 0.
Proof.
  intros Hda. unfold steps. rewrite Z.mul_0_l, Z.add_0_r.
  destruct (Z.eq_dec da 0) as [->|]; [done|].
  apply Z.div_small. split; [apply Z.div_pos; lia|]. apply Z.div_lt; lia.
Qed.

Lemma err_start da d : 0 < da -> err da d 0 = da / 2.
Proof.
  intros. unfold err. rewrite Z.mul_0_l, Z.add_0_r. apply Z.mod_small.
  split; [apply Z.div_pos; lia|]. apply Z.div_lt; lia.
Qed.

Lemma steps_end da d : 0 <= d <= da -> steps da d da = d.
Proof.
  intros Hd. destruct (Z.eq_dec da 0) as [->|]; [by assert (d = 0) as -> by lia|].
  unfold steps. rewrite Z.mul_comm, Z.div_add by lia.
  rewrite Z.div_small; [lia|]. split; [apply Z.div_pos; lia|]. apply Z.div_lt; lia.
Qed.

Lemma steps_dominant da i : 0 < da -> steps da da i = i.
Proof.
  intros. unfold steps. rewrite Z.div_add by lia.
  rewrite Z.div_small; [lia|]. split; [apply Z.div_pos; lia|]. apply Z.div_lt; lia.
Qed.

(** One more step: at most one step on the other axis, when the error says so. *)
Lemma steps_succ da d i :
  0 < da -> 0 <= d <= da ->
  (da <= err da d i + d /\ steps da d (i + 1) = steps da d i + 1 /\
     err da d (i + 1) = err da d i + d - da) \/
  (err da d i + d < da /\ steps da d (i + 1) = steps da d i /\
     err da d (i + 1) = err da d i + d).
Proof.
  intros Hda Hd. unfold steps, err.
  pose proof (Z.div_mod (da / 2 + i * d) da ltac:(lia)) as Hdm.
  pose proof (Z.mod_pos_bound (da / 2 + i * d) da ltac:(lia)) as Hm.
  set (q := (da / 2 + i * d) / da) in *. set (r := (da / 2 + i * d) mod da) in *.
  replace (da / 2 + (i + 1) * d) with (da * q + (r + d)) by lia.
  destruct (Z.le_gt_cases da (r + d)); [left|right]; split; try lia.
  - assert ((da * q + (r + d)) / da = q + 1) as Hq
      by (symmetry; apply (Z.div_unique _ _ _ (r + d - da)); lia).
    rewrite Hq. split; [done|]. rewrite Z.mod_eq, Hq by lia. lia.
  - assert ((da * q + (r + d)) / da = q) as Hq
      by (symmetry; apply (Z.div_unique _ _ _ (r + d)); lia).
    rewrite Hq. split; [done|]. rewrite Z.mod_eq, Hq by lia. lia.
Qed.

Lemma steps_mono da d i j :
  0 < da -> 0 <= d -> i <= j -> steps da d i <= steps da d j.
Proof. intros. unfold steps. apply Z.div_le_mono; nia. Qed.

Lemma steps_range da d i : 0 <= d <= da -> 0 <= i <= da -> 0 <= steps da d i <= d.
Proof.
  intros Hd Hi. destruct (Z.eq_dec da 0) as [->|].
  { assert (d = 0) as -> by lia. assert (i = 0) as -> by lia. done. }
  pose proof (steps_mono da d 0 i ltac:(lia) ltac:(lia) ltac:(lia)) as H1.
  pose proof (steps_mono da d i da ltac:(lia) ltac:(lia) ltac:(lia)) as H2.
  rewrite steps_start in H1 by lia. rewrite steps_end in H2 by lia. lia.
Qed.

Lemma err_range da d i : 0 < da -> 0 <= err da d i < da.
Proof. intros. apply Z.mod_pos_bound. lia. Qed.

(** The unsigned view of one error update. *)
Lemma error_update da d i :
  da < 2 ^ 31 -> 0 < da -> 0 <= d <= da ->
  let e := wraps 32 (wrapu 32 (err da d i) + d) in
  wrapu 32 e = err da d i + d /\
  (err da d i + d < da -> e = err da d i + d) /\
  wraps 32 (wrapu 32 e - da) = err da d i + d - da.
Proof.
  intros Hmax Hpos Hd e. pose proof (err_range da d i Hpos).
  assert (wrapu 32 (err da d i) = err da d i) as Hw by (apply wrapu_id; unfold in_u; lia).
  assert (wrapu 32 e = err da d i + d) as He.
  { unfold e. rewrite Hw, wrapu_wraps by lia. apply wrapu_id. unfold in_u. lia. }
  split; [done|]. split.
  - intros. unfold e. rewrite Hw. apply wraps_id; [lia|]. unfold in_s. lia.
  - rewrite He. apply wraps_id; [lia|]. unfold in_s. lia.
Qed.

Definition coordinate (da a0 a1 i : Z) : Z :=
  a0 + sign (a1 - a0) * steps da (Z.abs (a1 - a0)) i.

Lemma coordinate_between da a0 a1 i :
  Z.abs (a1 - a0) <= da -> 0 <= i <= da ->
  Z.min a0 a1 <= coordinate da a0 a1 i <= Z.max a0 a1.
Proof.
  intros Hd Hi. pose proof (steps_range da (Z.abs (a1 - a0)) i ltac:(lia) Hi).
  unfold coordinate, sign. rewrite Z.gtb_ltb. destruct (Z.ltb_spec 0 (a1 - a0)); lia.
Qed.

Lemma coordinate_start da a0 a1 : 0 <= da -> coordinate da a0 a1 0 = a0.
Proof. intros. unfold coordinate. rewrite steps_start by done. lia. Qed.

Lemma coordinate_end da a0 a1 : Z.abs (a1 - a0) <= da -> coordinate da a0 a1 da = a1.
Proof.
  intros. unfold coordinate, sign. rewrite steps_end, Z.gtb_ltb by lia.
  destruct (Z.ltb_spec 0 (a1 - a0)); lia.
Qed.

Lemma coordinate_step da a0 a1 i :
  0 < da -> Z.abs (a1 - a0) <= da ->
  Z.abs (coordinate da a0 a1 (i + 1) - coordinate da a0 a1 i) <= 1.
Proof.
  intros Hda Hd. unfold coordinate, sign. rewrite Z.gtb_ltb.
  destruct (steps_succ da (Z.abs (a1 - a0)) i Hda ltac:(lia)) as [(_ & -> & _)|(_ & -> & _)];
    destruct (Z.ltb_spec 0 (a1 - a0)); lia.
Qed.

Lemma sign_abs d n : 0 <= n < Z.abs d -> sign d * (n + 1) = sign d * n + sign d.
Proof. lia. Qed.

Lemma sign_unit d : Z.abs (sign d) = 1.
Proof. unfold sign. by destruct (d >? 0). Qed.

(** A coordinate on its way. *)
Lemma on_way a0 a1 n :
  0 <= n <= Z.abs (a1 - a0) -> Z.min a0 a1 <= a0 + sign (a1 - a0) * n <= Z.max a0 a1.
Proof.
  intros. unfold sign. rewrite Z.gtb_ltb. destruct (Z.ltb_spec 0 (a1 - a0)); lia.
Qed.

Lemma steps_self da i : 0 <= i <= da -> steps da da i = i.
Proof.
  intros Hi. destruct (Z.eq_dec da 0) as [->|]; [by assert (i = 0) as -> by lia|].
  apply steps_dominant. lia.
Qed.

(** Run an action over a list of positions. *)
Fixpoint visit_all {P S} (act : P -> S -> res S) (l : list P) (s : S) : res S :=
  match l with
  | [] => Ok s
  | p :: l => s ← act p s; visit_all act l s
  end.

(** The walk from [a0] to [a1], every value in between is met. *)
Lemma coordinate_meets da a0 a1 c :
  Z.abs (a1 - a0) <= da -> Z.min a0 a1 <= c <= Z.max a0 a1 ->
  exists i, 0 <= i <= da /\ coordinate da a0 a1 i = c.
Proof.
  intros Hd Hc. destruct (decide (da = 0)) as [Hz|Hz].
  { exists 0. rewrite coordinate_start by lia. lia. }
  assert (forall n : nat, Z.of_nat n <= da ->
    (exists i, 0 <= i <= Z.of_nat n /\ coordinate da a0 a1 i = c) \/
    (a0 < c /\ coordinate da a0 a1 (Z.of_nat n) < c) \/
    (c < a0 /\ c < coordinate da a0 a1 (Z.of_nat n))) as Hn.
  { induction n as [|n IH]; intros Hle.
    - destruct (Z.lt_trichotomy a0 c) as [|[|]].
      + right. left. rewrite coordinate_start; lia.
      + left. exists 0. rewrite coordinate_start; lia.
      + right. right. rewrite coordinate_start; lia.
    - destruct IH as [(i & ? & ?)|IH]; [lia|left; exists i; split; [lia|done]|].
      pose proof (coordinate_step da a0 a1 (Z.of_nat n) ltac:(lia) Hd) as Hs.
      rewrite Nat2Z.inj_succ. unfold Z.succ.
      destruct (decide (coordinate da a0 a1 (Z.of_nat n + 1) = c)) as [He|]; [|right; lia].
      left. exists (Z.of_nat n + 1). split; [lia|done]. }
  destruct (Hn (Z.to_nat da) ltac:(lia)) as [(i & ? & ?)|H].
  - exists i. split; [lia|done].
  - rewrite Z2Nat.id, coordinate_end in H by lia. lia.
Qed.
