(* ===== verification/VoxelGrid.v ===== *)
(** * Voxel grid ([nav2_voxel_grid/voxel_grid.hpp], [voxel_grid.cpp])

    A grid of 32-bit columns: bit [z] says that level [z] is not known to be
    free, bit [z + 16] that it is marked. Lines are traced with a
    three-dimensional Bresenham walk that applies an action to each column and
    mask. Log messages are not modelled; an access outside an array is undefined
    behaviour. *)

From stdpp Require Import base option list numbers.
From Stdlib Require Import ZArith Lia SpecFloat.
From S2P Require Import Prelude Float64 Bits Line.

Module VoxelGrid.

Inductive VoxelStatus : Type := FREE | UNKNOWN | MARKED.

#[export] Instance status_eq_dec : EqDecision VoxelStatus.
Proof. solve_decision. Defined.

(** [costmap] is the buffer of the two-dimensional map the grid was last given,
    if any. *)
Record grid : Type := mk_grid {
  size_x : Z; size_y : Z; size_z : Z;
  data : list Z;
  costmap : option (list Z) }.

Definition set_data (d : list Z) (g : grid) : grid :=
  mk_grid (size_x g) (size_y g) (size_z g) d (costmap g).
Definition set_costmap (c : option (list Z)) (g : grid) : grid :=
  mk_grid (size_x g) (size_y g) (size_z g) (data g) c.

(** [~((uint32_t)0) >> 16]. *)
Definition unknown_col : Z := Z.shiftr (2 ^ 32 - 1) 16.

(** The columns of a new array, all unknown. *)
Definition unknown_data (sx sy : Z) : list Z := replicate (Z.to_nat (wrapu 32 (sx * sy))) unknown_col.

Definition clamp_z (sz : Z) : Z := if sz >? 16 then 16 else sz.

Definition new (sx sy sz : Z) : grid :=
  mk_grid sx sy (clamp_z sz) (unknown_data sx sy) None.

Definition reset (g : grid) : grid := set_data (unknown_data (size_x g) (size_y g)) g.

Definition resize (sx sy sz : Z) (g : grid) : grid :=
  if (sx =? size_x g) && (sy =? size_y g) && (sz =? size_z g) then reset g
  else mk_grid sx sy (clamp_z sz) (unknown_data sx sy) (costmap g).

(** ** Single voxels *)

Definition full_mask (z : Z) : Z :=
  Z.lor (wrapu 32 (Z.shiftl (wrapu 32 (Z.shiftl 1 z)) 16)) (Z.shiftl 1 z).

Definition out_of_bounds (x y z : Z) (g : grid) : bool :=
  (x >=? size_x g) || (y >=? size_y g) || (z >=? size_z g).

Definition index (x y : Z) (g : grid) : Z := wrapu 32 (y * size_x g + x).

(** [~m] on 32 bits. *)
Definition lnot32 (m : Z) : Z := 2 ^ 32 - 1 - m.

Definition update (i : Z) (f : Z -> Z) (g : grid) : res grid :=
  col ← aget (data g) i; d ← aset (data g) i (f col); Ok (set_data d g).

Definition markVoxel (x y z : Z) (g : grid) : res grid :=
  if out_of_bounds x y z g then Ok g
  else update (index x y g) (fun col => Z.lor col (full_mask z)) g.

Definition clearVoxel (x y z : Z) (g : grid) : res grid :=
  if out_of_bounds x y z g then Ok g
  else update (index x y g) (fun col => Z.land col (lnot32 (full_mask z))) g.

(** The bit loops: each iteration clears the lowest bit set. [fuel] bounds the
    iterations. *)
Fixpoint below_loop (fuel : nat) (n bit_count bit_threshold : Z) : res bool :=
  match fuel with
  | O => UB
  | S fuel =>
      if n =? 0 then Ok true
      else
        let bit_count := wrapu 32 (bit_count + 1) in
        if bit_count >? bit_threshold then Ok false
        else below_loop fuel (Z.land n (n - 1)) bit_count bit_threshold
  end.

Definition bitsBelowThreshold (n bit_threshold : Z) : res bool := below_loop 33 n 0 bit_threshold.

Fixpoint num_loop (fuel : nat) (n bit_count : Z) : res Z :=
  match fuel with
  | O => UB
  | S fuel =>
      if n =? 0 then Ok bit_count
      else num_loop fuel (Z.land n (n - 1)) (wrapu 32 (bit_count + 1))
  end.

Definition numBits (n : Z) : res Z := num_loop 33 n 0.

(** [uint16_t(col >> 16) ^ uint16_t(col)] and [col >> 16]. *)
Definition unknown_bits (col : Z) : Z := Z.lxor (wrapu 16 (Z.shiftr col 16)) (wrapu 16 col).
Definition marked_bits (col : Z) : Z := Z.shiftr col 16.

Definition status_of_bits (bits : Z) : VoxelStatus :=
  if bits <? 2 then if bits <? 1 then FREE else UNKNOWN else MARKED.

(** The static member function, on any array. *)
Definition getVoxel_in (x y z sx sy sz : Z) (d : list Z) : res VoxelStatus :=
  if (x >=? sx) || (y >=? sy) || (z >=? sz) then Ok UNKNOWN
  else
    col ← aget d (wrapu 32 (y * sx + x));
    bits ← numBits (Z.land col (full_mask z));
    Ok (status_of_bits bits).

Definition getVoxel (x y z : Z) (g : grid) : res VoxelStatus :=
  if out_of_bounds x y z g then Ok UNKNOWN
  else
    col ← aget (data g) (index x y g);
    bits ← numBits (Z.land col (full_mask z));
    Ok (status_of_bits bits).

Definition getVoxelColumn (x y unknown_threshold marked_threshold : Z) (g : grid) :
    res VoxelStatus :=
  if (x >=? size_x g) || (y >=? size_y g) then Ok UNKNOWN
  else
    col ← aget (data g) (index x y g);
    below_marked ← bitsBelowThreshold (marked_bits col) marked_threshold;
    if negb below_marked then Ok MARKED else
    below_unknown ← bitsBelowThreshold (unknown_bits col) unknown_threshold;
    if negb below_unknown then Ok UNKNOWN else Ok FREE.

(** [index] is an [int] here. *)
Definition markVoxelInMap (x y z marked_threshold : Z) (g : grid) : res (bool * grid) :=
  if out_of_bounds x y z g then Ok (false, g)
  else
    let i := wraps 32 (index x y g) in
    g ← update i (fun col => Z.lor col (full_mask z)) g;
    col ← aget (data g) i;
    below ← bitsBelowThreshold (marked_bits col) marked_threshold;
    Ok (negb below, g).

Definition clearVoxelColumn (i : Z) (g : grid) : res grid :=
  _ ← require (i <? wrapu 32 (size_x g * size_y g));
  d ← aset (data g) i 0; Ok (set_data d g).

(** Writing the two-dimensional map through the pointer. *)
Definition set_cost (i c : Z) (g : grid) : res grid :=
  match costmap g with
  | Some m => m ← aset m i c; Ok (set_costmap (Some m) g)
  | None => UB
  end.

Definition clearVoxelInMap (x y z : Z) (g : grid) : res grid :=
  if out_of_bounds x y z g then Ok g
  else
    let i := wraps 32 (index x y g) in
    g ← update i (fun col => Z.land col (lnot32 (full_mask z))) g;
    col ← aget (data g) i;
    b1 ← bitsBelowThreshold (unknown_bits col) 1;
    if negb b1 then Ok g else
    b2 ← bitsBelowThreshold (marked_bits col) 1;
    if (b2 : bool) then set_cost i 0 g else Ok g.

(** ** Actions of a line, on an offset and a mask *)

Definition MarkVoxel (offset z_mask : Z) (g : grid) : res grid :=
  update offset (fun col => Z.lor col z_mask) g.

Definition ClearVoxel (offset z_mask : Z) (g : grid) : res grid :=
  update offset (fun col => Z.land col (lnot32 z_mask)) g.

Definition ClearVoxelInMap (unknown_clear_threshold marked_clear_threshold free_cost unknown_cost : Z)
    (offset z_mask : Z) (g : grid) : res grid :=
  g ← update offset (fun col => Z.land col (lnot32 z_mask)) g;
  col ← aget (data g) offset;
  below_marked ← bitsBelowThreshold (marked_bits col) marked_clear_threshold;
  if (below_marked : bool) then
    below_unknown ← bitsBelowThreshold (unknown_bits col) unknown_clear_threshold;
    if (below_unknown : bool) then set_cost offset free_cost g else set_cost offset unknown_cost g
  else Ok g.

(** ** Lines *)

(** [GridOffset] and [ZOffset]: the two functors that move the walk, on the pair
    of the offset and the mask. *)
Inductive off : Type := GridOffset | ZOffset.

Definition apply_off (o : off) (offset_val : Z) (p : Z * Z) : Z * Z :=
  let '(offset, z_mask) := p in
  match o with
  | GridOffset => (wrapu 32 (offset + offset_val), z_mask)
  | ZOffset => (offset, if offset_val >? 0 then wrapu 32 (Z.shiftl z_mask 1) else Z.shiftr z_mask 1)
  end.

Section Lines.
Context {S : Type} (act : Z -> Z -> S -> res S).

(** The loop of [bresenham3D], [n] iterations left. The errors are [int]s,
    compared and updated as unsigned numbers. *)
Fixpoint bresenham_loop (n : nat) (off_a off_b off_c : off) (abs_da abs_db abs_dc : Z)
    (error_b error_c offset_a offset_b offset_c : Z) (p : Z * Z) (s : S) : res S :=
  match n with
  | O => act p.1 p.2 s
  | Datatypes.S n =>
      s ← act p.1 p.2 s;
      let p := apply_off off_a offset_a p in
      let error_b := wraps 32 (wrapu 32 error_b + abs_db) in
      let error_c := wraps 32 (wrapu 32 error_c + abs_dc) in
      let '(p, error_b) :=
        if wrapu 32 error_b >=? abs_da then
          (apply_off off_b offset_b p, wraps 32 (wrapu 32 error_b - abs_da))
        else (p, error_b) in
      let '(p, error_c) :=
        if wrapu 32 error_c >=? abs_da then
          (apply_off off_c offset_c p, wraps 32 (wrapu 32 error_c - abs_da))
        else (p, error_c) in
      bresenham_loop n off_a off_b off_c abs_da abs_db abs_dc error_b error_c
        offset_a offset_b offset_c p s
  end.

Definition bresenham3D (off_a off_b off_c : off) (abs_da abs_db abs_dc : Z)
    (error_b error_c offset_a offset_b offset_c : Z) (p : Z * Z) (max_length : Z) (s : S) : res S :=
  bresenham_loop (Z.to_nat (Z.min max_length abs_da)) off_a off_b off_c abs_da abs_db abs_dc
    error_b error_c offset_a offset_b offset_c p s.

(** The walk between two cells, after the coordinates were truncated. [scaled]
    gives the maximal length for the dominant displacement. *)
Definition raytrace_cells (sx : Z) (scaled : Z -> res Z) (mx my mz x1 y1 z1 ux uy uz : Z)
    (s : S) : res S :=
  dx ← chk 32 (x1 - mx); dy ← chk 32 (y1 - my); dz ← chk 32 (z1 - mz);
  abs_dx ← chk 32 (Z.abs dx); abs_dy ← chk 32 (Z.abs dy); abs_dz ← chk 32 (Z.abs dz);
  let offset_dx := sign dx in
  let offset_dy := wraps 32 (sign dy * sx) in
  let offset_dz := sign dz in
  _ ← require ((uz <? 32) && (Z.shiftl 65537 uz <? 2 ^ 32));
  let z_mask := Z.shiftl 65537 uz in
  let offset := wrapu 32 (uy * sx + ux) in
  if abs_dx >=? Z.max abs_dy abs_dz then
    len ← scaled abs_dx;
    bresenham3D GridOffset GridOffset ZOffset abs_dx abs_dy abs_dz (abs_dx / 2) (abs_dx / 2)
      offset_dx offset_dy offset_dz (offset, z_mask) len s
  else if abs_dy >=? abs_dz then
    len ← scaled abs_dy;
    bresenham3D GridOffset GridOffset ZOffset abs_dy abs_dx abs_dz (abs_dy / 2) (abs_dy / 2)
      offset_dy offset_dx offset_dz (offset, z_mask) len s
  else
    len ← scaled abs_dz;
    bresenham3D ZOffset GridOffset GridOffset abs_dz abs_dx abs_dy (abs_dz / 2) (abs_dz / 2)
      offset_dz offset_dx offset_dy (offset, z_mask) len s.

Definition f64_square (a : f64) : f64 := f64_mul a a.

Definition distance (x0 y0 z0 x1 y1 z1 : f64) : f64 :=
  f64_sqrt (f64_add (f64_add (f64_square (f64_sub x0 x1)) (f64_square (f64_sub y0 y1)))
              (f64_square (f64_sub z0 z1))).

(** The scale and the starting point. *)
Definition line_start (dist x0 y0 z0 x1 y1 z1 : f64) (max_length min_length : Z) :
    f64 * (f64 * f64 * f64) :=
  if f64_lt f64_zero dist then
    let move a0 a1 := f64_add a0 (f64_mul (f64_div (f64_sub a1 a0) dist) (f64_of_Z min_length)) in
    (f64_min (f64_of_Z 1) (f64_div (f64_of_Z max_length) dist),
     (move x0 x1, move y0 y1, move z0 z1))
  else (f64_of_Z 1, (x0, y0, z0)).

Definition raytraceLine (sx : Z) (x0 y0 z0 x1 y1 z1 : f64) (max_length min_length : Z) (s : S) :
    res S :=
  let dist := distance x0 y0 z0 x1 y1 z1 in
  udist ← f64_to_uint 32 dist;
  if udist <? min_length then Ok s else
  let '(scale, (min_x0, min_y0, min_z0)) :=
    line_start dist x0 y0 z0 x1 y1 z1 max_length min_length in
  ix1 ← f64_to_int 32 x1; mx ← f64_to_int 32 min_x0;
  iy1 ← f64_to_int 32 y1; my ← f64_to_int 32 min_y0;
  iz1 ← f64_to_int 32 z1; mz ← f64_to_int 32 min_z0;
  uz ← f64_to_uint 32 min_z0; uy ← f64_to_uint 32 min_y0; ux ← f64_to_uint 32 min_x0;
  raytrace_cells sx (fun d => f64_to_uint 32 (f64_mul scale (f64_of_Z d)))
    mx my mz ix1 iy1 iz1 ux uy uz s.
End Lines.

(** An endpoint beyond the grid; a NaN is not. *)
Definition endpoint_out (x y z : f64) (g : grid) : bool :=
  f64_le (f64_of_Z (size_x g)) x || f64_le (f64_of_Z (size_y g)) y ||
  f64_le (f64_of_Z (size_z g)) z.

Definition UINT_MAX : Z := 2 ^ 32 - 1.

Definition markVoxelLine (x0 y0 z0 x1 y1 z1 : f64) (max_length : Z) (g : grid) : res grid :=
  if endpoint_out x0 y0 z0 g || endpoint_out x1 y1 z1 g then Ok g
  else raytraceLine MarkVoxel (size_x g) x0 y0 z0 x1 y1 z1 max_length 0 g.

Definition clearVoxelLine (x0 y0 z0 x1 y1 z1 : f64) (max_length min_length : Z) (g : grid) :
    res grid :=
  if endpoint_out x0 y0 z0 g || endpoint_out x1 y1 z1 g then Ok g
  else raytraceLine ClearVoxel (size_x g) x0 y0 z0 x1 y1 z1 max_length min_length g.

Definition clearVoxelLineInMap (x0 y0 z0 x1 y1 z1 : f64) (map_2d : option (list Z))
    (unknown_threshold mark_threshold free_cost unknown_cost max_length min_length : Z)
    (g : grid) : res grid :=
  let g := set_costmap map_2d g in
  match map_2d with
  | None => clearVoxelLine x0 y0 z0 x1 y1 z1 max_length min_length g
  | Some _ =>
      if endpoint_out x0 y0 z0 g || endpoint_out x1 y1 z1 g then Ok g
      else raytraceLine (ClearVoxelInMap unknown_threshold mark_threshold free_cost unknown_cost)
             (size_x g) x0 y0 z0 x1 y1 z1 max_length min_length g
  end.

Definition sizeX (g : grid) : Z := size_x g.
Definition sizeY (g : grid) : Z := size_y g.
Definition sizeZ (g : grid) : Z := size_z g.

(** ** Specification *)

(** The status of level [z] of a column. *)
Definition level (col z : Z) : VoxelStatus :=
  match Z.testbit col (z + 16), Z.testbit col z with
  | true, true => MARKED
  | false, false => FREE
  | _, _ => UNKNOWN
  end.

(** A column is a 32-bit number whose marked levels are not known to be free. *)
Definition col_ok (col : Z) : Prop :=
  in_u 32 col /\ forall z, 0 <= z < 16 -> Z.testbit col (z + 16) = true -> Z.testbit col z = true.

Record wf (g : grid) : Prop := {
  wf_x : 0 <= size_x g;
  wf_y : 0 <= size_y g;
  wf_z : 0 <= size_z g <= 16;
  wf_size : size_x g * size_y g < 2 ^ 32;
  wf_length : Z.of_nat (length (data g)) = size_x g * size_y g;
  wf_data : Forall col_ok (data g) }.

Definition in_grid (x y z : Z) (g : grid) : Prop :=
  0 <= x < size_x g /\ 0 <= y < size_y g /\ 0 <= z < size_z g.

(** The column of a cell. *)
Definition column (x y : Z) (g : grid) : Z :=
  default 0 (data g !! Z.to_nat (y * size_x g + x)).

(** *** Bit loops *)

Lemma below_loop_spec fuel : forall n c t,
  0 <= n -> 0 <= c -> popcount n < Z.of_nat fuel -> c + popcount n < 2 ^ 32 -> c <= t ->
  below_loop fuel n c t = Ok (bool_decide (c + popcount n <= t)).
Proof.
  induction fuel as [|fuel IH]; intros n c t Hn Hc Hf Hw Ht.
  { pose proof (popcount_nonneg n). lia. }
  cbn [below_loop]. destruct (Z.eqb_spec n 0) as [->|Hne].
  { simpl. rewrite bool_decide_eq_true_2 by lia. done. }
  pose proof (popcount_nonneg n). assert (popcount n <> 0) by (by rewrite popcount_zero).
  rewrite wrapu_id by (unfold in_u; lia). rewrite Z.gtb_ltb.
  destruct (Z.ltb_spec t (c + 1)).
  - by rewrite bool_decide_eq_false_2 by lia.
  - pose proof (land_pred_range n ltac:(lia)).
    rewrite IH; rewrite ?popcount_clear by lia; try lia.
    f_equal. apply bool_decide_ext. lia.
Qed.

Lemma popcount_u32 n : in_u 32 n -> popcount n <= 32.
Proof. intros Hn. by apply (popcount_le 32). Qed.

Lemma bitsBelowThreshold_spec n t :
  in_u 32 n -> 0 <= t -> bitsBelowThreshold n t = Ok (bool_decide (popcount n <= t)).
Proof.
  intros Hn Ht. pose proof (popcount_u32 n Hn). unfold in_u in Hn.
  unfold bitsBelowThreshold. rewrite below_loop_spec; try lia. done.
Qed.

Lemma num_loop_spec fuel : forall n c,
  0 <= n -> 0 <= c -> popcount n < Z.of_nat fuel -> c + popcount n < 2 ^ 32 ->
  num_loop fuel n c = Ok (c + popcount n).
Proof.
  induction fuel as [|fuel IH]; intros n c Hn Hc Hf Hw.
  { pose proof (popcount_nonneg n). lia. }
  cbn [num_loop]. destruct (Z.eqb_spec n 0) as [->|Hne]; [simpl; f_equal; lia|].
  pose proof (popcount_nonneg n). assert (popcount n <> 0) by (by rewrite popcount_zero).
  rewrite wrapu_id by (unfold in_u; lia).
  pose proof (land_pred_range n ltac:(lia)).
  rewrite IH; rewrite ?popcount_clear by lia; try lia. f_equal. lia.
Qed.

Lemma numBits_spec n : in_u 32 n -> numBits n = Ok (popcount n).
Proof.
  intros Hn. pose proof (popcount_u32 n Hn). unfold in_u in Hn.
  unfold numBits. rewrite num_loop_spec; try lia. done.
Qed.

(** *** Masks *)

Lemma full_mask_lor z : 0 <= z < 16 -> full_mask z = Z.lor (2 ^ z) (2 ^ (z + 16)).
Proof.
  intros Hz. assert (z = 0 \/ z = 1 \/ z = 2 \/ z = 3 \/ z = 4 \/ z = 5 \/ z = 6 \/ z = 7 \/
    z = 8 \/ z = 9 \/ z = 10 \/ z = 11 \/ z = 12 \/ z = 13 \/ z = 14 \/ z = 15) as Hc by lia.
  repeat (destruct Hc as [->|Hc]; [reflexivity|]). by subst.
Qed.

Lemma full_mask_mul z : 0 <= z < 16 -> full_mask z = 65537 * 2 ^ z.
Proof.
  intros Hz. rewrite full_mask_lor by done.
  assert (Z.land (2 ^ z) (2 ^ (z + 16)) = 0) as Hl.
  { apply Z.bits_inj'. intros i Hi. rewrite Z.land_spec, !Z.pow2_bits_eqb, Z.bits_0 by lia.
    destruct (Z.eqb_spec z i), (Z.eqb_spec (z + 16) i); try done. lia. }
  pose proof (Z.add_lor_land (2 ^ z) (2 ^ (z + 16))) as Hs. rewrite Hl in Hs.
  assert (2 ^ (z + 16) = 2 ^ z * 65536) by (by rewrite Z.pow_add_r by lia). lia.
Qed.

Lemma full_mask_bits z i :
  0 <= z < 16 -> 0 <= i -> Z.testbit (full_mask z) i = (z =? i) || (z + 16 =? i).
Proof. intros. rewrite full_mask_lor, Z.lor_spec, !Z.pow2_bits_eqb by lia. done. Qed.

Lemma full_mask_range z : 0 <= z < 16 -> in_u 32 (full_mask z).
Proof.
  intros Hz. rewrite full_mask_mul by done. unfold in_u.
  pose proof (Z.pow_pos_nonneg 2 z ltac:(lia) ltac:(lia)).
  pose proof (Z.pow_le_mono_r 2 z 15 ltac:(lia) ltac:(lia)).
  change (2 ^ 15) with 32768 in *. lia.
Qed.

Lemma testbit_high n i : in_u 32 n -> 32 <= i -> Z.testbit n i = false.
Proof.
  unfold in_u. intros Hn Hi. destruct (Z.eq_dec n 0) as [->|]; [apply Z.bits_0|].
  apply Z.bits_above_log2; [lia|].
  pose proof (proj1 (Z.log2_lt_pow2 n 32 ltac:(lia)) ltac:(lia)). lia.
Qed.

Lemma land_lnot32 col m : in_u 32 col -> in_u 32 m -> Z.land col (lnot32 m) = Z.ldiff col m.
Proof.
  intros Hc Hm. unfold lnot32. change (2 ^ 32 - 1) with (Z.ones 32).
  rewrite Z.sub_nocarry_ldiff; cycle 1.
  { apply Z.bits_inj'. intros i Hi. rewrite Z.ldiff_spec, Z.bits_0.
    destruct (Z.lt_ge_cases i 32).
    - rewrite Z.ones_spec_low by lia. apply andb_false_r.
    - by rewrite (testbit_high m) by done. }
  apply Z.bits_inj'. intros i Hi. rewrite Z.land_spec, !Z.ldiff_spec.
  destruct (Z.lt_ge_cases i 32).
  - by rewrite Z.ones_spec_low by lia.
  - by rewrite (testbit_high col) by done.
Qed.

Lemma lor_range a b : in_u 32 a -> in_u 32 b -> in_u 32 (Z.lor a b).
Proof.
  unfold in_u. intros Ha Hb. split; [apply Z.lor_nonneg; lia|].
  destruct (Z.eq_dec (Z.lor a b) 0) as [->|Hne]; [lia|].
  assert (0 <= Z.lor a b) by (apply Z.lor_nonneg; lia).
  apply Z.log2_lt_pow2; [lia|]. rewrite Z.log2_lor by lia.
  assert (forall n, 0 <= n < 2 ^ 32 -> Z.log2 n < 32) as Hlog.
  { intros n Hn. destruct (Z.eq_dec n 0) as [->|]; [done|]. by apply Z.log2_lt_pow2; lia. }
  apply Z.max_lub_lt; auto.
Qed.

Lemma ldiff_range a b : in_u 32 a -> in_u 32 (Z.ldiff a b).
Proof.
  intros Ha. assert (0 <= a) by (unfold in_u in Ha; lia).
  assert (0 <= Z.ldiff a b) as Hn by (apply Z.ldiff_nonneg; lia).
  split; [done|]. destruct (Z.eq_dec (Z.ldiff a b) 0) as [->|]; [lia|].
  apply Z.log2_lt_pow2; [lia|].
  destruct (Z.lt_ge_cases (Z.log2 (Z.ldiff a b)) 32) as [|Hge]; [done|exfalso].
  pose proof (Z.bit_log2 (Z.ldiff a b) ltac:(lia)) as Hb. rewrite Z.ldiff_spec in Hb.
  by rewrite (testbit_high a) in Hb by done.
Qed.

(** What the single voxel operations do to the levels of a column. *)
Lemma level_mark col z z' :
  0 <= z < 16 -> 0 <= z' < 16 ->
  level (Z.lor col (full_mask z)) z' = if decide (z' = z) then MARKED else level col z'.
Proof.
  intros Hz Hz'. unfold level. rewrite !Z.lor_spec, !full_mask_bits by lia.
  rewrite (proj2 (Z.eqb_neq z (z' + 16))) by lia.
  rewrite (proj2 (Z.eqb_neq (z + 16) z')) by lia.
  case_decide as Hd.
  - subst. rewrite !Z.eqb_refl. by rewrite !orb_true_r.
  - rewrite (proj2 (Z.eqb_neq z z')), (proj2 (Z.eqb_neq (z + 16) (z' + 16))) by lia.
    by rewrite !orb_false_r.
Qed.

Lemma level_clear col z z' :
  0 <= z < 16 -> 0 <= z' < 16 ->
  level (Z.ldiff col (full_mask z)) z' = if decide (z' = z) then FREE else level col z'.
Proof.
  intros Hz Hz'. unfold level. rewrite !Z.ldiff_spec, !full_mask_bits by lia.
  rewrite (proj2 (Z.eqb_neq z (z' + 16))) by lia.
  rewrite (proj2 (Z.eqb_neq (z + 16) z')) by lia.
  case_decide as Hd.
  - subst. rewrite !Z.eqb_refl. by rewrite !andb_false_r.
  - rewrite (proj2 (Z.eqb_neq z z')), (proj2 (Z.eqb_neq (z + 16) (z' + 16))) by lia.
    by rewrite !andb_true_r.
Qed.

Lemma land_full_mask col z :
  0 <= z < 16 ->
  Z.land col (full_mask z) =
    Z.lor (if Z.testbit col z then 2 ^ z else 0) (if Z.testbit col (z + 16) then 2 ^ (z + 16) else 0).
Proof.
  intros Hz. apply Z.bits_inj'. intros i Hi.
  rewrite Z.land_spec, full_mask_bits, Z.lor_spec by done.
  assert (forall (b : bool) k, 0 <= k -> Z.testbit (if b then 2 ^ k else 0) i = b && (k =? i)) as Hb.
  { intros [] k Hk; [by rewrite Z.pow2_bits_eqb|apply Z.bits_0]. }
  rewrite !Hb by lia.
  destruct (Z.eqb_spec z i), (Z.eqb_spec (z + 16) i); subst;
    rewrite ?andb_true_r, ?andb_false_r, ?orb_false_r; try done. lia.
Qed.

Lemma status_level col z :
  0 <= z < 16 -> status_of_bits (popcount (Z.land col (full_mask z))) = level col z.
Proof.
  intros Hz. rewrite land_full_mask by done. unfold level.
  assert (forall k, 0 <= k -> popcount (2 ^ k) = 1) as Hone.
  { intros k Hk. rewrite <- (Z.mul_1_l (2 ^ k)). by rewrite popcount_shift. }
  destruct (Z.testbit col z), (Z.testbit col (z + 16)).
  - rewrite <- full_mask_lor, full_mask_mul, popcount_shift by lia. done.
  - by rewrite Z.lor_0_r, Hone by lia.
  - by rewrite Z.lor_0_l, Hone by lia.
  - done.
Qed.

Lemma land_mask_range col z : in_u 32 col -> in_u 32 (Z.land col z).
Proof.
  intros Hc. assert (0 <= col) by (unfold in_u in Hc; lia).
  replace (Z.land col z) with (Z.ldiff col (Z.lnot z)); [by apply ldiff_range|].
  by rewrite Z.ldiff_land, Z.lnot_involutive.
Qed.

(** *** Columns of a grid *)

(** The voxel a grid holds: unknown outside. *)
Definition voxel (x y z : Z) (g : grid) : VoxelStatus :=
  if out_of_bounds x y z g then UNKNOWN else level (column x y g) z.

Lemma out_of_bounds_false x y z g :
  0 <= x -> 0 <= y -> 0 <= z -> out_of_bounds x y z g = false <-> in_grid x y z g.
Proof.
  intros. unfold out_of_bounds, in_grid. rewrite !orb_false_iff, !Z.geb_leb, !Z.leb_gt. lia.
Qed.

Lemma index_in x y z g :
  wf g -> in_grid x y z g ->
  index x y g = y * size_x g + x /\ 0 <= y * size_x g + x < size_x g * size_y g.
Proof.
  intros [] (Hx & Hy & _). unfold index. split; [apply wrapu_id; unfold in_u|]; nia.
Qed.

(** Different columns have different offsets. *)
Lemma offset_inj sx x y x' y' :
  0 <= x < sx -> 0 <= x' < sx -> y * sx + x = y' * sx + x' -> x = x' /\ y = y'.
Proof. intros. assert (y = y') by nia. subst. lia. Qed.

Lemma column_lookup x y z g :
  wf g -> in_grid x y z g ->
  data g !! Z.to_nat (y * size_x g + x) = Some (column x y g) /\ col_ok (column x y g).
Proof.
  intros Hwf Hg. destruct (index_in x y z g Hwf Hg) as [_ Hi]. destruct Hwf.
  destruct (lookup_lt_is_Some_2 (data g) (Z.to_nat (y * size_x g + x))) as [c Hc]; [lia|].
  unfold column. rewrite Hc. split; [done|]. simpl.
  by apply (Forall_lookup_1 _ _ _ _ wf_data0 Hc).
Qed.

(** Replacing the column of a cell. *)
Lemma update_spec x y z f g :
  wf g -> in_grid x y z g -> col_ok (f (column x y g)) ->
  exists g', update (index x y g) f g = Ok g' /\ wf g' /\
    size_x g' = size_x g /\ size_y g' = size_y g /\ size_z g' = size_z g /\
    costmap g' = costmap g /\
    forall x' y' z', in_grid x' y' z' g ->
      column x' y' g' = if decide (x' = x /\ y' = y) then f (column x y g) else column x' y' g.
Proof.
  intros Hwf Hg Hf. destruct (index_in x y z g Hwf Hg) as [Hi Hr].
  destruct (column_lookup x y z g Hwf Hg) as [Hc _].
  set (i := y * size_x g + x) in *.
  exists (set_data (<[Z.to_nat i := f (column x y g)]> (data g)) g).
  assert (update (index x y g) f g = Ok (set_data (<[Z.to_nat i := f (column x y g)]> (data g)) g))
    as Hu.
  { unfold update. rewrite Hi. rewrite (proj2 (aget_ok _ _ (column x y g))) by (split; [lia|done]).
    cbn [mbind res_bind]. unfold aset. rewrite decide_True by (rewrite (wf_length _ Hwf); lia).
    done. }
  split; [exact Hu|]. split.
  { destruct Hwf. split; simpl; try done; [by rewrite length_insert|].
    by apply Forall_insert. }
  do 4 (split; [done|]). intros x' y' z' Hg'.
  unfold column at 1. simpl. destruct (index_in x' y' z' g Hwf Hg') as [_ Hr'].
  destruct (column_lookup x' y' z' g Hwf Hg') as [Hc' _].
  case_decide as Hd.
  - destruct Hd as [-> ->]. rewrite list_lookup_insert_eq; [done|].
    pose proof (wf_length _ Hwf). fold i. lia.
  - rewrite list_lookup_insert_ne; [by rewrite Hc'|]. intros He. apply Hd.
    destruct Hg as (? & _), Hg' as (? & _). apply (offset_inj (size_x g)); lia.
Qed.

#[local] Opaque numBits bitsBelowThreshold.

Lemma getVoxel_spec x y z g :
  wf g -> 0 <= x -> 0 <= y -> 0 <= z -> getVoxel x y z g = Ok (voxel x y z g).
Proof.
  intros Hwf Hx Hy Hz. unfold getVoxel, voxel.
  destruct (out_of_bounds x y z g) eqn:Ho; [done|].
  apply out_of_bounds_false in Ho; [|done..].
  destruct (index_in x y z g Hwf Ho) as [-> Hr].
  destruct (column_lookup x y z g Hwf Ho) as [Hc [Hu _]].
  assert (aget (data g) (y * size_x g + x) = Ok (column x y g)) as ->
    by (apply aget_ok; split; [lia|done]).
  rewrite bind_Ok, numBits_spec, bind_Ok by by apply land_mask_range.
  destruct Ho as (_ & _ & ?). pose proof (wf_z _ Hwf). rewrite status_level by lia.
  reflexivity.
Qed.

(** A grid that differs from [g] at most in the levels [p] selects, which have
    the status [v]. *)
Definition changed (p : Z -> Z -> Z -> bool) (v : VoxelStatus) (g g' : grid) : Prop :=
  wf g' /\ size_x g' = size_x g /\ size_y g' = size_y g /\ size_z g' = size_z g /\
  forall x y z, in_grid x y z g -> voxel x y z g' = if p x y z then v else voxel x y z g.

Definition same_cell (x y z x' y' z' : Z) : bool :=
  bool_decide (x' = x /\ y' = y /\ z' = z).

Lemma in_grid_sizes x y z g g' :
  size_x g' = size_x g -> size_y g' = size_y g -> size_z g' = size_z g ->
  in_grid x y z g <-> in_grid x y z g'.
Proof. unfold in_grid. by intros -> -> ->. Qed.

Lemma voxel_in x y z g : in_grid x y z g -> voxel x y z g = level (column x y g) z.
Proof.
  intros Hg. unfold voxel. destruct Hg as (?&?&?) eqn:Heq.
  by rewrite (proj2 (out_of_bounds_false x y z g ltac:(lia) ltac:(lia) ltac:(lia))).
Qed.

(** An update of one column that changes one level. *)
Lemma update_level x y z f v g :
  wf g -> in_grid x y z g -> col_ok (f (column x y g)) ->
  (forall z', 0 <= z' < 16 ->
     level (f (column x y g)) z' = if decide (z' = z) then v else level (column x y g) z') ->
  exists g', update (index x y g) f g = Ok g' /\ changed (same_cell x y z) v g g' /\
    costmap g' = costmap g /\ column x y g' = f (column x y g).
Proof.
  intros Hwf Hg Hf Hl.
  destruct (update_spec x y z f g Hwf Hg Hf) as (g' & Hu & Hwf' & Hsx & Hsy & Hsz & Hcm & Hcol).
  exists g'. split; [done|]. split.
  - do 4 (split; [done|]). intros x' y' z' Hg'.
    rewrite !voxel_in by (done || by apply (in_grid_sizes x' y' z' g g')).
    rewrite (Hcol x' y' z' Hg'). unfold same_cell.
    destruct Hg' as (_ & _ & Hz'). pose proof (wf_z _ Hwf).
    case_decide as Hd.
    + destruct Hd as [-> ->]. rewrite Hl by lia.
      case_decide; [by rewrite bool_decide_eq_true_2|]. by rewrite bool_decide_eq_false_2 by tauto.
    + by rewrite bool_decide_eq_false_2 by tauto.
  - split; [done|]. rewrite (Hcol x y z Hg). by rewrite decide_True.
Qed.

Lemma col_ok_mark col z : 0 <= z < 16 -> col_ok col -> col_ok (Z.lor col (full_mask z)).
Proof.
  intros Hz [Hu Hb]. split; [apply lor_range; [done|by apply full_mask_range]|].
  intros z' Hz'. rewrite !Z.lor_spec, !full_mask_bits by lia.
  rewrite (proj2 (Z.eqb_neq z (z' + 16))), (proj2 (Z.eqb_neq (z + 16) z')) by lia.
  rewrite orb_false_l, orb_false_r. intros [?|Heq]%orb_true_iff; [by rewrite Hb|].
  bool_arith. rewrite (proj2 (Z.eqb_eq z z')) by lia. apply orb_true_r.
Qed.

Lemma col_ok_clear col z : 0 <= z < 16 -> col_ok col -> col_ok (Z.ldiff col (full_mask z)).
Proof.
  intros Hz [Hu Hb]. split; [by apply ldiff_range|].
  intros z' Hz'. rewrite !Z.ldiff_spec, !full_mask_bits by lia.
  rewrite (proj2 (Z.eqb_neq z (z' + 16))), (proj2 (Z.eqb_neq (z + 16) z')) by lia.
  rewrite orb_false_l, orb_false_r. intros [? Hne]%andb_true_iff. bool_arith.
  rewrite Hb by done. rewrite (proj2 (Z.eqb_neq z z')) by lia. done.
Qed.

Lemma mark_mask x y z g :
  wf g -> in_grid x y z g ->
  exists g', update (index x y g) (fun col => Z.lor col (full_mask z)) g = Ok g' /\
    changed (same_cell x y z) MARKED g g' /\ costmap g' = costmap g /\
    column x y g' = Z.lor (column x y g) (full_mask z).
Proof.
  intros Hwf Hg. pose proof (wf_z _ Hwf). assert (0 <= z < size_z g) by apply Hg.
  apply (update_level x y z); [done|done| |].
  - apply col_ok_mark; [lia|]. by apply (column_lookup x y z).
  - intros z' Hz'. apply level_mark; lia.
Qed.

Lemma clear_mask x y z g :
  wf g -> in_grid x y z g ->
  exists g', update (index x y g) (fun col => Z.land col (lnot32 (full_mask z))) g = Ok g' /\
    changed (same_cell x y z) FREE g g' /\ costmap g' = costmap g /\
    column x y g' = Z.ldiff (column x y g) (full_mask z).
Proof.
  intros Hwf Hg. pose proof (wf_z _ Hwf). assert (0 <= z < size_z g) by apply Hg.
  destruct (column_lookup x y z g Hwf Hg) as [_ Hcol].
  assert (in_u 32 (full_mask z)) by (apply full_mask_range; lia).
  rewrite <- land_lnot32 by (done || apply Hcol).
  apply (update_level x y z); [done|done| |]; rewrite land_lnot32 by (done || apply Hcol).
  - apply col_ok_clear; [lia|done].
  - intros z' Hz'. apply level_clear; lia.
Qed.

Lemma changed_none v g : wf g -> changed (fun _ _ _ => false) v g g.
Proof. intros. split; [done|]. by do 3 (split; [done|]).
Qed.

(** *** Whole columns *)

(** How many of the 16 levels of a column have a status. *)
Definition levels_with (st : VoxelStatus) (col : Z) : Z :=
  count_bits 16 (fun z => bool_decide (level col z = st)).

Lemma popcount_marked col : col_ok col -> popcount (marked_bits col) = levels_with MARKED col.
Proof.
  intros [Hu Hb]. unfold marked_bits, levels_with.
  rewrite (popcount_bits 16); cycle 1.
  { rewrite Z.shiftr_div_pow2 by lia. unfold in_u in Hu.
    split; [apply Z.div_pos; lia|]. apply Z.div_lt_upper_bound; lia. }
  apply count_bits_ext. intros z Hz. rewrite Z.shiftr_spec by lia. unfold level.
  destruct (Z.testbit col (z + 16)) eqn:H1; [by rewrite Hb|]. by destruct (Z.testbit col z).
Qed.

Lemma wrapu_bits w n i : 0 <= w -> 0 <= i -> Z.testbit (wrapu w n) i = (i <? w) && Z.testbit n i.
Proof.
  intros Hw Hi. unfold wrapu. destruct (Z.ltb_spec i w).
  - by rewrite Z.mod_pow2_bits_low.
  - by rewrite Z.mod_pow2_bits_high by lia.
Qed.

Lemma unknown_bits_range col : in_u 16 (unknown_bits col).
Proof.
  unfold unknown_bits.
  assert (forall n, 0 <= n -> (forall i, 16 <= i -> Z.testbit n i = false) -> in_u 16 n) as Hr.
  { intros n Hn Hi. split; [done|]. destruct (Z.eq_dec n 0) as [->|]; [done|].
    apply Z.log2_lt_pow2; [lia|]. destruct (Z.lt_ge_cases (Z.log2 n) 16) as [|Hge]; [done|].
    apply Hi in Hge. by rewrite Z.bit_log2 in Hge by lia. }
  apply Hr.
  - apply Z.lxor_nonneg. pose proof (wrapu_range 16 (Z.shiftr col 16) ltac:(lia)) as H1.
    pose proof (wrapu_range 16 col ltac:(lia)) as H2. unfold in_u in *. lia.
  - intros i Hi. rewrite Z.lxor_spec, !wrapu_bits by lia.
    by rewrite (proj2 (Z.ltb_ge i 16)) by lia.
Qed.

Lemma popcount_unknown col : popcount (unknown_bits col) = levels_with UNKNOWN col.
Proof.
  unfold levels_with. rewrite (popcount_bits 16) by apply unknown_bits_range.
  apply count_bits_ext. intros z Hz. unfold unknown_bits, level.
  rewrite Z.lxor_spec, !wrapu_bits, (proj2 (Z.ltb_lt z 16)), Z.shiftr_spec by lia. simpl.
  by destruct (Z.testbit col (z + 16)), (Z.testbit col z).
Qed.

Lemma below_marked_spec col t :
  col_ok col -> 0 <= t ->
  bitsBelowThreshold (marked_bits col) t = Ok (bool_decide (levels_with MARKED col <= t)).
Proof.
  intros Hc Ht. rewrite bitsBelowThreshold_spec, popcount_marked; try done.
  destruct Hc as [Hu _]. unfold marked_bits, in_u in *. rewrite Z.shiftr_div_pow2 by lia.
  split; [apply Z.div_pos; lia|]. apply Z.div_lt_upper_bound; lia.
Qed.

Lemma below_unknown_spec col t :
  0 <= t ->
  bitsBelowThreshold (unknown_bits col) t = Ok (bool_decide (levels_with UNKNOWN col <= t)).
Proof.
  intros Ht. rewrite bitsBelowThreshold_spec, popcount_unknown; try done.
  pose proof (unknown_bits_range col). unfold in_u in *. lia.
Qed.

(** *** Properties *)

(** Marking and clearing are the writes of a three-dimensional map that
    [getVoxel] reads. On a well formed grid the operations are defined for any
    coordinates, touch nothing outside the grid, change exactly the addressed voxel
    (to MARKED or FREE) and keep the grid well formed; reading outside gives
    UNKNOWN. A column that was reset is UNKNOWN at every level. *)
Theorem voxel_set_get x y z g (Hwf : wf g) (Hx : 0 <= x) (Hy : 0 <= y) (Hz : 0 <= z) :
  getVoxel x y z g = Ok (voxel x y z g) /\
  exists g1 g2, markVoxel x y z g = Ok g1 /\ clearVoxel x y z g = Ok g2 /\
    (if out_of_bounds x y z g then g1 = g /\ g2 = g
     else changed (same_cell x y z) MARKED g g1 /\ changed (same_cell x y z) FREE g g2) /\
    wf (reset g) /\ voxel x y z (reset g) = UNKNOWN.
Proof.
  split; [by apply getVoxel_spec|].
  assert (wf (reset g) /\ voxel x y z (reset g) = UNKNOWN) as Hreset.
  { assert (wf (reset g)) as Hr.
    { destruct Hwf. split; simpl; try done.
      - assert (0 <= size_x g * size_y g) by (apply Z.mul_nonneg_nonneg; lia).
        unfold unknown_data. rewrite length_replicate, wrapu_id by (unfold in_u; lia). lia.
      - apply Forall_replicate. split; [by solve_decide|].
        intros z' Hz' Hb. change unknown_col with (Z.ones 16) in *.
        by rewrite Z.ones_spec_high in Hb by lia. }
    split; [done|]. unfold voxel. destruct (out_of_bounds x y z (reset g)) eqn:Ho; [done|].
    apply out_of_bounds_false in Ho; [|done..].
    destruct (column_lookup x y z (reset g) Hr Ho) as [Hc _].
    change (data (reset g)) with
      (replicate (Z.to_nat (wrapu 32 (size_x g * size_y g))) unknown_col) in Hc.
    apply lookup_replicate in Hc as [Heq _]. rewrite Heq.
    destruct Ho as (_ & _ & Hz'). change (size_z (reset g)) with (size_z g) in Hz'.
    pose proof (wf_z _ Hwf).
    unfold level. change unknown_col with (Z.ones 16).
    by rewrite Z.ones_spec_high, Z.ones_spec_low by lia. }
  unfold markVoxel, clearVoxel. destruct (out_of_bounds x y z g) eqn:Ho.
  { exists g, g. by repeat (split; [done|]). }
  apply out_of_bounds_false in Ho; [|done..].
  destruct (mark_mask x y z g Hwf Ho) as (g1 & -> & Hg1 & _).
  destruct (clear_mask x y z g Hwf Ho) as (g2 & -> & Hg2 & _).
  exists g1, g2. by repeat (split; [done|]).
Qed.

(** The status of a column counts its levels: MARKED when more levels than the
    marked threshold are marked, otherwise UNKNOWN when more than the unknown
    threshold are unknown, otherwise FREE. The bit counting loops always end. *)
Theorem voxel_column x y z tu tm g (Hwf : wf g) (Hin : in_grid x y z g)
  (Htu : 0 <= tu) (Htm : 0 <= tm) :
  getVoxelColumn x y tu tm g =
    Ok (if tm <? levels_with MARKED (column x y g) then MARKED
        else if tu <? levels_with UNKNOWN (column x y g) then UNKNOWN else FREE).
Proof.
  destruct (index_in x y z g Hwf Hin) as [Hi Hr].
  destruct (column_lookup x y z g Hwf Hin) as [Hc Hok].
  unfold getVoxelColumn. destruct Hin as (Hx & Hy & _).
  rewrite !Z.geb_leb, (proj2 (Z.leb_gt (size_x g) x)), (proj2 (Z.leb_gt (size_y g) y)) by lia.
  cbn [orb]. rewrite Hi.
  assert (aget (data g) (y * size_x g + x) = Ok (column x y g)) as ->
    by (apply aget_ok; split; [lia|done]).
  rewrite bind_Ok, below_marked_spec, bind_Ok by done.
  destruct (Z.ltb_spec tm (levels_with MARKED (column x y g))).
  { by rewrite bool_decide_eq_false_2 by lia. }
  rewrite bool_decide_eq_true_2 by lia. cbn [negb].
  rewrite below_unknown_spec, bind_Ok by done.
  destruct (Z.ltb_spec tu (levels_with UNKNOWN (column x y g))).
  - by rewrite bool_decide_eq_false_2 by lia.
  - by rewrite bool_decide_eq_true_2 by lia.
Qed.

(** ** The discrete line *)

(** Run an action over a list of offsets and masks. *)
Fixpoint visit {S} (act : Z -> Z -> S -> res S) (l : list (Z * Z)) (s : S) : res S :=
  match l with
  | [] => Ok s
  | p :: l => s ← act p.1 p.2 s; visit act l s
  end.

Section Walk.
Context {S : Type} (act : Z -> Z -> S -> res S).
Context (off_a off_b off_c : off) (da db dc oa ob oc : Z) (enc : Z -> Z -> Z -> Z * Z).
Hypothesis Hda : 0 <= da < 2 ^ 31.
Hypothesis Hdb : 0 <= db <= da.
Hypothesis Hdc : 0 <= dc <= da.
Hypothesis Ha : forall na nb nc, 0 <= na < da -> 0 <= nb <= db -> 0 <= nc <= dc ->
  apply_off off_a oa (enc na nb nc) = enc (na + 1) nb nc.
Hypothesis Hb : forall na nb nc, 0 <= na <= da -> 0 <= nb < db -> 0 <= nc <= dc ->
  apply_off off_b ob (enc na nb nc) = enc na (nb + 1) nc.
Hypothesis Hc : forall na nb nc, 0 <= na <= da -> 0 <= nb <= db -> 0 <= nc < dc ->
  apply_off off_c oc (enc na nb nc) = enc na nb (nc + 1).

Definition walk_at (i : Z) : Z * Z := enc i (steps da db i) (steps da dc i).

Lemma loop_visit n : forall i s,
  0 <= i -> i + Z.of_nat n <= da ->
  bresenham_loop act n off_a off_b off_c da db dc (err da db i) (err da dc i) oa ob oc
    (walk_at i) s = visit act (map walk_at (seqZ i (Z.of_nat n + 1))) s.
Proof.
  induction n as [|n IH]; intros i s Hi Hn.
  - change (seqZ i (Z.of_nat 0 + 1)) with [0 + i]. rewrite Z.add_0_l.
    cbn [map visit bresenham_loop]. symmetry. apply bind_ret.
  - rewrite seqZ_cons by lia. cbn [map visit bresenham_loop].
    destruct (act _ _ s) as [s'| |]; [|done..]. rewrite !bind_Ok.
    assert (0 < da) as Hpos by lia.
    replace (Z.pred (Z.of_nat (Datatypes.S n) + 1)) with (Z.of_nat n + 1) by lia.
    change (Z.succ i) with (i + 1). rewrite <- IH by lia.
    pose proof (steps_range da db i Hdb ltac:(lia)) as Hrb.
    pose proof (steps_range da dc i Hdc ltac:(lia)) as Hrc.
    pose proof (steps_range da db (i + 1) Hdb ltac:(lia)) as Hrb'.
    pose proof (steps_range da dc (i + 1) Hdc ltac:(lia)) as Hrc'.
    destruct (error_update da db i ltac:(lia) Hpos Hdb) as (Hub & Heb & Hsb).
    destruct (error_update da dc i ltac:(lia) Hpos Hdc) as (Huc & Hec & Hsc).
    rewrite Hub, Huc, !Z.geb_leb in *. unfold walk_at.
    rewrite Ha by lia.
    destruct (steps_succ da db i Hpos Hdb) as [(Hlb & Htb & Hzb)|(Hlb & Htb & Hzb)].
    + rewrite (proj2 (Z.leb_le _ _) Hlb), Hb by lia.
      destruct (steps_succ da dc i Hpos Hdc) as [(Hlc & Htc & Hzc)|(Hlc & Htc & Hzc)].
      * rewrite (proj2 (Z.leb_le _ _) Hlc), Hc by lia.
        by rewrite Hsb, Hsc, Htb, Htc, Hzb, Hzc.
      * rewrite (proj2 (Z.leb_gt _ _) Hlc). by rewrite Hsb, Hec, Htb, Htc, Hzb, Hzc.
    + rewrite (proj2 (Z.leb_gt _ _) Hlb).
      destruct (steps_succ da dc i Hpos Hdc) as [(Hlc & Htc & Hzc)|(Hlc & Htc & Hzc)].
      * rewrite (proj2 (Z.leb_le _ _) Hlc), Hc by lia.
        by rewrite Heb, Hsc, Htb, Htc, Hzb, Hzc.
      * rewrite (proj2 (Z.leb_gt _ _) Hlc). by rewrite Heb, Hec, Htb, Htc, Hzb, Hzc.
Qed.

Lemma bresenham_visit len s :
  0 <= len ->
  bresenham3D act off_a off_b off_c da db dc (da / 2) (da / 2) oa ob oc (enc 0 0 0) len s =
    visit act (map walk_at (seqZ 0 (Z.min len da + 1))) s.
Proof.
  intros Hlen. unfold bresenham3D.
  destruct (Z.eq_dec da 0) as [Hz|].
  - replace (Z.min len da) with 0 by lia. change (seqZ 0 (0 + 1)) with [0].
    change (Z.to_nat 0) with 0%nat. cbn [map visit bresenham_loop]. unfold walk_at.
    rewrite !steps_start by lia. symmetry. apply bind_ret.
  - replace (Z.min len da + 1) with (Z.of_nat (Z.to_nat (Z.min len da)) + 1) by lia.
    rewrite <- (loop_visit _ 0) by lia.
    unfold walk_at. by rewrite !steps_start, !err_start by lia.
Qed.
End Walk.

(** The cells of a line: the dominant displacement is [da], and every axis
    advances in proportion, with the rounding of the walk. *)
Definition dominant (x0 y0 z0 x1 y1 z1 : Z) : Z :=
  Z.max (Z.abs (x1 - x0)) (Z.max (Z.abs (y1 - y0)) (Z.abs (z1 - z0))).

Definition line_cell (x0 y0 z0 x1 y1 z1 i : Z) : Z * Z * Z :=
  let da := dominant x0 y0 z0 x1 y1 z1 in
  (coordinate da x0 x1 i, coordinate da y0 y1 i, coordinate da z0 z1 i).

Definition line (x0 y0 z0 x1 y1 z1 len : Z) : list (Z * Z * Z) :=
  map (line_cell x0 y0 z0 x1 y1 z1)
    (seqZ 0 (Z.min len (dominant x0 y0 z0 x1 y1 z1) + 1)).

(** The offset and mask of a cell. *)
Definition encode (sx : Z) (c : Z * Z * Z) : Z * Z :=
  let '(x, y, z) := c in (y * sx + x, 65537 * 2 ^ z).

(** *** Moving between cells of the grid *)

Section Moves.
Context (sx sy : Z) (Hsize : sx * sy < 2 ^ 32).

Lemma cell_offset x y : 0 <= x < sx -> 0 <= y < sy -> in_u 32 (y * sx + x).
Proof. intros. unfold in_u. nia. Qed.

Lemma move_x x x' y m :
  Z.abs (x' - x) = 1 -> 0 <= x' < sx -> 0 <= y < sy ->
  apply_off GridOffset (x' - x) (y * sx + x, m) = (y * sx + x', m).
Proof.
  intros Hd Hx Hy. simpl. f_equal.
  replace (y * sx + x + (x' - x)) with (y * sx + x') by lia.
  apply wrapu_id. by apply cell_offset.
Qed.

Lemma move_y x y y' m :
  0 <= x < sx -> 0 <= y' < sy ->
  apply_off GridOffset (wraps 32 ((y' - y) * sx)) (y * sx + x, m) = (y' * sx + x, m).
Proof.
  intros Hx Hy. simpl. f_equal.
  destruct (wraps_mod 32 ((y' - y) * sx) ltac:(lia)) as [k ->].
  replace (y * sx + x + ((y' - y) * sx + k * 2 ^ 32)) with (y' * sx + x + k * 2 ^ 32) by lia.
  unfold wrapu. rewrite Z.mod_add by lia. apply wrapu_id. by apply cell_offset.
Qed.

Lemma mask_range z : 0 <= z < 16 -> in_u 32 (65537 * 2 ^ z).
Proof. intros. rewrite <- full_mask_mul by done. by apply full_mask_range. Qed.

Lemma move_z o z z' :
  Z.abs (z' - z) = 1 -> 0 <= z < 16 -> 0 <= z' < 16 ->
  apply_off ZOffset (z' - z) (o, 65537 * 2 ^ z) = (o, 65537 * 2 ^ z').
Proof.
  intros Hd Hz Hz'. unfold apply_off. f_equal. rewrite Z.gtb_ltb.
  destruct (Z.ltb_spec 0 (z' - z)).
  - replace z' with (Z.succ z) by lia. rewrite Z.shiftl_mul_pow2, Z.pow_succ_r by lia.
    replace (65537 * 2 ^ z * 2 ^ 1) with (65537 * (2 * 2 ^ z)) by lia.
    apply wrapu_id. rewrite <- Z.pow_succ_r by lia. apply mask_range. lia.
  - replace z with (Z.succ z') by lia. rewrite Z.shiftr_div_pow2, Z.pow_succ_r by lia.
    replace (65537 * (2 * 2 ^ z')) with (65537 * 2 ^ z' * 2 ^ 1) by lia.
    by rewrite Z.div_mul by lia.
Qed.
End Moves.

(** Cells the walk may stand on. *)
Definition inside (sx sy sz x y z : Z) : Prop := 0 <= x < sx /\ 0 <= y < sy /\ 0 <= z < sz.

Section Trace.
Context {S : Type} (act : Z -> Z -> S -> res S).
Context (sx sy sz x0 y0 z0 x1 y1 z1 : Z).
Hypothesis Hsize : sx * sy < 2 ^ 32.
Hypothesis Hsz : sz <= 16.
Hypothesis H0 : inside sx sy sz x0 y0 z0.
Hypothesis H1 : inside sx sy sz x1 y1 z1.
Hypothesis Hint : in_s 32 x0 /\ in_s 32 y0 /\ in_s 32 x1 /\ in_s 32 y1.

(** The position after [nx], [ny], [nz] steps on the axes. *)
Definition at_steps (nx ny nz : Z) : Z * Z :=
  encode sx (x0 + sign (x1 - x0) * nx, y0 + sign (y1 - y0) * ny, z0 + sign (z1 - z0) * nz).

Lemma at_steps_start : at_steps 0 0 0 = encode sx (x0, y0, z0).
Proof. unfold at_steps. by rewrite !Z.mul_0_r, !Z.add_0_r. Qed.

Lemma step_x nx ny nz :
  0 <= nx < Z.abs (x1 - x0) -> 0 <= ny <= Z.abs (y1 - y0) -> 0 <= nz <= Z.abs (z1 - z0) ->
  apply_off GridOffset (sign (x1 - x0)) (at_steps nx ny nz) = at_steps (nx + 1) ny nz.
Proof.
  destruct H0 as (?&?&?), H1 as (?&?&?). intros Hnx Hny Hnz. unfold at_steps, encode.
  pose proof (on_way x0 x1 (nx + 1) ltac:(lia)). pose proof (on_way y0 y1 ny Hny).
  rewrite sign_abs in * by lia. rewrite Z.add_assoc in *.
  pose proof (sign_unit (x1 - x0)).
  etransitivity; [|apply (move_x sx sy Hsize (x0 + sign (x1 - x0) * nx)); lia].
  f_equal; [lia|]. f_equal. lia.
Qed.

Lemma step_y nx ny nz :
  0 <= nx <= Z.abs (x1 - x0) -> 0 <= ny < Z.abs (y1 - y0) -> 0 <= nz <= Z.abs (z1 - z0) ->
  apply_off GridOffset (wraps 32 (sign (y1 - y0) * sx)) (at_steps nx ny nz) =
    at_steps nx (ny + 1) nz.
Proof.
  destruct H0 as (?&?&?), H1 as (?&?&?). intros Hnx Hny Hnz. unfold at_steps, encode.
  pose proof (on_way x0 x1 nx Hnx). pose proof (on_way y0 y1 (ny + 1) ltac:(lia)).
  rewrite sign_abs in * by lia. rewrite Z.add_assoc in *.
  etransitivity; [|apply (move_y sx sy Hsize _ (y0 + sign (y1 - y0) * ny)); lia].
  f_equal; [do 2 f_equal; lia|]. f_equal. lia.
Qed.

Lemma step_z nx ny nz :
  0 <= nx <= Z.abs (x1 - x0) -> 0 <= ny <= Z.abs (y1 - y0) -> 0 <= nz < Z.abs (z1 - z0) ->
  apply_off ZOffset (sign (z1 - z0)) (at_steps nx ny nz) = at_steps nx ny (nz + 1).
Proof.
  destruct H0 as (?&?&?), H1 as (?&?&?). intros Hnx Hny Hnz. unfold at_steps, encode.
  pose proof (on_way z0 z1 nz ltac:(lia)). pose proof (on_way z0 z1 (nz + 1) ltac:(lia)).
  rewrite sign_abs in * by lia. rewrite Z.add_assoc in *.
  pose proof (sign_unit (z1 - z0)).
  etransitivity; [|apply (move_z _ (z0 + sign (z1 - z0) * nz)); lia].
  f_equal. lia.
Qed.

Lemma line_encode len f :
  let da := dominant x0 y0 z0 x1 y1 z1 in
  0 <= len ->
  (forall i, 0 <= i <= da -> f i = at_steps (steps da (Z.abs (x1 - x0)) i)
    (steps da (Z.abs (y1 - y0)) i) (steps da (Z.abs (z1 - z0)) i)) ->
  map f (seqZ 0 (Z.min len da + 1)) = map (encode sx) (line x0 y0 z0 x1 y1 z1 len).
Proof.
  intros da Hlen Hf. unfold line. rewrite map_map. apply map_ext_in.
  intros i Hi. apply list_elem_of_In, elem_of_seqZ in Hi. rewrite Hf by lia. done.
Qed.

(** The walk between two cells of the grid visits exactly the line. *)
Lemma raytrace_cells_visit scaled len s :
  scaled (dominant x0 y0 z0 x1 y1 z1) = Ok len -> 0 <= len ->
  raytrace_cells act sx scaled x0 y0 z0 x1 y1 z1 x0 y0 z0 s =
    visit act (map (encode sx) (line x0 y0 z0 x1 y1 z1 len)) s.
Proof.
  intros Hs Hlen. pose proof step_x as Hx. pose proof step_y as Hy. pose proof step_z as Hz.
  destruct H0 as (?&?&?), H1 as (?&?&?). destruct Hint as (?&?&?&?). unfold in_s in *.
  unfold raytrace_cells.
  rewrite (chk_in 32 (x1 - x0)), bind_Ok by (unfold in_s; lia).
  rewrite (chk_in 32 (y1 - y0)), bind_Ok by (unfold in_s; lia).
  rewrite (chk_in 32 (z1 - z0)), bind_Ok by (unfold in_s; lia).
  rewrite (chk_in 32 (Z.abs (x1 - x0))), bind_Ok by (unfold in_s; lia).
  rewrite (chk_in 32 (Z.abs (y1 - y0))), bind_Ok by (unfold in_s; lia).
  rewrite (chk_in 32 (Z.abs (z1 - z0))), bind_Ok by (unfold in_s; lia).
  pose proof (mask_range z0 ltac:(lia)) as Hm.
  rewrite Z.shiftl_mul_pow2 by lia. unfold in_u in Hm.
  rewrite (proj2 (Z.ltb_lt z0 32)), (proj2 (Z.ltb_lt (65537 * 2 ^ z0) (2 ^ 32))) by lia.
  cbn [andb require]. rewrite bind_Ok.
  rewrite (wrapu_id 32 (y0 * sx + x0)) by by apply (cell_offset sx sy Hsize).
  change (y0 * sx + x0, 65537 * 2 ^ z0) with (encode sx (x0, y0, z0)).
  rewrite <- at_steps_start, !Z.geb_leb. unfold dominant in *.
  set (dx := Z.abs (x1 - x0)) in *. set (dy := Z.abs (y1 - y0)) in *.
  set (dz := Z.abs (z1 - z0)) in *.
  assert (0 <= dx < 2 ^ 31 /\ 0 <= dy < 2 ^ 31 /\ 0 <= dz < 2 ^ 31) as (?&?&?) by lia.
  destruct (Z.leb_spec (Z.max dy dz) dx); [|destruct (Z.leb_spec dz dy)].
  - replace (Z.max dx (Z.max dy dz)) with dx in Hs by lia. rewrite Hs, bind_Ok.
    rewrite (bresenham_visit act _ _ _ dx dy dz _ _ _ at_steps) by (lia || auto).
    rewrite <- (line_encode len (walk_at dx dy dz at_steps)); [|done|]; unfold dominant;
      fold dx dy dz; replace (Z.max dx (Z.max dy dz)) with dx by lia; [done|].
    intros i Hi. unfold walk_at. by rewrite steps_self.
  - replace (Z.max dx (Z.max dy dz)) with dy in Hs by lia. rewrite Hs, bind_Ok.
    rewrite (bresenham_visit act _ _ _ dy dx dz _ _ _ (fun a b c => at_steps b a c))
      by (lia || auto).
    rewrite <- (line_encode len (walk_at dy dx dz (fun a b c => at_steps b a c))); [|done|];
      unfold dominant; fold dx dy dz; replace (Z.max dx (Z.max dy dz)) with dy by lia; [done|].
    intros i Hi. unfold walk_at. by rewrite (steps_self dy).
  - replace (Z.max dx (Z.max dy dz)) with dz in Hs by lia. rewrite Hs, bind_Ok.
    rewrite (bresenham_visit act _ _ _ dz dx dy _ _ _ (fun a b c => at_steps b c a))
      by (lia || auto).
    rewrite <- (line_encode len (walk_at dz dx dy (fun a b c => at_steps b c a))); [|done|];
      unfold dominant; fold dx dy dz; replace (Z.max dx (Z.max dy dz)) with dz by lia; [done|].
    intros i Hi. unfold walk_at. by rewrite (steps_self dz).
Qed.
End Trace.

(** ** Lines between points *)

Record point : Type := mk_point { px : f64; py : f64; pz : f64 }.

Definition point_cell (p : point) : option (Z * Z * Z) :=
  match f64_trunc (px p), f64_trunc (py p), f64_trunc (pz p) with
  | Some x, Some y, Some z => Some (x, y, z)
  | _, _, _ => None
  end.

(** The walk from [p0] to [p1] starts in the cell [c0], heads for the cell [c1]
    and makes at most [len] steps, all conversions being defined. *)
Record traced (sx sy sz : Z) (p0 p1 : point) (max_length min_length : Z)
    (x0 y0 z0 x1 y1 z1 len : Z) : Prop := {
  tr_dist : exists u, f64_to_uint 32 (distance (px p0) (py p0) (pz p0) (px p1) (py p1) (pz p1)) =
      Ok u /\ min_length <= u;
  tr_start : let '(scale, (a, b, c)) := line_start
      (distance (px p0) (py p0) (pz p0) (px p1) (py p1) (pz p1))
      (px p0) (py p0) (pz p0) (px p1) (py p1) (pz p1) max_length min_length in
    point_cell (mk_point a b c) = Some (x0, y0, z0) /\
    f64_to_uint 32 (f64_mul scale (f64_of_Z (dominant x0 y0 z0 x1 y1 z1))) = Ok len;
  tr_end : point_cell p1 = Some (x1, y1, z1);
  tr_inside0 : inside sx sy sz x0 y0 z0;
  tr_inside1 : inside sx sy sz x1 y1 z1;
  tr_int : in_s 32 x0 /\ in_s 32 y0 /\ in_s 32 x1 /\ in_s 32 y1 }.

Lemma point_cell_ok p x y z :
  point_cell p = Some (x, y, z) ->
  f64_trunc (px p) = Some x /\ f64_trunc (py p) = Some y /\ f64_trunc (pz p) = Some z.
Proof. unfold point_cell. intros. repeat case_match; by simplify_eq. Qed.

Lemma raytraceLine_visit {S} (act : Z -> Z -> S -> res S) sx sy sz p0 p1 max_length min_length
    x0 y0 z0 x1 y1 z1 len s :
  sx * sy < 2 ^ 32 -> sz <= 16 ->
  traced sx sy sz p0 p1 max_length min_length x0 y0 z0 x1 y1 z1 len ->
  raytraceLine act sx (px p0) (py p0) (pz p0) (px p1) (py p1) (pz p1) max_length min_length s =
    visit act (map (encode sx) (line x0 y0 z0 x1 y1 z1 len)) s.
Proof.
  intros Hsize Hsz [(u & Hu & Hmin) Hstart Hend Hi0 Hi1 Hint].
  unfold raytraceLine. rewrite Hu, bind_Ok. rewrite (proj2 (Z.ltb_ge _ _)) by lia.
  destruct (line_start _ _ _ _ _ _ _ _ _) as [scale [[a b] c]].
  destruct Hstart as [Hs Hlen].
  apply point_cell_ok in Hs as (Ha & Hb & Hc), Hend as (Hx & Hy & Hz). cbn [px py pz] in *.
  destruct Hint as (?&?&?&?).
  assert (in_s 32 z0 /\ in_s 32 z1) as [??]
    by (destruct Hi0 as (?&?&?), Hi1 as (?&?&?); unfold in_s; lia).
  assert (in_u 32 x0 /\ in_u 32 y0 /\ in_u 32 z0) as (?&?&?)
    by (destruct Hi0 as (?&?&?); unfold in_s, in_u in *; lia).
  rewrite (proj2 (f64_to_int_ok 32 (px p1) x1)), bind_Ok by done.
  rewrite (proj2 (f64_to_int_ok 32 a x0)), bind_Ok by done.
  rewrite (proj2 (f64_to_int_ok 32 (py p1) y1)), bind_Ok by done.
  rewrite (proj2 (f64_to_int_ok 32 b y0)), bind_Ok by done.
  rewrite (proj2 (f64_to_int_ok 32 (pz p1) z1)), bind_Ok by done.
  rewrite (proj2 (f64_to_int_ok 32 c z0)), bind_Ok by done.
  rewrite (proj2 (f64_to_uint_ok 32 c z0)), bind_Ok by done.
  rewrite (proj2 (f64_to_uint_ok 32 b y0)), bind_Ok by done.
  rewrite (proj2 (f64_to_uint_ok 32 a x0)), bind_Ok by done.
  apply (raytrace_cells_visit act sx sy sz x0 y0 z0 x1 y1 z1); try done.
  apply f64_to_uint_ok in Hlen as [_ [? _]]. done.
Qed.

Lemma line_inside sx sy sz x0 y0 z0 x1 y1 z1 len x y z :
  inside sx sy sz x0 y0 z0 -> inside sx sy sz x1 y1 z1 -> 0 <= len ->
  (x, y, z) ∈ line x0 y0 z0 x1 y1 z1 len -> inside sx sy sz x y z.
Proof.
  intros (?&?&?) (?&?&?) Hlen. unfold line.
  intros (i & [= -> -> ->] & Hi)%list_elem_of_fmap. apply elem_of_seqZ in Hi.
  set (da := dominant x0 y0 z0 x1 y1 z1) in *. unfold dominant in *.
  pose proof (coordinate_between da x0 x1 i ltac:(lia) ltac:(lia)).
  pose proof (coordinate_between da y0 y1 i ltac:(lia) ltac:(lia)).
  pose proof (coordinate_between da z0 z1 i ltac:(lia) ltac:(lia)).
  unfold inside. lia.
Qed.

(** An action that sets the level of its cell, over a list of cells. *)
Lemma if_bool_decide_ext {A} (P Q : Prop) `{Decision P, Decision Q} (a b : A) :
  (P <-> Q) -> (if bool_decide P then a else b) = if bool_decide Q then a else b.
Proof. intros HPQ. by rewrite (bool_decide_ext P Q HPQ). Qed.

Lemma visit_changed act v g0 :
  (forall x y z g, wf g -> in_grid x y z g -> size_x g = size_x g0 -> size_y g = size_y g0 ->
     size_z g = size_z g0 -> exists g', act (y * size_x g + x) (65537 * 2 ^ z) g = Ok g' /\
       changed (same_cell x y z) v g g') ->
  forall l g, wf g -> size_x g = size_x g0 -> size_y g = size_y g0 -> size_z g = size_z g0 ->
    Forall (fun '(x, y, z) => in_grid x y z g) l ->
    exists g', visit act (map (encode (size_x g)) l) g = Ok g' /\
      changed (fun x y z => bool_decide ((x, y, z) ∈ l)) v g g'.
Proof.
  intros Hact. induction l as [|[[x y] z] l IH]; intros g Hwf Hsx Hsy Hsz Hl.
  { exists g. split; [done|]. split; [done|]. do 3 (split; [done|]). intros x y z _.
    by rewrite bool_decide_eq_false_2 by apply not_elem_of_nil. }
  inversion Hl as [|? ? Hg Hl']; subst; clear Hl; rename Hl' into Hl. cbn [map visit encode fst snd].
  destruct (Hact x y z g Hwf Hg Hsx Hsy Hsz) as (g1 & -> & Hwf1 & H1x & H1y & H1z & Hv1).
  rewrite bind_Ok. rewrite <- H1x.
  destruct (IH g1 Hwf1) as (g' & -> & Hwf' & H2x & H2y & H2z & Hv2); try congruence.
  { eapply Forall_impl; [|exact Hl]. intros [[a b] c] ?. by apply (in_grid_sizes a b c g g1). }
  exists g'. split; [done|]. split; [done|]. do 3 (split; [congruence|]).
  intros a b c Hin. rewrite Hv2 by (by apply (in_grid_sizes a b c g g1)). rewrite Hv1 by done.
  unfold same_cell.
  destruct (decide ((a, b, c) ∈ l)) as [Hi|Hi].
  - rewrite !bool_decide_eq_true_2; [done|by apply list_elem_of_further|done].
  - rewrite (bool_decide_eq_false_2 _ Hi).
    apply if_bool_decide_ext. rewrite elem_of_cons.
    split; [intros (-> & -> & ->); by left|]. by intros [[= -> -> ->]|?].
Qed.

Lemma mark_action x y z g :
  wf g -> in_grid x y z g ->
  exists g', MarkVoxel (y * size_x g + x) (65537 * 2 ^ z) g = Ok g' /\
    changed (same_cell x y z) MARKED g g'.
Proof.
  intros Hwf Hg. destruct (mark_mask x y z g Hwf Hg) as (g' & Hu & Hc & _).
  exists g'. split; [|done]. unfold MarkVoxel.
  destruct (index_in x y z g Hwf Hg) as [Hi _]. rewrite Hi in Hu.
  rewrite full_mask_mul in Hu; [done|]. destruct Hg as (_ & _ & ?). pose proof (wf_z _ Hwf). lia.
Qed.

Lemma clear_action x y z g :
  wf g -> in_grid x y z g ->
  exists g', ClearVoxel (y * size_x g + x) (65537 * 2 ^ z) g = Ok g' /\
    changed (same_cell x y z) FREE g g'.
Proof.
  intros Hwf Hg. destruct (clear_mask x y z g Hwf Hg) as (g' & Hu & Hc & _).
  exists g'. split; [|done]. unfold ClearVoxel.
  destruct (index_in x y z g Hwf Hg) as [Hi _]. rewrite Hi in Hu.
  rewrite full_mask_mul in Hu; [done|]. destruct Hg as (_ & _ & ?). pose proof (wf_z _ Hwf). lia.
Qed.

Lemma line_in_grid x0 y0 z0 x1 y1 z1 len g :
  inside (size_x g) (size_y g) (size_z g) x0 y0 z0 ->
  inside (size_x g) (size_y g) (size_z g) x1 y1 z1 -> 0 <= len ->
  Forall (fun '(x, y, z) => in_grid x y z g) (line x0 y0 z0 x1 y1 z1 len).
Proof.
  intros Hi0 Hi1 Hlen. apply Forall_forall. intros [[x y] z] Hin%list_elem_of_In.
  exact (line_inside _ _ _ _ _ _ _ _ _ _ _ _ _ Hi0 Hi1 Hlen Hin).
Qed.

(** C33: Ray tracing is memory safe and follows the discrete line. Between two
    points whose cells are in the grid, [raytraceLine] applies the action to the
    offsets and masks of the cells of the line, in order and nothing else. The line
    starts in the first cell, every cell is in the grid, consecutive cells differ by
    at most one on each axis, it has at most [len + 1] cells, and when the length
    allows it, it ends exactly in the last cell. *)
Theorem voxel_raytrace {S} (act : Z -> Z -> S -> res S) s sx sy sz p0 p1 max_length min_length
  x0 y0 z0 x1 y1 z1 len
  (Hsize : sx * sy < 2 ^ 32) (Hsz : sz <= 16)
  (Htr : traced sx sy sz p0 p1 max_length min_length x0 y0 z0 x1 y1 z1 len) :
  let da := dominant x0 y0 z0 x1 y1 z1 in
  let cell := line_cell x0 y0 z0 x1 y1 z1 in
  raytraceLine act sx (px p0) (py p0) (pz p0) (px p1) (py p1) (pz p1) max_length min_length s =
    visit act (map (fun i => encode sx (cell i)) (seqZ 0 (Z.min len da + 1))) s /\
  0 <= len /\ cell 0 = (x0, y0, z0) /\ cell da = (x1, y1, z1) /\
  (forall i, 0 <= i <= da ->
     let '(x, y, z) := cell i in inside sx sy sz x y z) /\
  (forall i, 0 <= i < da ->
     let '(x, y, z) := cell i in let '(x', y', z') := cell (i + 1) in
     Z.abs (x' - x) <= 1 /\ Z.abs (y' - y) <= 1 /\ Z.abs (z' - z) <= 1).
Proof.
  intros da cell. rewrite (raytraceLine_visit act sx sy sz p0 p1 max_length min_length
    x0 y0 z0 x1 y1 z1 len s Hsize Hsz Htr).
  assert (0 <= len) as Hlen.
  { destruct Htr as [_ Hs _ _ _ _]. destruct (line_start _ _ _ _ _ _ _ _ _) as [? [[? ?] ?]].
    destruct Hs as [_ Hs]. apply f64_to_uint_ok in Hs as [_ [? _]]. done. }
  split; [unfold line; by rewrite map_map|]. split; [done|].
  assert (Z.abs (x1 - x0) <= da /\ Z.abs (y1 - y0) <= da /\ Z.abs (z1 - z0) <= da) as (Hdx & Hdy & Hdz)
    by (unfold da, dominant; lia).
  assert (0 <= da) by lia. unfold cell, line_cell. fold da.
  split; [by rewrite !coordinate_start|]. split; [by rewrite !coordinate_end|]. split.
  - intros i Hi. destruct (tr_inside0 _ _ _ _ _ _ _ _ _ _ _ _ _ _ Htr) as (?&?&?).
    destruct (tr_inside1 _ _ _ _ _ _ _ _ _ _ _ _ _ _ Htr) as (?&?&?).
    pose proof (coordinate_between da x0 x1 i Hdx Hi).
    pose proof (coordinate_between da y0 y1 i Hdy Hi).
    pose proof (coordinate_between da z0 z1 i Hdz Hi). unfold inside. lia.
  - intros i Hi. split; [|split]; apply coordinate_step; lia.
Qed.

(** Drawing a line. On a well formed grid, for two points inside it,
    [markVoxelLine] and [clearVoxelLine] are defined and change exactly the voxels
    of the discrete line between their cells, to MARKED and to FREE. *)
Theorem voxel_draw_line g p0 p1 max_length min_length x0 y0 z0 x1 y1 z1 len len'
  (Hwf : wf g)
  (Hin : endpoint_out (px p0) (py p0) (pz p0) g || endpoint_out (px p1) (py p1) (pz p1) g = false)
  (Hmark : traced (size_x g) (size_y g) (size_z g) p0 p1 max_length 0 x0 y0 z0 x1 y1 z1 len)
  (Hclear : traced (size_x g) (size_y g) (size_z g) p0 p1 max_length min_length
     x0 y0 z0 x1 y1 z1 len') :
  exists g1 g2,
    markVoxelLine (px p0) (py p0) (pz p0) (px p1) (py p1) (pz p1) max_length g = Ok g1 /\
    clearVoxelLine (px p0) (py p0) (pz p0) (px p1) (py p1) (pz p1) max_length min_length g =
      Ok g2 /\
    changed (fun x y z => bool_decide ((x, y, z) ∈ line x0 y0 z0 x1 y1 z1 len)) MARKED g g1 /\
    changed (fun x y z => bool_decide ((x, y, z) ∈ line x0 y0 z0 x1 y1 z1 len')) FREE g g2.
Proof.
  unfold markVoxelLine, clearVoxelLine. rewrite Hin.
  pose proof (wf_size _ Hwf). destruct (wf_z _ Hwf).
  assert (forall ml n, traced (size_x g) (size_y g) (size_z g) p0 p1 max_length ml
    x0 y0 z0 x1 y1 z1 n -> 0 <= n) as Hn.
  { intros ml n [_ Hs _ _ _ _]. destruct (line_start _ _ _ _ _ _ _ _ _) as [? [[? ?] ?]].
    destruct Hs as [_ Hs]. apply f64_to_uint_ok in Hs as [_ [? _]]. done. }
  rewrite (raytraceLine_visit MarkVoxel _ _ _ _ _ _ _ _ _ _ _ _ _ _ _ ltac:(done) ltac:(done) Hmark).
  rewrite (raytraceLine_visit ClearVoxel _ _ _ _ _ _ _ _ _ _ _ _ _ _ _ ltac:(done) ltac:(done) Hclear).
  destruct (visit_changed MarkVoxel MARKED g) with (l := line x0 y0 z0 x1 y1 z1 len) (g := g)
    as (g1 & Hg1 & Hc1); try done.
  { intros x y z g' Hw Hi _ _ _. by apply mark_action. }
  { apply line_in_grid; [apply Hmark|apply Hmark|by eapply Hn]. }
  destruct (visit_changed ClearVoxel FREE g) with (l := line x0 y0 z0 x1 y1 z1 len') (g := g)
    as (g2 & Hg2 & Hc2); try done.
  { intros x y z g' Hw Hi _ _ _. by apply clear_action. }
  { apply line_in_grid; [apply Hclear|apply Hclear|by eapply Hn]. }
  exists g1, g2. rewrite Hg1, Hg2. by split_and!.
Qed.

(** ** The properties on a small grid *)

Definition demo_grid : grid := new 5 4 3.

Lemma demo_grid_wf : wf demo_grid.
Proof.
  split; [vm_compute; discriminate|vm_compute; discriminate|
    by split; vm_compute|vm_compute; reflexivity|vm_compute; reflexivity|].
  - apply Forall_replicate. split; [by solve_decide|].
    intros z Hz Hb. change unknown_col with (Z.ones 16) in *.
    by rewrite Z.ones_spec_high in Hb by lia.
Qed.

Definition half (n : Z) : f64 := f64_div (f64_of_Z n) (f64_of_Z 2).
Definition demo_p0 : point := mk_point (half 1) (half 1) (half 1).
Definition demo_p1 : point := mk_point (half 7) (half 5) (half 3).

Lemma demo_traced :
  traced 5 4 3 demo_p0 demo_p1 UINT_MAX 0 0 0 0 3 2 1 3.
Proof.
  split.
  - exists 3. split; [vm_compute; reflexivity|done].
  - vm_compute. split; reflexivity.
  - vm_compute; reflexivity.
  - unfold inside. lia.
  - unfold inside. lia.
  - unfold in_s. lia.
Qed.

Lemma voxel_set_get_witness :
  exists g1, markVoxel 2 3 1 demo_grid = Ok g1 /\ wf g1 /\ voxel 2 3 1 g1 = MARKED.
Proof.
  destruct (voxel_set_get 2 3 1 demo_grid demo_grid_wf ltac:(lia) ltac:(lia) ltac:(lia))
    as (_ & g1 & g2 & Hm & _ & Hc & _).
  destruct Hc as [(Hwf & _ & _ & _ & Hv) _].
  exists g1. split; [exact Hm|]. split; [exact Hwf|].
  refine (eq_trans (Hv 2 3 1 _) _); [repeat split; vm_compute; (reflexivity || discriminate)|reflexivity].
Defined.

Lemma voxel_column_witness : getVoxelColumn 2 3 15 0 demo_grid = Ok UNKNOWN.
Proof.
  assert (in_grid 2 3 0 demo_grid) as Hin by (repeat split; vm_compute; (reflexivity || discriminate)).
  refine (eq_trans (voxel_column 2 3 0 15 0 demo_grid demo_grid_wf Hin ltac:(lia) ltac:(lia)) _).
  vm_compute. reflexivity.
Defined.

Lemma voxel_raytrace_witness :
  raytraceLine (fun o m l => Ok ((o, m) :: l)) 5
    (half 1) (half 1) (half 1) (half 7) (half 5) (half 3) UINT_MAX 0 [] =
  Ok [(13, 131074); (7, 131074); (6, 65537); (0, 65537)].
Proof.
  refine (eq_trans (proj1 (voxel_raytrace (fun o m l => Ok ((o, m) :: l)) [] 5 4 3 demo_p0 demo_p1
    UINT_MAX 0 0 0 0 3 2 1 3 ltac:(lia) ltac:(lia) demo_traced)) _).
  vm_compute. reflexivity.
Defined.

Lemma voxel_draw_line_witness :
  exists g1, markVoxelLine (half 1) (half 1) (half 1) (half 7) (half 5) (half 3) UINT_MAX
    demo_grid = Ok g1 /\ wf g1 /\ voxel 2 1 1 g1 = MARKED.
Proof.
  destruct (voxel_draw_line demo_grid demo_p0 demo_p1 UINT_MAX 0 0 0 0 3 2 1 3 3 demo_grid_wf
    ltac:(vm_compute; reflexivity) demo_traced demo_traced)
    as (g1 & g2 & Hm & _ & (Hwf & _ & _ & _ & Hv) & _).
  exists g1. split; [exact Hm|]. split; [exact Hwf|].
  refine (eq_trans (Hv 2 1 1 _) _); [repeat split; vm_compute; (reflexivity || discriminate)|vm_compute; reflexivity].
Defined.
End VoxelGrid.
