(* ===== verification/Lifecycle.v ===== *)
(** * Lifecycle manager ([nav2_lifecycle_manager/lifecycle_manager.hpp],
    [lifecycle_manager.cpp])

    The manager brings a list of nodes up and down through their lifecycle
    services and watches them through bonds. The middleware (lifecycle services,
    bonds, clock) is a parameter, the class [Environment]; log messages and
    diagnostics texts are not modelled. The state keeps a history of the requests
    made and of the states reported, which no operation reads. *)

From stdpp Require Import base option list numbers strings gmap.
From Stdlib Require Import ZArith Lia.
From S2P Require Import Prelude.

Module Lifecycle.

Inductive Transition : Type :=
  | TRANSITION_CONFIGURE
  | TRANSITION_CLEANUP
  | TRANSITION_ACTIVATE
  | TRANSITION_DEACTIVATE
  | TRANSITION_UNCONFIGURED_SHUTDOWN.

(** What [get_state] may report: a primary state or any other identifier. *)
Inductive State : Type :=
  | PRIMARY_STATE_UNCONFIGURED
  | PRIMARY_STATE_INACTIVE
  | PRIMARY_STATE_ACTIVE
  | PRIMARY_STATE_FINALIZED
  | OTHER_STATE.

Inductive NodeState : Type := UNCONFIGURED | ACTIVE | INACTIVE | FINALIZED | UNKNOWN.

#[export] Instance transition_eq_dec : EqDecision Transition.
Proof. solve_decision. Defined.
#[export] Instance state_eq_dec : EqDecision State.
Proof. solve_decision. Defined.
#[export] Instance node_state_eq_dec : EqDecision NodeState.
Proof. solve_decision. Defined.

(** Services, bonds and clock; a call returns or raises, and the environment goes on. *)
Class Environment (E : Type) : Type := {
  env_new_client : string -> E -> E;
  env_change_state : string -> Transition -> E -> outcome bool * E;
  env_get_state : string -> E -> outcome State * E;
  env_new_bond : string -> E -> E;
  env_wait_bond : string -> E -> bool * E;
  env_bond_broken : string -> E -> bool * E;
  env_ok : E -> bool * E;
  env_now : E -> Z * E }.

Inductive event : Type :=
  | Request (node : string) (t : Transition)
  | Report (node : string) (s : State).

(** A shared pointer in a map: [true] when it holds an object. *)
Record manager (E : Type) : Type := mk_manager {
  env : E;
  node_names : list string;
  node_map : gmap string bool;
  bond_map : gmap string bool;
  managed_nodes_state : NodeState;
  bond_timer : bool;
  bond_respawn_timer : bool;
  bond_respawn_start_time : Z;
  bond_timeout : Z;
  bond_respawn_max_duration : Z;
  attempt_respawn_reconnection : bool;
  history : list event }.
Arguments mk_manager {E}.
Arguments env {E}.
Arguments node_names {E}.
Arguments node_map {E}.
Arguments bond_map {E}.
Arguments managed_nodes_state {E}.
Arguments bond_timer {E}.
Arguments bond_respawn_timer {E}.
Arguments bond_respawn_start_time {E}.
Arguments bond_timeout {E}.
Arguments bond_respawn_max_duration {E}.
Arguments attempt_respawn_reconnection {E}.
Arguments history {E}.

Definition transition_state_map (t : Transition) : State :=
  match t with
  | TRANSITION_CONFIGURE => PRIMARY_STATE_INACTIVE
  | TRANSITION_CLEANUP => PRIMARY_STATE_UNCONFIGURED
  | TRANSITION_ACTIVATE => PRIMARY_STATE_ACTIVE
  | TRANSITION_DEACTIVATE => PRIMARY_STATE_INACTIVE
  | TRANSITION_UNCONFIGURED_SHUTDOWN => PRIMARY_STATE_FINALIZED
  end.

Section Updates.
Context {E : Type}.
Implicit Types m : manager E.

Definition set_env (e : E) m : manager E :=
  mk_manager e (node_names m) (node_map m) (bond_map m) (managed_nodes_state m) (bond_timer m)
    (bond_respawn_timer m) (bond_respawn_start_time m) (bond_timeout m)
    (bond_respawn_max_duration m) (attempt_respawn_reconnection m) (history m).
Definition set_names (l : list string) m : manager E :=
  mk_manager (env m) l (node_map m) (bond_map m) (managed_nodes_state m) (bond_timer m)
    (bond_respawn_timer m) (bond_respawn_start_time m) (bond_timeout m)
    (bond_respawn_max_duration m) (attempt_respawn_reconnection m) (history m).
Definition set_node_map (n : gmap string bool) m : manager E :=
  mk_manager (env m) (node_names m) n (bond_map m) (managed_nodes_state m) (bond_timer m)
    (bond_respawn_timer m) (bond_respawn_start_time m) (bond_timeout m)
    (bond_respawn_max_duration m) (attempt_respawn_reconnection m) (history m).
Definition set_bond_map (b : gmap string bool) m : manager E :=
  mk_manager (env m) (node_names m) (node_map m) b (managed_nodes_state m) (bond_timer m)
    (bond_respawn_timer m) (bond_respawn_start_time m) (bond_timeout m)
    (bond_respawn_max_duration m) (attempt_respawn_reconnection m) (history m).
Definition set_state (s : NodeState) m : manager E :=
  mk_manager (env m) (node_names m) (node_map m) (bond_map m) s (bond_timer m)
    (bond_respawn_timer m) (bond_respawn_start_time m) (bond_timeout m)
    (bond_respawn_max_duration m) (attempt_respawn_reconnection m) (history m).
Definition set_bond_timer (b : bool) m : manager E :=
  mk_manager (env m) (node_names m) (node_map m) (bond_map m) (managed_nodes_state m) b
    (bond_respawn_timer m) (bond_respawn_start_time m) (bond_timeout m)
    (bond_respawn_max_duration m) (attempt_respawn_reconnection m) (history m).
Definition set_respawn (timer : bool) (start : Z) m : manager E :=
  mk_manager (env m) (node_names m) (node_map m) (bond_map m) (managed_nodes_state m)
    (bond_timer m) timer start (bond_timeout m) (bond_respawn_max_duration m)
    (attempt_respawn_reconnection m) (history m).
Definition record_event (ev : event) m : manager E :=
  mk_manager (env m) (node_names m) (node_map m) (bond_map m) (managed_nodes_state m)
    (bond_timer m) (bond_respawn_timer m) (bond_respawn_start_time m) (bond_timeout m)
    (bond_respawn_max_duration m) (attempt_respawn_reconnection m) (history m ++ [ev]).
End Updates.

(** ** Calls on the manager

    A call returns a result and leaves a state, also when it throws. *)

Abbreviation M E := (ST (manager E)) (only parsing).

(** A middleware call. *)
Definition call {E A} (f : E -> A * E) : M E A := fun m =>
  let '(a, e) := f (env m) in (Ok a, set_env e m).
Definition call_may_raise {E A} (f : E -> outcome A * E) : M E A := fun m =>
  match f (env m) with
  | (Returned a, e) => (Ok a, set_env e m)
  | (Raised x, e) => (Throw x, set_env e m)
  end.

Section Manager.
Context {E : Type} `{Environment E}.

Definition isActive (m : manager E) : bool := bool_decide (managed_nodes_state m = ACTIVE).

Fixpoint new_clients (names : list string) : M E () :=
  match names with
  | [] => mret ()
  | n :: names =>
      modify (fun m => set_node_map (<[n := true]> (node_map m))
                         (set_env (env_new_client n (env m)) m));;
      new_clients names
  end.

Definition createLifecycleServiceClients : M E () :=
  m ← get; new_clients (node_names m).

(** Every pointer is reset, the keys stay. *)
Definition destroyLifecycleServiceClients : M E () :=
  modify (fun m => set_node_map ((fun _ => false) <$> node_map m) m).

Definition createBondConnection (node_name : string) : M E bool :=
  m ← get;
  if bool_decide (bond_map m !! node_name = None) && (0 <? bond_timeout m) then
    modify (fun m => set_bond_map (<[node_name := true]> (bond_map m))
                       (set_env (env_new_bond node_name (env m)) m));;
    call (env_wait_bond node_name)
  else mret true.

(** The client a node name stands for; a null one is dereferenced at once. *)
Definition client (node_name : string) : M E () :=
  m ← get;
  if decide (node_map m !! node_name = Some true) then mret () else undefined.

Definition changeStateForNode (node_name : string) (transition : Transition) : M E bool :=
  client node_name;;
  modify (record_event (Request node_name transition));;
  changed ← call_may_raise (env_change_state node_name transition);
  reached ← (if (changed : bool) then
               client node_name;;
               st ← call_may_raise (env_get_state node_name);
               modify (record_event (Report node_name st));;
               mret (bool_decide (st = transition_state_map transition))
             else mret false);
  if negb reached then mret false
  else if decide (transition = TRANSITION_ACTIVATE) then createBondConnection node_name
  else if decide (transition = TRANSITION_DEACTIVATE) then
    modify (fun m => set_bond_map (delete node_name (bond_map m)) m);; mret true
  else mret true.

(** The loop over the names: [None] when it ended, [Some b] when it returned. *)
Fixpoint change_loop (names : list string) (transition : Transition) (hard_change : bool) :
    M E bool :=
  match names with
  | [] => mret true
  | n :: names =>
      continue ← try_runtime
        (ok ← changeStateForNode n transition; mret (negb (negb ok && negb hard_change)))
        (mret false);
      if (continue : bool) then change_loop names transition hard_change else mret false
  end.

Definition changeStateForAllNodes (transition : Transition) (hard_change : bool) : M E bool :=
  m ← get;
  match transition with
  | TRANSITION_CONFIGURE | TRANSITION_ACTIVATE => change_loop (node_names m) transition hard_change
  | _ => change_loop (reverse (node_names m)) transition hard_change
  end.

(** [!a || !b], evaluated from left to right. *)
Definition both (a b : M E bool) : M E bool :=
  ra ← a; if (ra : bool) then b else mret false.

Definition createBondTimer : M E () :=
  m ← get;
  if bond_timeout m <=? 0 then mret () else modify (set_bond_timer true).

Definition destroyBondTimer : M E () := modify (set_bond_timer false).

Definition startup : M E bool :=
  ok ← both (changeStateForAllNodes TRANSITION_CONFIGURE false)
            (changeStateForAllNodes TRANSITION_ACTIVATE false);
  if negb ok then modify (set_state UNKNOWN);; mret false
  else modify (set_state ACTIVE);; createBondTimer;; mret true.

Definition configure : M E bool :=
  ok ← changeStateForAllNodes TRANSITION_CONFIGURE false;
  if negb ok then modify (set_state UNKNOWN);; mret false
  else modify (set_state INACTIVE);; mret true.

Definition cleanup : M E bool :=
  ok ← changeStateForAllNodes TRANSITION_CLEANUP false;
  if negb ok then modify (set_state UNKNOWN);; mret false
  else modify (set_state UNCONFIGURED);; mret true.

Definition shutdownAllNodes : M E () :=
  modify (set_state FINALIZED);;
  _ ← changeStateForAllNodes TRANSITION_DEACTIVATE false;
  _ ← changeStateForAllNodes TRANSITION_CLEANUP false;
  _ ← changeStateForAllNodes TRANSITION_UNCONFIGURED_SHUTDOWN false;
  mret ().

Definition shutdown : M E bool :=
  destroyBondTimer;; shutdownAllNodes;; destroyLifecycleServiceClients;; mret true.

Definition reset (hard_reset : bool) : M E bool :=
  destroyBondTimer;;
  ok ← both (changeStateForAllNodes TRANSITION_DEACTIVATE hard_reset)
            (changeStateForAllNodes TRANSITION_CLEANUP hard_reset);
  if negb ok && negb hard_reset then modify (set_state UNKNOWN);; mret false
  else modify (set_state UNCONFIGURED);; mret true.

Definition pause : M E bool :=
  destroyBondTimer;;
  ok ← changeStateForAllNodes TRANSITION_DEACTIVATE false;
  if negb ok then modify (set_state UNKNOWN);; mret false
  else modify (set_state INACTIVE);; mret true.

Definition resume : M E bool :=
  ok ← changeStateForAllNodes TRANSITION_ACTIVATE false;
  if negb ok then modify (set_state UNKNOWN);; mret false
  else modify (set_state ACTIVE);; createBondTimer;; mret true.

Definition onRclPreshutdown : M E () :=
  destroyBondTimer;;
  modify (set_names []);; modify (set_node_map ∅);; modify (set_bond_map ∅).

(** The loop over the bonds. [bond_map_[node_name]] creates a null entry for an
    unknown name and dereferences it. *)
Fixpoint bond_loop (names : list string) : M E () :=
  match names with
  | [] => mret ()
  | n :: names =>
      ok ← call env_ok;
      if negb ok then mret ()
      else
        m ← get;
        if decide (bond_map m !! n = Some true) then
          broken ← call (env_bond_broken n);
          if (broken : bool) then
            _ ← reset true;
            modify (set_bond_map ∅);;
            m ← get;
            if attempt_respawn_reconnection m then
              modify (fun m => set_respawn true (bond_respawn_start_time m) m)
            else mret ()
          else bond_loop names
        else undefined
  end.

Definition checkBondConnections : M E () :=
  m ← get;
  if negb (isActive m) then mret ()
  else
    ok ← call env_ok;
    if negb ok || bool_decide (bond_map m = ∅) then mret ()
    else bond_loop (node_names m).

(** Count the servers that answer; [None] when the middleware stopped. *)
Fixpoint count_live (names : list string) (live : nat) : M E (option nat) :=
  match names with
  | [] => mret (Some live)
  | n :: names =>
      ok ← call env_ok;
      if negb ok then mret None
      else
        answered ← try_all (client n;; _ ← call_may_raise (env_get_state n); mret true)
                           (mret false);
        if (answered : bool) then count_live names (S live) else mret (Some live)
  end.

Definition checkBondRespawnConnection : M E () :=
  m ← get;
  (if bond_respawn_start_time m =? 0 then
     t ← call env_now; modify (fun m => set_respawn (bond_respawn_timer m) t m)
   else mret ());;
  m ← get;
  ok ← (if isActive m then mret true else call env_ok);
  if isActive m || negb ok || bool_decide (node_names m = []) then
    modify (set_respawn false 0)
  else
    live ← count_live (node_names m) 0;
    match live with
    | None => mret ()
    | Some live =>
        if decide (live = length (node_names m)) then
          modify (set_respawn false 0);; _ ← startup; mret ()
        else
          t ← call env_now;
          m ← get;
          if bond_respawn_max_duration m <=? t - bond_respawn_start_time m then
            modify (set_respawn false 0)
          else mret ()
    end.

(** ** Services *)

Inductive command : Type :=
  | STARTUP | CONFIGURE | CLEANUP | RESET | SHUTDOWN | PAUSE | RESUME | OTHER_COMMAND.

(** The response's flag is false until it is set. *)
Definition managerCallback (c : command) : M E bool :=
  match c with
  | STARTUP => startup
  | CONFIGURE => configure
  | CLEANUP => cleanup
  | RESET => reset false
  | SHUTDOWN => shutdown
  | PAUSE => pause
  | RESUME => resume
  | OTHER_COMMAND => mret false
  end.

Definition isActiveCallback : M E bool := m ← get; mret (isActive m).

Inductive level : Type := LEVEL_OK | LEVEL_WARN | LEVEL_ERROR.

Definition CreateDiagnostic (m : manager E) : level :=
  match managed_nodes_state m with
  | ACTIVE | INACTIVE | UNCONFIGURED => LEVEL_OK
  | FINALIZED => LEVEL_WARN
  | UNKNOWN => LEVEL_ERROR
  end.

(** The state after the constructor, and what its timer does once. *)
Definition new (e : E) (names : list string) (timeout respawn : Z) (attempt : bool) : manager E :=
  mk_manager e names ∅ ∅ UNCONFIGURED false false 0 timeout respawn attempt [].

Definition init_callback (autostart : bool) : M E () :=
  createLifecycleServiceClients;;
  if autostart then _ ← startup; mret () else mret ().

(** ** Specification *)

(** What a successful transition of a node adds to the history. *)
Definition done_events (t : Transition) (n : string) : list event :=
  [Request n t; Report n (transition_state_map t)].

Definition live (m : manager E) (n : string) : Prop := node_map m !! n = Some true.

(** Everything but the environment, the bonds and the history. *)
Definition same_config (m m' : manager E) : Prop :=
  node_names m' = node_names m /\ node_map m' = node_map m /\
  managed_nodes_state m' = managed_nodes_state m /\ bond_timer m' = bond_timer m /\
  bond_respawn_timer m' = bond_respawn_timer m /\ bond_timeout m' = bond_timeout m /\
  attempt_respawn_reconnection m' = attempt_respawn_reconnection m.

(** The bonds hold objects, and there is none when bonds are disabled. *)
Definition bonds_ok (m : manager E) : Prop :=
  (forall n b, bond_map m !! n = Some b -> b = true) /\ (bond_timeout m <= 0 -> bond_map m = ∅).

#[local] Instance same_config_preorder : PreOrder same_config.
Proof. split; [done|]. unfold same_config. intros x y z ? ?. intuition congruence. Qed.

(** Case analysis of a call, down to its outcomes. *)
Ltac run_call H :=
  repeat first
    [ progress expose in H
    | match type of H with
      | context [match ?x with _ => _ end] =>
          lazymatch x with context [match _ with _ => _ end] => fail | _ => destruct x eqn:? end
      end
    | progress simplify_eq ].

Lemma bonds_ok_insert n e m :
  bonds_ok m -> 0 < bond_timeout m ->
  bonds_ok (set_bond_map (<[n := true]> (bond_map m)) (set_env e m)).
Proof.
  intros [Hb Ht] Hp. split; simpl; [|lia]. intros n' b Hn.
  apply lookup_insert_Some in Hn as [[_ <-]|[_ Hn]]; eauto.
Qed.

Lemma bonds_ok_delete n m : bonds_ok m -> bonds_ok (set_bond_map (delete n (bond_map m)) m).
Proof.
  intros [Hb Ht]. split; simpl.
  - intros n' b Hn. apply lookup_delete_Some in Hn as [_ Hn]. eauto.
  - intros Hle. rewrite Ht by done. apply delete_empty.
Qed.

(** The bond of an activated node. *)
Lemma createBondConnection_spec n m r m' :
  createBondConnection n m = (r, m') ->
  (exists b, r = Ok b) /\ same_config m m' /\ history m' = history m /\
  (bonds_ok m -> bonds_ok m') /\
  (bonds_ok m -> 0 < bond_timeout m -> bond_map m' !! n = Some true) /\
  (forall n', bond_map m !! n' = Some true -> bond_map m' !! n' = Some true).
Proof.
  unfold createBondConnection, get, modify, call. intros Hc. run_call Hc.
  - bool_arith. simpl in *.
    split; [eauto|]. split; [done|]. split; [done|].
    split; [intros; by apply (bonds_ok_insert n _ m)|].
    split; intros; simpl; [by rewrite lookup_insert_eq|].
    destruct (decide (n' = n)) as [->|]; [by rewrite lookup_insert_eq|by rewrite lookup_insert_ne].
  - split; [eauto|]. do 3 (split; [done|]). split; [|done].
    intros [Hb _] Hp.
    match goal with Hf : _ && _ = false |- _ =>
      rewrite (proj2 (Z.ltb_lt 0 _) Hp), andb_true_r in Hf; apply bool_decide_eq_false in Hf end.
    destruct (bond_map m' !! n) as [b|] eqn:Hn; [|done]. by rewrite (Hb n b Hn).
Qed.

(** One node. *)
Lemma changeStateForNode_spec n t m r m' :
  changeStateForNode n t m = (r, m') ->
  same_config m m' /\ (bonds_ok m -> bonds_ok m') /\
  (r = UB <-> ~ live m n) /\
  (exists evs, history m' = history m ++ evs /\
     (evs = [] \/ evs = [Request n t] \/ exists s, evs = [Request n t; Report n s])) /\
  (r = Ok true -> history m' = history m ++ done_events t n /\
     (t = TRANSITION_ACTIVATE -> bonds_ok m -> 0 < bond_timeout m -> bond_map m' !! n = Some true)) /\
  (t <> TRANSITION_DEACTIVATE ->
     forall n', bond_map m !! n' = Some true -> bond_map m' !! n' = Some true).
Proof.
  unfold changeStateForNode, client, get, modify, undefined, live. intros Hc. expose in Hc.
  destruct (decide (node_map m !! n = Some true)) as [Hl|Hl]; cycle 1.
  { injection Hc as <- <-. split; [done|]. split; [done|]. split; [done|].
    split; [exists []; rewrite app_nil_r; eauto|]. done. }
  unfold call_may_raise in Hc. expose in Hc. cbn [env record_event] in Hc.
  destruct (env_change_state n t (env m)) as [[[]|x1] e1] eqn:Hcs.
  2: { injection Hc as <- <-. split; [done|]. split; [done|]. split; [naive_solver|].
       split; [|done]. exists [Request n t]. eauto. }
  2: { injection Hc as <- <-. split; [done|]. split; [done|]. split; [naive_solver|].
       split; [|done]. exists [Request n t]. eauto. }
  destruct (decide (node_map (set_env e1 (record_event (Request n t) m)) !! n = Some true))
    as [_|]; [|done].
  expose in Hc.
  destruct (env_get_state n (env (set_env e1 (record_event (Request n t) m)))) as [[st|x1] e2] eqn:Hgs;
    expose in Hc; cycle 1.
  { injection Hc as <- <-. split; [done|]. split; [done|]. split; [naive_solver|].
    split; [|done]. exists [Request n t]. eauto. }
  set (m2 := record_event (Report n st) _) in Hc.
  assert (history m2 = history m ++ [Request n t; Report n st]) as Hh2
    by (simpl; by rewrite <- app_assoc).
  assert (same_config m m2) as Hs2 by done.
  assert (bond_map m2 = bond_map m) as Hb2 by done.
  assert (bonds_ok m -> bonds_ok m2) as Hbo by done.
  clearbody m2. clear Hcs Hgs e1 e2.
  destruct (bool_decide (st = transition_state_map t)) eqn:Hst; cbn [negb] in Hc; cycle 1.
  { injection Hc as <- <-. split; [done|]. split; [done|]. split; [naive_solver|].
    split; [eauto 10|]. split; [done|]. by rewrite Hb2. }
  apply bool_decide_eq_true in Hst. subst st.
  assert (same_config m m2 -> bond_timeout m2 = bond_timeout m) as Hto by (intros Hx; apply Hx).
  destruct (decide (t = TRANSITION_ACTIVATE)) as [->|];
    [|destruct (decide (t = TRANSITION_DEACTIVATE)) as [->|]].
  - apply createBondConnection_spec in Hc as ([b ->] & Hs3 & Hh3 & Hb3 & Hn3 & Hk3).
    split; [by etrans|]. split; [auto|]. split; [naive_solver|].
    rewrite Hh3, Hh2. split; [eauto 10|]. split.
    + intros _. split; [done|]. intros _ Hbm Hp. apply Hn3; [auto|]. by rewrite Hto.
    + intros _ n' Hn'. apply Hk3. by rewrite Hb2.
  - expose in Hc. injection Hc as <- <-.
    split; [done|]. split; [intros; apply bonds_ok_delete; auto|]. split; [naive_solver|].
    split; [eauto 10|]. done.
  - injection Hc as <- <-. split; [done|]. split; [done|]. split; [naive_solver|].
    split; [eauto 10|]. split; [done|]. by rewrite Hb2.
Qed.

(** Requests of a prefix of the nodes, the last one possibly unfinished. *)
Definition attempted (t : Transition) (names : list string) (evs : list event) : Prop :=
  exists pre tl, evs = (pre ≫= done_events t) ++ tl /\ pre `prefix_of` names /\
    (tl = [] \/ exists n, n ∈ names /\
       (tl = [Request n t] \/ exists s, tl = [Request n t; Report n s])).

(** One iteration of the loop, with its exception handler. *)
Lemma attempt_spec n t hard m c m' :
  try_runtime (ok ← changeStateForNode n t; mret (negb (negb ok && negb hard))) (mret false) m =
    (c, m') ->
  exists r, changeStateForNode n t m = (r, m') /\
    match r with
    | Ok b => c = Ok (b || hard)
    | Throw runtime_error => c = Ok false
    | Throw e => c = Throw e
    | UB => c = UB
    end.
Proof.
  unfold try_runtime. intros Hc. expose in Hc.
  destruct (changeStateForNode n t m) as [[b|e|] m1].
  - injection Hc as <- <-. exists (Ok b). by destruct b, hard.
  - destruct e; injection Hc as <- <-; by eexists.
  - injection Hc as <- <-. by exists UB.
Qed.

Lemma change_loop_spec names t hard : forall m r m',
  change_loop names t hard m = (r, m') ->
  same_config m m' /\ (bonds_ok m -> bonds_ok m') /\
  (r = UB -> exists n, n ∈ names /\ ~ live m n) /\
  (exists evs, history m' = history m ++ evs /\ (hard = false -> attempted t names evs)) /\
  (r = Ok true -> hard = false ->
     history m' = history m ++ (names ≫= done_events t) /\ Forall (live m) names /\
     (t = TRANSITION_ACTIVATE -> bonds_ok m -> 0 < bond_timeout m ->
        Forall (fun n => bond_map m' !! n = Some true) names)) /\
  (t <> TRANSITION_DEACTIVATE ->
     forall n', bond_map m !! n' = Some true -> bond_map m' !! n' = Some true).
Proof.
  induction names as [|n names IH]; intros m r m' Hc.
  { injection Hc as <- <-. split; [done|]. split; [done|]. split; [done|].
    split; [exists []; rewrite app_nil_r; split; [done|]; intros; exists [], [];
            split; [done|]; split; [by exists []|by left]|].
    split; [|done]. intros _ _. simpl. by rewrite app_nil_r. }
  cbn [change_loop] in Hc. expose in Hc.
  destruct (try_runtime _ _ m) as [c m1] eqn:Htry.
  apply attempt_spec in Htry as (rn & Hn & Hcase).
  apply changeStateForNode_spec in Hn as (Hs1 & Hb1 & Hub1 & (ev1 & Hh1 & Hev1) & Hok1 & Hk1).
  assert (forall hd, hd = false -> attempted t (n :: names) ev1) as Hatt1.
  { intros _ _. exists [], ev1. split; [done|]. split; [by exists (n :: names)|].
    destruct Hev1 as [->|[->|[s ->]]]; [by left|right; exists n..]; split; eauto; by left. }
  assert (forall x, (x, m1) = (r, m') -> x <> UB -> x <> Ok true ->
    same_config m m' /\ (bonds_ok m -> bonds_ok m') /\
    (r = UB -> exists n0, n0 ∈ n :: names /\ ~ live m n0) /\
    (exists evs, history m' = history m ++ evs /\ (hard = false -> attempted t (n :: names) evs)) /\
    (r = Ok true -> hard = false ->
     history m' = history m ++ ((n :: names) ≫= done_events t) /\ Forall (live m) (n :: names) /\
     (t = TRANSITION_ACTIVATE -> bonds_ok m -> 0 < bond_timeout m ->
        Forall (fun n => bond_map m' !! n = Some true) (n :: names))) /\
    (t <> TRANSITION_DEACTIVATE ->
     forall n', bond_map m !! n' = Some true -> bond_map m' !! n' = Some true)) as Hstop.
  { intros x [= -> ->] Hx Hr. split; [done|]. split; [done|]. split; [done|].
    split; [eauto|]. split; [|done]. intros Ht. by destruct Hr. }
  destruct rn as [b|e|].
  - subst c. destruct (b || hard) eqn:Hbh; cbv iota in Hc; [|by apply (Hstop (Ok false))].
    apply IH in Hc as (Hs2 & Hb2 & Hub2 & (ev2 & Hh2 & Hev2) & Hok2 & Hk2).
    assert (node_map m1 = node_map m) as Hnm by apply Hs1.
    assert (bond_timeout m1 = bond_timeout m) as Hbt by apply Hs1.
    assert (forall x, live m1 x <-> live m x) as Hlive by (unfold live; by rewrite Hnm).
    split; [by etrans|]. split; [auto|].
    split. { intros Hr. destruct (Hub2 Hr) as (x & Hx & Hl). exists x.
             rewrite <- Hlive. split; [by right|done]. }
    split. { exists (ev1 ++ ev2). rewrite app_assoc, <- Hh1. split; [done|]. intros ->.
      rewrite orb_false_r in Hbh. subst b. destruct (Hok1 eq_refl) as [Hd _].
      rewrite Hh1 in Hd. apply app_inv_head in Hd as ->.
      destruct (Hev2 eq_refl) as (pre & tl & -> & [rest Hpre] & Htl).
      exists (n :: pre), tl. split; [by rewrite app_assoc|].
      split; [exists rest; by rewrite Hpre|].
      destruct Htl as [->|(x & Hx & Htl)]; [by left|]. right. exists x. split; [by right|done]. }
    split.
    + intros Hr Hhard. subst hard. rewrite orb_false_r in Hbh. subst b.
      destruct (Hok1 eq_refl) as [Hd1 Hbond1]. destruct (Hok2 Hr eq_refl) as (Hd2 & Hl2 & Hbond2).
      split; [rewrite Hd2, Hd1, <- app_assoc; done|].
      assert (live m n) as Hln.
      { destruct (decide (node_map m !! n = Some true)) as [|Hno]; [done|].
        apply Hub1 in Hno. done. }
      split.
      * constructor; [done|]. eapply Forall_impl; [exact Hl2|]. intros x. apply Hlive.
      * intros Ht Hbo Hp. constructor.
        -- apply Hk2; [by subst t|]. by apply Hbond1.
        -- apply Hbond2; [done|auto|by rewrite Hbt].
    + intros Ht n' Hn'. auto.
  - destruct e; subst c; cbv iota in Hc; eapply Hstop; done.
  - subst c. injection Hc as <- <-. split; [done|]. split; [done|].
    split; [intros _; exists n; split; [by left|by apply Hub1]|].
    split; [eauto|]. done.
Qed.

(** Why the transition of a node fails, and what the manager has logged of it by then: the service refuses or raises; its state
    cannot be read; it reports another state; or it has reported the expected one, but the bond of a node that is being
    activated is not formed. *)
Inductive fails (t : Transition) (n : string) (timeout : Z) : list event -> Prop :=
  | Refused e e' : env_change_state n t e = (Returned false, e') -> fails t n timeout [Request n t]
  | Raised_change e e' : env_change_state n t e = (Raised runtime_error, e') -> fails t n timeout [Request n t]
  | Raised_state e e' : env_get_state n e = (Raised runtime_error, e') -> fails t n timeout [Request n t]
  | Elsewhere e e' st : env_get_state n e = (Returned st, e') -> st <> transition_state_map t ->
      fails t n timeout [Request n t; Report n st]
  | Unbonded e e' : t = TRANSITION_ACTIVATE -> 0 < timeout -> env_wait_bond n e = (false, e') ->
      fails t n timeout (done_events t n).

Lemma changeStateForNode_fails n t m r m' : changeStateForNode n t m = (r, m') -> r = Ok false \/ r = Throw runtime_error ->
  exists tl, history m' = history m ++ tl /\ fails t n (bond_timeout m) tl.
Proof.
  unfold changeStateForNode, client, get, modify, undefined. intros Hc Hr. expose in Hc.
  destruct (decide (node_map m !! n = Some true)) as [Hl|Hl]; [|injection Hc as <- <-; by destruct Hr].
  unfold call_may_raise in Hc. expose in Hc. cbn [env record_event] in Hc.
  destruct (env_change_state n t (env m)) as [[[]|x1] e1] eqn:Hcs.
  2: { injection Hc as <- <-. eexists. split; [done|]. by eapply Refused. }
  2: { injection Hc as <- <-. destruct Hr as [|[= ->]]; [done|]. eexists. split; [done|]. by eapply Raised_change. }
  destruct (decide (node_map (set_env e1 (record_event (Request n t) m)) !! n = Some true)) as [_|]; [|done].
  expose in Hc. cbn [env set_env] in Hc.
  destruct (env_get_state n e1) as [[st|x1] e2] eqn:Hgs; expose in Hc; cycle 1.
  { injection Hc as <- <-. destruct Hr as [|[= ->]]; [done|]. eexists. split; [done|]. by eapply Raised_state. }
  set (m2 := record_event (Report n st) _) in Hc.
  assert (history m2 = history m ++ [Request n t; Report n st]) as Hh2 by (simpl; by rewrite <- app_assoc).
  assert (bond_timeout m2 = bond_timeout m) as Ht2 by done. clearbody m2.
  destruct (bool_decide (st = transition_state_map t)) eqn:Hst; cbn [negb] in Hc; cycle 1.
  { injection Hc as <- <-. eexists. split; [exact Hh2|]. eapply Elsewhere; [done|]. by apply bool_decide_eq_false in Hst. }
  apply bool_decide_eq_true in Hst. subst st.
  destruct (decide (t = TRANSITION_ACTIVATE)) as [->|].
  2: { destruct (decide (t = TRANSITION_DEACTIVATE)); injection Hc as <- <-; by destruct Hr. }
  pose proof (createBondConnection_spec _ _ _ _ Hc) as (_ & _ & Hh3 & _).
  exists (done_events TRANSITION_ACTIVATE n). split; [by rewrite Hh3, Hh2|].
  unfold createBondConnection, get, modify, call in Hc. run_call Hc; [|by destruct Hr].
  bool_arith. destruct Hr as [[= ->]|]; [|done]. eapply Unbonded; [done|by rewrite <- Ht2|done].
Qed.

(** A transition of nodes in this order fails at the node [n]: all before have made it. *)
Definition failed (t : Transition) (names : list string) (timeout : Z) (evs : list event) : Prop :=
  exists pre n post tl, names = pre ++ n :: post /\ evs = (pre ≫= done_events t) ++ tl /\ fails t n timeout tl.

Lemma change_loop_fails names t : forall m m', change_loop names t false m = (Ok false, m') ->
  exists evs, history m' = history m ++ evs /\ failed t names (bond_timeout m) evs.
Proof.
  induction names as [|n names IH]; intros m m' Hc; [done|]. cbn [change_loop] in Hc. expose in Hc.
  destruct (try_runtime _ _ m) as [c m1] eqn:Htry. apply attempt_spec in Htry as (rn & Hn & Hcase).
  assert (rn = Ok false \/ rn = Throw runtime_error -> m1 = m' ->
    exists evs, history m' = history m ++ evs /\ failed t (n :: names) (bond_timeout m) evs) as Hstop.
  { intros Hr <-. destruct (changeStateForNode_fails n t m rn m1 Hn Hr) as (tl & Hh & Hf).
    exists tl. split; [done|]. by exists [], n, names, tl. }
  destruct rn as [[]|e|].
  - subst c. cbn [orb] in Hc. destruct (IH m1 m' Hc) as (evs & Hh & pre & n' & post & tl & -> & -> & Hf).
    apply changeStateForNode_spec in Hn as (Hs1 & _ & _ & _ & Hok1 & _). destruct (Hok1 eq_refl) as [Hd _].
    assert (bond_timeout m1 = bond_timeout m) as Hbt by apply Hs1.
    exists (done_events t n ++ (pre ≫= done_events t) ++ tl). rewrite Hh, Hd, app_assoc, !app_assoc. split; [done|].
    exists (n :: pre), n', post, tl. rewrite <- Hbt. split; [done|]. split; [|done]. cbn [mbind list_bind]. by rewrite <- !app_assoc.
  - subst c. injection Hc as <-. apply Hstop; auto.
  - destruct e; subst c; try done. injection Hc as <-. apply Hstop; auto.
  - by subst c.
Qed.

(** Bring-up follows the list, take-down the reversed list. *)
Definition order_of (t : Transition) (m : manager E) : list string :=
  match t with
  | TRANSITION_CONFIGURE | TRANSITION_ACTIVATE => node_names m
  | _ => reverse (node_names m)
  end.

Lemma all_nodes_eq t hard m :
  changeStateForAllNodes t hard m = change_loop (order_of t m) t hard m.
Proof. by destruct t. Qed.

(** What every run of [changeStateForAllNodes] guarantees. *)
Record all_post (t : Transition) (hard : bool) (m : manager E) (r : res bool) (m' : manager E) :
    Prop := {
  ap_config : same_config m m';
  ap_bonds : bonds_ok m -> bonds_ok m';
  ap_ub : r = UB -> exists n, n ∈ node_names m /\ ~ live m n;
  ap_history : exists evs, history m' = history m ++ evs /\
    (hard = false -> attempted t (order_of t m) evs);
  ap_done : r = Ok true -> hard = false ->
    history m' = history m ++ (order_of t m ≫= done_events t) /\
    Forall (live m) (node_names m) /\
    (t = TRANSITION_ACTIVATE -> bonds_ok m -> 0 < bond_timeout m ->
       Forall (fun n => bond_map m' !! n = Some true) (node_names m)) }.

Lemma all_spec t hard m r m' :
  changeStateForAllNodes t hard m = (r, m') -> all_post t hard m r m'.
Proof.
  rewrite all_nodes_eq. intros Hc.
  assert (forall n, n ∈ order_of t m <-> n ∈ node_names m) as Ho.
  { intros n. destruct t; simpl; rewrite ?elem_of_reverse; done. }
  assert (forall P : string -> Prop, Forall P (order_of t m) -> Forall P (node_names m)) as Hf.
  { intros P. rewrite !list.Forall_forall. intros HP n Hn. apply HP. by apply Ho. }
  apply change_loop_spec in Hc as (Hs & Hb & Hu & Hh & Hd & _).
  split; [done|done| |done|].
  - intros Hr. destruct (Hu Hr) as (n & Hn & Hl). exists n. by rewrite <- Ho.
  - intros Hr Hhard. destruct (Hd Hr Hhard) as (H1 & H2 & H3). split; [done|]. auto.
Qed.

Lemma both_spec (a b : M E bool) m r m' :
  both a b m = (r, m') ->
  exists ra m1, a m = (ra, m1) /\
    ((ra = Ok true /\ b m1 = (r, m')) \/ (ra <> Ok true /\ r = ra /\ m' = m1)).
Proof.
  unfold both. intros Hc. expose in Hc. destruct (a m) as [[[]|e|] m1].
  - exists (Ok true), m1. auto.
  - injection Hc as <- <-. exists (Ok false), m1. naive_solver.
  - injection Hc as <- <-. exists (Throw e), m1. naive_solver.
  - injection Hc as <- <-. exists UB, m1. naive_solver.
Qed.

(** The invariant: when the nodes are active, every client exists, and so does
    every bond if bonds are enabled. *)
Definition inv (m : manager E) : Prop :=
  bonds_ok m /\
  (managed_nodes_state m = ACTIVE ->
     Forall (live m) (node_names m) /\
     (0 < bond_timeout m -> Forall (fun n => bond_map m !! n = Some true) (node_names m))).

Lemma inv_inactive m : bonds_ok m -> managed_nodes_state m <> ACTIVE -> inv m.
Proof. by intros. Qed.

Lemma bonds_ok_same m m' :
  bond_map m' = bond_map m -> bond_timeout m' = bond_timeout m -> bonds_ok m -> bonds_ok m'.
Proof. unfold bonds_ok. by intros -> ->. Qed.

(** Activating every node, then entering the active state. *)
Lemma inv_activated m r m1 m2 :
  all_post TRANSITION_ACTIVATE false m r m1 -> r = Ok true -> bonds_ok m ->
  node_names m2 = node_names m1 -> node_map m2 = node_map m1 -> bond_map m2 = bond_map m1 ->
  bond_timeout m2 = bond_timeout m1 -> inv m2.
Proof.
  intros [Hs Hb _ _ Hd] Hr Hbo Hn Hm Hbm Ht.
  destruct (Hd Hr eq_refl) as (_ & Hl & Hbond).
  destruct Hs as (Hs1 & Hs2 & _ & _ & _ & Hs6 & _).
  split; [by eapply bonds_ok_same; [| |apply Hb]|]. intros _. rewrite Hn, Hs1. split.
  - unfold live. by rewrite Hm, Hs2.
  - rewrite Ht, Hs6, Hbm. auto.
Qed.

(** The bond timer is the only thing [createBondTimer] touches. *)
Lemma createBondTimer_eq m :
  createBondTimer m = (Ok tt, set_bond_timer ((0 <? bond_timeout m) || bond_timer m) m).
Proof.
  unfold createBondTimer, get, modify. expose.
  destruct (Z.leb_spec (bond_timeout m) 0).
  - rewrite (proj2 (Z.ltb_ge _ _)) by done. by destruct m.
  - by rewrite (proj2 (Z.ltb_lt _ _)) by done.
Qed.

(** A transition of all nodes followed by a change of state: [configure],
    [cleanup], [pause] and [resume] have this shape. *)
Lemma startup_spec m r m' :
  bonds_ok m -> startup m = (r, m') ->
  exists m1, same_config m m1 /\
  match r with
  | Ok true =>
      m' = set_bond_timer ((0 <? bond_timeout m1) || bond_timer m1) (set_state ACTIVE m1) /\
      inv m' /\ history m1 = history m ++ (node_names m ≫= done_events TRANSITION_CONFIGURE) ++
                  (node_names m ≫= done_events TRANSITION_ACTIVATE)
  | Ok false =>
      m' = set_state UNKNOWN m1 /\ bonds_ok m1 /\
      exists evs, (history m1 = history m ++ evs /\
                   failed TRANSITION_CONFIGURE (node_names m) (bond_timeout m) evs) \/
        (history m1 = history m ++ (node_names m ≫= done_events TRANSITION_CONFIGURE) ++ evs /\
         failed TRANSITION_ACTIVATE (node_names m) (bond_timeout m) evs)
  | Throw _ => m' = m1
  | UB => exists n, n ∈ node_names m /\ ~ live m n
  end.
Proof.
  intros Hbo Hc. unfold startup in Hc. expose in Hc.
  destruct (both _ _ m) as [ok m2] eqn:Hboth.
  apply both_spec in Hboth as (ra & m1 & Ha & Hcase). pose proof Ha as Hloop. apply all_spec in Ha.
  destruct Hcase as [[-> Hact]|(Hra & -> & ->)].
  - pose proof Hact as Hloop2. apply all_spec in Hact. destruct Ha as [Hs1 Hb1 Hu1 _ Hd1].
    destruct (Hd1 eq_refl eq_refl) as (Hh1 & _ & _). simpl in Hh1.
    assert (node_names m1 = node_names m) as Hnm by apply Hs1.
    assert (node_map m1 = node_map m) as Hmm by apply Hs1.
    destruct ok as [[]|e|]; cbv iota in Hc; unfold negb in Hc; cbv iota in Hc.
    + unfold modify in Hc. rewrite createBondTimer_eq in Hc. injection Hc as <- <-.
      exists m2. split; [etrans; [exact Hs1|apply Hact]|]. split; [done|]. split.
      { eapply inv_activated; [exact Hact|done|auto|done..]. }
      destruct Hact as [_ _ _ _ Hd2]. destruct (Hd2 eq_refl eq_refl) as (Hh2 & _ & _).
      rewrite Hh2, Hh1. simpl. by rewrite Hnm, app_assoc.
    + unfold modify in Hc. injection Hc as <- <-. exists m2.
      split; [etrans; [exact Hs1|apply Hact]|]. split; [done|].
      split; [apply Hact; auto|]. destruct (change_loop_fails _ _ _ _ Hloop2) as (evs & Hev & Hf).
      exists evs. right. rewrite Hev, Hh1, <- app_assoc. split; [done|].
      assert (bond_timeout m1 = bond_timeout m) as Hbt by apply Hs1. by rewrite Hnm, Hbt in Hf.
    + injection Hc as <- <-. exists m2. split; [etrans; [exact Hs1|apply Hact]|done].
    + injection Hc as <- <-. exists m2. split; [etrans; [exact Hs1|apply Hact]|].
      destruct Hact as [_ _ Hu _ _]. destruct (Hu eq_refl) as (n & Hn & Hl).
      exists n. unfold live in *. by rewrite <- Hnm, <- Hmm.
  - destruct Ha as [Hs1 Hb1 Hu1 (evs & Hev & Hat) _]. exists m1.
    destruct ra as [[]|e|]; unfold negb in Hc; cbv iota in Hc; [done|..].
    + unfold modify in Hc. injection Hc as <- <-. split; [done|]. split; [done|]. split; [auto|].
      destruct (change_loop_fails _ _ _ _ Hloop) as (evs' & Hev' & Hf). exists evs'. by left.
    + injection Hc as <- <-. done.
    + injection Hc as <- <-. split; [done|]. by apply Hu1.
Qed.

(** *** The invariant along the operations *)

Definition keeps {A} (c : M E A) : Prop := forall m a m', inv m -> c m = (Ok a, m') -> inv m'.

(** Split a call at its first transition of all nodes. *)
Ltac at_transition Hc :=
  expose in Hc; unfold destroyBondTimer, modify in Hc; expose in Hc;
  match type of Hc with
  | context [changeStateForAllNodes ?t ?h ?m] =>
      let Ha := fresh "Ha" in
      destruct (changeStateForAllNodes t h m) as [[[]|?e|] ?m1] eqn:Ha; apply all_spec in Ha;
      unfold negb in Hc; cbv iota in Hc; try discriminate Hc
  end.

Lemma keeps_startup : keeps startup.
Proof.
  intros m b m' [Hbo _] Hc. apply startup_spec in Hc as (m1 & Hs & Hr); [|done].
  destruct b; [tauto|]. destruct Hr as (-> & Hb & _). by apply inv_inactive.
Qed.

Lemma keeps_configure : keeps configure.
Proof.
  intros m b m' [Hbo _] Hc. unfold configure in Hc. at_transition Hc;
    injection Hc as _ <-; apply inv_inactive; try done; by apply Ha.
Qed.

Lemma keeps_cleanup : keeps cleanup.
Proof.
  intros m b m' [Hbo _] Hc. unfold cleanup in Hc. at_transition Hc;
    injection Hc as _ <-; apply inv_inactive; try done; by apply Ha.
Qed.

Lemma keeps_pause : keeps pause.
Proof.
  intros m b m' [Hbo _] Hc. unfold pause in Hc. at_transition Hc;
    injection Hc as _ <-; apply inv_inactive; try done; by apply Ha.
Qed.

Lemma keeps_resume : keeps resume.
Proof.
  intros m b m' [Hbo _] Hc. unfold resume in Hc. at_transition Hc.
  - rewrite createBondTimer_eq in Hc. injection Hc as _ <-.
    eapply inv_activated; [exact Ha|done..].
  - injection Hc as _ <-. apply inv_inactive; [by apply Ha|done].
Qed.

(** A reset, hard or not: it never runs into a null client when they all exist. *)
Lemma reset_spec hard m r m' :
  bonds_ok m -> reset hard m = (r, m') ->
  (forall b, r = Ok b -> bonds_ok m' /\ managed_nodes_state m' <> ACTIVE) /\
  (Forall (live m) (node_names m) -> r <> UB) /\
  node_names m' = node_names m /\ node_map m' = node_map m.
Proof.
  intros Hbo Hc. unfold reset in Hc. expose in Hc. unfold destroyBondTimer, modify in Hc.
  destruct (both _ _ _) as [ok m2] eqn:Hboth.
  apply both_spec in Hboth as (ra & m1 & Ha & Hcase). apply all_spec in Ha.
  assert (same_config (set_bond_timer false m) m2 /\ bonds_ok m2 /\
    (Forall (live m) (node_names m) -> ok <> UB)) as (Hs & Hb & Hu).
  { destruct Ha as [Hs1 Hb1 Hu1 _ _].
    assert (Forall (live m) (node_names m) -> ra <> UB) as Hra.
    { intros Hl Hub. destruct (Hu1 Hub) as (n & Hn & Hnl).
      rewrite list.Forall_forall in Hl. by apply Hnl, Hl. }
    destruct Hcase as [[_ Hact]|(_ & -> & ->)]; [|by auto].
    apply all_spec in Hact as [Hs2 Hb2 Hu2 _ _].
    split; [by etrans|]. split; [auto|]. intros Hl Hub. destruct (Hu2 Hub) as (n & Hn & Hnl).
    rewrite list.Forall_forall in Hl. destruct Hs1 as (Hn1 & Hm1 & _).
    apply Hnl. unfold live in *. rewrite Hm1. apply Hl. by rewrite Hn1 in Hn. }
  destruct Hs as (Hn & Hm & _).
  destruct ok as [b|e|]; [|injection Hc as <- <-; split_and!; auto; done..].
  destruct (negb b && negb hard); injection Hc as <- <-; (split; [by intros|by split]).
Qed.

Lemma keeps_reset hard : keeps (reset hard).
Proof. intros m b m' [Hbo _] Hc. apply reset_spec in Hc as [Hr _]; [|done].
  destruct (Hr b eq_refl). by apply inv_inactive.
Qed.

Lemma shutdown_all_spec m r m' :
  bonds_ok m -> shutdownAllNodes m = (r, m') ->
  r = Ok tt -> bonds_ok m' /\ managed_nodes_state m' = FINALIZED /\
    node_names m' = node_names m /\ node_map m' = node_map m.
Proof.
  intros Hbo Hc ->. unfold shutdownAllNodes, modify in Hc. expose in Hc.
  destruct (changeStateForAllNodes TRANSITION_DEACTIVATE _ _) as [[b1|e|] m1] eqn:H1;
    [|done..].
  destruct (changeStateForAllNodes TRANSITION_CLEANUP _ _) as [[b2|e|] m2] eqn:H2; [|done..].
  destruct (changeStateForAllNodes TRANSITION_UNCONFIGURED_SHUTDOWN _ _) as [[b3|e|] m3] eqn:H3;
    [|done..].
  injection Hc as <-. apply all_spec in H1 as [Hs1 Hb1 _ _ _], H2 as [Hs2 Hb2 _ _ _],
    H3 as [Hs3 Hb3 _ _ _].
  assert (same_config (set_state FINALIZED m) m3) as Hs by (by etrans; [|etrans]).
  split; [auto|]. by destruct Hs as (? & ? & ? & _).
Qed.

Lemma keeps_shutdown : keeps shutdown.
Proof.
  intros m b m' [Hbo _] Hc. unfold shutdown in Hc. expose in Hc.
  unfold destroyBondTimer, modify in Hc.
  destruct (shutdownAllNodes _) as [[[]|e|] m1] eqn:H1; [|done..].
  apply shutdown_all_spec in H1 as (Hb & Hst & _); [|done..].
  unfold destroyLifecycleServiceClients, modify in Hc. injection Hc as _ <-.
  apply inv_inactive; [done|]. simpl. by rewrite Hst.
Qed.

Lemma keeps_callback c : keeps (managerCallback c).
Proof.
  destruct c; simpl; [apply keeps_startup|apply keeps_configure|apply keeps_cleanup|
    apply keeps_reset|apply keeps_shutdown|apply keeps_pause|apply keeps_resume|].
  intros m b m' Hinv [= <- <-]. done.
Qed.

Lemma inv_env e m : inv m -> inv (set_env e m).
Proof. done. Qed.

Lemma inv_respawn t z m : inv m -> inv (set_respawn t z m).
Proof. done. Qed.

(** The bond loop: safe when every bond and every client exists. *)
Lemma bond_loop_spec names : forall m r m',
  inv m -> Forall (live m) (node_names m) ->
  Forall (fun n => bond_map m !! n = Some true) names ->
  bond_loop names m = (r, m') -> r <> UB /\ (r = Ok tt -> inv m').
Proof.
  induction names as [|n names IH]; intros m r m' Hinv Hl Hb Hc.
  { by injection Hc as <- <-. }
  inversion Hb as [|? ? Hbn Hbs]; subst.
  cbn [bond_loop] in Hc. unfold call, get, modify, undefined in Hc. expose in Hc.
  destruct (env_ok (env m)) as [[] e1]; unfold negb in Hc; cbv iota in Hc;
    [|by injection Hc as <- <-].
  destruct (decide (bond_map (set_env e1 m) !! n = Some true)) as [_|]; [|done].
  destruct (env_bond_broken n (env (set_env e1 m))) as [[] e2].
  - destruct (reset true _) as [rr m1] eqn:Hreset.
    apply reset_spec in Hreset as (Hr & Hu & _ & _); [|apply Hinv].
    destruct rr as [b|e|].
    + destruct (Hr b eq_refl) as [_ Hst].
      assert (inv (set_bond_map ∅ m1)) as Hi by (by apply inv_inactive; [split|]).
      destruct (attempt_respawn_reconnection _); injection Hc as <- <-; done.
    + injection Hc as <- <-. done.
    + by destruct (Hu Hl).
  - eapply IH; [| | |exact Hc]; done.
Qed.

Lemma check_bonds_spec m r m' :
  inv m -> checkBondConnections m = (r, m') -> r <> UB /\ (r = Ok tt -> inv m').
Proof.
  intros Hinv Hc. unfold checkBondConnections, get, call in Hc. expose in Hc.
  unfold isActive in Hc.
  destruct (bool_decide (managed_nodes_state m = ACTIVE)) eqn:Hact; unfold negb in Hc;
    cbv iota in Hc; [|by injection Hc as <- <-].
  apply bool_decide_eq_true in Hact. destruct Hinv as [Hbo Hin].
  destruct (Hin Hact) as [Hl Hbonds].
  destruct (env_ok (env m)) as [[] e1]; cbn [orb] in Hc; [|by injection Hc as <- <-].
  destruct (bool_decide (bond_map m = ∅)) eqn:Hem; [by injection Hc as <- <-|].
  apply bool_decide_eq_false in Hem.
  eapply (bond_loop_spec (node_names m)); [| | |exact Hc]; [by split|done|].
  apply Hbonds. destruct (Z.lt_ge_cases 0 (bond_timeout m)) as [|Hle]; [done|].
  by destruct Hem; apply Hbo.
Qed.

Lemma count_live_env names : forall k m r m',
  count_live names k m = (r, m') -> exists e, m' = set_env e m.
Proof.
  induction names as [|n names IH]; intros k m r m' Hc.
  { injection Hc as <- <-. exists (env m). by destruct m. }
  cbn [count_live] in Hc. unfold call in Hc. expose in Hc.
  destruct (env_ok (env m)) as [[] e1]; unfold negb in Hc; cbv iota in Hc;
    [|injection Hc as <- <-; eauto].
  unfold try_all, client, get, undefined, call_may_raise in Hc. expose in Hc.
  destruct (decide _); cbv iota in Hc; [|injection Hc as <- <-; eauto].
  destruct (env_get_state n _) as [[st|x] e2].
  - apply IH in Hc as [e3 ->]. by exists e3.
  - injection Hc as <- <-. by exists e2.
Qed.

Lemma keeps_respawn : keeps checkBondRespawnConnection.
Proof.
  intros m [] m' Hinv Hc. unfold checkBondRespawnConnection, get, call, modify in Hc. expose in Hc.
  match type of Hc with context [match ?x with _ => _ end] =>
    match x with (if _ then _ else _) _ => destruct x as [[[]|e|] m1] eqn:Hstart end end;
    [|done..].
  assert (inv m1) as Hi1.
  { destruct (bond_respawn_start_time m =? 0); [|by injection Hstart as <-].
    destruct (env_now (env m)) as [t e1]. injection Hstart as <-. by apply inv_respawn. }
  clear Hstart Hinv m.
  match type of Hc with context [match ?x with _ => _ end] =>
    match x with (if _ then _ else _) _ => destruct x as [[ok|e|] m2] eqn:Hok end end;
    [|done..].
  assert (exists e, m2 = set_env e m1) as [e ->].
  { destruct (isActive m1); [injection Hok as _ <-; exists (env m1); by destruct m1|].
    destruct (env_ok (env m1)). injection Hok as _ <-. eauto. }
  destruct (isActive m1 || negb ok || bool_decide (node_names m1 = [])).
  { injection Hc as <-. by apply inv_respawn. }
  destruct (count_live _ _ _) as [[[live|]|x|] m3] eqn:Hcount; [|..|done|done].
  - apply count_live_env in Hcount as [e3 ->].
    destruct (decide _).
    + destruct (startup _) as [[b|x|] m4] eqn:Hst; [|done..]. injection Hc as <-.
      eapply keeps_startup; [|exact Hst]. done.
    + destruct (env_now _) as [t e4]. destruct (_ <=? _); injection Hc as <-; done.
  - injection Hc as <-. apply count_live_env in Hcount as [e3 ->]. done.
Qed.

Lemma new_clients_spec names : forall m r m',
  new_clients names m = (r, m') ->
  r = Ok tt /\ (forall n, live m n -> live m' n) /\ bond_map m' = bond_map m /\
  bond_timeout m' = bond_timeout m /\ node_names m' = node_names m /\
  managed_nodes_state m' = managed_nodes_state m /\ (forall n, n ∈ names -> live m' n).
Proof.
  induction names as [|n names IH]; intros m r m' Hc.
  { injection Hc as <- <-. split_and!; try done. intros n Hn. by apply not_elem_of_nil in Hn. }
  cbn [new_clients] in Hc. unfold modify in Hc. expose in Hc.
  apply IH in Hc as (-> & Hl & Hb & Ht & Hn & Hs & Hall).
  assert (forall k, live m k ->
    live (set_node_map (<[n:=true]> (node_map m)) (set_env (env_new_client n (env m)) m)) k) as Hins.
  { intros k Hk. unfold live in *. simpl. destruct (decide (k = n)) as [->|];
      [by rewrite lookup_insert_eq|by rewrite lookup_insert_ne]. }
  split_and!; try done; [auto|].
  intros k [->|Hk]%elem_of_cons; [|auto]. apply Hl. unfold live. simpl.
  by rewrite lookup_insert_eq.
Qed.

Lemma keeps_init autostart : keeps (init_callback autostart).
Proof.
  intros m [] m' [Hbo Hin] Hc. unfold init_callback, createLifecycleServiceClients, get in Hc.
  expose in Hc. destruct (new_clients _ _) as [rc m1] eqn:Hn.
  apply new_clients_spec in Hn as (-> & Hl & Hb & Ht & Hnm & Hs & _).
  assert (inv m1) as Hi1.
  { split; [by eapply bonds_ok_same|]. rewrite Hs, Hnm, Ht, Hb. intros Ha.
    destruct (Hin Ha) as [Hlive Hbonds]. split; [|done].
    rewrite list.Forall_forall in *. auto. }
  destruct autostart; [|by injection Hc as <-].
  destruct (startup m1) as [[b|e|] m2] eqn:Hst; [|done..]. injection Hc as <-.
  by eapply keeps_startup.
Qed.

(** *** The manager as a transition system

    Its callbacks run one at a time; each returned normally. *)

Inductive step : manager E -> manager E -> Prop :=
  | step_init autostart m m' : init_callback autostart m = (Ok tt, m') -> step m m'
  | step_service c b m m' : managerCallback c m = (Ok b, m') -> step m m'
  | step_bonds m m' :
      bond_timer m = true -> checkBondConnections m = (Ok tt, m') -> step m m'
  | step_respawn m m' :
      bond_respawn_timer m = true -> checkBondRespawnConnection m = (Ok tt, m') -> step m m'
  | step_preshutdown m m' : onRclPreshutdown m = (Ok tt, m') -> step m m'.

Lemma keeps_step m m' : step m m' -> inv m -> inv m'.
Proof.
  intros [autostart m0 m1 Hc|c b m0 m1 Hc|m0 m1 _ Hc|m0 m1 _ Hc|m0 m1 Hc] Hinv.
  - by eapply keeps_init.
  - by eapply keeps_callback.
  - by eapply check_bonds_spec.
  - by eapply keeps_respawn.
  - unfold onRclPreshutdown, destroyBondTimer, modify in Hc. expose in Hc. injection Hc as <-.
    split; [by split|]. intros _. simpl. by split.
Qed.

Lemma keeps_steps m m' : rtc step m m' -> inv m -> inv m'.
Proof. induction 1; [done|]. eauto using keeps_step. Qed.

(** *** Taking nodes down *)

(** The node answers the deactivation and reports the inactive state. *)
Definition deactivates (n : string) : Prop :=
  forall e, exists e1 e2, env_change_state n TRANSITION_DEACTIVATE e = (Returned true, e1) /\
    env_get_state n e1 = (Returned PRIMARY_STATE_INACTIVE, e2).

(** The node's server is gone: the client throws. *)
Definition crashed (n : string) : Prop :=
  forall e, exists e', env_change_state n TRANSITION_DEACTIVATE e = (Raised runtime_error, e').

Lemma deactivate_one n m :
  live m n -> deactivates n ->
  exists m', changeStateForNode n TRANSITION_DEACTIVATE m = (Ok true, m') /\
    same_config m m' /\ history m' = history m ++ done_events TRANSITION_DEACTIVATE n.
Proof.
  intros Hl Hd. destruct (Hd (env m)) as (e1 & e2 & Hc & Hg).
  unfold changeStateForNode, client, get, modify, call_may_raise, undefined.
  expose.
  destruct (decide (node_map m !! n = Some true)) as [_|]; [|done].
  cbn [env record_event]. rewrite Hc. cbv iota.
  destruct (decide _) as [_|]; [|done]. cbn [env set_env]. rewrite Hg. cbv iota.
  rewrite bool_decide_eq_true_2 by done. cbn [negb].
  destruct (decide (TRANSITION_DEACTIVATE = TRANSITION_ACTIVATE)) as [|_]; [done|].
  destruct (decide (TRANSITION_DEACTIVATE = TRANSITION_DEACTIVATE)) as [_|]; [|done].
  eexists. split; [reflexivity|]. split; [done|]. simpl. by rewrite <- app_assoc.
Qed.

Lemma crashed_one n m :
  live m n -> crashed n ->
  exists m', changeStateForNode n TRANSITION_DEACTIVATE m = (Throw runtime_error, m') /\
    same_config m m' /\ history m' = history m ++ [Request n TRANSITION_DEACTIVATE].
Proof.
  intros Hl Hd. destruct (Hd (env m)) as (e1 & Hc).
  unfold changeStateForNode, client, get, modify, call_may_raise, undefined.
  expose.
  destruct (decide (node_map m !! n = Some true)) as [_|]; [|done].
  cbn [env record_event]. rewrite Hc. by eexists.
Qed.

(** The loop stops at the first crashed node, hard or not. *)
Lemma loop_stops hard n rest : forall l m,
  Forall deactivates l -> Forall (live m) l -> live m n -> crashed n ->
  exists m', change_loop (l ++ n :: rest) TRANSITION_DEACTIVATE hard m = (Ok false, m') /\
    same_config m m' /\
    history m' = history m ++ (l ≫= done_events TRANSITION_DEACTIVATE) ++
                 [Request n TRANSITION_DEACTIVATE].
Proof.
  induction l as [|k l IH]; intros m Hd Hl Hn Hcr.
  - destruct (crashed_one n m Hn Hcr) as (m' & Hc & Hs & Hh). exists m'.
    split; [|done]. cbn [app change_loop]. unfold try_runtime.
    expose. by rewrite Hc.
  - apply Forall_cons in Hd as [Hk Hd], Hl as [Hlk Hl].
    destruct (deactivate_one k m Hlk Hk) as (m1 & Hc & Hs & Hh).
    assert (node_map m1 = node_map m) as Hm by apply Hs.
    destruct (IH m1) as (m' & Hc' & Hs' & Hh'); [done|unfold live in *; by rewrite Hm..|done|].
    exists m'. split; [|split; [by etrans|]].
    + cbn [app change_loop]. unfold try_runtime. expose. rewrite Hc. cbn [negb]. destruct hard; exact Hc'.
    + rewrite Hh', Hh. cbn [mbind list_bind]. by rewrite <- !app_assoc.
Qed.

(** ** Properties *)

(** C32: Bring-up. If [startup] returns true, it configured every node in
    list order, then activated every node in list order, each node having reported
    the expected state; the manager is then active, and every node has a bond and the
    bond timer runs when bonds are enabled. If it returns false, the manager is in
    the unknown state, and configuring or, after all nodes were configured, activating stopped at one
    node: all nodes before it in the list have made the transition and none after it was asked; that node refused or
    raised, its state could not be read, it reported another state, or, although it reported that it is active, its
    bond was not formed. *)
Theorem lifecycle_startup m r m' (Hbo : bonds_ok m) (Hc : startup m = (r, m')) :
  match r with
  | Ok true => managed_nodes_state m' = ACTIVE /\
      history m' = history m ++ (node_names m ≫= done_events TRANSITION_CONFIGURE) ++
        (node_names m ≫= done_events TRANSITION_ACTIVATE) /\
      (0 < bond_timeout m -> bond_timer m' = true /\
         Forall (fun n => bond_map m' !! n = Some true) (node_names m))
  | Ok false => managed_nodes_state m' = UNKNOWN /\
      exists evs, (history m' = history m ++ evs /\
                   failed TRANSITION_CONFIGURE (node_names m) (bond_timeout m) evs) \/
        (history m' = history m ++ (node_names m ≫= done_events TRANSITION_CONFIGURE) ++ evs /\
         failed TRANSITION_ACTIVATE (node_names m) (bond_timeout m) evs)
  | Throw _ => managed_nodes_state m' = managed_nodes_state m
  | UB => exists n, n ∈ node_names m /\ ~ live m n
  end.
Proof.
  destruct (startup_spec m r m' Hbo Hc) as (m1 & Hs & Hr).
  destruct Hs as (Hs1 & _ & Hs3 & _ & _ & Hs6 & _).
  destruct r as [[]|e|].
  - destruct Hr as (-> & [_ Hin] & Hh). split; [done|]. split; [exact Hh|].
    intros Ht. simpl in *. destruct (Hin eq_refl) as [_ Hbond]. rewrite Hs1, Hs6 in *.
    split; [by rewrite (proj2 (Z.ltb_lt _ _))|auto].
  - destruct Hr as (-> & _ & Hr). by split.
  - by subst m'.
  - done.
Qed.

(** No null pointer while the nodes are watched. In every state the manager
    reaches through its callbacks, in any order and with any behaviour of the
    middleware, checking the bonds never dereferences a missing bond or client;
    when the manager says the nodes are active, every node has its client, and its
    bond if bonds are enabled. *)
Theorem lifecycle_bonds_safe e names timeout respawn attempt m
  (Hreach : rtc step (new e names timeout respawn attempt) m) :
  (checkBondConnections m).1 <> UB /\
  (managed_nodes_state m = ACTIVE ->
     Forall (live m) (node_names m) /\
     (0 < timeout -> bond_timeout m = timeout ->
        Forall (fun n => bond_map m !! n = Some true) (node_names m))).
Proof.
  assert (inv m) as [Hbo Hin].
  { apply (keeps_steps _ _ Hreach). by apply inv_inactive; [split|]. }
  split.
  - destruct (checkBondConnections m) as [r m'] eqn:Hc.
    by apply check_bonds_spec in Hc as [Hr _].
  - intros Ha. destruct (Hin Ha) as [Hl Hb]. split; [done|]. intros ? Ht. rewrite Ht in Hb. auto.
Qed.

(** A hard reset does not reach every node. When one node's server has
    crashed, so that its client throws, the hard reset started by a broken bond
    deactivates the nodes after it in the list, asks the crashed one and stops: the
    nodes before it stay active, no node is cleaned up, and yet it returns true
    with the manager in the unconfigured state. *)
Theorem lifecycle_hard_reset_stops m pre n post
  (Hnames : node_names m = pre ++ n :: post)
  (Hlive : Forall (live m) (node_names m))
  (Hpost : Forall deactivates post) (Hn : crashed n) :
  exists m', reset true m = (Ok true, m') /\ managed_nodes_state m' = UNCONFIGURED /\
    history m' = history m ++ (reverse post ≫= done_events TRANSITION_DEACTIVATE) ++
                 [Request n TRANSITION_DEACTIVATE].
Proof.
  set (m0 := set_bond_timer false m).
  rewrite Hnames in Hlive. apply Forall_app in Hlive as [_ Hlive].
  apply Forall_cons in Hlive as [Hln Hlp].
  destruct (loop_stops true n (reverse pre) (reverse post) m0) as (m1 & Hc & _ & Hh);
    [by apply Forall_reverse|by apply Forall_reverse|done..|].
  exists (set_state UNCONFIGURED m1). split; [|by split].
  unfold reset, destroyBondTimer, modify, both. expose. fold m0. rewrite all_nodes_eq.
  replace (order_of TRANSITION_DEACTIVATE m0) with (reverse post ++ n :: reverse pre); cycle 1.
  { simpl. by rewrite Hnames, reverse_app, reverse_cons, <- app_assoc. }
  by rewrite Hc.
Qed.

(** There is no restart after a shutdown. [shutdown] resets the client
    pointers but keeps their keys, so every later command of a non empty node list
    dereferences a null pointer. *)
Theorem lifecycle_shutdown_final m b m' c
  (Hs : shutdown m = (Ok b, m')) (Hbo : bonds_ok m) (Hne : node_names m <> [])
  (Hcmd : c <> OTHER_COMMAND) :
  managed_nodes_state m' = FINALIZED /\ (managerCallback c m').1 = UB.
Proof.
  unfold shutdown in Hs. expose in Hs. unfold destroyBondTimer, modify in Hs.
  destruct (shutdownAllNodes _) as [[[]|e|] m1] eqn:H1; [|done..].
  apply shutdown_all_spec in H1 as (_ & Hst & Hnm & _); [|done..].
  unfold destroyLifecycleServiceClients, modify in Hs. injection Hs as _ <-.
  set (m2 := set_node_map _ m1). split; [done|].
  assert (forall n, ~ live m2 n) as Hdead.
  { intros n Hl. unfold live, m2 in Hl. simpl in Hl.
    apply lookup_fmap_Some in Hl as (? & ? & _). done. }
  assert (node_names m2 <> []) as Hne2 by (simpl; by rewrite Hnm).
  clearbody m2.
  assert (forall t h m3, node_map m3 = node_map m2 -> node_names m3 = node_names m2 ->
    (changeStateForAllNodes t h m3).1 = UB) as Hub.
  { intros t h m3 Hm3 Hn3. rewrite all_nodes_eq.
    assert (order_of t m3 <> []) as Ho.
    { destruct t; simpl; rewrite Hn3; try done;
        intros Heq; apply (f_equal reverse) in Heq; by rewrite reverse_involutive in Heq. }
    destruct (order_of t m3) as [|n l]; [done|]. cbn [change_loop].
    unfold try_runtime, changeStateForNode, client, get, undefined.
    expose. rewrite Hm3.
    destruct (decide (node_map m2 !! n = Some true)) as [Hl|]; [by apply Hdead in Hl|done]. }
  destruct c; simpl; try done.
  all: unfold startup, configure, cleanup, reset, shutdown, pause, resume, shutdownAllNodes, both,
    destroyBondTimer, modify; unfold mbind, ST_bind, mret, ST_ret; cbv beta iota.
  all: match goal with |- context [changeStateForAllNodes ?t ?h ?m3] =>
    specialize (Hub t h m3 eq_refl eq_refl);
    destruct (changeStateForAllNodes t h m3) as [[]]; done end.
Qed.

End Manager.

(** ** A concrete middleware

    Nodes change state as they are asked; those named in the first component
    have crashed. *)
Record demo : Type := mk_demo { dead : list string; states : gmap string State }.

#[local] Instance demo_environment : Environment demo := {|
  env_new_client _ e := e;
  env_change_state n t e :=
    if decide (n ∈ dead e) then (Raised runtime_error, e)
    else (Returned true, mk_demo (dead e) (<[n := transition_state_map t]> (states e)));
  env_get_state n e := (Returned (default PRIMARY_STATE_UNCONFIGURED (states e !! n)), e);
  env_new_bond _ e := e;
  env_wait_bond _ e := (true, e);
  env_bond_broken n e := (bool_decide (n ∈ dead e), e);
  env_ok e := (true, e);
  env_now e := (1, e) |}.

Definition demo_new : manager demo := new (mk_demo [] ∅) ["map"; "planner"; "bt"]%string 4000 10 true.

Definition demo_ready : manager demo := (init_callback false demo_new).2.

Lemma demo_ready_inv : inv demo_ready.
Proof.
  eapply (keeps_init false demo_new tt); [|vm_compute; reflexivity].
  by apply inv_inactive; [split|].
Qed.

Lemma lifecycle_startup_witness :
  managed_nodes_state (startup demo_ready).2 = ACTIVE /\ bond_timer (startup demo_ready).2 = true.
Proof.
  assert (startup demo_ready = (Ok true, (startup demo_ready).2)) as Hc
    by (vm_compute; reflexivity).
  destruct (lifecycle_startup demo_ready (Ok true) (startup demo_ready).2
    (proj1 demo_ready_inv) Hc) as (Hs & _ & Hb).
  split; [exact Hs|]. apply Hb. vm_compute. reflexivity.
Defined.

Lemma lifecycle_bonds_safe_witness :
  (checkBondConnections (startup demo_ready).2).1 <> UB.
Proof.
  refine (proj1 (lifecycle_bonds_safe (mk_demo [] ∅) ["map"; "planner"; "bt"]%string 4000 10 true
    (startup demo_ready).2 _)).
  eapply rtc_l; [apply (step_init false demo_new demo_ready); vm_compute; reflexivity|].
  apply rtc_once. apply (step_service STARTUP true). vm_compute. reflexivity.
Defined.

(** The crashed node and its neighbours in the middleware above, whatever the
    state they are asked in. *)
#[local] Instance crash_environment : Environment unit := {|
  env_new_client _ e := e;
  env_change_state n t e :=
    if decide (n = "planner"%string) then (Raised runtime_error, e) else (Returned true, e);
  env_get_state _ e := (Returned PRIMARY_STATE_INACTIVE, e);
  env_new_bond _ e := e;
  env_wait_bond _ e := (true, e);
  env_bond_broken n e := (bool_decide (n = "planner"%string), e);
  env_ok e := (true, e);
  env_now e := (1, e) |}.

Definition crash_manager : manager unit :=
  set_state ACTIVE (init_callback (E := unit) false
    (new (E := unit) tt ["map"; "planner"; "bt"]%string 4000 10 true)).2.

Lemma lifecycle_hard_reset_stops_witness :
  exists m', reset (E := unit) true crash_manager = (Ok true, m') /\
    managed_nodes_state m' = UNCONFIGURED /\
    history m' = [Request "bt" TRANSITION_DEACTIVATE;
                  Report "bt" PRIMARY_STATE_INACTIVE;
                  Request "planner" TRANSITION_DEACTIVATE]%string.
Proof.
  assert (Forall (live crash_manager) (node_names crash_manager)) as Hl
    by (repeat (apply Forall_cons_2 || apply Forall_nil_2); vm_compute; reflexivity).
  assert (Forall (deactivates (E := unit)) ["bt"%string]) as Hd.
  { apply Forall_cons_2; [|apply Forall_nil_2]. intros []. exists tt, tt. by split. }
  assert (crashed (E := unit) "planner"%string) as Hcr by (intros []; by exists tt).
  exact (lifecycle_hard_reset_stops crash_manager ["map"%string] "planner"%string ["bt"%string]
    eq_refl Hl Hd Hcr).
Defined.

Lemma lifecycle_shutdown_final_witness :
  managed_nodes_state (shutdown demo_ready).2 = FINALIZED /\
  (managerCallback STARTUP (shutdown demo_ready).2).1 = UB.
Proof.
  assert (shutdown demo_ready = (Ok true, (shutdown demo_ready).2)) as Hc
    by (vm_compute; reflexivity).
  exact (lifecycle_shutdown_final demo_ready true (shutdown demo_ready).2 STARTUP Hc
    (proj1 demo_ready_inv) ltac:(discriminate) ltac:(discriminate)).
Defined.
End Lifecycle.
