(* ===== verification/BehaviorTree.v ===== *)
(** * Behaviour tree nodes: what they use of the engine

    The nodes of [nav2_behavior_tree/plugins] are built on the BehaviorTree.CPP
    library, which is not part of the repository. A node ticks and halts its
    children, reads and writes its own status and reads its ports through it;
    these calls are the class [Engine], a parameter of every node. [Logged] adds
    a record of the calls that reach the children to any engine, to state which
    child is ticked when. *)

From stdpp Require Import base option list numbers.
From Stdlib Require Import ZArith Lia.
From S2P Require Import Prelude.

Module BT.

Inductive NodeStatus : Type := IDLE | RUNNING | SUCCESS | FAILURE | SKIPPED.

#[export] Instance node_status_eq_dec : EqDecision NodeStatus.
Proof. solve_decision. Defined.

(** How often an answer occurs in a list of answers. *)
Definition count (st : NodeStatus) (ss : list NodeStatus) : Z :=
  Z.of_nat (length (filter (eq st) ss)).

Lemma count_cons st x ss : count st (x :: ss) = (if decide (st = x) then 1 else 0) + count st ss.
Proof. unfold count. rewrite list.filter_cons. destruct (decide (st = x)); simpl length; lia. Qed.

Lemma count_snoc st ss x : count st (ss ++ [x]) = count st ss + (if decide (st = x) then 1 else 0).
Proof.
  unfold count. rewrite list.filter_app, length_app, Nat2Z.inj_add, list.filter_cons, list.filter_nil.
  by destruct (decide (st = x)).
Qed.

Lemma count_bound st ss : 0 <= count st ss <= Z.of_nat (length ss).
Proof. unfold count. pose proof (list.length_filter (eq st) ss). lia. Qed.

Lemma count_all st ss : count st ss = Z.of_nat (length ss) <-> Forall (eq st) ss.
Proof.
  induction ss as [|x ss IH]; [by split|].
  pose proof (count_bound st ss) as Hb. rewrite count_cons.
  destruct (decide (st = x)) as [Hst|Hst]; simpl length.
  - rewrite list.Forall_cons, <- IH. split; [intros; split; [done|lia]|intros []; lia].
  - split; [lia|]. by intros [? _]%list.Forall_cons.
Qed.

(** [executeTick] on the [i]-th child may raise; [engine_halt_node] is the base
    class's [ControlNode::halt], [engine_active] is [isStatusActive]. *)
Class Engine (E : Type) : Type := {
  engine_tick : nat -> E -> outcome NodeStatus * E;
  engine_halt_child : nat -> E -> E;
  engine_halt_children : E -> E;
  engine_halt_node : E -> E;
  engine_child_status : nat -> E -> NodeStatus;
  engine_status : E -> NodeStatus;
  engine_set_status : NodeStatus -> E -> E;
  engine_active : NodeStatus -> bool }.

(** What the library promises of the status of a node: it is what was last set, and
    a running node is active, an idle or skipped one is not. *)
Class EngineLaws (E : Type) `{Engine E} : Prop := {
  active_running : engine_active RUNNING = true;
  active_idle : engine_active IDLE = false;
  status_set s e : engine_status (engine_set_status s e) = s;
  child_status_set i s e : engine_child_status i (engine_set_status s e) = engine_child_status i e }.

(** A node: its own members and the rest of the tree. *)
Record node (L E : Type) : Type := mk_node { local : L; tree : E }.
Arguments mk_node {L E}.
Arguments local {L E}.
Arguments tree {L E}.

Section Calls.
Context {L E : Type} `{Engine E}.

Definition call (f : E -> E) : ST (node L E) () :=
  modify (fun s => mk_node (local s) (f (tree s))).

Definition executeTick (i : nat) : ST (node L E) NodeStatus := fun s =>
  let '(o, e) := engine_tick i (tree s) in (of_outcome o, mk_node (local s) e).
Definition haltChild (i : nat) : ST (node L E) () := call (engine_halt_child i).
Definition haltChildren : ST (node L E) () := call engine_halt_children.
Definition haltNode : ST (node L E) () := call engine_halt_node.
Definition setStatus (st : NodeStatus) : ST (node L E) () := call (engine_set_status st).
Definition status : ST (node L E) NodeStatus := s ← get; mret (engine_status (tree s)).
Definition child_status (i : nat) : ST (node L E) NodeStatus :=
  s ← get; mret (engine_child_status i (tree s)).
Definition is_active : ST (node L E) bool := s ← get; mret (engine_active (engine_status (tree s))).
Definition members : ST (node L E) L := s ← get; mret (local s).
Definition update (f : L -> L) : ST (node L E) () :=
  modify (fun s => mk_node (f (local s)) (tree s)).
End Calls.

(** ** An engine with a record of the calls *)

Inductive event : Type :=
  | Ticked (i : nat) (st : NodeStatus)
  | TickRaised (i : nat) (e : exn)
  | HaltedChild (i : nat)
  | HaltedChildren
  | HaltedNode.

Definition ticked (i : nat) (o : outcome NodeStatus) : event :=
  match o with Returned st => Ticked i st | Raised e => TickRaised i e end.

Record logged (E : Type) : Type := mk_logged { engine : E; log : list event }.
Arguments mk_logged {E}.
Arguments engine {E}.
Arguments log {E}.

Definition on_engine {E} (f : E -> E) (ev : option event) (l : logged E) : logged E :=
  mk_logged (f (engine l)) (log l ++ option_list ev).

#[export] Instance logged_engine E `{Engine E} : Engine (logged E) := {|
  engine_tick i l :=
    let '(o, e) := engine_tick i (engine l) in (o, mk_logged e (log l ++ [ticked i o]));
  engine_halt_child i := on_engine (engine_halt_child i) (Some (HaltedChild i));
  engine_halt_children := on_engine engine_halt_children (Some HaltedChildren);
  engine_halt_node := on_engine engine_halt_node (Some HaltedNode);
  engine_child_status i l := engine_child_status i (engine l);
  engine_status l := engine_status (engine l);
  engine_set_status st := on_engine (engine_set_status st) None;
  engine_active := engine_active |}.

#[export] Instance logged_laws E `{EngineLaws E} : EngineLaws (logged E).
Proof.
  split; intros; simpl;
    [apply active_running|apply active_idle|apply status_set|apply child_status_set].
Qed.

(** ** The clock *)

Class Clock (E : Type) : Type := clock_now : E -> Z * E.

(** Reading the clock does not change the status of nodes. *)
Class ClockLaws (E : Type) `{Engine E} `{Clock E} : Prop := {
  clock_status e : engine_status (clock_now e).2 = engine_status e;
  clock_child i e : engine_child_status i (clock_now e).2 = engine_child_status i e }.

#[export] Instance logged_clock E `{Clock E} : Clock (logged E) :=
  fun l => let '(t, e) := clock_now (engine l) in (t, mk_logged e (log l)).

Definition now {L E} `{Clock E} : ST (node L E) Z := fun s =>
  let '(t, e) := clock_now (tree s) in (Ok t, mk_node (local s) e).

(** *** The calls of a node, one by one *)

Section Steps.
Context {L E : Type} `{Engine E} `{Clock E}.
Implicit Types (m : L) (e : E) (l : list event).

Lemma step_set_status st m e l :
  setStatus st (mk_node m (mk_logged e l)) = (Ok tt, mk_node m (mk_logged (engine_set_status st e) l)).
Proof. unfold setStatus, call, modify. simpl. unfold on_engine. simpl. by rewrite app_nil_r. Qed.

Lemma step_status m e l :
  status (mk_node m (mk_logged e l)) = (Ok (engine_status e), mk_node m (mk_logged e l)).
Proof. done. Qed.

Lemma step_is_active m e l :
  is_active (mk_node m (mk_logged e l)) = (Ok (engine_active (engine_status e)), mk_node m (mk_logged e l)).
Proof. done. Qed.

Lemma step_child_status i m e l :
  child_status i (mk_node m (mk_logged e l)) = (Ok (engine_child_status i e), mk_node m (mk_logged e l)).
Proof. done. Qed.

Lemma step_members m e l :
  members (mk_node m (mk_logged e l)) = (Ok m, mk_node m (mk_logged e l)).
Proof. done. Qed.

Lemma step_get m e l :
  get (mk_node m (mk_logged e l)) = (Ok (mk_node m (mk_logged e l)), mk_node m (mk_logged e l)).
Proof. done. Qed.

Lemma step_update f m e l :
  update f (mk_node m (mk_logged e l)) = (Ok tt, mk_node (f m) (mk_logged e l)).
Proof. done. Qed.

Lemma step_now m e l :
  now (mk_node m (mk_logged e l)) =
    (Ok (clock_now e).1, mk_node m (mk_logged (clock_now e).2 l)).
Proof. unfold now, clock_now at 1, logged_clock. simpl. by destruct (clock_now e). Qed.

Lemma step_tick i m e l :
  executeTick i (mk_node m (mk_logged e l)) =
    (of_outcome (engine_tick i e).1,
     mk_node m (mk_logged (engine_tick i e).2 (l ++ [ticked i (engine_tick i e).1]))).
Proof. unfold executeTick. simpl. by destruct (engine_tick i e). Qed.
End Steps.

(** Run a node call by call. *)
Ltac step_node :=
  unfold mbind, ST_bind, mret, ST_ret, throw; cbv beta iota;
  repeat (progress rewrite ?step_set_status, ?step_status, ?step_is_active, ?step_child_status,
            ?step_members, ?step_get, ?step_update, ?step_now, ?step_tick;
          cbv beta iota; cbn [local tree engine app]).

(** ** A scripted engine, for examples

    Every tick of a child takes the next answer of its script; a child without
    answers left fails. *)

Record script : Type := mk_script { answers : nat -> list NodeStatus; own : NodeStatus }.

Definition next_answer (i : nat) (s : script) : NodeStatus * script :=
  match answers s i with
  | [] => (FAILURE, s)
  | a :: l => (a, mk_script (fun j => if decide (j = i) then l else answers s j) (own s))
  end.

#[export] Instance script_engine : Engine script := {|
  engine_tick i s := let '(a, s) := next_answer i s in (Returned a, s);
  engine_halt_child _ s := s;
  engine_halt_children s := s;
  engine_halt_node s := s;
  engine_child_status _ _ := IDLE;
  engine_status s := own s;
  engine_set_status st s := mk_script (answers s) st;
  engine_active st := negb (bool_decide (st = IDLE) || bool_decide (st = SKIPPED)) |}.

#[export] Instance script_laws : EngineLaws script.
Proof. by split. Qed.

(** Its clock stands still. *)
#[export] Instance script_clock : Clock script := fun s => (0, s).

#[export] Instance script_clock_laws : ClockLaws script.
Proof. by split. Qed.

Definition scripted (l : list (list NodeStatus)) : logged script :=
  mk_logged (mk_script (fun i => nth i l []) IDLE) [].

End BT.
