(* ===== verification/ControlNodes.v ===== *)
(** * Control nodes ([nav2_behavior_tree/plugins/control])

    [PipelineSequence], [RecoveryNode] and [RoundRobinNode]: their members, [tick]
    and [halt], over an arbitrary engine. *)

From stdpp Require Import base option list numbers.
From Stdlib Require Import ZArith Lia.
From S2P Require Import Prelude BehaviorTree.

Module PipelineSequence.
Import BT.

Section Node.
Context {E : Type} `{Engine E}.
Abbreviation M := (ST (node nat E)).

(** The only member is [last_child_ticked_]. *)
Definition new (e : E) : node nat E := mk_node 0%nat e.

Definition wrap_up (children : nat) (skipped_count : Z) : M NodeStatus :=
  haltChildren;;
  update (fun _ => 0%nat);;
  mret (if skipped_count =? Z.of_nat children then SKIPPED else SUCCESS).

(** The loop from child [i], with [rest] children to go. *)
Fixpoint tick_loop (children rest i : nat) (skipped_count : Z) : M NodeStatus :=
  match rest with
  | O => wrap_up children skipped_count
  | S rest =>
      status ← executeTick i;
      match status with
      | FAILURE => haltChildren;; update (fun _ => 0%nat);; mret status
      | SKIPPED => tick_loop children rest (S i) (wrapu 32 (skipped_count + 1))
      | SUCCESS => tick_loop children rest (S i) skipped_count
      | RUNNING =>
          last_child_ticked ← members;
          if (last_child_ticked <=? i)%nat then update (fun _ => i);; mret status
          else tick_loop children rest (S i) skipped_count
      | IDLE => throw runtime_error
      end
  end.

(** [children] is [children_nodes_.size()]. *)
Definition tick (children : nat) : M NodeStatus := tick_loop children children 0 0.

Definition halt : M () := haltNode;; update (fun _ => 0%nat).
End Node.

(** An answer that lets the loop go on to the next child. *)
Definition passes (last i : nat) (st : NodeStatus) : Prop :=
  st = SUCCESS \/ st = SKIPPED \/ (st = RUNNING /\ (i < last)%nat).

Definition all_pass (last : nat) (ss : list NodeStatus) : Prop :=
  forall i st, ss !! i = Some st -> passes last i st.

(** How a tick ends, the children having answered [ss] in order. *)
Definition outcome_of (children last : nat) (ss : list NodeStatus) (r : res NodeStatus)
    (last' : nat) (calls : list event) : Prop :=
  match r with
  | Ok FAILURE => last' = 0%nat /\ exists i, (i < children)%nat /\ length ss = i /\
      all_pass last ss /\ calls = imap Ticked ss ++ [Ticked i FAILURE; HaltedChildren]
  | Ok RUNNING => (last <= last' < children)%nat /\ length ss = last' /\
      all_pass last ss /\ calls = imap Ticked ss ++ [Ticked last' RUNNING]
  | Ok SUCCESS => last' = 0%nat /\ length ss = children /\ all_pass last ss /\
      ~ Forall (eq SKIPPED) ss /\ calls = imap Ticked ss ++ [HaltedChildren]
  | Ok SKIPPED => last' = 0%nat /\ length ss = children /\
      Forall (eq SKIPPED) ss /\ calls = imap Ticked ss ++ [HaltedChildren]
  | Throw e => last' = last /\ (length ss < children)%nat /\ all_pass last ss /\
      (calls = imap Ticked ss ++ [TickRaised (length ss) e] \/
       (e = runtime_error /\ calls = imap Ticked ss ++ [Ticked (length ss) IDLE]))
  | Ok IDLE | UB => False
  end.

Lemma all_pass_snoc last ss st :
  all_pass last ss -> passes last (length ss) st -> all_pass last (ss ++ [st]).
Proof.
  intros Ha Hp i st' [Hl|[Hlen Hl]]%lookup_app_Some; [by apply Ha|].
  apply list_lookup_singleton_Some in Hl as [Hi <-].
  by replace i with (length ss) by lia.
Qed.

Lemma imap_snoc ss st : imap Ticked (ss ++ [st]) = imap Ticked ss ++ [Ticked (length ss) st].
Proof. rewrite imap_app. simpl. by rewrite Nat.add_0_r. Qed.

Section Laws.
Context {E : Type} `{Engine E}.

Lemma pipeline_loop_spec children last lg : forall rest ss e r s',
  (length ss + rest)%nat = children -> Z.of_nat children < 2 ^ 32 -> all_pass last ss ->
  tick_loop children rest (length ss) (count SKIPPED ss)
    (mk_node last (mk_logged e (lg ++ imap Ticked ss))) = (r, s') ->
  exists ss' calls, log (tree s') = lg ++ calls /\ outcome_of children last ss' r (local s') calls.
Proof.
  induction rest as [|rest IH]; intros ss e r s' Hlen Hmax Hp Hc.
  - cbn [tick_loop] in Hc. unfold wrap_up, haltChildren, update, BT.call, modify in Hc.
    expose in Hc. injection Hc as <- <-.
    exists ss, (imap Ticked ss ++ [HaltedChildren]). simpl. rewrite app_assoc. split; [done|].
    destruct (Z.eqb_spec (count SKIPPED ss) (Z.of_nat children)) as [Hs|Hs];
      replace children with (length ss) in * by lia; rewrite count_all in Hs; by split.
  - cbn [tick_loop] in Hc. expose in Hc.
    unfold executeTick in Hc at 1. simpl engine_tick in Hc.
    destruct (engine_tick (length ss) e) as [[st|x] e1]; cbn [of_outcome ticked] in Hc;
      cbv beta iota in Hc.
    + assert (forall p, passes last (length ss) st -> p = count SKIPPED (ss ++ [st]) ->
        tick_loop children rest (S (length ss)) p
          (mk_node last (mk_logged e1 ((lg ++ imap Ticked ss) ++ [Ticked (length ss) st]))) =
          (r, s') ->
        exists ss' calls, log (tree s') = lg ++ calls /\
          outcome_of children last ss' r (local s') calls) as Hgo.
      { intros p Hst -> Hc'. rewrite <- app_assoc, <- imap_snoc in Hc'.
        replace (S (length ss)) with (length (ss ++ [st])) in Hc' by (rewrite length_app; simpl; lia).
        eapply IH; [..|exact Hc']; [rewrite length_app; simpl; lia|done|by apply all_pass_snoc]. }
      pose proof (count_bound SKIPPED ss) as Hb. rewrite count_snoc in Hgo.
      destruct st.
      * unfold throw in Hc. injection Hc as <- <-. exists ss, (imap Ticked ss ++ [Ticked (length ss) IDLE]).
        rewrite app_assoc. split; [done|]. simpl. repeat split; [lia|done|]. by right.
      * unfold members, update, get, modify in Hc. expose in Hc. cbn [local tree] in Hc.
        destruct (Nat.leb_spec last (length ss)).
        -- injection Hc as <- <-. exists ss, (imap Ticked ss ++ [Ticked (length ss) RUNNING]).
           rewrite app_assoc. split; [done|]. simpl. repeat split; [lia..|done].
        -- apply (Hgo (count SKIPPED ss)); [by right; right|simpl; lia|done].
      * apply (Hgo (count SKIPPED ss)); [by left|simpl; lia|done].
      * unfold haltChildren, BT.call, update, modify in Hc. injection Hc as <- <-.
        exists ss, (imap Ticked ss ++ [Ticked (length ss) FAILURE; HaltedChildren]).
        simpl. rewrite <- !app_assoc. split; [done|]. split; [done|].
        exists (length ss). split; [lia|done].
      * eapply Hgo; [by right; left|..|exact Hc]. simpl. apply wrapu_id. unfold in_u. lia.
    + injection Hc as <- <-. exists ss, (imap Ticked ss ++ [TickRaised (length ss) x]).
      rewrite app_assoc. split; [done|]. simpl. repeat split; [lia|done|]. by left.
Qed.

(** A tick of a pipeline sequence. The children are ticked from the first one
    on, and past a child that is still running only if the pipeline has been beyond
    it before. A failing child ends it with FAILURE; a running child at or beyond
    [last_child_ticked_] gives RUNNING and becomes the new mark, which never goes
    back while the node runs; SUCCESS means that every child was ticked and passed,
    SKIPPED that every child was skipped. In the last three cases the children are
    halted and the mark is reset. *)
Theorem pipeline_tick children last e r s' (Hmax : Z.of_nat children < 2 ^ 32)
  (Hc : tick children (mk_node last (mk_logged e [])) = (r, s')) :
  exists ss, outcome_of children last ss r (local s') (log (tree s')).
Proof.
  destruct (pipeline_loop_spec children last [] children [] e r s') as (ss & calls & Hlog & Ho);
    [done|done|by intros ??|exact Hc|].
  exists ss. by rewrite Hlog.
Qed.
End Laws.

(** The example of the class's documentation: three children, four ticks. *)
Definition documented : logged script :=
  scripted [[RUNNING; SUCCESS; RUNNING; RUNNING]; [RUNNING; SUCCESS; SUCCESS]; [RUNNING; SUCCESS]].

Fixpoint ticks (k children : nat) (s : node nat (logged script)) : list (res NodeStatus) * node nat (logged script) :=
  match k with
  | O => ([], s)
  | S k => let '(r, s) := tick children s in let '(rs, s) := ticks k children s in (r :: rs, s)
  end.

Example pipeline_documented :
  (ticks 4 3 (new documented)).1 = [Ok RUNNING; Ok RUNNING; Ok RUNNING; Ok SUCCESS] /\
  log (tree (ticks 4 3 (new documented)).2) =
    [Ticked 0 RUNNING; Ticked 0 SUCCESS; Ticked 1 RUNNING;
     Ticked 0 RUNNING; Ticked 1 SUCCESS; Ticked 2 RUNNING;
     Ticked 0 RUNNING; Ticked 1 SUCCESS; Ticked 2 SUCCESS; HaltedChildren].
Proof. by vm_compute. Qed.

Lemma pipeline_tick_witness :
  exists ss, outcome_of 3 1 ss (Ok RUNNING) 2
    [Ticked 0 RUNNING; Ticked 1 SUCCESS; Ticked 2 RUNNING].
Proof.
  exact (pipeline_tick 3 1 (mk_script (fun i => nth i [[RUNNING]; [SUCCESS]; [RUNNING]] []) IDLE)
    (Ok RUNNING) _ eq_refl eq_refl).
Defined.
End PipelineSequence.

Module RecoveryNode.
Import BT.

Record members : Type := mk_members {
  current_child_idx : Z; number_of_retries : Z; retry_count : Z }.

Definition set_idx (i : Z) (m : members) : members :=
  mk_members i (number_of_retries m) (retry_count m).
Definition set_retries (n : Z) (m : members) : members :=
  mk_members (current_child_idx m) n (retry_count m).
Definition set_count (c : Z) (m : members) : members :=
  mk_members (current_child_idx m) (number_of_retries m) c.

Section Node.
Context {E : Type} `{Engine E}.
Abbreviation M := (ST (node members E)).

Definition new (e : E) : node members E := mk_node (mk_members 0 1 0) e.

Definition halt : M () := haltNode;; update (fun m => set_idx 0 (set_count 0 m)).

Definition finish (st : NodeStatus) : M NodeStatus := halt;; mret st.

(** An answer of the first child: the node's status, or [None] to go on. *)
Definition on_main (child_status : NodeStatus) : M (option NodeStatus) :=
  m ← BT.members;
  match child_status with
  | SKIPPED => halt;; mret (Some SKIPPED)
  | SUCCESS => haltChild 1;; halt;; mret (Some SUCCESS)
  | RUNNING => mret (Some RUNNING)
  | FAILURE =>
      if retry_count m <? number_of_retries m then
        haltChild 0;; update (fun m => set_idx (wrapu 32 (current_child_idx m + 1)) m);; mret None
      else halt;; mret (Some FAILURE)
  | IDLE => throw logic_error
  end.

(** An answer of the second child. *)
Definition on_recovery (child_status : NodeStatus) : M (option NodeStatus) :=
  match child_status with
  | SKIPPED => update (set_idx 0);; haltChild 1;; mret (Some FAILURE)
  | RUNNING => mret (Some RUNNING)
  | SUCCESS =>
      haltChild 1;;
      update (fun m => set_idx 0 (set_count (wrapu 32 (retry_count m + 1)) m));; mret None
  | FAILURE => halt;; mret (Some FAILURE)
  | IDLE => throw logic_error
  end.

(** The [while] loop; [fuel] bounds its rounds. *)
Fixpoint tick_loop (fuel : nat) : M NodeStatus :=
  m ← BT.members;
  if (current_child_idx m <? 2) && (retry_count m <=? number_of_retries m) then
    match fuel with
    | O => undefined
    | S fuel =>
        child_status ← executeTick (Z.to_nat (current_child_idx m));
        r ← (if current_child_idx m =? 0 then on_main child_status
             else if current_child_idx m =? 1 then on_recovery child_status
             else mret None);
        match r with
        | Some st => mret st
        | None => tick_loop fuel
        end
    end
  else finish FAILURE.

(** Rounds left: two for each retry left, one less when the recovery is next. *)
Definition rounds (m : members) : nat :=
  Z.to_nat (2 * (number_of_retries m - retry_count m) + 2 - current_child_idx m).

(** [retries] is what the port [number_of_retries] holds, if it can be read. *)
Definition tick (children : nat) (retries : option Z) : M NodeStatus :=
  (if retries is Some n then update (set_retries n) else mret ());;
  if decide (children = 2%nat) then
    setStatus RUNNING;;
    m ← BT.members;
    tick_loop (rounds m)
  else throw behavior_tree_exception.
End Node.

(** How many of them can pass without an end: the first child fails and is recovered for each retry
    left. A recovery that is under way when the port is lowered to the retries used may still finish. *)
Definition budget (m : members) : Z :=
  let left := number_of_retries m - retry_count m in
  if (current_child_idx m =? 1) && (left =? 0) then 1
  else Z.max 0 (2 * left - current_child_idx m).

(** Ticks of the second child. *)
Definition recovers (ev : event) : bool :=
  match ev with Ticked 1 _ | TickRaised 1 _ => true | _ => false end.
Definition recoveries (l : list event) : Z := Z.of_nat (length (List.filter recovers l)).

(** What a tick does in [k] rounds that do not end it, from child 0 or 1: the first
    child fails and is halted, the second one succeeds and is halted. *)
Fixpoint went_on (recovering : bool) (k : nat) : list event :=
  match k with
  | O => []
  | S k =>
      (if recovering then [Ticked 1 SUCCESS; HaltedChild 1]
       else [Ticked 0 FAILURE; HaltedChild 0]) ++ went_on (negb recovering) k
  end.

(** The child and the retry count after [k] such rounds. *)
Fixpoint members_after (k : nat) (m : members) : members :=
  match k with
  | O => m
  | S k =>
      members_after k
        (if current_child_idx m =? 0 then set_idx 1 m
         else set_idx 0 (set_count (retry_count m + 1) m))
  end.

(** The port [number_of_retries] is declared with the type [int]; it is taken to be
    non negative. *)
Definition well_formed (m : members) : Prop :=
  0 <= current_child_idx m <= 1 /\ 0 <= number_of_retries m < 2 ^ 31 /\ in_u 32 (retry_count m).

(** The last calls of a tick that reached the members [m], its result and the
    members it leaves. *)
Definition last_round (m : members) (r : res NodeStatus) (m' : members) (calls : list event) : Prop :=
  let fresh := set_idx 0 (set_count 0 m) in
  match r with
  | Ok SUCCESS => current_child_idx m = 0 /\ m' = fresh /\
      calls = [Ticked 0 SUCCESS; HaltedChild 1; HaltedNode]
  | Ok SKIPPED => current_child_idx m = 0 /\ m' = fresh /\ calls = [Ticked 0 SKIPPED; HaltedNode]
  | Ok RUNNING => m' = m /\ calls = [Ticked (Z.to_nat (current_child_idx m)) RUNNING]
  | Ok FAILURE =>
      (number_of_retries m < retry_count m /\ m' = fresh /\ calls = [HaltedNode]) \/
      (current_child_idx m = 0 /\ retry_count m = number_of_retries m /\ m' = fresh /\
       calls = [Ticked 0 FAILURE; HaltedNode]) \/
      (current_child_idx m = 1 /\ m' = fresh /\ calls = [Ticked 1 FAILURE; HaltedNode]) \/
      (current_child_idx m = 1 /\ m' = set_idx 0 m /\ calls = [Ticked 1 SKIPPED; HaltedChild 1])
  | Throw e => m' = m /\
      (calls = [TickRaised (Z.to_nat (current_child_idx m)) e] \/
       (e = logic_error /\ calls = [Ticked (Z.to_nat (current_child_idx m)) IDLE]))
  | Ok IDLE | UB => False
  end.

Section Laws.
Context {E : Type} `{Engine E}.

Lemma budget_nonneg m : Z.of_nat 0 <= budget m.
Proof. unfold budget. destruct (_ && _); lia. Qed.

Lemma recoveries_app l l' : recoveries (l ++ l') = recoveries l + recoveries l'.
Proof. unfold recoveries. rewrite List.filter_app, length_app. lia. Qed.

Lemma recoveries_rounds k : forall m, 0 <= current_child_idx m <= 1 ->
  0 <= recoveries (went_on (current_child_idx m =? 1) k) /\ 0 <= current_child_idx (members_after k m) <= 1 /\
  2 * recoveries (went_on (current_child_idx m =? 1) k) + current_child_idx (members_after k m) <=
    Z.of_nat k + current_child_idx m.
Proof.
  induction k as [|k IH]; intros m Hm; [unfold recoveries; cbn; lia|].
  assert (current_child_idx m = 0 \/ current_child_idx m = 1) as [Ei|Ei] by lia;
    rewrite Ei; cbn [went_on members_after Z.eqb Pos.eqb negb]; rewrite Ei, recoveries_app; cbn [Z.eqb].
  - destruct (IH (set_idx 1 m)) as (H1 & H2 & H3); [cbn; lia|]. cbn [current_child_idx set_idx Z.eqb Pos.eqb] in *.
    change (recoveries [Ticked 0 FAILURE; HaltedChild 0]) with 0. lia.
  - destruct (IH (set_idx 0 (set_count (retry_count m + 1) m))) as (H1 & H2 & H3); [cbn; lia|].
    cbn [current_child_idx set_idx Z.eqb] in *.
    change (recoveries [Ticked 1 SUCCESS; HaltedChild 1]) with 1. lia.
Qed.

(** The last round ticks the second child only if it is its turn. *)
Lemma recoveries_last m r m' calls : 0 <= current_child_idx m <= 1 -> last_round m r m' calls ->
  0 <= recoveries calls <= current_child_idx m.
Proof.
  intros Hm Hr.
  assert (current_child_idx m = 0 \/ current_child_idx m = 1) as [Ei|Ei] by lia; rewrite Ei.
  all: destruct r as [[]|e|]; cbn in Hr; rewrite ?Ei in Hr; decompose [and or] Hr; subst; unfold recoveries; rewrite ?Ei; cbn; try lia; try done.
Qed.

#[local] Ltac budget_lia :=
  repeat match goal with
  | |- context [?a =? ?b] => destruct (Z.eqb_spec a b); cbn [andb] in *
  | Hk : context [?a =? ?b] |- _ => destruct (Z.eqb_spec a b); cbn [andb] in *
  end; lia.

(** Unfold a tick on a concrete list of calls. *)
Ltac run Hc :=
  cbv [finish halt haltNode haltChild haltChildren setStatus BT.members BT.call update get modify
       throw on_main on_recovery] in Hc;
  expose in Hc;
  cbn [local tree current_child_idx number_of_retries retry_count set_idx set_count set_retries
       engine_tick engine_halt_child engine_halt_node engine_halt_children engine_set_status
       logged_engine on_engine engine log option_list] in Hc.

(** The tick ends in this round with [calls]. *)
Ltac ends Hc calls :=
  injection Hc as <- <-; exists 0%nat, calls; simpl; rewrite <- ?app_assoc;
  split; [done|]; split; [apply budget_nonneg|]; simpl; repeat split; auto.

(** The loop goes on to another round. *)
Ltac goes_on Hc IH :=
  apply IH in Hc as (k & calls & Hlog & Hk & Hr);
    [|unfold well_formed, in_u; simpl; lia|unfold rounds; simpl; lia];
  exists (S k), calls; unfold budget in *; simpl in *; rewrite Hlog, <- !app_assoc;
  split; [done|]; split; [budget_lia|done].

Lemma recovery_loop_spec : forall fuel m e lg r s',
  well_formed m -> fuel = rounds m ->
  tick_loop fuel (mk_node m (mk_logged e lg)) = (r, s') ->
  exists k calls,
    log (tree s') = lg ++ went_on (current_child_idx m =? 1) k ++ calls /\
    Z.of_nat k <= budget m /\ last_round (members_after k m) r (local s') calls.
Proof.
  induction fuel as [|fuel IH]; intros [i n c] e lg r s' (Hi & Hn & Hcnt) Hf Hc.
  all: unfold rounds in Hf; unfold in_u in *; simpl in Hi, Hn, Hcnt, Hf;
    cbn [tick_loop] in Hc; run Hc; destruct (Z.leb_spec c n) as [Hle|Hgt];
    [|rewrite andb_false_r in Hc; ends Hc [HaltedNode]; left; done].
  { lia. }
  destruct (Z.ltb_spec i 2); [|lia]. cbn [andb] in Hc.
  unfold executeTick in Hc at 1. cbn [engine_tick logged_engine tree engine log] in Hc.
  assert (i = 0 \/ i = 1) as [-> | ->] by lia.
  - destruct (engine_tick (Z.to_nat 0) e) as [[st|x] e1]; cbn [of_outcome ticked] in Hc; cycle 1.
    { ends Hc [TickRaised 0 x]. }
    cbn [Z.eqb] in Hc. destruct st; run Hc.
    + ends Hc [Ticked 0 IDLE].
    + ends Hc [Ticked 0 RUNNING].
    + ends Hc [Ticked 0 SUCCESS; HaltedChild 1; HaltedNode].
    + destruct (Z.ltb_spec c n) as [Hlt|Hge]; run Hc.
      * change (wrapu 32 (0 + 1)) with 1 in Hc. goes_on Hc IH.
      * ends Hc [Ticked 0 FAILURE; HaltedNode]. right. left. repeat split. lia.
    + ends Hc [Ticked 0 SKIPPED; HaltedNode].
  - destruct (engine_tick (Z.to_nat 1) e) as [[st|x] e1]; cbn [of_outcome ticked] in Hc; cycle 1.
    { ends Hc [TickRaised 1 x]. }
    cbn [Z.eqb Pos.eqb] in Hc. destruct st; run Hc.
    + ends Hc [Ticked 1 IDLE].
    + ends Hc [Ticked 1 RUNNING].
    + rewrite wrapu_id in Hc by (unfold in_u; lia). goes_on Hc IH.
    + ends Hc [Ticked 1 FAILURE; HaltedNode]. right. right. by left.
    + ends Hc [Ticked 1 SKIPPED; HaltedChild 1]. right. right. by right.
Qed.

(** C37: A tick of a recovery node ends. In every round before the last, the
    first child failed and was halted, or the second one succeeded and was halted, in
    alternation; there are at most two such rounds for each retry left (one less if the recovery is
    next), so the second child is ticked at most once for each retry left, or once to finish a
    recovery that was under way. The last round decides: SUCCESS exactly when the first child
    succeeds, RUNNING when the child ticked is running, with the child and the retry
    count kept for the next tick, SKIPPED when the first child is skipped, FAILURE
    when the first child fails with no retry left or the recovery does not succeed.
    The node is reset when it ends, except after a skipped recovery, which keeps the
    retries used. The number of retries is taken to be not negative. *)
Theorem recovery_tick m retries e r s'
  (Hm : well_formed (if retries is Some n then set_retries n m else m))
  (Hc : tick 2 retries (mk_node m (mk_logged e [])) = (r, s')) :
  let m0 := if retries is Some n then set_retries n m else m in
  recoveries (log (tree s')) <= Z.max (number_of_retries m0 - retry_count m0) (current_child_idx m0) /\
  exists k calls,
    Z.of_nat k <= budget m0 /\
    log (tree s') = went_on (current_child_idx m0 =? 1) k ++ calls /\
    last_round (members_after k m0) r (local s') calls.
Proof.
  intros m0. fold m0 in Hm. unfold tick in Hc.
  assert (tick_loop (rounds m0) (mk_node m0 (mk_logged (engine_set_status RUNNING e) ([] ++ []))) =
    (r, s')) as Hl by (destruct retries; exact Hc).
  apply recovery_loop_spec in Hl as (k & calls & Hlog & Hk & Hr); [|done|done].
  split; [|by exists k, calls]. destruct Hm as (Hi & _ & _).
  destruct (recoveries_rounds k m0 Hi) as (H1 & H2 & H3). pose proof (recoveries_last _ _ _ _ H2 Hr) as H4.
  cbn [app] in Hlog. rewrite Hlog, recoveries_app. unfold budget in Hk. budget_lia.
Qed.

(** With any other number of children a tick throws and ticks none of them. *)
Lemma recovery_children children retries m e (Hn : children <> 2%nat) :
  let '(r, s') := tick children retries (mk_node m (mk_logged e [])) in
  r = Throw behavior_tree_exception /\ tree s' = mk_logged e [].
Proof.
  unfold tick, update, modify. expose.
  destruct retries, (decide (children = 2%nat)); done.
Qed.
End Laws.
(** Two retries: the first attempt is recovered, the second one succeeds. *)
Lemma recovery_tick_witness :
  exists k calls, Z.of_nat k <= 4 /\
    [Ticked 0 FAILURE; HaltedChild 0; Ticked 1 SUCCESS; HaltedChild 1;
     Ticked 0 SUCCESS; HaltedChild 1; HaltedNode] = went_on false k ++ calls /\
    last_round (members_after k (mk_members 0 2 0)) (Ok SUCCESS) (mk_members 0 2 0) calls.
Proof.
  refine (proj2 (recovery_tick (mk_members 0 1 0) (Some 2)
    (mk_script (fun i => nth i [[FAILURE; SUCCESS]; [SUCCESS]] []) IDLE) (Ok SUCCESS) _ _ eq_refl)).
  vm_compute. repeat split; discriminate.
Defined.

(** A skipped recovery ends the node with FAILURE and leaves one retry used. *)
Example recovery_skip_keeps_retry :
  (tick 2 (Some 2) (new (scripted [[FAILURE; FAILURE]; [SUCCESS; SKIPPED]]))).1 = Ok FAILURE /\
  local (tick 2 (Some 2) (new (scripted [[FAILURE; FAILURE]; [SUCCESS; SKIPPED]]))).2 =
    mk_members 0 2 1.
Proof. by vm_compute. Qed.
End RecoveryNode.

Module RoundRobinNode.
Import BT.

Record members : Type := mk_members { current_child_idx : Z; num_failed_children : Z }.

Definition set_idx (i : Z) (m : members) : members := mk_members i (num_failed_children m).
Definition set_failed (n : Z) (m : members) : members := mk_members (current_child_idx m) n.

(** [if (++current_child_idx_ == num_children) current_child_idx_ = 0]. *)
Definition advance (children : nat) (m : members) : members :=
  let i := wrapu 32 (current_child_idx m + 1) in
  set_idx (if i =? Z.of_nat children then 0 else i) m.

Section Node.
Context {E : Type} `{Engine E}.
Abbreviation M := (ST (node members E)).

Definition new (e : E) : node members E := mk_node (mk_members 0 0) e.

Definition halt : M () := haltNode;; update (fun _ => mk_members 0 0).

(** The [while] loop with [num_skipped_children]. *)
Fixpoint tick_loop (children fuel : nat) (skipped : Z) : M NodeStatus :=
  m ← BT.members;
  if wrapu 32 (num_failed_children m + skipped) <? Z.of_nat children then
    match fuel with
    | O => undefined
    | S fuel =>
        if current_child_idx m <? Z.of_nat children then
          child_status ← executeTick (Z.to_nat (current_child_idx m));
          (if decide (child_status = RUNNING) then mret () else update (advance children));;
          match child_status with
          | SUCCESS => update (set_failed 0);; haltChildren;; mret SUCCESS
          | FAILURE =>
              update (fun m => set_failed (wrapu 32 (num_failed_children m + 1)) m);;
              tick_loop children fuel skipped
          | SKIPPED => tick_loop children fuel (wrapu 32 (skipped + 1))
          | RUNNING => mret RUNNING
          | IDLE => throw logic_error
          end
        else undefined
    end
  else
    halt;; mret (if skipped =? Z.of_nat children then SKIPPED else FAILURE).

Definition tick (children : nat) : M NodeStatus :=
  setStatus RUNNING;; tick_loop children children 0.
End Node.

(** The [k]-th child after child [i], in a circle. *)
Definition nth_child (children : nat) (i : Z) (k : nat) : nat :=
  Z.to_nat ((i + Z.of_nat k) mod Z.of_nat children).

Definition circle (children : nat) (i : Z) (ss : list NodeStatus) : list event :=
  imap (fun k st => Ticked (nth_child children i k) st) ss.

Definition unsuccessful (st : NodeStatus) : Prop := st = FAILURE \/ st = SKIPPED.

Definition well_formed (children : nat) (m : members) : Prop :=
  Z.of_nat children < 2 ^ 32 /\ 0 <= num_failed_children m /\
  ((children = 0%nat /\ m = mk_members 0 0) \/
   (0 <= current_child_idx m < Z.of_nat children /\ num_failed_children m < Z.of_nat children)).

(** How a tick from the members [m] ends, the children from the current one on
    having answered [ss]. *)
Definition outcome_of (children : nat) (m : members) (ss : list NodeStatus)
    (r : res NodeStatus) (m' : members) (calls : list event) : Prop :=
  let next := nth_child children (current_child_idx m) (length ss) in
  let failed := num_failed_children m + count FAILURE ss in
  let all := num_failed_children m + Z.of_nat (length ss) in
  Forall unsuccessful ss /\
  match r with
  | Ok SUCCESS => all < Z.of_nat children /\
      calls = circle children (current_child_idx m) ss ++ [Ticked next SUCCESS; HaltedChildren] /\
      m' = mk_members ((Z.of_nat next + 1) mod Z.of_nat children) 0
  | Ok RUNNING => all < Z.of_nat children /\
      calls = circle children (current_child_idx m) ss ++ [Ticked next RUNNING] /\
      m' = mk_members (Z.of_nat next) failed
  | Ok FAILURE => all = Z.of_nat children /\ count SKIPPED ss < Z.of_nat children /\
      calls = circle children (current_child_idx m) ss ++ [HaltedNode] /\ m' = mk_members 0 0
  | Ok SKIPPED => length ss = children /\ Forall (eq SKIPPED) ss /\
      calls = circle children (current_child_idx m) ss ++ [HaltedNode] /\ m' = mk_members 0 0
  | Throw e => all < Z.of_nat children /\
      ((calls = circle children (current_child_idx m) ss ++ [TickRaised next e] /\
        m' = mk_members (Z.of_nat next) failed) \/
       (e = logic_error /\
        calls = circle children (current_child_idx m) ss ++ [Ticked next IDLE] /\
        m' = mk_members ((Z.of_nat next + 1) mod Z.of_nat children) failed))
  | Ok IDLE | UB => False
  end.

Lemma advance_mod children i f :
  0 <= i < Z.of_nat children -> Z.of_nat children < 2 ^ 32 ->
  advance children (mk_members i f) = mk_members ((i + 1) mod Z.of_nat children) f.
Proof.
  intros Hi Hmax. unfold advance, set_idx. cbn [current_child_idx num_failed_children].
  rewrite wrapu_id by (unfold in_u; lia). f_equal.
  destruct (Z.eqb_spec (i + 1) (Z.of_nat children)) as [->|Hne].
  - symmetry. apply Z.mod_same. lia.
  - symmetry. apply Z.mod_small. lia.
Qed.

Lemma nth_child_lt children i k :
  (0 < children)%nat -> 0 <= Z.of_nat (nth_child children i k) < Z.of_nat children.
Proof.
  intros. unfold nth_child.
  pose proof (Z.mod_pos_bound (i + Z.of_nat k) (Z.of_nat children) ltac:(lia)). lia.
Qed.

Lemma nth_child_succ children i k : (0 < children)%nat ->
  (Z.of_nat (nth_child children i k) + 1) mod Z.of_nat children =
  Z.of_nat (nth_child children i (S k)).
Proof.
  intros. unfold nth_child.
  rewrite !Z2Nat.id by (apply Z.mod_pos_bound; lia).
  rewrite Z.add_mod_idemp_l by lia. f_equal. lia.
Qed.

Lemma nth_child_zero children i :
  0 <= i < Z.of_nat children -> Z.of_nat (nth_child children i 0) = i.
Proof.
  intros. unfold nth_child. rewrite Z.add_0_r, Z.mod_small by lia. lia.
Qed.

Lemma circle_snoc children i ss st :
  circle children i (ss ++ [st]) = circle children i ss ++ [Ticked (nth_child children i (length ss)) st].
Proof. unfold circle. rewrite imap_app. simpl. by rewrite Nat.add_0_r. Qed.

Lemma unsuccessful_counts ss :
  Forall unsuccessful ss -> count FAILURE ss + count SKIPPED ss = Z.of_nat (length ss).
Proof.
  induction 1 as [|st ss [-> | ->] _ IH]; [done|..]; rewrite !count_cons; simpl; lia.
Qed.

Lemma outcome_well_formed children m ss r m' calls :
  well_formed children m -> outcome_of children m ss r m' calls -> well_formed children m'.
Proof.
  intros (Hmax & Hf & Hi) [Hss Ho].
  pose proof (count_bound FAILURE ss) as Hb.
  set (next := nth_child children (current_child_idx m) (length ss)) in *.
  assert ((0 < children)%nat -> 0 <= Z.of_nat next < Z.of_nat children) as Hj
    by (intros; by apply nth_child_lt).
  assert (forall i, (0 < children)%nat -> 0 <= i mod Z.of_nat children < Z.of_nat children) as Hmod
    by (intros; apply Z.mod_pos_bound; lia).
  assert (forall i f, (0 < children)%nat -> 0 <= i < Z.of_nat children -> 0 <= f < Z.of_nat children ->
    well_formed children (mk_members i f)) as Hwf
    by (intros; split; [done|]; split; simpl; [lia|right; simpl; lia]).
  assert (well_formed children (mk_members 0 0)) as Hzero.
  { destruct (decide (children = 0%nat)) as [Hz|]; [|apply Hwf; lia].
    split; [done|]. split; [done|]. by left. }
  destruct r as [[]|e|].
  all: try done.
  - destruct Ho as (? & _ & ->). apply Hwf; [lia|apply Hj; lia|lia].
  - destruct Ho as (? & _ & ->). apply Hwf; [lia|apply Hmod; lia|lia].
  - by destruct Ho as (_ & _ & _ & ->).
  - by destruct Ho as (_ & _ & _ & ->).
  - destruct Ho as (? & [[_ ->]|(_ & _ & ->)]); apply Hwf; try lia; (apply Hj || apply Hmod); lia.
Qed.

Section Laws.
Context {E : Type} `{Engine E}.

Ltac run Hc :=
  cbv [halt haltNode haltChildren BT.members BT.call update get modify throw] in Hc;
  expose in Hc;
  cbn [local tree engine_halt_node engine_halt_children logged_engine on_engine engine log
       option_list] in Hc.

Lemma round_robin_loop_spec children m lg : forall fuel ss e r s',
  well_formed children m -> Forall unsuccessful ss ->
  num_failed_children m + Z.of_nat (length ss) <= Z.of_nat children ->
  Z.of_nat children - (num_failed_children m + Z.of_nat (length ss)) <= Z.of_nat fuel ->
  tick_loop children fuel (count SKIPPED ss)
    (mk_node (mk_members (if decide (children = 0%nat) then 0
                else Z.of_nat (nth_child children (current_child_idx m) (length ss)))
                (num_failed_children m + count FAILURE ss))
       (mk_logged e (lg ++ circle children (current_child_idx m) ss))) = (r, s') ->
  exists ss' calls, log (tree s') = lg ++ calls /\ outcome_of children m ss' r (local s') calls.
Proof.
  induction fuel as [|fuel IH]; intros ss e r s' Hm Hss Hle Hf Hc;
    pose proof (unsuccessful_counts ss Hss) as Hcount;
    pose proof (count_bound FAILURE ss); pose proof (count_bound SKIPPED ss);
    destruct Hm as (Hmax & Hfail & Hidx);
    cbn [tick_loop] in Hc; run Hc; cbn [num_failed_children current_child_idx] in Hc;
    rewrite wrapu_id in Hc by (unfold in_u; lia);
    destruct (Z.ltb_spec (num_failed_children m + count FAILURE ss + count SKIPPED ss)
      (Z.of_nat children)) as [Hlt|Hge]; try lia.
  1,3: injection Hc as <- <-; exists ss, (circle children (current_child_idx m) ss ++ [HaltedNode]);
    rewrite app_assoc; split; [done|]; split; [done|];
    destruct (Z.eqb_spec (count SKIPPED ss) (Z.of_nat children)) as [Hs|Hs];
    [assert (length ss = children) by lia; subst children; rewrite count_all in Hs; done
    |repeat split; lia].
  destruct (decide (children = 0%nat)) as [->|Hz]; [lia|].
  pose proof (nth_child_lt children (current_child_idx m) (length ss) ltac:(lia)) as Hj.
  pose proof (nth_child_succ children (current_child_idx m) (length ss) ltac:(lia)) as Hnext.
  set (j := nth_child children (current_child_idx m) (length ss)) in *.
  destruct (Z.ltb_spec (Z.of_nat j) (Z.of_nat children)) as [_|]; [|lia].
  unfold executeTick in Hc at 1. cbn [engine_tick logged_engine tree engine log local] in Hc.
  rewrite Nat2Z.id in Hc.
  destruct (engine_tick j e) as [[st|x] e1]; cbn [of_outcome ticked] in Hc; cycle 1.
  { injection Hc as <- <-. exists ss, (circle children (current_child_idx m) ss ++ [TickRaised j x]).
    rewrite app_assoc. split; [done|]. split; [done|]. split; [lia|by left]. }
  destruct (decide (st = RUNNING)) as [->|Hst]; run Hc.
  { injection Hc as <- <-. exists ss, (circle children (current_child_idx m) ss ++ [Ticked j RUNNING]).
    rewrite app_assoc. split; [done|]. split; [done|]. split; [lia|done]. }
  rewrite advance_mod, Hnext in Hc by lia.
  assert (forall sk fl, unsuccessful st -> sk = count SKIPPED (ss ++ [st]) ->
    fl = num_failed_children m + count FAILURE (ss ++ [st]) ->
    tick_loop children fuel sk
      (mk_node (mk_members (Z.of_nat (nth_child children (current_child_idx m) (S (length ss)))) fl)
        (mk_logged e1 ((lg ++ circle children (current_child_idx m) ss) ++ [Ticked j st]))) = (r, s') ->
    exists ss' calls, log (tree s') = lg ++ calls /\
      outcome_of children m ss' r (local s') calls) as Hgo.
  { intros sk fl Hun -> -> Hc'. rewrite <- app_assoc, <- circle_snoc in Hc'.
    eapply (IH (ss ++ [st])); [done|by apply Forall_app; split; [|apply Forall_cons_2]|..].
    1,2: rewrite length_app; simpl; lia.
    rewrite length_app, Nat.add_1_r. destruct (decide (children = 0%nat)); [done|exact Hc']. }
  rewrite !count_snoc in Hgo.
  destruct st; run Hc; cbn [num_failed_children set_failed current_child_idx] in Hc.
  - injection Hc as <- <-. exists ss, (circle children (current_child_idx m) ss ++ [Ticked j IDLE]).
    rewrite app_assoc. split; [done|]. split; [done|]. split; [lia|]. right. fold j.
    by rewrite Hnext.
  - done.
  - injection Hc as <- <-.
    exists ss, (circle children (current_child_idx m) ss ++ [Ticked j SUCCESS; HaltedChildren]).
    simpl. rewrite <- !app_assoc. split; [done|]. split; [done|]. split; [lia|]. fold j.
    by rewrite Hnext.
  - eapply Hgo; [by left|..|exact Hc]; simpl; [lia|]. rewrite wrapu_id; unfold in_u; lia.
  - eapply Hgo; [by right|..|exact Hc]; simpl; [|lia]. rewrite wrapu_id; unfold in_u; lia.
Qed.

Lemma tick_spec children m e r s' :
  well_formed children m -> tick children (mk_node m (mk_logged e [])) = (r, s') ->
  exists ss, outcome_of children m ss r (local s') (log (tree s')).
Proof.
  intros Hm Hc.
  destruct (round_robin_loop_spec children m [] children [] (engine_set_status RUNNING e) r s')
    as (ss & calls & Hlog & Ho).
  - done.
  - by constructor.
  - destruct Hm as (? & ? & [[-> ->]|?]); simpl in *; lia.
  - destruct Hm as (? & ? & ?). simpl. lia.
  - destruct m as [i f]. rewrite <- Hc. unfold tick. simpl. f_equal.
    destruct Hm as (_ & _ & [[-> [= -> ->]]|[Hi _]]); [done|]. simpl in Hi.
    destruct (decide (children = 0%nat)); [lia|]. rewrite nth_child_zero by done.
    by rewrite Z.add_0_r.
  - exists ss. by rewrite Hlog.
Qed.

(** A tick of a round robin node ends, whatever its children do. It ticks the
    children in a circle from the current one on, past those that fail or are
    skipped, never out of range: SUCCESS at the first one that succeeds, the next
    tick starting behind it; RUNNING at the first one that is running, which stays
    the current one; FAILURE when the failures since the last success and the skips
    of this tick make up all the children; SKIPPED when every child was skipped. The
    members are in range for the next tick. *)
Theorem round_robin_tick children m e r s' (Hm : well_formed children m)
  (Hc : tick children (mk_node m (mk_logged e [])) = (r, s')) :
  (exists ss, outcome_of children m ss r (local s') (log (tree s'))) /\
  well_formed children (local s').
Proof.
  destruct (tick_spec children m e r s' Hm Hc) as [ss Ho]. split; [by exists ss|].
  by eapply outcome_well_formed.
Qed.
End Laws.

(** The example of the class's documentation. *)
Example round_robin_documented :
  let tree := scripted [[RUNNING; FAILURE; RUNNING]; [RUNNING; SUCCESS]; [FAILURE]] in
  let '(r1, s1) := tick 3 (new tree) in
  let '(r2, s2) := tick 3 s1 in
  let '(r3, s3) := tick 3 s2 in
  let '(r4, s4) := tick 3 s3 in
  [r1; r2; r3; r4] = [Ok RUNNING; Ok RUNNING; Ok SUCCESS; Ok RUNNING] /\
  log (BT.tree s4) = [Ticked 0 RUNNING; Ticked 0 FAILURE; Ticked 1 RUNNING; Ticked 1 SUCCESS;
    HaltedChildren; Ticked 2 FAILURE; Ticked 0 RUNNING] /\
  local s4 = mk_members 0 1.
Proof. by vm_compute. Qed.

Lemma round_robin_tick_witness :
  (exists ss, outcome_of 3 (mk_members 2 0) ss (Ok RUNNING) (mk_members 0 1)
     [Ticked 2 FAILURE; Ticked 0 RUNNING]) /\ well_formed 3 (mk_members 0 1).
Proof.
  refine (round_robin_tick 3 (mk_members 2 0)
    (mk_script (fun i => nth i [[RUNNING]; []; [FAILURE]] []) IDLE) (Ok RUNNING) _ _ eq_refl).
  vm_compute. split; [done|]. split; [done|]. right. by split.
Defined.
End RoundRobinNode.
