(* ===== verification/Costmap.v ===== *)
(** * Two-dimensional costmap ([nav2_costmap_2d/costmap_2d.hpp], [costmap_2d.cpp])

    The map's storage, its coordinates, windows and origin; the polygons are in
    [CostmapPolygon]. The array of costs is a list of bytes, row by row; a null
    array is the empty list. Fresh memory holds unknown bytes. The mutex and the
    file output are not modelled. *)

From stdpp Require Import base option list numbers.
From Stdlib Require Import ZArith Lia SpecFloat.
From S2P Require Import Prelude Float64.

Module Costmap.

Definition NO_INFORMATION : Z := 255.
Definition LETHAL_OBSTACLE : Z := 254.
Definition FREE_SPACE : Z := 0.
Definition OCC_GRID_UNKNOWN : Z := -1.
Definition OCC_GRID_FREE : Z := 0.
Definition OCC_GRID_OCCUPIED : Z := 100.

Record MapLocation : Type := mk_loc { loc_x : Z; loc_y : Z }.

#[export] Instance map_location_eq_dec : EqDecision MapLocation.
Proof. solve_decision. Defined.

Record costmap : Type := mk_costmap {
  size_x : Z; size_y : Z;
  resolution : f64; origin_x : f64; origin_y : f64;
  cells : list Z;
  default_value : Z }.

Definition set_cells (l : list Z) (m : costmap) : costmap :=
  mk_costmap (size_x m) (size_y m) (resolution m) (origin_x m) (origin_y m) l (default_value m).
Definition set_frame (resol ox oy : f64) (m : costmap) : costmap :=
  mk_costmap (size_x m) (size_y m) resol ox oy (cells m) (default_value m).
Definition set_sizes (sx sy : Z) (m : costmap) : costmap :=
  mk_costmap sx sy (resolution m) (origin_x m) (origin_y m) (cells m) (default_value m).

(** [memset] and [memcpy] on a part of an array; nothing is accessed when the
    length is zero. *)
Definition memset (l : list Z) (start value len : Z) : res (list Z) :=
  if len =? 0 then Ok l else
  _ ← require (bool_decide (0 <= start /\ 0 <= len /\ start + len <= Z.of_nat (length l)));
  Ok (take (Z.to_nat start) l ++ replicate (Z.to_nat len) value ++ drop (Z.to_nat (start + len)) l).

Definition memcpy (dst : list Z) (d : Z) (src : list Z) (s len : Z) : res (list Z) :=
  if len =? 0 then Ok dst else
  _ ← require (bool_decide (0 <= d /\ 0 <= s /\ 0 <= len /\ d + len <= Z.of_nat (length dst) /\
                            s + len <= Z.of_nat (length src)));
  Ok (take (Z.to_nat d) dst ++ take (Z.to_nat len) (drop (Z.to_nat s) src) ++
      drop (Z.to_nat (d + len)) dst).

(** ** Cells *)

Definition getIndex (mx my : Z) (m : costmap) : Z := wrapu 32 (my * size_x m + mx).

(** Dividing by a zero size is undefined. *)
Definition indexToCells (index : Z) (m : costmap) : res (Z * Z) :=
  _ ← require (negb (size_x m =? 0));
  let my := index / size_x m in
  Ok (wrapu 32 (index - wrapu 32 (my * size_x m)), my).

Definition getCost_at (undex : Z) (m : costmap) : res Z := aget (cells m) undex.
Definition getCost (mx my : Z) (m : costmap) : res Z := getCost_at (getIndex mx my m) m.
Definition setCost (mx my cost : Z) (m : costmap) : res costmap :=
  l ← aset (cells m) (getIndex mx my m) cost; Ok (set_cells l m).

Definition getSizeInCellsX (m : costmap) : Z := size_x m.
Definition getSizeInCellsY (m : costmap) : Z := size_y m.
Definition f64_half : f64 := S754_finite false 4503599627370496 (-53).
Definition getSizeInMetersX (m : costmap) : f64 :=
  f64_mul (f64_add (f64_of_Z (wrapu 32 (size_x m - 1))) f64_half) (resolution m).
Definition getSizeInMetersY (m : costmap) : f64 :=
  f64_mul (f64_add (f64_of_Z (wrapu 32 (size_y m - 1))) f64_half) (resolution m).

(** ** Maps *)

Definition deleteMaps (m : costmap) : costmap := set_cells [] m.

Definition resetMaps (m : costmap) : res costmap :=
  l ← memset (cells m) 0 (default_value m) (wrapu 32 (size_x m * size_y m));
  Ok (set_cells l m).

(** The rows of [resetMapToValue], [fuel] bounding their number. *)
Fixpoint reset_rows (fuel : nat) (y bound len value size_x : Z) (l : list Z) : res (list Z) :=
  if y <? bound then
    match fuel with
    | O => UB
    | S fuel =>
        l ← memset l y value len;
        reset_rows fuel (wrapu 32 (y + size_x)) bound len value size_x l
    end
  else Ok l.

Definition resetMapToValue (x0 y0 xn yn value : Z) (m : costmap) : res costmap :=
  let len := wrapu 32 (xn - x0) in
  let y := wrapu 32 (y0 * size_x m + x0) in
  let bound := wrapu 32 (yn * size_x m + x0) in
  l ← reset_rows (Z.to_nat ((bound - y) / Z.max 1 (size_x m) + 1)) y bound len value (size_x m)
        (cells m);
  Ok (set_cells l m).

Definition resetMap (x0 y0 xn yn : Z) (m : costmap) : res costmap :=
  resetMapToValue x0 y0 xn yn (default_value m) m.

(** The rows of [copyMapRegion], between two arrays. *)
Fixpoint copy_rows (rows : nat) (src : list Z) (s sm_size_x : Z) (dst : list Z) (d dm_size_x len : Z) :
    res (list Z) :=
  match rows with
  | O => Ok dst
  | S rows =>
      dst ← memcpy dst d src s len;
      copy_rows rows src (s + sm_size_x) sm_size_x dst (d + dm_size_x) dm_size_x len
  end.

Definition copyMapRegion (source_map : list Z) (sm_lower_left_x sm_lower_left_y sm_size_x : Z)
    (dest_map : list Z) (dm_lower_left_x dm_lower_left_y dm_size_x region_size_x region_size_y : Z) :
    res (list Z) :=
  copy_rows (Z.to_nat region_size_y)
    source_map (wrapu 32 (sm_lower_left_y * sm_size_x + sm_lower_left_x)) sm_size_x
    dest_map (wrapu 32 (dm_lower_left_y * dm_size_x + dm_lower_left_x)) dm_size_x region_size_x.

(** Fails when the window leaves either map. [source] is another map. *)
Definition copyWindow (source : costmap) (sx0 sy0 sxn syn dx0 dy0 : Z) (m : costmap) :
    res (bool * costmap) :=
  let sz_x := wrapu 32 (sxn - sx0) in
  let sz_y := wrapu 32 (syn - sy0) in
  if (sxn >? getSizeInCellsX source) || (syn >? getSizeInCellsY source) then Ok (false, m)
  else if (wrapu 32 (dx0 + sz_x) >? size_x m) || (wrapu 32 (dy0 + sz_y) >? size_y m) then Ok (false, m)
  else
    l ← copyMapRegion (cells source) sx0 sy0 (size_x source) (cells m) dx0 dy0 (size_x m) sz_x sz_y;
    Ok (true, set_cells l m).

(** ** World coordinates *)

Definition mapToWorld (mx my : Z) (m : costmap) : f64 * f64 :=
  (f64_add (origin_x m) (f64_mul (f64_add (f64_of_Z mx) f64_half) (resolution m)),
   f64_add (origin_y m) (f64_mul (f64_add (f64_of_Z my) f64_half) (resolution m))).

(** The position of a world coordinate in cells. *)
Definition project (w origin resol : f64) : f64 := f64_div (f64_sub w origin) resol.

(** The result and the coordinates written, if any. *)
Definition worldToMap (wx wy : f64) (m : costmap) : res (bool * option (Z * Z)) :=
  if f64_lt wx (origin_x m) || f64_lt wy (origin_y m) then Ok (false, None)
  else
    mx ← f64_to_uint 32 (project wx (origin_x m) (resolution m));
    my ← f64_to_uint 32 (project wy (origin_y m) (resolution m));
    Ok ((mx <? size_x m) && (my <? size_y m), Some (mx, my)).

Definition worldToMapContinuous (wx wy : f64) (m : costmap) :
    bool * option (spec_float * spec_float) :=
  if f64_lt wx (origin_x m) || f64_lt wy (origin_y m) then (false, None)
  else
    let mx := f32_of_f64 (project wx (origin_x m) (resolution m)) in
    let my := f32_of_f64 (project wy (origin_y m) (resolution m)) in
    (SFltb mx (f32_of_Z (size_x m)) && SFltb my (f32_of_Z (size_y m)), Some (mx, my)).

Definition worldToMapNoBounds (wx wy : f64) (m : costmap) : res (Z * Z) :=
  mx ← f64_to_int 32 (project wx (origin_x m) (resolution m));
  my ← f64_to_int 32 (project wy (origin_y m) (resolution m));
  Ok (mx, my).

(** One coordinate of [worldToMapEnforceBounds]. *)
Definition enforce (w origin resol : f64) (size : Z) : res Z :=
  if f64_lt w origin then Ok 0
  else if f64_lt (f64_add (f64_mul resol (f64_of_Z size)) origin) w then Ok (wraps 32 (size - 1))
  else f64_to_int 32 (project w origin resol).

Definition worldToMapEnforceBounds (wx wy : f64) (m : costmap) : res (Z * Z) :=
  mx ← enforce wx (origin_x m) (resolution m) (size_x m);
  my ← enforce wy (origin_y m) (resolution m) (size_y m);
  Ok (mx, my).

Definition cellDistance (world_dist : f64) (m : costmap) : res Z :=
  f64_to_uint 32 (f64_max f64_zero (f64_ceil (f64_div world_dist (resolution m)))).

(** ** Construction and windows: fresh memory *)

Section Memory.
(** What a new array holds before it is written. *)
Context (garbage : nat -> Z).

Definition allocate (n : Z) : list Z := garbage <$> seq 0 (Z.to_nat n).

Definition initMaps (sx sy : Z) (m : costmap) : costmap :=
  set_cells (allocate (wrapu 32 (sx * sy))) (set_sizes sx sy m).

Definition new (sx sy : Z) (resol ox oy : f64) (default : Z) : res costmap :=
  resetMaps (initMaps sx sy (mk_costmap 0 0 resol ox oy [] default)).

Definition resizeMap (sx sy : Z) (resol ox oy : f64) (m : costmap) : res costmap :=
  resetMaps (initMaps sx sy (set_frame resol ox oy m)).

(** [std::round] gives a [double]; its conversion to a byte truncates. *)
Definition cost_of_occupancy (data : Z) : res Z :=
  if data =? OCC_GRID_UNKNOWN then Ok NO_INFORMATION
  else f64_to_uint 8 (f64_round (f64_div
         (f64_mul (f64_of_Z data) (f64_of_Z (LETHAL_OBSTACLE - FREE_SPACE)))
         (f64_of_Z (OCC_GRID_OCCUPIED - OCC_GRID_FREE)))).

Fixpoint convert_loop (n : nat) (it : Z) (data l : list Z) : res (list Z) :=
  match n with
  | O => Ok l
  | S n =>
      d ← aget data it;
      c ← cost_of_occupancy d;
      l ← aset l it c;
      convert_loop n (it + 1) data l
  end.

(** The constructor from an occupancy grid: its sizes, frame and data. *)
Definition of_occupancy_grid (width height : Z) (resol ox oy : f64) (data : list Z) :
    res costmap :=
  let n := wrapu 32 (width * height) in
  l ← convert_loop (Z.to_nat n) 0 data (allocate n);
  Ok (mk_costmap width height resol ox oy l FREE_SPACE).

(** [operator=] from another map. *)
Definition assign (map : costmap) (m : costmap) : res costmap :=
  let m := mk_costmap (size_x map) (size_y map) (resolution map) (origin_x map) (origin_y map)
             (cells (deleteMaps m)) (default_value map) in
  let m := initMaps (size_x m) (size_y m) m in
  l ← memcpy (cells m) 0 (cells map) 0 (wrapu 32 (size_x m * size_y m));
  Ok (set_cells l m).

(** From another map; the old data is deleted before the window is checked. *)
Definition copyCostmapWindow (map : costmap) (win_origin_x win_origin_y win_size_x win_size_y : f64)
    (m : costmap) : res (bool * costmap) :=
  let m := deleteMaps m in
  lower ← worldToMap win_origin_x win_origin_y map;
  match lower with
  | (true, Some (lower_left_x, lower_left_y)) =>
      upper ← worldToMap (f64_add win_origin_x win_size_x) (f64_add win_origin_y win_size_y) map;
      match upper with
      | (true, Some (upper_right_x, upper_right_y)) =>
          let m := initMaps (wrapu 32 (upper_right_x - lower_left_x))
                     (wrapu 32 (upper_right_y - lower_left_y))
                     (set_frame (resolution map) win_origin_x win_origin_y m) in
          l ← copyMapRegion (cells map) lower_left_x lower_left_y (size_x map)
                (cells m) 0 0 (size_x m) (size_x m) (size_y m);
          Ok (true, set_cells l m)
      | _ => Ok (false, m)
      end
  | _ => Ok (false, m)
  end.

(** The overlap of the old and the new window on one axis, in old cells. *)
Definition overlap (cell_o size : Z) : res (Z * Z) :=
  upper ← chk 32 (cell_o + size);
  Ok (Z.min (Z.max cell_o 0) size, Z.min (Z.max upper 0) size).

Definition updateOrigin (new_origin_x new_origin_y : f64) (m : costmap) : res costmap :=
  cell_ox ← f64_to_int 32 (project new_origin_x (origin_x m) (resolution m));
  cell_oy ← f64_to_int 32 (project new_origin_y (origin_y m) (resolution m));
  let new_grid_ox := f64_add (origin_x m) (f64_mul (f64_of_Z cell_ox) (resolution m)) in
  let new_grid_oy := f64_add (origin_y m) (f64_mul (f64_of_Z cell_oy) (resolution m)) in
  '(lower_left_x, upper_right_x) ← overlap cell_ox (wraps 32 (size_x m));
  '(lower_left_y, upper_right_y) ← overlap cell_oy (wraps 32 (size_y m));
  cell_size_x ← chk 32 (upper_right_x - lower_left_x);
  cell_size_y ← chk 32 (upper_right_y - lower_left_y);
  let cell_size_x := wrapu 32 cell_size_x in
  let cell_size_y := wrapu 32 cell_size_y in
  local_map ← copyMapRegion (cells m) (wrapu 32 lower_left_x) (wrapu 32 lower_left_y) (size_x m)
                (allocate (wrapu 32 (cell_size_x * cell_size_y))) 0 0 cell_size_x
                cell_size_x cell_size_y;
  m ← resetMaps m;
  let m := set_frame (resolution m) new_grid_ox new_grid_oy m in
  start_x ← chk 32 (lower_left_x - cell_ox);
  start_y ← chk 32 (lower_left_y - cell_oy);
  l ← copyMapRegion local_map 0 0 cell_size_x (cells m) (wrapu 32 start_x) (wrapu 32 start_y)
        (size_x m) cell_size_x cell_size_y;
  Ok (set_cells l m).
End Memory.

(** ** Specification *)

(** Cell [(x, y)] of an array of rows of width [w]. *)
Definition at_cell (w : Z) (l : list Z) (x y : Z) : option Z := l !! Z.to_nat (y * w + x).

Definition cell (m : costmap) (x y : Z) : option Z := at_cell (size_x m) (cells m) x y.

Record wf (m : costmap) : Prop := {
  wf_x : 0 <= size_x m < 2 ^ 31;
  wf_y : 0 <= size_y m < 2 ^ 31;
  wf_area : size_x m * size_y m < 2 ^ 32;
  wf_cells : Z.of_nat (length (cells m)) = size_x m * size_y m;
  wf_bytes : Forall (in_u 8) (cells m);
  wf_default : in_u 8 (default_value m) }.

Definition inside (m : costmap) (x y : Z) : Prop := 0 <= x < size_x m /\ 0 <= y < size_y m.

#[export] Instance inside_dec m x y : Decision (inside m x y).
Proof. unfold inside. apply _. Defined.

(** [i] lies in the interval from [a] of length [n]. *)
Definition within (a n i : Z) : bool := (a <=? i) && (i <? a + n).

Lemma within_spec a n i : BoolSpec (a <= i < a + n) (~ a <= i < a + n) (within a n i).
Proof.
  unfold within. destruct (Z.leb_spec a i), (Z.ltb_spec i (a + n)); simpl;
    constructor; lia.
Qed.

(** Replacing a part of an array. *)
Lemma splice_lookup (l part : list Z) (start len : Z) i :
  0 <= start -> Z.of_nat (length part) = len -> start + len <= Z.of_nat (length l) ->
  (take (Z.to_nat start) l ++ part ++ drop (Z.to_nat (start + len)) l) !! i =
    if within start len (Z.of_nat i) then part !! Z.to_nat (Z.of_nat i - start) else l !! i.
Proof.
  intros Hs Hp Hl. destruct (within_spec start len (Z.of_nat i)) as [Hw|Hw].
  - rewrite lookup_app_r, lookup_app_l by (rewrite length_take; lia).
    f_equal. rewrite length_take. lia.
  - destruct (decide (Z.of_nat i < start)).
    + rewrite lookup_app_l by (rewrite length_take; lia). apply lookup_take_lt. lia.
    + rewrite !lookup_app_r by (rewrite ?length_take; lia). rewrite lookup_drop. f_equal.
      rewrite length_take. lia.
Qed.

Lemma splice_length (l part : list Z) (start len : Z) :
  0 <= start -> Z.of_nat (length part) = len -> start + len <= Z.of_nat (length l) ->
  length (take (Z.to_nat start) l ++ part ++ drop (Z.to_nat (start + len)) l) = length l.
Proof. intros. rewrite !length_app, length_take, length_drop. lia. Qed.

Lemma memset_spec l start value len :
  0 <= start -> 0 <= len -> start + len <= Z.of_nat (length l) ->
  exists l', memset l start value len = Ok l' /\ length l' = length l /\
    forall i, l' !! i = if within start len (Z.of_nat i) then Some value else l !! i.
Proof.
  intros Hs Hn Hl. unfold memset. destruct (Z.eqb_spec len 0) as [->|Hz].
  - exists l. repeat split. intros i. by destruct (within_spec start 0 (Z.of_nat i)); [lia|].
  - rewrite bool_decide_eq_true_2 by lia. simpl. eexists. split; [done|].
    assert (Z.of_nat (length (replicate (Z.to_nat len) value)) = len) as Hr
      by (rewrite length_replicate; lia).
    split; [by apply splice_length|]. intros i. rewrite splice_lookup by done.
    destruct (within_spec start len (Z.of_nat i)); [|done].
    apply lookup_replicate_2. lia.
Qed.

Lemma memcpy_spec dst d src s len :
  0 <= d -> 0 <= s -> 0 <= len -> d + len <= Z.of_nat (length dst) ->
  s + len <= Z.of_nat (length src) ->
  exists l', memcpy dst d src s len = Ok l' /\ length l' = length dst /\
    forall i, l' !! i = if within d len (Z.of_nat i) then src !! Z.to_nat (s + Z.of_nat i - d)
                        else dst !! i.
Proof.
  intros Hd Hs Hn Hld Hls. unfold memcpy. destruct (Z.eqb_spec len 0) as [->|Hz].
  - exists dst. repeat split. intros i. by destruct (within_spec d 0 (Z.of_nat i)); [lia|].
  - rewrite bool_decide_eq_true_2 by lia. simpl. eexists. split; [done|].
    assert (Z.of_nat (length (take (Z.to_nat len) (drop (Z.to_nat s) src))) = len) as Hr
      by (rewrite length_take, length_drop; lia).
    split; [by apply splice_length|]. intros i. rewrite splice_lookup by done.
    destruct (within_spec d len (Z.of_nat i)); [|done].
    rewrite lookup_take_lt, lookup_drop by lia. f_equal. lia.
Qed.

Lemma copy_rows_spec src sw dw len : 0 <= len <= dw -> forall n s dst d,
  0 <= s -> 0 <= sw -> 0 <= d ->
  ((0 < n)%nat -> s + (Z.of_nat n - 1) * sw + len <= Z.of_nat (length src)) ->
  ((0 < n)%nat -> d + (Z.of_nat n - 1) * dw + len <= Z.of_nat (length dst)) ->
  exists l', copy_rows n src s sw dst d dw len = Ok l' /\ length l' = length dst /\
    forall r x, 0 <= x < dw -> 0 <= d + r * dw + x ->
      l' !! Z.to_nat (d + r * dw + x) =
        if within 0 (Z.of_nat n) r && (x <? len) then src !! Z.to_nat (s + r * sw + x)
        else dst !! Z.to_nat (d + r * dw + x).
Proof.
  intros Hlen n. induction n as [|n IH]; intros s dst d Hs Hsw Hd Hsrc Hdst.
  - exists dst. repeat split. intros r x _ _.
    by destruct (within_spec 0 (Z.of_nat 0) r); [lia|].
  - cbn [copy_rows].
    destruct (memcpy_spec dst d src s len) as (l1 & -> & Hl1 & Hv1); [lia|lia|lia|nia|nia|].
    rewrite bind_Ok.
    destruct (IH (s + sw) l1 (d + dw)) as (l' & -> & Hl' & Hv'); [lia|lia|lia|nia|rewrite Hl1; nia|].
    exists l'. split; [done|]. split; [by rewrite Hl', Hl1|]. intros r x Hx Hi.
    replace (d + r * dw + x) with (d + dw + (r - 1) * dw + x) by lia.
    rewrite Hv' by lia.
    replace (d + dw + (r - 1) * dw + x) with (d + r * dw + x) by lia.
    rewrite Hv1, Z2Nat.id by lia.
    replace (s + sw + (r - 1) * sw + x) with (s + r * sw + x) by lia.
    destruct (within_spec 0 (Z.of_nat n) (r - 1)) as [H1|H1],
      (within_spec 0 (Z.of_nat (S n)) r) as [H2|H2], (Z.ltb_spec x len) as [H3|H3],
      (within_spec d len (d + r * dw + x)) as [H4|H4]; simpl; try done; try nia.
    all: assert (r = 0) as -> by nia; f_equal; lia.
Qed.

(** A region copied between two arrays that hold it. *)
Lemma copyMapRegion_spec src sx sy sw dst dx dy dw nx ny :
  0 <= sx -> 0 <= sy -> 0 <= dx -> 0 <= dy -> 0 <= nx -> 0 <= ny ->
  sx + nx <= sw -> dx + nx <= dw ->
  (sy + ny) * sw <= Z.of_nat (length src) -> (dy + ny) * dw <= Z.of_nat (length dst) ->
  Z.of_nat (length src) < 2 ^ 32 -> Z.of_nat (length dst) < 2 ^ 32 ->
  exists l', copyMapRegion src sx sy sw dst dx dy dw nx ny = Ok l' /\ length l' = length dst /\
    forall x y, 0 <= x < dw -> 0 <= y ->
      at_cell dw l' x y =
        if within dx nx x && within dy ny y then at_cell sw src (sx + (x - dx)) (sy + (y - dy))
        else at_cell dw dst x y.
Proof.
  intros Hsx Hsy Hdx Hdy Hnx Hny Hw Hw' Hs Hd Hls Hld. unfold copyMapRegion.
  destruct (decide (ny = 0)) as [->|Hny0].
  { exists dst. repeat split. intros x y _ _.
    destruct (within_spec dy 0 y); [lia|]. by rewrite andb_false_r. }
  assert (0 <= sy * sw + sx < 2 ^ 32 \/ sy * sw + sx = 2 ^ 32) as Hsi by nia.
  assert (0 <= dy * dw + dx < 2 ^ 32 \/ dy * dw + dx = 2 ^ 32) as Hdi by nia.
  destruct Hsi as [Hsi|]; [|nia]. destruct Hdi as [Hdi|]; [|nia].
  rewrite !wrapu_id by done.
  destruct (copy_rows_spec src sw dw nx ltac:(lia) (Z.to_nat ny) (sy * sw + sx) dst (dy * dw + dx))
    as (l' & -> & Hl & Hv); [nia|lia|nia|nia|nia|].
  exists l'. split; [done|]. split; [done|]. intros x y Hx Hy. unfold at_cell.
  destruct (decide (dx <= x)) as [Hle|Hgt].
  - replace (y * dw + x) with (dy * dw + dx + (y - dy) * dw + (x - dx)) by lia.
    rewrite Hv by nia.
    replace (sy * sw + sx + (y - dy) * sw + (x - dx)) with
      ((sy + (y - dy)) * sw + (sx + (x - dx))) by lia.
    destruct (within_spec 0 (Z.of_nat (Z.to_nat ny)) (y - dy)), (within_spec dx nx x),
      (within_spec dy ny y), (Z.ltb_spec (x - dx) nx); simpl; try done; lia.
  - replace (y * dw + x) with (dy * dw + dx + (y - dy - 1) * dw + (x - dx + dw)) by lia.
    rewrite Hv by nia.
    destruct (within_spec dx nx x); [lia|]. simpl.
    destruct (Z.ltb_spec (x - dx + dw) nx); [lia|]. by rewrite andb_false_r.
Qed.

Lemma copy_nothing src sx sy sw dst dx dy dw nx ny :
  nx = 0 \/ ny = 0 -> copyMapRegion src sx sy sw dst dx dy dw nx ny = Ok dst.
Proof.
  intros H. unfold copyMapRegion. generalize (wrapu 32 (sy * sw + sx)) (wrapu 32 (dy * dw + dx)).
  destruct H as [-> | ->]; [|done].
  induction (Z.to_nat ny) as [|n IH]; intros s d; [done|]. cbn [copy_rows].
  change (memcpy dst d src s 0) with (Ok dst). by rewrite bind_Ok.
Qed.

Lemma reset_rows_spec w x0 len value yn : 0 <= x0 -> 0 <= len -> x0 + len <= w ->
  yn * w + x0 < 2 ^ 32 ->
  forall (k : nat) fuel yc l, 0 <= yc -> yc + Z.of_nat k = yn -> (0 < w -> (k <= fuel)%nat) ->
  yn * w <= Z.of_nat (length l) ->
  exists l', reset_rows fuel (yc * w + x0) (yn * w + x0) len value w l = Ok l' /\
    length l' = length l /\
    forall x y, 0 <= x < w -> 0 <= y ->
      at_cell w l' x y = if within x0 len x && within yc (Z.of_nat k) y then Some value
                         else at_cell w l x y.
Proof.
  intros Hx0 Hlen Hw Hmax k. induction k as [|k IH]; intros fuel yc l Hyc Hk Hf Hl.
  - exists l. replace yn with yc by lia.
    assert (reset_rows fuel (yc * w + x0) (yc * w + x0) len value w l = Ok l) as ->
      by (destruct fuel; simpl; by rewrite Z.ltb_irrefl).
    repeat split. intros x y _ _. destruct (within_spec yc (Z.of_nat 0) y); [lia|].
    by rewrite andb_false_r.
  - destruct (decide (w = 0)) as [->|Hw0].
    { exists l. assert (yc * 0 + x0 = yn * 0 + x0) as -> by lia.
      assert (reset_rows fuel (yn * 0 + x0) (yn * 0 + x0) len value 0 l = Ok l) as ->
        by (destruct fuel; simpl; by rewrite Z.ltb_irrefl).
      repeat split. lia. }
    specialize (Hf ltac:(lia)). destruct fuel as [|fuel]; [lia|]. cbn [reset_rows].
    destruct (Z.ltb_spec (yc * w + x0) (yn * w + x0)); [|nia].
    destruct (memset_spec l (yc * w + x0) value len) as (l1 & -> & Hl1 & Hv1); [nia|lia|nia|].
    rewrite bind_Ok, wrapu_id by (unfold in_u; nia).
    replace (yc * w + x0 + w) with ((yc + 1) * w + x0) by lia.
    destruct (IH fuel (yc + 1) l1) as (l' & -> & Hl' & Hv'); [lia|lia|lia|lia|].
    exists l'. split; [done|]. split; [lia|]. intros x y Hx Hy. rewrite Hv' by lia.
    unfold at_cell. rewrite Hv1, Z2Nat.id by nia.
    destruct (within_spec (yc + 1) (Z.of_nat k) y), (within_spec yc (Z.of_nat (S k)) y),
      (within_spec x0 len x), (within_spec (yc * w + x0) len (y * w + x)); simpl; try done; try nia.
    all: assert (y = yc) by nia; nia.
Qed.

(** *** Well formed maps *)

Lemma wf_area_nonneg m : wf m -> 0 <= size_x m * size_y m.
Proof. intros []. nia. Qed.

Lemma index_spec m x y : wf m -> inside m x y ->
  getIndex x y m = y * size_x m + x /\ 0 <= y * size_x m + x < size_x m * size_y m.
Proof.
  intros [] [? ?]. assert (0 <= y * size_x m + x < size_x m * size_y m) by nia.
  split; [|done]. apply wrapu_id. unfold in_u. lia.
Qed.

Lemma cell_some m x y : wf m -> inside m x y ->
  exists c, cell m x y = Some c /\ in_u 8 c /\ getCost x y m = Ok c.
Proof.
  intros Hwf Hin. destruct (index_spec m x y Hwf Hin) as [Hi Hr]. pose proof (wf_cells m Hwf).
  destruct (lookup_lt_is_Some_2 (cells m) (Z.to_nat (y * size_x m + x))) as [c Hc]; [lia|].
  exists c. split; [done|]. split.
  - pose proof (wf_bytes m Hwf) as Hb. rewrite list.Forall_forall in Hb. apply Hb.
    by eapply list_elem_of_lookup_2.
  - unfold getCost, getCost_at. rewrite Hi. apply aget_ok. split; [lia|done].
Qed.

(** Two positions of the map have different indices. *)
Lemma index_inj w x y x' y' : 0 <= x < w -> 0 <= x' < w -> y * w + x = y' * w + x' -> x = x' /\ y = y'.
Proof. intros. assert (y = y') by nia. nia. Qed.

Lemma indexToCells_div m i : wf m -> 0 <= i < size_x m * size_y m ->
  indexToCells i m = Ok (i mod size_x m, i / size_x m).
Proof.
  intros [? ? ? _ _ _] Hi. assert (0 < size_x m) by nia.
  unfold indexToCells. destruct (Z.eqb_spec (size_x m) 0); [lia|].
  pose proof (Z.div_mod i (size_x m) ltac:(lia)).
  pose proof (Z.mod_pos_bound i (size_x m) ltac:(lia)).
  assert (0 <= i / size_x m) by (apply Z.div_pos; lia).
  simpl. rewrite (wrapu_id 32 (i / size_x m * size_x m)) by (unfold in_u; nia).
  rewrite wrapu_id by (unfold in_u; lia). do 2 f_equal. lia.
Qed.

Lemma indexToCells_index m x y : wf m -> inside m x y ->
  indexToCells (y * size_x m + x) m = Ok (x, y).
Proof.
  intros Hwf Hin. destruct (index_spec m x y Hwf Hin) as [_ Hr].
  rewrite indexToCells_div by done. destruct Hin as [Hx Hy].
  rewrite (Z.add_comm (y * size_x m)), Z.mod_add, Z.div_add by lia.
  by rewrite Z.mod_small, Z.div_small by lia.
Qed.

(** The result of an operation that keeps the sizes. *)
Definition rewritten (m m' : costmap) (f : Z -> Z -> option Z) : Prop :=
  wf m' /\ size_x m' = size_x m /\ size_y m' = size_y m /\
  forall x y, inside m x y -> cell m' x y = f x y.

(** Every cell of a map's array is one of its cells. *)
Lemma bytes_of_cells l w h :
  0 <= w -> 0 <= h -> Z.of_nat (length l) = w * h ->
  (forall x y c, 0 <= x < w -> 0 <= y < h -> at_cell w l x y = Some c -> in_u 8 c) ->
  Forall (in_u 8) l.
Proof.
  intros Hw Hh Hl Hc. apply Forall_lookup. intros i c Hi.
  pose proof (lookup_lt_Some _ _ _ Hi). assert (0 < w) by nia.
  pose proof (Z.mod_pos_bound (Z.of_nat i) w ltac:(lia)).
  pose proof (Z.div_mod (Z.of_nat i) w ltac:(lia)).
  apply (Hc (Z.of_nat i mod w) (Z.of_nat i / w)); [lia| |].
  - split; [apply Z.div_pos; lia|]. apply Z.div_lt_upper_bound; nia.
  - unfold at_cell. replace (Z.to_nat (Z.of_nat i / w * w + Z.of_nat i mod w)) with i by lia. done.
Qed.

Lemma wf_rewritten m l f frame :
  wf m -> length l = length (cells m) ->
  (forall x y, inside m x y -> at_cell (size_x m) l x y = f x y) ->
  (forall x y c, inside m x y -> f x y = Some c -> in_u 8 c) ->
  size_x frame = size_x m -> size_y frame = size_y m -> default_value frame = default_value m ->
  rewritten m (set_cells l frame) f.
Proof.
  intros [] Hl Hf Hb Hsx Hsy Hd.
  split; [|unfold cell; simpl; by rewrite Hsx]. split; simpl; rewrite ?Hsx, ?Hsy, ?Hd; try done.
  - by rewrite Hl.
  - apply (bytes_of_cells l (size_x m) (size_y m)); [lia|lia|by rewrite Hl|].
    intros x y c Hx Hy Hc. apply (Hb x y c); [done|]. by rewrite <- Hf.
Qed.

Lemma setCost_spec m x y cost : wf m -> inside m x y -> in_u 8 cost ->
  exists m', setCost x y cost m = Ok m' /\
    rewritten m m' (fun x' y' => if bool_decide (x' = x /\ y' = y) then Some cost else cell m x' y').
Proof.
  intros Hwf Hin Hc. destruct (index_spec m x y Hwf Hin) as [Hi Hr].
  pose proof (wf_cells m Hwf).
  unfold setCost. rewrite Hi. unfold aset. rewrite decide_True by lia. rewrite bind_Ok.
  eexists. split; [done|].
  apply wf_rewritten; try done; [by rewrite length_insert| |].
  - intros x' y' Hin'. destruct (index_spec m x' y' Hwf Hin') as [_ Hr'].
    unfold cell, at_cell. case_bool_decide as Hd.
    + destruct Hd as [-> ->]. apply list_lookup_insert_eq. lia.
    + apply list_lookup_insert_ne. intros Heq. apply Hd.
      destruct (index_inj (size_x m) x y x' y'); [apply Hin|apply Hin'|lia|done].
  - intros x' y' c Hin'. case_bool_decide; [by intros [= <-]|]. intros Hc'.
    destruct (cell_some m x' y' Hwf Hin') as (c' & ? & ? & _). by simplify_eq.
Qed.

Lemma resetMaps_spec m : wf m ->
  exists l, resetMaps m = Ok (set_cells l m) /\ length l = length (cells m) /\
    forall x y, inside m x y -> at_cell (size_x m) l x y = Some (default_value m).
Proof.
  intros Hwf. pose proof (wf_area_nonneg m Hwf). pose proof Hwf as [].
  unfold resetMaps. rewrite wrapu_id by (unfold in_u; lia).
  destruct (memset_spec (cells m) 0 (default_value m) (size_x m * size_y m))
    as (l & -> & Hl & Hv); [lia..|].
  exists l. split; [done|]. split; [done|]. intros x y Hin.
  destruct (index_spec m x y Hwf Hin) as [_ Hr]. unfold at_cell. rewrite Hv, Z2Nat.id by lia.
  by destruct (within_spec 0 (size_x m * size_y m) (y * size_x m + x)); [|lia].
Qed.

(** *** Moving the window *)

(** The overlap on one axis: [n] old cells from [lower] on, which are the new cells
    from [lower - c] on. *)
Lemma overlap_spec c size :
  0 <= size < 2 ^ 31 -> - 2 ^ 31 < c -> c + size < 2 ^ 31 ->
  exists lower upper, overlap c (wraps 32 size) = Ok (lower, upper) /\
    0 <= lower /\ 0 <= upper - lower /\ upper <= size /\
    in_s 32 (lower - c) /\
    (0 < upper - lower -> 0 <= lower - c /\ upper - c <= size) /\
    forall x, 0 <= x < size -> within (lower - c) (upper - lower) x = within (- c) size x.
Proof.
  intros Hs Hc Hcs. unfold overlap. rewrite wraps_id by (unfold in_s; lia).
  rewrite chk_in by (unfold in_s; lia). rewrite bind_Ok.
  exists (Z.min (Z.max c 0) size), (Z.min (Z.max (c + size) 0) size).
  unfold in_s. repeat (split; [done || lia|]). intros x Hx.
  destruct (within_spec (Z.min (Z.max c 0) size - c)
    (Z.min (Z.max (c + size) 0) size - Z.min (Z.max c 0) size) x), (within_spec (- c) size x);
    done || lia.
Qed.

Lemma allocate_length garbage n : 0 <= n -> Z.of_nat (length (allocate garbage n)) = n.
Proof. intros. unfold allocate. rewrite length_fmap, length_seq. lia. Qed.

(** The two copies of [updateOrigin], through the local map. *)
Lemma shift_cells garbage m l0 lx ly nx ny tx ty :
  wf m -> length l0 = length (cells m) ->
  0 <= lx -> 0 <= ly -> 0 <= nx -> 0 <= ny -> lx + nx <= size_x m -> ly + ny <= size_y m ->
  (0 < nx -> 0 <= tx /\ tx + nx <= size_x m) -> (0 < ny -> 0 <= ty /\ ty + ny <= size_y m) ->
  exists local l, copyMapRegion (cells m) lx ly (size_x m) (allocate garbage (nx * ny)) 0 0 nx nx ny =
      Ok local /\
    copyMapRegion local 0 0 nx l0 (wrapu 32 tx) (wrapu 32 ty) (size_x m) nx ny = Ok l /\
    length l = length l0 /\
    forall x y, inside m x y -> at_cell (size_x m) l x y =
      if within tx nx x && within ty ny y then cell m (x - tx + lx) (y - ty + ly)
      else at_cell (size_x m) l0 x y.
Proof.
  intros Hwf Hl0 Hlx Hly Hnx Hny Hfx Hfy Htx Hty.
  pose proof (wf_cells m Hwf). pose proof Hwf as [? ? ? _ _ _].
  destruct (decide (nx = 0 \/ ny = 0)) as [Hz|Hz].
  { rewrite !copy_nothing by done. do 2 eexists. split; [done|].
    rewrite !copy_nothing by done. split; [done|]. split; [done|]. intros x y _.
    destruct (within_spec tx nx x), (within_spec ty ny y); simpl; done || lia. }
  specialize (Htx ltac:(lia)). specialize (Hty ltac:(lia)).
  assert (0 <= nx * ny <= size_x m * size_y m) as Harea by nia.
  pose proof (allocate_length garbage (nx * ny) ltac:(lia)) as Hal.
  destruct (copyMapRegion_spec (cells m) lx ly (size_x m) (allocate garbage (nx * ny)) 0 0 nx nx ny)
    as (local & -> & Hll & Hvl); [lia..|nia|nia|lia|lia|].
  rewrite !(wrapu_id 32) by (unfold in_u; lia).
  destruct (copyMapRegion_spec local 0 0 nx l0 tx ty (size_x m) nx ny)
    as (l & Hc & Hl & Hv); [lia..|rewrite Hll; nia|rewrite Hl0; nia|rewrite Hll; lia|rewrite Hl0; lia|].
  exists local, l. split; [done|]. split; [done|]. split; [done|]. intros x y [Hx Hy].
  rewrite Hv by lia. destruct (within_spec tx nx x), (within_spec ty ny y); simpl; try done.
  rewrite Hvl, !Z.add_0_l by lia. destruct (within_spec 0 nx (x - tx)); [|lia].
  destruct (within_spec 0 ny (y - ty)); [|lia]. cbn [andb]. unfold cell, at_cell. do 2 f_equal. lia.
Qed.

(** *** World coordinates *)

Lemma world_to_map_true m wx wy mx my : worldToMap wx wy m = Ok (true, Some (mx, my)) ->
  in_u 32 mx /\ in_u 32 my /\ mx < size_x m /\ my < size_y m.
Proof.
  unfold worldToMap. destruct (_ || _); [done|]. intros H. res_inv.
  match goal with H : _ && _ = true |- _ => apply andb_true_iff in H as [? ?] end. bool_arith.
  match goal with H1 : f64_to_uint 32 _ = Ok mx, H2 : f64_to_uint 32 _ = Ok my |- _ =>
    apply f64_to_uint_ok in H1 as [_ ?]; apply f64_to_uint_ok in H2 as [_ ?] end. done.
Qed.

(** *** Occupancy grids *)

(** The linear conversion, to the nearest integer. *)
Definition linear_cost (d : Z) : Z :=
  if d =? OCC_GRID_UNKNOWN then NO_INFORMATION else (2 * LETHAL_OBSTACLE * d + 100) / 200.

Lemma cost_of_occupancy_linear d : -1 <= d <= 100 -> cost_of_occupancy d = Ok (linear_cost d).
Proof.
  intros Hd.
  assert (Forall (fun d => cost_of_occupancy d = Ok (linear_cost d)) (seqZ (-1) 102)) as Hall
    by solve_decide.
  rewrite list.Forall_forall in Hall. apply Hall, elem_of_seqZ. lia.
Qed.

Lemma linear_cost_byte d : -1 <= d <= 100 -> in_u 8 (linear_cost d).
Proof.
  intros Hd. unfold linear_cost, OCC_GRID_UNKNOWN, NO_INFORMATION, LETHAL_OBSTACLE, in_u.
  destruct (Z.eqb_spec d (-1)); [lia|].
  pose proof (Z.div_pos (2 * 254 * d + 100) 200). pose proof (Z.div_lt_upper_bound (2 * 254 * d + 100) 200 256).
  lia.
Qed.

Lemma convert_loop_spec data : Forall (fun d => -1 <= d <= 100) data -> forall n it l,
  0 <= it -> it + Z.of_nat n <= Z.of_nat (length data) -> it + Z.of_nat n <= Z.of_nat (length l) ->
  exists l', convert_loop n it data l = Ok l' /\ length l' = length l /\
    forall i, l' !! i = if within it (Z.of_nat n) (Z.of_nat i) then linear_cost <$> data !! i
                        else l !! i.
Proof.
  intros Hdata n. induction n as [|n IH]; intros it l Hit Hd Hl.
  - exists l. repeat split. intros i. by destruct (within_spec it (Z.of_nat 0) (Z.of_nat i)); [lia|].
  - destruct (lookup_lt_is_Some_2 data (Z.to_nat it)) as [d Hv]; [lia|].
    assert (-1 <= d <= 100) as Hr by (eapply (Forall_lookup_1 _ data) in Hv; [|done]; done).
    cbn [convert_loop]. rewrite (proj2 (aget_ok data it d)) by done.
    rewrite bind_Ok, cost_of_occupancy_linear, bind_Ok by done.
    unfold aset. rewrite decide_True by lia. rewrite bind_Ok.
    destruct (IH (it + 1) (<[Z.to_nat it := linear_cost d]> l)) as (l' & -> & Hl' & Hval);
      [lia|lia|rewrite length_insert; lia|].
    exists l'. split; [done|]. split; [by rewrite Hl', length_insert|]. intros i. rewrite Hval.
    destruct (within_spec (it + 1) (Z.of_nat n) (Z.of_nat i)),
      (within_spec it (Z.of_nat (S n)) (Z.of_nat i)); try done; try lia.
    + replace i with (Z.to_nat it) by lia. rewrite Hv, list_lookup_insert_eq by lia. done.
    + apply list_lookup_insert_ne. lia.
Qed.

(** ** Properties *)

(** Cells and indices of a well formed map correspond one to one, and the
    costs read are the costs written. For a cell of the map, [getIndex] is in range
    and [indexToCells] takes it back; every index of the array is the index of the
    cell [indexToCells] gives; [getCost] is defined, and [setCost] changes that cell
    and no other. *)
Theorem costmap_cells m x y cost (Hwf : wf m) (Hin : inside m x y) (Hc : in_u 8 cost) :
  indexToCells (getIndex x y m) m = Ok (x, y) /\
  0 <= getIndex x y m < Z.of_nat (length (cells m)) /\
  (forall i, 0 <= i < Z.of_nat (length (cells m)) ->
     exists mx my, indexToCells i m = Ok (mx, my) /\ inside m mx my /\ getIndex mx my m = i) /\
  (exists c, getCost x y m = Ok c /\ cell m x y = Some c) /\
  exists m', setCost x y cost m = Ok m' /\
    rewritten m m' (fun x' y' => if bool_decide (x' = x /\ y' = y) then Some cost else cell m x' y').
Proof.
  pose proof (wf_cells m Hwf) as Hlen.
  destruct (index_spec m x y Hwf Hin) as [Hi Hr].
  split; [rewrite Hi; by apply indexToCells_index|]. split; [lia|]. split.
  { intros i Hi'. exists (i mod size_x m), (i / size_x m).
    assert (0 < size_x m) by (destruct Hin; lia).
    pose proof (Z.div_mod i (size_x m) ltac:(lia)).
    assert (inside m (i mod size_x m) (i / size_x m)) as Hin'.
    { split; [by apply Z.mod_pos_bound|]. split; [apply Z.div_pos; lia|].
      apply Z.div_lt_upper_bound; lia. }
    split; [apply indexToCells_div; [done|lia]|]. split; [done|].
    rewrite (proj1 (index_spec m _ _ Hwf Hin')). lia. }
  split; [destruct (cell_some m x y Hwf Hin) as (c & ? & _ & ?); by exists c|].
  by apply setCost_spec.
Qed.

(** Resetting a region writes the value to the cells of the half-open rectangle
    [(x0, y0)..(xn, yn)] and to no other, and its row loop ends. *)
Lemma resetMapToValue_spec m x0 y0 xn yn value (Hwf : wf m) (Hv : in_u 8 value)
  (Hx : 0 <= x0 <= xn) (Hxn : xn <= size_x m) (Hy : 0 <= y0 <= yn) (Hyn : yn <= size_y m)
  (Hmax : yn * size_x m + x0 < 2 ^ 32) :
  exists l, resetMapToValue x0 y0 xn yn value m = Ok (set_cells l m) /\
    rewritten m (set_cells l m) (fun x y => if within x0 (xn - x0) x && within y0 (yn - y0) y then Some value
                               else cell m x y).
Proof.
  pose proof (wf_cells m Hwf). pose proof Hwf as [? ? ? _ _ _]. unfold resetMapToValue.
  rewrite (wrapu_id 32 (xn - x0)), (wrapu_id 32 (y0 * size_x m + x0)),
    (wrapu_id 32 (yn * size_x m + x0)) by (unfold in_u; nia).
  destruct (reset_rows_spec (size_x m) x0 (xn - x0) value yn ltac:(lia) ltac:(lia) ltac:(lia) Hmax
    (Z.to_nat (yn - y0))
    (Z.to_nat ((yn * size_x m + x0 - (y0 * size_x m + x0)) / Z.max 1 (size_x m) + 1)) y0 (cells m))
    as (l & -> & Hl & Hval); [lia|lia| |nia|].
  { intros Hpos. replace (Z.max 1 (size_x m)) with (size_x m) by lia.
    replace (yn * size_x m + x0 - (y0 * size_x m + x0)) with ((yn - y0) * size_x m) by lia.
    rewrite Z.div_mul by lia. lia. }
  rewrite bind_Ok. exists l. split; [done|]. apply wf_rewritten; try done.
  - intros x y Hin. rewrite Hval by apply Hin. by rewrite Z2Nat.id by lia.
  - intros x y c Hin. destruct (_ && _); [by intros [= <-]|]. intros Hc.
    destruct (cell_some m x y Hwf Hin) as (c' & ? & ? & _). by simplify_eq.
Qed.

(** A window copied from another map. Given a window with its corners in order,
    the copy is refused exactly when the window does not fit in the source or in the
    destination, and then nothing changes; otherwise the cells of the destination
    window take the costs of the source window and the others keep theirs. *)
Lemma copyWindow_spec source m sx0 sy0 sxn syn dx0 dy0 (Hwf : wf m) (Hsrc : wf source)
  (Hx : 0 <= sx0 <= sxn) (Hy : 0 <= sy0 <= syn) (Hdx : 0 <= dx0) (Hdy : 0 <= dy0)
  (Hsx : dx0 + sxn < 2 ^ 32) (Hsy : dy0 + syn < 2 ^ 32) :
  if bool_decide (sxn <= size_x source /\ syn <= size_y source /\
                  dx0 + (sxn - sx0) <= size_x m /\ dy0 + (syn - sy0) <= size_y m)
  then exists l, copyWindow source sx0 sy0 sxn syn dx0 dy0 m = Ok (true, set_cells l m) /\
    rewritten m (set_cells l m) (fun x y =>
      if within dx0 (sxn - sx0) x && within dy0 (syn - sy0) y
      then cell source (sx0 + (x - dx0)) (sy0 + (y - dy0)) else cell m x y)
  else copyWindow source sx0 sy0 sxn syn dx0 dy0 m = Ok (false, m).
Proof.
  pose proof (wf_cells m Hwf). pose proof (wf_cells source Hsrc).
  pose proof Hwf as [? ? ? _ _ _]. pose proof Hsrc as [? ? ? _ _ _].
  unfold copyWindow, getSizeInCellsX, getSizeInCellsY.
  rewrite (wrapu_id 32 (sxn - sx0)), (wrapu_id 32 (syn - sy0)) by (unfold in_u; lia).
  rewrite (wrapu_id 32 (dx0 + (sxn - sx0))), (wrapu_id 32 (dy0 + (syn - sy0))) by (unfold in_u; lia).
  rewrite !Z.gtb_ltb. case_bool_decide as Hfit.
  - rewrite !(proj2 (Z.ltb_ge _ _)) by lia. cbn [orb].
    destruct (copyMapRegion_spec (cells source) sx0 sy0 (size_x source) (cells m) dx0 dy0 (size_x m)
      (sxn - sx0) (syn - sy0)) as (l & -> & Hl & Hv); [lia..|nia|nia|lia|lia|].
    rewrite bind_Ok. exists l. split; [done|]. apply wf_rewritten; try done.
    + intros x y [? ?]. rewrite Hv by lia. done.
    + intros x y c Hin. unfold inside in Hin.
      destruct (within_spec dx0 (sxn - sx0) x), (within_spec dy0 (syn - sy0) y); cbn [andb]; intros Hc;
        [destruct (cell_some source (sx0 + (x - dx0)) (sy0 + (y - dy0)) Hsrc) as (c' & ? & ? & _);
           [split; lia|by simplify_eq]|..];
        destruct (cell_some m x y Hwf Hin) as (c' & ? & ? & _); by simplify_eq.
  - destruct (Z.ltb_spec (size_x source) sxn); [done|].
    destruct (Z.ltb_spec (size_y source) syn); [done|]. cbn [orb].
    destruct (Z.ltb_spec (size_x m) (dx0 + (sxn - sx0))); [done|].
    destruct (Z.ltb_spec (size_y m) (dy0 + (syn - sy0))); [done|]. lia.
Qed.


(** C34: Moving the origin shifts the window over the world and keeps what both
    windows see. When the new origin lies [(cx, cy)] cells from the old one, the
    operation is defined, the sizes stay, the origin moves by whole cells, cell
    [(x, y)] takes the cost the old map had at [(x + cx, y + cy)] if that was inside,
    and the default value otherwise. *)
Theorem costmap_update_origin garbage m ox oy cx cy (Hwf : wf m)
  (Hcx : f64_to_int 32 (project ox (origin_x m) (resolution m)) = Ok cx)
  (Hcy : f64_to_int 32 (project oy (origin_y m) (resolution m)) = Ok cy)
  (Hx : - 2 ^ 31 < cx) (Hxs : cx + size_x m < 2 ^ 31)
  (Hy : - 2 ^ 31 < cy) (Hys : cy + size_y m < 2 ^ 31) :
  exists m', updateOrigin garbage ox oy m = Ok m' /\
    origin_x m' = f64_add (origin_x m) (f64_mul (f64_of_Z cx) (resolution m)) /\
    origin_y m' = f64_add (origin_y m) (f64_mul (f64_of_Z cy) (resolution m)) /\
    resolution m' = resolution m /\
    rewritten m m' (fun x y => if bool_decide (inside m (x + cx) (y + cy)) then cell m (x + cx) (y + cy)
                               else Some (default_value m)).
Proof.
  pose proof Hwf as [? ? ? ? _ Hdef]. unfold updateOrigin. rewrite Hcx, Hcy, !bind_Ok.
  destruct (overlap_spec cx (size_x m)) as (lx & ux & -> & ? & ? & ? & ? & Hfx & Hwx); [done..|].
  destruct (overlap_spec cy (size_y m)) as (ly & uy & -> & ? & ? & ? & ? & Hfy & Hwy); [done..|].
  rewrite !bind_Ok, (chk_in 32 (ux - lx)), bind_Ok, (chk_in 32 (uy - ly)), bind_Ok
    by (unfold in_s; lia).
  rewrite (wrapu_id 32 (ux - lx)), (wrapu_id 32 (uy - ly)), (wrapu_id 32 lx), (wrapu_id 32 ly)
    by (unfold in_u; lia).
  rewrite (wrapu_id 32 ((ux - lx) * (uy - ly))) by (unfold in_u; nia).
  destruct (resetMaps_spec m Hwf) as (l0 & Hreset & Hl0 & Hv0).
  destruct (shift_cells garbage m l0 lx ly (ux - lx) (uy - ly) (lx - cx) (ly - cy))
    as (local & l & Hc1 & Hc2 & Hl & Hv); [done|done|lia..|].
  rewrite Hc1, bind_Ok, Hreset, bind_Ok.
  rewrite (chk_in 32 (lx - cx)), bind_Ok by done.
  rewrite (chk_in 32 (ly - cy)), bind_Ok by done.
  cbn [cells set_frame set_cells size_x]. rewrite Hc2, bind_Ok.
  eexists. split; [done|]. do 3 (split; [done|]).
  assert (forall x y, inside m x y ->
    within (lx - cx) (ux - lx) x && within (ly - cy) (uy - ly) y =
    bool_decide (inside m (x + cx) (y + cy))) as Hw.
  { intros x y [? ?]. rewrite Hwx, Hwy by done.
    destruct (within_spec (- cx) (size_x m) x), (within_spec (- cy) (size_y m) y);
      case_bool_decide as Hin; unfold inside in Hin; simpl; done || lia. }
  apply wf_rewritten; try done; [by rewrite Hl| |].
  - intros x y Hin. rewrite Hv, Hw by done. case_bool_decide; [|by apply Hv0]. f_equal; lia.
  - intros x y c Hin. case_bool_decide as Hin'; [|by intros [= <-]]. intros Hc.
    destruct (cell_some m _ _ Hwf Hin') as (c' & ? & ? & _). by simplify_eq.
Qed.

(** A costmap that becomes a window of another map. When both corners of the
    window are in the other map, it gets the size of the window and the costs of its
    cells. When one is not, the call returns false, but the old array is already
    gone while the sizes stay: every later [getCost] dereferences a null pointer. *)
Theorem costmap_window_of_map garbage map m wox woy wsx wsy bl pl bu pu (Hwf : wf map)
  (Hlower : worldToMap wox woy map = Ok (bl, pl))
  (Hupper : worldToMap (f64_add wox wsx) (f64_add woy wsy) map = Ok (bu, pu)) :
  match (bl, pl), (bu, pu) with
  | (true, Some (lx, ly)), (true, Some (ux, uy)) =>
      lx <= ux -> ly <= uy ->
      exists m', copyCostmapWindow garbage map wox woy wsx wsy m = Ok (true, m') /\
        size_x m' = ux - lx /\ size_y m' = uy - ly /\ origin_x m' = wox /\ origin_y m' = woy /\
        forall x y, inside m' x y -> cell m' x y = cell map (lx + x) (ly + y)
  | _, _ =>
      exists m', copyCostmapWindow garbage map wox woy wsx wsy m = Ok (false, m') /\
        size_x m' = size_x m /\ size_y m' = size_y m /\ forall x y, getCost x y m' = UB
  end.
Proof.
  assert (forall x y, getCost x y (deleteMaps m) = UB) as Hub.
  { intros x y. unfold getCost, getCost_at, aget. simpl. by case_decide. }
  unfold copyCostmapWindow. rewrite Hlower, bind_Ok.
  destruct bl, pl as [[lx ly]|]; try (by exists (deleteMaps m)).
  rewrite Hupper, bind_Ok.
  destruct bu, pu as [[ux uy]|]; try (by exists (deleteMaps m)).
  intros Hx Hy. apply world_to_map_true in Hlower as (? & ? & ? & ?).
  apply world_to_map_true in Hupper as (? & ? & ? & ?).
  pose proof (wf_cells map Hwf). pose proof Hwf as [? ? ? _ _ _]. unfold in_u in *.
  rewrite (wrapu_id 32 (ux - lx)), (wrapu_id 32 (uy - ly)) by (unfold in_u; lia).
  cbn [initMaps set_cells set_sizes set_frame cells size_x size_y].
  rewrite wrapu_id by (unfold in_u; nia).
  pose proof (allocate_length garbage ((ux - lx) * (uy - ly)) ltac:(nia)) as Hal.
  destruct (copyMapRegion_spec (cells map) lx ly (size_x map)
    (allocate garbage ((ux - lx) * (uy - ly))) 0 0 (ux - lx) (ux - lx) (uy - ly))
    as (l & -> & Hl & Hv); [lia..|nia|nia|lia|rewrite Hal; nia|].
  rewrite bind_Ok. eexists. split; [done|]. do 4 (split; [done|]). intros x y [Hix Hiy].
  simpl in Hix, Hiy. unfold cell. cbn [cells size_x set_cells initMaps set_sizes set_frame].
  rewrite Hv by lia.
  destruct (within_spec 0 (ux - lx) x); [|lia]. destruct (within_spec 0 (uy - ly) y); [|lia].
  cbn [andb]. by rewrite !Z.sub_0_r.
Qed.

(** A costmap made from an occupancy grid. The conversion to [double] and back
    gives exactly the linear map from the occupancies 0 to 100 onto the costs 0 to
    254, rounded to the nearest integer, and the unknown occupancy gives the unknown
    cost; the map is well formed. *)
Theorem costmap_occupancy garbage width height resol ox oy data
  (Hw : 0 <= width < 2 ^ 31) (Hh : 0 <= height < 2 ^ 31) (Hmax : width * height < 2 ^ 32)
  (Hlen : Z.of_nat (length data) = width * height) (Hdata : Forall (fun d => -1 <= d <= 100) data) :
  exists m, of_occupancy_grid garbage width height resol ox oy data = Ok m /\ wf m /\
    size_x m = width /\ size_y m = height /\
    forall x y, inside m x y -> cell m x y = linear_cost <$> at_cell width data x y.
Proof.
  assert (0 <= width * height) as Hpos by nia. unfold of_occupancy_grid.
  rewrite wrapu_id by (unfold in_u; lia).
  pose proof (allocate_length garbage (width * height) Hpos) as Hal.
  destruct (convert_loop_spec data Hdata (Z.to_nat (width * height)) 0
    (allocate garbage (width * height))) as (l & -> & Hl & Hv); [lia..|].
  rewrite bind_Ok. eexists. split; [done|].
  assert (forall i, (i < length data)%nat -> l !! i = linear_cost <$> data !! i) as Hall.
  { intros i Hi. rewrite Hv.
    by destruct (within_spec 0 (Z.of_nat (Z.to_nat (width * height))) (Z.of_nat i)); [|lia]. }
  split; [|split; [done|split; [done|]]].
  - split; simpl; try done; [lia|]. apply Forall_lookup. intros i c Hi.
    pose proof (lookup_lt_Some _ _ _ Hi). rewrite Hall in Hi by lia.
    apply fmap_Some in Hi as (d & Hd & ->). apply linear_cost_byte.
    exact (Forall_lookup_1 _ _ _ _ Hdata Hd).
  - intros x y [Hx Hy]. simpl in Hx, Hy. unfold cell, at_cell. cbn [cells size_x].
    apply Hall. nia.
Qed.

(** ** A small map *)

Definition demo_map : costmap := mk_costmap 4 3 f64_half f64_zero f64_zero [0; 1; 2; 3; 4; 5; 6; 7; 8; 9; 10; 11] 77.

Lemma demo_map_wf : wf demo_map.
Proof. split; solve_decide. Qed.

(** The upper edge of the map: the coordinates [worldToMapEnforceBounds] gives are
    outside of it. *)
Example enforce_upper_edge :
  worldToMapEnforceBounds (f64_of_Z 2) (f64_of_Z 1) demo_map = Ok (4, 2) /\ ~ inside demo_map 4 2.
Proof. split; [by vm_compute|]. unfold inside. simpl. lia. Qed.

Lemma costmap_cells_witness : indexToCells (getIndex 3 2 demo_map) demo_map = Ok (3, 2).
Proof.
  refine (proj1 (costmap_cells demo_map 3 2 9 demo_map_wf _ _)); solve_decide.
Defined.

Lemma costmap_update_origin_witness :
  exists m', updateOrigin (fun _ => 200) f64_half (f64_of_Z (-1)) demo_map = Ok m' /\
    cell m' 0 2 = Some 1 /\ cell m' 3 2 = Some 77.
Proof.
  destruct (costmap_update_origin (fun _ => 200) demo_map f64_half (f64_of_Z (-1)) 1 (-2) demo_map_wf)
    as (m' & Hm & _ & _ & _ & _ & _ & _ & Hc); [solve_decide..|].
  exists m'. split; [exact Hm|]. split; [exact (Hc 0 2 ltac:(solve_decide))|exact (Hc 3 2 ltac:(solve_decide))].
Defined.

Lemma costmap_window_of_map_witness :
  exists m', copyCostmapWindow (fun _ => 200) demo_map f64_half f64_half (f64_of_Z 5) f64_half demo_map =
    Ok (false, m') /\ size_x m' = 4 /\ getCost 0 0 m' = UB.
Proof.
  assert (worldToMap f64_half f64_half demo_map = Ok (true, Some (1, 1))) as Hl by (vm_compute; reflexivity).
  assert (worldToMap (f64_add f64_half (f64_of_Z 5)) (f64_add f64_half f64_half) demo_map =
    Ok (false, Some (11, 2))) as Hu by (vm_compute; reflexivity).
  destruct (costmap_window_of_map (fun _ => 200) demo_map demo_map _ _ _ _ _ _ _ _ demo_map_wf Hl Hu)
    as (m' & Hm & Hx & _ & Hub).
  exists m'. split; [exact Hm|]. split; [exact Hx|exact (Hub 0 0)].
Defined.

Lemma costmap_occupancy_witness :
  exists m, of_occupancy_grid (fun _ => 200) 2 2 f64_half f64_zero f64_zero [-1; 0; 50; 100] = Ok m /\
    cell m 0 0 = Some 255 /\ cell m 0 1 = Some 127 /\ cell m 1 1 = Some 254.
Proof.
  destruct (costmap_occupancy (fun _ => 200) 2 2 f64_half f64_zero f64_zero [-1; 0; 50; 100])
    as (m & Hm & _ & Hx & Hy & Hc); [solve_decide..|].
  exists m. split; [exact Hm|].
  assert (forall x y, 0 <= x < 2 -> 0 <= y < 2 -> inside m x y) as Hin
    by (intros x y ? ?; unfold inside; rewrite Hx, Hy; lia).
  split; [|split]; (etransitivity; [apply Hc, Hin; lia|vm_compute; reflexivity]).
Defined.

End Costmap.
