(* ===== verification/CostmapPolygon.v ===== *)
(** * Polygons on a costmap ([Costmap2D::raytraceLine], [polygonOutlineCells],
    [convexFillCells], [setConvexPolygonCost])

    The outline of a polygon is traced with a two-dimensional Bresenham walk over
    indices, its cells are sorted by column, and every column is filled between its
    extreme outline cells. [std::hypot] is a parameter. *)

From stdpp Require Import base option list numbers sorting.
From Stdlib Require Import ZArith Lia SpecFloat Permutation.
From S2P Require Import Prelude Float64 Line Costmap.

Module CostmapPolygon.
Import Costmap.

Section Polygon.
Context (hypot : f64 -> f64 -> f64).

(** ** Lines *)

Section Raytrace.
Context {S : Type} (at_cell : Z -> S -> res S).

Fixpoint bresenham_loop (n : nat) (abs_da abs_db error_b offset_a offset_b offset : Z) (s : S) : res S :=
  match n with
  | O => at_cell offset s
  | Datatypes.S n =>
      s ← at_cell offset s;
      let offset := wrapu 32 (offset + offset_a) in
      let error_b := wraps 32 (wrapu 32 error_b + abs_db) in
      if wrapu 32 error_b >=? abs_da then
        bresenham_loop n abs_da abs_db (wraps 32 (wrapu 32 error_b - abs_da)) offset_a offset_b
          (wrapu 32 (offset + offset_b)) s
      else bresenham_loop n abs_da abs_db error_b offset_a offset_b offset s
  end.

Definition bresenham2D (abs_da abs_db error_b offset_a offset_b offset max_length : Z) (s : S) : res S :=
  bresenham_loop (Z.to_nat (Z.min max_length abs_da)) abs_da abs_db error_b offset_a offset_b offset s.

(** The start of the line, [min_length] cells away from the first point. *)
Definition min_point (dist : f64) (x0 d_full min_length : Z) : res Z :=
  if f64_lt f64_zero dist then
    f64_to_uint 32 (f64_add (f64_of_Z x0)
      (f64_mul (f64_div (f64_of_Z d_full) dist) (f64_of_Z min_length)))
  else Ok x0.

Definition line_scale (dist : f64) (max_length : Z) : f64 :=
  if f64_eq dist f64_zero then f64_of_Z 1
  else f64_min (f64_of_Z 1) (f64_div (f64_of_Z max_length) dist).

Definition raytraceLine (size_x x0 y0 x1 y1 max_length min_length : Z) (s : S) : res S :=
  let dx_full := wraps 32 (x1 - x0) in
  let dy_full := wraps 32 (y1 - y0) in
  let dist := hypot (f64_of_Z dx_full) (f64_of_Z dy_full) in
  if f64_lt dist (f64_of_Z min_length) then Ok s else
  min_x0 ← min_point dist x0 dx_full min_length;
  min_y0 ← min_point dist y0 dy_full min_length;
  let offset := wrapu 32 (min_y0 * size_x + min_x0) in
  let dx := wraps 32 (x1 - min_x0) in
  let dy := wraps 32 (y1 - min_y0) in
  abs_dx ← chk 32 (Z.abs dx);
  abs_dy ← chk 32 (Z.abs dy);
  let offset_dx := sign dx in
  let offset_dy := wraps 32 (sign dy * size_x) in
  let scale := line_scale dist max_length in
  if abs_dx >=? abs_dy then
    len ← f64_to_uint 32 (f64_mul scale (f64_of_Z abs_dx));
    bresenham2D abs_dx abs_dy (abs_dx / 2) offset_dx offset_dy offset len s
  else
    len ← f64_to_uint 32 (f64_mul scale (f64_of_Z abs_dy));
    bresenham2D abs_dy abs_dx (abs_dy / 2) offset_dy offset_dx offset len s.
End Raytrace.

Definition UINT_MAX : Z := 2 ^ 32 - 1.

(** ** Outlines *)

(** The action [PolygonOutlineCells]. *)
Definition gather (m : costmap) (offset : Z) (cells_ : list MapLocation) : res (list MapLocation) :=
  '(x, y) ← indexToCells offset m;
  Ok (cells_ ++ [mk_loc x y]).

Definition trace (m : costmap) (p q : MapLocation) (polygon_cells : list MapLocation) :
    res (list MapLocation) :=
  raytraceLine (gather m) (size_x m) (loc_x p) (loc_y p) (loc_x q) (loc_y q) UINT_MAX 0 polygon_cells.

(** The loop over the edges from vertex [i] on; [n] edges to go. *)
Fixpoint edge_loop (n : nat) (i : Z) (m : costmap) (polygon polygon_cells : list MapLocation) :
    res (list MapLocation) :=
  match n with
  | O => Ok polygon_cells
  | S n =>
      p ← aget polygon i;
      q ← aget polygon (i + 1);
      polygon_cells ← trace m p q polygon_cells;
      edge_loop n (i + 1) m polygon polygon_cells
  end.

(** [polygon.size() - 1] wraps around for an empty polygon, whose first vertex is
    then read. *)
Definition polygonOutlineCells (m : costmap) (polygon polygon_cells : list MapLocation) :
    res (list MapLocation) :=
  polygon_cells ←
    match length polygon with
    | O => UB
    | S n => edge_loop n 0 m polygon polygon_cells
    end;
  p ← aget polygon (Z.of_nat (length polygon) - 1);
  q ← aget polygon 0;
  trace m p q polygon_cells.

(** ** Filling *)

(** [l.size() - 1], which wraps around for an empty vector. *)
Definition size_minus_one (l : list MapLocation) : Z :=
  match l with [] => 2 ^ 64 - 1 | _ => Z.of_nat (length l) - 1 end.

(** The sort by column; [i] steps back after a swap. *)
Fixpoint sort_loop (fuel : nat) (i : Z) (l : list MapLocation) : res (list MapLocation) :=
  if i <? size_minus_one l then
    match fuel with
    | O => UB
    | S fuel =>
        a ← aget l i;
        b ← aget l (i + 1);
        if loc_x a >? loc_x b then
          l ← aset l i b;
          l ← aset l (i + 1) a;
          sort_loop fuel (if i >? 0 then i - 1 else i) l
        else sort_loop fuel (i + 1) l
    end
  else Ok l.

(** Two rounds for each pair of cells and one for each cell. *)
Definition sort_fuel (l : list MapLocation) : nat := (2 * (length l * length l) + length l)%nat.

(** The other outline cells of column [x]: the lowest and the highest so far. *)
Fixpoint column_loop (fuel : nat) (i x : Z) (min_pt max_pt : MapLocation) (l : list MapLocation) :
    res (Z * MapLocation * MapLocation) :=
  if i <? Z.of_nat (length l) then
    p ← aget l i;
    if loc_x p =? x then
      match fuel with
      | O => UB
      | S fuel =>
          let '(min_pt, max_pt) :=
            if loc_y p <? loc_y min_pt then (p, max_pt)
            else if loc_y p >? loc_y max_pt then (min_pt, p)
            else (min_pt, max_pt) in
          column_loop fuel (i + 1) x min_pt max_pt l
      end
    else Ok (i, min_pt, max_pt)
  else Ok (i, min_pt, max_pt).

(** The cells of column [x] from [y0] to [y1]. *)
Definition column_cells (x y0 y1 : Z) : list MapLocation := mk_loc x <$> seqZ y0 (y1 - y0 + 1).

(** The columns from [x] on, [n] of them to go; the filled cells are appended to the
    list being read. *)
Fixpoint fill_loop (n : nat) (x i : Z) (l : list MapLocation) : res (list MapLocation) :=
  match n with
  | O => Ok l
  | S n =>
      if i >=? size_minus_one l then Ok l else
      a ← aget l i;
      b ← aget l (i + 1);
      let '(min_pt, max_pt) := if loc_y a <? loc_y b then (a, b) else (b, a) in
      '(i, min_pt, max_pt) ← column_loop (length l) (i + 2) x min_pt max_pt l;
      fill_loop n (x + 1) i (l ++ column_cells x (loc_y min_pt) (loc_y max_pt))
  end.

Definition convexFillCells (m : costmap) (polygon polygon_cells : list MapLocation) :
    res (list MapLocation) :=
  if (length polygon <? 3)%nat then Ok polygon_cells else
  l ← polygonOutlineCells m polygon polygon_cells;
  l ← sort_loop (sort_fuel l) 0 l;
  min_p ← aget l 0;
  max_p ← aget l (Z.of_nat (length l) - 1);
  fill_loop (Z.to_nat (loc_x max_p - loc_x min_p + 1)) (loc_x min_p) 0 l.

(** [worldToMap] on every point: [None] as soon as one is not in the map. *)
Fixpoint map_points (m : costmap) (polygon : list (f64 * f64)) (map_polygon : list MapLocation) :
    res (option (list MapLocation)) :=
  match polygon with
  | [] => Ok (Some map_polygon)
  | (x, y) :: polygon =>
      r ← worldToMap x y m;
      match r with
      | (true, Some (mx, my)) => map_points m polygon (map_polygon ++ [mk_loc mx my])
      | _ => Ok None
      end
  end.

Fixpoint paint (polygon_cells : list MapLocation) (cost_value : Z) (m : costmap) : res costmap :=
  match polygon_cells with
  | [] => Ok m
  | p :: polygon_cells =>
      m ← setCost (loc_x p) (loc_y p) cost_value m;
      paint polygon_cells cost_value m
  end.

Definition setConvexPolygonCost (polygon : list (f64 * f64)) (cost_value : Z) (m : costmap) :
    res (bool * costmap) :=
  pts ← map_points m polygon [];
  match pts with
  | None => Ok (false, m)
  | Some map_polygon =>
      polygon_cells ← convexFillCells m map_polygon [];
      m ← paint polygon_cells cost_value m;
      Ok (true, m)
  end.
(** ** The cells of an edge *)

Definition edge_da (p q : MapLocation) : Z :=
  Z.max (Z.abs (loc_x q - loc_x p)) (Z.abs (loc_y q - loc_y p)).

Definition edge_cell (p q : MapLocation) (i : Z) : MapLocation :=
  mk_loc (coordinate (edge_da p q) (loc_x p) (loc_x q) i)
         (coordinate (edge_da p q) (loc_y p) (loc_y q) i).

Definition edge_cells (p q : MapLocation) : list MapLocation :=
  edge_cell p q <$> seqZ 0 (edge_da p q + 1).

(** The rounding of [hypot] and of the scale does not shorten the edge. *)
Definition full_edge (p q : MapLocation) : Prop :=
  let dx := loc_x q - loc_x p in
  let dy := loc_y q - loc_y p in
  let dist := hypot (f64_of_Z dx) (f64_of_Z dy) in
  f64_lt dist (f64_of_Z 0) = false /\
  min_point dist (loc_x p) dx 0 = Ok (loc_x p) /\
  min_point dist (loc_y p) dy 0 = Ok (loc_y p) /\
  exists len, f64_to_uint 32 (f64_mul (line_scale dist UINT_MAX) (f64_of_Z (edge_da p q))) = Ok len /\
    edge_da p q <= len.

Section Walk.
Context {S : Type} (act : Z -> S -> res S).
Context (da db oa ob : Z) (enc : Z -> Z -> Z).
Hypothesis Hda : 0 <= da < 2 ^ 31.
Hypothesis Hdb : 0 <= db <= da.
Hypothesis Ha : forall na nb, 0 <= na < da -> 0 <= nb <= db -> wrapu 32 (enc na nb + oa) = enc (na + 1) nb.
Hypothesis Hb : forall na nb, 0 <= na <= da -> 0 <= nb < db -> wrapu 32 (enc na nb + ob) = enc na (nb + 1).

Definition walk_at (i : Z) : Z := enc i (steps da db i).

Lemma outline_loop_visit n : forall i s,
  0 <= i -> i + Z.of_nat n <= da ->
  bresenham_loop act n da db (err da db i) oa ob (walk_at i) s =
    visit_all act (walk_at <$> seqZ i (Z.of_nat n + 1)) s.
Proof.
  induction n as [|n IH]; intros i s Hi Hn.
  - change (seqZ i (Z.of_nat 0 + 1)) with [0 + i]. rewrite Z.add_0_l.
    cbn [fmap list_fmap visit_all bresenham_loop]. symmetry. apply bind_ret.
  - rewrite seqZ_cons by lia. cbn [fmap list_fmap visit_all bresenham_loop].
    destruct (act _ s) as [s'| |]; [|done..]. rewrite !bind_Ok.
    assert (0 < da) as Hpos by lia.
    replace (Z.pred (Z.of_nat (Datatypes.S n) + 1)) with (Z.of_nat n + 1) by lia.
    change (Z.succ i) with (i + 1). rewrite <- IH by lia.
    pose proof (steps_range da db i Hdb ltac:(lia)).
    pose proof (steps_range da db (i + 1) Hdb ltac:(lia)).
    destruct (error_update da db i ltac:(lia) Hpos Hdb) as (Hub & Heb & Hsb).
    rewrite Hub, !Z.geb_leb in *. unfold walk_at. rewrite Ha by lia.
    destruct (steps_succ da db i Hpos Hdb) as [(Hlb & Htb & Hzb)|(Hlb & Htb & Hzb)].
    + rewrite (proj2 (Z.leb_le _ _) Hlb), Hb by lia. by rewrite Hsb, Htb, Hzb.
    + rewrite (proj2 (Z.leb_gt _ _) Hlb). by rewrite Heb, Htb, Hzb.
Qed.

Lemma outline_bresenham_visit len s :
  da <= len ->
  bresenham2D act da db (da / 2) oa ob (enc 0 0) len s =
    visit_all act (walk_at <$> seqZ 0 (da + 1)) s.
Proof.
  intros Hlen. unfold bresenham2D. rewrite Z.min_r by lia.
  destruct (Z.eq_dec da 0) as [Hz|].
  - rewrite Hz. change (seqZ 0 (0 + 1)) with [0].
    change (Z.to_nat 0) with 0%nat. cbn [fmap list_fmap visit_all bresenham_loop]. unfold walk_at.
    rewrite steps_start by lia. symmetry. apply bind_ret.
  - replace (da + 1) with (Z.of_nat (Z.to_nat da) + 1) by lia.
    rewrite <- (outline_loop_visit _ 0) by lia.
    unfold walk_at. by rewrite steps_start, err_start by lia.
Qed.
End Walk.

(** ** Tracing an edge inside the map *)

Section Edge.
Context (m : costmap) (p q : MapLocation).
Hypothesis Hwf : wf m.
Hypothesis Hp : inside m (loc_x p) (loc_y p).
Hypothesis Hq : inside m (loc_x q) (loc_y q).

(** The index after [nx] and [ny] steps on the axes. *)
Definition at_steps (nx ny : Z) : Z :=
  (loc_y p + sign (loc_y q - loc_y p) * ny) * size_x m + (loc_x p + sign (loc_x q - loc_x p) * nx).

Lemma on_edge nx ny : 0 <= nx <= Z.abs (loc_x q - loc_x p) -> 0 <= ny <= Z.abs (loc_y q - loc_y p) ->
  inside m (loc_x p + sign (loc_x q - loc_x p) * nx) (loc_y p + sign (loc_y q - loc_y p) * ny).
Proof.
  intros Hx Hy. pose proof (on_way (loc_x p) (loc_x q) nx Hx).
  pose proof (on_way (loc_y p) (loc_y q) ny Hy). destruct Hp, Hq. split; lia.
Qed.

Lemma at_steps_range nx ny : 0 <= nx <= Z.abs (loc_x q - loc_x p) ->
  0 <= ny <= Z.abs (loc_y q - loc_y p) -> in_u 32 (at_steps nx ny).
Proof.
  intros Hx Hy. destruct (index_spec m _ _ Hwf (on_edge nx ny Hx Hy)) as [_ Hr].
  pose proof (wf_area m Hwf). unfold in_u, at_steps. lia.
Qed.

Lemma outline_step_x nx ny :
  0 <= nx < Z.abs (loc_x q - loc_x p) -> 0 <= ny <= Z.abs (loc_y q - loc_y p) ->
  wrapu 32 (at_steps nx ny + sign (loc_x q - loc_x p)) = at_steps (nx + 1) ny.
Proof.
  intros Hx Hy. rewrite <- (wrapu_id 32 (at_steps (nx + 1) ny)) by (apply at_steps_range; lia).
  f_equal. unfold at_steps. rewrite sign_abs by lia. lia.
Qed.

Lemma outline_step_y nx ny :
  0 <= nx <= Z.abs (loc_x q - loc_x p) -> 0 <= ny < Z.abs (loc_y q - loc_y p) ->
  wrapu 32 (at_steps nx ny + wraps 32 (sign (loc_y q - loc_y p) * size_x m)) = at_steps nx (ny + 1).
Proof.
  intros Hx Hy. rewrite <- (wrapu_id 32 (at_steps nx (ny + 1))) by (apply at_steps_range; lia).
  destruct (wraps_mod 32 (sign (loc_y q - loc_y p) * size_x m) ltac:(lia)) as [k ->].
  unfold wrapu.
  replace (at_steps nx ny + (sign (loc_y q - loc_y p) * size_x m + k * 2 ^ 32))
    with (at_steps nx (ny + 1) + k * 2 ^ 32); [by rewrite Z.mod_add by lia|].
  unfold at_steps. rewrite sign_abs by lia. lia.
Qed.

Lemma edge_cell_inside c : c ∈ edge_cells p q -> inside m (loc_x c) (loc_y c).
Proof.
  unfold edge_cells. intros (i & -> & Hi)%list_elem_of_fmap. apply elem_of_seqZ in Hi.
  destruct Hp, Hq. unfold edge_cell, edge_da in *. cbn [loc_x loc_y].
  pose proof (coordinate_between (edge_da p q) (loc_x p) (loc_x q) i).
  pose proof (coordinate_between (edge_da p q) (loc_y p) (loc_y q) i).
  unfold edge_da, inside in *. lia.
Qed.

(** The index after [i] steps is that of the [i]-th cell. *)
Lemma at_steps_cell i : 0 <= i <= edge_da p q ->
  at_steps (steps (edge_da p q) (Z.abs (loc_x q - loc_x p)) i)
    (steps (edge_da p q) (Z.abs (loc_y q - loc_y p)) i) =
  loc_y (edge_cell p q i) * size_x m + loc_x (edge_cell p q i).
Proof. done. Qed.

Lemma gather_all (f : Z -> Z) : forall l cells0,
  (forall i, i ∈ l -> 0 <= i <= edge_da p q) ->
  (forall i, i ∈ l -> f i = loc_y (edge_cell p q i) * size_x m + loc_x (edge_cell p q i)) ->
  visit_all (gather m) (f <$> l) cells0 = Ok (cells0 ++ (edge_cell p q <$> l)).
Proof.
  induction l as [|i l IH]; intros cells0 Hr Hf; [by rewrite app_nil_r|].
  cbn [fmap list_fmap visit_all]. rewrite Hf by (by left).
  assert (inside m (loc_x (edge_cell p q i)) (loc_y (edge_cell p q i))) as Hin.
  { apply edge_cell_inside, list_elem_of_fmap. exists i. split; [done|].
    apply elem_of_seqZ. specialize (Hr i ltac:(by left)). lia. }
  assert (gather m (loc_y (edge_cell p q i) * size_x m + loc_x (edge_cell p q i)) cells0 =
    Ok (cells0 ++ [edge_cell p q i])) as ->.
  { unfold gather. by rewrite indexToCells_index, bind_Ok by done. }
  rewrite bind_Ok.
  etransitivity; [apply IH; intros j Hj; [apply Hr|apply Hf]; by right|].
  by rewrite <- app_assoc.
Qed.

Lemma trace_spec cells0 : full_edge p q ->
  trace m p q cells0 = Ok (cells0 ++ edge_cells p q).
Proof.
  intros (Hlt & Hmx & Hmy & len & Hlen & Hle).
  pose proof Hp as [? ?]. pose proof Hq as [? ?]. pose proof (wf_x m Hwf). pose proof (wf_y m Hwf).
  unfold trace, raytraceLine.
  rewrite (wraps_id 32 (loc_x q - loc_x p)), (wraps_id 32 (loc_y q - loc_y p)) by (unfold in_s; lia).
  rewrite Hlt, Hmx, bind_Ok, Hmy, bind_Ok.
  rewrite (wraps_id 32 (loc_x q - loc_x p)), (wraps_id 32 (loc_y q - loc_y p)) by (unfold in_s; lia).
  rewrite (chk_in 32 (Z.abs (loc_x q - loc_x p))), bind_Ok by (unfold in_s; lia).
  rewrite (chk_in 32 (Z.abs (loc_y q - loc_y p))), bind_Ok by (unfold in_s; lia).
  replace (loc_y p * size_x m + loc_x p) with (at_steps 0 0) by (unfold at_steps; lia).
  rewrite wrapu_id by (apply at_steps_range; lia). rewrite Z.geb_leb.
  unfold edge_da in Hlen, Hle.
  destruct (Z.leb_spec (Z.abs (loc_y q - loc_y p)) (Z.abs (loc_x q - loc_x p))) as [Hd|Hd].
  - rewrite Z.max_l in Hlen, Hle by lia. rewrite Hlen, bind_Ok.
    rewrite (outline_bresenham_visit (gather m) _ _ _ _ at_steps); [|lia|lia|..|done];
      [|by intros; apply outline_step_x|by intros; apply outline_step_y].
    unfold edge_cells. replace (edge_da p q) with (Z.abs (loc_x q - loc_x p)) by (unfold edge_da; lia).
    apply gather_all; intros i Hi; apply elem_of_seqZ in Hi; [unfold edge_da; lia|].
    rewrite <- at_steps_cell by (unfold edge_da; lia). unfold walk_at, edge_da.
    rewrite Z.max_l by lia. by rewrite (steps_self (Z.abs (loc_x q - loc_x p))) by lia.
  - rewrite Z.max_r in Hlen, Hle by lia. rewrite Hlen, bind_Ok.
    rewrite (outline_bresenham_visit (gather m) _ _ _ _ (fun a b => at_steps b a)); [|lia|lia|..|done];
      [|by intros; apply outline_step_y|by intros; apply outline_step_x].
    unfold edge_cells. replace (edge_da p q) with (Z.abs (loc_y q - loc_y p)) by (unfold edge_da; lia).
    apply gather_all; intros i Hi; apply elem_of_seqZ in Hi; [unfold edge_da; lia|].
    rewrite <- at_steps_cell by (unfold edge_da; lia). unfold walk_at, edge_da.
    rewrite Z.max_r by lia. by rewrite (steps_self (Z.abs (loc_y q - loc_y p))) by lia.
Qed.
End Edge.

(** ** Outlines *)

Fixpoint path_edges (l : list MapLocation) : list (MapLocation * MapLocation) :=
  match l with
  | p :: (q :: _) as l' => (p, q) :: path_edges l'
  | _ => []
  end.

(** The edges of a closed polygon, the closing one last, and their cells. *)
Definition polygon_edges (polygon : list MapLocation) : list (MapLocation * MapLocation) :=
  path_edges (polygon ++ take 1 polygon).

Definition cells_of (edges : list (MapLocation * MapLocation)) : list MapLocation :=
  edges ≫= fun e => edge_cells e.1 e.2.

Definition outline (polygon : list MapLocation) : list MapLocation := cells_of (polygon_edges polygon).

Definition in_map (m : costmap) (p : MapLocation) : Prop := inside m (loc_x p) (loc_y p).

Lemma path_edges_cons p q l : path_edges (p :: q :: l) = (p, q) :: path_edges (q :: l).
Proof. done. Qed.

Lemma path_edges_app l a b l' : path_edges (l ++ a :: b :: l') = path_edges (l ++ [a]) ++ (a, b) :: path_edges (b :: l').
Proof.
  induction l as [|c [|d l] IH]; [done|done|]. cbn [app path_edges] in *. by rewrite IH.
Qed.

Lemma edge_loop_spec m polygon : wf m -> Forall (in_map m) polygon ->
  forall n i cells0, i + Z.of_nat n + 1 = Z.of_nat (length polygon) -> 0 <= i ->
  Forall (fun e => full_edge e.1 e.2) (path_edges (drop (Z.to_nat i) polygon)) ->
  edge_loop n i m polygon cells0 =
    Ok (cells0 ++ cells_of (path_edges (drop (Z.to_nat i) polygon))).
Proof.
  intros Hwf Hin n. induction n as [|n IH]; intros i cells0 Hn Hi Hfull.
  - destruct (drop (Z.to_nat i) polygon) as [|p [|q l]] eqn:Hd;
      apply (f_equal length) in Hd; rewrite length_drop in Hd; simpl in Hd; try lia.
    simpl. by rewrite app_nil_r.
  - destruct (lookup_lt_is_Some_2 polygon (Z.to_nat i)) as [p Hp]; [lia|].
    destruct (lookup_lt_is_Some_2 polygon (Z.to_nat (i + 1))) as [q Hq]; [lia|].
    assert (drop (Z.to_nat i) polygon = p :: drop (Z.to_nat (i + 1)) polygon) as Hd.
    { rewrite (drop_S _ p) by done. do 2 f_equal. lia. }
    specialize (IH (i + 1)). rewrite Hd in Hfull |- *.
    destruct (drop (Z.to_nat (i + 1)) polygon) as [|q' l] eqn:Hd'.
    { apply (f_equal length) in Hd'. rewrite length_drop in Hd'. simpl in Hd'. lia. }
    assert (q' = q) as -> by (rewrite (drop_S _ q) in Hd' by done; congruence).
    rewrite path_edges_cons in Hfull |- *. apply list.Forall_cons in Hfull as [Hpq Hfull].
    cbn [edge_loop]. rewrite (proj2 (aget_ok polygon i p)), bind_Ok by done.
    rewrite (proj2 (aget_ok polygon (i + 1) q)), bind_Ok by (split; [lia|done]).
    rewrite trace_spec, bind_Ok; [|done|exact (Forall_lookup_1 _ _ _ _ Hin Hp)
      |exact (Forall_lookup_1 _ _ _ _ Hin Hq)|done].
    rewrite IH by (lia || done). by rewrite <- app_assoc.
Qed.

Lemma outline_spec m polygon cells0 : wf m -> Forall (in_map m) polygon -> polygon <> [] ->
  Forall (fun e => full_edge e.1 e.2) (polygon_edges polygon) ->
  polygonOutlineCells m polygon cells0 = Ok (cells0 ++ outline polygon).
Proof.
  intros Hwf Hin Hne Hfull. unfold polygonOutlineCells, outline, polygon_edges in *.
  destruct polygon as [|h polygon]; [done|]. cbn [length]. set (l := h :: polygon) in *.
  destruct (exists_last (l := l) ltac:(done)) as (pre & z & Hl).
  change (take 1 l) with [h] in *.
  assert (path_edges (l ++ [h]) = path_edges l ++ [(z, h)]) as He.
  { rewrite Hl, <- app_assoc. cbn [app]. apply path_edges_app. }
  rewrite He in *. apply Forall_app in Hfull as [Hfull [Hzh _]%list.Forall_cons].
  rewrite (edge_loop_spec m l Hwf Hin), bind_Ok; [|simpl; lia|lia|by rewrite drop_0].
  assert (length l = S (length pre)) as Hlen by (rewrite Hl, length_app; simpl; lia).
  assert (l !! length pre = Some z) as Hz by (rewrite Hl; by apply list_lookup_middle).
  change (S (length polygon)) with (length l).
  rewrite (proj2 (aget_ok l (Z.of_nat (length l) - 1) z)), bind_Ok
    by (split; [lia|]; rewrite Hlen; by replace (Z.to_nat _) with (length pre) by lia).
  rewrite (proj2 (aget_ok l 0 h)), bind_Ok by done.
  rewrite trace_spec; [|done|exact (Forall_lookup_1 _ _ _ _ Hin Hz)
    |exact (Forall_lookup_1 _ _ 0 _ Hin eq_refl)|done].
  rewrite drop_0. unfold cells_of. rewrite bind_app. cbn [mbind list_bind]. simpl.
  by rewrite app_nil_r, <- app_assoc.
Qed.

(** ** Sorting by column *)

Definition le_x (p q : MapLocation) : Prop := loc_x p <= loc_x q.

#[local] Instance le_x_trans : Transitive le_x.
Proof. intros p q r. unfold le_x. lia. Qed.

(** Pairs out of order. *)
Fixpoint inversions (l : list MapLocation) : nat :=
  match l with
  | [] => 0
  | a :: l => length (filter (fun b => loc_x b < loc_x a) l) + inversions l
  end.

Lemma inversions_swap a b post : loc_x b < loc_x a -> forall pre,
  inversions (pre ++ a :: b :: post) = S (inversions (pre ++ b :: a :: post)).
Proof.
  intros Hab pre. induction pre as [|c pre IH].
  - cbn [app inversions]. rewrite !list.filter_cons.
    destruct (decide (loc_x b < loc_x a)), (decide (loc_x a < loc_x b)); simpl length; lia.
  - cbn [app inversions]. rewrite IH. rewrite !list.filter_app, !length_app, !list.filter_cons.
    destruct (decide (loc_x a < loc_x c)), (decide (loc_x b < loc_x c)); simpl length; lia.
Qed.

Lemma inversions_bound l : (inversions l <= length l * length l)%nat.
Proof.
  induction l as [|a l IH]; [done|]. cbn [inversions length].
  pose proof (list.length_filter (fun b => loc_x b < loc_x a) l). lia.
Qed.

Lemma sorted_snoc l a b : StronglySorted le_x (l ++ [a]) -> le_x a b ->
  StronglySorted le_x (l ++ [a; b]).
Proof.
  intros Hs Hab. induction l as [|c l IH]; cbn [app] in *.
  - repeat constructor. done.
  - apply StronglySorted_inv in Hs as [Hs Hc]. constructor; [by apply IH|].
    rewrite list.Forall_forall in *. intros d Hd.
    assert (l ++ [a; b] = (l ++ [a]) ++ [b]) as Heq by by rewrite <- app_assoc.
    rewrite Heq in Hd. apply elem_of_app in Hd as [Hd|Hd]; [by apply Hc|].
    apply list_elem_of_singleton in Hd as ->.
    trans a; [|done]. apply Hc, elem_of_app. right. by apply list_elem_of_singleton.
Qed.

Lemma sorted_app_l l a : StronglySorted le_x (l ++ [a]) -> StronglySorted le_x l.
Proof.
  induction l as [|c l IH]; cbn [app]; intros Hs; [constructor|].
  apply StronglySorted_inv in Hs as [Hs Hc]. constructor; [by apply IH|].
  by apply Forall_app in Hc as [? _].
Qed.

(** One round of the sort at the end of the sorted part [pre ++ [a]]. *)
Lemma sort_round fuel pre a b post :
  sort_loop (S fuel) (Z.of_nat (length pre)) (pre ++ a :: b :: post) =
    if loc_x a >? loc_x b then
      sort_loop fuel (if Z.of_nat (length pre) >? 0 then Z.of_nat (length pre) - 1 else Z.of_nat (length pre))
        (pre ++ b :: a :: post)
    else sort_loop fuel (Z.of_nat (length pre) + 1) (pre ++ a :: b :: post).
Proof.
  set (l := pre ++ a :: b :: post).
  assert (length l = (length pre + S (S (length post)))%nat) as Hlen
    by (unfold l; by rewrite length_app).
  assert (size_minus_one l = Z.of_nat (length l) - 1) as Hsize
    by (unfold l; by destruct pre).
  cbn [sort_loop]. rewrite Hsize. destruct (Z.ltb_spec (Z.of_nat (length pre)) (Z.of_nat (length l) - 1)); [|lia].
  assert (l !! length pre = Some a) as Ha by (unfold l; by apply list_lookup_middle).
  assert (l !! S (length pre) = Some b) as Hb.
  { unfold l. replace (pre ++ a :: b :: post) with ((pre ++ [a]) ++ b :: post)
      by by rewrite <- app_assoc. apply list_lookup_middle. rewrite length_app. simpl. lia. }
  rewrite (proj2 (aget_ok l (Z.of_nat (length pre)) a)), bind_Ok by (split; [lia|by rewrite Nat2Z.id]).
  rewrite (proj2 (aget_ok l (Z.of_nat (length pre) + 1) b)), bind_Ok
    by (split; [lia|by replace (Z.to_nat _) with (S (length pre)) by lia]).
  destruct (loc_x a >? loc_x b); [|done].
  unfold aset. rewrite decide_True by lia. rewrite bind_Ok.
  rewrite decide_True by (rewrite length_insert; lia). rewrite bind_Ok.
  f_equal. rewrite Nat2Z.id. replace (Z.to_nat (Z.of_nat (length pre) + 1)) with (S (length pre)) by lia.
  unfold l. replace (length pre) with (length pre + 0)%nat at 2 by lia.
  rewrite insert_app_r. replace (S (length pre)) with (length pre + 1)%nat by lia.
  by rewrite insert_app_r.
Qed.

Lemma sort_loop_spec : forall fuel pre a post,
  StronglySorted le_x (pre ++ [a]) ->
  (2 * inversions (pre ++ a :: post) + length post <= fuel)%nat ->
  exists l, sort_loop fuel (Z.of_nat (length pre)) (pre ++ a :: post) = Ok l /\
    Permutation (pre ++ a :: post) l /\ StronglySorted le_x l.
Proof.
  induction fuel as [|fuel IH]; intros pre a post Hs Hf.
  all: destruct post as [|b post];
    [exists (pre ++ [a]); split; [|done];
     assert (size_minus_one (pre ++ [a]) = Z.of_nat (length pre)) as Hsz
       by (rewrite <- (Nat2Z.id (length pre)); destruct pre; simpl; rewrite ?length_app; simpl; lia);
     cbn [sort_loop]; by rewrite Hsz, Z.ltb_irrefl|].
  { simpl in Hf. lia. }
  rewrite sort_round, Z.gtb_ltb. destruct (Z.ltb_spec (loc_x b) (loc_x a)) as [Hlt|Hge].
  - pose proof (inversions_swap a b post Hlt pre) as Hinv. cbn [length] in Hf.
    destruct pre as [|c pre _] using rev_ind.
    + destruct (IH [] b (a :: post)) as (l & Hl & Hp & Hsl); [repeat constructor|cbn [app length] in *; lia|].
      exists l. split; [done|]. split; [|done]. etrans; [|exact Hp]. apply perm_swap.
    + rewrite Z.gtb_ltb. destruct (Z.ltb_spec 0 (Z.of_nat (length (pre ++ [c])))) as [_|H0];
        [|rewrite length_app in H0; simpl in H0; lia].
      destruct (IH pre c (b :: a :: post)) as (l & Hl & Hp & Hsl).
      * by eapply sorted_app_l.
      * rewrite <- app_assoc in Hf. rewrite <- (app_assoc pre [c] (a :: b :: post)) in Hinv.
        rewrite <- (app_assoc pre [c] (b :: a :: post)) in Hinv. cbn [app length] in *. lia.
      * exists l. rewrite <- !app_assoc. cbn [app]. split.
        { rewrite <- Hl. f_equal. rewrite length_app. simpl. lia. }
        split; [|done]. etrans; [|exact Hp]. apply Permutation_app_head, perm_skip, perm_swap.
  - destruct (IH (pre ++ [a]) b post) as (l & Hl & Hp & Hsl).
    + rewrite <- app_assoc. by apply sorted_snoc.
    + rewrite <- app_assoc. cbn [app length] in *. lia.
    + exists l. rewrite <- app_assoc in Hl, Hp. cbn [app] in Hl, Hp. split; [|done].
      rewrite <- Hl. f_equal. rewrite length_app. simpl. lia.
Qed.

Lemma sort_spec l : l <> [] ->
  exists l', sort_loop (sort_fuel l) 0 l = Ok l' /\ Permutation l l' /\ StronglySorted le_x l'.
Proof.
  intros Hne. destruct l as [|a post]; [done|].
  apply (sort_loop_spec (sort_fuel (a :: post)) [] a post); [repeat constructor|].
  pose proof (inversions_bound (a :: post)). unfold sort_fuel. cbn [app length] in *. lia.
Qed.

(** ** Filling the columns *)

(** Between two cells of [o] in its column. *)
Definition between (o : list MapLocation) (c : MapLocation) : Prop :=
  exists a b, a ∈ o /\ b ∈ o /\ loc_x a = loc_x c /\ loc_x b = loc_x c /\
    loc_y a <= loc_y c <= loc_y b.

Definition in_column (x : Z) (l : list MapLocation) : nat := length (filter (fun p => loc_x p = x) l).

Lemma in_column_app x l l' : in_column x (l ++ l') = (in_column x l + in_column x l')%nat.
Proof. unfold in_column. by rewrite list.filter_app, length_app. Qed.

Lemma in_column_all x l : Forall (fun p => loc_x p = x) l -> in_column x l = length l.
Proof.
  unfold in_column. induction 1 as [|p l Hp _ IH]; [done|].
  rewrite list.filter_cons, decide_True by done. simpl. by rewrite IH.
Qed.

Lemma in_column_none x l : Forall (fun p => loc_x p <> x) l -> in_column x l = 0%nat.
Proof.
  unfold in_column. induction 1 as [|p l Hp _ IH]; [done|].
  by rewrite list.filter_cons, decide_False by done.
Qed.

Lemma in_column_perm x l l' : Permutation l l' -> in_column x l = in_column x l'.
Proof. intros Hp. unfold in_column. by rewrite Hp. Qed.

(** The first column of a sorted list. *)
Lemma sorted_split x l : StronglySorted le_x l -> Forall (fun p => x <= loc_x p) l ->
  exists c rest, l = c ++ rest /\ Forall (fun p => loc_x p = x) c /\
    Forall (fun p => x < loc_x p) rest /\ StronglySorted le_x rest.
Proof.
  induction 1 as [|p l Hs IH Hp]; intros Hx; [exists [], []; by repeat constructor|].
  apply list.Forall_cons in Hx as [Hpx Hx]. destruct (decide (loc_x p = x)) as [He|Hne].
  - destruct (IH Hx) as (c & rest & -> & Hc & Hr & Hsr). exists (p :: c), rest.
    split; [done|]. split; [by constructor|done].
  - exists [], (p :: l). split; [done|]. split; [constructor|]. split; [|by constructor].
    constructor; [lia|]. eapply list.Forall_impl; [exact Hp|]. unfold le_x. intros q Hq. simpl in Hq. lia.
Qed.

Lemma elem_of_two {A} (x a b : A) : x ∈ [a; b] <-> x = a \/ x = b.
Proof. rewrite elem_of_cons, list_elem_of_singleton. done. Qed.

(** The next element, if any, is in another column. *)
Definition stops (x : Z) (l : list MapLocation) : Prop := forall p l', l = p :: l' -> loc_x p <> x.

Lemma column_loop_spec x post : stops x post -> forall c fuel pre mn mx,
  Forall (fun p => loc_x p = x) c -> (length c <= fuel)%nat -> loc_y mn <= loc_y mx ->
  exists mn' mx',
    column_loop fuel (Z.of_nat (length pre)) x mn mx (pre ++ c ++ post) =
      Ok (Z.of_nat (length pre + length c), mn', mx') /\
    mn' ∈ mn :: c /\ mx' ∈ mx :: c /\ loc_y mn' <= loc_y mn /\ loc_y mx <= loc_y mx' /\
    Forall (fun p => loc_y mn' <= loc_y p <= loc_y mx') c.
Proof.
  intros Hstop c. induction c as [|p c IH]; intros fuel pre mn mx Hc Hf Hm.
  - exists mn, mx. rewrite Nat.add_0_r. split; [|repeat split; try (by left); lia || done].
    destruct post as [|q post].
    + rewrite !app_nil_r. destruct fuel; cbn [column_loop]; by rewrite Z.ltb_irrefl.
    + cbn [app]. assert ((Z.of_nat (length pre) <? Z.of_nat (length (pre ++ q :: post))) = true) as Hlt
        by (apply Z.ltb_lt; rewrite length_app; simpl; lia).
      assert (aget (pre ++ q :: post) (Z.of_nat (length pre)) = Ok q) as Hq
        by (apply aget_ok; split; [lia|]; rewrite Nat2Z.id; by apply list_lookup_middle).
      pose proof (Hstop q post eq_refl) as Hne.
      destruct fuel; cbn [column_loop]; rewrite Hlt, Hq, bind_Ok;
        by rewrite (proj2 (Z.eqb_neq _ _) Hne).
  - destruct fuel as [|fuel]; [simpl in Hf; lia|]. apply list.Forall_cons in Hc as [Hp Hc].
    cbn [app column_loop].
    rewrite (proj2 (Z.ltb_lt _ _)) by (rewrite length_app; simpl; lia).
    assert (aget (pre ++ p :: c ++ post) (Z.of_nat (length pre)) = Ok p) as ->
      by (apply aget_ok; split; [lia|]; rewrite Nat2Z.id; by apply list_lookup_middle).
    rewrite bind_Ok, (proj2 (Z.eqb_eq _ _) Hp), Z.gtb_ltb.
    replace (Z.of_nat (length pre) + 1) with (Z.of_nat (length (pre ++ [p])))
      by (rewrite length_app; simpl; lia).
    replace (pre ++ p :: c ++ post) with ((pre ++ [p]) ++ c ++ post) by by rewrite <- app_assoc.
    replace (length pre + length (p :: c))%nat with (length (pre ++ [p]) + length c)%nat
      by (rewrite length_app; simpl; lia).
    assert (forall mn1 mx1, mn1 ∈ [mn; p] -> mx1 ∈ [mx; p] -> loc_y mn1 <= loc_y mn ->
      loc_y mx <= loc_y mx1 -> loc_y mn1 <= loc_y p <= loc_y mx1 -> exists mn' mx',
      column_loop fuel (Z.of_nat (length (pre ++ [p]))) x mn1 mx1 ((pre ++ [p]) ++ c ++ post) =
        Ok (Z.of_nat (length (pre ++ [p]) + length c), mn', mx') /\
      mn' ∈ mn :: p :: c /\ mx' ∈ mx :: p :: c /\ loc_y mn' <= loc_y mn /\ loc_y mx <= loc_y mx' /\
      Forall (fun p => loc_y mn' <= loc_y p <= loc_y mx') (p :: c)) as Hgo.
    { intros mn1 mx1 Hmn Hmx ? ? ?.
      destruct (IH fuel (pre ++ [p]) mn1 mx1) as (mn' & mx' & Hl & Hn' & Hx' & ? & ? & Hall);
        [done|simpl in Hf; lia|lia|].
      exists mn', mx'. split; [done|].
      apply elem_of_two in Hmn, Hmx. apply elem_of_cons in Hn', Hx'. rewrite !elem_of_cons.
      split; [destruct Hn' as [->|]; tauto|]. split; [destruct Hx' as [->|]; tauto|].
      split; [lia|]. split; [lia|]. constructor; [lia|done]. }
    destruct (Z.ltb_spec (loc_y p) (loc_y mn)); [|destruct (Z.ltb_spec (loc_y mx) (loc_y p))];
      apply Hgo; try lia; first [by left|by right; left].
Qed.

Lemma column_cells_spec x y0 y1 c :
  c ∈ column_cells x y0 y1 <-> loc_x c = x /\ y0 <= loc_y c <= y1.
Proof.
  unfold column_cells. rewrite list_elem_of_fmap. setoid_rewrite elem_of_seqZ. split.
  - intros (y & -> & ?). simpl. lia.
  - intros [<- ?]. exists (loc_y c). split; [by destruct c|lia].
Qed.

(** One column: its cells [a :: b :: c], between other cells of the list. *)
Lemma fill_column n x pre a b c post :
  Forall (fun p => loc_x p = x) (a :: b :: c) -> stops x post ->
  exists y0 y1,
    fill_loop (S n) x (Z.of_nat (length pre)) (pre ++ (a :: b :: c) ++ post) =
      fill_loop n (x + 1) (Z.of_nat (length (pre ++ a :: b :: c)))
        ((pre ++ a :: b :: c) ++ post ++ column_cells x y0 y1) /\
    forall p, p ∈ column_cells x y0 y1 <-> loc_x p = x /\ between (a :: b :: c) p.
Proof.
  intros Hc Hstop. set (l := pre ++ (a :: b :: c) ++ post).
  assert (length l = (length pre + (2 + length c + length post))%nat) as Hlen
    by (unfold l; rewrite !length_app; done).
  assert (size_minus_one l = Z.of_nat (length l) - 1) as Hsize by (unfold l; by destruct pre).
  assert (aget l (Z.of_nat (length pre)) = Ok a) as Ha.
  { apply aget_ok. split; [lia|]. rewrite Nat2Z.id. by apply list_lookup_middle. }
  assert (aget l (Z.of_nat (length pre) + 1) = Ok b) as Hb.
  { apply aget_ok. split; [lia|]. unfold l. cbn [app].
    replace (pre ++ a :: b :: c ++ post) with ((pre ++ [a]) ++ b :: c ++ post) by by rewrite <- app_assoc.
    apply list_lookup_middle. rewrite length_app. simpl. lia. }
  set (mn0 := if loc_y a <? loc_y b then a else b). set (mx0 := if loc_y a <? loc_y b then b else a).
  apply list.Forall_cons in Hc as [Hax Hc]. apply list.Forall_cons in Hc as [Hbx Hc].
  destruct (column_loop_spec x post Hstop c (length l) (pre ++ [a; b]) mn0 mx0)
    as (mn & mx & Hcol & Hmn & Hmx & Hmn0 & Hmx0 & Hall); [done|lia| |].
  { unfold mn0, mx0. destruct (Z.ltb_spec (loc_y a) (loc_y b)); lia. }
  exists (loc_y mn), (loc_y mx). split.
  - cbn [fill_loop]. rewrite Hsize, Z.geb_leb, (proj2 (Z.leb_gt _ _)) by lia.
    rewrite Ha, bind_Ok, Hb, bind_Ok.
    replace (if loc_y a <? loc_y b then (a, b) else (b, a)) with (mn0, mx0)
      by (unfold mn0, mx0; by destruct (loc_y a <? loc_y b)).
    replace (Z.of_nat (length pre) + 2) with (Z.of_nat (length (pre ++ [a; b])))
      by (rewrite length_app; simpl; lia).
    replace l with ((pre ++ [a; b]) ++ c ++ post) at 2 by (unfold l; by rewrite <- app_assoc).
    rewrite Hcol, bind_Ok. f_equal; [rewrite !length_app; simpl; lia|].
    unfold l. by rewrite <- !app_assoc.
  - assert (mn0 ∈ [a; b] /\ mx0 ∈ [a; b]) as [Hm0 Hx0]
      by (unfold mn0, mx0; destruct (loc_y a <? loc_y b); split; first [by left|by right; left]).
    assert (forall p q0, p ∈ q0 :: c -> q0 ∈ [a; b] -> p ∈ a :: b :: c) as Hsub.
    { intros p q0 Hp Hq0. apply elem_of_two in Hq0. apply elem_of_cons in Hp.
      rewrite !elem_of_cons. destruct Hp as [->|]; tauto. }
    assert (Forall (fun p => loc_y mn <= loc_y p <= loc_y mx) (a :: b :: c)) as Hbounds.
    { repeat constructor; try done; unfold mn0, mx0 in *;
        destruct (Z.ltb_spec (loc_y a) (loc_y b)); lia. }
    assert (Forall (fun p => loc_x p = x) (a :: b :: c)) as Hcolx by by repeat constructor.
    rewrite list.Forall_forall in Hbounds, Hcolx.
    intros p. rewrite column_cells_spec. split.
    + intros [Hp ?]. split; [done|]. exists mn, mx.
      assert (mn ∈ a :: b :: c) as Hn by by eapply Hsub.
      assert (mx ∈ a :: b :: c) as Hx by by eapply Hsub.
      repeat split; try done; try lia; rewrite Hcolx; done.
    + intros [Hp (u & v & Hu & Hv & _ & _ & ?)]. split; [done|].
      apply Hbounds in Hu, Hv. lia.
Qed.

Lemma between_cons_column x c rest p : Forall (fun q => loc_x q = x) c ->
  Forall (fun q => x < loc_x q) rest ->
  between (c ++ rest) p <-> (loc_x p = x /\ between c p) \/ (x < loc_x p /\ between rest p).
Proof.
  intros Hc Hr. rewrite list.Forall_forall in Hc, Hr. unfold between. split.
  - intros (a & b & [Ha|Ha]%elem_of_app & [Hb|Hb]%elem_of_app & Hax & Hbx & ?);
      first [pose proof (Hc _ Ha)|pose proof (Hr _ Ha)]; first [pose proof (Hc _ Hb)|pose proof (Hr _ Hb)];
      simpl in *; try lia; [left|right]; split; try lia; exists a, b; done.
  - intros [[_ (a & b & Ha & Hb & ?)]|[_ (a & b & Ha & Hb & ?)]]; exists a, b;
      rewrite !elem_of_app; tauto.
Qed.

Lemma fill_loop_spec : forall n x pre rest extra,
  StronglySorted le_x rest -> Forall (fun p => x <= loc_x p < x + Z.of_nat n) rest ->
  (forall y, x <= y < x + Z.of_nat n -> (2 <= in_column y rest)%nat) ->
  Forall (fun p => loc_x p < x) extra ->
  exists fills, fill_loop n x (Z.of_nat (length pre)) (pre ++ rest ++ extra) =
      Ok (pre ++ rest ++ extra ++ fills) /\
    forall p, p ∈ fills <-> between rest p.
Proof.
  induction n as [|n IH]; intros x pre rest extra Hs Hr Hcol He.
  - exists []. rewrite app_nil_r. split; [done|]. intros p. split; [by intros ?%not_elem_of_nil|].
    intros (a & _ & Ha & _). rewrite list.Forall_forall in Hr. apply Hr in Ha. simpl in Ha. lia.
  - destruct (sorted_split x rest Hs) as (c & rest' & -> & Hc & Hr' & Hs').
    { eapply list.Forall_impl; [exact Hr|]. intros p Hp. simpl in Hp. lia. }
    assert (forall y, y <> x -> in_column y c = 0%nat) as Hother.
    { intros y Hy. apply in_column_none. eapply list.Forall_impl; [exact Hc|]. intros p Hp. simpl in Hp. lia. }
    assert (2 <= length c)%nat as Hlen.
    { specialize (Hcol x ltac:(lia)). rewrite in_column_app, (in_column_all x c Hc) in Hcol.
      rewrite (in_column_none x rest') in Hcol; [lia|].
      eapply list.Forall_impl; [exact Hr'|]. intros p Hp. simpl in Hp. lia. }
    destruct c as [|a [|b c]]; [simpl in Hlen; lia..|].
    destruct (fill_column n x pre a b c (rest' ++ extra) Hc) as (y0 & y1 & Hf & Hcells).
    { intros p l' Heq. destruct rest' as [|q rest'']; simpl in Heq.
      - rewrite list.Forall_forall in He. assert (loc_x p < x); [|lia]. apply He. rewrite Heq. by left.
      - injection Heq as -> _. apply list.Forall_cons in Hr' as [? _]. lia. }
    apply Forall_app in Hr as [_ Hr].
    destruct (IH (x + 1) (pre ++ a :: b :: c) rest' (extra ++ column_cells x y0 y1))
      as (fills & Hfill & Hp); [done| | | |].
    + rewrite list.Forall_forall in *. intros p Hp. specialize (Hr p Hp). specialize (Hr' p Hp).
      simpl in *. lia.
    + intros y Hy. specialize (Hcol y ltac:(lia)). rewrite in_column_app, Hother in Hcol by lia. lia.
    + apply Forall_app. split; [eapply list.Forall_impl; [exact He|]; intros p Hp; simpl in Hp; lia|].
      apply list.Forall_forall. intros p [Hp _]%column_cells_spec. lia.
    + exists (column_cells x y0 y1 ++ fills). split.
      * rewrite <- (app_assoc (a :: b :: c) rest' extra), Hf, <- (app_assoc rest' extra), Hfill.
        f_equal. by rewrite <- !app_assoc.
      * intros p. rewrite elem_of_app, (between_cons_column x _ _ _ Hc Hr'), Hcells, Hp.
        assert (between rest' p -> x < loc_x p); [|tauto].
        intros (u & _ & Hu & _ & Hux & _). rewrite list.Forall_forall in Hr'.
        apply Hr' in Hu. simpl in Hu. lia.
Qed.

(** ** Every column of a closed outline holds two cells *)

(** Column [c] lies between [a] and [b]. *)
Definition spans (c a b : Z) : bool := (Z.min a b <=? c) && (c <=? Z.max a b).

Lemma spans_spec c a b : spans c a b = true <-> Z.min a b <= c <= Z.max a b.
Proof. unfold spans. rewrite andb_true_iff, !Z.leb_le. done. Qed.

(** The steps of a walk over the columns [l] that pass over [c]. *)
Fixpoint crossings (c : Z) (l : list Z) : nat :=
  match l with
  | a :: (b :: _) as l' => (if spans c a b then 1 else 0) + crossings c l'
  | _ => 0
  end.

Lemma crossings_app c l1 a l2 :
  crossings c (l1 ++ a :: l2) = (crossings c (l1 ++ [a]) + crossings c (a :: l2))%nat.
Proof.
  induction l1 as [|b [|d l1] IH]; [done|..].
  - cbn [app crossings]. destruct l2; lia.
  - cbn [app crossings] in *. rewrite IH. lia.
Qed.

(** A walk of at least one step between two sides of [c] passes over it. *)
Lemma crossings_once c b : forall l a, spans c a b = true -> (1 <= crossings c (a :: l ++ [b]))%nat.
Proof.
  induction l as [|d l IH]; intros a Hab.
  - cbn [app crossings]. rewrite Hab. lia.
  - cbn [app crossings]. destruct (spans c a d) eqn:Had; [lia|].
    assert (spans c d b = true) as Hdb.
    { apply not_true_iff_false in Had. rewrite spans_spec in *. lia. }
    specialize (IH d Hdb). cbn [app crossings] in IH. lia.
Qed.

(** Two positions of a closed walk on different sides split it into two walks. *)
Lemma crossings_closed c pre a mid b post h :
  spans c a b = true -> head (pre ++ a :: mid ++ b :: post) = Some h ->
  (2 <= crossings c ((pre ++ a :: mid ++ b :: post) ++ [h]))%nat.
Proof.
  intros Hab Hh. rewrite <- app_assoc. cbn [app]. rewrite crossings_app, <- app_assoc. cbn [app].
  rewrite app_comm_cons, (crossings_app c (a :: mid) b).
  pose proof (crossings_once c b mid a Hab) as H1. cbn [app] in H1 |- *.
  destruct (spans c b h) eqn:Hbh.
  - pose proof (crossings_once c h post b Hbh). lia.
  - destruct pre as [|d pre]; simpl in Hh; injection Hh as <-.
    + apply not_true_iff_false in Hbh. rewrite spans_spec in Hab, Hbh. lia.
    + assert (spans c d a = true) as Hda.
      { apply not_true_iff_false in Hbh. rewrite spans_spec in *. lia. }
      pose proof (crossings_once c a pre d Hda). cbn [app]. lia.
Qed.

Lemma crossings_two c l h u w : head l = Some h -> (2 <= length l)%nat ->
  u ∈ l -> w ∈ l -> u <= c <= w -> (2 <= crossings c (l ++ [h]))%nat.
Proof.
  intros Hh Hlen Hu Hw Hc.
  assert (exists pre a mid b post, l = pre ++ a :: mid ++ b :: post /\ spans c a b = true)
    as (pre & a & mid & b & post & -> & Hab); [|by apply crossings_closed].
  apply list_elem_of_split in Hu as (l1 & l2 & ->).
  apply elem_of_app in Hw as [Hw|Hw]; [|apply elem_of_cons in Hw as [->|Hw]].
  - apply list_elem_of_split in Hw as (l0 & l1' & ->). exists l0, w, l1', u, l2.
    split; [by rewrite <- app_assoc|]. apply spans_spec. lia.
  - assert (c = u) as -> by lia.
    destruct l2 as [|b l2]; [|exists l1, u, [], b, l2; split; [done|apply spans_spec; lia]].
    destruct (exists_last (l := l1)) as (l0 & a & ->); [intros ->; simpl in Hlen; lia|].
    exists l0, a, [], u, []. split; [by rewrite <- app_assoc|]. apply spans_spec. lia.
  - apply list_elem_of_split in Hw as (l0 & l1' & ->). exists l1, u, l0, w, l1'.
    split; [done|]. apply spans_spec. lia.
Qed.

(** An edge has a cell in every column it passes over. *)
Lemma edge_in_column c p q : spans c (loc_x p) (loc_x q) = true ->
  (1 <= in_column c (edge_cells p q))%nat.
Proof.
  rewrite spans_spec. intros Hc.
  destruct (coordinate_meets (edge_da p q) (loc_x p) (loc_x q) c) as (i & Hi & Hx);
    [unfold edge_da; lia|done|].
  assert (edge_cell p q i ∈ edge_cells p q) as Hin.
  { apply list_elem_of_fmap. exists i. split; [done|]. apply elem_of_seqZ. lia. }
  apply list_elem_of_split in Hin as (l1 & l2 & ->). rewrite in_column_app.
  unfold in_column at 2. rewrite list.filter_cons, decide_True by done. simpl. lia.
Qed.

Lemma cells_in_column c l : (crossings c (loc_x <$> l) <= in_column c (cells_of (path_edges l)))%nat.
Proof.
  induction l as [|p [|q l] IH]; [simpl; lia..|].
  rewrite path_edges_cons. change (cells_of ((p, q) :: path_edges (q :: l))) with
    (edge_cells p q ++ cells_of (path_edges (q :: l))).
  rewrite in_column_app. cbn [fmap list_fmap crossings] in *.
  destruct (spans c (loc_x p) (loc_x q)) eqn:Hs; [|lia].
  pose proof (edge_in_column c p q Hs). lia.
Qed.

Lemma path_edges_ends e l : e ∈ path_edges l -> e.1 ∈ l /\ e.2 ∈ l.
Proof.
  induction l as [|p [|q l] IH]; [by intros ?%not_elem_of_nil..|].
  rewrite path_edges_cons. intros [->|He]%elem_of_cons.
  - split; [by left|by right; left].
  - apply IH in He as [? ?]. split; by right.
Qed.

Lemma elem_of_closed (p : MapLocation) l : p ∈ l ++ take 1 l -> p ∈ l.
Proof.
  intros [?|Hp]%elem_of_app; [done|]. destruct l as [|q l]; [done|].
  change (take 1 (q :: l)) with [q] in Hp. apply list_elem_of_singleton in Hp as ->. by left.
Qed.

(** A cell of the outline belongs to an edge between two vertices. *)
Lemma outline_elem polygon c : c ∈ outline polygon ->
  exists p q, p ∈ polygon /\ q ∈ polygon /\ c ∈ edge_cells p q.
Proof.
  unfold outline, cells_of. intros ((p & q) & Hc & He)%list_elem_of_bind.
  apply path_edges_ends in He as [Hp Hq]. exists p, q. simpl in *.
  split; [by apply elem_of_closed|]. split; [by apply elem_of_closed|done].
Qed.

Lemma edge_cell_columns p q c : c ∈ edge_cells p q ->
  Z.min (loc_x p) (loc_x q) <= loc_x c <= Z.max (loc_x p) (loc_x q).
Proof.
  intros (i & -> & Hi%elem_of_seqZ)%list_elem_of_fmap.
  apply coordinate_between; unfold edge_da in *; lia.
Qed.

Lemma outline_columns polygon a b c : (2 <= length polygon)%nat ->
  a ∈ outline polygon -> b ∈ outline polygon -> loc_x a <= c <= loc_x b ->
  (2 <= in_column c (outline polygon))%nat.
Proof.
  intros Hlen Ha Hb Hc.
  assert (exists u, u ∈ loc_x <$> polygon /\ u <= c) as (u & Hu & Huc).
  { apply outline_elem in Ha as (p & q & Hp & Hq & Ha). apply edge_cell_columns in Ha.
    destruct (Z.le_gt_cases (loc_x p) (loc_x q)); [exists (loc_x p)|exists (loc_x q)];
      (split; [by apply list_elem_of_fmap_2|lia]). }
  assert (exists w, w ∈ loc_x <$> polygon /\ c <= w) as (w & Hw & Hwc).
  { apply outline_elem in Hb as (p & q & Hp & Hq & Hb). apply edge_cell_columns in Hb.
    destruct (Z.le_gt_cases (loc_x p) (loc_x q)); [exists (loc_x q)|exists (loc_x p)];
      (split; [by apply list_elem_of_fmap_2|lia]). }
  destruct polygon as [|h polygon]; [simpl in Hlen; lia|].
  etransitivity; [|apply cells_in_column]. rewrite fmap_app.
  apply (crossings_two c _ (loc_x h) u w); [done|by rewrite length_fmap|done|done|lia].
Qed.

Lemma outline_inside m polygon c : wf m -> Forall (in_map m) polygon ->
  c ∈ outline polygon -> in_map m c.
Proof.
  intros Hwf Hin Hc. apply outline_elem in Hc as (p & q & Hp & Hq & Hc).
  rewrite list.Forall_forall in Hin. by eapply (edge_cell_inside m p q); [apply Hin..|].
Qed.

(** ** The filled polygon *)

Lemma first_le l p : StronglySorted le_x l -> p ∈ l -> exists a l', l = a :: l' /\ loc_x a <= loc_x p.
Proof.
  intros Hs Hp. destruct l as [|a l]; [by apply not_elem_of_nil in Hp|]. exists a, l.
  split; [done|]. apply StronglySorted_inv in Hs as [_ Ha]. apply elem_of_cons in Hp as [->|Hp]; [done|].
  rewrite list.Forall_forall in Ha. by apply Ha.
Qed.

Lemma last_ge l z p : StronglySorted le_x (l ++ [z]) -> p ∈ l ++ [z] -> loc_x p <= loc_x z.
Proof.
  intros Hs [Hp|Hp]%elem_of_app; [|by apply list_elem_of_singleton in Hp as ->].
  induction l as [|a l IH]; [by apply not_elem_of_nil in Hp|]. cbn [app] in Hs.
  apply StronglySorted_inv in Hs as [Hs Ha]. apply elem_of_cons in Hp as [->|Hp]; [|by apply IH].
  rewrite list.Forall_forall in Ha. apply Ha, elem_of_app. right. by left.
Qed.

Lemma between_perm o o' p : Permutation o o' -> between o p <-> between o' p.
Proof. intros Hp. unfold between. by setoid_rewrite Hp. Qed.

Lemma elem_between o p : p ∈ o -> between o p.
Proof. intros. exists p, p. repeat split; done || lia. Qed.

Lemma convexFillCells_spec m polygon : wf m -> Forall (in_map m) polygon ->
  (3 <= length polygon)%nat -> Forall (fun e => full_edge e.1 e.2) (polygon_edges polygon) ->
  exists l, convexFillCells m polygon [] = Ok l /\ forall p, p ∈ l <-> between (outline polygon) p.
Proof.
  intros Hwf Hin Hlen Hfull. unfold convexFillCells.
  rewrite (proj2 (Nat.ltb_ge _ _) Hlen).
  assert (polygon <> []) as Hne by (intros ->; simpl in Hlen; lia).
  rewrite outline_spec, bind_Ok, app_nil_l by done.
  destruct polygon as [|v polygon]; [done|]. set (vs := v :: polygon) in *.
  assert (outline vs <> []) as Hne'.
  { destruct polygon as [|w polygon]; [simpl in Hlen; lia|]. unfold outline, polygon_edges, vs. cbn [app].
    rewrite path_edges_cons. change (cells_of ((v, w) :: ?l)) with (edge_cells v w ++ cells_of l).
    unfold edge_cells. rewrite seqZ_cons by (unfold edge_da; lia). done. }
  destruct (sort_spec _ Hne') as (l & -> & Hperm & Hs). rewrite bind_Ok.
  assert (l <> []) as Hnel by (intros ->; by apply Permutation_sym, Permutation_nil in Hperm).
  destruct l as [|a l']; [done|].
  destruct (exists_last Hnel) as (l0 & z & Hz). set (l := a :: l') in *.
  rewrite (proj2 (aget_ok l 0 a)), bind_Ok by done.
  rewrite (proj2 (aget_ok l (Z.of_nat (length l) - 1) z)), bind_Ok.
  2:{ assert (length l = S (length l0)) as Hll by (rewrite Hz, length_app; simpl; lia).
      split; [lia|]. rewrite Hll. replace (Z.to_nat _) with (length l0) by lia.
      rewrite Hz. by apply list_lookup_middle. }
  assert (forall p, p ∈ l -> loc_x a <= loc_x p <= loc_x z) as Hrange.
  { intros p Hp. split.
    - destruct (first_le l p Hs Hp) as (a' & l'' & Heq & ?). by injection Heq as -> _.
    - rewrite Hz in Hs, Hp. by apply (last_ge l0). }
  assert (z ∈ l) as Hzl by (rewrite Hz; apply elem_of_app; right; by left).
  pose proof (Hrange z Hzl).
  destruct (fill_loop_spec (Z.to_nat (loc_x z - loc_x a + 1)) (loc_x a) [] l [])
    as (fills & Hfill & Hf); [done| | |constructor|].
  { apply list.Forall_forall. intros p Hp. specialize (Hrange p Hp). lia. }
  { intros y Hy. rewrite <- (in_column_perm y _ _ Hperm).
    apply (outline_columns vs a z); [simpl in Hlen |- *; lia| | |lia];
      rewrite Hperm; [by left|done]. }
  rewrite app_nil_r in Hfill. cbn [app] in Hfill. change (Z.of_nat (length [])) with 0 in Hfill.
  rewrite Hfill.
  eexists. split; [done|]. intros p. rewrite elem_of_app, Hf, (between_perm _ _ p Hperm).
  split; [intros [?|?]; [by apply elem_between|done]|by right].
Qed.

Lemma between_inside m o p : Forall (in_map m) o -> between o p -> in_map m p.
Proof.
  rewrite list.Forall_forall. intros Ho (a & b & Ha & Hb & Hax & Hbx & ?).
  apply Ho in Ha as [? ?], Hb as [? ?]. split; lia.
Qed.

(** Painting a list of cells of the map. *)
Lemma paint_spec cost : in_u 8 cost -> forall l m, wf m -> Forall (in_map m) l ->
  exists m', paint l cost m = Ok m' /\
    rewritten m m' (fun x y => if bool_decide (mk_loc x y ∈ l) then Some cost else cell m x y).
Proof.
  intros Hcost l. induction l as [|[x y] l IH]; intros m Hwf Hl.
  - exists m. split; [done|]. split; [done|]. split; [done|]. split; [done|].
    intros x y _. rewrite bool_decide_eq_false_2; [done|]. apply not_elem_of_nil.
  - apply list.Forall_cons in Hl as [Hp Hl]. cbn [paint loc_x loc_y].
    destruct (setCost_spec m x y cost Hwf Hp Hcost) as (m1 & -> & Hwf1 & Hx1 & Hy1 & Hc1).
    rewrite bind_Ok.
    destruct (IH m1 Hwf1) as (m' & -> & Hwf' & Hx' & Hy' & Hc').
    { eapply list.Forall_impl; [exact Hl|]. intros q. unfold in_map, inside. by rewrite Hx1, Hy1. }
    exists m'. split; [done|]. split; [done|]. split; [congruence|]. split; [congruence|].
    intros x' y' Hin. rewrite Hc' by (unfold inside in *; by rewrite Hx1, Hy1).
    rewrite (Hc1 x' y' Hin).
    destruct (decide (x' = x /\ y' = y)) as [[-> ->]|Hne].
    + rewrite (bool_decide_eq_true_2 (mk_loc x y ∈ mk_loc x y :: l)) by by left.
      rewrite (bool_decide_eq_true_2 (x = x /\ y = y)) by done. by case_bool_decide.
    + rewrite (bool_decide_eq_false_2 (x' = x /\ y' = y)) by done.
      rewrite (bool_decide_ext (mk_loc x' y' ∈ mk_loc x y :: l) (mk_loc x' y' ∈ l)); [done|].
      rewrite elem_of_cons. split; [intros [[= -> ->]|]; [tauto|done]|by right].
Qed.

(** [between], as a test. *)
Definition betweenb (o : list MapLocation) (x y : Z) : bool :=
  existsb (fun a => (loc_x a =? x) && (loc_y a <=? y)) o &&
  existsb (fun b => (loc_x b =? x) && (y <=? loc_y b)) o.

Lemma betweenb_spec o x y : betweenb o x y = true <-> between o (mk_loc x y).
Proof.
  unfold betweenb, between. rewrite andb_true_iff, !existsb_exists. cbn [loc_x loc_y].
  setoid_rewrite andb_true_iff. setoid_rewrite Z.eqb_eq. setoid_rewrite Z.leb_le.
  setoid_rewrite <- list_elem_of_In. split.
  - intros [(a & ? & ? & ?) (b & ? & ? & ?)]. by exists a, b.
  - intros (a & b & ? & ? & ? & ? & ? & ?). split; [by exists a|by exists b].
Qed.

Lemma map_points_inside m : forall polygon acc pts, Forall (in_map m) acc ->
  map_points m polygon acc = Ok (Some pts) -> Forall (in_map m) pts.
Proof.
  induction polygon as [|[x y] polygon IH]; intros acc pts Hacc Hp; cbn [map_points] in Hp.
  - by injection Hp as <-.
  - destruct (worldToMap x y m) as [[[] [[mx my]|]]| |] eqn:Hw; try done.
    rewrite bind_Ok in Hp. eapply IH; [|exact Hp]. apply Forall_app. split; [done|].
    apply world_to_map_true in Hw as (? & ? & ? & ?). unfold in_u in *.
    apply Forall_singleton. split; simpl; lia.
Qed.

(** C2: Filling a polygon. When every point is in the map and rounding does not
    shorten the edges, the operation succeeds without leaving the map, and the cells
    it sets are exactly those lying, in their column, between two cells of the
    polygon's outline: the discrete lines between consecutive points, closed. All
    other cells keep their cost; fewer than three points set nothing. The sort and
    the loops over the columns end. *)
Theorem costmap_polygon polygon pts cost m (Hwf : wf m) (Hcost : in_u 8 cost)
  (Hpts : map_points m polygon [] = Ok (Some pts))
  (Hfull : Forall (fun e => full_edge e.1 e.2) (polygon_edges pts)) :
  exists m', setConvexPolygonCost polygon cost m = Ok (true, m') /\
    rewritten m m' (fun x y =>
      if (3 <=? length pts)%nat && betweenb (outline pts) x y then Some cost else cell m x y).
Proof.
  apply map_points_inside in Hpts as Hin; [|constructor].
  unfold setConvexPolygonCost. rewrite Hpts, bind_Ok.
  destruct (Nat.leb_spec 3 (length pts)) as [Hlen|Hlen]; cbn [andb].
  - destruct (convexFillCells_spec m pts Hwf Hin Hlen Hfull) as (l & -> & Hl). rewrite bind_Ok.
    destruct (paint_spec cost Hcost l m Hwf) as (m' & -> & Hwf' & Hx & Hy & Hc).
    { apply list.Forall_forall. intros p Hp%Hl. eapply between_inside; [|exact Hp].
      apply list.Forall_forall. intros q Hq. by eapply outline_inside. }
    rewrite bind_Ok. exists m'. split; [done|]. split; [done|]. split; [done|]. split; [done|].
    intros x y Hxy. rewrite (Hc x y Hxy). destruct (betweenb (outline pts) x y) eqn:Hb.
    + apply betweenb_spec, Hl in Hb. by rewrite bool_decide_eq_true_2.
    + rewrite bool_decide_eq_false_2; [done|]. intros Hm%Hl%betweenb_spec. congruence.
  - unfold convexFillCells. rewrite (proj2 (Nat.ltb_lt _ _) Hlen), bind_Ok. cbn [paint].
    rewrite bind_Ok. exists m. split; [done|]. split; [done|]. by repeat split.
Qed.

End Polygon.

(** ** A triangle *)

Definition demo_hypot (a b : f64) : f64 := f64_sqrt (f64_add (f64_mul a a) (f64_mul b b)).

Definition demo_field : costmap :=
  mk_costmap 8 8 f64_half f64_zero f64_zero (replicate 64 0) 0.

Definition demo_triangle : list (f64 * f64) :=
  [(f64_half, f64_half); (f64_of_Z 3, f64_half); (f64_of_Z 2, f64_of_Z 3)].

Lemma costmap_polygon_witness :
  exists m', setConvexPolygonCost demo_hypot demo_triangle 254 demo_field = Ok (true, m') /\
    cell m' 4 3 = Some 254 /\ cell m' 0 3 = Some 0.
Proof.
  assert (map_points demo_field demo_triangle [] = Ok (Some [mk_loc 1 1; mk_loc 6 1; mk_loc 4 6]))
    as Hpts by (vm_compute; reflexivity).
  assert (wf demo_field) as Hwf by (split; solve_decide).
  assert (Forall (fun e => full_edge demo_hypot e.1 e.2)
    (polygon_edges [mk_loc 1 1; mk_loc 6 1; mk_loc 4 6])) as Hfull.
  { repeat apply Forall_cons_2; try apply Forall_nil_2;
      (split; [vm_compute; reflexivity|]); (split; [vm_compute; reflexivity|]);
      (split; [vm_compute; reflexivity|]); eexists;
      (split; [vm_compute; reflexivity|]); solve_decide. }
  destruct (costmap_polygon demo_hypot demo_triangle _ 254 demo_field Hwf ltac:(solve_decide) Hpts Hfull)
    as (m' & Hm & _ & _ & _ & Hc).
  exists m'. split; [exact Hm|].
  split; [exact (Hc 4 3 ltac:(solve_decide))|exact (Hc 0 3 ltac:(solve_decide))].
Defined.

End CostmapPolygon.
