(* ===== verification/DecoratorNodes.v ===== *)
(** * Decorator nodes ([nav2_behavior_tree/plugins/decorator])

    Decorators that decide when their child is ticked: once per activation
    ([SingleTrigger]), at a rate ([RateController], [SpeedController]), per distance
    travelled ([DistanceController]), when the goal changes ([GoalUpdatedController])
    or when the path grows near the goal ([PathLongerOnApproach]). Ports, clock,
    localization, odometry, the comparison of messages and [std::hypot] are
    parameters. *)

From stdpp Require Import base option list numbers relations.
From Stdlib Require Import ZArith Lia SpecFloat.
From S2P Require Import Prelude Float64 BehaviorTree.

Import BT.

(** Between two ticks the rest of the tree may do anything. A tick from the members
    [m] to [m'] is quiet when the node is active and the child is not ticked. *)
Definition quiet {L E} `{Engine E} (tick : ST (node L (logged E)) NodeStatus) (m m' : L) : Prop :=
  exists e e' r, engine_active (engine_status e) = true /\
    tick (mk_node m (mk_logged e [])) = (r, mk_node m' (mk_logged e' [])).

Module SingleTrigger.
Section Node.
Context {E : Type} `{Engine E}.
Abbreviation M := (ST (node bool E)).

(** The only member is [first_time_]. *)
Definition new (e : E) : node bool E := mk_node true e.

Definition tick : M NodeStatus :=
  active ← is_active;
  (if (active : bool) then mret () else update (fun _ => true));;
  setStatus RUNNING;;
  first_time ← members;
  if (first_time : bool) then
    child_state ← executeTick 0;
    match child_state with
    | SKIPPED | RUNNING => mret child_state
    | FAILURE | SUCCESS => update (fun _ => false);; mret child_state
    | IDLE => update (fun _ => false);; mret FAILURE
    end
  else mret FAILURE.
End Node.

Section Laws.
Context {E : Type} `{EngineLaws E}.

(** The child of a single trigger is ticked until it completes, and not again
    while the node stays active. On the first ticks of an activation the node
    returns the child's answer, and remembers whether it was final; after a final
    answer, any number of ticks returns FAILURE and leaves the child alone. *)
Theorem single_trigger first_time e st e1
  (Hfirst : first_time = true \/ engine_active (engine_status e) = false)
  (Hchild : engine_tick 0 (engine_set_status RUNNING e) = (Returned st, e1)) :
  tick (mk_node first_time (mk_logged e [])) =
    (Ok (if bool_decide (st = IDLE) then FAILURE else st),
     mk_node (bool_decide (st = RUNNING \/ st = SKIPPED)) (mk_logged e1 [Ticked 0 st])) /\
  forall m e', rtc (quiet tick) false m -> engine_active (engine_status e') = true ->
    tick (mk_node m (mk_logged e' [])) =
      (Ok FAILURE, mk_node false (mk_logged (engine_set_status RUNNING e') [])).
Proof.
  assert (forall e', engine_active (engine_status e') = true ->
    tick (mk_node false (mk_logged e' [])) =
      (Ok FAILURE, mk_node false (mk_logged (engine_set_status RUNNING e') []))) as Hoff.
  { intros e' Ha. unfold tick. step_node. rewrite Ha. by step_node. }
  split.
  - unfold tick. step_node. destruct (engine_active (engine_status e)) eqn:Ha.
    + destruct Hfirst as [->|]; [|done]. step_node. rewrite Hchild. cbn [fst snd of_outcome ticked].
      by destruct st.
    + step_node. rewrite Hchild. cbn [fst snd of_outcome ticked]. by destruct st.
  - intros m e' Hq Ha. assert (m = false) as ->; [|by apply Hoff].
    remember false as b eqn:Hb. induction Hq as [m|m1 m2 m3 (e0 & e2 & r & Ha0 & Ht) _ IH]; [done|].
    subst m1. rewrite Hoff in Ht by done. injection Ht as _ <- _. by apply IH.
Qed.
End Laws.

Lemma single_trigger_witness :
  (tick (new (scripted [[SUCCESS]]))).1 = Ok SUCCESS /\
  tick (mk_node false (mk_logged (mk_script (fun _ => []) RUNNING) [])) =
    (Ok FAILURE, mk_node false (mk_logged (mk_script (fun _ => []) RUNNING) [])).
Proof.
  set (s0 := mk_script (fun i => nth i [[SUCCESS]] []) IDLE).
  assert (engine_tick 0 (engine_set_status RUNNING s0) =
    (Returned SUCCESS, (engine_tick 0 (engine_set_status RUNNING s0)).2)) as Hc
    by (vm_compute; reflexivity).
  destruct (single_trigger true s0 SUCCESS _ (or_introl eq_refl) Hc) as [Ht Hq].
  split; [exact (f_equal fst Ht)|].
  exact (Hq false (mk_script (fun _ => []) RUNNING) (rtc_refl _ _) eq_refl).
Defined.
End SingleTrigger.

Module RateController.
Record members : Type := mk_members { start : Z; period : f64; first_time : bool }.

Definition set_start (t : Z) (m : members) : members := mk_members t (period m) (first_time m).
Definition set_period (p : f64) (m : members) : members := mk_members (start m) p (first_time m).
Definition set_first (b : bool) (m : members) : members := mk_members (start m) (period m) b.

(** A difference of [steady] time points in nanoseconds, as [float] seconds. *)
Definition float_seconds (elapsed : Z) : f64 :=
  f64_of_f32 (f32_div (f32_of_Z elapsed) (f32_of_Z 1000000000)).

Section Node.
Context {E : Type} `{Engine E} `{Clock E}.
Abbreviation M := (ST (node members E)).

(** [hz] is what the port holds, if it can be read. *)
Definition initialize (hz : option f64) : M () :=
  update (set_period (f64_div (f64_of_Z 1) (default (f64_of_Z 1) hz))).

(** From reading the clock on. *)
Definition gate : M NodeStatus :=
  t ← now;
  m ← BT.members;
  elapsed ← (fun s => (chk 64 (t - start m), s));
  child ← child_status 0;
  if first_time m || bool_decide (child = RUNNING) || f64_le (period m) (float_seconds elapsed) then
    update (set_first false);;
    child_state ← executeTick 0;
    match child_state with
    | SKIPPED | RUNNING | FAILURE => mret child_state
    | SUCCESS => t ← now; update (set_start t);; mret SUCCESS
    | IDLE => mret FAILURE
    end
  else status.

Definition tick (hz : option f64) : M NodeStatus :=
  active ← is_active;
  (if (active : bool) then mret ()
   else initialize hz;; t ← now; update (fun m => set_first true (set_start t m)));;
  setStatus RUNNING;;
  gate.
End Node.

Section Laws.
Context {E : Type} `{Engine E} `{!EngineLaws E} `{Clock E} `{!ClockLaws E}.

(** The time a tick sees, and whether it is due. *)
Definition tick_time (e : E) : Z := (clock_now (engine_set_status RUNNING e)).1.

Definition due (m : members) (e : E) : bool :=
  first_time m || bool_decide (engine_child_status 0 e = RUNNING) ||
  f64_le (period m) (float_seconds (tick_time e - start m)).

Lemma tick_due hz m e r m' e' calls : engine_active (engine_status e) = true ->
  tick hz (mk_node m (mk_logged e [])) = (r, mk_node m' (mk_logged e' calls)) ->
  (calls = [] /\ m' = m) \/ (calls <> [] /\ due m e = true).
Proof.
  intros Ha Ht. unfold tick in Ht. revert Ht. step_node. rewrite Ha. step_node. unfold gate. step_node.
  rewrite clock_child, child_status_set. fold (tick_time e).
  destruct (chk 64 (tick_time e - start m)) as [el| |] eqn:Hel;
    [|by intros [= _ <- _ <-]; left..].
  apply chk_ok in Hel as [_ ->]. fold (due m e).
  destruct (due m e); step_node; intros Ht; [right; split; [|done]|injection Ht as _ <- _ <-; by left].
  revert Ht. set (e2 := (clock_now (engine_set_status RUNNING e)).2).
  destruct (engine_tick 0 e2) as [[[]|x] e3]; cbn [fst snd of_outcome ticked]; step_node;
    by intros [= _ _ _ <-].
Qed.

(** A tick that succeeds: the child was ticked and succeeded, and the timer restarts
    at the time read right after. *)
Lemma tick_success hz m e m' e' calls :
  tick hz (mk_node m (mk_logged e [])) = (Ok SUCCESS, mk_node m' (mk_logged e' calls)) ->
  calls = [Ticked 0 SUCCESS] /\ first_time m' = false /\
  exists e1 e2, engine_tick 0 e1 = (Returned SUCCESS, e2) /\ start m' = (clock_now e2).1.
Proof.
  assert (forall m0 e0,
    gate (mk_node m0 (mk_logged (engine_set_status RUNNING e0) [])) =
      (Ok SUCCESS, mk_node m' (mk_logged e' calls)) ->
    calls = [Ticked 0 SUCCESS] /\ first_time m' = false /\
    exists e1 e2, engine_tick 0 e1 = (Returned SUCCESS, e2) /\ start m' = (clock_now e2).1) as Hbody.
  { intros m0 e0. unfold gate. step_node. destruct (chk 64 _) as [el| |]; [|done..].
    destruct (_ || _ || _); step_node; [|rewrite clock_status, status_set; by intros [= ?]].
    set (e1 := (clock_now (engine_set_status RUNNING e0)).2).
    destruct (engine_tick 0 e1) as [[st|x] e2] eqn:Hc; cbn [fst snd of_outcome ticked]; [|done].
    destruct st; step_node; try done. intros [= <- _ <-]. split; [done|]. split; [done|]. by exists e1, e2. }
  unfold tick, initialize. step_node. destruct (engine_active (engine_status e)); step_node; apply Hbody.
Qed.

(** A rate controller keeps its rate. Once its child has succeeded, the timer
    restarts; as long as the node stays active, ticks that do not reach the child
    change nothing, and the next tick that does reach it either finds it running
    already or comes at least a period later. *)
Theorem rate_spacing hz m0 e0 m1 e1 calls1 m e r m' e' calls
  (Hfirst : tick hz (mk_node m0 (mk_logged e0 [])) = (Ok SUCCESS, mk_node m1 (mk_logged e1 calls1)))
  (Hquiet : rtc (quiet (tick hz)) m1 m)
  (Hactive : engine_active (engine_status e) = true)
  (Hnext : tick hz (mk_node m (mk_logged e [])) = (r, mk_node m' (mk_logged e' calls)))
  (Hcalls : calls <> []) :
  (exists ea eb, engine_tick 0 ea = (Returned SUCCESS, eb) /\ start m1 = (clock_now eb).1) /\
  (engine_child_status 0 e = RUNNING \/
   f64_le (period m1) (float_seconds (tick_time e - start m1)) = true).
Proof.
  destruct (tick_success _ _ _ _ _ _ Hfirst) as (_ & Hf & Hstart). split; [exact Hstart|].
  assert (m = m1) as ->.
  { clear Hfirst Hstart Hf Hnext. induction Hquiet as [|m2 m3 m4 (ea & eb & r' & Ha & Ht) _ IH]; [done|].
    apply tick_due in Ht as [[_ ->]|[Hne _]]; [done|by destruct (Hne eq_refl)|done]. }
  apply tick_due in Hnext as [[? _]|[_ Hdue]]; [done| |done].
  unfold due in Hdue. rewrite Hf in Hdue. cbn [orb] in Hdue.
  apply orb_true_iff in Hdue as [Hr|Hp]; [left; by apply bool_decide_eq_true in Hr|by right].
Qed.
End Laws.

(** A clock that advances by 0.6 s at every reading, a child that always succeeds. *)
Record demo : Type := mk_demo { time : Z; own_status : NodeStatus }.

#[local] Instance demo_engine : Engine demo := {|
  engine_tick _ e := (Returned SUCCESS, e);
  engine_halt_child _ e := e;
  engine_halt_children e := e;
  engine_halt_node e := e;
  engine_child_status _ _ := IDLE;
  engine_status e := own_status e;
  engine_set_status st e := mk_demo (time e) st;
  engine_active st := negb (bool_decide (st = IDLE) || bool_decide (st = SKIPPED)) |}.

#[local] Instance demo_clock : Clock demo := fun e => (time e, mk_demo (time e + 600000000) (own_status e)).

#[local] Instance demo_laws : EngineLaws demo.
Proof. by split. Qed.

#[local] Instance demo_clock_laws : ClockLaws demo.
Proof. by split. Qed.

Definition demo_tick (m : members) (time : Z) (st : NodeStatus) : res NodeStatus * node members (logged demo) :=
  tick (Some (f64_of_Z 1)) (mk_node m (mk_logged (mk_demo time st) [])).

(** At 1 Hz, the child succeeds at 1.2 s; at 1.8 s it is too early, at 2.4 s due. *)
Lemma rate_spacing_witness :
  f64_le (f64_of_Z 1) (float_seconds (2400000000 - 1200000000)) = true.
Proof.
  set (m0 := mk_members 0 f64_zero false).
  set (m1 := mk_members 1200000000 (f64_of_Z 1) false).
  assert (demo_tick m0 0 IDLE = (Ok SUCCESS, mk_node m1 (mk_logged (mk_demo 1800000000 RUNNING)
    [Ticked 0 SUCCESS]))) as Hfirst by (vm_compute; reflexivity).
  assert (demo_tick m1 1800000000 RUNNING =
    (Ok RUNNING, mk_node m1 (mk_logged (mk_demo 2400000000 RUNNING) []))) as Hearly
    by (vm_compute; reflexivity).
  assert (demo_tick m1 2400000000 RUNNING =
    (Ok SUCCESS, mk_node (mk_members 3000000000 (f64_of_Z 1) false)
       (mk_logged (mk_demo 3600000000 RUNNING) [Ticked 0 SUCCESS]))) as Hdue
    by (vm_compute; reflexivity).
  assert (rtc (quiet (tick (Some (f64_of_Z 1)))) m1 m1) as Hquiet.
  { apply rtc_once. exists (mk_demo 1800000000 RUNNING), (mk_demo 2400000000 RUNNING), (Ok RUNNING).
    split; [reflexivity|exact Hearly]. }
  assert (engine_active (engine_status (mk_demo 2400000000 RUNNING)) = true) as Ha by reflexivity.
  destruct (rate_spacing (Some (f64_of_Z 1)) m0 (mk_demo 0 IDLE) m1 (mk_demo 1800000000 RUNNING)
    [Ticked 0 SUCCESS] m1 (mk_demo 2400000000 RUNNING) (Ok SUCCESS) (mk_members 3000000000 (f64_of_Z 1) false)
    (mk_demo 3600000000 RUNNING) [Ticked 0 SUCCESS] Hfirst Hquiet Ha Hdue ltac:(discriminate))
    as [_ [Hrun|Hp]]; [discriminate|exact Hp].
Defined.
End RateController.

Module GoalUpdatedController.
Section Node.
Context {E Goal Goals : Type} `{Engine E}.
(** The ports, or the blackboard, and the messages' [operator!=]. *)
Context (input_goal : E -> option Goal) (input_goals : E -> option Goals).
Context (goal_neq : Goal -> Goal -> bool) (goals_neq : Goals -> Goals -> bool).
Context (goal0 : Goal) (goals0 : Goals).

Record members : Type := mk_members { goal_was_updated : bool; goal : Goal; goals : Goals }.
Abbreviation M := (ST (node members E)).

Definition tick : M NodeStatus :=
  active ← is_active;
  s ← get;
  (if (active : bool) then mret ()
   else update (fun m => mk_members true (default (goal m) (input_goal (tree s)))
                           (default (goals m) (input_goals (tree s)))));;
  setStatus RUNNING;;
  s ← get;
  let current_goals := default goals0 (input_goals (tree s)) in
  let current_goal := default goal0 (input_goal (tree s)) in
  (if goal_neq (goal (local s)) current_goal || goals_neq (goals (local s)) current_goals
   then update (fun _ => mk_members true current_goal current_goals) else mret ());;
  child ← child_status 0;
  m ← BT.members;
  if bool_decide (child = RUNNING) || goal_was_updated m then
    update (fun m => mk_members false (goal m) (goals m));; executeTick 0
  else status.
End Node.

Section Laws.
Context {E Goal Goals : Type} `{Engine E} `{!EngineLaws E}.
Context (input_goal : E -> option Goal) (input_goals : E -> option Goals).
Context (goal_neq : Goal -> Goal -> bool) (goals_neq : Goals -> Goals -> bool).
Context (goal0 : Goal) (goals0 : Goals).

Abbreviation logged_tick := (tick (E := logged E) (fun l => input_goal (engine l))
  (fun l => input_goals (engine l)) goal_neq goals_neq goal0 goals0).

(** After any tick the update has been used up. *)
Lemma tick_uses_update m e r m' e' calls :
  logged_tick (mk_node m (mk_logged e [])) = (r, mk_node m' (mk_logged e' calls)) ->
  goal_was_updated m' = false.
Proof.
  unfold tick. step_node. destruct (engine_active (engine_status e)); step_node.
  all: set (e1 := engine_set_status RUNNING e); destruct (_ || _); step_node.
  all: try (destruct (bool_decide _ || goal_was_updated m) eqn:Hd; step_node).
  all: rewrite ?orb_true_r; cbn [goal_was_updated]; rewrite ?orb_true_r; step_node.
  all: try (destruct (engine_tick 0 e1) as [[]]; cbn [fst snd of_outcome]; by intros [= _ <- _ _]).
  apply orb_false_iff in Hd as [_ Hd]. by intros [= _ <- _ _].
Qed.

(** A goal updated controller ticks its child once per goal. After a tick, as
    long as the node stays active and the child is not running, the next tick ticks
    the child exactly when the goal or the goals differ from those last seen, and
    then remembers the new ones; otherwise it returns RUNNING and changes nothing. *)
Theorem goal_updated m e r m' e' calls e2
  (Ht : tick (E := logged E) (fun l => input_goal (engine l)) (fun l => input_goals (engine l))
    goal_neq goals_neq goal0 goals0 (mk_node m (mk_logged e [])) = (r, mk_node m' (mk_logged e' calls)))
  (Ha : engine_active (engine_status e2) = true) (Hidle : engine_child_status 0 e2 <> RUNNING) :
  let e3 := engine_set_status RUNNING e2 in
  let current := default goal0 (input_goal e3) in
  let currents := default goals0 (input_goals e3) in
  exists r2 m2 e4 calls2,
    tick (E := logged E) (fun l => input_goal (engine l)) (fun l => input_goals (engine l))
      goal_neq goals_neq goal0 goals0 (mk_node m' (mk_logged e2 [])) = (r2, mk_node m2 (mk_logged e4 calls2)) /\
    if goal_neq (goal m') current || goals_neq (goals m') currents
    then calls2 = [ticked 0 (engine_tick 0 e3).1] /\ m2 = mk_members false current currents
    else r2 = Ok RUNNING /\ m2 = m' /\ calls2 = [].
Proof.
  intros e3 current currents. apply tick_uses_update in Ht.
  unfold tick. step_node. rewrite Ha. step_node. fold e3. fold current. fold currents.
  destruct (_ || _); step_node.
  - rewrite orb_true_r. step_node. do 4 eexists. by split.
  - assert (engine_child_status 0 e3 = engine_child_status 0 e2) as Hcs by apply child_status_set.
    rewrite Hcs, bool_decide_eq_false_2, Ht by done. step_node.
    do 4 eexists. split; [reflexivity|]. split; [|done]. simpl. unfold e3. by rewrite status_set.
Qed.
End Laws.

(** Two goals; the blackboard always holds the second one. *)
Lemma goal_updated_witness :
  exists r2 m2 e4 calls2,
    tick (E := logged script) (fun _ => Some 2) (fun _ => Some 7) (fun a b => negb (a =? b))
      (fun a b => negb (a =? b)) 0 0
      (mk_node (mk_members false 2 7) (mk_logged (mk_script (fun _ => []) RUNNING) [])) =
      (r2, mk_node m2 (mk_logged e4 calls2)) /\
    r2 = Ok RUNNING /\ m2 = mk_members false 2 7 /\ calls2 = [].
Proof.
  assert (tick (E := logged script) (fun _ => Some 2) (fun _ => Some 7) (fun a b => negb (a =? b))
    (fun a b => negb (a =? b)) 0 0
    (mk_node (mk_members false 1 7) (mk_logged (mk_script (fun _ => []) RUNNING) [])) =
    (Ok FAILURE, mk_node (mk_members false 2 7)
       (mk_logged (mk_script (fun _ => []) RUNNING) [Ticked 0 FAILURE]))) as Ht
    by (vm_compute; reflexivity).
  exact (goal_updated (E := script) (fun _ => Some 2) (fun _ => Some 7) (fun a b => negb (a =? b))
    (fun a b => negb (a =? b)) 0 0 _ _ _ _ _ _ (mk_script (fun _ => []) RUNNING) Ht eq_refl
    ltac:(discriminate)).
Defined.
End GoalUpdatedController.

Module DistanceController.
Section Node.
Context {E Pose : Type} `{Engine E}.
(** [getCurrentPose], and the position of a pose in the plane. *)
Context (current_pose : E -> option Pose * E) (px py : Pose -> f64).
Context (hypot : f64 -> f64 -> f64).

Record members : Type := mk_members { start_pose : Pose; distance : f64; first_time : bool }.
Abbreviation M := (ST (node members E)).

Definition getCurrentPose : M (option Pose) := fun s =>
  let '(p, e) := current_pose (tree s) in (Ok p, mk_node (local s) e).

Definition set_pose (p : Pose) (m : members) : members := mk_members p (distance m) (first_time m).
Definition set_first (b : bool) (m : members) : members := mk_members (start_pose m) (distance m) b.

Definition euclidean_distance (p q : Pose) : f64 :=
  hypot (f64_sub (px p) (px q)) (f64_sub (py p) (py q)).

Definition body : M NodeStatus :=
  setStatus RUNNING;;
  current ← getCurrentPose;
  match current with
  | None => mret FAILURE
  | Some current =>
      m ← BT.members;
      child ← child_status 0;
      let travelled := euclidean_distance (start_pose m) current in
      if first_time m || bool_decide (child = RUNNING) || f64_le (distance m) travelled then
        update (set_first false);;
        child_state ← executeTick 0;
        match child_state with
        | SKIPPED | RUNNING => mret child_state
        | SUCCESS =>
            p ← getCurrentPose;
            match p with
            | None => mret FAILURE
            | Some p => update (set_pose p);; mret SUCCESS
            end
        | FAILURE | IDLE => mret FAILURE
        end
      else status
  end.

Definition tick : M NodeStatus :=
  active ← is_active;
  if (active : bool) then body
  else
    p ← getCurrentPose;
    match p with
    | None => mret FAILURE
    | Some p => update (fun m => set_first true (set_pose p m));; body
    end.
End Node.
End DistanceController.

Module PathLongerOnApproach.
Section Node.
Context {E Pose : Type} `{Engine E}.
(** Coordinates of a pose, [operator!=] on poses and [operator==] on positions. *)
Context (px py : Pose -> f64) (pose_neq position_eq : Pose -> Pose -> bool).
Context (hypot : f64 -> f64 -> f64).
Context (reset_child : E -> E).

Record members : Type := mk_members {
  new_path : list Pose; old_path : list Pose; prox_len : f64; length_factor : f64;
  first_time : bool }.
Abbreviation M := (ST (node members E)).

Definition set_old (p : list Pose) (m : members) : members :=
  mk_members (new_path m) p (prox_len m) (length_factor m) (first_time m).
Definition set_first (b : bool) (m : members) : members :=
  mk_members (new_path m) (old_path m) (prox_len m) (length_factor m) b.

Definition segment (p q : Pose) : f64 := hypot (f64_sub (px p) (px q)) (f64_sub (py p) (py q)).

(** The loop of [calculate_path_length], from a pose on. *)
Fixpoint length_loop (path_length : f64) (p : Pose) (rest : list Pose) : f64 :=
  match rest with
  | [] => path_length
  | q :: rest => length_loop (f64_add path_length (segment p q)) q rest
  end.

(** [calculate_path_length(path, 0)]. *)
Definition path_length (path : list Pose) : f64 :=
  match path with p :: rest => length_loop f64_zero p rest | [] => f64_zero end.

Definition isPathUpdated (new_path old_path : list Pose) : bool :=
  match list.last old_path, list.last new_path with
  | Some o, Some n => negb (length new_path =? length old_path)%nat && position_eq o n
  | _, _ => false
  end.

Definition isRobotInGoalProximity (old_path : list Pose) (prox_leng : f64) : bool :=
  f64_lt (path_length old_path) prox_leng.

Definition isNewPathLonger (new_path old_path : list Pose) (length_factor : f64) : bool :=
  f64_lt (f64_mul length_factor (path_length old_path)) (path_length new_path).

(** The paths end differently, or one of them is empty. *)
Definition goal_changed (new_path old_path : list Pose) : bool :=
  match list.last old_path, list.last new_path with
  | Some o, Some n => pose_neq o n
  | _, _ => true
  end.

(** The three ports, if they can be read. *)
Definition tick (path : option (list Pose)) (prox factor : option f64) : M NodeStatus :=
  update (fun m => mk_members (default (new_path m) path) (old_path m) (default (prox_len m) prox)
                     (default (length_factor m) factor) (first_time m));;
  update (fun m => if negb (first_time m) && goal_changed (new_path m) (old_path m)
                   then set_first true m else m);;
  setStatus RUNNING;;
  m ← BT.members;
  if isPathUpdated (new_path m) (old_path m) && isRobotInGoalProximity (old_path m) (prox_len m) &&
     isNewPathLonger (new_path m) (old_path m) (length_factor m) && negb (first_time m)
  then
    child_state ← executeTick 0;
    match child_state with
    | SKIPPED | RUNNING => mret child_state
    | SUCCESS | FAILURE =>
        update (fun m => set_old (new_path m) m);; call reset_child;; mret child_state
    | IDLE => update (fun m => set_old (new_path m) m);; mret FAILURE
    end
  else
    update (fun m => set_first false (set_old (new_path m) m));; mret SUCCESS.
End Node.

Section Laws.
Context {E Pose : Type} `{Engine E}.
Context (px py : Pose -> f64) (pose_neq position_eq : Pose -> Pose -> bool).
Context (hypot : f64 -> f64 -> f64) (reset_child : E -> E).

Abbreviation logged_tick := (tick (E := logged E) px py pose_neq position_eq hypot
  (on_engine reset_child None)).

(** The paths lead to the same goal, the old one is short, and the new one longer by
    the factor. *)
Definition detour (new_path old_path : list Pose) (prox factor : f64) : bool :=
  isPathUpdated position_eq new_path old_path &&
  isRobotInGoalProximity px py hypot old_path prox &&
  isNewPathLonger px py hypot new_path old_path factor.

(** Near the goal, only a longer detour ticks the child. The child is ticked
    exactly when the last two paths end at the same pose, this is not the first path
    to it, and the new path is a detour from a short rest of the old one; the node
    then gives the child's answer. Otherwise it returns SUCCESS at once. The new
    path replaces the old one, except while the child is running or skipped. *)
Theorem path_longer m e path prox_port factor_port :
  let new := default (new_path m) path in
  let old := old_path m in
  let due := negb (first_time m) && negb (goal_changed pose_neq new old) &&
             detour new old (default (prox_len m) prox_port) (default (length_factor m) factor_port) in
  let st := (engine_tick 0 (engine_set_status RUNNING e)).1 in
  exists r m' e' calls,
    logged_tick path prox_port factor_port (mk_node m (mk_logged e [])) =
      (r, mk_node m' (mk_logged e' calls)) /\
    if due then
      calls = [ticked 0 st] /\ first_time m' = false /\
      r = match st with Returned IDLE => Ok FAILURE | _ => of_outcome st end /\
      old_path m' = match st with
                    | Returned RUNNING | Returned SKIPPED | Raised _ => old
                    | _ => new
                    end
    else calls = [] /\ r = Ok SUCCESS /\ old_path m' = new /\ first_time m' = false.
Proof.
  intros new old due st. unfold tick. step_node.
  set (m1 := if negb _ && _ then _ else _).
  assert (exists b, m1 = mk_members new old (default (prox_len m) prox_port)
    (default (length_factor m) factor_port) b /\
    negb b = negb (first_time m) && negb (goal_changed pose_neq new old)) as (b & Hm1 & Hb).
  { unfold m1, set_first. simpl. fold new old.
    destruct (first_time m) eqn:Hf, (goal_changed pose_neq new old); simpl; rewrite ?Hf;
      by eexists. }
  rewrite Hm1. cbn [new_path old_path prox_len length_factor first_time].
  assert (isPathUpdated position_eq new old &&
    isRobotInGoalProximity px py hypot old (default (prox_len m) prox_port) &&
    isNewPathLonger px py hypot new old (default (length_factor m) factor_port) && negb b = due) as ->
    by (unfold due; rewrite <- Hb; unfold detour; by destruct (negb b); rewrite ?andb_true_r, ?andb_false_r).
  destruct due eqn:Hdue; step_node; [|by do 4 eexists].
  assert (b = false) as -> by (unfold due in Hdue; rewrite <- Hb in Hdue; by destruct b).
  fold st. destruct st as [[]|x]; cbn [of_outcome ticked app]; step_node; by do 4 eexists.
Qed.
End Laws.
End PathLongerOnApproach.

Module SpeedController.

(** [std::max(std::min(scaled, max_rate), min_rate)]. *)
Definition getScaledRate (min_rate max_rate d_rate min_speed d_speed speed : f64) : f64 :=
  f64_max
    (f64_min (f64_add (f64_mul (f64_div (f64_sub speed min_speed) d_speed) d_rate) min_rate) max_rate)
    min_rate.

Section Node.
Context {E Goal Goals : Type} `{Engine E} `{Clock E}.
Context (input_goal : E -> option Goal) (input_goals : E -> option Goals).
Context (goal_neq : Goal -> Goal -> bool) (goals_neq : Goals -> Goals -> bool).
Context (goal0 : Goal) (goals0 : Goals).
(** The smoothed speed, and the seconds of a duration. *)
Context (current_speed : E -> f64) (seconds : Z -> f64).

Record members : Type := mk_members {
  start : Z; first_tick : bool; period : f64;
  min_rate : f64; max_rate : f64; d_rate : f64;
  min_speed : f64; max_speed : f64; d_speed : f64;
  goal : Goal; goals : Goals }.
Abbreviation M := (ST (node members E)).

Definition set_timer (t : Z) (first : bool) (p : f64) (g : Goal) (gs : Goals) (m : members) : members :=
  mk_members t first p (min_rate m) (max_rate m) (d_rate m) (min_speed m) (max_speed m) (d_speed m) g gs.

(** The constructor: the rates must be positive. *)
Definition new (min_r max_r min_s max_s : option f64) (g : Goal) (gs : Goals) : res members :=
  let min_rate := default (f64_div (f64_of_Z 1) (f64_of_Z 10)) min_r in
  let max_rate := default (f64_of_Z 1) max_r in
  let min_speed := default f64_zero min_s in
  let max_speed := default (f64_div (f64_of_Z 1) (f64_of_Z 2)) max_s in
  if f64_le min_rate f64_zero || f64_le max_rate f64_zero then Throw behavior_tree_exception
  else Ok (mk_members 0 false (f64_of_Z 1) min_rate max_rate (f64_sub max_rate min_rate)
             min_speed max_speed (f64_sub max_speed min_speed) g gs).

Definition updatePeriod : M () :=
  s ← get;
  update (fun m => set_timer (start m) (first_tick m)
    (f64_div (f64_of_Z 1) (getScaledRate (min_rate m) (max_rate m) (d_rate m) (min_speed m) (d_speed m)
       (current_speed (tree s)))) (goal m) (goals m) m).

(** A new goal restarts the timer at the maximal rate. *)
Definition restart (g : Goal) (gs : Goals) : M () :=
  t ← now;
  update (fun m => set_timer t true (f64_div (f64_of_Z 1) (max_rate m)) g gs m).

Definition tick : M NodeStatus :=
  active ← is_active;
  s ← get;
  (if (active : bool) then mret ()
   else restart (default (goal (local s)) (input_goal (tree s)))
          (default (goals (local s)) (input_goals (tree s))));;
  s ← get;
  let current_goals := default goals0 (input_goals (tree s)) in
  let current_goal := default goal0 (input_goal (tree s)) in
  (if goal_neq (goal (local s)) current_goal || goals_neq (goals (local s)) current_goals
   then restart current_goal current_goals else mret ());;
  setStatus RUNNING;;
  t ← now;
  m ← BT.members;
  let elapsed := seconds (t - start m) in
  child ← child_status 0;
  if first_tick m || bool_decide (child = RUNNING) || f64_le (period m) elapsed then
    update (fun m => set_timer (start m) false (period m) (goal m) (goals m) m);;
    (if f64_le (period m) elapsed then
       updatePeriod;;
       t ← now;
       update (fun m => set_timer t (first_tick m) (period m) (goal m) (goals m) m)
     else mret ());;
    executeTick 0
  else status.
End Node.

Lemma clamp_between lo hi x : f64_le lo hi = true -> is_nan lo = false -> is_nan hi = false ->
  is_nan x = false ->
  f64_le lo (f64_max (f64_min x hi) lo) = true /\ f64_le (f64_max (f64_min x hi) lo) hi = true.
Proof.
  intros Hlh Hlo Hhi Hx. unfold f64_max, f64_min.
  destruct (f64_lt hi x) eqn:H1.
  - destruct (f64_lt hi lo) eqn:H2; split; auto using f64_le_refl, f64_not_lt.
  - destruct (f64_lt x lo) eqn:H2; split; auto using f64_le_refl, f64_not_lt.
Qed.

Lemma clamp_nan lo hi : f64_max (f64_min S754_nan hi) lo = S754_nan.
Proof. by destruct hi as [[]|[]| |[]], lo as [[]|[]| |[]]. Qed.

(** The rate stays within its limits. Whatever the speed, the scaled rate lies
    between the minimal and the maximal rate, unless the scaling itself gives a NaN;
    then the rate and the period are NaN, and no elapsed time ever reaches the
    period. *)
Theorem speed_rate min_rate max_rate d_rate min_speed d_speed speed
  (Hle : f64_le min_rate max_rate = true)
  (Hmin : is_nan min_rate = false) (Hmax : is_nan max_rate = false) :
  let scaled := f64_add (f64_mul (f64_div (f64_sub speed min_speed) d_speed) d_rate) min_rate in
  let rate := getScaledRate min_rate max_rate d_rate min_speed d_speed speed in
  if is_nan scaled
  then is_nan rate = true /\ forall elapsed, f64_le (f64_div (f64_of_Z 1) rate) elapsed = false
  else f64_le min_rate rate = true /\ f64_le rate max_rate = true.
Proof.
  intros scaled rate. unfold rate, getScaledRate. fold scaled.
  destruct (is_nan scaled) eqn:Hn; [|by apply clamp_between].
  destruct scaled; try done. by rewrite clamp_nan.
Qed.

(** With equal speed limits, a robot at that speed gives a NaN. *)
Example speed_limits_equal :
  getScaledRate (f64_of_Z 1) (f64_of_Z 2) (f64_of_Z 1) f64_zero f64_zero f64_zero = S754_nan.
Proof. by vm_compute. Qed.

Lemma speed_rate_witness :
  f64_le (getScaledRate (f64_of_Z 1) (f64_of_Z 2) (f64_of_Z 1) f64_zero (f64_of_Z 3) (f64_of_Z 7))
    (f64_of_Z 2) = true.
Proof.
  exact (proj2 (speed_rate (f64_of_Z 1) (f64_of_Z 2) (f64_of_Z 1) f64_zero (f64_of_Z 3) (f64_of_Z 7)
    eq_refl eq_refl eq_refl)).
Defined.
End SpeedController.
