(* ===== verification/CostmapLayer.v ===== *)
(** * Layers that own a costmap ([nav2_costmap_2d/costmap_layer.hpp],
    [costmap_layer.cpp])

    Such a layer keeps a map of its own and merges a window of it into the master
    grid, by one of five rules. The master grid is another map than the layer's own:
    the code never passes a layer its own map. The mutex and the log are not
    modelled. *)

From stdpp Require Import base option list numbers.
From Stdlib Require Import ZArith Lia SpecFloat.
From S2P Require Import Prelude Float64 Costmap.

Module CostmapLayer.
Import Costmap.

Definition INSCRIBED_INFLATED_OBSTACLE : Z := 253.

Inductive CombinationMethod : Type := Overwrite | Max | MaxWithoutUnknownOverwrite.

Definition combination_method_from_int (value : Z) : CombinationMethod :=
  if value =? 0 then Overwrite
  else if value =? 1 then Max
  else if value =? 2 then MaxWithoutUnknownOverwrite
  else Max.

(** A rectangle of the world, as the layers pass it through four pointers. *)
Record bounds : Type := mk_bounds { min_x : f64; min_y : f64; max_x : f64; max_y : f64 }.

(** [own] is the [Costmap2D] the layer inherits from. *)
Record layer : Type := mk_layer {
  own : costmap;
  current : bool;
  enabled : bool;
  has_extra_bounds : bool;
  extra : bounds }.

Definition set_own (m : costmap) (l : layer) : layer :=
  mk_layer m (current l) (enabled l) (has_extra_bounds l) (extra l).
Definition set_current (b : bool) (l : layer) : layer :=
  mk_layer (own l) b (enabled l) (has_extra_bounds l) (extra l).
Definition set_extra (h : bool) (b : bounds) (l : layer) : layer :=
  mk_layer (own l) (current l) (enabled l) h b.

Definition f64_1e6 : f64 := f64_of_Z 1000000.
Definition no_extra : bounds := mk_bounds f64_1e6 f64_1e6 (f64_of_Z (-1000000)) (f64_of_Z (-1000000)).

(** The constructor of [CostmapLayer], after those of its bases: the default
    constructor of a map, which has no array, and the one of [Layer]. *)
Definition new (m : costmap) : layer := mk_layer m false false false no_extra.

Definition touch (x y : f64) (b : bounds) : bounds :=
  mk_bounds (f64_min x (min_x b)) (f64_min y (min_y b))
    (f64_max x (max_x b)) (f64_max y (max_y b)).

Definition matchSize (garbage : nat -> Z) (master : costmap) (l : layer) : res layer :=
  m ← resizeMap garbage (getSizeInCellsX master) (getSizeInCellsY master) (resolution master)
        (origin_x master) (origin_y master) (own l);
  Ok (set_own m l).

(** ** Clearing an area *)

(** The body of the two loops of [clearArea], on the array. *)
Definition clear_cell (start_x start_y end_x end_y : Z) (invert : bool) (m : costmap)
    (x y : Z) (grid : list Z) : res (list Z) :=
  let xrange := (x >? start_x) && (x <? end_x) in
  if eqb (xrange && (y >? start_y) && (y <? end_y)) invert then Ok grid
  else
    let index := wraps 32 (getIndex x y m) in
    c ← aget grid index;
    if negb (c =? NO_INFORMATION) then aset grid index NO_INFORMATION else Ok grid.

Definition clearArea (start_x start_y end_x end_y : Z) (invert : bool) (l : layer) : res layer :=
  let l := set_current false l in
  let m := own l in
  grid ← for_each (Z.to_nat (wraps 32 (getSizeInCellsX m))) 0 (fun x =>
           for_each (Z.to_nat (wraps 32 (getSizeInCellsY m))) 0 (fun y =>
             clear_cell start_x start_y end_x end_y invert m x y)) (cells m);
  Ok (set_own (set_cells grid m) l).

(** ** Extra bounds *)

Definition addExtraBounds (mx0 my0 mx1 my1 : f64) (l : layer) : layer :=
  let e := extra l in
  set_extra true (mk_bounds (f64_min mx0 (min_x e)) (f64_min my0 (min_y e))
                    (f64_max mx1 (max_x e)) (f64_max my1 (max_y e))) l.

Definition useExtraBounds (b : bounds) (l : layer) : bounds * layer :=
  if negb (has_extra_bounds l) then (b, l)
  else
    let e := extra l in
    (mk_bounds (f64_min (min_x e) (min_x b)) (f64_min (min_y e) (min_y b))
       (f64_max (max_x e) (max_x b)) (f64_max (max_y e) (max_y b)),
     set_extra false no_extra l).

(** ** Merging into the master grid *)

(** The two loops every rule shares: [body] merges the cell at index [it]. *)
Fixpoint merge_row (body : Z -> list Z -> res (list Z)) (n : nat) (it : Z) (master : list Z) :
    res (list Z) :=
  match n with
  | O => Ok master
  | S n => master ← body it master; merge_row body n (wrapu 32 (it + 1)) master
  end.

Definition merge_rows (body : Z -> list Z -> res (list Z)) (span min_i min_j max_i max_j : Z)
    (master : list Z) : res (list Z) :=
  for_each (Z.to_nat (max_j - min_j)) min_j (fun j =>
    merge_row body (Z.to_nat (max_i - min_i)) (wrapu 32 (j * span + min_i))) master.

(** The window of the master grid merged cell by cell. *)
Definition merge (body : list Z -> Z -> list Z -> res (list Z)) (min_i min_j max_i max_j : Z)
    (l : layer) (master_grid : costmap) : res costmap :=
  master ← merge_rows (body (cells (own l))) (getSizeInCellsX master_grid) min_i min_j max_i max_j
             (cells master_grid);
  Ok (set_cells master master_grid).

Definition max_body (own : list Z) (it : Z) (master : list Z) : res (list Z) :=
  c ← aget own it;
  if c =? NO_INFORMATION then Ok master
  else
    old_cost ← aget master it;
    if (old_cost =? NO_INFORMATION) || (old_cost <? c) then aset master it c else Ok master.

Definition updateWithMax (min_i min_j max_i max_j : Z) (l : layer) (master : costmap) : res costmap :=
  if negb (enabled l) then Ok master else merge max_body min_i min_j max_i max_j l master.

Definition max_known_body (own : list Z) (it : Z) (master : list Z) : res (list Z) :=
  c ← aget own it;
  if c =? NO_INFORMATION then Ok master
  else
    old_cost ← aget master it;
    if negb (old_cost =? NO_INFORMATION) && (old_cost <? c) then aset master it c else Ok master.

Definition updateWithMaxWithoutUnknownOverwrite (min_i min_j max_i max_j : Z) (l : layer)
    (master : costmap) : res costmap :=
  if negb (enabled l) then Ok master else merge max_known_body min_i min_j max_i max_j l master.

Definition true_overwrite_body (own : list Z) (it : Z) (master : list Z) : res (list Z) :=
  c ← aget own it; aset master it c.

(** A null array is the empty list. *)
Definition updateWithTrueOverwrite (min_i min_j max_i max_j : Z) (l : layer) (master : costmap) :
    res costmap :=
  if negb (enabled l) then Ok master
  else if bool_decide (cells (own l) = []) then Throw runtime_error
  else merge true_overwrite_body min_i min_j max_i max_j l master.

Definition overwrite_body (own : list Z) (it : Z) (master : list Z) : res (list Z) :=
  c ← aget own it;
  if negb (c =? NO_INFORMATION) then aset master it c else Ok master.

Definition updateWithOverwrite (min_i min_j max_i max_j : Z) (l : layer) (master : costmap) :
    res costmap :=
  if negb (enabled l) then Ok master else merge overwrite_body min_i min_j max_i max_j l master.

Definition addition_body (own : list Z) (it : Z) (master : list Z) : res (list Z) :=
  c ← aget own it;
  if c =? NO_INFORMATION then Ok master
  else
    old_cost ← aget master it;
    if old_cost =? NO_INFORMATION then aset master it c
    else
      let sum := old_cost + c in
      if sum >=? INSCRIBED_INFLATED_OBSTACLE then aset master it (INSCRIBED_INFLATED_OBSTACLE - 1)
      else aset master it (wrapu 8 sum).

Definition updateWithAddition (min_i min_j max_i max_j : Z) (l : layer) (master : costmap) :
    res costmap :=
  if negb (enabled l) then Ok master else merge addition_body min_i min_j max_i max_j l master.

(** ** Specification: the cost of one cell *)

Definition max_rule (old c : Z) : Z :=
  if c =? NO_INFORMATION then old
  else if old =? NO_INFORMATION then c else Z.max old c.
Definition max_known_rule (old c : Z) : Z :=
  if (c =? NO_INFORMATION) || (old =? NO_INFORMATION) then old else Z.max old c.
Definition true_overwrite_rule (old c : Z) : Z := c.
Definition overwrite_rule (old c : Z) : Z := if c =? NO_INFORMATION then old else c.
Definition addition_rule (old c : Z) : Z :=
  if c =? NO_INFORMATION then old
  else if old =? NO_INFORMATION then c else Z.min (old + c) (INSCRIBED_INFLATED_OBSTACLE - 1).

(** [body] applies [rule] to the cell at its index and touches no other. *)
Definition merges (body : list Z -> Z -> list Z -> res (list Z)) (rule : Z -> Z -> Z) : Prop :=
  forall own it master c old, 0 <= it ->
    own !! Z.to_nat it = Some c -> master !! Z.to_nat it = Some old -> in_u 8 c -> in_u 8 old ->
    body own it master = Ok (<[Z.to_nat it := rule old c]> master) /\ in_u 8 (rule old c).

Lemma aset_lookup (l : list Z) it v old : 0 <= it -> l !! Z.to_nat it = Some old ->
  aset l it v = Ok (<[Z.to_nat it := v]> l).
Proof. intros ? ?%lookup_lt_Some. apply aset_ok. split; [lia|done]. Qed.

(** Every case either writes the value of the rule or leaves a cell that has it. *)
Ltac merge_cell :=
  intros own it master c old Hit Hc Hold ? ?;
  pose proof (conj Hit Hc) as Hget; apply aget_ok in Hget;
  pose proof (conj Hit Hold) as Hget'; apply aget_ok in Hget';
  pose proof (list_insert_id _ _ _ Hold) as Hid;
  rewrite Hget, bind_Ok, ?Hget', ?bind_Ok; unfold NO_INFORMATION, INSCRIBED_INFLATED_OBSTACLE, in_u in *;
  rewrite ?Z.geb_leb;
  repeat match goal with
  | |- context [?a =? ?b] => destruct (Z.eqb_spec a b)
  | |- context [?a <? ?b] => destruct (Z.ltb_spec a b)
  | |- context [?a <=? ?b] => destruct (Z.leb_spec a b)
  end; cbn [negb orb andb]; rewrite ?wrapu_id by (unfold in_u; lia);
  rewrite ?(aset_lookup _ _ _ old) by done; (split; [|lia]);
  first [by rewrite Hid | do 2 f_equal; lia | f_equal; rewrite <- Hid at 1; f_equal; lia].

Lemma max_merges : merges max_body max_rule.
Proof. unfold max_body, max_rule. merge_cell. Qed.

Lemma max_known_merges : merges max_known_body max_known_rule.
Proof. unfold max_known_body, max_known_rule. merge_cell. Qed.

Lemma true_overwrite_merges : merges true_overwrite_body true_overwrite_rule.
Proof. unfold true_overwrite_body, true_overwrite_rule. merge_cell. Qed.

Lemma overwrite_merges : merges overwrite_body overwrite_rule.
Proof. unfold overwrite_body, overwrite_rule. merge_cell. Qed.

Lemma addition_merges : merges addition_body addition_rule.
Proof. unfold addition_body, addition_rule. merge_cell. Qed.

(** ** The loops *)

(** The cell at index [i] after merging [own] into [master]. *)
Definition merged (rule : Z -> Z -> Z) (own master : list Z) (i : nat) : option Z :=
  old ← master !! i; c ← own !! i; Some (rule old c).

Section Loops.
Context (body : list Z -> Z -> list Z -> res (list Z)) (rule : Z -> Z -> Z) (own : list Z).
Hypothesis Hbody : merges body rule.
Hypothesis Hown : Forall (in_u 8) own.

Lemma merge_row_spec n : forall it master,
  0 <= it -> it + Z.of_nat n <= 2 ^ 32 -> it + Z.of_nat n <= Z.of_nat (length master) ->
  length master = length own -> Forall (in_u 8) master ->
  exists l', merge_row (body own) n it master = Ok l' /\ length l' = length master /\
    Forall (in_u 8) l' /\
    forall i, l' !! i = if within it (Z.of_nat n) (Z.of_nat i) then merged rule own master i
                        else master !! i.
Proof.
  induction n as [|n IH]; intros it master Hit H32 Hlen Heq Hm.
  - exists master. split; [done|]. split; [done|]. split; [done|].
    intros i. by destruct (within_spec it (Z.of_nat 0) (Z.of_nat i)); [lia|].
  - destruct (lookup_lt_is_Some_2 master (Z.to_nat it)) as [old Hold]; [lia|].
    destruct (lookup_lt_is_Some_2 own (Z.to_nat it)) as [c Hc]; [lia|].
    destruct (Hbody own it master c old Hit Hc Hold (Forall_lookup_1 _ _ _ _ Hown Hc)
      (Forall_lookup_1 _ _ _ _ Hm Hold)) as [Hb Hr].
    cbn [merge_row]. rewrite Hb, bind_Ok.
    destruct (decide (n = O)) as [->|Hn].
    { eexists. split; [done|]. split; [by rewrite length_insert|]. split; [by apply Forall_insert|].
      intros i. destruct (within_spec it (Z.of_nat 1) (Z.of_nat i)).
      - replace i with (Z.to_nat it) by lia. rewrite list_lookup_insert_eq by lia.
        unfold merged. by rewrite Hold, Hc.
      - by rewrite list_lookup_insert_ne by lia. }
    rewrite wrapu_id by (unfold in_u; lia).
    destruct (IH (it + 1) (<[Z.to_nat it := rule old c]> master)) as (l' & -> & Hl & Hf & Hv);
      rewrite ?length_insert; [lia..|by apply Forall_insert|].
    exists l'. split; [done|]. split; [by rewrite Hl, length_insert|]. split; [done|].
    intros i. rewrite Hv. destruct (decide (Z.of_nat i = it)) as [Hi|Hi].
    + replace i with (Z.to_nat it) by lia.
      destruct (within_spec (it + 1) (Z.of_nat n) (Z.of_nat (Z.to_nat it))); [lia|].
      destruct (within_spec it (Z.of_nat (S n)) (Z.of_nat (Z.to_nat it))); [|lia].
      rewrite list_lookup_insert_eq by lia. unfold merged. by rewrite Hold, Hc.
    + unfold merged. rewrite list_lookup_insert_ne by lia.
      destruct (within_spec (it + 1) (Z.of_nat n) (Z.of_nat i)),
        (within_spec it (Z.of_nat (S n)) (Z.of_nat i)); done || lia.
Qed.

Lemma merge_rows_spec w i0 i1 : 0 <= i0 <= i1 -> i1 <= w -> forall n j master,
  0 <= j -> (j + Z.of_nat n) * w <= Z.of_nat (length master) ->
  Z.of_nat (length master) <= 2 ^ 32 -> length master = length own -> Forall (in_u 8) master ->
  exists l', for_each n j (fun j =>
      merge_row (body own) (Z.to_nat (i1 - i0)) (wrapu 32 (j * w + i0))) master = Ok l' /\
    length l' = length master /\ Forall (in_u 8) l' /\
    forall x y, 0 <= x < w -> 0 <= y ->
      at_cell w l' x y =
        if within i0 (i1 - i0) x && within j (Z.of_nat n) y
        then merged rule own master (Z.to_nat (y * w + x)) else at_cell w master x y.
Proof.
  intros Hi Hw n. induction n as [|n IH]; intros j master Hj Hlen H32 Heq Hm.
  - exists master. split; [done|]. split; [done|]. split; [done|]. intros x y _ _.
    destruct (within_spec j (Z.of_nat 0) y); [lia|]. by rewrite andb_false_r.
  - cbn [for_each].
    assert (exists l1, merge_row (body own) (Z.to_nat (i1 - i0)) (wrapu 32 (j * w + i0)) master = Ok l1 /\
      length l1 = length master /\ Forall (in_u 8) l1 /\
      forall i, l1 !! i = if within (j * w + i0) (i1 - i0) (Z.of_nat i) then merged rule own master i
                          else master !! i) as (l1 & -> & Hl1 & Hf1 & Hv1).
    { destruct (decide (i1 = i0)) as [->|].
      - exists master. rewrite Z.sub_diag. split; [done|]. split; [done|]. split; [done|].
        intros i. by destruct (within_spec (j * w + i0) 0 (Z.of_nat i)); [lia|].
      - rewrite wrapu_id by (unfold in_u; nia).
        destruct (merge_row_spec (Z.to_nat (i1 - i0)) (j * w + i0) master) as (l1 & ? & ? & ? & Hv);
          [nia|nia|nia|done|done|].
        rewrite Z2Nat.id in Hv by lia. by exists l1. }
    rewrite bind_Ok.
    destruct (IH (j + 1) l1) as (l' & -> & Hl & Hf & Hv); [lia|lia|lia|lia|done|].
    exists l'. split; [done|]. split; [lia|]. split; [done|]. intros x y Hx Hy. rewrite Hv by done.
    unfold at_cell, merged. rewrite !Hv1, !Z2Nat.id by nia.
    destruct (within_spec i0 (i1 - i0) x), (within_spec (j + 1) (Z.of_nat n) y),
      (within_spec j (Z.of_nat (S n)) y), (within_spec (j * w + i0) (i1 - i0) (y * w + x));
      cbn [andb]; try done; try lia; try nia.
Qed.
End Loops.

(** The two maps of a merge: both well formed, of the same sizes. *)
Record matched (l : layer) (master : costmap) : Prop := {
  matched_own : wf (own l);
  matched_master : wf master;
  matched_x : size_x (own l) = size_x master;
  matched_y : size_y (own l) = size_y master }.

(** A window, half-open, inside a map. *)
Definition fits (i0 j0 i1 j1 : Z) (m : costmap) : Prop :=
  0 <= i0 <= i1 /\ i1 <= size_x m /\ 0 <= j0 <= j1 /\ j1 <= size_y m.

Definition in_window (i0 j0 i1 j1 x y : Z) : bool := within i0 (i1 - i0) x && within j0 (j1 - j0) y.

(** The result of merging by a rule. *)
Definition merged_by (rule : Z -> Z -> Z) (i0 j0 i1 j1 : Z) (l : layer) (master : costmap)
    (r : res costmap) : Prop :=
  exists cs, r = Ok (set_cells cs master) /\
    rewritten master (set_cells cs master) (fun x y =>
      if in_window i0 j0 i1 j1 x y
      then old ← cell master x y; c ← cell (own l) x y; Some (rule old c)
      else cell master x y).

Lemma merge_spec body rule i0 j0 i1 j1 l master :
  merges body rule -> matched l master -> fits i0 j0 i1 j1 master ->
  merged_by rule i0 j0 i1 j1 l master (merge body i0 j0 i1 j1 l master).
Proof.
  intros Hb [Ho Hm Hx Hy] (Hi & Hiw & Hj & Hjh). unfold merge, merge_rows, merged_by.
  pose proof (wf_cells _ Ho) as Hlo. pose proof (wf_cells _ Hm) as Hlm. pose proof Hm as [? ? ? _ _ _].
  rewrite Hx, Hy in Hlo.
  destruct (merge_rows_spec body rule (cells (own l)) Hb (wf_bytes _ Ho) (size_x master) i0 i1 Hi Hiw
    (Z.to_nat (j1 - j0)) j0 (cells master)) as (cs & Hr & Hl & Hf & Hv);
    [lia|nia|lia|lia|by apply wf_bytes|].
  unfold getSizeInCellsX. rewrite Hr, bind_Ok. exists cs. split; [done|].
  assert (forall x y, inside master x y -> at_cell (size_x master) cs x y =
    if in_window i0 j0 i1 j1 x y
    then old ← cell master x y; c ← cell (own l) x y; Some (rule old c)
    else cell master x y) as Hcells.
  { intros x y [Hix Hiy]. rewrite Hv by lia. rewrite Z2Nat.id by lia. unfold in_window.
    destruct (_ && _); [|done]. unfold merged, cell, at_cell. by rewrite Hx. }
  apply wf_rewritten; try done.
  intros x y c Hin Hc. rewrite <- Hcells in Hc by done. exact (Forall_lookup_1 _ _ _ _ Hf Hc).
Qed.

(** ** Clearing *)

(** [s'] is [s] with the cells of [T] set to [v]. *)
Definition fills (T : nat -> Prop) (v : Z) (s s' : list Z) : Prop :=
  length s' = length s /\ (forall k, T k -> s' !! k = Some v) /\
  (forall k, s !! k = Some v -> s' !! k = Some v) /\ (forall k, ~ T k -> s' !! k = s !! k).

Lemma fills_iff T T' v s s' : (forall k, T k <-> T' k) -> fills T v s s' -> fills T' v s s'.
Proof.
  intros HT (? & H1 & ? & H2). repeat split; [done| |done|]; intros k Hk;
    [by apply H1, HT|apply H2]. by rewrite HT.
Qed.

Lemma for_each_fills (T : Z -> nat -> Prop) v len body lo hi :
  (forall i s, lo <= i < hi -> length s = len -> exists s', body i s = Ok s' /\ fills (T i) v s s') ->
  forall n i s, lo <= i -> i + Z.of_nat n <= hi -> length s = len ->
  exists s', for_each n i body s = Ok s' /\
    fills (fun k => exists i', i <= i' < i + Z.of_nat n /\ T i' k) v s s'.
Proof.
  intros Hb n. induction n as [|n IH]; intros i s Hlo Hhi Hlen.
  - exists s. split; [done|]. repeat split; try done. intros k (i' & ? & _). lia.
  - destruct (Hb i s) as (s1 & Hs1 & Hl1 & Hin1 & Hv1 & Hout1); [lia|done|].
    destruct (IH (i + 1) s1) as (s' & Hs' & Hl' & Hin' & Hv' & Hout'); [lia|lia|by rewrite Hl1|].
    exists s'. cbn [for_each]. rewrite Hs1, bind_Ok. split; [done|].
    split; [by rewrite Hl'|]. split; [|split; [by auto|]].
    + intros k (i' & Hi' & Hk). destruct (decide (i' = i)) as [->|]; [by apply Hv', Hin1|].
      apply Hin'. exists i'. split; [lia|done].
    + intros k Hk. rewrite Hout', Hout1; [done| |].
      * intros Hi. apply Hk. exists i. split; [lia|done].
      * intros (i' & ? & ?). apply Hk. exists i'. split; [lia|done].
Qed.

(** The cells [clearArea] clears: those strictly inside the area, or the others. *)
Definition cleared (start_x start_y end_x end_y : Z) (invert : bool) (x y : Z) : bool :=
  negb (eqb (bool_decide (start_x < x < end_x /\ start_y < y < end_y)) invert).

Lemma clear_cell_spec sx sy ex ey invert m x y grid :
  wf m -> size_x m * size_y m < 2 ^ 31 -> inside m x y -> length grid = length (cells m) ->
  exists grid', clear_cell sx sy ex ey invert m x y grid = Ok grid' /\
    fills (fun k => cleared sx sy ex ey invert x y = true /\ k = Z.to_nat (y * size_x m + x))
      NO_INFORMATION grid grid'.
Proof.
  intros Hwf H31 Hin Hlen. destruct (index_spec m x y Hwf Hin) as [Hi Hr].
  pose proof (wf_cells m Hwf) as Hc.
  unfold clear_cell. rewrite Hi, wraps_id by (unfold in_s; lia).
  assert ((x >? sx) && (x <? ex) && (y >? sy) && (y <? ey) =
    bool_decide (sx < x < ex /\ sy < y < ey)) as ->.
  { rewrite !Z.gtb_ltb. destruct (Z.ltb_spec sx x), (Z.ltb_spec x ex), (Z.ltb_spec sy y),
      (Z.ltb_spec y ey); symmetry; cbn [andb];
      first [apply bool_decide_eq_true_2; lia|apply bool_decide_eq_false_2; lia]. }
  unfold cleared. destruct (eqb _ invert); cbn [negb].
  { exists grid. split; [done|]. by repeat split; try done; intros k []. }
  destruct (lookup_lt_is_Some_2 grid (Z.to_nat (y * size_x m + x))) as [c Hgc]; [lia|].
  rewrite (proj2 (aget_ok grid (y * size_x m + x) c)) by (split; [lia|done]). rewrite bind_Ok.
  destruct (Z.eqb_spec c NO_INFORMATION) as [->|Hne]; cbn [negb].
  - exists grid. split; [done|]. by repeat split; try done; intros k [_ ->].
  - rewrite (aset_lookup _ _ _ c) by (done || lia). eexists. split; [done|].
    split; [by rewrite length_insert|]. split; [|split].
    + intros k [_ ->]. apply list_lookup_insert_eq. lia.
    + intros k Hk. rewrite list_lookup_insert. case_decide; [done|by rewrite Hk].
    + intros k Hk. apply list_lookup_insert_ne. intros <-. by apply Hk.
Qed.

Lemma clearArea_spec sx sy ex ey invert l (Hwf : wf (own l))
  (Harea : size_x (own l) * size_y (own l) < 2 ^ 31) :
  exists cs, clearArea sx sy ex ey invert l = Ok (set_own (set_cells cs (own l)) (set_current false l)) /\
    rewritten (own l) (set_cells cs (own l)) (fun x y =>
      if cleared sx sy ex ey invert x y then Some NO_INFORMATION else cell (own l) x y).
Proof.
  set (m := own l) in *. pose proof Hwf as [? ? ? _ _ _].
  set (T := fun x k => exists y, 0 <= y < size_y m /\
    cleared sx sy ex ey invert x y = true /\ k = Z.to_nat (y * size_x m + x)).
  destruct (for_each_fills T NO_INFORMATION (length (cells m))
    (fun x => for_each (Z.to_nat (size_y m)) 0 (fun y => clear_cell sx sy ex ey invert m x y))
    0 (size_x m)) with (n := Z.to_nat (size_x m)) (i := 0) (s := cells m)
    as (cs & Hcs & Hl & Hin & _ & Hout); [|lia|lia|done|].
  { intros x s Hx Hlen.
    destruct (for_each_fills (fun y k => cleared sx sy ex ey invert x y = true /\
        k = Z.to_nat (y * size_x m + x)) NO_INFORMATION (length (cells m))
      (fun y => clear_cell sx sy ex ey invert m x y) 0 (size_y m))
      with (n := Z.to_nat (size_y m)) (i := 0) (s := s) as (s' & Hs' & Hf); [|lia|lia|done|].
    - intros y s0 Hy Hl0. by apply clear_cell_spec.
    - exists s'. split; [done|]. revert Hf. apply fills_iff. intros k. unfold T.
      by rewrite Z2Nat.id, Z.add_0_l by lia. }
  exists cs. unfold clearArea. cbn [own set_current]. fold m.
  unfold getSizeInCellsX, getSizeInCellsY.
  rewrite !(wraps_id 32) by (unfold in_s; lia). rewrite Hcs, bind_Ok. split; [done|].
  apply wf_rewritten; try done.
  - intros x y Hxy. destruct (index_spec m x y Hwf Hxy) as [_ Hr]. unfold at_cell.
    destruct (cleared sx sy ex ey invert x y) eqn:Hcl.
    + apply Hin. exists x. destruct Hxy. split; [lia|]. by exists y.
    + rewrite Hout; [done|]. intros (x' & Hx' & y' & Hy' & Hcl' & Heq).
      destruct (index_inj (size_x m) x y x' y'); [apply Hxy|lia|nia|congruence].
  - intros x y c Hxy. destruct (cleared _ _ _ _ _ _ _); [intros [= <-]; by unfold in_u, NO_INFORMATION|].
    intros Hc. destruct (cell_some m x y Hwf Hxy) as (c' & ? & ? & _). by simplify_eq.
Qed.

(** ** Properties *)

(** Each update merges the layer into the window of the master grid by the
    documented rule. For a layer and a master grid of the same sizes and a window
    inside them, a disabled layer changes nothing; an enabled one sets every cell of
    the window to the rule's value of the old cost and the layer's cost, changes no
    other cell and no other member, and accesses nothing outside the arrays. The rules:
    maximum, with an unknown cost of the layer ignored and an unknown cost of the
    master replaced; maximum keeping unknown costs of the master; overwriting;
    overwriting with known costs; sum, capped below the inscribed cost. A layer
    without an array throws when it overwrites. *)
Theorem layer_merge i0 j0 i1 j1 l master (Hm : matched l master)
  (Hw : fits i0 j0 i1 j1 master) :
  let updates rule (f : Z -> Z -> Z -> Z -> layer -> costmap -> res costmap) :=
    if enabled l then merged_by rule i0 j0 i1 j1 l master (f i0 j0 i1 j1 l master)
    else f i0 j0 i1 j1 l master = Ok master in
  updates max_rule updateWithMax /\
  updates max_known_rule updateWithMaxWithoutUnknownOverwrite /\
  updates overwrite_rule updateWithOverwrite /\
  updates addition_rule updateWithAddition /\
  (cells (own l) <> [] -> updates true_overwrite_rule updateWithTrueOverwrite) /\
  (cells (own l) = [] -> enabled l = true ->
     updateWithTrueOverwrite i0 j0 i1 j1 l master = Throw runtime_error).
Proof.
  cbv zeta. unfold updateWithMax, updateWithMaxWithoutUnknownOverwrite, updateWithOverwrite,
    updateWithAddition, updateWithTrueOverwrite.
  destruct (enabled l); cbn [negb]; [|done].
  repeat split; try (apply merge_spec; [|done..]).
  - apply max_merges.
  - apply max_known_merges.
  - apply overwrite_merges.
  - apply addition_merges.
  - intros Hne. rewrite bool_decide_eq_false_2 by done. apply merge_spec; [|done..].
    apply true_overwrite_merges.
  - intros He _. by rewrite bool_decide_eq_true_2.
Qed.

(** ** A small layer *)

Definition demo_layer : layer :=
  mk_layer (mk_costmap 4 3 f64_half f64_zero f64_zero [255; 9; 253; 0; 255; 5; 3; 254; 1; 2; 255; 200] 255)
    true true false no_extra.

Lemma demo_matched : matched demo_layer demo_map.
Proof. split; [split; solve_decide|apply demo_map_wf|done|done]. Qed.

Lemma layer_merge_witness :
  exists cs, updateWithMax 1 0 4 2 demo_layer demo_map = Ok (set_cells cs demo_map) /\
    cell (set_cells cs demo_map) 2 0 = Some 253 /\ cell (set_cells cs demo_map) 2 1 = Some 6.
Proof.
  destruct (layer_merge 1 0 4 2 demo_layer demo_map demo_matched) as [(cs & Hcs & _ & _ & _ & Hc) _];
    [unfold fits; simpl; lia|].
  exists cs. split; [exact Hcs|].
  split; [exact (Hc 2 0 ltac:(solve_decide))|exact (Hc 2 1 ltac:(solve_decide))].
Defined.

End CostmapLayer.
