(* ===== verification/Footprint.v ===== *)
(** * Footprints ([nav2_costmap_2d/footprint.hpp], [footprint.cpp],
    [costmap_math.hpp], [costmap_math.cpp])

    The outline of the robot: its distances from the centre, its position, its
    padding. [std::hypot], [cos] and [sin] are parameters. A [double] narrowed to a
    [float] rounds as IEEE 754 has it. *)

From stdpp Require Import base option list numbers.
From Stdlib Require Import ZArith Lia SpecFloat.
From S2P Require Import Prelude Float64.

Definition f64_highest : f64 := S754_finite false 9007199254740991 971.
Definition f64_lowest : f64 := S754_finite true 9007199254740991 971.
Definition f64_one : f64 := S754_finite false 4503599627370496 (-52).

Module Footprint.

Record Point : Type := mk_point { x : f64; y : f64; z : f64 }.
Record Point32 : Type := mk_point32 { x32 : spec_float; y32 : spec_float; z32 : spec_float }.

Section Footprint.
Context (hypot : f64 -> f64 -> f64) (cos sin : f64 -> f64).

(** ** [costmap_math] *)

Definition sign (x : f64) : f64 := if f64_lt x f64_zero then f64_of_Z (-1) else f64_one.
Definition sign0 (x : f64) : f64 :=
  if f64_lt x f64_zero then f64_of_Z (-1) else if f64_lt f64_zero x then f64_one else f64_zero.

Definition distance (x0 y0 x1 y1 : f64) : f64 := hypot (f64_sub x1 x0) (f64_sub y1 y0).

Definition distanceToLine (pX pY x0 y0 x1 y1 : f64) : f64 :=
  let A := f64_sub pX x0 in
  let B := f64_sub pY y0 in
  let C := f64_sub x1 x0 in
  let D := f64_sub y1 y0 in
  let dot := f64_add (f64_mul A C) (f64_mul B D) in
  let len_sq := f64_add (f64_mul C C) (f64_mul D D) in
  let param := f64_div dot len_sq in
  let '(xx, yy) :=
    if f64_lt param f64_zero then (x0, y0)
    else if f64_lt f64_one param then (x1, y1)
    else (f64_add x0 (f64_mul param C), f64_add y0 (f64_mul param D)) in
  distance pX pY xx yy.

(** ** Distances from the centre *)

Definition vertex_dist (p : Point) : f64 := distance f64_zero f64_zero (x p) (y p).
Definition edge_dist (p q : Point) : f64 :=
  distanceToLine f64_zero f64_zero (x p) (y p) (x q) (y q).

(** One edge, from [p] to [q]: the body of the loop and the closing edge. *)
Definition include_edge (p q : Point) (d : f64 * f64) : f64 * f64 :=
  let '(min_dist, max_dist) := d in
  let vertex_dist := vertex_dist p in
  let edge_dist := edge_dist p q in
  (f64_min min_dist (f64_min vertex_dist edge_dist),
   f64_max max_dist (f64_max vertex_dist edge_dist)).

(** The edges between consecutive points, then the one from the last point to
    [front]. *)
Fixpoint edges (front : Point) (l : list Point) (d : f64 * f64) : f64 * f64 :=
  match l with
  | p :: (q :: _) as rest => edges front rest (include_edge p q d)
  | [p] => include_edge p front d
  | [] => d
  end.

Definition calculateMinAndMaxDistances (footprint : list Point) : f64 * f64 :=
  let d := (f64_highest, f64_zero) in
  match footprint with
  | front :: _ :: _ :: _ => edges front footprint d
  | _ => d
  end.

(** ** Conversions *)

Definition toPoint32 (pt : Point) : Point32 :=
  mk_point32 (f32_of_f64 (x pt)) (f32_of_f64 (y pt)) (f32_of_f64 (z pt)).
Definition toPoint (pt : Point32) : Point :=
  mk_point (f64_of_f32 (x32 pt)) (f64_of_f32 (y32 pt)) (f64_of_f32 (z32 pt)).
Definition toPolygon (pts : list Point) : list Point32 := toPoint32 <$> pts.
Definition toPointVector (polygon : list Point32) : list Point := toPoint <$> polygon.

(** ** Placing, padding and making footprints *)

Definition new_x (px cos_th sin_th : f64) (p : Point) : f64 :=
  f64_add px (f64_sub (f64_mul (x p) cos_th) (f64_mul (y p) sin_th)).
Definition new_y (py cos_th sin_th : f64) (p : Point) : f64 :=
  f64_add py (f64_add (f64_mul (x p) sin_th) (f64_mul (y p) cos_th)).

(** [std::vector::resize]: new elements are zero points. *)
Definition resize (n : nat) (l : list Point) : list Point :=
  take n l ++ replicate (n - length l) (mk_point f64_zero f64_zero f64_zero).

(** The points of the result keep the third coordinate they had. *)
Definition transformFootprint (px py theta : f64) (footprint_spec oriented_footprint : list Point) :
    list Point :=
  let cos_th := cos theta in
  let sin_th := sin theta in
  zip_with (fun p new_pt => mk_point (new_x px cos_th sin_th p) (new_y py cos_th sin_th p) (z new_pt))
    footprint_spec (resize (length footprint_spec) oriented_footprint).

Definition transformFootprint_polygon (px py theta : f64) (footprint_spec : list Point) : list Point32 :=
  let cos_th := cos theta in
  let sin_th := sin theta in
  (fun p => mk_point32 (f32_of_f64 (new_x px cos_th sin_th p)) (f32_of_f64 (new_y py cos_th sin_th p))
              f64_zero) <$> footprint_spec.

Definition padFootprint (footprint : list Point) (padding : f64) : list Point :=
  (fun pt => mk_point (f64_add (x pt) (f64_mul (sign0 (x pt)) padding))
               (f64_add (y pt) (f64_mul (sign0 (y pt)) padding)) (z pt)) <$> footprint.

Definition makeFootprintFromRadius (radius : f64) : list Point :=
  (fun i : nat =>
     let angle := f64_div (f64_mul (f64_of_Z (Z.of_nat i * 2)) f64_pi) (f64_of_Z 16) in
     mk_point (f64_mul (cos angle) radius) (f64_mul (sin angle) radius) f64_zero) <$> seq 0 16.

(** ** The radii *)

(** Consecutive points, the last one with the first one. *)
Definition closed_edges (footprint : list Point) : list (Point * Point) :=
  zip footprint (tail footprint ++ take 1 footprint).

Lemma edges_fold front l : forall d,
  edges front l d = fold_left (fun d pq => include_edge (fst pq) (snd pq) d) (zip l (tail l ++ [front])) d.
Proof.
  induction l as [|p [|q l] IH]; intros d; [done|done|].
  cbn [edges tail app zip zip_with fold_left fst snd]. apply IH.
Qed.

(** Every distance that is not a NaN lies between the two accumulated values. *)
Definition between (d : f64 * f64) (v : f64) : Prop := f64_le (fst d) v = true /\ f64_le v (snd d) = true.

Definition defined_edge (pq : Point * Point) : Prop :=
  is_nan (vertex_dist (fst pq)) = false /\ is_nan (edge_dist (fst pq) (snd pq)) = false.

(** The two distances of an edge. *)
Definition distances (pq : Point * Point) : list f64 := [vertex_dist (fst pq); edge_dist (fst pq) (snd pq)].

Lemma fold_edges l : Forall defined_edge l -> forall d,
  is_nan (fst d) = false -> is_nan (snd d) = false ->
  let r := fold_left (fun d pq => include_edge (fst pq) (snd pq) d) l d in
  (is_nan (fst r) = false /\ is_nan (snd r) = false) /\
  (f64_le (fst r) (fst d) = true /\ f64_le (snd d) (snd r) = true) /\
  Forall (between r) (mbind distances l) /\
  (fst r = fst d \/ In (fst r) (mbind distances l)) /\ (snd r = snd d \/ In (snd r) (mbind distances l)).
Proof.
  induction 1 as [|[p q] l [Hv He] Hl IH]; intros [lo hi] Hlo Hhi; simpl in Hlo, Hhi.
  { simpl. rewrite !f64_le_refl by done. repeat split; auto. }
  cbn [fold_left fst snd] in *. unfold include_edge.
  destruct (f64_min_spec (vertex_dist p) (edge_dist p q)) as (Hmv & Hme & Hmc); [done..|].
  destruct (f64_max_spec (vertex_dist p) (edge_dist p q)) as (HMv & HMe & HMc); [done..|].
  set (m := f64_min (vertex_dist p) (edge_dist p q)) in *.
  set (M := f64_max (vertex_dist p) (edge_dist p q)) in *.
  assert (is_nan m = false) as Hm by by destruct Hmc as [-> | ->].
  assert (is_nan M = false) as HM by by destruct HMc as [-> | ->].
  destruct (f64_min_spec lo m) as (Hll & Hlm & Hlc); [done..|].
  destruct (f64_max_spec hi M) as (Hhh & HhM & Hhc); [done..|].
  assert (is_nan (f64_min lo m) = false) as Hl' by by destruct Hlc as [-> | ->].
  assert (is_nan (f64_max hi M) = false) as Hh' by by destruct Hhc as [-> | ->].
  destruct (IH (f64_min lo m, f64_max hi M) Hl' Hh') as ((Hn1 & Hn2) & (Hle1 & Hle2) & Hb & Hc1 & Hc2).
  cbn [fst snd] in *. set (r := fold_left _ l _) in *.
  assert (f64_le (fst r) m = true) as Hrm by (by eapply f64_le_trans; [..|exact Hle1|exact Hlm]).
  assert (f64_le M (snd r) = true) as HMr by (by eapply f64_le_trans; [..|exact HhM|exact Hle2]).
  split; [done|]. split.
  { split; [by eapply f64_le_trans; [..|exact Hle1|exact Hll]|by eapply f64_le_trans; [..|exact Hhh|exact Hle2]]. }
  change (mbind distances ((p, q) :: l)) with (vertex_dist p :: edge_dist p q :: mbind distances l).
  split; [|split].
  - repeat (apply list.Forall_cons; split); [..|done]; split;
      first [by eapply f64_le_trans; [..|exact Hrm|] | by eapply f64_le_trans; [..|exact HMr]].
  - destruct Hc1 as [-> |?]; [|by do 3 right]. destruct Hlc as [-> | ->]; [by left|right].
    destruct Hmc as [-> | ->]; simpl; auto.
  - destruct Hc2 as [-> |?]; [|by do 3 right]. destruct Hhc as [-> | ->]; [by left|right].
    destruct HMc as [-> | ->]; simpl; auto.
Qed.
End Footprint.

(** ** Properties *)

(** The radii of a footprint. For a footprint of at least three points whose
    distances to the centre are numbers, the inscribed radius is at most, and the
    circumscribed radius at least, the distance of every vertex and of every
    edge, the closing edge included; each radius is one of these distances, unless
    all of them are beyond the start values (the largest [double], zero). Smaller footprints
    give these start values. *)
Theorem footprint_radii hypot footprint
  (Hnum : Forall (defined_edge hypot) (closed_edges footprint)) :
  let r := calculateMinAndMaxDistances hypot footprint in
  let ds := mbind (distances hypot) (closed_edges footprint) in
  if bool_decide (length footprint <= 2)%nat then r = (f64_highest, f64_zero)
  else
    Forall (between r) ds /\
    (forall p, In p footprint -> between r (vertex_dist hypot p)) /\
    (fst r = f64_highest \/ In (fst r) ds) /\ (snd r = f64_zero \/ In (snd r) ds).
Proof.
  cbv zeta. destruct footprint as [|front [|p [|q l]]]; try done.
  rewrite bool_decide_eq_false_2 by (simpl; lia).
  unfold calculateMinAndMaxDistances. rewrite edges_fold.
  change (zip _ _) with (closed_edges (front :: p :: q :: l)).
  set (fp := front :: p :: q :: l) in *.
  destruct (fold_edges hypot _ Hnum (f64_highest, f64_zero) eq_refl eq_refl) as (_ & _ & Hb & Hmin & Hmax).
  split; [exact Hb|]. split; [|done]. intros v Hv.
  apply (proj1 (List.Forall_forall _ _) Hb).
  apply list_elem_of_In, list_elem_of_bind. apply list_elem_of_In, list_elem_of_lookup in Hv as [i Hi].
  assert (length (tail fp ++ take 1 fp) = length fp) as Hlen by (rewrite length_app; simpl; lia).
  destruct (lookup_lt_is_Some_2 (tail fp ++ take 1 fp) i) as [w Hw];
    [rewrite Hlen; by eapply lookup_lt_Some|].
  exists (v, w). split; [left|].
  apply (list_elem_of_lookup_2 _ i).
  unfold closed_edges. apply lookup_zip_with_Some. by exists v, w.
Qed.

(** ** A square *)

Definition demo_hypot (a b : f64) : f64 := f64_sqrt (f64_add (f64_mul a a) (f64_mul b b)).

Definition demo_square : list Point :=
  (fun c => mk_point (f64_of_Z (fst c)) (f64_of_Z (snd c)) f64_zero) <$> [(3, 4); (-3, 4); (-3, -4); (3, -4)].

Lemma footprint_radii_witness :
  calculateMinAndMaxDistances demo_hypot demo_square = (f64_of_Z 3, f64_of_Z 5) /\
  forall p, In p demo_square -> between (f64_of_Z 3, f64_of_Z 5) (vertex_dist demo_hypot p).
Proof.
  assert (calculateMinAndMaxDistances demo_hypot demo_square = (f64_of_Z 3, f64_of_Z 5)) as Hr
    by (vm_compute; reflexivity).
  split; [exact Hr|].
  assert (Forall (defined_edge demo_hypot) (closed_edges demo_square)) as Hnum
    by (repeat constructor; vm_compute; reflexivity).
  rewrite <- Hr. exact (proj1 (proj2 (footprint_radii demo_hypot demo_square Hnum))).
Defined.

End Footprint.
