(* ===== verification/LayeredCostmap.v ===== *)
(** * The layered costmap ([nav2_costmap_2d/layered_costmap.hpp],
    [layered_costmap.cpp])

    The layers are objects reached through pointers and virtual calls. Their heap is
    a parameter [W], a pointer is a number, and the calls are the class [Layers]: a
    layer has a pointer back to the layered costmap, so a call may change anything.
    [LayerLaws] states what drawing promises; layers that only use the operations
    of [CostmapLayer] satisfy it. The mutex and the log are not modelled. *)

From stdpp Require Import base option list numbers strings.
From Stdlib Require Import ZArith Lia SpecFloat.
From S2P Require Import Prelude Float64 Costmap CostmapLayer Footprint.

Module LayeredCostmap.
Import Costmap CostmapLayer.

(** The two maps: [primary_costmap_] and [combined_costmap_]. *)
Inductive Target : Type := Primary | Combined.

Record layered (W : Type) : Type := mk_layered {
  primary_costmap : costmap;
  combined_costmap : costmap;
  global_frame : string;
  rolling_window : bool;
  current : bool;
  area : bounds;
  bx0 : Z; bxn : Z; by0 : Z; byn : Z;
  plugins : list nat;
  filters : list nat;
  initialized : bool;
  size_locked : bool;
  circumscribed_radius : f64;
  inscribed_radius : f64;
  footprint : list Footprint.Point;
  heap : W }.

Arguments mk_layered {W}.
Arguments primary_costmap {W}.
Arguments combined_costmap {W}.
Arguments global_frame {W}.
Arguments rolling_window {W}.
Arguments current {W}.
Arguments area {W}.
Arguments bx0 {W}.
Arguments bxn {W}.
Arguments by0 {W}.
Arguments byn {W}.
Arguments plugins {W}.
Arguments filters {W}.
Arguments initialized {W}.
Arguments size_locked {W}.
Arguments circumscribed_radius {W}.
Arguments inscribed_radius {W}.
Arguments footprint {W}.
Arguments heap {W}.

Section Updates.
Context {W : Type}.
Implicit Types s : layered W.

Definition set_maps (p c : costmap) s : layered W :=
  mk_layered p c (global_frame s) (rolling_window s) (current s) (area s) (bx0 s) (bxn s) (by0 s)
    (byn s) (plugins s) (filters s) (initialized s) (size_locked s) (circumscribed_radius s)
    (inscribed_radius s) (footprint s) (heap s).
Definition set_current (b : bool) s : layered W :=
  mk_layered (primary_costmap s) (combined_costmap s) (global_frame s) (rolling_window s) b (area s)
    (bx0 s) (bxn s) (by0 s) (byn s) (plugins s) (filters s) (initialized s) (size_locked s)
    (circumscribed_radius s) (inscribed_radius s) (footprint s) (heap s).
Definition set_area (b : bounds) s : layered W :=
  mk_layered (primary_costmap s) (combined_costmap s) (global_frame s) (rolling_window s) (current s)
    b (bx0 s) (bxn s) (by0 s) (byn s) (plugins s) (filters s) (initialized s) (size_locked s)
    (circumscribed_radius s) (inscribed_radius s) (footprint s) (heap s).
Definition set_updated (x0 xn y0 yn : Z) s : layered W :=
  mk_layered (primary_costmap s) (combined_costmap s) (global_frame s) (rolling_window s) (current s)
    (area s) x0 xn y0 yn (plugins s) (filters s) true (size_locked s)
    (circumscribed_radius s) (inscribed_radius s) (footprint s) (heap s).
Definition set_layers (ps fs : list nat) s : layered W :=
  mk_layered (primary_costmap s) (combined_costmap s) (global_frame s) (rolling_window s) (current s)
    (area s) (bx0 s) (bxn s) (by0 s) (byn s) ps fs (initialized s) (size_locked s)
    (circumscribed_radius s) (inscribed_radius s) (footprint s) (heap s).
Definition set_size_locked (b : bool) s : layered W :=
  mk_layered (primary_costmap s) (combined_costmap s) (global_frame s) (rolling_window s) (current s)
    (area s) (bx0 s) (bxn s) (by0 s) (byn s) (plugins s) (filters s) (initialized s) b
    (circumscribed_radius s) (inscribed_radius s) (footprint s) (heap s).
Definition set_footprint (f : list Footprint.Point) (ri rc : f64) s : layered W :=
  mk_layered (primary_costmap s) (combined_costmap s) (global_frame s) (rolling_window s) (current s)
    (area s) (bx0 s) (bxn s) (by0 s) (byn s) (plugins s) (filters s) (initialized s) (size_locked s)
    rc ri f (heap s).
Definition set_heap (w : W) s : layered W :=
  mk_layered (primary_costmap s) (combined_costmap s) (global_frame s) (rolling_window s) (current s)
    (area s) (bx0 s) (bxn s) (by0 s) (byn s) (plugins s) (filters s) (initialized s) (size_locked s)
    (circumscribed_radius s) (inscribed_radius s) (footprint s) w.

Definition target (t : Target) s : costmap :=
  match t with Primary => primary_costmap s | Combined => combined_costmap s end.
Definition set_target (t : Target) (m : costmap) s : layered W :=
  match t with
  | Primary => set_maps m (combined_costmap s) s
  | Combined => set_maps (primary_costmap s) m s
  end.

(** A call on one of the maps, and a call that only reads. *)
Definition on_map (t : Target) (f : costmap -> res costmap) : ST (layered W) () := fun s =>
  match f (target t s) with
  | Ok m => (Ok tt, set_target t m s)
  | Throw e => (Throw e, s)
  | UB => (UB, s)
  end.
Definition reads {A} (f : layered W -> res A) : ST (layered W) A := fun s => (f s, s).
End Updates.

(** The virtual calls of a layer. *)
Class Layers (W : Type) : Type := {
  layer_updateBounds : nat -> f64 -> f64 -> f64 -> ST (layered W) ();
  layer_updateCosts : nat -> Target -> Z -> Z -> Z -> Z -> ST (layered W) ();
  layer_matchSize : nat -> ST (layered W) ();
  layer_onFootprintChanged : nat -> ST (layered W) ();
  layer_isCurrent : nat -> W -> bool;
  layer_isEnabled : nat -> W -> bool }.

Section LayeredCostmap.
Context {W : Type} `{Layers W} (hypot : f64 -> f64 -> f64) (garbage : nat -> Z).
Implicit Types s : layered W.

Definition f64_tenth : f64 := f64_div (f64_of_Z 1) (f64_of_Z 10).

(** [m] is a map built by the default constructor of [Costmap2D]. *)
Definition new (m : costmap) (global_frame : string) (rolling_window track_unknown : bool) (w : W) :
    layered W :=
  let default := if track_unknown then 255 else 0 in
  let m := mk_costmap (size_x m) (size_y m) (resolution m) (origin_x m) (origin_y m) (cells m) default in
  mk_layered m m global_frame rolling_window false
    (mk_bounds f64_zero f64_zero f64_zero f64_zero) 0 0 0 0 [] [] false false
    (f64_of_Z 1) f64_tenth [] w.

Definition addPlugin (plugin : nat) s : layered W := set_layers (plugins s ++ [plugin]) (filters s) s.
Definition addFilter (filter : nat) s : layered W := set_layers (plugins s) (filters s ++ [filter]) s.

Definition isTrackingUnknown s : bool := default_value (combined_costmap s) =? NO_INFORMATION.

Fixpoint for_layers (call : nat -> ST (layered W) ()) (l : list nat) : ST (layered W) () :=
  match l with
  | [] => mret tt
  | i :: l => call i;; for_layers call l
  end.

Definition for_plugins (call : nat -> ST (layered W) ()) : ST (layered W) () :=
  s ← get; for_layers call (plugins s).
Definition for_filters (call : nat -> ST (layered W) ()) : ST (layered W) () :=
  s ← get; for_layers call (filters s).

Definition resizeMap (sx sy : Z) (resol ox oy : f64) (locked : bool) : ST (layered W) () :=
  modify (set_size_locked locked);;
  on_map Primary (Costmap.resizeMap garbage sx sy resol ox oy);;
  on_map Combined (Costmap.resizeMap garbage sx sy resol ox oy);;
  for_plugins layer_matchSize;;
  for_filters layer_matchSize.

Definition isOutofBounds (robot_x robot_y : f64) s : res bool :=
  '(b, _) ← worldToMap robot_x robot_y (combined_costmap s); Ok (negb b).

(** ** [updateMap] *)

(** A rolling window follows the robot. *)
Definition roll (robot_x robot_y : f64) : ST (layered W) () :=
  s ← get;
  if rolling_window s then
    let new_origin_x := f64_sub robot_x (f64_div (getSizeInMetersX (combined_costmap s)) (f64_of_Z 2)) in
    let new_origin_y := f64_sub robot_y (f64_div (getSizeInMetersY (combined_costmap s)) (f64_of_Z 2)) in
    on_map Primary (updateOrigin garbage new_origin_x new_origin_y);;
    on_map Combined (updateOrigin garbage new_origin_x new_origin_y)
  else mret tt.

(** The layers extend the bounds; a layer that shrinks them is only logged. *)
Definition collect (robot_x robot_y robot_yaw : f64) : ST (layered W) () :=
  modify (set_area (mk_bounds f64_highest f64_highest
                      f64_lowest f64_lowest));;
  for_plugins (fun i => layer_updateBounds i robot_x robot_y robot_yaw);;
  for_filters (fun i => layer_updateBounds i robot_x robot_y robot_yaw).

(** Everything before the window is computed; false when there are no layers. *)
Definition prepare (robot_x robot_y robot_yaw : f64) : ST (layered W) bool :=
  roll robot_x robot_y;;
  _ ← reads (isOutofBounds robot_x robot_y);
  s ← get;
  if bool_decide (plugins s = [] /\ filters s = []) then mret false
  else collect robot_x robot_y robot_yaw;; mret true.

(** The window: [x0], [xn], [y0], [yn]. *)
Definition update_window s : res (Z * Z * Z * Z) :=
  let m := combined_costmap s in
  '(x0, y0) ← worldToMapEnforceBounds (min_x (area s)) (min_y (area s)) m;
  '(xn, yn) ← worldToMapEnforceBounds (max_x (area s)) (max_y (area s)) m;
  xn ← chk 32 (xn + 1);
  yn ← chk 32 (yn + 1);
  Ok (Z.max 0 x0, Z.min (wraps 32 (getSizeInCellsX m)) xn,
      Z.max 0 y0, Z.min (wraps 32 (getSizeInCellsY m)) yn).

(** The reset of a map's window; [int] arguments become unsigned. *)
Definition reset_window (t : Target) (x0 xn y0 yn : Z) : ST (layered W) () :=
  on_map t (resetMap (wrapu 32 x0) (wrapu 32 y0) (wrapu 32 xn) (wrapu 32 yn)).

(** [combined_costmap_.copyWindow(primary_costmap_, ...)]. *)
Definition combine (x0 xn y0 yn : Z) : ST (layered W) () :=
  '(copied, m) ← reads (fun s =>
    copyWindow (primary_costmap s) (wrapu 32 x0) (wrapu 32 y0) (wrapu 32 xn) (wrapu 32 yn)
      (wrapu 32 x0) (wrapu 32 y0) (combined_costmap s));
  modify (set_target Combined m);;
  if copied : bool then mret tt else throw runtime_error.

Definition draw (x0 xn y0 yn : Z) : ST (layered W) () :=
  s ← get;
  if bool_decide (filters s = []) then
    reset_window Combined x0 xn y0 yn;;
    for_plugins (fun i => layer_updateCosts i Combined x0 y0 xn yn)
  else
    reset_window Primary x0 xn y0 yn;;
    for_plugins (fun i => layer_updateCosts i Primary x0 y0 xn yn);;
    combine x0 xn y0 yn;;
    for_filters (fun i => layer_updateCosts i Combined x0 y0 xn yn).

Definition updateMap (robot_x robot_y robot_yaw : f64) : ST (layered W) () :=
  go ← prepare robot_x robot_y robot_yaw;
  if negb go then mret tt
  else
    '(x0, xn, y0, yn) ← reads update_window;
    if (xn <? x0) || (yn <? y0) then mret tt
    else
      draw x0 xn y0 yn;;
      modify (set_updated (wrapu 32 x0) (wrapu 32 xn) (wrapu 32 y0) (wrapu 32 yn)).

(** ** Other operations *)

(** [current_ && (layer->isCurrent() || !layer->isEnabled())] over the layers. *)
Definition layers_current (l : list nat) (w : W) (b : bool) : bool :=
  fold_left (fun b i => b && (layer_isCurrent i w || negb (layer_isEnabled i w))) l b.

Definition isCurrent s : bool * layered W :=
  let b := layers_current (filters s) (heap s) (layers_current (plugins s) (heap s) true) in
  (b, set_current b s).

Definition setFootprint (footprint_spec : list Footprint.Point) : ST (layered W) () :=
  let '(inside, outside) := Footprint.calculateMinAndMaxDistances hypot footprint_spec in
  modify (set_footprint footprint_spec inside outside);;
  for_plugins layer_onFootprintChanged;;
  for_filters layer_onFootprintChanged.
End LayeredCostmap.

(** ** What drawing promises *)

(** A map before and after drawing in a window: the other cells and everything
    else of the map are the same. *)
Definition redrawn (i0 j0 i1 j1 : Z) (m m' : costmap) : Prop :=
  exists cs, m' = set_cells cs m /\
    rewritten m m' (fun x y => if in_window i0 j0 i1 j1 x y then cell m' x y else cell m x y).

(** A call draws on map [t], and changes nothing else but the layers. *)
Definition draws {W} (i0 j0 i1 j1 : Z) (t : Target) (s s' : layered W) : Prop :=
  exists w m', s' = set_heap w (set_target t m' s) /\ redrawn i0 j0 i1 j1 (target t s) m'.

(** [layers_ready w sx sy]: the layers fit maps of these sizes. A ready layer draws
    in the window it is given, on the map it is given. *)
Class LayerLaws (W : Type) `{Layers W} : Type := {
  layers_ready : W -> Z -> Z -> Prop;
  layer_draws : forall i t i0 j0 i1 j1 s,
    wf (target t s) -> fits i0 j0 i1 j1 (target t s) ->
    layers_ready (heap s) (size_x (target t s)) (size_y (target t s)) ->
    exists s', layer_updateCosts i t i0 j0 i1 j1 s = (Ok tt, s') /\ draws i0 j0 i1 j1 t s s' /\
      layers_ready (heap s') (size_x (target t s)) (size_y (target t s)) }.

Lemma redrawn_of i0 j0 i1 j1 m cs f :
  rewritten m (set_cells cs m) f ->
  (forall x y, inside m x y -> in_window i0 j0 i1 j1 x y = false -> f x y = cell m x y) ->
  redrawn i0 j0 i1 j1 m (set_cells cs m).
Proof.
  intros (Hwf & Hx & Hy & Hc) Hout. exists cs. split; [done|]. repeat split; try done; try apply Hwf.
  intros x y Hin. destruct (in_window i0 j0 i1 j1 x y) eqn:Hw; [done|]. rewrite Hc by done. by apply Hout.
Qed.

Lemma redrawn_refl i0 j0 i1 j1 m : wf m -> redrawn i0 j0 i1 j1 m m.
Proof.
  intros Hwf. exists (cells m). split; [by destruct m|]. repeat split; try done; try apply Hwf.
  intros x y _. by destruct (in_window _ _ _ _ x y).
Qed.

Lemma redrawn_trans i0 j0 i1 j1 m1 m2 m3 :
  redrawn i0 j0 i1 j1 m1 m2 -> redrawn i0 j0 i1 j1 m2 m3 -> redrawn i0 j0 i1 j1 m1 m3.
Proof.
  intros (c1 & -> & Hr1) (c2 & -> & Hr2). destruct Hr1 as (_ & _ & _ & Hc1).
  destruct Hr2 as (Hwf & _ & _ & Hc2). exists c2. split; [done|].
  split; [done|]. split; [done|]. split; [done|]. intros x y Hin.
  change (set_cells c2 m1) with (set_cells c2 (set_cells c1 m1)).
  rewrite Hc2, Hc1 by done. by destruct (in_window _ _ _ _ x y).
Qed.

Lemma redrawn_frame i0 j0 i1 j1 m m' : redrawn i0 j0 i1 j1 m m' ->
  wf m' /\ size_x m' = size_x m /\ size_y m' = size_y m /\ default_value m' = default_value m /\
  forall x y, inside m x y -> in_window i0 j0 i1 j1 x y = false -> cell m' x y = cell m x y.
Proof.
  intros (cs & -> & Hwf & Hx & Hy & Hc). do 4 (split; [done|]).
  intros x y Hin Hw. rewrite Hc by done. by rewrite Hw.
Qed.

(** A map drawn on by two calls in turn. *)
Lemma draws_trans {W} i0 j0 i1 j1 t (s1 s2 s3 : layered W) :
  draws i0 j0 i1 j1 t s1 s2 -> draws i0 j0 i1 j1 t s2 s3 -> draws i0 j0 i1 j1 t s1 s3.
Proof.
  intros (w1 & m1 & -> & H1) (w2 & m2 & -> & H2). exists w2, m2.
  split; [by destruct t|]. eapply redrawn_trans; [exact H1|]. by destruct t.
Qed.

Section Drawing.
Context {W : Type} `{LayerLaws W}.
Implicit Types s : layered W.

Lemma for_layers_draws i0 j0 i1 j1 t l : forall s,
  wf (target t s) -> fits i0 j0 i1 j1 (target t s) ->
  layers_ready (heap s) (size_x (target t s)) (size_y (target t s)) ->
  exists s', for_layers (fun i => layer_updateCosts i t i0 j0 i1 j1) l s = (Ok tt, s') /\
    draws i0 j0 i1 j1 t s s' /\
    layers_ready (heap s') (size_x (target t s)) (size_y (target t s)).
Proof.
  induction l as [|i l IH]; intros s Hwf Hfit Hready.
  - exists s. split; [done|]. split; [|done]. exists (heap s), (target t s).
    split; [by destruct s, t|by apply redrawn_refl].
  - destruct (layer_draws i t i0 j0 i1 j1 s Hwf Hfit Hready) as (s1 & Hs1 & Hd1 & Hr1).
    pose proof Hd1 as (w & m1 & Heq & Hm1).
    assert (target t s1 = m1) as Ht by (by subst s1; destruct t).
    destruct (redrawn_frame _ _ _ _ _ _ Hm1) as (Hwf1 & Hx1 & Hy1 & _).
    rewrite <- Ht in Hwf1, Hx1, Hy1. rewrite <- Hx1, <- Hy1 in Hr1.
    destruct (IH s1) as (s' & Hs' & Hd' & Hr'); [done| |done|].
    { unfold fits in *. by rewrite Hx1, Hy1. }
    exists s'. cbn [for_layers]. expose. rewrite Hs1. split; [exact Hs'|].
    split; [by eapply draws_trans|]. by rewrite <- Hx1, <- Hy1.
Qed.

(** The unsigned conversions of a window inside a map. *)
Lemma window_unsigned i0 j0 i1 j1 m : wf m -> fits i0 j0 i1 j1 m ->
  wrapu 32 i0 = i0 /\ wrapu 32 j0 = j0 /\ wrapu 32 i1 = i1 /\ wrapu 32 j1 = j1.
Proof. intros [] (? & ? & ? & ?). repeat split; apply wrapu_id; unfold in_u; lia. Qed.

Lemma reset_window_draws i0 j0 i1 j1 t s :
  wf (target t s) -> fits i0 j0 i1 j1 (target t s) ->
  size_x (target t s) * size_y (target t s) + size_x (target t s) < 2 ^ 32 ->
  exists s', reset_window t i0 i1 j0 j1 s = (Ok tt, s') /\ draws i0 j0 i1 j1 t s s' /\
    heap s' = heap s /\
    forall x y, inside (target t s) x y -> in_window i0 j0 i1 j1 x y = true ->
      cell (target t s') x y = Some (default_value (target t s)).
Proof.
  intros Hwf Hfit Hbig. destruct (window_unsigned _ _ _ _ _ Hwf Hfit) as (E1 & E2 & E3 & E4).
  destruct Hfit as (? & ? & ? & ?). pose proof Hwf as [? ? ? _ _ ?].
  unfold reset_window, on_map, resetMap. rewrite E1, E2, E3, E4.
  destruct (resetMapToValue_spec (target t s) i0 j0 i1 j1 (default_value (target t s)))
    as (l & -> & Hr); [done|done|lia|lia|lia|lia|nia|].
  eexists. split; [done|]. split; [|split; [by destruct t|]].
  - exists (heap s), (set_cells l (target t s)). split; [by destruct t|].
    eapply redrawn_of; [exact Hr|]. intros x y _ Hw. cbv beta. unfold in_window in Hw. by rewrite Hw.
  - intros x y Hin Hw. destruct Hr as (_ & _ & _ & Hc).
    replace (target t _) with (set_cells l (target t s)) by (by destruct t).
    rewrite Hc by done. unfold in_window in Hw. by rewrite Hw.
Qed.

Lemma combine_draws i0 j0 i1 j1 s :
  wf (primary_costmap s) -> wf (combined_costmap s) ->
  size_x (primary_costmap s) = size_x (combined_costmap s) ->
  size_y (primary_costmap s) = size_y (combined_costmap s) ->
  fits i0 j0 i1 j1 (combined_costmap s) ->
  exists s', combine i0 i1 j0 j1 s = (Ok tt, s') /\ draws i0 j0 i1 j1 Combined s s' /\
    heap s' = heap s /\
    forall x y, inside (combined_costmap s) x y -> in_window i0 j0 i1 j1 x y = true ->
      cell (combined_costmap s') x y = cell (primary_costmap s) x y.
Proof.
  intros Hp Hc Hx Hy Hfit. destruct (window_unsigned _ _ _ _ _ Hc Hfit) as (E1 & E2 & E3 & E4).
  destruct Hfit as (? & ? & ? & ?). pose proof Hc as [? ? ? _ _ _].
  unfold combine, reads, modify. expose. rewrite E1, E2, E3, E4.
  pose proof (copyWindow_spec (primary_costmap s) (combined_costmap s) i0 j0 i1 j1 i0 j0 Hc Hp
    ltac:(lia) ltac:(lia) ltac:(lia) ltac:(lia) ltac:(lia) ltac:(lia)) as Hw.
  rewrite bool_decide_eq_true_2 in Hw by lia. destruct Hw as (l & -> & Hr).
  eexists. split; [done|]. split; [|split; [done|]].
  - exists (heap s), (set_cells l (combined_costmap s)). split; [done|].
    eapply redrawn_of; [exact Hr|]. intros x y _ Hw. cbv beta. unfold in_window in Hw. by rewrite Hw.
  - intros x y Hin Hw. destruct Hr as (_ & _ & _ & Hv).
    change (combined_costmap _) with (set_cells l (combined_costmap s)).
    rewrite Hv by done. unfold in_window in Hw. rewrite Hw. f_equal; lia.
Qed.
End Drawing.

(** The window lies in the map as soon as its ends are in order. *)
Lemma update_window_fits {W} (s : layered W) x0 xn y0 yn :
  wf (combined_costmap s) -> update_window s = Ok (x0, xn, y0, yn) -> x0 <= xn -> y0 <= yn ->
  fits x0 y0 xn yn (combined_costmap s).
Proof.
  intros [] Hw Hx Hy. unfold update_window, getSizeInCellsX, getSizeInCellsY in Hw. res_inv.
  rewrite !wraps_id in * by (unfold in_s; lia). unfold fits. lia.
Qed.

(** [s'] is [s] with the window of map [t] filled by [v]. *)
Definition starts {W} (i0 j0 i1 j1 : Z) (t : Target) (v : Z -> Z -> option Z) (s s' : layered W) : Prop :=
  draws i0 j0 i1 j1 t s s' /\ heap s' = heap s /\
  forall x y, inside (target t s) x y -> in_window i0 j0 i1 j1 x y = true ->
    cell (target t s') x y = v x y.

(** The layers of [l] drawn on map [t] in order. *)
Definition layers_drawn {W} `{Layers W} (i0 j0 i1 j1 : Z) (t : Target) (l : list nat)
    (s s' : layered W) : Prop :=
  for_layers (fun i => layer_updateCosts i t i0 j0 i1 j1) l s = (Ok tt, s') /\
  draws i0 j0 i1 j1 t s s'.

(** What a drawing pass leaves alone. *)
Lemma draws_others {W} i0 j0 i1 j1 t (s s' : layered W) : draws i0 j0 i1 j1 t s s' ->
  plugins s' = plugins s /\ filters s' = filters s /\
  match t with
  | Primary => combined_costmap s' = combined_costmap s
  | Combined => primary_costmap s' = primary_costmap s
  end.
Proof. intros (w & m & -> & _). by destruct t. Qed.

Lemma draws_target {W} i0 j0 i1 j1 t (s s' : layered W) : draws i0 j0 i1 j1 t s s' ->
  redrawn i0 j0 i1 j1 (target t s) (target t s').
Proof. intros (w & m & -> & Hm). by destruct t. Qed.

Section Update.
Context {W : Type} `{LayerLaws W}.
Context (s1 : layered W) (x0 xn y0 yn : Z).
Hypothesis Hp : wf (primary_costmap s1).
Hypothesis Hc : wf (combined_costmap s1).
Hypothesis Hsx : size_x (primary_costmap s1) = size_x (combined_costmap s1).
Hypothesis Hsy : size_y (primary_costmap s1) = size_y (combined_costmap s1).
Hypothesis Hbig : size_x (combined_costmap s1) * size_y (combined_costmap s1) +
                  size_x (combined_costmap s1) < 2 ^ 32.
Hypothesis Hready : layers_ready (heap s1) (size_x (combined_costmap s1)) (size_y (combined_costmap s1)).
Hypothesis Hfit : fits x0 y0 xn yn (combined_costmap s1).

(** Reset and plugins: the pass on map [t]. *)
Lemma plugins_pass t : exists sr sd,
  (reset_window t x0 xn y0 yn;; for_plugins (fun i => layer_updateCosts i t x0 y0 xn yn)) s1 = (Ok tt, sd) /\
  starts x0 y0 xn yn t (fun _ _ => Some (default_value (target t s1))) s1 sr /\
  layers_drawn x0 y0 xn yn t (plugins s1) sr sd /\ draws x0 y0 xn yn t s1 sd /\
  layers_ready (heap sd) (size_x (combined_costmap s1)) (size_y (combined_costmap s1)).
Proof.
  assert (wf (target t s1)) as Hwt by by destruct t.
  assert (size_x (target t s1) = size_x (combined_costmap s1)) as Hxt by by destruct t.
  assert (size_y (target t s1) = size_y (combined_costmap s1)) as Hyt by by destruct t.
  assert (fits x0 y0 xn yn (target t s1)) as Hft by (unfold fits; by rewrite Hxt, Hyt).
  destruct (reset_window_draws x0 y0 xn yn t s1 Hwt Hft) as (sr & Hsr & Hdr & Hh & Hv);
    [by rewrite Hxt, Hyt|].
  destruct (redrawn_frame _ _ _ _ _ _ (draws_target _ _ _ _ _ _ _ Hdr)) as (Hwr & Hxr & Hyr & _).
  destruct (for_layers_draws x0 y0 xn yn t (plugins sr) sr) as (sd & Hsd & Hdd & Hrd);
    [done|unfold fits; by rewrite Hxr, Hyr, Hxt, Hyt|by rewrite Hh, Hxr, Hyr, Hxt, Hyt|].
  rewrite Hxr, Hyr, Hxt, Hyt in Hrd.
  pose proof (proj1 (draws_others _ _ _ _ _ _ _ Hdr)) as Hpl.
  exists sr, sd. split.
  { expose. rewrite Hsr. unfold for_plugins, get. expose. exact Hsd. }
  split; [done|]. rewrite Hpl in Hsd. split; [done|]. split; [|done].
  by eapply draws_trans.
Qed.

(** The copy to the combined map and the filters. *)
Lemma filters_pass sd :
  draws x0 y0 xn yn Primary s1 sd ->
  layers_ready (heap sd) (size_x (combined_costmap s1)) (size_y (combined_costmap s1)) ->
  exists sc sf,
    (combine x0 xn y0 yn;; for_filters (fun i => layer_updateCosts i Combined x0 y0 xn yn)) sd = (Ok tt, sf) /\
    starts x0 y0 xn yn Combined (cell (primary_costmap sd)) sd sc /\
    layers_drawn x0 y0 xn yn Combined (filters s1) sc sf /\ draws x0 y0 xn yn Combined sd sf.
Proof.
  intros Hd Hrd. pose proof (draws_others _ _ _ _ _ _ _ Hd) as (_ & Hfl & Hcd).
  destruct (redrawn_frame _ _ _ _ _ _ (draws_target _ _ _ _ _ _ _ Hd)) as (Hwd & Hxd & Hyd & _).
  simpl in Hwd, Hxd, Hyd.
  destruct (combine_draws x0 y0 xn yn sd) as (sc & Hsc & Hdc & Hh & Hv);
    [done|by rewrite Hcd|congruence|congruence|by rewrite Hcd|].
  destruct (redrawn_frame _ _ _ _ _ _ (draws_target _ _ _ _ _ _ _ Hdc)) as (Hwc & Hxc & Hyc & _).
  simpl in Hwc, Hxc, Hyc. rewrite Hcd in Hxc, Hyc.
  destruct (for_layers_draws x0 y0 xn yn Combined (filters sc) sc) as (sf & Hsf & Hdf & _);
    simpl; [done|unfold fits; by rewrite Hxc, Hyc|by rewrite Hh, Hxc, Hyc|].
  pose proof (draws_others _ _ _ _ _ _ _ Hdc) as (_ & Hfc & _).
  exists sc, sf. split; [expose; rewrite Hsc; unfold for_filters, get; expose; exact Hsf|].
  split; [done|]. rewrite Hfc, Hfl in Hsf. split; [done|]. by eapply draws_trans.
Qed.
End Update.

(** What an update of the window does, from the state [s1] that [prepare] leaves. *)
Definition updated {W} `{Layers W} (s1 : layered W) (x0 xn y0 yn : Z) (s' : layered W) : Prop :=
  let fresh t := fun _ _ => Some (default_value (target t s1)) in
  fits x0 y0 xn yn (combined_costmap s1) /\
  (bx0 s', bxn s', by0 s', byn s') = (x0, xn, y0, yn) /\ initialized s' = true /\
  redrawn x0 y0 xn yn (combined_costmap s1) (combined_costmap s') /\
  redrawn x0 y0 xn yn (primary_costmap s1) (primary_costmap s') /\
  if bool_decide (filters s1 = []) then
    primary_costmap s' = primary_costmap s1 /\
    exists sr sd, starts x0 y0 xn yn Combined (fresh Combined) s1 sr /\
      layers_drawn x0 y0 xn yn Combined (plugins s1) sr sd /\
      combined_costmap s' = combined_costmap sd
  else
    exists sr sd sc sf, starts x0 y0 xn yn Primary (fresh Primary) s1 sr /\
      layers_drawn x0 y0 xn yn Primary (plugins s1) sr sd /\
      primary_costmap s' = primary_costmap sd /\
      starts x0 y0 xn yn Combined (cell (primary_costmap sd)) sd sc /\
      layers_drawn x0 y0 xn yn Combined (filters s1) sc sf /\
      combined_costmap s' = combined_costmap sf.

(** Both maps well formed, of the same sizes, and the layers ready for them. *)
Record drawable {W} `{LayerLaws W} (s : layered W) : Prop := {
  drawable_primary : wf (primary_costmap s);
  drawable_combined : wf (combined_costmap s);
  drawable_x : size_x (primary_costmap s) = size_x (combined_costmap s);
  drawable_y : size_y (primary_costmap s) = size_y (combined_costmap s);
  drawable_size : size_x (combined_costmap s) * size_y (combined_costmap s) +
                  size_x (combined_costmap s) < 2 ^ 32;
  drawable_layers : layers_ready (heap s) (size_x (combined_costmap s)) (size_y (combined_costmap s)) }.

Lemma updateMap_spec {W} `{LayerLaws W} garbage robot_x robot_y robot_yaw
  (s s1 : layered W) x0 xn y0 yn :
  prepare garbage robot_x robot_y robot_yaw s = (Ok true, s1) -> drawable s1 ->
  update_window s1 = Ok (x0, xn, y0, yn) ->
  if bool_decide (xn < x0 \/ yn < y0)
  then updateMap garbage robot_x robot_y robot_yaw s = (Ok tt, s1)
  else exists s', updateMap garbage robot_x robot_y robot_yaw s = (Ok tt, s') /\
    updated s1 x0 xn y0 yn s'.
Proof.
  intros Hprep [Hp Hc Hsx Hsy Hbig Hready] Hwin. unfold updateMap. expose. rewrite Hprep. cbn [negb]. unfold reads. rewrite Hwin. cbv beta iota.
  case_bool_decide as Hempty.
  { destruct (Z.ltb_spec xn x0), (Z.ltb_spec yn y0); cbn [orb]; done || lia. }
  rewrite !(proj2 (Z.ltb_ge _ _)) by lia. cbn [orb].
  pose proof (update_window_fits s1 x0 xn y0 yn Hc Hwin ltac:(lia) ltac:(lia)) as Hfit.
  destruct (window_unsigned _ _ _ _ _ Hc Hfit) as (E1 & E2 & E3 & E4).
  unfold draw, get, modify. expose. case_bool_decide as Hfil.
  - destruct (plugins_pass s1 x0 xn y0 yn Hp Hc Hsx Hsy Hbig Hready Hfit Combined)
      as (sr & sd & Hrun & Hst & Hld & Hd & _).
    expose in Hrun. rewrite Hrun. eexists. split; [done|]. unfold updated. cbv zeta.
    pose proof (draws_others _ _ _ _ _ _ _ Hd) as (_ & _ & Hpd).
    pose proof (draws_target _ _ _ _ _ _ _ Hd) as Ht.
    split; [done|]. split; [simpl; congruence|]. split; [done|]. split; [exact Ht|].
    split; [cbn; rewrite Hpd; by apply redrawn_refl|]. rewrite bool_decide_eq_true_2 by done.
    split; [exact Hpd|]. by exists sr, sd.
  - destruct (plugins_pass s1 x0 xn y0 yn Hp Hc Hsx Hsy Hbig Hready Hfit Primary)
      as (sr & sd & Hrun & Hst & Hld & Hd & Hrd).
    destruct (filters_pass s1 x0 xn y0 yn Hc Hsx Hsy Hfit sd Hd Hrd)
      as (sc & sf & Hrun' & Hst' & Hld' & Hd').
    expose in Hrun. expose in Hrun'.
    destruct (reset_window Primary x0 xn y0 yn s1) as [[[]| |] sr']; try discriminate.
    rewrite Hrun. rewrite Hrun'. eexists. split; [done|]. unfold updated. cbv zeta.
    pose proof (draws_others _ _ _ _ _ _ _ Hd) as (_ & _ & Hcd).
    pose proof (draws_others _ _ _ _ _ _ _ Hd') as (_ & _ & Hpf).
    pose proof (draws_target _ _ _ _ _ _ _ Hd) as Ht.
    pose proof (draws_target _ _ _ _ _ _ _ Hd') as Ht'. simpl in Ht, Ht'. rewrite Hcd in Ht'.
    split; [done|]. split; [simpl; congruence|]. split; [done|]. split; [exact Ht'|].
    split; [cbn; by rewrite Hpf|].
    rewrite bool_decide_eq_false_2 by done. exists sr, sd, sc, sf.
    do 2 (split; [done|]). split; [exact Hpf|done].
Qed.

(** ** Layers that only merge *)

(** The choice of a rule by a layer's combination method, as [ObstacleLayer] makes it. *)
Definition update_by (method : CombinationMethod) : Z -> Z -> Z -> Z -> layer -> costmap -> res costmap :=
  match method with
  | Overwrite => updateWithOverwrite
  | Max => updateWithMax
  | MaxWithoutUnknownOverwrite => updateWithMaxWithoutUnknownOverwrite
  end.

Definition rule_by (method : CombinationMethod) : Z -> Z -> Z :=
  match method with
  | Overwrite => overwrite_rule
  | Max => max_rule
  | MaxWithoutUnknownOverwrite => max_known_rule
  end.

Lemma update_by_spec method i0 j0 i1 j1 l m : matched l m -> fits i0 j0 i1 j1 m -> enabled l = true ->
  merged_by (rule_by method) i0 j0 i1 j1 l m (update_by method i0 j0 i1 j1 l m).
Proof.
  intros Hm Hf He. destruct method; cbn [update_by rule_by];
    unfold updateWithOverwrite, updateWithMax, updateWithMaxWithoutUnknownOverwrite; rewrite He;
    cbn [negb]; apply merge_spec; auto using overwrite_merges, max_merges, max_known_merges.
Qed.

Lemma update_by_disabled method i0 j0 i1 j1 l m : enabled l = false ->
  update_by method i0 j0 i1 j1 l m = Ok m.
Proof.
  intros He. destruct method; cbn [update_by];
    unfold updateWithOverwrite, updateWithMax, updateWithMaxWithoutUnknownOverwrite; by rewrite He.
Qed.

(** Heaps of layers that have no code but that of [CostmapLayer]: a pointer gives a
    method and a layer. *)
Definition stack : Type := nat -> CombinationMethod * layer.

Definition set_layer (i : nat) (l : layer) (w : stack) : stack :=
  fun k => if bool_decide (k = i) then (fst (w i), l) else w k.

#[export] Instance merge_layers (garbage : nat -> Z) : Layers stack := {
  layer_updateBounds i _ _ _ := fun s =>
    let '(b, l) := useExtraBounds (area s) (snd (heap s i)) in
    (Ok tt, set_area b (set_heap (set_layer i l (heap s)) s));
  layer_updateCosts i t i0 j0 i1 j1 := fun s =>
    on_map t (update_by (fst (heap s i)) i0 j0 i1 j1 (snd (heap s i))) s;
  layer_matchSize i := fun s =>
    match matchSize garbage (combined_costmap s) (snd (heap s i)) with
    | Ok l => (Ok tt, set_heap (set_layer i l (heap s)) s)
    | Throw e => (Throw e, s)
    | UB => (UB, s)
    end;
  layer_onFootprintChanged i := mret tt;
  layer_isCurrent i w := CostmapLayer.current (snd (w i));
  layer_isEnabled i w := enabled (snd (w i)) }.

Definition stack_ready (w : stack) (sx sy : Z) : Prop :=
  forall i, wf (own (snd (w i))) /\ size_x (own (snd (w i))) = sx /\ size_y (own (snd (w i))) = sy.

(** The cell a layer of the stack leaves, from the one it finds. *)
Definition paint (x y : Z) (w : stack) (old : option Z) (i : nat) : option Z :=
  if enabled (snd (w i))
  then o ← old; c ← cell (own (snd (w i))) x y; Some (rule_by (fst (w i)) o c)
  else old.

Lemma stack_draws garbage i t i0 j0 i1 j1 (s : layered stack) :
  wf (target t s) -> fits i0 j0 i1 j1 (target t s) ->
  stack_ready (heap s) (size_x (target t s)) (size_y (target t s)) ->
  exists s', layer_updateCosts (Layers := merge_layers garbage) i t i0 j0 i1 j1 s = (Ok tt, s') /\
    draws i0 j0 i1 j1 t s s' /\ heap s' = heap s /\
    forall x y, inside (target t s) x y -> in_window i0 j0 i1 j1 x y = true ->
      cell (target t s') x y = paint x y (heap s) (cell (target t s) x y) i.
Proof.
  intros Hwf Hfit Hready. destruct (Hready i) as (Hwl & Hx & Hy).
  cbn [layer_updateCosts merge_layers]. unfold on_map, paint.
  destruct (enabled (snd (heap s i))) eqn:He.
  - destruct (update_by_spec (fst (heap s i)) i0 j0 i1 j1 (snd (heap s i)) (target t s))
      as (cs & -> & Hr); [by split|done|done|].
    eexists. split; [done|]. split; [|split; [by destruct t|]].
    + exists (heap s), (set_cells cs (target t s)). split; [by destruct t|].
      eapply redrawn_of; [exact Hr|]. intros x y _ Hw. cbv beta. by rewrite Hw.
    + intros x y Hin Hw. destruct Hr as (_ & _ & _ & Hc).
      replace (target t (set_target t _ s)) with (set_cells cs (target t s)) by (by destruct t).
      rewrite Hc by done. by rewrite Hw.
  - rewrite update_by_disabled by done. eexists. split; [done|].
    split; [|split; [by destruct t|intros; by destruct t]].
    exists (heap s), (target t s). split; [by destruct t|by apply redrawn_refl].
Qed.

#[export] Instance merge_layers_laws garbage : LayerLaws stack (H := merge_layers garbage).
Proof.
  refine {| layers_ready := stack_ready |}. intros i t i0 j0 i1 j1 s Hwf Hfit Hready.
  destruct (stack_draws garbage i t i0 j0 i1 j1 s Hwf Hfit Hready) as (s' & Hs & Hd & Hh & _).
  exists s'. by rewrite Hh.
Defined.

Lemma stack_drawn garbage i0 j0 i1 j1 t l : forall (s s' : layered stack),
  wf (target t s) -> fits i0 j0 i1 j1 (target t s) ->
  stack_ready (heap s) (size_x (target t s)) (size_y (target t s)) ->
  for_layers (fun i => layer_updateCosts (Layers := merge_layers garbage) i t i0 j0 i1 j1) l s = (Ok tt, s') ->
  forall x y, inside (target t s) x y -> in_window i0 j0 i1 j1 x y = true ->
    cell (target t s') x y = fold_left (paint x y (heap s)) l (cell (target t s) x y).
Proof.
  induction l as [|i l IH]; intros s s' Hwf Hfit Hready Hrun x y Hin Hw.
  - by injection Hrun as <-.
  - destruct (stack_draws garbage i t i0 j0 i1 j1 s Hwf Hfit Hready) as (s1 & Hs1 & Hd & Hh & Hc).
    cbn [for_layers] in Hrun. expose in Hrun. rewrite Hs1 in Hrun.
    destruct (redrawn_frame _ _ _ _ _ _ (draws_target _ _ _ _ _ _ _ Hd)) as (Hwf1 & Hx1 & Hy1 & _).
    cbn [fold_left]. rewrite <- (Hc x y Hin Hw), <- Hh.
    apply IH; unfold fits, inside; rewrite ?Hx1, ?Hy1, ?Hh; done.
Qed.

(** ** Properties *)

(** An update redraws the window that the layers asked for, and only that. Take
    the state [prepare] leaves (the rolled window and the collected bounds), with both
    maps well formed and of the same sizes and the layers ready. If the window's ends
    are out of order nothing is drawn. Otherwise the window lies in the map, the
    update ends normally and never throws, records the window, and outside of it no
    map changes. Without filters the combined map is reset in the window and the plugins
    draw on it in order, and the primary map keeps its cells. With filters the plugins
    draw on the primary map after its reset, the window is copied to the combined map,
    and the filters draw there only: the primary map never sees them. *)
Theorem layered_update_map {W} `{LayerLaws W} garbage robot_x robot_y robot_yaw
  (s s1 : layered W) x0 xn y0 yn
  (Hprep : prepare garbage robot_x robot_y robot_yaw s = (Ok true, s1)) (Hok : drawable s1)
  (Hwin : update_window s1 = Ok (x0, xn, y0, yn)) :
  if bool_decide (xn < x0 \/ yn < y0)
  then updateMap garbage robot_x robot_y robot_yaw s = (Ok tt, s1)
  else exists s', updateMap garbage robot_x robot_y robot_yaw s = (Ok tt, s') /\
    updated s1 x0 xn y0 yn s'.
Proof. by apply updateMap_spec. Qed.

(** C40: The master grid is the stack of its layers. Let the layers be merge layers (their only code is that of
    [CostmapLayer]), let there be no filters, let the first part of the update have left both maps and those of the
    layers well formed and of one size ([prepare], [drawable]), and let the ends of the window it found be in order. Then
    the update ends without an error, gives each cell of the window the
    value obtained by folding the rules of the enabled layers, in the order they
    were added, over the default value, and keeps every other cell. *)
Theorem layered_stack garbage robot_x robot_y robot_yaw (s s1 : layered stack) x0 xn y0 yn
  (Hprep : prepare (H := merge_layers garbage) garbage robot_x robot_y robot_yaw s = (Ok true, s1))
  (Hok : drawable (H := merge_layers garbage) s1) (Hfil : filters s1 = [])
  (Hwin : update_window s1 = Ok (x0, xn, y0, yn)) (Hx : x0 <= xn) (Hy : y0 <= yn) :
  exists s', updateMap (H := merge_layers garbage) garbage robot_x robot_y robot_yaw s = (Ok tt, s') /\
    forall x y, inside (combined_costmap s1) x y ->
      cell (combined_costmap s') x y =
        if in_window x0 y0 xn yn x y
        then fold_left (paint x y (heap s1)) (plugins s1) (Some (default_value (combined_costmap s1)))
        else cell (combined_costmap s1) x y.
Proof.
  pose proof (updateMap_spec garbage robot_x robot_y robot_yaw s s1 x0 xn y0 yn Hprep Hok Hwin) as Hup.
  rewrite bool_decide_eq_false_2 in Hup by lia. destruct Hup as (s' & Hs' & Hfit & _ & _ & Hrd & _ & Hd).
  exists s'. split; [exact Hs'|]. rewrite bool_decide_eq_true_2 in Hd by done.
  destruct Hd as (_ & sr & sd & (Hdr & Hh & Hfresh) & (Hrun & _) & Heq).
  intros x y Hin. destruct (in_window x0 y0 xn yn x y) eqn:Hw.
  - pose proof (drawable_layers _ Hok) as Hready.
    destruct (redrawn_frame _ _ _ _ _ _ (draws_target _ _ _ _ _ _ _ Hdr)) as (Hwr & Hxr & Hyr & _).
    simpl in Hwr, Hxr, Hyr.
    rewrite Heq. change (combined_costmap sd) with (target Combined sd).
    rewrite (stack_drawn garbage x0 y0 xn yn Combined (plugins s1) sr sd); simpl; try done.
    + pose proof (Hfresh x y Hin Hw) as Hv. simpl in Hv. by rewrite Hv, Hh.
    + unfold fits. by rewrite Hxr, Hyr.
    + rewrite Hh, Hxr, Hyr. exact Hready.
    + unfold inside. by rewrite Hxr, Hyr.
  - by apply (redrawn_frame _ _ _ _ _ _ Hrd).
Qed.

(** ** Two layers on a small map *)

Definition demo_garbage (_ : nat) : Z := 200.

Definition demo_first : layer :=
  addExtraBounds f64_half f64_zero (f64_of_Z 1) f64_half demo_layer.
Definition demo_second : layer :=
  set_own (mk_costmap 4 3 f64_half f64_zero f64_zero (replicate 12 100) 255) demo_layer.

Definition demo_stack : stack := fun i =>
  match i with O => (Overwrite, demo_first) | _ => (Max, demo_second) end.

(** The layers [ps] as plugins and [fs] as filters over a map of unknown cost. *)
Definition demo_state (ps fs : list nat) : layered stack :=
  set_layers ps fs (set_maps demo_map demo_map
    (new (mk_costmap 4 3 f64_half f64_zero f64_zero (replicate 12 255) 0) "map" false true demo_stack)).

Definition demo_prepared (ps fs : list nat) : layered stack :=
  snd (prepare (H := merge_layers demo_garbage) demo_garbage f64_half f64_half f64_zero (demo_state ps fs)).

Lemma demo_stack_ready w : (forall i, snd (w i) = set_own (own (snd (demo_stack i))) (snd (w i))) ->
  stack_ready w 4 3.
Proof.
  intros Hw i. rewrite Hw. cbn [own set_own].
  destruct i as [|i]; (split; [split; solve_decide|done]).
Qed.

Lemma demo_prepared_drawable ps fs : (ps, fs) = ([0%nat; 1%nat], []) \/ (ps, fs) = ([0%nat], [1%nat]) ->
  drawable (H := merge_layers demo_garbage) (demo_prepared ps fs).
Proof.
  intros [[= -> ->]|[= -> ->]];
    (split; [apply demo_map_wf|apply demo_map_wf|done|done|done|apply demo_stack_ready; by intros [|[|i]]]).
Qed.

Lemma demo_prepare ps fs :
  fst (prepare (H := merge_layers demo_garbage) demo_garbage f64_half f64_half f64_zero
    (demo_state ps fs)) = Ok true ->
  prepare (H := merge_layers demo_garbage) demo_garbage f64_half f64_half f64_zero (demo_state ps fs) =
    (Ok true, demo_prepared ps fs).
Proof.
  unfold demo_prepared. destruct (prepare _ _ _ _ (demo_state ps fs)) as [r s]. by intros [= ->].
Qed.

Lemma layered_update_map_witness :
  exists s', updateMap (H := merge_layers demo_garbage) demo_garbage f64_half f64_half f64_zero
      (demo_state [0%nat] [1%nat]) = (Ok tt, s') /\
    updated (H := merge_layers demo_garbage) (demo_prepared [0%nat] [1%nat]) 1 3 0 2 s'.
Proof.
  assert (Hprep := demo_prepare [0%nat] [1%nat] ltac:(vm_compute; reflexivity)).
  assert (update_window (demo_prepared [0%nat] [1%nat]) = Ok (1, 3, 0, 2)) as Hwin
    by (vm_compute; reflexivity).
  exact (layered_update_map (H := merge_layers demo_garbage) demo_garbage f64_half f64_half f64_zero _ _
    1 3 0 2 Hprep (demo_prepared_drawable _ _ (or_intror eq_refl)) Hwin).
Defined.

Lemma layered_stack_witness :
  exists s', updateMap (H := merge_layers demo_garbage) demo_garbage f64_half f64_half f64_zero
      (demo_state [0%nat; 1%nat] []) = (Ok tt, s') /\
    cell (combined_costmap s') 1 0 = Some 100 /\ cell (combined_costmap s') 2 0 = Some 253.
Proof.
  assert (Hprep := demo_prepare [0%nat; 1%nat] [] ltac:(vm_compute; reflexivity)).
  assert (update_window (demo_prepared [0%nat; 1%nat] []) = Ok (1, 3, 0, 2)) as Hwin
    by (vm_compute; reflexivity).
  destruct (layered_stack demo_garbage f64_half f64_half f64_zero _ _ 1 3 0 2 Hprep
    (demo_prepared_drawable _ _ (or_introl eq_refl)) eq_refl Hwin ltac:(lia) ltac:(lia)) as (s' & Hs' & Hc).
  exists s'. split; [exact Hs'|]. split.
  - etransitivity; [exact (Hc 1 0 ltac:(solve_decide))|].
    vm_compute. reflexivity.
  - etransitivity; [exact (Hc 2 0 ltac:(solve_decide))|].
    vm_compute. reflexivity.
Defined.

End LayeredCostmap.
