(* ===== verification/FloatOrder.v ===== *)
(** * Sums of non-negative floating point numbers

    A valid non-negative number of a binary format is a whole number of its smallest
    units, [units]. The order of the numbers is the order of their units, and the sum
    rounds the sum of the units to the nearest representable one. Hence the sum is
    monotone and does not go below its operands, although it is not exact. *)

From stdpp Require Import base option list numbers.
From Stdlib Require Import ZArith Lia SpecFloat.
From S2P Require Import Prelude.

(** ** Rounding integers *)

(** [a / 2^k] to the nearest integer, ties to even. *)
Definition rne (a k : Z) : Z :=
  let m := a / 2 ^ k in
  let r := a mod 2 ^ k in
  if 2 * r <? 2 ^ k then m
  else if 2 * r =? 2 ^ k then if Z.even m then m else m + 1
  else m + 1.

Lemma rne_near a k : 0 <= k -> - 2 ^ k <= 2 * (rne a k * 2 ^ k - a) <= 2 ^ k.
Proof.
  intros Hk. pose proof (Z.pow_pos_nonneg 2 k ltac:(lia) Hk) as Hp.
  pose proof (Z.div_mod a (2 ^ k) ltac:(lia)). pose proof (Z.mod_pos_bound a (2 ^ k) Hp).
  unfold rne. destruct (Z.ltb_spec (2 * (a mod 2 ^ k)) (2 ^ k)); [nia|].
  destruct (Z.eqb_spec (2 * (a mod 2 ^ k)) (2 ^ k)); [destruct (Z.even _)|]; nia.
Qed.

Lemma rne_mono a b k : 0 <= k -> a <= b -> rne a k <= rne b k.
Proof.
  intros Hk Hab. destruct (decide (a = b)) as [->|Hne]; [lia|].
  pose proof (Z.pow_pos_nonneg 2 k ltac:(lia) Hk).
  pose proof (rne_near a k Hk). pose proof (rne_near b k Hk). nia.
Qed.

Lemma rne_multiple q k : 0 <= k -> rne (q * 2 ^ k) k = q.
Proof.
  intros Hk. pose proof (Z.pow_pos_nonneg 2 k ltac:(lia) Hk).
  pose proof (rne_near (q * 2 ^ k) k Hk). nia.
Qed.

Lemma rne_shift a k j : 0 <= k -> 0 <= j -> rne (a * 2 ^ j) (k + j) = rne a k.
Proof.
  intros Hk Hj. pose proof (Z.pow_pos_nonneg 2 k ltac:(lia) Hk).
  pose proof (Z.pow_pos_nonneg 2 j ltac:(lia) Hj).
  unfold rne. rewrite Z.pow_add_r by done.
  rewrite Z.div_mul_cancel_r, Z.mul_mod_distr_r by lia.
  replace (2 * (a mod 2 ^ k * 2 ^ j) <? 2 ^ k * 2 ^ j) with (2 * (a mod 2 ^ k) <? 2 ^ k)
    by (apply eq_true_iff_eq; rewrite !Z.ltb_lt; nia).
  replace (2 * (a mod 2 ^ k * 2 ^ j) =? 2 ^ k * 2 ^ j) with (2 * (a mod 2 ^ k) =? 2 ^ k)
    by (apply eq_true_iff_eq; rewrite !Z.eqb_eq; nia).
  done.
Qed.

(** ** Shifting with a sticky bit *)

(** [mrs] holds [a] shifted right by [k]: the quotient, the first bit lost, and whether
    another bit lost is set. *)
Definition holds (mrs : shr_record) (a k : Z) : Prop :=
  let r := a mod 2 ^ k in
  shr_m mrs = a / 2 ^ k /\ shr_r mrs = (2 ^ k <=? 2 * r) /\
  shr_s mrs = negb (2 * r =? if shr_r mrs then 2 ^ k else 0).

Lemma holds_start a l : l = loc_Exact -> holds (shr_record_of_loc a l) a 0.
Proof. intros ->. unfold holds. simpl. by rewrite Z.mod_1_r, Z.div_1_r. Qed.

Lemma shr_1_spec m r s : 0 <= m ->
  shr_1 (Build_shr_record m r s) = Build_shr_record (m / 2) (Z.odd m) (orb r s).
Proof.
  intros Hm. destruct m as [|[p|p|]|]; try done; unfold shr_1; f_equal.
  - by rewrite Pos2Z.inj_xI, Z.mul_comm, Z.div_add_l, Z.add_0_r by lia.
  - by rewrite Pos2Z.inj_xO, Z.mul_comm, Z.div_mul by lia.
Qed.

Lemma holds_step mrs a k : 0 <= a -> 0 <= k -> holds mrs a k -> holds (shr_1 mrs) a (k + 1).
Proof.
  intros Ha Hk. destruct mrs as [m r s]. unfold holds. cbn [shr_m shr_r shr_s]. intros (-> & -> & ->).
  pose proof (Z.pow_pos_nonneg 2 k ltac:(lia) Hk) as Hp.
  pose proof (Z.mod_pos_bound a (2 ^ k) Hp) as Hr. pose proof (Z.div_mod a (2 ^ k) ltac:(lia)) as Hdm.
  assert (0 <= a / 2 ^ k) by (apply Z.div_pos; lia).
  rewrite shr_1_spec by done. cbn [shr_m shr_r shr_s].
  set (q := a / 2 ^ k) in *. set (x := a mod 2 ^ k) in *.
  pose proof (Z.div2_odd q) as Hq. rewrite Z.div2_div in Hq.
  set (b := Z.b2z (Z.odd q)) in *.
  assert (b = 0 \/ b = 1) as Hb by (unfold b; destruct (Z.odd q); simpl; auto).
  assert (2 ^ (k + 1) = 2 * 2 ^ k) as Hpk by (rewrite Z.pow_add_r by lia; lia).
  assert (a / 2 ^ (k + 1) = q / 2 /\ a mod 2 ^ (k + 1) = b * 2 ^ k + x) as [-> ->].
  { assert (a = 2 ^ (k + 1) * (q / 2) + (b * 2 ^ k + x)) as Heq by (rewrite Hpk; nia).
    split; [symmetry; apply (Z.div_unique_pos _ _ _ (b * 2 ^ k + x))|
            symmetry; apply (Z.mod_unique_pos _ _ (q / 2))]; try done; nia. }
  split; [done|]. rewrite Hpk. split.
  - unfold b. destruct (Z.odd q); cbn [Z.b2z]; symmetry; [apply Z.leb_le|apply Z.leb_gt]; lia.
  - destruct (Z.leb_spec (2 ^ k) (2 * x)); cbn [orb]; unfold b; destruct (Z.odd q); cbn [Z.b2z].
    all: symmetry; rewrite ?negb_true_iff, ?Z.eqb_neq; try lia.
    all: f_equal; apply eq_true_iff_eq; rewrite !Z.eqb_eq; lia.
Qed.

Lemma holds_iter n : forall mrs a k, 0 <= a -> 0 <= k -> holds mrs a k ->
  holds (iter_pos shr_1 n mrs) a (k + Zpos n).
Proof.
  induction n as [n IH|n IH|]; intros mrs a k Ha Hk H; cbn [iter_pos].
  - replace (k + Zpos n~1) with (k + 1 + Zpos n + Zpos n) by lia.
    apply IH; [done|lia|]. apply IH; [done|lia|]. by apply holds_step.
  - replace (k + Zpos n~0) with (k + Zpos n + Zpos n) by lia.
    apply IH; [done|lia|]. by apply IH.
  - by apply holds_step.
Qed.

Lemma holds_round mrs a k : 0 <= k -> holds mrs a k ->
  round_nearest_even (shr_m mrs) (loc_of_shr_record mrs) = rne a k.
Proof.
  intros Hk. destruct mrs as [m r s]. unfold holds, rne. cbn [shr_m shr_r shr_s].
  intros (-> & -> & ->). pose proof (Z.pow_pos_nonneg 2 k ltac:(lia) Hk) as Hp.
  pose proof (Z.mod_pos_bound a (2 ^ k) Hp).
  destruct (Z.leb_spec (2 ^ k) (2 * (a mod 2 ^ k))) as [Hle|Hgt].
  - rewrite (proj2 (Z.ltb_ge _ _)) by lia.
    destruct (Z.eqb_spec (2 * (a mod 2 ^ k)) (2 ^ k)); cbn [negb loc_of_shr_record round_nearest_even]; done.
  - rewrite (proj2 (Z.ltb_lt _ _)) by lia.
    destruct (Z.eqb_spec (2 * (a mod 2 ^ k)) 0); cbn [negb loc_of_shr_record round_nearest_even]; done.
Qed.

(** ** Formats *)

Lemma digits_spec p : 2 ^ (Zpos (digits2_pos p) - 1) <= Zpos p < 2 ^ Zpos (digits2_pos p).
Proof.
  assert (forall q, 2 ^ (Zpos (Pos.succ q) - 1) = 2 * 2 ^ (Zpos q - 1)) as Hlow.
  { intros q. rewrite Pos2Z.inj_succ, <- Z.pow_succ_r by lia. f_equal. lia. }
  assert (forall q, 2 ^ Zpos (Pos.succ q) = 2 * 2 ^ Zpos q) as Hhigh.
  { intros q. rewrite Pos2Z.inj_succ. by rewrite Z.pow_succ_r. }
  induction p as [p IH|p IH|]; cbn [digits2_pos]; [rewrite Hlow, Hhigh; lia..|done].
Qed.

Lemma digits_unique v d : 0 <= d -> 2 ^ (d - 1) <= v < 2 ^ d -> 0 < v -> Zdigits2 v = d.
Proof.
  intros Hd Hv Hpos. destruct v as [|p|p]; try lia. cbn [Zdigits2].
  pose proof (digits_spec p) as Hp.
  destruct (Z.lt_trichotomy (Zpos (digits2_pos p)) d) as [H|[->|H]]; [|done|].
  - assert (2 ^ Zpos (digits2_pos p) <= 2 ^ (d - 1)) by (apply Z.pow_le_mono_r; lia). lia.
  - assert (2 ^ d <= 2 ^ (Zpos (digits2_pos p) - 1)) by (apply Z.pow_le_mono_r; lia). lia.
Qed.

Lemma Zdigits_spec v : 0 < v -> 2 ^ (Zdigits2 v - 1) <= v < 2 ^ Zdigits2 v.
Proof. destruct v as [|p|p]; try lia. intros _. apply digits_spec. Qed.

Lemma Zdigits_nonneg v : 0 <= Zdigits2 v.
Proof. by destruct v. Qed.

Section Format.
Context (prec emax : Z).
Hypothesis Hprec : 1 < prec.
Hypothesis Hemax : prec < emax.

Abbreviation emin := (emin prec emax).
Abbreviation fexp := (fexp prec emax).

Lemma emin_le : emin <= emax - prec.
Proof. unfold SpecFloat.emin. lia. Qed.

(** The units of the number above all others. *)
Definition top : Z := 2 ^ (emax - emin).

(** Numbers that are not negative, nor NaN, in their unique representation. *)
Definition num (x : spec_float) : bool :=
  match x with
  | S754_zero _ => true
  | S754_infinity s => negb s
  | S754_nan => false
  | S754_finite s m e => negb s && bounded prec emax m e
  end.

Definition units (x : spec_float) : Z :=
  match x with
  | S754_finite _ m e => Zpos m * 2 ^ (e - emin)
  | S754_infinity _ => top
  | _ => 0
  end.

(** Rounding a whole number of units. *)
Definition step (v : Z) : Z := Z.max (Zdigits2 v - prec) 0.
Definition round_units (v : Z) : Z := rne v (step v) * 2 ^ step v.

Lemma bounded_spec m e : bounded prec emax m e = true <->
  fexp (Zpos (digits2_pos m) + e) = e /\ e <= emax - prec.
Proof.
  unfold bounded, canonical_mantissa. rewrite andb_true_iff, Z.eqb_eq, Z.leb_le. done.
Qed.

(** A bounded mantissa fills [prec] bits, unless the exponent is the least. *)
Lemma bounded_mantissa m e : bounded prec emax m e = true ->
  emin <= e <= emax - prec /\ Zpos m < 2 ^ prec /\ (e = emin \/ 2 ^ (prec - 1) <= Zpos m).
Proof.
  rewrite bounded_spec. unfold SpecFloat.fexp. intros [Hf He].
  pose proof (digits_spec m) as Hm. split; [lia|]. split.
  - assert (2 ^ Zpos (digits2_pos m) <= 2 ^ prec) by (apply Z.pow_le_mono_r; lia). lia.
  - destruct (decide (e = emin)) as [|Hne]; [by left|right].
    assert (Zpos (digits2_pos m) = prec) as <- by lia. lia.
Qed.

Lemma mantissa_bounded m e : emin <= e <= emax - prec -> Zpos m < 2 ^ prec ->
  (e = emin \/ 2 ^ (prec - 1) <= Zpos m) -> bounded prec emax m e = true.
Proof.
  intros He Hm Hlow. apply bounded_spec. split; [|lia]. unfold SpecFloat.fexp.
  pose proof (digits_spec m) as Hd.
  assert (Zpos (digits2_pos m) <= prec).
  { destruct (Z.le_gt_cases (Zpos (digits2_pos m)) prec); [done|].
    assert (2 ^ prec <= 2 ^ (Zpos (digits2_pos m) - 1)) by (apply Z.pow_le_mono_r; lia). lia. }
  destruct Hlow as [->|Hlow]; [lia|].
  assert (prec <= Zpos (digits2_pos m)); [|lia].
  destruct (Z.le_gt_cases prec (Zpos (digits2_pos m))); [done|].
  assert (2 ^ Zpos (digits2_pos m) <= 2 ^ (prec - 1)) by (apply Z.pow_le_mono_r; lia). lia.
Qed.

Lemma top_split k : emin <= k <= emax -> top = 2 ^ (emax - k) * 2 ^ (k - emin).
Proof. intros. unfold top. rewrite <- Z.pow_add_r by lia. f_equal. lia. Qed.

(** A mantissa of [prec] bits at exponent [e] stays below the next binade. *)
Lemma finite_units_lt m e : emin <= e <= emax - prec -> 0 <= m < 2 ^ prec -> m * 2 ^ (e - emin) < top.
Proof.
  intros He Hm. pose proof emin_le. rewrite (top_split e) by lia.
  apply Z.mul_lt_mono_pos_r; [apply Z.pow_pos_nonneg; lia|].
  assert (2 ^ prec <= 2 ^ (emax - e)) by (apply Z.pow_le_mono_r; lia). lia.
Qed.

Lemma units_range x : num x = true -> 0 <= units x <= top.
Proof.
  assert (0 < top) by (apply Z.pow_pos_nonneg; pose proof emin_le; lia).
  destruct x as [s|s| |s m e]; cbn [num units]; intros Hx; try lia.
  apply andb_true_iff in Hx as [_ Hb]. destruct (bounded_mantissa m e Hb) as (He & Hm & _).
  pose proof (finite_units_lt (Zpos m) e He ltac:(lia)).
  assert (0 < 2 ^ (e - emin)) by (apply Z.pow_pos_nonneg; lia). nia.
Qed.

(** The order of the numbers is the order of their units. *)
Lemma finite_order m e m' e' : bounded prec emax m e = true -> bounded prec emax m' e' = true ->
  e < e' -> Zpos m * 2 ^ (e - emin) < Zpos m' * 2 ^ (e' - emin).
Proof.
  intros Hb Hb' He. destruct (bounded_mantissa m e Hb) as (? & Hm & _).
  destruct (bounded_mantissa m' e' Hb') as (? & _ & [->|Hm']); [lia|].
  assert (2 ^ prec * 2 ^ (e - emin) <= 2 ^ (prec - 1) * 2 ^ (e' - emin)).
  { rewrite <- !Z.pow_add_r by lia. apply Z.pow_le_mono_r; lia. }
  assert (0 < 2 ^ (e - emin)) by (apply Z.pow_pos_nonneg; lia).
  assert (0 < 2 ^ (e' - emin)) by (apply Z.pow_pos_nonneg; lia). nia.
Qed.

Lemma compare_units x y : num x = true -> num y = true ->
  SFcompare x y = Some (Z.compare (units x) (units y)).
Proof.
  intros Hx Hy. pose proof (units_range x Hx) as Hux. pose proof (units_range y Hy) as Huy.
  assert (0 < top) by (apply Z.pow_pos_nonneg; pose proof emin_le; lia).
  destruct x as [s|[]| |[] m e], y as [s'|[]| |[] m' e']; try done; cbn [units SFcompare] in *; f_equal;
    try (symmetry; apply Z.compare_eq_iff; done);
    cbn [num negb andb] in Hx, Hy.
  - symmetry. apply Z.compare_lt_iff. lia.
  - symmetry. apply Z.compare_lt_iff. destruct (bounded_mantissa m' e' Hy) as (? & ? & _).
    assert (0 < 2 ^ (e' - emin)) by (apply Z.pow_pos_nonneg; lia). nia.
  - symmetry. apply Z.compare_gt_iff. lia.
  - symmetry. apply Z.compare_gt_iff. destruct (bounded_mantissa m' e' Hy) as (? & ? & _).
    by apply finite_units_lt.
  - symmetry. apply Z.compare_gt_iff. destruct (bounded_mantissa m e Hx) as (? & ? & _).
    assert (0 < 2 ^ (e - emin)) by (apply Z.pow_pos_nonneg; lia). nia.
  - symmetry. apply Z.compare_lt_iff. destruct (bounded_mantissa m e Hx) as (? & ? & _).
    by apply finite_units_lt.
  - destruct (Z.compare_spec e e') as [->|He|He].
    + destruct (bounded_mantissa m e' Hx) as (? & _ & _).
      assert (0 < 2 ^ (e' - emin)) by (apply Z.pow_pos_nonneg; lia).
      change (Pos.compare_cont Eq m m') with (Pos.compare m m').
      rewrite <- Zmult_compare_compat_r by lia. done.
    + symmetry. apply Z.compare_lt_iff. by apply finite_order.
    + symmetry. apply Z.compare_gt_iff. by apply finite_order.
Qed.
(** *** The sum *)

Lemma step_nonneg v : 0 <= step v.
Proof. unfold step. lia. Qed.

(** The first shift: the exponent becomes the one of the format. *)
Lemma shr_start m e n : 0 <= n ->
  exists mrs, shr (shr_record_of_loc (Zpos m) loc_Exact) e n = (mrs, e + n) /\ holds mrs (Zpos m) n.
Proof.
  intros Hn. assert (holds (shr_record_of_loc (Zpos m) loc_Exact) (Zpos m) 0) as H0 by by apply holds_start.
  destruct n as [|n|n]; [| |lia].
  - eexists. by rewrite Z.add_0_r.
  - eexists. split; [done|]. by apply (holds_iter n _ _ 0).
Qed.

(** The second shift repairs a mantissa that was rounded up to the next power of two. *)
Lemma shr_renormalize q e : emin <= e -> 0 < q <= 2 ^ prec -> (e = emin \/ 2 ^ (prec - 1) <= q) ->
  exists m e', shr_fexp prec emax q e loc_Exact = (Build_shr_record (Zpos m) false false, e') /\
    emin <= e' /\ Zpos m * 2 ^ (e' - emin) = q * 2 ^ (e - emin) /\
    Zpos m < 2 ^ prec /\ (e' = emin \/ 2 ^ (prec - 1) <= Zpos m).
Proof.
  intros He Hq Hlow. unfold shr_fexp. cbn [shr_record_of_loc]. unfold SpecFloat.fexp.
  pose proof (Zdigits_spec q ltac:(lia)) as Hd.
  assert (2 ^ prec = 2 * 2 ^ (prec - 1)) as Hp by (rewrite <- Z.pow_succ_r by lia; f_equal; lia).
  destruct (decide (q = 2 ^ prec)) as [->|Hne].
  - rewrite (digits_unique (2 ^ prec) (prec + 1)) by
      (rewrite ?Z.add_simpl_r, ?Z.pow_add_r; lia).
    replace (Z.max (prec + 1 + e - prec) emin - e) with 1 by lia. cbn [shr iter_pos].
    rewrite shr_1_spec by lia.
    assert (2 ^ prec / 2 = 2 ^ (prec - 1)) as -> by (rewrite Hp, Z.mul_comm; apply Z.div_mul; lia).
    assert (Z.odd (2 ^ prec) = false) as -> by (rewrite Hp; by rewrite Z.odd_mul).
    pose proof (Z.pow_pos_nonneg 2 (prec - 1) ltac:(lia) ltac:(lia)) as Hpos.
    destruct (2 ^ (prec - 1)) as [|m|m] eqn:Hm; try lia.
    exists m, (e + 1). split; [done|]. split; [lia|].
    rewrite Hp. replace (e + 1 - emin) with (Z.succ (e - emin)) by lia.
    rewrite Z.pow_succ_r by lia. split; [ring|]. lia.
  - assert (Zdigits2 q <= prec) as Hdp.
    { destruct (Z.le_gt_cases (Zdigits2 q) prec); [done|].
      assert (2 ^ prec <= 2 ^ (Zdigits2 q - 1)) by (apply Z.pow_le_mono_r; lia). lia. }
    assert (e = emin \/ Zdigits2 q = prec) as Hcase.
    { destruct Hlow as [|Hl]; [by left|right]. apply digits_unique; lia. }
    destruct q as [|m|m]; try lia. exists m, e.
    assert (Z.max (Zdigits2 (Zpos m) + e - prec) emin - e = 0) as -> by lia.
    split; [done|]. lia.
Qed.

(** Aligning to a smaller exponent keeps the number. *)
Lemma iter_xO d m : Zpos (Pos.iter xO m d) = Zpos m * 2 ^ Zpos d.
Proof.
  induction d as [|d IH] using Pos.peano_ind; [simpl; lia|].
  rewrite Pos.iter_succ, Pos2Z.inj_xO, IH, Pos2Z.inj_succ, Z.pow_succ_r by lia. lia.
Qed.

Lemma digits_scale m mz k : 0 <= k -> Zpos mz = Zpos m * 2 ^ k ->
  Zpos (digits2_pos mz) = Zpos (digits2_pos m) + k.
Proof.
  intros Hk Hm. pose proof (digits_spec m). pose proof (Z.pow_pos_nonneg 2 k ltac:(lia) Hk).
  change (Zpos (digits2_pos mz)) with (Zdigits2 (Zpos mz)). apply digits_unique; [lia| |lia].
  replace (Zpos (digits2_pos m) + k - 1) with (Zpos (digits2_pos m) - 1 + k) by lia.
  rewrite Hm, !Z.pow_add_r by lia. nia.
Qed.

Lemma shl_align_spec m e e' : exists mz ez, shl_align m e e' = (mz, ez) /\
  ez = Z.min e e' /\ Zpos mz = Zpos m * 2 ^ (e - ez).
Proof.
  unfold shl_align. destruct (e' - e) as [|d|d] eqn:Hd.
  - exists m, e. split; [done|]. rewrite Z.sub_diag. lia.
  - exists m, e. split; [done|]. rewrite Z.sub_diag. lia.
  - exists (Pos.iter xO m d), e'. split; [done|]. split; [lia|].
    replace (e - e') with (Zpos d) by lia. apply iter_xO.
Qed.

(** The rounded mantissa at the exponent of the format. *)
Lemma rounded_mantissa v : 0 < v ->
  0 < rne v (step v) <= 2 ^ prec /\ (step v = 0 \/ 2 ^ (prec - 1) <= rne v (step v)).
Proof.
  intros Hv. pose proof (Zdigits_spec v Hv) as Hd. pose proof (step_nonneg v) as Hs.
  pose proof (Z.pow_pos_nonneg 2 (prec - 1) ltac:(lia) ltac:(lia)).
  assert (rne v (step v) <= 2 ^ prec) as Hup.
  { rewrite <- (rne_multiple (2 ^ prec) (step v)) by done. apply rne_mono; [done|].
    rewrite <- Z.pow_add_r by lia.
    assert (2 ^ Zdigits2 v <= 2 ^ (prec + step v)) by (apply Z.pow_le_mono_r; unfold step; lia). lia. }
  destruct (decide (step v = 0)) as [H0|H0].
  - rewrite H0 in *. assert (rne v 0 = v) as Hr.
    { rewrite <- (rne_multiple v 0) at 2 by lia. by rewrite Z.mul_1_r. }
    rewrite Hr in *. lia.
  - assert (2 ^ (prec - 1) <= rne v (step v)) as Hlow; [|lia].
    rewrite <- (rne_multiple (2 ^ (prec - 1)) (step v)) at 1 by done. apply rne_mono; [done|].
    rewrite <- Z.pow_add_r by lia.
    assert (2 ^ (prec - 1 + step v) = 2 ^ (Zdigits2 v - 1)) as -> by (f_equal; unfold step in *; lia). lia.
Qed.

Lemma binary_round_units m e : emin <= e ->
  let x := binary_round prec emax false m e in
  num x = true /\ units x = Z.min top (round_units (Zpos m * 2 ^ (e - emin))).
Proof.
  intros He. cbv zeta. set (v := Zpos m * 2 ^ (e - emin)).
  set (E := fexp (Zpos (digits2_pos m) + e)).
  pose proof (Z.pow_pos_nonneg 2 (e - emin) ltac:(lia) ltac:(lia)) as Hpe.
  assert (0 < v) as Hv by (unfold v; lia).
  assert (Zdigits2 v = Zpos (digits2_pos m) + (e - emin)) as Hdv.
  { destruct v as [|pv|pv] eqn:Hpv; try lia. apply digits_scale; [lia|done]. }
  assert (step v = E - emin) as Hstep by (unfold step, E, SpecFloat.fexp; lia).
  pose proof (step_nonneg v). destruct (rounded_mantissa v Hv) as [Hq Hlow].
  assert (exists m' e', binary_round prec emax false m e =
      (if e' <=? emax - prec then S754_finite false m' e' else S754_infinity false) /\
    emin <= e' /\ Zpos m' * 2 ^ (e' - emin) = rne v (step v) * 2 ^ (E - emin) /\
    Zpos m' < 2 ^ prec /\ (e' = emin \/ 2 ^ (prec - 1) <= Zpos m')) as (m' & e' & -> & He' & Hval & Hm' & Hl').
  { unfold binary_round. destruct (shl_align_spec m e E) as (mz & ez & Hal & Hez & Hmz).
    fold E. rewrite Hal. unfold binary_round_aux, shr_fexp at 1.
    change (Zdigits2 (Zpos mz)) with (Zpos (digits2_pos mz)).
    rewrite (digits_scale m mz (e - ez)) by (done || lia).
    replace (Zpos (digits2_pos m) + (e - ez) + ez) with (Zpos (digits2_pos m) + e) by lia. fold E.
    destruct (shr_start mz ez (E - ez) ltac:(lia)) as (mrs & -> & Hh). cbv beta iota.
    rewrite (holds_round mrs (Zpos mz) (E - ez)) by (done || lia).
    assert (rne (Zpos mz) (E - ez) = rne v (step v)) as Hrne.
    { rewrite Hstep, <- (rne_shift (Zpos mz) (E - ez) (ez - emin)) by lia. f_equal; [|lia].
      unfold v. rewrite Hmz, <- Z.mul_assoc, <- Z.pow_add_r by lia. do 2 f_equal. lia. }
    rewrite Hrne. replace (ez + (E - ez)) with E by lia.
    destruct (shr_renormalize (rne v (step v)) E) as (m' & e' & -> & Hrest); [lia|done|lia|].
    by exists m', e'. }
  unfold round_units. rewrite Hstep in Hval. rewrite Hstep, <- Hval.
  destruct (Z.leb_spec e' (emax - prec)) as [Hle|Hgt]; cbn [num units].
  - split; [by apply mantissa_bounded|]. symmetry. apply Z.min_r.
    apply Z.lt_le_incl, finite_units_lt; lia.
  - split; [done|]. symmetry. apply Z.min_l. pose proof emin_le.
    destruct Hl' as [|Hl']; [lia|]. unfold top.
    assert (2 ^ (emax - emin) <= 2 ^ (prec - 1) * 2 ^ (e' - emin)); [|nia].
    rewrite <- Z.pow_add_r by lia. apply Z.pow_le_mono_r; lia.
Qed.

(** Rounding keeps what is representable, and is monotone. *)
Lemma round_units_mono a b : 0 < a -> a <= b -> round_units a <= round_units b.
Proof.
  intros Ha Hab. pose proof (Zdigits_spec a Ha) as Hda. pose proof (Zdigits_spec b ltac:(lia)) as Hdb.
  assert (Zdigits2 a <= Zdigits2 b) as Hd.
  { destruct (Z.le_gt_cases (Zdigits2 a) (Zdigits2 b)); [done|].
    assert (2 ^ Zdigits2 b <= 2 ^ (Zdigits2 a - 1)) by (apply Z.pow_le_mono_r; lia). lia. }
  unfold round_units. pose proof (step_nonneg a). pose proof (step_nonneg b).
  destruct (decide (step a = step b)) as [<-|Hne].
  - apply Z.mul_le_mono_nonneg_r; [apply Z.pow_nonneg; lia|]. by apply rne_mono.
  - assert (step a < step b) as Hlt by (unfold step in *; lia).
    destruct (rounded_mantissa a Ha) as [[_ Hqa] _].
    destruct (rounded_mantissa b ltac:(lia)) as [_ [Hb|Hqb]]; [lia|].
    assert (2 ^ prec * 2 ^ step a <= 2 ^ (prec - 1) * 2 ^ step b).
    { rewrite <- !Z.pow_add_r by lia. apply Z.pow_le_mono_r; lia. }
    assert (0 < 2 ^ step a) by (apply Z.pow_pos_nonneg; lia).
    assert (0 < 2 ^ step b) by (apply Z.pow_pos_nonneg; lia). nia.
Qed.

Lemma round_units_finite m e : bounded prec emax m e = true ->
  round_units (Zpos m * 2 ^ (e - emin)) = Zpos m * 2 ^ (e - emin).
Proof.
  intros Hb. destruct (bounded_mantissa m e Hb) as (He & _ & _). apply bounded_spec in Hb as [Hf _].
  pose proof (Z.pow_pos_nonneg 2 (e - emin) ltac:(lia) ltac:(lia)).
  assert (step (Zpos m * 2 ^ (e - emin)) = e - emin) as Hs.
  { unfold step. destruct (Zpos m * 2 ^ (e - emin)) as [|pv|pv] eqn:Hpv; try lia.
    cbn [Zdigits2]. rewrite (digits_scale m pv (e - emin)) by (done || lia).
    unfold SpecFloat.fexp in Hf. lia. }
  unfold round_units. rewrite Hs. by rewrite rne_multiple by lia.
Qed.

Lemma round_units_top : round_units top = top.
Proof.
  pose proof emin_le. unfold round_units, step, top.
  rewrite (digits_unique (2 ^ (emax - emin)) (emax - emin + 1)) by
    (rewrite ?Z.add_simpl_r, ?Z.pow_add_r; try lia; pose proof (Z.pow_pos_nonneg 2 (emax - emin) ltac:(lia) ltac:(lia)); lia).
  set (k := Z.max (emax - emin + 1 - prec) 0).
  assert (2 ^ (emax - emin) = 2 ^ (emax - emin - k) * 2 ^ k) as ->
    by (rewrite <- Z.pow_add_r by (unfold k; lia); f_equal; lia).
  by rewrite rne_multiple by (unfold k; lia).
Qed.

Lemma round_units_num x : num x = true -> 0 < units x -> round_units (units x) = units x.
Proof.
  destruct x as [s|s| |[] m e]; cbn [num units]; intros Hx Hpos; try lia; try done.
  - apply round_units_top.
  - by apply round_units_finite.
Qed.

Lemma units_sum x y : num x = true -> num y = true ->
  num (SFadd prec emax x y) = true /\
  units (SFadd prec emax x y) =
    if units x + units y =? 0 then 0 else Z.min top (round_units (units x + units y)).
Proof.
  intros Hx Hy. pose proof (units_range x Hx) as Hux. pose proof (units_range y Hy) as Huy.
  assert (0 < top) as Htop by (apply Z.pow_pos_nonneg; pose proof emin_le; lia).
  assert (forall z, num z = true -> 0 < units z -> Z.min top (round_units (units z)) = units z) as Hid.
  { intros z Hz Hpos. rewrite round_units_num by done. pose proof (units_range z Hz). lia. }
  assert (forall v, top <= v -> Z.min top (round_units v) = top) as Hinf.
  { intros v Hv. apply Z.min_l. rewrite <- round_units_top. by apply round_units_mono. }
  assert (forall m e, num (S754_finite false m e) = true -> 0 < units (S754_finite false m e)) as Hfin.
  { intros m e Hb. cbn [num units negb andb] in *. destruct (bounded_mantissa m e Hb) as (? & _ & _).
    pose proof (Z.pow_pos_nonneg 2 (e - emin) ltac:(lia) ltac:(lia)). lia. }
  destruct x as [s|[]| |[] m e] eqn:Ex, y as [s'|[]| |[] m' e'] eqn:Ey; try done; cbn [SFadd].
  - cbn [units]. destruct s, s'; done.
  - split; [done|]. cbn [units]. rewrite (proj2 (Z.eqb_neq _ _)) by lia. rewrite Hinf; lia.
  - pose proof (Hfin m' e' Hy). split; [done|]. change (units (S754_zero s)) with 0. rewrite Z.add_0_l.
    rewrite (proj2 (Z.eqb_neq _ _)) by lia. by rewrite Hid.
  - split; [done|]. cbn [units]. rewrite (proj2 (Z.eqb_neq _ _)) by lia. rewrite Hinf; lia.
  - split; [done|]. cbn [units]. rewrite (proj2 (Z.eqb_neq _ _)) by lia. rewrite Hinf; lia.
  - split; [done|]. change (units (S754_infinity false)) with top in *.
    rewrite (proj2 (Z.eqb_neq _ _)) by lia. rewrite Hinf; lia.
  - pose proof (Hfin m e Hx). split; [done|]. change (units (S754_zero s')) with 0. rewrite Z.add_0_r.
    rewrite (proj2 (Z.eqb_neq _ _)) by lia. by rewrite Hid.
  - split; [done|]. change (units (S754_infinity false)) with top in *.
    rewrite (proj2 (Z.eqb_neq _ _)) by lia. rewrite Hinf; lia.
  - pose proof (Hfin m e Hx) as Hpx. pose proof (Hfin m' e' Hy) as Hpy.
    cbn [num negb andb] in Hx, Hy. destruct (bounded_mantissa m e Hx) as (He & _ & _).
    destruct (bounded_mantissa m' e' Hy) as (He' & _ & _).
    destruct (shl_align_spec m e (Z.min e e')) as (mz & ez & -> & Hez & Hmz).
    destruct (shl_align_spec m' e' (Z.min e e')) as (mz' & ez' & -> & Hez' & Hmz').
    cbn [fst cond_Zopp]. change (Zpos mz + Zpos mz') with (Zpos (mz + mz')). cbn [binary_normalize].
    replace ez with (Z.min e e') in * by lia. replace ez' with (Z.min e e') in * by lia.
    destruct (binary_round_units (mz + mz') (Z.min e e') ltac:(lia)) as [Hn Hu].
    split; [exact Hn|]. rewrite Hu, (proj2 (Z.eqb_neq _ _)) by lia. do 2 f_equal.
    rewrite Pos2Z.inj_add, Hmz, Hmz'. cbn [units].
    rewrite Z.mul_add_distr_r, <- !Z.mul_assoc, <- !Z.pow_add_r by lia.
    f_equal; do 2 f_equal; lia.
Qed.

(** *** Laws of the sum *)

Lemma sum_num x y : num x = true -> num y = true -> num (SFadd prec emax x y) = true.
Proof. apply units_sum. Qed.

Lemma leb_units x y : num x = true -> num y = true -> SFleb x y = (units x <=? units y).
Proof.
  intros Hx Hy. unfold SFleb. rewrite compare_units by done. unfold Z.leb.
  by destruct (Z.compare (units x) (units y)).
Qed.

Lemma ltb_units x y : num x = true -> num y = true -> SFltb x y = (units x <? units y).
Proof.
  intros Hx Hy. unfold SFltb. rewrite compare_units by done. unfold Z.ltb.
  by destruct (Z.compare (units x) (units y)).
Qed.

Lemma eqb_units x y : num x = true -> num y = true -> SFeqb x y = (units x =? units y).
Proof.
  intros Hx Hy. unfold SFeqb. rewrite compare_units by done. rewrite Z.eqb_compare.
  by destruct (Z.compare (units x) (units y)).
Qed.

(** The sum is monotone in its first operand. *)
Lemma sum_mono x x' y : num x = true -> num x' = true -> num y = true ->
  units x <= units x' -> units (SFadd prec emax x y) <= units (SFadd prec emax x' y).
Proof.
  intros Hx Hx' Hy Hle. rewrite (proj2 (units_sum x y Hx Hy)), (proj2 (units_sum x' y Hx' Hy)).
  pose proof (units_range x Hx). pose proof (units_range x' Hx'). pose proof (units_range y Hy).
  destruct (Z.eqb_spec (units x + units y) 0), (Z.eqb_spec (units x' + units y) 0); try lia.
  - assert (0 <= round_units (units x' + units y)); [|lia].
    unfold round_units. destruct (rounded_mantissa (units x' + units y)) as [? _]; [lia|].
    pose proof (Z.pow_nonneg 2 (step (units x' + units y))). nia.
  - apply Z.min_le_compat_l, round_units_mono; lia.
Qed.

(** The sum is at least its first operand. *)
Lemma sum_above x y : num x = true -> num y = true -> units x <= units (SFadd prec emax x y).
Proof.
  intros Hx Hy. rewrite (proj2 (units_sum _ _ Hx Hy)).
  pose proof (units_range x Hx). pose proof (units_range y Hy).
  destruct (Z.eqb_spec (units x + units y) 0); [lia|].
  destruct (decide (units x = 0)) as [Hz|Hz].
  - assert (0 <= round_units (units x + units y)); [|lia].
    unfold round_units. destruct (rounded_mantissa (units x + units y)) as [? _]; [lia|].
    pose proof (Z.pow_nonneg 2 (step (units x + units y))). nia.
  - apply Z.min_glb; [lia|]. rewrite <- (round_units_num x) at 1 by (done || lia).
    apply round_units_mono; lia.
Qed.
End Format.
