(* ===== verification/RoutePlanner.v ===== *)
(** * Route planner ([nav2_route/types.hpp], [route_planner.hpp], [route_planner.cpp],
    [edge_scorer.cpp])

    Dijkstra's search over a graph of nodes and directed edges. A pointer to a node is
    its index in the graph, a pointer to an edge the index of its node and its number
    there; following a pointer that leads nowhere is undefined. The states of the search
    live in the nodes. The plugins that score edges are parameters; so is the
    choice of [std::priority_queue] among elements of equal cost. Metadata, operations
    and coordinates, which the planner does not read, are budget out. *)

From stdpp Require Import base option list numbers.
From Stdlib Require Import ZArith Lia SpecFloat.
From S2P Require Import Prelude Float64 FloatOrder.

Module RoutePlanner.

Abbreviation f32 := spec_float (only parsing).
Definition f32_zero : f32 := S754_zero false.
Definition f32_max : f32 := S754_finite false 16777215 104.
Definition f32_add : f32 -> f32 -> f32 := SFadd 24 128.

(** ** Data *)

Abbreviation NodePtr := nat (only parsing).
Abbreviation EdgePtr := (nat * nat)%type (only parsing).

Record EdgeCost : Type := mk_edge_cost { cost : f32; overridable : bool }.

Record DirectionalEdge : Type := mk_edge {
  edgeid : Z; start : NodePtr; end_ : NodePtr; edge_cost : EdgeCost }.

Record SearchState : Type := mk_search_state {
  parent_edge : option EdgePtr; integrated_cost : f32; traversal_cost : f32 }.

Record Node : Type := mk_node {
  nodeid : Z; neighbors : list DirectionalEdge; search_state : SearchState }.

Abbreviation Graph := (list Node) (only parsing).

Abbreviation NodeElement := (f32 * NodePtr)%type (only parsing).

Record Route : Type := mk_route {
  start_node : NodePtr; edges : list EdgePtr; route_cost : f32 }.

Inductive EdgeType : Type := NONE | START | END.

Definition with_search_state (st : SearchState) (n : Node) : Node :=
  mk_node (nodeid n) (neighbors n) st.

Definition reset : SearchState := mk_search_state None f32_max f32_max.

(** [Node::addEdge], called on the node at [self]. *)
Definition addEdge (self : NodePtr) (c : EdgeCost) (node : NodePtr) (id : Z) (n : Node) : Node :=
  mk_node (nodeid n) (neighbors n ++ [mk_edge id self node c]) (search_state n).

(** What an edge pointer leads to. *)
Definition edge_of (g : Graph) (r : EdgePtr) : option DirectionalEdge :=
  n ← g !! fst r; neighbors n !! snd r.

(** The plugins, on the state [W] of everything they read. *)
Class EdgeCostFunctions (R W : Type) : Type := {
  plugin_prepare : nat -> W -> outcome () * W;
  plugin_score : nat -> Graph -> EdgePtr -> R -> EdgeType -> W -> outcome (bool * f32) * W }.

(** The element [std::priority_queue] pops, and the others. *)
Class PriorityQueue : Type := {
  pq_pop : list NodeElement -> option (NodeElement * list NodeElement) }.

(** The members of the planner, the graph it is given, and the plugins' state. *)
Record search (W : Type) : Type := mk_search {
  max_iterations : Z;
  start_id : Z;
  goal_id : Z;
  queue : list NodeElement;
  plugins : nat;
  graph : Graph;
  scorers : W }.
Arguments mk_search {W}.
Arguments max_iterations {W}.
Arguments start_id {W}.
Arguments goal_id {W}.
Arguments queue {W}.
Arguments plugins {W}.
Arguments graph {W}.
Arguments scorers {W}.

Section Updates.
Context {W : Type}.
Implicit Types s : search W.
Definition set_ids (a b : Z) s : search W :=
  mk_search (max_iterations s) a b (queue s) (plugins s) (graph s) (scorers s).
Definition set_queue (q : list NodeElement) s : search W :=
  mk_search (max_iterations s) (start_id s) (goal_id s) q (plugins s) (graph s) (scorers s).
Definition set_graph (g : Graph) s : search W :=
  mk_search (max_iterations s) (start_id s) (goal_id s) (queue s) (plugins s) g (scorers s).
Definition set_scorers (w : W) s : search W :=
  mk_search (max_iterations s) (start_id s) (goal_id s) (queue s) (plugins s) (graph s) w.
End Updates.

Section Planner.
Context {R W : Type} `{EdgeCostFunctions R W} `{PriorityQueue}.
Implicit Types s : search W.
Abbreviation M := (ST (search W)).

(** [configure]: a limit that is not positive means none. *)
Definition configure (max_iterations_parameter : Z) : Z :=
  if max_iterations_parameter <=? 0 then 2 ^ 31 - 1 else max_iterations_parameter.

(** Following pointers. *)
Definition node_at (i : NodePtr) : M Node :=
  s ← get; match graph s !! i with Some n => mret n | None => undefined end.
Definition edge_at (r : EdgePtr) : M DirectionalEdge :=
  s ← get; match edge_of (graph s) r with Some e => mret e | None => undefined end.
Definition set_state (i : NodePtr) (f : SearchState -> SearchState) : M () :=
  n ← node_at i;
  modify (fun s => set_graph (<[i := with_search_state (f (search_state n)) n]> (graph s)) s).

(** ** The queue *)

Definition addNode (c : f32) (node : NodePtr) : M () :=
  modify (fun s => set_queue ((c, node) :: queue s) s).

(** [top] and [pop]; undefined on an empty queue. *)
Definition getNextNode : M NodeElement :=
  s ← get;
  match pq_pop (queue s) with
  | Some (x, q) => modify (set_queue q);; mret x
  | None => undefined
  end.

Definition clearQueue : M () := modify (set_queue []).

Definition isGoal (i : NodePtr) : M bool := n ← node_at i; s ← get; mret (nodeid n =? goal_id s).
Definition isStart (i : NodePtr) : M bool := n ← node_at i; s ← get; mret (nodeid n =? start_id s).

Definition classifyEdge (r : EdgePtr) : M EdgeType :=
  e ← edge_at r;
  b ← isStart (start e);
  if b : bool then mret START
  else
    b ← isGoal (end_ e);
    mret (if b : bool then END else NONE).

(** ** Scoring an edge *)

Definition call {A} (f : W -> outcome A * W) : M A := fun s =>
  (of_outcome (fst (f (scorers s))), set_scorers (snd (f (scorers s))) s).

Fixpoint prepare_plugins (l : list nat) : M () :=
  match l with
  | [] => mret tt
  | i :: l => call (plugin_prepare i);; prepare_plugins l
  end.

(** None when a plugin rejects the edge. *)
Fixpoint score_plugins (r : EdgePtr) (req : R) (ty : EdgeType) (total_score : f32) (l : list nat) :
    M (option f32) :=
  match l with
  | [] => mret (Some total_score)
  | i :: l =>
      s ← get;
      '(ok, curr_score) ← call (plugin_score i (graph s) r req ty);
      if ok : bool then score_plugins r req ty (f32_add total_score curr_score) l else mret None
  end.

Definition score (r : EdgePtr) (req : R) (ty : EdgeType) : M (option f32) :=
  s ← get;
  prepare_plugins (seq 0 (plugins s));;
  score_plugins r req ty f32_zero (seq 0 (plugins s)).

(** [std::find_if] over the blocked ids: an edge's own id or its end's. *)
Fixpoint is_blocked (e : DirectionalEdge) (blocked_ids : list Z) : M bool :=
  match blocked_ids with
  | [] => mret false
  | id :: blocked_ids =>
      if id =? edgeid e then mret true
      else
        n ← node_at (end_ e);
        if id =? nodeid n then mret true else is_blocked e blocked_ids
  end.

Definition getTraversalCost (blocked_ids : list Z) (req : R) (r : EdgePtr) : M (option f32) :=
  e ← edge_at r;
  b ← is_blocked e blocked_ids;
  if b : bool then mret None
  else
    s ← get;
    if negb (overridable (edge_cost e)) || bool_decide (plugins s = 0%nat) then
      if f64_le (f64_of_f32 (cost (edge_cost e))) f64_zero then throw no_valid_graph
      else mret (Some (cost (edge_cost e)))
    else
      ty ← classifyEdge r;
      score r req ty.

(** ** The search *)

Definition resetSearchStates : M () :=
  modify (fun s => set_graph (with_search_state reset <$> graph s) s).

(** The body of the loop over the edges of a node popped with cost [curr_cost]. *)
Definition relax (blocked_ids : list Z) (req : R) (curr_cost : f32) (r : EdgePtr) : M () :=
  e ← edge_at r;
  let neighbor := end_ e in
  c ← getTraversalCost blocked_ids req r;
  match c with
  | None => mret tt
  | Some traversal_cost =>
      let potential_cost := f32_add curr_cost traversal_cost in
      n ← node_at neighbor;
      if f64_lt potential_cost (integrated_cost (search_state n)) then
        set_state neighbor (fun _ => mk_search_state (Some r) potential_cost traversal_cost);;
        addNode potential_cost neighbor
      else mret tt
  end.

(** [edge_num] from [k] on, [n] edges to go. *)
Fixpoint expand (blocked_ids : list Z) (req : R) (curr_cost : f32) (node : NodePtr) (k n : nat) : M () :=
  match n with
  | O => mret tt
  | S n =>
      relax blocked_ids req curr_cost (node, k);;
      expand blocked_ids req curr_cost node (S k) n
  end.

(** How the loop ends: at the goal, or with [budget] iterations not used. *)
Inductive SearchEnd : Type := Found | Stopped (budget : nat).

Fixpoint search_loop (blocked_ids : list Z) (req : R) (budget : nat) : M SearchEnd :=
  s ← get;
  match queue s, budget with
  | [], _ | _, O => mret (Stopped budget)
  | _, S budget =>
      '(curr_cost, node) ← getNextNode;
      n ← node_at node;
      if negb (SFeqb curr_cost (integrated_cost (search_state n))) then search_loop blocked_ids req budget
      else
        g ← isGoal node;
        if g : bool then clearQueue;; mret Found
        else
          expand blocked_ids req curr_cost node 0 (length (neighbors n));;
          search_loop blocked_ids req budget
  end.

Definition findShortestGraphTraversal (start_node goal_node : NodePtr) (blocked_ids : list Z) (req : R) :
    M () :=
  resetSearchStates;;
  sn ← node_at start_node;
  gn ← node_at goal_node;
  modify (set_ids (nodeid sn) (nodeid gn));;
  set_state start_node (fun st => mk_search_state (parent_edge st) f32_zero (traversal_cost st));;
  addNode f32_zero start_node;;
  s ← get;
  stop ← search_loop blocked_ids req (Z.to_nat (max_iterations s));
  match stop with
  | Stopped O => clearQueue;; throw timed_out
  | _ => mret tt
  end.

(** ** The route *)

(** The loop that follows the parents. [parent_edge] is a reference to the member of
    the goal's node, so each assignment to it overwrites that member. *)
Fixpoint unwind (fuel : nat) (goal_node : NodePtr) (route : list EdgePtr) : M (list EdgePtr) :=
  n ← node_at goal_node;
  match parent_edge (search_state n) with
  | None => mret route
  | Some r =>
      match fuel with
      | O => undefined
      | S fuel =>
          e ← edge_at r;
          p ← node_at (start e);
          set_state goal_node (fun st =>
            mk_search_state (parent_edge (search_state p)) (integrated_cost st) (traversal_cost st));;
          unwind fuel goal_node (route ++ [r])
      end
  end.

Definition findRoute (start_index goal_index : nat) (blocked_ids : list Z) (req : R) : M Route :=
  s ← get;
  if bool_decide (graph s = []) then throw no_valid_graph
  else if bool_decide (length (graph s) <= start_index)%nat then throw out_of_range
  else if bool_decide (length (graph s) <= goal_index)%nat then throw out_of_range
  else
    findShortestGraphTraversal start_index goal_index blocked_ids req;;
    n ← node_at goal_index;
    if bool_decide (parent_edge (search_state n) = None) then throw no_valid_route
    else
      s ← get;
      l ← unwind (length (graph s)) goal_index [];
      n ← node_at goal_index;
      mret (mk_route start_index (reverse l) (integrated_cost (search_state n))).
End Planner.

(** ** Specification *)

(** The edges of [p] lead from [i] to [j] one after the other. *)
Fixpoint walk (g : Graph) (i : nat) (p : list EdgePtr) (j : nat) : Prop :=
  match p with
  | [] => i = j
  | r :: p => fst r = i /\ exists e, edge_of g r = Some e /\ walk g (end_ e) p j
  end.

(** The sum of the prices of a walk in the order of the walk, in single precision, if
    all its edges can be traversed. *)
Fixpoint total (price : EdgePtr -> option f32) (acc : f32) (p : list EdgePtr) : option f32 :=
  match p with
  | [] => Some acc
  | r :: p => c ← price r; total price (f32_add acc c) p
  end.

Record well_formed (g : Graph) : Prop := {
  wf_edges : forall r e, edge_of g r = Some e -> start e = fst r /\ (end_ e < length g)%nat;
  wf_ids : forall i j n m, g !! i = Some n -> g !! j = Some m -> nodeid n = nodeid m -> i = j }.

(** What never changes during a search. *)
Definition shape (g : Graph) : list (Z * list DirectionalEdge) :=
  (fun n => (nodeid n, neighbors n)) <$> g.

Class PriorityQueueLaws `{PriorityQueue} : Prop := {
  pop_nonempty : forall q, q <> [] -> exists x q', pq_pop q = Some (x, q');
  pop_perm : forall q x q', pq_pop q = Some (x, q') -> x :: q' ≡ₚ q;
  pop_least : forall q x q', pq_pop q = Some (x, q') ->
    Forall (fun y => num 24 128 (fst y) = true) q -> Forall (fun y => SFltb (fst y) (fst x) = false) q }.

End RoutePlanner.
