(* ===== verification/RouteSearch.v ===== *)
(** * The route planner's search finds a cheapest route

    The invariant of Dijkstra's search with entries that are left in the queue when a
    node improves, over single precision costs; how far the loop goes; and the route
    that the parent pointers describe. *)

From stdpp Require Import base option list numbers.
From Stdlib Require Import ZArith Lia SpecFloat.
From S2P Require Import Prelude Float64 FloatOrder RoutePlanner.

Module RouteSearch.
Import RoutePlanner.

(** ** Costs *)

Abbreviation num := (num 24 128).
Abbreviation units := (units 24 128).
Definition limit : Z := units f32_max.

Lemma num_zero : num f32_zero = true. Proof. done. Qed.
Lemma num_max : num f32_max = true. Proof. by vm_compute. Qed.
Lemma units_zero : units f32_zero = 0. Proof. done. Qed.

Lemma f32_num x y : num x = true -> num y = true -> num (f32_add x y) = true.
Proof. by apply sum_num. Qed.
Lemma f32_mono x x' y : num x = true -> num x' = true -> num y = true ->
  units x <= units x' -> units (f32_add x y) <= units (f32_add x' y).
Proof. by apply sum_mono. Qed.
Lemma f32_above x y : num x = true -> num y = true -> units x <= units (f32_add x y).
Proof. by apply sum_above. Qed.
Lemma f32_nonneg x : num x = true -> 0 <= units x.
Proof. intros Hx. by apply (units_range 24 128). Qed.

Create HintDb route.
#[local] Hint Resolve num_zero num_max f32_num f32_nonneg : route.

(** Sums of equal costs are equal. *)
Lemma f32_same x x' y : num x = true -> num x' = true -> num y = true ->
  units x = units x' -> units (f32_add x y) = units (f32_add x' y).
Proof. intros. apply Z.le_antisymm; apply f32_mono; auto; lia. Qed.

Section Totals.
Context (price : EdgePtr -> option f32).
Hypothesis Hnum : forall r c, price r = Some c -> num c = true.

Lemma total_above p : forall acc t, num acc = true -> total price acc p = Some t ->
  num t = true /\ units acc <= units t.
Proof.
  induction p as [|r p IH]; intros acc t Ha Ht; cbn [total] in Ht.
  - injection Ht as <-. split; [done|lia].
  - destruct (price r) as [c|] eqn:Hc; [|done]. cbn [mbind option_bind] in Ht.
    apply Hnum in Hc. destruct (IH _ _ (f32_num _ _ Ha Hc) Ht) as [? ?]. split; [done|].
    pose proof (f32_above acc c Ha Hc). lia.
Qed.

Lemma total_snoc p r : forall acc,
  total price acc (p ++ [r]) = t ← total price acc p; c ← price r; Some (f32_add t c).
Proof.
  induction p as [|r' p IH]; intros acc; cbn [total app]; [by destruct (price r)|].
  destruct (price r'); [|done]. apply IH.
Qed.
End Totals.

Lemma walk_snoc g p r e : forall i, walk g i p (fst r) -> edge_of g r = Some e ->
  walk g i (p ++ [r]) (end_ e).
Proof.
  induction p as [|r' p IH]; intros i Hw He; cbn [walk app] in *.
  - split; [done|]. by exists e.
  - destruct Hw as (Hi & e' & He' & Hw). split; [done|]. exists e'. split; [done|]. by apply IH.
Qed.

(** ** The state of the nodes *)

Definition dist (g : Graph) (i : nat) : f32 :=
  match g !! i with Some n => integrated_cost (search_state n) | None => f32_max end.
Definition par (g : Graph) (i : nat) : option EdgePtr := n ← g !! i; parent_edge (search_state n).
Abbreviation D g i := (units (dist g i)).

Lemma shape_length g g' : shape g = shape g' -> length g = length g'.
Proof. intros Hs. apply (f_equal length) in Hs. unfold shape in Hs. by rewrite !length_fmap in Hs. Qed.

Lemma shape_lookup g g' i : shape g = shape g' ->
  (fun n => (nodeid n, neighbors n)) <$> g !! i = (fun n => (nodeid n, neighbors n)) <$> g' !! i.
Proof.
  intros Hs. apply (f_equal (fun l => l !! i)) in Hs. unfold shape in Hs. by rewrite !list_lookup_fmap in Hs.
Qed.

Lemma shape_edge g g' r : shape g = shape g' -> edge_of g r = edge_of g' r.
Proof.
  intros Hs. apply (shape_lookup _ _ (fst r)) in Hs. unfold edge_of.
  destruct (g !! fst r), (g' !! fst r); simpl in *; try done. by injection Hs as _ ->.
Qed.

Lemma shape_node g g' i n : shape g = shape g' -> g' !! i = Some n ->
  exists n', g !! i = Some n' /\ nodeid n' = nodeid n /\ neighbors n' = neighbors n.
Proof.
  intros Hs Hn. apply (shape_lookup _ _ i) in Hs. rewrite Hn in Hs.
  destruct (g !! i) as [n'|]; [|done]. exists n'. by injection Hs as -> ->.
Qed.

(** The graph after [set_state]. *)
Definition updated (g : Graph) (i : nat) (st : SearchState) : Graph :=
  alter (with_search_state st) i g.

Lemma updated_shape g i st : shape (updated g i st) = shape g.
Proof.
  unfold shape, updated. apply list_eq. intros j. rewrite !list_lookup_fmap.
  destruct (decide (j = i)) as [->|]; [|by rewrite list_lookup_alter_ne].
  rewrite list_lookup_alter_eq. by destruct (g !! i).
Qed.

Lemma updated_same g i st : (i < length g)%nat ->
  dist (updated g i st) i = integrated_cost st /\ par (updated g i st) i = parent_edge st.
Proof.
  intros Hi. destruct (lookup_lt_is_Some_2 g i Hi) as [n Hn].
  unfold dist, par, updated. by rewrite list_lookup_alter_eq, Hn.
Qed.

Lemma updated_other g i j st : j <> i ->
  dist (updated g i st) j = dist g j /\ par (updated g i st) j = par g j.
Proof. intros Hj. unfold dist, par, updated. by rewrite list_lookup_alter_ne. Qed.

(** ** The invariant *)

Section Search.
Context {R W : Type} `{EdgeCostFunctions R W} `{PriorityQueueLaws}.
Context (g0 : Graph) (st gl : nat) (blocked : list Z) (req : R) (price : EdgePtr -> option f32).
Context (sid gid : Z) (np : nat).
Hypothesis Hwf : well_formed g0.
Hypothesis Hst : (st < length g0)%nat.
Hypothesis Hgl : (gl < length g0)%nat.
Hypothesis Hgid : forall n, g0 !! gl = Some n -> nodeid n = gid.
Hypothesis Hnum : forall r c, price r = Some c -> num c = true.

(** The states of the search: only costs, parents, queue and plugins vary. *)
Record searching (s : search W) : Prop := {
  searching_shape : shape (graph s) = shape g0;
  searching_start : start_id s = sid;
  searching_goal : goal_id s = gid;
  searching_plugins : plugins s = np }.

(** Every edge has its price, whenever it is asked. *)
Hypothesis Hprice : forall r e s, edge_of g0 r = Some e -> searching s ->
  exists w, getTraversalCost blocked req r s = (Ok (price r), set_scorers w s).

(** [S] lists the nodes expanded, the last one first; the edges of [done] have been
    looked at. *)
Record inv (g : Graph) (Q : list NodeElement) (S : list nat) (done : EdgePtr -> Prop) : Prop := {
  inv_shape : shape g = shape g0;
  inv_num : forall i, num (dist g i) = true;
  inv_start : dist g st = f32_zero /\ par g st = None;
  inv_node : forall i, i <> st ->
    (par g i = None /\ dist g i = f32_max) \/
    exists r e c, par g i = Some r /\ edge_of g0 r = Some e /\ end_ e = i /\ fst r ∈ S /\
      price r = Some c /\ D g i = units (f32_add (dist g (fst r)) c) /\ D g i < limit;
  inv_settled : forall i, i ∈ S -> D g i < limit /\ (i < length g0)%nat;
  inv_done : forall r, done r -> fst r ∈ S;
  inv_closed : forall r e c, done r -> edge_of g0 r = Some e -> price r = Some c ->
    D g (end_ e) <= units (f32_add (dist g (fst r)) c);
  inv_live : forall i, i ∉ S -> D g i < limit -> (dist g i, i) ∈ Q;
  inv_order : forall i j, i ∈ S -> j ∉ S -> D g i <= D g j;
  inv_queue : forall c i, (c, i) ∈ Q ->
    (i < length g0)%nat /\ num c = true /\ units c < limit /\ D g i <= units c;
  inv_tree : forall S1 i S2, S = S1 ++ i :: S2 -> i <> st ->
    exists r, par g i = Some r /\ fst r ∈ S2;
  inv_nodup : NoDup S;
  inv_goal : gl ∉ S }.

Lemma inv_limit g Q S done i : inv g Q S done -> D g i <= limit.
Proof.
  intros I. destruct (decide (i = st)) as [->|Hi].
  - rewrite (proj1 (inv_start _ _ _ _ I)). by vm_compute.
  - destruct (inv_node _ _ _ _ I i Hi) as [[_ ->]|(? & ? & ? & _ & _ & _ & _ & _ & _ & ?)]; [unfold limit|]; lia.
Qed.

Lemma inv_more g Q S done done' : inv g Q S done -> (forall r, done' r -> fst r ∈ S) ->
  (forall r e c, done' r -> edge_of g0 r = Some e -> price r = Some c -> done r \/
     D g (end_ e) <= units (f32_add (dist g (fst r)) c)) ->
  inv g Q S done'.
Proof.
  intros [] Hs Hc. split; try done. intros r e c Hr He Hp.
  destruct (Hc r e c Hr He Hp); eauto.
Qed.

(** A node off the settled ones gets a better cost along an edge from a settled one. *)
Lemma inv_improve g Q S done i k e c p tc :
  inv g Q S done -> i ∈ S -> (forall v, v ∈ S -> D g v <= D g i) ->
  edge_of g0 (i, k) = Some e -> price (i, k) = Some c ->
  num p = true -> units p = units (f32_add (dist g i) c) -> units p < D g (end_ e) ->
  let g' := updated g (end_ e) (mk_search_state (Some (i, k)) p tc) in
  inv g' ((p, end_ e) :: Q) S (fun r => done r \/ r = (i, k)) /\ (forall v, v ∈ S -> dist g' v = dist g v).
Proof.
  intros I Hi Hmax He Hc Hp Hpu Hlt g'. set (v := end_ e) in *.
  pose proof (inv_num _ _ _ _ I i) as Hni. pose proof (Hnum _ _ Hc) as Hnc.
  assert (D g i <= units p) as Hip by (rewrite Hpu; by apply f32_above).
  assert (v ∉ S) as HvS by (intros Hv; apply Hmax in Hv; lia).
  assert (v <> st) as Hvst.
  { intros ->. rewrite (proj1 (inv_start _ _ _ _ I)), units_zero in Hlt.
    pose proof (f32_nonneg p Hp). lia. }
  assert (v < length g)%nat as Hvl.
  { rewrite (shape_length g g0) by apply I. by apply (wf_edges g0 Hwf _ _ He). }
  destruct (updated_same g v (mk_search_state (Some (i, k)) p tc) Hvl) as [Hdv Hpv].
  fold g' in Hdv, Hpv. cbn [integrated_cost parent_edge] in Hdv, Hpv.
  assert (forall j, j <> v -> dist g' j = dist g j /\ par g' j = par g j) as Hother
    by (intros j Hj; by apply updated_other).
  assert (forall j, j ∈ S -> dist g' j = dist g j /\ par g' j = par g j) as HS
    by (intros j Hj; apply Hother; by intros ->).
  assert (forall j, D g' j <= D g j) as Hless.
  { intros j. destruct (decide (j = v)) as [->|Hj]; [rewrite Hdv; lia|].
    by rewrite (proj1 (Hother j Hj)). }
  pose proof (inv_limit _ _ _ _ v I) as Hlim.
  split; [|intros; by apply HS]. destruct I as [I1 I2 I3 I4 I5 I6 I7 I8 I9 I10 I11 I12 I13]. split.
  - by rewrite <- I1; apply updated_shape.
  - intros j. destruct (decide (j = v)) as [->|Hj]; [by rewrite Hdv|]. by rewrite (proj1 (Hother j Hj)).
  - by destruct (Hother st) as [-> ->].
  - intros j Hj. destruct (decide (j = v)) as [->|Hjv].
    + right. exists (i, k), e, c. cbn [fst]. rewrite Hdv, Hpv, (proj1 (HS i Hi)).
      repeat split; try done. lia.
    + destruct (Hother j Hjv) as [-> ->].
      destruct (I4 j Hj) as [?|(r & e' & c' & ? & ? & ? & Hr & ? & ? & ?)]; [by left|right].
      exists r, e', c'. by rewrite (proj1 (HS _ Hr)).
  - intros j Hj. by rewrite (proj1 (HS j Hj)); apply I5.
  - intros r [Hr| ->]; [by apply I6|done].
  - intros r e' c' [Hr| ->] He' Hc'.
    + rewrite (proj1 (HS (fst r) (I6 r Hr))). pose proof (I7 r e' c' Hr He' Hc').
      pose proof (Hless (end_ e')). lia.
    + assert (e' = e) as -> by congruence. assert (c' = c) as -> by congruence.
      cbn [fst]. rewrite (proj1 (HS i Hi)). fold v. rewrite Hdv. lia.
  - intros j Hj Hjl. destruct (decide (j = v)) as [->|Hjv]; [rewrite Hdv; left|right].
    rewrite (proj1 (Hother j Hjv)) in *. by apply I8.
  - intros a j Ha Hj. rewrite (proj1 (HS a Ha)). destruct (decide (j = v)) as [->|Hjv].
    + rewrite Hdv. pose proof (Hmax a Ha). lia.
    + rewrite (proj1 (Hother j Hjv)). by apply I9.
  - intros c' j Hq. apply elem_of_cons in Hq as [[= -> ->]|Hq].
    + rewrite Hdv, <- (shape_length g g0 I1). do 2 (split; [done|]). lia.
    + destruct (I10 c' j Hq) as (? & ? & ? & ?). pose proof (Hless j).
      do 2 (split; [done|]). lia.
  - intros S1 a S2 HeqS Ha. destruct (I11 S1 a S2 HeqS Ha) as (r & Hr & Hin). exists r.
    split; [|done]. rewrite (proj2 (HS a ltac:(rewrite HeqS; apply list_elem_of_In, in_elt))). done.
  - done.
  - done.
Qed.

(** ** The steps of the loop *)

Implicit Types s : search W.

(** A call that returns normally in a searching state. *)
Definition runs {A} (c : ST (search W) A) (s : search W) (a : A) (s' : search W) : Prop :=
  c s = (Ok a, s') /\ searching s' /\ max_iterations s' = max_iterations s.

Lemma node_at_run i s n : graph s !! i = Some n -> node_at i s = (Ok n, s).
Proof. intros Hn. unfold node_at, get. expose. by rewrite Hn. Qed.

Lemma edge_at_run r e s : edge_of g0 r = Some e -> searching s -> edge_at r s = (Ok e, s).
Proof.
  intros He Hs. unfold edge_at, get. expose. by rewrite (shape_edge _ g0 _ (searching_shape s Hs)), He.
Qed.

Lemma searching_node s i : searching s -> (i < length g0)%nat ->
  exists n, graph s !! i = Some n /\ integrated_cost (search_state n) = dist (graph s) i /\
    parent_edge (search_state n) = par (graph s) i.
Proof.
  intros Hs Hi. rewrite <- (shape_length (graph s) g0) in Hi by apply Hs.
  destruct (lookup_lt_is_Some_2 _ _ Hi) as [n Hn]. exists n. unfold dist, par. by rewrite Hn.
Qed.

Lemma set_state_at i f s n : graph s !! i = Some n ->
  set_state i f s = (Ok tt, set_graph (updated (graph s) i (f (search_state n))) s).
Proof.
  intros Hn. unfold set_state, modify. expose. rewrite (node_at_run i s n Hn).
  do 2 f_equal. unfold updated. apply list_eq. intros j. destruct (decide (j = i)) as [->|].
  - rewrite list_lookup_alter_eq, Hn, list_lookup_insert_eq by (by eapply lookup_lt_Some). done.
  - by rewrite list_lookup_insert_ne, list_lookup_alter_ne.
Qed.

Lemma set_state_run i f s : searching s -> (i < length g0)%nat ->
  exists stt, set_state i f s = (Ok tt, set_graph (updated (graph s) i (f stt)) s) /\
    integrated_cost stt = dist (graph s) i /\ parent_edge stt = par (graph s) i.
Proof.
  intros Hs Hi. destruct (searching_node s i Hs Hi) as (n & Hn & Hd & Hp).
  exists (search_state n). split; [by apply set_state_at|done].
Qed.

(** Looking at an edge: the three outcomes. *)
Lemma relax_run curr r e s : searching s -> edge_of g0 r = Some e -> exists w,
  match price r with
  | None => relax blocked req curr r s = (Ok tt, set_scorers w s)
  | Some c =>
      let p := f32_add curr c in
      relax blocked req curr r s = (Ok tt,
        if f64_lt p (dist (graph s) (end_ e))
        then set_queue ((p, end_ e) :: queue s)
               (set_graph (updated (graph s) (end_ e) (mk_search_state (Some r) p c)) (set_scorers w s))
        else set_scorers w s)
  end.
Proof.
  intros Hs He. destruct (Hprice r e s He Hs) as [w Hw]. exists w. unfold relax. expose.
  rewrite (edge_at_run r e s He Hs), Hw. destruct (price r) as [c|]; [|done]. cbv zeta.
  assert (searching (set_scorers w s)) as Hsw by (destruct Hs; by split).
  assert (end_ e < length g0)%nat as Hl by apply (wf_edges g0 Hwf _ _ He).
  destruct (searching_node _ _ Hsw Hl) as (n & Hn & Hd & _). rewrite (node_at_run _ _ n Hn), Hd.
  change (graph (set_scorers w s)) with (graph s) in *.
  destruct (f64_lt _ _); [|done].
  destruct (set_state_run (end_ e) (fun _ => mk_search_state (Some r) (f32_add curr c) c) _ Hsw Hl)
    as (stt & Hset & _). rewrite Hset. done.
Qed.

Lemma relax_new curr i k e s S done :
  searching s -> inv (graph s) (queue s) S done -> i ∈ S ->
  (forall v, v ∈ S -> D (graph s) v <= D (graph s) i) ->
  num curr = true -> units curr = D (graph s) i -> edge_of g0 (i, k) = Some e ->
  exists s', runs (relax blocked req curr (i, k)) s tt s' /\
    inv (graph s') (queue s') S (fun r => done r \/ r = (i, k)) /\
    (length (queue s') <= length (queue s) + 1)%nat /\
    forall v, v ∈ S -> dist (graph s') v = dist (graph s) v.
Proof.
  intros Hs I Hi Hmax Hcurr Hcu He. destruct (relax_run curr (i, k) e s Hs He) as [w Hrun].
  assert (searching (set_scorers w s)) as Hsw by (destruct Hs; by split).
  assert (forall c, price (i, k) = Some c ->
    num (f32_add curr c) = true /\ units (f32_add curr c) = units (f32_add (dist (graph s) i) c)) as Hp.
  { intros c Hc. pose proof (Hnum _ _ Hc). split; [by apply f32_num|].
    apply f32_same; try done. apply (inv_num _ _ _ _ I). }
  assert (forall c, price (i, k) = Some c -> D (graph s) (end_ e) <= units (f32_add curr c) ->
    inv (graph s) (queue s) S (fun r => done r \/ r = (i, k))) as Hskip.
  { intros c Hc Hle. apply (inv_more _ _ _ _ _ I).
    - intros r [Hr| ->]; [by apply (inv_done _ _ _ _ I)|done].
    - intros r e' c' [Hr| ->] He' Hc'; [by left|right].
      assert (e' = e) as -> by congruence. assert (c' = c) as -> by congruence.
      cbn [fst]. by rewrite <- (proj2 (Hp c Hc)). }
  destruct (price (i, k)) as [c|] eqn:Hc.
  - destruct (Hp c eq_refl) as [Hpn Hpu]. cbv zeta in Hrun. unfold f64_lt in Hrun.
    rewrite (ltb_units 24 128) in Hrun by (done || lia || apply (inv_num _ _ _ _ I)).
    destruct (Z.ltb_spec (units (f32_add curr c)) (D (graph s) (end_ e))) as [Hlt|Hge].
    + destruct (inv_improve _ _ _ _ i k e c (f32_add curr c) c I Hi Hmax He Hc Hpn Hpu Hlt) as [I' HS].
      eexists. split; [split; [exact Hrun|]|].
      * split; [|done]. destruct Hsw. split; try done. simpl. by rewrite updated_shape.
      * split; [exact I'|]. split; [simpl; lia|]. exact HS.
    + exists (set_scorers w s). split; [done|]. split; [by apply (Hskip c)|]. split; [simpl; lia|done].
  - exists (set_scorers w s). split; [done|]. split; [|split; [simpl; lia|done]].
    apply (inv_more _ _ _ _ _ I).
    + intros r [Hr| ->]; [by apply (inv_done _ _ _ _ I)|done].
    + intros r e' c' [Hr| ->] He' Hc'; [by left|congruence].
Qed.

(** An edge already looked at changes nothing. *)
Lemma relax_again curr r e s S done :
  searching s -> inv (graph s) (queue s) S done -> done r ->
  num curr = true -> units curr = D (graph s) (fst r) -> edge_of g0 r = Some e ->
  exists w, relax blocked req curr r s = (Ok tt, set_scorers w s).
Proof.
  intros Hs I Hr Hcurr Hcu He. destruct (relax_run curr r e s Hs He) as [w Hrun]. exists w.
  destruct (price r) as [c|] eqn:Hc; [|done]. cbv zeta in Hrun. rewrite Hrun.
  pose proof (Hnum _ _ Hc). pose proof (inv_num _ _ _ _ I (fst r)) as Hn.
  assert (f64_lt (f32_add curr c) (dist (graph s) (end_ e)) = false) as ->; [|done].
  unfold f64_lt. rewrite (ltb_units 24 128) by (done || lia || by apply f32_num || apply (inv_num _ _ _ _ I)).
  apply Z.ltb_ge. rewrite (f32_same curr (dist (graph s) (fst r)) c) by done.
  by apply (inv_closed _ _ _ _ I).
Qed.
(** ** Expanding a node *)

Definition degree (i : nat) : nat := match g0 !! i with Some n => length (neighbors n) | None => 0 end.

Lemma degree_edge i k : (k < degree i)%nat -> exists e, edge_of g0 (i, k) = Some e.
Proof.
  unfold degree, edge_of. cbn [fst snd]. destruct (g0 !! i) as [n|]; [|lia].
  intros Hk. destruct (lookup_lt_is_Some_2 (neighbors n) k Hk) as [e He]. by exists e.
Qed.

(** The edges of [i] before number [k]. *)
Definition seen (done : EdgePtr -> Prop) (i k : nat) (r : EdgePtr) : Prop :=
  done r \/ fst r = i /\ (snd r < k)%nat.

Lemma expand_new curr i S done n : forall k s,
  searching s -> inv (graph s) (queue s) S (seen done i k) -> i ∈ S ->
  (forall r, done r -> fst r ∈ S) ->
  (forall v, v ∈ S -> D (graph s) v <= D (graph s) i) ->
  num curr = true -> units curr = D (graph s) i -> (k + n)%nat = degree i ->
  exists s', runs (expand blocked req curr i k n) s tt s' /\
    inv (graph s') (queue s') S (seen done i (k + n)) /\
    (length (queue s') <= length (queue s) + n)%nat.
Proof.
  induction n as [|n IH]; intros k s Hs I Hi Hd Hmax Hcurr Hcu Hk.
  - exists s. rewrite Nat.add_0_r. split; [by split|]. split; [done|lia].
  - destruct (degree_edge i k ltac:(lia)) as [e He].
    destruct (relax_new curr i k e s S _ Hs I Hi Hmax Hcurr Hcu He) as (s1 & (Hr & Hs1 & Hm1) & I1 & Hq1 & HS1).
    destruct (IH (Datatypes.S k) s1) as (s' & (Hr' & Hs' & Hm') & I' & Hq'); try done; try lia.
    + apply (inv_more _ _ _ _ _ I1).
      * intros r [Hr0|[-> _]]; [by apply Hd|done].
      * intros r e' c [Hr0|[Hr0 Hlt]] _ _; left; [by left; left|].
        destruct (decide (snd r = k)); [right; destruct r; simpl in *; congruence|].
        left. right. split; [done|lia].
    + intros v Hv. rewrite (HS1 v Hv), (HS1 i Hi). by apply Hmax.
    + by rewrite (HS1 i Hi).
    + exists s'. cbn [expand]. split; [|split; [|lia]].
      * split; [|split; [done|congruence]]. expose. by rewrite Hr.
      * by replace (k + Datatypes.S n)%nat with (Datatypes.S k + n)%nat by lia.
Qed.

Lemma expand_again curr i S n : forall k s,
  searching s -> inv (graph s) (queue s) S (fun r => fst r ∈ S) -> i ∈ S ->
  num curr = true -> units curr = D (graph s) i -> (k + n)%nat = degree i ->
  exists w, expand blocked req curr i k n s = (Ok tt, set_scorers w s).
Proof.
  induction n as [|n IH]; intros k s Hs I Hi Hcurr Hcu Hk.
  - exists (scorers s). cbn [expand]. by destruct s.
  - destruct (degree_edge i k ltac:(lia)) as [e He].
    destruct (relax_again curr (i, k) e s S _ Hs I Hi Hcurr Hcu He) as [w Hr].
    destruct (IH (Datatypes.S k) (set_scorers w s)) as [w' Hw']; try done; try lia.
    { destruct Hs. by split. }
    exists w'. cbn [expand]. expose. by rewrite Hr.
Qed.

(** ** The number of rounds *)

Definition open_degrees (S : list nat) (l : list nat) : nat :=
  foldr (fun i n => (if bool_decide (i ∈ S) then n else degree i + n)%nat) 0%nat l.

(** The edges of the nodes not expanded yet. *)
Definition remaining (S : list nat) : nat := open_degrees S (seq 0 (length g0)).

Lemma open_degrees_cons i S l : NoDup l -> i ∉ S ->
  open_degrees S l = (open_degrees (i :: S) l + if bool_decide (i ∈ l) then degree i else 0)%nat.
Proof.
  intros Hl Hi. induction Hl as [|j l Hj Hl IH]; [done|]. cbn [open_degrees foldr].
  fold (open_degrees S l) (open_degrees (i :: S) l). rewrite IH.
  destruct (decide (j = i)) as [->|Hji].
  - rewrite (bool_decide_eq_false_2 (i ∈ S)), (bool_decide_eq_true_2 (i ∈ i :: S)),
      (bool_decide_eq_false_2 (i ∈ l)), (bool_decide_eq_true_2 (i ∈ i :: l)) by (done || by left). lia.
  - assert (bool_decide (j ∈ i :: S) = bool_decide (j ∈ S)) as ->
      by (apply bool_decide_ext; rewrite elem_of_cons; split; [by intros [|]|by right]).
    assert (bool_decide (i ∈ j :: l) = bool_decide (i ∈ l)) as ->
      by (apply bool_decide_ext; rewrite elem_of_cons; split; [by intros [|]|by right]).
    destruct (bool_decide (j ∈ S)); lia.
Qed.

Lemma remaining_cons i S : i ∉ S -> (i < length g0)%nat -> remaining S = (remaining (i :: S) + degree i)%nat.
Proof.
  intros Hi Hl. unfold remaining. rewrite (open_degrees_cons i) by (done || apply NoDup_seq).
  rewrite bool_decide_eq_true_2; [done|]. apply elem_of_seq. lia.
Qed.

(** ** Popping a node *)

Lemma pop_cases s S : searching s -> inv (graph s) (queue s) S (fun r => fst r ∈ S) -> queue s <> [] ->
  exists c i q, pq_pop (queue s) = Some ((c, i), q) /\ length (queue s) = Datatypes.S (length q) /\
    (i < length g0)%nat /\ num c = true /\
    (forall y, y ∈ (c, i) :: q <-> y ∈ queue s) /\
    (forall j, j ∉ S -> units c = D (graph s) i -> D (graph s) i <= D (graph s) j).
Proof.
  intros Hs I Hq. destruct (pop_nonempty _ Hq) as ([c i] & q & Hpop). exists c, i, q.
  pose proof (pop_perm _ _ _ Hpop) as Hperm.
  assert ((c, i) ∈ queue s) as Hin by (rewrite <- Hperm; left).
  destruct (inv_queue _ _ _ _ I c i Hin) as (Hi & Hc & Hlim & Hle).
  split; [done|]. split; [by rewrite <- Hperm|]. split; [done|]. split; [done|].
  split; [intros y; by rewrite <- Hperm|].
  intros j Hj Hcu. pose proof (inv_limit _ _ _ _ j I).
  destruct (decide (D (graph s) j < limit)) as [Hlt|]; [|lia].
  pose proof (inv_live _ _ _ _ I j Hj Hlt) as Hjq.
  pose proof (pop_least _ _ _ Hpop) as Hleast.
  rewrite list.Forall_forall in Hleast. setoid_rewrite list.Forall_forall in Hleast.
  specialize (Hleast ltac:(intros [c' i'] Hy; by apply (inv_queue _ _ _ _ I c' i' Hy)) _ Hjq).
  cbn [fst] in Hleast. rewrite (ltb_units 24 128) in Hleast by (done || lia || apply (inv_num _ _ _ _ I)).
  apply Z.ltb_ge in Hleast. lia.
Qed.

(** An entry that is out of date, or of a node already expanded, can be dropped. *)
Lemma inv_drop g Q q c i S done : inv g Q S done -> (forall y, y ∈ (c, i) :: q <-> y ∈ Q) ->
  (units c <> D g i \/ i ∈ S) -> inv g q S done.
Proof.
  intros [] Hq Hc. split; try done.
  - intros j Hj Hlt. specialize (inv_live0 j Hj Hlt). apply Hq in inv_live0.
    apply elem_of_cons in inv_live0 as [[= <- <-]|]; [|done]. by destruct Hc.
  - intros c' j Hin. apply inv_queue0, Hq. by right.
Qed.

(** The cheapest open node becomes a settled one. *)
Lemma inv_settle g Q q c i S : inv g Q S (fun r => fst r ∈ S) -> (forall y, y ∈ (c, i) :: q <-> y ∈ Q) ->
  units c = D g i -> i ∉ S -> i <> gl -> (forall j, j ∉ S -> D g i <= D g j) ->
  inv g q (i :: S) (fun r => fst r ∈ S).
Proof.
  intros I Hq Hc Hi Hg Hmin. assert ((c, i) ∈ Q) as Hin by (apply Hq; left).
  pose proof (inv_queue _ _ _ _ I c i Hin) as (Hil & _ & Hlim & _).
  destruct I as [I1 I2 I3 I4 I5 I6 I7 I8 I9 I10 I11 I12 I13]. split; try done.
  - intros j Hj. destruct (I4 j Hj) as [?|(r & e & c' & ? & ? & ? & Hr & ?)]; [by left|right].
    exists r, e, c'. do 3 (split; [done|]). split; [by right|done].
  - intros j Hj. apply elem_of_cons in Hj as [->|Hj]; [split; [lia|done]|by apply I5].
  - intros r Hr. by right.
  - intros j Hj Hlt. apply not_elem_of_cons in Hj as [Hji Hj].
    pose proof (I8 j Hj Hlt) as Hjq. apply Hq, elem_of_cons in Hjq as [[= _ ->]|]; done.
  - intros a j Ha Hj. apply not_elem_of_cons in Hj as [Hji Hj].
    apply elem_of_cons in Ha as [->|Ha]; [by apply Hmin|by apply I9].
  - intros c' j Hj. apply I10, Hq. by right.
  - intros S1 a S2 HeqS Ha. destruct S1 as [|b S1]; simplify_eq/=.
    + destruct (I4 a Ha) as [[_ Hd]|(r & e & c' & Hr & _ & _ & HrS & _)].
      * rewrite Hd in Hc. unfold limit in Hlim. lia.
      * by exists r.
    + by apply (I11 S1).
  - by apply NoDup_cons_2.
  - apply not_elem_of_cons. split; [congruence|done].
Qed.
(** ** The whole loop *)

Lemma node_id s i n : searching s -> graph s !! i = Some n -> (nodeid n =? gid) = bool_decide (i = gl).
Proof.
  intros Hs Hn. destruct (lookup_lt_is_Some_2 g0 gl Hgl) as [m Hm].
  destruct (shape_node g0 (graph s) i n) as (n0 & Hn0 & Hid & _); [symmetry; apply Hs|done|].
  rewrite <- (Hgid m Hm). destruct (Z.eqb_spec (nodeid n) (nodeid m)) as [Heq|Hne]; symmetry.
  - apply bool_decide_eq_true_2. apply (wf_ids g0 Hwf i gl n0 m); congruence.
  - apply bool_decide_eq_false_2. intros ->. congruence.
Qed.

Lemma degree_node s i n : searching s -> graph s !! i = Some n -> length (neighbors n) = degree i.
Proof.
  intros Hs Hn. destruct (shape_node g0 (graph s) i n) as (n0 & Hn0 & _ & Hnb); [symmetry; apply Hs|done|].
  unfold degree. by rewrite Hn0, Hnb.
Qed.

(** Where the loop can end: at the goal, which no open node undercuts, or with an
    empty queue. *)
Definition ended (r : SearchEnd) (s' : search W) : Prop :=
  queue s' = [] /\ exists Q S, inv (graph s') Q S (fun r => fst r ∈ S) /\
    match r with
    | Found => D (graph s') gl < limit /\ forall j, j ∉ S -> D (graph s') gl <= D (graph s') j
    | Stopped n => n <> O /\ Q = []
    end.

Lemma search_loop_ends budget : forall s S,
  searching s -> inv (graph s) (queue s) S (fun r => fst r ∈ S) ->
  (length (queue s) + remaining S < budget)%nat ->
  exists r s', runs (search_loop blocked req budget) s r s' /\ ended r s'.
Proof.
  induction budget as [|budget IH]; intros s S Hs I Hb; [lia|].
  destruct (decide (queue s = [])) as [Hq|Hq].
  { exists (Stopped (Datatypes.S budget)), s. split.
    - split; [|by split]. cbn [search_loop]. unfold get. expose. by rewrite Hq.
    - split; [done|]. exists [], S. rewrite Hq in I. by split. }
  destruct (pop_cases s S Hs I Hq) as (c & i & q & Hpop & Hlen & Hil & Hc & Hqq & Hmin).
  assert (exists rest, queue s = rest :: List.tl (queue s)) as [hd Hhd]
    by (destruct (queue s) as [|hd tl]; [done|by exists hd]).
  assert (searching (set_queue q s)) as Hsq by (destruct Hs; by split).
  destruct (searching_node _ i Hsq Hil) as (n & Hn & Hd & _).
  assert (search_loop blocked req (Datatypes.S budget) s =
    (if negb (SFeqb c (dist (graph s) i)) then search_loop blocked req budget (set_queue q s)
     else if bool_decide (i = gl) then (Ok Found, set_queue [] s)
     else (expand blocked req c i 0 (degree i);; search_loop blocked req budget) (set_queue q s))) as Hstep.
  { cbn [search_loop]. unfold get at 1. expose. rewrite Hhd. unfold getNextNode, get, modify. expose.
    rewrite Hpop. cbv beta iota. rewrite (node_at_run i (set_queue q s) n Hn). cbv beta iota. rewrite Hd.
    change (graph (set_queue q s)) with (graph s) in *.
    destruct (negb _); [done|]. unfold isGoal, get. expose. rewrite (node_at_run i (set_queue q s) n Hn). cbv beta iota.
    change (goal_id (set_queue q s)) with (goal_id s). rewrite (searching_goal s Hs).
    rewrite (node_id s i n Hs Hn), (degree_node s i n Hs Hn).
    by destruct (bool_decide (i = gl)). }
  unfold runs. rewrite Hstep, (eqb_units 24 128) by (done || lia || apply (inv_num _ _ _ _ I)).
  destruct (Z.eqb_spec (units c) (D (graph s) i)) as [Hcu|Hcu]; cbn [negb].
  2: { apply (IH (set_queue q s) S Hsq); [|simpl; lia].
       apply (inv_drop _ (queue s) q c i); [done|done|by left]. }
  case_bool_decide as Hig.
  { subst i. exists Found, (set_queue [] s). split; [split; [done|split; [destruct Hs; by split|done]]|].
    split; [done|]. exists (queue s), S. split; [done|].
    assert ((c, gl) ∈ queue s) as Hin by (apply Hqq; left).
    destruct (inv_queue _ _ _ _ I c gl Hin) as (_ & _ & Hlim & _). simpl.
    split; [lia|]. intros j Hj. by apply Hmin. }
  destruct (decide (i ∈ S)) as [HiS|HiS].
  - destruct (expand_again c i S (degree i) 0 (set_queue q s) Hsq) as [w Hw]; try done.
    { apply (inv_drop _ (queue s) q c i); [done|done|by right]. }
    assert (searching (set_scorers w (set_queue q s))) as Hsw by (destruct Hs; by split).
    destruct (IH (set_scorers w (set_queue q s)) S Hsw) as (r & s' & Hrun & Hend); [|simpl; lia|].
    { apply (inv_drop _ (queue s) q c i); [done|done|by right]. }
    exists r, s'. expose. rewrite Hw. done.
  - assert (inv (graph s) q (i :: S) (fun r => fst r ∈ S)) as Iset.
    { apply (inv_settle _ (queue s) q c); try done. intros j Hj. by apply Hmin. }
    destruct (expand_new c i (i :: S) (fun r => fst r ∈ S) (degree i) 0 (set_queue q s) Hsq)
      as (s1 & (Hr1 & Hs1 & Hm1) & I1 & Hq1); try done.
    { apply (inv_more _ _ _ _ _ Iset); [|by intros r e c' [?|[_ ?]]; [left|lia]].
      intros r [Hr|[-> _]]; [by right|by left]. }
    { by left. }
    { intros r Hr. by right. }
    { intros v Hv. apply elem_of_cons in Hv as [->|Hv]; [lia|]. by apply (inv_order _ _ _ _ I). }
    destruct (IH s1 (i :: S) Hs1) as (r & s' & (Hrun & Hs' & Hm') & Hend).
    { apply (inv_more _ _ _ _ _ I1); [done|]. intros r e c' Hr He _. left.
      apply elem_of_cons in Hr as [Hr|Hr]; [right|by left]. split; [done|]. cbn [Nat.add].
      unfold edge_of in He. unfold degree. rewrite Hr in He.
      destruct (g0 !! i) as [n0|]; [|done]. by eapply lookup_lt_Some. }
    { rewrite (remaining_cons i S HiS Hil) in Hb. simpl in Hq1. lia. }
    exists r, s'. split; [|done]. split; [expose; by rewrite Hr1|]. split; [done|by rewrite Hm', Hm1].
Qed.
(** ** The start *)

Definition fresh (s : search W) (c : f32) : Graph :=
  updated (with_search_state reset <$> graph s) st (mk_search_state None c f32_max).

Lemma fresh_inv s : shape (graph s) = shape g0 ->
  inv (fresh s f32_zero) [(f32_zero, st)] [] (fun r => fst r ∈ []).
Proof.
  intros Hs. set (g := with_search_state reset <$> graph s).
  assert (shape g = shape g0) as Hg.
  { rewrite <- Hs. unfold shape, g. rewrite <- list_fmap_compose. done. }
  assert (forall i, dist g i = f32_max /\ par g i = None) as Hall.
  { intros i. unfold dist, par, g. rewrite list_lookup_fmap. by destruct (graph s !! i). }
  assert (st < length g)%nat as Hl by by rewrite (shape_length g g0).
  destruct (updated_same g st (mk_search_state None f32_zero f32_max) Hl) as [Hd Hp].
  assert (forall i, i <> st -> dist (fresh s f32_zero) i = f32_max /\ par (fresh s f32_zero) i = None) as Ho.
  { intros i Hi. destruct (updated_other g st i (mk_search_state None f32_zero f32_max) Hi) as [H2 H3].
    unfold fresh. fold g. rewrite H2, H3. apply Hall. }
  change (updated g st _) with (fresh s f32_zero) in Hd, Hp. cbn [integrated_cost parent_edge] in Hd, Hp.
  split; try done.
  - unfold fresh. by rewrite updated_shape.
  - intros i. destruct (decide (i = st)) as [->|Hi]; [by rewrite Hd|]. rewrite (proj1 (Ho i Hi)). apply num_max.
  - intros i Hi. left. destruct (Ho i Hi). by split.
  - intros i Hi. by apply not_elem_of_nil in Hi.
  - intros r e c Hr. by apply not_elem_of_nil in Hr.
  - intros i _ Hlt. destruct (decide (i = st)) as [->|Hi]; [rewrite Hd; by left|].
    rewrite (proj1 (Ho i Hi)) in Hlt. unfold limit in Hlt. lia.
  - intros i j Hi. by apply not_elem_of_nil in Hi.
  - intros c i Hi. apply list_elem_of_singleton in Hi as [= -> ->]. rewrite Hd.
    repeat split; try done; lia.
  - intros [|? []] i S2; done.
  - constructor.
  - apply not_elem_of_nil.
Qed.

(** ** What the costs and parents mean *)

(** A walk cannot be cheaper than a bound on the open nodes. *)
Lemma walk_bound g Q S bound p : inv g Q S (fun r => fst r ∈ S) -> (forall j, j ∉ S -> bound <= D g j) ->
  forall i acc t, walk g0 i p gl -> num acc = true -> D g i <= units acc ->
  total price acc p = Some t -> bound <= units t.
Proof.
  intros I Hb. induction p as [|r p IH]; intros i acc t Hw Ha Hi Ht.
  - simpl in Hw. subst i. injection Ht as <-. pose proof (Hb gl (inv_goal _ _ _ _ I)). lia.
  - destruct (decide (i ∈ S)) as [HiS|HiS].
    + cbn [walk total] in Hw, Ht. destruct Hw as (Hri & e & He & Hw).
      destruct (price r) as [c|] eqn:Hc; [|done]. cbn [mbind option_bind] in Ht.
      pose proof (Hnum _ _ Hc). subst i.
      apply (IH (end_ e) (f32_add acc c) t); [done|by apply f32_num| |done].
      pose proof (inv_closed _ _ _ _ I r e c HiS He Hc).
      pose proof (f32_mono (dist g (fst r)) acc c (inv_num _ _ _ _ I _) Ha ltac:(done) Hi). lia.
    + pose proof (total_above price Hnum (r :: p) acc t Ha Ht) as [_ ?]. pose proof (Hb i HiS). lia.
Qed.

(** The parents from node [i] back to the start. *)
Fixpoint chain (g : Graph) (i : nat) (q : list EdgePtr) : Prop :=
  match q with
  | [] => i = st
  | r :: q => par g i = Some r /\ chain g (fst r) q
  end.

Lemma parent_edge_of g Q S done i r : inv g Q S done -> par g i = Some r ->
  exists e c, edge_of g0 r = Some e /\ end_ e = i /\ fst r ∈ S /\ price r = Some c /\
    D g i = units (f32_add (dist g (fst r)) c).
Proof.
  intros I Hr. destruct (decide (i = st)) as [->|Hi]; [rewrite (proj2 (inv_start _ _ _ _ I)) in Hr; done|].
  destruct (inv_node _ _ _ _ I i Hi) as [[Hn _]|(r' & e & c & Hr' & ? & ? & ? & ? & ? & _)]; [congruence|].
  assert (r' = r) as -> by congruence. by exists e, c.
Qed.

Lemma chain_settled g Q S done : inv g Q S done -> forall n S1 i S2, S = S1 ++ i :: S2 ->
  (length S2 <= n)%nat -> exists q, chain g i q /\ (length q <= length S2)%nat.
Proof.
  intros I. induction n as [|n IH]; intros S1 i S2 HS Hn;
    (destruct (decide (i = st)) as [->|Hi]; [exists []; split; [done|simpl; lia]|]);
    destruct (inv_tree _ _ _ _ I S1 i S2 HS Hi) as (r & Hr & Hin);
    apply list_elem_of_split in Hin as (S3 & S4 & ->).
  - rewrite length_app in Hn. simpl in Hn. lia.
  - rewrite length_app in Hn. simpl in Hn.
    destruct (IH (S1 ++ i :: S3) (fst r) S4) as (q & Hq & Hl); [by rewrite HS, <- app_assoc|lia|].
    exists (r :: q). split; [done|]. rewrite length_app. simpl. lia.
Qed.

Lemma chain_walk g Q S done q : inv g Q S done -> forall i, chain g i q ->
  walk g0 st (reverse q) i /\
  exists t, total price f32_zero (reverse q) = Some t /\ units t = D g i.
Proof.
  intros I. induction q as [|r q IH]; intros i Hc.
  - simpl in Hc. subst i. split; [done|]. exists f32_zero. by rewrite (proj1 (inv_start _ _ _ _ I)).
  - destruct Hc as [Hr Hc]. destruct (parent_edge_of g Q S done i r I Hr) as (e & c & He & <- & _ & Hp & HD).
    destruct (IH _ Hc) as (Hw & t & Ht & Hu). rewrite reverse_cons. split; [by apply walk_snoc|].
    exists (f32_add t c). rewrite total_snoc, Ht. cbn [mbind option_bind]. rewrite Hp. split; [done|].
    rewrite HD. pose proof (Hnum _ _ Hp).
    apply f32_same; try done; [|apply (inv_num _ _ _ _ I)].
    by apply (total_above price Hnum (reverse q) f32_zero t).
Qed.

(** Following the parents through the goal's own pointer. *)
Lemma unwind_run g Q S done q : inv g Q S done -> forall i fuel acc s,
  chain g i q -> (length q <= fuel)%nat -> searching s ->
  (forall j, j <> gl -> par (graph s) j = par g j) -> par (graph s) gl = par g i ->
  exists s', unwind fuel gl acc s = (Ok (acc ++ q), s') /\ searching s' /\
    queue s' = queue s /\ dist (graph s') gl = dist (graph s) gl.
Proof.
  intros I. induction q as [|r q IH]; intros i fuel acc s Hc Hf Hs Hother Hgoal;
    destruct (searching_node s gl Hs Hgl) as (n & Hn & Hd & Hp).
  - exists s. rewrite app_nil_r. split; [|done]. simpl in Hc. subst i.
    rewrite (proj2 (inv_start _ _ _ _ I)) in Hgoal.
    destruct fuel; cbn [unwind]; expose; by rewrite (node_at_run gl s n Hn), Hp, Hgoal.
  - destruct fuel as [|fuel]; [simpl in Hf; lia|]. destruct Hc as [Hr Hc].
    destruct (parent_edge_of g Q S done i r I Hr) as (e & c & He & _ & HrS & _ & _).
    destruct (wf_edges g0 Hwf r e He) as [Hse _].
    assert (fst r < length g0)%nat as Hfl by apply (inv_settled _ _ _ _ I _ HrS).
    assert (fst r <> gl) as Hrg by (intros Heq; apply (inv_goal _ _ _ _ I); by rewrite <- Heq).
    destruct (searching_node s (fst r) Hs Hfl) as (m & Hm & _ & Hmp).
    destruct (set_state_run gl (fun x => mk_search_state (parent_edge (search_state m)) (integrated_cost x)
      (traversal_cost x)) s Hs Hgl) as (stt & Hset & Hstd & _).
    set (stt' := mk_search_state _ _ _) in Hset.
    assert (gl < length (graph s))%nat as Hgs by (rewrite (shape_length _ g0) by apply Hs; done).
    destruct (updated_same (graph s) gl stt' Hgs) as [Hud Hup].
    assert (searching (set_graph (updated (graph s) gl stt') s)) as Hs1.
    { destruct Hs. split; try done. simpl. by rewrite updated_shape. }
    destruct (IH (fst r) fuel (acc ++ [r]) _ Hc ltac:(simpl in Hf; lia) Hs1) as (s' & Hrun & Hs' & Hq' & Hd').
    + intros j Hj. cbn [graph set_graph]. rewrite (proj2 (updated_other _ gl j stt' Hj)). by apply Hother.
    + cbn [graph set_graph]. rewrite Hup. cbn [stt' parent_edge]. rewrite Hmp. by apply Hother.
    + exists s'. split; [|split; [done|split; [by rewrite Hq'|]]].
      * cbn [unwind]. expose. rewrite (node_at_run gl s n Hn), Hp, Hgoal, Hr. cbv beta iota.
        rewrite (edge_at_run r e s He Hs). cbv beta iota. rewrite Hse, (node_at_run _ s m Hm). cbv beta iota.
        rewrite Hset. cbv beta iota. rewrite Hrun. by rewrite <- app_assoc.
      * rewrite Hd'. cbn [graph set_graph]. by rewrite Hud.
Qed.
(** ** From the call to the route *)

Hypothesis Hsid : forall n, g0 !! st = Some n -> nodeid n = sid.

Lemma traversal_run s : graph s = g0 -> queue s = [] -> plugins s = np ->
  Z.of_nat (1 + remaining []) < max_iterations s ->
  exists r s', findShortestGraphTraversal st gl blocked req s = (Ok tt, s') /\ searching s' /\ ended r s'.
Proof.
  intros Hg Hq Hp Hmax. destruct (lookup_lt_is_Some_2 g0 st Hst) as [n Hn].
  destruct (lookup_lt_is_Some_2 g0 gl Hgl) as [m Hm].
  set (s1 := set_graph (with_search_state reset <$> graph s) s).
  assert (forall i k, g0 !! i = Some k -> graph s1 !! i = Some (with_search_state reset k)) as Hlook.
  { intros i k Hk. simpl. by rewrite Hg, list_lookup_fmap, Hk. }
  set (s2 := set_ids sid gid s1).
  set (s3 := set_queue [(f32_zero, st)] (set_graph (fresh s f32_zero) s2)).
  assert (shape (graph s) = shape g0) as Hshape by by rewrite Hg.
  pose proof (fresh_inv s Hshape) as I.
  assert (searching s3) as Hs3 by (split; try done; by apply I).
  destruct (search_loop_ends (Z.to_nat (max_iterations s3)) s3 [] Hs3 I) as (r & s' & (Hrun & Hs' & _) & Hend).
  { change (max_iterations s3) with (max_iterations s). simpl length. lia. }
  exists r, s'. split; [|done]. unfold findShortestGraphTraversal, resetSearchStates, modify, addNode. expose.
  fold s1. rewrite (node_at_run st s1 _ (Hlook st n Hn)), (node_at_run gl s1 _ (Hlook gl m Hm)).
  cbv beta iota. cbn [nodeid with_search_state]. rewrite (Hsid n Hn), (Hgid m Hm). fold s2.
  rewrite (set_state_at st _ s2 (with_search_state reset n) (Hlook st n Hn)).
  unfold modify, get. expose. cbn [queue set_graph set_queue set_ids]. 
  replace (queue s2) with (@nil NodeElement) by (symmetry; exact Hq).
  change (set_queue _ _) with s3. rewrite Hrun. by destruct r as [|[|k]]; [|destruct Hend as (_ & ? & ? & _ & [? _])|].
Qed.

(** The two ways to end, for the caller. *)
Lemma route_run s : graph s = g0 -> queue s = [] -> plugins s = np -> st <> gl ->
  Z.of_nat (1 + remaining []) < max_iterations s ->
  exists s', queue s' = [] /\ shape (graph s') = shape g0 /\
    ((exists route t, findRoute st gl blocked req s = (Ok route, s') /\ start_node route = st /\
        walk g0 st (edges route) gl /\ total price f32_zero (edges route) = Some t /\
        SFeqb (route_cost route) t = true /\
        forall p t', walk g0 st p gl -> total price f32_zero p = Some t' -> SFleb t t' = true) \/
     (findRoute st gl blocked req s = (Throw no_valid_route, s') /\
        forall p t', walk g0 st p gl -> total price f32_zero p = Some t' -> SFleb f32_max t' = true)).
Proof.
  intros Hg Hq Hp Hne Hmax.
  destruct (traversal_run s Hg Hq Hp Hmax) as (r & s1 & Hrun & Hs1 & Hq1 & Q & S & I & Hend).
  destruct (searching_node s1 gl Hs1 Hgl) as (n & Hn & Hd & Hpar).
  assert (findRoute st gl blocked req s =
    (if bool_decide (par (graph s1) gl = None) then (Throw no_valid_route, s1)
     else (s ← get; l ← unwind (length (graph s)) gl []; n ← node_at gl;
           mret (mk_route st (reverse l) (integrated_cost (search_state n)))) s1)) as Hstep.
  { unfold findRoute, get. expose. rewrite Hg. rewrite bool_decide_eq_false_2 by (by intros ->; simpl in Hst; lia).
    rewrite !bool_decide_eq_false_2 by lia. rewrite Hrun. cbv beta iota.
    rewrite (node_at_run gl s1 n Hn), Hpar. by destruct (bool_decide _). }
  assert (forall B x, (forall j, j ∉ S -> B <= D (graph s1) j) -> num x = true -> units x = B ->
    forall p t', walk g0 st p gl -> total price f32_zero p = Some t' -> SFleb x t' = true) as Hopt.
  { intros B x HB Hx Hxu p t' Hw Ht.
    destruct (total_above price Hnum p f32_zero t' num_zero Ht) as [Hnt _].
    rewrite (leb_units 24 128) by (done || lia). apply Z.leb_le. rewrite Hxu.
    apply (walk_bound _ Q S B p I HB st f32_zero t' Hw num_zero); [|done].
    by rewrite (proj1 (inv_start _ _ _ _ I)). }
  destruct (inv_node _ _ _ _ I gl ltac:(done)) as [[Hnone Hfar]|(r0 & e & c & Hpg & _ & _ & HrS & _ & _ & Hlt)].
  - exists s1. split; [done|]. split; [apply Hs1|]. right. rewrite Hstep, bool_decide_eq_true_2 by done.
    split; [done|]. apply (Hopt limit); [|apply num_max|done].
    destruct r as [|k]; [destruct Hend as [Hlt _]; rewrite Hfar in Hlt; unfold limit in Hlt; lia|].
    intros j Hj. destruct Hend as [_ ->].
    destruct (decide (D (graph s1) j < limit)) as [Hl|]; [|lia].
    pose proof (inv_live _ _ _ _ I j Hj Hl) as Hin. by apply not_elem_of_nil in Hin.
  - assert (forall j, j ∉ S -> D (graph s1) gl <= D (graph s1) j) as Hmin.
    { destruct r as [|k]; [apply Hend|]. destruct Hend as [_ ->].
      pose proof (inv_live _ _ _ _ I gl (inv_goal _ _ _ _ I) Hlt) as Hin. by apply not_elem_of_nil in Hin. }
    apply list_elem_of_split in HrS as Hsp. destruct Hsp as (S1 & S2 & HS).
    destruct (chain_settled _ _ _ _ I (length S2) S1 (fst r0) S2 HS ltac:(lia)) as (q & Hq' & Hlen).
    assert (length S <= length g0)%nat as HSl.
    { rewrite <- (length_seq (length g0) 0). apply submseteq_length, NoDup_submseteq; [apply I|].
      intros x Hx. apply elem_of_seq. pose proof (inv_settled _ _ _ _ I x Hx). lia. }
    destruct (unwind_run _ Q S _ (r0 :: q) I gl (length (graph s1)) [] s1) as (s' & Hun & Hs' & Hqs & Hds); try done.
    { rewrite (shape_length _ g0) by apply Hs1. rewrite HS, length_app in HSl. simpl in *. lia. }
    destruct (chain_walk _ Q S _ (r0 :: q) I gl) as (Hw & t & Ht & Hu); [done|].
    destruct (searching_node s' gl Hs' Hgl) as (n' & Hn' & Hd' & _).
    assert (num t = true) as Hnt by by apply (total_above price Hnum (reverse (r0 :: q)) f32_zero t).
    exists s'. split; [congruence|]. split; [apply Hs'|]. left.
    exists (mk_route st (reverse (r0 :: q)) (integrated_cost (search_state n'))), t.
    split.
    { rewrite Hstep, bool_decide_eq_false_2 by congruence. unfold get. expose. rewrite Hun. cbv beta iota.
      by rewrite (node_at_run gl s' n' Hn'). }
    split; [done|]. split; [exact Hw|]. split; [exact Ht|]. cbn [route_cost].
    pose proof (inv_num _ _ _ _ I gl) as Hng. rewrite Hd', Hds.
    split; [rewrite (eqb_units 24 128) by (done || lia); by apply Z.eqb_eq|].
    by apply (Hopt (D (graph s1) gl)).
Qed.
End Search.

(** ** Graphs without plugins *)

Definition edge_count (g : Graph) : nat := foldr (fun n k => (length (neighbors n) + k)%nat) 0%nat g.

Lemma remaining_all g : remaining g [] = edge_count g.
Proof.
  unfold remaining. assert (forall l2 l1, g = l1 ++ l2 ->
    open_degrees g [] (seq (length l1) (length l2)) = edge_count l2) as Hall; [|by apply (Hall g [])].
  induction l2 as [|n l2 IH]; intros l1 Hg; [done|]. cbn [length seq open_degrees foldr edge_count].
  fold (open_degrees g [] (seq (S (length l1)) (length l2))) (edge_count l2).
  rewrite bool_decide_eq_false_2 by apply not_elem_of_nil.
  replace (S (length l1)) with (length (l1 ++ [n])) by (rewrite length_app; simpl; lia).
  rewrite IH by (by rewrite Hg, <- app_assoc). f_equal. unfold degree.
  by rewrite Hg, lookup_app_r, Nat.sub_diag by lia.
Qed.

(** The price of an edge that no plugin scores. *)
Definition fixed_price (g : Graph) (blocked : list Z) (r : EdgePtr) : option f32 :=
  e ← edge_of g r; n ← g !! end_ e;
  if bool_decide (edgeid e ∈ blocked \/ nodeid n ∈ blocked) then None else Some (cost (edge_cost e)).

Lemma is_blocked_run {R W} `{EdgeCostFunctions R W} e n (s : search W) blocked :
  graph s !! end_ e = Some n ->
  is_blocked e blocked s = (Ok (bool_decide (edgeid e ∈ blocked \/ nodeid n ∈ blocked)), s).
Proof.
  intros Hn. induction blocked as [|id l IH].
  - rewrite bool_decide_eq_false_2; [done|]. by intros [?%not_elem_of_nil|?%not_elem_of_nil].
  - cbn [is_blocked]. destruct (Z.eqb_spec id (edgeid e)) as [->|H1].
    { rewrite bool_decide_eq_true_2; [done|]. left. by left. }
    expose. rewrite (node_at_run _ s n Hn). cbv beta iota. destruct (Z.eqb_spec id (nodeid n)) as [->|H2].
    { rewrite bool_decide_eq_true_2; [done|]. right. by left. }
    rewrite IH. do 2 f_equal. apply bool_decide_ext. rewrite !elem_of_cons.
    split; [by intros [?|?]; [left; right|right; right]|by intros [[|]|[|]]; [done|left|done|right]].
Qed.

Lemma fixed_price_run {R W} `{EdgeCostFunctions R W} g sid gid blocked (req : R) r e (s : search W) :
  well_formed g -> (forall r e, edge_of g r = Some e -> f64_le (f64_of_f32 (cost (edge_cost e))) f64_zero = false) ->
  edge_of g r = Some e -> searching g sid gid 0 s ->
  exists w, getTraversalCost blocked req r s = (Ok (fixed_price g blocked r), set_scorers w s).
Proof.
  intros Hwf Hpos He Hs. exists (scorers s).
  assert (end_ e < length (graph s))%nat as Hl.
  { rewrite (shape_length _ g) by apply Hs. by apply (wf_edges g Hwf r). }
  destruct (lookup_lt_is_Some_2 _ _ Hl) as [n Hn].
  destruct (shape_node g (graph s) (end_ e) n) as (n0 & Hn0 & Hid & _); [symmetry; apply Hs|done|].
  unfold getTraversalCost, get. expose. rewrite (edge_at_run g sid gid 0 r e s He Hs). cbv beta iota.
  rewrite (is_blocked_run e n s blocked Hn). cbv beta iota. unfold fixed_price. rewrite He. cbn [mbind option_bind].
  rewrite Hn0. cbn [mbind option_bind]. rewrite Hid. destruct (bool_decide (_ \/ _)); [by destruct s|].
  rewrite (searching_plugins _ _ _ _ s Hs), bool_decide_eq_true_2, orb_true_r by done.
  rewrite (Hpos r e He). by destruct s.
Qed.

(** ** Properties *)

(** C4: The planner finds a cheapest route. For a graph whose edges lead to its
    nodes and whose node ids differ, with non-negative prices that stay the same during
    the search, an empty queue, and more iterations allowed than edges plus one:
    the call ends without a timeout, restores the empty queue, and either returns a route that is a walk
    from start to goal, whose cost is the single precision sum of its prices along
    the way and at most the sum of every other walk, or throws because
    every walk costs at least the largest float. Rounding does not break the optimality. *)
Theorem route_cheapest {R W} `{EdgeCostFunctions R W} `{PriorityQueueLaws} (s : search W) st gl n m
  blocked (req : R) price
  (Hwf : well_formed (graph s)) (Hst : graph s !! st = Some n) (Hgl : graph s !! gl = Some m)
  (Hne : st <> gl) (Hq : queue s = [])
  (Hnum : forall r c, price r = Some c -> FloatOrder.num 24 128 c = true)
  (Hprice : forall r e s', edge_of (graph s) r = Some e ->
    searching (graph s) (nodeid n) (nodeid m) (plugins s) s' ->
    exists w, getTraversalCost blocked req r s' = (Ok (price r), set_scorers w s'))
  (Hmax : Z.of_nat (1 + edge_count (graph s)) < max_iterations s) :
  exists s', queue s' = [] /\ shape (graph s') = shape (graph s) /\
    ((exists route t, findRoute st gl blocked req s = (Ok route, s') /\ start_node route = st /\
        walk (graph s) st (edges route) gl /\ total price f32_zero (edges route) = Some t /\
        SFeqb (route_cost route) t = true /\
        forall p t', walk (graph s) st p gl -> total price f32_zero p = Some t' -> SFleb t t' = true) \/
     (findRoute st gl blocked req s = (Throw no_valid_route, s') /\
        forall p t', walk (graph s) st p gl -> total price f32_zero p = Some t' -> SFleb f32_max t' = true)).
Proof.
  apply (route_run (graph s) st gl blocked req price (nodeid n) (nodeid m) (plugins s)); try done.
  - by eapply lookup_lt_Some.
  - by eapply lookup_lt_Some.
  - intros k Hk. congruence.
  - intros k Hk. congruence.
  - by rewrite remaining_all.
Qed.

(** ** A small graph *)

(** A priority queue that looks for the first least element. *)
Fixpoint pop_min (q : list NodeElement) : option (NodeElement * list NodeElement) :=
  match q with
  | [] => None
  | x :: q =>
      match pop_min q with
      | None => Some (x, [])
      | Some (y, r) => if SFltb (fst y) (fst x) then Some (y, x :: r) else Some (x, y :: r)
      end
  end.

#[export] Instance linear_queue : PriorityQueue := {| pq_pop := pop_min |}.

Lemma pop_min_none q : pop_min q = None -> q = [].
Proof. destruct q as [|x q]; [done|]. simpl. destruct (pop_min q) as [[]|]; [by destruct (SFltb _ _)|done]. Qed.

Lemma pop_min_perm q : forall x q', pop_min q = Some (x, q') -> x :: q' ≡ₚ q.
Proof.
  induction q as [|y q IH]; intros x q' Hp; [done|]. simpl in Hp.
  destruct (pop_min q) as [[z r]|] eqn:Hr.
  - specialize (IH z r eq_refl). destruct (SFltb _ _); injection Hp as <- <-.
    + rewrite <- IH. constructor.
    + by rewrite <- IH.
  - injection Hp as <- <-. by rewrite (pop_min_none q Hr).
Qed.

Lemma pop_min_least q : forall x q', pop_min q = Some (x, q') ->
  Forall (fun y => FloatOrder.num 24 128 (fst y) = true) q -> Forall (fun y => SFltb (fst y) (fst x) = false) q.
Proof.
  induction q as [|y q IH]; intros x q' Hp Hn; [done|]. apply list.Forall_cons in Hn as [Hy Hn]. simpl in Hp.
  assert (forall a b, FloatOrder.num 24 128 a = true -> FloatOrder.num 24 128 b = true ->
    SFltb a b = (units a <? units b)) as Hlt by (intros; by apply (ltb_units 24 128)).
  destruct (pop_min q) as [[z r]|] eqn:Hr.
  - specialize (IH z r eq_refl Hn).
    assert (FloatOrder.num 24 128 (fst z) = true) as Hz.
    { rewrite list.Forall_forall in Hn. apply Hn. rewrite <- (pop_min_perm q z r Hr). by left. }
    rewrite Hlt in Hp by done. destruct (Z.ltb_spec (units (fst z)) (units (fst y))); injection Hp as <- <-.
    + apply list.Forall_cons. split; [|done]. rewrite Hlt by done. apply Z.ltb_ge. lia.
    + apply list.Forall_cons. split; [rewrite Hlt by done; apply Z.ltb_ge; lia|].
      rewrite !list.Forall_forall in *. intros a Ha. specialize (IH a Ha). specialize (Hn a Ha).
      rewrite Hlt in IH |- * by done. apply Z.ltb_ge in IH. apply Z.ltb_ge. lia.
  - injection Hp as <- <-. rewrite (pop_min_none q Hr). apply list.Forall_cons. split; [|done].
    rewrite Hlt by done. apply Z.ltb_ge. lia.
Qed.

#[export] Instance linear_queue_laws : PriorityQueueLaws.
Proof.
  split; [|apply pop_min_perm|apply pop_min_least].
  intros q Hq. destruct (pop_min q) as [[x q']|] eqn:Hp; [by exists x, q'|]. by apply pop_min_none in Hp.
Qed.

#[export] Instance no_plugins : EdgeCostFunctions () () := {|
  plugin_prepare _ w := (Returned tt, w);
  plugin_score _ _ _ _ _ w := (Returned (true, f32_zero), w) |}.

Definition demo_cost (c : Z) : EdgeCost := mk_edge_cost (f32_of_Z c) true.

(** From node 0 to node 3: directly for 9, by way of 1 and 2 for 6; node 4 is cut off. *)
Definition demo_graph : Graph :=
  [mk_node 10 [mk_edge 1 0 3 (demo_cost 9); mk_edge 2 0 1 (demo_cost 1)] reset;
   mk_node 11 [mk_edge 3 1 2 (demo_cost 2)] reset;
   mk_node 12 [mk_edge 4 2 3 (demo_cost 3); mk_edge 5 2 0 (demo_cost 1)] reset;
   mk_node 13 [] reset; mk_node 14 [mk_edge 6 4 0 (demo_cost 1)] reset].

Definition demo_search : search () := mk_search 100 0 0 [] 0 demo_graph tt.

Lemma demo_edges (P : EdgePtr -> DirectionalEdge -> Prop) :
  P (0, 0)%nat (mk_edge 1 0 3 (demo_cost 9)) -> P (0, 1)%nat (mk_edge 2 0 1 (demo_cost 1)) ->
  P (1, 0)%nat (mk_edge 3 1 2 (demo_cost 2)) -> P (2, 0)%nat (mk_edge 4 2 3 (demo_cost 3)) ->
  P (2, 1)%nat (mk_edge 5 2 0 (demo_cost 1)) -> P (4, 0)%nat (mk_edge 6 4 0 (demo_cost 1)) ->
  forall r e, edge_of demo_graph r = Some e -> P r e.
Proof.
  intros ? ? ? ? ? ? [i k] e He. unfold edge_of in He. cbn [fst snd] in He.
  destruct i as [|[|[|[|[|i]]]]]; cbn in He; destruct k as [|[|k]]; cbn in He; by simplify_eq.
Qed.

Lemma demo_graph_wf : well_formed demo_graph.
Proof.
  split; [apply demo_edges; (split; [done|simpl; lia])|].
  intros i j n m Hi Hj Hid.
  destruct i as [|[|[|[|[|i]]]]]; cbn in Hi; simplify_eq;
    destruct j as [|[|[|[|[|j]]]]]; cbn in Hj; by simplify_eq.
Qed.

Lemma demo_positive r e : edge_of demo_graph r = Some e ->
  f64_le (f64_of_f32 (cost (edge_cost e))) f64_zero = false.
Proof. revert r e. apply demo_edges; by vm_compute. Qed.

Lemma demo_num r c : fixed_price demo_graph [] r = Some c -> FloatOrder.num 24 128 c = true.
Proof.
  unfold fixed_price. destruct (edge_of demo_graph r) as [e|] eqn:He; [|done]. cbn [mbind option_bind].
  destruct (demo_graph !! end_ e); [|done]. cbn [mbind option_bind].
  rewrite bool_decide_eq_false_2 by (by intros [?%not_elem_of_nil|?%not_elem_of_nil]).
  intros [= <-]. revert r e He. apply demo_edges; by vm_compute.
Qed.

Lemma route_cheapest_witness :
  exists route s', findRoute 0 3 [] () demo_search = (Ok route, s') /\
    edges route = [(0, 1); (1, 0); (2, 0)]%nat /\
    forall p t', walk demo_graph 0 p 3 -> total (fixed_price demo_graph []) f32_zero p = Some t' ->
      SFleb (f32_of_Z 6) t' = true.
Proof.
  destruct (route_cheapest demo_search 0 3 _ _ [] () (fixed_price demo_graph []) demo_graph_wf
    eq_refl eq_refl ltac:(discriminate) eq_refl demo_num
    (fun r e s' => fixed_price_run demo_graph 10 13 [] () r e s' demo_graph_wf demo_positive)
    ltac:(simpl; lia)) as (s' & _ & _ & [(route & t & Hr & _ & _ & Ht & _ & Hopt)|[Hr _]]).
  - exists route, s'. split; [exact Hr|].
    assert (edges route = [(0, 1); (1, 0); (2, 0)]%nat) as Hed.
    { assert (fst (findRoute 0 3 [] () demo_search) = Ok route) as H1 by (rewrite Hr; reflexivity).
      vm_compute in H1. injection H1 as <-. reflexivity. }
    split; [exact Hed|]. rewrite Hed in Ht.
    assert (Some t = Some (f32_of_Z 6)) as Ht6 by (rewrite <- Ht; vm_compute; reflexivity).
    injection Ht6 as ->. exact Hopt.
  - exfalso. assert (fst (findRoute 0 3 [] () demo_search) = Throw no_valid_route) as H1
      by (rewrite Hr; reflexivity). vm_compute in H1. discriminate.
Defined.

(** An edge without a positive cost ends the search by an exception, and the queue
    keeps its entries: pointers into a graph that may be replaced before the next
    search. *)
Example exception_keeps_queue :
  let g := [mk_node 1 [mk_edge 1 0 1 (demo_cost 1); mk_edge 2 0 1 (demo_cost 0)] reset; mk_node 2 [] reset] in
  let r := findRoute 0 1 [] () (mk_search 100 0 0 [] 0 g tt) in
  fst r = Throw no_valid_graph /\ queue (snd r) = [(f32_of_Z 1, 1%nat)].
Proof. by vm_compute. Qed.

End RouteSearch.
