(* ===== verification/Image.v ===== *)
(** * Images over a buffer ([nav2_costmap_2d/denoise/image.hpp])

    An image is a window on a buffer of pixels owned by someone else: the position of
    its first pixel, its size, and the distance between the starts of two rows. Copying
    an image shares the pixels, so the buffer is an argument of the operations and what
    they return. A pointer to a pixel is an index of the buffer. *)

From stdpp Require Import base option list numbers.
From Stdlib Require Import ZArith Lia.
From S2P Require Import Prelude.

Module Image.

Record image : Type := mk_image { data_start : Z; rows : Z; columns : Z; step : Z }.

(** [Image()]. *)
Definition no_image : image := mk_image 0 0 0 0.

Definition empty (im : image) : bool := (rows im =? 0) || (columns im =? 0).

Definition row (im : image) (r : Z) : Z := data_start im + r * step im.

(** The two loops over the pixels, row by row. *)
Definition for_pixels {S} (im : image) (body : Z -> Z -> S -> res S) : S -> res S :=
  for_each (Z.to_nat (rows im)) 0 (fun r => for_each (Z.to_nat (columns im)) 0 (body r)).

(** Both versions of [forEach]: with a function that replaces the pixel, and with one
    that reads it and changes what it captured. *)
Definition forEach {T} (im : image) (fn : T -> res T) : list T -> res (list T) :=
  for_pixels im (fun r c mem =>
    x ← aget mem (row im r + c);
    y ← fn x;
    aset mem (row im r + c) y).

Definition forEach_const {T S} (im : image) (mem : list T) (fn : T -> S -> res S) : S -> res S :=
  for_pixels im (fun r c s => x ← aget mem (row im r + c); fn x s).

(** The source and the target are in different buffers. *)
Definition convert {T U} (im : image) (mem : list T) (target : image) (converter : T -> U -> res U)
    (target_mem : list U) : res (list U) :=
  if negb (rows im =? rows target) || negb (columns im =? columns target) then Throw logic_error
  else
    for_pixels im (fun r c target_mem =>
      src ← aget mem (row im r + c);
      trg ← aget target_mem (row target r + c);
      y ← converter src trg;
      aset target_mem (row target r + c) y) target_mem.

(** ** Pixels by coordinates *)

Definition inside (im : image) (r c : Z) : Prop := 0 <= r < rows im /\ 0 <= c < columns im.

#[export] Instance inside_dec im r c : Decision (inside im r c).
Proof. unfold inside. apply _. Defined.

Definition pixel {T} (im : image) (mem : list T) (r c : Z) : option T :=
  mem !! Z.to_nat (row im r + c).

(** The image lies in its buffer and its rows do not overlap. *)
Record valid {T} (im : image) (mem : list T) : Prop := {
  valid_start : 0 <= data_start im;
  valid_columns : 0 <= columns im <= step im;
  valid_rows : 0 <= rows im;
  valid_end : 0 < rows im -> row im (rows im - 1) + columns im <= Z.of_nat (length mem) }.

Lemma valid_length {T U} im (mem : list T) (mem' : list U) :
  length mem = length mem' -> valid im mem -> valid im mem'.
Proof. intros Hl []. constructor; try done. rewrite <- Hl. done. Qed.

Lemma position_in {T} im (mem : list T) r c : valid im mem -> inside im r c ->
  0 <= row im r + c < Z.of_nat (length mem).
Proof.
  intros [] [? ?]. unfold row in *. specialize (valid_end0 ltac:(lia)). nia.
Qed.

Lemma position_inj {T} im (mem : list T) r c r' c' : valid im mem ->
  inside im r c -> inside im r' c' -> row im r + c = row im r' + c' -> r = r' /\ c = c'.
Proof.
  intros [] [? ?] [? ?]. unfold row. intros E.
  assert (r = r') as -> by (assert (r < r' \/ r = r' \/ r > r') as [|[|]] by lia; nia). lia.
Qed.

Lemma pixel_in {T} im (mem : list T) r c : valid im mem -> inside im r c ->
  is_Some (pixel im mem r c).
Proof. intros Hv Hi. apply lookup_lt_is_Some_2. pose proof (position_in im mem r c Hv Hi). lia. Qed.

Lemma aget_pixel {T} im (mem : list T) r c x : valid im mem -> inside im r c ->
  pixel im mem r c = Some x -> aget mem (row im r + c) = Ok x.
Proof. intros Hv Hi Hx. apply aget_ok. split; [apply (position_in im mem r c Hv Hi)|done]. Qed.

(** The rule of the loops over the pixels: [P n] holds when [n] pixels are done. *)
Lemma for_pixels_inv {S} im (P : Z -> S -> Prop) body s : 0 <= rows im -> 0 <= columns im ->
  P 0 s ->
  (forall r c s, inside im r c -> P (r * columns im + c) s ->
     exists s', body r c s = Ok s' /\ P (r * columns im + c + 1) s') ->
  exists s', for_pixels im body s = Ok s' /\ P (rows im * columns im) s'.
Proof.
  intros Hr Hc H0 Hb. unfold for_pixels.
  destruct (for_each_inv (fun r => P (r * columns im))
    (fun r => for_each (Z.to_nat (columns im)) 0 (body r)) (Z.to_nat (rows im)) 0 s)
    as (s' & Hs' & Hp); [done| |].
  - intros r s1 Hr1 Hs1.
    destruct (for_each_inv (fun c => P (r * columns im + c)) (body r) (Z.to_nat (columns im)) 0 s1)
      as (s2 & Hs2 & Hp2); [by rewrite Z.add_0_r| |].
    + intros c s3 Hc3 Hs3. destruct (Hb r c s3) as (s4 & ? & ?); [split; lia|done|].
      exists s4. by rewrite Z.add_assoc.
    + exists s2. split; [done|]. rewrite Z.add_0_l, Z2Nat.id in Hp2 by done.
      by replace ((r + 1) * columns im) with (r * columns im + columns im) by lia.
  - exists s'. split; [done|]. by rewrite Z.add_0_l, Z2Nat.id in Hp.
Qed.

(** Every pixel of [mem'] is [f r c] of the pixel of [mem]; the rest of the buffer is kept. *)
Record mapped {T} (im : image) (f : Z -> Z -> T -> T) (mem mem' : list T) : Prop := {
  mapped_length : length mem' = length mem;
  mapped_in : forall r c x, inside im r c -> pixel im mem r c = Some x ->
    pixel im mem' r c = Some (f r c x);
  mapped_out : forall k : nat, (forall r c, inside im r c -> Z.to_nat (row im r + c) <> k) ->
    mem' !! k = mem !! k }.

Lemma for_pixels_map {T} im (mem : list T) (f : Z -> Z -> T -> T)
    (body : Z -> Z -> list T -> res (list T)) : valid im mem ->
  (forall r c x m, inside im r c -> length m = length mem -> pixel im mem r c = Some x ->
     pixel im m r c = Some x ->
     body r c m = Ok (<[Z.to_nat (row im r + c) := f r c x]> m)) ->
  exists mem', for_pixels im body mem = Ok mem' /\ mapped im f mem mem'.
Proof.
  intros Hv Hb. pose proof Hv as [? ? ? _].
  destruct (for_pixels_inv im (fun n m => length m = length mem /\
      (forall r c x, inside im r c -> pixel im mem r c = Some x ->
         pixel im m r c = Some (if r * columns im + c <? n then f r c x else x)) /\
      (forall k, (forall r c, inside im r c -> Z.to_nat (row im r + c) <> k) -> m !! k = mem !! k))
    body mem) as (m & Hm & Hl & Hin & Hout); [lia|lia| | |].
  - split; [done|]. split; [|done]. intros r c x [? ?] Hx.
    replace (r * columns im + c <? 0) with false; [done|]. symmetry. apply Z.ltb_ge. nia.
  - intros r c m Hi (Hl & Hin & Hout).
    destruct (pixel_in im mem r c Hv Hi) as [x Hx].
    pose proof (Hin r c x Hi Hx) as Hx'. rewrite Z.ltb_irrefl in Hx'.
    rewrite (Hb r c x m Hi Hl Hx Hx'). eexists. split; [done|].
    split; [by rewrite length_insert|]. split.
    + intros r' c' x' Hi' Hx''. destruct (decide (r' = r /\ c' = c)) as [[-> ->]|Hne].
      * assert (x' = x) as -> by congruence. unfold pixel. rewrite list_lookup_insert_eq.
        -- by replace (_ <? _) with true by (symmetry; apply Z.ltb_lt; lia).
        -- rewrite Hl. pose proof (position_in im mem r c Hv Hi). lia.
      * unfold pixel. rewrite list_lookup_insert_ne.
        -- fold (pixel im m r' c'). rewrite (Hin r' c' x' Hi' Hx''). f_equal.
           assert (r' * columns im + c' <> r * columns im + c)
             by (destruct Hi, Hi'; assert (r < r' \/ r = r' \/ r > r') as [|[|]] by lia; nia).
           destruct (Z.ltb_spec (r' * columns im + c') (r * columns im + c)),
             (Z.ltb_spec (r' * columns im + c') (r * columns im + c + 1)); try done; lia.
        -- intros E. pose proof (position_in im mem r c Hv Hi).
           pose proof (position_in im mem r' c' Hv Hi').
           destruct (position_inj im mem r c r' c' Hv Hi Hi') as [-> ->]; [lia|]. by apply Hne.
    + intros k Hk. rewrite list_lookup_insert_ne; [by apply Hout|]. by apply Hk.
  - exists m. split; [done|]. constructor; [done| |done].
    intros r c x Hi Hx. rewrite (Hin r c x Hi Hx). destruct Hi.
    by replace (_ <? _) with true by (symmetry; apply Z.ltb_lt; nia).
Qed.

Lemma forEach_map {T} im (mem : list T) (fn : T -> res T) (f : T -> T) : valid im mem ->
  (forall r c x, inside im r c -> pixel im mem r c = Some x -> fn x = Ok (f x)) ->
  exists mem', forEach im fn mem = Ok mem' /\ mapped im (fun _ _ => f) mem mem'.
Proof.
  intros Hv Hf. apply for_pixels_map; [done|]. intros r c x m Hi Hl Hx Hm.
  assert (valid im m) as Hvm by (eapply valid_length; [|done]; done).
  rewrite (aget_pixel im m r c x Hvm Hi Hm), bind_Ok, (Hf r c x Hi Hx), bind_Ok.
  apply aset_ok. split; [|done]. apply (position_in im m r c Hvm Hi).
Qed.

(** The rule of a loop whose rounds may be undefined. *)
Lemma for_each_or {S} (P : Z -> S -> Prop) body n : forall i s, P i s ->
  (forall j s, i <= j < i + Z.of_nat n -> P j s -> (exists s', body j s = Ok s' /\ P (j + 1) s') \/ body j s = UB) ->
  (exists s', for_each n i body s = Ok s' /\ P (i + Z.of_nat n) s') \/ for_each n i body s = UB.
Proof.
  induction n as [|n IH]; intros i s Hs Hb; [left; exists s; by rewrite Z.add_0_r|]. cbn [for_each].
  destruct (Hb i s) as [(s1 & -> & Hp1)| ->]; [lia|done| |by right]. rewrite bind_Ok.
  replace (i + Z.of_nat (Datatypes.S n)) with (i + 1 + Z.of_nat n) by lia. apply IH; [done|].
  intros j s' Hj. apply Hb. lia.
Qed.

Lemma for_pixels_or {S} im (P : Z -> S -> Prop) body s : 0 <= rows im -> 0 <= columns im -> P 0 s ->
  (forall r c s, inside im r c -> P (r * columns im + c) s ->
     (exists s', body r c s = Ok s' /\ P (r * columns im + c + 1) s') \/ body r c s = UB) ->
  (exists s', for_pixels im body s = Ok s' /\ P (rows im * columns im) s') \/ for_pixels im body s = UB.
Proof.
  intros Hr Hc H0 Hb. unfold for_pixels.
  destruct (for_each_or (fun r => P (r * columns im)) (fun r => for_each (Z.to_nat (columns im)) 0 (body r))
    (Z.to_nat (rows im)) 0 s) as [(s' & Hs' & Hp)|Hu]; [done| | |by right].
  - intros r s1 Hr1 Hs1.
    destruct (for_each_or (fun c => P (r * columns im + c)) (body r) (Z.to_nat (columns im)) 0 s1)
      as [(s2 & Hs2 & Hp2)|Hu]; [by rewrite Z.add_0_r| | |by right].
    + intros c s3 Hc3 Hs3. rewrite Z.add_assoc. apply Hb; [split; lia|done].
    + left. exists s2. split; [done|]. rewrite Z.add_0_l, Z2Nat.id in Hp2 by done.
      by replace ((r + 1) * columns im) with (r * columns im + columns im) by lia.
  - left. exists s'. split; [done|]. by rewrite Z.add_0_l, Z2Nat.id in Hp.
Qed.

(** One pixel for which the function is undefined makes the whole loop undefined. *)
Lemma forEach_ub {T} im (mem : list T) (fn : T -> res T) (f : T -> T) (bad : T -> bool) r0 c0 x0 : valid im mem ->
  (forall r c x, inside im r c -> pixel im mem r c = Some x -> fn x = if bad x then UB else Ok (f x)) ->
  inside im r0 c0 -> pixel im mem r0 c0 = Some x0 -> bad x0 = true -> forEach im fn mem = UB.
Proof.
  intros Hv Hf Hi0 Hx0 Hbad. pose proof Hv as [? ? ? _].
  destruct (for_pixels_or im (fun n m => length m = length mem /\
      (forall r c, inside im r c -> n <= r * columns im + c -> pixel im m r c = pixel im mem r c) /\
      (forall r c x, inside im r c -> r * columns im + c < n -> pixel im mem r c = Some x -> bad x = false))
    (fun r c m => x ← aget m (row im r + c); y ← fn x; aset m (row im r + c) y) mem)
    as [(m & _ & _ & _ & Hall)|Hu]; [lia|lia| | | |exact Hu].
  - split; [done|]. split; [done|]. intros r c x [? ?] Hn. nia.
  - intros r c m Hi (Hl & Hrest & Hall). destruct (pixel_in im mem r c Hv Hi) as [x Hx].
    assert (valid im m) as Hvm by (eapply valid_length; [|done]; done).
    rewrite (aget_pixel im m r c x Hvm Hi), bind_Ok, (Hf r c x Hi Hx) by (by rewrite Hrest).
    destruct (bad x) eqn:Hb; [by right|]. left. rewrite bind_Ok. eexists. split.
    { apply aset_ok. split; [apply (position_in im m r c Hvm Hi)|done]. }
    split; [by rewrite length_insert|]. split.
    + intros r' c' Hi' Hn. unfold pixel. rewrite list_lookup_insert_ne; [apply Hrest; [done|lia]|].
      intros E. pose proof (position_in im mem r c Hv Hi). pose proof (position_in im mem r' c' Hv Hi').
      destruct (position_inj im mem r c r' c' Hv Hi Hi') as [-> ->]; lia.
    + intros r' c' x' Hi' Hn Hx'. destruct (decide (r' = r /\ c' = c)) as [[-> ->]|Hne]; [congruence|].
      apply (Hall r' c'); [done| |done].
      destruct Hi, Hi'. assert (r < r' \/ r = r' \/ r > r') as [|[|]] by lia; nia.
  - specialize (Hall r0 c0 x0 Hi0). rewrite Hbad in Hall. exfalso.
    assert (r0 * columns im + c0 < rows im * columns im) by (destruct Hi0; nia). by discriminate Hall.
Qed.

Lemma convert_map {T U} im (mem : list T) target (tm : list U) conv (f : Z -> Z -> U -> U) :
  valid im mem -> valid target tm -> rows im = rows target -> columns im = columns target ->
  (forall r c s t, inside target r c -> pixel im mem r c = Some s -> pixel target tm r c = Some t ->
     conv s t = Ok (f r c t)) ->
  exists tm', convert im mem target conv tm = Ok tm' /\ mapped target f tm tm'.
Proof.
  intros Hv Ht Hr Hc Hf. unfold convert. rewrite Hr, Hc, !Z.eqb_refl. cbn [negb orb].
  unfold for_pixels. rewrite Hr, Hc. fold (@for_pixels (list U) target).
  apply for_pixels_map; [done|].
  intros r c x m Hi Hl Hx Hm.
  assert (valid target m) as Hvm by (eapply valid_length; [|done]; done).
  assert (inside im r c) as Hi' by (unfold inside in *; lia).
  destruct (pixel_in im mem r c Hv Hi') as [s Hs].
  rewrite (aget_pixel im mem r c s Hv Hi' Hs), bind_Ok, (aget_pixel target m r c x Hvm Hi Hm), bind_Ok.
  rewrite (Hf r c s x Hi Hs Hx), bind_Ok.
  apply aset_ok. split; [|done]. apply (position_in target m r c Hvm Hi).
Qed.

End Image.
