(* ===== verification/LabelTrees.v ===== *)
(** * Equivalent labels as trees ([EquivalenceLabelTrees] of
    [nav2_costmap_2d/denoise/image_processing.hpp])

    A union-find structure in one vector: the entry of a label is its parent, a smaller
    label, or the label itself when it is a root. [label_max] is the largest value of
    the type of labels. *)

From stdpp Require Import base option list numbers.
From Stdlib Require Import ZArith Lia.
From S2P Require Import Prelude.

Module LabelTrees.

Inductive ConnectivityType : Type := Way4 | Way8.

#[export] Instance connectivity_eq_dec : EqDecision ConnectivityType.
Proof. solve_decision. Defined.

Record trees : Type := mk_trees { labels : list Z; labels_size : Z; next_free : Z }.

(** A new object, before its first [reset]. *)
Definition new : trees := mk_trees [] 0 0.

Section Label.
Context (label_max : Z).

Definition maxLabels (rows columns : Z) (connectivity : ConnectivityType) : Z :=
  let max_labels :=
    match connectivity with
    | Way4 => wrapu 64 (wrapu 64 (rows * columns) / 2 + 1)
    | Way8 => wrapu 64 (wrapu 64 (rows * columns) / 3 + 1)
    end in
  Z.min (wrapu 64 (max_labels + 1)) label_max.

(** Reserving memory may fail silently and is left out. *)
Definition reset (rows columns : Z) (connectivity : ConnectivityType) : trees :=
  mk_trees [0] (Z.min (maxLabels rows columns connectivity) label_max mod (label_max + 1)) 1.

Definition makeLabel : ST trees Z :=
  t ← get;
  if next_free t =? labels_size t then throw label_overflow
  else
    modify (fun t => mk_trees (labels t ++ [next_free t]) (labels_size t)
                       ((next_free t + 1) mod (label_max + 1)));;
    mret (next_free t).

(** [labels_\[i\]], and an assignment to it. *)
Definition parent (i : Z) : ST trees Z := fun t => (aget (labels t) i, t).
Definition set_parent (i v : Z) : ST trees () := fun t =>
  match aset (labels t) i v with
  | Ok l => (Ok tt, mk_trees l (labels_size t) (next_free t))
  | Throw e => (Throw e, t)
  | UB => (UB, t)
  end.

(** A path to the root is decreasing, so it has at most as many steps as the label
    where it starts. *)
Fixpoint find_root (fuel : nat) (root : Z) : ST trees Z :=
  p ← parent root;
  if p <? root then match fuel with O => undefined | S fuel => find_root fuel p end
  else mret root.

Definition findRoot (i : Z) : ST trees Z := find_root (Z.to_nat i) i.

Fixpoint set_root (fuel : nat) (i root : Z) : ST trees () :=
  j ← parent i;
  if j <? i then
    match fuel with
    | O => undefined
    | S fuel => set_parent i root;; set_root fuel j root
    end
  else set_parent i root.

Definition setRoot (i root : Z) : ST trees () := set_root (Z.to_nat i) i root.

Definition unionTrees (i j : Z) : ST trees Z :=
  root ← findRoot i;
  root ← (if negb (i =? j) then
            root_j ← findRoot j;
            let root := Z.min root root_j in
            setRoot j root;;
            mret root
          else mret root);
  setRoot i root;;
  mret root.

(** The loop of [getLabels] from label [i], [n] rounds; its result is [k]. *)
Fixpoint flatten (n : nat) (i k : Z) : ST trees Z :=
  match n with
  | O => mret k
  | S n =>
      p ← parent i;
      if p <? i then
        q ← parent p;
        set_parent i q;;
        flatten n (i + 1) k
      else
        set_parent i k;;
        flatten n (i + 1) ((k + 1) mod (label_max + 1))
  end.

(** Returns the labels as they are before [labels_.resize(k)], which still lie in the
    memory of the vector, with its new size [k]. *)
Definition getLabels : ST trees (list Z * Z) :=
  t ← get;
  k ← flatten (Z.to_nat (next_free t - 1)) 1 1;
  t ← get;
  modify (fun t => mk_trees (take (Z.to_nat k) (labels t)) (labels_size t) (next_free t));;
  mret (labels t, k).

(** ** Well formed trees *)

Definition at_ (t : trees) (i : Z) : Z := default (-1) (labels t !! Z.to_nat i).

Record wf (t : trees) : Prop := {
  wf_max : labels_size t <= label_max;
  wf_next : 1 <= next_free t <= labels_size t;
  wf_length : Z.of_nat (length (labels t)) = next_free t;
  wf_zero : at_ t 0 = 0;
  wf_parent : forall i, 1 <= i < next_free t -> 1 <= at_ t i <= i }.

Implicit Types t : trees.

Lemma at_lookup t i : wf t -> 0 <= i < next_free t -> labels t !! Z.to_nat i = Some (at_ t i).
Proof.
  intros H Hi. unfold at_. destruct (labels t !! Z.to_nat i) eqn:E; [done|].
  apply lookup_ge_None in E. pose proof (wf_length t H). lia.
Qed.

Lemma parent_run t i : wf t -> 0 <= i < next_free t -> parent i t = (Ok (at_ t i), t).
Proof.
  intros H Hi. unfold parent. f_equal. apply aget_ok. split; [lia|]. by apply at_lookup.
Qed.

Lemma wf_range t i : wf t -> 0 <= i < next_free t -> 0 <= at_ t i <= i.
Proof.
  intros H Hi. destruct (decide (i = 0)) as [->|]; [rewrite (wf_zero t H); lia|].
  pose proof (wf_parent t H i ltac:(lia)). lia.
Qed.

(** The root of a label, as a function: follow the parents as often as the label. *)
Fixpoint climb (fuel : nat) t (i : Z) : Z :=
  match fuel with
  | O => i
  | S fuel => if at_ t i <? i then climb fuel t (at_ t i) else i
  end.

Definition root t (i : Z) : Z := climb (Z.to_nat i) t i.

Lemma climb_fuel t fuel i : wf t -> 0 <= i < next_free t -> (Z.to_nat i <= fuel)%nat ->
  climb fuel t i = root t i.
Proof.
  intros H. unfold root.
  assert (forall f1 f2 i, 0 <= i < next_free t -> (Z.to_nat i <= f1)%nat -> (Z.to_nat i <= f2)%nat ->
    climb f1 t i = climb f2 t i) as G; [|intros; by apply G].
  induction f1 as [|f1 IH]; intros f2 j Hj H1 H2; pose proof (wf_range t j H Hj).
  - destruct f2; cbn [climb]; [done|]. by replace (at_ t j <? j) with false by (symmetry; apply Z.ltb_ge; lia).
  - destruct f2; cbn [climb]; destruct (Z.ltb_spec (at_ t j) j); try done; [lia|]. apply IH; lia.
Qed.

(** The two equations that define [root]. *)
Lemma root_self t i : at_ t i = i -> root t i = i.
Proof.
  intros E. unfold root. destruct (Z.to_nat i); [done|]. cbn [climb]. by rewrite E, Z.ltb_irrefl.
Qed.

Lemma root_parent t i : wf t -> 0 <= i < next_free t -> root t i = root t (at_ t i).
Proof.
  intros H Hi. pose proof (wf_range t i H Hi).
  destruct (decide (at_ t i = i)) as [->|Hne]; [done|].
  unfold root at 1. destruct (Z.to_nat i) as [|n] eqn:E; [lia|]. cbn [climb].
  replace (at_ t i <? i) with true by (symmetry; apply Z.ltb_lt; lia).
  apply climb_fuel; [done|lia|lia].
Qed.

(** Induction along the path of a label to its root. *)
Lemma path_ind t (P : Z -> Prop) : wf t ->
  (forall i, 0 <= i < next_free t -> at_ t i = i -> P i) ->
  (forall i, 0 <= i < next_free t -> at_ t i < i -> P (at_ t i) -> P i) ->
  forall i, 0 <= i < next_free t -> P i.
Proof.
  intros H Hroot Hstep i Hi. assert (Hn : exists n, (Z.to_nat i < n)%nat) by (eexists; apply Nat.lt_succ_diag_r).
  destruct Hn as [n Hn]. revert i Hi Hn. induction n as [|n IH]; intros i Hi Hn; [lia|].
  pose proof (wf_range t i H Hi).
  destruct (decide (at_ t i = i)); [by apply Hroot|]. apply Hstep; [done|lia|]. apply IH; lia.
Qed.

Lemma root_spec t i : wf t -> 0 <= i < next_free t ->
  0 <= root t i <= i /\ at_ t (root t i) = root t i.
Proof.
  intros H. apply (path_ind t (fun i => 0 <= root t i <= i /\ at_ t (root t i) = root t i)); [done| |].
  - intros j Hj E. rewrite root_self by done. split; [lia|done].
  - intros j Hj Hlt [? ?]. rewrite root_parent by done. split; [lia|done].
Qed.

Lemma root_idem t i : wf t -> 0 <= i < next_free t -> root t (root t i) = root t i.
Proof. intros H Hi. apply root_self. by apply root_spec. Qed.

(** Label 0 is alone in its tree. *)
Lemma root_pos t i : wf t -> 1 <= i < next_free t -> 1 <= root t i.
Proof.
  intros H Hi. revert i Hi.
  assert (forall i, 0 <= i < next_free t -> 1 <= i -> 1 <= root t i) as G.
  { apply (path_ind t (fun i => 1 <= i -> 1 <= root t i)); [done| |].
    - intros j Hj E ?. by rewrite root_self.
    - intros j Hj Hlt IH ?. rewrite root_parent by done. apply IH.
      pose proof (wf_parent t H j ltac:(lia)). lia. }
  intros i Hi. apply G; lia.
Qed.

(** ** Finding and setting a root *)

Lemma findRoot_run t i : wf t -> 0 <= i < next_free t -> findRoot i t = (Ok (root t i), t).
Proof.
  intros H Hi. unfold findRoot.
  assert (forall fuel, (Z.to_nat i <= fuel)%nat -> find_root fuel i t = (Ok (root t i), t)) as G;
    [|by apply G].
  revert i Hi. apply (path_ind t (fun i => forall fuel, (Z.to_nat i <= fuel)%nat ->
    find_root fuel i t = (Ok (root t i), t))); [done| |].
  - intros j Hj E fuel _. destruct fuel; cbn [find_root]; expose;
      rewrite (parent_run t j H Hj), E, Z.ltb_irrefl, (root_self t j E); done.
  - intros j Hj Hlt IH fuel Hf. pose proof (wf_range t j H Hj).
    destruct fuel as [|fuel]; [lia|]. cbn [find_root]. expose. rewrite (parent_run t j H Hj).
    replace (at_ t j <? j) with true by (symmetry; by apply Z.ltb_lt).
    rewrite IH by lia. by rewrite (root_parent t j H Hj).
Qed.

Definition update t (i v : Z) : trees :=
  mk_trees (<[Z.to_nat i := v]> (labels t)) (labels_size t) (next_free t).

Lemma set_parent_run t i v : wf t -> 0 <= i < next_free t ->
  set_parent i v t = (Ok tt, update t i v).
Proof.
  intros H Hi. unfold set_parent.
  replace (aset (labels t) i v) with (Ok (<[Z.to_nat i := v]> (labels t))); [done|].
  symmetry. apply aset_ok. split; [|done]. rewrite (wf_length t H). lia.
Qed.

Lemma at_update t i v j : wf t -> 0 <= i < next_free t -> 0 <= j ->
  at_ (update t i v) j = if decide (j = i) then v else at_ t j.
Proof.
  intros H Hi Hj. pose proof (wf_length t H). unfold at_, update. cbn [labels]. case_decide as E.
  - subst. rewrite list_lookup_insert_eq by lia. done.
  - rewrite list_lookup_insert_ne by lia. done.
Qed.

Lemma wf_update t i v : wf t -> 1 <= i < next_free t -> 1 <= v <= i -> wf (update t i v).
Proof.
  intros H Hi Hv. pose proof H as []. constructor; try done.
  - cbn. by rewrite length_insert.
  - rewrite at_update by (done || lia). case_decide; [lia|done].
  - intros j Hj. cbn in Hj. rewrite at_update by (done || lia). case_decide; [lia|by apply wf_parent0].
Qed.

(** The labels on the path from [i] to its root. *)
Inductive on_path t : Z -> Z -> Prop :=
  | path_here i : on_path t i i
  | path_up i k : at_ t i < i -> on_path t (at_ t i) k -> on_path t i k.

Lemma on_path_le t i k : on_path t i k -> k <= i.
Proof. induction 1; lia. Qed.

Lemma on_path_root t i k : wf t -> on_path t i k -> 0 <= i < next_free t -> root t k = root t i.
Proof.
  intros H. induction 1 as [|i k Hlt _ IH]; [done|]. intros Hi.
  rewrite IH; [|pose proof (wf_range t i H Hi); lia]. symmetry. by apply root_parent.
Qed.

Lemma root_on_path t i : wf t -> 0 <= i < next_free t -> on_path t i (root t i).
Proof.
  intros H. revert i. apply (path_ind t (fun i => on_path t i (root t i))); [done| |].
  - intros i Hi E. rewrite root_self by done. constructor.
  - intros i Hi Hlt IH. apply path_up; [done|]. by rewrite (root_parent t i H Hi).
Qed.

(** [set_root] gives exactly the labels of the path of [i] the parent [r]; [t] is the
    state before the first round, [t1] before the last [fuel] ones. *)
Lemma set_root_run t r fuel : forall t1 i, wf t -> wf t1 -> next_free t1 = next_free t ->
  1 <= r <= root t i -> 1 <= i < next_free t -> (Z.to_nat i <= fuel)%nat ->
  (forall k, 0 <= k <= i -> at_ t1 k = at_ t k) ->
  exists t', set_root fuel i r t1 = (Ok tt, t') /\ wf t' /\
    next_free t' = next_free t1 /\ labels_size t' = labels_size t1 /\
    forall k, 0 <= k -> (on_path t i k /\ at_ t' k = r) \/ (~ on_path t i k /\ at_ t' k = at_ t1 k).
Proof.
  induction fuel as [|fuel IH]; intros t1 i H H1 Hn Hr Hi Hf Hsame; [lia|].
  pose proof (wf_parent t H i Hi) as Hp. cbn [set_root]. expose.
  rewrite (parent_run t1 i H1), (Hsame i) by lia.
  pose proof (root_spec t i H ltac:(lia)) as [Hri _].
  assert (wf (update t1 i r)) as Hw by (apply wf_update; [done|lia|lia]).
  destruct (Z.ltb_spec (at_ t i) i) as [Hlt|Hge]; rewrite (set_parent_run t1 i r H1) by lia.
  - rewrite (root_parent t i H) in Hr by lia.
    destruct (IH (update t1 i r) (at_ t i) H Hw) as (t' & Ht' & Hwf' & Hn' & Hs' & Hk');
      [done|done|lia|lia| |].
    { intros k Hk. rewrite at_update by (done || lia). case_decide; [lia|]. apply Hsame. lia. }
    exists t'. do 4 (split; [done|]).
    intros k Hk. destruct (Hk' k Hk) as [[Hpk E]|[Hpk E]].
    + left. split; [by apply path_up|done].
    + rewrite at_update in E by (done || lia). case_decide as D.
      * subst. left. split; [constructor|done].
      * right. split; [|done]. intros Hpath. inversion Hpath; subst; [done|by apply Hpk].
  - exists (update t1 i r). do 4 (split; [done|]).
    intros k Hk. rewrite at_update by (done || lia). case_decide as D.
    + subst. left. split; [constructor|done].
    + right. split; [|done]. intros Hpath. inversion Hpath; subst; [done|lia].
Qed.

(** The trees of [t'] are those of [t] after the tree of [i] was hung below [r]. *)
Lemma setRoot_run t i r : wf t -> 1 <= i < next_free t -> 1 <= r <= root t i ->
  root t r = r ->
  exists t', setRoot i r t = (Ok tt, t') /\ wf t' /\
    next_free t' = next_free t /\ labels_size t' = labels_size t /\
    forall k, 0 <= k < next_free t ->
      root t' k = if decide (root t k = root t i) then r else root t k.
Proof.
  intros H Hi Hr Hrr. pose proof (root_spec t i H ltac:(lia)) as [Hri Hroot].
  destruct (set_root_run t r (Z.to_nat i) t i) as (t' & Ht' & Hw & Hn & Hs & Hk); try done.
  exists t'. do 4 (split; [done|]).
  assert (at_ t r = r) as Hat by (rewrite <- Hrr; apply root_spec; [done|lia]).
  assert (root t' r = r) as Hr'.
  { apply root_self. destruct (Hk r ltac:(lia)) as [[_ E]|[_ E]]; [done|]. by rewrite E. }
  apply (path_ind t (fun k => root t' k = if decide (root t k = root t i) then r else root t k));
    [done| |].
  - intros k Hk1 E. destruct (Hk k ltac:(lia)) as [[Hp E']|[Hp E']].
    + rewrite (root_parent t' k Hw), E', Hr' by lia.
      by rewrite decide_True by (apply on_path_root; [done|done|lia]).
    + rewrite (root_self t' k) by congruence. rewrite (root_self t k E).
      case_decide as D; [|done]. exfalso. apply Hp. rewrite D. apply root_on_path; [done|lia].
  - intros k Hk1 Hlt IH. destruct (Hk k ltac:(lia)) as [[Hp E']|[Hp E']].
    + rewrite (root_parent t' k Hw), E', Hr' by lia.
      by rewrite decide_True by (apply on_path_root; [done|done|lia]).
    + rewrite (root_parent t' k Hw), E' by lia. by rewrite IH, <- (root_parent t k H Hk1).
Qed.

(** ** Joining two trees *)

(** The root of a label once the classes of the roots [a] and [b] are one with root [m]. *)
Definition joined (a b m x : Z) : Z := if decide (x = a \/ x = b) then m else x.

Lemma unionTrees_run t i j : wf t -> 1 <= i < next_free t -> 1 <= j < next_free t ->
  let m := Z.min (root t i) (root t j) in
  exists t', unionTrees i j t = (Ok m, t') /\ wf t' /\
    next_free t' = next_free t /\ labels_size t' = labels_size t /\
    forall k, 0 <= k < next_free t -> root t' k = joined (root t i) (root t j) m (root t k).
Proof.
  intros H Hi Hj m. pose proof (root_pos t i H Hi). pose proof (root_pos t j H Hj).
  pose proof (root_idem t i H ltac:(lia)). pose proof (root_idem t j H ltac:(lia)).
  unfold unionTrees. expose. rewrite (findRoot_run t i H) by lia.
  destruct (Z.eqb_spec i j) as [->|Hne]; cbn [negb]; expose.
  - assert (m = root t j) as -> by (subst m; lia).
    destruct (setRoot_run t j (root t j)) as (t' & Ht' & Hw & Hn & Hs & Hk); [done|done|lia|done|].
    exists t'. rewrite Ht'. do 4 (split; [done|]). intros k Hk'. rewrite (Hk k Hk').
    unfold joined. repeat case_decide; lia.
  - rewrite (findRoot_run t j H) by lia. fold m.
    destruct (setRoot_run t j m) as (t1 & Ht1 & Hw1 & Hn1 & Hs1 & Hk1);
      [done|done|lia| |].
    { subst m. destruct (Z.min_spec (root t i) (root t j)) as [[_ ->]|[_ ->]]; done. }
    rewrite Ht1.
    pose proof (Hk1 i ltac:(lia)) as Hri.
    pose proof (root_spec t i H ltac:(lia)) as [? _].
    pose proof (root_spec t j H ltac:(lia)) as [? _].
    destruct (setRoot_run t1 i m) as (t' & Ht' & Hw & Hn & Hs & Hk).
    { done. } { lia. } { rewrite Hri. case_decide; subst m; lia. }
    { rewrite Hk1 by lia. clear Hri. case_decide; [done|]. subst m.
      destruct (Z.min_spec (root t i) (root t j)) as [[_ ->]|[_ ->]]; done. }
    exists t'. rewrite Ht'. split; [done|]. split; [done|]. split; [lia|]. split; [congruence|].
    intros k Hk'. rewrite Hk by lia. rewrite Hk1 by lia. rewrite Hri. unfold joined.
    subst m. repeat case_decide; try lia.
Qed.

(** ** New labels *)

(** How many labels a new object holds, label 0 included. *)
Definition capacity (rows columns : Z) (c : ConnectivityType) : Z :=
  Z.min (rows * columns / (match c with Way4 => 2 | Way8 => 3 end) + 2) label_max.

Lemma reset_wf rows columns c : 0 <= rows * columns < 2 ^ 64 -> 1 <= label_max ->
  wf (reset rows columns c) /\ next_free (reset rows columns c) = 1 /\
  labels_size (reset rows columns c) = capacity rows columns c.
Proof.
  intros Hrc Hm.
  assert (labels_size (reset rows columns c) = capacity rows columns c) as Hs.
  { unfold reset, capacity, maxLabels. cbn [labels_size].
    assert (forall d, 2 <= d -> wrapu 64 (wrapu 64 (rows * columns) / d + 1) = rows * columns / d + 1 /\
      0 <= rows * columns / d <= rows * columns / 2) as W.
    { intros d Hd. assert (0 <= rows * columns / d) by (apply Z.div_pos; lia).
      assert (rows * columns / d <= rows * columns / 2) by (apply Z.div_le_compat_l; lia).
      assert (rows * columns / 2 < 2 ^ 63) by (apply Z.div_lt_upper_bound; lia).
      rewrite (wrapu_id 64 (rows * columns)) by (unfold in_u; lia).
      split; [apply wrapu_id; unfold in_u; lia|lia]. }
    assert (rows * columns / 2 < 2 ^ 63) by (apply Z.div_lt_upper_bound; lia).
    destruct c; [destruct (W 2) as [-> ?]|destruct (W 3) as [-> ?]]; try lia;
      rewrite wrapu_id by (unfold in_u; lia); rewrite Z.mod_small by lia; lia. }
  split; [|done].
  assert (1 <= capacity rows columns c <= label_max).
  { unfold capacity. assert (0 <= rows * columns / match c with Way4 => 2 | Way8 => 3 end)
      by (apply Z.div_pos; destruct c; lia). lia. }
  constructor; try rewrite Hs; cbn [labels next_free reset length]; try lia; done.
Qed.

Lemma makeLabel_full t : next_free t = labels_size t ->
  makeLabel t = (Throw label_overflow, t).
Proof. intros E. unfold makeLabel. expose. cbn. by rewrite E, Z.eqb_refl. Qed.

Lemma makeLabel_run t : wf t -> next_free t <> labels_size t ->
  exists t', makeLabel t = (Ok (next_free t), t') /\ wf t' /\
    next_free t' = next_free t + 1 /\ labels_size t' = labels_size t /\
    root t' (next_free t) = next_free t /\
    forall k, 0 <= k < next_free t -> root t' k = root t k.
Proof.
  intros H Hne. pose proof H as []. set (n := next_free t) in *.
  set (t' := mk_trees (labels t ++ [n]) (labels_size t) (n + 1)).
  assert (forall k, 0 <= k < n -> at_ t' k = at_ t k) as Hold.
  { intros k Hk. unfold at_, t'. cbn [labels]. by rewrite lookup_app_l by lia. }
  assert (at_ t' n = n) as Hnew.
  { unfold at_, t'. cbn [labels]. replace (Z.to_nat n) with (length (labels t)) by lia.
    by rewrite lookup_app_r, Nat.sub_diag by lia. }
  assert (wf t') as Hw.
  { constructor; cbn; [lia|lia| |rewrite Hold; [done|lia]|].
    - rewrite length_app. cbn. lia.
    - intros i Hi. destruct (decide (i = n)) as [->|]; [rewrite Hnew; lia|].
      rewrite Hold by lia. apply wf_parent0. lia. }
  exists t'. split; [|split; [done|split; [done|split; [done|split; [by apply root_self|]]]]].
  - unfold makeLabel. expose. cbn. fold n. replace (n =? labels_size t) with false
      by (symmetry; by apply Z.eqb_neq).
    unfold modify. by rewrite Z.mod_small by lia.
  - apply (path_ind t (fun k => root t' k = root t k)); [done| |].
    + intros k Hk E. rewrite !root_self; [done|done|]. by rewrite Hold.
    + intros k Hk Hlt IH. rewrite (root_parent t k H Hk), <- IH, (root_parent t' k Hw); [|cbn; lia].
      by rewrite Hold.
Qed.

(** ** Numbering the trees *)

(** After the rounds below [i], the labels below [i] carry the number of their tree. *)
Record numbered (t0 : trees) (i k : Z) t : Prop := {
  num_wf : wf t;
  num_next : next_free t = next_free t0;
  num_size : labels_size t = labels_size t0;
  num_k : 1 <= k <= i;
  num_rest : forall j, i <= j < next_free t0 -> at_ t j = at_ t0 j;
  num_range : forall j, 1 <= j < i -> 1 <= at_ t j < k;
  num_root : forall j, 1 <= j < i -> at_ t j = at_ t (root t0 j);
  num_order : forall r r', 1 <= r < r' -> r' < i -> root t0 r = r -> root t0 r' = r' ->
    at_ t r < at_ t r';
  num_onto : forall v, 1 <= v < k -> exists j, 1 <= j < i /\ at_ t j = v }.

Lemma flatten_run t0 n : wf t0 -> forall i k t, 1 <= i -> i + Z.of_nat n = next_free t0 ->
  numbered t0 i k t ->
  exists k' t', flatten n i k t = (Ok k', t') /\ numbered t0 (next_free t0) k' t'.
Proof.
  intros H0. induction n as [|n IH]; intros i k t Hi Hn I; pose proof I as [].
  - exists k, t. split; [done|]. by replace (next_free t0) with i by lia.
  - cbn [flatten]. expose. pose proof (wf_parent t0 H0 i ltac:(lia)) as Hp.
    pose proof (wf_next t0 H0). pose proof (wf_max t0 H0).
    rewrite (parent_run t i) by (done || lia). rewrite num_rest0 by lia.
    destruct (Z.ltb_spec (at_ t0 i) i) as [Hlt|Hge].
    + (* a label that has a parent gets the number of its parent *)
      expose. rewrite (parent_run t) by (done || lia).
      pose proof (num_range0 (at_ t0 i) ltac:(lia)).
      rewrite set_parent_run by (done || lia). apply IH; [lia|lia|].
      pose proof (root_spec t0 (at_ t0 i) H0 ltac:(lia)) as [? _].
      pose proof (root_pos t0 (at_ t0 i) H0 ltac:(lia)).
      assert (forall j, 0 <= j -> j <> i -> at_ (update t i (at_ t (at_ t0 i))) j = at_ t j) as Hold.
      { intros j Hj Hji. rewrite at_update by (done || lia). by rewrite decide_False. }
      assert (at_ (update t i (at_ t (at_ t0 i))) i = at_ t (at_ t0 i)) as Hnew.
      { rewrite at_update by (done || lia). by rewrite decide_True. }
      constructor; [apply wf_update; [done|lia|lia]|done|done|lia|..].
      * intros j Hj. rewrite Hold by lia. apply num_rest0. lia.
      * intros j Hj. destruct (decide (j = i)) as [->|]; [rewrite Hnew; lia|].
        rewrite Hold by lia. apply num_range0. lia.
      * intros j Hj. destruct (decide (j = i)) as [->|].
        -- rewrite Hnew, (root_parent t0 i H0), Hold by lia. apply num_root0. lia.
        -- pose proof (root_spec t0 j H0 ltac:(lia)) as [? _].
           rewrite !Hold by lia. apply num_root0. lia.
      * intros r r' Hr Hr' E E'. assert (r' <> i).
        { intros ->. rewrite (root_parent t0 i H0) in E' by lia. lia. }
        rewrite !Hold by lia. apply num_order0; (done || lia).
      * intros v Hv. destruct (num_onto0 v Hv) as (j & Hj & <-). exists j. split; [lia|].
        apply Hold; lia.
    + (* a root gets the next number *)
      assert (at_ t0 i = i) as E by lia. expose.
      rewrite set_parent_run by (done || lia). rewrite Z.mod_small by lia. apply IH; [lia|lia|].
      assert (forall j, 0 <= j -> j <> i -> at_ (update t i k) j = at_ t j) as Hold.
      { intros j Hj Hji. rewrite at_update by (done || lia). by rewrite decide_False. }
      assert (at_ (update t i k) i = k) as Hnew.
      { rewrite at_update by (done || lia). by rewrite decide_True. }
      constructor; [apply wf_update; [done|lia|lia]|done|done|lia|..].
      * intros j Hj. rewrite Hold by lia. apply num_rest0. lia.
      * intros j Hj. destruct (decide (j = i)) as [->|]; [rewrite Hnew; lia|].
        rewrite Hold by lia. pose proof (num_range0 j ltac:(lia)). lia.
      * intros j Hj. destruct (decide (j = i)) as [->|]; [by rewrite (root_self t0 i E)|].
        pose proof (root_spec t0 j H0 ltac:(lia)) as [? _].
        rewrite !Hold by lia. apply num_root0. lia.
      * intros r r' Hr Hr' E1 E2. rewrite (Hold r) by lia.
        destruct (decide (r' = i)) as [->|].
        -- rewrite Hnew. pose proof (num_range0 r ltac:(lia)). lia.
        -- rewrite Hold by lia. apply num_order0; (done || lia).
      * intros v Hv. destruct (decide (v = k)) as [->|].
        -- exists i. split; [lia|done].
        -- destruct (num_onto0 v ltac:(lia)) as (j & Hj & <-). exists j. split; [lia|].
           apply Hold; lia.
Qed.

(** The table of [getLabels] maps the labels to the numbers below [k], and two labels to
    the same number exactly when they are in the same tree. *)
Record table (t0 : trees) (m : list Z) (k : Z) : Prop := {
  tab_length : Z.of_nat (length m) = next_free t0;
  tab_k : 1 <= k <= next_free t0;
  tab_zero : m !! 0%nat = Some 0;
  tab_range : forall i, 1 <= i < next_free t0 -> exists v, m !! Z.to_nat i = Some v /\ 1 <= v < k;
  tab_same : forall i j, 1 <= i < next_free t0 -> 1 <= j < next_free t0 ->
    m !! Z.to_nat i = m !! Z.to_nat j <-> root t0 i = root t0 j;
  tab_onto : forall v, 1 <= v < k -> exists i, 1 <= i < next_free t0 /\ m !! Z.to_nat i = Some v }.

Lemma getLabels_run t0 : wf t0 -> exists m k t', getLabels t0 = (Ok (m, k), t') /\ table t0 m k.
Proof.
  intros H0. pose proof (wf_next t0 H0).
  destruct (flatten_run t0 (Z.to_nat (next_free t0 - 1)) H0 1 1 t0) as (k & t1 & Ht1 & []);
    [lia|lia| |].
  { constructor; try done; try lia. }
  exists (labels t1), k. eexists. split.
  { unfold getLabels. expose. cbn. rewrite Ht1. done. }
  assert (forall i, 1 <= i < next_free t0 -> labels t1 !! Z.to_nat i = Some (at_ t1 i)) as Hat.
  { intros i Hi. apply at_lookup; [done|lia]. }
  constructor.
  - rewrite (wf_length t1); done.
  - lia.
  - change 0%nat with (Z.to_nat 0). rewrite (at_lookup t1 0 num_wf0) by lia. by rewrite (wf_zero t1).
  - intros i Hi. exists (at_ t1 i). split; [by apply Hat|]. by apply num_range0.
  - intros i j Hi Hj. rewrite !Hat by done.
    pose proof (root_spec t0 i H0 ltac:(lia)) as [? _]. pose proof (root_pos t0 i H0 Hi).
    pose proof (root_spec t0 j H0 ltac:(lia)) as [? _]. pose proof (root_pos t0 j H0 Hj).
    pose proof (root_idem t0 i H0 ltac:(lia)). pose proof (root_idem t0 j H0 ltac:(lia)).
    rewrite (num_root0 i), (num_root0 j) by lia. split; [|by intros ->]. intros [= E].
    destruct (Z.lt_trichotomy (root t0 i) (root t0 j)) as [Hlt|[?|Hlt]]; [|done|].
    + pose proof (num_order0 (root t0 i) (root t0 j) ltac:(lia) ltac:(lia) ltac:(done) ltac:(done)). lia.
    + pose proof (num_order0 (root t0 j) (root t0 i) ltac:(lia) ltac:(lia) ltac:(done) ltac:(done)). lia.
  - intros v Hv. destruct (num_onto0 v Hv) as (i & Hi & <-). exists i. split; [done|]. by apply Hat.
Qed.
End Label.
End LabelTrees.
