(* ===== verification/Components.v ===== *)
(** * Connected components of an image ([connectedComponents] of
    [nav2_costmap_2d/denoise/image_processing.hpp])

    A scan in reading order gives every pixel of the foreground a provisional label from
    its neighbours above and to the left, and records in the trees of [LabelTrees] which
    labels belong together; then the labels are replaced by the numbers of their trees. *)

From stdpp Require Import base option list numbers relations.
From Stdlib Require Import ZArith Lia.
From S2P Require Import Prelude Image LabelTrees.

Module Components.
Import Image LabelTrees.

(** ** Windows

  A pointer to a pixel is an index of the buffer, a null pointer is [None]. Arithmetic
  on the null pointer of a missing row is harmless here: the pointer is never read. *)

Inductive Border : Type :=
  | DoNothing
  | ReplaceToZero (up_row_start : option Z) (down_row_start columns : Z).

Record Window : Type := mk_window { up_row : option Z; down_row : Z; border : Border }.

Definition replaceOutOfBounds (mem : list Z) (v first columns : Z) : res Z :=
  if (v <? first) || (v >=? first + columns) then Ok 0 else aget mem v.

Definition up (b : Border) (mem : list Z) (v : option Z) : res Z :=
  match b, v with
  | DoNothing, Some v => aget mem v
  | ReplaceToZero None _ _, _ => Ok 0
  | ReplaceToZero (Some first) _ columns, Some v => replaceOutOfBounds mem v first columns
  | _, None => UB
  end.

Definition down (b : Border) (mem : list Z) (v : Z) : res Z :=
  match b with
  | DoNothing => aget mem v
  | ReplaceToZero _ first columns => replaceOutOfBounds mem v first columns
  end.

Definition win_a (w : Window) (mem : list Z) : res Z := up (border w) mem (Z.add (-1) <$> up_row w).
Definition win_b (w : Window) (mem : list Z) : res Z := up (border w) mem (up_row w).
Definition win_c (w : Window) (mem : list Z) : res Z := up (border w) mem (Z.add 1 <$> up_row w).
Definition win_d (w : Window) (mem : list Z) : res Z := down (border w) mem (down_row w - 1).
Definition win_e (w : Window) (mem : list Z) : res Z := aget mem (down_row w).
Definition anchor (w : Window) : Z := down_row w.

Definition next (w : Window) : Window :=
  mk_window (Z.add 1 <$> up_row w) (down_row w + 1) (border w).

Definition makeSafeWindow (up_row : option Z) (down_row columns offset : Z) : Window :=
  mk_window (Z.add offset <$> up_row) (down_row + offset) (ReplaceToZero up_row down_row columns).

Definition makeUnsafeWindow (up_row down_row : Z) : Window :=
  mk_window (Some up_row) down_row DoNothing.

(** ** The label of a pixel *)

(** The buffer of labels and the trees, which the scan changes. *)
Record scan : Type := mk_scan { lab : list Z; eq_trees : trees }.

Definition lift {S A} (m : res A) : ST S A := fun s => (m, s).
Definition label (read : list Z -> res Z) : ST scan Z := fun s => (read (lab s), s).
Definition on_trees {A} (c : ST trees A) : ST scan A := fun s =>
  let '(r, t) := c (eq_trees s) in (r, mk_scan (lab s) t).

(** [current = l], with [current] a reference to [label.e()]. *)
Definition set_current (w : Window) (l : Z) : ST scan () := fun s =>
  match aset (lab s) (down_row w) l with
  | Ok m => (Ok tt, mk_scan m (eq_trees s))
  | Throw e => (Throw e, s)
  | UB => (UB, s)
  end.

Section Scan.
Context (label_max : Z) (is_bg : Z -> bool).

Definition pass8 (mem : list Z) (image label_mask : Window) : ST scan () :=
  e ← lift (win_e image mem);
  if negb (is_bg e) then
    b ← label (win_b label_mask);
    if negb (b =? 0) then set_current label_mask b
    else
      c ← lift (win_c image mem);
      a ← lift (win_a image mem);
      if negb (is_bg c) then
        if negb (is_bg a) then
          lc ← label (win_c label_mask);
          la ← label (win_a label_mask);
          l ← on_trees (unionTrees lc la);
          set_current label_mask l
        else
          d ← lift (win_d image mem);
          if negb (is_bg d) then
            lc ← label (win_c label_mask);
            ld ← label (win_d label_mask);
            l ← on_trees (unionTrees lc ld);
            set_current label_mask l
          else lc ← label (win_c label_mask); set_current label_mask lc
      else if negb (is_bg a) then la ← label (win_a label_mask); set_current label_mask la
      else
        d ← lift (win_d image mem);
        if negb (is_bg d) then ld ← label (win_d label_mask); set_current label_mask ld
        else l ← on_trees (makeLabel label_max); set_current label_mask l
  else set_current label_mask 0.

Definition pass4 (mem : list Z) (image label_mask : Window) : ST scan () :=
  e ← lift (win_e image mem);
  if negb (is_bg e) then
    b ← lift (win_b image mem);
    d ← lift (win_d image mem);
    if negb (is_bg b) then
      if negb (is_bg d) then
        ld ← label (win_d label_mask);
        lb ← label (win_b label_mask);
        l ← on_trees (unionTrees ld lb);
        set_current label_mask l
      else lb ← label (win_b label_mask); set_current label_mask lb
    else if negb (is_bg d) then ld ← label (win_d label_mask); set_current label_mask ld
    else l ← on_trees (makeLabel label_max); set_current label_mask l
  else set_current label_mask 0.

Definition pass (connectivity : ConnectivityType) : list Z -> Window -> Window -> ST scan () :=
  match connectivity with Way4 => pass4 | Way8 => pass8 end.

(** ** The scan of the image *)

(** [for (; img.anchor() < stop; img.next(), lbl.next())]. The windows move towards
    [stop], so the distance to it bounds the rounds. *)
Fixpoint scan_until (connectivity : ConnectivityType) (mem : list Z) (stop : Z) (fuel : nat)
    (img lbl : Window) : ST scan () :=
  if anchor img <? stop then
    match fuel with
    | O => undefined
    | S fuel =>
        pass connectivity mem img lbl;;
        scan_until connectivity mem stop fuel (next img) (next lbl)
    end
  else mret tt.

Definition scan_line (connectivity : ConnectivityType) (mem : list Z) (stop : Z)
    (img lbl : Window) : ST scan () :=
  scan_until connectivity mem stop (Z.to_nat (stop - anchor img)) img lbl.

(** The row below row [r]. *)
Definition scan_next_row (connectivity : ConnectivityType) (image : image) (mem : list Z)
    (labels : Image.image) (r : Z) : ST scan () :=
  let label_mask := mk_window (Some (row labels r)) (row labels (r + 1)) DoNothing in
  let up := row image r in
  let current := row image (r + 1) in
  pass connectivity mem (makeSafeWindow (Some up) current (columns image) 0) label_mask;;
  scan_line connectivity mem (current + columns image - 1)
    (makeUnsafeWindow (up + 1) (current + 1)) (next label_mask);;
  if columns image >? 1 then
    pass connectivity mem
      (makeSafeWindow (Some up) current (columns image) (columns image - 1))
      (makeSafeWindow (Some (row labels r)) (row labels (r + 1)) (columns image) (columns image - 1))
  else mret tt.

Fixpoint scan_rows (connectivity : ConnectivityType) (image : image) (mem : list Z)
    (labels : Image.image) (n : nat) (r : Z) : ST scan () :=
  match n with
  | O => mret tt
  | S n =>
      scan_next_row connectivity image mem labels r;;
      scan_rows connectivity image mem labels n (r + 1)
  end.

(** The two first loops of [connectedComponentsImpl]. *)
Definition scan_image (connectivity : ConnectivityType) (image : image) (mem : list Z)
    (labels : Image.image) : ST scan () :=
  scan_line connectivity mem (row image 0 + columns image)
    (makeSafeWindow None (row image 0) (columns image) 0)
    (makeSafeWindow None (row labels 0) (columns image) 0);;
  scan_rows connectivity image mem labels (Z.to_nat (wrapu 64 (rows image - 1))) 0.

(** [labels_map\[l\]] in a vector of [k] elements that was longer before: the language
    leaves an index from [k] on undefined ([checked]), the usual implementations of
    [std::vector] read what the removed element left in the memory. *)
Context (checked : bool).

Definition table_at (m : list Z) (k l : Z) : res Z :=
  if (l >=? k) && checked then UB else aget m l.

Definition connectedComponentsImpl (connectivity : ConnectivityType) (image : image) (mem : list Z)
    (labels : Image.image) : ST scan Z :=
  scan_image connectivity image mem labels;;
  '(labels_map, k) ← on_trees (getLabels label_max);
  s ← get;
  lab ← lift (forEach labels (table_at labels_map k) (lab s));
  modify (fun s => mk_scan lab (eq_trees s));;
  mret (k mod (label_max + 1)).

(** [garbage] is what the buffer holds. The result is the labelled image, its pixels,
    and [total_labels]. *)
Definition connectedComponents (garbage : nat -> Z) (connectivity : ConnectivityType)
    (image : image) (mem : list Z) : ST trees (Image.image * list Z * Z) :=
  let pixels := wrapu 64 (rows image * columns image) in
  if pixels =? 0 then mret (no_image, [], 0)
  else fun t =>
    let labels := mk_image 0 (rows image) (columns image) (columns image) in
    match connectedComponentsImpl connectivity image mem labels
            (mk_scan (garbage <$> seq 0 (Z.to_nat pixels))
               (reset label_max (rows image) (columns image) connectivity)) with
    | (Ok k, s) => (Ok (labels, lab s, k), eq_trees s)
    | (Throw e, s) => (Throw e, eq_trees s)
    | (UB, s) => (UB, eq_trees s)
    end.
End Scan.

(** ** Reading through windows *)

(** The pixel at [r], [c], 0 outside the image. *)
Definition px (im : image) (mem : list Z) (r c : Z) : Z :=
  if decide (inside im r c) then default 0 (pixel im mem r c) else 0.

(** The windows on the pixel at [r], [c]. *)
Definition row_above (im : image) (r : Z) : option Z := if r =? 0 then None else Some (row im (r - 1)).
Definition safe (im : image) (r c : Z) : Window :=
  mk_window (Z.add c <$> row_above im r) (row im r + c)
    (ReplaceToZero (row_above im r) (row im r) (columns im)).
Definition unsafe (im : image) (r c : Z) : Window :=
  mk_window (Some (row im (r - 1) + c)) (row im r + c) DoNothing.

Lemma safe_next im r c : next (safe im r c) = safe im r (c + 1).
Proof.
  unfold next, safe. cbn. f_equal; [|lia]. destruct (row_above im r); cbn; [f_equal; lia|done].
Qed.

Lemma unsafe_next im r c : next (unsafe im r c) = unsafe im r (c + 1).
Proof. unfold next, unsafe. cbn. f_equal; [f_equal; lia|lia]. Qed.

Lemma px_inside im mem r c : valid im mem -> inside im r c -> aget mem (row im r + c) = Ok (px im mem r c).
Proof.
  intros Hv Hi. unfold px. rewrite decide_True by done.
  destruct (pixel_in im mem r c Hv Hi) as [x Hx]. rewrite Hx. by apply aget_pixel.
Qed.

Lemma bounded_read im mem r c : valid im mem -> 0 <= r < rows im ->
  replaceOutOfBounds mem (row im r + c) (row im r) (columns im) = Ok (px im mem r c).
Proof.
  intros Hv Hr. unfold replaceOutOfBounds.
  destruct (decide (inside im r c)) as [Hi|Hi].
  - destruct Hi as [? ?]. replace (_ || _) with false; [by apply px_inside|].
    symmetry. apply orb_false_iff. rewrite Z.ltb_ge, Z.geb_leb, Z.leb_gt. lia.
  - unfold px. rewrite decide_False by done.
    replace (_ || _) with true; [done|]. symmetry. apply orb_true_iff.
    rewrite Z.ltb_lt, Z.geb_leb, Z.leb_le. unfold inside in Hi. lia.
Qed.

Lemma safe_up im mem r c d : valid im mem -> 0 <= r < rows im ->
  up (border (safe im r c)) mem (Z.add d <$> up_row (safe im r c)) = Ok (px im mem (r - 1) (c + d)).
Proof.
  intros Hv Hr. unfold safe, row_above. cbn [border up_row]. destruct (Z.eqb_spec r 0) as [->|]; cbn [up fmap option_fmap option_map].
  - unfold px. rewrite decide_False; [done|]. unfold inside. lia.
  - replace (d + (c + row im (r - 1))) with (row im (r - 1) + (c + d)) by lia.
    apply bounded_read; [done|lia].
Qed.

(** What a window on the pixel at [r], [c] shows of the image. *)
Record shows (im : image) (mem : list Z) (r c : Z) (w : Window) : Prop := {
  shows_a : win_a w mem = Ok (px im mem (r - 1) (c - 1));
  shows_b : win_b w mem = Ok (px im mem (r - 1) c);
  shows_c : win_c w mem = Ok (px im mem (r - 1) (c + 1));
  shows_d : win_d w mem = Ok (px im mem r (c - 1));
  shows_e : win_e w mem = Ok (px im mem r c) }.

Lemma safe_shows im mem r c : valid im mem -> inside im r c -> shows im mem r c (safe im r c).
Proof.
  intros Hv [Hr Hc]. constructor.
  - unfold win_a. rewrite safe_up by done. repeat f_equal; lia.
  - unfold win_b. pose proof (safe_up im mem r c 0 Hv Hr) as E. rewrite Z.add_0_r in E. rewrite <- E.
    f_equal. destruct (up_row (safe im r c)); [cbn; f_equal; lia|done].
  - unfold win_c. by rewrite safe_up.
  - unfold win_d. cbn. replace (row im r + c - 1) with (row im r + (c - 1)) by lia.
    by apply bounded_read.
  - unfold win_e. cbn. by apply px_inside.
Qed.

(** Without checks a window shows the pixels that lie inside. *)
Record shows_inside (im : image) (mem : list Z) (r c : Z) (w : Window) : Prop := {
  si_a : inside im (r - 1) (c - 1) -> win_a w mem = Ok (px im mem (r - 1) (c - 1));
  si_b : win_b w mem = Ok (px im mem (r - 1) c);
  si_c : inside im (r - 1) (c + 1) -> win_c w mem = Ok (px im mem (r - 1) (c + 1));
  si_d : inside im r (c - 1) -> win_d w mem = Ok (px im mem r (c - 1));
  si_e : down_row w = row im r + c }.

Lemma unsafe_shows_inside im mem r c : valid im mem -> inside im r c -> 1 <= r ->
  shows_inside im mem r c (unsafe im r c).
Proof.
  intros Hv [Hr Hc] Hr1. constructor; cbn; [intros Hi|..].
  - unfold win_a. cbn. replace (-1 + (row im (r - 1) + c)) with (row im (r - 1) + (c - 1)) by lia.
    by apply px_inside.
  - unfold win_b. cbn. apply px_inside; [done|]. unfold inside. lia.
  - intros Hi. unfold win_c. cbn.
    replace (1 + (row im (r - 1) + c)) with (row im (r - 1) + (c + 1)) by lia. by apply px_inside.
  - intros Hi. unfold win_d. cbn. replace (row im r + c - 1) with (row im r + (c - 1)) by lia.
    by apply px_inside.
  - done.
Qed.

Lemma safe_shows_inside im mem r c : valid im mem -> inside im r c ->
  shows_inside im mem r c (safe im r c).
Proof. intros Hv Hi. destruct (safe_shows im mem r c Hv Hi). by constructor. Qed.

Lemma unsafe_shows im mem r c : valid im mem -> 1 <= r < rows im -> 1 <= c < columns im - 1 ->
  shows im mem r c (unsafe im r c).
Proof.
  intros Hv Hr Hc. destruct (unsafe_shows_inside im mem r c Hv) as [Ha Hb Hcc Hd He]; [split; lia|lia|].
  constructor; [apply Ha|done|apply Hcc|apply Hd|]; try (split; lia).
  unfold win_e. rewrite He. apply px_inside; [done|split; lia].
Qed.

End Components.
