(* ===== verification/Labelling.v ===== *)
(** * The components of an image are labelled correctly

    The specification of [connectedComponents]: two pixels of the foreground get the same
    label exactly when a path of adjacent pixels of the foreground links them. *)

From stdpp Require Import base option list numbers relations.
From Stdlib Require Import ZArith Lia.
From S2P Require Import Prelude Image LabelTrees Components.

Module Labelling.
Import Image LabelTrees Components.

Abbreviation pos := (Z * Z)%type (only parsing).

(** ** Specification *)

Definition adjacent (connectivity : ConnectivityType) (p q : pos) : Prop :=
  let dr := Z.abs (p.1 - q.1) in
  let dc := Z.abs (p.2 - q.2) in
  match connectivity with
  | Way4 => dr + dc = 1
  | Way8 => Z.max dr dc = 1
  end.

(** The neighbours of a pixel that come before it in reading order: [a], [b], [c], [d]. *)
Definition earlier (connectivity : ConnectivityType) (p : pos) : list pos :=
  match connectivity with
  | Way4 => [(p.1 - 1, p.2); (p.1, p.2 - 1)]
  | Way8 => [(p.1 - 1, p.2 - 1); (p.1 - 1, p.2); (p.1 - 1, p.2 + 1); (p.1, p.2 - 1)]
  end.

Definition index (im : image) (p : pos) : Z := p.1 * columns im + p.2.
Definition within (im : image) (p : pos) : Prop := inside im p.1 p.2.
Definition pixel_of (im : image) (n : nat) : pos :=
  (Z.of_nat n / columns im, Z.of_nat n mod columns im).

Section Spec.
Context (is_bg : Z -> bool) (conn : ConnectivityType) (im : image) (mem : list Z).

Definition fg (p : pos) : bool := negb (is_bg (px im mem p.1 p.2)).

Definition link (p q : pos) : Prop := fg p = true /\ fg q = true /\ adjacent conn p q.
Definition linked : pos -> pos -> Prop := rtc link.

(** The pixels that get a new label: those of the foreground without a neighbour of the
    foreground among the earlier pixels. *)
Definition maker (p : pos) : bool := fg p && forallb (fun q => negb (fg q)) (earlier conn p).

Definition makers (n : nat) : Z :=
  Z.of_nat (length (filter (fun i => maker (pixel_of im i) = true) (seq 0 n))).

Definition pixels : nat := Z.to_nat (rows im * columns im).
End Spec.

(** ** Positions *)

Section Positions.
Context (im : image).

Lemma pixel_index p : within im p -> pixel_of im (Z.to_nat (index im p)) = p.
Proof.
  destruct p as [r c]. unfold within, inside, index, pixel_of. cbn. intros [? ?].
  rewrite Z2Nat.id by nia. f_equal.
  - symmetry. apply (Z.div_unique _ _ _ c); lia.
  - symmetry. apply (Z.mod_unique _ _ r); lia.
Qed.

Lemma position_index_inj p q : within im p -> within im q -> index im p = index im q -> p = q.
Proof. intros Hp Hq E. rewrite <- (pixel_index p), <- (pixel_index q) by done. by rewrite E. Qed.

Lemma index_range p : within im p -> 0 <= index im p < rows im * columns im.
Proof. destruct p. unfold within, inside, index. cbn. intros [? ?]. nia. Qed.

Lemma pixel_within n : 0 < columns im -> Z.of_nat n < rows im * columns im -> within im (pixel_of im n) /\
  index im (pixel_of im n) = Z.of_nat n.
Proof.
  intros Hcols Hn. unfold within, inside, pixel_of, index. cbn.
  pose proof (Z.div_mod (Z.of_nat n) (columns im) ltac:(lia)).
  pose proof (Z.mod_pos_bound (Z.of_nat n) (columns im) ltac:(lia)).
  assert (0 <= Z.of_nat n / columns im) by (apply Z.div_pos; lia).
  assert (Z.of_nat n / columns im < rows im) by (apply Z.div_lt_upper_bound; lia). lia.
Qed.

(** Among the adjacent pixels, the earlier ones have the smaller index. *)
Lemma adjacent_earlier conn p q : within im p -> within im q -> index im q < index im p ->
  adjacent conn p q -> q ∈ earlier conn p.
Proof.
  destruct p as [r c], q as [r' c']. unfold within, inside, index, adjacent, earlier. cbn.
  intros [? ?] [? ?] Hlt Hadj.
  assert (r' < r \/ (r' = r /\ c' < c)) by nia.
  destruct conn.
  - assert (r' = r - 1 /\ c' = c \/ r' = r /\ c' = c - 1) as [[-> ->]|[-> ->]] by lia;
      rewrite !elem_of_cons; auto 6.
  - assert (r' = r - 1 /\ c' = c - 1 \/ r' = r - 1 /\ c' = c \/ r' = r - 1 /\ c' = c + 1 \/
            r' = r /\ c' = c - 1) as [[-> ->]|[[-> ->]|[[-> ->]|[-> ->]]]] by lia;
      rewrite !elem_of_cons; auto 6.
Qed.

Lemma earlier_spec conn p q : within im p -> within im q -> q ∈ earlier conn p ->
  adjacent conn p q /\ index im q < index im p.
Proof.
  destruct p as [r c], q as [r' c']. unfold within, inside, index, adjacent, earlier. cbn.
  intros [? ?] [? ?]. destruct conn; rewrite !elem_of_cons, elem_of_nil; intros Hq;
    destruct_or!; simplify_eq; nia.
Qed.
End Positions.

Lemma adjacent_sym conn p q : adjacent conn p q -> adjacent conn q p.
Proof. destruct conn, p, q; unfold adjacent; cbn; lia. Qed.

#[export] Instance linked_sym is_bg conn im mem : Symmetric (linked is_bg conn im mem).
Proof.
  intros p q H. induction H as [|p p' q (? & ? & ?) _ IH]; [constructor|].
  eapply rtc_r; [done|]. split; [done|]. split; [done|]. by apply adjacent_sym.
Qed.

(** ** The invariant of the scan *)

Section Scan.
Context (label_max : Z) (is_bg : Z -> bool) (conn : ConnectivityType) (im : image) (mem : list Z).
Context (cap : Z).
Hypothesis (Hv : valid im mem).
Hypothesis (Hrows : 0 < rows im).
Hypothesis (Hcols : 0 < columns im).
Hypothesis (Hzero : is_bg 0 = true).

Abbreviation fg := (fg is_bg im mem).
Abbreviation linked := (linked is_bg conn im mem).
Abbreviation maker := (maker is_bg conn im mem).
Abbreviation makers := (makers is_bg conn im mem).
Abbreviation within := (within im).
Abbreviation index := (index im).
Abbreviation label_at s p := (default 0 (lab s !! Z.to_nat (index p))) (only parsing).
Abbreviation root_at s p := (root (eq_trees s) (default 0 (lab s !! Z.to_nat (index p)))) (only parsing).

Implicit Types s : scan.

Record inv (n : Z) s : Prop := {
  inv_length : Z.of_nat (length (lab s)) = rows im * columns im;
  inv_wf : wf label_max (eq_trees s);
  inv_size : labels_size (eq_trees s) = cap;
  inv_bg : forall p, within p -> index p < n -> fg p = false -> label_at s p = 0;
  inv_fg : forall p, within p -> index p < n -> fg p = true ->
    1 <= label_at s p < next_free (eq_trees s);
  inv_sound : forall p q, within p -> within q -> index p < n -> index q < n ->
    fg p = true -> fg q = true -> root_at s p = root_at s q -> linked p q;
  inv_complete : forall p q, within p -> within q -> index p < n -> index q < n ->
    fg p = true -> fg q = true -> adjacent conn p q -> root_at s p = root_at s q;
  inv_used : forall l, 1 <= l < next_free (eq_trees s) ->
    exists p, within p /\ index p < n /\ fg p = true /\ label_at s p = l;
  inv_makers : next_free (eq_trees s) = 1 + makers (Z.to_nat n) }.

Lemma fg_within p : fg p = true -> within p.
Proof.
  unfold fg, px. case_decide; [done|]. by rewrite Hzero.
Qed.

Lemma makers_step p : within p ->
  makers (Z.to_nat (index p + 1)) = makers (Z.to_nat (index p)) + (if maker p then 1 else 0).
Proof.
  intros Hp. pose proof (index_range im p Hp). unfold Labelling.makers.
  replace (Z.to_nat (index p + 1)) with (Datatypes.S (Z.to_nat (index p))) by lia.
  rewrite seq_S, filter_app, length_app, Nat.add_0_l. cbn [filter list_filter].
  rewrite pixel_index by done. case_decide as D; [rewrite D|apply not_true_is_false in D; rewrite D];
    cbn; lia.
Qed.

Lemma makers_mono n m : (n <= m)%nat -> makers n <= makers m.
Proof.
  intros Hle. unfold Labelling.makers. replace m with (n + (m - n))%nat by lia.
  rewrite seq_app, filter_app, length_app. lia.
Qed.

Lemma index_before q p n : within q -> within p -> index p = n -> index q < n + 1 -> q <> p -> index q < n.
Proof.
  intros Hq Hp E Hlt Hne. assert (index q <> index p); [|lia].
  intros E'. by apply Hne, (position_index_inj im).
Qed.

(** Writing the label of the pixel with index [n]. *)
Lemma label_write n l s p : inv n s -> within p -> index p = n ->
  forall q, within q -> default 0 (<[Z.to_nat n := l]> (lab s) !! Z.to_nat (index q)) =
    if decide (q = p) then l else label_at s q.
Proof.
  intros I Hp E q Hq. pose proof (index_range im p Hp). pose proof (index_range im q Hq).
  pose proof (inv_length _ _ I). case_decide as D.
  - subst q. rewrite E, list_lookup_insert_eq by lia. done.
  - rewrite list_lookup_insert_ne; [done|]. intros E'. apply D.
    apply (position_index_inj im); [done|done|lia].
Qed.

Lemma step_bg n s p : inv n s -> within p -> index p = n -> fg p = false ->
  inv (n + 1) (mk_scan (<[Z.to_nat n := 0]> (lab s)) (eq_trees s)).
Proof.
  intros I Hp E Hbg. pose proof (label_write n 0 s p I Hp E) as Hw. pose proof I as [].
  assert (forall q, within q -> index q < n + 1 -> fg q = true -> index q < n /\ q <> p) as Hlt.
  { intros q Hq Hi Hf. assert (q <> p) by congruence. split; [|done]. by apply (index_before q p). }
  constructor; cbn [lab eq_trees]; [by rewrite length_insert|done|done|..].
  - intros q Hq Hi Hf. rewrite Hw by done. case_decide; [done|]. apply inv_bg0; [done| |done].
    by apply (index_before q p).
  - intros q Hq Hi Hf. destruct (Hlt q Hq Hi Hf). rewrite Hw, decide_False by done. by apply inv_fg0.
  - intros q q' Hq Hq' Hi Hi' Hf Hf'.
    destruct (Hlt q Hq Hi Hf), (Hlt q' Hq' Hi' Hf'). rewrite !Hw, !decide_False by done. by apply inv_sound0.
  - intros q q' Hq Hq' Hi Hi' Hf Hf'.
    destruct (Hlt q Hq Hi Hf), (Hlt q' Hq' Hi' Hf'). rewrite !Hw, !decide_False by done. by apply inv_complete0.
  - intros l Hl. destruct (inv_used0 l Hl) as (q & Hq & Hi & Hf & <-). exists q.
    do 2 (split; [done || lia|]). split; [done|]. rewrite Hw by done. rewrite decide_False; [done|congruence].
  - rewrite <- E, makers_step by done. unfold Labelling.maker. rewrite Hbg. cbn. rewrite E. lia.
Qed.

(** The pixel joins the trees of its earlier neighbours [x] and [y], which cover those of
    all its earlier neighbours. *)
Lemma step_join n s p x y m l t' : inv n s -> within p -> index p = n -> fg p = true ->
  x ∈ earlier conn p -> fg x = true -> y ∈ earlier conn p -> fg y = true ->
  wf label_max t' -> next_free t' = next_free (eq_trees s) ->
  labels_size t' = labels_size (eq_trees s) ->
  m = root_at s x \/ m = root_at s y ->
  (forall k, 0 <= k < next_free (eq_trees s) ->
     root t' k = joined (root_at s x) (root_at s y) m (root (eq_trees s) k)) ->
  1 <= l < next_free t' -> root t' l = m ->
  (forall z, z ∈ earlier conn p -> fg z = true ->
     root_at s z = root_at s x \/ root_at s z = root_at s y) ->
  inv (n + 1) (mk_scan (<[Z.to_nat n := l]> (lab s)) t').
Proof.
  intros I Hp E Hf Hx Hfx Hy Hfy Hwf Hnext Hsize Hm Hroot Hl Hrl Hall.
  pose proof (label_write n l s p I Hp E) as Hw. pose proof I as [].
  assert (forall z, z ∈ earlier conn p -> fg z = true -> within z /\ index z < n /\ linked p z) as Hearly.
  { intros z Hz Hfz. pose proof (fg_within z Hfz) as Hwz.
    destruct (earlier_spec im conn p z Hp Hwz Hz) as [Hadj Hlt]. split; [done|]. split; [lia|].
    by apply rtc_once. }
  (* the tree of a pixel that was in one of the trees of [x] and [y] *)
  assert (forall q, within q -> index q < n -> fg q = true ->
    root_at s q = root_at s x \/ root_at s q = root_at s y -> linked p q) as Hjoin.
  { intros q Hq Hi Hfq [Ex|Ey].
    - destruct (Hearly x Hx Hfx) as (? & ? & ?). trans x; [done|]. by apply inv_sound0.
    - destruct (Hearly y Hy Hfy) as (? & ? & ?). trans y; [done|]. by apply inv_sound0. }
  set (s' := mk_scan _ _).
  assert (forall q, within q -> index q < n -> fg q = true ->
    root_at s' q = joined (root_at s x) (root_at s y) m (root_at s q)) as Hold.
  { intros q Hq Hi Hfq. subst s'. cbn [lab eq_trees]. rewrite Hw by done.
    rewrite decide_False by (intros ->; lia). apply Hroot. pose proof (inv_fg0 q Hq Hi Hfq). lia. }
  assert (root_at s' p = m) as Hnew.
  { subst s'. cbn [lab eq_trees]. rewrite Hw, decide_True by done. done. }
  assert (forall q, within q -> index q < n -> fg q = true -> root_at s' q = m <->
    root_at s q = root_at s x \/ root_at s q = root_at s y) as Hm'.
  { intros q Hq Hi Hfq. rewrite Hold by done. unfold joined. case_decide as D; [tauto|].
    split; [|tauto]. intros Em. exfalso. apply D. destruct Hm as [Hm|Hm]; rewrite <- Hm; auto. }
  constructor.
  - subst s'. cbn. by rewrite length_insert.
  - done.
  - subst s'. cbn. congruence.
  - intros q Hq Hi Hfq. subst s'. cbn [lab]. rewrite Hw by done. case_decide; [congruence|].
    apply inv_bg0; [done| |done]. by apply (index_before q p).
  - intros q Hq Hi Hfq. subst s'. cbn [lab eq_trees]. rewrite Hw by done.
    case_decide; [done|]. rewrite Hnext. apply inv_fg0; [done| |done]. by apply (index_before q p).
  - intros q q' Hq Hq' Hi Hi' Hfq Hfq' Er.
    destruct (decide (q = p)) as [->|Hqp], (decide (q' = p)) as [->|Hqp'].
    + constructor.
    + rewrite Hnew in Er. apply Hjoin; [done|by apply (index_before q' p)|done|].
      apply Hm'; [done|by apply (index_before q' p)|done|done].
    + rewrite Hnew in Er. symmetry. apply Hjoin; [done|by apply (index_before q p)|done|].
      apply Hm'; [done|by apply (index_before q p)|done|done].
    + assert (index q < n) by (by apply (index_before q p)).
      assert (index q' < n) by (by apply (index_before q' p)).
      destruct (decide (root_at s' q = m)) as [Em|Em].
      * trans p; [symmetry|]; apply Hjoin; try done; apply Hm'; try done. congruence.
      * assert (root_at s' q' <> m) as Em' by congruence.
        rewrite !Hold in Er by done. unfold joined in Er.
        rewrite Hm' in Em, Em' by done. rewrite !decide_False in Er by done. by apply inv_sound0.
  - intros q q' Hq Hq' Hi Hi' Hfq Hfq' Hadj.
    destruct (decide (q = p)) as [->|Hqp], (decide (q' = p)) as [->|Hqp'].
    + done.
    + assert (index q' < n) by (by apply (index_before q' p)).
      rewrite Hnew. symmetry. apply Hm'; [done|done|done|]. apply Hall; [|done].
      apply (adjacent_earlier im); [done|done|lia|done].
    + assert (index q < n) by (by apply (index_before q p)).
      rewrite Hnew. apply Hm'; [done|done|done|]. apply Hall; [|done].
      apply (adjacent_earlier im); [done|done|lia|by apply adjacent_sym].
    + assert (index q < n) by (by apply (index_before q p)).
      assert (index q' < n) by (by apply (index_before q' p)).
      rewrite !Hold by done. f_equal. by apply inv_complete0.
  - intros k Hk. destruct (inv_used0 k) as (q & Hq & Hi & Hfq & <-); [subst s'; cbn in Hk; lia|].
    exists q. do 2 (split; [done || lia|]). split; [done|]. subst s'. cbn [lab]. rewrite Hw by done.
    rewrite decide_False; [done|intros ->; lia].
  - rewrite <- E, makers_step by done. unfold Labelling.maker. rewrite Hf.
    replace (forallb _ _) with false; [subst s'; cbn; rewrite E; lia|]. symmetry.
    apply not_true_is_false. rewrite forallb_forall. intros Hnone.
    specialize (Hnone x (proj1 (list_elem_of_In _ _) Hx)). by rewrite Hfx in Hnone.
Qed.

Lemma step_new n s p t' : inv n s -> within p -> index p = n -> maker p = true ->
  let l := next_free (eq_trees s) in
  wf label_max t' -> next_free t' = l + 1 -> labels_size t' = labels_size (eq_trees s) ->
  root t' l = l -> (forall k, 0 <= k < l -> root t' k = root (eq_trees s) k) ->
  inv (n + 1) (mk_scan (<[Z.to_nat n := l]> (lab s)) t').
Proof.
  intros I Hp E Hmk l Hwf Hnext Hsize Hrl Hroot.
  pose proof (label_write n l s p I Hp E) as Hw. pose proof I as [].
  assert (fg p = true /\ forall z, z ∈ earlier conn p -> fg z = false) as [Hf Hnone].
  { unfold Labelling.maker in Hmk. apply andb_prop in Hmk as [Hf Hn]. split; [done|].
    rewrite forallb_forall in Hn. intros z Hz. apply negb_true_iff, Hn. by apply list_elem_of_In. }
  set (s' := mk_scan _ _).
  assert (forall q, within q -> index q < n -> fg q = true -> root_at s' q = root_at s q /\
    root_at s q < l) as Hold.
  { intros q Hq Hi Hfq. subst s'. cbn [lab eq_trees]. rewrite Hw by done.
    rewrite decide_False by (intros ->; lia). pose proof (inv_fg0 q Hq Hi Hfq).
    rewrite Hroot by (subst l; lia). split; [done|].
    destruct (root_spec label_max (eq_trees s) (label_at s q)); [done|lia|]. subst l. lia. }
  assert (root_at s' p = l) as Hnew.
  { subst s'. cbn [lab eq_trees]. rewrite Hw, decide_True by done. done. }
  constructor.
  - subst s'. cbn. by rewrite length_insert.
  - done.
  - subst s'. cbn. congruence.
  - intros q Hq Hi Hfq. subst s'. cbn [lab]. rewrite Hw by done. case_decide; [congruence|].
    apply inv_bg0; [done| |done]. by apply (index_before q p).
  - intros q Hq Hi Hfq. subst s'. cbn [lab eq_trees]. rewrite Hw by done. rewrite Hnext.
    pose proof (wf_next _ _ inv_wf0).
    case_decide; [subst l; lia|]. pose proof (inv_fg0 q Hq ltac:(by apply (index_before q p)) Hfq).
    subst l. lia.
  - intros q q' Hq Hq' Hi Hi' Hfq Hfq' Er.
    destruct (decide (q = p)) as [->|Hqp], (decide (q' = p)) as [->|Hqp'].
    + constructor.
    + destruct (Hold q' Hq') as [? ?]; [by apply (index_before q' p)|done|lia].
    + destruct (Hold q Hq) as [? ?]; [by apply (index_before q p)|done|lia].
    + assert (index q < n) by (by apply (index_before q p)).
      assert (index q' < n) by (by apply (index_before q' p)).
      rewrite (proj1 (Hold q Hq ltac:(done) Hfq)), (proj1 (Hold q' Hq' ltac:(done) Hfq')) in Er.
      by apply inv_sound0.
  - intros q q' Hq Hq' Hi Hi' Hfq Hfq' Hadj.
    destruct (decide (q = p)) as [->|Hqp], (decide (q' = p)) as [->|Hqp'].
    + done.
    + assert (index q' < n) by (by apply (index_before q' p)).
      rewrite Hnone in Hfq'; [done|]. apply (adjacent_earlier im); [done|done|lia|done].
    + assert (index q < n) by (by apply (index_before q p)).
      rewrite Hnone in Hfq; [done|]. apply (adjacent_earlier im); [done|done|lia|by apply adjacent_sym].
    + assert (index q < n) by (by apply (index_before q p)).
      assert (index q' < n) by (by apply (index_before q' p)).
      rewrite (proj1 (Hold q Hq ltac:(done) Hfq)), (proj1 (Hold q' Hq' ltac:(done) Hfq')).
      by apply inv_complete0.
  - intros k Hk. destruct (decide (k = l)) as [->|Hkl].
    + exists p. do 2 (split; [done || lia|]). split; [done|]. subst s'. cbn [lab]. rewrite Hw by done.
      by rewrite decide_True.
    + destruct (inv_used0 k) as (q & Hq & Hi & Hfq & <-); [subst s' l; cbn in Hk; lia|].
      exists q. do 2 (split; [done || lia|]). split; [done|]. subst s'. cbn [lab]. rewrite Hw by done.
      rewrite decide_False; [done|intros ->; lia].
  - rewrite <- E, makers_step, Hmk by done. subst s' l. cbn. rewrite E. lia.
Qed.

(** ** One pixel *)

Definition labels_image : image := mk_image 0 (rows im) (columns im) (columns im).
Abbreviation limg := labels_image.

Lemma labels_valid n s : inv n s -> valid limg (lab s).
Proof.
  intros I. constructor; cbn; [lia|lia|lia|]. intros _. unfold row. cbn.
  rewrite (inv_length _ _ I). nia.
Qed.

Lemma label_px n s z : inv n s -> within z -> px limg (lab s) z.1 z.2 = label_at s z.
Proof. intros I Hz. unfold px. by rewrite decide_True. Qed.

(** An earlier neighbour of the foreground. *)
Lemma earlier_fg n s p z : inv n s -> within p -> index p = n -> z ∈ earlier conn p -> fg z = true ->
  within z /\ index z < n /\ px limg (lab s) z.1 z.2 = label_at s z /\
  1 <= label_at s z < next_free (eq_trees s).
Proof.
  intros I Hp E Hz Hf. pose proof (fg_within z Hf) as Hw.
  destruct (earlier_spec im conn p z Hp Hw Hz) as [_ Hlt].
  split; [done|]. split; [lia|]. split; [by eapply label_px|]. apply (inv_fg n s I); [done|lia|done].
Qed.

(** The scan either goes on or has run out of labels. *)
Definition good (o : res () * scan) (n : Z) : Prop :=
  match o with
  | (Ok _, s') => inv n s'
  | (Throw label_overflow, _) => cap < 1 + makers (pixels im)
  | _ => False
  end.

Definition runs (c : ST scan ()) s (n : Z) : Prop := good (c s) n.

Lemma runs_ok c s s' n : c s = (Ok tt, s') -> inv n s' -> runs c s n.
Proof. unfold runs. by intros ->. Qed.

Lemma runs_full c s s' n : c s = (Throw label_overflow, s') -> cap < 1 + makers (pixels im) -> runs c s n.
Proof. unfold runs. by intros ->. Qed.

Lemma runs_bind c d s n m : runs c s n -> (forall s', inv n s' -> runs d s' m) -> runs (c;; d) s m.
Proof.
  unfold runs. expose. destruct (c s) as [[u|e|] s']; cbn; [intros I Hd; by apply Hd| |done].
  by destruct e.
Qed.

Lemma scan_eta s : mk_scan (lab s) (eq_trees s) = s.
Proof. by destruct s. Qed.

Lemma set_current_run n s p lw l t : inv n s -> within p -> index p = n ->
  down_row lw = row limg p.1 + p.2 ->
  set_current lw l (mk_scan (lab s) t) = (Ok tt, mk_scan (<[Z.to_nat n := l]> (lab s)) t).
Proof.
  intros I Hp E Hd. unfold set_current. cbn [lab]. rewrite Hd. unfold row, labels_image. cbn [data_start step].
  replace (0 + p.1 * columns im + p.2) with n by (unfold Labelling.index in E; lia).
  pose proof (index_range im p Hp). pose proof (inv_length _ _ I).
  assert (aset (lab s) n l = Ok (<[Z.to_nat n := l]> (lab s))) as -> by (apply aset_ok; split; [lia|done]).
  done.
Qed.

Section Pixel.
Context (n : Z) (s : scan) (p : pos) (lw : Window).
Hypothesis (I : inv n s).
Hypothesis (Hp : within p).
Hypothesis (Ep : index p = n).
Hypothesis (Hd : down_row lw = row limg p.1 + p.2).

Lemma run_bg : fg p = false -> runs (set_current lw 0) s (n + 1).
Proof.
  intros Hf. eapply runs_ok; [|by apply (step_bg n s p)].
  rewrite <- (set_current_run n s p lw 0 (eq_trees s)) by done. by rewrite scan_eta.
Qed.

Lemma run_copy x : fg p = true -> x ∈ earlier conn p -> fg x = true ->
  (forall z, z ∈ earlier conn p -> fg z = true -> root_at s z = root_at s x) ->
  runs (set_current lw (label_at s x)) s (n + 1).
Proof.
  intros Hf Hx Hfx Hall. destruct (earlier_fg n s p x I Hp Ep Hx Hfx) as (Hwx & Hix & _ & Hlx).
  eapply runs_ok.
  - rewrite <- (set_current_run n s p lw (label_at s x) (eq_trees s)) by done. by rewrite scan_eta.
  - apply (step_join n s p x x (root_at s x)); try done; [apply I|by left| |].
    + intros k Hk. unfold joined. case_decide as D; [by destruct D|done].
    + intros z Hz Hfz. left. by apply Hall.
Qed.

Lemma run_union x y : fg p = true -> x ∈ earlier conn p -> fg x = true ->
  y ∈ earlier conn p -> fg y = true ->
  (forall z, z ∈ earlier conn p -> fg z = true ->
     root_at s z = root_at s x \/ root_at s z = root_at s y) ->
  runs (l ← on_trees (unionTrees (label_at s x) (label_at s y)); set_current lw l) s (n + 1).
Proof.
  intros Hf Hx Hfx Hy Hfy Hall.
  destruct (earlier_fg n s p x I Hp Ep Hx Hfx) as (Hwx & Hix & _ & Hlx).
  destruct (earlier_fg n s p y I Hp Ep Hy Hfy) as (Hwy & Hiy & _ & Hly).
  pose proof (inv_wf _ _ I) as Hwf.
  destruct (unionTrees_run label_max (eq_trees s) (label_at s x) (label_at s y) Hwf Hlx Hly)
    as (t' & Ht' & Hwf' & Hn' & Hs' & Hr').
  assert (0 <= label_at s x < next_free (eq_trees s)) as Hx0 by lia.
  pose proof (root_spec label_max (eq_trees s) (label_at s x) Hwf Hx0) as [? ?].
  assert (0 <= label_at s y < next_free (eq_trees s)) as Hy0 by lia.
  pose proof (root_spec label_max (eq_trees s) (label_at s y) Hwf Hy0) as [? ?].
  pose proof (root_pos label_max (eq_trees s) (label_at s x) Hwf Hlx).
  pose proof (root_pos label_max (eq_trees s) (label_at s y) Hwf Hly).
  assert (Hmin : Z.min (root_at s x) (root_at s y) = root_at s x \/
                 Z.min (root_at s x) (root_at s y) = root_at s y) by lia.
  assert (Hroot : root (eq_trees s) (Z.min (root_at s x) (root_at s y)) =
                  Z.min (root_at s x) (root_at s y)).
  { destruct Hmin as [-> | ->]; by apply root_self. }
  eapply runs_ok.
  - expose. unfold on_trees. rewrite Ht'. by apply (set_current_run n s p).
  - apply (step_join n s p x y (Z.min (root_at s x) (root_at s y))); try done.
    + rewrite Hn'. lia.
    + rewrite Hr', Hroot by lia. unfold joined. case_decide as D; [done|]. by destruct D.
Qed.

Lemma run_new : maker p = true ->
  runs (l ← on_trees (makeLabel label_max); set_current lw l) s (n + 1).
Proof.
  intros Hm. pose proof (inv_wf _ _ I) as Hwf.
  destruct (decide (next_free (eq_trees s) = labels_size (eq_trees s))) as [Efull|Hfree].
  - eapply runs_full.
    + expose. unfold on_trees. rewrite (makeLabel_full label_max) by done. done.
    + rewrite (inv_size _ _ I), (inv_makers _ _ I) in Efull.
      pose proof (makers_step p Hp) as Hstep. rewrite Hm, Ep in Hstep.
      pose proof (index_range im p Hp).
      pose proof (makers_mono (Z.to_nat (n + 1)) (pixels im)) as Hmono.
      unfold pixels in *. specialize (Hmono ltac:(lia)). lia.
  - destruct (makeLabel_run label_max (eq_trees s) Hwf Hfree) as (t' & Ht' & Hw' & Hn' & Hs' & Hr' & Hk').
    eapply runs_ok.
    + expose. unfold on_trees. rewrite Ht'. by apply (set_current_run n s p).
    + by apply (step_new n s p).
Qed.
End Pixel.

(** Two earlier neighbours that are adjacent are in the same tree. *)
Lemma near n s p z z' : inv n s -> within p -> index p = n ->
  z ∈ earlier conn p -> fg z = true -> z' ∈ earlier conn p -> fg z' = true ->
  z = z' \/ adjacent conn z z' -> root_at s z = root_at s z'.
Proof.
  intros I Hp E Hz Hfz Hz' Hfz' [->|Hadj]; [done|].
  destruct (earlier_fg n s p z I Hp E Hz Hfz) as (? & ? & _).
  destruct (earlier_fg n s p z' I Hp E Hz' Hfz') as (? & ? & _).
  by apply (inv_complete n s I).
Qed.

Lemma within_fg_inside z : fg z = true -> inside limg z.1 z.2.
Proof. intros H. apply fg_within in H. done. Qed.

Lemma read_label n s p z (read : list Z -> res Z) : inv n s -> within p -> index p = n ->
  z ∈ earlier conn p -> fg z = true ->
  (inside limg z.1 z.2 -> read (lab s) = Ok (px limg (lab s) z.1 z.2)) ->
  label read s = (Ok (label_at s z), s).
Proof.
  intros I Hp E Hz Hf Hread. unfold label. rewrite Hread by (by apply within_fg_inside).
  by rewrite (label_px n s z I) by (by apply fg_within).
Qed.

Lemma elem_a (p : pos) : conn = Way8 -> (p.1 - 1, p.2 - 1) ∈ earlier conn p.
Proof. intros ->. cbn. rewrite !elem_of_cons. auto. Qed.
Lemma elem_b (p : pos) : (p.1 - 1, p.2) ∈ earlier conn p.
Proof. destruct conn; cbn; rewrite !elem_of_cons; auto. Qed.
Lemma elem_c (p : pos) : conn = Way8 -> (p.1 - 1, p.2 + 1) ∈ earlier conn p.
Proof. intros ->. cbn. rewrite !elem_of_cons. auto. Qed.
Lemma elem_d (p : pos) : (p.1, p.2 - 1) ∈ earlier conn p.
Proof. destruct conn; cbn; rewrite !elem_of_cons; auto 6. Qed.

Section Passes.
Context (n : Z) (s : scan) (p : pos) (w lw : Window).
Hypothesis (I : inv n s).
Hypothesis (Hp : within p).
Hypothesis (Ep : index p = n).
Hypothesis (Hw : shows im mem p.1 p.2 w).
Hypothesis (Hlw : shows_inside limg (lab s) p.1 p.2 lw).

Lemma pass4_run : conn = Way4 -> runs (pass4 label_max is_bg mem w lw) s (n + 1).
Proof.
  intros Hc. destruct Hw as [_ Hb _ Hd He], Hlw as [_ Lb _ Ld Le].
  unfold pass4, runs. expose. unfold lift. rewrite He.
  change (negb (is_bg (px im mem p.1 p.2))) with (fg p).
  destruct (fg p) eqn:Hf; [|by apply (run_bg n s p)]. rewrite Hb, Hd.
  change (negb (is_bg (px im mem (p.1 - 1) p.2))) with (fg (p.1 - 1, p.2)).
  change (negb (is_bg (px im mem p.1 (p.2 - 1)))) with (fg (p.1, p.2 - 1)).
  pose proof (elem_b p) as Eb. pose proof (elem_d p) as Ed.
  assert (forall z, z ∈ earlier conn p -> z = (p.1 - 1, p.2) \/ z = (p.1, p.2 - 1)) as Hall.
  { rewrite Hc. intros z. cbn. rewrite !elem_of_cons, elem_of_nil. tauto. }
  destruct (fg (p.1 - 1, p.2)) eqn:Fb, (fg (p.1, p.2 - 1)) eqn:Fd.
  - rewrite (read_label n s p (p.1, p.2 - 1) (win_d lw)), (read_label n s p (p.1 - 1, p.2) (win_b lw)) by done.
    apply (run_union n s p lw); try done. intros z Hz _. destruct (Hall z Hz) as [-> | ->]; [by right|by left].
  - rewrite (read_label n s p (p.1 - 1, p.2) (win_b lw)) by done.
    apply (run_copy n s p lw); try done. intros z Hz Hfz. destruct (Hall z Hz) as [-> | ->]; congruence.
  - rewrite (read_label n s p (p.1, p.2 - 1) (win_d lw)) by done.
    apply (run_copy n s p lw); try done. intros z Hz Hfz. destruct (Hall z Hz) as [-> | ->]; congruence.
  - apply (run_new n s p lw); try done. unfold Labelling.maker. rewrite Hf. apply forallb_forall.
    intros z Hz%list_elem_of_In. destruct (Hall z Hz) as [-> | ->]; by rewrite ?Fb, ?Fd.
Qed.

Lemma pass8_run : conn = Way8 -> runs (pass8 label_max is_bg mem w lw) s (n + 1).
Proof.
  intros Hc. destruct Hw as [Ha Hb Hcc Hd He], Hlw as [La Lb Lc Ld Le].
  unfold pass8, runs. expose. unfold lift. rewrite He.
  change (negb (is_bg (px im mem p.1 p.2))) with (fg p).
  destruct (fg p) eqn:Hf; [|by apply (run_bg n s p)].
  pose proof (elem_a p Hc) as Ea. pose proof (elem_b p) as Eb.
  pose proof (elem_c p Hc) as Ec. pose proof (elem_d p) as Ed.
  assert (forall z, z ∈ earlier conn p -> z = (p.1 - 1, p.2 - 1) \/ z = (p.1 - 1, p.2) \/
    z = (p.1 - 1, p.2 + 1) \/ z = (p.1, p.2 - 1)) as Hall.
  { rewrite Hc. intros z. cbn. rewrite !elem_of_cons, elem_of_nil. tauto. }
  (* the neighbours around [b], and [a] with [d] *)
  assert (forall z z', z ∈ earlier conn p -> fg z = true -> z' ∈ earlier conn p -> fg z' = true ->
    Z.max (Z.abs (z.1 - z'.1)) (Z.abs (z.2 - z'.2)) <= 1 -> root_at s z = root_at s z') as Hnear.
  { intros z z' Hz Fz Hz' Fz' Hdist. apply (near n s p); try done. rewrite Hc. unfold adjacent.
    destruct (decide (z = z')) as [|Hne]; [by left|right]. destruct z as [r c], z' as [r' c']. cbn in *.
    assert (r <> r' \/ c <> c'); [|lia]. destruct (decide (r = r')) as [->|]; [|by left].
    right. intros ->. done. }
  destruct (fg (p.1 - 1, p.2)) eqn:Fb.
  - destruct (earlier_fg n s p (p.1 - 1, p.2) I Hp Ep Eb Fb) as (_ & _ & Epx & Hr).
    unfold label at 1. rewrite Lb. cbn [fst snd] in Epx. rewrite Epx.
    replace (default 0 _ =? 0) with false by (symmetry; apply Z.eqb_neq; lia). cbn [negb].
    apply (run_copy n s p lw); try done.
    intros z Hz Fz. apply Hnear; try done. destruct (Hall z Hz) as [-> | [-> | [-> | ->]]]; cbn; lia.
  - assert (px limg (lab s) (p.1 - 1) p.2 = 0) as Epx.
    { unfold px. case_decide as Hi; [|done]. pose proof (index_range im (p.1 - 1, p.2) Hi).
      apply (inv_bg n s I (p.1 - 1, p.2)); [done| |done]. unfold Labelling.index in *. cbn in *. lia. }
    unfold label at 1. rewrite Lb, Epx. cbn [Z.eqb negb]. rewrite Hcc, Ha.
    change (negb (is_bg (px im mem (p.1 - 1) (p.2 + 1)))) with (fg (p.1 - 1, p.2 + 1)).
    change (negb (is_bg (px im mem (p.1 - 1) (p.2 - 1)))) with (fg (p.1 - 1, p.2 - 1)).
    destruct (fg (p.1 - 1, p.2 + 1)) eqn:Fc, (fg (p.1 - 1, p.2 - 1)) eqn:Fa.
    + rewrite (read_label n s p (p.1 - 1, p.2 + 1) (win_c lw)),
        (read_label n s p (p.1 - 1, p.2 - 1) (win_a lw)) by done.
      apply (run_union n s p lw); try done. intros z Hz Fz.
      destruct (Hall z Hz) as [-> | [-> | [-> | ->]]]; [by right|congruence|by left|].
      right. apply Hnear; try done. cbn. lia.
    + rewrite Hd. change (negb (is_bg (px im mem p.1 (p.2 - 1)))) with (fg (p.1, p.2 - 1)).
      destruct (fg (p.1, p.2 - 1)) eqn:Fd.
      * rewrite (read_label n s p (p.1 - 1, p.2 + 1) (win_c lw)),
          (read_label n s p (p.1, p.2 - 1) (win_d lw)) by done.
        apply (run_union n s p lw); try done. intros z Hz Fz.
        destruct (Hall z Hz) as [-> | [-> | [-> | ->]]]; [congruence|congruence|by left|by right].
      * rewrite (read_label n s p (p.1 - 1, p.2 + 1) (win_c lw)) by done.
        apply (run_copy n s p lw); try done. intros z Hz Fz.
        destruct (Hall z Hz) as [-> | [-> | [-> | ->]]]; congruence.
    + rewrite (read_label n s p (p.1 - 1, p.2 - 1) (win_a lw)) by done.
      apply (run_copy n s p lw); try done. intros z Hz Fz.
      destruct (Hall z Hz) as [-> | [-> | [-> | ->]]]; [done|congruence|congruence|].
      apply Hnear; try done. cbn. lia.
    + rewrite Hd. change (negb (is_bg (px im mem p.1 (p.2 - 1)))) with (fg (p.1, p.2 - 1)).
      destruct (fg (p.1, p.2 - 1)) eqn:Fd.
      * rewrite (read_label n s p (p.1, p.2 - 1) (win_d lw)) by done.
        apply (run_copy n s p lw); try done. intros z Hz Fz.
        destruct (Hall z Hz) as [-> | [-> | [-> | ->]]]; congruence.
      * apply (run_new n s p lw); try done. unfold Labelling.maker. rewrite Hf. apply forallb_forall.
        intros z Hz%list_elem_of_In.
        destruct (Hall z Hz) as [-> | [-> | [-> | ->]]]; by rewrite ?Fa, ?Fb, ?Fc, ?Fd.
Qed.

Lemma pass_run : runs (pass label_max is_bg conn mem w lw) s (n + 1).
Proof.
  destruct (connectivity_eq_dec conn Way4) as [E|E].
  - assert (pass label_max is_bg conn = pass4 label_max is_bg) as -> by (by rewrite E).
    by apply pass4_run.
  - assert (conn = Way8) as E8 by (by destruct conn).
    assert (pass label_max is_bg conn = pass8 label_max is_bg) as -> by (by rewrite E8).
    by apply pass8_run.
Qed.
End Passes.

(** ** The scan *)

(** The pixels of row [r] from column [c], through windows that [img] and [lbl] give. *)
Lemma scan_until_run (img lbl : Z -> Window) r c1 fuel : forall c s,
  0 <= r < rows im -> 0 <= c <= c1 -> c1 <= columns im -> (Z.to_nat (c1 - c) <= fuel)%nat ->
  (forall c, img (c + 1) = next (img c)) -> (forall c, lbl (c + 1) = next (lbl c)) ->
  (forall j, c <= j < c1 -> shows im mem r j (img j)) ->
  (forall j s, c <= j < c1 -> valid limg (lab s) -> shows_inside limg (lab s) r j (lbl j)) ->
  anchor (img c) = row im r + c ->
  inv (index (r, c)) s ->
  runs (scan_until label_max is_bg conn mem (row im r + c1) fuel (img c) (lbl c)) s (index (r, c1)).
Proof.
  induction fuel as [|fuel IH]; intros c s Hr Hc Hc1 Hf Hi Hl Hsi Hsl Ha I;
    cbn [scan_until]; rewrite Ha; destruct (Z.ltb_spec (row im r + c) (row im r + c1)) as [Hlt|Hge].
  - lia.
  - replace c1 with c by lia. by apply (runs_ok _ _ s).
  - apply (runs_bind _ _ _ (index (r, c) + 1)).
    + apply (pass_run _ s (r, c)); [done|split; cbn; lia|done|apply Hsi; lia|].
      apply Hsl; [lia|by eapply labels_valid].
    + intros s' I'. rewrite <- Hi, <- Hl. apply IH; try done; try lia.
      * intros j Hj. apply Hsi. lia.
      * intros j s1 Hj. apply Hsl. lia.
      * rewrite Hi. unfold anchor, next in *. cbn. lia.
      * by replace (index (r, c + 1)) with (index (r, c) + 1) by (unfold Labelling.index; cbn; lia).
  - replace c1 with c by lia. by apply (runs_ok _ _ s).
Qed.

Lemma safe_make i r n c : 1 <= r -> n = columns i ->
  makeSafeWindow (Some (row i (r - 1))) (row i r) n c = safe i r c.
Proof.
  intros Hr ->. unfold makeSafeWindow, safe, row_above.
  by replace (r =? 0) with false by (symmetry; apply Z.eqb_neq; lia).
Qed.

Lemma scan_row0_run s : inv 0 s ->
  runs (scan_line label_max is_bg conn mem (row im 0 + columns im)
    (makeSafeWindow None (row im 0) (columns im) 0)
    (makeSafeWindow None (row limg 0) (columns im) 0)) s (columns im).
Proof.
  intros I. unfold scan_line.
  change (makeSafeWindow None (row im 0) (columns im) 0) with (safe im 0 0).
  change (makeSafeWindow None (row limg 0) (columns im) 0) with (safe limg 0 0).
  replace (columns im) with (index (0, columns im)) at 3 by (unfold Labelling.index; cbn; lia).
  apply (scan_until_run (safe im 0) (safe limg 0)); [lia|lia|lia|unfold anchor; cbn; lia|..].
  - intros c. by rewrite safe_next.
  - intros c. by rewrite safe_next.
  - intros j Hj. apply safe_shows; [done|split; lia].
  - intros j s' Hj Hv'. apply safe_shows_inside; [done|split; cbn; lia].
  - done.
  - done.
Qed.

Lemma scan_next_row_run r s : 0 <= r < rows im - 1 -> inv (index (r + 1, 0)) s ->
  runs (scan_next_row label_max is_bg conn im mem limg r) s (index (r + 2, 0)).
Proof.
  intros Hr I. unfold scan_next_row. cbv zeta.
  replace (row im r) with (row im (r + 1 - 1)) by (f_equal; lia).
  replace (row limg r) with (row limg (r + 1 - 1)) by (f_equal; lia).
  rewrite !safe_make by (lia || done).
  assert (forall r c, index (r, c) + 1 = index (r, c + 1)) as Hnext
    by (intros; unfold Labelling.index; cbn; lia).
  assert (mk_window (Some (row limg (r + 1 - 1))) (row limg (r + 1)) DoNothing = unsafe limg (r + 1) 0) as ->.
  { unfold unsafe. by rewrite !Z.add_0_r. }
  apply (runs_bind _ _ _ (index (r + 1, 1))).
  { change (index (r + 1, 1)) with (index (r + 1, 0 + 1)). rewrite <- (Hnext (r + 1) 0).
    apply (pass_run _ s (r + 1, 0)); [done|split; cbn; lia|done|apply safe_shows; [done|split; cbn; lia]|].
    apply unsafe_shows_inside; [by eapply labels_valid|split; cbn; lia|cbn; lia]. }
  intros s1 I1. rewrite unsafe_next.
  destruct (decide (columns im = 1)) as [E1|E1].
  { (* a single column *)
    apply (runs_bind _ _ _ (index (r + 1, 1))).
    - unfold scan_line. rewrite E1. cbn [anchor makeUnsafeWindow down_row].
      assert (forall fuel a b, scan_until label_max is_bg conn mem (row im (r + 1) + 1 - 1) fuel
        (makeUnsafeWindow a (row im (r + 1) + 1)) b s1 = (Ok tt, s1)) as Hnone.
      { intros fuel a b. destruct fuel; cbn [scan_until]; unfold anchor, makeUnsafeWindow; cbn [down_row];
        (replace (_ <? _) with false by (symmetry; apply Z.ltb_ge; lia)); done. }
      apply (runs_ok _ _ s1); [by apply Hnone|done].
    - intros s2 I2. replace (columns im >? 1) with false by (by rewrite E1). apply (runs_ok _ _ s2); [done|].
      replace (index (r + 2, 0)) with (index (r + 1, 1)); [done|]. unfold Labelling.index. cbn. lia. }
  apply (runs_bind _ _ _ (index (r + 1, columns im - 1))).
  { unfold scan_line.
    replace (row im (r + 1) + columns im - 1) with (row im (r + 1) + (columns im - 1)) by lia.
    change (makeUnsafeWindow (row im (r + 1 - 1) + 1) (row im (r + 1) + 1)) with (unsafe im (r + 1) 1).
    apply (scan_until_run (unsafe im (r + 1)) (unsafe limg (r + 1)));
      [lia|lia|lia|unfold anchor; cbn; lia|..].
    - intros c. by rewrite unsafe_next.
    - intros c. by rewrite unsafe_next.
    - intros j Hj. apply unsafe_shows; [done|lia|lia].
    - intros j s' Hj Hv'. apply unsafe_shows_inside; [done|split; cbn; lia|lia].
    - done.
    - done. }
  intros s2 I2. replace (columns im >? 1) with true by (symmetry; apply Z.gtb_lt; lia).
  replace (index (r + 2, 0)) with (index (r + 1, columns im - 1) + 1)
    by (unfold Labelling.index; cbn; lia).
  apply (pass_run _ s2 (r + 1, columns im - 1)); [done|split; cbn; lia|done| |].
  - apply safe_shows; [done|split; cbn; lia].
  - apply safe_shows_inside; [by eapply labels_valid|split; cbn; lia].
Qed.

Lemma scan_rows_run n : forall r s, 0 <= r -> r + Z.of_nat n = rows im - 1 -> inv (index (r + 1, 0)) s ->
  runs (scan_rows label_max is_bg conn im mem limg n r) s (rows im * columns im).
Proof.
  induction n as [|n IH]; intros r s Hr Hn I; cbn [scan_rows].
  - apply (runs_ok _ _ s); [done|]. replace (rows im * columns im) with (index (r + 1, 0)); [done|].
    unfold Labelling.index. cbn. replace (r + 1) with (rows im) by lia. lia.
  - apply (runs_bind _ _ _ (index (r + 2, 0))); [apply scan_next_row_run; [lia|done]|].
    intros s' I'. apply IH; [lia|lia|]. by replace (r + 1 + 1) with (r + 2) by lia.
Qed.

Lemma scan_image_run s : rows im < 2 ^ 64 -> inv 0 s ->
  runs (scan_image label_max is_bg conn im mem limg) s (rows im * columns im).
Proof.
  intros Hmax I. unfold scan_image. apply (runs_bind _ _ _ (columns im)); [by apply scan_row0_run|].
  intros s' I'. apply scan_rows_run; [lia| |].
  - rewrite wrapu_id by (unfold in_u; lia). lia.
  - replace (index (0 + 1, 0)) with (columns im); [done|]. unfold Labelling.index. cbn. lia.
Qed.

(** ** The result *)

(** What the labelled image promises: the numbers below [k] are the components. *)
Record labelled (l : list Z) (k : Z) : Prop := {
  lab_length : Z.of_nat (length l) = rows im * columns im;
  lab_bg : forall p, within p -> fg p = false -> l !! Z.to_nat (index p) = Some 0;
  lab_fg : forall p, fg p = true -> exists v, l !! Z.to_nat (index p) = Some v /\ 1 <= v < k;
  lab_same : forall p q, fg p = true -> fg q = true ->
    l !! Z.to_nat (index p) = l !! Z.to_nat (index q) <-> linked p q;
  lab_onto : forall v, 1 <= v < k -> exists p, fg p = true /\ l !! Z.to_nat (index p) = Some v }.

Lemma linked_fg p q : linked p q -> fg p = true -> fg q = true.
Proof. intros H. induction H as [|p q r (? & ? & ?) _ IH]; auto. Qed.

Lemma label_lookup n s p : inv n s -> within p -> lab s !! Z.to_nat (index p) = Some (label_at s p).
Proof.
  intros I Hp. destruct (lab s !! Z.to_nat (index p)) eqn:E; [done|].
  apply lookup_ge_None in E. pose proof (inv_length _ _ I). pose proof (index_range im p Hp). lia.
Qed.

Lemma limg_position p : Z.to_nat (row limg p.1 + p.2) = Z.to_nat (index p).
Proof. unfold row, labels_image, Labelling.index. cbn. f_equal. Qed.

(** In the final state linked pixels are in one tree. *)
Lemma linked_root s p q : inv (rows im * columns im) s -> fg p = true -> linked p q ->
  root_at s p = root_at s q.
Proof.
  intros I Hp H. induction H as [|p r q (Hfp & Hfr & Hadj) _ IH]; [done|].
  rewrite <- IH by done. pose proof (fg_within p Hfp) as Hwp. pose proof (fg_within r Hfr) as Hwr.
  apply (inv_complete _ _ I); try done; by apply index_range.
Qed.

(** [labels_map] is read past its end: some labels were joined, so that there are fewer components than labels. *)
Definition past_end (checked : bool) (k next_free : Z) : bool := checked && (k <? next_free).

(** Replacing the labels by their numbers. *)
Lemma relabel_run checked s m k : inv (rows im * columns im) s -> table (eq_trees s) m k ->
  exists l, labelled l k /\
    forEach limg (table_at checked m k) (lab s) = if past_end checked k (next_free (eq_trees s)) then UB else Ok l.
Proof.
  intros I T. pose proof (labels_valid _ s I) as Hvl. pose proof (inv_wf _ _ I) as Hwf.
  pose proof (wf_next _ _ Hwf).
  assert (forall p, within p -> index p < rows im * columns im) as Hlt by (intros; by apply index_range).
  assert (forall p, within p -> 0 <= label_at s p < next_free (eq_trees s)) as Hlab.
  { intros p Hp. destruct (fg p) eqn:Hf.
    - pose proof (inv_fg _ _ I p Hp (Hlt p Hp) Hf). lia.
    - rewrite (inv_bg _ _ I p Hp (Hlt p Hp) Hf). lia. }
  assert (forall r c, inside limg r c -> pixel limg (lab s) r c = Some (label_at s (r, c))) as Hpix.
  { intros r c Hi. unfold pixel. change (row limg r + c) with (row limg (r, c).1 + (r, c).2).
    rewrite limg_position. by apply (label_lookup (rows im * columns im)). }
  set (value := fun x => default 0 (m !! Z.to_nat x)).
  assert (forall b r c x, inside limg r c -> pixel limg (lab s) r c = Some x ->
    table_at b m k x = if (x >=? k) && b then UB else Ok (value x)) as Hread.
  { intros b r c x Hi Hx. rewrite Hpix in Hx by done. injection Hx as <-. unfold table_at.
    destruct (_ && b); [done|]. apply aget_ok. pose proof (Hlab (r, c) Hi).
    split; [lia|]. unfold value. destruct (m !! _) eqn:E; [done|]. apply lookup_ge_None in E.
    pose proof (tab_length _ _ _ T). lia. }
  destruct (forEach_map limg (lab s) (table_at (checked && negb (past_end checked k (next_free (eq_trees s)))) m k) value)
    as (l & Hl & [Hlen Hin _]); [done| |].
  { intros r c x Hi Hx. rewrite (Hread _ r c x Hi Hx). rewrite Hpix in Hx by done. injection Hx as <-.
    pose proof (Hlab (r, c) Hi). unfold past_end. replace (_ && _) with false; [done|]. symmetry.
    destruct checked; [|apply andb_false_r]. cbn [andb]. rewrite Z.geb_leb.
    destruct (Z.leb_spec k (label_at s (r, c))); [|done]. by rewrite (proj2 (Z.ltb_lt _ _)) by lia. }
  exists l. split.
  2: { unfold past_end in *. destruct checked; [|exact Hl]. cbn [andb] in *. destruct (Z.ltb_spec k (next_free (eq_trees s))) as [Hk|Hk];
         [|exact Hl]. pose proof (tab_k _ _ _ T).
       destruct (inv_used _ _ I (next_free (eq_trees s) - 1)) as ([r c] & Hw & _ & _ & E); [lia|].
       apply (forEach_ub limg (lab s) _ value (fun x => x >=? k) r c (label_at s (r, c))); [done| |done|by apply Hpix|].
       - intros r' c' x Hi Hx. rewrite (Hread true r' c' x Hi Hx). by rewrite andb_true_r.
       - apply Z.geb_le. lia. }
  assert (forall p, within p -> l !! Z.to_nat (index p) = Some (default 0 (m !! Z.to_nat (label_at s p)))) as Hp.
  { intros p Hp. rewrite <- limg_position.
    apply (Hin p.1 p.2 (label_at s p)); [done|]. rewrite Hpix by done. by destruct p. }
  assert (forall p, fg p = true -> 1 <= label_at s p < next_free (eq_trees s) /\ within p) as Hfg.
  { intros p Hf. pose proof (fg_within p Hf) as Hw. split; [|done]. by apply (inv_fg _ _ I); [|apply Hlt|]. }
  assert (forall p, fg p = true -> exists v, m !! Z.to_nat (label_at s p) = Some v /\ 1 <= v < k) as Hv1.
  { intros p Hf. destruct (Hfg p Hf). by apply (tab_range _ _ _ T). }
  constructor.
  - rewrite Hlen. apply (inv_length _ _ I).
  - intros p Hw Hf. rewrite Hp, (inv_bg _ _ I p Hw (Hlt p Hw) Hf) by done. change (Z.to_nat 0) with 0%nat.
    by rewrite (tab_zero _ _ _ T).
  - intros p Hf. destruct (Hv1 p Hf) as (v & Hm & Hr). exists v. rewrite Hp by (by apply Hfg).
    by rewrite Hm.
  - intros p q Hf Hf'. destruct (Hfg p Hf) as [? Hw], (Hfg q Hf') as [? Hw'].
    destruct (Hv1 p Hf) as (v & Hm & _), (Hv1 q Hf') as (v' & Hm' & _).
    rewrite !Hp, Hm, Hm' by done. cbn [default from_option id].
    pose proof (tab_same _ _ _ T (label_at s p) (label_at s q) ltac:(done) ltac:(done)) as Hsame.
    rewrite Hm, Hm' in Hsame. rewrite Hsame. split.
    + intros Er. apply (inv_sound _ _ I); try done; by apply Hlt.
    + by apply linked_root.
  - intros v Hr. destruct (tab_onto _ _ _ T v Hr) as (i & Hi & Hm).
    destruct (inv_used _ _ I i Hi) as (p & Hw & _ & Hf & E). exists p. split; [done|].
    rewrite Hp, E, Hm by done. done.
Qed.

(** ** The whole call *)

Lemma inv_start garbage : rows im * columns im < 2 ^ 64 -> 1 <= label_max ->
  cap = capacity label_max (rows im) (columns im) conn ->
  inv 0 (mk_scan (garbage <$> seq 0 (Z.to_nat (wrapu 64 (rows im * columns im))))
           (reset label_max (rows im) (columns im) conn)).
Proof.
  intros Hmax Hlab Hcap.
  destruct (reset_wf label_max (rows im) (columns im) conn) as (Hw & Hn & Hs); [nia|done|].
  assert (forall p, within p -> index p < 0 -> False) as Hnone.
  { intros p Hp. pose proof (index_range im p Hp). lia. }
  constructor; cbn [lab eq_trees]; [|done|congruence|..].
  - rewrite length_fmap, length_seq, wrapu_id by (unfold in_u; nia). nia.
  - intros p Hp Hi. by destruct (Hnone p).
  - intros p Hp Hi. by destruct (Hnone p).
  - intros p q Hp Hq Hi. by destruct (Hnone p).
  - intros p q Hp Hq Hi. by destruct (Hnone p).
  - intros l Hl. lia.
  - rewrite Hn. done.
Qed.

(** The labels suffice when there is one for each pixel that asks for one, next to the
    label of the background; otherwise the call throws. *)
Lemma connected_run checked garbage t : rows im * columns im < 2 ^ 64 -> 1 <= label_max ->
  cap = capacity label_max (rows im) (columns im) conn ->
  if decide (makers (pixels im) < cap) then
    exists l k t', labelled l k /\ 1 <= k <= label_max /\ k <= 1 + makers (pixels im) /\
      connectedComponents label_max is_bg checked garbage conn im mem t =
        (if past_end checked k (1 + makers (pixels im)) then UB else Ok (limg, l, k), t')
  else exists t', connectedComponents label_max is_bg checked garbage conn im mem t =
    (Throw label_overflow, t').
Proof.
  intros Hmax Hlab Hcap. unfold connectedComponents, connectedComponentsImpl. cbv zeta.
  replace (wrapu 64 (rows im * columns im) =? 0) with false
    by (symmetry; apply Z.eqb_neq; rewrite wrapu_id by (unfold in_u; nia); nia).
  pose proof (inv_start garbage Hmax Hlab Hcap) as I0.
  set (s0 := mk_scan _ _) in *. clearbody s0.
  change (mk_image 0 (rows im) (columns im) (columns im)) with limg.
  pose proof (scan_image_run s0 ltac:(nia) I0) as Hscan.
  unfold runs, good in Hscan. expose.
  destruct (scan_image label_max is_bg conn im mem limg s0) as [[u|e|] s]; cbn in Hscan; [| |done].
  - (* every pixel has a label *)
    pose proof (inv_wf _ _ Hscan) as Hwf. pose proof (wf_next _ _ Hwf).
    pose proof (inv_makers _ _ Hscan) as Hmk. rewrite (inv_size _ _ Hscan) in *.
    rewrite decide_True by (unfold pixels; lia).
    destruct (getLabels_run label_max (eq_trees s) Hwf) as (m & k & t' & Hget & T).
    pose proof (tab_k _ _ _ T). pose proof (wf_max _ _ Hwf).
    destruct (relabel_run checked s m k Hscan T) as (l & Hlabelled & Hl). rewrite Hmk in Hl.
    exists l, k, t'. split; [done|]. rewrite (inv_size _ _ Hscan) in *. split; [lia|]. split; [unfold pixels; lia|].
    unfold on_trees. rewrite Hget. unfold get, lift, modify. cbn [lab eq_trees].
    rewrite Hl. unfold pixels. destruct (past_end _ _ _); [done|]. by rewrite Z.mod_small by lia.
  - destruct e; try done. rewrite decide_False by lia. by exists (eq_trees s).
Qed.

End Scan.

(** ** How many labels an image can need *)

Section Makers.
Context (is_bg : Z -> bool) (conn : ConnectivityType) (im : image) (mem : list Z).
Hypothesis (Hrows : 0 < rows im).
Hypothesis (Hcols : 0 < columns im).

Abbreviation maker := (maker is_bg conn im mem).
Abbreviation within := (within im).
Abbreviation index := (index im).

(** Of two adjacent pixels the later one sees the earlier one. *)
Lemma makers_apart p q : within p -> within q -> maker p = true -> maker q = true ->
  adjacent conn p q -> False.
Proof.
  assert (forall p q, within p -> within q -> maker p = true -> maker q = true ->
    adjacent conn p q -> index q < index p -> False) as G.
  { intros p' q' Hp Hq Hmp Hmq Hadj Hlt. unfold Labelling.maker in Hmp, Hmq.
    apply andb_prop in Hmp as [_ Hall], Hmq as [Hfq _]. rewrite forallb_forall in Hall.
    pose proof (adjacent_earlier im conn p' q' Hp Hq Hlt Hadj) as Hin.
    specialize (Hall q' (proj1 (list_elem_of_In _ _) Hin)). by rewrite Hfq in Hall. }
  intros Hp Hq Hmp Hmq Hadj. destruct (Z.lt_trichotomy (index p) (index q)) as [?|[E|?]].
  - by apply (G q p Hq Hp Hmq Hmp (adjacent_sym _ _ _ Hadj)).
  - apply (position_index_inj im) in E as ->; [|done|done]. destruct conn, q; unfold adjacent in Hadj; cbn in Hadj; lia.
  - by apply (G p q Hp Hq Hmp Hmq Hadj).
Qed.

(** Counting by tiles that hold at most one of the pixels. *)
Lemma makers_tiles (tile : pos -> Z) (N : Z) : 0 <= N ->
  (forall p, within p -> 0 <= tile p < N) ->
  (forall p q, within p -> within q -> tile p = tile q -> p = q \/ adjacent conn p q) ->
  makers is_bg conn im mem (pixels im) <= N.
Proof.
  intros HN Hrange Htile. unfold makers.
  set (l := filter (fun i => maker (pixel_of im i) = true) (seq 0 (pixels im))).
  assert (forall i, i ∈ l -> within (pixel_of im i) /\ index (pixel_of im i) = Z.of_nat i /\
    maker (pixel_of im i) = true) as Hl.
  { intros i [Hm Hi]%list_elem_of_filter. apply elem_of_seq in Hi.
    destruct (pixel_within im i); [done|unfold pixels in Hi; nia|]. done. }
  assert (NoDup ((fun i => Z.to_nat (tile (pixel_of im i))) <$> l)) as Hnd.
  { apply NoDup_fmap_2_strong; [|apply NoDup_filter, NoDup_seq].
    intros i j Hi Hj E. destruct (Hl i Hi) as (Hwi & Ei & Hmi), (Hl j Hj) as (Hwj & Ej & Hmj).
    pose proof (Hrange _ Hwi). pose proof (Hrange _ Hwj).
    destruct (Htile (pixel_of im i) (pixel_of im j)) as [Epix|Hadj]; [done|done|lia| |].
    - rewrite Epix in Ei. lia.
    - by destruct (makers_apart _ _ Hwi Hwj Hmi Hmj Hadj). }
  assert (length l <= Z.to_nat N)%nat; [|lia].
  rewrite <- (length_fmap (fun i => Z.to_nat (tile (pixel_of im i)))), <- (length_seq (Z.to_nat N) 0).
  apply submseteq_length, NoDup_submseteq; [done|].
  intros x (i & -> & Hi)%list_elem_of_fmap. destruct (Hl i Hi) as (Hw & _).
  pose proof (Hrange _ Hw). apply elem_of_seq. lia.
Qed.
End Makers.

(** Two quotients with a common carry are equal. *)
Lemma tile_row h a b x y : 0 <= x < h -> 0 <= y < h -> a * h + x = b * h + y -> a = b /\ x = y.
Proof.
  intros Hx Hy E. assert (a = b) as -> by (assert (a < b \/ a = b \/ a > b) as [|[|]] by lia; nia). lia.
Qed.

(** Dominoes: horizontal ones, and vertical ones in the last column of an odd number. *)
Lemma makers_way4 is_bg im mem : 0 < rows im -> 0 < columns im ->
  makers is_bg Way4 im mem (pixels im) <= rows im * columns im / 2 + 1.
Proof.
  intros Hr Hc. set (h := columns im / 2).
  assert (columns im = 2 * h \/ columns im = 2 * h + 1) as Hodd by (subst h; zdiv_lia).
  assert (forall x, 0 <= x < 2 * h -> 0 <= x / 2 < h) as Hhalf by (intros; zdiv_lia).
  transitivity (rows im * h + (columns im - 2 * h) * ((rows im + 1) / 2)).
  - apply (makers_tiles is_bg Way4 im mem) with
      (tile := fun p => if p.2 <? 2 * h then p.1 * h + p.2 / 2 else rows im * h + p.1 / 2); [done| | |].
    + assert (0 <= (rows im + 1) / 2) by (apply Z.div_pos; lia). nia.
    + intros [r c] [Hir Hic]. cbn in *.
      assert (0 <= r / 2 < (rows im + 1) / 2) by zdiv_lia.
      destruct (Z.ltb_spec c (2 * h)).
      * pose proof (Hhalf c ltac:(lia)). nia.
      * assert (columns im - 2 * h = 1) as -> by lia. nia.
    + intros [r c] [r' c'] [Hir Hic] [Hir' Hic']. cbn in *. unfold adjacent. cbn. intros E.
      assert (r = r' /\ (c = c' \/ Z.abs (c - c') = 1) \/ c = c' /\ (r = r' \/ Z.abs (r - r') = 1)) as D.
      { destruct (Z.ltb_spec c (2 * h)), (Z.ltb_spec c' (2 * h)).
        - pose proof (Hhalf c ltac:(lia)). pose proof (Hhalf c' ltac:(lia)).
          apply tile_row in E as [-> E]; [|done|done]. left. split; [done|]. zdiv_lia.
        - pose proof (Hhalf c ltac:(lia)). assert (0 <= r' / 2) by (apply Z.div_pos; lia). nia.
        - pose proof (Hhalf c' ltac:(lia)). assert (0 <= r / 2) by (apply Z.div_pos; lia). nia.
        - right. split; [lia|]. zdiv_lia. }
      destruct D as [[-> [->|?]]|[-> [->|?]]]; [by left|right; lia|by left|right; lia].
  - destruct Hodd as [-> | ->].
    + replace (rows im * (2 * h)) with ((rows im * h) * 2) by lia. rewrite Z.div_mul by lia. lia.
    + replace (rows im * (2 * h + 1)) with (rows im + (rows im * h) * 2) by lia.
      rewrite Z.div_add by lia. zdiv_lia.
Qed.

(** The tiles of two by two pixels are at most a third of the pixels, and one. *)
Lemma tiles_third r c : 2 <= r -> 2 <= c -> (r + 1) / 2 * ((c + 1) / 2) <= r * c / 3 + 1.
Proof.
  intros Hr Hc. assert (H3 : 3 * (r * c / 3) + 2 >= r * c) by zdiv_lia.
  set (q := r * c / 3) in *. clearbody q.
  assert (exists a, (r = 2 * a \/ r = 2 * a + 1) /\ 1 <= a) as (a & Ha & Ha1) by (exists (r / 2); zdiv_lia).
  assert (exists b, (c = 2 * b \/ c = 2 * b + 1) /\ 1 <= b) as (b & Hb & Hb1) by (exists (c / 2); zdiv_lia).
  assert ((r + 1) / 2 = r - a) as -> by zdiv_lia. assert ((c + 1) / 2 = c - b) as -> by zdiv_lia.
  assert (a = 1 \/ a = 2 \/ 3 <= a) as Ca by lia. assert (b = 1 \/ b = 2 \/ 3 <= b) as Cb by lia.
  destruct Ha as [-> | ->], Hb as [-> | ->], Ca as [-> | [-> | ?]], Cb as [-> | [-> | ?]]; try lia; nia.
Qed.

(** Squares of two by two pixels. *)
Lemma makers_way8 is_bg im mem : 2 <= rows im -> 2 <= columns im ->
  makers is_bg Way8 im mem (pixels im) <= rows im * columns im / 3 + 1.
Proof.
  intros Hr Hc. transitivity ((rows im + 1) / 2 * ((columns im + 1) / 2)); [|by apply tiles_third].
  assert (forall x n, 0 <= x < n -> 0 <= x / 2 < (n + 1) / 2) as Hhalf by (intros; zdiv_lia).
  apply (makers_tiles is_bg Way8 im mem) with
    (tile := fun p => p.1 / 2 * ((columns im + 1) / 2) + p.2 / 2); [lia| | |].
  - assert (0 <= (rows im + 1) / 2) by (apply Z.div_pos; lia).
    assert (0 <= (columns im + 1) / 2) by (apply Z.div_pos; lia). nia.
  - intros [r c] [Hir Hic]. cbn in *. pose proof (Hhalf r _ Hir). pose proof (Hhalf c _ Hic). nia.
  - intros [r c] [r' c'] [Hir Hic] [Hir' Hic']. cbn in *. unfold adjacent. cbn. intros E.
    apply tile_row in E as [Er Ec]; [|by apply Hhalf|by apply Hhalf].
    destruct (decide (r = r' /\ c = c')) as [[-> ->]|]; [by left|right; zdiv_lia].
Qed.
(** C6: [connectedComponents] gives the pixels of the background the label 0 and two
    pixels of the foreground the same label exactly when a path of adjacent pixels of the
    foreground links them; the labels of the foreground are all of [1 .. k - 1], [k] being the
    returned total. It does so whenever fewer pixels than the trees have labels are
    without an earlier neighbour, and otherwise throws [LabelOverflow]. There is one reservation: such
    a pixel asks for a new label, and if there are fewer components than labels, the table of labels is read past its
    end after [labels_.resize(k)] (image_processing.hpp:476, :875). The language leaves that undefined, and so is the whole
    call with [checked]; without it, as in the usual implementations of [std::vector], the old element is still in the memory,
    and the result is the same. *)
Theorem components_labelled checked label_max is_bg garbage conn im mem t :
  valid im mem -> 0 < rows im -> 0 < columns im -> rows im * columns im < 2 ^ 64 ->
  is_bg 0 = true -> 1 <= label_max ->
  let labels := 1 + makers is_bg conn im mem (pixels im) in
  if decide (makers is_bg conn im mem (pixels im) < capacity label_max (rows im) (columns im) conn) then
    exists l k t', labelled is_bg conn im mem l k /\ 1 <= k <= label_max /\ k <= labels /\
      connectedComponents label_max is_bg checked garbage conn im mem t =
        (if checked && (k <? labels) then UB else Ok (labels_image im, l, k), t')
  else exists t', connectedComponents label_max is_bg checked garbage conn im mem t =
    (Throw label_overflow, t').
Proof.
  intros Hv Hr Hc Hmax Hzero Hlm.
  by apply (connected_run label_max is_bg conn im mem (capacity label_max (rows im) (columns im) conn)).
Qed.

(** Two components: a diamond, which only diagonals link, and a pixel on its own. *)
Definition demo_pixels : list Z :=
  [0; 1; 0; 0;
   1; 0; 1; 0;
   0; 1; 0; 0;
   0; 0; 0; 1].

(** The first two pixels ask for a label each; the third one joins them. *)
Definition demo_joined : list Z :=
  [1; 0; 1; 0;
   0; 1; 0; 0;
   0; 0; 0; 0;
   0; 0; 0; 1].

Lemma demo_square (l : list Z) : length l = 16%nat -> valid (mk_image 0 4 4 4) l.
Proof. intros E. constructor; cbn; [lia|lia|lia|]. intros _. unfold row. cbn. rewrite E. lia. Qed.

Lemma components_labelled_witness :
  fst (connectedComponents 255 (Z.eqb 0) true (fun _ => 3) Way8 (mk_image 0 4 4 4) demo_joined LabelTrees.new) = UB /\
  exists l k t', labelled (Z.eqb 0) Way8 (mk_image 0 4 4 4) demo_pixels l k /\
    connectedComponents 255 (Z.eqb 0) true (fun _ => 3) Way8 (mk_image 0 4 4 4) demo_pixels LabelTrees.new =
      (Ok (labels_image (mk_image 0 4 4 4), l, k), t').
Proof.
  split; [vm_compute; reflexivity|].
  pose proof (components_labelled true 255 (Z.eqb 0) (fun _ => 3) Way8 (mk_image 0 4 4 4) demo_pixels LabelTrees.new
    (demo_square demo_pixels eq_refl) ltac:(done) ltac:(done) ltac:(done) ltac:(done) ltac:(done)) as H. cbv zeta in H.
  rewrite decide_True in H by (vm_compute; done). destruct H as (l & k & t' & L & _ & _ & H).
  exists l, k, t'. split; [exact L|]. rewrite H.
  assert (fst (connectedComponents 255 (Z.eqb 0) true (fun _ => 3) Way8 (mk_image 0 4 4 4) demo_pixels LabelTrees.new) <> UB) as Hne
    by (vm_compute; discriminate).
  rewrite H in Hne. destruct (_ && _); [by destruct Hne|reflexivity].
Defined.

Example demo_labels :
  match fst (connectedComponents 255 (Z.eqb 0) false (fun _ => 3) Way8 (mk_image 0 4 4 4) demo_pixels LabelTrees.new) with
  | Ok (_, l, k) => (l, k)
  | _ => ([], 0)
  end = ([0; 1; 0; 0;
          1; 0; 1; 0;
          0; 1; 0; 0;
          0; 0; 0; 2], 3).
Proof. vm_compute. reflexivity. Qed.

End Labelling.
