(* ===== verification/Denoise.v ===== *)
(** * Removing small groups of obstacles ([denoise_layer.cpp], and the morphology,
    histogram and [GroupsRemover] of [denoise/image_processing.hpp])

    The layer deletes from the master grid the connected groups of obstacles with fewer
    than [minimal_group_size] cells: by comparing each cell with the maximum of its
    neighbours when that size is 2, otherwise by counting the cells of each component. *)

From stdpp Require Import base option list numbers relations.
From Stdlib Require Import ZArith Lia.
From S2P Require Import Prelude Costmap CostmapLayer Image LabelTrees Components.

Module Denoise.
Import Image LabelTrees Components.

(** ** Histogram *)

Definition histogram (im : image) (mem : list Z) (image_max bin_max : Z) : res (list Z) :=
  if empty im then Ok []
  else
    forEach_const im mem (fun pixel h =>
      x ← aget h pixel;
      aset h pixel (Z.min (wrapu 64 (x + 1)) bin_max))
      (replicate (Z.to_nat (wrapu 64 (image_max + 1))) 0).

(** ** Morphology *)

(** An initializer list of three bytes. *)
Abbreviation overlay := (Z * Z * Z)%type (only parsing).

(** [touch_fn(out, overlay)], with the pixel it assigns at index [p]. *)
Definition touch (touch_fn : Z -> overlay -> Z) (p : Z) (o : overlay) (out : list Z) : res (list Z) :=
  x ← aget out p;
  aset out p (touch_fn x o).

(** The row of the input from [i] on, and of the output from [o] on. *)
Definition probe_row (input : list Z) (columns : Z) (shape : overlay) (touch_fn : Z -> overlay -> Z)
    (i o : Z) (out : list Z) : res (list Z) :=
  let '(s0, s1, s2) := shape in
  if columns =? 1 then
    x ← aget input i;
    touch touch_fn o (0, Z.land x s1, 0) out
  else
    x ← aget input i;
    y ← aget input (i + 1);
    out ← touch touch_fn o (0, Z.land x s1, Z.land y s2) out;
    out ← for_each (Z.to_nat (columns - 2)) 1 (fun c out =>
            w ← aget input (i + c - 1);
            x ← aget input (i + c);
            y ← aget input (i + c + 1);
            touch touch_fn (o + c) (Z.land w s0, Z.land x s1, Z.land y s2) out) out;
    w ← aget input (i + (columns - 1) - 1);
    x ← aget input (i + (columns - 1));
    touch touch_fn (o + (columns - 1)) (Z.land w s0, Z.land x s1, 0) out.

Definition probeRows (input : image) (in_mem : list Z) (first_input_row : Z)
    (output : image) (first_output_row : Z) (shape : overlay) (touch_fn : Z -> overlay -> Z)
    (out : list Z) : res (list Z) :=
  for_each (Z.to_nat (wrapu 64 (rows input - Z.max first_input_row first_output_row))) 0 (fun i =>
    probe_row in_mem (columns input) shape touch_fn
      (row input (i + first_input_row)) (row output (i + first_output_row))) out.

(** The rows of the structuring element; it has three by construction. *)
Record Shape : Type := mk_shape { top : overlay; centre : overlay; bottom : overlay }.

Definition createShape (connectivity : ConnectivityType) : Shape :=
  match connectivity with
  | Way8 => mk_shape (255, 255, 255) (255, 0, 255) (255, 255, 255)
  | Way4 => mk_shape (0, 255, 0) (255, 0, 255) (0, 255, 0)
  end.

Definition morphologyOperation (input : image) (in_mem : list Z) (output : image) (shape : Shape)
    (aggregate : overlay -> Z) (out : list Z) : res (list Z) :=
  if negb (rows input =? rows output) || negb (columns input =? columns output) then Throw logic_error
  else if empty input then Ok out
  else
    let set := fun (_ : Z) lst => aggregate lst in
    let update := fun x lst => aggregate (x, aggregate lst, 0) in
    out ← probeRows input in_mem 0 output 0 (centre shape) set out;
    if rows input >? 1 then
      out ← probeRows input in_mem 0 output 1 (top shape) update out;
      probeRows input in_mem 1 output 0 (bottom shape) update out
    else Ok out.

Definition dilate (input : image) (in_mem : list Z) (output : image) (connectivity : ConnectivityType)
    (max_function : overlay -> Z) (out : list Z) : res (list Z) :=
  morphologyOperation input in_mem output (createShape connectivity) max_function out.

(** ** Removing groups *)

Definition uint16_max : Z := 65535.
Definition uint32_max : Z := 4294967295.

(** What the pointer of a [GroupsRemover] points to. *)
Inductive GroupsRemover : Type :=
  | label_trees16 (t : trees)
  | label_trees32 (t : trees).

Definition new_remover : GroupsRemover := label_trees16 LabelTrees.new.

Section Remover.
Context (checked : bool) (garbage : nat -> Z) (is_background : Z -> bool) (connectivity : ConnectivityType).

(** The result is the buffer of the image. *)
Definition removeGroupsImpl (label_max : Z) (im : image) (mem : list Z) (minimal_group_size : Z) :
    ST trees (list Z) :=
  '(labels, lab, groups_count) ←
     connectedComponents label_max is_background checked garbage connectivity im mem;
  let max_label_value := (groups_count - 1) mod (label_max + 1) in
  groups_sizes ← lift (histogram labels lab max_label_value (wrapu 64 (minimal_group_size + 1)));
  let groups_sizes := match groups_sizes with [] => [] | _ :: l => 0 :: l end in
  let noise_labels_table := map (fun bin_value => bin_value <? minimal_group_size) groups_sizes in
  lift (convert labels lab im (fun src trg =>
    if negb (is_background trg) then
      noise ← aget noise_labels_table src;
      Ok (if noise : bool then 0 else trg)
    else Ok trg) mem).

(** The answer and the buffer of the image, which is unchanged when the call throws. *)
Definition tryRemoveGroupsWithLabelType (label_max : Z) (im : image) (mem : list Z)
    (minimal_group_size : Z) (throw_on_label_overflow : bool) : ST trees (bool * list Z) := fun t =>
  match removeGroupsImpl label_max im mem minimal_group_size t with
  | (Ok mem, t) => (Ok (true, mem), t)
  | (Throw label_overflow, t) =>
      if throw_on_label_overflow then (Throw label_overflow, t) else (Ok (false, mem), t)
  | (Throw e, t) => (Throw e, t)
  | (UB, t) => (UB, t)
  end.

(** The second attempt of [removeGroupsPickLabelType], with the 32 bit trees [t]. *)
Definition remove_with_32 (im : image) (mem : list Z) (minimal_group_size : Z) (t : trees) :
    res (list Z) * GroupsRemover :=
  let '(r, t) := tryRemoveGroupsWithLabelType uint32_max im mem minimal_group_size true t in
  (snd <$> r, label_trees32 t).

Definition removeGroups (im : image) (mem : list Z) (minimal_group_size : Z) :
    ST GroupsRemover (list Z) := fun g =>
  match g with
  | label_trees16 t =>
      match tryRemoveGroupsWithLabelType uint16_max im mem minimal_group_size false t with
      | (Ok (true, mem), t) => (Ok mem, label_trees16 t)
      | (Ok (false, mem), _) => remove_with_32 im mem minimal_group_size LabelTrees.new
      | (Throw e, t) => (Throw e, label_trees16 t)
      | (UB, t) => (UB, label_trees16 t)
      end
  | label_trees32 t => remove_with_32 im mem minimal_group_size t
  end.
End Remover.

(** ** The layer *)

Import Costmap CostmapLayer.

Record DenoiseLayer : Type := mk_denoise {
  enabled : bool;
  current : bool;
  no_information_is_obstacle : bool;
  minimal_group_size : Z;
  group_connectivity_type : ConnectivityType;
  groups_remover : GroupsRemover }.

Definition set_current (b : bool) (l : DenoiseLayer) : DenoiseLayer :=
  mk_denoise (enabled l) b (no_information_is_obstacle l) (minimal_group_size l)
    (group_connectivity_type l) (groups_remover l).
Definition set_no_information (b : bool) (l : DenoiseLayer) : DenoiseLayer :=
  mk_denoise (enabled l) (current l) b (minimal_group_size l) (group_connectivity_type l)
    (groups_remover l).
Definition set_remover (g : GroupsRemover) (l : DenoiseLayer) : DenoiseLayer :=
  mk_denoise (enabled l) (current l) (no_information_is_obstacle l) (minimal_group_size l)
    (group_connectivity_type l) g.

(** A new layer, before [onInitialize]; the flag [enabled_] comes from the base class. *)
Definition new_layer : DenoiseLayer := mk_denoise false false false 0 Way8 new_remover.

(** [locked] tells whether the node still exists; the parameters are its values. *)
Definition onInitialize (locked : bool) (enabled_param : bool)
    (minimal_group_size_param group_connectivity_type_param : Z) (l : DenoiseLayer) :
    res DenoiseLayer :=
  if negb locked then Throw runtime_error
  else
    Ok (mk_denoise enabled_param true (no_information_is_obstacle l)
          (if minimal_group_size_param <=? 1 then 1 else minimal_group_size_param)
          (if group_connectivity_type_param =? 4 then Way4 else Way8) (groups_remover l)).

Definition reset (l : DenoiseLayer) : DenoiseLayer := set_current false l.
Definition isClearable (l : DenoiseLayer) : bool := false.

Definition isBackground (l : DenoiseLayer) (pixel : Z) : bool :=
  negb ((pixel =? LETHAL_OBSTACLE) || (pixel =? INSCRIBED_INFLATED_OBSTACLE) ||
        ((pixel =? NO_INFORMATION) && no_information_is_obstacle l)).

Definition replace_to_free (v : Z) : Z := if v =? NO_INFORMATION then FREE_SPACE else v.

(** The two functions [max] of [removeSinglePixels]. *)
Definition max_known (o : overlay) : Z :=
  let '(x, y, z) := o in
  Z.max (Z.max (replace_to_free x) (replace_to_free y)) (replace_to_free z).
Definition max_all (o : overlay) : Z := let '(x, y, z) := o in Z.max (Z.max x y) z.

(** [garbage] is what the buffer holds. *)
Definition removeSinglePixels (garbage : nat -> Z) (im : image) (mem : list Z) (l : DenoiseLayer) :
    res (list Z) :=
  let max_neighbors_image := mk_image 0 (rows im) (columns im) (columns im) in
  let buf := garbage <$> seq 0 (Z.to_nat (wrapu 64 (rows im * columns im))) in
  buf ← dilate im mem max_neighbors_image (group_connectivity_type l)
          (if negb (no_information_is_obstacle l) then max_known else max_all) buf;
  convert max_neighbors_image buf im (fun maxNeighbor img =>
    Ok (if negb (isBackground l img) && isBackground l maxNeighbor then FREE_SPACE else img)) mem.

Definition denoise (checked : bool) (garbage : nat -> Z) (im : image) (mem : list Z) :
    ST DenoiseLayer (list Z) := fun l =>
  if empty im then (Ok mem, l)
  else if minimal_group_size l <=? 1 then (Ok mem, l)
  else if minimal_group_size l =? 2 then (removeSinglePixels garbage im mem l, l)
  else
    let '(r, g) := removeGroups checked garbage (isBackground l) (group_connectivity_type l)
                     im mem (minimal_group_size l) (groups_remover l) in
    (r, set_remover g l).

(** [updateBounds] leaves the bounds as they are. *)
Definition updateBounds (b : bounds) (l : DenoiseLayer) : bounds := b.

(** The window of the master grid as an image over its array. *)
Definition roi_image (master_grid : costmap) (min_x min_y max_x max_y : Z) : res image :=
  let step := wraps 32 (getSizeInCellsX master_grid) in
  row0 ← chk 32 (min_y * step);
  width ← chk 32 (max_x - min_x);
  height ← chk 32 (max_y - min_y);
  Ok (mk_image (row0 + min_x) (wrapu 64 height) (wrapu 64 width) (wrapu 64 step)).

(** An exception of [denoise] is logged, and the grid stays as it was. *)
Definition updateCosts (checked : bool) (garbage : nat -> Z) (min_x min_y max_x max_y : Z)
    (master_grid : costmap) : ST DenoiseLayer costmap := fun l =>
  if negb (enabled l) then (Ok master_grid, l)
  else if (min_x >=? max_x) || (min_y >=? max_y) then (Ok master_grid, l)
  else
    let l := set_no_information (negb (default_value master_grid =? NO_INFORMATION)) l in
    match roi_image master_grid min_x min_y max_x max_y with
    | Ok im =>
        match denoise checked garbage im (cells master_grid) l with
        | (Ok mem, l) => (Ok (set_cells mem master_grid), set_current true l)
        | (Throw _, l) => (Ok master_grid, set_current true l)
        | (UB, l) => (UB, l)
        end
    | Throw e => (Throw e, l)
    | UB => (UB, l)
    end.

End Denoise.
