(* ===== verification/DenoiseLaws.v ===== *)
(** * The denoise layer removes exactly the small groups

    Both ways of [Denoise] to remove groups of obstacles meet one specification: a cell
    becomes free exactly when it is an obstacle whose group has fewer cells than asked,
    and nothing else changes. *)

From stdpp Require Import base option list numbers relations.
From Stdlib Require Import ZArith Lia.
From S2P Require Import Prelude Float64 Costmap CostmapLayer Image LabelTrees Components Labelling Denoise.

Module DenoiseLaws.
Import Image LabelTrees Components Labelling Denoise.

(** ** Reachability in a finite graph *)

Section Reachable.
Context (R : pos -> pos -> Prop) `{!RelDecision R} (V : list pos) (p : pos).
Hypothesis (HV : forall x y, R x y -> y ∈ V).

(** A set of reachable vertices is closed under the edges or can be enlarged. *)
Lemma grow (S : list pos) : p ∈ S -> (forall q, q ∈ S -> rtc R p q) ->
  (forall q, q ∈ S <-> rtc R p q) \/ exists y, y ∈ V /\ (y ∉ S) /\ rtc R p y.
Proof.
  intros Hp Hreach. destruct (decide (Exists (fun x => Exists (fun y => R x y /\ (y ∉ S)) V) S)) as [He|He].
  - right. apply Exists_exists in He as (x & Hx & He). apply Exists_exists in He as (y & Hy & Hr & Hnew).
    exists y. split; [done|]. split; [done|]. eapply rtc_r; [by apply Hreach|done].
  - left. intros q. split; [by apply Hreach|]. revert q. apply rtc_ind_r; [done|].
    intros x y _ Hr Hx. destruct (decide (y ∈ S)) as [|Hy]; [done|].
    destruct He. apply Exists_exists. exists x. split; [done|].
    apply Exists_exists. exists y. split; [by eapply HV|done].
Qed.

Lemma reachable_list : exists l, NoDup l /\ forall q, q ∈ l <-> rtc R p q.
Proof.
  assert (forall n S, (length (p :: V) - length S <= n)%nat -> NoDup S -> p ∈ S -> S ⊆ p :: V ->
    (forall q, q ∈ S -> rtc R p q) -> exists l, NoDup l /\ forall q, q ∈ l <-> rtc R p q) as G.
  { induction n as [|n IH]; intros S Hn Hnd Hp Hsub Hreach;
      (destruct (grow S Hp Hreach) as [Hall|(y & Hy & Hnew & Hr)]; [by exists S|]);
      assert (NoDup (y :: S) /\ y :: S ⊆ p :: V) as [Hnd' Hsub'] by
        (split; [by constructor|]; intros z [->|Hz]%elem_of_cons;
         [by apply elem_of_cons; right|by apply Hsub]).
    - assert (length (y :: S) <= length (p :: V))%nat; [|simpl in *; lia].
      by apply submseteq_length, NoDup_submseteq.
    - apply (IH (y :: S)); [simpl in *; lia|done|by apply elem_of_cons; right|done|].
      intros z [->|Hz]%elem_of_cons; [done|by apply Hreach]. }
  apply (G (length (p :: V)) [p]).
  - simpl; lia.
  - apply NoDup_singleton.
  - by apply list_elem_of_singleton.
  - intros z Hz%list_elem_of_singleton. subst. by apply elem_of_cons; left.
  - intros q Hq%list_elem_of_singleton. subst. constructor.
Qed.
End Reachable.

(** ** Specification *)

Section Spec.
Context (is_bg : Z -> bool) (conn : ConnectivityType) (im : image).

(** The cells that paths of adjacent obstacles link to [p], each once. *)
Definition group (mem : list Z) (p : pos) (l : list pos) : Prop :=
  NoDup l /\ forall q, q ∈ l <-> linked is_bg conn im mem p q.

Record denoised (minimal : Z) (mem mem' : list Z) : Prop := {
  den_length : length mem' = length mem;
  den_out : forall k : nat, (forall r c, inside im r c -> Z.to_nat (row im r + c) <> k) ->
    mem' !! k = mem !! k;
  den_bg : forall p, within im p -> fg is_bg im mem p = false ->
    pixel im mem' p.1 p.2 = pixel im mem p.1 p.2;
  den_fg : forall p, fg is_bg im mem p = true -> exists l, group mem p l /\
    pixel im mem' p.1 p.2 =
      if Z.of_nat (length l) <? minimal then Some 0 else pixel im mem p.1 p.2 }.

Lemma group_length mem p l l' : group mem p l -> group mem p l' -> length l = length l'.
Proof.
  intros [Hl H] [Hl' H']. apply Permutation_length, NoDup_Permutation; [done|done|].
  intros q. by rewrite H, H'.
Qed.

Lemma denoised_unique minimal mem m1 m2 : valid im mem ->
  denoised minimal mem m1 -> denoised minimal mem m2 -> m1 = m2.
Proof.
  intros Hv D1 D2. apply list_eq. intros k.
  destruct (decide (Exists (fun i => Z.to_nat (row im (pixel_of im i).1 + (pixel_of im i).2) = k /\
    within im (pixel_of im i)) (seq 0 (pixels im)))) as [He|He].
  - apply Exists_exists in He as (i & _ & <- & Hw). set (p := pixel_of im i) in *.
    change (pixel im m1 p.1 p.2 = pixel im m2 p.1 p.2).
    destruct (fg is_bg im mem p) eqn:Hf.
    + destruct (den_fg _ _ _ D1 p Hf) as (l1 & Hl1 & ->), (den_fg _ _ _ D2 p Hf) as (l2 & Hl2 & ->).
      by rewrite (group_length mem p l1 l2).
    + by rewrite (den_bg _ _ _ D1), (den_bg _ _ _ D2).
  - assert (forall r c, inside im r c -> Z.to_nat (row im r + c) <> k) as Hout.
    { intros r c Hi E. apply He, Exists_exists. exists (Z.to_nat (index im (r, c))).
      rewrite (pixel_index im (r, c)) by done. pose proof (index_range im (r, c) Hi).
      split; [apply list_elem_of_In, in_seq; unfold pixels; lia|]. done. }
    by rewrite (den_out _ _ _ D1 k Hout), (den_out _ _ _ D2 k Hout).
Qed.

Hypothesis (Hzero : is_bg 0 = true).

#[local] Instance adjacent_dec p q : Decision (adjacent conn p q).
Proof. unfold adjacent. destruct conn; apply _. Defined.
#[local] Instance link_dec mem : RelDecision (link is_bg conn im mem).
Proof. intros p q. unfold link. apply _. Defined.

Lemma group_exists mem p : fg is_bg im mem p = true -> exists l, group mem p l.
Proof.
  intros Hf. pose proof (fg_within is_bg im mem Hzero) as Hw.
  destruct (reachable_list (link is_bg conn im mem) (pixel_of im <$> seq 0 (pixels im)) p) as (l & Hn & Hl).
  - intros x y (_ & Hy & _). apply list_elem_of_fmap. exists (Z.to_nat (index im y)).
    pose proof (Hw y Hy) as Hwy. pose proof (index_range im y Hwy).
    split; [by rewrite pixel_index|]. apply elem_of_seq. unfold pixels. lia.
  - by exists l.
Qed.

(** Groups of one cell or more are never small. *)
Lemma denoised_refl minimal mem : minimal <= 1 -> denoised minimal mem mem.
Proof.
  intros Hm. constructor; try done. intros p Hf. destruct (group_exists mem p Hf) as [l Hl]. exists l.
  split; [done|]. replace (_ <? _) with false; [done|]. symmetry. apply Z.ltb_ge.
  destruct l as [|q l]; [|simpl; lia]. destruct Hl as [_ Hl]. pose proof (proj2 (Hl p) (rtc_refl _ _)) as H.
  by apply elem_of_nil in H.
Qed.
End Spec.

(** ** The histogram *)

(** The pixels with value [v] among the first [n] ones in reading order. *)
Definition count (l : list Z) (v : Z) (n : nat) : Z :=
  Z.of_nat (length (filter (fun i => l !! i = Some v) (seq 0 n))).

Lemma count_step l v n x : l !! n = Some x -> count l v (Datatypes.S n) = count l v n + (if x =? v then 1 else 0).
Proof.
  intros Hx. unfold count. rewrite seq_S, filter_app, length_app, Nat.add_0_l. cbn [filter list_filter].
  rewrite Hx. destruct (Z.eqb_spec x v) as [->|Hne]; case_decide; simplify_eq; cbn; lia.
Qed.

Lemma count_nonneg l v n : 0 <= count l v n.
Proof. unfold count. lia. Qed.

Lemma count_le l v n : count l v n <= Z.of_nat n.
Proof. unfold count. pose proof (length_filter (fun i => l !! i = Some v) (seq 0 n)). rewrite length_seq in *. lia. Qed.

Lemma histogram_run rows cols l image_max bin_max :
  0 < rows -> 0 < cols -> rows * cols < 2 ^ 63 -> Z.of_nat (length l) = rows * cols ->
  0 <= image_max < 2 ^ 63 -> 0 <= bin_max < 2 ^ 63 ->
  (forall i v, l !! i = Some v -> 0 <= v <= image_max) ->
  exists h, histogram (mk_image 0 rows cols cols) l image_max bin_max = Ok h /\
    Z.of_nat (length h) = image_max + 1 /\
    forall v, 0 <= v <= image_max -> h !! Z.to_nat v = Some (Z.min (count l v (length l)) bin_max).
Proof.
  intros Hr Hc Hmax Hl Him Hbm Hval. unfold histogram, empty. cbn [Image.rows columns].
  replace (_ || _) with false by (symmetry; apply orb_false_iff; rewrite !Z.eqb_neq; lia).
  rewrite wrapu_id by (unfold in_u; lia). unfold forEach_const.
  set (P := fun n (h : list Z) => Z.of_nat (length h) = image_max + 1 /\
    forall v, 0 <= v <= image_max -> h !! Z.to_nat v = Some (Z.min (count l v (Z.to_nat n)) bin_max)).
  set (body := fun (r c : Z) (s : list Z) => _).
  destruct (for_pixels_inv (mk_image 0 rows cols cols) P body
    (replicate (Z.to_nat (image_max + 1)) 0)) as (h & Hh & Hlen & Hin);
    cbn [Image.rows columns]; [lia|lia| | |].
  - split; [rewrite length_replicate; lia|]. intros v Hv. rewrite lookup_replicate_2 by lia.
    f_equal. change (Z.to_nat 0) with 0%nat. change (0 = Z.min 0 bin_max). lia.
  - intros r c h [Hir Hic] [Hlen Hin]. cbn [Image.rows columns] in Hir, Hic. subst body. cbv beta.
    unfold row. cbn [data_start step].
    assert (0 <= r * cols + c < Z.of_nat (length l)) as Hn by nia.
    destruct (lookup_lt_is_Some_2 l (Z.to_nat (r * cols + c))) as [x Hx]; [lia|].
    pose proof (Hval _ _ Hx). assert (aget l (0 + r * cols + c) = Ok x) as ->.
    { apply aget_ok. split; [lia|]. by replace (0 + r * cols + c) with (r * cols + c) by lia. }
    rewrite bind_Ok. assert (aget h x = Ok (Z.min (count l x (Z.to_nat (r * cols + c))) bin_max)) as ->.
    { apply aget_ok. split; [lia|]. by apply Hin. }
    rewrite bind_Ok. pose proof (count_nonneg l x (Z.to_nat (r * cols + c))).
    pose proof (count_le l x (Z.to_nat (r * cols + c))).
    rewrite wrapu_id by (unfold in_u; lia).
    eexists. split; [apply aset_ok; split; [lia|done]|]. split; [by rewrite length_insert|].
    replace (Z.to_nat (r * cols + c + 1)) with (Datatypes.S (Z.to_nat (r * cols + c))) by lia.
    intros v Hv. rewrite (count_step l v _ x Hx). destruct (Z.eqb_spec x v) as [->|Hne].
    + rewrite list_lookup_insert_eq by lia. f_equal. lia.
    + rewrite list_lookup_insert_ne by lia. rewrite Hin by done. f_equal. lia.
  - exists h. split; [done|]. split; [done|]. intros v Hv. rewrite Hin by done.
    cbn [Image.rows columns]. by replace (Z.to_nat (rows * cols)) with (length l) by lia.
Qed.

(** ** Removing by groups *)

Section Groups.
Context (is_bg : Z -> bool) (conn : ConnectivityType) (im : image) (mem : list Z).
Hypothesis (Hv : valid im mem).
Hypothesis (Hrows : 0 < rows im).
Hypothesis (Hcols : 0 < columns im).
Hypothesis (Hzero : is_bg 0 = true).
Hypothesis (Hmax : rows im * columns im < 2 ^ 63).

Abbreviation fg := (fg is_bg im mem).
Abbreviation linked := (linked is_bg conn im mem).
Abbreviation labelled := (labelled is_bg conn im mem).

(** The pixels with the label of [p] are the group of [p]. *)
Lemma labelled_group l k p v : labelled l k -> fg p = true -> l !! Z.to_nat (index im p) = Some v ->
  exists g, group is_bg conn im mem p g /\ Z.of_nat (length g) = count l v (length l).
Proof.
  intros L Hf Hlab.
  set (same := filter (fun i => l !! i = Some v) (seq 0 (length l))).
  assert (length l = pixels im) as Hlen.
  { pose proof (lab_length _ _ _ _ _ _ L). unfold pixels. lia. }
  assert (forall i, i ∈ same -> within im (pixel_of im i) /\ index im (pixel_of im i) = Z.of_nat i /\
    l !! i = Some v) as Hsame.
  { intros i [Hi Hs]%list_elem_of_filter. apply elem_of_seq in Hs.
    destruct (pixel_within im i); [done|unfold pixels in Hlen; lia|done]. }
  destruct (lab_fg _ _ _ _ _ _ L p Hf) as (v' & Hv' & Hrange).
  rewrite Hlab in Hv'. injection Hv' as <-.
  exists (pixel_of im <$> same). split; [|by rewrite length_fmap]. split.
  - apply NoDup_fmap_2_strong; [|apply NoDup_filter, NoDup_seq].
    intros i j Hi Hj E. destruct (Hsame i Hi) as (_ & Ei & _), (Hsame j Hj) as (_ & Ej & _).
    rewrite E in Ei. lia.
  - intros q. rewrite list_elem_of_fmap. split.
    + intros (i & -> & Hi). destruct (Hsame i Hi) as (Hw & Ei & Hli).
      assert (l !! Z.to_nat (index im (pixel_of im i)) = Some v) as Hlq by (by rewrite Ei, Nat2Z.id).
      apply (lab_same _ _ _ _ _ _ L); [done| |congruence].
      destruct (Labelling.fg is_bg im mem (pixel_of im i)) eqn:Hfq; [done|].
      rewrite (lab_bg _ _ _ _ _ _ L _ Hw Hfq) in Hlq. injection Hlq as <-. lia.
    + intros Hl. pose proof (linked_fg is_bg conn im mem p q Hl Hf) as Hfq.
      pose proof (fg_within is_bg im mem Hzero q Hfq) as Hw. exists (Z.to_nat (index im q)).
      split; [by rewrite pixel_index|]. pose proof (index_range im q Hw).
      apply list_elem_of_filter. split; [|apply elem_of_seq; unfold pixels in Hlen; lia].
      rewrite <- Hlab. symmetry. by apply (lab_same _ _ _ _ _ _ L).
Qed.

Lemma fg_pixel p x : within im p -> pixel im mem p.1 p.2 = Some x -> fg p = negb (is_bg x).
Proof. intros Hw Hx. unfold Labelling.fg, px. by rewrite decide_True, Hx by done. Qed.

(** The part of [removeGroupsImpl] after the components have their labels. *)
Definition remove_labelled (label_max minimal : Z) (lab : list Z) (groups_count : Z) : ST trees (list Z) :=
  let labels := mk_image 0 (rows im) (columns im) (columns im) in
  groups_sizes ← lift (histogram labels lab ((groups_count - 1) mod (label_max + 1)) (wrapu 64 (minimal + 1)));
  let noise_labels_table := map (fun bin_value => bin_value <? minimal)
    match groups_sizes with [] => [] | _ :: l => 0 :: l end in
  lift (convert labels lab im (fun src trg =>
    if negb (is_bg trg) then noise ← aget noise_labels_table src; Ok (if noise : bool then 0 else trg) else Ok trg) mem).

Lemma remove_labelled_run label_max minimal l k t : 1 <= label_max < 2 ^ 63 -> 1 <= minimal < 2 ^ 63 - 1 ->
  1 <= k <= label_max -> labelled l k ->
  exists mem', denoised is_bg conn im minimal mem mem' /\ remove_labelled label_max minimal l k t = (Ok mem', t).
Proof.
  intros Hlm Hmin Hk L. unfold remove_labelled. pose proof (lab_length _ _ _ _ _ _ L) as Hlen.
  cbv zeta. rewrite Z.mod_small by lia. rewrite wrapu_id by (unfold in_u; lia). expose.
  assert (forall p, within im p -> exists v, l !! Z.to_nat (index im p) = Some v /\ 0 <= v < k /\
    (fg p = true -> 1 <= v)) as Hlab.
  { intros p Hw. destruct (fg p) eqn:Hf.
    - destruct (lab_fg _ _ _ _ _ _ L p Hf) as (v & ? & ?). exists v. split; [done|]. lia.
    - exists 0. split; [by apply (lab_bg _ _ _ _ _ _ L)|]. split; [lia|done]. }
  destruct (histogram_run (rows im) (columns im) l (k - 1) (minimal + 1)) as (h & Hh & Hhl & Hhv);
    [done|done|done|done|lia|lia| |].
  { intros i v Hi. assert (Z.of_nat i < rows im * columns im).
    { apply lookup_lt_Some in Hi. lia. }
    destruct (pixel_within im i) as [Hw Ei]; [done|done|].
    destruct (Hlab _ Hw) as (v' & Hv' & ? & _). rewrite Ei, Nat2Z.id, Hi in Hv'. injection Hv' as <-. lia. }
  unfold labels_image, lift. rewrite Hh.
  destruct h as [|h0 h]; [simpl in Hhl; lia|].
  set (noise := map _ _).
  assert (forall v, 1 <= v < k -> aget noise v = Ok (count l v (length l) <? minimal)) as Hnoise.
  { intros v Hr. apply aget_ok. split; [lia|]. subst noise. rewrite list_lookup_fmap.
    specialize (Hhv v ltac:(lia)). replace (Z.to_nat v) with (Datatypes.S (Z.to_nat (v - 1))) in * by lia.
    cbn in Hhv |- *. rewrite Hhv. cbn. f_equal. apply Bool.eq_iff_eq_true. rewrite !Z.ltb_lt. lia. }
  set (small := fun p => match l !! Z.to_nat (index im p) with
                         | Some v => count l v (length l) <? minimal | None => false end).
  destruct (convert_map (mk_image 0 (rows im) (columns im) (columns im)) l im mem
    (fun src trg => if negb (is_bg trg) then
       (match aget noise src with Ok noise => Ok (if noise : bool then 0 else trg) | Throw e => Throw e | UB => UB end)
       else Ok trg)
    (fun r c trg => if negb (is_bg trg) && small (r, c) then 0 else trg)) as (mem' & Hmem' & M);
    [|done|done|done| |].
  { constructor; cbn; [lia|lia|lia|]. intros _. unfold row. cbn. nia. }
  { intros r c s x Hi Hs Hx. destruct (Hlab (r, c) Hi) as (v & Hlv & Hr & Hf).
    assert (l !! Z.to_nat (index im (r, c)) = Some s) as Hls.
    { rewrite <- Hs. unfold pixel, row, index. cbn [data_start step fst snd]. f_equal. }
    rewrite Hlv in Hls. injection Hls as <-.
    rewrite (fg_pixel (r, c) x Hi Hx) in Hf. destruct (is_bg x); cbn; [done|].
    rewrite Hnoise by (specialize (Hf eq_refl); lia). subst small. cbv beta. by rewrite Hlv. }
  exists mem'. split; [|f_equal; exact Hmem'].
  destruct M as [Hml Hmi Hmo]. constructor; [done|done| |].
  + intros p Hw Hf. destruct (pixel_in im mem p.1 p.2 Hv Hw) as [x Hx].
    rewrite (Hmi p.1 p.2 x Hw Hx), Hx. rewrite (fg_pixel p x Hw Hx) in Hf. by rewrite Hf.
  + intros p Hf. pose proof (fg_within is_bg im mem Hzero p Hf) as Hw.
    destruct (pixel_in im mem p.1 p.2 Hv Hw) as [x Hx].
    destruct (Hlab p Hw) as (v & Hlv & _).
    destruct (labelled_group l k p v L Hf Hlv) as (g & Hg & Hgl). exists g. split; [done|].
    rewrite (Hmi p.1 p.2 x Hw Hx), Hx. rewrite (fg_pixel p x Hw Hx) in Hf. rewrite Hf.
    subst small. cbv beta. rewrite <- surjective_pairing, Hlv, Hgl. cbn [andb]. by destruct (_ <? _).
Qed.

Lemma removeGroupsImpl_run checked garbage label_max minimal t : 1 <= label_max < 2 ^ 63 ->
  1 <= minimal < 2 ^ 63 - 1 ->
  if decide (makers is_bg conn im mem (pixels im) < capacity label_max (rows im) (columns im) conn) then
    exists mem' l k t', labelled l k /\ denoised is_bg conn im minimal mem mem' /\
      removeGroupsImpl checked garbage is_bg conn label_max im mem minimal t =
        (if past_end checked k (1 + makers is_bg conn im mem (pixels im)) then UB else Ok mem', t')
  else exists t', removeGroupsImpl checked garbage is_bg conn label_max im mem minimal t =
    (Throw label_overflow, t').
Proof.
  intros Hlm Hmin. unfold removeGroupsImpl.
  pose proof (connected_run label_max is_bg conn im mem
    (capacity label_max (rows im) (columns im) conn) Hv Hrows Hcols Hzero checked garbage t ltac:(lia) ltac:(lia) eq_refl) as Hc.
  case_decide as D; expose.
  - destruct Hc as (l & k & t' & L & Hk & _ & ->).
    destruct (remove_labelled_run label_max minimal l k t' Hlm Hmin Hk L) as (mem' & Hd & Hr).
    exists mem', l, k, t'. split; [done|]. split; [done|]. destruct (past_end _ _ _); [done|]. exact Hr.
  - destruct Hc as (t' & ->). by exists t'.
Qed.
End Groups.

(** ** Dilation *)

Section Dilation.
Context (im : image) (mem : list Z).
Hypothesis (Hv : valid im mem).
Hypothesis (Hrows : 0 < rows im).
Hypothesis (Hcols : 0 < columns im).
Hypothesis (Hmax : rows im * columns im < 2 ^ 63).

Abbreviation out_image := (mk_image 0 (rows im) (columns im) (columns im)).

(** The pixels of the output image, as a function. *)
Definition vals (out : list Z) (v : pos -> Z) : Prop :=
  Z.of_nat (length out) = rows im * columns im /\
  forall q, within im q -> out !! Z.to_nat (index im q) = Some (v q).

Lemma vals_ext out v v' : (forall q, within im q -> v q = v' q) -> vals out v -> vals out v'.
Proof. intros E [Hl H]. split; [done|]. intros q Hq. rewrite <- E by done. by apply H. Qed.

Lemma vals_valid out v : vals out v -> valid out_image out.
Proof. intros [Hl _]. constructor; cbn; [lia|lia|lia|]. intros _. unfold row. cbn. nia. Qed.

Lemma touch_run f o out v q k : vals out v -> within im q -> k = index im q ->
  exists out', touch f k o out = Ok out' /\
    vals out' (fun q' => if decide (q' = q) then f (v q) o else v q').
Proof.
  intros [Hl Hval] Hq ->. pose proof (index_range im q Hq). unfold touch.
  assert (aget out (index im q) = Ok (v q)) as -> by (apply aget_ok; split; [lia|by apply Hval]).
  rewrite bind_Ok. eexists. split; [apply aset_ok; split; [lia|done]|].
  split; [by rewrite length_insert|]. intros q' Hq'. pose proof (index_range im q' Hq').
  destruct (decide (q' = q)) as [->|Hne].
  - by rewrite list_lookup_insert_eq by lia.
  - rewrite list_lookup_insert_ne; [by apply Hval|]. intros E. apply Hne, (position_index_inj im); [done|done|lia].
Qed.

(** What the row [s] of the structuring element shows around the pixel [q]. *)
Definition seen (s : overlay) (q : pos) : overlay :=
  let '(s0, s1, s2) := s in
  (Z.land (px im mem q.1 (q.2 - 1)) s0, Z.land (px im mem q.1 q.2) s1,
   Z.land (px im mem q.1 (q.2 + 1)) s2).

Lemma px_outside r c : ~ inside im r c -> px im mem r c = 0.
Proof. intros H. unfold px. by rewrite decide_False. Qed.

Lemma px_read r c k : inside im r c -> k = row im r + c -> aget mem k = Ok (px im mem r c).
Proof. intros Hi ->. by apply px_inside. Qed.

(** The output when the columns below [n] of row [ro] are touched with what is seen
    around row [ri] of the input. *)
Definition upto f (s : overlay) ri ro v (n : Z) (q : pos) : Z :=
  if decide (q.1 = ro /\ q.2 < n) then f (v q) (seen s (ri, q.2)) else v q.

Lemma upto_step f s ri ro v n out o k : 0 <= ro < rows im -> 0 <= n < columns im ->
  vals out (upto f s ri ro v n) -> o = seen s (ri, n) -> k = ro * columns im + n ->
  exists out', touch f k o out = Ok out' /\ vals out' (upto f s ri ro v (n + 1)).
Proof.
  intros Hro Hn V -> Hk.
  destruct (touch_run f (seen s (ri, n)) out _ (ro, n) k V) as (out' & Hout & V'); [split; cbn; lia|done|].
  exists out'. split; [done|]. eapply vals_ext; [|exact V'].
  intros [r c] _. unfold upto. cbn [fst snd]. destruct (decide ((r, c) = (ro, n))) as [[= -> ->]|E].
  - rewrite decide_False, decide_True by lia. done.
  - assert (r = ro -> c <> n) by (intros -> ->; done).
    destruct (decide (r = ro /\ c < n)); [rewrite decide_True by lia|rewrite decide_False by lia]; done.
Qed.

Lemma upto_zero f s ri ro v out : vals out v -> vals out (upto f s ri ro v 0).
Proof.
  apply vals_ext. intros [r c] [? ?]. unfold upto. cbn in *. by rewrite decide_False by lia.
Qed.

Lemma upto_all f s ri ro v out : vals out (upto f s ri ro v (columns im)) ->
  vals out (fun q => if decide (q.1 = ro) then f (v q) (seen s (ri, q.2)) else v q).
Proof.
  apply vals_ext. intros [r c] [? ?]. unfold upto. cbn in *. repeat case_decide; done || lia.
Qed.

Lemma probe_row_run f s ri ro out v : 0 <= ri < rows im -> 0 <= ro < rows im -> vals out v ->
  exists out', probe_row mem (columns im) s f (row im ri) (row out_image ro) out = Ok out' /\
    vals out' (fun q => if decide (q.1 = ro) then f (v q) (seen s (ri, q.2)) else v q).
Proof.
  destruct s as [[s0 s1] s2]. intros Hri Hro V0. unfold probe_row.
  assert (row out_image ro = ro * columns im) as -> by (unfold row; cbn; lia).
  apply (upto_zero f (s0, s1, s2) ri ro) in V0.
  assert (forall c k, 0 <= c < columns im -> k = row im ri + c -> aget mem k = Ok (px im mem ri c)) as Hread
    by (intros; apply px_read; [split; lia|done]).
  rewrite (Hread 0 (row im ri)), bind_Ok by lia.
  destruct (Z.eqb_spec (columns im) 1) as [E1|E1].
  - destruct (upto_step f (s0, s1, s2) ri ro v 0 out (0, Z.land (px im mem ri 0) s1, 0) (ro * columns im))
      as (out' & -> & V'); [lia|lia|done| |lia|].
    + unfold seen. cbn [fst snd].
      by rewrite (px_outside ri (0 - 1)), (px_outside ri (0 + 1)), !Z.land_0_l by (unfold inside; lia).
    + exists out'. split; [done|]. apply upto_all. by rewrite E1.
  - rewrite (Hread 1 (row im ri + 1)), !bind_Ok by lia.
    destruct (upto_step f (s0, s1, s2) ri ro v 0 out
      (0, Z.land (px im mem ri 0) s1, Z.land (px im mem ri 1) s2) (ro * columns im))
      as (out1 & -> & V1); [lia|lia|done| |lia|].
    { unfold seen. cbn [fst snd]. by rewrite (px_outside ri (0 - 1)), Z.land_0_l by (unfold inside; lia). }
    rewrite bind_Ok. set (body := fun (c : Z) (out : list Z) => _).
    destruct (for_each_inv (fun c out => vals out (upto f (s0, s1, s2) ri ro v c)) body
        (Z.to_nat (columns im - 2)) 1 out1) as (out2 & Hout2 & V2); [done| |].
    { intros c out3 Hc V3. subst body. cbv beta.
      rewrite (Hread (c - 1) (row im ri + c - 1)), bind_Ok by lia.
      rewrite (Hread c (row im ri + c)), bind_Ok by lia.
      rewrite (Hread (c + 1) (row im ri + c + 1)), bind_Ok by lia.
      apply (upto_step f _ ri); [done|lia|done|done|lia]. }
    rewrite Hout2, bind_Ok. rewrite Z2Nat.id in V2 by lia.
    rewrite (Hread (columns im - 1 - 1) (row im ri + (columns im - 1) - 1)), bind_Ok by lia.
    rewrite (Hread (columns im - 1) (row im ri + (columns im - 1))), bind_Ok by lia.
    destruct (upto_step f (s0, s1, s2) ri ro v (columns im - 1) out2 (Z.land (px im mem ri (columns im - 1 - 1)) s0,
        Z.land (px im mem ri (columns im - 1)) s1, 0) (ro * columns im + (columns im - 1)))
      as (out' & -> & V'); [lia|lia| | |lia|].
    + by replace (columns im - 1) with (1 + (columns im - 2)) by lia.
    + unfold seen. cbn [fst snd].
      by rewrite (px_outside ri (columns im - 1 + 1)), Z.land_0_l by (unfold inside; lia).
    + exists out'. split; [done|]. apply upto_all. by replace (columns im) with (columns im - 1 + 1) by lia.
Qed.

(** The rows from [fi] of the input and [fo] of the output on. *)
Lemma probeRows_run f s fi fo out v : 0 <= fi -> 0 <= fo -> Z.max fi fo <= rows im -> vals out v ->
  exists out', probeRows im mem fi out_image fo s f out = Ok out' /\
    vals out' (fun q => if decide (fo <= q.1 < fo + (rows im - Z.max fi fo))
                        then f (v q) (seen s (q.1 - fo + fi, q.2)) else v q).
Proof.
  intros Hfi Hfo Hm V0. unfold probeRows. rewrite wrapu_id by (unfold in_u; nia).
  set (P := fun i out => vals out (fun q => if decide (fo <= q.1 < fo + i)
    then f (v q) (seen s (q.1 - fo + fi, q.2)) else v q)).
  destruct (for_each_inv P (fun i => probe_row mem (columns im) s f
      (row im (i + fi)) (row out_image (i + fo))) (Z.to_nat (rows im - Z.max fi fo)) 0 out)
    as (out' & Hout & V'); [| |exists out'; split; [done|]; by rewrite Z2Nat.id in V' by lia].
  - eapply vals_ext; [|exact V0]. intros q _. cbn. by rewrite decide_False by lia.
  - intros i out1 Hi V1.
    destruct (probe_row_run f s (i + fi) (i + fo) out1 _ ltac:(lia) ltac:(lia) V1) as (out2 & Hout2 & V2).
    exists out2. split; [done|]. eapply vals_ext; [|exact V2]. intros q _. cbn.
    destruct (decide (q.1 = i + fo)) as [E|E].
    + rewrite decide_False, decide_True by lia. f_equal. f_equal. f_equal. lia.
    + destruct (decide (fo <= q.1 < fo + i)); [rewrite decide_True by lia|rewrite decide_False by lia]; done.
Qed.

(** Whether the neighbours of a pixel are background, when the aggregate of three bytes is
    background exactly if all of them are. *)
Context (is_bg : Z -> bool) (conn : ConnectivityType) (aggregate : overlay -> Z).
Hypothesis (Hzero : is_bg 0 = true).
Hypothesis (Hagg : forall x y z, is_bg (aggregate (x, y, z)) = is_bg x && is_bg y && is_bg z).
Hypothesis (Hrange : forall x y z, 0 <= x < 256 -> 0 <= y < 256 -> 0 <= z < 256 ->
  0 <= aggregate (x, y, z) < 256).
Hypothesis (Hbytes : forall r c, 0 <= px im mem r c < 256).

Definition all_bg (o : overlay) : bool := let '(x, y, z) := o in is_bg x && is_bg y && is_bg z.

Lemma is_bg_agg o : is_bg (aggregate o) = all_bg o.
Proof. destruct o as [[x y] z]. apply Hagg. Qed.

(** The masks of the structuring elements keep a byte or clear it. *)
Definition mask (o : overlay) : Prop := let '(x, y, z) := o in
  (x = 0 \/ x = 255) /\ (y = 0 \/ y = 255) /\ (z = 0 \/ z = 255).

Lemma land_255 r c : Z.land (px im mem r c) 255 = px im mem r c.
Proof. change 255 with (Z.ones 8). rewrite Z.land_ones by lia. apply Z.mod_small, Hbytes. Qed.

Lemma land_mask r c m : m = 0 \/ m = 255 -> 0 <= Z.land (px im mem r c) m < 256.
Proof. intros [-> | ->]; [rewrite Z.land_0_r; lia|]. rewrite land_255. apply Hbytes. Qed.

Lemma agg_seen_range s q : mask s -> 0 <= aggregate (seen s q) < 256.
Proof.
  destruct s as [[s0 s1] s2]. intros (H0 & H1 & H2). apply Hrange; by apply land_mask.
Qed.

Lemma shape_masks : mask (top (createShape conn)) /\ mask (centre (createShape conn)) /\
  mask (bottom (createShape conn)).
Proof. destruct conn; cbn; lia. Qed.

Lemma seen_above s q : ~ 0 <= q.1 < rows im -> all_bg (seen s q) = true.
Proof.
  intros Hq. destruct s as [[s0 s1] s2]. unfold seen, all_bg.
  rewrite !px_outside, !Z.land_0_l, Hzero by (unfold inside; lia). done.
Qed.

Definition bg_around (q : pos) : bool :=
  all_bg (seen (centre (createShape conn)) q) &&
  all_bg (seen (top (createShape conn)) (q.1 - 1, q.2)) &&
  all_bg (seen (bottom (createShape conn)) (q.1 + 1, q.2)).

Lemma dilate_run out v : vals out v -> exists out' v',
  dilate im mem out_image conn aggregate out = Ok out' /\ vals out' v' /\
  forall q, within im q -> is_bg (v' q) = bg_around q /\ 0 <= v' q < 256.
Proof.
  intros V0. destruct shape_masks as (Ht & Hc & Hb'). unfold dilate, morphologyOperation. cbn [Image.rows columns].
  rewrite !Z.eqb_refl. cbn [negb orb]. unfold empty.
  replace (_ || _) with false by (symmetry; apply orb_false_iff; rewrite !Z.eqb_neq; lia).
  destruct (probeRows_run (fun _ lst => aggregate lst) (centre (createShape conn)) 0 0 out v)
    as (out1 & -> & V1); [lia|lia|lia|done|].
  rewrite bind_Ok. destruct (Z.gtb_spec (rows im) 1) as [Hr|Hr].
  - destruct (probeRows_run (fun x lst => aggregate (x, aggregate lst, 0)) (top (createShape conn)) 0 1 out1 _
      ltac:(lia) ltac:(lia) ltac:(lia) V1) as (out2 & -> & V2). rewrite bind_Ok.
    destruct (probeRows_run (fun x lst => aggregate (x, aggregate lst, 0)) (bottom (createShape conn)) 1 0 out2 _
      ltac:(lia) ltac:(lia) ltac:(lia) V2) as (out3 & -> & V3).
    eexists _, _. split; [done|]. split; [exact V3|]. intros [r c] [Hir Hic]. cbn [fst snd] in *.
    unfold bg_around. cbn [fst snd].
    pose proof (seen_above (top (createShape conn)) (r - 1, c)) as Ha. cbn [fst] in Ha.
    pose proof (seen_above (bottom (createShape conn)) (r + 1, c)) as Hb. cbn [fst] in Hb.
    replace (r - 0 + 0) with r by lia. replace (r - 1 + 0) with (r - 1) by lia.
    replace (r - 0 + 1) with (r + 1) by lia.
    split; [|repeat case_decide; try lia;
      repeat (apply Hrange || (apply agg_seen_range; done)); lia].
    repeat case_decide; try lia; rewrite ?Hagg, ?is_bg_agg, ?Hagg, ?is_bg_agg, ?Hzero, ?andb_true_r;
      first [rewrite Ha by lia|idtac]; first [rewrite Hb by lia|idtac]; by rewrite ?andb_true_r.
  - eexists _, _. split; [done|]. split; [exact V1|]. intros [r c] [Hir Hic]. cbn [fst snd] in *.
    unfold bg_around. cbn [fst snd]. rewrite decide_True by lia.
    split; [|by apply agg_seen_range]. rewrite is_bg_agg.
    rewrite (seen_above _ (r - 1, c)), (seen_above _ (r + 1, c)), !andb_true_r by (cbn; lia).
    by replace (r - 0 + 0) with r by lia.
Qed.

(** The neighbours are background: none of the foreground is adjacent. *)
Lemma bg_around_spec q : bg_around q = true <->
  forall q', adjacent conn q q' -> is_bg (px im mem q'.1 q'.2) = true.
Proof.
  destruct q as [r c]. unfold bg_around. cbn [fst snd]. destruct conn;
    cbn [createShape top centre bottom seen all_bg fst snd]; rewrite !land_255, !Z.land_0_r, !Hzero, !andb_true_iff.
  - split.
    + intros H [r' c'] Hadj. unfold adjacent in Hadj. cbn in *.
      assert (r' = r - 1 /\ c' = c \/ r' = r + 1 /\ c' = c \/ r' = r /\ c' = c - 1 \/ r' = r /\ c' = c + 1)
        as [[-> ->]|[[-> ->]|[[-> ->]|[-> ->]]]] by lia; tauto.
    + intros H. assert (forall r' c', adjacent Way4 (r, c) (r', c') -> is_bg (px im mem r' c') = true) as G
        by (intros r' c' Hadj; apply (H (r', c') Hadj)).
      unfold adjacent in G. cbn [fst snd] in G. repeat split; (reflexivity || (apply G; lia)).
  - split.
    + intros H [r' c'] Hadj. unfold adjacent in Hadj. cbn in *.
      assert (r' = r - 1 \/ r' = r \/ r' = r + 1) as Hr by lia.
      assert (c' = c - 1 \/ c' = c \/ c' = c + 1) as Hc by lia.
      assert (r' = r -> c' <> c) as Hne by lia.
      destruct Hr as [-> | [-> | ->]], Hc as [-> | [-> | ->]]; try tauto; by destruct Hne.
    + intros H. assert (forall r' c', adjacent Way8 (r, c) (r', c') -> is_bg (px im mem r' c') = true) as G
        by (intros r' c' Hadj; apply (H (r', c') Hadj)).
      unfold adjacent in G. cbn [fst snd] in G. repeat split; (reflexivity || (apply G; lia)).
Qed.
End Dilation.

(** ** The layer *)

Import Costmap CostmapLayer Denoise.

(** Which bytes are background: those below the smallest obstacle, and the unknown value
    unless it counts as an obstacle. *)
Definition below_obstacle (no_information_is_obstacle : bool) (v : Z) : bool :=
  (if no_information_is_obstacle then v else replace_to_free v) <? INSCRIBED_INFLATED_OBSTACLE.

Lemma isBackground_below l v : 0 <= v < 256 ->
  isBackground l v = below_obstacle (no_information_is_obstacle l) v.
Proof.
  intros Hv. unfold isBackground, below_obstacle, replace_to_free, LETHAL_OBSTACLE,
    INSCRIBED_INFLATED_OBSTACLE, NO_INFORMATION, FREE_SPACE.
  destruct (Z.eqb_spec v 254), (Z.eqb_spec v 253), (Z.eqb_spec v 255), (no_information_is_obstacle l);
    cbn [andb orb negb]; symmetry; first [apply Z.ltb_ge; lia | apply Z.ltb_lt; lia].
Qed.

Definition max_of (no_information_is_obstacle : bool) : overlay -> Z :=
  if negb no_information_is_obstacle then max_known else max_all.

Lemma max_of_bg b x y z : below_obstacle b (max_of b (x, y, z)) =
  below_obstacle b x && below_obstacle b y && below_obstacle b z.
Proof.
  apply Bool.eq_iff_eq_true. rewrite !andb_true_iff.
  unfold below_obstacle, max_of, max_known, max_all, replace_to_free, INSCRIBED_INFLATED_OBSTACLE,
    NO_INFORMATION, FREE_SPACE. destruct b; cbn [negb]; rewrite !Z.ltb_lt; [lia|].
  repeat match goal with |- context [?v =? 255] => destruct (Z.eqb_spec v 255) end; lia.
Qed.

Lemma max_of_range b x y z : 0 <= x < 256 -> 0 <= y < 256 -> 0 <= z < 256 ->
  0 <= max_of b (x, y, z) < 256.
Proof.
  intros. unfold max_of, max_known, max_all, replace_to_free, NO_INFORMATION, FREE_SPACE.
  destruct b; cbn [negb]; [lia|].
  destruct (Z.eqb_spec x 255), (Z.eqb_spec y 255), (Z.eqb_spec z 255); lia.
Qed.

Lemma px_bytes im mem r c : Forall (in_u 8) mem -> 0 <= px im mem r c < 256.
Proof.
  intros Hb. unfold px. case_decide; [|lia]. unfold pixel. destruct (mem !! _) as [v|] eqn:E; cbn; [|lia].
  apply (Forall_lookup_1 _ _ _ _ Hb E).
Qed.

Section Run.
Context (im : image) (mem : list Z).
Hypothesis (Hv : valid im mem).
Hypothesis (Hrows : 0 < rows im).
Hypothesis (Hcols : 0 < columns im).
Hypothesis (Hmax : rows im * columns im < 2 ^ 32).
Hypothesis (Hbytes : Forall (in_u 8) mem).

Lemma single_group l p g : fg (isBackground l) im mem p = true ->
  group (isBackground l) (group_connectivity_type l) im mem p g ->
  (Z.of_nat (length g) <? 2) = bg_around im mem (below_obstacle (no_information_is_obstacle l)) (group_connectivity_type l) p.
Proof.
  intros Hf [Hnd Hg]. set (conn := group_connectivity_type l) in *. apply Bool.eq_iff_eq_true. rewrite Z.ltb_lt.
  rewrite bg_around_spec; [|by destruct (no_information_is_obstacle l)|intros; by apply px_bytes].
  assert (p ∈ g) as Hp by (apply Hg; constructor).
  assert (forall q, adjacent conn p q -> q <> p) as Hne.
  { intros [r c] Hadj E. subst p. unfold adjacent in Hadj. destruct conn; cbn in Hadj; lia. }
  split.
  - intros Hlen q Hadj. rewrite <- isBackground_below by (by apply px_bytes).
    destruct (isBackground l (px im mem q.1 q.2)) eqn:Hb; [done|]. exfalso.
    assert (q ∈ g) as Hq.
    { apply Hg, rtc_once. split; [done|]. split; [|done]. unfold fg. by rewrite Hb. }
    apply (Hne q Hadj). destruct g as [|a [|b g]]; [by apply elem_of_nil in Hp| |simpl in Hlen; lia].
    apply list_elem_of_singleton in Hp, Hq. congruence.
  - intros Hall. assert (length g <= length [p])%nat; [|simpl in *; lia].
    apply submseteq_length, NoDup_submseteq; [done|]. intros q Hq. apply list_elem_of_singleton.
    apply Hg in Hq. inversion Hq as [|? r ? (_ & Hfr & Hadj) _]; [done|]. subst.
    specialize (Hall r Hadj). rewrite <- isBackground_below in Hall by (by apply px_bytes).
    unfold fg in Hfr. by rewrite Hall in Hfr.
Qed.

Lemma removeSinglePixels_run garbage l : exists mem',
  removeSinglePixels garbage im mem l = Ok mem' /\
  denoised (isBackground l) (group_connectivity_type l) im 2 mem mem'.
Proof.
  set (conn := group_connectivity_type l). set (ni := no_information_is_obstacle l).
  unfold removeSinglePixels. fold ni conn. change (if negb ni then max_known else max_all) with (max_of ni).
  rewrite wrapu_id by (unfold in_u; nia).
  set (buf := garbage <$> seq 0 (Z.to_nat (rows im * columns im))).
  assert (vals im buf (fun q => garbage (Z.to_nat (index im q)))) as V0.
  { split; [subst buf; rewrite length_fmap, length_seq; nia|]. intros q Hq. pose proof (index_range im q Hq).
    subst buf. rewrite list_lookup_fmap, lookup_seq_lt by lia. done. }
  destruct (dilate_run im mem Hv Hrows Hcols ltac:(lia) (below_obstacle ni) conn (max_of ni)) with (out := buf)
    (v := fun q => garbage (Z.to_nat (index im q))) as (buf' & v' & -> & V' & Hbg);
    [by destruct ni|apply max_of_bg|intros; by apply max_of_range|intros; by apply px_bytes|done|].
  rewrite bind_Ok. pose proof (vals_valid im Hrows Hcols buf' v' V') as Hvb. destruct V' as [Hl' V'].
  destruct (convert_map (mk_image 0 (rows im) (columns im) (columns im)) buf' im mem
    (fun maxNeighbor img => Ok (if negb (isBackground l img) && isBackground l maxNeighbor then FREE_SPACE else img))
    (fun r c img => if negb (isBackground l img) && bg_around im mem (below_obstacle ni) conn (r, c)
                    then FREE_SPACE else img)) as (mem' & Hmem' & [Hml Hmi Hmo]); [done|done|done|done| |].
  { intros r c s t Hi Hs Ht. destruct (Hbg (r, c) Hi) as [Hb Hr].
    assert (s = v' (r, c)) as ->.
    { specialize (V' (r, c) Hi). unfold pixel, row in Hs. cbn [data_start step] in Hs.
      replace (0 + r * columns im + c) with (index im (r, c)) in Hs by (unfold index; cbn; lia). congruence. }
    rewrite (isBackground_below l (v' (r, c))) by done. fold ni. by rewrite Hb. }
  exists mem'. split; [done|]. constructor; [done|done| |].
  - intros p Hw Hf. destruct (pixel_in im mem p.1 p.2 Hv Hw) as [x Hx].
    rewrite (Hmi p.1 p.2 x Hw Hx), Hx. rewrite (fg_pixel _ _ _ p x Hw Hx) in Hf. by rewrite Hf.
  - intros p Hf. destruct (group_exists (isBackground l) conn im eq_refl mem p Hf) as [g Hg].
    exists g. split; [done|]. pose proof (fg_within (isBackground l) im mem eq_refl p Hf) as Hw.
    destruct (pixel_in im mem p.1 p.2 Hv Hw) as [x Hx].
    rewrite (single_group l p g Hf Hg), (Hmi p.1 p.2 x Hw Hx), Hx.
    rewrite (fg_pixel _ _ _ p x Hw Hx) in Hf. rewrite Hf, <- surjective_pairing. cbn [andb].
    by destruct (bg_around _ _ _ _ _).
Qed.
(** There are [k - 1] groups in the image. *)
Definition groups (is_bg : Z -> bool) (conn : ConnectivityType) (k : Z) : Prop := exists lab, labelled is_bg conn im mem lab k.

(** The labels that the image asks for, with that of the background. *)
Definition labels_used (is_bg : Z -> bool) (conn : ConnectivityType) : Z := 1 + makers is_bg conn im mem (pixels im).

(** Both attempts of [removeGroups] together. *)
Lemma removeGroups_run checked garbage l minimal g : 1 <= minimal < 2 ^ 32 ->
  let conn := group_connectivity_type l in
  let is_bg := isBackground l in
  if decide (makers is_bg conn im mem (pixels im) < capacity uint32_max (rows im) (columns im) conn) then
    exists mem' k g', groups is_bg conn k /\ denoised is_bg conn im minimal mem mem' /\
      removeGroups checked garbage is_bg conn im mem minimal g =
        (if past_end checked k (labels_used is_bg conn) then UB else Ok mem', g')
  else exists g', removeGroups checked garbage is_bg conn im mem minimal g = (Throw label_overflow, g').
Proof.
  intros Hmin conn is_bg. assert (is_bg 0 = true) as Hzero by done.
  assert (capacity uint16_max (rows im) (columns im) conn <= capacity uint32_max (rows im) (columns im) conn) as Hcap
    by (unfold capacity, uint16_max, uint32_max; lia).
  assert (forall t, if decide (makers is_bg conn im mem (pixels im) < capacity uint32_max (rows im) (columns im) conn) then
    exists mem' k g', groups is_bg conn k /\ denoised is_bg conn im minimal mem mem' /\
      remove_with_32 checked garbage is_bg conn im mem minimal t =
        (if past_end checked k (labels_used is_bg conn) then UB else Ok mem', g')
  else exists g', remove_with_32 checked garbage is_bg conn im mem minimal t = (Throw label_overflow, g')) as H32.
  { intros t. unfold remove_with_32, tryRemoveGroupsWithLabelType.
    pose proof (removeGroupsImpl_run is_bg conn im mem Hv Hrows Hcols Hzero ltac:(lia) checked garbage uint32_max minimal t
      ltac:(unfold uint32_max; lia) ltac:(lia)) as H.
    case_decide; [destruct H as (mem' & lab & k & t' & L & Hd & ->)|destruct H as (t' & ->)].
    - exists mem', k, (label_trees32 t'). split; [by exists lab|]. split; [done|]. unfold labels_used. by destruct (past_end _ _ _).
    - by exists (label_trees32 t'). }
  destruct g as [t|t]; [|apply H32]. unfold removeGroups, tryRemoveGroupsWithLabelType.
  pose proof (removeGroupsImpl_run is_bg conn im mem Hv Hrows Hcols Hzero ltac:(lia) checked garbage uint16_max minimal t
    ltac:(unfold uint16_max; lia) ltac:(lia)) as H.
  destruct (decide (_ < capacity uint16_max _ _ _)) as [D|D].
  - destruct H as (mem' & lab & k & t' & L & Hd & ->). rewrite decide_True by lia.
    exists mem', k, (label_trees16 t'). split; [by exists lab|]. split; [done|]. unfold labels_used. by destruct (past_end _ _ _).
  - destruct H as (t' & ->). apply H32.
Qed.

(** The labels always suffice, except for 8-connected images of one row or column. *)
Definition wide (conn : ConnectivityType) : Prop := conn = Way4 \/ (2 <= rows im /\ 2 <= columns im).

Lemma wide_enough is_bg conn : wide conn ->
  makers is_bg conn im mem (pixels im) < capacity uint32_max (rows im) (columns im) conn.
Proof.
  intros Hw. unfold capacity, uint32_max.
  assert (rows im * columns im / 3 <= rows im * columns im / 2) by (apply Z.div_le_compat_l; nia).
  assert (rows im * columns im / 2 <= 2 ^ 31) by (apply Z.div_le_upper_bound; lia).
  destruct conn.
  - pose proof (makers_way4 is_bg im mem Hrows Hcols). lia.
  - destruct Hw as [?|[? ?]]; [done|]. pose proof (makers_way8 is_bg im mem ltac:(lia) ltac:(lia)). lia.
Qed.

(** Groups of more than one cell are counted by labels, whose table may be read past its end. *)
Definition joins (checked : bool) (l : DenoiseLayer) (k : Z) : bool :=
  (2 <? minimal_group_size l) && (checked && (k <? labels_used (isBackground l) (group_connectivity_type l))).

Lemma denoise_run checked garbage l : wide (group_connectivity_type l) -> minimal_group_size l < 2 ^ 32 ->
  exists mem' k g, groups (isBackground l) (group_connectivity_type l) k /\
    denoised (isBackground l) (group_connectivity_type l) im (minimal_group_size l) mem mem' /\
    denoise checked garbage im mem l = (if joins checked l k then UB else Ok mem', set_remover g l).
Proof.
  intros Hw Hmin. unfold denoise, empty, joins.
  replace (_ || _) with false by (symmetry; apply orb_false_iff; rewrite !Z.eqb_neq; lia).
  assert (set_remover (groups_remover l) l = l) as Hl by (by destruct l).
  assert (forall minimal, 1 <= minimal < 2 ^ 32 -> exists mem' k g',
    groups (isBackground l) (group_connectivity_type l) k /\
    denoised (isBackground l) (group_connectivity_type l) im minimal mem mem' /\
    removeGroups checked garbage (isBackground l) (group_connectivity_type l) im mem minimal (groups_remover l) =
      (if past_end checked k (labels_used (isBackground l) (group_connectivity_type l)) then UB else Ok mem', g')) as Hrun.
  { intros minimal Hm. pose proof (removeGroups_run checked garbage l minimal (groups_remover l) Hm) as H.
    cbv zeta in H. by rewrite decide_True in H by (by apply wide_enough). }
  destruct (Z.leb_spec (minimal_group_size l) 1) as [H1|H1].
  { destruct (Hrun 1) as (_ & k & _ & Hk & _); [lia|]. exists mem, k, (groups_remover l). split; [done|].
    split; [by apply denoised_refl|]. rewrite Hl. replace (2 <? _) with false; [done|]. symmetry. apply Z.ltb_ge. lia. }
  destruct (Z.eqb_spec (minimal_group_size l) 2) as [H2|H2].
  - destruct (Hrun 1) as (_ & k & _ & Hk & _); [lia|].
    destruct (removeSinglePixels_run garbage l) as (mem' & -> & Hd).
    exists mem', k, (groups_remover l). rewrite Hl, H2. done.
  - destruct (Hrun (minimal_group_size l)) as (mem' & k & g' & Hk & Hd & ->); [lia|].
    exists mem', k, g'. split; [done|]. split; [done|]. by rewrite (proj2 (Z.ltb_lt _ _)) by lia.
Qed.
End Run.

(** ** The window of the master grid *)

(** The layer as an update sees it: the default value of the map tells whether unknown
    cells are obstacles. *)
Definition layer_for (m : costmap) (l : DenoiseLayer) : DenoiseLayer :=
  set_no_information (negb (default_value m =? NO_INFORMATION)) l.

Definition window (m : costmap) (x0 y0 xn yn : Z) : image :=
  mk_image (y0 * size_x m + x0) (yn - y0) (xn - x0) (size_x m).

Lemma roi_window m x0 y0 xn yn : 0 <= x0 < xn -> xn <= size_x m -> 0 <= y0 < yn -> yn <= size_y m ->
  size_x m * size_y m < 2 ^ 31 -> Z.of_nat (length (cells m)) = size_x m * size_y m ->
  roi_image m x0 y0 xn yn = Ok (window m x0 y0 xn yn) /\ valid (window m x0 y0 xn yn) (cells m).
Proof.
  intros Hx Hxn Hy Hyn Hsize Hlen. unfold roi_image, window, getSizeInCellsX. split.
  - rewrite (wraps_id 32) by (unfold in_s; nia). rewrite !chk_in, !bind_Ok by (unfold in_s; nia).
    rewrite !wrapu_id by (unfold in_u; nia). done.
  - constructor; cbn; [nia|lia|lia|]. intros _. unfold row. cbn. nia.
Qed.

(** C5: An update of the denoise layer frees exactly the obstacles of the window whose
    group, linked horizontally and vertically or also diagonally inside the window, has
    fewer cells than [minimal_group_size]; it changes nothing else, does not throw, and
    marks the layer current. This holds for both ways to find them, whatever the reused
    buffer and label trees hold, unless the window is a single row or column with
    8-connectivity ([wide]; there the labels may not suffice, and nothing is freed). There is one reservation: with a minimal size
    from three on, if the window has fewer groups ([k - 1]) than labels were needed to find them, the table of labels is read past
    its end after [labels_.resize(k)] (image_processing.hpp:476). The language leaves the update undefined then ([checked]); without
    [checked], as in the usual implementations of [std::vector], the old element is still in the memory. *)
Theorem denoise_update checked garbage m l x0 y0 xn yn :
  0 <= x0 < xn -> xn <= size_x m -> 0 <= y0 < yn -> yn <= size_y m ->
  size_x m * size_y m < 2 ^ 31 -> Z.of_nat (length (cells m)) = size_x m * size_y m ->
  Forall (in_u 8) (cells m) -> Denoise.enabled l = true ->
  wide (window m x0 y0 xn yn) (group_connectivity_type l) -> minimal_group_size l < 2 ^ 32 ->
  let im := window m x0 y0 xn yn in
  let is_bg := isBackground (layer_for m l) in
  let conn := group_connectivity_type l in
  exists mem k g, groups im (cells m) is_bg conn k /\ denoised is_bg conn im (minimal_group_size l) (cells m) mem /\
    updateCosts checked garbage x0 y0 xn yn m l =
      if (2 <? minimal_group_size l) && (checked && (k <? labels_used im (cells m) is_bg conn))
      then (UB, set_remover g (layer_for m l))
      else (Ok (set_cells mem m), set_current true (set_remover g (layer_for m l))).
Proof.
  intros Hx Hxn Hy Hyn Hsize Hlen Hb He Hw Hmin im is_bg conn.
  destruct (roi_window m x0 y0 xn yn Hx Hxn Hy Hyn Hsize Hlen) as [Hroi Hv].
  unfold updateCosts. rewrite He, Hroi. cbn [negb].
  replace (_ || _) with false by (symmetry; apply orb_false_iff; rewrite !Z.geb_leb, !Z.leb_gt; lia).
  destruct (denoise_run (window m x0 y0 xn yn) (cells m)) with (checked := checked) (garbage := garbage) (l := layer_for m l)
    as (mem & k & g & Hk & Hd & Hrun); [done|cbn; lia|cbn; lia|cbn; nia|done|done|done|].
  exists mem, k, g. split; [exact Hk|]. split; [exact Hd|]. fold (layer_for m l). rewrite Hrun.
  unfold joins. by destruct (_ && _).
Qed.

(** C39: The fast removal of single cells and the general removal with a minimal size of
    two give the same image, whatever their buffers hold, unless the image is a single row or column with 8-connectivity
    ([wide]; example [thin_not_denoised]). The fast one is always defined; the general one, where the image has fewer groups
    ([k - 1]) than labels were needed to find them, reads the table of labels past its end after [labels_.resize(k)]
    (image_processing.hpp:476), which the language leaves undefined ([checked]) and the usual implementations of
    [std::vector] answer with the old element. *)
Theorem denoise_fast_equivalent checked garbage garbage' g im mem l :
  valid im mem -> 0 < rows im -> 0 < columns im -> rows im * columns im < 2 ^ 32 ->
  Forall (in_u 8) mem -> wide im (group_connectivity_type l) ->
  exists mem' k, removeSinglePixels garbage im mem l = Ok mem' /\
    groups im mem (isBackground l) (group_connectivity_type l) k /\
    fst (removeGroups checked garbage' (isBackground l) (group_connectivity_type l) im mem 2 g) =
      if checked && (k <? labels_used im mem (isBackground l) (group_connectivity_type l)) then UB else Ok mem'.
Proof.
  intros Hv Hr Hc Hmax Hb Hw.
  destruct (removeSinglePixels_run im mem Hv Hr Hc Hmax Hb garbage l) as (m1 & Hm1 & D1).
  pose proof (removeGroups_run im mem Hv Hr Hc Hmax checked garbage' l 2 g ltac:(lia)) as H.
  cbv zeta in H. rewrite decide_True in H by (by apply wide_enough).
  destruct H as (m2 & k & g' & Hk & D2 & Hm2). exists m1, k. split; [done|]. split; [done|]. rewrite Hm2. cbn [fst].
  unfold past_end. replace m1 with m2; [done|].
  by apply (denoised_unique (isBackground l) (group_connectivity_type l) im 2 mem).
Qed.

(** ** Examples *)

(** A map of five by four cells: a group of three, two single cells and a pair; unknown
    cells are not obstacles. *)
Definition demo_cells : list Z :=
  [254; 254;   0;   0;   0;
   253;   0;   0; 254;   0;
     0;   0; 255;   0;   0;
   254;   0;   0; 254; 254].

Definition demo_map : costmap := mk_costmap 5 4 (f64_of_Z 1) (f64_of_Z 0) (f64_of_Z 0) demo_cells NO_INFORMATION.

Definition demo_layer (minimal : Z) : DenoiseLayer :=
  mk_denoise true false true minimal Way8 new_remover.

Lemma demo_bytes : Forall (in_u 8) demo_cells.
Proof. unfold demo_cells. repeat constructor; unfold in_u; lia. Qed.

Lemma demo_valid : valid (mk_image 0 4 5 5) demo_cells.
Proof. constructor; cbn; [lia|lia|lia|]. intros _. unfold row. cbn. lia. Qed.

(** No labels are joined in this map, so that the update is defined by the language as well. *)
Lemma denoise_update_witness :
  exists mem g, updateCosts true (fun _ => 77) 0 0 5 4 demo_map (demo_layer 3) =
      (Ok (set_cells mem demo_map),
       set_current true (set_remover g (layer_for demo_map (demo_layer 3)))) /\
    denoised (isBackground (layer_for demo_map (demo_layer 3))) Way8 (window demo_map 0 0 5 4) 3
      demo_cells mem.
Proof.
  destruct (denoise_update true (fun _ => 77) demo_map (demo_layer 3) 0 0 5 4 ltac:(lia) ltac:(cbn; lia) ltac:(lia)
    ltac:(cbn; lia) ltac:(cbn; lia) eq_refl demo_bytes eq_refl ltac:(right; cbn; lia) ltac:(cbn; lia)) as (mem & k & g & _ & Hd & Hu).
  exists mem, g. split; [|exact Hd].
  assert (fst (updateCosts true (fun _ => 77) 0 0 5 4 demo_map (demo_layer 3)) <> UB) as Hne by (vm_compute; discriminate).
  rewrite Hu in Hne |- *. destruct (_ && _); [by destruct Hne|reflexivity].
Defined.

Lemma denoise_fast_equivalent_witness :
  exists mem', removeSinglePixels (fun _ => 9) (mk_image 0 4 5 5) demo_cells (demo_layer 2) = Ok mem' /\
    fst (removeGroups true (fun _ => 200) (isBackground (demo_layer 2)) Way8 (mk_image 0 4 5 5)
           demo_cells 2 new_remover) = Ok mem'.
Proof.
  destruct (denoise_fast_equivalent true (fun _ => 9) (fun _ => 200) new_remover (mk_image 0 4 5 5) demo_cells (demo_layer 2)
    demo_valid ltac:(cbn; lia) ltac:(cbn; lia) ltac:(cbn; lia) demo_bytes ltac:(right; cbn; lia)) as (mem' & k & Hs & _ & Hg).
  exists mem'. split; [exact Hs|].
  assert (fst (removeGroups true (fun _ => 200) (isBackground (demo_layer 2)) Way8 (mk_image 0 4 5 5) demo_cells 2 new_remover) <> UB)
    as Hne by (vm_compute; discriminate).
  change Way8 with (group_connectivity_type (demo_layer 2)) in Hne |- *. rewrite Hg in Hne |- *.
  destruct (_ && _); [by destruct Hne|reflexivity].
Defined.

Example demo_denoised :
  fst (updateCosts false (fun _ => 77) 0 0 5 4 demo_map (demo_layer 3)) =
  Ok (set_cells [254; 254;   0;   0;   0;
                 253;   0;   0;   0;   0;
                   0;   0; 255;   0;   0;
                   0;   0;   0;   0;   0] demo_map).
Proof. vm_compute. reflexivity. Qed.

(** A window of one row with every other cell an obstacle asks for three labels, and the
    trees hold two: the update leaves all cells, each a group of one, although groups of
    fewer than three should go. *)
Definition thin_map : costmap :=
  mk_costmap 5 1 (f64_of_Z 1) (f64_of_Z 0) (f64_of_Z 0) [254; 0; 254; 0; 254] NO_INFORMATION.

Example thin_not_denoised :
  fst (updateCosts false (fun _ => 0) 0 0 5 1 thin_map (demo_layer 3)) = Ok thin_map.
Proof. vm_compute. reflexivity. Qed.

(** Where two labels turn out to be one component, the table of labels is shortened before
    it is read with the old labels, beyond its end. *)
Example reads_past_the_end :
  fst (updateCosts true (fun _ => 0) 0 0 3 2
    (mk_costmap 3 2 (f64_of_Z 1) (f64_of_Z 0) (f64_of_Z 0) [254; 0; 254; 254; 254; 254] NO_INFORMATION)
    (mk_denoise true false true 3 Way4 new_remover)) = UB.
Proof. vm_compute. reflexivity. Qed.

End DenoiseLaws.
