(* ===== verification/ActionServer.v ===== *)
(** * The action server wrapper ([nav2_util/simple_action_server.hpp])

    [SimpleActionServer] serves one goal at a time in a worker thread and keeps at most
    one more goal pending, which preempts the current one. The handles of goals belong to
    the action library and are a parameter ([GoalHandles]). A method that holds the mutex
    is one step; the worker, the callbacks of the executor and a thread that deactivates
    the server interleave between them, and [step] is the relation of their steps. *)

From stdpp Require Import base option list numbers relations.
From Stdlib Require Import ZArith Lia.
From S2P Require Import Prelude.

Module ActionServer.

(** ** Goal handles

  A handle is a shared pointer to an object of the library, a number here; [W] is the
  state of these objects, [G] and [R] are the goals and results of the action. *)
Class GoalHandles (W G R F : Type) : Type := {
  h_is_active : nat -> W -> bool;
  h_is_canceling : nat -> W -> bool;
  h_get_goal : nat -> W -> G;
  h_get_goal_id : nat -> W -> Z;
  h_abort : nat -> R -> W -> W;
  h_canceled : nat -> R -> W -> W;
  h_succeed : nat -> R -> W -> W;
  h_publish_feedback : nat -> F -> W -> W;
  empty_result : R }.

(** What the library documents: the three final calls end the goal of their handle and
    touch no other, feedback changes no state, and a goal being cancelled is active. *)
Class GoalHandleLaws (W G R F : Type) `{GoalHandles W G R F} : Prop := {
  law_abort h r w h' : h_is_active h' (h_abort h r w) = negb (bool_decide (h' = h)) && h_is_active h' w;
  law_canceled h r w h' : h_is_active h' (h_canceled h r w) = negb (bool_decide (h' = h)) && h_is_active h' w;
  law_succeed h r w h' : h_is_active h' (h_succeed h r w) = negb (bool_decide (h' = h)) && h_is_active h' w;
  law_feedback h f w h' : h_is_active h' (h_publish_feedback h f w) = h_is_active h' w }.

(** Where the worker is: no task was ever started, the last task has ended, before the
    condition of the loop, in the execute callback, after it returned, after it threw, or
    out of the loop but not yet ended. The future is ready only when the task has ended. *)
Inductive task : Type := NoTask | Ended | AtCondition | InCallback | Returned | Threw | Leaving.

#[export] Instance task_eq_dec : EqDecision task.
Proof. solve_decision. Defined.

(** Where the thread in [deactivate] is: not in it, before it looks for a future, waiting
    for the future to be ready, or past its deadline and about to terminate the goals. *)
Inductive stopper : Type := NotStopping | Stopping | Waiting | Deadline.

#[export] Instance stopper_eq_dec : EqDecision stopper.
Proof. solve_decision. Defined.

Inductive GoalResponse : Type := REJECT | ACCEPT_AND_EXECUTE.
Inductive CancelResponse : Type := REJECT_CANCEL | ACCEPT_CANCEL.

Section Server.
Context {W G R F : Type} `{!GoalHandles W G R F}.

(** [completions] counts the calls of the completion callback, when there is one. *)
Record server : Type := mk_server {
  current_handle : option nat;
  pending_handle : option nat;
  preempt_requested : bool;
  server_active : bool;
  stop_execution : bool;
  worker : task;
  deactivating : stopper;
  completions : nat;
  handles : W }.

(** A new server over handles [w]. *)
Definition new (w : W) : server := mk_server None None false false false NoTask NotStopping 0 w.

Definition set_current (h : option nat) (s : server) : server :=
  mk_server h (pending_handle s) (preempt_requested s) (server_active s) (stop_execution s)
    (worker s) (deactivating s) (completions s) (handles s).
Definition set_pending (h : option nat) (s : server) : server :=
  mk_server (current_handle s) h (preempt_requested s) (server_active s) (stop_execution s)
    (worker s) (deactivating s) (completions s) (handles s).
Definition set_preempt (b : bool) (s : server) : server :=
  mk_server (current_handle s) (pending_handle s) b (server_active s) (stop_execution s)
    (worker s) (deactivating s) (completions s) (handles s).
Definition set_flags (active stop : bool) (s : server) : server :=
  mk_server (current_handle s) (pending_handle s) (preempt_requested s) active stop
    (worker s) (deactivating s) (completions s) (handles s).
Definition set_worker (t : task) (s : server) : server :=
  mk_server (current_handle s) (pending_handle s) (preempt_requested s) (server_active s)
    (stop_execution s) t (deactivating s) (completions s) (handles s).
Definition set_deactivating (d : stopper) (s : server) : server :=
  mk_server (current_handle s) (pending_handle s) (preempt_requested s) (server_active s)
    (stop_execution s) (worker s) d (completions s) (handles s).
Definition set_handles (w : W) (s : server) : server :=
  mk_server (current_handle s) (pending_handle s) (preempt_requested s) (server_active s)
    (stop_execution s) (worker s) (deactivating s) (completions s) w.

(** [completion_callback_()]. *)
Definition complete (s : server) : server :=
  mk_server (current_handle s) (pending_handle s) (preempt_requested s) (server_active s)
    (stop_execution s) (worker s) (deactivating s) (Datatypes.S (completions s)) (handles s).

Definition is_active (h : option nat) (s : server) : bool :=
  match h with Some h => h_is_active h (handles s) | None => false end.

(** [terminate] on the goal of [h]; the caller resets the variable that holds it. *)
Definition end_goal (h : nat) (result : R) (w : W) : W :=
  if h_is_canceling h w then h_canceled h result w else h_abort h result w.

Definition terminate_current_handle (result : R) (s : server) : server :=
  match current_handle s with
  | Some h => if h_is_active h (handles s) then set_current None (set_handles (end_goal h result (handles s)) s) else s
  | None => s
  end.

Definition terminate_pending_handle (result : R) (s : server) : server :=
  match pending_handle s with
  | Some h => if h_is_active h (handles s) then set_pending None (set_handles (end_goal h result (handles s)) s) else s
  | None => s
  end.

Definition is_running (s : server) : bool :=
  match worker s with NoTask | Ended => false | _ => true end.

(** ** What a client of the class calls *)

Definition is_server_active (s : server) : bool := server_active s.
Definition is_preempt_requested (s : server) : bool := preempt_requested s.

Definition accept_pending_goal (s : server) : option G * server :=
  match pending_handle s with
  | Some p =>
      if h_is_active p (handles s) then
        let s :=
          match current_handle s with
          | Some c => if h_is_active c (handles s) && negb (bool_decide (c = p))
                      then set_handles (h_abort c empty_result (handles s)) s else s
          | None => s
          end in
        let s := set_preempt false (set_pending None (set_current (Some p) s)) in
        (Some (h_get_goal p (handles s)), s)
      else (None, s)
  | None => (None, s)
  end.

Definition terminate_pending_goal (s : server) : server :=
  if is_active (pending_handle s) s
  then set_preempt false (terminate_pending_handle empty_result s) else s.

Definition get_current_goal (s : server) : option G :=
  match current_handle s with
  | Some h => if h_is_active h (handles s) then Some (h_get_goal h (handles s)) else None
  | None => None
  end.

(** [None] is the empty identifier. *)
Definition get_current_goal_id (s : server) : option Z :=
  match current_handle s with
  | Some h => if h_is_active h (handles s) then Some (h_get_goal_id h (handles s)) else None
  | None => None
  end.

Definition get_pending_goal (s : server) : option G :=
  match pending_handle s with
  | Some h => if h_is_active h (handles s) then Some (h_get_goal h (handles s)) else None
  | None => None
  end.

Definition is_cancel_requested (s : server) : bool :=
  match current_handle s with
  | None => false
  | Some c =>
      match pending_handle s with
      | Some p => h_is_canceling p (handles s)
      | None => h_is_canceling c (handles s)
      end
  end.

Definition terminate_all (result : R) (s : server) : server :=
  set_preempt false (terminate_pending_handle result (terminate_current_handle result s)).

Definition terminate_current (result : R) (s : server) : server := terminate_current_handle result s.

Definition succeeded_current (result : R) (s : server) : server :=
  match current_handle s with
  | Some h => if h_is_active h (handles s) then set_current None (set_handles (h_succeed h result (handles s)) s) else s
  | None => s
  end.

Definition publish_feedback (feedback : F) (s : server) : server :=
  match current_handle s with
  | Some h => if h_is_active h (handles s) then set_handles (h_publish_feedback h feedback (handles s)) s else s
  | None => s
  end.

(** ** What the action library calls *)

Definition handle_goal (s : server) : GoalResponse :=
  if negb (server_active s) then REJECT else ACCEPT_AND_EXECUTE.

Definition handle_cancel (h : nat) (s : server) : CancelResponse :=
  if negb (h_is_active h (handles s)) then REJECT_CANCEL else ACCEPT_CANCEL.

(** Starting the task ends in front of the condition of its loop. *)
Definition handle_accepted (h : nat) (s : server) : server :=
  if is_active (current_handle s) s || is_running s then
    let s := if is_active (pending_handle s) s then terminate_pending_handle empty_result s else s in
    set_preempt true (set_pending (Some h) s)
  else
    let s := if is_active (pending_handle s) s
             then set_preempt false (terminate_pending_handle empty_result s) else s in
    set_worker AtCondition (set_current (Some h) s).

(** ** The worker *)

(** The condition of the loop of [work]; [ok] is [rclcpp::ok()]. *)
Definition work_condition (ok : bool) (s : server) : server :=
  if ok && negb (stop_execution s) && is_active (current_handle s) s
  then set_worker InCallback s else set_worker Leaving s.

(** After an exception of the callback. *)
Definition work_threw (has_completion : bool) (s : server) : server :=
  let s := terminate_all empty_result s in
  set_worker Leaving (if has_completion then complete s else s).

(** After the callback returned, under the lock. *)
Definition work_returned (has_completion : bool) (s : server) : server :=
  if stop_execution s then
    let s := terminate_all empty_result s in
    set_worker Leaving (if has_completion then complete s else s)
  else
    let s := if is_active (current_handle s) s then
               let s := terminate_current_handle empty_result s in
               if has_completion then complete s else s
             else s in
    if is_active (pending_handle s) s then set_worker AtCondition (snd (accept_pending_goal s))
    else set_worker Leaving s.

(** ** Activation *)

Definition activate (s : server) : server := set_flags true false s.

(** The blocks of [deactivate]: the flags, the test for a future, and the rounds of the
    wait, which ends when the task has ended and terminates the goals after the deadline. *)
Definition deactivate_flags (s : server) : server := set_deactivating Stopping (set_flags false true s).

Definition deactivate_future (s : server) : server :=
  set_deactivating (match worker s with NoTask => NotStopping | _ => Waiting end) s.

Definition deactivate_wait (deadline_passed : bool) (s : server) : server :=
  if is_running s then (if deadline_passed then set_deactivating Deadline s else s)
  else set_deactivating NotStopping s.

Definition deactivate_deadline (has_completion : bool) (s : server) : server :=
  let s := terminate_all empty_result s in
  set_deactivating Waiting (if has_completion then complete s else s).

(** ** Steps *)

(** A call that changes the server, made by the execute callback. *)
Inductive call : Type :=
  | call_accept_pending
  | call_terminate_pending
  | call_terminate_all (result : R)
  | call_terminate_current (result : R)
  | call_succeeded (result : R)
  | call_feedback (feedback : F).

Definition run_call (c : call) (s : server) : server :=
  match c with
  | call_accept_pending => snd (accept_pending_goal s)
  | call_terminate_pending => terminate_pending_goal s
  | call_terminate_all r => terminate_all r s
  | call_terminate_current r => terminate_current r s
  | call_succeeded r => succeeded_current r s
  | call_feedback f => publish_feedback f s
  end.

(** Who moves: the library with a goal or a request to cancel, the worker, the execute
    callback that it runs, which may also throw what [work] does not catch, and the thread
    that activates and deactivates. The library may deliver a goal it accepted before a
    deactivation, so a goal does not ask for an active server. *)
Inductive actor : Type := by_goal | by_cancel | by_worker | by_callback | by_foreign_throw | by_user.

Inductive step (ok has_completion : bool) : actor -> server -> server -> Prop :=
  | step_goal h w' s : h_is_active h (handles s) = false ->
      current_handle s <> Some h -> pending_handle s <> Some h ->
      h_is_active h w' = true ->
      (forall h', h' <> h -> h_is_active h' w' = h_is_active h' (handles s)) ->
      step ok has_completion by_goal s (handle_accepted h (set_handles w' s))
  | step_cancel h w' s : handle_cancel h s = ACCEPT_CANCEL ->
      (forall h', h_is_active h' w' = h_is_active h' (handles s)) ->
      step ok has_completion by_cancel s (set_handles w' s)
  | step_condition s : worker s = AtCondition ->
      step ok has_completion by_worker s (work_condition ok s)
  | step_returns s : worker s = InCallback -> step ok has_completion by_worker s (set_worker Returned s)
  | step_throws s : worker s = InCallback -> step ok has_completion by_worker s (set_worker Threw s)
  | step_threw s : worker s = Threw -> step ok has_completion by_worker s (work_threw has_completion s)
  | step_returned s : worker s = Returned ->
      step ok has_completion by_worker s (work_returned has_completion s)
  | step_ends s : worker s = Leaving -> step ok has_completion by_worker s (set_worker Ended s)
  | step_call c s : worker s = InCallback -> step ok has_completion by_callback s (run_call c s)
  | step_foreign s : worker s = InCallback ->
      step ok has_completion by_foreign_throw s (set_worker Leaving s)
  | step_activate s : deactivating s = NotStopping -> step ok has_completion by_user s (activate s)
  | step_flags s : deactivating s = NotStopping -> step ok has_completion by_user s (deactivate_flags s)
  | step_future s : deactivating s = Stopping -> step ok has_completion by_user s (deactivate_future s)
  | step_wait deadline_passed s : deactivating s = Waiting ->
      step ok has_completion by_user s (deactivate_wait deadline_passed s)
  | step_deadline s : deactivating s = Deadline ->
      step ok has_completion by_user s (deactivate_deadline has_completion s).

Definition any_step (ok has_completion : bool) (s s' : server) : Prop :=
  exists a, step ok has_completion a s s'.

(** The states of a server that starts with handles [w], none of them active. *)
Definition reachable (ok has_completion : bool) (s : server) : Prop :=
  exists w, (forall h, h_is_active h w = false) /\ rtc (any_step ok has_completion) (new w) s.

(** ** The invariant *)

Section Laws.
Context `{!GoalHandleLaws W G R F}.

Implicit Types s : server.

Record inv s : Prop := {
  inv_pending : forall h, pending_handle s = Some h -> h_is_active h (handles s) = true;
  inv_preempt : preempt_requested s = true <-> pending_handle s <> None;
  inv_held : forall h, h_is_active h (handles s) = true ->
    current_handle s = Some h \/ pending_handle s = Some h;
  inv_distinct : forall h, pending_handle s = Some h -> current_handle s <> Some h }.

Lemma end_goal_active h r w h' :
  h_is_active h' (end_goal h r w) = negb (bool_decide (h' = h)) && h_is_active h' w.
Proof. unfold end_goal. destruct (h_is_canceling h w); [apply law_canceled|apply law_abort]. Qed.

Lemma inv_new w : (forall h, h_is_active h w = false) -> inv (new w).
Proof. intros Hw. constructor; cbn; try done. intros h Hh. by rewrite Hw in Hh. Qed.

(** The invariant speaks of these components only. *)
Lemma inv_same s s' : current_handle s' = current_handle s -> pending_handle s' = pending_handle s ->
  preempt_requested s' = preempt_requested s ->
  (forall h, h_is_active h (handles s') = h_is_active h (handles s)) -> inv s -> inv s'.
Proof.
  intros Hc Hp Hr Ha [I1 I2 I3 I4]. constructor.
  - intros h Hh. rewrite Ha. apply I1. by rewrite <- Hp.
  - by rewrite Hr, Hp.
  - intros h Hh. rewrite Hc, Hp. apply I3. by rewrite <- Ha.
  - intros h Hh. rewrite Hc. apply I4. by rewrite <- Hp.
Qed.

(** A call ends the goal of the current handle. *)
Lemma inv_end_current s h w : inv s -> current_handle s = Some h ->
  (forall h', h_is_active h' w = negb (bool_decide (h' = h)) && h_is_active h' (handles s)) ->
  inv (set_current None (set_handles w s)).
Proof.
  intros [I1 I2 I3 I4] Hc Hw. constructor; cbn.
  - intros p Hp. rewrite Hw, (I1 p Hp), bool_decide_false; [done|]. intros ->. by apply (I4 h Hp).
  - done.
  - intros h' Hh'. rewrite Hw in Hh'. apply andb_prop in Hh' as [Hne Hact].
    destruct (I3 h' Hact) as [E|E]; [|by right]. rewrite Hc in E. injection E as ->.
    by rewrite bool_decide_true in Hne.
  - done.
Qed.

Lemma inv_end_pending s h w : inv s -> pending_handle s = Some h ->
  (forall h', h_is_active h' w = negb (bool_decide (h' = h)) && h_is_active h' (handles s)) ->
  inv (set_preempt false (set_pending None (set_handles w s))).
Proof.
  intros [I1 I2 I3 I4] Hp Hw. constructor; cbn; try done.
  intros h' Hh'. rewrite Hw in Hh'. apply andb_prop in Hh' as [Hne Hact].
  destruct (I3 h' Hact) as [E|E]; [by left|]. rewrite Hp in E. injection E as ->.
  by rewrite bool_decide_true in Hne.
Qed.

Lemma terminate_current_inv r s : inv s -> inv (terminate_current_handle r s).
Proof.
  intros I. unfold terminate_current_handle. destruct (current_handle s) as [h|] eqn:Hc; [|done].
  destruct (h_is_active h (handles s)); [|done]. eapply inv_end_current; [done|done|].
  intros h'. apply end_goal_active.
Qed.

(** Without the pending goal the flag goes as well. *)
Lemma terminate_pending_inv r s : inv s ->
  inv (set_preempt false (terminate_pending_handle r s)) /\
  pending_handle (terminate_pending_handle r s) = None.
Proof.
  intros I. unfold terminate_pending_handle. destruct (pending_handle s) as [h|] eqn:Hp.
  - rewrite (inv_pending s I h Hp). split; [|done]. eapply inv_end_pending; [done|done|].
    intros h'. apply end_goal_active.
  - split; [|done]. pose proof I as [I1 I2 I3 I4]. constructor; cbn; rewrite ?Hp in *; try done.
Qed.

Lemma terminate_all_inv r s : inv s -> inv (terminate_all r s).
Proof. intros I. by apply terminate_pending_inv, terminate_current_inv. Qed.

Lemma is_active_pending s h : inv s -> pending_handle s = Some h -> is_active (pending_handle s) s = true.
Proof. intros I Hp. rewrite Hp. cbn. by apply inv_pending. Qed.

(** The pending goal becomes the current one, whose predecessor is over. *)
Lemma accept_pending_spec s p : inv s -> pending_handle s = Some p ->
  inv (snd (accept_pending_goal s)) /\
  fst (accept_pending_goal s) = Some (h_get_goal p (handles (snd (accept_pending_goal s)))) /\
  current_handle (snd (accept_pending_goal s)) = Some p /\
  pending_handle (snd (accept_pending_goal s)) = None /\
  (forall h, h_is_active h (handles (snd (accept_pending_goal s))) = bool_decide (h = p)).
Proof.
  intros I Hp. pose proof I as [I1 I2 I3 I4]. pose proof (I1 p Hp) as Hact.
  unfold accept_pending_goal. rewrite Hp, Hact.
  assert (forall h, h_is_active h (handles (snd (accept_pending_goal s))) = bool_decide (h = p)) as Hall.
  { intros h. unfold accept_pending_goal. rewrite Hp, Hact.
    destruct (current_handle s) as [c|] eqn:Hc.
    - assert (c <> p) as Hne by (intros ->; by apply (I4 p Hp)).
      rewrite (bool_decide_false (c = p)) by done.
      destruct (h_is_active c (handles s)) eqn:Hca; cbn.
      + rewrite law_abort. destruct (bool_decide_reflect (h = c)) as [->|Hhc]; cbn.
        * by rewrite bool_decide_false.
        * destruct (bool_decide_reflect (h = p)) as [->|Hhp]; [done|].
          destruct (h_is_active h (handles s)) eqn:Hh; [|done]. destruct (I3 h Hh); congruence.
      + destruct (bool_decide_reflect (h = p)) as [->|Hhp]; [done|].
        destruct (h_is_active h (handles s)) eqn:Hh; [|done]. destruct (I3 h Hh); congruence.
    - cbn. destruct (bool_decide_reflect (h = p)) as [->|Hhp]; [done|].
      destruct (h_is_active h (handles s)) eqn:Hh; [|done]. destruct (I3 h Hh); congruence. }
  unfold accept_pending_goal in Hall. rewrite Hp, Hact in Hall. cbn in Hall |- *.
  split; [|by repeat split]. constructor; cbn; try done.
  intros h Hh. rewrite Hall in Hh. apply bool_decide_eq_true in Hh as ->. by left.
Qed.

Lemma accept_pending_none s : pending_handle s = None -> accept_pending_goal s = (None, s).
Proof. intros Hp. unfold accept_pending_goal. by rewrite Hp. Qed.

Lemma run_call_inv c s : inv s -> inv (run_call c s).
Proof.
  intros I. destruct c as [| |r|r|r|f]; cbn.
  - destruct (pending_handle s) as [p|] eqn:Hp; [by apply (accept_pending_spec s p)|].
    by rewrite accept_pending_none.
  - unfold terminate_pending_goal. destruct (is_active _ _); [|done]. by apply terminate_pending_inv.
  - by apply terminate_all_inv.
  - by apply terminate_current_inv.
  - unfold succeeded_current. destruct (current_handle s) as [h|] eqn:Hc; [|done].
    destruct (h_is_active h (handles s)); [|done]. eapply inv_end_current; [done|done|].
    intros h'. apply law_succeed.
  - unfold publish_feedback. destruct (current_handle s) as [h|] eqn:Hc; [|done].
    destruct (h_is_active h (handles s)); [|done]. apply (inv_same s); try done.
    intros h'. apply law_feedback.
Qed.

(** A new goal: fresh before, active after. *)
Lemma handle_accepted_inv h w' s : inv s -> h_is_active h (handles s) = false ->
  current_handle s <> Some h -> pending_handle s <> Some h -> h_is_active h w' = true ->
  (forall h', h' <> h -> h_is_active h' w' = h_is_active h' (handles s)) ->
  inv (handle_accepted h (set_handles w' s)).
Proof.
  intros I Hf Hc Hp Hw Hother. pose proof I as [I1 I2 I3 I4].
  unfold handle_accepted.
  set (held := is_active (current_handle (set_handles w' s)) (set_handles w' s) || is_running (set_handles w' s)).
  assert (forall h', h_is_active h' w' = true -> h' <> h -> current_handle s = Some h' \/ pending_handle s = Some h') as Hheld.
  { intros h' Hh' Hne. apply I3. by rewrite <- Hother. }
  assert (is_active (pending_handle (set_handles w' s)) (set_handles w' s) = bool_decide (pending_handle s <> None)) as Hpa.
  { cbn. destruct (pending_handle s) as [p|] eqn:Ep; cbn; [|done].
    rewrite Hother by congruence. by rewrite (I1 p eq_refl). }
  destruct held eqn:Eheld; subst held.
  - rewrite Hpa. destruct (pending_handle s) as [p|] eqn:Ep; cbn.
    + assert (h_is_active p w' = true) as Hpw by (rewrite Hother by congruence; by apply I1).
      unfold terminate_pending_handle. cbn. rewrite Ep, Hpw. constructor; cbn.
      * intros h' [= <-]. rewrite end_goal_active, Hw, bool_decide_false by congruence. done.
      * done.
      * intros h' Hh'. rewrite end_goal_active in Hh'. apply andb_prop in Hh' as [Hne Hh'].
        destruct (decide (h' = h)) as [->|Hne']; [by right|].
        destruct (Hheld h' Hh' Hne') as [E|E]; [by left|]. injection E as ->.
        by rewrite bool_decide_true in Hne.
      * by intros h' [= <-].
    + constructor; cbn; try done.
      * by intros h' [= <-].
      * intros h' Hh'. destruct (decide (h' = h)) as [->|Hne']; [by right|].
        destruct (Hheld h' Hh' Hne') as [E|E]; [by left|done].
      * by intros h' [= <-].
  - apply orb_false_elim in Eheld as [Eca _].
    assert (forall h', h_is_active h' w' = true -> h' <> h -> pending_handle s = Some h') as Honly.
    { intros h' Hh' Hne. destruct (Hheld h' Hh' Hne) as [E|E]; [|done]. cbn in Eca.
      rewrite E in Eca. cbn in Eca. congruence. }
    rewrite Hpa. destruct (pending_handle s) as [p|] eqn:Ep; cbn.
    + assert (h_is_active p w' = true) as Hpw by (rewrite Hother by congruence; by apply I1).
      unfold terminate_pending_handle. cbn. rewrite Ep, Hpw. constructor; cbn; try done.
      intros h' Hh'. rewrite end_goal_active in Hh'. apply andb_prop in Hh' as [Hne Hh'].
      destruct (decide (h' = h)) as [->|Hne']; [by left|].
      pose proof (Honly h' Hh' Hne') as E. injection E as ->. by rewrite bool_decide_true in Hne.
    + constructor; cbn; rewrite ?Ep; try done.
      intros h' Hh'. destruct (decide (h' = h)) as [->|Hne']; [by left|].
      by pose proof (Honly h' Hh' Hne').
Qed.

Lemma work_returned_inv hc s : inv s -> inv (work_returned hc s).
Proof.
  intros I. unfold work_returned. destruct (stop_execution s).
  - apply (inv_same (terminate_all empty_result s)); [by destruct hc..|by apply terminate_all_inv].
  - set (s1 := if is_active (current_handle s) s then _ else s).
    assert (inv s1) as I1.
    { subst s1. destruct (is_active _ _); [|done].
      apply (inv_same (terminate_current_handle empty_result s)); [by destruct hc..|by apply terminate_current_inv]. }
    clearbody s1. destruct (is_active (pending_handle s1) s1) eqn:Hp.
    + destruct (pending_handle s1) as [p|] eqn:Ep; [|done].
      apply (inv_same (snd (accept_pending_goal s1))); try done. by apply (accept_pending_spec s1 p).
    + by apply (inv_same s1).
Qed.

Lemma step_inv ok hc a s s' : step ok hc a s s' -> inv s -> inv s'.
Proof.
  intros H I. destruct H; try (by apply (inv_same s)).
  - by apply handle_accepted_inv.
  - unfold work_condition. destruct (_ && _); by apply (inv_same s).
  - apply (inv_same (terminate_all empty_result s)); [by destruct hc..|by apply terminate_all_inv].
  - by apply work_returned_inv.
  - by apply run_call_inv.
  - unfold deactivate_wait. destruct (is_running s); [destruct deadline_passed|]; by apply (inv_same s).
  - apply (inv_same (terminate_all empty_result s)); [by destruct hc..|by apply terminate_all_inv].
Qed.

Lemma reachable_inv ok hc s : reachable ok hc s -> inv s.
Proof.
  intros (w & Hw & Hs). assert (inv (new w)) as I by (by apply inv_new). revert I.
  induction Hs as [|s1 s2 s3 [a Hstep] _ IH]; [done|]. intros I. apply IH. by eapply step_inv.
Qed.

(** ** Progress *)

(** The worker will look at its goals again. *)
Definition in_loop s : Prop :=
  match worker s with
  | AtCondition => is_active (current_handle s) s = true
  | InCallback | Returned | Threw => True
  | _ => False
  end.

Definition all_over s : Prop := forall h, h_is_active h (handles s) = false.

(** Runs in which no goal arrives and nobody deactivates the server, with the number of
    the worker's steps; requests to cancel and calls of the callback come in between. *)
Inductive quiet_run (hc : bool) : nat -> server -> server -> Prop :=
  | quiet_nil s : quiet_run hc 0 s s
  | quiet_worker n s s1 s2 : step true hc by_worker s s1 -> quiet_run hc n s1 s2 ->
      quiet_run hc (Datatypes.S n) s s2
  | quiet_other n a s s1 s2 : a = by_cancel \/ a = by_callback -> step true hc a s s1 ->
      quiet_run hc n s1 s2 -> quiet_run hc n s s2.

(** What bounds the steps of the worker: each round of the loop takes four, and there is
    one more round when a goal is pending. *)
Definition steps_left s : nat :=
  let pending := match pending_handle s with Some _ => 4 | None => 0 end%nat in
  match worker s with
  | NoTask | Ended => 0
  | Leaving => 1
  | Threw => 2
  | Returned => 2 + pending
  | InCallback => 3 + pending
  | AtCondition => 4 + pending
  end%nat.

Record progressing s : Prop := {
  prog_inv : inv s;
  prog_stop : stop_execution s = false;
  prog_worker : in_loop s \/ ((worker s = Leaving \/ worker s = Ended) /\ all_over s) }.

(** Ending the current goal leaves none but the pending one. *)
Lemma terminate_current_over r s h : inv s ->
  h_is_active h (handles (terminate_current_handle r s)) = true -> pending_handle s = Some h.
Proof.
  intros I. pose proof I as [I1 I2 I3 I4]. unfold terminate_current_handle.
  destruct (current_handle s) as [c|] eqn:Hc.
  - destruct (h_is_active c (handles s)) eqn:Ha; cbn; [rewrite end_goal_active|]; intros Hh.
    + apply andb_prop in Hh as [Hne Hh]. destruct (I3 h Hh) as [[= ->]|E]; [|done].
      by rewrite bool_decide_true in Hne.
    + destruct (I3 h Hh) as [[= ->]|E]; [congruence|done].
  - intros Hh. by destruct (I3 h Hh).
Qed.

Lemma terminate_current_pending r s : pending_handle (terminate_current_handle r s) = pending_handle s.
Proof. unfold terminate_current_handle. destruct (current_handle s); [destruct (h_is_active _ _)|]; done. Qed.

Lemma terminate_all_over r s : inv s -> all_over (terminate_all r s).
Proof.
  intros I h. destruct (h_is_active h (handles (terminate_all r s))) eqn:Hh; [|done]. exfalso.
  pose proof (terminate_current_inv r s I) as I'. unfold terminate_all in Hh. cbn in Hh.
  unfold terminate_pending_handle in Hh. rewrite terminate_current_pending in Hh.
  destruct (pending_handle s) as [p|] eqn:Hp.
  - rewrite (inv_pending _ I' p) in Hh by (by rewrite terminate_current_pending). cbn in Hh.
    rewrite end_goal_active in Hh. apply andb_prop in Hh as [Hne Hh].
    apply (terminate_current_over r s h I) in Hh. rewrite Hp in Hh. injection Hh as ->.
    by rewrite bool_decide_true in Hne.
  - apply (terminate_current_over r s h I) in Hh. congruence.
Qed.

(** The end of a round: the pending goal is served next, or all goals are over. *)
Lemma work_returned_spec hc s : inv s -> stop_execution s = false ->
  let s' := work_returned hc s in
  stop_execution s' = false /\ pending_handle s' = None /\
  match pending_handle s with
  | Some p => worker s' = AtCondition /\ current_handle s' = Some p /\
      (forall h, h_is_active h (handles s') = bool_decide (h = p))
  | None => worker s' = Leaving /\ all_over s'
  end.
Proof.
  intros I Hs. unfold work_returned. rewrite Hs.
  set (s1 := if is_active (current_handle s) s then _ else s).
  assert (inv s1 /\ stop_execution s1 = false /\ pending_handle s1 = pending_handle s /\
    (forall h, h_is_active h (handles s1) = true -> pending_handle s = Some h)) as (I1 & Hs1 & Hp1 & Ho1).
  { subst s1. destruct (is_active (current_handle s) s) eqn:Ha.
    - assert (inv (terminate_current_handle empty_result s)) as It by (by apply terminate_current_inv).
      pose proof (terminate_current_over empty_result s) as Ho.
      assert (stop_execution (terminate_current_handle empty_result s) = false) as Hst.
      { unfold terminate_current_handle. destruct (current_handle s); [destruct (h_is_active _ _)|]; done. }
      pose proof (terminate_current_pending empty_result s) as Hpp.
      destruct hc; cbn; repeat split; try done; try (by apply Ho); try apply It.
      all: try (intros h Hh; by apply Ho).
    - split; [done|]. split; [done|]. split; [done|]. intros h Hh.
      destruct (inv_held s I h Hh) as [E|E]; [|done]. rewrite E in Ha. cbn in Ha. congruence. }
  clearbody s1. rewrite <- Hp1. destruct (pending_handle s1) as [p|] eqn:Ep.
  - pose proof (is_active_pending s1 p I1 Ep) as Hact. rewrite Ep in Hact. rewrite Hact.
    destruct (accept_pending_spec s1 p I1 Ep) as (_ & _ & Hc & Hp & Hall). cbn.
    rewrite Hc, Hp. split; [|by repeat split].
    unfold accept_pending_goal. rewrite Ep. cbn in Hact. rewrite Hact.
    cbn. destruct (current_handle s1); [destruct (_ && _)|]; done.
  - cbn. rewrite Ep. do 3 (split; [done|]). intros h.
    destruct (h_is_active h (handles s1)) eqn:Hh; [|done].
    specialize (Ho1 h Hh). congruence.
Qed.

Lemma progress_worker hc s s' : progressing s -> step true hc by_worker s s' ->
  progressing s' /\ (steps_left s' < steps_left s)%nat.
Proof.
  intros [I Hs Hw] H. pose proof (step_inv _ _ _ _ _ H I) as I'.
  assert (Hwk : forall t, worker s = t -> match t with
    | AtCondition => is_active (current_handle s) s = true
    | InCallback | Returned | Threw => True
    | _ => all_over s end).
  { intros t <-. unfold in_loop in Hw. destruct (worker s), Hw as [Hw|[[?|?] Ho]]; done. }
  inversion H; subst; rename H0 into Ew; specialize (Hwk _ Ew); cbn in Hwk.
  - assert (work_condition true s = set_worker InCallback s) as Ec
      by (unfold work_condition; by rewrite Hs, Hwk).
    rewrite Ec in *. split.
    + constructor; [done|done|by left].
    + unfold steps_left. cbn. rewrite Ew. destruct (pending_handle s); lia.
  - split; [constructor; [done|done|by left]|]. unfold steps_left. cbn. rewrite Ew. destruct (pending_handle s); lia.
  - split; [constructor; [done|done|by left]|]. unfold steps_left. cbn. rewrite Ew. destruct (pending_handle s); lia.
  - pose proof (terminate_all_over empty_result s I) as Ho. split.
    + constructor; [done| |].
      * unfold work_threw, terminate_all, terminate_pending_handle, terminate_current_handle.
        destruct hc, (current_handle s); try destruct (h_is_active _ _); cbn; destruct (pending_handle s);
          try destruct (h_is_active _ _); done.
      * right. split; [by left|]. unfold work_threw. by destruct hc.
    + unfold steps_left. rewrite Ew. by destruct hc; cbn; lia.
  - destruct (work_returned_spec hc s I Hs) as (Hs' & Hp' & Hcase). split.
    + constructor; [done|done|]. destruct (pending_handle s) as [p|].
      * destruct Hcase as (Hw' & Hc' & Ha'). left. unfold in_loop. rewrite Hw', Hc'. cbn. rewrite Ha'.
        by apply bool_decide_true.
      * destruct Hcase as (Hw' & Ho'). right. by split; [left|].
    + unfold steps_left. rewrite Ew, Hp'. destruct (pending_handle s) as [p|].
      * destruct Hcase as (-> & _). lia.
      * destruct Hcase as (-> & _). lia.
  - split; [constructor; [done|done|right; by split; [right|]]|]. unfold steps_left. cbn. rewrite Ew. lia.
Qed.

Lemma progress_other hc a s s' : a = by_cancel \/ a = by_callback -> progressing s ->
  step true hc a s s' -> progressing s' /\ (steps_left s' <= steps_left s)%nat.
Proof.
  intros Ha [I Hs Hw] H. pose proof (step_inv _ _ _ _ _ H I) as I'.
  destruct H; try (by destruct Ha).
  - split; [|done]. constructor; [done|done|]. destruct Hw as [Hw|[Hl Ho]].
    + left. unfold in_loop in *. cbn. destruct (worker s); try done.
      unfold is_active in *. cbn. destruct (current_handle s); [|done]. by rewrite H0.
    + right. split; [done|]. intros h'. cbn. rewrite H0. apply Ho.
  - assert (worker (run_call c s) = InCallback /\ stop_execution (run_call c s) = false /\
      (pending_handle (run_call c s) = None \/ pending_handle (run_call c s) = pending_handle s)) as (Hw' & Hs' & Hp').
    { destruct c; cbn; unfold accept_pending_goal, terminate_pending_goal, terminate_all, terminate_current,
        succeeded_current, publish_feedback, terminate_pending_handle, terminate_current_handle, is_active; cbn;
      repeat (match goal with
              | |- context [match ?x with Some _ => _ | None => _ end] => destruct x eqn:?
              | |- context [if ?b then _ else _] => destruct b eqn:?
              end; cbn); auto. }
    split.
    + constructor; [done|done|]. left. unfold in_loop. by rewrite Hw'.
    + unfold steps_left. rewrite Hw', H. destruct Hp' as [-> | ->]; [|done]. destruct (pending_handle s); lia.
Qed.

Lemma quiet_progress hc n s s' : progressing s -> quiet_run hc n s s' ->
  progressing s' /\ (steps_left s' + n <= steps_left s)%nat.
Proof.
  intros P H. induction H as [s|n s s1 s2 Hstep _ IH|n a s s1 s2 Ha Hstep _ IH].
  - split; [done|lia].
  - destruct (progress_worker hc s s1 P Hstep) as [P1 Hlt]. destruct (IH P1). split; [done|lia].
  - destruct (progress_other hc a s s1 Ha P Hstep) as [P1 Hle]. destruct (IH P1). split; [done|lia].
Qed.

(** C19: In every reachable state, whatever the order of the steps of the library, the
    worker, its callback and a thread that deactivates, each unfinished goal is the current
    or the pending one; a preemption is requested exactly while a goal is pending, and the
    pending goal is unfinished and not the current one. *)
Theorem server_goals ok hc s : reachable ok hc s ->
  (forall h, h_is_active h (handles s) = true -> current_handle s = Some h \/ pending_handle s = Some h) /\
  (preempt_requested s = true <-> exists h, pending_handle s = Some h) /\
  (forall h, pending_handle s = Some h ->
     h_is_active h (handles s) = true /\ current_handle s <> Some h).
Proof.
  intros Hr. apply reachable_inv in Hr as [I1 I2 I3 I4]. split; [done|]. split.
  - rewrite I2. destruct (pending_handle s) as [p|]; split; [by exists p|done|done|by intros [? ?]].
  - intros h Hh. by split; [apply I1|apply I4].
Qed.

(** C21: While the worker is in its loop, no goal arrives and nobody stops the server, it
    takes at most eight more steps, whenever the execute callback returns or throws and
    whatever it calls; it can always take a next one until its task has ended, and then
    every goal has finished. *)
Theorem server_drains ok hc s n s' : reachable ok hc s -> stop_execution s = false -> in_loop s ->
  quiet_run hc n s s' ->
  (n <= 8)%nat /\
  if decide (worker s' = Ended) then all_over s' else exists s'', step true hc by_worker s' s''.
Proof.
  intros Hr Hs Hl Hq. assert (progressing s) as P by (constructor; [by eapply reachable_inv|done|by left]).
  destruct (quiet_progress hc n s s' P Hq) as [[_ _ Hw] Hle]. split.
  - unfold in_loop, steps_left in *. destruct (worker s), (pending_handle s); done || lia.
  - case_decide as D; destruct Hw as [Hw|[[Hw|Hw] Ho]]; try done.
    + unfold in_loop in Hw. by rewrite D in Hw.
    + unfold in_loop in Hw. destruct (worker s') eqn:Ew; try done; eexists.
      * by apply step_condition.
      * by apply step_returns.
      * by apply step_returned.
      * by apply step_threw.
    + eexists. by apply step_ends.
Qed.

(** ** Goals that are never served *)

(** The task has ended with an unfinished current goal. *)
Definition dead s : Prop :=
  worker s = Ended /\ deactivating s <> Deadline /\ is_active (current_handle s) s = true.

(** Everything but a new goal leaves a server whose task has ended as it is, up to flags. *)
Lemma idle_step ok hc a s s' : worker s = Ended -> deactivating s <> Deadline ->
  step ok hc a s s' -> a <> by_goal ->
  worker s' = Ended /\ deactivating s' <> Deadline /\ current_handle s' = current_handle s /\
  pending_handle s' = pending_handle s /\ (forall h, h_is_active h (handles s') = h_is_active h (handles s)).
Proof.
  intros Hw Hd H Ha. destruct H; try congruence; try done.
  - cbn. rewrite Hw. by repeat split.
  - unfold deactivate_wait, is_running. rewrite Hw. by repeat split.
Qed.

Lemma is_active_same h s s' : (forall h, h_is_active h (handles s') = h_is_active h (handles s)) ->
  is_active h s' = is_active h s.
Proof. intros Ho. unfold is_active. destruct h; [apply Ho|done]. Qed.

Lemma dead_step ok hc s s' : inv s -> dead s -> any_step ok hc s s' ->
  dead s' /\ current_handle s' = current_handle s.
Proof.
  intros I (Hw & Hd & Ha) [a H].
  assert (a <> by_goal \/ a = by_goal) as [Hg|Hg] by (destruct a; auto).
  - destruct (idle_step ok hc a s s' Hw Hd H Hg) as (Hw' & Hd' & Hc & _ & Ho).
    split; [|done]. split; [done|]. split; [done|]. by rewrite Hc, (is_active_same _ s s' Ho).
  - destruct H as [h w' s Hf Hc Hp Hn Ho| | | | | | | | | | | | | |]; try done.
    destruct (current_handle s) as [c|] eqn:Ec; [|done]. cbn in Ha.
    assert (h_is_active c w' = true) as Hca by (by rewrite Ho by congruence).
    assert (is_active (current_handle (set_handles w' s)) (set_handles w' s) = true) as Hx
      by (cbn; by rewrite Ec).
    unfold handle_accepted. rewrite Hx. cbn [orb]. destruct (is_active (pending_handle _) _) eqn:Hpa;
      [|unfold dead; cbn; rewrite Ec; cbn; by rewrite Hca].
    unfold terminate_pending_handle. cbn in Hpa |- *. destruct (pending_handle s) as [p|] eqn:Ep; [|discriminate Hpa].
    cbn in Hpa. rewrite Hpa. unfold dead. cbn. rewrite Ec. cbn. split; [|done]. do 2 (split; [done|]).
    rewrite end_goal_active, Hca, bool_decide_false; [done|]. intros ->.
    by apply (inv_distinct s I p).
Qed.

(** C20: Two ways to lose goals, in any reachable state whose task has ended and in which no deactivation is already at its
    deadline (such a one ends the goals and the server serves again). If the current goal is unfinished, the
    server never serves a goal again: that goal stays the current, unfinished one in every
    run, through new goals, cancellations, deactivations and activations. And a goal that is pending
    stays pending and unfinished in every run in which no further goal
    arrives (a further goal ends it and takes its place, or starts a task). The witness gives the runs that lead there. *)
Theorem server_stuck ok hc s s' : reachable ok hc s -> worker s = Ended -> deactivating s <> Deadline ->
  (is_active (current_handle s) s = true -> rtc (any_step ok hc) s s' ->
     worker s' = Ended /\ current_handle s' = current_handle s /\ is_active (current_handle s') s' = true) /\
  (forall h, pending_handle s = Some h ->
     rtc (fun s1 s2 => exists a, a <> by_goal /\ step ok hc a s1 s2) s s' ->
     worker s' = Ended /\ pending_handle s' = Some h /\ h_is_active h (handles s') = true).
Proof.
  intros Hr Hw Hd. pose proof (reachable_inv ok hc s Hr) as I. split.
  - intros Ha Hs. assert (dead s) as D by done. clear Hw Hd Ha Hr.
    assert (inv s' /\ dead s' /\ current_handle s' = current_handle s) as (_ & (? & ? & ?) & ?); [|done].
    revert I D. induction Hs as [s|s s1 s2 Hstep _ IH]; [done|]. intros I D.
    destruct (dead_step ok hc s s1 I D Hstep) as [D1 E1]. destruct Hstep as [a Hstep].
    destruct (IH (step_inv _ _ _ _ _ Hstep I) D1) as (? & ? & ?). split; [done|]. split; [done|]. congruence.
  - intros h Hp Hs. pose proof (inv_pending s I h Hp) as Hact.
    assert (worker s' = Ended /\ deactivating s' <> Deadline /\ pending_handle s' = Some h /\
      h_is_active h (handles s') = true) as (? & _ & ? & ?); [|done].
    clear Hr I. revert Hw Hd Hp Hact. induction Hs as [s|s s1 s2 (a & Hg & Hstep) _ IH]; [done|].
    intros Hw Hd Hp Hact. destruct (idle_step ok hc a s s1 Hw Hd Hstep Hg) as (Hw1 & Hd1 & _ & Hp1 & Ho1).
    apply IH; [done|done|congruence|by rewrite Ho1].
Qed.
End Laws.
End Server.

Arguments server : clear implicits.
Arguments call : clear implicits.

(** ** A concrete library and its runs *)

(** The active handles, with whether they are being cancelled. *)
Definition demo_handles : Type := list (nat * bool).

Definition drop_handle (h : nat) (w : demo_handles) : demo_handles :=
  List.filter (fun x => negb (Nat.eqb x.1 h)) w.

#[local] Instance demo_goal_handles : GoalHandles demo_handles nat () () := {
  h_is_active h w := existsb (fun x => Nat.eqb x.1 h) w;
  h_is_canceling h w := existsb (fun x => Nat.eqb x.1 h && x.2) w;
  h_get_goal h w := h;
  h_get_goal_id h w := Z.of_nat h;
  h_abort h _ w := drop_handle h w;
  h_canceled h _ w := drop_handle h w;
  h_succeed h _ w := drop_handle h w;
  h_publish_feedback _ _ w := w;
  empty_result := () }.

Lemma drop_handle_active h w h' :
  existsb (fun x => Nat.eqb x.1 h') (drop_handle h w) =
  negb (bool_decide (h' = h)) && existsb (fun x => Nat.eqb x.1 h') w.
Proof.
  unfold drop_handle. induction w as [|[k b] w IH]; [by rewrite andb_false_r|].
  cbn [List.filter existsb fst]. destruct (Nat.eqb_spec k h) as [->|D]; cbn [negb existsb fst]; rewrite IH.
  - destruct (Nat.eqb_spec h h') as [->|]; [|done]. by rewrite bool_decide_true.
  - destruct (Nat.eqb_spec k h') as [->|]; [|done]. by rewrite bool_decide_false.
Qed.

#[local] Instance demo_goal_handle_laws : GoalHandleLaws demo_handles nat () ().
Proof. constructor; intros; cbn; try done; apply drop_handle_active. Qed.

(** A goal arrives and the server is deactivated before the task looks at its flags: the
    task ends at once, and the goal remains the current one. *)
Definition dead_server : server demo_handles :=
  set_worker Ended (work_condition true (deactivate_flags (handle_accepted 1 (set_handles [(1%nat, false)] (new []))))).

(** A second goal arrives when the task has left its loop but not yet ended. *)
Definition forgetful_server : server demo_handles :=
  let serving := work_condition true (handle_accepted 1 (set_handles [(1%nat, false)] (new []))) in
  let leaving := work_returned false (set_worker Returned (run_call (call_succeeded ()) serving)) in
  set_worker Ended (handle_accepted 2 (set_handles [(2%nat, false)] leaving)).

Lemma dead_reachable : reachable true false dead_server.
Proof.
  exists []. split; [done|]. unfold dead_server.
  eapply rtc_l; [exists by_goal; apply (step_goal true false 1 [(1%nat, false)] (new [])); try done|].
  { by intros [|[|h]] Hh. }
  eapply rtc_l; [exists by_user; by apply step_flags|].
  eapply rtc_l; [exists by_worker; by apply step_condition|].
  eapply rtc_l; [exists by_worker; by apply step_ends|]. constructor.
Qed.

Lemma forgetful_reachable : reachable true false forgetful_server.
Proof.
  exists []. split; [done|]. unfold forgetful_server.
  eapply rtc_l; [exists by_goal; apply (step_goal true false 1 [(1%nat, false)] (new [])); try done|].
  { by intros [|[|h]] Hh. }
  eapply rtc_l; [exists by_worker; by apply step_condition|].
  eapply rtc_l; [exists by_callback; by apply (step_call true false (call_succeeded ()))|].
  eapply rtc_l; [exists by_worker; by apply step_returns|].
  eapply rtc_l; [exists by_worker; by apply step_returned|].
  eapply rtc_l; [exists by_goal; apply (step_goal true false 2 [(2%nat, false)]); try done|].
  { by intros [|[|[|h]]] Hh. }
  eapply rtc_l; [exists by_worker; by apply step_ends|]. constructor.
Qed.

(** The dead server after a further goal and an activation. *)
Lemma server_stuck_witness :
  (exists s', rtc (any_step true false) dead_server s' /\ pending_handle s' = Some 2%nat /\
     server_active s' = true /\ worker s' = Ended /\ is_active (current_handle s') s' = true) /\
  pending_handle forgetful_server = Some 2%nat /\ h_is_active 2 (handles forgetful_server) = true.
Proof.
  set (s1 := handle_accepted 2 (set_handles [(1%nat, false); (2%nat, false)] dead_server)).
  set (s2 := deactivate_wait false (deactivate_future s1)).
  assert (rtc (any_step true false) dead_server (activate s2)) as Hrun.
  { eapply rtc_l; [exists by_goal; apply (step_goal true false 2 [(1%nat, false); (2%nat, false)]); try done|].
    { by intros [|[|[|h]]] Hh. }
    eapply rtc_l; [exists by_user; by apply step_future|].
    eapply rtc_l; [exists by_user; by apply (step_wait true false false)|].
    eapply rtc_l; [exists by_user; by apply step_activate|]. constructor. }
  split.
  - exists (activate s2). split; [done|]. split; [done|]. split; [done|].
    destruct (server_stuck true false dead_server (activate s2) dead_reachable eq_refl ltac:(discriminate)) as [H _].
    destruct (H eq_refl Hrun) as (? & _ & ?). done.
  - destruct (server_stuck true false forgetful_server forgetful_server forgetful_reachable eq_refl ltac:(discriminate))
      as [_ H]. destruct (H 2%nat eq_refl (rtc_refl _ _)) as (_ & ? & ?). done.
Defined.

Lemma server_goals_witness :
  (forall h, h_is_active h (handles forgetful_server) = true ->
     current_handle forgetful_server = Some h \/ pending_handle forgetful_server = Some h) /\
  (preempt_requested forgetful_server = true <-> exists h, pending_handle forgetful_server = Some h) /\
  (forall h, pending_handle forgetful_server = Some h ->
     h_is_active h (handles forgetful_server) = true /\ current_handle forgetful_server <> Some h).
Proof. apply (server_goals true false). exact forgetful_reachable. Defined.

(** Two goals; the callback returns without finishing the first one. *)
Definition busy_server : server demo_handles :=
  handle_accepted 2 (set_handles [(1%nat, false); (2%nat, false)]
    (work_condition true (handle_accepted 1 (set_handles [(1%nat, false)] (new []))))).

Lemma busy_reachable : reachable true false busy_server.
Proof.
  exists []. split; [done|]. unfold busy_server.
  eapply rtc_l; [exists by_goal; apply (step_goal true false 1 [(1%nat, false)] (new [])); try done|].
  { by intros [|[|h]] Hh. }
  eapply rtc_l; [exists by_worker; by apply step_condition|].
  eapply rtc_l; [exists by_goal; apply (step_goal true false 2 [(1%nat, false); (2%nat, false)]); try done|].
  { by intros [|[|[|h]]] Hh. }
  constructor.
Qed.

Lemma server_drains_witness : exists s',
  quiet_run false 6 busy_server s' /\ worker s' = Ended /\ (6 <= 8)%nat /\ all_over s'.
Proof.
  set (s1 := work_returned false (set_worker Returned busy_server)).
  set (s2 := work_condition true s1).
  set (s3 := work_returned false (set_worker Returned (run_call (call_succeeded ()) s2))).
  assert (quiet_run false 6 busy_server (set_worker Ended s3)) as Hrun.
  { eapply quiet_worker; [by apply step_returns|]. eapply quiet_worker; [by apply step_returned|].
    eapply quiet_worker; [by apply step_condition|].
    eapply (quiet_other _ _ by_callback); [by right|by apply (step_call true false (call_succeeded ()))|].
    eapply quiet_worker; [by apply step_returns|]. eapply quiet_worker; [by apply step_returned|].
    eapply quiet_worker; [by apply step_ends|]. constructor. }
  exists (set_worker Ended s3). split; [done|]. split; [done|].
  exact (server_drains true false busy_server 6 (set_worker Ended s3) busy_reachable eq_refl I Hrun).
Defined.

End ActionServer.
