(* ===== verification/FloatBounds.v ===== *)
(** * Bounds of floating point results

    A finite number of a binary format is a signed whole number of its smallest units,
    [sunits]. Sums round the sum of the units, so they stay between representable
    bounds; products, quotients and conversions are bounded by powers of two. *)

From stdpp Require Import base option list numbers.
From Stdlib Require Import ZArith Lia SpecFloat.
From S2P Require Import Prelude Float64 FloatOrder.

#[export] Instance spec_float_eq_dec : EqDecision spec_float.
Proof. solve_decision. Defined.

Section Format.
Context (prec emax : Z).
Hypothesis Hprec : 1 < prec.
Hypothesis Hemax : prec < emax.

Abbreviation emin := (emin prec emax).
Abbreviation fexp := (fexp prec emax).
Abbreviation step := (step prec).
Abbreviation round_units := (round_units prec).
Abbreviation top := (top prec emax).

(** Finite numbers in their unique representation. *)
Definition fin (x : spec_float) : bool :=
  match x with
  | S754_zero _ => true
  | S754_finite _ m e => bounded prec emax m e
  | _ => false
  end.

Definition sunits (x : spec_float) : Z :=
  match x with
  | S754_finite s m e => cond_Zopp s (Zpos m * 2 ^ (e - emin))
  | _ => 0
  end.

(** A signed number of units, rounded. *)
Definition sround (v : Z) : Z := Z.sgn v * round_units (Z.abs v).

Lemma emin_low : emin < 0 /\ emin < emax - prec.
Proof. unfold SpecFloat.emin. lia. Qed.

Lemma fin_num x : fin x = true -> 0 <= sunits x -> exists y, num prec emax y = true /\
  units prec emax y = sunits x /\ (forall z, SFcompare x z = SFcompare y z) /\
  (forall z, SFcompare z x = SFcompare z y).
Proof.
  destruct x as [s|s| |[] m e]; cbn [fin sunits]; intros Hx Hu; try done.
  - exists (S754_zero s). split; [done|]. split; done.
  - exfalso. cbn [cond_Zopp] in Hu. destruct (bounded_mantissa _ _ Hprec Hemax _ _ Hx) as ([? ?] & _ & _).
    assert (0 < 2 ^ (e - emin)) by (apply Z.pow_pos_nonneg; lia). lia.
  - exists (S754_finite false m e). split; [done|]. split; done.
Qed.

(** ** Rounding signed numbers *)

Lemma round_units_pos v : 0 < v -> 0 <= round_units v.
Proof.
  intros Hv. unfold FloatOrder.round_units.
  destruct (rounded_mantissa prec Hprec v Hv) as [? _].
  pose proof (step_nonneg prec v). apply Z.mul_nonneg_nonneg; [lia|]. apply Z.pow_nonneg. lia.
Qed.

Lemma round_units_0 : round_units 0 = 0.
Proof.
  unfold FloatOrder.round_units, FloatOrder.step. cbn [Zdigits2]. by rewrite Z.max_r by lia.
Qed.

Lemma sround_opp v : sround (- v) = - sround v.
Proof. unfold sround. rewrite Z.sgn_opp, Z.abs_opp. lia. Qed.

Lemma sround_nonneg v : 0 <= v -> sround v = round_units v /\ 0 <= sround v.
Proof.
  intros Hv. destruct (decide (v = 0)) as [->|].
  - by rewrite round_units_0.
  - unfold sround. rewrite Z.sgn_pos, Z.abs_eq by lia. pose proof (round_units_pos v ltac:(lia)). lia.
Qed.

Lemma sround_mono a b : a <= b -> sround a <= sround b.
Proof.
  assert (forall a b, 0 <= a -> a <= b -> sround a <= sround b) as Hpos.
  { clear a b. intros a b Ha Hab. destruct (sround_nonneg a Ha) as [Ea _].
    destruct (sround_nonneg b ltac:(lia)) as [Eb Hb].
    destruct (decide (a = 0)) as [->|]; [by rewrite Ea, round_units_0|].
    rewrite Ea, Eb. by apply round_units_mono; try done; lia. }
  intros Hab. destruct (Z.le_gt_cases 0 a); [by apply Hpos|].
  destruct (Z.le_gt_cases 0 b) as [Hb|Hb].
  - destruct (sround_nonneg b Hb) as [_ ?]. destruct (sround_nonneg (- a) ltac:(lia)) as [_ Ha].
    rewrite sround_opp in Ha. lia.
  - pose proof (Hpos (- b) (- a) ltac:(lia) ltac:(lia)) as H'. rewrite !sround_opp in H'. lia.
Qed.

(** ** Signs *)

Lemma opp_fin x : fin (SFopp x) = fin x /\ sunits (SFopp x) = - sunits x.
Proof. destruct x as [| | |[] m e]; cbn; (split; [done|lia]). Qed.

Lemma round_opp m e : binary_round prec emax true m e = SFopp (binary_round prec emax false m e).
Proof.
  unfold binary_round. destruct (shl_align m e _) as [mz ez].
  unfold binary_round_aux. destruct (shr_fexp _ _ (Zpos mz) ez loc_Exact) as [mrs e1].
  destruct (shr_fexp _ _ _ e1 loc_Exact) as [[m2 r s] e2]. cbn [shr_m].
  destruct m2; try done. by destruct (e2 <=? _).
Qed.

Lemma aux_opp m e l : binary_round_aux prec emax true m e l = SFopp (binary_round_aux prec emax false m e l).
Proof.
  unfold binary_round_aux. destruct (shr_fexp _ _ m e l) as [mrs e1].
  destruct (shr_fexp _ _ _ e1 loc_Exact) as [[m2 r s] e2]. cbn [shr_m].
  destruct m2; try done. by destruct (e2 <=? _).
Qed.

Lemma mul_opp x y : SFmul prec emax (SFopp x) y = SFopp (SFmul prec emax x y).
Proof.
  destruct x as [[]|[]| |[] m e], y as [[]|[]| |[] m' e']; try done;
    cbn [SFopp SFmul negb xorb]; rewrite ?aux_opp; by destruct (binary_round_aux _ _ _ _ _ _) as [[]|[]| |[]].
Qed.

Lemma sub_add x y : SFsub prec emax x y = SFadd prec emax x (SFopp y).
Proof.
  destruct x as [[]|[]| |[] m e], y as [[]|[]| |[] m' e']; try done;
    cbn [SFopp SFsub SFadd negb cond_Zopp]; f_equal; lia.
Qed.

(** ** Sums *)

Lemma normalize_spec z e : emin <= e -> round_units (Z.abs z * 2 ^ (e - emin)) < top ->
  fin (binary_normalize prec emax z e false) = true /\
  sunits (binary_normalize prec emax z e false) = sround (z * 2 ^ (e - emin)).
Proof.
  intros He Ht. pose proof (Z.pow_pos_nonneg 2 (e - emin) ltac:(lia) ltac:(lia)).
  assert (forall x v, num prec emax x = true -> units prec emax x = Z.min top v -> v < top ->
            fin x = true /\ sunits x = v) as Hx.
  { intros x v Hn Hu Hv. rewrite Z.min_r in Hu by lia.
    destruct x as [|[]| |[] m' e']; try done; cbn [units fin sunits cond_Zopp] in *; try lia; try done. }
  destruct z as [|m|m]; cbn [binary_normalize].
  - by rewrite Z.mul_0_l.
  - destruct (binary_round_units prec emax Hprec Hemax m e He) as [Hn Hu].
    destruct (sround_nonneg (Zpos m * 2 ^ (e - emin)) ltac:(lia)) as [-> _]. by apply Hx.
  - rewrite round_opp. destruct (binary_round_units prec emax Hprec Hemax m e He) as [Hn Hu].
    destruct (Hx _ _ Hn Hu Ht) as [Hf Hs]. destruct (opp_fin (binary_round prec emax false m e)) as [-> ->].
    split; [done|]. rewrite Hs. change (Zneg m) with (- Zpos m).
    rewrite Z.mul_opp_l, sround_opp. f_equal.
    by destruct (sround_nonneg (Zpos m * 2 ^ (e - emin)) ltac:(lia)) as [-> _].
Qed.

Lemma sround_fin x : fin x = true -> sround (sunits x) = sunits x.
Proof.
  destruct x as [| | |s m e]; cbn [fin sunits]; intros Hx; try done.
  destruct (bounded_mantissa _ _ Hprec Hemax _ _ Hx) as ([? ?] & _ & _).
  assert (0 < 2 ^ (e - emin)) by (apply Z.pow_pos_nonneg; lia).
  pose proof (round_units_finite prec emax Hprec Hemax m e Hx) as Hr.
  destruct (sround_nonneg (Zpos m * 2 ^ (e - emin)) ltac:(lia)) as [Hs _].
  destruct s; cbn [cond_Zopp]; rewrite ?sround_opp; lia.
Qed.

Lemma add_spec x y : fin x = true -> fin y = true -> round_units (Z.abs (sunits x + sunits y)) < top ->
  fin (SFadd prec emax x y) = true /\ sunits (SFadd prec emax x y) = sround (sunits x + sunits y).
Proof.
  intros Hx Hy Ht. pose proof (sround_fin x Hx) as Rx. pose proof (sround_fin y Hy) as Ry.
  destruct x as [s|s| |s m e], y as [s'|s'| |s' m' e']; try done; cbn [SFadd].
  - by destruct s, s'.
  - split; [done|]. cbn [sunits] in *. by rewrite Z.add_0_r.
  - cbn [fin sunits] in *.
    destruct (bounded_mantissa _ _ Hprec Hemax _ _ Hx) as ([? ?] & _ & _).
    destruct (bounded_mantissa _ _ Hprec Hemax _ _ Hy) as ([? ?] & _ & _).
    destruct (shl_align_spec m e (Z.min e e')) as (mz & ez & -> & Hez & Hmz).
    destruct (shl_align_spec m' e' (Z.min e e')) as (mz' & ez' & -> & Hez' & Hmz').
    replace ez with (Z.min e e') in * by lia. replace ez' with (Z.min e e') in * by lia.
    cbn [fst]. set (k := Z.min e e') in *.
    assert (cond_Zopp s (Zpos m * 2 ^ (e - emin)) + cond_Zopp s' (Zpos m' * 2 ^ (e' - emin)) =
            (cond_Zopp s (Zpos mz) + cond_Zopp s' (Zpos mz')) * 2 ^ (k - emin)) as Hv.
    { assert (Zpos m * 2 ^ (e - emin) = Zpos mz * 2 ^ (k - emin)) as ->.
      { rewrite Hmz, <- Z.mul_assoc, <- Z.pow_add_r by lia. do 2 f_equal. lia. }
      assert (Zpos m' * 2 ^ (e' - emin) = Zpos mz' * 2 ^ (k - emin)) as ->.
      { rewrite Hmz', <- Z.mul_assoc, <- Z.pow_add_r by lia. do 2 f_equal. lia. }
      destruct s, s'; cbn [cond_Zopp]; ring. }
    rewrite Hv in *. apply normalize_spec; [lia|].
    rewrite Z.abs_mul, (Z.abs_eq (2 ^ _)) in Ht by (apply Z.pow_nonneg; lia). done.
Qed.

(** A sum stays between the rounded bounds of the exact one. *)
Lemma add_between x y lo hi : fin x = true -> fin y = true ->
  - top < sround lo -> sround hi < top -> lo <= sunits x + sunits y <= hi ->
  fin (SFadd prec emax x y) = true /\ sround lo <= sunits (SFadd prec emax x y) <= sround hi.
Proof.
  intros Hx Hy Htl Hth Hb.
  pose proof (sround_mono _ _ (proj1 Hb)) as H1. pose proof (sround_mono _ _ (proj2 Hb)) as H2.
  assert (round_units (Z.abs (sunits x + sunits y)) < top) as Ht.
  { destruct (sround_nonneg (Z.abs (sunits x + sunits y)) ltac:(lia)) as [<- _].
    destruct (Z.abs_spec (sunits x + sunits y)) as [[_ ->]|[_ ->]]; rewrite ?sround_opp; lia. }
  destruct (add_spec x y Hx Hy Ht) as [? ->]. auto.
Qed.

(** ** Comparisons *)

Lemma compare_sunits x y : fin x = true -> fin y = true ->
  SFcompare x y = Some (Z.compare (sunits x) (sunits y)).
Proof.
  intros Hx Hy.
  assert (forall m e, bounded prec emax m e = true -> 0 < Zpos m * 2 ^ (e - emin)) as Hpos.
  { intros m e Hb. destruct (bounded_mantissa _ _ Hprec Hemax _ _ Hb) as ([? ?] & _ & _).
    assert (0 < 2 ^ (e - emin)) by (apply Z.pow_pos_nonneg; lia). lia. }
  destruct x as [s|s| |[] m e], y as [s'|s'| |[] m' e']; try done; cbn [fin sunits cond_Zopp] in *;
    repeat match goal with H : bounded _ _ ?m ?e = true |- _ =>
      lazymatch goal with _ : 0 < Zpos m * 2 ^ (e - emin) |- _ => fail
      | _ => pose proof (Hpos m e H) end end.
  - cbn [SFcompare]. f_equal. symmetry. apply Z.compare_gt_iff. lia.
  - cbn [SFcompare]. f_equal. symmetry. apply Z.compare_lt_iff. lia.
  - cbn [SFcompare]. f_equal. symmetry. apply Z.compare_lt_iff. lia.
  - pose proof (compare_units prec emax Hprec Hemax (S754_finite false m' e') (S754_finite false m e) Hy Hx) as Hc.
    cbn [units] in Hc. rewrite Z.compare_opp. rewrite <- Hc. cbn [SFcompare].
    rewrite (Z.compare_antisym e' e). destruct (e' ?= e); cbn [CompOpp]; try done.
    change (Pos.compare_cont Eq m m') with (Pos.compare m m').
    change (Pos.compare_cont Eq m' m) with (Pos.compare m' m). rewrite (Pos.compare_antisym m m'); done.
  - cbn [SFcompare]. f_equal. symmetry. apply Z.compare_lt_iff. lia.
  - cbn [SFcompare]. f_equal. symmetry. apply Z.compare_gt_iff. lia.
  - cbn [SFcompare]. f_equal. symmetry. apply Z.compare_gt_iff. lia.
  - by apply (compare_units prec emax Hprec Hemax (S754_finite false m e) (S754_finite false m' e')).
Qed.

Lemma ltb_sunits x y : fin x = true -> fin y = true -> SFltb x y = (sunits x <? sunits y).
Proof.
  intros Hx Hy. unfold SFltb. rewrite compare_sunits by done. unfold Z.ltb.
  by destruct (Z.compare (sunits x) (sunits y)).
Qed.

Lemma leb_sunits x y : fin x = true -> fin y = true -> SFleb x y = (sunits x <=? sunits y).
Proof.
  intros Hx Hy. unfold SFleb. rewrite compare_sunits by done. unfold Z.leb.
  by destruct (Z.compare (sunits x) (sunits y)).
Qed.

(** ** Powers of two as bounds

    [between x k]: not negative and at most [2^k]. *)
Definition between (x : spec_float) (k : Z) : Prop := fin x = true /\ 0 <= sunits x <= 2 ^ (k - emin).

Lemma shr_mantissa mrs n : 0 <= shr_m mrs ->
  shr_m (iter_pos shr_1 n mrs) = shr_m mrs / 2 ^ Zpos n.
Proof.
  assert (forall mrs, 0 <= shr_m mrs -> shr_m (shr_1 mrs) = shr_m mrs / 2) as H1.
  { intros [m r s] Hm. by rewrite shr_1_spec. }
  revert mrs. induction n as [n IH|n IH|]; intros mrs Hm; cbn [iter_pos].
  - assert (0 <= shr_m (shr_1 mrs)) by (rewrite H1 by done; apply Z.div_pos; lia).
    rewrite !IH by (try done; rewrite IH by done; apply Z.div_pos; lia).
    rewrite H1, !Z.div_div by lia. f_equal.
    replace (Zpos n~1) with (1 + Zpos n + Zpos n) by lia. rewrite !Z.pow_add_r by lia. lia.
  - rewrite !IH by (try done; rewrite IH by done; apply Z.div_pos; lia).
    rewrite !Z.div_div by lia. f_equal.
    replace (Zpos n~0) with (Zpos n + Zpos n) by lia. by rewrite Z.pow_add_r by lia.
  - by apply H1.
Qed.

Lemma shr_start_loc m e l n : 0 <= n -> 0 <= m -> exists mrs,
  shr (shr_record_of_loc m l) e n = (mrs, e + n) /\ shr_m mrs = m / 2 ^ n /\
  (l = loc_Exact -> holds mrs m n).
Proof.
  intros Hn Hm. assert (shr_m (shr_record_of_loc m l) = m) as Hs by by destruct l as [|[]].
  destruct n as [|n|n]; [| |lia].
  - eexists. rewrite Z.add_0_r. split; [done|]. rewrite Hs, Z.div_1_r. split; [done|].
    intros ->. by apply holds_start.
  - eexists. split; [done|]. split; [rewrite shr_mantissa; rewrite Hs; done|].
    intros ->. apply (holds_iter n _ _ 0); [done..|]. by apply holds_start.
Qed.

Lemma round_near q l : q <= round_nearest_even q l <= q + 1.
Proof. destruct l as [|[]]; cbn; try lia. destruct (Z.even q); lia. Qed.

(** The second shift leaves a finite number when the mantissa is small enough. *)
Lemma renormalize_le r e k : emin <= e -> 0 <= r <= 2 ^ prec -> (e = emin \/ 2 ^ (prec - 1) <= r) ->
  e <= k -> k < emax -> r <= 2 ^ (k - e) ->
  let x := let '(mrs, e') := shr_fexp prec emax r e loc_Exact in
    match shr_m mrs with
    | Z0 => S754_zero false
    | Zpos m => if Z.leb e' (emax - prec) then S754_finite false m e' else S754_infinity false
    | _ => S754_nan
    end in between x k.
Proof.
  intros He Hr Hlow Hk Hmax Hle. unfold between. assert (0 < 2 ^ (k - emin)) by (apply Z.pow_pos_nonneg; lia).
  destruct (decide (r = 0)) as [->|Hnz].
  - unfold shr_fexp. cbn [Zdigits2 shr_record_of_loc]. unfold SpecFloat.fexp.
    destruct (Z.max (0 + e - prec) emin - e) as [|n|n] eqn:Hn; [| lia |]; cbn; lia.
  - destruct (shr_renormalize prec emax Hprec r e He ltac:(lia) Hlow) as (m & e' & -> & He' & Hv & Hm & Hl).
    cbn [shr_m].
    assert (Zpos m * 2 ^ (e' - emin) <= 2 ^ (k - emin)) as Hu.
    { rewrite Hv. replace (k - emin) with (k - e + (e - emin)) by lia. rewrite Z.pow_add_r by lia.
      apply Z.mul_le_mono_nonneg_r; [apply Z.pow_nonneg; lia|done]. }
    assert (0 < 2 ^ (e' - emin)) by (apply Z.pow_pos_nonneg; lia).
    assert (e' <= emax - prec) as Hle'.
    { destruct Hl as [->|Hl]; [pose proof emin_low; lia|].
      destruct (Z.le_gt_cases e' (emax - prec)); [done|]. exfalso.
      assert (2 ^ (k - emin) < 2 ^ (prec - 1) * 2 ^ (e' - emin)); [|nia].
      rewrite <- Z.pow_add_r by lia. apply Z.pow_lt_mono_r; lia. }
    rewrite (proj2 (Z.leb_le _ _)) by done. cbn [fin sunits cond_Zopp].
    split; [by apply mantissa_bounded|]. lia.
Qed.

(** Rounding a mantissa of enough digits, or small enough exponent. *)
Lemma aux_le m e l k : 0 < m -> emin <= k < emax -> (prec <= Zdigits2 m \/ e <= emin) -> e <= k ->
  (m < 2 ^ (k - e) \/ (m = 2 ^ (k - e) /\ l = loc_Exact)) ->
  between (binary_round_aux prec emax false m e l) k.
Proof.
  intros Hm Hk Hd Hek Hle. pose proof (Zdigits_spec m Hm) as Hdig.
  set (d := Zdigits2 m) in *. set (E := fexp (d + e)).
  assert (E = Z.max (d + e - prec) emin) as HE by done.
  assert (d <= k - e + 1 /\ (m < 2 ^ (k - e) -> d <= k - e)) as [Hd1 Hd2].
  { split; [|intros Hlt]; apply Z.le_ngt; intros Hgt.
    - assert (2 ^ (k - e) < 2 ^ (d - 1)) by (apply Z.pow_lt_mono_r; lia). lia.
    - assert (2 ^ (k - e) <= 2 ^ (d - 1)) by (apply Z.pow_le_mono_r; lia). lia. }
  unfold binary_round_aux, shr_fexp at 1. fold d. fold E.
  destruct (shr_start_loc m e l (E - e) ltac:(lia) ltac:(lia)) as (mrs & -> & Hq & Hex). cbv beta iota.
  replace (e + (E - e)) with E by lia.
  set (r := round_nearest_even (shr_m mrs) (loc_of_shr_record mrs)).
  pose proof (round_near (shr_m mrs) (loc_of_shr_record mrs)) as Hr. fold r in Hr. rewrite Hq in Hr.
  assert (0 < 2 ^ (E - e)) by (apply Z.pow_pos_nonneg; lia).
  assert (0 <= m / 2 ^ (E - e)) by (apply Z.div_pos; lia).
  assert (m / 2 ^ (E - e) < 2 ^ prec) as Hq1.
  { apply Z.div_lt_upper_bound; [done|]. rewrite <- Z.pow_add_r by lia.
    assert (2 ^ d <= 2 ^ (E - e + prec)) by (apply Z.pow_le_mono_r; lia). lia. }
  assert (E <= k) as HEk by lia.
  assert (r <= 2 ^ (k - E)) as Hrk.
  { destruct Hle as [Hlt|[Heq Hl]].
    - assert (m / 2 ^ (E - e) < 2 ^ (k - E)); [|lia]. apply Z.div_lt_upper_bound; [done|].
      rewrite <- Z.pow_add_r by lia. by replace (E - e + (k - E)) with (k - e) by lia.
    - unfold r. rewrite (holds_round mrs m (E - e)) by (try lia; auto). rewrite Heq.
      replace (k - e) with (k - E + (E - e)) by lia. rewrite Z.pow_add_r by lia.
      rewrite rne_multiple by lia. done. }
  apply renormalize_le; try lia.
  destruct (decide (E = emin)) as [|HEn]; [by left|right].
  assert (2 ^ (prec - 1) <= m / 2 ^ (E - e)); [|lia].
  apply Z.div_le_lower_bound; [done|]. rewrite <- Z.pow_add_r by lia.
  replace (E - e + (prec - 1)) with (d - 1) by lia. lia.
Qed.

(** A mantissa of zero, with what was lost below it. *)
Lemma aux_zero e l k : e <= emin -> emin <= k < emax ->
  between (binary_round_aux prec emax false 0 e l) k.
Proof.
  intros He Hk. unfold binary_round_aux, shr_fexp at 1. cbn [Zdigits2]. set (E := fexp (0 + e)).
  assert (E = emin) as HE by (unfold E, SpecFloat.fexp; lia).
  destruct (shr_start_loc 0 e l (E - e) ltac:(lia) ltac:(lia)) as (mrs & -> & Hq & _). cbv beta iota.
  replace (e + (E - e)) with E by lia. rewrite Z.div_0_l in Hq by (apply Z.pow_nonzero; lia).
  pose proof (round_near (shr_m mrs) (loc_of_shr_record mrs)) as Hr. rewrite Hq in Hr.
  rewrite Hq. assert (1 <= 2 ^ prec /\ 1 <= 2 ^ (k - E)) as [? ?].
  { split; apply (Z.pow_le_mono_r 2 0); lia. }
  apply renormalize_le; try lia.
Qed.

Lemma fin_mantissa s m e : bounded prec emax m e = true ->
  emin <= e <= emax - prec /\ 0 < 2 ^ (e - emin) /\ Zdigits2 (Zpos m) <= prec /\
  (e = emin \/ Zdigits2 (Zpos m) = prec) /\
  (0 <= sunits (S754_finite s m e) -> s = false).
Proof.
  intros Hb. destruct (bounded_mantissa prec emax Hprec Hemax m e Hb) as (He & Hm & Hl).
  assert (0 < 2 ^ (e - emin)) by (apply Z.pow_pos_nonneg; lia).
  pose proof (Zdigits_spec (Zpos m) ltac:(lia)) as Hd.
  assert (Zdigits2 (Zpos m) <= prec) as Hdp.
  { apply Z.le_ngt. intros Hgt.
    assert (2 ^ prec <= 2 ^ (Zdigits2 (Zpos m) - 1)) by (apply Z.pow_le_mono_r; lia). lia. }
  split; [done|]. split; [done|]. split; [done|]. split.
  - destruct Hl as [|Hl]; [by left|right]. apply Z.le_antisymm; [done|]. apply Z.le_ngt. intros Hlt.
    assert (2 ^ Zdigits2 (Zpos m) <= 2 ^ (prec - 1)) by (apply Z.pow_le_mono_r; lia). lia.
  - intros Hs. destruct s; [|done]. cbn [sunits cond_Zopp] in Hs. nia.
Qed.

(** A bound as a bound of the mantissa. *)
Lemma between_mantissa s m e k : between (S754_finite s m e) k -> emin <= k ->
  s = false /\ e <= k /\ Zpos m <= 2 ^ (k - e).
Proof.
  intros [Hb [Hs Hu]] Hk. cbn [fin] in Hb. destruct (fin_mantissa s m e Hb) as (He & Hp & _ & _ & Hsign).
  rewrite (Hsign Hs) in *. split; [done|]. cbn [sunits cond_Zopp] in Hu.
  assert (e <= k) as Hek.
  { apply Z.le_ngt. intros Hgt. assert (2 ^ (k - emin) < 2 ^ (e - emin)) by (apply Z.pow_lt_mono_r; lia). nia. }
  split; [done|]. apply (Z.mul_le_mono_pos_r _ _ (2 ^ (e - emin))); [done|].
  rewrite <- Z.pow_add_r by lia. by replace (k - e + (e - emin)) with (k - emin) by lia.
Qed.

Lemma between_zero s k : between (S754_zero s) k.
Proof. split; [done|]. cbn [sunits]. split; [done|]. by apply Z.pow_nonneg. Qed.

Lemma digits_mul p q : Zdigits2 (Zpos p) <= Zdigits2 (Zpos (p * q)).
Proof.
  assert (Zpos p <= Zpos (p * q)) by (rewrite Pos2Z.inj_mul; nia). apply Z.le_ngt. intros Hlt.
  pose proof (Zdigits_spec (Zpos p) ltac:(lia)). pose proof (Zdigits_spec (Zpos (p * q)) ltac:(lia)).
  assert (2 ^ Zdigits2 (Zpos (p * q)) <= 2 ^ (Zdigits2 (Zpos p) - 1)) by (apply Z.pow_le_mono_r; lia). lia.
Qed.

Lemma mul_le x y a b : between x a -> between y b -> emin <= a -> emin <= b ->
  emin <= a + b < emax -> between (SFmul prec emax x y) (a + b).
Proof.
  intros Hx Hy Ha Hb Hab. pose proof (proj1 Hx) as Fx. pose proof (proj1 Hy) as Fy.
  destruct x as [s|s| |s m e], y as [s'|s'| |s' m' e']; try done; try apply between_zero.
  destruct (between_mantissa _ _ _ _ Hx Ha) as (-> & Hea & Hma).
  destruct (between_mantissa _ _ _ _ Hy Hb) as (-> & Heb & Hmb).
  cbn [fin] in Fx, Fy. destruct (fin_mantissa false m e Fx) as (He & _ & Hd & Hde & _).
  destruct (fin_mantissa false m' e' Fy) as (He' & _ & Hd' & Hde' & _).
  pose proof emin_low. cbn [SFmul xorb]. apply aux_le; try lia.
  - pose proof (digits_mul m m'). pose proof (digits_mul m' m) as H2. rewrite Pos.mul_comm in H2.
    destruct Hde as [|]; [|left; lia]. destruct Hde' as [|]; [|left; lia]. right. lia.
  - assert (Zpos (m * m') <= 2 ^ (a + b - (e + e'))) as Hle.
    { rewrite Pos2Z.inj_mul. replace (a + b - (e + e')) with (a - e + (b - e')) by lia.
      rewrite Z.pow_add_r by lia. apply Z.mul_le_mono_nonneg; lia. }
    destruct (Z.le_lteq (Zpos (m * m')) (2 ^ (a + b - (e + e')))) as [[?|?] _]; auto.
Qed.

(** Not negative, and at most [v] units. *)
Definition at_most (x : spec_float) (v : Z) : Prop := fin x = true /\ 0 <= sunits x <= v.

(** Rounding stays below a number of the format: an exact value of at most [my * 2^ey] does not
    exceed it when it is rounded. *)
Lemma aux_below m e my ey : 0 < m -> bounded prec emax my ey = true -> e <= ey -> m <= Zpos my * 2 ^ (ey - e) ->
  (prec <= Zdigits2 m \/ e <= emin) ->
  at_most (binary_round_aux prec emax false m e loc_Exact) (Zpos my * 2 ^ (ey - emin)).
Proof.
  intros Hm Hy Hey Hle Hd. destruct (bounded_mantissa prec emax Hprec Hemax my ey Hy) as (He & Hmy & _).
  pose proof (Zdigits_spec m Hm) as Hdig. set (d := Zdigits2 m) in *. set (F := fexp (d + e)).
  assert (F = Z.max (d + e - prec) emin) as HF by done.
  assert (d + e <= prec + ey) as Hde.
  { apply Z.le_ngt. intros Hgt.
    assert (2 ^ prec * 2 ^ (ey - e) <= 2 ^ (d - 1)) by (rewrite <- Z.pow_add_r by lia; apply Z.pow_le_mono_r; lia).
    assert (Zpos my * 2 ^ (ey - e) < 2 ^ prec * 2 ^ (ey - e)) by (apply Z.mul_lt_mono_pos_r; [apply Z.pow_pos_nonneg; lia|done]).
    lia. }
  assert (e <= F <= ey) as HFy by lia.
  unfold binary_round_aux, shr_fexp at 1. fold d. fold F.
  destruct (shr_start_loc m e loc_Exact (F - e) ltac:(lia) ltac:(lia)) as (mrs & -> & Hq & Hex). cbv beta iota zeta.
  replace (e + (F - e)) with F by lia.
  rewrite (holds_round mrs m (F - e)) by (try lia; auto). set (r := rne m (F - e)).
  assert (0 < 2 ^ (F - e)) as Hp1 by (apply Z.pow_pos_nonneg; lia).
  assert (0 < 2 ^ (ey - F)) as Hp2 by (apply Z.pow_pos_nonneg; lia).
  assert (0 <= r) as Hr0.
  { pose proof (rne_mono 0 m (F - e) ltac:(lia) ltac:(lia)) as H0.
    pose proof (rne_multiple 0 (F - e) ltac:(lia)) as Z0. rewrite Z.mul_0_l in Z0. unfold r. lia. }
  assert (r <= Zpos my * 2 ^ (ey - F)) as Hry.
  { unfold r. rewrite <- (rne_multiple (Zpos my * 2 ^ (ey - F)) (F - e)) by lia. apply rne_mono; [lia|].
    rewrite <- Z.mul_assoc, <- Z.pow_add_r by lia. by replace (ey - F + (F - e)) with (ey - e) by lia. }
  assert (m < 2 ^ prec * 2 ^ (F - e)) as Hmp.
  { rewrite <- Z.pow_add_r by lia. assert (2 ^ d <= 2 ^ (prec + (F - e))) by (apply Z.pow_le_mono_r; lia). lia. }
  assert (r <= 2 ^ prec) as Hrp.
  { unfold r. rewrite <- (rne_multiple (2 ^ prec) (F - e)) by lia. apply rne_mono; lia. }
  assert (F = emin \/ 2 ^ (prec - 1) <= r) as Hlow.
  { destruct (decide (F = emin)) as [|HFn]; [by left|right]. unfold r.
    rewrite <- (rne_multiple (2 ^ (prec - 1)) (F - e)) by lia. apply rne_mono; [lia|].
    rewrite <- Z.pow_add_r by lia. replace (prec - 1 + (F - e)) with (d - 1) by lia. lia. }
  assert (r * 2 ^ (F - emin) <= Zpos my * 2 ^ (ey - emin)) as Hval.
  { replace (ey - emin) with (ey - F + (F - emin)) by lia. rewrite Z.pow_add_r, Z.mul_assoc by lia.
    apply Z.mul_le_mono_nonneg_r; [apply Z.pow_nonneg; lia|done]. }
  clearbody r. unfold at_most. destruct (decide (r = 0)) as [->|Hnz].
  - assert (0 < 2 ^ (prec - 1)) by (apply Z.pow_pos_nonneg; lia). assert (F = emin) as HFe by (destruct Hlow; [done|lia]).
    unfold shr_fexp. cbn [Zdigits2 shr_record_of_loc]. unfold SpecFloat.fexp.
    replace (Z.max (0 + F - prec) emin - F) with 0 by lia. rewrite Z.mul_0_l in Hval. cbn. lia.
  - destruct (shr_renormalize prec emax Hprec r F ltac:(lia) ltac:(lia) Hlow) as (m' & e' & -> & He' & Hv & Hm' & Hl').
    cbn [shr_m]. assert (0 < 2 ^ (e' - emin)) by (apply Z.pow_pos_nonneg; lia).
    assert (e' <= emax - prec) as Hle'.
    { destruct Hl' as [->|Hl']; [pose proof emin_low; lia|]. apply Z.le_ngt. intros Hgt.
      assert (2 ^ prec * 2 ^ (ey - emin) <= 2 ^ (prec - 1) * 2 ^ (e' - emin))
        by (rewrite <- !Z.pow_add_r by lia; apply Z.pow_le_mono_r; lia).
      assert (Zpos my * 2 ^ (ey - emin) < 2 ^ prec * 2 ^ (ey - emin))
        by (apply Z.mul_lt_mono_pos_r; [apply Z.pow_pos_nonneg; lia|done]).
      assert (2 ^ (prec - 1) * 2 ^ (e' - emin) <= Zpos m' * 2 ^ (e' - emin)) by (apply Z.mul_le_mono_nonneg_r; lia). lia. }
    rewrite (proj2 (Z.leb_le _ _)) by done. cbn [fin sunits cond_Zopp].
    split; [by apply mantissa_bounded|]. rewrite Hv. split; [|done].
    apply Z.mul_nonneg_nonneg; [lia|apply Z.pow_nonneg; lia].
Qed.

(** A factor between zero and one makes a number that is not negative no larger. *)
Lemma mul_shrinks x y : between x 0 -> fin y = true -> 0 <= sunits y ->
  at_most (SFmul prec emax x y) (sunits y).
Proof.
  intros Hx Fy Hy. pose proof (proj1 Hx) as Fx. pose proof emin_low as Hem.
  destruct x as [s|s| |s m e], y as [s'|s'| |s' m' e']; try done.
  destruct (between_mantissa _ _ _ _ Hx ltac:(lia)) as (-> & He0 & Hm0). cbn [fin] in Fx, Fy.
  destruct (fin_mantissa false m e Fx) as (He & _ & Hd & Hde & _).
  destruct (fin_mantissa s' m' e' Fy) as (He' & _ & Hd' & Hde' & Hs'). rewrite (Hs' Hy) in *.
  cbn [SFmul xorb sunits cond_Zopp].
  apply (aux_below (Zpos (m * m')) (e + e') m' e'); [lia|done|lia| |].
  - rewrite Pos2Z.inj_mul, Z.mul_comm. apply Z.mul_le_mono_nonneg_l; [lia|].
    by replace (e' - (e + e')) with (0 - e) by lia.
  - pose proof (digits_mul m m'). pose proof (digits_mul m' m) as H2. rewrite Pos.mul_comm in H2.
    destruct Hde as [|]; [|left; lia]. destruct Hde' as [|]; [|left; lia]. right. lia.
Qed.

(** The quotient of a number by one of more than its [2^k]-th part. *)
Lemma div_between x y k : fin x = true -> fin y = true -> 0 <= k < emax -> 0 <= sunits x < 2 ^ k * sunits y ->
  prec < emax - 2 -> between (SFdiv prec emax x y) k.
Proof.
  intros Fx Fy Hk Hlt Hpe. assert (0 < 2 ^ k) as Hk2 by (apply Z.pow_pos_nonneg; lia). pose proof emin_low as Hem.
  destruct y as [s'|s'| |s' m' e']; try done; [cbn [sunits] in Hlt; lia|].
  destruct x as [s|s| |s m e]; try done; [apply between_zero|].
  cbn [fin] in Fx, Fy. destruct (fin_mantissa s m e Fx) as (He & Hp & Hd & _ & Hs).
  destruct (fin_mantissa s' m' e' Fy) as (He' & Hp' & Hd' & _ & Hs').
  assert (s = false) as -> by (apply Hs; lia). assert (s' = false) as -> by (apply Hs'; nia).
  cbn [sunits cond_Zopp] in Hlt. clear Hs Hs'.
  pose proof (Zdigits_spec (Zpos m) ltac:(lia)) as Dm. pose proof (Zdigits_spec (Zpos m') ltac:(lia)) as Dm'.
  set (d := Zdigits2 (Zpos m)) in *. set (d' := Zdigits2 (Zpos m')) in *.
  assert (1 <= d /\ 1 <= d') as [H1 H1'].
  { split; apply Z.le_ngt; intros ?;
      [assert (2 ^ d <= 2 ^ 0) by (apply Z.pow_le_mono_r; lia)|
       assert (2 ^ d' <= 2 ^ 0) by (apply Z.pow_le_mono_r; lia)]; lia. }
  assert (d + e <= d' + e' + k) as Hde.
  { apply Z.le_ngt. intros Hgt.
    assert (2 ^ k * (2 ^ d' * 2 ^ (e' - emin)) <= 2 ^ (d - 1) * 2 ^ (e - emin)) as Hpow
      by (rewrite <- !Z.pow_add_r by lia; apply Z.pow_le_mono_r; lia).
    assert (Zpos m' * 2 ^ (e' - emin) <= 2 ^ d' * 2 ^ (e' - emin)) by (apply Z.mul_le_mono_nonneg_r; lia).
    assert (2 ^ (d - 1) * 2 ^ (e - emin) <= Zpos m * 2 ^ (e - emin)) by (apply Z.mul_le_mono_nonneg_r; lia).
    nia. }
  cbn [SFdiv xorb]. unfold SFdiv_core_binary. fold d. fold d'.
  set (f := fexp (d + e - (d' + e'))). assert (f = Z.max (d + e - (d' + e') - prec) emin) as Hf by done.
  set (E := Z.min f (e - e')). set (s0 := e - e' - E).
  assert (emin <= 0) by lia. assert (0 <= s0) as Hs0 by (unfold s0, E; lia).
  assert (match s0 with Z0 => Zpos m | Zpos _ => Z.shiftl (Zpos m) s0 | Zneg _ => 0 end = Zpos m * 2 ^ s0) as ->.
  { destruct s0 as [|p|p]; [lia| |lia]. by rewrite Z.shiftl_mul_pow2. }
  rewrite (surjective_pairing (Z.div_eucl _ _)).
  change (fst (Z.div_eucl (Zpos m * 2 ^ s0) (Zpos m'))) with (Zpos m * 2 ^ s0 / Zpos m').
  set (q := Zpos m * 2 ^ s0 / Zpos m').
  assert (E <= k) as HE by (unfold E; lia).
  assert (q < 2 ^ (k - E)) as Hq.
  { apply Z.div_lt_upper_bound; [lia|]. unfold s0.
    apply (Z.mul_lt_mono_pos_r (2 ^ (e' - emin))); [done|].
    assert (2 ^ k * (Zpos m * 2 ^ (e - e' - E) * 2 ^ (e' - emin)) = Zpos m * 2 ^ (e - emin) * 2 ^ (k - E)) as Hsc.
    { rewrite Z.mul_comm, <- !Z.mul_assoc, <- !Z.pow_add_r by (unfold s0 in *; lia). do 2 f_equal. lia. }
    assert (0 < 2 ^ (k - E)) by (apply Z.pow_pos_nonneg; lia). apply (Z.mul_lt_mono_pos_l (2 ^ k)); [done|]. rewrite Hsc.
    replace (2 ^ k * (Zpos m' * 2 ^ (k - E) * 2 ^ (e' - emin))) with (2 ^ k * (Zpos m' * 2 ^ (e' - emin)) * 2 ^ (k - E)) by lia.
    apply Z.mul_lt_mono_pos_r; [done|apply Hlt]. }
  assert (0 <= q) as Hq0 by (apply Z.div_pos; [apply Z.mul_nonneg_nonneg; [lia|apply Z.pow_nonneg; lia]|lia]).
  assert (2 ^ (prec - 1) <= q \/ E <= emin) as Hcase.
  { destruct (Z.le_gt_cases E emin); [by right|left].
    assert (f = d + e - (d' + e') - prec) as Hf' by (unfold E in *; lia).
    assert (E = f) as HEf by (unfold E in *; lia).
    apply Z.div_le_lower_bound; [lia|].
    assert (2 ^ d' * 2 ^ (prec - 1) <= 2 ^ (d - 1) * 2 ^ s0) as Hpow.
    { rewrite <- !Z.pow_add_r by lia. apply Z.pow_le_mono_r; unfold s0 in *; lia. }
    assert (0 < 2 ^ s0) by (apply Z.pow_pos_nonneg; lia).
    assert (0 < 2 ^ (prec - 1)) by (apply Z.pow_pos_nonneg; lia). nia. }
  destruct (decide (q = 0)) as [Hq1|Hq1].
  - assert (E <= emin) as HEm.
    { destruct Hcase as [Hc|]; [|done]. assert (0 < 2 ^ (prec - 1)) by (apply Z.pow_pos_nonneg; lia). lia. }
    rewrite Hq1. apply aux_zero; lia.
  - apply aux_le; try lia. destruct Hcase as [Hc|]; [left|by right].
    pose proof (Zdigits_spec q ltac:(lia)) as Dq. apply Z.le_ngt. intros Hgt.
    assert (2 ^ Zdigits2 q <= 2 ^ (prec - 1)) by (apply Z.pow_le_mono_r; lia). lia.
Qed.

(** The quotient of a smaller by a larger number is at most one. *)
Lemma div_le x y : fin x = true -> fin y = true -> 0 <= sunits x < sunits y -> prec < emax - 2 ->
  between (SFdiv prec emax x y) 0.
Proof. intros. apply div_between; [done..|lia|lia|done]. Qed.

(** Division by at least one. *)
Lemma div_by x y k : between x k -> fin y = true -> 2 ^ (0 - emin) <= sunits y -> 0 <= k < emax - 1 -> prec < emax - 2 ->
  between (SFdiv prec emax x y) (k + 1).
Proof.
  intros [Fx Hx] Fy Hy Hk Hp. apply div_between; [done|done|lia| |done]. pose proof emin_low.
  assert (0 < 2 ^ k) by (apply Z.pow_pos_nonneg; lia). assert (0 < 2 ^ (0 - emin)) by (apply Z.pow_pos_nonneg; lia).
  replace (k - emin) with (k + (0 - emin)) in Hx by lia. rewrite Z.pow_add_r in Hx by lia.
  rewrite Z.pow_add_r by lia. nia.
Qed.

(** What is bounded is a number. *)
Lemma between_num x k : between x k -> num prec emax x = true.
Proof.
  intros [Fx Hx]. destruct x as [s|s| |s m e]; try done. cbn [fin] in Fx. cbn [num].
  destruct (fin_mantissa s m e Fx) as (_ & _ & _ & _ & Hs). rewrite (Hs (proj1 Hx)). by rewrite Fx.
Qed.

(** Rounding a number given by any mantissa and exponent. *)
Lemma round_le m e k : emin <= k < emax -> e <= k -> Zpos m <= 2 ^ (k - e) ->
  between (binary_round prec emax false m e) k.
Proof.
  intros Hk Hek Hm. unfold binary_round. pose proof emin_low.
  change (Zpos (digits2_pos m)) with (Zdigits2 (Zpos m)). set (E := fexp (Zdigits2 (Zpos m) + e)).
  assert (E = Z.max (Zdigits2 (Zpos m) + e - prec) emin) as HE by done.
  destruct (shl_align_spec m e E) as (mz & ez & -> & Hez & Hmz).
  assert (Zdigits2 (Zpos mz) = Zdigits2 (Zpos m) + (e - ez)) as Hd
    by (apply (digits_scale m mz (e - ez)); [lia|done]).
  apply aux_le; try lia.
  assert (Zpos mz <= 2 ^ (k - ez)) as Hle.
  { rewrite Hmz. replace (k - ez) with (k - e + (e - ez)) by lia. rewrite Z.pow_add_r by lia.
    apply Z.mul_le_mono_nonneg_r; [apply Z.pow_nonneg; lia|done]. }
  destruct (Z.le_lteq (Zpos mz) (2 ^ (k - ez))) as [[?|?] _]; auto.
Qed.

(** The square root of a number up to [2^(2k)]. *)
Lemma sqrt_le x k : between x (2 * k) -> 0 <= k -> 2 * k < emax ->
  between (SFsqrt prec emax x) k.
Proof.
  intros Hx Hk Hmax. pose proof emin_low as Hem. pose proof (proj1 Hx) as Fx.
  destruct x as [s|s| |s m e]; try done; [apply between_zero|].
  destruct (between_mantissa _ _ _ _ Hx) as (-> & Hek & Hmk); [lia|].
  cbn [fin] in Fx. destruct (fin_mantissa false m e Fx) as (He & _ & Hd & _ & _).
  pose proof (Zdigits_spec (Zpos m) ltac:(lia)) as Dm.
  cbn [SFsqrt]. unfold SFsqrt_core_binary. set (d := Zdigits2 (Zpos m)) in *.
  assert (1 <= d) as Hd1.
  { apply Z.le_ngt. intros ?. assert (2 ^ d <= 2 ^ 0) by (apply Z.pow_le_mono_r; lia). lia. }
  set (f := fexp (Z.div2 (d + e + 1))).
  assert (f = Z.max ((d + e + 1) / 2 - prec) emin) as Hf by (unfold f; by rewrite Z.div2_div).
  set (E := Z.min f (Z.div2 e)). assert (E = Z.min f (e / 2)) as HE by (unfold E; by rewrite Z.div2_div).
  set (s0 := e - 2 * E).
  assert (0 <= s0) as Hs0 by (unfold s0; rewrite HE; zdiv_lia).
  assert (match s0 with Z0 => Zpos m | Zpos _ => Z.shiftl (Zpos m) s0 | Zneg _ => 0 end = Zpos m * 2 ^ s0) as ->.
  { destruct s0 as [|p|p]; [lia| |lia]. by rewrite Z.shiftl_mul_pow2. }
  assert (0 < 2 ^ s0) by (apply Z.pow_pos_nonneg; lia).
  set (v := Zpos m * 2 ^ s0). assert (0 < v) as Hv by (unfold v; lia).
  pose proof (Z.sqrtrem_spec v ltac:(lia)) as Hs. destruct (Z.sqrtrem v) as [q r].
  destruct Hs as [Hqr Hr].
  assert (E <= k) as HEk by (rewrite HE; zdiv_lia).
  assert (v <= 2 ^ (k - E) * 2 ^ (k - E)) as Hvk.
  { rewrite <- Z.pow_add_r by lia. replace (k - E + (k - E)) with (2 * k - e + s0) by (unfold s0; lia).
    rewrite Z.pow_add_r by lia. apply Z.mul_le_mono_nonneg_r; lia. }
  assert (0 < 2 ^ (k - E)) by (apply Z.pow_pos_nonneg; lia).
  assert (0 < q) as Hq by nia.
  apply aux_le; [done|lia| |done|].
  - destruct (Z.le_gt_cases E emin); [by right|left].
    assert (f = (d + e + 1) / 2 - prec) as Hf' by lia.
    assert (E = f) as HEf by (rewrite HE, Hf'; zdiv_lia).
    assert (2 ^ (prec - 1) * 2 ^ (prec - 1) <= v) as Hlow.
    { assert (2 ^ (prec - 1 + (prec - 1)) <= 2 ^ (d - 1 + s0)) as Hp
        by (apply Z.pow_le_mono_r; [lia|]; unfold s0; rewrite HEf, Hf'; zdiv_lia).
      rewrite !Z.pow_add_r in Hp by lia. unfold v.
      assert (2 ^ (d - 1) * 2 ^ s0 <= Zpos m * 2 ^ s0) by (apply Z.mul_le_mono_nonneg_r; lia). lia. }
    assert (0 < 2 ^ (prec - 1)) by (apply Z.pow_pos_nonneg; lia).
    assert (2 ^ (prec - 1) <= q) as Hpq by nia.
    pose proof (Zdigits_spec q Hq) as Dq. apply Z.le_ngt. intros Hgt.
    assert (2 ^ Zdigits2 q <= 2 ^ (prec - 1)) by (apply Z.pow_le_mono_r; lia). lia.
  - destruct (Z.lt_trichotomy q (2 ^ (k - E))) as [Hlt|[Heq|Hgt]]; [by left|right|nia].
    split; [done|]. assert (r = 0) as -> by nia. done.
Qed.
(** ** Signed operands *)

Lemma opp_opp x : SFopp (SFopp x) = x.
Proof. by destruct x as [[]|[]| |[]]. Qed.

Lemma div_opp x y : SFdiv prec emax (SFopp x) y = SFopp (SFdiv prec emax x y).
Proof.
  destruct x as [[]|[]| |[] m e], y as [[]|[]| |[] m' e']; try done;
    cbn [SFopp SFdiv negb xorb]; destruct (SFdiv_core_binary prec emax (Zpos m) e (Zpos m') e') as [[mz ez] lz];
    rewrite ?aux_opp, ?opp_opp; done.
Qed.

(** Multiplication by one is exact. *)
Lemma round_exact s m e : bounded prec emax m e = true ->
  binary_round_aux prec emax s (Zpos m * 2 ^ (prec - 1)) (e - (prec - 1)) loc_Exact = S754_finite s m e.
Proof.
  intros Hb. destruct (bounded_mantissa _ _ Hprec Hemax _ _ Hb) as ([Hlo Hhi] & _ & _).
  apply bounded_spec in Hb as [Hf _]. assert (0 < 2 ^ (prec - 1)) as Hp by (apply Z.pow_pos_nonneg; lia).
  destruct (Zpos m * 2 ^ (prec - 1)) as [|mz|mz] eqn:Hmz; try lia.
  unfold binary_round_aux, shr_fexp at 1. cbn [Zdigits2].
  rewrite (digits_scale m mz (prec - 1)) by (done || lia).
  replace (Zpos (digits2_pos m) + (prec - 1) + (e - (prec - 1))) with (Zpos (digits2_pos m) + e) by lia.
  rewrite Hf. replace (e - (e - (prec - 1))) with (prec - 1) by lia.
  destruct (shr_start mz (e - (prec - 1)) (prec - 1) ltac:(lia)) as (mrs & -> & Hh). cbv beta iota.
  rewrite (holds_round mrs (Zpos mz) (prec - 1)) by (done || lia).
  rewrite <- Hmz, rne_multiple by lia.
  replace (e - (prec - 1) + (prec - 1)) with e by lia.
  unfold shr_fexp. cbn [Zdigits2 shr_record_of_loc]. rewrite Hf, Z.sub_diag. cbn [shr shr_m].
  by rewrite (proj2 (Z.leb_le _ _)).
Qed.

Lemma mul_one p x : Zpos p = 2 ^ (prec - 1) -> fin x = true -> SFmul prec emax (S754_finite false p (- (prec - 1))) x = x.
Proof.
  intros Hp Hx. destruct x as [s|s| |s m e]; try done. cbn [SFmul].
  rewrite Pos2Z.inj_mul, Hp, Z.mul_comm. replace (- (prec - 1) + e) with (e - (prec - 1)) by lia.
  destruct s; by apply round_exact.
Qed.

(** The error of rounding is at most half of the last place. *)
Lemma round_error v : 0 < v -> - 2 ^ step v <= 2 * (round_units v - v) <= 2 ^ step v.
Proof. intros Hv. unfold FloatOrder.round_units. apply rne_near, step_nonneg. Qed.

Lemma step_le v b : 0 < v -> v < 2 ^ (prec - 1) * b -> 2 ^ step v <= b.
Proof.
  intros Hv Hb. unfold FloatOrder.step. pose proof (Zdigits_spec v Hv) as Hd.
  assert (0 < 2 ^ (prec - 1)) by (apply Z.pow_pos_nonneg; lia).
  destruct (Z.le_gt_cases (Zdigits2 v - prec) 0) as [|Hgt]; [rewrite Z.max_r by lia; nia|].
  rewrite Z.max_l by lia. replace (Zdigits2 v - 1) with (prec - 1 + (Zdigits2 v - prec)) in Hd by lia.
  rewrite Z.pow_add_r in Hd by lia. nia.
Qed.

(** Numbers within a power of two, of either sign. *)
Definition within (x : spec_float) (k : Z) : Prop := fin x = true /\ Z.abs (sunits x) <= 2 ^ (k - emin).

Lemma within_opp x k : within x k -> within (SFopp x) k.
Proof. intros [Fx Hx]. destruct (opp_fin x) as [E1 E2]. split; [by rewrite E1|]. rewrite E2. lia. Qed.

Lemma within_signs x k : within x k -> between x k \/ between (SFopp x) k.
Proof.
  intros [Fx Hx]. destruct (opp_fin x) as [E1 E2]. unfold between. rewrite E1, E2, Fx. lia.
Qed.

Lemma between_within x k : between x k -> within x k.
Proof. intros [Fx Hx]. split; [done|lia]. Qed.

Lemma mul_within x y a b : between x a -> within y b -> emin <= a -> emin <= b -> emin <= a + b < emax ->
  within (SFmul prec emax x y) (a + b).
Proof.
  intros Hx Hy Ha Hb Hab. destruct (within_signs y b Hy) as [Hs|Hs].
  - by apply between_within, mul_le.
  - assert (SFmul prec emax x y = SFopp (SFmul prec emax x (SFopp y))) as ->.
    { rewrite <- mul_opp. destruct x as [[]|[]| |[]], y as [[]|[]| |[]]; done. }
    by apply within_opp, between_within, mul_le.
Qed.

Lemma pow_units k : emin <= k < emax -> sround (2 ^ (k - emin)) = 2 ^ (k - emin) /\ 2 ^ (k - emin) < top.
Proof.
  intros Hk. assert (0 < 2 ^ (k - emin)) as Hp by (apply Z.pow_pos_nonneg; lia). split.
  - destruct (sround_nonneg (2 ^ (k - emin)) ltac:(lia)) as [-> _]. unfold FloatOrder.round_units.
    set (j := FloatOrder.step prec (2 ^ (k - emin))).
    assert (0 <= j <= k - emin) as Hj.
    { unfold j, FloatOrder.step. rewrite (digits_unique _ (k - emin + 1)) by
        (rewrite ?Z.add_simpl_r, ?Z.pow_add_r; lia). lia. }
    replace (2 ^ (k - emin)) with (2 ^ (k - emin - j) * 2 ^ j) by (rewrite <- Z.pow_add_r by lia; f_equal; lia).
    by rewrite rne_multiple by lia.
  - unfold FloatOrder.top. apply Z.pow_lt_mono_r; lia.
Qed.

(** Sums of numbers within a power of two are finite, rounded, and monotone. *)
Lemma add_within x y k : within x k -> within y k -> emin <= k < emax - 1 ->
  within (SFadd prec emax x y) (k + 1) /\ sunits (SFadd prec emax x y) = sround (sunits x + sunits y).
Proof.
  intros [Fx Hx] [Fy Hy] Hk. destruct (pow_units (k + 1) ltac:(lia)) as [Hr Ht].
  assert (2 ^ (k + 1 - emin) = 2 * 2 ^ (k - emin)) as Hp
    by (rewrite <- Z.pow_succ_r by lia; f_equal; lia).
  assert (Z.abs (sunits x + sunits y) <= 2 ^ (k + 1 - emin)) as Hs by lia.
  pose proof (sround_mono _ _ Hs) as Hm. rewrite Hr in Hm.
  destruct (sround_nonneg (Z.abs (sunits x + sunits y)) ltac:(lia)) as [Ea Hn].
  destruct (add_spec x y Fx Fy) as [Ff Fu]; [lia|]. split; [|done]. split; [done|]. rewrite Fu.
  destruct (Z.abs_spec (sunits x + sunits y)) as [[_ Eq]|[_ Eq]]; rewrite Eq in *;
    [|rewrite sround_opp in *]; lia.
Qed.

Lemma add_mono x y z k : within x k -> within y k -> within z k -> emin <= k < emax - 1 ->
  sunits y <= sunits z -> SFleb (SFadd prec emax x y) (SFadd prec emax x z) = true.
Proof.
  intros Hx Hy Hz Hk Hle. destruct (add_within x y k Hx Hy Hk) as [[F1 _] E1].
  destruct (add_within x z k Hx Hz Hk) as [[F2 _] E2]. rewrite leb_sunits by done.
  rewrite E1, E2. apply Z.leb_le, sround_mono. lia.
Qed.
End Format.

(** ** The two formats of C++ *)

Abbreviation fin32 := (fin 24 128).
Abbreviation units32 := (sunits 24 128).
Abbreviation between32 := (between 24 128).
Abbreviation between64 := (between 53 1024).

Lemma f32_of_f64_le x k : between64 x k -> -149 <= k < 128 -> between32 (f32_of_f64 x) k.
Proof.
  intros Hx Hk. pose proof (proj1 Hx) as Fx.
  destruct x as [s|s| |s m e]; try done; [apply between_zero|].
  destruct (between_mantissa 53 1024 ltac:(lia) ltac:(lia) _ _ _ _ Hx) as (-> & He & Hm);
    [unfold SpecFloat.emin; lia|].
  apply round_le; unfold SpecFloat.emin; lia.
Qed.

Lemma f64_of_f32_le x k : between32 x k -> -149 <= k < 128 -> between64 (f64_of_f32 x) k.
Proof.
  intros Hx Hk. pose proof (proj1 Hx) as Fx.
  destruct x as [s|s| |s m e]; try done; [apply between_zero|].
  destruct (between_mantissa 24 128 ltac:(lia) ltac:(lia) _ _ _ _ Hx) as (-> & He & Hm);
    [unfold SpecFloat.emin; lia|].
  apply (round_le 53 1024); unfold SpecFloat.emin; lia.
Qed.
