(* ===== verification/NavFn.v ===== *)
(** * Navigation function ([nav2_navfn_planner/navfn.hpp], [navfn.cpp])

    The class [NavFn]: cost and potential arrays, the three priority buffers, the
    propagation of the potential from the goal by waves (breadth first or with the A-star
    priority), and the path that descends the potential.

    An array is the list of its elements, [None] where it is not initialised. A priority
    buffer is the list of its entries below the end index; the storage behind the end
    is never read, so exchanging two buffers exchanges two lists. Floating point
    expressions are evaluated operation by operation, in [float] or [double] as their
    operands require, without contraction. *)

From stdpp Require Import base option list numbers.
From Stdlib Require Import ZArith Lia SpecFloat.
From S2P Require Import Prelude Float64.

(** The functions [hypot] of the C++ library on [double] and [float], whose last bits the
    language leaves open. *)
Class Hypot : Type := {
  hypot : f64 -> f64 -> f64;
  hypotf : spec_float -> spec_float -> spec_float }.

Module NavFn.

Abbreviation f32 := spec_float (only parsing).

(** ** Constants *)

Definition COST_UNKNOWN_ROS : Z := 255.
Definition COST_OBS : Z := 254.
Definition COST_OBS_ROS : Z := 253.
Definition COST_NEUTRAL : Z := 50.
(** 0.8 *)
Definition COST_FACTOR : f64 := S754_finite false 7205759403792794 (-53).
(** 1.0e10 has 24 significant bits, so [double] and [float] hold the same number. *)
Definition POT_HIGH : f32 := S754_finite false 9765625 10.
Definition PRIORITYBUFSIZE : Z := 10000.
Definition terminal_checking_interval : Z := 5000.
(** 0.707106781 *)
Definition INVSQRT2 : f64 := S754_finite false 6369051670845502 (-53).
(** 0.2301, 0.5307 and 0.7040 *)
Definition QUAD2 : f64 := S754_finite false 8290226194063609 (-55).
Definition QUAD1 : f64 := S754_finite false 4780120644491044 (-53).
Definition QUAD0 : f64 := S754_finite false 6341068275337658 (-53).

Definition f32_zero : f32 := S754_zero false.
Definition f32_lt : f32 -> f32 -> bool := SFltb.
Definition f32_le : f32 -> f32 -> bool := SFleb.

(** ** State *)

Record navfn : Type := mk_navfn {
  nx : Z; ny : Z; ns : Z;
  costarr : list Z;
  potarr : list (option f32);
  pending : list bool;
  nobs : Z;
  curP : list Z; nextP : list Z; overP : list Z;
  curT : f32; priInc : f32;
  goal : Z * Z; start : Z * Z;
  gradx : list (option f32); grady : list (option f32);
  pathx : list (option f32); pathy : list (option f32);
  npath : Z; npathbuf : Z;
  pathStep : f32;
  last_path_cost_ : option f32 }.

Definition set_arrays nx' ny' ns' costarr' potarr' pending' gradx' grady' (s : navfn) : navfn :=
  mk_navfn nx' ny' ns' costarr' potarr' pending' (nobs s) (curP s) (nextP s) (overP s) (curT s) (priInc s)
    (goal s) (start s) gradx' grady' (pathx s) (pathy s) (npath s) (npathbuf s) (pathStep s) (last_path_cost_ s).
Definition set_costarr l (s : navfn) : navfn :=
  set_arrays (nx s) (ny s) (ns s) l (potarr s) (pending s) (gradx s) (grady s) s.
Definition set_potarr l (s : navfn) : navfn :=
  set_arrays (nx s) (ny s) (ns s) (costarr s) l (pending s) (gradx s) (grady s) s.
Definition set_pending l (s : navfn) : navfn :=
  set_arrays (nx s) (ny s) (ns s) (costarr s) (potarr s) l (gradx s) (grady s) s.
Definition set_grad gx gy (s : navfn) : navfn :=
  set_arrays (nx s) (ny s) (ns s) (costarr s) (potarr s) (pending s) gx gy s.
Definition set_prop nobs' cur next over curT' (s : navfn) : navfn :=
  mk_navfn (nx s) (ny s) (ns s) (costarr s) (potarr s) (pending s) nobs' cur next over curT' (priInc s)
    (goal s) (start s) (gradx s) (grady s) (pathx s) (pathy s) (npath s) (npathbuf s) (pathStep s)
    (last_path_cost_ s).
Definition set_buffers cur next over (s : navfn) : navfn := set_prop (nobs s) cur next over (curT s) s.
Definition set_curT t (s : navfn) : navfn := set_prop (nobs s) (curP s) (nextP s) (overP s) t s.
Definition set_ends g st (s : navfn) : navfn :=
  mk_navfn (nx s) (ny s) (ns s) (costarr s) (potarr s) (pending s) (nobs s) (curP s) (nextP s) (overP s)
    (curT s) (priInc s) g st (gradx s) (grady s) (pathx s) (pathy s) (npath s) (npathbuf s) (pathStep s)
    (last_path_cost_ s).
Definition set_path px py n buf (s : navfn) : navfn :=
  mk_navfn (nx s) (ny s) (ns s) (costarr s) (potarr s) (pending s) (nobs s) (curP s) (nextP s) (overP s)
    (curT s) (priInc s) (goal s) (start s) (gradx s) (grady s) px py n buf (pathStep s) (last_path_cost_ s).
Definition set_last_path_cost c (s : navfn) : navfn :=
  mk_navfn (nx s) (ny s) (ns s) (costarr s) (potarr s) (pending s) (nobs s) (curP s) (nextP s) (overP s)
    (curT s) (priInc s) (goal s) (start s) (gradx s) (grady s) (pathx s) (pathy s) (npath s) (npathbuf s)
    (pathStep s) c.

(** Reading an element that is not initialised is undefined. *)
Definition fget (l : list (option f32)) (i : Z) : res f32 :=
  o ← aget l i; match o with Some v => Ok v | None => UB end.
Definition pot (s : navfn) (n : Z) : res f32 := fget (potarr s) n.

(** ** Construction and inputs *)

Definition setGoal (g : Z * Z) (s : navfn) : navfn := set_ends g (start s) s.
Definition setStart (st : Z * Z) (s : navfn) : navfn := set_ends (goal s) st s.

Definition setNavArr (xs ys : Z) (s : navfn) : res navfn :=
  ns' ← chk 32 (xs * ys);
  if ns' <? 0 then Throw bad_array_new_length else
  let k := Z.to_nat ns' in
  Ok (set_arrays xs ys ns' (replicate k 0) (replicate k None) (replicate k false)
        (replicate k None) (replicate k None) s).

Definition new (xs ys : Z) : res navfn :=
  setNavArr xs ys
    (mk_navfn xs ys 0 [] [] [] 0 [] [] [] f32_zero (f32_of_Z (2 * COST_NEUTRAL)) (0, 0) (0, 0)
       [] [] [] [] 0 0 (f32_of_f64 (f64_div (f64_of_Z 1) (f64_of_Z 2))) None).

(** The cost of a cell that is not an obstacle: computed in [double], truncated. *)
Definition scaled_cost (v : Z) : res Z :=
  v ← f64_to_int 32 (f64_add (f64_of_Z COST_NEUTRAL) (f64_mul COST_FACTOR (f64_of_Z v)));
  Ok (wrapu 8 (if v >=? COST_OBS then COST_OBS - 1 else v)).

(** Both branches of the loops of [setCostmap] on one cell: [unknown] tells whether a
    cell of unknown cost is passable. *)
Definition set_cell (cmap : list Z) (unknown : bool) (k : Z) (cm : list Z) : res (list Z) :=
  v ← aget cmap k;
  if v <? COST_OBS_ROS then c ← scaled_cost v; aset cm k c
  else if (v =? COST_UNKNOWN_ROS) && unknown then aset cm k (COST_OBS - 1)
  else Ok cm.

Definition setCostmap (cmap : list Z) (isROS allow_unknown : bool) (s : navfn) : res navfn :=
  let rows := Z.to_nat (ny s) in
  let columns := Z.to_nat (nx s) in
  l ← for_each rows 0 (fun i cm => for_each columns 0 (fun j cm =>
        let k := i * nx s + j in
        cm ← aset cm k COST_OBS;
        if isROS then set_cell cmap allow_unknown k cm
        else if (i <? 7) || (i >? ny s - 8) || (j <? 7) || (j >? nx s - 8) then Ok cm
        else set_cell cmap true k cm) cm) (costarr s);
  Ok (set_costarr l s).

(** ** Priority buffers *)

(** The guard of the macros [push_cur], [push_next] and [push_over]. *)
Definition may_push (s : navfn) (n : Z) (P : list Z) : res bool :=
  if (n >=? 0) && (n <? ns s) then
    p ← aget (pending s) n;
    if (p : bool) then Ok false else
    c ← aget (costarr s) n;
    Ok ((c <? COST_OBS) && (Z.of_nat (length P) <? PRIORITYBUFSIZE))
  else Ok false.

Definition mark (n : Z) (s : navfn) : res navfn :=
  l ← aset (pending s) n true; Ok (set_pending l s).

Definition push_cur (n : Z) (s : navfn) : res navfn :=
  b ← may_push s n (curP s);
  if (b : bool) then mark n (set_buffers (curP s ++ [n]) (nextP s) (overP s) s) else Ok s.
Definition push_next (n : Z) (s : navfn) : res navfn :=
  b ← may_push s n (nextP s);
  if (b : bool) then mark n (set_buffers (curP s) (nextP s ++ [n]) (overP s) s) else Ok s.
Definition push_over (n : Z) (s : navfn) : res navfn :=
  b ← may_push s n (overP s);
  if (b : bool) then mark n (set_buffers (curP s) (nextP s) (overP s ++ [n]) s) else Ok s.

(** ** Setting up the propagation *)

Definition initCost (k : Z) (v : f32) (s : navfn) : res navfn :=
  l ← aset (potarr s) k (Some v);
  s ← push_cur (k + 1) (set_potarr l s);
  s ← push_cur (k - 1) s;
  s ← push_cur (k - nx s) s;
  push_cur (k + nx s) s.

(** One of the four loops over the outer bounds: [n] cells from [i], [step] apart. *)
Definition set_border (n : Z) (i step : Z) (l : list Z) : res (list Z) :=
  for_each (Z.to_nat n) 0 (fun j l => aset l (i + j * step) COST_OBS) l.

Definition outer_bounds (s : navfn) : res (list Z) :=
  l ← set_border (nx s) 0 1 (costarr s);
  l ← set_border (nx s) ((ny s - 1) * nx s) 1 l;
  l ← set_border (ny s) 0 (nx s) l;
  set_border (ny s) (nx s - 1) (nx s) l.

(** The loop over all cells, array by array. *)
Definition reset_potentials (keepit : bool) (s : navfn) : res navfn :=
  for_each (Z.to_nat (ns s)) 0 (fun i s =>
    l ← aset (potarr s) i (Some POT_HIGH);
    c ← (if keepit then Ok (costarr s) else aset (costarr s) i COST_NEUTRAL);
    gy ← aset (grady s) i (Some f32_zero);
    gx ← aset (gradx s) i (Some f32_zero);
    Ok (set_grad gx gy (set_costarr c (set_potarr l s)))) s.

Definition count_obstacles (s : navfn) : Z :=
  Z.of_nat (length (filter (fun c => COST_OBS <= c) (costarr s))).

Definition setupNavFn (keepit : bool) (s : navfn) : res navfn :=
  s ← reset_potentials keepit s;
  c ← outer_bounds s;
  let s := set_pending (replicate (Z.to_nat (ns s)) false)
             (set_prop (nobs s) [] [] [] (f32_of_Z COST_OBS) (set_costarr c s)) in
  k ← chk 32 (fst (goal s) + snd (goal s) * nx s);
  s ← initCost k f32_zero s;
  Ok (set_prop (count_obstacles s) (curP s) (nextP s) (overP s) (curT s) s).

(** ** Updating a cell *)

(** The quadratic approximation of a planar wave, from the relative cost. *)
Definition interpolation (div : f32) : f32 :=
  let d := f64_of_f32 div in
  f32_of_f64 (f64_add (f64_add (f64_mul (f64_mul (SFopp QUAD2) d) d) (f64_mul QUAD1 d)) QUAD0).

(** The new potential of a cell of cost [c], from those of its four neighbours. *)
Definition wave (c : Z) (l r u d : f32) : f32 :=
  let tc := if f32_lt l r then l else r in
  let ta := if f32_lt u d then u else d in
  let hf := f32_of_Z c in
  let dc := f32_sub tc ta in
  let '(dc, ta) := if f32_lt dc f32_zero then (SFopp dc, tc) else (dc, ta) in
  if f32_le hf dc then f32_add ta hf
  else f32_add ta (f32_mul hf (interpolation (f32_div dc hf))).

(** The margin a neighbour of cost [c] must gain to be pushed. *)
Definition margin (c : Z) : f32 := f32_of_f64 (f64_mul INVSQRT2 (f64_of_f32 (f32_of_Z c))).

(** Both [updateCell] and [updateCellAstar]; [priority] gives, from the new potential, the
    value that is compared with the threshold and with the neighbours. *)
Definition update_with (priority : navfn -> f32 -> res f32) (n : Z) (s : navfn) : res navfn :=
  l ← pot s (n - 1);
  r ← pot s (n + 1);
  u ← pot s (n - nx s);
  d ← pot s (n + nx s);
  c ← aget (costarr s) n;
  if c <? COST_OBS then
    let p := wave c l r u d in
    old ← pot s n;
    if f32_lt p old then
      cl ← aget (costarr s) (n - 1);
      cr ← aget (costarr s) (n + 1);
      cu ← aget (costarr s) (n - nx s);
      cd ← aget (costarr s) (n + nx s);
      q ← priority s p;
      a ← aset (potarr s) n (Some p);
      let s := set_potarr a s in
      let push := if f32_lt q (curT s) then push_next else push_over in
      s ← (if f32_lt (f32_add q (margin cl)) l then push (n - 1) s else Ok s);
      s ← (if f32_lt (f32_add q (margin cr)) r then push (n + 1) s else Ok s);
      s ← (if f32_lt (f32_add q (margin cu)) u then push (n - nx s) s else Ok s);
      if f32_lt (f32_add q (margin cd)) d then push (n + nx s) s else Ok s
    else Ok s
  else Ok s.

Definition updateCell (n : Z) (s : navfn) : res navfn := update_with (fun _ p => Ok p) n s.

Section Heuristic.
Context `{Hypot}.

(** [hypot(a, b) * COST_NEUTRAL], as a [float]. *)
Definition heuristic (a b : Z) : f32 :=
  f32_of_f64 (f64_mul (hypot (f64_of_Z a) (f64_of_Z b)) (f64_of_f32 (f32_of_Z COST_NEUTRAL))).

Definition distance_to_start (n : Z) (s : navfn) : res f32 :=
  a ← chk 32 (Z.rem n (nx s) - fst (start s));
  b ← chk 32 (Z.quot n (nx s) - snd (start s));
  Ok (heuristic a b).

Definition updateCellAstar (n : Z) (s : navfn) : res navfn :=
  update_with (fun s p => dist ← distance_to_start n s; Ok (f32_add p dist)) n s.
End Heuristic.

(** ** Propagation *)

(** The flags of the current buffer are reset, its cells updated, the buffers exchanged;
    when the current one is empty the overflow buffer takes its place. *)
Definition unmark (n : Z) (s : navfn) : res navfn :=
  l ← aset (pending s) n false; Ok (set_pending l s).

Definition process (upd : Z -> navfn -> res navfn) (s : navfn) : res navfn :=
  s ← for_list unmark (curP s) s;
  for_list upd (curP s) s.

Definition exchange (s : navfn) : navfn :=
  let s := set_buffers (nextP s) [] (overP s) s in
  if bool_decide (curP s = []) then
    set_curT (f32_add (curT s) (priInc s)) (set_buffers (overP s) (nextP s) [] s)
  else s.

(** The loop of both propagations, with [rest] cycles to go; [reached] is the test at the end
    of a cycle, [nc] the number of cells counted. The answer [cancelChecker i] is that of the
    [i]-th call. The result tells whether the loop ended before its last cycle. *)
Fixpoint propagate (upd : Z -> navfn -> res navfn) (cancelChecker : Z -> bool)
    (reached : navfn -> res bool) (rest : nat) (cycle nc : Z) : ST navfn bool :=
  match rest with
  | O => mret false
  | S rest =>
      if (Z.rem cycle terminal_checking_interval =? 0) && cancelChecker (cycle / terminal_checking_interval)
      then throw planner_cancelled else
      s ← get;
      if bool_decide (curP s = []) && bool_decide (nextP s = []) then mret true else
      nc ← query (fun _ => chk 32 (nc + Z.of_nat (length (curP s))));
      _ ← amend (process upd);
      _ ← modify exchange;
      b ← query reached;
      if (b : bool) then mret true else propagate upd cancelChecker reached rest (cycle + 1) nc
  end.

Definition start_cell (s : navfn) : res Z :=
  a ← chk 32 (snd (start s) * nx s); chk 32 (a + fst (start s)).

Definition start_reached (s : navfn) : res bool :=
  c ← start_cell s; p ← pot s c; Ok (f32_lt p POT_HIGH).

Definition propNavFnDijkstra (cycles : Z) (cancelChecker : Z -> bool) (atStart : bool) : ST navfn bool :=
  _ ← query start_cell;
  propagate updateCell cancelChecker (fun s => if atStart then start_reached s else Ok false)
    (Z.to_nat cycles) 0 0.

Section Astar.
Context `{Hypot}.

Definition propNavFnAstar (cycles : Z) (cancelChecker : Z -> bool) : ST navfn bool :=
  _ ← amend (fun s =>
        a ← chk 32 (fst (goal s) - fst (start s));
        b ← chk 32 (snd (goal s) - snd (start s));
        Ok (set_curT (f32_add (heuristic a b) (curT s)) s));
  _ ← query start_cell;
  _ ← propagate updateCellAstar cancelChecker start_reached (Z.to_nat cycles) 0 0;
  c ← query start_cell;
  p ← query (fun s => pot s c);
  _ ← modify (set_last_path_cost (Some p));
  mret (f32_lt p POT_HIGH).
End Astar.

(** [std::max(nx * ny / 20, nx + ny)] *)
Definition cycle_bound (s : navfn) : res Z :=
  a ← chk 32 (nx s * ny s);
  b ← chk 32 (nx s + ny s);
  Ok (Z.max (Z.quot a 20) b).

Definition calcNavFnDijkstra (cancelChecker : Z -> bool) (atStart : bool) : ST navfn bool :=
  _ ← amend (setupNavFn true);
  cycles ← query cycle_bound;
  propNavFnDijkstra cycles cancelChecker atStart.

Definition calcNavFnAstar `{Hypot} (cancelChecker : Z -> bool) : ST navfn bool :=
  _ ← amend (setupNavFn true);
  cycles ← query cycle_bound;
  propNavFnAstar cycles cancelChecker.

Definition getPathX (s : navfn) : list (option f32) := pathx s.
Definition getPathY (s : navfn) : list (option f32) := pathy s.
Definition getPathLen (s : navfn) : Z := npath s.
Definition getLastPathCost (s : navfn) : option f32 := last_path_cost_ s.

(** ** The path *)

Section Path.
Context `{Hypot}.

(** Normalising the gradient of a cell and storing it. *)
Definition store_gradient (n : Z) (dx dy : f32) (s : navfn) : res (navfn * f32) :=
  let norm := hypotf dx dy in
  if f32_lt f32_zero norm then
    let norm := f32_of_f64 (f64_div (f64_of_Z 1) (f64_of_f32 norm)) in
    gx ← aset (gradx s) n (Some (f32_mul norm dx));
    gy ← aset (grady s) n (Some (f32_mul norm dy));
    Ok (set_grad gx gy s, norm)
  else Ok (s, norm).

(** The component of the gradient between the potentials [a] and [b] of two opposite
    neighbours, in an obstacle and outside. *)
Definition obstacle_component (a b : res f32) : res f32 :=
  a ← a;
  if f32_lt a POT_HIGH then Ok (f32_of_Z (- COST_OBS)) else
  b ← b;
  Ok (if f32_lt b POT_HIGH then f32_of_Z COST_OBS else f32_zero).

Definition free_component (a b : res f32) (cv : f32) : res f32 :=
  a ← a;
  let d := if f32_lt a POT_HIGH then f32_add f32_zero (f32_sub a cv) else f32_zero in
  b ← b;
  Ok (if f32_lt b POT_HIGH then f32_add d (f32_sub cv b) else d).

Definition gradCell (n : Z) (s : navfn) : res (navfn * f32) :=
  gx ← fget (gradx s) n;
  gy ← fget (grady s) n;
  if f32_lt f32_zero (f32_add gx gy) then Ok (s, f32_of_Z 1) else
  if (n <? nx s) || (n >? ns s - nx s) then Ok (s, f32_zero) else
  cv ← pot s n;
  if f32_le POT_HIGH cv then
    dx ← obstacle_component (pot s (n - 1)) (pot s (n + 1));
    dy ← obstacle_component (pot s (n - nx s)) (pot s (n + nx s));
    store_gradient n dx dy s
  else
    dx ← free_component (pot s (n - 1)) (pot s (n + 1)) cv;
    dy ← free_component (pot s (n - nx s)) (pot s (n + nx s)) cv;
    store_gradient n dx dy s.

(** [(1.0 - t) * a + t * b]: the second product is one of [float]s. *)
Definition lerp (t a b : f32) : f32 :=
  f32_of_f64 (f64_add (f64_mul (f64_sub (f64_of_Z 1) (f64_of_f32 t)) (f64_of_f32 a))
                      (f64_of_f32 (f32_mul t b))).

(** The position: a cell and an offset. *)
Record walker : Type := mk_walker { stc : Z; dx : f32; dy : f32 }.

(** [potarr[c1] >= POT_HIGH || potarr[c2] >= POT_HIGH || ...] *)
Fixpoint any_high (cells : list Z) (s : navfn) : res bool :=
  match cells with
  | [] => Ok false
  | c :: cells => p ← pot s c; if f32_le POT_HIGH p then Ok true else any_high cells s
  end.

(** The neighbour with the lowest potential; [minp] is an [int]. *)
Definition lower (s : navfn) (c : Z) (min : Z * Z) : res (Z * Z) :=
  p ← pot s c;
  if f32_lt p (f32_of_Z (snd min)) then v ← f64_to_int 32 p; Ok (c, v) else Ok min.

Definition lowest_neighbour (c : Z) (s : navfn) : res Z :=
  p ← pot s c;
  minp ← f64_to_int 32 p;
  min ← for_list (lower s)
    [c - nx s - 1; c - nx s; c - nx s + 1; c - 1; c + 1; c + nx s - 1; c + nx s; c + nx s + 1] (c, minp);
  Ok (fst min).

Definition at_goal (w : walker) (s : navfn) : res bool :=
  rx ← f64_to_int 32 (f32_round (dx w));
  ry ← f64_to_int 32 (f32_mul (f32_of_Z (nx s)) (f32_round (dy w)));
  a ← chk 32 (stc w + rx);
  b ← chk 32 (a + ry);
  size ← chk 32 (nx s * ny s);
  p ← pot s (Z.max 0 (Z.min (size - 1) b));
  Ok (f32_lt p (f32_of_Z COST_NEUTRAL)).

Definition add_point (x y : f32) (s : navfn) : res navfn :=
  px ← aset (pathx s) (npath s) (Some x);
  py ← aset (pathy s) (npath s) (Some y);
  Ok (set_path px py (npath s + 1) (npathbuf s) s).

Definition oscillates (s : navfn) : res bool :=
  if npath s >? 2 then
    a ← fget (pathx s) (npath s - 1);
    b ← fget (pathx s) (npath s - 3);
    if SFeqb a b then
      a ← fget (pathy s) (npath s - 1);
      b ← fget (pathy s) (npath s - 3);
      Ok (SFeqb a b)
    else Ok false
  else Ok false.

(** Moving along the interpolated gradient; nothing when it is zero. *)
Definition gradient_step (w : walker) (s : navfn) : res (navfn * option walker) :=
  let c := stc w in
  '(s, _) ← gradCell c s;
  '(s, _) ← gradCell (c + 1) s;
  '(s, _) ← gradCell (c + nx s) s;
  '(s, _) ← gradCell (c + nx s + 1) s;
  gx0 ← fget (gradx s) c; gx1 ← fget (gradx s) (c + 1);
  gx2 ← fget (gradx s) (c + nx s); gx3 ← fget (gradx s) (c + nx s + 1);
  gy0 ← fget (grady s) c; gy1 ← fget (grady s) (c + 1);
  gy2 ← fget (grady s) (c + nx s); gy3 ← fget (grady s) (c + nx s + 1);
  let x := lerp (dy w) (lerp (dx w) gx0 gx1) (lerp (dx w) gx2 gx3) in
  let y := lerp (dy w) (lerp (dx w) gy0 gy1) (lerp (dx w) gy2 gy3) in
  if SFeqb x f32_zero && SFeqb y f32_zero then Ok (s, None) else
  let ss := f32_div (pathStep s) (hypotf x y) in
  let one := f32_of_Z 1 in
  let back t := f32_of_f64 (f64_sub (f64_of_f32 t) (f64_of_Z 1)) in
  let forth t := f32_of_f64 (f64_add (f64_of_f32 t) (f64_of_Z 1)) in
  let dx := f32_add (dx w) (f32_mul x ss) in
  let dy := f32_add (dy w) (f32_mul y ss) in
  let '(c, dx) := if f32_lt one dx then (c + 1, back dx) else (c, dx) in
  let '(c, dx) := if f32_lt dx (SFopp one) then (c - 1, forth dx) else (c, dx) in
  let '(c, dy) := if f32_lt one dy then (c + nx s, back dy) else (c, dy) in
  let '(c, dy) := if f32_lt dy (SFopp one) then (c - nx s, forth dy) else (c, dy) in
  Ok (s, Some (mk_walker c dx dy)).

(** The rounds of [calcPath]; the result is its return value. *)
Fixpoint follow (rounds : nat) (w : walker) (s : navfn) : res (navfn * Z) :=
  match rounds with
  | O => Ok (s, 0)
  | S rounds =>
      near ← at_goal w s;
      if (near : bool) then
        s ← add_point (f32_of_Z (fst (goal s))) (f32_of_Z (snd (goal s))) s;
        Ok (s, npath s)
      else
      if (stc w <? nx s) || (stc w >? ns s - nx s) then Ok (s, 0) else
      let c := stc w in
      s ← add_point (f32_add (f32_of_Z (Z.rem c (nx s))) (dx w)) (f32_add (f32_of_Z (Z.quot c (nx s))) (dy w)) s;
      osc ← oscillates s;
      high ← any_high [c; c + 1; c - 1; c + nx s; c + nx s + 1; c + nx s - 1;
                       c - nx s; c - nx s + 1; c - nx s - 1] s;
      if high || osc then
        c ← lowest_neighbour c s;
        p ← pot s c;
        if f32_le POT_HIGH p then Ok (s, 0) else follow rounds (mk_walker c f32_zero f32_zero) s
      else
        '(s, w) ← gradient_step w s;
        match w with
        | None => Ok (s, 0)
        | Some w => follow rounds w s
        end
  end.

Definition calcPath (n : Z) (st : option (Z * Z)) (s : navfn) : res (navfn * Z) :=
  let s := if npathbuf s <? n
           then set_path (replicate (Z.to_nat n) None) (replicate (Z.to_nat n) None) (npath s) n s
           else s in
  let st := default (start s) st in
  a ← chk 32 (snd st * nx s);
  c ← chk 32 (a + fst st);
  follow (Z.to_nat n) (mk_walker c f32_zero f32_zero) (set_path (pathx s) (pathy s) 0 (npathbuf s) s).
End Path.

End NavFn.
