(* ===== verification/NavFnLaws.v ===== *)
(** * The potential of [NavFn] reaches exactly the cells linked to the goal

    Bounds of the wave update, the invariant of the propagation and its preservation by
    every cycle, and from them the meaning of the result of both propagations. *)

From stdpp Require Import base option list numbers.
From Stdlib Require Import ZArith Lia SpecFloat.
From S2P Require Import Prelude Float64 FloatOrder FloatBounds NavFn.

Module NavFnLaws.
Import NavFn.

(** ** The arithmetic of an update *)

(** Potentials are [POT_HIGH], or at most [2^33]: adding the cost of a cell to a larger number
    of this size is lost in rounding. *)
Definition low (v : f32) : Prop := between32 v 33.
Definition good (v : f32) : Prop := low v \/ v = POT_HIGH.

Lemma lt32 x y : fin32 x = true -> fin32 y = true -> f32_lt x y = (units32 x <? units32 y).
Proof. apply (ltb_sunits 24 128); lia. Qed.

Lemma le32 x y : fin32 x = true -> fin32 y = true -> f32_le x y = (units32 x <=? units32 y).
Proof. apply (leb_sunits 24 128); lia. Qed.

Lemma high_units : fin32 POT_HIGH = true /\ units32 POT_HIGH = 10000000000 * 2 ^ 149.
Proof. by vm_compute. Qed.

Lemma low_bound v : low v -> fin32 v = true /\ 0 <= units32 v <= 2 ^ 33 * 2 ^ 149.
Proof. intros [? ?]. by split. Qed.

Lemma good_fin v : good v -> fin32 v = true /\ 0 <= units32 v <= 10000000000 * 2 ^ 149.
Proof.
  destruct high_units as [F U]. intros [H| ->].
  - apply low_bound in H as [? ?]. split; [done|]. lia.
  - rewrite F, U. split; [done|lia].
Qed.

Lemma low_lt v : good v -> f32_lt v POT_HIGH = true <-> low v.
Proof.
  destruct high_units as [F U]. intros Hg. destruct (good_fin v Hg) as [Fv _].
  rewrite lt32, U, Z.ltb_lt by done. split.
  - destruct Hg as [|Hg]; [done|]. rewrite Hg, U. lia.
  - intros [_ ?]%low_bound. lia.
Qed.

Lemma low_not_high : ~ low POT_HIGH.
Proof. intros [_ H]%low_bound. rewrite (proj2 high_units) in H. lia. Qed.

(** [float] sums, with the bounds on whole units. *)
Lemma add32 x y lo hi : fin32 x = true -> fin32 y = true ->
  (bool_decide (- 2 ^ 277 < sround 24 lo /\ sround 24 hi < 2 ^ 277) = true) ->
  lo <= units32 x + units32 y <= hi ->
  fin32 (f32_add x y) = true /\ sround 24 lo <= units32 (f32_add x y) <= sround 24 hi.
Proof.
  intros Hx Hy Hb H. apply bool_decide_eq_true in Hb.
  apply (add_between 24 128); try done; try lia; unfold top, SpecFloat.emin;
    change (128 - (3 - 128 - 24)) with 277; lia.
Qed.

Definition costs : list Z := seqZ 0 256.

Lemma cost_in c : 0 <= c <= 255 -> In c costs.
Proof. intros H. apply list_elem_of_In, elem_of_seqZ. lia. Qed.

(** Facts on the 256 costs, by evaluation. *)
Lemma cost_float c : 0 <= c <= 255 -> between32 (f32_of_Z c) 8 /\ between32 (margin c) 8.
Proof.
  intros H. apply cost_in in H. revert c H. apply List.Forall_forall.
  unfold between. apply (bool_decide_unpack _). by vm_compute.
Qed.

Lemma wave_high c : 0 <= c < 254 -> wave c POT_HIGH POT_HIGH POT_HIGH POT_HIGH = POT_HIGH.
Proof.
  intros H. assert (In c (seqZ 0 254)) as Hin by (apply list_elem_of_In, elem_of_seqZ; lia).
  clear H. revert c Hin. apply List.Forall_forall. apply (bool_decide_unpack _). by vm_compute.
Qed.

(** The interpolation is a number between 0 and 2. *)
Lemma interpolation_bound d : between32 d 0 -> between32 (interpolation d) 1.
Proof.
  intros Hd. unfold interpolation. apply f32_of_f64_le; [|lia].
  apply f64_of_f32_le in Hd; [|lia]. set (x := f64_of_f32 d) in *.
  assert (between64 QUAD2 (-2) /\ between64 QUAD1 0 /\ between64 QUAD0 0 /\
          2 ^ 1072 <= sunits 53 1024 QUAD0) as (H2 & H1 & H0 & Hlow)
    by (unfold between; apply (bool_decide_unpack _); by vm_compute).
  unfold f64_mul, f64_add, f64_prec, f64_emax. rewrite !mul_opp.
  assert (between64 (SFmul 53 1024 (SFmul 53 1024 QUAD2 x) x) (-2)) as [F2 B2].
  { apply (mul_le 53 1024 ltac:(lia) ltac:(lia) _ _ (-2) 0); try done.
    apply (mul_le 53 1024 ltac:(lia) ltac:(lia) _ _ (-2) 0); done. }
  assert (between64 (SFmul 53 1024 QUAD1 x) 0) as [F1 B1]
    by (by apply (mul_le 53 1024 ltac:(lia) ltac:(lia) _ _ 0 0)).
  set (t2 := SFmul 53 1024 (SFmul 53 1024 QUAD2 x) x) in *. set (t1 := SFmul 53 1024 QUAD1 x) in *.
  destruct (opp_fin 53 1024 t2) as [Fo Uo]. destruct H0 as [F0 B0].
  unfold SpecFloat.emin in *. change (-2 - (3 - 1024 - 53)) with 1072 in *.
  change (0 - (3 - 1024 - 53)) with 1074 in *. change (2 ^ 1074) with (4 * 2 ^ 1072) in *.
  assert (- top 53 1024 < sround 53 (- 2 ^ 1072) /\ sround 53 (4 * 2 ^ 1072) < top 53 1024 /\
          sround 53 (- 2 ^ 1072) = - 2 ^ 1072 /\ sround 53 (4 * 2 ^ 1072) = 4 * 2 ^ 1072 /\
          sround 53 0 = 0 /\ sround 53 (8 * 2 ^ 1072) = 8 * 2 ^ 1072 /\ 8 * 2 ^ 1072 < top 53 1024 /\
          - top 53 1024 < 0) as (T1 & T2 & R1 & R2 & R3 & R4 & T3 & T4)
    by (apply (bool_decide_unpack _); by vm_compute).
  remember (2 ^ 1072) as one eqn:Eone.
  destruct (add_between 53 1024 ltac:(lia) ltac:(lia) (SFopp t2) t1 (- one) (4 * one)) as [Fs Bs];
    [by rewrite Fo|done|done|done|lia|].
  destruct (add_between 53 1024 ltac:(lia) ltac:(lia) (SFadd 53 1024 (SFopp t2) t1) QUAD0 0 (8 * one)) as [Fr Br];
    [done|done|by rewrite R3|by rewrite R4|lia|].
  rewrite R3, R4 in Br. split; [done|].
  unfold SpecFloat.emin. change (1 - (3 - 1024 - 53)) with 1075. change (2 ^ 1075) with (8 * 2 ^ 1072).
  by rewrite <- Eone.
Qed.

(** The least of the two pairs, as the code finds it. *)
Lemma min_units a b : fin32 a = true -> fin32 b = true ->
  let m := if f32_lt a b then a else b in fin32 m = true /\ units32 m = Z.min (units32 a) (units32 b).
Proof. intros Fa Fb. rewrite lt32 by done. destruct (Z.ltb_spec (units32 a) (units32 b)); split; (done || lia). Qed.

Lemma sround_sign v : v < 0 -> sround 24 v < 0.
Proof.
  intros Hv. assert (sround 24 v <= sround 24 (-1)) as H by (apply sround_mono; lia).
  change (sround 24 (-1)) with (-1) in H. lia.
Qed.

(** The sign of a difference is exact. *)
Lemma sub32 x y : good x -> good y -> exists d, f32_sub x y = d /\ fin32 d = true /\
  (f32_lt d f32_zero = (units32 x <? units32 y)).
Proof.
  intros Hx Hy. destruct (good_fin x Hx) as [Fx Bx]. destruct (good_fin y Hy) as [Fy By].
  eexists. split; [done|]. unfold f32_sub. rewrite sub_add.
  destruct (opp_fin 24 128 y) as [Fo Uo]. rewrite Fy in Fo.
  assert (round_units 24 (Z.abs (units32 x + units32 (SFopp y))) < top 24 128) as Ht.
  { rewrite Uo. destruct (sround_nonneg 24 ltac:(lia) (Z.abs (units32 x + - units32 y)) ltac:(lia)) as [<- _].
    assert (sround 24 (Z.abs (units32 x + - units32 y)) <= sround 24 (10000000000 * 2 ^ 149)) as Hm
      by (apply sround_mono; lia).
    assert (sround 24 (10000000000 * 2 ^ 149) < top 24 128) by by vm_compute. lia. }
  destruct (add_spec 24 128 ltac:(lia) ltac:(lia) x (SFopp y) Fx Fo Ht) as [Fd Ud]. split; [done|].
  rewrite lt32, Ud, Uo by done. change (units32 f32_zero) with 0. apply eq_true_iff_eq.
  rewrite !Z.ltb_lt. split; intros H; [|apply sround_sign; lia].
  apply Z.lt_nge. intros Hge. pose proof (sround_mono 24 ltac:(lia) 0 (units32 x + - units32 y) ltac:(lia)) as Hm.
  change (sround 24 0) with 0 in Hm. lia.
Qed.

(** Adding at most 512 to a low potential leaves it low. *)
Lemma add_low v x k : low v -> between32 x k -> 0 <= k <= 9 -> low (f32_add v x).
Proof.
  intros [Fv Bv]%low_bound [Fx Bx] Hk.
  assert (2 ^ (k - SpecFloat.emin 24 128) <= 512 * 2 ^ 149) as Hle.
  { change (512 * 2 ^ 149) with (2 ^ 158). unfold SpecFloat.emin. apply Z.pow_le_mono_r; lia. }
  destruct (add32 v x 0 (2 ^ 33 * 2 ^ 149 + 512 * 2 ^ 149)) as [Fa Ba]; [done..|lia|].
  change (sround 24 0) with 0 in Ba.
  assert (sround 24 (2 ^ 33 * 2 ^ 149 + 512 * 2 ^ 149) = 2 ^ 33 * 2 ^ 149) as E by by vm_compute.
  rewrite E in Ba. by split.
Qed.

Lemma wave_min c ta dc : 0 <= c <= 255 -> low ta -> fin32 dc = true -> 0 <= units32 dc ->
  low (if f32_le (f32_of_Z c) dc then f32_add ta (f32_of_Z c)
       else f32_add ta (f32_mul (f32_of_Z c) (interpolation (f32_div dc (f32_of_Z c))))).
Proof.
  intros Hc Hta Fd Hd. destruct (cost_float c Hc) as [[Fc Bc] _].
  rewrite le32 by done. destruct (Z.leb_spec (units32 (f32_of_Z c)) (units32 dc)) as [Hle|Hgt].
  - apply (add_low _ _ 8); [done| |lia]. by split.
  - apply (add_low _ _ 9); [done| |lia]. apply (mul_le 24 128 ltac:(lia) ltac:(lia) _ _ 8 1); try done.
    apply interpolation_bound. by apply div_le.
Qed.

Lemma wave_low c l r u d : 0 <= c <= 255 -> good l -> good r -> good u -> good d ->
  low l \/ low r \/ low u \/ low d -> low (wave c l r u d).
Proof.
  intros Hc Gl Gr Gu Gd Hlow. unfold wave.
  set (tc := if f32_lt l r then l else r). set (ta := if f32_lt u d then u else d).
  assert (forall v, good v -> low v <-> units32 v <= 2 ^ 33 * 2 ^ 149) as Hu.
  { intros v Hv. split; [intros ?%low_bound; lia|]. intros Hle. destruct (good_fin v Hv) as [? ?].
    by split; [|split; [lia|]]. }
  destruct (good_fin l Gl) as [Fl _], (good_fin r Gr) as [Fr _], (good_fin u Gu) as [Fu _],
    (good_fin d Gd) as [Fd _].
  destruct (min_units l r Fl Fr) as [_ Utc]. destruct (min_units u d Fu Fd) as [_ Uta].
  fold tc in Utc. fold ta in Uta.
  assert (good tc) as Gtc by (unfold tc; by destruct (f32_lt l r)).
  assert (good ta) as Gta by (unfold ta; by destruct (f32_lt u d)).
  assert (low tc \/ low ta) as Hmin.
  { rewrite (Hu tc Gtc), (Hu ta Gta), Utc, Uta. rewrite !Hu in Hlow by done. lia. }
  destruct (sub32 tc ta Gtc Gta) as (dc & -> & Fdc & Hsign). rewrite Hsign.
  rewrite lt32 in Hsign by done. change (units32 f32_zero) with 0 in Hsign.
  rewrite (Hu tc Gtc), (Hu ta Gta) in Hmin.
  destruct (Z.ltb_spec (units32 tc) (units32 ta)) as [Hlt|Hge].
  - apply Z.ltb_lt in Hsign. destruct (opp_fin 24 128 dc) as [Fo Uo].
    apply wave_min; try done; [apply Hu; [done|lia]|by rewrite Fo|lia].
  - apply Z.ltb_ge in Hsign. apply wave_min; try done. apply Hu; [done|lia].
Qed.

(** What is compared with the potential of a neighbour stays below [POT_HIGH]. *)
Definition near (q : f32) : Prop := fin32 q = true /\ 0 <= units32 q <= (2 ^ 33 + 2 ^ 29) * 2 ^ 149.

Lemma low_near p : low p -> near p.
Proof. intros [? ?]%low_bound. split; [done|lia]. Qed.

Lemma not_pushed_low l q c : 0 <= c <= 255 -> good l -> near q ->
  f32_lt (f32_add q (margin c)) l = false -> low l.
Proof.
  intros Hc [|Hl] [Fq Bq] Hlt; [done|exfalso]. destruct (cost_float c Hc) as [_ [Fm Bm]].
  change (2 ^ (8 - SpecFloat.emin 24 128)) with (256 * 2 ^ 149) in Bm.
  destruct (add32 q (margin c) 0 ((2 ^ 33 + 2 ^ 29 + 256) * 2 ^ 149)) as [Fa Ba]; [done..|lia|].
  rewrite Hl, lt32, (proj2 high_units) in Hlt by (done || apply high_units). apply Z.ltb_ge in Hlt.
  assert (sround 24 ((2 ^ 33 + 2 ^ 29 + 256) * 2 ^ 149) < 10000000000 * 2 ^ 149) by by vm_compute. lia.
Qed.

(** ** Cells and paths

    The outermost cells of the map are obstacles, whatever they cost, so the neighbours of a
    passable cell by index are its neighbours in the grid. *)
Definition adjacent (w a b : Z) : Prop := b = a + 1 \/ b = a - 1 \/ b = a - w \/ b = a + w.

Definition passable (w h : Z) (cost : list Z) (c : Z) : Prop :=
  (0 < c mod w < w - 1 /\ 0 < c / w < h - 1) /\
  match cost !! Z.to_nat c with Some v => v < COST_OBS | None => False end.

#[export] Instance passable_dec w h cost c : Decision (passable w h cost c).
Proof. unfold passable. destruct (cost !! Z.to_nat c); apply _. Defined.

(** The cells linked to the goal cell [g] by a path of passable cells. *)
Inductive linked (w h : Z) (cost : list Z) (g : Z) : Z -> Prop :=
  | linked_goal : linked w h cost g g
  | linked_step a b : linked w h cost g a -> adjacent w a b -> passable w h cost b -> linked w h cost g b.

(** Every buffer can hold all passable cells. *)
Definition few (w h : Z) (cost : list Z) : Prop :=
  Z.of_nat (length (filter (passable w h cost) (seqZ 0 (w * h)))) <= PRIORITYBUFSIZE.

#[export] Instance few_dec w h cost : Decision (few w h cost).
Proof. unfold few. apply _. Defined.

(** The potential of a cell. *)
Definition value (s : navfn) (c : Z) : f32 :=
  match potarr s !! Z.to_nat c with Some (Some v) => v | _ => POT_HIGH end.

Lemma adjacent_comm w a b : adjacent w a b -> adjacent w b a.
Proof. unfold adjacent. lia. Qed.

Section Propagation.
Context (w h : Z) (cost : list Z) (st gl : Z * Z) (g : Z).
Hypothesis Hw : 0 < w.
Hypothesis Hh : 0 < h.
Hypothesis cost_len : Z.of_nat (length cost) = w * h.
Hypothesis cost_range : Forall (fun c => 0 <= c <= 255) cost.
(** The border is closed. *)
Hypothesis border : forall c v, 0 <= c < w * h -> cost !! Z.to_nat c = Some v -> v < COST_OBS ->
  passable w h cost c.

Abbreviation pass := (passable w h cost).
Abbreviation adj := (adjacent w).
Abbreviation reach := (linked w h cost g).

Lemma pass_interior c : pass c -> w <= c < w * h - w /\ 0 < c - 1 /\ c + 1 < w * h /\ 2 <= w.
Proof.
  intros [[Hx Hy] _]. pose proof (Z.div_mod c w ltac:(lia)) as Hc.
  assert (w * 1 <= w * (c / w) <= w * (h - 2)) by (split; apply Z.mul_le_mono_nonneg_l; lia). lia.
Qed.

Lemma pass_adjacent a b : pass a -> adj a b -> 0 <= b < w * h /\ b <> a.
Proof. intros Ha Hab. pose proof (pass_interior a Ha). unfold adjacent in Hab. lia. Qed.

Lemma cost_get c : 0 <= c < w * h -> exists v, aget cost c = Ok v /\ 0 <= v <= 255 /\ (v < COST_OBS <-> pass c).
Proof.
  intros Hc. destruct (lookup_lt_is_Some_2 cost (Z.to_nat c)) as [v Hv]; [lia|].
  exists v. split; [apply aget_ok; split; [lia|done]|].
  split; [by apply (proj1 (Forall_lookup _ _) cost_range _ _ Hv)|].
  split; [by apply border|]. intros [_ H]. by rewrite Hv in H.
Qed.

Record frame (s : navfn) : Prop := {
  f_nx : nx s = w;
  f_ny : ny s = h;
  f_ns : ns s = w * h;
  f_cost : costarr s = cost;
  f_start : start s = st;
  f_goal : goal s = gl;
  f_pot_len : Z.of_nat (length (potarr s)) = w * h;
  f_pot : forall c, 0 <= c < w * h -> exists v, potarr s !! Z.to_nat c = Some (Some v) /\ good v;
  f_pending : Z.of_nat (length (pending s)) = w * h;
  f_gradx : Z.of_nat (length (gradx s)) = w * h;
  f_grady : Z.of_nat (length (grady s)) = w * h }.

(** [Q] is the set of the cells whose pending flag is up. *)
Definition flags (Q : list Z) (s : navfn) : Prop :=
  NoDup Q /\ Forall pass Q /\
  (forall c, 0 <= c < w * h -> pending s !! Z.to_nat c = Some (bool_decide (c ∈ Q))).

Definition sizes (s : navfn) : Prop :=
  Z.of_nat (length (curP s)) <= PRIORITYBUFSIZE /\ Z.of_nat (length (nextP s)) <= PRIORITYBUFSIZE /\
  Z.of_nat (length (overP s)) <= PRIORITYBUFSIZE.

Definition sound (s : navfn) : Prop := forall c, 0 <= c < w * h -> low (value s c) -> reach c.

(** A passable neighbour of a cell with a potential has one, or is about to be updated. *)
Definition closed (todo : list Z) (s : navfn) : Prop := few w h cost ->
  forall a b, 0 <= a < w * h -> low (value s a) -> adj a b -> pass b -> low (value s b) \/ b ∈ todo.

(** A state that differs from [s] in pending flags and buffers only. *)
Definition same_core (s s' : navfn) : Prop :=
  s' = set_pending (pending s') (set_buffers (curP s') (nextP s') (overP s') s).

Lemma same_core_refl s : same_core s s.
Proof. by destruct s. Qed.

Lemma same_core_trans s1 s2 s3 : same_core s1 s2 -> same_core s2 s3 -> same_core s1 s3.
Proof. unfold same_core. intros H1 H2. rewrite H2, H1. done. Qed.

Lemma same_core_frame s s' : same_core s s' -> Z.of_nat (length (pending s')) = w * h -> frame s -> frame s'.
Proof. intros E Hp [H1 H2 H3 H4 H5 H6 H7 H8 H9 HA HB]. rewrite E. by constructor. Qed.

Lemma same_core_value s s' c : same_core s s' -> value s' c = value s c.
Proof. intros E. by rewrite E. Qed.

Lemma pot_value s c : frame s -> 0 <= c < w * h -> pot s c = Ok (value s c) /\ good (value s c).
Proof.
  intros F Hc. destruct (f_pot s F c Hc) as (v & Hv & Hg). unfold pot, fget, value.
  assert (aget (potarr s) c = Ok (Some v)) as -> by (apply aget_ok; split; [lia|done]).
  by rewrite Hv.
Qed.

Lemma flags_perm Q Q' s : Q ≡ₚ Q' -> flags Q s -> flags Q' s.
Proof.
  intros HQ (Hn & Hp & Hf). split; [by rewrite <- HQ|]. split; [by rewrite <- HQ|].
  intros c Hc. rewrite Hf by done. f_equal. apply bool_decide_ext. by rewrite HQ.
Qed.

Lemma flags_few Q s : few w h cost -> flags Q s -> Z.of_nat (length Q) <= PRIORITYBUFSIZE.
Proof.
  unfold few. intros Hf (Hn & Hp & _).
  assert (Q ⊆+ filter pass (seqZ 0 (w * h))) as Hsub.
  { apply NoDup_submseteq; [done|]. intros c Hc. apply list_elem_of_filter.
    pose proof (proj1 (list.Forall_forall _ _) Hp c Hc) as Hpc. split; [done|].
    apply elem_of_seqZ. pose proof (pass_interior c Hpc). lia. }
  apply submseteq_length in Hsub. lia.
Qed.

(** ** Pushing *)

Lemma may_push_ok Q s m P : frame s -> flags Q s ->
  may_push s m P = Ok (bool_decide (pass m /\ (m ∉ Q) /\ Z.of_nat (length P) < PRIORITYBUFSIZE)).
Proof.
  intros F (Hn & Hp & Hf). unfold may_push. rewrite (f_ns s F).
  destruct (decide (0 <= m < w * h)) as [Hm|Hm].
  - replace ((m >=? 0) && (m <? w * h)) with true by (symmetry; apply andb_true_iff; split; [apply Z.geb_le|apply Z.ltb_lt]; lia).
    assert (aget (pending s) m = Ok (bool_decide (m ∈ Q))) as -> by (apply aget_ok; split; [lia|by apply Hf]).
    rewrite bind_Ok. destruct (bool_decide_reflect (m ∈ Q)) as [Hq|Hq].
    + f_equal. symmetry. apply bool_decide_eq_false. tauto.
    + destruct (cost_get m Hm) as (v & Hv & _ & Hvp). rewrite (f_cost s F), Hv, bind_Ok. f_equal.
      apply eq_true_iff_eq. rewrite bool_decide_eq_true, andb_true_iff, !Z.ltb_lt. tauto.
  - replace ((m >=? 0) && (m <? w * h)) with false.
    + f_equal. symmetry. apply bool_decide_eq_false. intros [Hpm _]. pose proof (pass_interior m Hpm). lia.
    + symmetry. apply andb_false_iff. rewrite Z.geb_leb, Z.leb_gt, Z.ltb_ge. lia.
Qed.

Lemma mark_ok Q s m : Z.of_nat (length (pending s)) = w * h -> flags Q s -> pass m -> m ∉ Q ->
  exists l, mark m s = Ok (set_pending l s) /\ Z.of_nat (length l) = w * h /\
    forall s', pending s' = l -> flags (m :: Q) s'.
Proof.
  intros Hlen (Hn & Hp & Hf) Hm Hq. pose proof (pass_interior m Hm).
  exists (<[Z.to_nat m := true]> (pending s)). unfold mark.
  assert (aset (pending s) m true = Ok (<[Z.to_nat m := true]> (pending s))) as ->
    by (apply aset_ok; split; [lia|done]).
  split; [done|]. split; [by rewrite length_insert|]. intros s' Hs'. unfold flags. rewrite Hs'.
  split; [by constructor|]. split; [by constructor|]. intros c Hc.
  destruct (decide (c = m)) as [->|Hne].
  - rewrite list_lookup_insert_eq by lia. f_equal. symmetry. apply bool_decide_eq_true. by left.
  - rewrite list_lookup_insert_ne by lia. rewrite Hf by done. f_equal. apply bool_decide_ext.
    rewrite elem_of_cons. tauto.
Qed.

(** The cells that wait in the two buffers filled by an update. *)
Definition waiting (s : navfn) : list Z := nextP s ++ overP s.

Definition ready (s : navfn) : Prop := frame s /\ flags (waiting s) s /\ sizes s.

(** The effect of pushing [m]. *)
Record pushed (m : Z) (s s' : navfn) : Prop := {
  p_core : same_core s s';
  p_cur : curP s' = curP s;
  p_ready : ready s';
  p_keeps : forall c, c ∈ waiting s -> c ∈ waiting s';
  p_new : few w h cost -> pass m -> m ∈ waiting s' }.

Lemma push_ok push m s : push = push_next \/ push = push_over -> ready s ->
  exists s', push m s = Ok s' /\ pushed m s s'.
Proof.
  intros Hpush (F & Hf & Hs).
  assert (forall P : list Z, (length P <= length (waiting s))%nat ->
    bool_decide (pass m /\ (m ∉ waiting s) /\ Z.of_nat (length P) < PRIORITYBUFSIZE) = false ->
    pushed m s s) as Hskip.
  { intros P HP Hb%bool_decide_eq_false. constructor; try done; [apply same_core_refl|].
    intros Hfew Hm. destruct (decide (m ∈ waiting s)) as [|Hq]; [done|]. exfalso. apply Hb.
    split; [done|]. split; [done|].
    assert (flags (m :: waiting s) (set_pending (<[Z.to_nat m := true]> (pending s)) s)) as Hf'.
    { destruct (mark_ok _ s m (f_pending s F) Hf Hm Hq) as (l & Hl & _ & Hx). unfold mark in Hl.
      res_inv. by apply Hx. }
    apply (flags_few _ _ Hfew) in Hf'. cbn [length] in Hf'. lia. }
  destruct Hpush as [-> | ->]; [unfold push_next|unfold push_over];
    rewrite (may_push_ok (waiting s)) by done; rewrite bind_Ok;
    case_bool_decide as Hb;
    try (eexists; split; [reflexivity|]; eapply Hskip;
         [|by apply bool_decide_eq_false, Hb]; unfold waiting; rewrite length_app; lia);
    destruct Hb as (Hm & Hq & Hlt);
    destruct (mark_ok _ s m (f_pending s F) Hf Hm Hq) as (l & Hl & Hlen & Hx);
    (unfold mark in Hl |- *); cbn [pending set_buffers set_prop];
    destruct (aset (pending s) m true) as [l'| |] eqn:Ha; try done; injection Hl as Hl;
    eexists; (split; [reflexivity|]).
  - subst l'.
    constructor; try done.
    + split; [|split].
      * by apply (same_core_frame s); [by destruct s| |].
      * apply (flags_perm (m :: waiting s)); [|by apply Hx].
        unfold waiting. cbn. rewrite <- app_assoc. apply Permutation_middle.
      * destruct Hs as (? & ? & ?). split; [done|]. split; [|done]. cbn. rewrite length_app. cbn. lia.
    + intros c. unfold waiting. cbn. rewrite !elem_of_app. tauto.
    + intros _ _. unfold waiting. cbn. rewrite !elem_of_app, list_elem_of_singleton. tauto.
  - subst l'.
    constructor; try done.
    + split; [|split].
      * by apply (same_core_frame s); [by destruct s| |].
      * apply (flags_perm (m :: waiting s)); [|by apply Hx].
        unfold waiting. cbn. rewrite app_assoc. apply Permutation_cons_append.
      * destruct Hs as (? & ? & ?). split; [done|]. split; [done|]. cbn. rewrite length_app. cbn. lia.
    + intros c. unfold waiting. cbn. rewrite !elem_of_app. tauto.
    + intros _ _. unfold waiting. cbn. rewrite !elem_of_app, list_elem_of_singleton. tauto.
Qed.

(** A push that depends on a condition. *)
Lemma push_if (b : bool) push m s : push = push_next \/ push = push_over -> ready s ->
  exists s', (if b then push m s else Ok s) = Ok s' /\ same_core s s' /\ curP s' = curP s /\ ready s' /\
    (forall c, c ∈ waiting s -> c ∈ waiting s') /\
    (b = true -> few w h cost -> pass m -> m ∈ waiting s').
Proof.
  intros Hpush Hr. destruct b.
  - destruct (push_ok push m s Hpush Hr) as (s' & -> & [H1 H2 H3 H4 H5]). eauto 10.
  - exists s. split; [done|]. split; [apply same_core_refl|]. done.
Qed.

(** ** Updating one cell *)

(** Cells keep having a potential. *)
Definition lasting (s s' : navfn) : Prop :=
  forall c, 0 <= c < w * h -> low (value s c) -> low (value s' c).

Definition priority_ok (priority : navfn -> f32 -> res f32) : Prop :=
  forall s p, frame s -> low p -> exists q, priority s p = Ok q /\ near q.

Lemma value_set s n p a c : 0 <= n -> 0 <= c -> aset (potarr s) n (Some p) = Ok a ->
  value (set_potarr a s) c = if bool_decide (c = n) then p else value s c.
Proof.
  intros Hn Hc [Hr ->]%aset_ok. unfold value. cbn [potarr set_potarr set_arrays].
  case_bool_decide as Hcn.
  - subst c. by rewrite list_lookup_insert_eq by lia.
  - by rewrite list_lookup_insert_ne by lia.
Qed.

Lemma set_pot_ready s n p : ready s -> 0 <= n < w * h -> low p ->
  exists a, aset (potarr s) n (Some p) = Ok a /\ ready (set_potarr a s).
Proof.
  intros ([] & Hf & Hs) Hn Hp. eexists. split; [apply aset_ok; split; [lia|done]|].
  split; [|by split]. constructor; try done; cbn [potarr set_potarr set_arrays].
  - by rewrite length_insert.
  - intros c Hc. destruct (decide (c = n)) as [->|Hne].
    + rewrite list_lookup_insert_eq by lia. exists p. split; [done|]. by left.
    + rewrite list_lookup_insert_ne by lia. auto.
Qed.

(** The four neighbours in the order of the code. *)
Lemma adjacent_cases a b : adj a b <-> b = a - 1 \/ b = a + 1 \/ b = a - w \/ b = a + w.
Proof. unfold adjacent. lia. Qed.

(** Pushing the neighbours that gain. *)
Lemma push_neighbours push n q l r u d ml mr mu md s : push = push_next \/ push = push_over -> ready s ->
  exists s', (s ← (if f32_lt (f32_add q ml) l then push (n - 1) s else Ok s);
              s ← (if f32_lt (f32_add q mr) r then push (n + 1) s else Ok s);
              s ← (if f32_lt (f32_add q mu) u then push (n - nx s) s else Ok s);
              if f32_lt (f32_add q md) d then push (n + nx s) s else Ok s) = Ok s' /\
    same_core s s' /\ curP s' = curP s /\ ready s' /\ (forall c, c ∈ waiting s -> c ∈ waiting s') /\
    (few w h cost ->
      (f32_lt (f32_add q ml) l = true -> pass (n - 1) -> n - 1 ∈ waiting s') /\
      (f32_lt (f32_add q mr) r = true -> pass (n + 1) -> n + 1 ∈ waiting s') /\
      (f32_lt (f32_add q mu) u = true -> pass (n - w) -> n - w ∈ waiting s') /\
      (f32_lt (f32_add q md) d = true -> pass (n + w) -> n + w ∈ waiting s')).
Proof.
  intros Hp Hr.
  destruct (push_if (f32_lt (f32_add q ml) l) push (n - 1) s Hp Hr) as (s1 & -> & C1 & E1 & R1 & K1 & N1).
  rewrite bind_Ok.
  destruct (push_if (f32_lt (f32_add q mr) r) push (n + 1) s1 Hp R1) as (s2 & -> & C2 & E2 & R2 & K2 & N2).
  rewrite bind_Ok.
  destruct (push_if (f32_lt (f32_add q mu) u) push (n - nx s2) s2 Hp R2) as (s3 & -> & C3 & E3 & R3 & K3 & N3).
  rewrite bind_Ok.
  destruct (push_if (f32_lt (f32_add q md) d) push (n + nx s3) s3 Hp R3) as (s4 & -> & C4 & E4 & R4 & K4 & N4).
  rewrite (f_nx s2 (proj1 R2)) in N3. rewrite (f_nx s3 (proj1 R3)) in N4.
  exists s4. split; [done|].
  split; [by eauto using same_core_trans|]. split; [congruence|]. split; [done|].
  split; [auto|]. intros Hfew. auto 10.
Qed.

(** The potential an update computes from the four neighbours. *)
Definition new_potential (c n : Z) (s : navfn) : f32 :=
  wave c (value s (n - 1)) (value s (n + 1)) (value s (n - w)) (value s (n + w)).

(** It is low when a neighbour has a potential, and [POT_HIGH] otherwise. *)
Lemma new_potential_cases c n s : frame s -> pass n -> 0 <= c < COST_OBS ->
  (low (new_potential c n s) /\ exists a, adj a n /\ 0 <= a < w * h /\ low (value s a)) \/
  (new_potential c n s = POT_HIGH /\ forall a, adj a n -> ~ low (value s a)).
Proof.
  intros F Hn Hc. unfold COST_OBS in Hc.
  assert (forall b, adj n b -> 0 <= b < w * h /\ good (value s b)) as Hg.
  { intros b Hb. destruct (pass_adjacent n b Hn Hb) as [Hr _]. split; [done|]. by apply pot_value. }
  assert (forall b, adj n b -> low (value s b) -> low (new_potential c n s) /\
            exists a, adj a n /\ 0 <= a < w * h /\ low (value s a)) as Hlow.
  { intros b Hb Hl. split.
    - apply wave_low; [lia|apply Hg; apply adjacent_cases; auto..|].
      apply adjacent_cases in Hb. destruct Hb as [->|[->|[->| ->]]]; auto.
    - exists b. split; [by apply adjacent_comm|]. split; [by apply Hg|done]. }
  assert (forall b, adj n b -> low (value s b) \/ value s b = POT_HIGH) as Hor by (intros b Hb; by apply Hg).
  destruct (Hor (n - 1)) as [Hl|El]; [apply adjacent_cases; auto|left; apply (Hlow (n - 1)); [apply adjacent_cases; auto|done]|].
  destruct (Hor (n + 1)) as [Hl|Er]; [apply adjacent_cases; auto|left; apply (Hlow (n + 1)); [apply adjacent_cases; auto|done]|].
  destruct (Hor (n - w)) as [Hl|Eu]; [apply adjacent_cases; auto|left; apply (Hlow (n - w)); [apply adjacent_cases; auto|done]|].
  destruct (Hor (n + w)) as [Hl|Ed]; [apply adjacent_cases; auto 6|left; apply (Hlow (n + w)); [apply adjacent_cases; auto 6|done]|].
  right. split; [unfold new_potential; rewrite El, Er, Eu, Ed; by apply wave_high|].
  intros a Ha%adjacent_comm. apply adjacent_cases in Ha.
  destruct Ha as [->|[->|[->| ->]]]; rewrite ?El, ?Er, ?Eu, ?Ed; apply low_not_high.
Qed.

(** The update of a cell that has a neighbour with a potential lowers the cell and pushes the
    neighbours that gain, or leaves the cell, which has a potential already. *)
Definition lower_cell (priority : navfn -> f32 -> res f32) (n : Z) (p : f32) (m : Z -> f32) (s : navfn) : res navfn :=
  q ← priority s p;
  a ← aset (potarr s) n (Some p);
  let t := set_potarr a s in
  let push := if f32_lt q (curT t) then push_next else push_over in
  t ← (if f32_lt (f32_add q (m (n - 1))) (value s (n - 1)) then push (n - 1) t else Ok t);
  t ← (if f32_lt (f32_add q (m (n + 1))) (value s (n + 1)) then push (n + 1) t else Ok t);
  t ← (if f32_lt (f32_add q (m (n - w))) (value s (n - w)) then push (n - nx t) t else Ok t);
  if f32_lt (f32_add q (m (n + w))) (value s (n + w)) then push (n + nx t) t else Ok t.

Lemma update_reads priority n s : frame s -> pass n -> exists c m, 0 <= c < COST_OBS /\
  (forall b, adj n b -> exists v, 0 <= v <= 255 /\ m b = margin v) /\
  update_with priority n s =
    if f32_lt (new_potential c n s) (value s n) then lower_cell priority n (new_potential c n s) m s else Ok s.
Proof.
  intros F Hn. pose proof (pass_interior n Hn) as Hint.
  set (m b := margin (default 0 (cost !! Z.to_nat b))).
  assert (forall b, 0 <= b < w * h -> exists v, aget cost b = Ok v /\ 0 <= v <= 255 /\ m b = margin v) as Hcost.
  { intros b Hb. destruct (cost_get b Hb) as (v & Hv & Hr & _). exists v. split; [done|]. split; [done|].
    apply aget_ok in Hv as [_ Hv]. unfold m. by rewrite Hv. }
  destruct (cost_get n ltac:(lia)) as (c & Cn & Bn & Hc). apply Hc in Hn as Hobs.
  exists c, m. split; [lia|]. split.
  { intros b Hb. destruct (pass_adjacent n b Hn Hb) as [Hr _]. destruct (Hcost b Hr) as (v & _ & ? & ?). eauto. }
  destruct (Hcost (n - 1) ltac:(lia)) as (cl & Cl & _ & El). destruct (Hcost (n + 1) ltac:(lia)) as (cr & Cr & _ & Er).
  destruct (Hcost (n - w) ltac:(lia)) as (cu & Cu & _ & Eu). destruct (Hcost (n + w) ltac:(lia)) as (cd & Cd & _ & Ed).
  unfold update_with, lower_cell, new_potential. rewrite El, Er, Eu, Ed, (f_nx s F), (f_cost s F).
  rewrite !(fun b Hb => proj1 (pot_value s b F Hb)) by lia.
  by rewrite !bind_Ok, Cn, bind_Ok, (proj2 (Z.ltb_lt _ _) Hobs), bind_Ok, Cl, Cr, Cu, Cd, !bind_Ok.
Qed.

Lemma lower_cell_ok priority n p m s : priority_ok priority -> ready s -> pass n -> low p ->
  (forall b, adj n b -> exists v, 0 <= v <= 255 /\ m b = margin v) ->
  exists s', lower_cell priority n p m s = Ok s' /\ curP s' = curP s /\ ready s' /\
    (forall b, 0 <= b < w * h -> value s' b = if bool_decide (b = n) then p else value s b) /\
    (forall c, c ∈ waiting s -> c ∈ waiting s') /\
    (few w h cost -> forall b, adj n b -> pass b -> low (value s b) \/ b ∈ waiting s').
Proof.
  intros Hprio Hr Hn Hlp Hm. pose proof (pass_interior n Hn) as Hint. unfold lower_cell.
  destruct (Hprio s p (proj1 Hr) Hlp) as (q & -> & Hq). rewrite bind_Ok.
  destruct (set_pot_ready s n p Hr ltac:(lia) Hlp) as (arr & Harr & Hr1). rewrite Harr, bind_Ok.
  set (s1 := set_potarr arr s) in *. cbv zeta.
  set (push := if f32_lt q (curT s1) then push_next else push_over).
  assert (push = push_next \/ push = push_over) as Hpush by (unfold push; destruct (f32_lt q _); auto).
  destruct (push_neighbours push n q (value s (n - 1)) (value s (n + 1)) (value s (n - w)) (value s (n + w))
              (m (n - 1)) (m (n + 1)) (m (n - w)) (m (n + w)) s1 Hpush Hr1)
    as (s' & Hs' & Hcore & Hcur & Hr' & Hk & Hnew).
  rewrite Hs'. exists s'. split; [done|]. split; [by rewrite Hcur|]. split; [done|]. split; [|split; [done|]].
  - intros b Hb. rewrite (same_core_value s1) by done. apply value_set; [lia|lia|done].
  - intros Hfew b Hb Hpb. destruct (Hnew Hfew) as (N1 & N2 & N3 & N4).
    destruct (Hm b Hb) as (v & Hv & Em). destruct (pass_adjacent n b Hn Hb) as [Hrb _].
    assert ((f32_lt (f32_add q (m b)) (value s b) = true -> b ∈ waiting s') ->
            low (value s b) \/ b ∈ waiting s') as Hone.
    { intros Hpb'. destruct (f32_lt (f32_add q (m b)) (value s b)) eqn:Hlt; [auto|left].
      rewrite Em in Hlt. apply (not_pushed_low _ q v); try done. exact (proj2 (pot_value s b (proj1 Hr) Hrb)). }
    apply Hone. apply adjacent_cases in Hb. destruct Hb as [->|[->|[->| ->]]]; auto.
Qed.

(** A cell that needs no further update leaves the list. *)
Lemma closed_drop T n s : closed (n :: T) s ->
  (few w h cost -> forall a, 0 <= a < w * h -> low (value s a) -> adj a n -> low (value s n)) -> closed T s.
Proof.
  intros Hcl Hn Hfew a b Ha Hla Hab Hb.
  destruct (Hcl Hfew a b Ha Hla Hab Hb) as [|Hin]; [by left|].
  apply elem_of_cons in Hin as [->|]; [|by right]. left. eauto.
Qed.

Lemma update_ok priority T n s : priority_ok priority -> ready s -> sound s -> pass n ->
  closed (n :: T ++ waiting s) s ->
  exists s', update_with priority n s = Ok s' /\ curP s' = curP s /\ ready s' /\ sound s' /\
    lasting s s' /\ closed (T ++ waiting s') s'.
Proof.
  intros Hprio Hr Hsound Hn Hcl. pose proof (proj1 Hr) as F. pose proof (pass_interior n Hn) as Hint.
  destruct (pot_value s n F ltac:(lia)) as [_ Gn].
  destruct (update_reads priority n s F Hn) as (c & m & Hc & Hm & ->).
  destruct (new_potential_cases c n s F Hn Hc) as [[Hlp (a & Han & Ha & Hla)]|[Hp Hall]].
  - destruct (f32_lt (new_potential c n s) (value s n)) eqn:Hlt.
    + destruct (lower_cell_ok priority n (new_potential c n s) m s) as (s' & -> & E & R & Hv & K & Hnew); try done.
      exists s'. split; [done|]. split; [done|]. split; [done|]. split; [|split].
      * intros b Hb. rewrite Hv by done. case_bool_decide as Hbn; [|by apply Hsound].
        intros _. subst b. apply (linked_step w h cost g a n); [by apply Hsound|done|done].
      * intros b Hb Hlb. rewrite Hv by done. by case_bool_decide.
      * intros Hfew x b Hx Hlx Hxb Hb.
        assert (0 <= b < w * h) as Hbr by (pose proof (pass_interior b Hb); lia).
        rewrite (Hv x) in Hlx by done. rewrite (Hv b) by done. rewrite elem_of_app.
        destruct (bool_decide_reflect (b = n)) as [Hbn|Hbn]; [by left|].
        destruct (bool_decide_reflect (x = n)) as [->|Hxn].
        -- destruct (Hnew Hfew b Hxb Hb); auto.
        -- destruct (Hcl Hfew x b Hx Hlx Hxb Hb) as [|Hin]; [by left|right].
           apply elem_of_cons in Hin as [|Hin]; [done|]. apply elem_of_app in Hin as [|]; auto.
    + exists s. split; [done|]. split; [done|]. split; [done|]. split; [done|]. split; [by intros ? ?|].
      apply (closed_drop _ n); [done|]. intros _ _ _ _ _. destruct Gn as [|Hh']; [done|]. exfalso.
      by rewrite Hh', (proj2 (low_lt _ (or_introl Hlp))) in Hlt.
  - assert (f32_lt (new_potential c n s) (value s n) = false) as ->.
    { rewrite Hp. destruct (good_fin _ Gn) as [Fn Bnd]. rewrite lt32 by (done || apply high_units).
      rewrite (proj2 high_units). apply Z.ltb_ge. lia. }
    exists s. split; [done|]. split; [done|]. split; [done|]. split; [done|]. split; [by intros ? ?|].
    apply (closed_drop _ n); [done|]. intros _ x _ Hlx Hx. exfalso. by apply (Hall x).
Qed.

(** ** A cycle *)

(** The state between two cycles. *)
Record settled (s : navfn) : Prop := {
  b_frame : frame s;
  b_flags : flags (curP s ++ nextP s ++ overP s) s;
  b_sizes : sizes s;
  b_sound : sound s;
  b_goal : low (value s g);
  b_closed : closed (curP s ++ nextP s ++ overP s) s;
  b_next : nextP s = [];
  b_over : curP s = [] -> overP s = [] }.

Lemma unmark_ok l Q s : frame s -> flags (l ++ Q) s ->
  exists s', for_list unmark l s = Ok s' /\ same_core s s' /\ curP s' = curP s /\ waiting s' = waiting s /\
    flags Q s' /\ frame s'.
Proof.
  revert s. induction l as [|m l IH]; intros s F Hf.
  - exists s. split; [done|]. split; [apply same_core_refl|]. done.
  - cbn [for_list app] in *. destruct Hf as (Hn & Hp & Hf).
    apply list.NoDup_cons in Hn as [Hm Hn]. apply list.Forall_cons in Hp as [Hpm Hp].
    pose proof (pass_interior m Hpm). pose proof (f_pending s F).
    change (unmark m s) with (l ← aset (pending s) m false; Ok (set_pending l s)).
    assert (aset (pending s) m false = Ok (<[Z.to_nat m := false]> (pending s))) as ->
      by (apply aset_ok; split; [lia|done]).
    rewrite !bind_Ok. set (s1 := set_pending (<[Z.to_nat m := false]> (pending s)) s).
    assert (same_core s s1) as C1 by by destruct s.
    assert (frame s1) as F1.
    { apply (same_core_frame s); [done| |done]. unfold s1. cbn. by rewrite length_insert. }
    destruct (IH s1 F1) as (s' & -> & C & E1 & E2 & Hf' & F').
    { split; [done|]. split; [done|]. intros c Hc. unfold s1. cbn [pending set_pending set_arrays].
      destruct (decide (c = m)) as [->|Hne].
      - rewrite list_lookup_insert_eq by lia. f_equal. symmetry. by apply bool_decide_eq_false.
      - rewrite list_lookup_insert_ne by lia. rewrite Hf by done. f_equal. apply bool_decide_ext.
        rewrite elem_of_cons. tauto. }
    exists s'. split; [done|]. split; [by eapply same_core_trans|]. split; [by rewrite E1|].
    split; [by rewrite E2|]. done.
Qed.

(** ** The start of the propagation *)

Lemma push_cur_ok m s : frame s -> flags (curP s) s -> Z.of_nat (length (curP s)) < PRIORITYBUFSIZE ->
  exists s', push_cur m s = Ok s' /\ same_core s s' /\ frame s' /\ flags (curP s') s' /\
    nextP s' = nextP s /\ overP s' = overP s /\ (length (curP s') <= S (length (curP s)))%nat /\
    (forall c, c ∈ curP s -> c ∈ curP s') /\ (pass m -> m ∈ curP s').
Proof.
  intros F Hf Hlen. unfold push_cur. rewrite (may_push_ok (curP s)) by done. rewrite bind_Ok.
  case_bool_decide as Hb.
  - destruct Hb as (Hm & Hq & _).
    destruct (mark_ok _ s m (f_pending s F) Hf Hm Hq) as (l & Hl & Hll & Hx). unfold mark in Hl |- *.
    cbn [pending set_buffers set_prop].
    destruct (aset (pending s) m true) as [l'| |]; try done. injection Hl as Hl. subst l'.
    eexists. split; [reflexivity|]. split; [by destruct s|].
    split; [by apply (same_core_frame s); [by destruct s| |]|].
    split; [apply (flags_perm (m :: curP s)); [cbn; apply Permutation_cons_append|by apply Hx]|].
    split; [done|]. split; [done|]. split; [cbn; rewrite length_app; cbn; lia|].
    split; [intros c; cbn; rewrite elem_of_app; tauto|].
    intros _. cbn. rewrite elem_of_app, list_elem_of_singleton. tauto.
  - exists s. split; [done|]. split; [apply same_core_refl|]. split; [done|]. split; [done|].
    split; [done|]. split; [done|]. split; [lia|]. split; [done|].
    intros Hm. destruct (decide (m ∈ curP s)); [done|]. exfalso. tauto.
Qed.

(** The state before the goal cell gets its potential: nothing has one, nothing waits. *)
Record blank (s : navfn) : Prop := {
  k_frame : frame s;
  k_high : forall c, 0 <= c < w * h -> value s c = POT_HIGH;
  k_pending : forall c, 0 <= c < w * h -> pending s !! Z.to_nat c = Some false;
  k_cur : curP s = []; k_nextP : nextP s = []; k_overP : overP s = [] }.

Lemma init_ok s : blank s -> 0 <= g < w * h ->
  exists s', initCost g f32_zero s = Ok s' /\ settled s'.
Proof.
  intros [F Hhigh Hpend Hcur Hnext Hover] Hg. unfold initCost.
  assert (low f32_zero) as Hzero by by split.
  assert (flags [] s) as Hf.
  { split; [constructor|]. split; [constructor|]. intros c Hc. by rewrite Hpend by done. }
  assert (ready s) as Hr by (split; [done|]; unfold waiting, sizes; by rewrite Hcur, Hnext, Hover).
  destruct (set_pot_ready s g f32_zero Hr Hg Hzero) as (a & Ha & F0 & _). rewrite Ha, bind_Ok.
  set (s0 := set_potarr a s) in *.
  assert (curP s0 = []) as E0 by exact Hcur.
  assert (flags (curP s0) s0) as Hf0 by (rewrite E0; exact Hf).
  destruct (push_cur_ok (g + 1) s0) as (s1 & -> & C1 & F1 & Hf1 & N1 & O1 & L1 & K1 & P1); try done;
    [by rewrite E0|]. rewrite bind_Ok. rewrite E0 in L1. cbn in L1.
  destruct (push_cur_ok (g - 1) s1) as (s2 & -> & C2 & F2 & Hf2 & N2 & O2 & L2 & K2 & P2); try done;
    [unfold PRIORITYBUFSIZE; lia|]. rewrite bind_Ok, (f_nx s2 F2).
  destruct (push_cur_ok (g - w) s2) as (s3 & -> & C3 & F3 & Hf3 & N3 & O3 & L3 & K3 & P3); try done;
    [unfold PRIORITYBUFSIZE; lia|]. rewrite bind_Ok, (f_nx s3 F3).
  destruct (push_cur_ok (g + w) s3) as (s4 & -> & C4 & F4 & Hf4 & N4 & O4 & L4 & K4 & P4); try done;
    [unfold PRIORITYBUFSIZE; lia|].
  exists s4. split; [done|].
  assert (nextP s4 = []) as En by (by rewrite N4, N3, N2, N1).
  assert (overP s4 = []) as Eo by (by rewrite O4, O3, O2, O1).
  assert (forall c, 0 <= c < w * h -> value s4 c = if bool_decide (c = g) then f32_zero else POT_HIGH) as Hv.
  { intros c Hc. rewrite (same_core_value s0 s4) by eauto using same_core_trans.
    unfold s0. rewrite (value_set s g f32_zero a c) by (done || lia). case_bool_decide; [done|by apply Hhigh]. }
  constructor; try done; rewrite ?En, ?Eo, ?app_nil_r; try done.
  - unfold sizes. rewrite En, Eo. unfold PRIORITYBUFSIZE. cbn. lia.
  - intros c Hc. rewrite Hv by done. case_bool_decide as Hcg; [|by intros ?%low_not_high].
    intros _. subst c. constructor.
  - rewrite Hv by done. by rewrite bool_decide_eq_true_2.
  - intros _ x b Hx. rewrite Hv by done. case_bool_decide as Hxg; [|by intros ?%low_not_high].
    subst x. intros _ Hb Hpb. right. unfold adjacent in Hb. destruct Hb as [->|[->|[->| ->]]]; auto.
Qed.

(** ** The updates of a cycle *)

(** The updates of a propagation, and what its priorities promise. *)
Context (priority : Z -> navfn -> f32 -> res f32).
Hypothesis priorities : forall n, pass n -> priority_ok (priority n).
Abbreviation upd := (fun n => update_with (priority n) n).

Lemma updates_ok l s : ready s -> sound s -> Forall pass l ->
  closed (l ++ waiting s) s ->
  exists s', for_list upd l s = Ok s' /\ curP s' = curP s /\ ready s' /\ sound s' /\
    lasting s s' /\ closed (waiting s') s'.
Proof.
  revert s. induction l as [|n l IH]; intros s Hr Hs Hl Hc.
  - exists s. split; [done|]. split; [done|]. split; [done|]. split; [done|]. split; [by intros ? ?|done].
  - apply list.Forall_cons in Hl as [Hn Hl]. cbn [for_list].
    destruct (update_ok (priority n) l n s (priorities n Hn) Hr Hs Hn Hc) as (s1 & -> & E1 & R1 & S1 & K1 & C1). rewrite bind_Ok.
    destruct (IH s1 R1 S1 Hl C1) as (s' & -> & E & R & S & K & C).
    exists s'. split; [done|]. split; [congruence|]. split; [done|]. split; [done|]. split; [|done].
    intros c Hc' Hlc. auto.
Qed.

Lemma cycle_ok s : settled s -> 0 <= g < w * h ->
  exists s', process upd s = Ok s' /\ settled (exchange s').
Proof.
  intros [F Hf Hsz Hs Hgoal Hc Hn Ho] Hg. unfold process.
  destruct (unmark_ok (curP s) (nextP s ++ overP s) s F Hf) as (s1 & -> & C1 & E1 & W1 & Hf1 & F1).
  rewrite bind_Ok, E1.
  assert (sizes s1) as Hsz1.
  { destruct Hsz as (? & ? & ?). unfold waiting in W1. assert (length (nextP s1 ++ overP s1) = length (overP s)) as Hl
      by (by rewrite W1, Hn). rewrite length_app in Hl. unfold sizes. rewrite E1. lia. }
  destruct (updates_ok (curP s) s1) as (s2 & -> & E2 & (F2 & Hf2 & Hsz2) & S2 & K2 & C2); try done.
  - split; [done|]. split; [|done]. rewrite W1. done.
  - intros c Hc'. rewrite (same_core_value s s1) by done. by apply Hs.
  - destruct Hf as (_ & Hall & _). by apply list.Forall_app in Hall as [? _].
  - rewrite W1. intros Hfew a b. rewrite !(same_core_value s s1) by done. by apply Hc.
  - exists s2. split; [done|]. unfold exchange.
    assert (low (value s2 g)) as Hgoal2 by (apply K2; [done|]; by rewrite (same_core_value s s1)).
    destruct Hsz2 as (? & ? & ?). unfold waiting in *.
    case_bool_decide as Hcur; cbn [curP set_buffers set_prop] in Hcur.
    + assert (nextP s2 = []) as Hn2 by exact Hcur. rewrite Hn2 in *.
      constructor; cbn.
      * by destruct F2; constructor.
      * rewrite app_nil_r. by apply Hf2.
      * unfold sizes. cbn. done.
      * apply S2.
      * apply Hgoal2.
      * rewrite app_nil_r. apply C2.
      * done.
      * done.
    + constructor; cbn.
      * by destruct F2; constructor.
      * by apply Hf2.
      * unfold sizes. cbn. done.
      * apply S2.
      * apply Hgoal2.
      * apply C2.
      * done.
      * intros He. exfalso. by apply Hcur.
Qed.

(** ** The loop *)

Lemma propagate_ok cancel reached : 0 <= g < w * h ->
  (forall s, settled s -> exists b, reached s = Ok b) ->
  forall rest cycle nc s, settled s -> 0 <= nc -> nc + PRIORITYBUFSIZE * Z.of_nat rest < 2 ^ 31 ->
  exists r s', propagate upd cancel reached rest cycle nc s = (r, s') /\ settled s' /\
    ((r = Throw planner_cancelled /\ exists i, cancel i = true) \/ r = Ok false \/
     (r = Ok true /\ (curP s' ++ nextP s' ++ overP s' = [] \/ reached s' = Ok true))).
Proof.
  intros Hg Hreached. induction rest as [|rest IH]; intros cycle nc s Hs Hnc Hbound; cbn [propagate].
  - exists (Ok false), s. auto.
  - destruct (_ && cancel _) eqn:Hcancel.
    { exists (Throw planner_cancelled), s. split; [done|]. split; [done|]. left. split; [done|].
      apply andb_true_iff in Hcancel as [_ Hc]. eauto. }
    expose. unfold get. expose.
    destruct (bool_decide (curP s = []) && bool_decide (nextP s = [])) eqn:Hempty.
    { exists (Ok true), s. split; [done|]. split; [done|]. right. right. split; [done|]. left.
      apply andb_true_iff in Hempty as [Hcur%bool_decide_eq_true _].
      by rewrite Hcur, (b_next s Hs), (b_over s Hs Hcur). }
    pose proof (b_sizes s Hs) as (Hsz & _ & _). unfold PRIORITYBUFSIZE in *.
    unfold query at 1. rewrite chk_in by (unfold in_s; lia). expose.
    destruct (cycle_ok s Hs Hg) as (s1 & Hproc & Hs1). unfold amend. rewrite Hproc. expose.
    unfold modify. expose. unfold query at 1. destruct (Hreached _ Hs1) as (b & Hb). rewrite Hb. expose.
    destruct b.
    + exists (Ok true), (exchange s1). split; [done|]. split; [done|]. right. right. auto.
    + apply IH; [done|lia|lia].
Qed.

End Propagation.

(** ** The border *)

Lemma set_border_ok n i step l : 0 <= n -> (forall j, 0 <= j < n -> 0 <= i + j * step < Z.of_nat (length l)) ->
  exists l', set_border n i step l = Ok l' /\ length l' = length l /\
    (forall j, 0 <= j < n -> l' !! Z.to_nat (i + j * step) = Some COST_OBS) /\
    (forall c, 0 <= c -> (forall j, 0 <= j < n -> c <> i + j * step) -> l' !! Z.to_nat c = l !! Z.to_nat c) /\
    (forall c, l' !! c = Some COST_OBS \/ l' !! c = l !! c).
Proof.
  intros Hn Hr. unfold set_border.
  destruct (for_each_inv (fun k l' => length l' = length l /\
    (forall j, 0 <= j < k -> l' !! Z.to_nat (i + j * step) = Some COST_OBS) /\
    (forall c, 0 <= c -> (forall j, 0 <= j < k -> c <> i + j * step) -> l' !! Z.to_nat c = l !! Z.to_nat c) /\
    (forall c, l' !! c = Some COST_OBS \/ l' !! c = l !! c))
    (fun j l => aset l (i + j * step) COST_OBS) (Z.to_nat n) 0 l) as (l' & -> & Hl').
  - split; [done|]. split; [lia|]. split; [done|]. by right.
  - intros k l1 Hk (H1 & H2 & H3 & H4). pose proof (Hr k ltac:(lia)).
    exists (<[Z.to_nat (i + k * step) := COST_OBS]> l1).
    split; [apply aset_ok; split; [lia|done]|]. split; [by rewrite length_insert|].
    split; [|split].
    + intros j Hj. destruct (decide (i + j * step = i + k * step)) as [->|Hne].
      * by rewrite list_lookup_insert_eq by lia.
      * destruct (decide (j = k)) as [->|]; [done|]. pose proof (Hr j ltac:(lia)).
        rewrite list_lookup_insert_ne by lia. apply H2. lia.
    + intros c Hc Hj. pose proof (Hj k ltac:(lia)). rewrite list_lookup_insert_ne by lia.
      apply H3; [done|]. intros j ?. apply Hj. lia.
    + intros c. destruct (decide (c = Z.to_nat (i + k * step))) as [->|Hne].
      * left. by rewrite list_lookup_insert_eq by lia.
      * rewrite list_lookup_insert_ne by done. apply H4.
  - rewrite Z2Nat.id, Z.add_0_l in Hl' by done. by exists l'.
Qed.

Definition inner (w h c : Z) : Prop := 0 < c mod w < w - 1 /\ 0 < c / w < h - 1.

Lemma outer_bounds_ok s : 0 < nx s -> 0 < ny s -> Z.of_nat (length (costarr s)) = nx s * ny s ->
  exists l, outer_bounds s = Ok l /\ Z.of_nat (length l) = nx s * ny s /\
    (forall c, 0 <= c < nx s * ny s -> ~ inner (nx s) (ny s) c -> l !! Z.to_nat c = Some COST_OBS) /\
    (forall c, 0 <= c < nx s * ny s -> inner (nx s) (ny s) c -> l !! Z.to_nat c = costarr s !! Z.to_nat c).
Proof.
  set (w := nx s). set (h := ny s). intros Hw Hh Hl. unfold outer_bounds. fold w h.
  destruct (set_border_ok w 0 1 (costarr s)) as (l1 & -> & L1 & A1 & B1 & C1); [lia|nia|]. rewrite bind_Ok.
  destruct (set_border_ok w ((h - 1) * w) 1 l1) as (l2 & -> & L2 & A2 & B2 & C2); [lia|rewrite L1; nia|]. rewrite bind_Ok.
  destruct (set_border_ok h 0 w l2) as (l3 & -> & L3 & A3 & B3 & C3); [lia|rewrite L2, L1; nia|]. rewrite bind_Ok.
  destruct (set_border_ok h (w - 1) w l3) as (l4 & -> & L4 & A4 & B4 & C4); [lia|rewrite L3, L2, L1; nia|].
  exists l4. split; [done|]. split; [by rewrite L4, L3, L2, L1|].
  assert (forall c, l3 !! c = Some COST_OBS -> l4 !! c = Some COST_OBS) as M4 by (intros c; destruct (C4 c) as [->| ->]; auto).
  assert (forall c, l2 !! c = Some COST_OBS -> l4 !! c = Some COST_OBS) as M3
    by (intros c ?; apply M4; destruct (C3 c) as [->| ->]; auto).
  assert (forall c, l1 !! c = Some COST_OBS -> l4 !! c = Some COST_OBS) as M2
    by (intros c ?; apply M3; destruct (C2 c) as [->| ->]; auto).
  split; intros c Hc.
  - pose proof (Z.div_mod c w ltac:(lia)) as Hdm. pose proof (Z.mod_pos_bound c w ltac:(lia)).
    assert (0 <= c / w < h) by (split; [apply Z.div_pos; lia|apply Z.div_lt_upper_bound; lia]).
    intros Hout. unfold inner in Hout.
    destruct (decide (c / w = 0)) as [E1|]; [apply M2; rewrite <- (A1 c) by nia; do 2 f_equal; lia|].
    destruct (decide (c / w = h - 1)) as [E2|]; [apply M3; rewrite <- (A2 (c mod w)) by lia; do 2 f_equal; nia|].
    destruct (decide (c mod w = 0)) as [E3|]; [apply M4; rewrite <- (A3 (c / w)) by lia; do 2 f_equal; lia|].
    assert (c mod w = w - 1) as E4 by lia. rewrite <- (A4 (c / w)) by lia. do 2 f_equal. lia.
  - intros [Hx Hy].
    assert (forall a b, 0 <= a < w -> c = a + b * w -> c mod w = a /\ c / w = b) as Hun.
    { intros a b Ha ->. rewrite Z.mod_add, Z.div_add by lia. rewrite Z.mod_small, Z.div_small by lia. lia. }
    rewrite B4, B3, B2, B1; try lia; try done; intros j Hj Heq.
    + destruct (Hun j 0) as [? ?]; lia.
    + destruct (Hun j (h - 1)) as [? ?]; lia.
    + destruct (Hun 0 j) as [? ?]; lia.
    + destruct (Hun (w - 1) j) as [? ?]; lia.
Qed.
End NavFnLaws.
