(* ===== verification/NavFnSearch.v ===== *)
(** * The propagations of [NavFn] as searches

    [setupNavFn] establishes the invariant of [NavFnLaws]; both propagations keep it. A
    potential is found for cells linked to the goal only and, when the loop ends because
    nothing is left to update, for all of them. *)

From stdpp Require Import base option list numbers.
From Stdlib Require Import ZArith Lia SpecFloat.
From S2P Require Import Prelude Float64 FloatOrder FloatBounds NavFn NavFnLaws.

(** What a rounded hypotenuse satisfies: for sides below [2^22] it is at most [2^23]. *)
Class HypotLaws `{Hypot} : Prop := {
  hypot_bound a b : Z.abs a < 2 ^ 22 -> Z.abs b < 2 ^ 22 ->
    between64 (hypot (f64_of_Z a) (f64_of_Z b)) 23 }.

Module NavFnSearch.
Import NavFn NavFnLaws.

(** ** Well-formed objects *)

Record well_formed (s : navfn) : Prop := {
  w_nx : 0 < nx s;
  w_ny : 0 < ny s;
  w_ns : ns s = nx s * ny s;
  w_costarr : Z.of_nat (length (costarr s)) = ns s;
  w_costs : Forall (fun c => 0 <= c <= 255) (costarr s);
  w_potarr : Z.of_nat (length (potarr s)) = ns s;
  w_pending : Z.of_nat (length (pending s)) = ns s;
  w_gradx : Z.of_nat (length (gradx s)) = ns s;
  w_grady : Z.of_nat (length (grady s)) = ns s }.

(** Maps for which no counter of the propagation overflows. *)
Definition moderate (s : navfn) : Prop := nx s <= 100000 /\ ny s <= 100000 /\ nx s * ny s <= 4000000.

Definition in_map (s : navfn) (p : Z * Z) : Prop := 0 <= fst p < nx s /\ 0 <= snd p < ny s.
Definition index (s : navfn) (p : Z * Z) : Z := snd p * nx s + fst p.

Lemma in_map_index s p : in_map s p -> 0 <= index s p < nx s * ny s.
Proof. unfold in_map, index. nia. Qed.

(** ** Setting up *)

Lemma reset_potentials_ok s : well_formed s -> exists p gx gy,
  reset_potentials true s = Ok (set_grad gx gy (set_potarr p s)) /\
  Z.of_nat (length p) = ns s /\ Z.of_nat (length gx) = ns s /\ Z.of_nat (length gy) = ns s /\
  (forall c, 0 <= c < ns s -> p !! Z.to_nat c = Some (Some POT_HIGH)).
Proof.
  intros [Hx Hy Hn _ _ Hp _ Hgx Hgy]. unfold reset_potentials.
  destruct (for_each_inv (fun k t => exists p gx gy, t = set_grad gx gy (set_potarr p s) /\
    Z.of_nat (length p) = ns s /\ Z.of_nat (length gx) = ns s /\ Z.of_nat (length gy) = ns s /\
    (forall c, 0 <= c < k -> p !! Z.to_nat c = Some (Some POT_HIGH)))
    (fun i s => l ← aset (potarr s) i (Some POT_HIGH);
      c ← Ok (costarr s);
      gy ← aset (grady s) i (Some f32_zero);
      gx ← aset (gradx s) i (Some f32_zero);
      Ok (set_grad gx gy (set_costarr c (set_potarr l s)))) (Z.to_nat (ns s)) 0 s)
    as (s' & Hs' & p & gx & gy & -> & H1 & H2 & H3 & H4).
  - exists (potarr s), (gradx s), (grady s). split; [by destruct s|]. repeat split; try done. lia.
  - intros j t Hj (p & gx & gy & -> & H1 & H2 & H3 & H4). cbn [potarr set_grad set_potarr set_arrays].
    assert (aset p j (Some POT_HIGH) = Ok (<[Z.to_nat j := Some POT_HIGH]> p)) as ->
      by (apply aset_ok; split; [lia|done]).
    assert (aset gy j (Some f32_zero) = Ok (<[Z.to_nat j := Some f32_zero]> gy)) as E2
      by (apply aset_ok; split; [lia|done]).
    assert (aset gx j (Some f32_zero) = Ok (<[Z.to_nat j := Some f32_zero]> gx)) as E3
      by (apply aset_ok; split; [lia|done]).
    rewrite !bind_Ok. cbn [grady gradx set_grad set_potarr set_arrays]. rewrite E2, bind_Ok, E3, bind_Ok.
    eexists. split; [reflexivity|].
    exists (<[Z.to_nat j := Some POT_HIGH]> p), (<[Z.to_nat j := Some f32_zero]> gx),
      (<[Z.to_nat j := Some f32_zero]> gy). split; [reflexivity|].
    rewrite !length_insert. split; [done|]. split; [done|]. split; [done|]. intros c Hc.
    destruct (decide (c = j)) as [->|]; [by rewrite list_lookup_insert_eq by lia|].
    rewrite list_lookup_insert_ne by lia. apply H4. lia.
  - exists p, gx, gy. rewrite Z2Nat.id, Z.add_0_l in H4 by nia. split; [exact Hs'|]. done.
Qed.

(** The border does not change which cells are passable, nor which are linked. *)
Lemma passable_border w h l l' c : 0 < w -> Z.of_nat (length l') = w * h ->
  (forall c, 0 <= c < w * h -> ~ inner w h c -> l' !! Z.to_nat c = Some COST_OBS) ->
  (forall c, 0 <= c < w * h -> inner w h c -> l' !! Z.to_nat c = l !! Z.to_nat c) ->
  passable w h l' c <-> passable w h l c.
Proof.
  intros Hw Hl Hout Hin. unfold passable. fold (inner w h c).
  assert (inner w h c -> 0 <= c < w * h) as Hr.
  { intros [? ?]. pose proof (Z.div_mod c w ltac:(lia)). nia. }
  split; intros [Hi Hc]; (split; [done|]); [rewrite <- Hin by auto|rewrite Hin by auto]; done.
Qed.

Lemma linked_ext w h l l' g c : (forall c, passable w h l' c -> passable w h l c) ->
  linked w h l' g c -> linked w h l g c.
Proof. intros He. induction 1 as [|a b _ IH Hab Hb]; [constructor|]. eapply linked_step; eauto. Qed.

Lemma few_ext w h l l' : (forall c, passable w h l' c <-> passable w h l c) -> few w h l -> few w h l'.
Proof.
  unfold few. intros He. by rewrite (list_filter_iff (passable w h l') (passable w h l)).
Qed.

(** The map seen by a propagation. *)
Record bordered (s : navfn) (cost : list Z) : Prop := {
  o_len : Z.of_nat (length cost) = nx s * ny s;
  o_range : Forall (fun c => 0 <= c <= 255) cost;
  o_border : forall c v, 0 <= c < nx s * ny s -> cost !! Z.to_nat c = Some v -> v < COST_OBS ->
    passable (nx s) (ny s) cost c;
  o_pass : forall c, passable (nx s) (ny s) cost c <-> passable (nx s) (ny s) (costarr s) c }.

Lemma outer_bounds_bordered s : well_formed s -> exists l, outer_bounds s = Ok l /\ bordered s l.
Proof.
  intros [Hx Hy Hn Hc Hr _ _ _ _].
  destruct (outer_bounds_ok s Hx Hy ltac:(lia)) as (l & -> & Hl & Hout & Hin).
  exists l. split; [done|]. constructor; [done| | |].
  - apply Forall_lookup. intros i v Hv. pose proof (lookup_lt_Some _ _ _ Hv) as Hi.
    replace i with (Z.to_nat (Z.of_nat i)) in Hv by lia.
    destruct (decide (inner (nx s) (ny s) (Z.of_nat i))) as [Hd|Hd].
    + rewrite Hin in Hv by (lia || done). by apply (proj1 (Forall_lookup _ _) Hr _ _ Hv).
    + rewrite Hout in Hv by (lia || done). injection Hv as <-. unfold COST_OBS. lia.
  - intros c v Hcr Hv Hlt. destruct (decide (inner (nx s) (ny s) c)) as [Hd|Hd].
    + split; [done|]. by rewrite Hv.
    + rewrite Hout in Hv by done. injection Hv as <-. lia.
  - intros c. by apply passable_border.
Qed.

Lemma setup_ok s : well_formed s -> moderate s -> in_map s (goal s) ->
  exists s' cost, setupNavFn true s = Ok s' /\ bordered s cost /\
    settled (nx s) (ny s) cost (start s) (goal s) (index s (goal s)) s'.
Proof.
  intros Hwf Hmod Hg. unfold setupNavFn. pose proof Hwf as [Hx Hy Hn _ _ _ _ _ _].
  destruct (reset_potentials_ok s Hwf) as (p & gx & gy & -> & Hp & Hgx & Hgy & Hhigh). rewrite bind_Ok.
  set (s1 := set_grad gx gy (set_potarr p s)).
  change (outer_bounds s1) with (outer_bounds s).
  destruct (outer_bounds_bordered s Hwf) as (cost & -> & Hb). rewrite bind_Ok.
  set (s2 := set_pending _ _).
  destruct Hg as [Hg1 Hg2]. destruct Hmod as (? & ? & ?).
  change (fst (goal s2) + snd (goal s2) * nx s2) with (fst (goal s) + snd (goal s) * nx s).
  rewrite chk_in by (unfold in_s; nia). rewrite bind_Ok.
  replace (fst (goal s) + snd (goal s) * nx s) with (index s (goal s)) by (unfold index; lia).
  destruct Hb as [Hl Hr Hborder Hpass] eqn:Eb. clear Eb.
  destruct (init_ok (nx s) (ny s) cost (start s) (goal s) (index s (goal s)) Hx Hy Hl Hr Hborder s2)
    as (s3 & -> & Hs3).
  - constructor; try done.
    + constructor; try done; cbn.
      * lia.
      * intros c Hc. exists POT_HIGH. split; [apply Hhigh; lia|by right].
      * rewrite length_replicate. lia.
      * lia.
      * lia.
    + intros c Hc. unfold value. cbn. by rewrite Hhigh by lia.
    + intros c Hc. cbn. apply lookup_replicate_2. lia.
  - by apply in_map_index.
  - rewrite bind_Ok. eexists _, cost. split; [reflexivity|]. split; [by constructor|].
    destruct Hs3 as [F ? ? ? ? ? ? ?]. constructor; try done. by destruct F; constructor.
Qed.

(** ** What a settled state says *)

Definition has_potential (s : navfn) (c : Z) : bool := f32_lt (value s c) POT_HIGH.

Section Search.
Context (s0 : navfn) (cost : list Z).
Hypothesis wf0 : well_formed s0.
Hypothesis moderate0 : moderate s0.
Hypothesis goal0 : in_map s0 (goal s0).
Hypothesis start0 : in_map s0 (start s0).
Hypothesis cost0 : bordered s0 cost.

Abbreviation w := (nx s0).
Abbreviation h := (ny s0).
Abbreviation g := (index s0 (goal s0)).
Abbreviation settled := (settled w h cost (start s0) (goal s0) g).
Abbreviation linked_to_goal := (linked w h (costarr s0) g).

Lemma potential_low s c : settled s -> 0 <= c < w * h -> has_potential s c = true <-> low (value s c).
Proof.
  intros Hs Hc. unfold has_potential. apply low_lt.
  by destruct (pot_value w h cost _ _ s c (b_frame _ _ _ _ _ _ _ Hs) Hc).
Qed.

Lemma linked_range c : linked w h cost g c -> 0 <= c < w * h.
Proof.
  pose proof (in_map_index s0 (goal s0) goal0). destruct cost0 as [Hl _ _ _].
  destruct 1 as [|a b _ _ Hp]; [done|].
  pose proof (pass_interior w h cost (w_nx _ wf0) b Hp). lia.
Qed.

Lemma settled_sound s c : settled s -> 0 <= c < w * h -> has_potential s c = true -> linked_to_goal c.
Proof.
  intros Hs Hc Hp. apply (linked_ext w h _ cost); [by intros; apply (o_pass s0 cost cost0)|].
  by apply (b_sound _ _ _ _ _ _ _ Hs), potential_low.
Qed.

Lemma settled_complete s c : settled s -> few w h (costarr s0) -> curP s ++ nextP s ++ overP s = [] ->
  linked_to_goal c -> has_potential s c = true.
Proof.
  intros Hs Hfew He Hc. pose proof (few_ext w h (costarr s0) cost (o_pass s0 cost cost0) Hfew) as Hf.
  apply (linked_ext w h cost) in Hc; [|by intros; apply (o_pass s0 cost cost0)].
  assert (low (value s c)) as Hlow; [|by apply potential_low; [done|apply linked_range|]].
  induction Hc as [|a b Ha IH Hab Hb]; [apply (b_goal _ _ _ _ _ _ _ Hs)|].
  destruct (b_closed _ _ _ _ _ _ _ Hs Hf a b (linked_range a Ha) IH Hab Hb) as [|Hin]; [done|].
  rewrite He in Hin. by apply elem_of_nil in Hin.
Qed.

Lemma start_cell_ok s : settled s -> start_cell s = Ok (index s0 (start s0)).
Proof.
  intros Hs. destruct (b_frame _ _ _ _ _ _ _ Hs) as [Hx _ _ _ Hst _ _ _ _ _ _].
  unfold start_cell. rewrite Hx, Hst. pose proof (in_map_index s0 (start s0) start0) as Hi.
  unfold index in Hi. destruct start0, moderate0 as (? & ? & ?).
  rewrite chk_in by (unfold in_s; nia). rewrite bind_Ok. apply chk_in. unfold in_s, index. lia.
Qed.

Lemma start_reached_ok s : settled s -> start_reached s = Ok (has_potential s (index s0 (start s0))).
Proof.
  intros Hs. unfold start_reached. rewrite start_cell_ok, bind_Ok by done.
  destruct (pot_value w h cost _ _ s (index s0 (start s0)) (b_frame _ _ _ _ _ _ _ Hs)) as [-> _];
    [by apply in_map_index|]. done.
Qed.

Lemma settled_well_formed s : settled s -> well_formed s.
Proof.
  intros Hs. destruct (b_frame _ _ _ _ _ _ _ Hs) as [Hx Hy Hn Hc _ _ Hp _ Hpe Hgx Hgy].
  destruct wf0, cost0. constructor; rewrite ?Hx, ?Hy, ?Hn, ?Hc; done.
Qed.

Lemma cycle_bound_ok s : settled s -> exists n, cycle_bound s = Ok n /\ 0 <= n <= 200000.
Proof.
  intros Hs. destruct (b_frame _ _ _ _ _ _ _ Hs) as [Hx Hy _ _ _ _ _ _ _ _ _].
  unfold cycle_bound. rewrite Hx, Hy. destruct moderate0 as (? & ? & ?), wf0 as [? ? _ _ _ _ _ _ _].
  rewrite (chk_in 32 (w * h)), bind_Ok by (unfold in_s; lia).
  rewrite (chk_in 32 (w + h)), bind_Ok by (unfold in_s; lia).
  eexists. split; [done|]. pose proof (Z.quot_le_mono (w * h) 4000000 20 ltac:(lia) ltac:(lia)) as Hq.
  change (4000000 ÷ 20) with 200000 in Hq. lia.
Qed.

(** A propagation by waves of any priority. *)
Lemma search_ok priority cancel reached s cycles :
  (forall n, passable w h cost n -> priority_ok w h cost (start s0) (goal s0) (priority n)) ->
  (forall s, settled s -> exists b, reached s = Ok b) -> settled s -> 0 <= cycles <= 200000 ->
  exists r s', propagate (fun n => update_with (priority n) n) cancel reached (Z.to_nat cycles) 0 0 s = (r, s') /\
    settled s' /\
    ((r = Throw planner_cancelled /\ exists i, cancel i = true) \/ r = Ok false \/
     (r = Ok true /\ (curP s' ++ nextP s' ++ overP s' = [] \/ reached s' = Ok true))).
Proof.
  intros Hp Hreached Hs Hc. destruct cost0 as [Hl Hr Hb _].
  apply (propagate_ok w h cost (start s0) (goal s0) g (w_nx _ wf0) (w_ny _ wf0) Hl Hr Hb); try done.
  - by apply in_map_index.
  - unfold PRIORITYBUFSIZE. lia.
Qed.
End Search.

Lemma priority_cost w h cost st gl : priority_ok w h cost st gl (fun _ p => Ok p).
Proof. intros s p _ Hp. exists p. split; [done|]. by apply low_near. Qed.

(** The distance to the start cell keeps priorities below [POT_HIGH]. *)
Lemma heuristic_bound `{HypotLaws} a b : Z.abs a < 2 ^ 22 -> Z.abs b < 2 ^ 22 -> between32 (heuristic a b) 29.
Proof.
  intros Ha Hb. apply f32_of_f64_le; [|lia].
  apply (mul_le 53 1024 ltac:(lia) ltac:(lia) _ _ 23 6); try done. by apply hypot_bound.
Qed.

Lemma priority_distance `{HypotLaws} s0 cost n : well_formed s0 -> moderate s0 -> in_map s0 (start s0) ->
  passable (nx s0) (ny s0) cost n ->
  priority_ok (nx s0) (ny s0) cost (start s0) (goal s0)
    (fun s p => dist ← distance_to_start n s; Ok (f32_add p dist)).
Proof.
  intros Hwf (? & ? & ?) Hst Hn s p F Hp. unfold distance_to_start.
  destruct F as [Hx _ _ _ Hs _ _ _ _ _ _]. rewrite Hx, Hs.
  pose proof (w_nx s0 Hwf). pose proof (w_ny s0 Hwf).
  pose proof (pass_interior _ _ cost (w_nx s0 Hwf) n Hn) as Hint. destruct Hst.
  rewrite Z.rem_mod_nonneg, Z.quot_div_nonneg by lia.
  pose proof (Z.mod_pos_bound n (nx s0) ltac:(lia)).
  assert (0 <= n / nx s0 < ny s0) by (split; [apply Z.div_pos; lia|apply Z.div_lt_upper_bound; lia]).
  rewrite (chk_in 32 (n mod nx s0 - (start s0).1)) by (unfold in_s; lia).
  rewrite (chk_in 32 (n / nx s0 - (start s0).2)) by (unfold in_s; lia). rewrite !bind_Ok.
  eexists. split; [reflexivity|].
  destruct (heuristic_bound (n mod nx s0 - (start s0).1) (n / nx s0 - (start s0).2) ltac:(lia) ltac:(lia)) as [Fd Bd].
  destruct (low_bound p Hp) as [Fp Bp].
  change (2 ^ (29 - SpecFloat.emin 24 128)) with (2 ^ 29 * 2 ^ 149) in Bd.
  destruct (add32 p (heuristic (n mod nx s0 - (start s0).1) (n / nx s0 - (start s0).2)) 0
             ((2 ^ 33 + 2 ^ 29) * 2 ^ 149)) as [Fa Ba]; [done..|lia|].
  change (sround 24 0) with 0 in Ba.
  assert (sround 24 ((2 ^ 33 + 2 ^ 29) * 2 ^ 149) = (2 ^ 33 + 2 ^ 29) * 2 ^ 149) as E by by vm_compute.
  rewrite E in Ba. by split.
Qed.

Lemma settled_curT s0 cost t s :
  settled (nx s0) (ny s0) cost (start s0) (goal s0) (index s0 (goal s0)) s ->
  settled (nx s0) (ny s0) cost (start s0) (goal s0) (index s0 (goal s0)) (set_curT t s).
Proof. intros [[] ? ? ? ? ? ? ?]. by constructor. Qed.

Lemma settled_cost s0 cost c s :
  settled (nx s0) (ny s0) cost (start s0) (goal s0) (index s0 (goal s0)) s ->
  settled (nx s0) (ny s0) cost (start s0) (goal s0) (index s0 (goal s0)) (set_last_path_cost c s).
Proof. intros [[] ? ? ? ? ? ? ?]. by constructor. Qed.

(** ** A hypotenuse by the square root *)

#[export] Instance rounded_hypot : Hypot := {
  hypot a b := let a := SFabs a in let b := SFabs b in
    f64_sqrt (f64_add (f64_mul a a) (f64_mul b b));
  hypotf a b := SFsqrt 24 128 (f32_add (f32_mul a a) (f32_mul b b)) }.

Lemma abs_of_Z a : Z.abs a < 2 ^ 22 -> between64 (SFabs (f64_of_Z a)) 22.
Proof.
  intros Ha.
  assert (forall m, Zpos m < 2 ^ 22 -> between64 (binary_round 53 1024 false m 0) 22) as Hround.
  { intros m Hm. apply (round_le 53 1024 ltac:(lia) ltac:(lia)); [by split|lia|]. rewrite Z.sub_0_r. lia. }
  assert (forall x, between64 x 22 -> between64 (SFabs x) 22 /\ SFabs (SFopp x) = SFabs x) as Habs.
  { intros [| | |[] m e] Hx; try done; try (by destruct Hx as [? _]). destruct Hx as [Fx [Hs _]].
    destruct (fin_mantissa 53 1024 ltac:(lia) ltac:(lia) true m e Fx) as (_ & _ & _ & _ & Hn).
    by specialize (Hn Hs). }
  unfold f64_of_Z. destruct a as [|m|m]; cbn [binary_normalize]; [by split| |].
  - apply Habs, Hround. lia.
  - change f64_prec with 53. change f64_emax with 1024. rewrite round_opp.
    destruct (Habs _ (Hround m ltac:(lia))) as [? ->]. done.
Qed.

#[export] Instance rounded_hypot_laws : HypotLaws.
Proof.
  constructor. intros a b Ha Hb. cbn [hypot rounded_hypot].
  assert (forall c, Z.abs c < 2 ^ 22 ->
    between64 (f64_mul (SFabs (f64_of_Z c)) (SFabs (f64_of_Z c))) 44) as Hsq.
  { intros c Hc. apply (mul_le 53 1024 ltac:(lia) ltac:(lia) _ _ 22 22); try done; by apply abs_of_Z. }
  destruct (Hsq a Ha) as [Fa Ba]. destruct (Hsq b Hb) as [Fb Bb].
  set (x := f64_mul (SFabs (f64_of_Z a)) _) in *. set (y := f64_mul (SFabs (f64_of_Z b)) _) in *.
  change (2 ^ (44 - SpecFloat.emin 53 1024)) with (2 ^ 1118) in *.
  assert (- top 53 1024 < sround 53 0 /\ sround 53 (4 * 2 ^ 1118) < top 53 1024 /\
          sround 53 (4 * 2 ^ 1118) = 4 * 2 ^ 1118) as (T1 & T2 & R)
    by (apply (bool_decide_unpack _); by vm_compute).
  destruct (add_between 53 1024 ltac:(lia) ltac:(lia) x y 0 (4 * 2 ^ 1118)) as [Fs Bs]; [done..|lia|].
  rewrite R in Bs. change (sround 53 0) with 0 in Bs.
  apply (sqrt_le 53 1024 ltac:(lia) ltac:(lia) _ 23); [|lia|lia]. split; [done|]. exact Bs.
Qed.

(** The run of the breadth first propagation. *)
Lemma dijkstra_run s cancel atStart : well_formed s -> moderate s -> in_map s (goal s) -> in_map s (start s) ->
  exists r s' cost, calcNavFnDijkstra cancel atStart s = (r, s') /\ bordered s cost /\
    settled (nx s) (ny s) cost (start s) (goal s) (index s (goal s)) s' /\
    ((r = Throw planner_cancelled /\ exists i, cancel i = true) \/ r = Ok false \/
     (r = Ok true /\ (curP s' ++ nextP s' ++ overP s' = [] \/
       (atStart = true /\ has_potential s' (index s (start s)) = true)))).
Proof.
  intros Hwf Hmod Hgoal Hstart.
  destruct (setup_ok s Hwf Hmod Hgoal) as (s1 & cost & Hsetup & Hb & Hs1).
  destruct (cycle_bound_ok s cost Hwf Hmod s1 Hs1) as (n & Hn & Hnb).
  unfold calcNavFnDijkstra, amend, query. expose. rewrite Hsetup. expose. rewrite Hn. expose.
  unfold propNavFnDijkstra, query. expose. rewrite (start_cell_ok s cost Hmod Hstart s1 Hs1). expose.
  set (reached := fun s => if atStart then start_reached s else Ok false).
  destruct (search_ok s cost Hwf Hgoal Hb (fun _ _ p => Ok p) cancel reached s1 n)
    as (r & s' & Hrun & Hs' & Hr); try done.
  { intros m _. apply priority_cost. }
  { intros t Ht. unfold reached. destruct atStart; [|by eexists].
    rewrite (start_reached_ok s cost Hmod Hstart) by done. by eexists. }
  exists r, s', cost. split; [exact Hrun|]. split; [done|]. split; [done|].
  destruct Hr as [?|[?|[-> [?|Hreach]]]]; [auto..|]. right. right. split; [done|]. right.
  unfold reached in Hreach. destruct atStart; [|done].
  rewrite (start_reached_ok s cost Hmod Hstart) in Hreach by done. by injection Hreach as ->.
Qed.

(** The run of the A-star propagation. *)
Lemma astar_run `{HypotLaws} s cancel : well_formed s -> moderate s -> in_map s (goal s) -> in_map s (start s) ->
  exists r s' cost, calcNavFnAstar cancel s = (r, s') /\ bordered s cost /\
    settled (nx s) (ny s) cost (start s) (goal s) (index s (goal s)) s' /\
    ((r = Throw planner_cancelled /\ exists i, cancel i = true) \/
     (r = Ok (has_potential s' (index s (start s))) /\
      last_path_cost_ s' = Some (value s' (index s (start s))))).
Proof.
  intros Hwf Hmod Hgoal Hstart.
  destruct (setup_ok s Hwf Hmod Hgoal) as (s1 & cost & Hsetup & Hb & Hs1).
  destruct (cycle_bound_ok s cost Hwf Hmod s1 Hs1) as (n & Hn & Hnb).
  pose proof (in_map_index s (start s) Hstart) as Hsi.
  unfold calcNavFnAstar, amend, query. expose. rewrite Hsetup. expose. rewrite Hn. expose.
  unfold propNavFnAstar, amend, query, modify. expose.
  destruct (b_frame _ _ _ _ _ _ _ Hs1) as [_ _ _ _ Hst1 Hgl1 _ _ _ _ _].
  pose proof Hstart as [Hx Hy]. pose proof Hgoal as [Hgx Hgy]. pose proof Hmod as (? & ? & ?).
  rewrite Hst1, Hgl1, (chk_in 32 ((goal s).1 - (start s).1)), bind_Ok by (unfold in_s; lia).
  rewrite (chk_in 32 ((goal s).2 - (start s).2)), bind_Ok by (unfold in_s; lia). expose.
  set (s2 := set_curT _ s1). assert (settled (nx s) (ny s) cost (start s) (goal s) (index s (goal s)) s2) as Hs2
    by by apply settled_curT.
  rewrite (start_cell_ok s cost Hmod Hstart s2 Hs2). expose.
  destruct (search_ok s cost Hwf Hgoal Hb
              (fun n s p => dist ← distance_to_start n s; Ok (f32_add p dist)) cancel start_reached s2 n)
    as (r & s' & Hrun & Hs' & Hr); try done.
  { intros m Hm. by apply priority_distance. }
  { intros t Ht. rewrite (start_reached_ok s cost Hmod Hstart t Ht). by eexists. }
  change (fun n : Z => update_with (fun s p => dist ← distance_to_start n s; Ok (f32_add p dist)) n)
    with updateCellAstar in Hrun. rewrite Hrun.
  destruct Hr as [[-> Hcancel]|Hr].
  { exists (Throw planner_cancelled), s', cost. auto 6. }
  assert (exists b, r = Ok b) as [b0 ->] by (destruct Hr as [->|[-> _]]; eauto).
  rewrite (start_cell_ok s cost Hmod Hstart s' Hs'). expose.
  destruct (pot_value _ _ _ _ _ s' (index s (start s)) (b_frame _ _ _ _ _ _ _ Hs') Hsi) as [Hpot _].
  rewrite Hpot. expose.
  set (s3 := set_last_path_cost (Some (value s' (index s (start s)))) s').
  exists (Ok (f32_lt (value s' (index s (start s))) POT_HIGH)), s3, cost. split; [done|]. split; [done|].
  split; [by apply settled_cost|]. auto.
Qed.

(** C22: on a well-formed map of moderate size, [calcNavFnDijkstra] ends without undefined behaviour,
    with a result or because it was cancelled. Only cells that a path of passable cells links to the
    goal have a potential then. If it returns true and the buffers can hold all passable cells,
    the start cell has a potential exactly when it is linked to the goal, and without [atStart]
    every linked cell has one. *)
Theorem navfn_dijkstra s cancel atStart :
  well_formed s -> moderate s -> in_map s (goal s) -> in_map s (start s) ->
  let linked_to_goal := linked (nx s) (ny s) (costarr s) (index s (goal s)) in
  exists r s', calcNavFnDijkstra cancel atStart s = (r, s') /\ well_formed s' /\
    ((exists b, r = Ok b) \/ (r = Throw planner_cancelled /\ exists i, cancel i = true)) /\
    (forall c, 0 <= c < ns s -> has_potential s' c = true -> linked_to_goal c) /\
    (r = Ok true -> few (nx s) (ny s) (costarr s) ->
      (has_potential s' (index s (start s)) = true <-> linked_to_goal (index s (start s))) /\
      (atStart = false -> forall c, linked_to_goal c -> has_potential s' c = true)).
Proof.
  intros Hwf Hmod Hgoal Hstart. cbv zeta. rewrite (w_ns s Hwf).
  pose proof (in_map_index s (start s) Hstart) as Hsi.
  destruct (dijkstra_run s cancel atStart Hwf Hmod Hgoal Hstart) as (r & s' & cost & Hrun & Hb & Hs' & Hr).
  exists r, s'. split; [done|]. split; [by apply (settled_well_formed s cost)|].
  split; [destruct Hr as [?|[->|[-> _]]]; eauto|].
  split; [intros c; by apply (settled_sound s cost Hb s')|].
  intros Htrue Hfew. destruct Hr as [[-> _]|[->|[_ [Hempty|[-> Hreach]]]]]; [done..| |].
  - split; [split|].
    + by apply (settled_sound s cost Hb s').
    + by apply (settled_complete s cost Hwf Hgoal Hb s').
    + intros _ c. by apply (settled_complete s cost Hwf Hgoal Hb s').
  - split; [|done]. split; [|done]. by apply (settled_sound s cost Hb s').
Qed.

(** C23: on a well-formed map of moderate size, [calcNavFnAstar] ends without undefined behaviour, with
    a result or because it was cancelled. The result tells whether the start cell has a potential,
    which is kept as the cost of the path; it has one only if a path of passable cells links it
    to the goal. If no cell is left to update and the buffers can hold all passable cells, the
    result is true exactly when there is such a path. *)
Theorem navfn_astar `{HypotLaws} s cancel :
  well_formed s -> moderate s -> in_map s (goal s) -> in_map s (start s) ->
  let linked_to_goal := linked (nx s) (ny s) (costarr s) (index s (goal s)) in
  exists r s', calcNavFnAstar cancel s = (r, s') /\ well_formed s' /\
    ((exists b, r = Ok b) \/ (r = Throw planner_cancelled /\ exists i, cancel i = true)) /\
    (forall c, 0 <= c < ns s -> has_potential s' c = true -> linked_to_goal c) /\
    (forall b, r = Ok b ->
      b = has_potential s' (index s (start s)) /\
      last_path_cost_ s' = Some (value s' (index s (start s))) /\
      (b = true -> linked_to_goal (index s (start s))) /\
      (curP s' = [] -> few (nx s) (ny s) (costarr s) -> linked_to_goal (index s (start s)) -> b = true)).
Proof.
  intros Hwf Hmod Hgoal Hstart. cbv zeta. rewrite (w_ns s Hwf).
  pose proof (in_map_index s (start s) Hstart) as Hsi.
  destruct (astar_run s cancel Hwf Hmod Hgoal Hstart) as (r & s' & cost & Hrun & Hb & Hs' & Hr).
  exists r, s'. split; [done|]. split; [by apply (settled_well_formed s cost)|].
  split; [destruct Hr as [?|[-> _]]; eauto|].
  split; [intros c; by apply (settled_sound s cost Hb s')|].
  intros b ->. destruct Hr as [[[=] _]|[[= ->] Hcost]]. split; [done|]. split; [done|].
  split; [by apply (settled_sound s cost Hb s')|]. intros Hcur Hfew Hl.
  apply (settled_complete s cost Hwf Hgoal Hb s'); try done.
  by rewrite Hcur, (b_next _ _ _ _ _ _ _ Hs'), (b_over _ _ _ _ _ _ _ Hs' Hcur).
Qed.

(** ** The cost array *)

(** The cost of a cell of the planner for cost [v] of the costmap. *)
Definition planner_cost (unknown : bool) (v : Z) : Z :=
  if v <? COST_OBS_ROS then COST_NEUTRAL + 4 * v / 5
  else if (v =? COST_UNKNOWN_ROS) && unknown then COST_OBS - 1 else COST_OBS.

(** The truncated product with 0.8 is exact, and never reaches the cap. *)
Lemma scaled_cost_ok v : 0 <= v < 253 -> scaled_cost v = Ok (50 + 4 * v / 5).
Proof.
  intros H. assert (In v (seqZ 0 253)) as Hin by (apply list_elem_of_In, elem_of_seqZ; lia).
  clear H. revert v Hin. apply List.Forall_forall. apply (bool_decide_unpack _). by vm_compute.
Qed.

Lemma planner_cost_range unknown v : 0 <= v <= 255 -> 50 <= planner_cost unknown v <= 254.
Proof.
  intros Hv. unfold planner_cost, COST_OBS_ROS, COST_NEUTRAL, COST_UNKNOWN_ROS, COST_OBS.
  destruct (Z.ltb_spec v 253); [zdiv_lia|]. destruct (_ && _); lia.
Qed.

Lemma set_cell_ok cmap unknown k v cm : 0 <= k < Z.of_nat (length cm) -> aget cmap k = Ok v -> 0 <= v <= 255 ->
  (cm ← aset cm k COST_OBS; set_cell cmap unknown k cm) = Ok (<[Z.to_nat k := planner_cost unknown v]> cm).
Proof.
  intros Hk Hv Hr. unfold set_cell, planner_cost.
  assert (forall (l : list Z) x, length l = length cm -> aset l k x = Ok (<[Z.to_nat k := x]> l)) as Hset
    by (intros l x Hl; apply aset_ok; split; [lia|done]).
  rewrite Hset, bind_Ok, Hv, bind_Ok by done. unfold COST_OBS_ROS.
  destruct (Z.ltb_spec v 253).
  - rewrite scaled_cost_ok, bind_Ok, Hset by (lia || by rewrite length_insert). by rewrite list_insert_insert_eq.
  - destruct (_ && unknown); [|done]. rewrite Hset by by rewrite length_insert. by rewrite list_insert_insert_eq.
Qed.

(** The cell at column [j] of row [i]. *)
Definition converted (s : navfn) (isROS unknown : bool) (i j v : Z) : Z :=
  if isROS then planner_cost unknown v
  else if (i <? 7) || (i >? ny s - 8) || (j <? 7) || (j >? nx s - 8) then COST_OBS
  else planner_cost true v.

Lemma convert_cell s cmap (isROS unknown : bool) i j cm v : 0 <= i * nx s + j < Z.of_nat (length cm) ->
  aget cmap (i * nx s + j) = Ok v -> 0 <= v <= 255 ->
  (cm ← aset cm (i * nx s + j) COST_OBS;
   if isROS then set_cell cmap unknown (i * nx s + j) cm
   else if (i <? 7) || (i >? ny s - 8) || (j <? 7) || (j >? nx s - 8) then Ok cm
   else set_cell cmap true (i * nx s + j) cm) =
  Ok (<[Z.to_nat (i * nx s + j) := converted s isROS unknown i j v]> cm).
Proof.
  intros Hk Hv Hr. unfold converted. destruct isROS; [by apply set_cell_ok|].
  destruct (_ || (j >? nx s - 8)); [|by apply set_cell_ok].
  assert (aset cm (i * nx s + j) COST_OBS = Ok (<[Z.to_nat (i * nx s + j) := COST_OBS]> cm)) as ->
    by (apply aset_ok; split; [lia|done]). done.
Qed.

Lemma setCostmap_ok cmap isROS unknown s : well_formed s -> Z.of_nat (length cmap) = ns s ->
  Forall (fun c => 0 <= c <= 255) cmap ->
  exists l, setCostmap cmap isROS unknown s = Ok (set_costarr l s) /\ Z.of_nat (length l) = ns s /\
    (forall i j v, 0 <= i < ny s -> 0 <= j < nx s -> cmap !! Z.to_nat (i * nx s + j) = Some v ->
      l !! Z.to_nat (i * nx s + j) = Some (converted s isROS unknown i j v)).
Proof.
  intros [Hx Hy Hn Hl _ _ _ _ _] Hc Hr. unfold setCostmap.
  set (done k (l : list Z) := Z.of_nat (length l) = ns s /\
    forall i j v, 0 <= i < ny s -> 0 <= j < nx s -> i * nx s + j < k -> cmap !! Z.to_nat (i * nx s + j) = Some v ->
      l !! Z.to_nat (i * nx s + j) = Some (converted s isROS unknown i j v)).
  match goal with |- context [for_each (Z.to_nat (ny s)) 0 ?body (costarr s)] =>
    destruct (for_each_inv (fun i l => done (i * nx s) l) body (Z.to_nat (ny s)) 0 (costarr s)) as (l & -> & Hd) end.
  - split; [lia|]. nia.
  - intros i cm Hi Hcm.
    match goal with |- context [for_each (Z.to_nat (nx s)) 0 ?body cm] =>
      destruct (for_each_inv (fun j l => done (i * nx s + j) l) body (Z.to_nat (nx s)) 0 cm) as (cm' & Hcm' & Hd) end.
    + by rewrite Z.add_0_r.
    + intros j t Hj [Ht Hdone]. assert (0 <= i * nx s + j < ns s) as Hk by nia.
      destruct (lookup_lt_is_Some_2 cmap (Z.to_nat (i * nx s + j))) as [v Hv]; [lia|].
      rewrite (convert_cell s cmap isROS unknown i j t v);
        [|lia|apply aget_ok; split; [lia|done]|by apply (proj1 (Forall_lookup _ _) Hr _ _ Hv)].
      eexists. split; [done|]. split; [by rewrite length_insert|].
      intros a b u Ha Hb Hlt Hu. destruct (decide (a * nx s + b = i * nx s + j)) as [He|Hne].
      * destruct (Z.div_mod_unique (nx s) a i b j) as [-> ->]; [lia..|]. rewrite list_lookup_insert_eq by lia. congruence.
      * rewrite list_lookup_insert_ne by nia. apply Hdone; [done..|lia|done].
    + exists cm'. split; [done|]. replace ((i + 1) * nx s) with (i * nx s + (0 + Z.of_nat (Z.to_nat (nx s)))) by lia. done.
  - rewrite bind_Ok. exists l. destruct Hd as [Hll Hd]. split; [done|]. split; [done|].
    intros i j v Hi Hj Hv. apply Hd; [done..| |done]. nia.
Qed.

Lemma setCostmap_cells cmap isROS unknown s : well_formed s -> Z.of_nat (length cmap) = ns s ->
  Forall (fun c => 0 <= c <= 255) cmap ->
  exists l, setCostmap cmap isROS unknown s = Ok (set_costarr l s) /\ Z.of_nat (length l) = ns s /\
    forall c, 0 <= c < ns s -> exists v, cmap !! Z.to_nat c = Some v /\ 0 <= v <= 255 /\
      l !! Z.to_nat c = Some (converted s isROS unknown (c / nx s) (c mod nx s) v).
Proof.
  intros Hwf Hc Hr. destruct (setCostmap_ok cmap isROS unknown s Hwf Hc Hr) as (l & Hs & Hl & Hd).
  exists l. split; [done|]. split; [done|]. destruct Hwf as [Hx Hy Hn _ _ _ _ _ _].
  intros c Hcr. destruct (lookup_lt_is_Some_2 cmap (Z.to_nat c)) as [v Hv]; [lia|]. exists v. split; [done|].
  split; [by apply (proj1 (Forall_lookup _ _) Hr _ _ Hv)|].
  pose proof (Z.div_mod c (nx s) ltac:(lia)) as Hdm. pose proof (Z.mod_pos_bound c (nx s) ltac:(lia)).
  replace c with (c / nx s * nx s + c mod nx s) at 1 by lia.
  apply Hd; [split; [apply Z.div_pos; lia|apply Z.div_lt_upper_bound; lia]|lia|].
  by replace (c / nx s * nx s + c mod nx s) with c by lia.
Qed.

Lemma setCostmap_wf cmap isROS unknown s : well_formed s -> Z.of_nat (length cmap) = ns s ->
  Forall (fun c => 0 <= c <= 255) cmap ->
  exists s', setCostmap cmap isROS unknown s = Ok s' /\ well_formed s'.
Proof.
  intros Hwf Hc Hr. destruct (setCostmap_cells cmap isROS unknown s Hwf Hc Hr) as (l & -> & Hl & Hcell).
  eexists. split; [done|]. destruct Hwf.
  constructor; try done. apply Forall_lookup. intros i v Hv. cbn [costarr set_costarr set_arrays] in Hv.
  pose proof (lookup_lt_Some _ _ _ Hv). destruct (Hcell (Z.of_nat i)) as (u & _ & Hu & He); [lia|].
  rewrite Nat2Z.id in He. rewrite He in Hv. injection Hv as <-. unfold converted.
  pose proof (planner_cost_range unknown u Hu). pose proof (planner_cost_range true u Hu).
  unfold COST_OBS. destruct isROS; [lia|]. destruct (_ || _); lia.
Qed.

(** [setCostmap] writes to every cell of a well-formed object the converted cost of the map, and
    keeps the object well-formed. For maps in ROS format, the passable cells are then those off the
    border whose cost is below the inscribed one, or unknown where that is allowed. *)
Theorem navfn_costmap s cmap isROS unknown : well_formed s -> Z.of_nat (length cmap) = ns s ->
  Forall (fun c => 0 <= c <= 255) cmap ->
  exists s', setCostmap cmap isROS unknown s = Ok s' /\ well_formed s' /\
    (forall i j v, 0 <= i < ny s -> 0 <= j < nx s -> cmap !! Z.to_nat (i * nx s + j) = Some v ->
      costarr s' !! Z.to_nat (i * nx s + j) = Some (converted s isROS unknown i j v)) /\
    (isROS = true -> forall c, passable (nx s) (ny s) (costarr s') c <->
      inner (nx s) (ny s) c /\ exists v, cmap !! Z.to_nat c = Some v /\ (v < 253 \/ v = 255 /\ unknown = true)).
Proof.
  intros Hwf Hc Hr. destruct (setCostmap_wf cmap isROS unknown s Hwf Hc Hr) as (s' & Hs' & Hwf').
  destruct (setCostmap_ok cmap isROS unknown s Hwf Hc Hr) as (l & Hs & _ & Hd).
  destruct (setCostmap_cells cmap isROS unknown s Hwf Hc Hr) as (l' & Hl' & _ & Hcell).
  rewrite Hs in Hl'. injection Hl' as <-. rewrite Hs in Hs'. injection Hs' as <-. rewrite Hs.
  pose proof Hwf as [Hx Hy Hn _ _ _ _ _ _].
  eexists. split; [done|]. split; [done|]. split; [done|].
  - intros -> c. unfold passable. fold (inner (nx s) (ny s) c). cbn [costarr set_costarr set_arrays].
    assert (inner (nx s) (ny s) c -> 0 <= c < ns s) as Hin.
    { intros [? ?]. pose proof (Z.div_mod c (nx s) ltac:(lia)). nia. }
    split; intros [Hi Hv]; (split; [done|]); destruct (Hcell c (Hin Hi)) as (u & Hu & Hur & He);
      cbn [converted] in He; unfold converted, planner_cost, COST_OBS_ROS, COST_NEUTRAL, COST_UNKNOWN_ROS, COST_OBS in *;
      rewrite He in *.
    + exists u. split; [done|]. destruct (Z.ltb_spec u 253); [by left|]. right.
      destruct (Z.eqb_spec u 255), unknown; cbn [andb] in Hv; (lia || done).
    + destruct Hv as (v & Hv & Hcase). rewrite Hv in Hu. injection Hu as <-.
      destruct (Z.ltb_spec v 253); [zdiv_lia|]. destruct Hcase as [|[-> ->]]; [lia|]. cbn. lia.
Qed.

(** ** Well-formed objects *)

Lemma setNavArr_ok xs ys s : 0 < xs -> 0 < ys -> xs * ys < 2 ^ 31 ->
  exists s', setNavArr xs ys s = Ok s' /\ well_formed s' /\ nx s' = xs /\ ny s' = ys.
Proof.
  intros Hx Hy Hn. unfold setNavArr. rewrite chk_in by (unfold in_s; nia). rewrite bind_Ok.
  destruct (Z.ltb_spec (xs * ys) 0); [nia|]. eexists. split; [done|].
  split; [|done]. constructor; cbn; rewrite ?length_replicate; try lia.
  apply Forall_replicate. lia.
Qed.

(** What following the gradient may change. *)
Definition same_maps (s s' : navfn) : Prop :=
  (nx s', ny s', ns s', costarr s', potarr s', pending s') = (nx s, ny s, ns s, costarr s, potarr s, pending s) /\
  length (gradx s') = length (gradx s) /\ length (grady s') = length (grady s).

Lemma same_maps_refl s : same_maps s s.
Proof. done. Qed.

Lemma same_maps_trans s1 s2 s3 : same_maps s1 s2 -> same_maps s2 s3 -> same_maps s1 s3.
Proof. intros (E1 & ? & ?) (E2 & ? & ?). split; [congruence|]. split; congruence. Qed.

Lemma same_maps_well_formed s s' : same_maps s s' -> well_formed s -> well_formed s'.
Proof.
  intros (E & Hgx & Hgy) [H1 H2 H3 H4 H5 H6 H7 H8 H9]. injection E as E1 E2 E3 E4 E5 E6.
  constructor; rewrite ?E1, ?E2, ?E3, ?E4, ?E5, ?E6, ?Hgx, ?Hgy; done.
Qed.

Section Follow.
Context `{Hypot}.

Lemma store_gradient_maps n dx dy s s' v : store_gradient n dx dy s = Ok (s', v) -> same_maps s s'.
Proof.
  unfold store_gradient. destruct (f32_lt _ _); intros Hs; res_inv; [|done].
  split; [done|]. cbn. by rewrite !length_insert.
Qed.

Lemma gradCell_maps n s s' v : gradCell n s = Ok (s', v) -> same_maps s s'.
Proof.
  unfold gradCell. intros Hs. res_inv. destruct (f32_lt _ _); [by res_inv|].
  destruct (_ || _); [by res_inv|]. res_inv.
  destruct (f32_le _ _); res_inv; by eapply store_gradient_maps.
Qed.

Lemma add_point_maps x y s s' : add_point x y s = Ok s' -> same_maps s s'.
Proof. unfold add_point. intros Hs. res_inv. done. Qed.

Lemma gradient_step_maps w s s' o : gradient_step w s = Ok (s', o) -> same_maps s s'.
Proof.
  unfold gradient_step. intros Hs. res_inv.
  repeat match goal with H : gradCell _ _ = Ok _ |- _ => apply gradCell_maps in H end.
  match type of Hs with (if ?b then _ else _) = _ => destruct b end; res_inv;
    [|repeat match type of Hs with context [if ?b then _ else _] => destruct b end; res_inv];
    eauto 6 using same_maps_trans.
Qed.

Lemma follow_maps rounds w s s' r : follow rounds w s = Ok (s', r) -> same_maps s s'.
Proof.
  revert w s. induction rounds as [|rounds IH]; intros w s Hs; cbn [follow] in Hs; [by res_inv|].
  apply bind_ok in Hs as (near & _ & Hs). destruct near.
  - res_inv. by eapply add_point_maps.
  - destruct (_ || _); [by res_inv|]. cbv zeta in Hs. apply bind_ok in Hs as (s1 & H1 & Hs).
    apply add_point_maps in H1.
    apply bind_ok in Hs as (osc & _ & Hs). apply bind_ok in Hs as (high & _ & Hs).
    destruct (high || osc).
    + apply bind_ok in Hs as (c & _ & Hs). apply bind_ok in Hs as (p & _ & Hs).
      destruct (f32_le _ _); [by res_inv|]. eauto using same_maps_trans.
    + apply bind_ok in Hs as ([s2 o] & H2 & Hs). apply gradient_step_maps in H2.
      destruct o; [|res_inv]; eauto using same_maps_trans.
Qed.

(** Construction and every change of size give a well-formed object, and these operations keep
    an object well-formed: the inputs, [setCostmap], [setupNavFn] and the search for a path. *)
Lemma navfn_well_formed :
  (forall xs ys, 0 < xs -> 0 < ys -> xs * ys < 2 ^ 31 -> exists s, new xs ys = Ok s /\ well_formed s) /\
  (forall xs ys s, 0 < xs -> 0 < ys -> xs * ys < 2 ^ 31 -> exists s', setNavArr xs ys s = Ok s' /\ well_formed s') /\
  (forall s p, well_formed s -> well_formed (setGoal p s) /\ well_formed (setStart p s)) /\
  (forall s cmap isROS unknown s', well_formed s -> Z.of_nat (length cmap) = ns s ->
    Forall (fun c => 0 <= c <= 255) cmap -> setCostmap cmap isROS unknown s = Ok s' -> well_formed s') /\
  (forall s, well_formed s -> moderate s -> in_map s (goal s) ->
    exists s', setupNavFn true s = Ok s' /\ well_formed s') /\
  (forall s n st s' r, well_formed s -> calcPath n st s = Ok (s', r) -> well_formed s').
Proof.
  split; [|split; [|split; [|split; [|split]]]].
  - intros xs ys Hx Hy Hn. unfold new. match goal with |- exists s, setNavArr _ _ ?t = _ /\ _ =>
      destruct (setNavArr_ok xs ys t Hx Hy Hn) as (s & Hs & Hw & _) end. eauto.
  - intros xs ys s Hx Hy Hn. destruct (setNavArr_ok xs ys s Hx Hy Hn) as (s' & Hs & Hw & _). eauto.
  - intros s p []. split; by constructor.
  - intros s cmap isROS unknown s' Hwf Hl Hr Hs.
    destruct (setCostmap_wf cmap isROS unknown s Hwf Hl Hr) as (s1 & Hs1 & Hw). congruence.
  - intros s Hwf Hmod Hg. destruct (setup_ok s Hwf Hmod Hg) as (s' & cost & Hs & Hb & Hset).
    exists s'. split; [done|]. by apply (settled_well_formed s cost).
  - intros s n st s' r Hwf Hs. unfold calcPath in Hs. cbv zeta in Hs.
    apply bind_ok in Hs as (a & _ & Hs). apply bind_ok in Hs as (c & _ & Hs).
    apply follow_maps in Hs. apply (same_maps_well_formed s); [|done].
    eapply same_maps_trans; [|exact Hs]. by destruct (npathbuf s <? n).
Qed.
End Follow.

(** ** A concrete map

    Nine by nine cells, a wall in the fifth column that leaves an opening below, or closes
    the way when it has all nine cells. *)

Definition demo_costs (wall : Z) : list Z :=
  map (fun k => if (k mod 9 =? 4) && (k / 9 <? wall) then 254 else k mod 7) (seqZ 0 81).

Definition demo (wall : Z) : navfn :=
  match (s ← new 9 9; s ← setCostmap (demo_costs wall) true true s; Ok (setStart (7, 2) (setGoal (1, 2) s))) with
  | Ok s => s
  | _ => mk_navfn 0 0 0 [] [] [] 0 [] [] [] f32_zero f32_zero (0, 0) (0, 0) [] [] [] [] 0 0 f32_zero None
  end.

Lemma demo_ok wall : wall = 6 \/ wall = 9 ->
  well_formed (demo wall) /\ moderate (demo wall) /\ in_map (demo wall) (goal (demo wall)) /\
  in_map (demo wall) (start (demo wall)) /\ few (nx (demo wall)) (ny (demo wall)) (costarr (demo wall)).
Proof.
  intros Hw.
  assert (nx (demo wall) = 9 /\ ny (demo wall) = 9 /\ goal (demo wall) = (1, 2) /\ start (demo wall) = (7, 2))
    as (Ex & Ey & Eg & Es) by (destruct Hw as [-> | ->]; by vm_compute).
  assert (forallb (fun c => (0 <=? c) && (c <=? 255)) (costarr (demo wall)) = true) as Hf
    by (destruct Hw as [-> | ->]; by vm_compute).
  rewrite forallb_forall in Hf.
  assert (Forall (fun c => 0 <= c <= 255) (costarr (demo wall))) as Hc
    by (apply List.Forall_forall; intros c Hc; apply Hf in Hc; bool_arith; lia).
  assert (ns (demo wall) = 81 /\ length (costarr (demo wall)) = 81%nat /\ length (potarr (demo wall)) = 81%nat /\
    length (pending (demo wall)) = 81%nat /\ length (gradx (demo wall)) = 81%nat /\
    length (grady (demo wall)) = 81%nat) as (En & E1 & E2 & E3 & E4 & E5)
    by (destruct Hw as [-> | ->]; vm_compute; repeat split; reflexivity).
  assert (bool_decide (few (nx (demo wall)) (ny (demo wall)) (costarr (demo wall))) = true) as Hfew%bool_decide_eq_true
    by (destruct Hw as [-> | ->]; vm_compute; reflexivity).
  unfold moderate, in_map. rewrite Ex, Ey, Eg, Es in *. cbn [fst snd].
  split; [|split; [lia|split; [lia|split; [lia|exact Hfew]]]].
  constructor; rewrite ?Ex, ?Ey, ?En, ?E1, ?E2, ?E3, ?E4, ?E5; (exact Hc || lia).
Qed.

Lemma navfn_dijkstra_witness : exists r s', calcNavFnDijkstra (fun _ => false) false (demo 6) = (r, s') /\
  r = Ok true /\ has_potential s' 25 = true /\
  linked (nx (demo 6)) (ny (demo 6)) (costarr (demo 6)) (index (demo 6) (goal (demo 6))) 25.
Proof.
  destruct (demo_ok 6 ltac:(by left)) as (Hwf & Hmod & Hg & Hst & Hfew).
  destruct (navfn_dijkstra (demo 6) (fun _ => false) false Hwf Hmod Hg Hst) as (r & s' & Hrun & _ & _ & Hs & _).
  exists r, s'. split; [exact Hrun|].
  assert (r = fst (calcNavFnDijkstra (fun _ => false) false (demo 6))) as Hr by (by rewrite Hrun).
  assert (s' = snd (calcNavFnDijkstra (fun _ => false) false (demo 6))) as Hs' by (by rewrite Hrun).
  assert (has_potential s' 25 = true) as Hp by (rewrite Hs'; by vm_compute).
  split; [rewrite Hr; by vm_compute|]. split; [done|]. apply (Hs 25); [split; vm_compute; [discriminate|reflexivity]|exact Hp].
Defined.

Lemma navfn_astar_witness : exists r s', calcNavFnAstar (fun _ => false) (demo 6) = (r, s') /\
  r = Ok true /\ linked (nx (demo 6)) (ny (demo 6)) (costarr (demo 6)) (index (demo 6) (goal (demo 6)))
                   (index (demo 6) (start (demo 6))).
Proof.
  destruct (demo_ok 6 ltac:(by left)) as (Hwf & Hmod & Hg & Hst & Hfew).
  destruct (navfn_astar (demo 6) (fun _ => false) Hwf Hmod Hg Hst) as (r & s' & Hrun & _ & _ & _ & Hb).
  exists r, s'. split; [exact Hrun|].
  assert (r = fst (calcNavFnAstar (fun _ => false) (demo 6))) as Hr by (by rewrite Hrun).
  assert (r = Ok true) as Ht by (rewrite Hr; by vm_compute).
  split; [exact Ht|]. destruct (Hb true Ht) as (_ & _ & Hl & _). exact (Hl eq_refl).
Defined.

Lemma navfn_costmap_witness : exists s s', new 9 9 = Ok s /\ setCostmap (demo_costs 6) true true s = Ok s' /\
  ~ passable 9 9 (costarr s') 22 /\ passable 9 9 (costarr s') 67.
Proof.
  destruct (setNavArr_ok 9 9 (mk_navfn 9 9 0 [] [] [] 0 [] [] [] f32_zero (f32_of_Z (2 * COST_NEUTRAL)) (0, 0) (0, 0)
       [] [] [] [] 0 0 (f32_of_f64 (f64_div (f64_of_Z 1) (f64_of_Z 2))) None) ltac:(lia) ltac:(lia) ltac:(lia))
    as (s & Hs & Hwf & Hx & Hy).
  assert (Z.of_nat (length (demo_costs 6)) = ns s) as Hl by (rewrite (w_ns s Hwf), Hx, Hy; by vm_compute).
  assert (Forall (fun c => 0 <= c <= 255) (demo_costs 6)) as Hr by solve_decide.
  destruct (navfn_costmap s (demo_costs 6) true true Hwf Hl Hr) as (s' & Hs' & _ & _ & Hp).
  exists s, s'. split; [exact Hs|]. split; [exact Hs'|]. rewrite Hx, Hy in Hp. specialize (Hp eq_refl).
  split.
  - intros Hc. apply Hp in Hc as [_ (v & Hv & Hc)]. vm_compute in Hv. injection Hv as <-. lia.
  - apply Hp. split; [unfold inner; solve_decide|]. exists 4. split; [by vm_compute|]. left. lia.
Defined.

(** Behind a closed wall the start cell keeps no potential, yet the propagation returns true: its
    result does not tell that the start was reached. *)
Example dijkstra_true_unreached :
  let '(r, s') := calcNavFnDijkstra (fun _ => false) true (demo 9) in
  r = Ok true /\ has_potential s' (index (demo 9) (start (demo 9))) = false.
Proof. by vm_compute. Qed.

(** A path from a cell without potential converts [POT_HIGH] to an [int]. *)
Example path_without_potential :
  calcPath 36 (Some (7, 2)) (snd (calcNavFnDijkstra (fun _ => false) true (demo 9))) = UB.
Proof. by vm_compute. Qed.

(** The path around the wall: fifteen points, the last of which is the goal. *)
Example path_around :
  match calcPath 36 None (snd (calcNavFnDijkstra (fun _ => false) true (demo 6))) with
  | Ok (s', n) => n = 15 /\ fget (pathx s') (n - 1) = Ok (f32_of_Z 1) /\ fget (pathy s') (n - 1) = Ok (f32_of_Z 2)
  | _ => False
  end.
Proof. by vm_compute. Qed.
End NavFnSearch.
