(* ===== verification/NavfnPlanner.v ===== *)
(** * The navfn planner plugin ([nav2_navfn_planner/navfn_planner.hpp], [navfn_planner.cpp])

    [createPlan] checks start and goal against the costmap, lets [NavFn] propagate a
    potential from the start, looks for the reachable point nearest to the goal within the
    tolerance, and turns the path of [NavFn] into poses. Headers (stamp and frame) are the
    same in all poses and left out, and so are locks and log messages. *)

From stdpp Require Import base option list numbers strings.
From Stdlib Require Import ZArith Lia SpecFloat String.
From S2P Require Import Prelude Float64 NavFn Costmap.

Record quaternion : Type := mk_quaternion { qx : f64; qy : f64; qz : f64; qw : f64 }.

(** [std::atan2] and the rotation around the vertical axis that the library [tf2] builds. *)
Class Rotation : Type := {
  atan2 : f64 -> f64 -> f64;
  orientationAroundZAxis : f64 -> quaternion }.

Module NavfnPlanner.
Import Costmap NavFn.

Record pose : Type := mk_pose { px : f64; py : f64; pz : f64; orientation : quaternion }.

(** A pointer to the [NavFn] object is null before [configure] and after [cleanup]. *)
Record planner : Type := mk_planner {
  name_ : string;
  costmap_ : costmap;
  planner_ : option navfn;
  tolerance_ : f64;
  use_astar_ : bool;
  allow_unknown_ : bool;
  use_final_approach_orientation_ : bool }.

Definition set_costmap m (s : planner) : planner :=
  mk_planner (name_ s) m (planner_ s) (tolerance_ s) (use_astar_ s) (allow_unknown_ s)
    (use_final_approach_orientation_ s).
Definition set_navfn n (s : planner) : planner :=
  mk_planner (name_ s) (costmap_ s) n (tolerance_ s) (use_astar_ s) (allow_unknown_ s)
    (use_final_approach_orientation_ s).
Definition set_parameters tolerance astar unknown final (s : planner) : planner :=
  mk_planner (name_ s) (costmap_ s) (planner_ s) tolerance astar unknown final.

(** A call of the [NavFn] object. *)
Definition with_navfn {A} (c : ST navfn A) : ST planner A := fun s =>
  match planner_ s with
  | None => (UB, s)
  | Some n => let '(r, n) := c n in (r, set_navfn (Some n) s)
  end.

Definition int_of_size (z : Z) : Z := wraps 32 z.

(** ** Life cycle and parameters *)

Definition configure (name : string) (m : costmap) (tolerance : f64) (astar unknown final : bool) : res planner :=
  n ← new (int_of_size (size_x m)) (int_of_size (size_y m));
  Ok (mk_planner name m (Some n) tolerance astar unknown final).

Definition cleanup (s : planner) : planner := set_navfn None s.

Inductive parameter_value : Type :=
  | PARAMETER_DOUBLE (x : f64)
  | PARAMETER_BOOL (b : bool)
  | PARAMETER_OTHER.

Definition set_parameter (p : string * parameter_value) (s : planner) : planner :=
  let named suffix := String.eqb (fst p) (name_ s ++ suffix)%string in
  match snd p with
  | PARAMETER_DOUBLE x =>
      if named ".tolerance"%string
      then set_parameters x (use_astar_ s) (allow_unknown_ s) (use_final_approach_orientation_ s) s
      else s
  | PARAMETER_BOOL b =>
      if named ".use_astar"%string
      then set_parameters (tolerance_ s) b (allow_unknown_ s) (use_final_approach_orientation_ s) s
      else if named ".allow_unknown"%string
      then set_parameters (tolerance_ s) (use_astar_ s) b (use_final_approach_orientation_ s) s
      else if named ".use_final_approach_orientation"%string
      then set_parameters (tolerance_ s) (use_astar_ s) (allow_unknown_ s) b s
      else s
  | PARAMETER_OTHER => s
  end.

Definition dynamicParametersCallback (parameters : list (string * parameter_value)) (s : planner) : planner :=
  fold_left (fun s p => set_parameter p s) parameters s.

(** ** Coordinates *)

(** [std::numeric_limits<double>::max()] *)
Definition DOUBLE_MAX : f64 := S754_finite false 9007199254740991 971.

(** The cell is the nearest one, by [std::round]; [None] where the arguments are left as
    they were. *)
Definition cell_coordinate (w origin resol : f64) : res Z :=
  z ← f64_to_int 32 (f64_round (f64_div (f64_sub w origin) resol)); Ok (wrapu 32 z).

Definition worldToMap (wx wy : f64) (m : costmap) : res (bool * option (Z * Z)) :=
  if f64_lt wx (origin_x m) || f64_lt wy (origin_y m) then Ok (false, None) else
  mx ← cell_coordinate wx (origin_x m) (resolution m);
  my ← cell_coordinate wy (origin_y m) (resolution m);
  Ok ((mx <? size_x m) && (my <? size_y m), Some (mx, my)).

(** The coordinates of a call whose result is not looked at: reading variables that were not
    set is undefined. *)
Definition map_cell (wx wy : f64) (m : costmap) : res (Z * Z) :=
  '(_, c) ← worldToMap wx wy m; match c with Some c => Ok c | None => UB end.

Definition mapToWorld (mx my : f64) (m : costmap) : f64 * f64 :=
  (f64_add (origin_x m) (f64_mul mx (resolution m)), f64_add (origin_y m) (f64_mul my (resolution m))).

Definition clearRobotCell (mx my : Z) (m : costmap) : res costmap := setCost mx my FREE_SPACE m.

Definition isPlannerOutOfDate (s : planner) : bool :=
  match planner_ s with
  | None => true
  | Some n => negb (nx n =? int_of_size (size_x (costmap_ s))) || negb (ny n =? int_of_size (size_y (costmap_ s)))
  end.

Definition squared_distance (a b : pose) : f64 :=
  let dx := f64_sub (px a) (px b) in
  let dy := f64_sub (py a) (py b) in
  f64_add (f64_mul dx dx) (f64_mul dy dy).

(** ** Potentials *)

(** The index is computed in unsigned arithmetic. *)
Definition getPointPotential (x y : f64) (s : planner) : res f64 :=
  '(inside, c) ← worldToMap x y (costmap_ s);
  match inside, c, planner_ s with
  | false, _, _ => Ok DOUBLE_MAX
  | true, Some (mx, my), Some n =>
      p ← pot n (wrapu 32 (wrapu 32 (my * wrapu 32 (nx n)) + mx)); Ok (f64_of_f32 p)
  | true, _, _ => UB
  end.

(** 1.0e10 as a [double] *)
Definition POT_HIGH_D : f64 := S754_finite false 5242880000000000 (-19).

(** The search of the nearest reachable point around the goal. The state of the loops is the
    best pose so far with its squared distance. *)
Definition better (p goal : pose) (best : option (pose * f64)) (s : planner) : res (option (pose * f64)) :=
  potential ← getPointPotential (px p) (py p) s;
  let sdist := squared_distance p goal in
  let best_sdist := match best with Some (_, d) => d | None => DOUBLE_MAX end in
  Ok (if f64_lt potential POT_HIGH_D && f64_lt sdist best_sdist then Some (p, sdist) else best).

(** Both [while] loops add the resolution until a coordinate passes its bound; [rounds] limits
    the rounds of each. *)
Fixpoint scan_x (rounds : nat) (x limit y : f64) (goal : pose) (best : option (pose * f64)) (s : planner) :
    res (option (pose * f64)) :=
  if f64_le x limit then
    match rounds with
    | O => UB
    | S rounds =>
        best ← better (mk_pose x y (pz goal) (orientation goal)) goal best s;
        scan_x rounds (f64_add x (resolution (costmap_ s))) limit y goal best s
    end
  else Ok best.

Fixpoint scan_y (rounds width : nat) (y limit : f64) (goal : pose) (best : option (pose * f64)) (s : planner) :
    res (option (pose * f64)) :=
  if f64_le y limit then
    match rounds with
    | O => UB
    | S rounds =>
        best ← scan_x width (f64_sub (px goal) (tolerance_ s)) (f64_add (px goal) (tolerance_ s)) y goal best s;
        scan_y rounds width (f64_add y (resolution (costmap_ s))) limit goal best s
    end
  else Ok best.

Definition best_pose (rounds : nat) (goal : pose) (s : planner) : res (option pose) :=
  potential ← getPointPotential (px goal) (py goal) s;
  if f64_lt potential POT_HIGH_D then Ok (Some goal) else
  best ← scan_y rounds rounds (f64_sub (py goal) (tolerance_ s)) (f64_add (py goal) (tolerance_ s)) goal None s;
  Ok (option_map fst best).

(** ** Plans *)

Definition no_rotation : quaternion :=
  mk_quaternion f64_zero f64_zero f64_zero (f64_of_Z 1).

(** The points of the path from the last to the first. *)
Fixpoint poses_of_path (len : nat) (n : navfn) (m : costmap) : res (list pose) :=
  match len with
  | O => Ok []
  | S i =>
      x ← fget (getPathX n) (Z.of_nat i);
      y ← fget (getPathY n) (Z.of_nat i);
      let '(wx, wy) := mapToWorld (f64_of_f32 x) (f64_of_f32 y) m in
      l ← poses_of_path i n m;
      Ok (mk_pose wx wy f64_zero no_rotation :: l)
  end.

Section Plans.
Context `{Hypot} `{Rotation}.

Definition getPlanFromPotential (goal : pose) : ST planner (list pose) :=
  s ← get;
  c ← query (fun s => map_cell (px goal) (py goal) (costmap_ s));
  _ ← with_navfn (modify (setStart (wraps 32 (fst c), wraps 32 (snd c))));
  let sx := size_x (costmap_ s) in
  let sy := size_y (costmap_ s) in
  let max_cycles := wraps 32 (wrapu 32 ((if sx >=? sy then sx else sy) * 4)) in
  path_len ← with_navfn (fun n => match calcPath max_cycles None n with
                                  | Ok (n, l) => (Ok l, n) | Throw e => (Throw e, n) | UB => (UB, n) end);
  if (path_len : Z) =? 0 then mret [] else
  with_navfn (fun n => (poses_of_path (Z.to_nat (getPathLen n)) n (costmap_ s), n)).

(** 1e-6 *)
Definition close : f64 := S754_finite false 4722366482869645 (-72).

Definition smoothApproachToGoal (goal : pose) (plan : list pose) : list pose :=
  match reverse plan with
  | last_pose :: second_to_last_pose :: rest =>
      if f64_lt (squared_distance goal second_to_last_pose) (squared_distance last_pose second_to_last_pose)
         || f64_lt (squared_distance last_pose goal) close
      then reverse (goal :: second_to_last_pose :: rest)
      else plan ++ [goal]
  | _ => plan ++ [goal]
  end.

Definition set_orientation q (p : pose) : pose := mk_pose (px p) (py p) (pz p) q.

(** 0.0001 *)
Definition equal_last : f64 := S754_finite false 7378697629483821 (-66).

(** The orientation of the last pose when the final approach decides it. *)
Definition final_approach (start : pose) (plan : list pose) : list pose :=
  match reverse plan with
  | [last_pose] => [set_orientation (orientation start) last_pose]
  | last_pose :: approach :: rest =>
      let near := f64_lt (SFabs (f64_sub (px last_pose) (px approach))) equal_last
                  && f64_lt (SFabs (f64_sub (py last_pose) (py approach))) equal_last in
      let approach_pose := match near, rest with true, third :: _ => third | _, _ => approach end in
      let theta := atan2 (f64_sub (py last_pose) (py approach_pose)) (f64_sub (px last_pose) (px approach_pose)) in
      reverse (set_orientation (orientationAroundZAxis theta) last_pose :: approach :: rest)
  | [] => []
  end.

Definition makePlan (rounds : nat) (start goal : pose) (cancel_checker : Z -> bool) : ST planner (list pose) :=
  c ← query (fun s => map_cell (px start) (py start) (costmap_ s));
  _ ← amend (fun s => m ← clearRobotCell (fst c) (snd c) (costmap_ s); Ok (set_costmap m s));
  s ← get;
  let m := costmap_ s in
  _ ← with_navfn (amend (setNavArr (int_of_size (size_x m)) (int_of_size (size_y m))));
  _ ← with_navfn (amend (setCostmap (cells m) true (allow_unknown_ s)));
  g ← query (fun s => map_cell (px goal) (py goal) (costmap_ s));
  _ ← with_navfn (modify (setStart (wraps 32 (fst g), wraps 32 (snd g))));
  _ ← with_navfn (modify (setGoal (wraps 32 (fst c), wraps 32 (snd c))));
  _ ← with_navfn (if use_astar_ s then calcNavFnAstar cancel_checker else calcNavFnDijkstra cancel_checker true);
  best ← query (best_pose rounds goal);
  match best with
  | None => mret []
  | Some p =>
      plan ← getPlanFromPotential p;
      if bool_decide (plan = []) then mret [] else
      let plan := smoothApproachToGoal p plan in
      mret (if use_final_approach_orientation_ s then final_approach start plan else plan)
  end.

Definition equal_quaternion (a b : quaternion) : bool :=
  f64_eq (qx a) (qx b) && f64_eq (qy a) (qy b) && f64_eq (qz a) (qz b) && f64_eq (qw a) (qw b).

Definition createPlan (rounds : nat) (start goal : pose) (cancel_checker : Z -> bool) : ST planner (list pose) :=
  '(inside, _) ← query (fun s => Costmap.worldToMap (px start) (py start) (costmap_ s));
  if negb (inside : bool) then throw start_outside_map else
  '(inside, g) ← query (fun s => Costmap.worldToMap (px goal) (py goal) (costmap_ s));
  if negb (inside : bool) then throw goal_outside_map else
  occupied ← query (fun s =>
    if f64_eq (tolerance_ s) f64_zero then
      match g with
      | Some (mx, my) => v ← getCost mx my (costmap_ s); Ok (v =? LETHAL_OBSTACLE)
      | None => UB
      end
    else Ok false);
  if (occupied : bool) then throw goal_occupied else
  s ← get;
  _ ← (if isPlannerOutOfDate s
       then with_navfn (amend (setNavArr (int_of_size (size_x (costmap_ s))) (int_of_size (size_y (costmap_ s)))))
       else mret tt);
  if f64_eq (px start) (px goal) && f64_eq (py start) (py goal) then
    let q := if negb (equal_quaternion (orientation start) (orientation goal))
                && negb (use_final_approach_orientation_ s)
             then orientation goal else orientation start in
    mret [set_orientation q start]
  else
    plan ← makePlan rounds start goal cancel_checker;
    if bool_decide (plan = []) then throw no_valid_path else mret plan.
End Plans.
End NavfnPlanner.
