(* ===== verification/NavfnPlannerLaws.v ===== *)
(** * What the navfn planner plugin promises

    The point a path is planned to is the goal if it is reachable, and otherwise the nearest
    reachable point of the scan of the tolerance region. No path is returned unless a
    candidate is linked to the start, and the exceptions follow the order of the checks. *)

From stdpp Require Import base option list numbers.
From Stdlib Require Import ZArith Lia SpecFloat.
From Stdlib Require String.
From S2P Require Import Prelude Float64 FloatOrder FloatBounds NavFn NavFnLaws NavFnSearch Costmap NavfnPlanner.

Module NavfnPlannerLaws.
Import Costmap NavFn NavFnLaws NavFnSearch NavfnPlanner.

(** ** The scan of the tolerance region *)

(** The values a coordinate takes in a loop. *)
Fixpoint samples (rounds : nat) (x limit step : f64) : option (list f64) :=
  if f64_le x limit then
    match rounds with
    | O => None
    | S rounds => cons x <$> samples rounds (f64_add x step) limit step
    end
  else Some [].

Definition at_point (goal : pose) (x y : f64) : pose := mk_pose x y (pz goal) (orientation goal).
Definition row (goal : pose) (xs : list f64) (y : f64) : list pose := (fun x => at_point goal x y) <$> xs.
Definition region (goal : pose) (xs ys : list f64) : list pose := mjoin (row goal xs <$> ys).

(** One candidate against the best so far, with the potentials [P]. *)
Definition improve (P : f64 -> f64 -> f64) (goal : pose) (best : option (pose * f64)) (p : pose) :
    option (pose * f64) :=
  if f64_lt (P (px p) (py p)) POT_HIGH_D
     && f64_lt (squared_distance p goal) (match best with Some (_, d) => d | None => DOUBLE_MAX end)
  then Some (p, squared_distance p goal) else best.

Section Scan.
Context (P : f64 -> f64 -> f64) (goal : pose) (s : planner).

Lemma better_improve p best : getPointPotential (px p) (py p) s = Ok (P (px p) (py p)) ->
  better p goal best s = Ok (improve P goal best p).
Proof. intros H. unfold better. by rewrite H. Qed.

Lemma scan_x_ok rounds limit y : forall x xs best, samples rounds x limit (resolution (costmap_ s)) = Some xs ->
  (forall p, p ∈ row goal xs y -> getPointPotential (px p) (py p) s = Ok (P (px p) (py p))) ->
  scan_x rounds x limit y goal best s = Ok (fold_left (improve P goal) (row goal xs y) best).
Proof.
  induction rounds as [|rounds IH]; intros x xs best Hs HP; cbn [samples scan_x] in *;
    destruct (f64_le x limit); try (injection Hs as <-; done); [done|].
  apply fmap_Some in Hs as (rest & Hs & ->). unfold row in *. rewrite fmap_cons in *. cbn [fold_left].
  change (mk_pose x y (pz goal) (orientation goal)) with (at_point goal x y).
  rewrite better_improve by (apply HP; by left). rewrite bind_Ok. apply IH; [done|].
  intros p Hp. apply HP. by right.
Qed.

Lemma scan_y_ok rounds width limit xs :
  samples width (f64_sub (px goal) (tolerance_ s)) (f64_add (px goal) (tolerance_ s)) (resolution (costmap_ s)) = Some xs ->
  forall y ys best, samples rounds y limit (resolution (costmap_ s)) = Some ys ->
  (forall p, p ∈ region goal xs ys -> getPointPotential (px p) (py p) s = Ok (P (px p) (py p))) ->
  scan_y rounds width y limit goal best s = Ok (fold_left (improve P goal) (region goal xs ys) best).
Proof.
  intros Hxs. induction rounds as [|rounds IH]; intros y ys best Hs HP; cbn [samples scan_y] in *;
    destruct (f64_le y limit); try (injection Hs as <-; done); [done|].
  apply fmap_Some in Hs as (rest & Hs & ->).
  assert (region goal xs (y :: rest) = row goal xs y ++ region goal xs rest) as E by done.
  rewrite E in *.
  rewrite (scan_x_ok _ _ y _ xs) by (try done; intros p Hp; apply HP, elem_of_app; by left).
  rewrite bind_Ok, fold_left_app. apply IH; [done|].
  intros p Hp. apply HP, elem_of_app. by right.
Qed.

(** The best of a list of candidates. *)
Definition reachable_near (p : pose) : Prop :=
  f64_lt (P (px p) (py p)) POT_HIGH_D = true /\ f64_lt (squared_distance p goal) DOUBLE_MAX = true.

Lemma improve_fold l best :
  match best with Some (_, d) => f64_lt d DOUBLE_MAX = true | None => True end ->
  match fold_left (improve P goal) l best with
  | None => best = None /\ forall p, p ∈ l -> ~ reachable_near p
  | Some (p, d) =>
      (best = Some (p, d) \/ (p ∈ l /\ d = squared_distance p goal /\ reachable_near p)) /\
      f64_lt d DOUBLE_MAX = true /\
      (forall p', p' ∈ l -> reachable_near p' -> f64_lt (squared_distance p' goal) d = false) /\
      match best with Some (_, d') => d = d' \/ f64_lt d d' = true | None => True end
  end.
Proof.
  revert best. induction l as [|q l IH]; intros best Hb; cbn [fold_left].
  - destruct best as [[p d]|].
    + split; [by left|]. split; [done|]. split; [by intros p' ?%elem_of_nil|]. by left.
    + split; [done|]. by intros p ?%elem_of_nil.
  - set (d0 := match best with Some (_, d) => d | None => DOUBLE_MAX end).
    assert (improve P goal best q =
      if f64_lt (P (px q) (py q)) POT_HIGH_D && f64_lt (squared_distance q goal) d0
      then Some (q, squared_distance q goal) else best) as E by done.
    assert (forall d, f64_lt d d0 = true -> f64_lt d DOUBLE_MAX = true) as Hmax.
    { intros d Hd. unfold d0 in Hd. destruct best as [[? d']|]; [by eapply f64_lt_trans|done]. }
    rewrite E. destruct (_ && _) eqn:Hq.
    + apply andb_true_iff in Hq as [Hq1 Hq2].
      specialize (IH (Some (q, squared_distance q goal)) (Hmax _ Hq2)).
      destruct (fold_left _ l _) as [[p d]|]; [|by destruct IH].
      destruct IH as (H1 & H2 & H3 & H4).
      assert (f64_lt d d0 = true) as Hd0 by (destruct H4 as [->|?]; [done|by eapply f64_lt_trans]).
      split; [|split; [done|split]].
      * right. destruct H1 as [[= -> ->]|(? & ? & ?)].
        -- split; [by left|]. split; [done|]. split; auto.
        -- split; [by right|]. done.
      * intros p' [->|Hp']%elem_of_cons Hn; [|auto]. destruct H4 as [->|Hlt].
        -- apply f64_lt_irrefl.
        -- pose proof (f64_lt_irrefl d) as Hirr. destruct (f64_lt (squared_distance q goal) d) eqn:Hc; [|done].
           by rewrite (f64_lt_trans _ _ _ Hlt Hc) in Hirr.
      * unfold d0 in Hd0. destruct best as [[? d']|]; [by right|done].
    + specialize (IH best Hb). apply andb_false_iff in Hq.
      destruct (fold_left _ l best) as [[p d]|].
      * destruct IH as (H1 & H2 & H3 & H4). split; [|split; [done|split; [|done]]].
        -- destruct H1 as [?|(? & ?)]; [by left|]. right. split; [by right|done].
        -- intros p' [->|Hp']%elem_of_cons Hn; [|auto]. destruct Hn as [Hn1 Hn2].
           destruct Hq as [Hq|Hq]; [congruence|]. unfold d0 in Hq. destruct best as [[? d']|]; [|congruence].
           destruct H4 as [->|Hlt]; [done|]. destruct (f64_lt (squared_distance q goal) d) eqn:Hc; [|done].
           by rewrite (f64_lt_trans _ _ _ Hc Hlt) in Hq.
      * destruct IH as [-> H]. split; [done|]. intros p [->|Hp]%elem_of_cons; [|auto].
        intros [Hn1 Hn2]. unfold d0 in Hq. destruct Hq; congruence.
Qed.
End Scan.

(** The candidates of [makePlan]: the goal, then the scan. *)
Definition scan_region (rounds : nat) (goal : pose) (s : planner) : option (list pose) :=
  xs ← samples rounds (f64_sub (px goal) (tolerance_ s)) (f64_add (px goal) (tolerance_ s)) (resolution (costmap_ s));
  ys ← samples rounds (f64_sub (py goal) (tolerance_ s)) (f64_add (py goal) (tolerance_ s)) (resolution (costmap_ s));
  Some (region goal xs ys).

Lemma best_pose_ok P rounds goal s l : scan_region rounds goal s = Some l ->
  (forall p, p ∈ goal :: l -> getPointPotential (px p) (py p) s = Ok (P (px p) (py p))) ->
  best_pose rounds goal s =
    Ok (if f64_lt (P (px goal) (py goal)) POT_HIGH_D then Some goal
        else fst <$> fold_left (improve P goal) l None).
Proof.
  unfold scan_region. intros Hl HP. apply bind_Some in Hl as (xs & Hxs & Hl).
  apply bind_Some in Hl as (ys & Hys & [= <-]). unfold best_pose.
  rewrite (HP goal) by by left. rewrite bind_Ok. destruct (f64_lt _ _); [done|].
  rewrite (scan_y_ok P goal s rounds rounds _ xs Hxs _ ys) by (try done; intros p Hp; apply HP; by right).
  done.
Qed.

(** when the loops over the tolerance region end and the potentials of the candidates are
    defined, [makePlan] plans to the goal if it has a potential; otherwise to a point of the region
    that has one, with no such point nearer to the goal, and to none if there is no such point. *)
Theorem planner_best_pose P rounds goal s l : scan_region rounds goal s = Some l ->
  (forall p, p ∈ goal :: l -> getPointPotential (px p) (py p) s = Ok (P (px p) (py p))) ->
  exists best, best_pose rounds goal s = Ok best /\
    match best with
    | Some p =>
        (p = goal /\ f64_lt (P (px goal) (py goal)) POT_HIGH_D = true) \/
        (f64_lt (P (px goal) (py goal)) POT_HIGH_D = false /\ p ∈ l /\ reachable_near P goal p /\
         forall p', p' ∈ l -> reachable_near P goal p' ->
           f64_lt (squared_distance p' goal) (squared_distance p goal) = false)
    | None =>
        f64_lt (P (px goal) (py goal)) POT_HIGH_D = false /\ forall p, p ∈ l -> ~ reachable_near P goal p
    end.
Proof.
  intros Hl HP. rewrite (best_pose_ok P rounds goal s l Hl HP). eexists. split; [done|].
  destruct (f64_lt _ _) eqn:Hg; [by left|].
  pose proof (improve_fold P goal l None I) as Hf.
  destruct (fold_left _ l None) as [[p d]|]; cbn.
  - right. destruct Hf as ([?|(Hp & -> & Hr)] & _ & Hn & _); [done|]. auto.
  - by destruct Hf.
Qed.

(** ** Planning *)

(** The planner is configured, the map of moderate size, and start and goal lie in cells. *)
Record plannable (s : planner) (start goal : pose) (cs cg : Z * Z) : Prop := {
  r_navfn : exists n, planner_ s = Some n;
  r_x : 0 < size_x (costmap_ s) <= 100000;
  r_y : 0 < size_y (costmap_ s) <= 100000;
  r_size : size_x (costmap_ s) * size_y (costmap_ s) <= 4000000;
  r_cells : Z.of_nat (length (cells (costmap_ s))) = size_x (costmap_ s) * size_y (costmap_ s);
  r_bytes : Forall (fun c => 0 <= c <= 255) (cells (costmap_ s));
  r_start : worldToMap (px start) (py start) (costmap_ s) = Ok (true, Some cs);
  r_goal : worldToMap (px goal) (py goal) (costmap_ s) = Ok (true, Some cg) }.

Definition cell_index (m : costmap) (c : Z * Z) : Z := snd c * size_x m + fst c.

(** The cell of a point inside the map. *)
Definition cell_of (m : costmap) (p : pose) : option Z :=
  match worldToMap (px p) (py p) m with Ok (true, Some c) => Some (cell_index m c) | _ => None end.

(** The costs of the planner: the cell of the start counts as free. *)
Definition plan_costs (s : planner) (cs : Z * Z) : list Z :=
  planner_cost (allow_unknown_ s) <$>
    <[Z.to_nat (cell_index (costmap_ s) cs) := FREE_SPACE]> (cells (costmap_ s)).

(** A cell that a path of passable cells links to the start. *)
Definition reached_from (s : planner) (cs : Z * Z) (c : Z) : Prop :=
  linked (size_x (costmap_ s)) (size_y (costmap_ s)) (plan_costs s cs) (cell_index (costmap_ s) cs) c.

Lemma worldToMap_inside x y m c : worldToMap x y m = Ok (true, Some c) ->
  0 <= fst c < size_x m /\ 0 <= snd c < size_y m.
Proof.
  unfold worldToMap. destruct (_ || _); [done|]. intros H. res_inv.
  unfold cell_coordinate in *. res_inv. bool_arith. cbn.
  match goal with |- context [wrapu 32 ?a] => pose proof (wrapu_range 32 a ltac:(lia)) as Ha end.
  match goal with |- _ /\ 0 <= wrapu 32 ?b < _ => pose proof (wrapu_range 32 b ltac:(lia)) as Hb end.
  unfold in_u in *. lia.
Qed.

Lemma int_of_size_small z : 0 < z <= 100000 -> int_of_size z = z.
Proof. intros. apply wraps_id; [lia|]. unfold in_s. lia. Qed.

Section Planning.
Context `{HypotLaws} `{Rotation}.
Context (s : planner) (start goal : pose) (cs cg : Z * Z).
Hypothesis plannable0 : plannable s start goal cs cg.

Abbreviation m := (costmap_ s).

Lemma map_cell_start : map_cell (px start) (py start) m = Ok cs.
Proof. unfold map_cell. by rewrite (r_start _ _ _ _ _ plannable0). Qed.

Lemma map_cell_goal l : map_cell (px goal) (py goal) (set_cells l m) = Ok cg.
Proof.
  unfold map_cell. change (worldToMap (px goal) (py goal) (set_cells l m)) with (worldToMap (px goal) (py goal) m).
  by rewrite (r_goal _ _ _ _ _ plannable0).
Qed.

Definition cleared : costmap := set_cells (<[Z.to_nat (cell_index m cs) := FREE_SPACE]> (cells m)) m.

Lemma clear_ok : clearRobotCell (fst cs) (snd cs) m = Ok cleared.
Proof.
  destruct (worldToMap_inside _ _ _ _ (r_start _ _ _ _ _ plannable0)) as [Hx Hy].
  pose proof (r_size _ _ _ _ _ plannable0). pose proof (r_cells _ _ _ _ _ plannable0).
  unfold clearRobotCell, setCost, getIndex.
  assert (0 <= snd cs * size_x m + fst cs < size_x m * size_y m) by nia.
  rewrite wrapu_id by (unfold in_u; lia).
  assert (aset (cells m) (snd cs * size_x m + fst cs) FREE_SPACE =
    Ok (<[Z.to_nat (cell_index m cs) := FREE_SPACE]> (cells m))) as -> by (apply aset_ok; split; [lia|done]).
  done.
Qed.

(** The [NavFn] object when the propagation starts. *)
Lemma prepared n : exists n1 n2,
  setNavArr (int_of_size (size_x m)) (int_of_size (size_y m)) n = Ok n1 /\
  setCostmap (cells cleared) true (allow_unknown_ s) n1 = Ok n2 /\
  let n3 := setGoal (wraps 32 (fst cs), wraps 32 (snd cs)) (setStart (wraps 32 (fst cg), wraps 32 (snd cg)) n2) in
  well_formed n3 /\ moderate n3 /\ in_map n3 (NavFn.goal n3) /\ in_map n3 (NavFn.start n3) /\
  nx n3 = size_x m /\ ny n3 = size_y m /\ costarr n3 = plan_costs s cs /\
  index n3 (NavFn.goal n3) = cell_index m cs.
Proof.
  destruct plannable0 as [_ Hx Hy Hsz Hcells Hbytes Hs Hg].
  apply worldToMap_inside in Hs as [Hs1 Hs2]. apply worldToMap_inside in Hg as [Hg1 Hg2].
  rewrite !int_of_size_small by done.
  destruct (setNavArr_ok (size_x m) (size_y m) n) as (n1 & -> & Hw1 & Ex & Ey); [lia|lia|lia|].
  assert (Z.of_nat (length (cells cleared)) = ns n1) as Hlen.
  { cbn. rewrite length_insert, (w_ns n1 Hw1), Ex, Ey. done. }
  assert (Forall (fun c => 0 <= c <= 255) (cells cleared)) as Hb.
  { cbn. apply Forall_insert; [done|]. unfold FREE_SPACE. lia. }
  destruct (setCostmap_wf (cells cleared) true (allow_unknown_ s) n1 Hw1 Hlen Hb) as (n2 & Hn2 & Hw2).
  destruct (setCostmap_cells (cells cleared) true (allow_unknown_ s) n1 Hw1 Hlen Hb) as (l & Hl & Hll & Hcell).
  rewrite Hl in Hn2. injection Hn2 as <-.
  exists n1, (set_costarr l n1). split; [done|]. split; [done|]. cbv zeta.
  assert (forall z, 0 <= z < 100000 -> wraps 32 z = z) as Hwr by (intros; apply wraps_id; [lia|unfold in_s; lia]).
  split; [by destruct Hw2; constructor|].
  split; [unfold moderate; cbn; rewrite Ex, Ey; lia|].
  rewrite !Hwr by lia.
  split; [unfold in_map; cbn; rewrite Ex, Ey; lia|]. split; [unfold in_map; cbn; rewrite Ex, Ey; lia|].
  split; [done|]. split; [done|]. split.
  - cbn. unfold plan_costs. apply list_eq. intros i. rewrite list_lookup_fmap.
    change (<[Z.to_nat (cell_index m cs):=FREE_SPACE]> (cells m)) with (cells cleared).
    destruct (decide (i < length (cells cleared))%nat) as [Hi|Hi].
    + destruct (Hcell (Z.of_nat i)) as (v & Hv & _ & He); [lia|]. rewrite Nat2Z.id in Hv, He.
      by rewrite Hv, He.
    + rewrite (lookup_ge_None_2 (cells cleared)) by lia. apply lookup_ge_None_2. lia.
  - unfold index, cell_index. cbn. by rewrite Ex.
Qed.

(** The state after the propagation, and what its potentials say. *)
Definition searched (s2 : planner) (n' : navfn) : Prop :=
  planner_ s2 = Some n' /\ costmap_ s2 = cleared /\ tolerance_ s2 = tolerance_ s /\ nx n' = size_x m /\
  forall c, 0 <= c < size_x m * size_y m -> pot n' c = Ok (value n' c) /\ good (value n' c) /\
    (has_potential n' c = true -> reached_from s cs c).

Lemma calc_ok cancel n3 : well_formed n3 -> moderate n3 -> in_map n3 (NavFn.goal n3) -> in_map n3 (NavFn.start n3) ->
  exists r n', (if use_astar_ s then calcNavFnAstar cancel else calcNavFnDijkstra cancel true) n3 = (r, n') /\
    ((exists b, r = Ok b) \/ (r = Throw planner_cancelled /\ exists i, cancel i = true)) /\ nx n' = nx n3 /\
    forall c, 0 <= c < nx n3 * ny n3 -> pot n' c = Ok (value n' c) /\ good (value n' c) /\
      (has_potential n' c = true ->
        linked (nx n3) (ny n3) (costarr n3) (index n3 (NavFn.goal n3)) c).
Proof.
  intros Hw Hm Hg Hs.
  assert (exists r n' cost, (if use_astar_ s then calcNavFnAstar cancel else calcNavFnDijkstra cancel true) n3 = (r, n') /\
    bordered n3 cost /\
    settled (nx n3) (ny n3) cost (NavFn.start n3) (NavFn.goal n3) (index n3 (NavFn.goal n3)) n' /\
    ((exists b, r = Ok b) \/ (r = Throw planner_cancelled /\ exists i, cancel i = true))) as (r & n' & cost & E & Hb & Hset & Hr).
  { destruct (use_astar_ s).
    - destruct (astar_run n3 cancel Hw Hm Hg Hs) as (r & n' & cost & E & Hb & Hset & Hr).
      exists r, n', cost. split; [done|]. split; [done|]. split; [done|]. destruct Hr as [?|[-> _]]; eauto.
    - destruct (dijkstra_run n3 cancel true Hw Hm Hg Hs) as (r & n' & cost & E & Hb & Hset & Hr).
      exists r, n', cost. split; [done|]. split; [done|]. split; [done|]. destruct Hr as [?|[->|[-> _]]]; eauto. }
  exists r, n'. split; [done|]. split; [done|]. pose proof (b_frame _ _ _ _ _ _ _ Hset) as F.
  split; [apply (f_nx _ _ _ _ _ _ F)|]. intros c Hc.
  destruct (pot_value _ _ _ _ _ n' c F Hc) as [? ?]. split; [done|]. split; [done|].
  by apply (settled_sound n3 cost Hb n').
Qed.

(** What [makePlan] does once the propagation is over. *)
Definition after_search (rounds : nat) : ST planner (list pose) :=
  best ← query (best_pose rounds goal);
  match best with
  | None => mret []
  | Some p =>
      plan ← getPlanFromPotential p;
      if bool_decide (plan = []) then mret [] else
      let plan := smoothApproachToGoal p plan in
      mret (if use_final_approach_orientation_ s then final_approach start plan else plan)
  end.

Lemma makePlan_search rounds cancel n : planner_ s = Some n -> exists r s2 n',
  makePlan rounds start goal cancel s =
    match r with Ok _ => after_search rounds s2 | Throw e => (Throw e, s2) | UB => (UB, s2) end /\
  ((exists b : bool, r = Ok b) \/ (r = Throw planner_cancelled /\ exists i, cancel i = true)) /\ searched s2 n'.
Proof.
  intros Hn. destruct (prepared n) as (n1 & n2 & Hn1 & Hn2 & Hw & Hm & Hg & Hs & Ex & Ey & Ec & Ei).
  set (n3 := setGoal _ _) in *.
  destruct (calc_ok cancel n3 Hw Hm Hg Hs) as (r & n' & Hcalc & Hr & Hnx & Hpot).
  set (s1 := set_costmap cleared s).
  exists r, (set_navfn (Some n') s1), n'. split; [|split; [done|]].
  - unfold makePlan, query, amend, modify. expose. rewrite map_cell_start. expose.
    rewrite clear_ok. expose. rewrite bind_Ok. unfold get. expose. fold s1.
    unfold with_navfn at 1. cbn [planner_ s1 set_costmap]. rewrite Hn.
    change (costmap_ s1) with cleared. change (size_x cleared) with (size_x m). change (size_y cleared) with (size_y m).
    rewrite Hn1. expose.
    unfold with_navfn at 1. cbn [planner_ set_navfn]. change (allow_unknown_ s1) with (allow_unknown_ s).
    rewrite Hn2. expose.
    change (costmap_ (set_navfn _ _)) with cleared.
    unfold cleared at 1. rewrite map_cell_goal. expose.
    unfold with_navfn at 1. cbn [planner_ set_navfn]. expose.
    unfold with_navfn at 1. cbn [planner_ set_navfn]. expose.
    change (setGoal _ _) with n3. unfold with_navfn at 1. cbn [planner_ set_navfn].
    change (use_astar_ s1) with (use_astar_ s).
    rewrite Hcalc. destruct r; done.
  - split; [done|]. split; [done|]. split; [done|]. split; [by rewrite Hnx|].
    intros c Hc. rewrite <- Ex, <- Ey in Hc. destruct (Hpot c Hc) as (? & ? & Hl).
    split; [done|]. split; [done|]. intros Hp. unfold reached_from. rewrite <- Ex, <- Ey, <- Ec, <- Ei. by apply Hl.
Qed.

(** ** Potentials of points *)

Lemma potential_double v : good v -> f64_lt (f64_of_f32 v) POT_HIGH_D = f32_lt v POT_HIGH.
Proof.
  intros Hg. destruct (decide (v = POT_HIGH)) as [->|Hne]; [by vm_compute|].
  destruct Hg as [Hl|]; [|done]. rewrite (proj2 (low_lt v (or_introl Hl)) Hl).
  destruct (f64_of_f32_le v 33 Hl ltac:(lia)) as [F B].
  assert (fin 53 1024 POT_HIGH_D = true /\ 2 ^ (33 - SpecFloat.emin 53 1024) < sunits 53 1024 POT_HIGH_D) as [Fh Bh]
    by (split; by vm_compute).
  unfold f64_lt. rewrite (ltb_sunits 53 1024) by (done || lia). apply Z.ltb_lt. lia.
Qed.

Lemma point_potential s2 n' p b c : searched s2 n' -> worldToMap (px p) (py p) m = Ok (b, c) ->
  exists v, getPointPotential (px p) (py p) s2 = Ok v /\
    (f64_lt v POT_HIGH_D = true -> exists i, cell_of m p = Some i /\ reached_from s cs i).
Proof.
  intros (Hn & Hm & _ & Hx & Hpot) Hw. unfold getPointPotential. rewrite Hm.
  change (worldToMap (px p) (py p) cleared) with (worldToMap (px p) (py p) m). rewrite Hw, bind_Ok, Hn.
  destruct b; [|exists DOUBLE_MAX; split; [done|]; intros Hf; by vm_compute in Hf].
  assert (exists c', c = Some c') as [c' ->].
  { unfold worldToMap in Hw. destruct (_ || _); [done|]. res_inv. eauto. }
  destruct (worldToMap_inside _ _ _ _ Hw) as [Hmx Hmy]. destruct plannable0 as [_ Rx Ry Rs _ _ _ _].
  destruct c' as [mx my]. cbn [fst snd] in *.
  assert (0 <= my * size_x m + mx < size_x m * size_y m) as Hr by nia.
  rewrite Hx. rewrite (wrapu_id 32 (size_x m)), (wrapu_id 32 (my * size_x m)) by (unfold in_u; lia).
  rewrite wrapu_id by (unfold in_u; lia).
  destruct (Hpot _ Hr) as (-> & Hg & Hreach). rewrite bind_Ok. eexists. split; [done|].
  intros Hlt. rewrite potential_double in Hlt by done. exists (my * size_x m + mx).
  unfold cell_of. rewrite Hw. split; [done|]. by apply Hreach.
Qed.

(** Whatever the search of the best point returns, it is a candidate linked to the start. *)
Lemma best_reached s2 n' rounds l : searched s2 n' -> scan_region rounds goal s = Some l ->
  (forall p, p ∈ goal :: l -> exists r, worldToMap (px p) (py p) m = Ok r) ->
  exists o, best_pose rounds goal s2 = Ok o /\
    forall p, o = Some p -> p ∈ goal :: l /\ exists i, cell_of m p = Some i /\ reached_from s cs i.
Proof.
  intros Hs2 Hl Hw. pose proof Hs2 as (_ & Hm & Ht & _ & _).
  assert (scan_region rounds goal s2 = Some l) as Hl2 by (unfold scan_region; rewrite Hm, Ht; exact Hl).
  set (P x y := match getPointPotential x y s2 with Ok v => v | _ => DOUBLE_MAX end).
  assert (forall p, p ∈ goal :: l -> getPointPotential (px p) (py p) s2 = Ok (P (px p) (py p)) /\
    (f64_lt (P (px p) (py p)) POT_HIGH_D = true -> exists i, cell_of m p = Some i /\ reached_from s cs i)) as HP.
  { intros p Hp. destruct (Hw p Hp) as [[b c] Hwp]. destruct (point_potential s2 n' p b c Hs2 Hwp) as (v & Hv & Hr).
    unfold P. rewrite Hv. done. }
  rewrite (best_pose_ok P rounds goal s2 l Hl2) by (intros p Hp; by apply HP).
  eexists. split; [done|]. intros p. destruct (f64_lt (P (px goal) (py goal)) POT_HIGH_D) eqn:Hg.
  - intros [= <-]. split; [by left|]. by apply HP; [left|].
  - pose proof (improve_fold P goal l None I) as Hf.
    destruct (fold_left _ l None) as [[q d]|]; [|done]. cbn. intros [= ->].
    destruct Hf as ([?|(Hq & _ & Hr & _)] & _); [done|].
    assert (p ∈ goal :: l) as Hp by by right. split; [done|]. by apply HP.
Qed.
End Planning.

(** Without tolerance a goal in a cell of the cost of an obstacle is refused. *)
Definition lethal_goal (s : planner) (v : Z) : bool := f64_eq (tolerance_ s) f64_zero && (v =? LETHAL_OBSTACLE).

(** Position checks of [createPlan] that let it reach [makePlan]. *)
Definition accepted (s : planner) (start goal : pose) : Prop :=
  (exists c, Costmap.worldToMap (px start) (py start) (costmap_ s) = Ok (true, Some c)) /\
  (exists mx my v, Costmap.worldToMap (px goal) (py goal) (costmap_ s) = Ok (true, Some (mx, my)) /\
     getCost mx my (costmap_ s) = Ok v /\ lethal_goal s v = false) /\
  f64_eq (px start) (px goal) && f64_eq (py start) (py goal) = false.

(** [createPlan] then plans, with arrays of the size of the map. *)
Lemma createPlan_accepted `{Hypot} `{Rotation} rounds s start goal cancel n : accepted s start goal ->
  planner_ s = Some n ->
  (exists n1, setNavArr (int_of_size (size_x (costmap_ s))) (int_of_size (size_y (costmap_ s))) n = Ok n1) ->
  exists n', createPlan rounds start goal cancel s =
    match makePlan rounds start goal cancel (set_navfn (Some n') s) with
    | (Ok plan, s') => (if bool_decide (plan = []) then Throw no_valid_path else Ok plan, s')
    | r => r
    end.
Proof.
  intros ((c & Hc) & (mx & my & v & Hg & Hv & Hocc) & Hpos) Hn [n1 Hn1].
  assert (set_navfn (Some n) s = s) as Es by (destruct s; cbn in *; by subst).
  exists (if isPlannerOutOfDate s then n1 else n).
  unfold lethal_goal in Hocc. unfold createPlan, query. expose. rewrite Hc. expose. cbn [negb]. rewrite Hg. expose. cbn [negb].
  destruct (f64_eq (tolerance_ s) f64_zero); [rewrite Hv; cbn in Hocc|]; cbn [res_bind]; expose;
    rewrite ?Hocc; unfold get; expose;
    (destruct (isPlannerOutOfDate s); [unfold with_navfn, amend; rewrite Hn, Hn1|rewrite Es]); expose; rewrite Hpos;
    (destruct (makePlan _ _ _ _ _) as [[plan|e|] s']; [|done..]; by destruct (bool_decide _)).
Qed.

(** ** The last pose of a plan *)

Lemma smooth_last p plan : list.last (smoothApproachToGoal p plan) = Some p.
Proof.
  unfold smoothApproachToGoal. destruct (reverse plan) as [|a [|b rest]]; try apply last_snoc.
  destruct (_ || _); [by rewrite last_reverse|apply last_snoc].
Qed.

Lemma final_last `{Rotation} start p plan : list.last plan = Some p ->
  exists q, list.last (final_approach start plan) = Some q /\ px q = px p /\ py q = py p.
Proof.
  rewrite <- head_reverse. unfold final_approach. destruct (reverse plan) as [|a [|b rest]]; [done|..]; intros [= ->].
  - by eexists.
  - cbv zeta. rewrite last_reverse. by eexists.
Qed.

Lemma after_search_last `{Hypot} `{Rotation} rounds s0 start goal s o path s' : best_pose rounds goal s = Ok o ->
  after_search s0 start goal rounds s = (Ok path, s') -> path <> [] ->
  exists p q, o = Some p /\ list.last path = Some q /\ px q = px p /\ py q = py p.
Proof.
  unfold after_search, query. intros Ho. expose. rewrite Ho. expose.
  destruct o as [p|]; [|by intros [= <- <-]].
  destruct (getPlanFromPotential p s) as [[plan|e|] s1]; [|done..].
  destruct (bool_decide (plan = [])); [by intros [= <- <-]|]. intros [= <- <-] _. exists p.
  pose proof (smooth_last p plan) as Hl. destruct (use_final_approach_orientation_ s0).
  - destruct (final_last start p _ Hl) as (q & ? & ? & ?). by exists q.
  - by exists p.
Qed.

Lemma after_search_none `{Hypot} `{Rotation} rounds s0 start goal s : best_pose rounds goal s = Ok None ->
  after_search s0 start goal rounds s = (Ok [], s).
Proof. unfold after_search, query. intros Ho. expose. by rewrite Ho. Qed.

Lemma plannable_navfn s n start goal cs cg : plannable s start goal cs cg ->
  plannable (set_navfn (Some n) s) start goal cs cg.
Proof. destruct 1. constructor; eauto. Qed.

(** C24: for a start and a goal that [createPlan] accepts, when the loops over the tolerance
    region end: a path it returns ends at the goal or at a point of the region whose cell a path of
    passable cells links to the start; and if there is no such point, it throws that no path was
    found, or the cancellation that the checker asked for. *)
Theorem planner_paths `{HypotLaws} `{Rotation} rounds s start goal cs cg l cancel r s' :
  plannable s start goal cs cg -> accepted s start goal -> scan_region rounds goal s = Some l ->
  (forall p, p ∈ goal :: l -> exists c, worldToMap (px p) (py p) (costmap_ s) = Ok c) ->
  createPlan rounds start goal cancel s = (r, s') ->
  (forall path, r = Ok path -> exists p q i, p ∈ goal :: l /\ cell_of (costmap_ s) p = Some i /\
     reached_from s cs i /\ list.last path = Some q /\ px q = px p /\ py q = py p) /\
  ((forall p i, p ∈ goal :: l -> cell_of (costmap_ s) p = Some i -> ~ reached_from s cs i) ->
     r = Throw no_valid_path \/ (r = Throw planner_cancelled /\ exists i, cancel i = true)).
Proof.
  intros Hp Ha Hl Hw Hc. destruct (r_navfn _ _ _ _ _ Hp) as [n Hn].
  destruct (createPlan_accepted rounds s start goal cancel n Ha Hn) as [n' Hn'].
  { destruct (prepared s start goal cs cg Hp n) as (n1 & _ & ? & _). by exists n1. }
  rewrite Hn' in Hc. clear Hn'. apply (plannable_navfn s n') in Hp. set (s1 := set_navfn (Some n') s) in *.
  destruct (makePlan_search s1 start goal cs cg Hp rounds cancel n' eq_refl) as (r0 & s2 & n2 & Hm & Hr & Hs).
  destruct (best_reached s1 start goal cs cg Hp s2 n2 rounds l Hs Hl Hw) as (o & Ho & Hreach).
  rewrite Hm in Hc. destruct Hr as [[b ->]|[-> Hcan]].
  - destruct o as [p|].
    + destruct (Hreach p eq_refl) as (Hin & i & Hi & Hri). split; [|intros Hno; by destruct (Hno p i)].
      destruct (after_search s1 start goal rounds s2) as [[plan|e|] s3] eqn:Hafter.
      * destruct (decide (plan = [])) as [->|Hne]; [by injection Hc as <- <-|].
        rewrite bool_decide_eq_false_2 in Hc by done. injection Hc as <- <-. intros path [= <-].
        destruct (after_search_last _ _ _ _ _ _ _ _ Ho Hafter Hne) as (p' & q & [= <-] & ? & ? & ?).
        by exists p, q, i.
      * by injection Hc as <- <-.
      * by injection Hc as <- <-.
    + rewrite (after_search_none _ _ _ _ _ Ho) in Hc. injection Hc as <- <-. split; [done|]. by left.
  - injection Hc as <- <-. split; [done|]. by right.
Qed.

(** the checks of [createPlan] come in the order start, goal, lethal goal; a goal at the
    position of the start gives a plan of that one position without a search. *)
Theorem planner_errors `{Hypot} `{Rotation} rounds s start goal cancel bs cs r :
  createPlan rounds start goal cancel s = r ->
  isPlannerOutOfDate s = false ->
  Costmap.worldToMap (px start) (py start) (costmap_ s) = Ok (bs, cs) ->
  (bs = false -> r = (Throw start_outside_map, s)) /\
  (bs = true -> forall bg cg, Costmap.worldToMap (px goal) (py goal) (costmap_ s) = Ok (bg, cg) ->
    (bg = false -> r = (Throw goal_outside_map, s)) /\
    (bg = true -> forall mx my v, cg = Some (mx, my) -> getCost mx my (costmap_ s) = Ok v ->
      (lethal_goal s v = true -> r = (Throw goal_occupied, s)) /\
      (lethal_goal s v = false -> f64_eq (px start) (px goal) = true -> f64_eq (py start) (py goal) = true ->
        exists q, r = (Ok [set_orientation q start], s) /\
          (q = orientation start \/ (q = orientation goal /\ use_final_approach_orientation_ s = false))))).
Proof.
  intros <- Hd Hs. unfold createPlan, query. expose. rewrite Hs. expose.
  split; [by intros ->|]. intros -> bg cg Hg. cbn [negb]. rewrite Hg. expose.
  split; [by intros ->|]. intros -> mx my v -> Hv. cbn [negb].
  unfold lethal_goal. assert (forall q q', exists q0, (Ok [set_orientation (if q && negb (use_final_approach_orientation_ s)
      then orientation goal else q') start], s) = (Ok [set_orientation q0 start], s) /\
    (q0 = q' \/ (q0 = orientation goal /\ use_final_approach_orientation_ s = false))) as Hq.
  { intros q q'. eexists. split; [done|]. destruct q, (use_final_approach_orientation_ s); cbn; auto. }
  destruct (f64_eq (tolerance_ s) f64_zero); cbn [andb]; [rewrite Hv; cbn [res_bind]|]; expose;
    (split; [by intros Hv'; rewrite ?Hv'|]); intros Hv' Hx Hy; rewrite ?Hv'; unfold get; expose;
    rewrite Hd, Hx, Hy; expose; cbn [andb]; apply Hq.
Qed.

(** ** Plans on a small map

    Nine by nine cells of one metre, with a wall in column 4 that ends below row [wall]. *)

Definition level_rotation : Rotation := {| atan2 := fun y x => f64_sub y x; orientationAroundZAxis := fun _ => no_rotation |}.

Definition demo_map (wall : Z) : costmap :=
  mk_costmap 9 9 (f64_of_Z 1) f64_zero f64_zero (demo_costs wall) 0.

Definition demo_planner (wall : Z) (tolerance : f64) : planner :=
  match configure String.EmptyString (demo_map wall) tolerance false true true with
  | Ok s => s
  | _ => mk_planner String.EmptyString (demo_map wall) None tolerance false true true
  end.

(** A point at halves of a metre. *)
Definition half_point (x y : Z) : pose :=
  mk_pose (f64_div (f64_of_Z x) (f64_of_Z 2)) (f64_div (f64_of_Z y) (f64_of_Z 2)) f64_zero no_rotation.

Definition never : Z -> bool := fun _ => false.

Definition demo_plan (wall : Z) (tolerance : f64) (start goal : pose) : res (list pose) :=
  fst (createPlan (H0 := level_rotation) 9 start goal never (demo_planner wall tolerance)).

Lemma demo_plannable wall tolerance : wall = 6 \/ wall = 9 ->
  plannable (demo_planner wall tolerance) (half_point 2 4) (half_point 14 4) (1, 2) (7, 2).
Proof.
  intros Hw.
  assert (costmap_ (demo_planner wall tolerance) = demo_map wall) as E by (by unfold demo_planner; vm_compute).
  assert (exists n, planner_ (demo_planner wall tolerance) = Some n) as Hn by (unfold demo_planner; vm_compute; eauto).
  constructor; rewrite ?E; [exact Hn|cbn; lia..|by destruct Hw as [-> | ->]; vm_compute|
    |by destruct Hw as [-> | ->]; vm_compute|by destruct Hw as [-> | ->]; vm_compute].
  apply List.Forall_forall. intros c Hc. cbn in Hc.
  assert (forallb (fun c => (0 <=? c) && (c <=? 255)) (demo_costs wall) = true) as Hf
    by (destruct Hw as [-> | ->]; by vm_compute).
  rewrite forallb_forall in Hf. apply Hf in Hc. bool_arith. lia.
Qed.

(** The goal is in the wall; with a tolerance of one metre the point in front of it is chosen. *)
Definition wall_goal : planner :=
  snd (makePlan (H0 := level_rotation) 9 (half_point 2 4) (half_point 8 4) never (demo_planner 6 (f64_of_Z 1))).

Definition potential_at (s : planner) (x y : f64) : f64 :=
  match getPointPotential x y s with Ok v => v | _ => DOUBLE_MAX end.

Lemma planner_best_pose_witness : exists l p,
  scan_region 9 (half_point 8 4) wall_goal = Some l /\
  best_pose 9 (half_point 8 4) wall_goal = Ok (Some p) /\ p ∈ l /\
  f64_eq (px p) (f64_of_Z 3) = true /\ f64_eq (py p) (f64_of_Z 2) = true.
Proof.
  destruct (scan_region 9 (half_point 8 4) wall_goal) as [l|] eqn:Hl; [|by vm_compute in Hl].
  assert (forall p, p ∈ half_point 8 4 :: l ->
    getPointPotential (px p) (py p) wall_goal = Ok (potential_at wall_goal (px p) (py p))) as HP.
  { assert (forallb (fun p => match getPointPotential (px p) (py p) wall_goal with Ok _ => true | _ => false end)
      (half_point 8 4 :: from_option id [] (scan_region 9 (half_point 8 4) wall_goal)) = true) as Hf
      by (vm_compute; reflexivity).
    rewrite Hl in Hf. intros p Hp%list_elem_of_In. rewrite forallb_forall in Hf. apply Hf in Hp.
    unfold potential_at. by destruct (getPointPotential (px p) (py p) wall_goal). }
  destruct (planner_best_pose _ _ _ _ _ Hl HP) as (o & Ho & Hb).
  assert (match best_pose 9 (half_point 8 4) wall_goal with
          | Ok (Some p) => f64_eq (px p) (f64_of_Z 3) && f64_eq (py p) (f64_of_Z 2) | _ => false end = true) as Hf
    by (vm_compute; reflexivity).
  rewrite Ho in Hf. destruct o as [p|]; [|discriminate Hf].
  apply andb_true_iff in Hf as [Hx Hy]. exists l, p. split; [reflexivity|]. split; [exact Ho|].
  split; [|split; [exact Hx|exact Hy]]. destruct Hb as [[-> _]|(_ & Hp & _)]; [|exact Hp].
  vm_compute in Hx. discriminate Hx.
Defined.

Lemma demo_accepted wall : wall = 6 \/ wall = 9 ->
  accepted (demo_planner wall f64_zero) (half_point 2 4) (half_point 14 4).
Proof.
  intros Hw. split; [|split].
  - destruct Hw as [-> | ->]; vm_compute; eauto.
  - exists 7, 2, 4. destruct Hw as [-> | ->]; vm_compute; auto.
  - destruct Hw as [-> | ->]; by vm_compute.
Qed.

(** Around the wall there is a plan to the goal. *)
Lemma planner_paths_witness : exists path q,
  demo_plan 6 f64_zero (half_point 2 4) (half_point 14 4) = Ok path /\ list.last path = Some q /\
  f64_eq (px q) (f64_of_Z 7) = true /\
  reached_from (demo_planner 6 f64_zero) (1, 2) 25.
Proof.
  destruct (scan_region 9 (half_point 14 4) (demo_planner 6 f64_zero)) as [l|] eqn:Hl; [|by vm_compute in Hl].
  assert (l = [half_point 14 4]) as -> by (vm_compute in Hl; injection Hl as <-; by vm_compute).
  assert (forall p, p ∈ [half_point 14 4; half_point 14 4] -> p = half_point 14 4) as Hsingle.
  { intros p [-> | [-> | []%elem_of_nil]%elem_of_cons]%elem_of_cons; reflexivity. }
  destruct (createPlan (H0 := level_rotation) 9 (half_point 2 4) (half_point 14 4) never (demo_planner 6 f64_zero))
    as [r s'] eqn:Hr.
  destruct (planner_paths (H1 := level_rotation) 9 _ _ _ _ _ _ never r s'
    (demo_plannable 6 f64_zero (or_introl eq_refl)) (demo_accepted 6 (or_introl eq_refl)) Hl) as [Hp _].
  { intros p Hp%Hsingle. rewrite Hp. vm_compute. eauto. }
  { exact Hr. }
  assert (match demo_plan 6 f64_zero (half_point 2 4) (half_point 14 4) with Ok _ => true | _ => false end = true) as Hok
    by (vm_compute; reflexivity).
  assert (demo_plan 6 f64_zero (half_point 2 4) (half_point 14 4) = r) as Er by (unfold demo_plan; rewrite Hr; reflexivity).
  rewrite Er in *. destruct r as [path|e|]; [|discriminate Hok..].
  destruct (Hp path eq_refl) as (p & q & i & Hin & Hi & Hreach & Hlast & Hx & Hy).
  apply Hsingle in Hin. rewrite Hin in *. exists path, q. split; [reflexivity|]. split; [exact Hlast|].
  split; [rewrite Hx; vm_compute; reflexivity|].
  assert (cell_of (costmap_ (demo_planner 6 f64_zero)) (half_point 14 4) = Some 25) as E by (vm_compute; reflexivity).
  rewrite E in Hi. injection Hi as <-. exact Hreach.
Defined.

Lemma planner_errors_witness :
  demo_plan 6 f64_zero (half_point 20 4) (half_point 14 4) = Throw start_outside_map /\
  demo_plan 6 f64_zero (half_point 2 4) (half_point 8 4) = Throw goal_occupied.
Proof.
  split; unfold demo_plan.
  - destruct (planner_errors (H0 := level_rotation) 9 (demo_planner 6 f64_zero) (half_point 20 4)
      (half_point 14 4) never false (Some (10, 2)) _ eq_refl) as [He _]; [vm_compute; reflexivity..|].
    rewrite (He eq_refl). reflexivity.
  - destruct (planner_errors (H0 := level_rotation) 9 (demo_planner 6 f64_zero) (half_point 2 4)
      (half_point 8 4) never true (Some (1, 2)) _ eq_refl) as [_ He]; [vm_compute; reflexivity..|].
    destruct (He eq_refl true (Some (4, 2))) as [_ Hg]; [vm_compute; reflexivity|].
    destruct (Hg eq_refl 4 2 254 eq_refl) as [Hl _]; [vm_compute; reflexivity|].
    rewrite Hl; vm_compute; reflexivity.
Defined.

(** Behind the closed wall there is none. *)
Example planner_no_path : demo_plan 9 f64_zero (half_point 2 4) (half_point 14 4) = Throw no_valid_path.
Proof. by vm_compute. Qed.

(** [createPlan] checks the positions with the cells of the costmap, which round down, but plans
    with the nearest cells. At the right edge the start falls into the column after the last, which is the first
    cell of the next row: the path jumps across the map, here over a closed wall. *)
Example path_across_wall :
  match demo_plan 9 f64_zero (half_point 17 4) (half_point 4 4) with
  | Ok [a; b; c] => f64_eq (px a) (f64_of_Z 9) && f64_eq (px b) (f64_of_Z 1) && f64_eq (px c) (f64_of_Z 2) = true
  | _ => False
  end.
Proof. by vm_compute. Qed.

(** In the last row the cell of such a start is cleared behind the end of the map. *)
Example start_past_map : demo_plan 6 f64_zero (half_point 17 17) (half_point 4 4) = UB.
Proof. by vm_compute. Qed.

(** After [cleanup] the pointer is null; [createPlan] counts the planner as out of date and calls it. *)
Example plan_after_cleanup :
  fst (createPlan (H0 := level_rotation) 9 (half_point 2 4) (half_point 14 4) never
         (cleanup (demo_planner 6 f64_zero))) = UB.
Proof. by vm_compute. Qed.
End NavfnPlannerLaws.
