(* ===== verification/ArrayParser.v ===== *)
(** * Arrays of numbers in text ([nav2_util/array_parser.cpp], [makeFootprintFromString])

    [parseVVF] reads [[1.0, 2.0], [3.3]] and the like. Reading one number from a stream is the
    class [NumberReader]; what is printed with a printer that it inverts is read back. *)

From stdpp Require Import base option list numbers.
From Stdlib Require Import ZArith Lia SpecFloat Ascii.
From Stdlib Require String.
From S2P Require Import Prelude Float64 FloatBounds Footprint.

(** [operator>>] of an input stream on a [float]: the number, and how many characters it took
    beyond the first. *)
Class NumberReader : Type := extract : list ascii -> option (spec_float * nat).

Module ArrayParser.

Definition OPEN : ascii := "["%char.
Definition CLOSE : ascii := "]"%char.
Definition COMMA : ascii := ","%char.
Definition SPACE : ascii := " "%char.
Definition TAB : ascii := "009"%char.

Section Parser.
Context `{NumberReader}.

(** The loop, on the rest of the stream. [None] stands for a message in [error_return]. A number
    that cannot be read puts the stream in a failed state, which ends the loop at depth 2. *)
Fixpoint parse_from (fuel : nat) (depth : Z) (current_vector : list spec_float)
    (result : list (list spec_float)) (input_ss : list ascii) : option (list (list spec_float)) :=
  match fuel, input_ss with
  | S fuel, c :: rest =>
      if Ascii.eqb c OPEN then
        if depth + 1 >? 2 then None else parse_from fuel (depth + 1) [] result rest
      else if Ascii.eqb c CLOSE then
        if depth - 1 <? 0 then None
        else parse_from fuel (depth - 1) current_vector
               (if depth - 1 =? 1 then result ++ [current_vector] else result) rest
      else if Ascii.eqb c COMMA || Ascii.eqb c SPACE || Ascii.eqb c TAB then
        parse_from fuel depth current_vector result rest
      else if negb (depth =? 2) then None
      else match extract input_ss with
           | Some (value, n) => parse_from fuel depth (current_vector ++ [value]) result (drop n rest)
           | None => None
           end
  | _, _ => if depth =? 0 then Some result else None
  end.

(** Each round takes a character. *)
Definition parseVVF (input : list ascii) : option (list (list spec_float)) :=
  parse_from (length input) 0 [] [] input.

(** Points up to the first vector that is not a pair are appended to the footprint. *)
Fixpoint append_points (vvf : list (list spec_float)) (footprint : list Footprint.Point) :
    bool * list Footprint.Point :=
  match vvf with
  | [] => (true, footprint)
  | [px; py] :: vvf =>
      append_points vvf (footprint ++ [Footprint.mk_point (f64_of_f32 px) (f64_of_f32 py) f64_zero])
  | _ :: _ => (false, footprint)
  end.

Definition makeFootprintFromString (footprint_string : list ascii) (footprint : list Footprint.Point) :
    bool * list Footprint.Point :=
  match parseVVF footprint_string with
  | None => (false, footprint)
  | Some vvf => if (length vvf <? 3)%nat then (false, footprint) else append_points vvf footprint
  end.
End Parser.

(** ** Round trip *)

(** Text of numbers that the reader understands in front of a comma or a closing bracket. *)
Class NumberText `{NumberReader} : Type := {
  show : spec_float -> list ascii;
  readable : spec_float -> Prop;
  show_head v : readable v -> exists c l, show v = c :: l /\
    c <> OPEN /\ c <> CLOSE /\ c <> COMMA /\ c <> SPACE /\ c <> TAB;
  extract_show v c rest : readable v -> c = COMMA \/ c = CLOSE ->
    extract (show v ++ c :: rest) = Some (v, Nat.pred (length (show v))) }.

Section Print.
Context `{NumberText}.

(** Elements separated by commas, and the closing bracket. *)
Fixpoint print_elements {A} (print : A -> list ascii) (l : list A) : list ascii :=
  match l with
  | [] => [CLOSE]
  | [a] => print a ++ [CLOSE]
  | a :: l => print a ++ COMMA :: print_elements print l
  end.

Definition print_vector (l : list spec_float) : list ascii := OPEN :: print_elements show l.
Definition print_vvf (l : list (list spec_float)) : list ascii := OPEN :: print_elements print_vector l.

Lemma parse_stop fuel depth current result c rest : c = COMMA \/ c = SPACE \/ c = TAB ->
  parse_from (S fuel) depth current result (c :: rest) = parse_from fuel depth current result rest.
Proof. by intros [-> | [-> | ->]]. Qed.

Lemma parse_close fuel current result rest :
  parse_from (S fuel) 2 current result (CLOSE :: rest) = parse_from fuel 1 current (result ++ [current]) rest.
Proof. done. Qed.

Lemma parse_open fuel current result rest :
  parse_from (S fuel) 1 current result (OPEN :: rest) = parse_from fuel 2 [] result rest.
Proof. done. Qed.

(** More fuel than characters changes nothing. *)
Lemma parse_fuel fuel : forall fuel' depth current result input,
  (length input <= fuel)%nat -> (length input <= fuel')%nat ->
  parse_from fuel depth current result input = parse_from fuel' depth current result input.
Proof.
  induction fuel as [|fuel IH]; intros [|fuel'] depth current result [|c rest] H1 H2; cbn [length] in *; try done; try lia.
  cbn [parse_from]. assert (forall n, (length (drop n rest) <= fuel)%nat /\ (length (drop n rest) <= fuel')%nat) as Hd
    by (intros n; rewrite length_drop; lia).
  repeat case_match; try done; try (apply IH; lia); apply IH; apply Hd.
Qed.

Lemma parse_number fuel v c rest current result : readable v -> c = COMMA \/ c = CLOSE ->
  (length (show v ++ c :: rest) <= fuel)%nat ->
  parse_from fuel 2 current result (show v ++ c :: rest) =
  parse_from fuel 2 (current ++ [v]) result (c :: rest).
Proof.
  intros Hv Hc Hf. pose proof (extract_show v c rest Hv Hc) as He.
  destruct (show_head v Hv) as (a & l & Hs & H1 & H2 & H3 & H4 & H5). rewrite Hs in *. cbn [app length] in *.
  destruct fuel as [|fuel]; [lia|]. set (R := parse_from _ _ (current ++ [v]) _ _). cbn [parse_from].
  rewrite (proj2 (Ascii.eqb_neq a OPEN) H1), (proj2 (Ascii.eqb_neq a CLOSE) H2), (proj2 (Ascii.eqb_neq a COMMA) H3),
    (proj2 (Ascii.eqb_neq a SPACE) H4), (proj2 (Ascii.eqb_neq a TAB) H5). cbn [orb negb Z.eqb Pos.eqb].
  rewrite He. cbn [Nat.pred]. rewrite drop_app_length. rewrite length_app in Hf. cbn [length] in Hf.
  subst R. apply parse_fuel; cbn [length]; lia.
Qed.

(** The inside of a vector. *)
Lemma parse_vector l : Forall readable l -> forall fuel current result rest,
  (length (print_elements show l ++ rest) <= fuel)%nat ->
  parse_from fuel 2 current result (print_elements show l ++ rest) =
  parse_from fuel 1 (current ++ l) (result ++ [current ++ l]) rest.
Proof.
  induction 1 as [|v [|w l] Hv Hl IH]; intros fuel current result rest Hf.
  - cbn in Hf. destruct fuel as [|fuel]; [lia|]. rewrite app_nil_r. cbn [print_elements app].
    rewrite parse_close. apply parse_fuel; lia.
  - cbn [print_elements] in *. rewrite <- app_assoc in *. cbn [app] in *.
    rewrite parse_number by (done || by right). rewrite length_app in Hf. cbn [length] in Hf.
    destruct fuel as [|fuel]; [lia|]. rewrite parse_close. apply parse_fuel; lia.
  - change (print_elements show (v :: w :: l)) with (show v ++ COMMA :: print_elements show (w :: l)) in *.
    rewrite <- app_assoc in *. rewrite <- app_comm_cons in *.
    rewrite parse_number by (done || by left). rewrite length_app in Hf. cbn [length] in Hf.
    destruct fuel as [|fuel]; [lia|]. rewrite parse_stop by by left.
    rewrite IH by lia. rewrite <- app_assoc. cbn [app]. rewrite length_app in Hf. apply parse_fuel; lia.
Qed.

Lemma parse_vectors l : Forall (Forall readable) l -> forall fuel current result,
  (length (print_elements print_vector l) <= fuel)%nat ->
  parse_from fuel 1 current result (print_elements print_vector l) = Some (result ++ l).
Proof.
  induction 1 as [|v [|w l] Hv Hl IH]; intros fuel current result Hf.
  - cbn in Hf. destruct fuel as [|fuel]; [lia|]. rewrite app_nil_r. by destruct fuel.
  - cbn [print_elements] in *. unfold print_vector in *. cbn [app length] in Hf. destruct fuel as [|fuel]; [lia|].
    cbn [app]. rewrite parse_open.
    rewrite parse_vector by (done || lia). cbn [app]. rewrite length_app in Hf. cbn in Hf.
    destruct fuel as [|fuel]; [lia|]. by destruct fuel.
  - change (print_elements print_vector (v :: w :: l))
      with (OPEN :: print_elements show v ++ COMMA :: print_elements print_vector (w :: l)) in *.
    cbn [length] in Hf. destruct fuel as [|fuel]; [lia|].
    cbn [app]. rewrite parse_open.
    rewrite parse_vector by (done || lia). cbn [app]. rewrite length_app in Hf. cbn [length] in Hf.
    destruct fuel as [|fuel]; [lia|]. rewrite parse_stop by by left.
    rewrite IH by lia. by rewrite <- app_assoc.
Qed.

(** an array of arrays of numbers that is printed with commas and brackets is read back
    unchanged, with the numbers in the text the reader understands. *)
Theorem parse_print l : Forall (Forall readable) l -> parseVVF (print_vvf l) = Some l.
Proof.
  intros Hl. unfold parseVVF, print_vvf. cbn [length parse_from].
  rewrite (proj2 (Ascii.eqb_eq OPEN OPEN) eq_refl). change (0 + 1 >? 2) with false. change (0 + 1) with 1. cbv iota.
  by rewrite parse_vectors by done.
Qed.
End Print.

(** ** A reader of digits *)

Definition digit (c : ascii) : option Z :=
  let n := Z.of_nat (nat_of_ascii c) - 48 in if (0 <=? n) && (n <=? 9) then Some n else None.

Fixpoint read_digits (acc : Z) (n : nat) (l : list ascii) : Z * nat :=
  match l with
  | c :: l => match digit c with Some d => read_digits (10 * acc + d) (S n) l | None => (acc, n) end
  | [] => (acc, n)
  end.

Definition digits_reader : NumberReader := fun l =>
  match l with
  | c :: l => match digit c with
              | Some d => let '(z, n) := read_digits d 0 l in Some (f32_of_Z z, n)
              | None => None
              end
  | [] => None
  end.

(** The digit whose value is the number. *)
Definition show_digit (v : spec_float) : list ascii :=
  match List.find (fun d => bool_decide (f32_of_Z (Z.of_nat d) = v)) (seq 0 10) with
  | Some d => [ascii_of_nat (48 + d)]
  | None => []
  end.

Definition is_digit (v : spec_float) : Prop := show_digit v <> [].

Lemma show_digit_cases v : is_digit v -> exists d, (d < 10)%nat /\ show_digit v = [ascii_of_nat (48 + d)] /\
  f32_of_Z (Z.of_nat d) = v.
Proof.
  unfold is_digit, show_digit. destruct (List.find _ _) as [d|] eqn:Hd; [|done]. intros _.
  apply List.find_some in Hd as [Hin Hd]. apply bool_decide_eq_true in Hd. apply in_seq in Hin. exists d. split; [lia|done].
Qed.

#[export] Instance digits_text : @NumberText digits_reader.
Proof.
  refine {| show := show_digit; readable := is_digit |}.
  - intros v (d & Hd & -> & _)%show_digit_cases. eexists _, _. split; [done|].
    do 10 (destruct d as [|d]; [by repeat split|]). lia.
  - intros v c rest (d & Hd & -> & <-)%show_digit_cases Hc.
    do 10 (destruct d as [|d]; [by destruct Hc as [-> | ->]|]). lia.
Defined.

Lemma parse_print_witness : exists l, length l = 2%nat /\ @parseVVF digits_reader (print_vvf (H := digits_reader) l) = Some l.
Proof.
  exists [[f32_of_Z 1; f32_of_Z 2]; [f32_of_Z 7]]. split; [reflexivity|]. apply (parse_print (H := digits_reader) (H0 := digits_text)).
  repeat (constructor; [repeat (constructor; [by vm_compute|]); constructor|]); constructor.
Defined.
End ArrayParser.
