(* ===== verification/Parameters.v ===== *)
(** * Parameters of a node ([nav2_util/node_utils.hpp] and the parameter interface it calls)

    The values given to a node override defaults. A declared parameter has a type: a value of
    another type is refused, and one without value or default cannot be read. *)

From stdpp Require Import base option list numbers strings.
From Stdlib Require Import ZArith String.
From S2P Require Import Prelude Float64.

Inductive parameter : Type :=
  | PARAMETER_BOOL (b : bool)
  | PARAMETER_INTEGER (z : Z)
  | PARAMETER_DOUBLE (x : f64)
  | PARAMETER_STRING (s : string)
  | PARAMETER_STRING_ARRAY (l : list string)
  | PARAMETER_DOUBLE_ARRAY (l : list f64).

(** The values the node was started with. *)
Class NodeParameters : Type := parameter_override : string -> option parameter.

Module Parameters.

Definition as_bool (p : parameter) : option bool := match p with PARAMETER_BOOL b => Some b | _ => None end.
Definition as_int (p : parameter) : option Z := match p with PARAMETER_INTEGER z => Some z | _ => None end.
Definition as_double (p : parameter) : option f64 := match p with PARAMETER_DOUBLE x => Some x | _ => None end.
Definition as_string (p : parameter) : option string := match p with PARAMETER_STRING s => Some s | _ => None end.
Definition as_string_array (p : parameter) : option (list string) :=
  match p with PARAMETER_STRING_ARRAY l => Some l | _ => None end.
Definition as_double_array (p : parameter) : option (list f64) :=
  match p with PARAMETER_DOUBLE_ARRAY l => Some l | _ => None end.

Section Parameters.
Context `{NodeParameters}.

(** [declare_parameter_if_not_declared] followed by [get_parameter] and a conversion. *)
Definition read {A} (view : parameter -> option A) (default : option A) (name : string) : res A :=
  match parameter_override name, default with
  | Some p, _ => match view p with Some a => Ok a | None => Throw invalid_parameter_type end
  | None, Some a => Ok a
  | None, None => Throw parameter_uninitialized
  end.

Definition read_or {A} (view : parameter -> option A) (name : string) (default : A) : res A :=
  read view (Some default) name.
Definition read_set {A} (view : parameter -> option A) (name : string) : res A := read view None name.
End Parameters.

(** [try { c } catch (const std::exception &) { return false; }] *)
Definition or_false {A} (c : res (option A)) : res (option A) :=
  match c with Throw _ => Ok None | r => r end.
End Parameters.
