(* ===== verification/CollisionZones.v ===== *)
(** * Zones of the collision monitor ([nav2_collision_monitor]: [types.hpp], [kinematics.cpp],
    [polygon.cpp], [circle.cpp], [velocity_polygon.cpp], and [footprint_subscriber.cpp])

    A zone is a polygon, a circle, or a polygon chosen by the velocity. It counts the points
    of the sensors inside it, and simulates the motion of the robot until enough of
    them are. *)

From stdpp Require Import base option list numbers strings gmap.
From Stdlib Require Import ZArith Lia SpecFloat String.
From S2P Require Import Prelude Float64 Footprint ArrayParser Parameters.

(** The mathematical functions of the C++ library; [f] marks the overloads on [float]. *)
Class Mathematics : Type := {
  cos : f64 -> f64;
  sin : f64 -> f64;
  cosf : spec_float -> spec_float;
  sinf : spec_float -> spec_float;
  atan2 : f64 -> f64 -> f64;
  hypot : f64 -> f64 -> f64;
  hypotf : spec_float -> spec_float -> spec_float }.

(** Coordinates of the robot's frame: what the transform buffer of [tf2] answers during a call.
    Failed look-ups are [None]. [robot_pose frame stamp base] is the position and yaw of
    the frame [base] in [frame]. *)
Class Transforms : Type := {
  transform : Type;
  identity : transform;
  apply : transform -> f64 * f64 * f64 -> f64 * f64 * f64;
  transform_polygon : transform -> list Footprint.Point32 -> list Footprint.Point32;
  latest : string -> string -> option transform;
  between_times : string -> Z -> string -> Z -> string -> option transform;
  robot_pose : string -> Z -> string -> option (f64 * f64 * f64) }.

Module Zones.

(** ** [types.hpp] *)

Record Velocity : Type := mk_velocity { vx : f64; vy : f64; tw : f64 }.

Definition magnitude (v : Velocity) : f64 :=
  f64_add (f64_add (f64_mul (vx v) (vx v)) (f64_mul (vy v) (vy v))) (f64_mul (tw v) (tw v)).
Definition velocity_lt (first second : Velocity) : bool := f64_lt (magnitude first) (magnitude second).
Definition velocity_mul (v : Velocity) (mul : f64) : Velocity :=
  mk_velocity (f64_mul (vx v) mul) (f64_mul (vy v) mul) (f64_mul (tw v) mul).
Definition isZero (v : Velocity) : bool :=
  f64_eq (vx v) f64_zero && f64_eq (vy v) f64_zero && f64_eq (tw v) f64_zero.

Record Point : Type := mk_point { x : f64; y : f64 }.
Record Pose : Type := mk_pose { pose_x : f64; pose_y : f64; theta : f64 }.

Inductive ActionType : Type := DO_NOTHING | STOP | SLOWDOWN | APPROACH | LIMIT.

#[export] Instance ActionType_eq_dec : EqDecision ActionType.
Proof. solve_decision. Defined.

Record Action : Type := mk_action { action_type : ActionType; req_vel : Velocity; polygon_name : string }.

(** ** State of a zone *)

Record SubPolygonParameter : Type := mk_sub_polygon {
  sub_poly_ : list Point;
  velocity_polygon_name_ : string;
  linear_min_ : f64; linear_max_ : f64;
  theta_min_ : f64; theta_max_ : f64;
  direction_end_angle_ : f64; direction_start_angle_ : f64 }.

(** The class of a zone with its own members. The radius of a circle has no value before it is
    set. *)
Inductive shape : Type :=
  | POLYGON
  | CIRCLE (radius_ : option f64) (radius_squared_ : f64)
  | VELOCITY_POLYGON (holonomic_ : bool) (sub_polygons_ : list SubPolygonParameter).

Record polygon_stamped : Type := mk_stamped { frame_id : string; points : list Footprint.Point32 }.

(** The message that a footprint subscriber received last. *)
Record footprint_msg : Type := mk_footprint { footprint_frame : string; footprint_stamp : Z; footprint : list Footprint.Point32 }.

Record parameters : Type := mk_parameters {
  action_type_ : ActionType;
  min_points_ : Z;
  slowdown_ratio_ : f64; linear_limit_ : f64; angular_limit_ : f64;
  time_before_collision_ : f64; simulation_time_step_ : f64;
  visualize_ : bool;
  sources_names_ : list string }.

Record zone : Type := mk_zone {
  polygon_name_ : string;
  base_frame_id_ : string;
  shape_ : shape;
  enabled_ : bool;
  parameters_ : parameters;
  footprint_sub_ : option (option footprint_msg);
  polygon_ : polygon_stamped;
  poly_ : list Point }.

Definition set_shape s (z : zone) : zone :=
  mk_zone (polygon_name_ z) (base_frame_id_ z) s (enabled_ z) (parameters_ z) (footprint_sub_ z) (polygon_ z) (poly_ z).
Definition set_enabled b (z : zone) : zone :=
  mk_zone (polygon_name_ z) (base_frame_id_ z) (shape_ z) b (parameters_ z) (footprint_sub_ z) (polygon_ z) (poly_ z).
Definition set_parameters b ps (z : zone) : zone :=
  mk_zone (polygon_name_ z) (base_frame_id_ z) (shape_ z) b ps (footprint_sub_ z) (polygon_ z) (poly_ z).
Definition set_footprint f (z : zone) : zone :=
  mk_zone (polygon_name_ z) (base_frame_id_ z) (shape_ z) (enabled_ z) (parameters_ z) f (polygon_ z) (poly_ z).
Definition set_polygon p (z : zone) : zone :=
  mk_zone (polygon_name_ z) (base_frame_id_ z) (shape_ z) (enabled_ z) (parameters_ z) (footprint_sub_ z) p (poly_ z).
Definition set_poly l (z : zone) : zone :=
  mk_zone (polygon_name_ z) (base_frame_id_ z) (shape_ z) (enabled_ z) (parameters_ z) (footprint_sub_ z) (polygon_ z) l.

(** The constructor. Members without an initializer have the value zero here; they are read for
    the action types whose parameters set them. *)
Definition new (polygon_name base_frame_id : string) (s : shape) : zone :=
  mk_zone polygon_name base_frame_id s false
    (mk_parameters DO_NOTHING 0 f64_zero f64_zero f64_zero f64_zero f64_zero false [])
    None (mk_stamped EmptyString []) [].

Definition to_point32 (p : Point) : Footprint.Point32 :=
  Footprint.mk_point32 (f32_of_f64 (x p)) (f32_of_f64 (y p)) f64_zero.

(** ** Points inside *)

(** An edge from vertex [i] to vertex [j] meets the ray from the point in direction X+. *)
Definition crosses (p i j : Point) : bool :=
  Bool.eqb (f64_le (y p) (y i)) (f64_lt (y j) (y p)) &&
  f64_lt (x p) (f64_add (x i) (f64_div (f64_mul (f64_sub (y p) (y i)) (f64_sub (x j) (x i))) (f64_sub (y j) (y i)))).

Fixpoint cast_ray (p i : Point) (l : list Point) (res : bool) : bool :=
  match l with
  | [] => res
  | j :: l => cast_ray p j l (if crosses p i j then negb res else res)
  end.

Definition isPointInside (p : Point) (poly : list Point) : bool :=
  match list.last poly with
  | None => false
  | Some i => cast_ray p i poly false
  end.

Definition inside (z : zone) (p : Point) : bool :=
  match shape_ z with
  | CIRCLE _ radius_squared_ => f64_lt (f64_add (f64_mul (x p) (x p)) (f64_mul (y p) (y p))) radius_squared_
  | _ => isPointInside p (poly_ z)
  end.

Definition getPointsInside (z : zone) (l : list Point) : Z :=
  Z.of_nat (List.length (List.filter (inside z) l)).

(** The points of the sources of a zone, in the order of its list of sources. *)
Definition source_points (z : zone) (m : gmap string (list Point)) : list (list Point) :=
  omap (fun source_name => m !! source_name) (sources_names_ (parameters_ z)).

Definition getPointsInside_map (z : zone) (m : gmap string (list Point)) : Z :=
  foldr (fun l num => getPointsInside z l + num) 0 (source_points z m).

(** -1.0 *)
Definition minus_one : f64 := f64_of_Z (-1).

Definition isShapeSet (z : zone) : bool :=
  match shape_ z with
  | CIRCLE _ radius_squared_ => negb (f64_eq radius_squared_ minus_one)
  | _ => negb (bool_decide (poly_ z = []))
  end.

(** ** Kinematics and collision time *)

Section Motion.
Context `{Mathematics}.

Definition transformPoint (pose : Pose) (p : Point) : Point :=
  let cos_theta := cos (theta pose) in
  let sin_theta := sin (theta pose) in
  let mul_x := f64_sub (x p) (pose_x pose) in
  let mul_y := f64_sub (y p) (pose_y pose) in
  mk_point (f64_add (f64_mul mul_x cos_theta) (f64_mul mul_y sin_theta))
    (f64_add (f64_mul (SFopp mul_x) sin_theta) (f64_mul mul_y cos_theta)).

Definition transformPoints (pose : Pose) (l : list Point) : list Point := transformPoint pose <$> l.

Definition projectState (dt : f64) (pose : Pose) (velocity : Velocity) : Pose * Velocity :=
  let angle := f64_mul (tw velocity) dt in
  let cos_theta := cos angle in
  let sin_theta := sin angle in
  (mk_pose (f64_add (pose_x pose) (f64_mul (vx velocity) dt)) (f64_add (pose_y pose) (f64_mul (vy velocity) dt))
     (f64_add (theta pose) angle),
   mk_velocity (f64_sub (f64_mul (vx velocity) cos_theta) (f64_mul (vy velocity) sin_theta))
     (f64_add (f64_mul (vx velocity) sin_theta) (f64_mul (vy velocity) cos_theta)) (tw velocity)).

(** The simulation adds its step to the time; [rounds] limits the loop. *)
Fixpoint simulate (rounds : nat) (time : f64) (pose : Pose) (vel : Velocity) (collision_points : list Point)
    (z : zone) : res f64 :=
  if f64_le time (time_before_collision_ (parameters_ z)) then
    match rounds with
    | O => UB
    | S rounds =>
        let dt := simulation_time_step_ (parameters_ z) in
        let '(pose, vel) := projectState dt pose vel in
        if min_points_ (parameters_ z) <=? getPointsInside z (transformPoints pose collision_points) then Ok time
        else simulate rounds (f64_add time dt) pose vel collision_points z
    end
  else Ok minus_one.

Definition origin : Pose := mk_pose f64_zero f64_zero f64_zero.

Definition getCollisionTime (rounds : nat) (m : gmap string (list Point)) (velocity : Velocity) (z : zone) : res f64 :=
  let collision_points := mjoin (source_points z m) in
  if min_points_ (parameters_ z) <=? getPointsInside z collision_points then Ok f64_zero
  else simulate rounds f64_zero origin velocity collision_points z.

(** ** Outlines *)

(** The sixteen corners of a circle: the angle grows by an eighth of pi. *)
Fixpoint circle_points (fuel : nat) (angle radius : f64) : list Point :=
  match fuel with
  | O => []
  | S fuel =>
      if f64_lt angle f64_two_pi then
        mk_point (f64_mul radius (cos angle)) (f64_mul radius (sin angle))
        :: circle_points fuel (f64_add angle (f64_div f64_two_pi (f64_of_Z 16))) radius
      else []
  end.

Definition getPolygon (z : zone) : res (list Point) :=
  match shape_ z with
  | CIRCLE None _ => UB
  | CIRCLE (Some radius_) _ => Ok (circle_points 20 f64_zero radius_)
  | _ => Ok (poly_ z)
  end.

(** [Circle::updatePolygon], called with each radius that arrives. *)
Definition radiusCallback (data : spec_float) (z : zone) : zone :=
  let radius := f64_of_f32 data in
  set_polygon (mk_stamped (frame_id (polygon_ z)) (to_point32 <$> circle_points 20 f64_zero radius))
    (set_shape (CIRCLE (Some radius) (f64_mul radius radius)) z).

(** ** Footprints that other nodes publish *)

Context `{Transforms}.

(** The vector that was handed over holds the footprint in its own frame when the
    position of the robot is not known. *)
Definition getFootprintInRobotFrame (sub : option footprint_msg) (robot_base_frame_ : string)
    (footprint_vec : list Footprint.Point) : bool * list Footprint.Point :=
  match sub with
  | None => (false, footprint_vec)
  | Some msg =>
      let raw := Footprint.toPointVector (footprint msg) in
      match robot_pose (footprint_frame msg) (footprint_stamp msg) robot_base_frame_ with
      | None => (false, raw)
      | Some (px, py, yaw) =>
          let temp := Footprint.transformFootprint cos sin (SFopp px) (SFopp py) f64_zero raw [] in
          (true, Footprint.transformFootprint cos sin f64_zero f64_zero (SFopp yaw) temp raw)
      end
  end.

(** ** Updates of the shape *)

(** [nav2_util::getTransform]: equal frames need no look-up. *)
Definition getTransform (source_frame_id target_frame_id : string) : option transform :=
  if String.eqb source_frame_id target_frame_id then Some identity else latest target_frame_id source_frame_id.

Definition to_base (t : transform) (p : Footprint.Point32) : Point :=
  let '(bx, by', _) := apply t (f64_of_f32 (Footprint.x32 p), f64_of_f32 (Footprint.y32 p), f64_zero) in
  mk_point bx by'.

Definition isInRange (cmd_vel_in : Velocity) (holonomic_ : bool) (sub : SubPolygonParameter) : bool :=
  let in_range :=
    f64_le (vx cmd_vel_in) (linear_max_ sub) && f64_le (linear_min_ sub) (vx cmd_vel_in) &&
    f64_le (tw cmd_vel_in) (theta_max_ sub) && f64_le (theta_min_ sub) (tw cmd_vel_in) in
  if holonomic_ then
    let direction := atan2 (vy cmd_vel_in) (vx cmd_vel_in) in
    let from_start := f64_le (direction_start_angle_ sub) direction in
    let to_end := f64_le direction (direction_end_angle_ sub) in
    in_range && (if f64_le (direction_start_angle_ sub) (direction_end_angle_ sub)
                 then from_start && to_end else from_start || to_end)
  else in_range.

(** [updatePolygon] on a velocity, with the override of the velocity polygon. *)
Definition updatePolygon (cmd_vel_in : Velocity) (z : zone) : zone :=
  match shape_ z with
  | VELOCITY_POLYGON holonomic_ sub_polygons_ =>
      match List.find (isInRange cmd_vel_in holonomic_) sub_polygons_ with
      | Some sub => set_polygon (mk_stamped (frame_id (polygon_ z)) (to_point32 <$> sub_poly_ sub)) (set_poly (sub_poly_ sub) z)
      | None => z
      end
  | _ =>
      match footprint_sub_ z with
      | Some sub =>
          let '(_, footprint_vec) := getFootprintInRobotFrame sub (base_frame_id_ z) [] in
          let l := (fun p => mk_point (Footprint.x p) (Footprint.y p)) <$> footprint_vec in
          set_polygon (mk_stamped (base_frame_id_ z) (to_point32 <$> l)) (set_poly l z)
      | None =>
          if negb (String.eqb (frame_id (polygon_ z)) EmptyString)
             && negb (String.eqb (frame_id (polygon_ z)) (base_frame_id_ z)) then
            match getTransform (frame_id (polygon_ z)) (base_frame_id_ z) with
            | Some t => set_poly (to_base t <$> points (polygon_ z)) z
            | None => z
            end
          else z
      end
  end.

(** [updatePolygon] on a message. *)
Definition polygonCallback (msg : polygon_stamped) (z : zone) : zone :=
  if (List.length (points msg) <? 3)%nat then z else
  match getTransform (frame_id msg) (base_frame_id_ z) with
  | Some t => set_polygon msg (set_poly (to_base t <$> points msg) z)
  | None => z
  end.

Definition footprint_callback (msg : footprint_msg) (z : zone) : zone :=
  match footprint_sub_ z with Some _ => set_footprint (Some (Some msg)) z | None => z end.

(** A boolean parameter is set. *)
Definition dynamicParametersCallback (updates : list (string * parameter)) (z : zone) : zone :=
  fold_left (fun z p =>
    match snd p with
    | PARAMETER_BOOL b => if String.eqb (fst p) (polygon_name_ z ++ ".enabled") then set_enabled b z else z
    | _ => z
    end) updates z.

(** ** Configuration *)

Context `{NodeParameters} `{NumberReader}.
Import Parameters.

Definition action_of_string (at_str : string) : option ActionType :=
  if String.eqb at_str "stop" then Some STOP
  else if String.eqb at_str "slowdown" then Some SLOWDOWN
  else if String.eqb at_str "limit" then Some LIMIT
  else if String.eqb at_str "approach" then Some APPROACH
  else if String.eqb at_str "none" then Some DO_NOTHING
  else None.

(** [min_points], replaced by the deprecated [max_points] plus one if that has a value. *)
Definition read_min_points (name : string) : res Z :=
  min_points ← read_or as_int (name ++ ".min_points") 4;
  match (max_points ← read_set as_int (name ++ ".max_points"); chk 64 (max_points + 1)) with
  | Ok z => Ok (wraps 32 z)
  | Throw _ => Ok (wraps 32 min_points)
  | UB => UB
  end.

(** 0.5, 2.0, 0.1 *)
Definition half : f64 := S754_finite false 4503599627370496 (-53).
Definition tenth : f64 := S754_finite false 7205759403792794 (-56).

(** The zone with the topics of its polygon and of its footprint. *)
Abbreviation configured := (zone * (string * string))%type (only parsing).

Definition getCommonParameters (use_dynamic_sub_topic : bool) (z : zone) : res (option configured) :=
  let name suffix := (polygon_name_ z ++ suffix)%string in
  or_false (
    at_str ← read_set as_string (name ".action_type"%string);
    match action_of_string at_str with
    | None => Ok None
    | Some a =>
        enabled ← read_or as_bool (name ".enabled"%string) true;
        min_points ← read_min_points (polygon_name_ z);
        slowdown_ratio ← (if bool_decide (a = SLOWDOWN) then read_or as_double (name ".slowdown_ratio"%string) half
                          else Ok f64_zero);
        linear_limit ← (if bool_decide (a = LIMIT) then read_or as_double (name ".linear_limit"%string) half
                        else Ok f64_zero);
        angular_limit ← (if bool_decide (a = LIMIT) then read_or as_double (name ".angular_limit"%string) half
                         else Ok f64_zero);
        time ← (if bool_decide (a = APPROACH) then read_or as_double (name ".time_before_collision"%string) (f64_of_Z 2)
                else Ok f64_zero);
        step ← (if bool_decide (a = APPROACH) then read_or as_double (name ".simulation_time_step"%string) tenth
                else Ok f64_zero);
        visualize ← read_or as_bool (name ".visualize"%string) false;
        _ ← (if visualize then read_or as_string (name ".polygon_pub_topic"%string) (polygon_name_ z) else Ok EmptyString);
        _ ← read_or as_bool (name ".polygon_subscribe_transient_local"%string) false;
        topics ← (if negb use_dynamic_sub_topic then Ok (EmptyString, EmptyString)
                  else if negb (bool_decide (a = APPROACH))
                  then t ← read_set as_string (name ".polygon_sub_topic"%string); Ok (t, EmptyString)
                  else t ← read_or as_string (name ".footprint_topic"%string) "local_costmap/published_footprint"%string;
                       Ok (EmptyString, t));
        observation_sources ← read_set as_string_array "observation_sources"%string;
        sources_names ← read_or as_string_array (name ".sources_names"%string) observation_sources;
        if forallb (fun s => bool_decide (s ∈ observation_sources)) sources_names
        then Ok (Some (set_parameters enabled
               (mk_parameters a min_points slowdown_ratio linear_limit angular_limit time step visualize sources_names) z,
               topics))
        else Ok None
    end).

(** The points are appended; they are dropped again if one of them is not a pair. *)
Fixpoint append_pairs (vvf : list (list spec_float)) (polygon : list Point) : bool * list Point :=
  match vvf with
  | [] => (true, polygon)
  | [px; py] :: vvf => append_pairs vvf (polygon ++ [mk_point (f64_of_f32 px) (f64_of_f32 py)])
  | _ :: _ => (false, [])
  end.

Definition getPolygonFromString (poly_string : string) (polygon : list Point) : bool * list Point :=
  match ArrayParser.parseVVF (list_ascii_of_string poly_string) with
  | None => (false, polygon)
  | Some vvf => if (List.length vvf <=? 3)%nat then (false, polygon) else append_pairs vvf polygon
  end.

(** [Polygon::getParameters] *)
Definition polygon_parameters (z : zone) : res (option configured) :=
  '(z, use_dynamic_sub) ←
    match read_set as_string (polygon_name_ z ++ ".points") with
    | Ok s => let '(ok, poly) := getPolygonFromString s (poly_ z) in Ok (set_poly poly z, negb ok)
    | Throw parameter_uninitialized => Ok (z, true)
    | Throw e => Throw e
    | UB => UB
    end;
  getCommonParameters use_dynamic_sub z.

(** [Circle::getParameters] *)
Definition circle_parameters (z : zone) : res (option configured) :=
  '(z, use_dynamic_sub) ←
    match read_set as_double (polygon_name_ z ++ ".radius") with
    | Ok r => Ok (set_shape (CIRCLE (Some r) (f64_mul r r)) z, false)
    | Throw parameter_uninitialized => Ok (z, true)
    | Throw e => Throw e
    | UB => UB
    end;
  o ← getCommonParameters use_dynamic_sub z;
  Ok (option_map (fun '(z, topics) => (z, (fst topics, EmptyString))) o).

Definition read_sub_polygon (holonomic : bool) (name velocity_polygon_name : string) : res (option SubPolygonParameter) :=
  let sub suffix := (name ++ "." ++ velocity_polygon_name ++ suffix)%string in
  poly_string ← read_set as_string (sub ".points"%string);
  let '(ok, poly) := getPolygonFromString poly_string [] in
  if negb ok then Ok None else
  linear_min ← read_set as_double (sub ".linear_min"%string);
  linear_max ← read_set as_double (sub ".linear_max"%string);
  theta_min ← read_set as_double (sub ".theta_min"%string);
  theta_max ← read_set as_double (sub ".theta_max"%string);
  direction_end_angle ← (if holonomic then read_or as_double (sub ".direction_end_angle"%string) f64_pi else Ok f64_zero);
  direction_start_angle ← (if holonomic then read_or as_double (sub ".direction_start_angle"%string) (SFopp f64_pi)
                           else Ok f64_zero);
  Ok (Some (mk_sub_polygon poly velocity_polygon_name linear_min linear_max theta_min theta_max
              direction_end_angle direction_start_angle)).

Fixpoint read_sub_polygons (holonomic : bool) (name : string) (names : list string) (sub_polygons : list SubPolygonParameter) :
    res (option (list SubPolygonParameter)) :=
  match names with
  | [] => Ok (Some sub_polygons)
  | n :: names =>
      o ← read_sub_polygon holonomic name n;
      match o with
      | Some sub => read_sub_polygons holonomic name names (sub_polygons ++ [sub])
      | None => Ok None
      end
  end.

(** [VelocityPolygon::getParameters] *)
Definition velocity_parameters (z : zone) : res (option configured) :=
  o ← getCommonParameters false z;
  match o with
  | None => Ok None
  | Some (z, topics) =>
      or_false (
        names ← read_set as_string_array (polygon_name_ z ++ ".velocity_polygons");
        holonomic ← read_or as_bool (polygon_name_ z ++ ".holonomic") false;
        subs ← read_sub_polygons holonomic (polygon_name_ z) names [];
        match subs with
        | Some l => Ok (Some (set_shape (VELOCITY_POLYGON holonomic l) z, topics))
        | None => Ok None
        end)
  end.

Definition getParameters (z : zone) : res (option configured) :=
  match shape_ z with
  | POLYGON => polygon_parameters z
  | CIRCLE _ _ => circle_parameters z
  | VELOCITY_POLYGON _ _ => velocity_parameters z
  end.

(** [configure]: [None] if it returns false. *)
Definition configure (z : zone) : res (option zone) :=
  o ← getParameters z;
  match o with
  | None => Ok None
  | Some (z, (_, footprint_topic)) =>
      let z := if String.eqb footprint_topic EmptyString then z else set_footprint (Some None) z in
      if visualize_ (parameters_ z) then
        poly ← getPolygon z;
        Ok (Some (set_polygon (mk_stamped (base_frame_id_ z) (points (polygon_ z) ++ (to_point32 <$> poly))) z))
      else Ok (Some z)
  end.
End Motion.
End Zones.
