(* ===== verification/CollisionSources.v ===== *)
(** * Data sources of the collision monitor ([nav2_collision_monitor]: [source.cpp], [scan.cpp],
    [pointcloud.cpp], [range.cpp], [polygon_source.cpp])

    A source turns its last message to points in the frame of the robot. It fails if the message is
    missing or old, or if the frame of the robot is not known. Times and durations
    are numbers of nanoseconds. *)

From stdpp Require Import base option list numbers strings gmap.
From Stdlib Require Import ZArith Lia SpecFloat String.
From S2P Require Import Prelude Float64 Footprint Parameters CollisionZones.

(** Conversions of durations from and to seconds. *)
Class Durations : Type := {
  from_seconds : f64 -> Z;
  seconds : Z -> f64 }.

Module Sources.
Import Zones.

(** ** Messages *)

Record LaserScan : Type := mk_scan {
  scan_frame : string; scan_stamp : Z;
  angle_min : spec_float; angle_increment : spec_float;
  range_min : spec_float; range_max : spec_float;
  ranges : list spec_float }.

(** A cloud: the names of its fields and, for each point, their values. *)
Record PointCloud2 : Type := mk_cloud {
  cloud_frame : string; cloud_stamp : Z;
  fields : list string;
  rows : list (string -> spec_float) }.

Record RangeMsg : Type := mk_range {
  range_frame : string; range_stamp : Z;
  range : spec_float; min_range : spec_float; max_range : spec_float;
  field_of_view : spec_float }.

Record PolygonInstance : Type := mk_instance {
  instance_frame : string; instance_stamp : Z;
  instance_id : Z;
  instance_points : list Footprint.Point32 }.

(** ** State *)

(** The class of a source with its own members and the data it received last. *)
Inductive sensor : Type :=
  | SCAN (data_ : option LaserScan)
  | POINTCLOUD (min_height_ max_height_ min_range_ : f64) (use_global_height_ : bool) (data_ : option PointCloud2)
  | RANGE (obstacles_angle_ : f64) (data_ : option RangeMsg)
  | POLYGON_SOURCE (sampling_distance_ : f64) (data_ : list PolygonInstance).

Record source : Type := mk_source {
  source_name_ : string;
  base_frame_id_ : string;
  global_frame_id_ : string;
  source_timeout_ : Z;
  base_shift_correction_ : bool;
  enabled_ : bool;
  sensor_ : sensor }.

Definition set_sensor d (s : source) : source :=
  mk_source (source_name_ s) (base_frame_id_ s) (global_frame_id_ s) (source_timeout_ s) (base_shift_correction_ s)
    (enabled_ s) d.
Definition set_enabled b (s : source) : source :=
  mk_source (source_name_ s) (base_frame_id_ s) (global_frame_id_ s) (source_timeout_ s) (base_shift_correction_ s)
    b (sensor_ s).
Definition set_common timeout b (s : source) : source :=
  mk_source (source_name_ s) (base_frame_id_ s) (global_frame_id_ s) timeout (base_shift_correction_ s)
    b (sensor_ s).

Section Sources.
Context `{Durations} `{Mathematics} `{Transforms}.

(** A timeout of zero seconds disables the check of the age. *)
Definition no_timeout (s : source) : bool := f64_eq (seconds (source_timeout_ s)) f64_zero.

Definition sourceValid (source_time curr_time : Z) (s : source) : bool :=
  let dt := curr_time - source_time in
  negb (negb (no_timeout s) && (dt >? source_timeout_ s)).

Definition getTransform (curr_time : Z) (frame : string) (stamp : Z) (s : source) : option transform :=
  if base_shift_correction_ s
  then between_times (base_frame_id_ s) curr_time frame stamp (global_frame_id_ s)
  else Zones.getTransform frame (base_frame_id_ s).

Definition transformed (t : transform) (p : f64 * f64 * f64) : Point :=
  let '(px, py, _) := apply t p in mk_point px py.

(** A point at an angle and a distance from the sensor. *)
Definition polar (distance angle : spec_float) : f64 * f64 * f64 :=
  (f64_of_f32 (f32_mul distance (cosf angle)), f64_of_f32 (f32_mul distance (sinf angle)), f64_zero).

(** ** Laser scans *)

Fixpoint scan_points (msg : LaserScan) (t : transform) (angle : spec_float) (l : list spec_float) : list Point :=
  match l with
  | [] => []
  | r :: l =>
      let rest := scan_points msg t (f32_add angle (angle_increment msg)) l in
      if f64_le (range_min msg) r && f64_le r (range_max msg) then transformed t (polar r angle) :: rest else rest
  end.

(** The result of [getData] and the points it appends. *)
Definition scan_data (curr_time : Z) (s : source) (data_ : option LaserScan) : bool * list Point :=
  match data_ with
  | None => (false, [])
  | Some msg =>
      if negb (sourceValid (scan_stamp msg) curr_time s) then (false, []) else
      match getTransform curr_time (scan_frame msg) (scan_stamp msg) s with
      | None => (false, [])
      | Some t => (true, scan_points msg t (angle_min msg) (ranges msg))
      end
  end.

(** ** Point clouds *)

Definition vector_length (p : f64 * f64 * f64) : f64 :=
  let '(a, b, c) := p in f64_sqrt (f64_add (f64_add (f64_mul a a) (f64_mul b b)) (f64_mul c c)).

Definition cloud_point (t : transform) (min_height_ max_height_ min_range_ : f64) (height_field : string)
    (row : string -> spec_float) : option Point :=
  let value name := f64_of_f32 (row name) in
  let p := (value "x", value "y", value "z")%string in
  let data_height := value height_field in
  if f64_lt (vector_length p) min_range_ then None
  else if f64_le min_height_ data_height && f64_le data_height max_height_ then Some (transformed t p) else None.

(** An iterator over a field that the cloud does not have throws. *)
Definition cloud_data (curr_time : Z) (s : source) (min_height_ max_height_ min_range_ : f64)
    (use_global_height_ : bool) (data_ : option PointCloud2) : res (bool * list Point) :=
  match data_ with
  | None => Ok (false, [])
  | Some msg =>
      if negb (sourceValid (cloud_stamp msg) curr_time s) then Ok (false, []) else
      match getTransform curr_time (cloud_frame msg) (cloud_stamp msg) s with
      | None => Ok (false, [])
      | Some t =>
          if negb (forallb (fun name => bool_decide (name ∈ fields msg)) ["x"; "y"; "z"]%string)
          then Throw runtime_error
          else if use_global_height_ && negb (bool_decide ("height"%string ∈ fields msg)) then Ok (false, [])
          else let height_field := if use_global_height_ then "height"%string else "z"%string in
               Ok (true, omap (cloud_point t min_height_ max_height_ min_range_ height_field) (rows msg))
      end
  end.

(** ** Range sensors *)

(** The field of view is scanned in steps; [rounds] limits the loop. *)
Fixpoint cone_points (rounds : nat) (msg : RangeMsg) (t : transform) (obstacles_angle_ : f64) (angle : spec_float) :
    res (list Point) :=
  let half_view := f32_div (field_of_view msg) (f32_of_Z 2) in
  if f64_lt angle half_view then
    match rounds with
    | O => UB
    | S rounds =>
        l ← cone_points rounds msg t obstacles_angle_ (f32_of_f64 (f64_add (f64_of_f32 angle) obstacles_angle_));
        Ok (transformed t (polar (range msg) angle) :: l)
    end
  else Ok [transformed t (polar (range msg) half_view)].

Definition range_data (rounds : nat) (curr_time : Z) (s : source) (obstacles_angle_ : f64) (data_ : option RangeMsg) :
    res (bool * list Point) :=
  match data_ with
  | None => Ok (false, [])
  | Some msg =>
      if negb (sourceValid (range_stamp msg) curr_time s) then Ok (false, []) else
      if f64_lt (range msg) (min_range msg) || f64_lt (max_range msg) (range msg) then Ok (false, []) else
      match getTransform curr_time (range_frame msg) (range_stamp msg) s with
      | None => Ok (false, [])
      | Some t =>
          l ← cone_points rounds msg t obstacles_angle_ (f32_div (SFopp (field_of_view msg)) (f32_of_Z 2));
          Ok (true, l)
      end
  end.

(** ** Polygons *)

(** Points at equal distances on an edge, ends included. *)
Definition sample_edge (sampling_distance_ : f64) (current_point next_point : Footprint.Point32) : res (list Point) :=
  let ex := f32_sub (Footprint.x32 next_point) (Footprint.x32 current_point) in
  let ey := f32_sub (Footprint.y32 next_point) (Footprint.y32 current_point) in
  let segment_length := f64_of_f32 (hypotf ex ey) in
  n ← f64_to_int 32 (f64_ceil (f64_div segment_length sampling_distance_));
  let num_points_in_segment := Z.max n 1 in
  let dx := f64_of_f32 (f32_div ex (f32_of_Z num_points_in_segment)) in
  let dy := f64_of_f32 (f32_div ey (f32_of_Z num_points_in_segment)) in
  Ok ((fun j => mk_point (f64_add (f64_of_f32 (Footprint.x32 current_point)) (f64_mul (f64_of_Z j) dx))
                  (f64_add (f64_of_f32 (Footprint.y32 current_point)) (f64_mul (f64_of_Z j) dy)))
        <$> seqZ 0 (num_points_in_segment + 1)).

(** The edges from the points of [l]; the last one ends at [first]. *)
Fixpoint sample_edges (sampling_distance_ : f64) (first : Footprint.Point32) (l : list Footprint.Point32) :
    res (list Point) :=
  match l with
  | [] => Ok []
  | p :: l =>
      a ← sample_edge sampling_distance_ p (default first (head l));
      b ← sample_edges sampling_distance_ first l;
      Ok (a ++ b)
  end.

Definition convertPolygonStampedToPoints (sampling_distance_ : f64) (l : list Footprint.Point32) : res (list Point) :=
  match l with [] => Ok [] | first :: _ => sample_edges sampling_distance_ first l end.

(** The points of the polygons before one whose frame is not known are appended all the same. *)
Fixpoint polygons_data (curr_time : Z) (s : source) (sampling_distance_ : f64) (l : list PolygonInstance) :
    res (bool * list Point) :=
  match l with
  | [] => Ok (true, [])
  | p :: l =>
      match getTransform curr_time (instance_frame p) (instance_stamp p) s with
      | None => Ok (false, [])
      | Some t =>
          a ← convertPolygonStampedToPoints sampling_distance_ (transform_polygon t (instance_points p));
          '(ok, b) ← polygons_data curr_time s sampling_distance_ l;
          Ok (ok, a ++ b)
      end
  end.

(** ** [getData] *)

(** Polygons older than the timeout are removed first. *)
Definition fresh (curr_time : Z) (s : source) (p : PolygonInstance) : bool :=
  negb (curr_time - instance_stamp p >? source_timeout_ s).

Definition getData (rounds : nat) (curr_time : Z) (s : source) : res (bool * list Point * source) :=
  match sensor_ s with
  | SCAN data_ => let '(ok, l) := scan_data curr_time s data_ in Ok (ok, l, s)
  | POINTCLOUD a b c g data_ => '(ok, l) ← cloud_data curr_time s a b c g data_; Ok (ok, l, s)
  | RANGE a data_ => '(ok, l) ← range_data rounds curr_time s a data_; Ok (ok, l, s)
  | POLYGON_SOURCE d data_ =>
      match data_ with
      | [] => Ok (false, [], s)
      | _ =>
          let data_ := List.filter (fresh curr_time s) data_ in
          '(ok, l) ← polygons_data curr_time s d data_;
          Ok (ok, l, set_sensor (POLYGON_SOURCE d data_) s)
      end
  end.

(** ** Messages and parameters that arrive *)

Definition scan_callback (msg : LaserScan) (s : source) : source :=
  match sensor_ s with SCAN _ => set_sensor (SCAN (Some msg)) s | _ => s end.
Definition cloud_callback (msg : PointCloud2) (s : source) : source :=
  match sensor_ s with POINTCLOUD a b c g _ => set_sensor (POINTCLOUD a b c g (Some msg)) s | _ => s end.
Definition range_callback (msg : RangeMsg) (s : source) : source :=
  match sensor_ s with RANGE a _ => set_sensor (RANGE a (Some msg)) s | _ => s end.

(** A polygon replaces the first one with its number, or is added at the end. *)
Fixpoint replace_instance (msg : PolygonInstance) (l : list PolygonInstance) : list PolygonInstance :=
  match l with
  | [] => [msg]
  | p :: l => if instance_id msg =? instance_id p then msg :: l else p :: replace_instance msg l
  end.
Definition polygon_callback (msg : PolygonInstance) (s : source) : source :=
  match sensor_ s with
  | POLYGON_SOURCE d l => set_sensor (POLYGON_SOURCE d (replace_instance msg l)) s
  | _ => s
  end.

Definition dynamicParametersCallback (updates : list (string * parameter)) (s : source) : source :=
  fold_left (fun s p =>
    match snd p with
    | PARAMETER_BOOL b => if String.eqb (fst p) (source_name_ s ++ ".enabled") then set_enabled b s else s
    | _ => s
    end) updates s.

(** ** Configuration *)

Context `{NodeParameters}.
Import Parameters.

(** 0.05 *)
Definition twentieth : f64 := S754_finite false 7205759403792794 (-57).

Definition getCommonParameters (s : source) : res source :=
  let name suffix := (source_name_ s ++ suffix)%string in
  _ ← read_or as_string (name ".topic"%string) "scan"%string;
  enabled ← read_or as_bool (name ".enabled"%string) true;
  timeout ← read_or as_double (name ".source_timeout"%string) (seconds (source_timeout_ s));
  Ok (set_common (from_seconds timeout) enabled s).

(** [configure] of the four classes. *)
Definition configure (s : source) : res source :=
  let name suffix := (source_name_ s ++ suffix)%string in
  s ← getCommonParameters s;
  match sensor_ s with
  | SCAN _ => Ok s
  | POINTCLOUD _ _ _ _ d =>
      min_height ← read_or as_double (name ".min_height"%string) twentieth;
      max_height ← read_or as_double (name ".max_height"%string) half;
      min_range ← read_or as_double (name ".min_range"%string) f64_zero;
      use_global_height ← read_or as_bool (name ".use_global_height"%string) false;
      Ok (set_sensor (POINTCLOUD min_height max_height min_range use_global_height d) s)
  | RANGE _ d =>
      obstacles_angle ← read_or as_double (name ".obstacles_angle"%string) (f64_div f64_pi (f64_of_Z 180));
      Ok (set_sensor (RANGE obstacles_angle d) s)
  | POLYGON_SOURCE _ d =>
      sampling_distance ← read_or as_double (name ".sampling_distance"%string) tenth;
      Ok (set_sensor (POLYGON_SOURCE sampling_distance d) s)
  end.
End Sources.
End Sources.
