(* ===== verification/CollisionMonitor.v ===== *)
(** * The collision monitor and the collision detector ([nav2_collision_monitor]:
    [collision_monitor_node.cpp], [collision_detector_node.cpp])

    The monitor stands between the controllers and the robot: for each velocity command it collects
    the points of its sources, lets every zone demand a velocity, and publishes the
    safest one. The detector only reports which zones hold points. A call sees one state of the
    transform buffer; what is published for display is left out. *)

From stdpp Require Import base option list numbers strings gmap.
From Stdlib Require Import ZArith Lia SpecFloat String.
From S2P Require Import Prelude Float64 Footprint ArrayParser Parameters CollisionZones CollisionSources.

Module Monitor.
Import Zones Sources.

Record monitor : Type := mk_monitor {
  enabled_ : bool;
  process_active_ : bool;
  robot_action_prev_ : Action;
  stop_stamp_ : Z;
  stop_pub_timeout_ : Z;
  state_pub_ : bool;
  polygons_ : list zone;
  sources_ : list source }.

Definition set_toggle b (m : monitor) : monitor :=
  mk_monitor b (process_active_ m) (robot_action_prev_ m) (stop_stamp_ m) (stop_pub_timeout_ m) (state_pub_ m)
    (polygons_ m) (sources_ m).
Definition set_active b (m : monitor) : monitor :=
  mk_monitor (enabled_ m) b (robot_action_prev_ m) (stop_stamp_ m) (stop_pub_timeout_ m) (state_pub_ m)
    (polygons_ m) (sources_ m).
Definition set_prev a (m : monitor) : monitor :=
  mk_monitor (enabled_ m) (process_active_ m) a (stop_stamp_ m) (stop_pub_timeout_ m) (state_pub_ m)
    (polygons_ m) (sources_ m).
Definition set_stamp z (m : monitor) : monitor :=
  mk_monitor (enabled_ m) (process_active_ m) (robot_action_prev_ m) z (stop_pub_timeout_ m) (state_pub_ m)
    (polygons_ m) (sources_ m).
Definition set_polygons l (m : monitor) : monitor :=
  mk_monitor (enabled_ m) (process_active_ m) (robot_action_prev_ m) (stop_stamp_ m) (stop_pub_timeout_ m) (state_pub_ m)
    l (sources_ m).
Definition set_sources l (m : monitor) : monitor :=
  mk_monitor (enabled_ m) (process_active_ m) (robot_action_prev_ m) (stop_stamp_ m) (stop_pub_timeout_ m) (state_pub_ m)
    (polygons_ m) l.

Definition zero_velocity : Velocity := mk_velocity f64_zero f64_zero f64_zero.
Definition no_action : Action := mk_action DO_NOTHING (mk_velocity minus_one minus_one minus_one) EmptyString.
Definition INVALID_SOURCE : string := "invalid source".

(** [stop_pub_timeout_ = timeout], or a second before the parameters are read. *)
Definition new : monitor := mk_monitor true false no_action 0 1000000000 false [] [].

(** ** Demands of the zones *)

Section Process.
Context `{Durations} `{Mathematics} `{Transforms}.

(** [std::min] and [std::clamp] *)
Definition clamp (v lo hi : f64) : f64 := if f64_lt v lo then lo else if f64_lt hi v then hi else v.

Definition one : f64 := f64_of_Z 1.

(** The ratio that keeps both speeds within the limits of a zone. *)
Definition limit_ratio (z : zone) (velocity : Velocity) : f64 :=
  let linear_vel := hypot (vx velocity) (vy velocity) in
  let ratio := one in
  let ratio := if negb (f64_eq linear_vel f64_zero)
               then f64_min ratio (f64_div (linear_limit_ (parameters_ z)) linear_vel) else ratio in
  let ratio := if negb (f64_eq (tw velocity) f64_zero)
               then f64_min ratio (f64_div (angular_limit_ (parameters_ z)) (SFabs (tw velocity))) else ratio in
  clamp ratio f64_zero one.

(** A new action replaces the current one if its velocity is smaller. The first component is
    the result of the functions of the source. *)
Definition safer (a : ActionType) (safe_vel : Velocity) (z : zone) (robot_action : Action) : bool * Action :=
  if velocity_lt safe_vel (req_vel robot_action) then (true, mk_action a safe_vel (polygon_name_ z))
  else (false, robot_action).

Definition processStopSlowdownLimit (z : zone) (m : gmap string (list Point)) (velocity : Velocity)
    (robot_action : Action) : bool * Action :=
  if negb (isShapeSet z) then (false, robot_action)
  else if min_points_ (parameters_ z) <=? getPointsInside_map z m then
    match action_type_ (parameters_ z) with
    | STOP => (true, mk_action STOP zero_velocity (polygon_name_ z))
    | SLOWDOWN => safer SLOWDOWN (velocity_mul velocity (slowdown_ratio_ (parameters_ z))) z robot_action
    | _ => safer LIMIT (velocity_mul velocity (limit_ratio z velocity)) z robot_action
    end
  else (false, robot_action).

Definition processApproach (rounds : nat) (z : zone) (m : gmap string (list Point)) (velocity : Velocity)
    (robot_action : Action) : res (bool * Action) :=
  if negb (isShapeSet z) then Ok (false, robot_action) else
  collision_time ← getCollisionTime rounds m velocity z;
  if f64_le f64_zero collision_time then
    let change_ratio := f64_div collision_time (time_before_collision_ (parameters_ z)) in
    Ok (safer APPROACH (velocity_mul velocity change_ratio) z robot_action)
  else Ok (false, robot_action).

(** One zone: the action and the zone that caused it. *)
Definition process_zone (rounds : nat) (z : zone) (m : gmap string (list Point)) (velocity : Velocity)
    (r : Action * option zone) : res (Action * option zone) :=
  let '(robot_action, action_polygon) := r in
  match action_type_ (parameters_ z) with
  | STOP | SLOWDOWN | LIMIT =>
      let '(b, a) := processStopSlowdownLimit z m velocity robot_action in
      Ok (a, if b then Some z else action_polygon)
  | APPROACH =>
      '(b, a) ← processApproach rounds z m velocity robot_action;
      Ok (a, if (b : bool) then Some z else action_polygon)
  | DO_NOTHING => Ok r
  end.

(** The loop over the zones, which ends at a stop. *)
Fixpoint process_zones (rounds : nat) (on : bool) (l : list zone) (m : gmap string (list Point)) (velocity : Velocity)
    (r : Action * option zone) : res (list zone * (Action * option zone)) :=
  match l with
  | [] => Ok ([], r)
  | z :: l =>
      if negb (Zones.enabled_ z) || negb on then
        '(l, r) ← process_zones rounds on l m velocity r; Ok (z :: l, r)
      else if bool_decide (action_type (fst r) = STOP) then Ok (z :: l, r)
      else
        let z := updatePolygon velocity z in
        r ← process_zone rounds z m velocity r;
        '(l, r) ← process_zones rounds on l m velocity r;
        Ok (z :: l, r)
  end.

(** ** Sources *)

(** The loop over the sources, which ends at the first invalid one. *)
Fixpoint collect (rounds : nat) (curr_time : Z) (l : list source) (m : gmap string (list Point)) :
    res (list source * gmap string (list Point) * bool) :=
  match l with
  | [] => Ok ([], m, true)
  | s :: l =>
      let old := default [] (m !! source_name_ s) in
      if Sources.enabled_ s then
        '(ok, data, s) ← getData rounds curr_time s;
        let m := <[source_name_ s := old ++ data]> m in
        if negb (ok : bool) && negb (no_timeout s) then Ok (s :: l, m, false)
        else '(l, m, valid) ← collect rounds curr_time l m; Ok (s :: l, m, valid)
      else '(l, m, valid) ← collect rounds curr_time l (<[source_name_ s := old]> m); Ok (s :: l, m, valid)
  end.

(** ** Output *)

(** The message about a new behaviour. Its text names the zone. *)
Definition notifyActionState (a : Action) (action_polygon : option zone) (m : monitor) : res (option (string * ActionType)) :=
  _ ← (match action_type a, action_polygon with
       | STOP, None => if String.eqb (polygon_name a) INVALID_SOURCE then Ok tt else UB
       | DO_NOTHING, _ => Ok tt
       | _, Some _ => Ok tt
       | _, None => UB
       end);
  Ok (if state_pub_ m then Some (polygon_name a, action_type a) else None).

(** The velocity that is published, if any, at the time [now]. *)
Definition publishVelocity (now : Z) (a : Action) (m : monitor) : option Velocity * monitor :=
  if isZero (req_vel a) then
    if negb (isZero (req_vel (robot_action_prev_ m))) then (Some (req_vel a), set_stamp now m)
    else if now - stop_stamp_ m >? stop_pub_timeout_ m then (None, m)
    else (Some (req_vel a), m)
  else (Some (req_vel a), m).

Record output : Type := mk_output { cmd_vel_out : option Velocity; state_msg : option (string * ActionType) }.
Definition silent : output := mk_output None None.

(** [process], at the times [curr_time] and, for the publication, [now]. *)
Definition process (rounds : nat) (curr_time now : Z) (cmd_vel_in : Velocity) (m : monitor) : res (output * monitor) :=
  if negb (process_active_ m) then Ok (silent, m) else
  '(sources, points, valid) ← collect rounds curr_time (sources_ m) ∅;
  let robot_action := if (valid : bool) then mk_action DO_NOTHING cmd_vel_in EmptyString
                      else mk_action STOP zero_velocity INVALID_SOURCE in
  '(polygons, r) ← process_zones rounds (enabled_ m) (polygons_ m) points cmd_vel_in (robot_action, None);
  let '(robot_action, action_polygon) := (r : Action * option zone) in
  let m := set_polygons polygons (set_sources sources m) in
  state ← (if negb (String.eqb (polygon_name robot_action) (polygon_name (robot_action_prev_ m))) && enabled_ m
           then notifyActionState robot_action action_polygon m else Ok None);
  let '(velocity, m) := publishVelocity now robot_action m in
  Ok (mk_output velocity state, set_prev robot_action m).

(** ** Calls from outside *)

Record Twist : Type := mk_twist { linear : f64 * f64 * f64; angular : f64 * f64 * f64 }.

(** [nav2_util::validateTwist] *)
Definition finite (v : f64) : bool := match v with S754_infinity _ | S754_nan => false | _ => true end.
Definition validateTwist (msg : Twist) : bool :=
  let '(lx, ly, lz) := linear msg in
  let '(ax, ay, az) := angular msg in
  finite lx && finite ly && finite lz && finite ax && finite ay && finite az.

Definition cmdVelInCallbackStamped (rounds : nat) (curr_time now : Z) (msg : Twist) (m : monitor) : res (output * monitor) :=
  if negb (validateTwist msg) then Ok (silent, m)
  else process rounds curr_time now
         (mk_velocity (fst (fst (linear msg))) (snd (fst (linear msg))) (snd (angular msg))) m.

Definition toggleCMServiceCallback (enable : bool) (m : monitor) : monitor := set_toggle enable m.

Definition on_activate (m : monitor) : monitor := set_active true m.
Definition on_deactivate (m : monitor) : monitor := set_prev no_action (set_active false m).
Definition on_cleanup (m : monitor) : monitor :=
  mk_monitor (enabled_ m) (process_active_ m) (robot_action_prev_ m) (stop_stamp_ m) (stop_pub_timeout_ m) false [] [].

(** Updates of the zones and sources between two calls. *)
Definition on_zone (i : nat) (f : zone -> zone) (m : monitor) : monitor := set_polygons (alter f i (polygons_ m)) m.
Definition on_source (i : nat) (f : source -> source) (m : monitor) : monitor := set_sources (alter f i (sources_ m)) m.

(** ** Configuration *)

Context `{NodeParameters} `{NumberReader}.
Import Parameters.

Definition shape_of_type (polygon_type : string) : option shape :=
  if String.eqb polygon_type "polygon" then Some POLYGON
  else if String.eqb polygon_type "circle" then Some (CIRCLE None minus_one)
  else if String.eqb polygon_type "velocity_polygon" then Some (VELOCITY_POLYGON false [])
  else None.

(** [None] if the function returns false. *)
Fixpoint configure_polygons (base_frame_id : string) (names : list string) (polygons : list zone) : res (option (list zone)) :=
  match names with
  | [] => Ok (Some polygons)
  | name :: names =>
      polygon_type ← read_set as_string (name ++ ".type");
      match shape_of_type polygon_type with
      | None => Ok None
      | Some s =>
          o ← Zones.configure (Zones.new name base_frame_id s);
          match o with
          | Some z => configure_polygons base_frame_id names (polygons ++ [z])
          | None => Ok None
          end
      end
  end.

Definition configurePolygons (base_frame_id : string) : res (option (list zone)) :=
  or_false (names ← read_set as_string_array "polygons"%string; configure_polygons base_frame_id names []).

Definition sensor_of_type (source_type : string) : option sensor :=
  if String.eqb source_type "scan" then Some (SCAN None)
  else if String.eqb source_type "pointcloud" then Some (POINTCLOUD f64_zero f64_zero f64_zero false None)
  else if String.eqb source_type "range" then Some (RANGE f64_zero None)
  else if String.eqb source_type "polygon" then Some (POLYGON_SOURCE f64_zero [])
  else None.

Fixpoint configure_sources (base_frame_id odom_frame_id : string) (timeout : Z) (base_shift_correction : bool)
    (names : list string) (sources : list source) : res (option (list source)) :=
  match names with
  | [] => Ok (Some sources)
  | name :: names =>
      source_type ← read_or as_string (name ++ ".type") "scan"%string;
      match sensor_of_type source_type with
      | None => Ok None
      | Some d =>
          s ← Sources.configure (mk_source name base_frame_id odom_frame_id timeout base_shift_correction false d);
          configure_sources base_frame_id odom_frame_id timeout base_shift_correction names (sources ++ [s])
      end
  end.

Definition configureSources (base_frame_id odom_frame_id : string) (timeout : Z) (base_shift_correction : bool) :
    res (option (list source)) :=
  or_false (names ← read_set as_string_array "observation_sources"%string;
            configure_sources base_frame_id odom_frame_id timeout base_shift_correction names []).

(** The parameters that monitor and detector share: frames, tolerance, timeout, correction. *)
Definition read_frames : res (string * string * Z * bool) :=
  base_frame_id ← read_or as_string "base_frame_id"%string "base_footprint"%string;
  odom_frame_id ← read_or as_string "odom_frame_id"%string "odom"%string;
  _ ← read_or as_double "transform_tolerance"%string tenth;
  timeout ← read_or as_double "source_timeout"%string (f64_of_Z 2);
  base_shift_correction ← read_or as_bool "base_shift_correction"%string true;
  Ok (base_frame_id, odom_frame_id, from_seconds timeout, base_shift_correction).

(** [on_configure]: the result of the transition. Exceptions leave it. [priority] tells whether the
    system grants the priority of a real-time process. *)
Definition on_configure (priority : bool) (m : monitor) : res (bool * monitor) :=
  _ ← read_or as_string "cmd_vel_in_topic"%string "cmd_vel_smoothed"%string;
  _ ← read_or as_string "cmd_vel_out_topic"%string "cmd_vel"%string;
  state_topic ← read_or as_string "state_topic"%string EmptyString;
  '(base, odom, timeout, shift) ← read_frames;
  stop_pub ← read_or as_double "stop_pub_timeout"%string one;
  let m := mk_monitor (enabled_ m) (process_active_ m) (robot_action_prev_ m) (stop_stamp_ m) (from_seconds stop_pub)
             (state_pub_ m) (polygons_ m) (sources_ m) in
  o ← configureSources base odom timeout shift;
  match o with
  | None => Ok (false, on_cleanup m)
  | Some sources =>
      o ← configurePolygons base;
      match o with
      | None => Ok (false, on_cleanup m)
      | Some polygons =>
          let m := mk_monitor (enabled_ m) (process_active_ m) (robot_action_prev_ m) (stop_stamp_ m) (stop_pub_timeout_ m)
                     (state_pub_ m || negb (String.eqb state_topic EmptyString))
                     (polygons_ m ++ polygons) (sources_ m ++ sources) in
          use_realtime_priority ← read_or as_bool "use_realtime_priority"%string false;
          if use_realtime_priority && negb priority then Ok (false, on_cleanup m) else Ok (true, m)
      end
  end.
End Process.
End Monitor.

(** ** The collision detector *)

Module Detector.
Import Zones Sources.

Record detector : Type := mk_detector { frequency_ : f64; polygons_ : list zone; sources_ : list source }.

Section Process.
Context `{Durations} `{Mathematics} `{Transforms}.

(** The points of all sources; invalid ones are only reported in the log. *)
Fixpoint collect (rounds : nat) (curr_time : Z) (l : list source) (points : list Point) : res (list source * list Point) :=
  match l with
  | [] => Ok ([], points)
  | s :: l =>
      '(data, s) ← (if Sources.enabled_ s
                    then '(_, data, s) ← getData rounds curr_time s; Ok (data, s) else Ok ([], s));
      '(l, points) ← collect rounds curr_time l (points ++ data);
      Ok (s :: l, points)
  end.

(** The names of the enabled zones and whether they hold enough points. *)
Definition detections (l : list zone) (points : list Point) : list (string * bool) :=
  (fun z => (polygon_name_ z, min_points_ (parameters_ z) <=? getPointsInside z points))
    <$> List.filter Zones.enabled_ l.

Definition process (rounds : nat) (curr_time : Z) (d : detector) : res (list (string * bool) * detector) :=
  '(sources, points) ← collect rounds curr_time (sources_ d) [];
  Ok (detections (polygons_ d) points, mk_detector (frequency_ d) (polygons_ d) sources).

Definition on_cleanup (d : detector) : detector := mk_detector (frequency_ d) [] [].

Context `{NodeParameters} `{NumberReader}.
Import Parameters.

(** Zones of a detector have the action type [none]. *)
Fixpoint configure_polygons (base_frame_id : string) (names : list string) (polygons : list zone) : res (option (list zone)) :=
  match names with
  | [] => Ok (Some polygons)
  | name :: names =>
      polygon_type ← read_set as_string (name ++ ".type");
      match Monitor.shape_of_type polygon_type with
      | None => Ok None
      | Some s =>
          o ← Zones.configure (Zones.new name base_frame_id s);
          match o with
          | Some z => if bool_decide (action_type_ (parameters_ z) = DO_NOTHING)
                      then configure_polygons base_frame_id names (polygons ++ [z]) else Ok None
          | None => Ok None
          end
      end
  end.

Definition configurePolygons (base_frame_id : string) : res (option (list zone)) :=
  or_false (names ← read_set as_string_array "polygons"%string; configure_polygons base_frame_id names []).

Definition on_configure (d : detector) : res (bool * detector) :=
  frequency ← read_or as_double "frequency"%string (f64_of_Z 10);
  '(base, odom, timeout, shift) ← Monitor.read_frames;
  let d := mk_detector frequency (polygons_ d) (sources_ d) in
  o ← Monitor.configureSources base odom timeout shift;
  match o with
  | None => Ok (false, on_cleanup d)
  | Some sources =>
      o ← configurePolygons base;
      match o with
      | None => Ok (false, on_cleanup d)
      | Some polygons => Ok (true, mk_detector frequency (polygons_ d ++ polygons) (sources_ d ++ sources))
      end
  end.
End Process.
End Detector.
