(* ===== verification/CollisionLaws.v ===== *)
(** * What the collision monitor promises

    The action of a call is the safest of the demands of its zones, an invalid source or an
    occupied stop zone stops the robot, and the monitor is silent only towards a robot that
    stands. Rectangles hold the points between their sides, and the time of a collision
    is that of the first step of the simulated motion that meets enough points. *)

From stdpp Require Import base option list numbers strings gmap.
From Stdlib Require Import ZArith Lia SpecFloat String.
From S2P Require Import Prelude Float64 FloatOrder FloatBounds Footprint ArrayParser Parameters CollisionZones CollisionSources CollisionMonitor.

Module CollisionLaws.
Import Zones Sources Monitor.

(** ** Magnitudes *)

Definition not_negative (v : f64) : bool :=
  match v with S754_finite true _ _ | S754_infinity true => false | _ => true end.

Lemma round_sign s m e l : match binary_round_aux 53 1024 s m e l with
  | S754_finite s' _ _ | S754_infinity s' => s' = s | _ => True end.
Proof.
  unfold binary_round_aux. destruct (shr_fexp _ _ m e l) as [mrs e1].
  destruct (shr_fexp _ _ _ e1 loc_Exact) as [[m2 r t] e2]. cbn [shr_m]. destruct m2; try done. by destruct (_ <=? _).
Qed.

Lemma square_not_negative v : not_negative (f64_mul v v) = true.
Proof.
  unfold f64_mul. destruct v as [[]|[]| |s m e]; try done. cbn [SFmul]. rewrite xorb_nilpotent.
  pose proof (round_sign false (Zpos (m * m)) (e + e) loc_Exact) as Hr.
  by destruct (binary_round_aux _ _ _ _ _ _) as [|[]| |[]].
Qed.

Lemma normalized_not_negative p k : not_negative (binary_normalize 53 1024 (Zpos p) k false) = true.
Proof.
  cbn [binary_normalize]. unfold binary_round. destruct (shl_align p k _) as [mz ez].
  pose proof (round_sign false (Zpos mz) ez loc_Exact) as Hr.
  by destruct (binary_round_aux _ _ _ _ _ _) as [|[]| |[]].
Qed.

Lemma sum_not_negative a b : not_negative a = true -> not_negative b = true -> not_negative (f64_add a b) = true.
Proof.
  unfold f64_add. destruct a as [[]|[]| |[] m e], b as [[]|[]| |[] m' e']; try done; intros _ _.
  apply normalized_not_negative.
Qed.

Lemma magnitude_not_negative v : not_negative (magnitude v) = true.
Proof. unfold magnitude. auto using sum_not_negative, square_not_negative. Qed.

(** Nothing is slower than standing still. *)
Lemma not_below_zero v : velocity_lt v zero_velocity = false.
Proof.
  unfold velocity_lt. pose proof (magnitude_not_negative v) as Hm. replace (magnitude zero_velocity) with f64_zero by by vm_compute.
  by destruct (magnitude v) as [|[]| |[] m e].
Qed.

Lemma velocity_lt_trans a b c : velocity_lt a b = true -> velocity_lt b c = true -> velocity_lt a c = true.
Proof. apply f64_lt_trans. Qed.

(** The velocity [b] comes from [a]: unchanged, smaller, or zero. *)
Definition no_faster (b a : Velocity) : Prop := b = a \/ velocity_lt b a = true \/ b = zero_velocity.

Lemma no_faster_trans a b c : no_faster c b -> no_faster b a -> no_faster c a.
Proof.
  intros [-> | [Hcb| ->]]; [done| |by right; right].
  intros [-> | [Hba| ->]]; [by right; left| |].
  - right; left. by eapply velocity_lt_trans.
  - by rewrite not_below_zero in Hcb.
Qed.

Lemma no_faster_safe d a b : no_faster b a -> velocity_lt d a = false -> velocity_lt d b = false.
Proof.
  intros [-> | [Hba| ->]] Hd; [done| |apply not_below_zero].
  destruct (velocity_lt d b) eqn:Hdb; [|done]. by rewrite (velocity_lt_trans _ _ _ Hdb Hba) in Hd.
Qed.

(** ** The safest action *)

Section Process.
Context `{Durations} `{Mathematics} `{Transforms}.

Definition occupied (points : gmap string (list Point)) (z : zone) : bool :=
  isShapeSet z && (min_points_ (parameters_ z) <=? getPointsInside_map z points).

(** The velocity that a zone demands for a command, if it is triggered. *)
Definition demand (rounds : nat) (points : gmap string (list Point)) (velocity : Velocity) (z : zone) : option Velocity :=
  match action_type_ (parameters_ z) with
  | DO_NOTHING => None
  | STOP => if occupied points z then Some zero_velocity else None
  | SLOWDOWN => if occupied points z then Some (velocity_mul velocity (slowdown_ratio_ (parameters_ z))) else None
  | LIMIT => if occupied points z then Some (velocity_mul velocity (limit_ratio z velocity)) else None
  | APPROACH =>
      if isShapeSet z then
        match getCollisionTime rounds points velocity z with
        | Ok t => if f64_le f64_zero t
                  then Some (velocity_mul velocity (f64_div t (time_before_collision_ (parameters_ z)))) else None
        | _ => None
        end
      else None
  end.

(** What happens to the action at a zone with that demand. *)
Definition follow (z : zone) (d : option Velocity) (a : Action) : Action :=
  match d with
  | None => a
  | Some v =>
      if bool_decide (action_type_ (parameters_ z) = STOP) then mk_action STOP v (polygon_name_ z)
      else if velocity_lt v (req_vel a) then mk_action (action_type_ (parameters_ z)) v (polygon_name_ z) else a
  end.

Lemma process_zone_follow rounds z points velocity r r' :
  process_zone rounds z points velocity r = Ok r' -> fst r' = follow z (demand rounds points velocity z) (fst r).
Proof.
  destruct r as [a p]. unfold process_zone, processStopSlowdownLimit, processApproach, demand, occupied, safer, follow.
  cbn [fst]. destruct (action_type_ (parameters_ z)) eqn:Ea; [by intros [= <-]|..];
    (destruct (isShapeSet z); cbn [negb andb mbind res_bind]; [|by intros [= <-]]).
  3: { destruct (getCollisionTime rounds points velocity z) as [t|e|]; cbn [mbind res_bind]; [|done..].
    destruct (f64_le f64_zero t); cbn [mbind res_bind]; [|by intros [= <-]].
    cbn. case_bool_decide; [done|]. destruct (velocity_lt _ _); cbn; by intros [= <-]. }
  all: destruct (_ <=? _); [|by intros [= <-]]; cbn; case_bool_decide; try done; try (by intros [= <-]);
    destruct (velocity_lt _ _); cbn; by intros [= <-].
Qed.

Lemma demand_stop rounds points velocity z d : action_type_ (parameters_ z) = STOP ->
  demand rounds points velocity z = Some d -> d = zero_velocity.
Proof. unfold demand. intros ->. case_match; congruence. Qed.

Lemma follow_no_faster rounds points velocity z a :
  no_faster (req_vel (follow z (demand rounds points velocity z) a)) (req_vel a).
Proof.
  unfold follow. destruct (demand rounds points velocity z) as [v|] eqn:Hd; [|by left].
  case_bool_decide as Hs; cbn.
  - right; right. by eapply demand_stop.
  - destruct (velocity_lt v (req_vel a)) eqn:Hlt; [by right; left|by left].
Qed.

Lemma follow_safe rounds points velocity z a d : demand rounds points velocity z = Some d ->
  velocity_lt d (req_vel (follow z (Some d) a)) = false.
Proof.
  intros Hd. unfold follow. case_bool_decide as Hs; cbn; [apply f64_lt_irrefl|].
  destruct (velocity_lt d (req_vel a)) eqn:Hlt; [apply f64_lt_irrefl|done].
Qed.

Lemma follow_origin z d a : follow z d a = a \/
  d = Some (req_vel (follow z d a)) /\ action_type (follow z d a) = action_type_ (parameters_ z) /\
  polygon_name (follow z d a) = polygon_name_ z.
Proof.
  unfold follow. destruct d as [v|]; [|by left]. case_bool_decide as Hs; [by right|].
  destruct (velocity_lt v (req_vel a)); [by right|by left].
Qed.

(** Actions of the type [STOP] have the velocity zero. *)
Definition stops (a : Action) : Prop := action_type a = STOP -> req_vel a = zero_velocity.

Lemma follow_stops rounds points velocity z a : stops a -> stops (follow z (demand rounds points velocity z) a).
Proof.
  intros Ha. destruct (follow_origin z (demand rounds points velocity z) a) as [-> |(Hd & Ht & _)]; [done|].
  intros Hs. rewrite Ht in Hs. by eapply demand_stop.
Qed.

(** The zones that take part. *)
Definition active (on : bool) (z : zone) : Prop := Zones.enabled_ z = true /\ on = true.

Lemma process_zones_safest rounds on velocity points l : forall r l' r', stops (fst r) ->
  process_zones rounds on l points velocity r = Ok (l', r') ->
  stops (fst r') /\ no_faster (req_vel (fst r')) (req_vel (fst r)) /\
  (forall z d, z ∈ l -> active on z -> demand rounds points velocity (updatePolygon velocity z) = Some d ->
     velocity_lt d (req_vel (fst r')) = false) /\
  (fst r' = fst r \/ exists z, z ∈ l /\ active on z /\
     demand rounds points velocity (updatePolygon velocity z) = Some (req_vel (fst r')) /\
     action_type (fst r') = action_type_ (parameters_ (updatePolygon velocity z)) /\
     polygon_name (fst r') = polygon_name_ (updatePolygon velocity z)).
Proof.
  induction l as [|z l IH]; intros r l' r' Hst; cbn [process_zones].
  - intros [= <- <-]. split; [done|]. split; [by left|]. split; [|by left]. by intros z d ?%elem_of_nil.
  - destruct (negb (Zones.enabled_ z) || negb on) eqn:Hon.
    + intros ((l1 & r1) & Hrun & [= <- <-])%bind_ok. destruct (IH _ _ _ Hst Hrun) as (G1 & G2 & G3 & G4).
      assert (~ active on z) as Hz by (intros [E1 E2]; by rewrite E1, E2 in Hon).
      split; [done|]. split; [done|]. split.
      * intros z' d [-> |?]%elem_of_cons ?; [done|]. by eapply G3.
      * destruct G4 as [?|(z' & ? & ?)]; [by left|right]. exists z'. split; [by right|done].
    + case_bool_decide as Hstop.
      * intros [= <- <-]. split; [done|]. split; [by left|]. split; [|by left].
        intros z' d _ _ _. rewrite (Hst Hstop). apply not_below_zero.
      * intros (r1 & Hz & ((l2 & r2) & Hrun & [= <- <-])%bind_ok)%bind_ok.
        apply process_zone_follow in Hz. set (z1 := updatePolygon velocity z) in *.
        assert (stops (fst r1)) as Hst1 by (rewrite Hz; by apply follow_stops).
        destruct (IH _ _ _ Hst1 Hrun) as (G1 & G2 & G3 & G4).
        split; [done|]. split.
        { eapply no_faster_trans; [exact G2|]. rewrite Hz. apply follow_no_faster. }
        split.
        -- intros z' d [-> |?]%elem_of_cons Hact Hd; [|by eapply G3]. fold z1 in Hd.
           eapply no_faster_safe; [exact G2|]. rewrite Hz, Hd. by apply (follow_safe rounds points velocity).
        -- apply orb_false_iff in Hon as [E1%negb_false_iff E2%negb_false_iff].
           destruct G4 as [E|(z' & ? & ?)].
           ++ rewrite E, Hz. destruct (follow_origin z1 (demand rounds points velocity z1) (fst r)) as [-> |(? & ? & ?)]; [by left|].
              right. exists z. split; [by left|]. by split.
           ++ right. exists z'. split; [by right|done].
Qed.

(** A stop is final: the loop ends there. *)
Lemma process_zones_stopped rounds on velocity points l : forall r l' r', action_type (fst r) = STOP ->
  process_zones rounds on l points velocity r = Ok (l', r') -> fst r' = fst r.
Proof.
  induction l as [|z l IH]; intros r l' r' Hst; cbn [process_zones]; [by intros [= <- <-]|].
  destruct (negb (Zones.enabled_ z) || negb on).
  - intros ((l1 & r1) & Hrun & [= <- <-])%bind_ok. by eapply IH.
  - rewrite bool_decide_eq_true_2 by done. by intros [= <- <-].
Qed.

Lemma update_parameters velocity z : parameters_ (updatePolygon velocity z) = parameters_ z.
Proof. unfold updatePolygon. repeat case_match; done. Qed.

Lemma process_zones_occupied rounds on velocity points l : forall r l' r',
  process_zones rounds on l points velocity r = Ok (l', r') ->
  (exists z, z ∈ l /\ active on z /\ action_type_ (parameters_ z) = STOP /\ occupied points (updatePolygon velocity z) = true) ->
  action_type (fst r') = STOP.
Proof.
  induction l as [|z l IH]; intros r l' r'; cbn [process_zones].
  - by intros _ (z & []%elem_of_nil & _).
  - destruct (negb (Zones.enabled_ z) || negb on) eqn:Hon.
    + intros ((l1 & r1) & Hrun & [= <- <-])%bind_ok (z' & [-> |Hz']%elem_of_cons & Hact & Hrest); [|by eapply IH; eauto].
      destruct Hact as [E1 E2]. by rewrite E1, E2 in Hon.
    + case_bool_decide as Hstop; [by intros [= <- <-] _|].
      intros (r1 & Hz & ((l2 & r2) & Hrun & [= <- <-])%bind_ok)%bind_ok (z' & [-> |Hz']%elem_of_cons & Hact & Ht & Ho).
      * apply process_zone_follow in Hz. unfold demand in Hz. rewrite update_parameters, Ht, Ho in Hz.
        unfold follow in Hz. rewrite update_parameters, bool_decide_eq_true_2 in Hz by done.
        assert (action_type (fst r1) = STOP) as Hs by (by rewrite Hz).
        by rewrite (process_zones_stopped _ _ _ _ _ _ _ _ Hs Hrun).
      * eapply IH; eauto.
Qed.

(** ** Calls of the monitor *)

Definition start_action (valid : bool) (velocity : Velocity) : Action :=
  if valid then mk_action DO_NOTHING velocity EmptyString else mk_action STOP zero_velocity INVALID_SOURCE.

Lemma process_inv rounds curr_time now velocity m out m' : process_active_ m = true ->
  process rounds curr_time now velocity m = Ok (out, m') ->
  exists sources points valid polygons p,
    collect rounds curr_time (sources_ m) ∅ = Ok (sources, points, valid) /\
    process_zones rounds (Monitor.enabled_ m) (polygons_ m) points velocity (start_action valid velocity, None)
      = Ok (polygons, (robot_action_prev_ m', p)) /\
    cmd_vel_out out = fst (publishVelocity now (robot_action_prev_ m') m).
Proof.
  intros Hact. unfold process. rewrite Hact. cbn [negb].
  intros ([[sources points] valid] & Hc & H1')%bind_ok. apply bind_ok in H1' as ([polygons [a p]] & Hz & H2').
  apply bind_ok in H2' as (st & _ & H3').
  exists sources, points, valid, polygons, p. split; [done|].
  destruct (publishVelocity now a (set_polygons polygons (set_sources sources m))) as [o m1] eqn:Hpub.
  injection H3' as <- <-. split; [exact Hz|]. cbn [cmd_vel_out robot_action_prev_ set_prev].
  change o with (fst (o, m1)). rewrite <- Hpub. unfold publishVelocity.
  cbn [robot_action_prev_ stop_stamp_ stop_pub_timeout_ set_polygons set_sources]. by repeat case_match.
Qed.

Lemma start_stops valid velocity : stops (start_action valid velocity).
Proof. by destruct valid. Qed.

Lemma start_no_faster valid velocity : no_faster (req_vel (start_action valid velocity)) velocity.
Proof. destruct valid; [by left|by right; right]. Qed.

(** C7: the action of a call is the safest one: it is no faster than the command, no enabled zone that is
    triggered demands less, and it is the command itself, the stop of an invalid source, or
    the demand of an enabled zone, whose name and type it reports. *)
Theorem monitor_safest rounds curr_time now velocity m out m' : process_active_ m = true ->
  process rounds curr_time now velocity m = Ok (out, m') ->
  exists sources points valid, collect rounds curr_time (sources_ m) ∅ = Ok (sources, points, valid) /\
    no_faster (req_vel (robot_action_prev_ m')) velocity /\
    (forall z d, z ∈ polygons_ m -> active (Monitor.enabled_ m) z ->
       demand rounds points velocity (updatePolygon velocity z) = Some d ->
       velocity_lt d (req_vel (robot_action_prev_ m')) = false) /\
    (robot_action_prev_ m' = start_action valid velocity \/
     exists z, z ∈ polygons_ m /\ active (Monitor.enabled_ m) z /\
       demand rounds points velocity (updatePolygon velocity z) = Some (req_vel (robot_action_prev_ m')) /\
       action_type (robot_action_prev_ m') = action_type_ (parameters_ (updatePolygon velocity z)) /\
       polygon_name (robot_action_prev_ m') = polygon_name_ (updatePolygon velocity z)).
Proof.
  intros Hact Hp. destruct (process_inv _ _ _ _ _ _ _ Hact Hp) as (sources & points & valid & polygons & p & Hc & Hz & _).
  exists sources, points, valid. split; [done|].
  destruct (process_zones_safest _ _ _ _ _ (start_action valid velocity, None) _ _ (start_stops valid velocity) Hz) as (_ & Hf & Hd & Ho).
  split; [|split; [done|done]]. eapply no_faster_trans; [exact Hf|]. apply start_no_faster.
Qed.

(** C8: if an enabled source with a timeout is invalid, or enough points lie in an enabled zone of
    the type STOP, the action is a stop, and what is published is the velocity zero or nothing. *)
Theorem monitor_stops rounds curr_time now velocity m out m' sources points valid : process_active_ m = true ->
  process rounds curr_time now velocity m = Ok (out, m') ->
  collect rounds curr_time (sources_ m) ∅ = Ok (sources, points, valid) ->
  valid = false \/ (exists z, z ∈ polygons_ m /\ active (Monitor.enabled_ m) z /\ action_type_ (parameters_ z) = STOP /\
    occupied points (updatePolygon velocity z) = true) ->
  action_type (robot_action_prev_ m') = STOP /\ req_vel (robot_action_prev_ m') = zero_velocity /\
  (cmd_vel_out out = None \/ cmd_vel_out out = Some zero_velocity).
Proof.
  intros Hact Hp Hc Hor. destruct (process_inv _ _ _ _ _ _ _ Hact Hp) as (so & po & va & polygons & p & Hc' & Hz & Ho).
  rewrite Hc in Hc'. injection Hc' as <- <- <-.
  destruct (process_zones_safest _ _ _ _ _ (start_action valid velocity, None) _ _ (start_stops valid velocity) Hz) as (Hst & _).
  assert (action_type (robot_action_prev_ m') = STOP) as Ht.
  { destruct Hor as [-> |Hz']; [|by eapply (process_zones_occupied _ _ _ _ _ _ _ _ Hz)].
    assert (action_type (fst (start_action false velocity, @None zone)) = STOP) as Hs by done.
    pose proof (process_zones_stopped _ _ _ _ _ _ _ _ Hs Hz) as E. cbn [fst] in E. by rewrite E. }
  split; [done|]. pose proof (Hst Ht) as Hzero. cbn [fst] in Hzero. split; [done|]. rewrite Ho. unfold publishVelocity.
  rewrite Hzero. change (isZero zero_velocity) with true. cbv iota.
  destruct (isZero _); cbn [negb]; [|by right]. destruct (_ >? _); [by left|by right].
Qed.
End Process.

(** ** What the robot hears *)

Section Trace.
Context `{Durations} `{Mathematics}.

(** The velocity published last, and the monitor: commands, which see any state of the transforms,
    interleave with messages, parameters and transitions of the node. *)
Inductive step : option Velocity * monitor -> option Velocity * monitor -> Prop :=
  | step_command (T : Transforms) rounds curr_time now msg heard m out m' :
      cmdVelInCallbackStamped rounds curr_time now msg m = Ok (out, m') ->
      step (heard, m) (match cmd_vel_out out with Some v => Some v | None => heard end, m')
  | step_toggle b heard m : step (heard, m) (heard, toggleCMServiceCallback b m)
  | step_activate heard m : step (heard, m) (heard, on_activate m)
  | step_deactivate heard m : step (heard, m) (heard, on_deactivate m)
  | step_cleanup heard m : step (heard, m) (heard, on_cleanup m)
  | step_configure (T : Transforms) (N : NodeParameters) (R : NumberReader) priority heard m b m' :
      on_configure priority m = Ok (b, m') -> step (heard, m) (heard, m')
  | step_zone i f heard m : step (heard, m) (heard, on_zone i f m)
  | step_source i f heard m : step (heard, m) (heard, on_source i f m).

(** Equal velocities, or two that stand. *)
Definition agree (v w : Velocity) : Prop := v = w \/ (isZero v = true /\ isZero w = true).

Definition heard_ok (s : option Velocity * monitor) : Prop :=
  robot_action_prev_ (snd s) = no_action \/ exists v, fst s = Some v /\ agree v (req_vel (robot_action_prev_ (snd s))).

Lemma publish_heard now a heard m : heard_ok (heard, m) -> exists v,
  match fst (publishVelocity now a m) with Some v => Some v | None => heard end = Some v /\ agree v (req_vel a).
Proof.
  intros Hok. unfold publishVelocity. destruct (isZero (req_vel a)) eqn:Ha; [|eexists; split; [done|by left]].
  destruct (isZero (req_vel (robot_action_prev_ m))) eqn:Hp; cbn [negb]; [|eexists; split; [done|by left]].
  destruct (_ >? _); [|eexists; split; [done|by left]]. cbn.
  destruct Hok as [E|(v & Hv & Hag)]; cbn in *; [by rewrite E in Hp|].
  exists v. split; [done|]. right. split; [|done]. by destruct Hag as [-> |[? _]].
Qed.

Lemma command_heard `{Transforms} rounds curr_time now msg heard m out m' : heard_ok (heard, m) ->
  cmdVelInCallbackStamped rounds curr_time now msg m = Ok (out, m') -> process_active_ m && validateTwist msg = true ->
  exists v, match cmd_vel_out out with Some v => Some v | None => heard end = Some v /\
    agree v (req_vel (robot_action_prev_ m')).
Proof.
  intros Hok Hrun [Hact Hval]%andb_true_iff. unfold cmdVelInCallbackStamped in Hrun. rewrite Hval in Hrun. cbn [negb] in Hrun.
  destruct (process_inv _ _ _ _ _ _ _ Hact Hrun) as (_ & _ & _ & _ & _ & _ & _ & ->). by apply publish_heard.
Qed.

Lemma configure_prev `{Transforms} `{NodeParameters} `{NumberReader} priority m b m' :
  on_configure priority m = Ok (b, m') -> robot_action_prev_ m' = robot_action_prev_ m.
Proof.
  unfold on_configure. intros E. repeat (apply bind_ok in E as (? & _ & E)).
  repeat (case_match; simplify_eq; try done; repeat (apply bind_ok in E as (? & _ & E))).
Qed.

Lemma step_heard s s' : heard_ok s -> step s s' -> heard_ok s'.
Proof.
  intros Hok Hstep. destruct Hstep; try done; try (by left).
  - destruct (process_active_ m && validateTwist msg) eqn:Hpv.
    + right. destruct (command_heard _ _ _ _ _ _ _ _ Hok H1 Hpv) as (v & ? & ?). by exists v.
    + unfold cmdVelInCallbackStamped in H1. destruct (validateTwist msg); cbn [negb] in H1; [|by injection H1 as <- <-].
      rewrite andb_true_r in Hpv. unfold process in H1. rewrite Hpv in H1. by injection H1 as <- <-.
  - unfold heard_ok in *. cbn [fst snd] in *. by rewrite (configure_prev _ _ _ _ H1).
Qed.

(** C9: the monitor is silent only when the robot stands: in every reachable state, after a valid
    command to the active monitor the velocity that was published last is the one of the current
    action, or both are zero. *)
Theorem monitor_published (T : Transforms) rounds curr_time now msg heard m out m' :
  rtc step (None, Monitor.new) (heard, m) ->
  cmdVelInCallbackStamped rounds curr_time now msg m = Ok (out, m') -> process_active_ m && validateTwist msg = true ->
  exists v, match cmd_vel_out out with Some v => Some v | None => heard end = Some v /\
    agree v (req_vel (robot_action_prev_ m')).
Proof.
  intros Hreach. apply command_heard.
  remember (None, Monitor.new) as s0 eqn:E0. remember (heard, m) as s1 eqn:E1.
  assert (heard_ok s0) as Hok by (subst; by left). clear E0. induction Hreach; subst; [done|].
  apply IHHreach; [done|]. by eapply step_heard.
Qed.
End Trace.

(** ** The time of a collision *)

Section Simulation.
Context `{Mathematics}.

(** The time of the [n]-th test, and the pose and velocity after [n] steps. *)
Definition time_at (dt : f64) (n : nat) : f64 := Nat.iter n (fun t => f64_add t dt) f64_zero.
Definition motion_at (dt : f64) (velocity : Velocity) (n : nat) : Pose * Velocity :=
  Nat.iter n (fun pv => projectState dt (fst pv) (snd pv)) (origin, velocity).

(** Enough of the points are in the zone when the robot has moved [n] steps. *)
Definition meets (z : zone) (velocity : Velocity) (collision_points : list Point) (n : nat) : bool :=
  min_points_ (parameters_ z) <=? getPointsInside z
    (transformPoints (fst (motion_at (simulation_time_step_ (parameters_ z)) velocity n)) collision_points).

Lemma simulate_spec z velocity points rounds : forall k t,
  let dt := simulation_time_step_ (parameters_ z) in
  simulate rounds (time_at dt k) (fst (motion_at dt velocity k)) (snd (motion_at dt velocity k)) points z = Ok t ->
  (exists n, (k <= n)%nat /\ t = time_at dt n /\ f64_le t (time_before_collision_ (parameters_ z)) = true /\
     meets z velocity points (S n) = true /\ forall j, (k <= j < n)%nat -> meets z velocity points (S j) = false) \/
  (exists n, (k <= n)%nat /\ t = minus_one /\ f64_le (time_at dt n) (time_before_collision_ (parameters_ z)) = false /\
     forall j, (k <= j < n)%nat -> meets z velocity points (S j) = false).
Proof.
  induction rounds as [|rounds IH]; intros k t dt; cbn [simulate];
    destruct (f64_le (time_at dt k) _) eqn:Hle; try done.
  1,3: intros [= <-]; right; exists k; split; [done|]; split; [done|]; split; [done|lia].
  change (simulation_time_step_ (parameters_ z)) with dt.
  assert (projectState dt (fst (motion_at dt velocity k)) (snd (motion_at dt velocity k)) = motion_at dt velocity (S k)) as E by done.
  rewrite E. destruct (motion_at dt velocity (S k)) as [p v] eqn:Hm.
  assert ((min_points_ (parameters_ z) <=? getPointsInside z (transformPoints p points)) = meets z velocity points (S k)) as E'
    by (unfold meets; fold dt; by rewrite Hm).
  rewrite E'. destruct (meets z velocity points (S k)) eqn:Hmeet.
  - intros [= <-]. left. exists k. split; [done|]. split; [done|]. split; [done|]. split; [done|lia].
  - intros Hrun. specialize (IH (S k) t). cbv zeta in IH. fold dt in IH. rewrite Hm in IH. cbn [fst snd] in IH.
    destruct (IH Hrun) as [(n & Hn & Ht & Hl & Hmt & Hno)|(n & Hn & Ht & Hl & Hno)].
    + left. exists n. split; [lia|]. split; [done|]. split; [done|]. split; [done|].
      intros j Hj. destruct (decide (j = k)) as [->|]; [done|]. apply Hno. lia.
    + right. exists n. split; [lia|]. split; [done|]. split; [done|].
      intros j Hj. destruct (decide (j = k)) as [->|]; [done|]. apply Hno. lia.
Qed.

Lemma simulate_ends z velocity points rounds : forall k,
  let dt := simulation_time_step_ (parameters_ z) in
  f64_le (time_at dt (k + rounds)) (time_before_collision_ (parameters_ z)) = false ->
  exists t, simulate rounds (time_at dt k) (fst (motion_at dt velocity k)) (snd (motion_at dt velocity k)) points z = Ok t.
Proof.
  induction rounds as [|rounds IH]; intros k dt Hend; cbn [simulate].
  - rewrite Nat.add_0_r in Hend. rewrite Hend. eauto.
  - destruct (f64_le (time_at dt k) _); [|eauto]. change (simulation_time_step_ (parameters_ z)) with dt.
    destruct (projectState dt _ _) as [p v] eqn:Hm. destruct (_ <=? _); [eauto|].
    specialize (IH (S k)). cbv zeta in IH. fold dt in IH.
    assert (motion_at dt velocity (S k) = (p, v)) as E by exact Hm. rewrite E in IH. cbn [fst snd] in IH.
    apply IH. by rewrite Nat.add_succ_comm.
Qed.

(** when the added time steps pass the limit within [rounds], [getCollisionTime] returns: 0 if
    enough points are in the zone already, otherwise the time of the first simulated step at
    which they are, which is within the limit, and -1 if no step before the limit is such. *)
Theorem collision_time rounds m velocity z :
  let dt := simulation_time_step_ (parameters_ z) in
  let points := mjoin (source_points z m) in
  f64_le (time_at dt rounds) (time_before_collision_ (parameters_ z)) = false ->
  exists t, getCollisionTime rounds m velocity z = Ok t /\
    if min_points_ (parameters_ z) <=? getPointsInside z points then t = f64_zero else
    (exists n, t = time_at dt n /\ f64_le t (time_before_collision_ (parameters_ z)) = true /\
       meets z velocity points (S n) = true /\ forall j, (j < n)%nat -> meets z velocity points (S j) = false) \/
    (t = minus_one /\ exists n, f64_le (time_at dt n) (time_before_collision_ (parameters_ z)) = false /\
       forall j, (j < n)%nat -> meets z velocity points (S j) = false).
Proof.
  cbv zeta. intros Hend. unfold getCollisionTime. destruct (_ <=? _); [eauto|].
  destruct (simulate_ends z velocity (mjoin (source_points z m)) rounds 0 Hend) as [t Ht].
  exists t. split; [exact Ht|]. destruct (simulate_spec z velocity (mjoin (source_points z m)) rounds 0 t Ht)
    as [(n & _ & ? & ? & ? & Hno)|(n & _ & ? & ? & Hno)].
  - left. exists n. split; [done|]. split; [done|]. split; [done|]. intros j Hj. apply Hno. lia.
  - right. split; [done|]. exists n. split; [done|]. intros j Hj. apply Hno. lia.
Qed.
End Simulation.

(** ** Rectangles *)

(** Coordinates of less than about a billion. *)
Definition moderate (v : f64) : Prop := fin 53 1024 v = true /\ Z.abs (sunits 53 1024 v) <= 2 ^ 1104.

Lemma moderate_sub a b : moderate a -> moderate b -> fin 53 1024 (f64_sub a b) = true.
Proof.
  intros [Fa Ba] [Fb Bb]. unfold f64_sub. change f64_prec with 53. change f64_emax with 1024. rewrite sub_add.
  destruct (opp_fin 53 1024 b) as [Fo Uo].
  destruct (add_between 53 1024 ltac:(lia) ltac:(lia) a (SFopp b) (- 2 ^ 1105) (2 ^ 1105)) as [Fs _];
    [done|by rewrite Fo|by vm_compute..| |done].
  rewrite Uo. change (2 ^ 1105) with (2 * 2 ^ 1104). lia.
Qed.

Lemma fin_zero v : fin 53 1024 v = true -> sunits 53 1024 v = 0 -> exists s, v = S754_zero s.
Proof.
  destruct v as [s| | |s m e]; cbn; intros Hf Hu; try done; [eauto|].
  assert (0 < Zpos m * 2 ^ (e - SpecFloat.emin 53 1024)) as Hp; [|destruct s; cbn in Hu; lia].
  destruct (bounded_mantissa 53 1024 ltac:(lia) ltac:(lia) m e Hf) as ([? ?] & _).
  apply Z.mul_pos_pos; [lia|]. apply Z.pow_pos_nonneg; lia.
Qed.

Lemma sub_self v : fin 53 1024 v = true -> exists s, f64_sub v v = S754_zero s.
Proof.
  intros Hf. unfold f64_sub. change f64_prec with 53. change f64_emax with 1024. rewrite sub_add.
  destruct (opp_fin 53 1024 v) as [Fo Uo].
  destruct (add_between 53 1024 ltac:(lia) ltac:(lia) v (SFopp v) 0 0) as [Fs Bs];
    [done|by rewrite Fo|by vm_compute..|lia|].
  change (sround 53 0) with 0 in Bs. apply fin_zero; [done|lia].
Qed.

Lemma sub_nonzero a b : moderate a -> moderate b -> f64_lt a b = true ->
  fin 53 1024 (f64_sub a b) = true /\ sunits 53 1024 (f64_sub a b) <> 0.
Proof.
  intros Ma Mb Hlt. split; [by apply moderate_sub|]. destruct Ma as [Fa Ba], Mb as [Fb Bb].
  unfold f64_lt in Hlt. rewrite (ltb_sunits 53 1024 ltac:(lia) ltac:(lia)) in Hlt by done. apply Z.ltb_lt in Hlt.
  unfold f64_sub. change f64_prec with 53. change f64_emax with 1024. rewrite sub_add.
  destruct (opp_fin 53 1024 b) as [Fo Uo].
  destruct (add_between 53 1024 ltac:(lia) ltac:(lia) a (SFopp b) (- 2 ^ 1105) (-1)) as [_ Bs];
    [done|by rewrite Fo|by vm_compute..| |].
  - rewrite Uo. change (2 ^ 1105) with (2 * 2 ^ 1104). lia.
  - change (sround 53 (-1)) with (-1) in Bs. lia.
Qed.

(** The intersection with a vertical edge is on the edge. *)
Lemma vertical_edge v u a b px : moderate v -> moderate u -> moderate a -> moderate b -> moderate px ->
  f64_lt a b = true \/ f64_lt b a = true ->
  f64_lt px (f64_add v (f64_div (f64_mul (f64_sub u a) (f64_sub v v)) (f64_sub b a))) = f64_lt px v.
Proof.
  intros Mv Mu Ma Mb Mp Hab. destruct (sub_self v (proj1 Mv)) as [s Hs]. rewrite Hs.
  assert (exists s', f64_mul (f64_sub u a) (S754_zero s) = S754_zero s') as [s1 ->].
  { pose proof (moderate_sub u a Mu Ma) as Hf. unfold f64_mul. destruct (f64_sub u a) as [| | |]; try done; cbn; eauto. }
  assert (fin 53 1024 (f64_sub b a) = true /\ sunits 53 1024 (f64_sub b a) <> 0) as [Fd Nd].
  { destruct Hab as [Hab|Hab]; [|by apply sub_nonzero]. split; [by apply moderate_sub|].
    destruct (sub_nonzero a b Ma Mb Hab) as [_ Hn]. revert Hn. unfold f64_sub. change f64_prec with 53. change f64_emax with 1024.
    destruct Ma as [Fa Ba], Mb as [Fb Bb]. unfold f64_lt in Hab.
    rewrite (ltb_sunits 53 1024 ltac:(lia) ltac:(lia)) in Hab by done. apply Z.ltb_lt in Hab.
    intros _. rewrite sub_add. destruct (opp_fin 53 1024 a) as [Fo Uo].
    destruct (add_between 53 1024 ltac:(lia) ltac:(lia) b (SFopp a) 1 (2 ^ 1105)) as [_ Bs];
      [done|by rewrite Fo|by vm_compute..| |].
    - rewrite Uo. change (2 ^ 1105) with (2 * 2 ^ 1104). lia.
    - change (sround 53 1) with 1 in Bs. lia. }
  assert (exists s2, f64_div (S754_zero s1) (f64_sub b a) = S754_zero s2) as [s2 ->].
  { unfold f64_div. destruct (f64_sub b a) as [| | |]; try done; cbn; eauto. }
  destruct Mv as [Fv _], Mp as [Fp _]. unfold f64_lt, f64_add. change f64_prec with 53. change f64_emax with 1024.
  destruct v as [[]| | |s3 m e]; try done; by destruct s2.
Qed.

(** An edge parallel to the ray does not count. *)
Lemma horizontal_edge a b : moderate a -> moderate b -> Bool.eqb (f64_le a b) (f64_lt b a) = false.
Proof.
  intros [Fa _] [Fb _]. unfold f64_le, f64_lt. rewrite (ltb_sunits 53 1024), (leb_sunits 53 1024) by (done || lia).
  destruct (Z.ltb_spec (sunits 53 1024 b) (sunits 53 1024 a)), (Z.leb_spec (sunits 53 1024 a) (sunits 53 1024 b)); (done || lia).
Qed.

(** The zone given by the corners of a rectangle. *)
Definition rectangle (x0 y0 x1 y1 : f64) : list Point :=
  [mk_point x0 y0; mk_point x1 y0; mk_point x1 y1; mk_point x0 y1].

(** the zone of a rectangle holds exactly the points from its left to its right side and above its lower
    up to its upper side; the right and the lower side are not part of it. *)
Theorem polygon_rectangle x0 y0 x1 y1 p :
  Forall moderate [x0; y0; x1; y1; x p; y p] -> f64_lt x0 x1 = true -> f64_lt y0 y1 = true ->
  isPointInside p (rectangle x0 y0 x1 y1) =
    f64_le x0 (x p) && f64_lt (x p) x1 && f64_lt y0 (y p) && f64_le (y p) y1.
Proof.
  intros HF Hx Hy. repeat (apply list.Forall_cons in HF as [? HF]).
  unfold isPointInside, rectangle. cbn [list.last cast_ray]. unfold crosses. cbn [x y].
  rewrite (vertical_edge x0) by (done || by right). rewrite (vertical_edge x1) by (done || by left).
  rewrite !horizontal_edge by done. cbn [andb].
  repeat match goal with Hm : moderate _ |- _ => destruct Hm as [Hm _] end.
  unfold f64_le, f64_lt in *. rewrite !(ltb_sunits 53 1024), !(leb_sunits 53 1024) in * by (done || lia).
  apply Z.ltb_lt in Hx, Hy.
  repeat match goal with |- context [?a <? ?b] => destruct (Z.ltb_spec a b) | |- context [?a <=? ?b] => destruct (Z.leb_spec a b) end;
    cbn; (lia || done).
Qed.

(** ** A robot in front of a wall

    Angles are small enough for sine and angle to agree, all frames are the same, and numbers are
    digits. A scan sees the point (1, 2), which lies in a stop zone. *)

Definition small_angles : Mathematics := {|
  cos := fun _ => f64_of_Z 1; sin := fun a => a;
  cosf := fun _ => f32_of_Z 1; sinf := fun a => a;
  atan2 := fun b _ => b;
  hypot := fun a b => f64_sqrt (f64_add (f64_mul a a) (f64_mul b b));
  hypotf := fun a b => f32_of_f64 (f64_sqrt (f64_add (f64_mul (f64_of_f32 a) (f64_of_f32 a)) (f64_mul (f64_of_f32 b) (f64_of_f32 b)))) |}.

Definition one_frame : Transforms := {|
  transform := unit; identity := tt; apply := fun _ p => p; transform_polygon := fun _ l => l;
  latest := fun _ _ => Some tt; between_times := fun _ _ _ _ _ => Some tt; robot_pose := fun _ _ _ => None |}.

Definition nanoseconds : Durations := {|
  from_seconds := fun v => match f64_trunc (f64_mul v (f64_of_Z 1000000000)) with Some z => z | None => 0 end;
  seconds := fun z => f64_div (f64_of_Z z) (f64_of_Z 1000000000) |}.

(** A zone of the given action type. *)
Definition demo_parameters (action : string) : NodeParameters := fun name =>
  let named s := String.eqb name s in
  if named "polygons"%string then Some (PARAMETER_STRING_ARRAY ["zone"%string])
  else if named "zone.type"%string then Some (PARAMETER_STRING "polygon")
  else if named "zone.points"%string then Some (PARAMETER_STRING "[[0,1],[2,1],[2,3],[0,3]]")
  else if named "zone.action_type"%string then Some (PARAMETER_STRING action)
  else if named "zone.min_points"%string then Some (PARAMETER_INTEGER 1)
  else if named "observation_sources"%string then Some (PARAMETER_STRING_ARRAY ["scan"%string])
  else None.

Definition demo_scan : LaserScan :=
  mk_scan "base" 5 (f32_of_Z 2) (f32_of_Z 0) (f32_of_Z 0) (f32_of_Z 9) [f32_of_Z 1].

Definition configured (action : string) : monitor :=
  match on_configure (H := nanoseconds) (H0 := small_angles) (H2 := demo_parameters action)
    (H3 := ArrayParser.digits_reader) true Monitor.new with
  | Ok (_, m) => m
  | _ => Monitor.new
  end.

Definition demo_monitor (action : string) : monitor := on_activate (configured action).
Definition demo_ready (action : string) : monitor := on_source 0 (scan_callback demo_scan) (demo_monitor action).

Definition forward : Velocity := mk_velocity (f64_of_Z 1) f64_zero f64_zero.
Definition demo_run (m : monitor) : res (output * monitor) :=
  process (H := nanoseconds) (H0 := small_angles) (H1 := one_frame) 30 7 8 forward m.

Definition output_of (r : res (output * monitor)) : output := match r with Ok (o, _) => o | _ => silent end.
Definition state_of (r : res (output * monitor)) : monitor := match r with Ok (_, m) => m | _ => Monitor.new end.

Lemma demo_run_ok action : action = "stop"%string \/ action = "slowdown"%string \/ action = "approach"%string ->
  demo_run (demo_ready action) = Ok (output_of (demo_run (demo_ready action)), state_of (demo_run (demo_ready action))).
Proof. intros [-> | [-> | ->]]; by vm_compute. Qed.

Lemma monitor_safest_witness : exists m', demo_run (demo_ready "slowdown") = Ok (mk_output
    (Some (velocity_mul forward half)) None, m') /\
  no_faster (req_vel (robot_action_prev_ m')) forward.
Proof.
  pose proof (demo_run_ok "slowdown" (or_intror (or_introl eq_refl))) as Hrun.
  exists (state_of (demo_run (demo_ready "slowdown"))).
  split; [vm_compute; reflexivity|].
  destruct (monitor_safest (H := nanoseconds) (H0 := small_angles) (H1 := one_frame) 30 7 8 forward (demo_ready "slowdown") _ _
    ltac:(vm_compute; reflexivity) Hrun) as (_ & _ & _ & _ & Hf & _). exact Hf.
Defined.

Lemma monitor_stops_witness : exists m', demo_run (demo_ready "stop") = Ok (mk_output (Some zero_velocity) None, m') /\
  action_type (robot_action_prev_ m') = STOP.
Proof.
  pose proof (demo_run_ok "stop" (or_introl eq_refl)) as Hrun.
  exists (state_of (demo_run (demo_ready "stop"))). split; [vm_compute; reflexivity|].
  destruct (collect (H := nanoseconds) (H0 := small_angles) (H1 := one_frame) 30 7 (sources_ (demo_ready "stop")) ∅)
    as [[[sources points] valid]|e|] eqn:Hc; [|vm_compute in Hc; discriminate Hc..].
  assert (points = {[ "scan"%string := [mk_point (f64_of_Z 1) (f64_of_Z 2)] ]}) as ->
    by (vm_compute in Hc; injection Hc as _ <- _; vm_compute; reflexivity).
  destruct (monitor_stops (H := nanoseconds) (H0 := small_angles) (H1 := one_frame) 30 7 8 forward (demo_ready "stop") _ _
    sources _ valid ltac:(vm_compute; reflexivity) Hrun Hc) as (Ht & _); [|exact Ht].
  right. exists (List.hd (Zones.new EmptyString EmptyString POLYGON) (polygons_ (demo_ready "stop"))).
  split; [apply elem_of_cons; left; vm_compute; reflexivity|]. split; [split; vm_compute; reflexivity|].
  split; vm_compute; reflexivity.
Defined.

Lemma monitor_published_witness : exists v, agree v zero_velocity /\
  cmd_vel_out (output_of (demo_run (demo_ready "stop"))) = Some v.
Proof.
  destruct (monitor_published (H := nanoseconds) (H0 := small_angles) one_frame 30 7 8
    (mk_twist (f64_of_Z 1, f64_zero, f64_zero) (f64_zero, f64_zero, f64_zero)) None (demo_ready "stop")
    (output_of (demo_run (demo_ready "stop"))) (state_of (demo_run (demo_ready "stop")))) as (v & Hv & Hag).
  - eapply rtc_l; [|eapply rtc_l; [|eapply rtc_l; [|apply rtc_refl]]].
    + apply (step_configure one_frame (demo_parameters "stop") ArrayParser.digits_reader true None Monitor.new true (configured "stop")).
      vm_compute. reflexivity.
    + apply step_activate.
    + apply step_source.
  - apply (demo_run_ok "stop"). left. reflexivity.
  - vm_compute. reflexivity.
  - exists v. split.
    + replace zero_velocity with (req_vel (robot_action_prev_ (state_of (demo_run (demo_ready "stop"))))); [exact Hag|].
      vm_compute. reflexivity.
    + rewrite <- Hv. vm_compute. reflexivity.
Defined.

Definition demo_zone (action : string) : zone :=
  match polygons_ (configured action) with z :: _ => z | [] => Zones.new EmptyString EmptyString POLYGON end.
Definition seen (px py : Z) : gmap string (list Point) := {[ "scan"%string := [mk_point (f64_of_Z px) (f64_of_Z py)] ]}.

(** The point at (3, 2) is in the zone after a second: the test that finds it is the one
    at the time 1, which looks one step ahead. *)
Lemma collision_time_witness : exists t,
  getCollisionTime (H := small_angles) 30 (seen 3 2) forward (demo_zone "approach") = Ok t /\ f64_le t (f64_of_Z 1) = true /\
  f64_lt f64_zero t = true.
Proof.
  destruct (collision_time (H := small_angles) 30 (seen 3 2) forward (demo_zone "approach")) as (t & Ht & _);
    [vm_compute; reflexivity|].
  exists t. split; [exact Ht|]. vm_compute in Ht. injection Ht as <-. split; vm_compute; reflexivity.
Defined.

Lemma demo_moderate z : z = 0 \/ z = 1 \/ z = 2 \/ z = 4 -> moderate (f64_of_Z z).
Proof.
  intros Hz. split; [destruct Hz as [-> | [-> | [-> | ->]]]; by vm_compute|]. apply Z.leb_le.
  destruct Hz as [-> | [-> | [-> | ->]]]; by vm_compute.
Qed.

Lemma polygon_rectangle_witness : exists l, l = rectangle (f64_of_Z 0) (f64_of_Z 0) (f64_of_Z 4) (f64_of_Z 2) /\
  isPointInside (mk_point (f64_of_Z 1) (f64_of_Z 2)) l = true.
Proof.
  eexists. split; [reflexivity|].
  rewrite (polygon_rectangle (f64_of_Z 0) (f64_of_Z 0) (f64_of_Z 4) (f64_of_Z 2) (mk_point (f64_of_Z 1) (f64_of_Z 2))).
  - vm_compute. reflexivity.
  - repeat (apply list.Forall_cons; split; [apply demo_moderate; lia|]). apply list.Forall_nil. exact I.
  - vm_compute. reflexivity.
  - vm_compute. reflexivity.
Defined.

(** ** Zones that protect less than they seem to *)

(** [Polygon::updatePolygon] ignores the result of [getFootprintInRobotFrame]. While no footprint has
    arrived the zone has no shape and is skipped; a footprint whose frame cannot be related
    to the robot is taken as it is, in its own frame. *)
Definition footprint_zone (sub : option footprint_msg) : zone := set_footprint (Some sub) (demo_zone "approach").

Example no_footprint_no_protection :
  isShapeSet (updatePolygon (H := small_angles) (H0 := one_frame) forward (footprint_zone None)) = false.
Proof. by vm_compute. Qed.

Example footprint_of_another_frame :
  let far := Footprint.mk_point32 (f32_of_Z 50) (f32_of_Z 60) f64_zero in
  poly_ (updatePolygon (H := small_angles) (H0 := one_frame) forward
    (footprint_zone (Some (mk_footprint "map" 0 [far])))) = [mk_point (f64_of_Z 50) (f64_of_Z 60)].
Proof. by vm_compute. Qed.

(** A triangle is refused with the message that at least three points are needed. *)
Example triangle_refused :
  getPolygonFromString (H2 := ArrayParser.digits_reader) "[[0,1],[2,1],[2,3]]" [] = (false, []).
Proof. by vm_compute. Qed.

(** A polygon source whose data is out of date is valid once more, without any point; only the
    next call fails. *)
Definition old_polygon (timeout : Z) : source :=
  mk_source "s" "base" "odom" timeout true true
    (POLYGON_SOURCE (f64_of_Z 1) [mk_instance "base" 0 1 [Footprint.mk_point32 (f32_of_Z 1) (f32_of_Z 1) f64_zero]]).

Definition look (now : Z) (s : source) : res (bool * list Point * source) :=
  getData (H := nanoseconds) (H0 := small_angles) (H1 := one_frame) 1 now s.

Example stale_polygon_is_valid :
  match look 9 (old_polygon 5) with
  | Ok (ok, l, s) => ok = true /\ l = [] /\ match look 9 s with Ok (ok, _, _) => ok = false | _ => False end
  | _ => False
  end.
Proof. by vm_compute. Qed.

(** With the timeout 0, which means no timeout for the other sources, every polygon of the past is
    dropped. *)
Example polygon_without_timeout :
  match look 9 (old_polygon 0) with Ok (ok, l, _) => ok = true /\ l = [] | _ => False end.
Proof. by vm_compute. Qed.

(** A disabled monitor still stops the robot when a source is invalid. *)
Example disabled_monitor_stops :
  cmd_vel_out (output_of (demo_run (toggleCMServiceCallback false (demo_monitor "stop")))) = Some zero_velocity /\
  cmd_vel_out (output_of (demo_run (toggleCMServiceCallback false (demo_ready "stop")))) = Some forward.
Proof. by vm_compute. Qed.

(** The detector never chooses the polygon of a velocity: such a zone detects nothing. *)
Example detector_velocity_polygon :
  let square := poly_ (demo_zone "none") in
  let sub := mk_sub_polygon square "any" minus_one (f64_of_Z 1) minus_one (f64_of_Z 1) f64_zero f64_zero in
  let z := set_shape (VELOCITY_POLYGON false [sub]) (set_poly [] (demo_zone "none")) in
  getPointsInside (demo_zone "none") [mk_point (f64_of_Z 1) (f64_of_Z 2)] = 1 /\
  Detector.detections [z] [mk_point (f64_of_Z 1) (f64_of_Z 2)] = [("zone"%string, false)].
Proof. by vm_compute. Qed.
End CollisionLaws.
