(* ===== verification/Inflation.v ===== *)
(** * The inflation layer ([nav2_costmap_2d/inflation_layer.hpp], [plugins/inflation_layer.cpp])

    Costs fall off with the distance to the nearest obstacle. A wave starts at the obstacles;
    cells wait in bins by the distance to the obstacle the wave came from, and the first visit
    of a cell decides its cost. Distances and costs within the inflation radius are tabulated. The
    mutex and the log are left out. *)

From stdpp Require Import base option list numbers sorting strings.
From Stdlib Require Import ZArith Lia SpecFloat String.
From S2P Require Import Prelude Float64 Costmap CostmapLayer Parameters.

(** [hypot] and [exp] of the C++ library. *)
Class Falloff : Type := {
  hypot : f64 -> f64 -> f64;
  exp : f64 -> f64 }.

Module Inflation.
Import Costmap CostmapLayer.

Record CellData : Type := mk_cell { x_ : Z; y_ : Z; src_x_ : Z; src_y_ : Z }.

Record inflation : Type := mk_inflation {
  enabled_ : bool;
  current_ : bool;
  inflation_radius_ : f64; inscribed_radius_ : f64; cost_scaling_factor_ : f64;
  inflate_unknown_ : bool; inflate_around_unknown_ : bool;
  cell_inflation_radius_ : Z; cached_cell_inflation_radius_ : Z;
  inflation_cells_ : list (list CellData);
  resolution_ : f64;
  seen_ : list bool;
  cached_costs_ : list Z;
  cached_distances_ : list f64;
  distance_matrix_ : list (list Z);
  cache_length_ : Z;
  last_ : bounds;
  need_reinflation_ : bool }.

Definition set_flags en cur need (s : inflation) : inflation :=
  mk_inflation en cur (inflation_radius_ s) (inscribed_radius_ s) (cost_scaling_factor_ s) (inflate_unknown_ s)
    (inflate_around_unknown_ s) (cell_inflation_radius_ s) (cached_cell_inflation_radius_ s) (inflation_cells_ s)
    (resolution_ s) (seen_ s) (cached_costs_ s) (cached_distances_ s) (distance_matrix_ s) (cache_length_ s) (last_ s) need.
Definition set_unknown unk around (s : inflation) : inflation :=
  mk_inflation (enabled_ s) (current_ s) (inflation_radius_ s) (inscribed_radius_ s) (cost_scaling_factor_ s) unk
    around (cell_inflation_radius_ s) (cached_cell_inflation_radius_ s) (inflation_cells_ s)
    (resolution_ s) (seen_ s) (cached_costs_ s) (cached_distances_ s) (distance_matrix_ s) (cache_length_ s) (last_ s)
    (need_reinflation_ s).
Definition set_radii radius inscribed scaling (s : inflation) : inflation :=
  mk_inflation (enabled_ s) (current_ s) radius inscribed scaling (inflate_unknown_ s)
    (inflate_around_unknown_ s) (cell_inflation_radius_ s) (cached_cell_inflation_radius_ s) (inflation_cells_ s)
    (resolution_ s) (seen_ s) (cached_costs_ s) (cached_distances_ s) (distance_matrix_ s) (cache_length_ s) (last_ s)
    (need_reinflation_ s).
Definition set_cells_radius resol r (s : inflation) : inflation :=
  mk_inflation (enabled_ s) (current_ s) (inflation_radius_ s) (inscribed_radius_ s) (cost_scaling_factor_ s) (inflate_unknown_ s)
    (inflate_around_unknown_ s) r (cached_cell_inflation_radius_ s) (inflation_cells_ s)
    resol (seen_ s) (cached_costs_ s) (cached_distances_ s) (distance_matrix_ s) (cache_length_ s) (last_ s)
    (need_reinflation_ s).
Definition set_caches cached bins costs distances matrix len (s : inflation) : inflation :=
  mk_inflation (enabled_ s) (current_ s) (inflation_radius_ s) (inscribed_radius_ s) (cost_scaling_factor_ s) (inflate_unknown_ s)
    (inflate_around_unknown_ s) (cell_inflation_radius_ s) cached bins
    (resolution_ s) (seen_ s) costs distances matrix len (last_ s) (need_reinflation_ s).
Definition set_seen l (s : inflation) : inflation :=
  mk_inflation (enabled_ s) (current_ s) (inflation_radius_ s) (inscribed_radius_ s) (cost_scaling_factor_ s) (inflate_unknown_ s)
    (inflate_around_unknown_ s) (cell_inflation_radius_ s) (cached_cell_inflation_radius_ s) (inflation_cells_ s)
    (resolution_ s) l (cached_costs_ s) (cached_distances_ s) (distance_matrix_ s) (cache_length_ s) (last_ s)
    (need_reinflation_ s).
Definition set_bins l (s : inflation) : inflation :=
  mk_inflation (enabled_ s) (current_ s) (inflation_radius_ s) (inscribed_radius_ s) (cost_scaling_factor_ s) (inflate_unknown_ s)
    (inflate_around_unknown_ s) (cell_inflation_radius_ s) (cached_cell_inflation_radius_ s) l
    (resolution_ s) (seen_ s) (cached_costs_ s) (cached_distances_ s) (distance_matrix_ s) (cache_length_ s) (last_ s)
    (need_reinflation_ s).
Definition set_last b need (s : inflation) : inflation :=
  mk_inflation (enabled_ s) (current_ s) (inflation_radius_ s) (inscribed_radius_ s) (cost_scaling_factor_ s) (inflate_unknown_ s)
    (inflate_around_unknown_ s) (cell_inflation_radius_ s) (cached_cell_inflation_radius_ s) (inflation_cells_ s)
    (resolution_ s) (seen_ s) (cached_costs_ s) (cached_distances_ s) (distance_matrix_ s) (cache_length_ s) b need.

(** The limits of [double]. *)
Definition DOUBLE_MAX : f64 := S754_finite false 9007199254740991 971.
Definition DOUBLE_LOWEST : f64 := S754_finite true 9007199254740991 971.
Definition everything : bounds := mk_bounds DOUBLE_LOWEST DOUBLE_LOWEST DOUBLE_MAX DOUBLE_MAX.

Definition new : inflation :=
  mk_inflation false false f64_zero f64_zero f64_zero false false 0 0 [] f64_zero [] [] [] [] 0 everything false.

(** ** Tables *)

Section Tables.
Context `{Falloff}.

Definition computeCost (distance : f64) (s : inflation) : res Z :=
  if f64_eq distance f64_zero then Ok LETHAL_OBSTACLE
  else if f64_le (f64_mul distance (resolution_ s)) (inscribed_radius_ s) then Ok INSCRIBED_INFLATED_OBSTACLE
  else
    let factor := exp (f64_mul (f64_mul (f64_of_Z (-1)) (cost_scaling_factor_ s))
                         (f64_sub (f64_mul distance (resolution_ s)) (inscribed_radius_ s))) in
    f64_to_uint 8 (f64_mul (f64_of_Z (INSCRIBED_INFLATED_OBSTACLE - 1)) factor).

Definition norm2 (p : Z * Z) : Z := fst p * fst p + snd p * snd p.

(** The points of a disc, by rows. *)
Definition disc (r : Z) : list (Z * Z) :=
  y ← seqZ (- r) (2 * r + 1);
  x ← seqZ (- r) (2 * r + 1);
  if norm2 (x, y) <=? r * r then [(x, y)] else [].

(** The order of the comparison function; points of equal distance may come in any order. *)
Definition nearer (a b : Z * Z) : Prop := norm2 a <= norm2 b.

#[export] Instance nearer_dec : RelDecision nearer.
Proof. intros a b. unfold nearer. apply _. Defined.

(** Points of different distances get different levels, in increasing order. *)
Definition put_level (r : Z) (p : Z * Z) (m : list (list Z) * ((Z * Z) * Z)) : res (list (list Z) * ((Z * Z) * Z)) :=
  let '(matrix, (last, level)) := m in
  let level := if negb (norm2 p =? norm2 last) then level + 1 else level in
  row ← aget matrix (fst p + r);
  row ← aset row (snd p + r) level;
  matrix ← aset matrix (fst p + r) row;
  Ok (matrix, (p, level)).

(** The level of each point, and the largest level. The squares must not overflow. *)
Definition generateIntegerDistances (R : Z) : res (list (list Z) * Z) :=
  let r := wraps 32 (wrapu 32 (R + 2)) in
  _ ← chk 32 (r * r + r * r);
  let size := Z.to_nat (2 * r + 1) in
  '(matrix, (_, level)) ← for_list (put_level r) (merge_sort nearer (disc r))
                            (replicate size (replicate size 0), ((0, 0), 0));
  Ok (matrix, level).

(** [hypot] at the corners of the cells, by rows. *)
Definition distance_table (len : Z) : list f64 :=
  i ← seqZ 0 len; (fun j => hypot (f64_of_Z i) (f64_of_Z j)) <$> seqZ 0 len.

(** The tables of distances and costs are resized when the radius changes; costs are computed anew. *)
Definition compute_cost (s : inflation) (distances : list f64) (i : Z) (costs : list Z) : res (list Z) :=
  d ← aget distances i; c ← computeCost d s; aset costs i c.
Definition computeCaches (s : inflation) : res inflation :=
  let R := cell_inflation_radius_ s in
  if R =? 0 then Ok s else
  let len := wrapu 32 (R + 2) in
  let size := Z.to_nat (wrapu 32 (len * len)) in
  let changed := negb (R =? cached_cell_inflation_radius_ s) in
  let distances := if changed then distance_table len else cached_distances_ s in
  let costs := if changed then resize size 0 (cached_costs_ s) else cached_costs_ s in
  costs ← for_each size 0 (compute_cost s distances) costs;
  '(matrix, max_dist) ← generateIntegerDistances R;
  Ok (set_caches R (replicate (Z.to_nat (max_dist + 1)) []) costs distances matrix len s).

(** ** Sizes, bounds and parameters *)

(** [m] is the master grid of the layered costmap. *)
Definition matchSize (m : costmap) (s : inflation) : res inflation :=
  r ← cellDistance (inflation_radius_ s) m;
  s ← computeCaches (set_cells_radius (resolution m) r s);
  Ok (set_seen (replicate (Z.to_nat (wrapu 32 (size_x m * size_y m))) false) s).

Definition reset (m : costmap) (s : inflation) : res inflation :=
  s ← matchSize m s; Ok (set_flags (enabled_ s) false (need_reinflation_ s) s).

Definition onFootprintChanged (inscribed : f64) (m : costmap) (s : inflation) : res inflation :=
  r ← cellDistance (inflation_radius_ s) m;
  s ← computeCaches (set_cells_radius (resolution_ s) r (set_radii (inflation_radius_ s) inscribed (cost_scaling_factor_ s) s));
  Ok (set_flags (enabled_ s) (current_ s) true s).

(** The window of the last update is inflated again with the current one. *)
Definition updateBounds (b : bounds) (s : inflation) : bounds * inflation :=
  if need_reinflation_ s then (everything, set_last b false s)
  else
    let l := last_ s in
    let radius := inflation_radius_ s in
    (mk_bounds (f64_sub (f64_min (min_x l) (min_x b)) radius) (f64_sub (f64_min (min_y l) (min_y b)) radius)
       (f64_add (f64_max (max_x l) (max_x b)) radius) (f64_add (f64_max (max_y l) (max_y b)) radius),
     set_last b (need_reinflation_ s) s).

(** One parameter of a callback: the layer, and whether the tables have to be computed again. *)
Definition set_parameter (name : string) (p : string * parameter) (r : inflation * bool) : inflation * bool :=
  let '(s, recompute) := r in
  let named suffix := String.eqb (fst p) (name ++ suffix)%string in
  match snd p with
  | PARAMETER_DOUBLE v =>
      if named ".inflation_radius"%string && negb (f64_eq (inflation_radius_ s) v)
      then (set_flags (enabled_ s) (current_ s) true (set_radii v (inscribed_radius_ s) (cost_scaling_factor_ s) s), true)
      else if named ".cost_scaling_factor"%string && negb (f64_eq (cost_scaling_factor_ s) v)
      then (set_flags (enabled_ s) (current_ s) true (set_radii (inflation_radius_ s) (inscribed_radius_ s) v s), true)
      else r
  | PARAMETER_BOOL v =>
      if named ".enabled"%string && negb (Bool.eqb (enabled_ s) v)
      then (set_flags v false true s, recompute)
      else if named ".inflate_unknown"%string && negb (Bool.eqb (inflate_unknown_ s) v)
      then (set_flags (enabled_ s) (current_ s) true (set_unknown v (inflate_around_unknown_ s) s), recompute)
      else if named ".inflate_around_unknown"%string && negb (Bool.eqb (inflate_around_unknown_ s) v)
      then (set_flags (enabled_ s) (current_ s) true (set_unknown (inflate_unknown_ s) v s), recompute)
      else r
  | _ => r
  end.

Definition dynamicParametersCallback (name : string) (parameters : list (string * parameter)) (m : costmap) (s : inflation) :
    res inflation :=
  let '(s, recompute) := fold_left (fun r p => set_parameter name p r) parameters (s, false) in
  if recompute then matchSize m s else Ok s.

(** 0.55 *)
Definition default_radius : f64 := S754_finite false 4953959590107546 (-53).

Definition onInitialize `{NodeParameters} (name : string) (m : costmap) (s : inflation) : res inflation :=
  let full suffix := (name ++ suffix)%string in
  enabled ← Parameters.read_or Parameters.as_bool (full ".enabled"%string) true;
  radius ← Parameters.read_or Parameters.as_double (full ".inflation_radius"%string) default_radius;
  scaling ← Parameters.read_or Parameters.as_double (full ".cost_scaling_factor"%string) (f64_of_Z 10);
  unknown ← Parameters.read_or Parameters.as_bool (full ".inflate_unknown"%string) false;
  around ← Parameters.read_or Parameters.as_bool (full ".inflate_around_unknown"%string) false;
  let s := set_flags enabled true false (set_unknown unknown around (set_radii radius (inscribed_radius_ s) scaling s)) in
  let s := set_caches (cached_cell_inflation_radius_ s) (inflation_cells_ s) [] [] (distance_matrix_ s) (cache_length_ s)
             (set_seen [] s) in
  matchSize m s.
End Tables.

(** ** The wave *)

(** What the wave changes: the visited cells, the bins and the array of the master grid. *)
Record wave : Type := mk_wave { visited : list bool; bins : list (list CellData); master_array : list Z }.

Section Wave.
Context (s : inflation) (m : costmap).

(** The distance of two unsigned coordinates. *)
Definition apart (a b : Z) : Z := if a >? b then a - b else b - a.

Definition cache_index (c : CellData) : Z :=
  wrapu 32 (wrapu 32 (apart (x_ c) (src_x_ c) * cache_length_ s) + apart (y_ c) (src_y_ c)).
Definition distanceLookup (c : CellData) : res f64 := aget (cached_distances_ s) (cache_index c).
Definition costLookup (c : CellData) : res Z := aget (cached_costs_ s) (cache_index c).

Definition enqueue (index : Z) (c : CellData) (w : wave) : res wave :=
  seen ← aget (visited w) index;
  if (seen : bool) then Ok w else
  distance ← distanceLookup c;
  if f64_lt (f64_of_Z (cell_inflation_radius_ s)) distance then Ok w else
  let r := wrapu 32 (cell_inflation_radius_ s + 2) in
  row ← aget (distance_matrix_ s) (wrapu 32 (x_ c - src_x_ c + r));
  dist ← aget row (wrapu 32 (y_ c - src_y_ c + r));
  bin ← aget (bins w) dist;
  l ← aset (bins w) dist (bin ++ [c]);
  Ok (mk_wave (visited w) l (master_array w)).

(** The cost of a cell of the window. *)
Definition merged (old_cost cost : Z) : Z :=
  if (old_cost =? NO_INFORMATION)
     && (if inflate_unknown_ s then cost >? FREE_SPACE else cost >=? INSCRIBED_INFLATED_OBSTACLE)
  then cost else Z.max old_cost cost.

(** A rectangle of cells, without its last column and row. *)
Record window : Type := mk_window { min_i : Z; min_j : Z; max_i : Z; max_j : Z }.
Definition in_window (b : window) (x y : Z) : bool :=
  (wraps 32 x >=? min_i b) && (wraps 32 y >=? min_j b) && (wraps 32 x <? max_i b) && (wraps 32 y <? max_j b).

Definition visit (base : window) (c : CellData) (w : wave) : res wave :=
  let '(mk_cell mx my sx sy) := c in
  let index := getIndex mx my m in
  seen ← aget (visited w) index;
  if (seen : bool) then Ok w else
  visited ← aset (visited w) index true;
  cost ← costLookup c;
  old_cost ← aget (master_array w) index;
  array ← (if in_window base mx my then aset (master_array w) index (merged old_cost cost) else Ok (master_array w));
  let w := mk_wave visited (bins w) array in
  w ← (if mx >? 0 then enqueue (wrapu 32 (index - 1)) (mk_cell (mx - 1) my sx sy) w else Ok w);
  w ← (if my >? 0 then enqueue (wrapu 32 (index - size_x m)) (mk_cell mx (my - 1) sx sy) w else Ok w);
  w ← (if mx <? wrapu 32 (size_x m - 1) then enqueue (wrapu 32 (index + 1)) (mk_cell (mx + 1) my sx sy) w else Ok w);
  (if my <? wrapu 32 (size_y m - 1) then enqueue (wrapu 32 (index + size_x m)) (mk_cell mx (my + 1) sx sy) w else Ok w).

(** The cells of a bin from the [i]-th on, with the bin read anew in every round; then the bin is
    emptied. There are as many rounds as the bin has cells when the loop starts. *)
Fixpoint process_bin (rounds : nat) (base : window) (d i : Z) (w : wave) : res wave :=
  bin ← aget (bins w) d;
  if i <? Z.of_nat (List.length bin) then
    match rounds with
    | O => UB
    | S rounds => c ← aget bin i; w ← visit base c w; process_bin rounds base d (i + 1) w
    end
  else l ← aset (bins w) d []; Ok (mk_wave (visited w) l (master_array w)).

Definition process_level (base : window) (d : Z) (w : wave) : res wave :=
  bin ← aget (bins w) d; process_bin (List.length bin) base d 0 w.

(** The obstacles of a window, by rows. *)
Definition add_obstacle (array : list Z) (i j : Z) (bin : list CellData) : res (list CellData) :=
  cost ← aget array (wraps 32 (getIndex i j m));
  Ok (if (cost =? LETHAL_OBSTACLE) || (inflate_around_unknown_ s && (cost =? NO_INFORMATION))
      then bin ++ [mk_cell i j i j] else bin).
Definition collect_obstacles (array : list Z) (b : window) (bin : list CellData) : res (list CellData) :=
  for_each (Z.to_nat (max_j b - min_j b)) (min_j b) (fun j bin =>
    for_each (Z.to_nat (max_i b - min_i b)) (min_i b) (fun i bin => add_obstacle array i j bin) bin) bin.

(** The window and the cells that can influence it. *)
Definition widened (b : window) : res window :=
  let R := wraps 32 (cell_inflation_radius_ s) in
  a ← chk 32 (min_i b - R); b' ← chk 32 (min_j b - R);
  c ← chk 32 (max_i b + R); d ← chk 32 (max_j b + R);
  Ok (mk_window (Z.max 0 a) (Z.max 0 b') (Z.min (wraps 32 (size_x m)) c) (Z.min (wraps 32 (size_y m)) d)).
End Wave.

Definition updateCosts (base : window) (s : inflation) (m : costmap) : res (inflation * costmap) :=
  if negb (enabled_ s) || (cell_inflation_radius_ s =? 0) then Ok (s, m) else
  let seen := replicate (Z.to_nat (wrapu 32 (size_x m * size_y m))) false in
  b ← widened s m base;
  obs_bin ← aget (inflation_cells_ s) 0;
  obs_bin ← collect_obstacles s m (cells m) b obs_bin;
  l ← aset (inflation_cells_ s) 0 obs_bin;
  w ← for_each (List.length l) 0 (process_level s m base) (mk_wave seen l (cells m));
  Ok (set_flags (enabled_ s) true (need_reinflation_ s) (set_bins (bins w) (set_seen (visited w) s)),
      set_cells (master_array w) m).
End Inflation.
