(* ===== verification/InflationLaws.v ===== *)
(** * The inflation layer covers the surroundings of obstacles

    The tables of the layer are right, the wave visits its cells in the order of their distances and
    never leaves one behind, and the cost of a cell is the one of its distance to an
    obstacle that is at most as far as the city block distance to the nearest one. *)

From stdpp Require Import base option list numbers sorting gmap.
From Stdlib Require Import ZArith Lia SpecFloat.
From S2P Require Import Prelude Float64 Costmap CostmapLayer Inflation.

Module InflationLaws.
Import Costmap CostmapLayer Inflation.

(** ** Levels of distances *)

Definition in_disc (r : Z) (p : Z * Z) : Prop := - r <= fst p <= r /\ - r <= snd p <= r.

(** The level of a point in a matrix centred at [r]. *)
Definition level_at (r : Z) (matrix : list (list Z)) (p : Z * Z) : Z :=
  default 0 (matrix !! Z.to_nat (fst p + r) ≫= fun row => row !! Z.to_nat (snd p + r)).

Definition square_matrix (r : Z) (matrix : list (list Z)) : Prop :=
  Z.of_nat (length matrix) = 2 * r + 1 /\ Forall (fun row => Z.of_nat (length row) = 2 * r + 1) matrix.

Lemma level_read r matrix p : square_matrix r matrix -> in_disc r p ->
  exists row, aget matrix (fst p + r) = Ok row /\ aget row (snd p + r) = Ok (level_at r matrix p) /\
    Z.of_nat (length row) = 2 * r + 1.
Proof.
  intros [Hl Hf] [Hx Hy]. destruct (aget_in matrix (fst p + r)) as [row Hrow]; [lia|].
  exists row. split; [done|]. apply aget_ok in Hrow as [_ Hrow].
  pose proof (proj1 (list.Forall_forall _ _) Hf row (list_elem_of_lookup_2 _ _ _ Hrow)) as Hlr. cbn in Hlr.
  destruct (aget_in row (snd p + r)) as [v Hv]; [lia|]. split; [|done].
  rewrite Hv. apply aget_ok in Hv as [_ Hv]. unfold level_at. rewrite Hrow. cbn. by rewrite Hv.
Qed.

Lemma level_write r matrix p v : square_matrix r matrix -> in_disc r p ->
  exists matrix', (row ← aget matrix (fst p + r); row ← aset row (snd p + r) v; aset matrix (fst p + r) row) = Ok matrix' /\
    square_matrix r matrix' /\ level_at r matrix' p = v /\
    forall q, in_disc r q -> q <> p -> level_at r matrix' q = level_at r matrix q.
Proof.
  intros Hsq Hp. destruct (level_read r matrix p Hsq Hp) as (row & Hrow & _ & Hlr). destruct Hsq as [Hl Hf], Hp as [Hx Hy].
  rewrite Hrow, bind_Ok. pose proof Hrow as Hrow'. apply aget_ok in Hrow as [_ Hrow].
  assert (aset row (snd p + r) v = Ok (<[Z.to_nat (snd p + r) := v]> row)) as -> by (apply aset_ok; split; [lia|done]).
  rewrite bind_Ok. eexists. split; [apply aset_ok; split; [lia|done]|].
  split; [|split].
  - split; [by rewrite length_insert|]. apply Forall_insert; [done|]. by rewrite length_insert.
  - unfold level_at. rewrite list_lookup_insert_eq by lia. cbn. by rewrite list_lookup_insert_eq by lia.
  - intros q [Hqx Hqy] Hne. unfold level_at. destruct (decide (fst q = fst p)) as [E|E].
    + rewrite E, list_lookup_insert_eq, Hrow by lia. cbn. rewrite list_lookup_insert_ne; [done|].
      intros ?. apply Hne. destruct q, p; cbn in *. f_equal; lia.
    + rewrite list_lookup_insert_ne; [done|]. lia.
Qed.

(** After the points of [done] are placed: their levels order them by distance, and the current level
    belongs to the last and largest distance. *)
Record placed (r : Z) (done : list (Z * Z)) (matrix : list (list Z)) (last : Z * Z) (level : Z) : Prop := {
  p_square : square_matrix r matrix;
  p_level : 0 <= level;
  p_le : forall a, a ∈ done -> in_disc r a /\ norm2 a <= norm2 last /\ 0 <= level_at r matrix a <= level /\
    (level_at r matrix a = level <-> norm2 a = norm2 last);
  p_order : forall a b, a ∈ done -> b ∈ done ->
    (level_at r matrix a < level_at r matrix b <-> norm2 a < norm2 b);
  p_zero : norm2 last = 0 -> level = 0;
  p_centre : forall a, a ∈ done -> norm2 a = 0 -> level_at r matrix a = 0 }.

Lemma norm2_nonneg p : 0 <= norm2 p.
Proof. unfold norm2. nia. Qed.

Lemma put_level_ok r done matrix last level p : placed r done matrix last level -> in_disc r p -> norm2 last <= norm2 p ->
  exists matrix' level', put_level r p (matrix, (last, level)) = Ok (matrix', (p, level')) /\
    placed r (p :: done) matrix' p level'.
Proof.
  intros [Hsq Hlev Hle Hord Hzero Hcentre] Hp Hnp. unfold put_level.
  set (level' := if negb (norm2 p =? norm2 last) then level + 1 else level).
  destruct (level_write r matrix p level' Hsq Hp) as (matrix' & Hw & Hsq' & Hat & Hother).
  assert (forall A (f : list (list Z) -> res A), (row ← aget matrix (fst p + r); row ← aset row (snd p + r) level';
    x ← aset matrix (fst p + r) row; f x) = f matrix') as Hb.
  { intros A f. destruct (aget matrix (fst p + r)) as [row| |]; [|done..]. cbn in *.
    destruct (aset row (snd p + r) level') as [row'| |]; [|done..]. cbn in *. by rewrite Hw. }
  exists matrix', level'. split; [exact (Hb _ _)|].
  assert (level' = if norm2 p =? norm2 last then level else level + 1) as El by (unfold level'; by destruct (norm2 p =? norm2 last)).
  clearbody level'. pose proof (norm2_nonneg last) as Hlast.
  assert (norm2 p = 0 -> level' = 0) as Hz by (intros Hn0; rewrite El, (proj2 (Z.eqb_eq _ _)) by lia; apply Hzero; lia).
  assert (forall a, a ∈ p :: done -> norm2 a = 0 -> level_at r matrix' a = 0) as Hc.
  { intros a Ha Hn0. destruct (decide (a = p)) as [-> |Hne]; [rewrite Hat; by apply Hz|].
    apply elem_of_cons in Ha as [?|Ha]; [done|]. rewrite Hother; [by apply Hcentre|by apply Hle|done]. }
  destruct (Z.eqb_spec (norm2 p) (norm2 last)) as [En|En].
  - constructor; [done|lia|..|done|done].
    + intros a [-> |Ha]%elem_of_cons; [rewrite Hat; split; [done|lia]|].
      destruct (Hle a Ha) as (Hd & Hn & Hl & Hiff). split; [done|].
      destruct (decide (a = p)) as [-> |Hne]; [rewrite Hat; lia|]. rewrite Hother by done. lia.
    + intros a b [-> |Ha]%elem_of_cons [-> |Hb']%elem_of_cons.
      * lia.
      * destruct (Hle b Hb') as (Hd & Hn & Hl & Hiff). rewrite Hat.
        destruct (decide (b = p)) as [-> |Hne]; [rewrite Hat; lia|]. rewrite Hother by done. lia.
      * destruct (Hle a Ha) as (Hd & Hn & Hl & Hiff). rewrite Hat.
        destruct (decide (a = p)) as [-> |Hne]; [rewrite Hat; lia|]. rewrite Hother by done. lia.
      * destruct (Hle a Ha) as (Hda & Hna & Hla & Hia), (Hle b Hb') as (Hdb & Hnb & Hlb & Hib).
        pose proof (Hord a b Ha Hb'). pose proof (Hord b a Hb' Ha).
        destruct (decide (a = p)) as [-> |Hne], (decide (b = p)) as [-> |Hne']; rewrite ?Hat, ?Hother by done; lia.
  - constructor; [done|lia|..|done|done].
    + intros a [-> |Ha]%elem_of_cons; [rewrite Hat; split; [done|lia]|].
      destruct (Hle a Ha) as (Hd & Hn & Hl & Hiff). split; [done|].
      destruct (decide (a = p)) as [-> |Hne]; [rewrite Hat; lia|]. rewrite Hother by done. lia.
    + intros a b [-> |Ha]%elem_of_cons [-> |Hb']%elem_of_cons.
      * lia.
      * destruct (Hle b Hb') as (Hd & Hn & Hl & Hiff). rewrite Hat.
        destruct (decide (b = p)) as [-> |Hne]; [rewrite Hat; lia|]. rewrite Hother by done. lia.
      * destruct (Hle a Ha) as (Hd & Hn & Hl & Hiff). rewrite Hat.
        destruct (decide (a = p)) as [-> |Hne]; [rewrite Hat; lia|]. rewrite Hother by done. lia.
      * destruct (Hle a Ha) as (Hda & Hna & Hla & Hia), (Hle b Hb') as (Hdb & Hnb & Hlb & Hib).
        assert (a <> p) by (intros ->; lia). assert (b <> p) by (intros ->; lia). rewrite !Hother by done. by apply Hord.
Qed.

Lemma place_all r l : forall done matrix last level, placed r done matrix last level ->
  Sorted nearer l -> (forall p, p ∈ l -> in_disc r p) -> (forall p, p ∈ l -> norm2 last <= norm2 p) ->
  exists matrix' last' level', for_list (put_level r) l (matrix, (last, level)) = Ok (matrix', (last', level')) /\
    placed r (rev l ++ done) matrix' last' level'.
Proof.
  induction l as [|p l IH]; intros done matrix last level Hpl Hs Hd Hn; cbn [for_list].
  - by eexists _, _, _.
  - destruct (put_level_ok r done matrix last level p Hpl) as (m1 & l1 & -> & H1); [by apply Hd; left|by apply Hn; left|].
    rewrite bind_Ok. assert (StronglySorted nearer (p :: l)) as Hss.
    { apply Sorted_StronglySorted; [|done]. intros a b c. unfold nearer. lia. }
    apply StronglySorted_inv in Hss as [Hss Hf].
    destruct (IH (p :: done) m1 p l1 H1) as (m2 & p2 & l2 & H2 & Hpl2).
    + by apply Sorted_inv in Hs as [? _].
    + intros q Hq. apply Hd. by right.
    + intros q Hq. rewrite list.Forall_forall in Hf. by apply Hf.
    + exists m2, p2, l2. split; [done|]. cbn [rev]. by rewrite <- app_assoc.
Qed.

Lemma elem_of_disc r p : 0 <= r -> p ∈ disc r <-> in_disc r p /\ norm2 p <= r * r.
Proof.
  intros Hr. unfold disc, in_disc. rewrite list_elem_of_bind. setoid_rewrite list_elem_of_bind.
  split.
  - intros (b & (a & Hin & Ha) & Hb). apply elem_of_seqZ in Ha, Hb.
    destruct (Z.leb_spec (norm2 (a, b)) (r * r)); [|by apply elem_of_nil in Hin].
    apply list_elem_of_singleton in Hin as ->. cbn. lia.
  - intros [[Hx Hy] Hn]. exists (snd p). split; [|apply elem_of_seqZ; lia].
    exists (fst p). split; [|apply elem_of_seqZ; lia].
    rewrite (proj2 (Z.leb_le _ _)) by (destruct p; done). apply list_elem_of_singleton. by destruct p.
Qed.

(** The order of distances within the radius is the one of the levels. *)
Definition good_levels (R : Z) (matrix : list (list Z)) (max_dist : Z) : Prop :=
  square_matrix (R + 2) matrix /\
  (forall p, norm2 p <= R * R -> 0 <= level_at (R + 2) matrix p <= max_dist) /\
  (forall p q, norm2 p <= R * R -> norm2 q <= R * R ->
    (level_at (R + 2) matrix p < level_at (R + 2) matrix q <-> norm2 p < norm2 q)) /\
  level_at (R + 2) matrix (0, 0) = 0.

Lemma norm2_bound R p : 0 <= R -> norm2 p <= R * R -> - R <= fst p <= R /\ - R <= snd p <= R.
Proof.
  destruct p as [a b]. unfold norm2. cbn [fst snd]. intros HR Hn.
  pose proof (Z.square_nonneg a). pose proof (Z.square_nonneg b).
  assert (a * a <= R * R) by lia. assert (b * b <= R * R) by lia. split; nia.
Qed.

Lemma levels_ok R : 0 < R <= 20000 -> exists matrix max_dist,
  generateIntegerDistances R = Ok (matrix, max_dist) /\ 0 <= max_dist /\ good_levels R matrix max_dist.
Proof.
  intros HR. unfold generateIntegerDistances. rewrite wrapu_id by (unfold in_u; lia).
  rewrite wraps_id by (lia || (unfold in_s; lia)). rewrite chk_in by (unfold in_s; nia). rewrite bind_Ok.
  set (r := R + 2). set (size := Z.to_nat (2 * r + 1)).
  destruct (place_all r (merge_sort nearer (disc r)) [] (replicate size (replicate size 0)) (0, 0) 0)
    as (matrix & last & level & -> & Hpl).
  - constructor; [|lia|by intros a ?%elem_of_nil|by intros a b ?%elem_of_nil|done|by intros a ?%elem_of_nil].
    split; [rewrite length_replicate; lia|]. apply Forall_replicate. rewrite length_replicate. lia.
  - apply Sorted_merge_sort. intros a b. unfold nearer. lia.
  - intros p Hp. rewrite merge_sort_Permutation in Hp. by apply elem_of_disc in Hp as [? _]; [|lia].
  - intros p Hp. unfold norm2. cbn. nia.
  - rewrite bind_Ok. exists matrix, level. split; [done|]. destruct Hpl as [Hsq Hlev Hle Hord Hzero Hcentre]. split; [done|].
    assert (forall p, norm2 p <= R * R -> p ∈ rev (merge_sort nearer (disc r)) ++ []) as Hin.
    { intros p Hp. rewrite app_nil_r. apply list_elem_of_In. apply -> in_rev. apply list_elem_of_In.
      rewrite merge_sort_Permutation. apply elem_of_disc; [lia|].
      pose proof (norm2_bound R p ltac:(lia) Hp). unfold in_disc. split; [lia|nia]. }
    split; [done|]. split; [intros p Hp; by apply Hle, Hin|]. split; [intros p q Hp Hq; apply Hord; by apply Hin|]. apply Hcentre; [apply Hin; unfold norm2; cbn; nia|done].
Qed.

(** ** Distances on the grid *)

Definition pos (e : CellData) : Z * Z := (x_ e, y_ e).
Definition src (e : CellData) : Z * Z := (src_x_ e, src_y_ e).
Definition d2 (a b : Z * Z) : Z := norm2 (fst a - fst b, snd a - snd b).
Definition adj (a b : Z * Z) : Prop := Z.abs (fst a - fst b) + Z.abs (snd a - snd b) = 1.
Definition inside (W H : Z) (p : Z * Z) : Prop := 0 <= fst p < W /\ 0 <= snd p < H.

Lemma adj_cases a b : adj a b <-> b = (fst a - 1, snd a) \/ b = (fst a, snd a - 1) \/ b = (fst a + 1, snd a) \/
  b = (fst a, snd a + 1).
Proof.
  destruct a as [a1 a2], b as [b1 b2]. unfold adj. cbn. split.
  - intros H. assert ((b1 = a1 - 1 /\ b2 = a2) \/ (b1 = a1 /\ b2 = a2 - 1) \/ (b1 = a1 + 1 /\ b2 = a2) \/ (b1 = a1 /\ b2 = a2 + 1))
      as [[-> ->]|[[-> ->]|[[-> ->]|[-> ->]]]] by lia; auto.
  - intros [[= -> ->]|[[= -> ->]|[[= -> ->]|[= -> ->]]]]; lia.
Qed.

Lemma d2_zero a b : d2 a b = 0 <-> a = b.
Proof.
  destruct a as [a1 a2], b as [b1 b2]. unfold d2, norm2. cbn. split; [|intros [= -> ->]; lia].
  intros H. pose proof (Z.square_nonneg (a1 - b1)). pose proof (Z.square_nonneg (a2 - b2)).
  assert ((a1 - b1) * (a1 - b1) = 0) as E1%Z.mul_eq_0 by lia. assert ((a2 - b2) * (a2 - b2) = 0) as E2%Z.mul_eq_0 by lia. f_equal; lia.
Qed.

Lemma d2_nonneg a b : 0 <= d2 a b.
Proof. unfold d2, norm2. nia. Qed.

(** A step changes the parity of the squared distance. *)
Lemma d2_step a b s : adj a b -> d2 b s <> d2 a s.
Proof.
  intros [-> |[-> |[-> | ->]]]%adj_cases; unfold d2, norm2; cbn [fst snd];
    intros E; ring_simplify in E; lia.
Qed.

(** A step adds at most one to the distance. *)
Lemma d2_far a b s k : 0 <= k -> adj a b -> d2 a s <= k * k -> d2 b s <= (k + 1) * (k + 1).
Proof.
  intros Hk Hab. destruct a as [a1 a2], s as [s1 s2]. unfold d2, norm2. cbn [fst snd]. intros Hd.
  assert (- k <= a1 - s1 <= k /\ - k <= a2 - s2 <= k) as [H1 H2] by (apply (norm2_bound k (a1 - s1, a2 - s2)); done).
  apply adj_cases in Hab as [-> |[-> |[-> | ->]]]; cbn [fst snd]; lia.
Qed.

Lemma corner a b a' b' : 0 <= a -> 0 <= b -> a' * a' + b' * b' <= a * a + b * b ->
  (a + 1) * (a + 1) + b * b <= (a' + 1) * (a' + 1) + b' * b' -> a' * a' + (b' + 1) * (b' + 1) <= a * a + (b + 1) * (b + 1).
Proof.
  intros Ha Hb H1 H2. assert (a <= a') by lia. assert (a * a <= a' * a') by nia. assert (b' * b' <= b * b) by lia.
  assert (b' <= b) by nia. lia.
Qed.

(** The lemma in the orientation of the goal. *)
Ltac corner_of a b a' b' :=
  let H := fresh in pose proof (corner a b a' b' ltac:(lia) ltac:(lia) ltac:(lia) ltac:(lia)) as H; lia.
Ltac solve_corner a b a' b' :=
  first [corner_of (a - 1) (b - 1) (a' - 1) (b' - 1) | corner_of (b - 1) (a - 1) (b' - 1) (a' - 1)
        | corner_of (a - 1) (- b - 1) (a' - 1) (- b' - 1) | corner_of (- b - 1) (a - 1) (- b' - 1) (a' - 1)
        | corner_of (- a - 1) (b - 1) (- a' - 1) (b' - 1) | corner_of (b - 1) (- a - 1) (b' - 1) (- a' - 1)
        | corner_of (- a - 1) (- b - 1) (- a' - 1) (- b' - 1) | corner_of (- b - 1) (- a - 1) (- b' - 1) (- a' - 1)].

(** The other corner of the square of two steps that lead closer to [s]. A source [t] that is as good
    as [s] for that corner, but not better than [s] for [p], is as good as [s] for [n]. *)
Lemma parallelogram c n p s : adj c n -> adj c p -> n <> p -> d2 n s < d2 c s -> d2 p s < d2 c s ->
  let q := (fst n + fst p - fst c, snd n + snd p - snd c) in
  adj q n /\ adj q p /\ d2 q s < d2 p s /\
  forall t, d2 q t <= d2 q s -> d2 p s <= d2 p t -> d2 n t <= d2 n s.
Proof.
  destruct c as [c1 c2], s as [s1 s2]. intros Hn Hp Hne Hdn Hdp.
  apply adj_cases in Hn as [-> |[-> |[-> | ->]]]; apply adj_cases in Hp as [-> |[-> |[-> | ->]]];
    try done; unfold d2, norm2 in Hdn, Hdp; cbn [fst snd] in *; try (exfalso; nia).
  all: split; [unfold adj; cbn; lia|]; split; [unfold adj; cbn; lia|]; split; [unfold d2, norm2; cbn [fst snd]; nia|].
  all: intros [t1 t2]; unfold d2, norm2; cbn [fst snd]; intros HA HB.
  all: solve_corner (c1 - s1) (c2 - s2) (c1 - t1) (c2 - t2).
Qed.
(** ** The steps of the wave *)

Lemma apart_abs a b : apart a b = Z.abs (a - b).
Proof. unfold apart. rewrite Z.gtb_ltb. destruct (Z.ltb_spec b a); lia. Qed.

(** A table by rows of length [k]. *)
Lemma table_lookup {A} (f : Z -> Z -> A) (k : Z) l : forall a b i, 0 <= b < k -> l !! a = Some i ->
  (i ← l; f i <$> seqZ 0 k) !! (a * Z.to_nat k + Z.to_nat b)%nat = Some (f i b).
Proof.
  induction l as [|x l IH]; intros a b i Hb Ha; [done|]. cbn [mbind list_bind].
  assert (length (f x <$> seqZ 0 k) = Z.to_nat k) as Hl by (by rewrite length_fmap, length_seqZ).
  destruct a as [|a].
  - injection Ha as ->. rewrite lookup_app_l by lia. rewrite list_lookup_fmap.
    rewrite (proj2 (lookup_seqZ _ _ _ b)) by lia. done.
  - rewrite lookup_app_r by (rewrite Hl; lia). rewrite Hl.
    replace (S a * Z.to_nat k + Z.to_nat b - Z.to_nat k)%nat with (a * Z.to_nat k + Z.to_nat b)%nat by lia. by apply IH.
Qed.

Section Wave.
Context `{Falloff}.
Context (s : inflation) (m : costmap).

Abbreviation R := (cell_inflation_radius_ s).
Abbreviation W := (size_x m).
Abbreviation H' := (size_y m).

(** The tables belong to the radius, which is positive, and bins and matrix are as computed. *)
Record tables (max_dist : Z) : Prop := {
  t_R : 0 < R <= 20000;
  t_len : cache_length_ s = R + 2;
  t_dist : cached_distances_ s = distance_table (R + 2);
  t_costs : Z.of_nat (length (cached_costs_ s)) = (R + 2) * (R + 2);
  t_max : 0 <= max_dist;
  t_levels : good_levels R (distance_matrix_ s) max_dist }.

(** Distances of whole numbers compare with the radius as exact ones do. *)
Definition exact_radius : Prop := forall i j, 0 <= i <= R + 1 -> 0 <= j <= R + 1 ->
  f64_lt (f64_of_Z R) (hypot (f64_of_Z i) (f64_of_Z j)) = (R * R <? i * i + j * j).

Record map_ok : Prop := {
  m_x : 0 < W <= 100000; m_y : 0 < H' <= 100000; m_size : W * H' <= 4000000;
  m_cells : Z.of_nat (length (cells m)) = W * H' }.

Context (max_dist : Z) (tables0 : tables max_dist) (exact0 : exact_radius) (map0 : map_ok).

Definition idx (p : Z * Z) : Z := snd p * W + fst p.
Definition here (p : Z * Z) : nat := Z.to_nat (idx p).
Definition near (e : CellData) : Prop := Z.abs (x_ e - src_x_ e) <= R + 1 /\ Z.abs (y_ e - src_y_ e) <= R + 1.
Definition lev (e : CellData) : Z := level_at (R + 2) (distance_matrix_ s) (x_ e - src_x_ e, y_ e - src_y_ e).

(** The tabulated cost at the distance of two cells. *)
Definition cost_of (p t : Z * Z) : Z :=
  default 0 (cached_costs_ s !! Z.to_nat (Z.abs (fst p - fst t) * (R + 2) + Z.abs (snd p - snd t))).

Lemma idx_range p : inside W H' p -> 0 <= idx p < W * H' /\ (here p < length (cells m))%nat.
Proof. destruct map0. intros [Hx Hy]. unfold here, idx. split; [nia|]. nia. Qed.

Lemma idx_inj p q : inside W H' p -> inside W H' q -> here p = here q -> p = q.
Proof.
  intros Hp Hq E. pose proof (idx_range p Hp). pose proof (idx_range q Hq).
  assert (idx p = idx q) as Ei by (unfold here in E; lia). unfold idx in Ei.
  destruct p as [p1 p2], q as [q1 q2], Hp as [Hp1 Hp2], Hq as [Hq1 Hq2]. cbn in *.
  assert (p2 = q2) as -> by nia. f_equal. lia.
Qed.

Lemma getIndex_idx p : inside W H' p -> getIndex (fst p) (snd p) m = idx p.
Proof. intros Hp. pose proof (idx_range p Hp). destruct map0. unfold getIndex. apply wrapu_id. unfold in_u, idx in *. lia. Qed.

Lemma cache_index_ok e : near e ->
  cache_index s e = Z.abs (x_ e - src_x_ e) * (R + 2) + Z.abs (y_ e - src_y_ e) /\
  0 <= cache_index s e < (R + 2) * (R + 2).
Proof.
  intros [Hx Hy]. destruct tables0. unfold cache_index. rewrite !apart_abs, t_len0.
  rewrite (wrapu_id 32 (_ * _)) by (unfold in_u; nia). rewrite wrapu_id by (unfold in_u; nia). split; [done|nia].
Qed.

Lemma distance_read e : near e -> exists d, distanceLookup s e = Ok d /\
  f64_lt (f64_of_Z R) d = (R * R <? d2 (pos e) (src e)).
Proof.
  intros Hn. destruct (cache_index_ok e Hn) as [Ei Hi]. destruct Hn as [Hx Hy]. destruct tables0.
  exists (hypot (f64_of_Z (Z.abs (x_ e - src_x_ e))) (f64_of_Z (Z.abs (y_ e - src_y_ e)))). split.
  - unfold distanceLookup. apply aget_ok. split; [lia|]. rewrite t_dist0, Ei. unfold distance_table.
    replace (Z.to_nat (Z.abs (x_ e - src_x_ e) * (R + 2) + Z.abs (y_ e - src_y_ e)))
      with (Z.to_nat (Z.abs (x_ e - src_x_ e)) * Z.to_nat (R + 2) + Z.to_nat (Z.abs (y_ e - src_y_ e)))%nat by nia.
    apply (table_lookup (fun i j => hypot (f64_of_Z i) (f64_of_Z j))); [lia|]. apply lookup_seqZ. lia.
  - rewrite exact0 by lia. f_equal. unfold d2, norm2, pos, src. cbn [fst snd]. nia.
Qed.

Lemma cost_read e : near e -> costLookup s e = Ok (cost_of (pos e) (src e)).
Proof.
  intros Hn. destruct (cache_index_ok e Hn) as [Ei Hi]. destruct tables0.
  destruct (aget_in (cached_costs_ s) (cache_index s e)) as [c Hc]; [lia|].
  unfold costLookup. rewrite Hc. f_equal. apply aget_ok in Hc as [_ Hc]. unfold cost_of, pos, src. cbn [fst snd].
  rewrite <- Ei, Hc. done.
Qed.

Definition within (e : CellData) : Prop := d2 (pos e) (src e) <= R * R.

Lemma within_near e : within e -> near e /\ in_disc (R + 2) (x_ e - src_x_ e, y_ e - src_y_ e).
Proof.
  unfold within, d2, pos, src. cbn [fst snd]. intros Hw. destruct tables0.
  apply norm2_bound in Hw as [? ?]; [|lia]. cbn [fst snd] in *. unfold near, in_disc. cbn [fst snd]. lia.
Qed.

Lemma lev_range e : within e -> 0 <= lev e <= max_dist.
Proof. intros Hw. destruct tables0 as [_ _ _ _ _ (_ & Hr & _ & _)]. by apply Hr. Qed.

Lemma lev_order e e' : within e -> within e' -> lev e < lev e' <-> d2 (pos e) (src e) < d2 (pos e') (src e').
Proof. intros Hw Hw'. destruct tables0 as [_ _ _ _ _ (_ & _ & Ho & _)]. by apply Ho. Qed.



(** A cell is put into its bin. *)
Definition push (e : CellData) (l : list (list CellData)) : list (list CellData) :=
  alter (fun b => b ++ [e]) (Z.to_nat (lev e)) l.

Definition offered (vis : list bool) (e : CellData) : bool :=
  bool_decide (inside W H' (pos e)) && negb (default true (vis !! here (pos e))) && (d2 (pos e) (src e) <=? R * R).
Definition offer (vis : list bool) (l : list (list CellData)) (e : CellData) : list (list CellData) :=
  if offered vis e then push e l else l.

(** The part of the state that does not change its shape. *)
Record shaped (w : wave) : Prop := {
  s_vis : Z.of_nat (length (visited w)) = W * H';
  s_bins : Z.of_nat (length (bins w)) = max_dist + 1;
  s_arr : Z.of_nat (length (master_array w)) = W * H' }.

Lemma aset_in {A} (l : list A) i x : 0 <= i < Z.of_nat (length l) -> aset l i x = Ok (<[Z.to_nat i := x]> l).
Proof. intros Hi. apply aset_ok. by split. Qed.

Lemma offer_length vis l e : length (offer vis l e) = length l.
Proof. unfold offer, push. destruct (offered _ _); [apply length_alter|done]. Qed.

Lemma enqueue_ok e w : near e -> inside W H' (pos e) -> inside W H' (src e) -> shaped w ->
  enqueue s (idx (pos e)) e w = Ok (mk_wave (visited w) (offer (visited w) (bins w) e) (master_array w)).
Proof.
  intros Hn Hp Hs [Hv Hb Ha]. pose proof (idx_range _ Hp) as [Hi _]. unfold enqueue, offer, offered.
  destruct (aget_in (visited w) (idx (pos e))) as [b Eb]; [lia|]. rewrite Eb, bind_Ok.
  apply aget_ok in Eb as [_ Eb]. change (visited w !! here (pos e) = Some b) in Eb. rewrite Eb. cbn [default].
  rewrite bool_decide_true by done. destruct b; [by destruct w|]. cbn [andb negb from_option].
  destruct (distance_read e Hn) as (d & -> & Hd). rewrite bind_Ok, Hd. rewrite Z.ltb_antisym.
  destruct (Z.leb_spec (d2 (pos e) (src e)) (R * R)) as [Hle|Hgt]; cbn [negb]; [|by destruct w].
  destruct (within_near e Hle) as [_ Hdisc]. pose proof (lev_range e Hle) as Hlev. destruct tables0, map0.
  destruct t_levels0 as (Hsq & _). destruct (level_read _ _ _ Hsq Hdisc) as (row & Hrow & Hat & _).
  cbn [fst snd] in Hrow, Hat. destruct Hp as [[? ?] [? ?]], Hs as [[? ?] [? ?]], Hn as [? ?].
  unfold pos, src in *. cbn [fst snd] in *.
  rewrite (wrapu_id 32 (R + 2)) by (unfold in_u; lia). rewrite !wrapu_id by (unfold in_u; lia).
  rewrite Hrow, bind_Ok, Hat, bind_Ok. fold (lev e).
  destruct (aget_in (bins w) (lev e)) as [bin Ebin]; [lia|]. rewrite Ebin, bind_Ok. apply aget_ok in Ebin as [_ Ebin].
  rewrite aset_in by lia. rewrite bind_Ok. unfold push. cbn [id negb andb]. do 2 f_equal. symmetry.
  apply list_eq. intros k. destruct (decide (k = Z.to_nat (lev e))) as [-> |Hk].
  - rewrite list_lookup_alter_eq, Ebin, list_lookup_insert_eq by lia. done.
  - by rewrite list_lookup_alter_ne, list_lookup_insert_ne by done.
Qed.

(** The entries of the four neighbours, in the order of the code. *)
Definition around (c : CellData) : list CellData :=
  let '(mk_cell x y sx sy) := c in
  [mk_cell (x - 1) y sx sy; mk_cell x (y - 1) sx sy; mk_cell (x + 1) y sx sy; mk_cell x (y + 1) sx sy].

Lemma elem_of_around e c : e ∈ around c <-> src e = src c /\ adj (pos c) (pos e).
Proof.
  destruct c as [x y sx sy], e as [x' y' sx' sy']. unfold around, src, pos. rewrite adj_cases. cbn [fst snd x_ y_ src_x_ src_y_].
  rewrite !elem_of_cons, elem_of_nil. split.
  - intros [[= -> -> -> ->]|[[= -> -> -> ->]|[[= -> -> -> ->]|[[= -> -> -> ->]|[]]]]]; auto 6.
  - intros [[= -> ->] [[= -> ->]|[[= -> ->]|[[= -> ->]|[= -> ->]]]]]; auto 6.
Qed.

(** The cost of a cell after a wave from [t] reached it. *)
Definition touched (base : window) (p t : Z * Z) (old : Z) : Z :=
  if in_window base (fst p) (snd p) then merged s old (cost_of p t) else old.

Definition after_visit (base : window) (c : CellData) (w : wave) : wave :=
  if default true (visited w !! here (pos c)) then w else
  let vis := <[here (pos c) := true]> (visited w) in
  mk_wave vis (fold_left (offer vis) (around c) (bins w))
    (alter (touched base (pos c) (src c)) (here (pos c)) (master_array w)).

Lemma shaped_bins vis l arr e : shaped (mk_wave vis l arr) -> shaped (mk_wave vis (offer vis l e) arr).
Proof. intros [? ? ?]. constructor; cbn in *; rewrite ?offer_length; lia. Qed.

(** A neighbour that is on the map is offered; the guards are exactly those for the map. *)
Lemma guarded_enqueue (g : bool) index e w : shaped w -> near e -> inside W H' (src e) ->
  (g = true <-> inside W H' (pos e)) -> (inside W H' (pos e) -> index = idx (pos e)) ->
  (if g then enqueue s index e w else Ok w) = Ok (mk_wave (visited w) (offer (visited w) (bins w) e) (master_array w)).
Proof.
  intros Hw Hn Hs Hg Hi. destruct g.
  - assert (inside W H' (pos e)) as Hp by by apply Hg. rewrite Hi by done. by apply enqueue_ok.
  - unfold offer, offered. rewrite bool_decide_false; [by destruct w|]. intros Hp. by apply Hg in Hp.
Qed.

Lemma visit_ok base c w : within c -> inside W H' (pos c) -> inside W H' (src c) -> shaped w ->
  visit s m base c w = Ok (after_visit base c w) /\ shaped (after_visit base c w).
Proof.
  intros Hc Hp Hs Hw. pose proof Hw as [Hv Hb Ha]. pose proof (idx_range _ Hp) as [Hi Hh].
  destruct (within_near c Hc) as [Hn _]. pose proof (cost_read c Hn) as Hcost.
  assert (getIndex (fst (pos c)) (snd (pos c)) m = idx (pos c)) as Hg by by apply getIndex_idx.
  assert (forall e, e ∈ around c -> near e /\ src e = src c) as Haround.
  { intros e [Hse Had]%elem_of_around. split; [|done]. destruct tables0. unfold within, d2 in Hc.
    apply norm2_bound in Hc as [Hc1 Hc2]; [|lia]. unfold adj, pos, src, near in *. cbn [fst snd] in *.
    injection Hse as -> ->. lia. }
  unfold visit, after_visit. destruct c as [x y sx sy]. cbn [pos fst snd x_ y_] in Hg. rewrite Hg.
  destruct (aget_in (visited w) (idx (pos (mk_cell x y sx sy)))) as [b Eb]; [lia|].
  change (pos (mk_cell x y sx sy)) with (x, y) in *. rewrite Eb, bind_Ok.
  apply aget_ok in Eb as [_ Eb]. change (visited w !! here (x, y) = Some b) in Eb. rewrite Eb. cbn [default].
  destruct b; [by split|]. cbn [from_option].
  rewrite aset_in by lia. rewrite bind_Ok. fold (here (x, y)). rewrite Hcost, bind_Ok.
  destruct (aget_in (master_array w) (idx (x, y))) as [old Eo]; [lia|]. rewrite Eo, bind_Ok. apply aget_ok in Eo as [_ Eo].
  fold (here (x, y)) in Eo. set (vis := <[here (x, y) := true]> (visited w)).
  set (arr := alter (touched base (x, y) (src (mk_cell x y sx sy))) (here (x, y)) (master_array w)).
  assert ((if in_window base x y then aset (master_array w) (idx (x, y)) (merged s old (cost_of (x, y) (src (mk_cell x y sx sy))))
    else Ok (master_array w)) = Ok arr) as Earr.
  { unfold arr. destruct (in_window base x y) eqn:Ew.
    - rewrite aset_in by lia. fold (here (x, y)). f_equal. apply list_eq. intros k.
      destruct (decide (k = here (x, y))) as [-> |Hk].
      + rewrite list_lookup_alter_eq, Eo, list_lookup_insert_eq by (unfold here; lia). cbn. unfold touched. cbn [fst snd]. by rewrite Ew.
      + by rewrite list_lookup_alter_ne, list_lookup_insert_ne by done.
    - f_equal. apply list_eq. intros k. destruct (decide (k = here (x, y))) as [-> |Hk].
      + rewrite list_lookup_alter_eq, Eo. cbn. unfold touched. cbn [fst snd]. by rewrite Ew.
      + by rewrite list_lookup_alter_ne by done. }
  rewrite Earr, bind_Ok.
  assert (forall l, Z.of_nat (length l) = max_dist + 1 -> shaped (mk_wave vis l arr)) as Hsh.
  { intros l Hl. constructor; cbn; [unfold vis; by rewrite length_insert|done|unfold arr; by rewrite length_alter]. }
  destruct Hp as [Hp1 Hp2], map0. cbn [fst snd] in Hp1, Hp2.
  assert (forall e, e ∈ around (mk_cell x y sx sy) -> near e /\ inside W H' (src e)) as Hok.
  { intros e He. destruct (Haround e He) as [? ->]. done. }
  destruct (Hok (mk_cell (x - 1) y sx sy)) as [N1 S1]; [apply list_elem_of_In; cbn; auto 6|].
  destruct (Hok (mk_cell x (y - 1) sx sy)) as [N2 S2]; [apply list_elem_of_In; cbn; auto 6|].
  destruct (Hok (mk_cell (x + 1) y sx sy)) as [N3 S3]; [apply list_elem_of_In; cbn; auto 6|].
  destruct (Hok (mk_cell x (y + 1) sx sy)) as [N4 S4]; [apply list_elem_of_In; cbn; auto 6|].
  unfold idx in *. cbn [fst snd] in *.
  rewrite guarded_enqueue; [rewrite bind_Ok; cbn [visited bins master_array]| | | | |].
  1: rewrite guarded_enqueue; [rewrite bind_Ok; cbn [visited bins master_array]| | | | |].
  1: rewrite guarded_enqueue; [rewrite bind_Ok; cbn [visited bins master_array]| | | | |].
  1: rewrite guarded_enqueue; [split; [reflexivity|]| | | | |].
  all: try done.
  all: try (apply Hsh; cbn [fold_left]; cbn; rewrite ?offer_length; lia).
  all: rewrite ?Z.gtb_ltb, ?Z.ltb_lt, ?(wrapu_id 32 (W - 1)), ?(wrapu_id 32 (H' - 1)) by (unfold in_u; lia).
  all: try (unfold inside, pos; cbn [fst snd x_ y_]; lia).
  all: intros Hin; apply idx_range in Hin as [Hin _]; unfold idx, pos in *; cbn [fst snd x_ y_] in *.
  all: etransitivity; [apply wrapu_id; unfold in_u; lia|lia].
Qed.

(** ** The invariant of the wave

    [G] maps each visited cell to the obstacle whose wave reached it first; [todo] holds the rest of
    the bin of level [d]. *)

Section Invariant.
Context (base : window) (obst : Z * Z -> Prop) (old : list Z).
Context (obst_inside : forall o, obst o -> inside W H' o).

Definition pending (d : Z) (todo : list CellData) (l : list (list CellData)) (e : CellData) : Prop :=
  e ∈ todo \/ exists k bin, d < k /\ l !! Z.to_nat k = Some bin /\ e ∈ bin.

Definition entry (c o : Z * Z) : CellData := mk_cell (fst c) (snd c) (fst o) (snd o).

Record pending_ok (G : gmap (Z * Z) (Z * Z)) (e : CellData) : Prop := {
  e_inside : inside W H' (pos e);
  e_src : obst (src e);
  e_within : within e;
  e_parent : pos e = src e \/
    exists p, adj (pos e) p /\ G !! p = Some (src e) /\ d2 p (src e) < d2 (pos e) (src e) }.

Record inv (d : Z) (todo : list CellData) (G : gmap (Z * Z) (Z * Z)) (w : wave) : Prop := {
  v_shaped : shaped w;
  v_visited : forall p, inside W H' p -> visited w !! here p = Some (bool_decide (is_Some (G !! p)));
  v_array : forall p, inside W H' p ->
    master_array w !! here p = (match G !! p with Some t => touched base p t | None => id end) <$> old !! here p;
  v_seen : forall c t, G !! c = Some t -> obst t /\ inside W H' c /\ within (entry c t) /\ lev (entry c t) <= d;
  v_pending : forall e, pending d todo (bins w) e -> pending_ok G e /\ d <= lev e;
  v_todo : forall e, e ∈ todo -> lev e = d;
  v_bin : forall k bin e, d < k -> bins w !! Z.to_nat k = Some bin -> e ∈ bin -> lev e = k;
  v_done : forall k bin, 0 <= k < d -> bins w !! Z.to_nat k = Some bin -> bin = [];
  v_closer : forall c o n, G !! c = Some o -> adj c n -> d2 n o < d2 c o -> exists t, G !! n = Some t /\ d2 n t <= d2 n o;
  v_relax : forall c o n, G !! c = Some o -> adj c n -> inside W H' n -> d2 n o <= R * R ->
    match G !! n with Some t => d2 n t <= d2 n o | None => pending d todo (bins w) (entry n o) end;
  v_start : forall o, obst o -> G !! o = Some o \/ pending d todo (bins w) (entry o o) }.

Lemma entry_eq e : entry (pos e) (src e) = e.
Proof. by destruct e. Qed.

Lemma pos_entry c o : pos (entry c o) = c.
Proof. by destruct c. Qed.

Lemma src_entry c o : src (entry c o) = o.
Proof. by destruct o. Qed.

Lemma within_entry c o : within (entry c o) <-> d2 c o <= R * R.
Proof. destruct c, o. done. Qed.

Lemma lev_entry c o c' o' : d2 c o <= R * R -> d2 c' o' <= R * R ->
  lev (entry c o) < lev (entry c' o') <-> d2 c o < d2 c' o'.
Proof. intros Hc Hc'. rewrite (lev_order (entry c o) (entry c' o')) by by apply within_entry. by destruct c, o, c', o'. Qed.

Lemma adj_sym a b : adj a b -> adj b a.
Proof. unfold adj. lia. Qed.

(** A step that leads closer to a cell of the map stays on the map. *)
Lemma closer_inside c n o : inside W H' c -> inside W H' o -> adj c n -> d2 n o < d2 c o -> inside W H' n.
Proof.
  destruct c as [c1 c2], o as [s1 s2]. intros [? ?] [? ?] [-> |[-> |[-> | ->]]]%adj_cases;
    unfold d2, norm2, inside; cbn [fst snd] in *; intros ?; split; nia.
Qed.

(** An entry whose cell was visited already is skipped. *)
Lemma skip d e todo G w t : inv d (e :: todo) G w -> G !! pos e = Some t -> inv d todo G w.
Proof.
  intros I Ht.
  assert (forall e', pending d todo (bins w) e' -> pending d (e :: todo) (bins w) e') as Hmono.
  { intros e' [He|He]; [left; by right|by right]. }
  assert (forall e', pos e' <> pos e -> pending d (e :: todo) (bins w) e' -> pending d todo (bins w) e') as Hback.
  { intros e' Hne [He|He]; [|by right]. apply elem_of_cons in He as [-> |He]; [done|by left]. }
  destruct I as [I1 I2 I3 I4 I5 I6 I7 I8 I9 I10 I11]. constructor; try done.
  - intros e' He. by apply I5, Hmono.
  - intros e' He. apply I6. by right.
  - intros c s' n Hc Hn Hin Hd. specialize (I10 c s' n Hc Hn Hin Hd). destruct (G !! n) eqn:En; [done|].
    apply Hback; [|done]. rewrite pos_entry. congruence.
  - intros o Ho. destruct (I11 o Ho) as [?|Hp]; [by left|]. destruct (decide (o = pos e)) as [-> |Hne].
    + left. rewrite Ht. f_equal. destruct (I5 _ Hp) as [Hok Hlev]. destruct (I4 _ _ Ht) as (_ & _ & Hw & Hl).
      apply within_entry in Hw. destruct tables0.
      assert (d2 (pos e) (pos e) = 0) as E0 by by apply d2_zero.
      pose proof (proj2 (lev_entry (pos e) (pos e) (pos e) t ltac:(nia) Hw)) as Hno.
      symmetry. apply d2_zero. pose proof (d2_nonneg (pos e) t). lia.
    + right. apply Hback; [|done]. by rewrite pos_entry.
Qed.

Lemma offered_iff vis e : offered vis e = true <-> inside W H' (pos e) /\ default true (vis !! here (pos e)) = false /\ within e.
Proof.
  unfold offered, within. rewrite !andb_true_iff, bool_decide_eq_true, negb_true_iff, Z.leb_le. tauto.
Qed.

Lemma offers_length vis es : forall l, length (fold_left (offer vis) es l) = length l.
Proof. induction es as [|e es IH]; intros l; [done|]. cbn. by rewrite IH, offer_length. Qed.

(** The cells of the bins after offers. *)
Lemma offers_lookup vis es : forall l k bin e, fold_left (offer vis) es l !! k = Some bin ->
  e ∈ bin <-> (exists bin0, l !! k = Some bin0 /\ e ∈ bin0) \/ (e ∈ es /\ offered vis e = true /\ k = Z.to_nat (lev e)).
Proof.
  induction es as [|e' es IH]; intros l k bin e Hk; cbn [fold_left] in Hk.
  - split; [intros He; left; by exists bin|]. intros [(bin0 & ? & ?)|(He & _)]; [by simplify_eq|by apply elem_of_nil in He].
  - rewrite (IH _ _ _ _ Hk). rewrite elem_of_cons. unfold offer, push. destruct (offered vis e') eqn:Eo.
    + destruct (decide (k = Z.to_nat (lev e'))) as [Ek|Ek].
      * rewrite <- Ek, list_lookup_alter_eq. destruct (l !! k) as [b0|] eqn:El; cbn.
        -- split.
           ++ intros [(bin0 & [= <-] & [He|He%list_elem_of_singleton]%elem_of_app)|(He & ? & ?)]; [left; eauto|subst; right; auto|right; auto].
           ++ intros [(bin0 & [= <-] & He)|([-> |He] & ? & ?)]; [left; eexists; split; [done|]; apply elem_of_app; by left| |right; auto].
              left. eexists. split; [done|]. apply elem_of_app. right. by apply list_elem_of_singleton.
        -- exfalso. apply lookup_lt_Some in Hk. rewrite offers_length, offer_length in Hk. apply lookup_ge_None in El. lia.
      * rewrite list_lookup_alter_ne by done. split.
        -- intros [He|(He & ? & ?)]; [by left|right; auto].
        -- intros [He|([-> |He] & ? & ?)]; [by left|done|right; auto].
    + split.
      * intros [He|(He & ? & ?)]; [by left|right; auto].
      * intros [He|([-> |He] & ? & ?)]; [by left|congruence|right; auto].
Qed.

(** The neighbours of the cell in turn that are closer to its source were visited before. *)
Lemma closer_next d e todo G w n : inv d (e :: todo) G w -> G !! pos e = None -> adj (pos e) n ->
  d2 n (src e) < d2 (pos e) (src e) -> exists t, G !! n = Some t /\ d2 n t <= d2 n (src e).
Proof.
  intros I He Hn Hd. destruct (v_pending _ _ _ _ I e) as [[Hin Hobst Hw Hpar] _]; [left; left|].
  pose proof (v_todo _ _ _ _ I e ltac:(left)) as Hlev. pose proof (obst_inside _ Hobst) as Hsrc.
  pose proof (closer_inside _ _ _ Hin Hsrc Hn Hd) as Hnin.
  destruct Hpar as [Hself|(p & Hp & HGp & Hdp)].
  { exfalso. pose proof (proj2 (d2_zero _ _) Hself). pose proof (d2_nonneg n (src e)). lia. }
  destruct (decide (n = p)) as [-> |Hne]; [eexists; split; [done|lia]|].
  destruct (parallelogram _ _ _ _ Hn Hp Hne Hd Hdp) as (Hqn & Hqp & Hdq & Hpar).
  set (q := (fst n + fst p - fst (pos e), snd n + snd p - snd (pos e))) in *.
  destruct (v_closer _ _ _ _ I p (src e) q HGp (adj_sym _ _ Hqp) Hdq) as (t & HGq & Hqt).
  assert (d2 n t <= d2 n (src e)) as Hnt.
  { apply Hpar; [done|]. destruct (Z.leb_spec (d2 p t) (R * R)) as [Hr|Hr].
    - pose proof (v_relax _ _ _ _ I q t p HGq Hqp ltac:(by eapply v_seen) Hr) as Hrel. by rewrite HGp in Hrel.
    - unfold within in Hw. lia. }
  unfold within in Hw.
  pose proof (v_relax _ _ _ _ I q t n HGq Hqn Hnin ltac:(lia)) as Hrel.
  destruct (G !! n) as [t'|] eqn:En; [exists t'; split; [done|lia]|].
  exfalso. apply (v_pending _ _ _ _ I) in Hrel as [_ Hl].
  pose proof (proj2 (lev_entry n t (pos e) (src e) ltac:(lia) Hw) ltac:(lia)) as Hlt. rewrite entry_eq in Hlt. lia.
Qed.

(** The others that were not visited are further away. *)
Lemma later_next d e todo G w n : inv d (e :: todo) G w -> G !! pos e = None -> adj (pos e) n -> G !! n = None ->
  d2 (pos e) (src e) < d2 n (src e).
Proof.
  intros I He Hn HG. pose proof (d2_step _ _ (src e) Hn). destruct (Z.lt_ge_cases (d2 n (src e)) (d2 (pos e) (src e))) as [Hlt|]; [|lia].
  destruct (closer_next d e todo G w n I He Hn Hlt) as (t & ? & _). congruence.
Qed.

(** Visited cells of [G] and the bits after a visit. *)
Lemma visited_insert (G : gmap (Z * Z) (Z * Z)) c o (vis : list bool) p : inside W H' c -> inside W H' p ->
  (forall p, inside W H' p -> vis !! here p = Some (bool_decide (is_Some (G !! p)))) ->
  <[here c := true]> vis !! here p = Some (bool_decide (is_Some (<[c := o]> G !! p))).
Proof.
  intros Hc Hp Hv. destruct (decide (c = p)) as [-> |Hne].
  - rewrite list_lookup_insert_eq by (eapply lookup_lt_Some; by apply Hv). rewrite lookup_insert_eq. by rewrite bool_decide_true by eauto.
  - rewrite list_lookup_insert_ne, lookup_insert_ne by (done || intros E; apply Hne; by apply idx_inj). by apply Hv.
Qed.

Section Advance.
Context (d : Z) (e : CellData) (todo : list CellData) (G : gmap (Z * Z) (Z * Z)) (w : wave).
Context (I : inv d (e :: todo) G w) (fresh : G !! pos e = None) (level_ok : 0 <= d <= max_dist).

Abbreviation G' := (<[pos e := src e]> G).
Abbreviation w' := (after_visit base e w).
Abbreviation vis' := (<[here (pos e) := true]> (visited w)).

Lemma turn_ok : inside W H' (pos e) /\ obst (src e) /\ within e /\ lev e = d.
Proof.
  destruct (v_pending _ _ _ _ I e) as [[? ? ? ?] _]; [left; left|]. by pose proof (v_todo _ _ _ _ I e ltac:(left)).
Qed.

Lemma after_fresh : w' = mk_wave vis' (fold_left (offer vis') (around e) (bins w))
  (alter (touched base (pos e) (src e)) (here (pos e)) (master_array w)).
Proof.
  destruct turn_ok as (Hin & _). unfold after_visit. rewrite (v_visited _ _ _ _ I) by done. rewrite fresh.
  by rewrite bool_decide_false by (by intros [? ?]).
Qed.

Lemma offered_next n : offered vis' (entry n (src e)) = true <-> inside W H' n /\ G' !! n = None /\ d2 n (src e) <= R * R.
Proof.
  destruct turn_ok as (Hin & _). rewrite offered_iff, within_entry, pos_entry. split; intros (Hn & Hv & ?); split_and!; try done.
  - rewrite (visited_insert G (pos e) (src e)) in Hv by (done || apply (v_visited _ _ _ _ I)). cbn in Hv.
    apply bool_decide_eq_false in Hv. by apply eq_None_not_Some.
  - rewrite (visited_insert G (pos e) (src e)) by (done || apply (v_visited _ _ _ _ I)). by rewrite Hv.
Qed.

(** What is offered goes to a later bin. *)
Lemma offered_later e' : e' ∈ around e -> offered vis' e' = true -> d < lev e' <= max_dist /\
  pending_ok G' e' /\ src e' = src e.
Proof.
  intros [Hs Ha]%elem_of_around Ho. destruct turn_ok as (Hin & Hobst & Hw & Hl).
  rewrite <- (entry_eq e'), Hs in Ho. apply offered_next in Ho as (Hn & HG & Hd).
  rewrite lookup_insert_None in HG. destruct HG as [HG Hne].
  pose proof (later_next d e todo G w (pos e') I fresh Ha HG) as Hlt.
  assert (within e') as Hw' by (unfold within; by rewrite Hs).
  split; [split|split].
  - rewrite <- Hl. apply lev_order; [done..|]. by rewrite Hs.
  - by apply lev_range.
  - constructor; [done|by rewrite Hs|done|]. right. exists (pos e). split; [by apply adj_sym|]. rewrite Hs, lookup_insert_eq. done.
  - done.
Qed.

Lemma pending_next e' : pending d todo (bins w') e' <->
  pending d todo (bins w) e' \/ (e' ∈ around e /\ offered vis' e' = true).
Proof.
  rewrite after_fresh. cbn [bins]. unfold pending. destruct turn_ok as (_ & _ & _ & Hl).
  destruct (v_shaped _ _ _ _ I) as [_ Hb _]. split.
  - intros [?|(k & bin & Hk & Hbin & He)]; [by left; left|]. apply (offers_lookup _ _ _ _ _ _ Hbin) in He as [(bin0 & ? & ?)|(? & ? & _)]; [|by right].
    left. right. by exists k, bin0.
  - intros [[?|(k & bin & Hk & Hbin & He)]|[Ha Ho]]; [by left|right|right].
    + destruct (lookup_lt_is_Some_2 (fold_left (offer vis') (around e) (bins w)) (Z.to_nat k)) as [bin' Hbin'].
      { rewrite offers_length. by eapply lookup_lt_Some. }
      exists k, bin'. split; [done|]. split; [done|]. apply (offers_lookup _ _ _ _ _ _ Hbin'). left. by exists bin.
    + destruct (offered_later e' Ha Ho) as ((? & ?) & _).
      destruct (lookup_lt_is_Some_2 (fold_left (offer vis') (around e) (bins w)) (Z.to_nat (lev e'))) as [bin' Hbin'].
      { rewrite offers_length. lia. }
      exists (lev e'), bin'. split; [done|]. split; [done|]. apply (offers_lookup _ _ _ _ _ _ Hbin'). by right.
Qed.

(** The bins up to the level in turn keep their cells. *)
Lemma bins_kept k : 0 <= k <= d -> bins w' !! Z.to_nat k = bins w !! Z.to_nat k.
Proof.
  intros Hk. rewrite after_fresh. cbn [bins].
  assert (forall es l, (forall e', e' ∈ es -> e' ∈ around e) -> fold_left (offer vis') es l !! Z.to_nat k = l !! Z.to_nat k) as Hgen.
  { induction es as [|e' es IH]; intros l Hes; [done|]. cbn. rewrite IH by (intros; apply Hes; by right).
    unfold offer, push. destruct (offered vis' e') eqn:Ho; [|done].
    destruct (offered_later e' ltac:(apply Hes; left) Ho) as (? & _). rewrite list_lookup_alter_ne; [done|lia]. }
  by apply Hgen.
Qed.

Lemma pending_ok_grows e' : pending_ok G e' -> pending_ok G' e'.
Proof.
  intros [? ? ? Hp]. constructor; try done. destruct Hp as [?|(p & ? & HG & ?)]; [by left|right].
  exists p. split; [done|]. split; [|done]. rewrite lookup_insert_ne; [done|]. congruence.
Qed.

(** The cell in turn is visited with the obstacle its entry came from. *)
Lemma advance : inv d todo G' w'.
Proof.
  destruct turn_ok as (Hin & Hobst & Hw & Hl). pose proof (obst_inside _ Hobst) as Hsrc. pose proof (v_shaped _ _ _ _ I) as Hshape.
  assert (forall c t, G !! c = Some t -> c <> pos e) as Hold by (intros c t Hc ->; congruence).
  assert (forall e', pos e' <> pos e -> pending d (e :: todo) (bins w) e' -> pending d todo (bins w') e') as Hkeep.
  { intros e' Hne Hp. apply pending_next. left. destruct Hp as [Hp|Hp]; [|by right].
    apply elem_of_cons in Hp as [-> |Hp]; [done|by left]. }
  assert (forall e', pending d todo (bins w) e' -> pending d (e :: todo) (bins w) e') as Hmono.
  { intros e' [He|He]; [left; by right|by right]. }
  (* an entry for the cell in turn comes from an obstacle that is at least as far *)
  assert (forall o, pending d (e :: todo) (bins w) (entry (pos e) o) -> d2 (pos e) (src e) <= d2 (pos e) o) as Hsame.
  { intros o [[_ _ Hwo _] Hlo]%(v_pending _ _ _ _ I). apply within_entry in Hwo.
    pose proof (proj2 (lev_entry (pos e) o (pos e) (src e) Hwo Hw)) as Hlt. rewrite entry_eq in Hlt.
    pose proof (lev_range _ Hw). lia. }
  constructor.
  - by destruct (visit_ok base e w Hw Hin Hsrc Hshape).
  - intros p Hp. rewrite after_fresh. cbn [visited]. apply visited_insert; [done..|]. apply (v_visited _ _ _ _ I).
  - intros p Hp. rewrite after_fresh. cbn [master_array]. pose proof (v_array _ _ _ _ I p Hp) as Ha.
    destruct (decide (p = pos e)) as [-> |Hne].
    + rewrite list_lookup_alter_eq, lookup_insert_eq, Ha, fresh, <- list_lookup_fmap. by rewrite list_lookup_fmap; destruct (old !! here (pos e)).
    + rewrite list_lookup_alter_ne, lookup_insert_ne by (done || intros E; apply Hne; by apply idx_inj). done.
  - intros c t [[<- <-]|[Hne Hc]]%lookup_insert_Some; [|by eapply v_seen].
    rewrite entry_eq. split_and!; try done. lia.
  - intros e' [Hp|[Ha Ho]]%pending_next.
    + apply Hmono, (v_pending _ _ _ _ I) in Hp as [? ?]. split; [by apply pending_ok_grows|done].
    + destruct (offered_later e' Ha Ho) as (? & ? & _). split; [done|lia].
  - intros e' He'. apply (v_todo _ _ _ _ I). by right.
  - intros k bin e' Hk Hbin He'. rewrite after_fresh in Hbin. cbn [bins] in Hbin.
    apply (offers_lookup _ _ _ _ _ _ Hbin) in He' as [(bin0 & ? & ?)|(Ha & Ho & Hk')]; [by eapply v_bin|].
    destruct (offered_later e' Ha Ho) as ((? & ?) & _). lia.
  - intros k bin Hk Hbin. rewrite bins_kept in Hbin by lia. by eapply v_done.
  - intros c o n [[<- <-]|[Hne Hc]]%lookup_insert_Some Hn Hd.
    + destruct (closer_next d e todo G w n I fresh Hn Hd) as (t & Ht & Hle). exists t. split; [|done].
      rewrite lookup_insert_ne; [done|]. intros E. by eapply Hold.
    + destruct (v_closer _ _ _ _ I c o n Hc Hn Hd) as (t & Ht & Hle). exists t. split; [|done].
      rewrite lookup_insert_ne; [done|]. intros E. by eapply Hold.
  - intros c o n [[<- <-]|[Hne Hc]]%lookup_insert_Some Hn Hnin Hd.
    + assert (n <> pos e) as Hne by (intros ->; unfold adj in Hn; lia). rewrite lookup_insert_ne by done.
      destruct (G !! n) as [t|] eqn:En.
      * destruct (Z.lt_ge_cases (d2 n (src e)) (d2 (pos e) (src e))) as [Hlt|Hge].
        -- destruct (closer_next d e todo G w n I fresh Hn Hlt) as (t' & Ht & Hle). congruence.
        -- destruct (v_seen _ _ _ _ I _ _ En) as (_ & _ & Hwt & Hlt). apply within_entry in Hwt.
           pose proof (proj2 (lev_entry (pos e) (src e) n t Hw Hwt)) as Hno. rewrite entry_eq in Hno. lia.
      * apply pending_next. right. split.
        -- apply elem_of_around. rewrite src_entry, pos_entry. done.
        -- apply offered_next. rewrite lookup_insert_ne by done. done.
    + pose proof (v_relax _ _ _ _ I c o n Hc Hn Hnin Hd) as Hrel. destruct (decide (n = pos e)) as [-> |Hne'].
      * rewrite lookup_insert_eq. rewrite fresh in Hrel. by apply Hsame.
      * rewrite lookup_insert_ne by done. destruct (G !! n); [done|]. apply Hkeep; [|done]. by rewrite pos_entry.
  - intros o Ho. destruct (v_start _ _ _ _ I o Ho) as [Hs|Hs].
    + left. rewrite lookup_insert_ne; [done|]. intros E. by eapply Hold.
    + destruct (decide (o = pos e)) as [-> |Hne].
      * left. rewrite lookup_insert_eq. f_equal. apply Hsame in Hs. rewrite (proj2 (d2_zero (pos e) (pos e)) eq_refl) in Hs.
        symmetry. apply d2_zero. pose proof (d2_nonneg (pos e) (src e)). lia.
      * right. apply Hkeep; [|done]. by rewrite pos_entry.
Qed.
End Advance.

(** Every entry of the bin is processed and the level ends with an empty bin. *)
Lemma process_bin_ok d bin : 0 <= d <= max_dist -> forall rounds i G w,
  inv d (drop i bin) G w -> bins w !! Z.to_nat d = Some bin -> (rounds + i = length bin)%nat ->
  exists G' w', process_bin s m rounds base d (Z.of_nat i) w = Ok w' /\ inv d [] G' w' /\ bins w' !! Z.to_nat d = Some [].
Proof.
  intros Hd. induction rounds as [|rounds IH]; intros i G w I Hbin Hlen; cbn [process_bin].
  - pose proof (v_shaped _ _ _ _ I) as [Hv Hb Ha].
    assert (aget (bins w) d = Ok bin) as -> by (apply aget_ok; split; [lia|done]). rewrite bind_Ok.
    rewrite (proj2 (Z.ltb_ge _ _)) by lia. rewrite aset_in by lia. rewrite bind_Ok.
    rewrite drop_ge in I by lia. exists G. eexists. split; [done|]. split; [|cbn; by rewrite list_lookup_insert_eq by lia].
    assert (forall k bin', <[Z.to_nat d := []]> (bins w) !! Z.to_nat k = Some bin' -> d < k -> bins w !! Z.to_nat k = Some bin') as Hl.
    { intros k bin' Hk Hlt. by rewrite list_lookup_insert_ne in Hk by lia. }
    assert (forall e, pending d [] (<[Z.to_nat d := []]> (bins w)) e <-> pending d [] (bins w) e) as Hp.
    { intros e. split; (intros [?|(k & b & ? & Hk & ?)]; [by left|right; exists k, b; split; [done|]]).
      - split; [by apply Hl|done].
      - split; [|done]. by rewrite list_lookup_insert_ne by lia. }
    destruct I as [I1 I2 I3 I4 I5 I6 I7 I8 I9 I10 I11]. constructor; cbn [bins visited master_array]; try done.
    + constructor; cbn; rewrite ?length_insert; lia.
    + intros e He. apply I5. by apply Hp.
    + intros k b e Hk Hb' He. eapply I7; [done| |done]. by apply Hl.
    + intros k b Hk Hb'. rewrite list_lookup_insert_ne in Hb' by lia. by eapply I8.
    + intros c o n Hc Hn Hin Hr. specialize (I10 c o n Hc Hn Hin Hr). destruct (G !! n); [done|]. by apply Hp.
    + intros o Ho. destruct (I11 o Ho); [by left|right; by apply Hp].
  - pose proof (v_shaped _ _ _ _ I) as [Hv Hb Ha].
    assert (aget (bins w) d = Ok bin) as -> by (apply aget_ok; split; [lia|done]). rewrite bind_Ok.
    rewrite (proj2 (Z.ltb_lt _ _)) by lia. destruct (lookup_lt_is_Some_2 bin i ltac:(lia)) as [e He].
    assert (aget bin (Z.of_nat i) = Ok e) as -> by (apply aget_ok; split; [lia|by rewrite Nat2Z.id]). rewrite bind_Ok.
    rewrite (drop_S bin e i He) in I.
    destruct (v_pending _ _ _ _ I e) as [[Hin Hobst Hw _] _]; [left; left|].
    destruct (visit_ok base e w Hw Hin (obst_inside _ Hobst) (v_shaped _ _ _ _ I)) as [-> _]. rewrite bind_Ok.
    replace (Z.of_nat i + 1) with (Z.of_nat (S i)) by lia. destruct (G !! pos e) as [t|] eqn:Et.
    + apply (IH (S i) G); [|..|lia].
      * unfold after_visit. rewrite (v_visited _ _ _ _ I) by done. rewrite Et. cbn. by eapply skip.
      * unfold after_visit. rewrite (v_visited _ _ _ _ I) by done. by rewrite Et.
    + apply (IH (S i) (<[pos e := src e]> G)); [by apply advance| |lia]. by rewrite (bins_kept d e (drop (S i) bin) G w) by (done || lia).
Qed.

(** With an empty bin the next level is in turn. *)
Lemma next_level d G w : 0 <= d -> inv d [] G w -> bins w !! Z.to_nat d = Some [] ->
  inv (d + 1) (default [] (bins w !! Z.to_nat (d + 1))) G w.
Proof.
  intros Hd0 I Hd. assert (forall e, pending (d + 1) (default [] (bins w !! Z.to_nat (d + 1))) (bins w) e <-> pending d [] (bins w) e) as Hp.
  { intros e. split.
    - intros [He|(k & b & ? & Hk & ?)].
      + destruct (bins w !! Z.to_nat (d + 1)) as [b|] eqn:Eb; [|by apply elem_of_nil in He]. right. exists (d + 1), b. split; [lia|done].
      + right. exists k, b. split; [lia|done].
    - intros [?%elem_of_nil|(k & b & ? & Hk & ?)]; [done|]. destruct (decide (k = d + 1)) as [-> |Hne]; [left; by rewrite Hk|].
      right. exists k, b. split; [lia|done]. }
  destruct I as [I1 I2 I3 I4 I5 I6 I7 I8 I9 I10 I11].
  assert (forall e, pending d [] (bins w) e -> d + 1 <= lev e) as Hlev.
  { intros e [?%elem_of_nil|(k & b & Hk & Hb & He)]; [done|]. rewrite (I7 k b e Hk Hb He). lia. }
  constructor; try done.
  - intros c t Hc. destruct (I4 c t Hc) as (? & ? & ? & ?). split_and!; try done. lia.
  - intros e He%Hp. split; [by apply I5|by apply Hlev].
  - intros e He. destruct (bins w !! Z.to_nat (d + 1)) as [b|] eqn:Eb; [|by apply elem_of_nil in He]. eapply I7; [|done..]. lia.
  - intros k b e Hk. apply I7. lia.
  - intros k b Hk Hb. destruct (decide (k = d)) as [-> |Hne]; [congruence|]. eapply I8; [|done]. lia.
  - intros c o n Hc Hn Hin Hr. specialize (I10 c o n Hc Hn Hin Hr). destruct (G !! n); [done|]. by apply Hp.
  - intros o Ho. destruct (I11 o Ho); [by left|right; by apply Hp].
Qed.

(** The levels in turn, up to the last one. *)
Lemma levels_done n : forall d G w, 0 <= d -> d + Z.of_nat n = max_dist + 1 ->
  inv d (default [] (bins w !! Z.to_nat d)) G w ->
  exists G' w', for_each n d (process_level s m base) w = Ok w' /\ inv (max_dist + 1) [] G' w'.
Proof.
  induction n as [|n IH]; intros d G w Hd Hn I; cbn [for_each]; pose proof (v_shaped _ _ _ _ I) as [Hv Hb Ha].
  - exists G, w. split; [done|]. replace (max_dist + 1) with d by lia.
    rewrite lookup_ge_None_2 in I by lia. done.
  - destruct (lookup_lt_is_Some_2 (bins w) (Z.to_nat d) ltac:(lia)) as [bin Hbin]. rewrite Hbin in I. cbn in I.
    destruct (process_bin_ok d bin ltac:(lia) (length bin) 0 G w I Hbin ltac:(lia)) as (G1 & w1 & H1 & I1 & Hb1).
    assert (process_level s m base d w = Ok w1) as ->.
    { unfold process_level. assert (aget (bins w) d = Ok bin) as -> by (apply aget_ok; split; [lia|done]). done. }
    rewrite bind_Ok. apply (IH (d + 1) G1 w1); [lia..|]. by apply next_level.
Qed.

(** City block distance. *)
Definition blocks (a b : Z * Z) : Z := Z.abs (fst a - fst b) + Z.abs (snd a - snd b).

Lemma block_step a b : inside W H' a -> inside W H' b -> a <> b ->
  exists a', inside W H' a' /\ adj a' a /\ blocks a' b = blocks a b - 1.
Proof.
  destruct a as [a1 a2], b as [b1 b2]. intros [? ?] [? ?] Hne. unfold inside, adj, blocks. cbn [fst snd] in *.
  destruct (Z.lt_trichotomy a1 b1) as [?|[-> |?]].
  - exists (a1 + 1, a2). cbn. lia.
  - destruct (Z.lt_trichotomy a2 b2) as [?|[-> |?]]; [exists (b1, a2 + 1); cbn; lia|done|exists (b1, a2 - 1); cbn; lia].
  - exists (a1 - 1, a2). cbn. lia.
Qed.

(** When nothing waits, the wave reached everything near an obstacle. *)
Lemma all_reached d G w o : inv d [] G w -> max_dist < d -> obst o -> forall k p, inside W H' p -> blocks p o = Z.of_nat k ->
  Z.of_nat k <= R -> exists t, G !! p = Some t /\ d2 p t <= Z.of_nat k * Z.of_nat k.
Proof.
  intros I Hd Ho. assert (forall e, ~ pending d [] (bins w) e) as Hno.
  { intros e He. destruct (v_pending _ _ _ _ I e He) as [[_ _ Hw _] Hl]. pose proof (lev_range e Hw). lia. }
  induction k as [|k IH]; intros p Hp Hk HR.
  - assert (p = o) as -> by (destruct p, o; unfold blocks in Hk; cbn in Hk; f_equal; lia).
    destruct (v_start _ _ _ _ I o Ho) as [HG|He]; [|by apply Hno in He]. exists o. split; [done|]. by rewrite (proj2 (d2_zero o o) eq_refl).
  - assert (p <> o) as Hne by (intros ->; unfold blocks in Hk; lia).
    destruct (block_step p o Hp (obst_inside _ Ho) Hne) as (p' & Hp' & Had & Hb).
    destruct (IH p' Hp' ltac:(lia) ltac:(lia)) as (t & HG & Ht).
    pose proof (d2_far p' p t (Z.of_nat k) ltac:(lia) Had Ht) as Hfar.
    pose proof (v_relax _ _ _ _ I p' t p HG Had Hp ltac:(nia)) as Hrel.
    destruct (G !! p) as [t'|]; [|by apply Hno in Hrel]. exists t'. split; [done|]. nia.
Qed.
End Invariant.

(** ** An update *)

Definition wave_source (cost : Z) : bool := (cost =? LETHAL_OBSTACLE) || (inflate_around_unknown_ s && (cost =? NO_INFORMATION)).
Definition obstacle (p : Z * Z) : Prop := inside W H' p /\ exists cost, cells m !! here p = Some cost /\ wave_source cost = true.
Definition of_window (b : window) (p : Z * Z) : Prop := min_i b <= fst p < max_i b /\ min_j b <= snd p < max_j b.
Definition window_ok (b : window) : Prop := 0 <= min_i b /\ max_i b <= W /\ 0 <= min_j b /\ max_j b <= H'.

Lemma of_window_inside b p : window_ok b -> of_window b p -> inside W H' p.
Proof. unfold window_ok, of_window, inside. lia. Qed.

Lemma in_window_iff b p : inside W H' p -> in_window b (fst p) (snd p) = true <-> of_window b p.
Proof.
  intros [? ?]. destruct map0. unfold in_window, of_window. rewrite !wraps_id by (lia || (unfold in_s; lia)).
  rewrite !andb_true_iff, !Z.geb_le, !Z.ltb_lt. lia.
Qed.

Lemma add_obstacle_ok i j bin : inside W H' (i, j) ->
  exists cost, cells m !! here (i, j) = Some cost /\
    add_obstacle s m (cells m) i j bin = Ok (if wave_source cost then bin ++ [entry (i, j) (i, j)] else bin).
Proof.
  intros Hp. pose proof (idx_range _ Hp) as [Hi _]. destruct map0.
  destruct (aget_in (cells m) (idx (i, j))) as [cost Hc]; [lia|]. exists cost. unfold add_obstacle.
  pose proof (getIndex_idx (i, j) Hp) as Hg. cbn [fst snd] in Hg. rewrite Hg, wraps_id by (lia || (unfold in_s; lia)).
  rewrite Hc. split; [by apply aget_ok in Hc as [_ Hc]|done].
Qed.

(** The obstacles of the rows before [j], and of row [j] before column [i]. *)
Definition collected (b : window) (i j : Z) (bin : list CellData) : Prop := forall e, e ∈ bin <->
  exists p, e = entry p p /\ of_window b p /\ obstacle p /\ (snd p < j \/ (snd p = j /\ fst p < i)).

Lemma collect_row b j bin : window_ok b -> min_j b <= j < max_j b -> collected b (min_i b) j bin ->
  exists bin', for_each (Z.to_nat (max_i b - min_i b)) (min_i b) (fun i bin => add_obstacle s m (cells m) i j bin) bin = Ok bin' /\
    collected b (min_i b) (j + 1) bin'.
Proof.
  intros Hb Hj Hc.
  destruct (for_each_inv (fun i bin => collected b i j bin) (fun i bin => add_obstacle s m (cells m) i j bin)
    (Z.to_nat (max_i b - min_i b)) (min_i b) bin Hc) as (bin' & H1 & H2).
  - intros i l Hi Hl. assert (of_window b (i, j)) as Hw by (unfold of_window; cbn; lia).
    destruct (add_obstacle_ok i j l (of_window_inside _ _ Hb Hw)) as (cost & Hcost & ->).
    eexists. split; [done|]. intros e. destruct (wave_source cost) eqn:Es.
    + rewrite elem_of_app, list_elem_of_singleton, (Hl e). split.
      * intros [(p & -> & ? & ? & ?)| ->]; [exists p; split_and!; try done; lia|]. exists (i, j). split_and!; try done; [|cbn; lia].
        split; [by eapply of_window_inside|]. by exists cost.
      * intros (p & -> & ? & ? & Ho). destruct (decide (p = (i, j))) as [-> |Hne]; [by right|]. left. exists p. split_and!; try done.
        destruct p as [px py]. cbn in *. assert (px <> i \/ py <> j) by (destruct (decide (px = i)), (decide (py = j)); subst; auto). lia.
    + rewrite (Hl e). split; (intros (p & -> & ? & Hob & Ho); exists p; split_and!; try done); [lia|].
      destruct (decide (p = (i, j))) as [-> |Hne].
      * destruct Hob as (_ & c & ? & ?). congruence.
      * destruct p as [px py]. cbn in *. assert (px <> i \/ py <> j) by (destruct (decide (px = i)), (decide (py = j)); subst; auto). lia.
  - exists bin'. split; [done|]. intros e. rewrite (H2 e).
    split; (intros (p & -> & Hw & ? & ?); exists p; split_and!; try done; unfold of_window in Hw; lia).
Qed.

Lemma collect_ok b : window_ok b -> exists bin, collect_obstacles s m (cells m) b [] = Ok bin /\
  forall e, e ∈ bin <-> exists p, e = entry p p /\ of_window b p /\ obstacle p.
Proof.
  intros Hb. unfold collect_obstacles.
  destruct (for_each_inv (fun j bin => collected b (min_i b) j bin)
    (fun j bin => for_each (Z.to_nat (max_i b - min_i b)) (min_i b) (fun i bin => add_obstacle s m (cells m) i j bin) bin)
    (Z.to_nat (max_j b - min_j b)) (min_j b) []) as (bin & -> & Hbin).
  - intros e. rewrite elem_of_nil. split; [done|]. intros (p & _ & Hw & _ & Ho). unfold of_window in Hw. lia.
  - intros j l Hj Hl. apply collect_row; [done|lia|done].
  - exists bin. split; [done|]. intros e. rewrite (Hbin e).
    split.
    + intros (p & -> & Hw & ? & _). by exists p.
    + intros (p & -> & Hw & ?). exists p. split_and!; try done. unfold of_window in Hw. lia.
Qed.

(** The window of the obstacles. *)
Definition wide (b : window) : window :=
  mk_window (Z.max 0 (min_i b - R)) (Z.max 0 (min_j b - R)) (Z.min W (max_i b + R)) (Z.min H' (max_j b + R)).

Lemma widened_ok b : window_ok b -> min_i b <= max_i b -> min_j b <= max_j b -> widened s m b = Ok (wide b) /\ window_ok (wide b).
Proof.
  intros Hb ? ?. destruct tables0, map0. unfold window_ok in Hb. unfold widened, wide. rewrite !(wraps_id 32) by (lia || (unfold in_s; lia)).
  rewrite !chk_in by (unfold in_s; lia). rewrite !bind_Ok. split; [done|]. unfold window_ok. cbn. lia.
Qed.

(** A cell of the inflated map: its old cost merged with that of its distance to an obstacle. *)
Definition inflated (base : window) (cells' : list Z) (p t : Z * Z) : Prop :=
  obstacle t /\ d2 p t <= R * R /\ cells' !! here p = touched base p t <$> cells m !! here p.

Lemma inflation_update_ok base : enabled_ s = true -> inflation_cells_ s = replicate (Z.to_nat (max_dist + 1)) [] ->
  window_ok base -> min_i base <= max_i base -> min_j base <= max_j base ->
  exists seen cells', updateCosts base s m =
      Ok (set_flags (enabled_ s) true (need_reinflation_ s) (set_bins (inflation_cells_ s) (set_seen seen s)), set_cells cells' m) /\
    length cells' = length (cells m) /\
    (forall p, inside W H' p -> cells' !! here p = cells m !! here p \/ exists t, inflated base cells' p t) /\
    forall p o, of_window base p -> obstacle o -> blocks p o <= R ->
      exists t, inflated base cells' p t /\ d2 p t <= blocks p o * blocks p o.
Proof.
  intros Hen Hbins Hb Hi Hj. destruct (widened_ok base Hb Hi Hj) as [Hwide Hwok].
  destruct (collect_ok (wide base) Hwok) as (obs & Hobs & Hin). pose proof tables0 as [HR _ _ _ Hmax [_ [_ [_ Hcentre]]]]. pose proof map0 as [Hx Hy Hsize Hcells].
  unfold updateCosts. rewrite Hen. cbn [negb orb]. rewrite (proj2 (Z.eqb_neq _ _)) by lia. rewrite Hwide, bind_Ok.
  assert (aget (inflation_cells_ s) 0 = Ok []) as ->.
  { apply aget_ok. rewrite Hbins. split; [lia|]. apply lookup_replicate. split; [done|lia]. }
  rewrite bind_Ok, Hobs, bind_Ok. rewrite aset_in by (rewrite Hbins, length_replicate; lia). rewrite bind_Ok, length_insert, Hbins, length_replicate.
  rewrite wrapu_id by (unfold in_u; lia). set (seen0 := replicate (Z.to_nat (W * H')) false).
  set (obst := fun o => of_window (wide base) o /\ obstacle o).
  assert (forall o, obst o -> inside W H' o) as Hoin by (intros o [Ho _]; by eapply of_window_inside).
  assert (forall o, obstacle o -> d2 o o = 0) as Hself by (intros; by apply d2_zero).
  assert (forall o, lev (entry o o) = 0) as Hl0.
  { intros o. unfold lev. destruct o. unfold entry. cbn. by rewrite !Z.sub_diag. }
  set (w0 := mk_wave seen0 (<[Z.to_nat 0 := obs]> (replicate (Z.to_nat (max_dist + 1)) [])) (cells m)).
  assert (forall e, e ∈ obs -> exists o, e = entry o o /\ obst o) as Hobs' by (intros e (o & ? & ? & ?)%Hin; by exists o).
  assert (forall k bin, 0 < k -> bins w0 !! Z.to_nat k = Some bin -> bin = []) as Hrest.
  { intros k bin Hk Hbin. unfold w0 in Hbin. cbn [bins] in Hbin. rewrite list_lookup_insert_ne in Hbin by lia. by apply lookup_replicate in Hbin as [? _]. }
  assert (inv base obst (cells m) 0 (default [] (bins w0 !! Z.to_nat 0)) ∅ w0) as I.
  { assert (default [] (bins w0 !! Z.to_nat 0) = obs) as ->.
    { unfold w0. cbn [bins]. rewrite list_lookup_insert_eq; [done|]. rewrite length_replicate. lia. }
    constructor; try (intros * Hc; by rewrite lookup_empty in Hc).
    - unfold w0. constructor; cbn; rewrite ?length_insert; unfold seen0; rewrite ?length_replicate; lia.
    - intros p Hp. rewrite lookup_empty, bool_decide_false by (by intros [? ?]). unfold w0, seen0. cbn [visited].
      apply lookup_replicate. split; [done|]. pose proof (idx_range p Hp). unfold here. lia.
    - intros p Hp. rewrite lookup_empty. unfold w0. cbn. by destruct (cells m !! here p).
    - intros e [He|(k & bin & Hk & Hbin & He)]; [|rewrite (Hrest k bin Hk Hbin) in He; by apply elem_of_nil in He].
      destruct (Hobs' e He) as (o & -> & Ho). rewrite Hl0. split; [|lia]. constructor; rewrite ?pos_entry, ?src_entry; [by apply Hoin|done| |by left].
      apply within_entry. rewrite (proj2 (d2_zero o o) eq_refl). nia.
    - intros e He. destruct (Hobs' e He) as (o & -> & Ho). apply Hl0.
    - intros k bin e Hk Hbin He. rewrite (Hrest k bin Hk Hbin) in He. by apply elem_of_nil in He.
    - intros k bin Hk. lia.
    - intros o [? ?]. right. left. apply Hin. by exists o. }
  destruct (levels_done base obst (cells m) Hoin (Z.to_nat (max_dist + 1)) 0 ∅ w0 ltac:(lia) ltac:(lia) I) as (G & w & -> & If).
  rewrite bind_Ok. pose proof (v_shaped _ _ _ _ _ _ _ If) as [Hv Hbw Ha].
  assert (bins w = replicate (Z.to_nat (max_dist + 1)) []) as ->.
  { apply list_eq. intros k. destruct (decide (k < length (bins w))%nat) as [Hk|Hk].
    - destruct (lookup_lt_is_Some_2 _ _ Hk) as [bin Hbin]. rewrite Hbin.
      assert (bin = []) as -> by (apply (v_done _ _ _ _ _ _ _ If (Z.of_nat k)); [lia|by rewrite Nat2Z.id]).
      symmetry. apply lookup_replicate. split; [done|lia].
    - rewrite !lookup_ge_None_2; [done|rewrite length_replicate; lia|lia]. }
  exists (visited w), (master_array w). split; [done|]. split; [lia|].
  assert (forall p t, inside W H' p -> G !! p = Some t -> inflated base (master_array w) p t) as Hinf.
  { intros p t Hp HG. destruct (v_seen _ _ _ _ _ _ _ If p t HG) as ([_ ?] & _ & Hw & _). apply within_entry in Hw.
    split; [done|]. split; [done|]. rewrite (v_array _ _ _ _ _ _ _ If p Hp), HG. done. }
  split.
  - intros p Hp. destruct (G !! p) as [t|] eqn:HG; [right; exists t; by apply Hinf|left].
    rewrite (v_array _ _ _ _ _ _ _ If p Hp), HG. by destruct (cells m !! here p).
  - intros p o Hp Ho Hk. pose proof (of_window_inside _ _ Hb Hp) as Hpin.
    assert (obst o) as Hobst.
    { split; [|done]. destruct Ho as [[? ?] _]. unfold of_window, wide, blocks in *. cbn. lia. }
    assert (0 <= blocks p o) as Hk0 by (unfold blocks; lia).
    destruct (all_reached base obst (cells m) Hoin _ G w o If ltac:(lia) Hobst (Z.to_nat (blocks p o)) p Hpin ltac:(lia) ltac:(lia)) as (t & HG & Ht).
    exists t. split; [by apply Hinf|]. by rewrite Z2Nat.id in Ht.
Qed.
End Wave.

(** ** The tables *)

Section TableLaws.
Context `{Falloff}.

(** The distances are those of the radius they were computed for. *)
Definition distances_ok (s : inflation) : Prop :=
  cached_cell_inflation_radius_ s = 0 \/
  (cached_distances_ s = distance_table (cached_cell_inflation_radius_ s + 2) /\
   Z.of_nat (length (cached_costs_ s)) = (cached_cell_inflation_radius_ s + 2) * (cached_cell_inflation_radius_ s + 2)).

(** Each tabulated cost is the one of its distance. *)
Definition costs_ok (s : inflation) : Prop := forall a b, 0 <= a < cache_length_ s -> 0 <= b < cache_length_ s ->
  exists c, cached_costs_ s !! Z.to_nat (a * cache_length_ s + b) = Some c /\
    computeCost (hypot (f64_of_Z a) (f64_of_Z b)) s = Ok c.

Lemma distance_table_lookup k a b : 0 <= a < k -> 0 <= b < k ->
  distance_table k !! Z.to_nat (a * k + b) = Some (hypot (f64_of_Z a) (f64_of_Z b)).
Proof.
  intros Ha Hb. replace (Z.to_nat (a * k + b)) with (Z.to_nat a * Z.to_nat k + Z.to_nat b)%nat by nia.
  apply (table_lookup (fun i j => hypot (f64_of_Z i) (f64_of_Z j))); [lia|]. apply lookup_seqZ. lia.
Qed.

Lemma compute_costs s distances n : forall i costs costs', 0 <= i -> for_each n i (compute_cost s distances) costs = Ok costs' ->
  length costs' = length costs /\ (forall j, (j < Z.to_nat i)%nat -> costs' !! j = costs !! j) /\
  forall j, i <= j < i + Z.of_nat n -> exists d c, distances !! Z.to_nat j = Some d /\ costs' !! Z.to_nat j = Some c /\ computeCost d s = Ok c.
Proof.
  induction n as [|n IH]; intros i costs costs' Hi; cbn [for_each].
  - intros [= <-]. split; [done|]. split; [done|]. lia.
  - intros (c1 & Hc & Hf)%bind_ok. unfold compute_cost in Hc.
    apply bind_ok in Hc as (d & Hd%aget_ok & Hc). apply bind_ok in Hc as (c & Hcost & Hc).
    apply aset_ok in Hc as [Hr ->]. destruct Hd as [_ Hd]. apply IH in Hf as (Hl & Hbelow & Hat); [|lia].
    rewrite length_insert in Hl. split; [done|]. split.
    + intros j Hj. rewrite Hbelow by lia. by rewrite list_lookup_insert_ne by lia.
    + intros j Hj. destruct (decide (j = i)) as [-> |Hne]; [|apply Hat; lia].
      exists d, c. split; [done|]. split; [|done]. rewrite Hbelow by lia. by rewrite list_lookup_insert_eq by lia.
Qed.

Lemma caches_ok s s' : computeCaches s = Ok s' -> 0 < cell_inflation_radius_ s <= 20000 -> distances_ok s ->
  exists max_dist, tables s' max_dist /\ costs_ok s' /\ distances_ok s' /\
    inflation_cells_ s' = replicate (Z.to_nat (max_dist + 1)) [].
Proof.
  intros Hs HR Hd. destruct (levels_ok _ HR) as (matrix & max_dist & Hgen & Hmax & Hgood).
  unfold computeCaches in Hs. rewrite (proj2 (Z.eqb_neq _ _)) in Hs by lia.
  rewrite (wrapu_id 32 (cell_inflation_radius_ s + 2)) in Hs by (unfold in_u; lia). rewrite wrapu_id in Hs by (unfold in_u; nia).
  set (len := cell_inflation_radius_ s + 2) in *.
  set (distances := if negb (cell_inflation_radius_ s =? cached_cell_inflation_radius_ s) then distance_table len else cached_distances_ s) in *.
  set (costs0 := if negb (cell_inflation_radius_ s =? cached_cell_inflation_radius_ s) then resize (Z.to_nat (len * len)) 0 (cached_costs_ s)
    else cached_costs_ s) in *.
  assert (distances = distance_table len /\ Z.of_nat (length costs0) = len * len) as [Ed Ec].
  { unfold distances, costs0. destruct (Z.eqb_spec (cell_inflation_radius_ s) (cached_cell_inflation_radius_ s)) as [E|E]; cbn [negb].
    - destruct Hd as [Hd|[Hd Hl]]; [lia|]. rewrite Hd, Hl, <- E. done.
    - rewrite length_resize. split; [done|]. nia. }
  apply bind_ok in Hs as (costs & Hcosts & Hs). rewrite Hgen, bind_Ok in Hs. injection Hs as <-.
  apply compute_costs in Hcosts as (Hl & _ & Hat); [|lia].
  exists max_dist. split; [|split; [|split; [|done]]].
  - constructor; cbn; try done; lia.
  - intros a b Ha Hb. cbn in *. rewrite Ed in Hat.
    destruct (Hat (a * len + b)) as (d & c & Hdl & Hc & Hcost); [nia|]. rewrite distance_table_lookup in Hdl by done.
    injection Hdl as <-. exists c. split; [done|]. exact Hcost.
  - right. cbn. split; [done|]. lia.
Qed.

(** What was tabulated before is right for any radius. *)
Lemma matchSize_ok s0 s m : matchSize m s0 = Ok s -> distances_ok s0 -> 0 < cell_inflation_radius_ s <= 20000 ->
  exists max_dist, tables s max_dist /\ costs_ok s /\ distances_ok s /\
    inflation_cells_ s = replicate (Z.to_nat (max_dist + 1)) [].
Proof.
  unfold matchSize. intros (r & Hr & (s1 & Hs1 & Hs)%bind_ok)%bind_ok Hd HR. injection Hs as <-. cbn in HR.
  assert (cell_inflation_radius_ s1 = r) as Er.
  { unfold computeCaches in Hs1. cbn in Hs1. destruct (Z.eqb_spec r 0); [by injection Hs1 as <-|].
    apply bind_ok in Hs1 as (costs & _ & Hs1). apply bind_ok in Hs1 as ([matrix k] & _ & Hs1). by injection Hs1 as <-. }
  rewrite Er in HR. destruct (caches_ok _ _ Hs1) as (max_dist & [] & Hc & Hdo & Hbins); [done|done|].
  exists max_dist. split; [by constructor|]. by split.
Qed.

(** C28: after the sizes were matched an update of a window inside the map inflates it and leaves
    the layer with the same tables and empty bins. A cell is unchanged, or its cost is merged with the cost
    of its distance to an obstacle within the inflation radius; and every cell of the window
    that is [k] steps from an obstacle, [k] within the radius, is merged with the cost of a
    distance of at most [k]. Cells outside the window stay. *)
Theorem inflation_covers s0 s m base (Hmatch : matchSize m s0 = Ok s) (Hold : distances_ok s0)
    (HR : 0 < cell_inflation_radius_ s <= 20000) (Hexact : exact_radius s) (Hmap : map_ok m) (Hen : enabled_ s = true)
    (Hbase : window_ok m base) (Hi : min_i base <= max_i base) (Hj : min_j base <= max_j base) :
  exists seen cells', updateCosts base s m =
      Ok (set_flags true true (need_reinflation_ s) (set_seen seen s), set_cells cells' m) /\
    length cells' = length (cells m) /\
    (forall p, inside (size_x m) (size_y m) p -> of_window base p ->
      cells' !! here m p = cells m !! here m p \/ exists t, inflated s m base cells' p t) /\
    (forall p, inside (size_x m) (size_y m) p -> ~ of_window base p -> cells' !! here m p = cells m !! here m p) /\
    (forall p o, of_window base p -> obstacle s m o -> blocks p o <= cell_inflation_radius_ s ->
      exists t, inflated s m base cells' p t /\ d2 p t <= blocks p o * blocks p o) /\
    forall p t, d2 p t <= cell_inflation_radius_ s * cell_inflation_radius_ s ->
      computeCost (hypot (f64_of_Z (Z.abs (fst p - fst t))) (f64_of_Z (Z.abs (snd p - snd t)))) s = Ok (cost_of s p t).
Proof.
  destruct (matchSize_ok s0 s m Hmatch Hold HR) as (max_dist & Htab & Hcosts & _ & Hbins).
  destruct (inflation_update_ok s m max_dist Htab Hexact Hmap base Hen Hbins Hbase Hi Hj) as (seen & cells' & Hup & Hl & Hany & Hall).
  exists seen, cells'. split; [rewrite Hup, Hen; by destruct s|]. split; [done|]. split; [intros p Hp _; by apply Hany|].
  split; [|split; [done|]].
  - intros p Hp Hw. destruct (Hany p Hp) as [|(t & _ & _ & Ht)]; [done|]. rewrite Ht. unfold touched.
    destruct (in_window base (fst p) (snd p)) eqn:Ew; [by apply (in_window_iff m Hmap) in Ew|]. by destruct (cells m !! here m p).
  - intros p t Hd. unfold d2 in Hd. apply norm2_bound in Hd as [Hx Hy]; [|lia]. cbn [fst snd] in Hx, Hy.
    pose proof (t_len _ _ Htab) as Hlen. destruct (Hcosts (Z.abs (fst p - fst t)) (Z.abs (snd p - snd t))) as (c & Hc & ->); [lia..|].
    rewrite Hlen in Hc. unfold cost_of. by rewrite Hc.
Qed.
End TableLaws.

(** ** An instance *)

Section Demo.
(** [hypot] by a rounded square root, and a falloff that decreases. *)
Definition demo_falloff : Falloff := {|
  hypot := fun a b => f64_sqrt (f64_add (f64_mul a a) (f64_mul b b));
  exp := fun x => f64_div (f64_of_Z 1) (f64_sub (f64_of_Z 1) x) |}.

Definition demo_map : costmap :=
  mk_costmap 7 6 (f64_of_Z 1) f64_zero f64_zero (<[10%nat := 254]> (<[30%nat := 254]> (replicate 42 0))) 0.
Definition demo_layer : inflation := set_flags true true false (set_radii (f64_of_Z 2) (f64_of_Z 1) (f64_of_Z 1) new).
Definition demo_matched : inflation :=
  Eval vm_compute in match matchSize (H := demo_falloff) demo_map demo_layer with Ok s => s | _ => new end.
Definition demo_window : window := mk_window 1 0 7 5.

Lemma inflation_covers_witness : exists seen cells',
  updateCosts demo_window demo_matched demo_map =
    Ok (set_flags true true false (set_seen seen demo_matched), set_cells cells' demo_map) /\
  exists t, inflated demo_matched demo_map demo_window cells' (2, 1) t /\ d2 (2, 1) t <= 1.
Proof.
  destruct (inflation_covers (H := demo_falloff) demo_layer demo_matched demo_map demo_window) as (seen & cells' & Hup & _ & _ & _ & Hnear & _).
  - vm_compute. reflexivity.
  - by left.
  - change (cell_inflation_radius_ demo_matched) with 2. lia.
  - intros i j Hi Hj. change (cell_inflation_radius_ demo_matched) with 2 in *.
    assert (i = 0 \/ i = 1 \/ i = 2 \/ i = 3) as [-> |[-> |[-> | ->]]] by lia;
    assert (j = 0 \/ j = 1 \/ j = 2 \/ j = 3) as [-> |[-> |[-> | ->]]] by lia; vm_compute; reflexivity.
  - constructor; cbn; lia.
  - reflexivity.
  - unfold window_ok. cbn. lia.
  - cbn. lia.
  - cbn. lia.
  - exists seen, cells'. split; [exact Hup|]. destruct (Hnear (2, 1) (3, 1)) as (t & Ht & Hd).
    + unfold of_window. cbn. lia.
    + split; [unfold inside; cbn; lia|]. exists 254. split; vm_compute; reflexivity.
    + change (cell_inflation_radius_ demo_matched) with 2. unfold blocks. cbn. lia.
    + exists t. split; [done|]. exact Hd.
Defined.
End Demo.
End InflationLaws.
