(* ===== verification/ThetaStar.v ===== *)
(** * Theta star ([nav2_theta_star_planner/theta_star.hpp], [src/theta_star.cpp])

    A search on the grid whose nodes may take the parent of their parent when that one is in
    sight. Nodes lie in a vector that only grows; pointers to them, in the table of positions,
    in the queue and as parents, are their indices. The vector must not be moved while there are
    such pointers, so it may not outgrow its capacity. Coordinates are those of cells, whose sums
    do not overflow. *)

From stdpp Require Import base option list numbers.
From Stdlib Require Import ZArith Lia SpecFloat.
From S2P Require Import Prelude Float64 Costmap.

(** [std::hypot] *)
Class Hypotenuse : Type := hypotenuse : f64 -> f64 -> f64.

(** [std::priority_queue] of nodes. Its comparisons look at the costs of the nodes, which the
    planner changes while they wait. *)
Class OpenList (Q : Type) : Type := {
  q_empty : Q;
  q_push : (Z -> f64) -> Z -> Q -> Q;
  q_top : Q -> option Z;
  q_pop : (Z -> f64) -> Q -> Q;
  q_elements : Q -> list Z }.

(** What is relied on: the top is one of the elements, and it is the one that is popped. *)
Class OpenListLaws (Q : Type) `{OpenList Q} : Prop := {
  elements_empty : q_elements q_empty = [];
  elements_push c x q : q_elements (q_push c x q) ≡ₚ x :: q_elements q;
  top_none q : q_top q = None <-> q_elements q = [];
  top_some c x q : q_top q = Some x -> q_elements q ≡ₚ x :: q_elements (q_pop c q) }.

Module ThetaStar.
Import Costmap.

(** [DBL_MAX] *)
Definition INF_COST : f64 := S754_finite false 9007199254740991 971.
Definition UNKNOWN_COST : Z := 255.
Definition OBS_COST : Z := 254.
Definition LETHAL_COST : Z := 252.

(** [parent_id] is [None] for a null pointer. *)
Record tree_node : Type := mk_node {
  x : Z; y : Z;
  g : f64; h : f64;
  parent_id : option Z;
  is_in_queue : bool;
  f : f64 }.

Definition fresh_node : tree_node := mk_node 0 0 INF_COST INF_COST None false INF_COST.

(** [nodes_capacity] is the capacity of [nodes_data_]; [exp_node] is only an alias. *)
Record theta (Q : Type) : Type := mk_theta {
  src_ : Z * Z; dst_ : Z * Z;
  costmap_ : costmap;
  w_traversal_cost_ : f64; w_euc_cost_ : f64; w_heuristic_cost_ : f64;
  how_many_corners_ : Z;
  allow_unknown_ : bool;
  size_x_ : Z; size_y_ : Z;
  terminal_checking_interval_ : Z;
  nodes_opened : Z;
  node_position_ : list (option Z);
  nodes_data_ : list tree_node;
  nodes_capacity : Z;
  queue_ : Q;
  index_generated_ : Z }.
Arguments mk_theta {Q}.
Arguments src_ {Q}. Arguments dst_ {Q}. Arguments costmap_ {Q}.
Arguments w_traversal_cost_ {Q}. Arguments w_euc_cost_ {Q}. Arguments w_heuristic_cost_ {Q}.
Arguments how_many_corners_ {Q}. Arguments allow_unknown_ {Q}. Arguments size_x_ {Q}. Arguments size_y_ {Q}.
Arguments terminal_checking_interval_ {Q}. Arguments nodes_opened {Q}. Arguments node_position_ {Q}.
Arguments nodes_data_ {Q}. Arguments nodes_capacity {Q}. Arguments queue_ {Q}. Arguments index_generated_ {Q}.

Section Updates.
Context {Q : Type}.
Implicit Types s : theta Q.
Definition set_ends a b s : theta Q :=
  mk_theta a b (costmap_ s) (w_traversal_cost_ s) (w_euc_cost_ s) (w_heuristic_cost_ s) (how_many_corners_ s) (allow_unknown_ s)
    (size_x_ s) (size_y_ s) (terminal_checking_interval_ s) (nodes_opened s) (node_position_ s) (nodes_data_ s) (nodes_capacity s)
    (queue_ s) (index_generated_ s).
Definition set_costmap m s : theta Q :=
  mk_theta (src_ s) (dst_ s) m (w_traversal_cost_ s) (w_euc_cost_ s) (w_heuristic_cost_ s) (how_many_corners_ s) (allow_unknown_ s)
    (size_x_ s) (size_y_ s) (terminal_checking_interval_ s) (nodes_opened s) (node_position_ s) (nodes_data_ s) (nodes_capacity s)
    (queue_ s) (index_generated_ s).
Definition set_weights traversal euc heuristic s : theta Q :=
  mk_theta (src_ s) (dst_ s) (costmap_ s) traversal euc heuristic (how_many_corners_ s) (allow_unknown_ s)
    (size_x_ s) (size_y_ s) (terminal_checking_interval_ s) (nodes_opened s) (node_position_ s) (nodes_data_ s) (nodes_capacity s)
    (queue_ s) (index_generated_ s).
Definition set_options corners unknown interval s : theta Q :=
  mk_theta (src_ s) (dst_ s) (costmap_ s) (w_traversal_cost_ s) (w_euc_cost_ s) (w_heuristic_cost_ s) corners unknown
    (size_x_ s) (size_y_ s) interval (nodes_opened s) (node_position_ s) (nodes_data_ s) (nodes_capacity s)
    (queue_ s) (index_generated_ s).
Definition set_sizes sx sy s : theta Q :=
  mk_theta (src_ s) (dst_ s) (costmap_ s) (w_traversal_cost_ s) (w_euc_cost_ s) (w_heuristic_cost_ s) (how_many_corners_ s) (allow_unknown_ s)
    sx sy (terminal_checking_interval_ s) (nodes_opened s) (node_position_ s) (nodes_data_ s) (nodes_capacity s)
    (queue_ s) (index_generated_ s).
Definition set_opened n s : theta Q :=
  mk_theta (src_ s) (dst_ s) (costmap_ s) (w_traversal_cost_ s) (w_euc_cost_ s) (w_heuristic_cost_ s) (how_many_corners_ s) (allow_unknown_ s)
    (size_x_ s) (size_y_ s) (terminal_checking_interval_ s) n (node_position_ s) (nodes_data_ s) (nodes_capacity s)
    (queue_ s) (index_generated_ s).
Definition set_positions l s : theta Q :=
  mk_theta (src_ s) (dst_ s) (costmap_ s) (w_traversal_cost_ s) (w_euc_cost_ s) (w_heuristic_cost_ s) (how_many_corners_ s) (allow_unknown_ s)
    (size_x_ s) (size_y_ s) (terminal_checking_interval_ s) (nodes_opened s) l (nodes_data_ s) (nodes_capacity s)
    (queue_ s) (index_generated_ s).
Definition set_nodes l s : theta Q :=
  mk_theta (src_ s) (dst_ s) (costmap_ s) (w_traversal_cost_ s) (w_euc_cost_ s) (w_heuristic_cost_ s) (how_many_corners_ s) (allow_unknown_ s)
    (size_x_ s) (size_y_ s) (terminal_checking_interval_ s) (nodes_opened s) (node_position_ s) l (nodes_capacity s)
    (queue_ s) (index_generated_ s).
Definition set_capacity n s : theta Q :=
  mk_theta (src_ s) (dst_ s) (costmap_ s) (w_traversal_cost_ s) (w_euc_cost_ s) (w_heuristic_cost_ s) (how_many_corners_ s) (allow_unknown_ s)
    (size_x_ s) (size_y_ s) (terminal_checking_interval_ s) (nodes_opened s) (node_position_ s) (nodes_data_ s) n
    (queue_ s) (index_generated_ s).
Definition set_queue q s : theta Q :=
  mk_theta (src_ s) (dst_ s) (costmap_ s) (w_traversal_cost_ s) (w_euc_cost_ s) (w_heuristic_cost_ s) (how_many_corners_ s) (allow_unknown_ s)
    (size_x_ s) (size_y_ s) (terminal_checking_interval_ s) (nodes_opened s) (node_position_ s) (nodes_data_ s) (nodes_capacity s)
    q (index_generated_ s).
Definition set_index n s : theta Q :=
  mk_theta (src_ s) (dst_ s) (costmap_ s) (w_traversal_cost_ s) (w_euc_cost_ s) (w_heuristic_cost_ s) (how_many_corners_ s) (allow_unknown_ s)
    (size_x_ s) (size_y_ s) (terminal_checking_interval_ s) (nodes_opened s) (node_position_ s) (nodes_data_ s) (nodes_capacity s)
    (queue_ s) n.
End Updates.

Section Search.
Context {Q : Type} `{Hypotenuse} `{OpenList Q}.
Implicit Types s : theta Q.

Definition new (m : costmap) : theta Q :=
  mk_theta (0, 0) (0, 0) m (f64_of_Z 1) (f64_of_Z 2) (f64_of_Z 1) 8 true 0 0 5000 0 [] [] 0 q_empty 0.

(** ** Costs *)

(** Coordinates are converted to unsigned ones. *)
Definition cell_cost (cx cy : Z) s : res Z := Costmap.getCost (wrapu 32 cx) (wrapu 32 cy) (costmap_ s).

Definition isSafe (cx cy : Z) s : res bool :=
  cost ← cell_cost cx cy s; Ok ((cost =? UNKNOWN_COST) && allow_unknown_ s || (cost <? LETHAL_COST)).

(** 0.9 *)
Definition scale : f64 := S754_finite false 8106479329266893 (-53).

Definition scaled (cost : Z) : f64 := f64_add (f64_of_Z 26) (f64_mul scale (f64_of_Z cost)).
Definition getCost (cx cy : Z) s : res f64 := cost ← cell_cost cx cy s; Ok (scaled cost).

Definition traversal (curr_cost : f64) s : f64 :=
  f64_div (f64_div (f64_mul (f64_mul (w_traversal_cost_ s) curr_cost) curr_cost) (f64_of_Z LETHAL_COST)) (f64_of_Z LETHAL_COST).

(** The check that adds the cost of a safe cell to [cost]. *)
Definition isSafe_adding (cx cy : Z) (cost : f64) s : res (option f64) :=
  curr_cost ← getCost cx cy s;
  value ← cell_cost cx cy s;
  if (value =? UNKNOWN_COST) && allow_unknown_ s || f64_lt curr_cost (f64_of_Z LETHAL_COST) then
    let curr_cost := if value =? UNKNOWN_COST then f64_of_Z (OBS_COST - 1) else curr_cost in
    Ok (Some (f64_add cost (traversal curr_cost s)))
  else Ok None.

Definition getTraversalCost (cx cy : Z) s : res f64 := curr_cost ← getCost cx cy s; Ok (traversal curr_cost s).

Definition getEuclideanCost (ax ay bx by_ : Z) s : f64 :=
  f64_mul (w_euc_cost_ s) (hypotenuse (f64_of_Z (ax - bx)) (f64_of_Z (ay - by_))).
Definition getHCost (cx cy : Z) s : f64 :=
  f64_mul (w_heuristic_cost_ s) (hypotenuse (f64_of_Z (cx - fst (dst_ s))) (f64_of_Z (cy - snd (dst_ s)))).

Definition withinLimits (cx cy : Z) s : bool := (cx >=? 0) && (cx <? size_x_ s) && (cy >=? 0) && (cy <? size_y_ s).

(** ** Line of sight *)

(** Go on with the cost of a check that succeeded. *)
Definition and_then (c : res (option f64)) (k : f64 -> res (option f64)) : res (option f64) :=
  c ← c; match c with Some cost => k cost | None => Ok None end.

(** The loop along the axis of the larger difference: position [a] and [b], end [a1], offsets [ua] and [ub] of the
    cells, directions [sa] and [sb], differences [da] and [db]. The result is the cost, or [None]
    where a cell is in the way. *)
Fixpoint los_loop (safe : Z -> Z -> f64 -> res (option f64)) (rounds : nat) (a1 ua ub sa sb da db a b err : Z) (cost : f64) :
    res (option f64) :=
  if a =? a1 then Ok (Some cost) else
  match rounds with
  | O => UB
  | S rounds =>
      let err := err + db in
      let turn := err >=? da in
      and_then (if turn then safe (a + ua) (b + ub) cost else Ok (Some cost)) (fun cost =>
        let b := if turn then b + sb else b in
        let err := if turn then err - da else err in
        and_then (if negb (err =? 0) then safe (a + ua) (b + ub) cost else Ok (Some cost)) (fun cost =>
          and_then (if db =? 0 then
                      c ← safe (a + ua) b cost;
                      match c with Some _ => Ok c | None => safe (a + ua) (b - 1) cost end
                    else Ok (Some cost)) (fun cost =>
            los_loop safe rounds a1 ua ub sa sb da db (a + sa) b err cost)))
  end.

Definition losCheck (x0 y0 x1 y1 : Z) s : res (option f64) :=
  let dy := Z.abs (y1 - y0) in
  let dx := Z.abs (x1 - x0) in
  let sx := if x1 >? x0 then 1 else -1 in
  let sy := if y1 >? y0 then 1 else -1 in
  let u_x := Z.quot (sx - 1) 2 in
  let u_y := Z.quot (sy - 1) 2 in
  if dx >=? dy
  then los_loop (fun cx cy cost => isSafe_adding cx cy cost s) (Z.to_nat dx) x1 u_x u_y sx sy dx dy x0 y0 0 f64_zero
  else los_loop (fun cy cx cost => isSafe_adding cx cy cost s) (Z.to_nat dy) y1 u_y u_x sy sx dy dx y0 x0 0 f64_zero.

(** ** The store of nodes *)

Definition node (i : Z) s : res tree_node := aget (nodes_data_ s) i.
Definition set_node (i : Z) (n : tree_node) s : res (theta Q) := l ← aset (nodes_data_ s) i n; Ok (set_nodes l s).
Definition pointed (p : option Z) : res Z := match p with Some i => Ok i | None => UB end.

(** The costs that the queue compares. *)
Definition costs s (i : Z) : f64 := default INF_COST (f <$> nodes_data_ s !! Z.to_nat i).

Definition addToNodesData (id_this : Z) s : res (theta Q) :=
  if Z.of_nat (length (nodes_data_ s)) <=? id_this then
    if Z.of_nat (length (nodes_data_ s)) <? nodes_capacity s then Ok (set_nodes (nodes_data_ s ++ [fresh_node]) s) else UB
  else set_node id_this fresh_node s.

Definition position (cx cy : Z) s : res Z := a ← chk 32 (size_x_ s * cy); chk 32 (a + cx).
Definition addIndex (cx cy i : Z) s : res (theta Q) :=
  k ← position cx cy s; l ← aset (node_position_ s) k (Some i); Ok (set_positions l s).
Definition getIndex (cx cy : Z) s : res (option Z) := k ← position cx cy s; aget (node_position_ s) k.

Definition push (i : Z) s : theta Q := set_queue (q_push (costs s) i (queue_ s)) s.
Definition clearQueue s : theta Q := set_queue q_empty s.

(** ** Containers *)

Definition initializePosn (size_inc : Z) s : res (theta Q) :=
  l ← (if bool_decide (node_position_ s = []) then Ok [] else
         n ← chk 32 (size_x_ s * size_y_ s);
         for_each (Z.to_nat n) 0 (fun i l => aset l i None) (node_position_ s));
  Ok (set_positions (l ++ replicate (Z.to_nat size_inc) None) s).

Definition resetContainers s : res (theta Q) :=
  let s := set_index 0 s in
  let curr_size_x := wraps 32 (size_x (costmap_ s)) in
  let curr_size_y := wraps 32 (size_y (costmap_ s)) in
  let n := curr_size_x * curr_size_y in
  let differs := negb (size_x_ s =? curr_size_x) || negb (size_y_ s =? curr_size_y) in
  n ← (if differs then chk 32 n else Ok n);
  s ← (if differs && (wraps 32 (Z.of_nat (length (node_position_ s))) <? n) then
         last ← chk 32 (size_y_ s * size_x_ s);
         inc ← chk 32 (n - last);
         s ← initializePosn inc s;
         Ok (set_capacity (Z.max (nodes_capacity s) n) s)
       else initializePosn 0 s);
  Ok (set_sizes curr_size_x curr_size_y s).

(** ** The search *)

Definition resetParent (curr : Z) s : res (theta Q) :=
  c ← node curr s;
  let c := mk_node (x c) (y c) (g c) (h c) (parent_id c) false (f c) in
  s ← set_node curr c s;
  curr_par ← pointed (parent_id c);
  p ← node curr_par s;
  maybe_par ← pointed (parent_id p);
  p ← node maybe_par s;
  los ← losCheck (x c) (y c) (x p) (y p) s;
  match los with
  | None => Ok s
  | Some los_cost =>
      let g_cost := f64_add (f64_add (g p) (getEuclideanCost (x c) (y c) (x p) (y p) s)) los_cost in
      if f64_lt g_cost (g c)
      then set_node curr (mk_node (x c) (y c) g_cost (h c) (Some maybe_par) false (f64_add g_cost (h c))) s
      else Ok s
  end.

Definition moves : list (Z * Z) := [(0, 1); (0, -1); (1, 0); (-1, 0); (1, -1); (-1, 1); (1, 1); (-1, -1)].

(** The node of a cell, which may be a new one. *)
Definition node_at (mx my : Z) s : res (Z * theta Q) :=
  m_id ← getIndex mx my s;
  match m_id with
  | Some i => Ok (i, s)
  | None =>
      let i := index_generated_ s in
      s ← addToNodesData i s;
      s ← addIndex mx my i s;
      next ← chk 32 (i + 1);
      Ok (i, set_index next s)
  end.

Definition setNeighbor (curr : Z) (move : Z * Z) s : res (theta Q) :=
  c ← node curr s;
  let mx := x c + fst move in
  let my := y c + snd move in
  if negb (withinLimits mx my s) then Ok s else
  safe ← isSafe mx my s;
  if negb (safe : bool) then Ok s else
  step ← getTraversalCost mx my s;
  let g_cost := f64_add (f64_add (g c) (getEuclideanCost (x c) (y c) mx my s)) step in
  '(m_id, s) ← node_at mx my s;
  let h_cost := getHCost mx my s in
  let cal_cost := f64_add g_cost h_cost in
  n ← node m_id s;
  if f64_lt cal_cost (f n) then
    if is_in_queue n then set_node m_id (mk_node (x n) (y n) g_cost h_cost (Some curr) true cal_cost) s
    else s ← set_node m_id (mk_node mx my g_cost h_cost (Some curr) true cal_cost) s; Ok (push m_id s)
  else Ok s.

Definition setNeighbors (curr : Z) s : res (theta Q) :=
  for_each (Z.to_nat (how_many_corners_ s)) 0 (fun i s => move ← aget moves i; setNeighbor curr move s) s.

Definition isGoal (n : tree_node) s : bool := (x n =? fst (dst_ s)) && (y n =? snd (dst_ s)).

Definition pop s : res (Z * theta Q) :=
  i ← pointed (q_top (queue_ s)); Ok (i, set_queue (q_pop (costs s) (queue_ s)) s).

Definition queue_is_empty s : bool := bool_decide (q_elements (queue_ s) = []).

(** A round of the loop: the node to go on with, or [None] at the goal. [cancel_checker n] is the answer after [n]
    nodes were opened. *)
Definition open_node (cancel_checker : Z -> bool) (curr : Z) : ST (theta Q) (option Z) :=
  _ ← amend (fun s => n ← chk 32 (nodes_opened s + 1); Ok (set_opened n s));
  s ← get;
  _ ← query (fun s => require (negb (terminal_checking_interval_ s =? 0)));
  if (Z.rem (nodes_opened s) (terminal_checking_interval_ s) =? 0) && cancel_checker (nodes_opened s)
  then _ ← modify clearQueue; throw planner_cancelled else
  c ← query (node curr);
  if isGoal c s then mret None else
  _ ← amend (resetParent curr);
  _ ← amend (setNeighbors curr);
  s ← get;
  '(next, s) ← query (fun s => pop s);
  _ ← modify (fun _ => s);
  mret (Some next).

(** The node at which the loop ends. *)
Fixpoint search (fuel : nat) (cancel_checker : Z -> bool) (curr : Z) : ST (theta Q) Z :=
  s ← get;
  if queue_is_empty s then mret curr else
  match fuel with
  | O => undefined
  | S fuel =>
      next ← open_node cancel_checker curr;
      match next with None => mret curr | Some next => search fuel cancel_checker next end
  end.

(** The points from the last node to the first; the last one comes twice. *)
Fixpoint trace (rounds : nat) (first : bool) (curr : Z) s : res (list (f64 * f64)) :=
  match rounds with
  | O => UB
  | S rounds =>
      n ← node curr s;
      let world := mapToWorld (wrapu 32 (x n)) (wrapu 32 (y n)) (costmap_ s) in
      next ← (if first then Ok curr else pointed (parent_id n));
      m ← node next s;
      if bool_decide (parent_id m = Some next)
      then Ok [world; mapToWorld (wrapu 32 (x m)) (wrapu 32 (y m)) (costmap_ s)]
      else l ← trace rounds false next s; Ok (world :: l)
  end.
Definition backtrace (fuel : nat) (curr : Z) s : res (list (f64 * f64)) := l ← trace fuel true curr s; Ok (rev l).

Definition start_search s : res (theta Q) :=
  s ← resetContainers s;
  let i := index_generated_ s in
  let '(sx, sy) := src_ s in
  s ← addToNodesData i s;
  src_g_cost ← getTraversalCost sx sy s;
  let src_h_cost := getHCost sx sy s in
  s ← set_node i (mk_node sx sy src_g_cost src_h_cost (Some i) true (f64_add src_g_cost src_h_cost)) s;
  s ← addIndex sx sy i (push i s);
  Ok (set_opened 0 (set_index (i + 1) s)).

(** [None] where there is no path. *)
Definition generatePath (fuel : nat) (cancel_checker : Z -> bool) : ST (theta Q) (option (list (f64 * f64))) :=
  _ ← amend start_search;
  curr ← search fuel cancel_checker 0;
  s ← get;
  if queue_is_empty s then mret None else
  raw_path ← query (backtrace fuel curr);
  _ ← modify clearQueue;
  mret (Some raw_path).

(** ** Ends *)

Definition setStartAndGoal (start goal : f64 * f64) s : res (theta Q) :=
  '(_, a) ← worldToMap (fst start) (snd start) (costmap_ s);
  '(_, b) ← worldToMap (fst goal) (snd goal) (costmap_ s);
  match a, b with
  | Some a, Some b => Ok (set_ends (wraps 32 (fst a), wraps 32 (snd a)) (wraps 32 (fst b), wraps 32 (snd b)) s)
  | _, _ => UB
  end.

Definition isUnsafeToPlan s : res bool :=
  a ← isSafe (fst (src_ s)) (snd (src_ s)) s;
  if negb (a : bool) then Ok true else
  b ← isSafe (fst (dst_ s)) (snd (dst_ s)) s; Ok (negb b).

Definition clearStart s : res (theta Q) :=
  m ← setCost (wrapu 32 (fst (src_ s))) (wrapu 32 (snd (src_ s))) FREE_SPACE (costmap_ s); Ok (set_costmap m s).
End Search.
End ThetaStar.
