(* ===== verification/ThetaStarPlanner.v ===== *)
(** * The theta star planner plugin ([nav2_theta_star_planner/theta_star_planner.hpp], [src/theta_star_planner.cpp])

    [createPlan] checks the ends, searches and puts points between those of the path. Headers (stamp and
    frame), locks, logs and the time taken are left out. *)

From stdpp Require Import base option list numbers strings.
From Stdlib Require Import ZArith Lia SpecFloat String.
From S2P Require Import Prelude Float64 Costmap Parameters NavFn NavfnPlanner ThetaStar.

Module ThetaStarPlanner.
Import Costmap ThetaStar.
Import NavfnPlanner(pose, mk_pose, px, py, pz, orientation, equal_quaternion, set_orientation, no_rotation).

(** The pointer to the search object is null before [configure] and after [cleanup]. *)
Record planner (Q : Type) : Type := mk_planner {
  name_ : string;
  costmap_ : costmap;
  planner_ : option (theta Q);
  use_final_approach_orientation_ : bool }.
Arguments mk_planner {Q}.
Arguments name_ {Q}. Arguments costmap_ {Q}. Arguments planner_ {Q}. Arguments use_final_approach_orientation_ {Q}.

Section Planner.
Context {Q : Type} `{Hypotenuse} `{OpenList Q}.
Implicit Types s : planner Q.

(** The search object works on the costmap of the planner. *)
Definition with_theta {A} (c : ST (theta Q) A) : ST (planner Q) A := fun s =>
  match planner_ s with
  | None => (UB, s)
  | Some t =>
      let '(r, t) := c (set_costmap (costmap_ s) t) in
      (r, mk_planner (name_ s) (ThetaStar.costmap_ t) (Some t) (use_final_approach_orientation_ s))
  end.

(** ** Life cycle and parameters *)

Definition HOW_MANY_CORNERS : string := ".how_many_corners"%string.

(** A null pointer is dereferenced where a callback comes after [cleanup]. *)
Definition set_parameter (p : string * parameter) s : res (planner Q) :=
  let named suffix := String.eqb (fst p) (name_ s ++ suffix)%string in
  let change (u : theta Q -> theta Q) :=
    match planner_ s with
    | Some t => Ok (mk_planner (name_ s) (costmap_ s) (Some (u t)) (use_final_approach_orientation_ s))
    | None => UB
    end in
  match snd p with
  | PARAMETER_INTEGER z =>
      if named HOW_MANY_CORNERS
      then change (fun t => set_options (wraps 32 z) (allow_unknown_ t) (terminal_checking_interval_ t) t)
      else if named ".terminal_checking_interval"%string
      then change (fun t => set_options (how_many_corners_ t) (allow_unknown_ t) (wraps 32 z) t)
      else Ok s
  | PARAMETER_DOUBLE v =>
      if named ".w_euc_cost"%string then change (fun t => set_weights (w_traversal_cost_ t) v (w_heuristic_cost_ t) t)
      else if named ".w_traversal_cost"%string then change (fun t => set_weights v (w_euc_cost_ t) (w_heuristic_cost_ t) t)
      else Ok s
  | PARAMETER_BOOL b =>
      if named ".use_final_approach_orientation"%string
      then Ok (mk_planner (name_ s) (costmap_ s) (planner_ s) b)
      else if named ".allow_unknown"%string
      then change (fun t => set_options (how_many_corners_ t) b (terminal_checking_interval_ t) t)
      else Ok s
  | _ => Ok s
  end.

Definition dynamicParametersCallback (parameters : list (string * parameter)) s : res (planner Q) :=
  for_list set_parameter parameters s.

Definition configure `{NodeParameters} (name : string) (m : costmap) : res (planner Q) :=
  let full suffix := (name ++ suffix)%string in
  corners ← Parameters.read_or Parameters.as_int (full HOW_MANY_CORNERS) 8;
  let corners := wraps 32 corners in
  let corners := if negb (corners =? 8) && negb (corners =? 4) then 8 else corners in
  unknown ← Parameters.read_or Parameters.as_bool (full ".allow_unknown"%string) true;
  w_euc ← Parameters.read_or Parameters.as_double (full ".w_euc_cost"%string) (f64_of_Z 1);
  w_traversal ← Parameters.read_or Parameters.as_double (full ".w_traversal_cost"%string) (f64_of_Z 2);
  let w_heuristic := if f64_lt w_euc (f64_of_Z 1) then w_euc else f64_of_Z 1 in
  interval ← Parameters.read_or Parameters.as_int (full ".terminal_checking_interval"%string) 5000;
  final ← Parameters.read_or Parameters.as_bool (full ".use_final_approach_orientation"%string) false;
  Ok (mk_planner name m
        (Some (set_options corners unknown (wraps 32 interval) (set_weights w_traversal w_euc w_heuristic (ThetaStar.new m)))) final).

Definition cleanup s : planner Q := mk_planner (name_ s) (costmap_ s) None (use_final_approach_orientation_ s).

(** ** Plans *)

Definition at_point (w : f64 * f64) : pose := mk_pose (fst w) (snd w) f64_zero no_rotation.

(** The points between [p] and [q], from the [k]-th on; the last step ends at least a step before [q]. *)
Fixpoint points_between (n : nat) (k : Z) (p : f64 * f64) (dist cos_alpha sin_alpha : f64) : list pose :=
  match n with
  | O => []
  | S n =>
      let d := f64_mul (f64_of_Z k) dist in
      at_point (f64_add (fst p) (f64_mul d cos_alpha), f64_add (snd p) (f64_mul d sin_alpha))
        :: points_between n (k + 1) p dist cos_alpha sin_alpha
  end.

Definition segment (p q : f64 * f64) (dist : f64) : res (list pose) :=
  let distance := hypotenuse (f64_sub (fst q) (fst p)) (f64_sub (snd q) (snd p)) in
  loops ← f64_to_int 32 (f64_div distance dist);
  Ok (at_point p :: points_between (Z.to_nat (loops - 1)) 1 p dist
        (f64_div (f64_sub (fst q) (fst p)) distance) (f64_div (f64_sub (snd q) (snd p)) distance)).

(** The loop runs while [j < raw_path.size() - 1] in unsigned arithmetic, so an empty path is read. *)
Fixpoint linearInterpolation (raw_path : list (f64 * f64)) (dist : f64) : res (list pose) :=
  match raw_path with
  | [] => UB
  | [_] => Ok []
  | p :: (q :: _) as rest => a ← segment p q dist; b ← linearInterpolation rest dist; Ok (a ++ b)
  end.

Definition getPlan (fuel : nat) (cancel_checker : Z -> bool) : ST (planner Q) (list pose) :=
  unsafe ← with_theta (query isUnsafeToPlan);
  if (unsafe : bool) then throw planner_exception else
  path ← with_theta (generatePath fuel cancel_checker);
  match path with
  | Some path => query (fun s => linearInterpolation path (resolution (costmap_ s)))
  | None => throw no_valid_path
  end.

(** The orientation of the last pose. *)
Definition last_orientation `{Rotation} (final : bool) (start goal : pose) (plan : list pose) : list pose :=
  match reverse plan with
  | [] => []
  | last_pose :: before =>
      let q :=
        match final, before with
        | false, _ => orientation goal
        | true, [] => orientation start
        | true, approach :: _ =>
            orientationAroundZAxis (atan2 (f64_sub (py last_pose) (py approach)) (f64_sub (px last_pose) (px approach)))
        end in
      reverse (set_orientation q last_pose :: before)
  end.

Definition createPlan `{Rotation} (fuel : nat) (start goal : pose) (cancel_checker : Z -> bool) : ST (planner Q) (list pose) :=
  _ ← with_theta (mret tt);
  '(inside, c) ← query (fun s => worldToMap (px start) (py start) (costmap_ s));
  if negb (inside : bool) then throw start_outside_map else
  '(inside, d) ← query (fun s => worldToMap (px goal) (py goal) (costmap_ s));
  if negb (inside : bool) then throw goal_outside_map else
  occupied ← query (fun s =>
    match d with Some (mx, my) => v ← Costmap.getCost mx my (costmap_ s); Ok (v =? LETHAL_OBSTACLE) | None => UB end);
  if (occupied : bool) then throw goal_occupied else
  s ← get;
  let final := use_final_approach_orientation_ s in
  if bool_decide (c = d) then
    let q := if negb (equal_quaternion (orientation start) (orientation goal)) && negb final
             then orientation goal else orientation start in
    mret [set_orientation q start]
  else
    _ ← with_theta (amend clearStart);
    _ ← with_theta (amend (setStartAndGoal (px start, py start) (px goal, py goal)));
    plan ← getPlan fuel cancel_checker;
    mret (last_orientation final start goal plan).
End Planner.
End ThetaStarPlanner.
