(* ===== verification/ThetaStarLaws.v ===== *)
(** * Theta star: what is in sight, and the search

    The line of sight of the planner is one between corners of the grid ([los_corners]). A path
    that is found goes through safe cells, from each to a neighbour or along such a line, and the
    search ends with one of its results ([theta_path]). *)

From stdpp Require Import base option list numbers sorting.
From Stdlib Require Import ZArith Lia SpecFloat.
From S2P Require Import Prelude Float64 FloatOrder FloatBounds Costmap ThetaStar.

(** [hypot] of two coordinates is finite and not negative. *)
Class HypotenuseLaws `{Hypotenuse} : Prop := {
  hypotenuse_bound a b : Z.abs a < 2 ^ 31 -> Z.abs b < 2 ^ 31 -> between64 (hypotenuse (f64_of_Z a) (f64_of_Z b)) 33 }.

Module ThetaStarLaws.
Import Costmap ThetaStar.

Abbreviation num64 := (num 53 1024).
Abbreviation value := (units 53 1024).

(** ** The loop of the line of sight *)

Section Loop.
Context (safe : Z -> Z -> f64 -> res (option f64)) (free : Z -> Z -> bool) (known : Z -> Z -> Prop).
Context (safe_ok : forall a b cost, known a b -> num64 cost = true ->
  exists o, safe a b cost = Ok o /\ (is_Some o <-> free a b = true) /\ forall c, o = Some c -> num64 c = true).

(** A check that succeeds where [P] holds. *)
Definition checks (c : res (option f64)) (P : Prop) : Prop :=
  exists o, c = Ok o /\ (is_Some o <-> P) /\ forall cost, o = Some cost -> num64 cost = true.

Lemma checks_now cost : num64 cost = true -> checks (Ok (Some cost)) True.
Proof. intros Hc. exists (Some cost). split; [done|]. split; [by split|]. by intros ? [= <-]. Qed.

Lemma checks_iff c P P' : (P <-> P') -> checks c P -> checks c P'.
Proof. intros HP (o & ? & Ho & ?). exists o. split; [done|]. split; [|done]. by rewrite Ho. Qed.

Lemma checks_then c k P P' : checks c P -> (forall cost, num64 cost = true -> P -> checks (k cost) P') ->
  checks (and_then c k) (P /\ P').
Proof.
  intros (o & -> & Ho & Hn) Hk. unfold and_then. rewrite bind_Ok. destruct o as [cost|].
  - assert P as HP by by apply Ho. destruct (Hk cost (Hn _ eq_refl) HP) as (o & -> & Ho' & Hn').
    exists o. split; [done|]. split; [|done]. tauto.
  - exists None. split; [done|]. split; [|done]. split; [by intros [? ?]|]. intros [HP _]. by apply Ho in HP as [? ?].
Qed.

Lemma checks_cell a b cost : known a b -> num64 cost = true -> checks (safe a b cost) (free a b = true).
Proof. intros Hk Hn. by apply safe_ok. Qed.

Lemma checks_if (t : bool) c cost P : num64 cost = true -> (t = true -> checks c P) ->
  checks (if t then c else Ok (Some cost)) (t = true -> P).
Proof.
  intros Hn Hc. destruct t.
  - apply (checks_iff _ P); [|by apply Hc]. split; [by intros|]. intros HP. by apply HP.
  - apply (checks_iff _ True); [|by apply checks_now]. by split.
Qed.

Context (a0 b0 sa sb da db : Z).
Context (sa_ok : sa = 1 \/ sa = -1) (sb_ok : sb = 1 \/ sb = -1).

Abbreviation ua := (Z.quot (sa - 1) 2).
Abbreviation ub := (Z.quot (sb - 1) 2).

(** The cells between the [k]-th and the next line of each direction. *)
Definition cell_a (k : Z) : Z := a0 + sa * k + ua.
Definition cell_b (r : Z) : Z := b0 + sb * r + ub.

(** The line enters the cell of column [k] and row [r]. *)
Definition enters (k r : Z) : Prop := r * da < (k + 1) * db /\ k * db < (r + 1) * da.

Lemma los_slanted : 0 < db <= da -> (forall k r, 0 <= k < da -> 0 <= r < db -> known (cell_a k) (cell_b r)) ->
  forall n k j cost, 0 <= k -> k + Z.of_nat n = da -> j * da <= k * db < (j + 1) * da -> 0 <= j -> num64 cost = true ->
  checks (los_loop safe n (a0 + sa * da) ua ub sa sb da db (a0 + sa * k) (b0 + sb * j) (k * db - j * da) cost)
    (forall k' r, k <= k' < da -> enters k' r -> free (cell_a k') (cell_b r) = true).
Proof.
  intros Hd Hknown. induction n as [|n IH]; intros k j cost Hk Hn Hj Hj0 Hc; cbn [los_loop].
  - assert (k = da) as -> by lia. rewrite Z.eqb_refl. apply (checks_iff _ True); [|by apply checks_now]. split; [|done]. intros _. lia.
  - rewrite (proj2 (Z.eqb_neq _ _)) by nia. set (err := k * db - j * da + db).
    rewrite (proj2 (Z.eqb_neq db 0)) by lia.
    assert (forall r, known (cell_a k) (cell_b r) -> forall cost, num64 cost = true ->
      checks (safe (a0 + sa * k + ua) (b0 + sb * r + ub) cost) (free (cell_a k) (cell_b r) = true)) as Hcell.
    { intros r Hr c Hcc. by apply checks_cell. }
    assert (k < da) as Hkd by lia.
    assert (j < db) as Hjd by nia.
    rewrite Z.geb_leb. destruct (Z.leb_spec da err) as [Hturn|Hturn].
    + assert (k + 1 < da -> j + 1 < db \/ err = da) as Hlast by nia.
      apply (checks_iff _ (free (cell_a k) (cell_b j) = true /\ (negb (err - da =? 0) = true -> free (cell_a k) (cell_b (j + 1)) = true) /\
        True /\ forall k' r, k + 1 <= k' < da -> enters k' r -> free (cell_a k') (cell_b r) = true)).
      { split.
        - intros (H1 & H2 & _ & H3) k' r Hk' Hr. destruct (decide (k' = k)) as [-> |Hne]; [|apply H3; [lia|done]].
          unfold enters in Hr. assert (r = j \/ r = j + 1) as [-> | ->] by nia; [done|]. apply H2.
          apply negb_true_iff, Z.eqb_neq. unfold err. nia.
        - intros Hall. split; [apply Hall; [lia|]; unfold enters; unfold err in *; nia|]. split.
          + intros He%negb_true_iff%Z.eqb_neq. apply Hall; [lia|]. unfold enters, err in *. nia.
          + split; [done|]. intros k' r Hk'. apply Hall. lia. }
      apply checks_then; [apply Hcell; [apply Hknown; lia|done]|]. intros c1 Hc1 _.
      replace (b0 + sb * j + sb) with (b0 + sb * (j + 1)) by lia.
      apply checks_then; [apply checks_if; [done|]|].
      { intros He%negb_true_iff%Z.eqb_neq. apply Hcell; [|done]. apply Hknown; [lia|]. unfold err in *. nia. }
      intros c2 Hc2 _. apply checks_then; [by apply checks_now|]. intros c3 Hc3 _.
      replace (a0 + sa * k + sa) with (a0 + sa * (k + 1)) by lia.
      replace (err - da) with ((k + 1) * db - (j + 1) * da) by (unfold err; lia).
      apply IH; [lia|lia| |lia|done]. unfold err in *. nia.
    + apply (checks_iff _ (True /\ (negb (err =? 0) = true -> free (cell_a k) (cell_b j) = true) /\
        True /\ forall k' r, k + 1 <= k' < da -> enters k' r -> free (cell_a k') (cell_b r) = true)).
      { split.
        - intros (_ & H2 & _ & H3) k' r Hk' Hr. destruct (decide (k' = k)) as [-> |Hne]; [|apply H3; [lia|done]].
          unfold enters in Hr. assert (r = j) as -> by (unfold err in *; nia). apply H2.
          apply negb_true_iff, Z.eqb_neq. unfold err. nia.
        - intros Hall. split; [done|]. split.
          + intros _. apply Hall; [lia|]. unfold enters, err in *. nia.
          + split; [done|]. intros k' r Hk'. apply Hall. lia. }
      apply checks_then; [by apply checks_now|]. intros c1 Hc1 _.
      apply checks_then; [apply checks_if; [done|]|].
      { intros _. apply Hcell; [|done]. apply Hknown; lia. }
      intros c2 Hc2 _. apply checks_then; [by apply checks_now|]. intros c3 Hc3 _.
      replace (a0 + sa * k + sa) with (a0 + sa * (k + 1)) by lia.
      replace err with ((k + 1) * db - j * da) by (unfold err; lia).
      apply IH; [lia|lia| |lia|done]. unfold err in *. nia.
Qed.

(** Along a line of the grid one of the two cells beside it has to be free. *)
Lemma los_straight : db = 0 -> 0 <= da -> (forall k, 0 <= k < da -> known (cell_a k) b0) ->
  (forall k, 0 <= k < da -> free (cell_a k) b0 = true \/ known (cell_a k) (b0 - 1)) ->
  forall n k cost, 0 <= k -> k + Z.of_nat n = da -> num64 cost = true ->
  checks (los_loop safe n (a0 + sa * da) ua ub sa sb da db (a0 + sa * k) b0 0 cost)
    (forall k', k <= k' < da -> free (cell_a k') b0 = true \/ free (cell_a k') (b0 - 1) = true).
Proof.
  intros -> Hda Hknown Hbelow. induction n as [|n IH]; intros k cost Hk Hn Hc; cbn [los_loop].
  - assert (k = da) as -> by lia. rewrite Z.eqb_refl. apply (checks_iff _ True); [|by apply checks_now]. split; [|done]. intros _. lia.
  - rewrite (proj2 (Z.eqb_neq _ _)) by nia. rewrite Z.geb_leb, (proj2 (Z.leb_gt da (0 + 0))) by lia.
    change (0 + 0) with 0. cbn [Z.eqb negb].
    apply (checks_iff _ (True /\ True /\ (free (cell_a k) b0 = true \/ free (cell_a k) (b0 - 1) = true) /\
      forall k', k + 1 <= k' < da -> free (cell_a k') b0 = true \/ free (cell_a k') (b0 - 1) = true)).
    { split.
      - intros (_ & _ & H1 & H2) k' Hk'. destruct (decide (k' = k)) as [-> |Hne]; [done|]. apply H2. lia.
      - intros Hall. split; [done|]. split; [done|]. split; [apply Hall; lia|]. intros k' Hk'. apply Hall. lia. }
    apply checks_then; [by apply checks_now|]. intros c1 Hc1 _. apply checks_then; [by apply checks_now|]. intros c2 Hc2 _.
    apply checks_then.
    + fold (cell_a k). destruct (safe_ok (cell_a k) b0 c2 (Hknown k ltac:(lia)) Hc2) as (o & -> & Ho & Hn').
      rewrite bind_Ok. destruct o as [c|].
      * exists (Some c). split; [done|]. split; [|done]. split; [|done]. intros _. left. by apply Ho.
      * destruct (Hbelow k ltac:(lia)) as [Hf|Hkn]; [apply Ho in Hf as [? ?]; done|].
        apply (checks_iff _ (free (cell_a k) (b0 - 1) = true)); [|by apply checks_cell].
        split; [by right|]. intros [Hf|]; [apply Ho in Hf as [? ?]; done|done].
    + intros c3 Hc3 _. replace (a0 + sa * k + sa) with (a0 + sa * (k + 1)) by lia. apply IH; [lia|lia|done].
Qed.
End Loop.

(** ** Lines between corners *)

(** The offsets of the two directions. *)
Ltac quots := change (Z.quot (1 - 1) 2) with 0 in *; change (Z.quot (-1 - 1) 2) with (-1) in *.

(** The inside of the cell [c] has a point of the open line from the corner [p] of the grid to [q]. *)
Definition meets (p q c : Z * Z) : Prop := exists n d, 0 < n < d /\
  d * fst c < d * fst p + n * (fst q - fst p) < d * (fst c + 1) /\
  d * snd c < d * snd p + n * (snd q - snd p) < d * (snd c + 1).

Lemma cell_line a0 sa da k n d : sa = 1 \/ sa = -1 ->
  d * cell_a a0 sa k < d * a0 + n * (sa * da) < d * (cell_a a0 sa k + 1) <-> d * k < n * da < d * (k + 1).
Proof. unfold cell_a. intros [-> | ->]; quots; lia. Qed.

Lemma cell_surjective a0 sa c : sa = 1 \/ sa = -1 -> exists k, c = cell_a a0 sa k.
Proof.
  unfold cell_a. intros [-> | ->]; [exists (c - a0)|exists (a0 - c - 1)]; quots; lia.
Qed.

Lemma meets_enters a0 b0 sa sb da db k r : sa = 1 \/ sa = -1 -> sb = 1 \/ sb = -1 -> 0 < da -> 0 < db ->
  meets (a0, b0) (a0 + sa * da, b0 + sb * db) (cell_a a0 sa k, cell_b b0 sb r) <->
  0 <= k < da /\ 0 <= r < db /\ enters da db k r.
Proof.
  intros Hsa Hsb Hda Hdb. unfold meets. cbn [fst snd].
  replace (a0 + sa * da - a0) with (sa * da) by lia. replace (b0 + sb * db - b0) with (sb * db) by lia.
  change (cell_b b0 sb r) with (cell_a b0 sb r). setoid_rewrite (cell_line a0 sa da k _ _ Hsa).
  setoid_rewrite (cell_line b0 sb db r _ _ Hsb). unfold enters. split.
  - intros (n & d & Hn & Ha & Hb). split; [nia|]. split; [nia|]. split.
    + assert (d * r * da < n * db * da) by nia. assert (n * da * db < d * (k + 1) * db) by nia. nia.
    + assert (d * k * db < n * da * db) by nia. assert (n * db * da < d * (r + 1) * da) by nia. nia.
  - intros (Hk & Hr & H1 & H2). exists (Z.max (k * db) (r * da) + Z.min ((k + 1) * db) ((r + 1) * da)), (2 * (da * db)).
    set (lo := Z.max (k * db) (r * da)). set (hi := Z.min ((k + 1) * db) ((r + 1) * da)).
    assert (lo < hi) as Hlh by (unfold lo, hi; lia). assert (k * db <= lo /\ r * da <= lo) as [L1 L2] by lia.
    assert (hi <= (k + 1) * db /\ hi <= (r + 1) * da) as [U1 U2] by lia.
    assert (0 <= lo) by nia. assert (hi <= da * db) by nia.
    split; [lia|]. split; split; nia.
Qed.

(** ** Cells of the map *)

Record map_ok (m : costmap) : Prop := {
  m_x : 0 < size_x m; m_y : 0 < size_y m; m_size : size_x m * size_y m < 2 ^ 30;
  m_cells : Z.of_nat (length (cells m)) = size_x m * size_y m;
  m_values : Forall (in_u 8) (cells m) }.

Definition inside (m : costmap) (p : Z * Z) : Prop := 0 <= fst p < size_x m /\ 0 <= snd p < size_y m.

Definition cell (m : costmap) (p : Z * Z) : Z := default 0 (cells m !! Z.to_nat (snd p * size_x m + fst p)).

Lemma cell_index m p : map_ok m -> inside m p -> 0 <= snd p * size_x m + fst p < size_x m * size_y m.
Proof. intros [] [? ?]. nia. Qed.

Lemma cell_range m p : map_ok m -> in_u 8 (cell m p).
Proof.
  intros []. unfold cell. destruct (cells m !! _) as [v|] eqn:E; [|by unfold in_u].
  cbn. rewrite list.Forall_forall in m_values0. by eapply m_values0, list_elem_of_lookup_2.
Qed.

Section Costs.
Context {Q : Type} `{HypotenuseLaws} `{OpenList Q}.
Implicit Types s : theta Q.

Lemma cell_cost_ok s p : map_ok (costmap_ s) -> inside (costmap_ s) p -> cell_cost (fst p) (snd p) s = Ok (cell (costmap_ s) p).
Proof.
  intros Hm Hp. pose proof (cell_index _ _ Hm Hp) as Hi. destruct Hm, Hp as [? ?]. unfold cell_cost, Costmap.getCost, getCost_at, Costmap.getIndex.
  rewrite !(wrapu_id 32 (fst p)), !(wrapu_id 32 (snd p)) by (unfold in_u; nia). rewrite wrapu_id by (unfold in_u; lia).
  destruct (aget_in (cells (costmap_ s)) (snd p * size_x (costmap_ s) + fst p)) as [v Hv]; [lia|].
  rewrite Hv. apply aget_ok in Hv as [_ Hv]. unfold cell. by rewrite Hv.
Qed.

(** A cell through which the planner may go. *)
Definition free_cell s (p : Z * Z) : bool :=
  (cell (costmap_ s) p =? UNKNOWN_COST) && allow_unknown_ s || (cell (costmap_ s) p <? LETHAL_COST).

Lemma isSafe_ok s p : map_ok (costmap_ s) -> inside (costmap_ s) p -> isSafe (fst p) (snd p) s = Ok (free_cell s p).
Proof. intros Hm Hp. unfold isSafe. by rewrite cell_cost_ok. Qed.

(** The weights are finite, not negative, and not enormous. *)
Record weights_ok s : Prop := {
  w_traversal : between64 (w_traversal_cost_ s) 64;
  w_euc : between64 (w_euc_cost_ s) 64;
  w_heuristic : between64 (w_heuristic_cost_ s) 64 }.

Lemma scaled_bound v : 0 <= v < 256 -> between64 (scaled v) 8.
Proof.
  intros Hv. assert (forallb (fun v => fin 53 1024 (scaled v) && (0 <=? sunits 53 1024 (scaled v)) &&
    (sunits 53 1024 (scaled v) <=? 2 ^ (8 - emin 53 1024))) (seqZ 0 256) = true) as Hall by (vm_compute; reflexivity).
  rewrite forallb_forall in Hall. specialize (Hall v). rewrite <- list_elem_of_In, elem_of_seqZ in Hall.
  specialize (Hall ltac:(lia)). rewrite !andb_true_iff, !Z.leb_le in Hall. unfold between. tauto.
Qed.

(** The two checks agree. *)
Lemma scaled_safe v : 0 <= v < 256 -> f64_lt (scaled v) (f64_of_Z LETHAL_COST) = (v <? LETHAL_COST).
Proof.
  intros Hv. assert (forallb (fun v => Bool.eqb (f64_lt (scaled v) (f64_of_Z LETHAL_COST)) (v <? LETHAL_COST)) (seqZ 0 256) = true)
    as Hall by (vm_compute; reflexivity).
  rewrite forallb_forall in Hall. specialize (Hall v). rewrite <- list_elem_of_In, elem_of_seqZ in Hall. apply Bool.eqb_prop, Hall. lia.
Qed.

Lemma traversal_num s c : weights_ok s -> between64 c 8 -> num64 (traversal c s) = true.
Proof.
  intros [Hw _ _] Hc. apply (between_num 53 1024 ltac:(lia) ltac:(lia) _ 82). unfold traversal.
  assert (emin 53 1024 = -1074) as Em by reflexivity.
  pose proof (mul_le 53 1024 ltac:(lia) ltac:(lia) _ _ 64 8 Hw Hc ltac:(lia) ltac:(lia) ltac:(lia)) as A1.
  pose proof (mul_le 53 1024 ltac:(lia) ltac:(lia) _ _ (64 + 8) 8 A1 Hc ltac:(lia) ltac:(lia) ltac:(lia)) as A2.
  assert (fin 53 1024 (f64_of_Z LETHAL_COST) = true /\ 2 ^ (0 - emin 53 1024) <= sunits 53 1024 (f64_of_Z LETHAL_COST)) as [F L].
  { split; [reflexivity|]. by apply Z.leb_le; vm_compute. }
  pose proof (div_by 53 1024 ltac:(lia) ltac:(lia) _ _ _ A2 F L ltac:(lia) ltac:(lia)) as A3.
  exact (div_by 53 1024 ltac:(lia) ltac:(lia) _ _ _ A3 F L ltac:(lia) ltac:(lia)).
Qed.

Lemma step_num s p : map_ok (costmap_ s) -> weights_ok s -> inside (costmap_ s) p ->
  exists c, getTraversalCost (fst p) (snd p) s = Ok c /\ num64 c = true.
Proof.
  intros Hm Hw Hp. unfold getTraversalCost, getCost. rewrite cell_cost_ok, !bind_Ok by done. eexists. split; [done|].
  apply traversal_num; [done|]. pose proof (cell_range (costmap_ s) p Hm) as Hr. unfold in_u in Hr. apply scaled_bound. lia.
Qed.

Lemma adding_checks s p cost : map_ok (costmap_ s) -> weights_ok s -> inside (costmap_ s) p -> num64 cost = true ->
  exists o, isSafe_adding (fst p) (snd p) cost s = Ok o /\ (is_Some o <-> free_cell s p = true) /\
    forall c, o = Some c -> num64 c = true.
Proof.
  intros Hm Hw Hp Hc. pose proof (cell_range (costmap_ s) p Hm) as Hr. unfold in_u in Hr.
  unfold isSafe_adding, getCost. rewrite !cell_cost_ok, !bind_Ok by done. unfold free_cell. rewrite scaled_safe by lia.
  destruct (_ || _); [|exists None; split; [done|]; split; [split; [by intros [? ?]|done]|done]].
  eexists. split; [done|]. split; [split; [done|by eexists]|]. intros c [= <-].
  apply (sum_num 53 1024 ltac:(lia) ltac:(lia)); [done|]. apply traversal_num; [done|].
  destruct (_ =? _); [|apply scaled_bound; lia].
  split; [reflexivity|]. split; apply Z.leb_le; vm_compute; reflexivity.
Qed.

Lemma euclid_num s a b : weights_ok s -> Z.abs a < 2 ^ 31 -> Z.abs b < 2 ^ 31 ->
  num64 (f64_mul (w_euc_cost_ s) (hypotenuse (f64_of_Z a) (f64_of_Z b))) = true /\
  num64 (f64_mul (w_heuristic_cost_ s) (hypotenuse (f64_of_Z a) (f64_of_Z b))) = true.
Proof.
  intros [_ He Hh] Ha Hb. pose proof (hypotenuse_bound a b Ha Hb) as Hy. assert (emin 53 1024 = -1074) as Em by reflexivity.
  split; apply (between_num 53 1024 ltac:(lia) ltac:(lia) _ (64 + 33)); apply (mul_le 53 1024); (lia || done).
Qed.

(** ** The line of sight of the planner *)

Definition in_sight s (p q : Z * Z) : res (option f64) := losCheck (fst p) (snd p) (fst q) (snd q) s.

Definition sign (a b : Z) : Z := if b >? a then 1 else -1.
Lemma sign_ok a b : (sign a b = 1 \/ sign a b = -1) /\ b = a + sign a b * Z.abs (b - a).
Proof. unfold sign. rewrite Z.gtb_ltb. destruct (Z.ltb_spec a b); lia. Qed.

(** Cells between two coordinates. *)
Lemma cell_between a b k : 0 <= k < Z.abs (b - a) -> Z.min a b <= cell_a a (sign a b) k < Z.max a b.
Proof.
  intros Hk. unfold cell_a, sign. rewrite Z.gtb_ltb.
  destruct (Z.ltb_spec a b); quots; lia.
Qed.

Lemma between_cell a b c : Z.min a b <= c < Z.max a b -> exists k, 0 <= k < Z.abs (b - a) /\ c = cell_a a (sign a b) k.
Proof.
  intros Hc. destruct (cell_surjective a (sign a b) c) as [k Hk]; [apply sign_ok|]. exists k. split; [|done].
  rewrite Hk in Hc. unfold cell_a, sign in Hc. rewrite Z.gtb_ltb in Hc.
  destruct (Z.ltb_spec a b); quots; lia.
Qed.

Lemma meets_swap p q c : meets (snd p, fst p) (snd q, fst q) (snd c, fst c) <-> meets p q c.
Proof. unfold meets. cbn [fst snd]. split; intros (n & d & ? & ? & ?); exists n, d; auto. Qed.

Section Sight.
Context s (Hm : map_ok (costmap_ s)) (Hw : weights_ok s).

Lemma known_x a b cost : inside (costmap_ s) (a, b) -> num64 cost = true ->
  exists o, isSafe_adding a b cost s = Ok o /\ (is_Some o <-> free_cell s (a, b) = true) /\ forall c, o = Some c -> num64 c = true.
Proof. intros Hp Hc. by apply (adding_checks s (a, b)). Qed.

Lemma slanted p q : inside (costmap_ s) p -> inside (costmap_ s) q -> fst p <> fst q -> snd p <> snd q ->
  checks (in_sight s p q) (forall c, meets p q c -> free_cell s c = true).
Proof.
  intros Hp Hq Hx Hy. destruct p as [x0 y0], q as [x1 y1]. cbn [fst snd] in *. unfold in_sight, losCheck. cbn [fst snd].
  fold (sign x0 x1) (sign y0 y1). destruct (sign_ok x0 x1) as [Sx Ex], (sign_ok y0 y1) as [Sy Ey].
  assert (forall k r, 0 <= k < Z.abs (x1 - x0) -> 0 <= r < Z.abs (y1 - y0) ->
    inside (costmap_ s) (cell_a x0 (sign x0 x1) k, cell_a y0 (sign y0 y1) r)) as Hin.
  { intros k r Hk%cell_between Hr%cell_between. destruct Hp, Hq. unfold inside. cbn [fst snd] in *. lia. }
  assert (meets (x0, y0) (x1, y1) = meets (x0, y0) (x0 + sign x0 x1 * Z.abs (x1 - x0), y0 + sign y0 y1 * Z.abs (y1 - y0))) as Hmeets
    by (by rewrite <- Ex, <- Ey).
  rewrite Z.geb_leb. destruct (Z.leb_spec (Z.abs (y1 - y0)) (Z.abs (x1 - x0))) as [Hd|Hd].
  - pose proof (los_slanted _ (fun a b => free_cell s (a, b)) (fun a b => inside (costmap_ s) (a, b)) known_x x0 y0 (sign x0 x1) (sign y0 y1)
      (Z.abs (x1 - x0)) (Z.abs (y1 - y0)) Sx ltac:(lia) Hin (Z.to_nat (Z.abs (x1 - x0))) 0 0 f64_zero
      ltac:(lia) ltac:(lia) ltac:(nia) ltac:(lia) eq_refl) as Hl.
    rewrite <- Ex, !Z.mul_0_r, !Z.add_0_r in Hl. eapply checks_iff; [|exact Hl]. rewrite Hmeets. split.
    + intros Hall [cx cy] Hc. destruct (cell_surjective x0 (sign x0 x1) cx Sx) as [k ->], (cell_surjective y0 (sign y0 y1) cy Sy) as [r ->].
      apply meets_enters in Hc as (Hk & Hr & He); [|lia..]. by apply Hall.
    + intros Hall k r Hk He. apply Hall, meets_enters; [lia..|]. split; [done|]. split; [|done]. unfold enters in He. nia.
  - assert (forall a b cost, inside (costmap_ s) (b, a) -> num64 cost = true -> exists o, isSafe_adding b a cost s = Ok o /\
      (is_Some o <-> free_cell s (b, a) = true) /\ forall c, o = Some c -> num64 c = true) as Hknown by (intros; by apply known_x).
    pose proof (los_slanted _ (fun a b => free_cell s (b, a)) (fun a b => inside (costmap_ s) (b, a)) Hknown y0 x0 (sign y0 y1) (sign x0 x1)
      (Z.abs (y1 - y0)) (Z.abs (x1 - x0)) Sy ltac:(lia) ltac:(intros; by apply Hin) (Z.to_nat (Z.abs (y1 - y0))) 0 0 f64_zero
      ltac:(lia) ltac:(lia) ltac:(nia) ltac:(lia) eq_refl) as Hl.
    rewrite <- Ey, !Z.mul_0_r, !Z.add_0_r in Hl. eapply checks_iff; [|exact Hl]. rewrite Hmeets. split.
    + intros Hall [cx cy] Hc. destruct (cell_surjective x0 (sign x0 x1) cx Sx) as [k ->], (cell_surjective y0 (sign y0 y1) cy Sy) as [r ->].
      apply meets_enters in Hc as (Hk & Hr & He); [|lia..]. apply Hall; [done|]. unfold enters in *. lia.
    + intros Hall r k Hr He. apply Hall, meets_enters; [lia..|]. unfold enters in *. split; [nia|]. split; [done|]. lia.
Qed.

Lemma level p q : inside (costmap_ s) p -> inside (costmap_ s) q -> snd p = snd q ->
  (snd p = 0 -> forall x, Z.min (fst p) (fst q) <= x < Z.max (fst p) (fst q) -> free_cell s (x, 0) = true) ->
  checks (in_sight s p q) (forall x, Z.min (fst p) (fst q) <= x < Z.max (fst p) (fst q) ->
    free_cell s (x, snd p) = true \/ free_cell s (x, snd p - 1) = true).
Proof.
  intros Hp Hq Hy Hrow. destruct p as [x0 y0], q as [x1 y1]. cbn [fst snd] in *. subst y1. unfold in_sight, losCheck. cbn [fst snd].
  fold (sign x0 x1) (sign y0 y0). destruct (sign_ok x0 x1) as [Sx Ex], (sign_ok y0 y0) as [Sy _].
  rewrite Z.sub_diag. change (Z.abs 0) with 0. rewrite Z.geb_leb, (proj2 (Z.leb_le _ _)) by lia.
  assert (forall x, Z.min x0 x1 <= x < Z.max x0 x1 -> inside (costmap_ s) (x, y0)) as Hin
    by (intros x Hxx; destruct Hp, Hq; unfold inside; cbn [fst snd] in *; lia).
  pose proof (los_straight _ (fun a b => free_cell s (a, b)) (fun a b => inside (costmap_ s) (a, b)) known_x x0 y0 (sign x0 x1) (sign y0 y0)
    (Z.abs (x1 - x0)) 0 Sx eq_refl ltac:(lia)) as Hl.
  specialize (Hl ltac:(intros k Hk%cell_between; by apply Hin)).
  specialize (Hl ltac:(intros k Hk%cell_between; destruct (decide (y0 = 0)) as [-> |]; [left; by apply Hrow|right];
    destruct (Hin _ Hk); unfold inside in *; cbn [fst snd] in *; lia)).
  specialize (Hl (Z.to_nat (Z.abs (x1 - x0))) 0 f64_zero ltac:(lia) ltac:(lia) eq_refl).
  rewrite <- Ex, !Z.mul_0_r, !Z.add_0_r in Hl. eapply checks_iff; [|exact Hl]. split.
  - intros Hall x Hxx. destruct (between_cell x0 x1 x Hxx) as (k & Hk & ->). by apply Hall.
  - intros Hall k Hk. apply Hall. by apply cell_between.
Qed.

Lemma upright p q : inside (costmap_ s) p -> inside (costmap_ s) q -> fst p = fst q -> snd p <> snd q ->
  (fst p = 0 -> forall y, Z.min (snd p) (snd q) <= y < Z.max (snd p) (snd q) -> free_cell s (0, y) = true) ->
  checks (in_sight s p q) (forall y, Z.min (snd p) (snd q) <= y < Z.max (snd p) (snd q) ->
    free_cell s (fst p, y) = true \/ free_cell s (fst p - 1, y) = true).
Proof.
  intros Hp Hq Hx Hne Hcol. destruct p as [x0 y0], q as [x1 y1]. cbn [fst snd] in *. subst x1. unfold in_sight, losCheck. cbn [fst snd].
  fold (sign y0 y1) (sign x0 x0). destruct (sign_ok y0 y1) as [Sy Ey], (sign_ok x0 x0) as [Sx _].
  rewrite Z.sub_diag. change (Z.abs 0) with 0. rewrite Z.geb_leb, (proj2 (Z.leb_gt _ _)) by lia.
  assert (forall y, Z.min y0 y1 <= y < Z.max y0 y1 -> inside (costmap_ s) (x0, y)) as Hin
    by (intros y Hyy; destruct Hp, Hq; unfold inside; cbn [fst snd] in *; lia).
  assert (forall a b cost, inside (costmap_ s) (b, a) -> num64 cost = true -> exists o, isSafe_adding b a cost s = Ok o /\
    (is_Some o <-> free_cell s (b, a) = true) /\ forall c, o = Some c -> num64 c = true) as Hknown by (intros; by apply known_x).
  pose proof (los_straight _ (fun a b => free_cell s (b, a)) (fun a b => inside (costmap_ s) (b, a)) Hknown y0 x0 (sign y0 y1) (sign x0 x0)
    (Z.abs (y1 - y0)) 0 Sy eq_refl ltac:(lia)) as Hl.
  specialize (Hl ltac:(intros k Hk%cell_between; by apply Hin)).
  specialize (Hl ltac:(intros k Hk%cell_between; destruct (decide (x0 = 0)) as [-> |]; [left; by apply Hcol|right];
    destruct (Hin _ Hk); unfold inside in *; cbn [fst snd] in *; lia)).
  specialize (Hl (Z.to_nat (Z.abs (y1 - y0))) 0 f64_zero ltac:(lia) ltac:(lia) eq_refl).
  rewrite <- Ey, !Z.mul_0_r, !Z.add_0_r in Hl. eapply checks_iff; [|exact Hl]. split.
  - intros Hall y Hyy. destruct (between_cell y0 y1 y Hyy) as (k & Hk & ->). by apply Hall.
  - intros Hall k Hk. apply Hall. by apply cell_between.
Qed.
End Sight.

(** C30: between two cells of the map the check succeeds exactly where, for a slanted line, every cell is
    safe that has a point of the line from corner to corner of the grid, and for a straight one each cell
    beside it or the one on the other side; along the border it needs the cells to be safe. *)
Theorem los_corners s p q (Hm : map_ok (costmap_ s)) (Hw : weights_ok s) (Hp : inside (costmap_ s) p) (Hq : inside (costmap_ s) q) :
  (fst p <> fst q -> snd p <> snd q ->
    exists o, losCheck (fst p) (snd p) (fst q) (snd q) s = Ok o /\ (is_Some o <-> forall c, meets p q c -> free_cell s c = true)) /\
  (snd p = snd q -> (snd p = 0 -> forall x, Z.min (fst p) (fst q) <= x < Z.max (fst p) (fst q) -> free_cell s (x, 0) = true) ->
    exists o, losCheck (fst p) (snd p) (fst q) (snd q) s = Ok o /\
      (is_Some o <-> forall x, Z.min (fst p) (fst q) <= x < Z.max (fst p) (fst q) ->
        free_cell s (x, snd p) = true \/ free_cell s (x, snd p - 1) = true)) /\
  (fst p = fst q -> snd p <> snd q ->
    (fst p = 0 -> forall y, Z.min (snd p) (snd q) <= y < Z.max (snd p) (snd q) -> free_cell s (0, y) = true) ->
    exists o, losCheck (fst p) (snd p) (fst q) (snd q) s = Ok o /\
      (is_Some o <-> forall y, Z.min (snd p) (snd q) <= y < Z.max (snd p) (snd q) ->
        free_cell s (fst p, y) = true \/ free_cell s (fst p - 1, y) = true)).
Proof.
  split; [|split].
  - intros Hx Hy. destruct (slanted s Hm Hw p q Hp Hq Hx Hy) as (o & ? & ? & _). by exists o.
  - intros Hy Hrow. destruct (level s Hm Hw p q Hp Hq Hy Hrow) as (o & ? & ? & _). by exists o.
  - intros Hx Hy Hcol. destruct (upright s Hm Hw p q Hp Hq Hx Hy Hcol) as (o & ? & ? & _). by exists o.
Qed.

(** A blocked cell in the first row makes the check read outside the map. *)
Lemma los_outside s (Hm : map_ok (costmap_ s)) (Hw : weights_ok s) : inside (costmap_ s) (2, 0) ->
  free_cell s (1, 0) = false -> losCheck 2 0 0 0 s = UB.
Proof.
  intros Hp Hf.
  assert (losCheck 2 0 0 0 s = and_then (c ← isSafe_adding 1 0 f64_zero s;
      match c with Some _ => Ok c | None => isSafe_adding 1 (0 - 1) f64_zero s end)
    (los_loop (fun cx cy cost => isSafe_adding cx cy cost s) 1 0 (-1) (-1) (-1) (-1) 2 0 1 0 0)) as -> by reflexivity.
  assert (inside (costmap_ s) (1, 0)) as Hin by (destruct Hp; split; cbn [fst snd] in *; lia).
  destruct (adding_checks s (1, 0) f64_zero Hm Hw Hin eq_refl) as (o & Ho & Hiff & _). cbn [fst snd] in Ho.
  assert (o = None) as -> by (destruct o; [|done]; rewrite (proj1 Hiff) in Hf; [done|by eexists]).
  rewrite Ho, bind_Ok.
  assert (cell_cost 1 (0 - 1) s = UB) as Hub.
  { destruct Hm, Hp as [Hp1 _]. cbn [fst] in Hp1. unfold cell_cost, Costmap.getCost, getCost_at, Costmap.getIndex.
    change (wrapu 32 (0 - 1)) with (2 ^ 32 - 1). change (wrapu 32 1) with 1.
    replace ((2 ^ 32 - 1) * size_x (costmap_ s) + 1) with (2 ^ 32 - size_x (costmap_ s) + 1 + (size_x (costmap_ s) - 1) * 2 ^ 32) by lia.
    unfold wrapu. rewrite Z.mod_add by lia. assert (size_x (costmap_ s) < 2 ^ 30) by nia. rewrite Z.mod_small by lia.
    unfold aget. rewrite decide_True by lia. by rewrite lookup_ge_None_2 by lia. }
  unfold isSafe_adding, getCost. by rewrite Hub.
Qed.
End Costs.

(** ** An instance *)

Definition line_map : costmap :=
  mk_costmap 4 3 (f64_of_Z 1) f64_zero f64_zero [0; 0; 0; 0;  0; 254; 0; 0;  0; 0; 0; 0] 0.
Definition line_planner : theta () :=
  mk_theta (0, 0) (0, 0) line_map (f64_of_Z 1) (f64_of_Z 2) (f64_of_Z 1) 8 true 4 3 5000 0 [] [] 0 tt 0.

Lemma line_map_ok : map_ok line_map.
Proof. constructor; [done..|]. apply (bool_decide_unpack _); vm_compute; exact I. Qed.

Lemma line_weights_ok : weights_ok line_planner.
Proof. constructor; (split; [reflexivity|split; apply Z.leb_le; vm_compute; reflexivity]). Qed.

(** The line from the corner (0, 0) to (3, 2) goes through the blocked cell; a line between the corners (0, 1) and (3, 1), to which the
    centres of the blocked row belong, is free. *)
Lemma los_corners_witness :
  (exists o, losCheck 0 0 3 2 line_planner = Ok o /\ (is_Some o <-> forall c, meets (0, 0) (3, 2) c -> free_cell line_planner c = true)) /\
  exists o, losCheck 0 1 3 1 line_planner = Ok o /\
    (is_Some o <-> forall x, Z.min 0 3 <= x < Z.max 0 3 -> free_cell line_planner (x, 1) = true \/ free_cell line_planner (x, 1 - 1) = true).
Proof.
  split.
  - apply (los_corners line_planner (0, 0) (3, 2) line_map_ok line_weights_ok); [split; cbn; lia|split; cbn; lia|cbn; lia|cbn; lia].
  - apply (los_corners line_planner (0, 1) (3, 1) line_map_ok line_weights_ok); [split; cbn; lia|split; cbn; lia|done|cbn; lia].
Defined.

(** So a blocked cell does not block the line through its own centre. *)
Example through_blocked_cell : exists cost, losCheck 0 1 3 1 line_planner = Ok (Some cost) /\ free_cell line_planner (1, 1) = false.
Proof. eexists. split; vm_compute; reflexivity. Qed.
End ThetaStarLaws.
