(* ===== verification/ThetaStarSearch.v ===== *)
(** * Theta star: the search

    The invariant of the search: each node that was reached has a cell that is safe, a cost that is
    the sum of its parts, and a parent with a smaller or equal cost that is a neighbour or in sight; parents lead
    to the start. The sum of the costs and the length of the queue bound the rounds. *)

From stdpp Require Import base option list numbers sorting.
From Stdlib Require Import ZArith Lia SpecFloat.
From S2P Require Import Prelude Float64 FloatOrder FloatBounds Costmap ThetaStar ThetaStarLaws.

Module ThetaStarSearch.
Import Costmap ThetaStar ThetaStarLaws.

(** ** Numbers *)

Lemma num_lt a b : num64 a = true -> num64 b = true -> f64_lt a b = (value a <? value b).
Proof. intros. by apply (ltb_units 53 1024 ltac:(lia) ltac:(lia)). Qed.

Lemma num_sum a b : num64 a = true -> num64 b = true -> num64 (f64_add a b) = true /\ value a <= value (f64_add a b).
Proof.
  intros. split; [by apply (sum_num 53 1024 ltac:(lia) ltac:(lia))|by apply (sum_above 53 1024 ltac:(lia) ltac:(lia))].
Qed.

Lemma num_sum_mono a a' b : num64 a = true -> num64 a' = true -> num64 b = true -> value a <= value a' ->
  value (f64_add a b) <= value (f64_add a' b).
Proof. intros. by apply (sum_mono 53 1024 ltac:(lia) ltac:(lia)). Qed.

Lemma value_range a : num64 a = true -> 0 <= value a <= top 53 1024.
Proof. apply (units_range 53 1024 ltac:(lia) ltac:(lia)). Qed.

Lemma inf_num : num64 INF_COST = true.
Proof. reflexivity. Qed.

(** ** Chains of parents *)

Inductive rooted (P : Z -> option Z) : Z -> Prop :=
  | rooted_root : P 0 = Some 0 -> rooted P 0
  | rooted_up i j : i <> 0 -> P i = Some j -> rooted P j -> rooted P i.

Section Chains.
Context (P P' : Z -> option Z) (v : Z -> Z) (n c : Z).
Context (lower : forall i j, P i = Some j -> v j <= v i) (n_pos : n <> 0).
Context (away : forall i, is_Some (P i) -> v i <= v c -> i <> n).
Context (new_parent : P' n = Some c) (others : forall i, i <> n -> P' i = P i).

Lemma chain_away i : rooted P i -> v i <= v c -> rooted P' i.
Proof.
  induction 1 as [H0|i j Hi Hj _ IH]; intros Hv.
  - apply rooted_root. by rewrite others by (intros <-; done).
  - apply (rooted_up _ i j); [done| |].
    + rewrite others; [done|]. apply away; [by rewrite Hj|done].
    + apply IH. pose proof (lower i j Hj). lia.
Qed.

(** A new parent that is itself rooted keeps all chains. *)
Lemma chain_update i : rooted P c -> rooted P i -> rooted P' i.
Proof.
  intros Hc. induction 1 as [H0|i j Hi Hj _ IH].
  - apply rooted_root. by rewrite others by (intros <-; done).
  - destruct (decide (i = n)) as [-> |Hne].
    + apply (rooted_up _ n c); [done|done|]. by apply chain_away.
    + apply (rooted_up _ i j); [done|by rewrite others|done].
Qed.
End Chains.

Lemma rooted_not_self P i : rooted P i -> i <> 0 -> P i <> Some i.
Proof. induction 1 as [|i j Hi Hj _ IH]; [done|]. intros _ E. rewrite E in Hj. injection Hj as <-. by apply IH. Qed.

(** ** Sums over the nodes *)

Definition total (l : list Z) : Z := foldr Z.add 0 l.

Lemma total_mono {A} (f f' : A -> Z) l : (forall a, a ∈ l -> f' a <= f a) -> total (f' <$> l) <= total (f <$> l).
Proof.
  induction l as [|a l IH]; intros Hf; [done|]. cbn. pose proof (Hf a ltac:(left)).
  assert (total (f' <$> l) <= total (f <$> l)) by (apply IH; intros; apply Hf; by right). unfold total in *. lia.
Qed.

Lemma total_strict {A} (f f' : A -> Z) l b : (forall a, a ∈ l -> f' a <= f a) -> b ∈ l -> f' b < f b ->
  total (f' <$> l) < total (f <$> l).
Proof.
  induction l as [|a l IH]; intros Hf Hb Hlt; [by apply elem_of_nil in Hb|]. cbn.
  pose proof (Hf a ltac:(left)). apply elem_of_cons in Hb as [-> |Hb].
  - assert (total (f' <$> l) <= total (f <$> l)) by (apply total_mono; intros; apply Hf; by right). unfold total in *. lia.
  - assert (total (f' <$> l) < total (f <$> l)) by (apply IH; [intros; apply Hf; by right|done|done]). unfold total in *. lia.
Qed.

Lemma total_nonneg {A} (f : A -> Z) l : (forall a, a ∈ l -> 0 <= f a) -> 0 <= total (f <$> l).
Proof.
  induction l as [|a l IH]; intros Hf; [done|]. cbn. pose proof (Hf a ltac:(left)).
  assert (0 <= total (f <$> l)) by (apply IH; intros; apply Hf; by right). unfold total in *. lia.
Qed.

(** Entries in use. *)
Definition used (l : list (option Z)) : nat := length (filter (fun o => is_Some o) l).

Lemma used_insert l k i : l !! k = Some None -> used (<[k := Some i]> l) = S (used l).
Proof.
  revert k. unfold used. induction l as [|o l IH]; intros [|k] Hk; try done.
  - injection Hk as ->. cbn [list_insert insert]. rewrite filter_cons_True by eauto. by rewrite filter_cons_False by (by intros [? ?]).
  - cbn [list_insert insert]. cbn in Hk. destruct o as [j|].
    + rewrite !filter_cons_True by eauto. cbn [length]. by rewrite IH.
    + rewrite !filter_cons_False by (by intros [? ?]). by apply IH.
Qed.

Lemma used_below l : (exists k, l !! k = Some None) -> (used l < length l)%nat.
Proof.
  unfold used. intros [k Hk]. revert k Hk. induction l as [|o l IH]; intros [|k] Hk; try done.
  - injection Hk as ->. rewrite filter_cons_False by (by intros [? ?]). cbn.
    pose proof (length_filter (fun o : option Z => is_Some o) l). lia.
  - cbn in Hk. cbn [length]. destruct o as [j|].
    + rewrite filter_cons_True by eauto. cbn. specialize (IH k Hk). lia.
    + rewrite filter_cons_False by (by intros [? ?]). specialize (IH k Hk). lia.
Qed.

(** ** The invariant *)

Section Search.
Context {Q : Type} `{HypotenuseLaws} `{OpenListLaws Q}.
Implicit Types s : theta Q.

(** The borders that a straight line of sight would look across are free, or nothing can be there. *)
Definition border_ok s : Prop :=
  ((forall x, inside (costmap_ s) (x, 0) -> free_cell s (x, 0) = true) \/
   (forall x, inside (costmap_ s) (x, 0) -> free_cell s (x, 0) = false)) /\
  ((forall y, inside (costmap_ s) (0, y) -> free_cell s (0, y) = true) \/
   (forall y, inside (costmap_ s) (0, y) -> free_cell s (0, y) = false)).

(** What a search needs of the state it starts from. *)
Record plannable s : Prop := {
  p_map : map_ok (costmap_ s);
  p_weights : weights_ok s;
  p_src : inside (costmap_ s) (src_ s) /\ free_cell s (src_ s) = true;
  p_dst : inside (costmap_ s) (dst_ s);
  p_border : border_ok s;
  p_corners : 0 <= how_many_corners_ s <= 8;
  p_interval : terminal_checking_interval_ s <> 0 }.

Context (s0 : theta Q) (start0 : plannable s0).
Abbreviation m := (costmap_ s0).
Abbreviation free := (free_cell s0).

(** The members that the search does not change. *)
Record same s : Prop := {
  e_src : src_ s = src_ s0; e_dst : dst_ s = dst_ s0; e_map : costmap_ s = m;
  e_traversal : w_traversal_cost_ s = w_traversal_cost_ s0; e_euc : w_euc_cost_ s = w_euc_cost_ s0;
  e_heuristic : w_heuristic_cost_ s = w_heuristic_cost_ s0; e_corners : how_many_corners_ s = how_many_corners_ s0;
  e_unknown : allow_unknown_ s = allow_unknown_ s0; e_interval : terminal_checking_interval_ s = terminal_checking_interval_ s0;
  e_size : size_x_ s = size_x m /\ size_y_ s = size_y m }.

(** The cell [p] has the node [i]. *)
Definition at_cell s (p : Z * Z) (i : Z) : Prop :=
  inside m p /\ node_position_ s !! Z.to_nat (snd p * size_x m + fst p) = Some (Some i).

Definition par s (i : Z) : option Z :=
  if (0 <=? i) && (i <? index_generated_ s) then nodes_data_ s !! Z.to_nat i ≫= parent_id else None.
Definition cost_to s (i : Z) : Z := default 0 ((fun n => value (g n)) <$> nodes_data_ s !! Z.to_nat i).

(** The two ways to go on from [p] to [q]. *)
Definition king (p q : Z * Z) : Prop := Z.abs (fst p - fst q) <= 1 /\ Z.abs (snd p - snd q) <= 1.
Definition link (p q : Z * Z) : Prop := king p q \/ exists c, in_sight s0 q p = Ok (Some c).

(** A node that was reached: its cell, its costs, its parent. *)
Record reached s (p : Z * Z) (n : tree_node) : Prop := {
  r_pos : x n = fst p /\ y n = snd p;
  r_free : free p = true;
  r_num : num64 (g n) = true /\ num64 (h n) = true;
  r_f : f n = f64_add (g n) (h n) /\ h n = getHCost (fst p) (snd p) s0;
  r_parent : exists j q, parent_id n = Some j /\ at_cell s q j /\ is_Some (par s j) /\ cost_to s j <= value (g n) /\ link q p }.

Definition untouched (n : tree_node) : Prop := parent_id n = None /\ f n = INF_COST /\ is_in_queue n = false.

Record inv s : Prop := {
  i_same : same s;
  i_table : size_x m * size_y m <= Z.of_nat (length (node_position_ s)) < 2 ^ 31;
  i_rest : forall k o, size_x m * size_y m <= k -> node_position_ s !! Z.to_nat k = Some o -> o = None;
  i_range : forall p i, at_cell s p i -> 0 <= i < index_generated_ s;
  i_inj : forall p q i, at_cell s p i -> at_cell s q i -> p = q;
  i_all : forall i, 0 <= i < index_generated_ s -> exists p, at_cell s p i;
  i_count : index_generated_ s = Z.of_nat (used (take (Z.to_nat (size_x m * size_y m)) (node_position_ s)));
  i_len : index_generated_ s <= Z.of_nat (length (nodes_data_ s)) <= nodes_capacity s /\ size_x m * size_y m <= nodes_capacity s;
  i_node : forall p i n, at_cell s p i -> nodes_data_ s !! Z.to_nat i = Some n -> untouched n \/ reached s p n;
  i_root : at_cell s (src_ s0) 0 /\ par s 0 = Some 0;
  i_rooted : forall i, 0 <= i < index_generated_ s -> is_Some (par s i) -> rooted (par s) i;
  i_queue : forall i, i ∈ q_elements (queue_ s) -> 0 <= i < index_generated_ s /\ is_Some (par s i) }.

(** The costs [f] of the nodes that there are or may be, with the queue. *)
Definition cost_of_node s (i : Z) : Z := if i <? index_generated_ s then value (costs s i) else value INF_COST.
Definition nodes_of_map : list Z := seqZ 0 (size_x m * size_y m).
Definition measure s : Z := total (cost_of_node s <$> nodes_of_map) + Z.of_nat (length (q_elements (queue_ s))).

Lemma same_free s p : same s -> free_cell s p = free p.
Proof. intros []. unfold free_cell. by rewrite e_map0, e_unknown0. Qed.

Lemma same_adding s a b c : same s -> isSafe_adding a b c s = isSafe_adding a b c s0.
Proof. intros []. unfold isSafe_adding, getCost, cell_cost, traversal. by rewrite e_map0, e_unknown0, e_traversal0. Qed.

Lemma loop_ext safe safe' n : (forall a b c, safe a b c = safe' a b c) -> forall a1 ua ub sa sb da db a b err cost,
  los_loop safe n a1 ua ub sa sb da db a b err cost = los_loop safe' n a1 ua ub sa sb da db a b err cost.
Proof.
  intros He. induction n as [|n IH]; intros; cbn [los_loop]; [done|]. destruct (a =? a1); [done|].
  assert (forall c k k', (forall cost, k cost = k' cost) -> and_then c k = and_then c k') as Hat.
  { intros c k k' Hk. unfold and_then. destruct c as [[]| |]; cbn; auto. }
  rewrite !He. apply Hat. intros c1. rewrite !He. apply Hat. intros c2. rewrite !He. apply Hat. intros c3. apply IH.
Qed.

Lemma same_sight s p q : same s -> in_sight s p q = in_sight s0 p q.
Proof.
  intros Hs. unfold in_sight, losCheck. destruct (_ >=? _); apply loop_ext; intros; by apply same_adding.
Qed.

Lemma same_h s a b : same s -> getHCost a b s = getHCost a b s0.
Proof. intros []. unfold getHCost. by rewrite e_dst0, e_heuristic0. Qed.

Lemma theta_index_in p : inside m p -> 0 <= snd p * size_x m + fst p < size_x m * size_y m.
Proof. intros Hp. apply cell_index; [apply start0|done]. Qed.

Lemma theta_index_inj p q : inside m p -> inside m q -> snd p * size_x m + fst p = snd q * size_x m + fst q -> p = q.
Proof.
  intros [Hp1 Hp2] [Hq1 Hq2] E. destruct p as [a b], q as [c d]. cbn [fst snd] in *.
  assert (b = d) as -> by nia. f_equal. lia.
Qed.

Lemma position_ok s p : same s -> inside m p -> position (fst p) (snd p) s = Ok (snd p * size_x m + fst p).
Proof.
  intros [] Hp. pose proof (theta_index_in p Hp). destruct start0 as [[] _ _ _ _ _ _], Hp. unfold position. rewrite (proj1 e_size0).
  rewrite chk_in by (unfold in_s; nia). rewrite bind_Ok, chk_in by (unfold in_s; nia). f_equal. lia.
Qed.

Lemma getIndex_ok s p : inv s -> inside m p -> exists o, ThetaStar.getIndex (fst p) (snd p) s = Ok o /\
  node_position_ s !! Z.to_nat (snd p * size_x m + fst p) = Some o.
Proof.
  intros I Hp. pose proof (theta_index_in p Hp) as Hi. pose proof (i_table s I). unfold ThetaStar.getIndex.
  rewrite (position_ok s p (i_same s I) Hp), bind_Ok.
  destruct (aget_in (node_position_ s) (snd p * size_x m + fst p)) as [o Ho]; [lia|]. exists o. split; [done|]. by apply aget_ok in Ho as [_ Ho].
Qed.

Lemma node_in s i : inv s -> 0 <= i < index_generated_ s -> exists n, node i s = Ok n /\ nodes_data_ s !! Z.to_nat i = Some n.
Proof.
  intros I Hi. pose proof (i_len s I). destruct (aget_in (nodes_data_ s) i) as [n Hn]; [lia|]. exists n. split; [done|]. by apply aget_ok in Hn as [_ Hn].
Qed.

Lemma par_node s i n : 0 <= i < index_generated_ s -> nodes_data_ s !! Z.to_nat i = Some n -> par s i = parent_id n.
Proof. intros Hi Hn. unfold par. rewrite (proj2 (Z.leb_le _ _)), (proj2 (Z.ltb_lt _ _)) by lia. cbn. by rewrite Hn. Qed.

Lemma par_range s i : is_Some (par s i) -> 0 <= i < index_generated_ s.
Proof.
  unfold par. destruct (Z.leb_spec 0 i), (Z.ltb_spec i (index_generated_ s)); cbn; try lia; by intros [? ?].
Qed.

(** A node with a parent was reached. *)
Lemma reached_of s p i n : inv s -> at_cell s p i -> nodes_data_ s !! Z.to_nat i = Some n -> is_Some (par s i) -> reached s p n.
Proof.
  intros I Hp Hn Hj. destruct (i_node s I p i n Hp Hn) as [(Hu & _)|]; [|done].
  rewrite (par_node s i n (par_range s i Hj) Hn), Hu in Hj. by destruct Hj.
Qed.

Lemma cost_to_num s i n : nodes_data_ s !! Z.to_nat i = Some n -> cost_to s i = value (g n).
Proof. unfold cost_to. by intros ->. Qed.

(** The node of an index in use, with its cell. *)
Lemma reached_at s i : inv s -> is_Some (par s i) -> exists p n, at_cell s p i /\ node i s = Ok n /\
  nodes_data_ s !! Z.to_nat i = Some n /\ reached s p n.
Proof.
  intros I Hi. pose proof (par_range s i Hi) as Hr. destruct (i_all s I i Hr) as [p Hp]. destruct (node_in s i I Hr) as (n & ? & Hn).
  exists p, n. split; [done|]. split; [done|]. split; [done|]. by eapply reached_of.
Qed.

Lemma par_lower s i j : inv s -> par s i = Some j -> cost_to s j <= cost_to s i.
Proof.
  intros I Hj. destruct (reached_at s i I ltac:(by eexists)) as (p & n & Hp & _ & Hn & Hr).
  rewrite (par_node s i n (par_range s i ltac:(by eexists)) Hn) in Hj. destruct (r_parent _ _ _ Hr) as (j' & q & Hj' & _ & _ & Hc & _).
  rewrite (cost_to_num s i n Hn). congruence.
Qed.

Lemma set_node_ok s i n : inv s -> 0 <= i < index_generated_ s -> set_node i n s = Ok (set_nodes (<[Z.to_nat i := n]> (nodes_data_ s)) s).
Proof.
  intros I Hi. pose proof (i_len s I). unfold set_node.
  assert (aset (nodes_data_ s) i n = Ok (<[Z.to_nat i := n]> (nodes_data_ s))) as -> by (apply aset_ok; split; [lia|done]). done.
Qed.

Lemma index_bound s : inv s -> index_generated_ s <= size_x m * size_y m.
Proof.
  intros I. rewrite (i_count s I). unfold used.
  pose proof (length_filter (fun o : option Z => is_Some o) (take (Z.to_nat (size_x m * size_y m)) (node_position_ s))) as Hf.
  rewrite length_take in Hf. destruct start0 as [[] _ _ _ _ _ _]. nia.
Qed.

(** A node in use is replaced by one of less cost. *)
Lemma replace_measure s i n n' : inv s -> 0 <= i < index_generated_ s -> nodes_data_ s !! Z.to_nat i = Some n ->
  value (f n') <= value (f n) -> let s' := set_nodes (<[Z.to_nat i := n']> (nodes_data_ s)) s in
  measure s' <= measure s /\ (value (f n') < value (f n) -> measure s' < measure s).
Proof.
  intros I Hi Hn Hle s'. pose proof (index_bound s I) as Hb. pose proof (lookup_lt_Some _ _ _ Hn) as Hl.
  assert (forall k, k ∈ nodes_of_map -> cost_of_node s' k = if decide (k = i) then value (f n') else cost_of_node s k) as Hk.
  { intros k [Hk1 Hk2]%elem_of_seqZ. unfold cost_of_node, s', costs. cbn [index_generated_ nodes_data_ set_nodes].
    destruct (decide (k = i)) as [-> |Hne].
    - rewrite (proj2 (Z.ltb_lt _ _)) by lia. by rewrite list_lookup_insert_eq.
    - destruct (_ <? _); [|done]. by rewrite list_lookup_insert_ne by lia. }
  assert (cost_of_node s i = value (f n)) as Hold.
  { unfold cost_of_node, costs. rewrite (proj2 (Z.ltb_lt _ _)) by lia. by rewrite Hn. }
  assert (forall k, k ∈ nodes_of_map -> cost_of_node s' k <= cost_of_node s k) as Hpoint.
  { intros k Hk'. rewrite (Hk k Hk'). destruct (decide (k = i)) as [-> |]; lia. }
  unfold measure. change (queue_ s') with (queue_ s). split.
  - pose proof (total_mono _ _ _ Hpoint). lia.
  - intros Hlt. pose proof (total_strict _ _ nodes_of_map i Hpoint ltac:(apply elem_of_seqZ; lia)) as Hs.
    rewrite Hk in Hs by (apply elem_of_seqZ; lia). rewrite decide_True in Hs by done. specialize (Hs ltac:(lia)). lia.
Qed.

(** Only the flag of a node changes. *)
Definition flagged b (n : tree_node) : tree_node := mk_node (x n) (y n) (g n) (h n) (parent_id n) b (f n).

Lemma set_flag s i n b : inv s -> is_Some (par s i) -> nodes_data_ s !! Z.to_nat i = Some n ->
  inv (set_nodes (<[Z.to_nat i := flagged b n]> (nodes_data_ s)) s) /\
  (forall k, par (set_nodes (<[Z.to_nat i := flagged b n]> (nodes_data_ s)) s) k = par s k).
Proof.
  intros I Hi Hn. pose proof (par_range s i Hi) as Hr. pose proof (lookup_lt_Some _ _ _ Hn) as Hl.
  set (s' := set_nodes (<[Z.to_nat i := flagged b n]> (nodes_data_ s)) s).
  assert (forall k, par s' k = par s k) as Hpar.
  { intros k. unfold par, s'. cbn [index_generated_ nodes_data_ set_nodes].
    destruct (Z.leb_spec 0 k), (Z.ltb_spec k (index_generated_ s)); cbn [andb]; try done.
    destruct (decide (k = i)) as [-> |Hne]; [by rewrite list_lookup_insert_eq, Hn|by rewrite list_lookup_insert_ne by lia]. }
  assert (forall k, 0 <= k -> cost_to s' k = cost_to s k) as Hcost.
  { intros k Hk. unfold cost_to, s'. cbn [nodes_data_ set_nodes].
    destruct (decide (k = i)) as [-> |Hne]; [by rewrite list_lookup_insert_eq, Hn|by rewrite list_lookup_insert_ne by lia]. }
  assert (forall p k, reached s p k -> reached s' p k) as Hre.
  { intros p k [? ? ? ? (j & q & ? & ? & Hj & ? & ?)]. constructor; try done. exists j, q. rewrite Hpar, Hcost by (apply par_range in Hj; lia). done. }
  split; [|done]. destruct I as [I1 I2 I3 I4 I5 I6 I7 I8 I9 I10 I11 I12]. constructor; try done.
  - destruct I1. by constructor.
  - cbn [index_generated_ nodes_data_ nodes_capacity set_nodes s']. by rewrite length_insert.
  - intros p k n' Hk Hn'. unfold s' in Hn'. cbn [nodes_data_ set_nodes] in Hn'. destruct (decide (k = i)) as [-> |Hne].
    + rewrite list_lookup_insert_eq in Hn' by done. injection Hn' as <-. right.
      assert (reached s p n) as [? ? ? ? ?]; [|apply Hre; by constructor].
      destruct (I9 p i n Hk Hn) as [(Hu & _)|]; [|done]. rewrite (par_node s i n Hr Hn), Hu in Hi. by destruct Hi.
    + pose proof (I4 p k Hk) as Hkr. rewrite list_lookup_insert_ne in Hn' by lia. destruct (I9 p k n' Hk Hn') as [|]; [by left|right; by apply Hre].
  - by rewrite Hpar.
  - intros k Hk Hs. rewrite Hpar in Hs. specialize (I11 k Hk Hs).
    clear -I11 Hpar. induction I11 as [H0'|a b' Ha Hb _ IH]; [apply rooted_root; by rewrite Hpar|]. apply (rooted_up _ a b'); [done|by rewrite Hpar|done].
  - intros k Hk. rewrite Hpar. by apply I12.
Qed.

(** The node that a better way to a cell leaves. *)
Definition improved (p : Z * Z) (gn : f64) (c : Z) (b : bool) : tree_node :=
  mk_node (fst p) (snd p) gn (getHCost (fst p) (snd p) s0) (Some c) b (f64_add gn (getHCost (fst p) (snd p) s0)).

Lemma heuristic_num p : inside m p -> num64 (getHCost (fst p) (snd p) s0) = true.
Proof.
  intros Hp. pose proof (p_dst _ start0) as Hd. destruct (p_map _ start0), Hp, Hd.
  apply (euclid_num s0 (fst p - fst (dst_ s0)) (snd p - snd (dst_ s0)) (p_weights _ start0)); nia.
Qed.

Lemma theta_improve s p i n c q nc b gn : inv s -> at_cell s p i -> nodes_data_ s !! Z.to_nat i = Some n -> i <> 0 ->
  at_cell s q c -> is_Some (par s c) -> nodes_data_ s !! Z.to_nat c = Some nc ->
  num64 gn = true -> value (g nc) <= value gn -> link q p -> free p = true ->
  (untouched n \/ value gn < value (g n)) ->
  let s' := set_nodes (<[Z.to_nat i := improved p gn c b]> (nodes_data_ s)) s in
  inv s' /\ (forall k, is_Some (par s k) -> is_Some (par s' k)) /\ is_Some (par s' i).
Proof.
  intros I Hp Hn Hi0 Hq Hc Hnc Hgn Hle Hlink Hfree Hbetter s'.
  pose proof (i_range s I p i Hp) as Hr. pose proof (i_range s I q c Hq) as Hrc. pose proof (lookup_lt_Some _ _ _ Hn) as Hl.
  assert (forall k, is_Some (par s k) -> cost_to s k <= cost_to s c -> k <> i) as Haway.
  { intros k Hk Hv ->. destruct Hbetter as [(Hu & _)|Hlt].
    - rewrite (par_node s i n Hr Hn), Hu in Hk. by destruct Hk.
    - rewrite (cost_to_num s i n Hn), (cost_to_num s c nc Hnc) in Hv. lia. }
  assert (c <> i) as Hci by (apply Haway; [done|lia]).
  assert (par s' i = Some c) as Hpi.
  { unfold par, s'. cbn [index_generated_ nodes_data_ set_nodes]. rewrite (proj2 (Z.leb_le _ _)), (proj2 (Z.ltb_lt _ _)) by lia.
    cbn. by rewrite list_lookup_insert_eq. }
  assert (forall k, k <> i -> par s' k = par s k) as Hpar.
  { intros k Hne. unfold par, s'. cbn [index_generated_ nodes_data_ set_nodes].
    destruct (Z.leb_spec 0 k), (Z.ltb_spec k (index_generated_ s)); cbn [andb]; try done. by rewrite list_lookup_insert_ne by lia. }
  assert (forall k, is_Some (par s k) -> is_Some (par s' k)) as Hmono.
  { intros k Hk. destruct (decide (k = i)) as [-> |]; [by rewrite Hpi|by rewrite Hpar]. }
  assert (forall k, 0 <= k -> k <> i -> cost_to s' k = cost_to s k) as Hcost.
  { intros k Hk Hne. unfold cost_to, s'. cbn [nodes_data_ set_nodes]. by rewrite list_lookup_insert_ne by lia. }
  assert (cost_to s' i = value gn) as Hci'.
  { unfold cost_to, s'. cbn [nodes_data_ set_nodes]. by rewrite list_lookup_insert_eq. }
  assert (is_Some (par s i) -> value gn <= cost_to s i) as Hold.
  { intros Hk. rewrite (cost_to_num s i n Hn). destruct Hbetter as [(Hu & _)|]; [|lia]. rewrite (par_node s i n Hr Hn), Hu in Hk. by destruct Hk. }
  assert (forall p k, reached s p k -> reached s' p k) as Hre.
  { intros p' k [? ? ? ? (j & q' & ? & ? & Hj & Hv & ?)]. constructor; try done. exists j, q'. split_and!; try done; [by apply Hmono|].
    destruct (decide (j = i)) as [-> |Hne]; [specialize (Hold Hj); lia|]. rewrite Hcost; [done|apply par_range in Hj; lia|done]. }
  split; [|by split; [|rewrite Hpi]].
  assert (rooted (par s) c) as Hroot by (apply (i_rooted s I); done).
  destruct I as [I1 I2 I3 I4 I5 I6 I7 I8 I9 I10 I11 I12]. pose proof (Build_inv s I1 I2 I3 I4 I5 I6 I7 I8 I9 I10 I11 I12) as I.
  constructor; try done.
  - destruct I1. by constructor.
  - cbn [index_generated_ nodes_data_ nodes_capacity set_nodes s']. by rewrite length_insert.
  - intros p' k n' Hk Hn'. unfold s' in Hn'. cbn [nodes_data_ set_nodes] in Hn'. pose proof (I4 p' k Hk) as Hkr.
    destruct (decide (k = i)) as [-> |Hne].
    + rewrite list_lookup_insert_eq in Hn' by done. injection Hn' as <-. right. assert (p' = p) as -> by by eapply I5.
      constructor; cbn [improved x y g h f parent_id]; try done.
      * split; [done|]. apply heuristic_num. by destruct Hp.
      * exists c, q. split_and!; try done; [by apply Hmono|]. rewrite Hcost by lia. by rewrite (cost_to_num s c nc Hnc).
    + rewrite list_lookup_insert_ne in Hn' by lia. destruct (I9 p' k n' Hk Hn') as [|]; [by left|right; by apply Hre].
  - split; [apply I10|]. rewrite Hpar by done. apply I10.
  - intros k Hk Hs. destruct (decide (k = i)) as [-> |Hne].
    + apply (rooted_up _ i c); [done|done|].
      apply (chain_away (par s) (par s') (cost_to s) i c); try done. intros a b' Hab. by apply par_lower.
    + rewrite Hpar in Hs by done. apply (chain_update (par s) (par s') (cost_to s) i c); try done; [|by apply I11].
      intros a b' Hab. by apply par_lower.
  - intros k Hk. destruct (I12 k Hk). split; [done|]. by apply Hmono.
Qed.

(** ** The node of a cell *)

Lemma used_range s : inv s -> (used (take (Z.to_nat (size_x m * size_y m)) (node_position_ s)) <= Z.to_nat (size_x m * size_y m))%nat.
Proof. intros I. pose proof (index_bound s I). pose proof (i_count s I). lia. Qed.

Lemma fresh_place s i : inv s -> i = index_generated_ s -> i < size_x m * size_y m ->
  exists l, addToNodesData i s = Ok (set_nodes l s) /\ l !! Z.to_nat i = Some fresh_node /\
    (forall k, (k < Z.to_nat i)%nat -> l !! k = nodes_data_ s !! k) /\ Z.of_nat (length l) <= nodes_capacity s /\ (Z.to_nat i < length l)%nat.
Proof.
  intros I -> Hlt. pose proof (i_len s I) as [Hl Hcap]. pose proof (i_count s I). unfold addToNodesData.
  destruct (Z.leb_spec (Z.of_nat (length (nodes_data_ s))) (index_generated_ s)) as [Hle|Hgt].
  - rewrite (proj2 (Z.ltb_lt _ _)) by lia. eexists. split; [done|].
    assert (Z.to_nat (index_generated_ s) = length (nodes_data_ s)) as -> by lia. rewrite length_app. cbn. split_and!; [|intros k Hk|lia|lia].
    + rewrite lookup_app_r by lia. by rewrite Nat.sub_diag.
    + by rewrite lookup_app_l by lia.
  - unfold set_node. assert (aset (nodes_data_ s) (index_generated_ s) fresh_node = Ok (<[Z.to_nat (index_generated_ s) := fresh_node]> (nodes_data_ s))) as ->
      by (apply aset_ok; split; [lia|done]). rewrite bind_Ok. eexists. split; [done|]. rewrite length_insert.
    split_and!; [apply list_lookup_insert_eq; lia|intros k Hk; apply list_lookup_insert_ne; lia|lia|lia].
Qed.

Lemma node_at_ok s p : inv s -> inside m p -> exists i s' n, node_at (fst p) (snd p) s = Ok (i, s') /\ inv s' /\ at_cell s' p i /\
  nodes_data_ s' !! Z.to_nat i = Some n /\ measure s' = measure s /\ queue_ s' = queue_ s /\ nodes_opened s' = nodes_opened s /\
  (forall k, is_Some (par s k) -> par s' k = par s k /\ nodes_data_ s' !! Z.to_nat k = nodes_data_ s !! Z.to_nat k) /\
  (forall q k, at_cell s q k -> at_cell s' q k).
Proof.
  intros I Hp. destruct (getIndex_ok s p I Hp) as (o & Ho & Hat). unfold node_at. rewrite Ho, bind_Ok. destruct o as [i|].
  - assert (at_cell s p i) as Hpi by done. destruct (node_in s i I (i_range s I p i Hpi)) as (n & _ & Hn). by exists i, s, n.
  - set (i := index_generated_ s). pose proof (theta_index_in p Hp) as Hk. set (k := snd p * size_x m + fst p) in *.
    assert (take (Z.to_nat (size_x m * size_y m)) (node_position_ s) !! Z.to_nat k = Some None) as Htk by (rewrite lookup_take_lt by lia; done).
    assert (i < size_x m * size_y m) as Hlt.
    { unfold i. rewrite (i_count s I). pose proof (used_below _ ltac:(eexists; exact Htk)) as Hu. rewrite length_take in Hu. lia. }
    destruct (fresh_place s i I eq_refl Hlt) as (l & -> & Hl & Hsame & Hcap & Hlen). rewrite bind_Ok.
    pose proof (i_table s I) as Htab. unfold addIndex.
    assert (same (set_nodes l s)) as Hs1 by (destruct (i_same s I); by constructor).
    rewrite (position_ok _ p Hs1 Hp), bind_Ok. fold k. cbn [node_position_ set_nodes].
    assert (aset (node_position_ s) k (Some i) = Ok (<[Z.to_nat k := Some i]> (node_position_ s))) as -> by (apply aset_ok; split; [lia|done]).
    rewrite !bind_Ok. destruct (p_map _ start0). pose proof (i_count s I) as Hcount. rewrite chk_in by (unfold in_s, i; lia). rewrite bind_Ok.
    set (s' := set_index (i + 1) _). exists i, s', fresh_node. split; [done|].
    assert (forall q j, at_cell s' q j <-> at_cell s q j \/ (q = p /\ j = i)) as Hcells.
    { intros q j. unfold at_cell, s'. cbn [node_position_ set_index set_positions]. split.
      - intros [Hq Hj]. destruct (decide (q = p)) as [-> |Hne].
        + right. fold k in Hj. rewrite list_lookup_insert_eq in Hj by lia. split; [done|]. by injection Hj as ->.
        + left. split; [done|]. rewrite list_lookup_insert_ne in Hj; [done|]. intros E. apply Hne. symmetry.
          pose proof (theta_index_in q Hq). apply theta_index_inj; [done..|]. fold k. lia.
      - intros [[Hq Hj]|[-> ->]].
        + split; [done|]. rewrite list_lookup_insert_ne; [done|]. intros E. fold k in Hat.
          assert (Z.to_nat (snd q * size_x m + fst q) = Z.to_nat k) as E' by lia. rewrite E' in Hj. congruence.
        + split; [done|]. fold k. by rewrite list_lookup_insert_eq by lia. }
    assert (forall j, 0 <= j < i -> nodes_data_ s' !! Z.to_nat j = nodes_data_ s !! Z.to_nat j) as Hnodes.
    { intros j Hj. unfold s'. cbn [nodes_data_ set_index set_positions set_nodes]. apply Hsame. lia. }
    assert (nodes_data_ s' !! Z.to_nat i = Some fresh_node) as Hnew by exact Hl.
    assert (forall j, is_Some (par s j) -> par s' j = par s j) as Hpar.
    { intros j Hj. pose proof (par_range s j Hj) as Hr. destruct (node_in s j I Hr) as (n & _ & Hn).
      rewrite (par_node s j n Hr Hn). apply par_node; [cbn; unfold i in *; lia|]. by rewrite Hnodes by (unfold i; lia). }
    assert (forall j, 0 <= j < i -> cost_to s' j = cost_to s j) as Hcost by (intros j Hj; unfold cost_to; by rewrite Hnodes).
    assert (forall q n, reached s q n -> reached s' q n) as Hre.
    { intros q n [? ? ? ? (j & q' & ? & ? & Hj & ? & ?)]. constructor; try done. exists j, q'. rewrite Hpar by done.
      rewrite Hcost by (apply par_range in Hj; unfold i; lia). split_and!; try done. apply Hcells. by left. }
    assert (forall j, is_Some (par s' j) -> is_Some (par s j)) as Hback.
    { intros j Hj. pose proof (par_range s' j Hj) as Hr. cbn [index_generated_ set_index s'] in Hr.
      destruct (decide (j = i)) as [-> |Hne].
      - rewrite (par_node s' i fresh_node ltac:(cbn; lia) Hnew) in Hj. by destruct Hj.
      - destruct (node_in s j I ltac:(unfold i in *; lia)) as (n & _ & Hn).
        rewrite (par_node s' j n Hr) in Hj by (by rewrite Hnodes by lia). by rewrite (par_node s j n ltac:(unfold i in *; lia) Hn). }
    split; [|split; [apply Hcells; by right|split; [done|split; [|split; [done|split; [done|split]]]]]].
    + constructor.
      * destruct Hs1. by constructor.
      * cbn [node_position_ set_index set_positions s']. by rewrite length_insert.
      * intros k' o Hk' Hko. cbn [node_position_ set_index set_positions s'] in Hko. rewrite list_lookup_insert_ne in Hko by lia. by eapply (i_rest s I).
      * intros q j [Hq|[-> ->]]%Hcells; cbn [index_generated_ set_index s']; [pose proof (i_range s I q j Hq)|]; unfold i; lia.
      * intros q q' j [Hq|[-> ->]]%Hcells [Hq'|[-> E]]%Hcells; try done; [by eapply (i_inj s I)| |].
        -- subst j. pose proof (i_range s I q i Hq). unfold i in *. lia.
        -- pose proof (i_range s I q' i Hq'). unfold i in *. lia.
      * intros j Hj. cbn [index_generated_ set_index s'] in Hj. destruct (decide (j = i)) as [-> |Hne]; [exists p; apply Hcells; by right|].
        destruct (i_all s I j ltac:(unfold i in *; lia)) as [q Hq]. exists q. apply Hcells. by left.
      * cbn [index_generated_ node_position_ set_index set_positions s']. rewrite take_insert_lt by lia. rewrite used_insert by done. unfold i. lia.
      * cbn [index_generated_ nodes_data_ nodes_capacity set_index set_positions set_nodes s']. pose proof (i_len s I). lia.
      * intros q j n [Hq|[-> ->]]%Hcells Hn.
        -- rewrite Hnodes in Hn by (apply (i_range s I) in Hq; unfold i; lia). destruct (i_node s I q j n Hq Hn); [by left|right; by apply Hre].
        -- rewrite Hnew in Hn. injection Hn as <-. by left.
      * destruct (i_root s I) as [? Hr]. split; [apply Hcells; by left|]. by rewrite Hpar by (by rewrite Hr).
      * intros j Hj Hs%Hback. pose proof (i_rooted s I j (par_range s j Hs) Hs) as Hroot.
        clear -Hroot Hpar. induction Hroot as [Hz|a b' Ha Hb _ IH]; [apply rooted_root; by rewrite Hpar by (by rewrite Hz)|].
        apply (rooted_up _ a b'); [done|by rewrite Hpar by (by rewrite Hb)|done].
      * intros j Hj. destruct (i_queue s I j Hj) as [? Hs]. cbn [index_generated_ set_index s']. rewrite Hpar by done. unfold i. split; [lia|done].
    + unfold measure. change (queue_ s') with (queue_ s). f_equal. f_equal. apply list_fmap_ext. intros _ j [Hj1 Hj2]%list_elem_of_lookup_2%elem_of_seqZ.
      unfold cost_of_node, costs. cbn [index_generated_ set_index s']. change (index_generated_ s) with i.
      destruct (Z.ltb_spec j (i + 1)), (Z.ltb_spec j i); try lia; [by rewrite Hnodes by lia|]. assert (j = i) as -> by lia. by rewrite Hnew.
    + intros j Hj. split; [by apply Hpar|]. apply par_range in Hj. by rewrite Hnodes by (unfold i; lia).
    + intros q j Hq. apply Hcells. by left.
Qed.

(** ** A round of the search *)

Lemma coordinates p q : inside m p -> inside m q -> Z.abs (fst p - fst q) < 2 ^ 31 /\ Z.abs (snd p - snd q) < 2 ^ 31.
Proof. destruct (p_map _ start0). intros [? ?] [? ?]. nia. Qed.

Lemma sight_defined p q : inside m p -> inside m q -> free p = true ->
  exists o, in_sight s0 p q = Ok o /\ forall c, o = Some c -> num64 c = true.
Proof.
  intros Hp Hq Hfree. pose proof (p_map _ start0) as Hm. pose proof (p_weights _ start0) as Hw. destruct (p_border _ start0) as [Hrow Hcol].
  destruct (decide (fst p = fst q)) as [Ex|Ex], (decide (snd p = snd q)) as [Ey|Ey].
  - exists (Some f64_zero). split; [|by intros ? [= <-]]. unfold in_sight, losCheck. rewrite Ex, Ey, !Z.sub_diag.
    change (Z.abs 0 >=? Z.abs 0) with true. change (Z.to_nat (Z.abs 0)) with O. cbv iota. cbn [los_loop]. by rewrite Z.eqb_refl.
  - destruct (upright s0 Hm Hw p q Hp Hq Ex Ey) as (o & ? & _ & ?); [|by exists o]. intros E0 y Hy.
    assert (inside m (0, y)) as Hy' by (destruct Hp, Hq; split; cbn [fst snd]; lia). destruct Hcol as [Hall|Hnone]; [by apply Hall|].
    destruct p as [px py]. cbn [fst] in E0. subst px. rewrite (Hnone py Hp) in Hfree. done.
  - destruct (level s0 Hm Hw p q Hp Hq Ey) as (o & ? & _ & ?); [|by exists o]. intros E0 y Hy.
    assert (inside m (y, 0)) as Hy' by (destruct Hp, Hq; split; cbn [fst snd]; lia). destruct Hrow as [Hall|Hnone]; [by apply Hall|].
    destruct p as [px py]. cbn [snd] in E0. subst py. rewrite (Hnone px Hp) in Hfree. done.
  - destruct (slanted s0 Hm Hw p q Hp Hq Ex Ey) as (o & ? & _ & ?). by exists o.
Qed.

Lemma euclid_cost s p q : same s -> inside m p -> inside m q -> num64 (getEuclideanCost (fst p) (snd p) (fst q) (snd q) s) = true.
Proof.
  intros [] Hp Hq. unfold getEuclideanCost. rewrite e_euc0. destruct (coordinates p q Hp Hq). by apply (euclid_num s0 _ _ (p_weights _ start0)).
Qed.

(** What a step keeps of the other members, and of the nodes that were reached. *)
Record kept s s' : Prop := {
  k_opened : nodes_opened s' = nodes_opened s;
  k_reached : forall k, is_Some (par s k) -> is_Some (par s' k);
  k_cells : forall p i, at_cell s p i -> at_cell s' p i;
  k_queue : forall i, i ∈ q_elements (queue_ s) -> i ∈ q_elements (queue_ s') }.

Lemma kept_refl s : kept s s.
Proof. by constructor. Qed.

Lemma kept_trans s1 s2 s3 : kept s1 s2 -> kept s2 s3 -> kept s1 s3.
Proof. intros [] []. constructor; [congruence|auto..]. Qed.

Lemma resetParent_ok s i : inv s -> is_Some (par s i) -> exists s', resetParent i s = Ok s' /\ inv s' /\ measure s' <= measure s /\ kept s s'.
Proof.
  intros I Hi. destruct (reached_at s i I Hi) as (p & n & Hp & Hni & Hn & _). pose proof (par_range s i Hi) as Hr.
  destruct (set_flag s i n false I Hi Hn) as [I1 Hpar1]. pose proof (lookup_lt_Some _ _ _ Hn) as Hl.
  unfold resetParent. rewrite Hni, bind_Ok. fold (flagged false n). rewrite (set_node_ok s i _ I Hr), bind_Ok.
  destruct (replace_measure s i n (flagged false n) I Hr Hn ltac:(done)) as [Hm1 _]. cbv zeta in Hm1.
  set (s1 := set_nodes (<[Z.to_nat i := flagged false n]> (nodes_data_ s)) s) in *.
  assert (kept s s1) as K1 by (constructor; [done|intros k; by rewrite Hpar1|done|done]).
  assert (nodes_data_ s1 !! Z.to_nat i = Some (flagged false n)) as Hn1 by by apply list_lookup_insert_eq.
  pose proof (reached_of s1 p i _ I1 Hp Hn1 ltac:(by rewrite Hpar1)) as [[Hx Hy] Hfree [Hg Hh] [Hf Hhe] (j & qj & Hj & Hqj & Hsj & _)].
  rewrite Hj. cbn [pointed]. rewrite bind_Ok.
  destruct (reached_at s1 j I1 Hsj) as (qj' & nj & _ & -> & Hnj & Hrj). rewrite bind_Ok.
  destruct (r_parent _ _ _ Hrj) as (c & q & Hc & Hq & Hsc & _). rewrite Hc. cbn [pointed]. rewrite bind_Ok.
  destruct (reached_at s1 c I1 Hsc) as (q' & nc & Hq' & -> & Hnc & Hrc). assert (q' = q) as -> by by eapply (i_inj s1 I1).
  rewrite bind_Ok. destruct (r_pos _ _ _ Hrc) as [Hcx Hcy]. destruct (r_num _ _ _ Hrc) as [Hgc _].
  rewrite Hx, Hy, Hcx, Hcy. fold (in_sight s1 p q). rewrite (same_sight s1 p q (i_same s1 I1)).
  destruct (sight_defined p q (proj1 Hp) (proj1 Hq) Hfree) as (o & Ho & Hno). rewrite Ho, bind_Ok.
  destruct o as [los|]; [|exists s1; split; [done|]; split; [done|]; split; [lia|done]].
  pose proof (euclid_cost s1 p q (i_same s1 I1) (proj1 Hp) (proj1 Hq)) as He.
  destruct (num_sum _ _ Hgc He) as [N1 V1]. destruct (num_sum _ _ N1 (Hno los eq_refl)) as [N2 V2].
  set (gn := f64_add (f64_add (g nc) _) los) in *.
  rewrite num_lt by done. destruct (Z.ltb_spec (value gn) (value (g (flagged false n)))) as [Hlt|Hge];
    [|exists s1; split; [done|]; split; [done|]; split; [lia|done]].
  assert (i <> 0) as Hi0.
  { intros ->. destruct (i_root s1 I1) as [_ H0']. rewrite (par_node s1 0 _ (i_range s1 I1 _ _ Hp) Hn1), Hj in H0'. injection H0' as ->.
    assert (nj = flagged false n) as -> by congruence. rewrite Hj in Hc. injection Hc as <-.
    assert (nc = flagged false n) as -> by congruence. lia. }
  destruct (theta_improve s1 p i (flagged false n) c q nc false gn I1 Hp Hn1 Hi0 Hq Hsc Hnc N2 ltac:(lia) ltac:(right; by exists los) Hfree
    ltac:(by right)) as (I2 & Hmono & _). cbv zeta in I2, Hmono.
  rewrite (set_node_ok s1 i _ I1) by done. eexists. split; [done|].
  assert (mk_node (fst p) (snd p) gn (h (flagged false n)) (Some c) false (f64_add gn (h (flagged false n))) = improved p gn c false) as ->
    by (unfold improved; by rewrite Hhe).
  split; [done|]. split.
  - destruct (replace_measure s1 i (flagged false n) (improved p gn c false) I1 Hr Hn1) as [Hm2 _]; [|cbv zeta in Hm2; lia].
    rewrite Hf. cbn [improved f]. rewrite <- Hhe. apply num_sum_mono; [done..|lia].
  - eapply kept_trans; [exact K1|]. by constructor.
Qed.

Lemma reached_push s i p n : reached s p n -> reached (push i s) p n.
Proof. intros [? ? ? ? ?]. by constructor. Qed.

Lemma neighbor_ok s i mv : inv s -> is_Some (par s i) -> Z.abs (fst mv) <= 1 -> Z.abs (snd mv) <= 1 ->
  exists s', setNeighbor i mv s = Ok s' /\ inv s' /\ measure s' <= measure s /\ kept s s'.
Proof.
  intros I Hi Hm1 Hm2. destruct (reached_at s i I Hi) as (p & n & Hp & Hni & Hn & Hre). destruct (r_pos _ _ _ Hre) as [Hx Hy].
  pose proof (i_same s I) as Hs. unfold setNeighbor. rewrite Hni, bind_Ok, Hx, Hy.
  set (q := (fst p + fst mv, snd p + snd mv)). change (fst p + fst mv) with (fst q). change (snd p + snd mv) with (snd q).
  assert (withinLimits (fst q) (snd q) s = true <-> inside m q) as Hlim.
  { unfold withinLimits, inside. destruct (e_size s Hs) as [-> ->]. rewrite !andb_true_iff, !Z.geb_le, !Z.ltb_lt. lia. }
  assert (exists s', Ok s = Ok s' /\ inv s' /\ measure s' <= measure s /\ kept s s') as Hskip
    by (exists s; split; [done|]; split; [done|]; split; [lia|apply kept_refl]).
  destruct (withinLimits (fst q) (snd q) s); cbn [negb]; [|done]. assert (inside m q) as Hq by by apply Hlim.
  pose proof (p_map _ start0) as Hmap. assert (map_ok (costmap_ s)) as Hmap' by by rewrite (e_map s Hs).
  rewrite (isSafe_ok s q) by (by rewrite ?(e_map s Hs)). rewrite bind_Ok, (same_free s q Hs).
  destruct (free q) eqn:Hfree; cbn [negb]; [|done].
  assert (weights_ok s) as Hw'. { destruct (p_weights _ start0). constructor; by rewrite ?(e_traversal s Hs), ?(e_euc s Hs), ?(e_heuristic s Hs). }
  destruct (step_num s q Hmap' Hw') as (step & -> & Hstep); [by rewrite (e_map s Hs)|]. rewrite bind_Ok.
  destruct (r_num _ _ _ Hre) as [Hg _]. pose proof (euclid_cost s p q Hs (proj1 Hp) Hq) as He.
  destruct (num_sum _ _ Hg He) as [N1 V1]. destruct (num_sum _ _ N1 Hstep) as [N2 V2].
  set (gn := f64_add (f64_add (g n) _) step) in *.
  destruct (node_at_ok s q I Hq) as (k & s1 & nk & -> & I1 & Hqk & Hnk & Hme & Hqu & Hop & Hkeep & Hcells). rewrite bind_Ok.
  assert (kept s s1) as K1. { constructor; [done| |done|by rewrite Hqu]. intros j Hj. by rewrite (proj1 (Hkeep j Hj)). }
  pose proof (i_range s1 I1 q k Hqk) as Hkr. destruct (node_in s1 k I1 Hkr) as (nk' & -> & Hnk'). assert (nk' = nk) as -> by congruence.
  rewrite bind_Ok, (same_h s1 _ _ (i_same s1 I1)). pose proof (heuristic_num q Hq) as Hhq. destruct (num_sum _ _ N2 Hhq) as [N3 V3].
  assert (num64 (f nk) = true) as Nf.
  { destruct (i_node s1 I1 q k nk Hqk Hnk) as [(_ & -> & _)|Hr]; [done|]. destruct (r_f _ _ _ Hr) as [-> _], (r_num _ _ _ Hr). by apply num_sum. }
  rewrite num_lt by done. destruct (Z.ltb_spec (value (f64_add gn (getHCost (fst q) (snd q) s0))) (value (f nk))) as [Hlt|Hge];
    [|exists s1; split; [done|]; split; [done|]; split; [lia|done]].
  destruct (Hkeep i Hi) as [Hpi Hni']. rewrite Hn in Hni'.
  assert (is_Some (par s1 i)) as Hi1 by by rewrite Hpi.
  assert (untouched nk \/ value gn < value (g nk)) as Hbetter.
  { destruct (i_node s1 I1 q k nk Hqk Hnk) as [|Hr]; [by left|right]. destruct (r_f _ _ _ Hr) as [Ef Eh], (r_num _ _ _ Hr) as [Ng Nh].
    apply Z.lt_nge. intros Hle. rewrite Ef, Eh in Hlt. pose proof (num_sum_mono (g nk) gn (getHCost (fst q) (snd q) s0) Ng N2 Hhq Hle). lia. }
  assert (k <> 0) as Hk0.
  { intros ->. destruct (i_root s1 I1) as [_ H0']. destruct Hbetter as [(Hu & _)|Hlt'].
    - rewrite (par_node s1 0 nk Hkr Hnk), Hu in H0'. done.
    - pose proof (i_rooted s1 I1 i (par_range s1 i Hi1) Hi1) as Hroot. rewrite <- (cost_to_num s1 0 nk Hnk) in Hlt'.
      assert (cost_to s1 0 <= cost_to s1 i) as Hz; [|rewrite (cost_to_num s1 i n Hni') in Hz; lia].
      clear -I1 Hroot start0. induction Hroot as [|a b _ Hb _ IH]; [lia|]. pose proof (par_lower s1 a b I1 Hb). lia. }
  assert (link p q) as Hlink by (left; unfold king, q; cbn [fst snd]; lia).
  destruct (theta_improve s1 q k nk i p n true gn I1 Hqk Hnk Hk0 (Hcells p i Hp) Hi1 Hni' N2 ltac:(lia) Hlink Hfree Hbetter) as (I2 & Hmono & Hsk).
  cbv zeta in I2, Hmono, Hsk.
  assert (mk_node (fst q) (snd q) gn (getHCost (fst q) (snd q) s0) (Some i) true (f64_add gn (getHCost (fst q) (snd q) s0)) = improved q gn i true) as Enew
    by done.
  destruct (replace_measure s1 k nk (improved q gn i true) I1 Hkr Hnk ltac:(cbn [improved f]; lia)) as [_ Hm3]. cbv zeta in Hm3.
  specialize (Hm3 Hlt). set (s2 := set_nodes (<[Z.to_nat k := improved q gn i true]> (nodes_data_ s1)) s1) in *.
  destruct (is_in_queue nk) eqn:Eq.
  - assert (x nk = fst q /\ y nk = snd q) as [-> ->].
    { destruct (i_node s1 I1 q k nk Hqk Hnk) as [(_ & _ & Hfalse)|Hr]; [congruence|apply Hr]. }
    rewrite Enew, (set_node_ok s1 k _ I1 Hkr). exists s2. split; [done|]. split; [done|]. split; [lia|].
    eapply kept_trans; [exact K1|]. by constructor.
  - rewrite Enew, (set_node_ok s1 k _ I1 Hkr), bind_Ok. fold s2. exists (push k s2). split; [done|].
    pose proof (elements_push (costs s2) k (queue_ s2)) as Hperm.
    assert (forall j, j ∈ q_elements (q_push (costs s2) k (queue_ s2)) <-> j = k \/ j ∈ q_elements (queue_ s2)) as Hin
      by (intros j; rewrite Hperm; apply elem_of_cons).
    split; [|split].
    + destruct I2 as [I2a I2b I2c I2d I2e I2f I2g I2h I2i I2j I2k I2l]. constructor; try done.
      * destruct I2a. by constructor.
      * intros p' j n' Hj Hn'. destruct (I2i p' j n' Hj Hn') as [|Hr]; [by left|right]. by apply reached_push.
      * intros j [-> |Hj]%Hin; [done|]. by apply I2l.
    + assert (measure (push k s2) = measure s2 + 1) as ->; [|lia]. unfold measure. cbn [queue_ push set_queue].
      rewrite Hperm. cbn [length]. change (cost_of_node (push k s2)) with (cost_of_node s2). lia.
    + eapply kept_trans; [exact K1|]. constructor; [done|exact Hmono|done|]. intros j Hj. apply Hin. by right.
Qed.

Lemma neighbors_ok s i : inv s -> is_Some (par s i) -> exists s', setNeighbors i s = Ok s' /\ inv s' /\ measure s' <= measure s /\ kept s s'.
Proof.
  intros I Hi. unfold setNeighbors. rewrite (e_corners s (i_same s I)). pose proof (p_corners _ start0) as Hc.
  destruct (for_each_inv (fun _ s' => inv s' /\ measure s' <= measure s /\ kept s s')
    (fun k s => move ← aget moves k; setNeighbor i move s) (Z.to_nat (how_many_corners_ s0)) 0 s) as (s' & -> & ? & ? & ?).
  - split; [done|]. split; [lia|apply kept_refl].
  - intros k s1 Hk (I1 & Hm1 & K1). destruct (aget_in moves k) as [mv Hmv]; [unfold moves; cbn; lia|]. rewrite Hmv, bind_Ok.
    assert (Z.abs (fst mv) <= 1 /\ Z.abs (snd mv) <= 1) as [? ?].
    { apply aget_ok in Hmv as [_ Hmv]. assert (Forall (fun mv => Z.abs (fst mv) <= 1 /\ Z.abs (snd mv) <= 1) moves) as Hall
        by (unfold moves; repeat constructor; cbn; lia). rewrite list.Forall_forall in Hall. by eapply Hall, list_elem_of_lookup_2. }
    destruct (neighbor_ok s1 i mv I1) as (s2 & -> & I2 & Hm2 & K2); [by apply K1|done|done|].
    exists s2. split; [done|]. split; [done|]. split; [lia|]. by eapply kept_trans.
  - by exists s'.
Qed.

(** States with the same nodes. *)
Lemma inv_frame s s' : inv s -> same s' -> node_position_ s' = node_position_ s -> nodes_data_ s' = nodes_data_ s ->
  index_generated_ s' = index_generated_ s -> nodes_capacity s' = nodes_capacity s ->
  (forall i, i ∈ q_elements (queue_ s') -> i ∈ q_elements (queue_ s)) ->
  inv s' /\ (forall i, par s' i = par s i) /\ (forall i, cost_of_node s' i = cost_of_node s i) /\
  (forall p i, at_cell s' p i <-> at_cell s p i).
Proof.
  intros [I1 I2 I3 I4 I5 I6 I7 I8 I9 I10 I11 I12] Hs Hpos Hnodes Hidx Hcap Hq.
  assert (forall i, par s' i = par s i) as Hpar by (intros i; unfold par; by rewrite Hnodes, Hidx).
  assert (forall i, cost_to s' i = cost_to s i) as Hcost by (intros i; unfold cost_to; by rewrite Hnodes).
  assert (forall p i, at_cell s' p i <-> at_cell s p i) as Hat by (intros p i; unfold at_cell; by rewrite Hpos).
  assert (forall p n, reached s p n -> reached s' p n) as Hre.
  { intros p n [? ? ? ? (j & q & ? & ? & ? & ? & ?)]. constructor; try done. exists j, q. rewrite Hpar, Hcost. by rewrite Hat. }
  split; [|split; [done|split; [intros i; unfold cost_of_node, costs; by rewrite Hnodes, Hidx|done]]].
  constructor; try done; rewrite ?Hpos, ?Hidx, ?Hnodes, ?Hcap; try done.
  - intros p i. rewrite Hat. apply I4.
  - intros p q i. rewrite !Hat. apply I5.
  - intros i Hi. destruct (I6 i Hi) as [p Hp]. exists p. by rewrite Hat.
  - intros p i n. rewrite Hat. intros Hp Hn. destruct (I9 p i n Hp Hn); [by left|right; by apply Hre].
  - by rewrite Hat, Hpar.
  - intros i Hi. rewrite Hpar. intros Hsome. specialize (I11 i Hi Hsome).
    clear -I11 Hpar. induction I11 as [Hz|a b Ha Hb _ IH]; [apply rooted_root; by rewrite Hpar|]. apply (rooted_up _ a b); [done|by rewrite Hpar|done].
  - intros i Hi. rewrite Hpar. by apply I12, Hq.
Qed.

Lemma open_node_ok cancel_checker s i : inv s -> is_Some (par s i) -> 0 <= nodes_opened s -> q_elements (queue_ s) <> [] ->
  match open_node cancel_checker i s with
  | (UB, s') => 2 ^ 31 - 1 <= nodes_opened s'
  | (Throw e, s') => e = planner_cancelled /\ cancel_checker (nodes_opened s') = true /\ inv s' /\ q_elements (queue_ s') = []
  | (Ok None, s') => inv s' /\ is_Some (par s' i) /\ at_cell s' (dst_ s0) i
  | (Ok (Some j), s') => inv s' /\ is_Some (par s' j) /\ 0 <= nodes_opened s' /\ measure s' < measure s
  end.
Proof.
  intros I Hi Hop Hne. unfold open_node. expose. unfold amend at 1. unfold chk. destruct (decide (in_s 32 (nodes_opened s + 1))) as [Hin|Hin].
  2:{ cbn. unfold in_s in Hin. lia. }
  unfold res_bind at 1. cbv beta iota. unfold get at 1. cbv beta iota.
  set (s1 := set_opened (nodes_opened s + 1) s).
  destruct (inv_frame s s1 I) as (I1 & Hpar & Hcn & Hat); try done. { destruct (i_same s I). by constructor. }
  assert (measure s1 = measure s) as Hm1 by (unfold measure; f_equal; f_equal; by apply list_fmap_ext).
  unfold query at 1, require. rewrite (e_interval s1 (i_same s1 I1)), (proj2 (Z.eqb_neq _ _) (p_interval _ start0)). cbn [negb]. cbv beta iota.
  destruct (_ && _) eqn:Hc.
  { unfold modify, throw. cbn. split; [done|]. apply andb_true_iff in Hc as [_ Hc]. split; [done|].
    rewrite elements_empty. split; [|done]. apply (inv_frame s1 (clearQueue s1)); try done; [by destruct (i_same s1 I1)|].
    intros k Hk. cbn in Hk. rewrite elements_empty in Hk. by apply elem_of_nil in Hk. }
  assert (is_Some (par s1 i)) as Hi1 by by rewrite Hpar.
  destruct (reached_at s1 i I1 Hi1) as (p & n & Hp & Hn & _ & Hr). unfold query at 1. rewrite Hn. cbv beta iota.
  destruct (isGoal n s1) eqn:Hgoal.
  { unfold isGoal in Hgoal. apply andb_true_iff in Hgoal as [Hgx%Z.eqb_eq Hgy%Z.eqb_eq]. cbn. split; [done|]. split; [done|].
    destruct (r_pos _ _ _ Hr) as [Ex Ey]. rewrite (e_dst s1 (i_same s1 I1)) in Hgx, Hgy. assert (dst_ s0 = p) as -> by (destruct p, (dst_ s0); cbn in *; congruence). done. }
  destruct (resetParent_ok s1 i I1 Hi1) as (s2 & E2 & I2 & Hm2 & K2). unfold amend at 1. rewrite E2. cbv beta iota.
  assert (is_Some (par s2 i)) as Hi2 by by apply K2.
  destruct (neighbors_ok s2 i I2 Hi2) as (s3 & E3 & I3 & Hm3 & K3). unfold amend at 1. rewrite E3. cbv beta iota.
  unfold query, pop. destruct (q_top (queue_ s3)) as [j|] eqn:Htop.
  2:{ exfalso. apply top_none in Htop. apply Hne. destruct (q_elements (queue_ s)) as [|k l] eqn:El; [done|].
      assert (k ∈ q_elements (queue_ s3)) as Hk by (apply K3, K2; cbn; rewrite El; left). rewrite Htop in Hk. by apply elem_of_nil in Hk. }
  cbn. rewrite Htop. cbn. pose proof (top_some (costs s3) j (queue_ s3) Htop) as Hperm.
  set (s4 := set_queue (q_pop (costs s3) (queue_ s3)) s3).
  destruct (inv_frame s3 s4 I3) as (I4 & Hpar4 & Hcn4 & _); try done. { destruct (i_same s3 I3). by constructor. }
  { intros k Hk. rewrite Hperm. by right. }
  split; [done|]. split; [rewrite Hpar4; apply (i_queue s3 I3); rewrite Hperm; left|]. split.
  - change (nodes_opened s4) with (nodes_opened s3). rewrite (k_opened _ _ K3), (k_opened _ _ K2). cbn. lia.
  - assert (measure s3 = measure s4 + 1) as Hm4; [|lia]. unfold measure. rewrite Hperm. cbn [length].
    assert (cost_of_node s4 <$> nodes_of_map = cost_of_node s3 <$> nodes_of_map) as -> by (apply list_fmap_ext; intros; apply Hcn4).
    change (queue_ s4) with (q_pop (costs s3) (queue_ s3)). lia.
Qed.

Lemma measure_nonneg s : inv s -> 0 <= measure s.
Proof.
  intros I. unfold measure. assert (0 <= total (cost_of_node s <$> nodes_of_map)); [|lia]. apply total_nonneg. intros i [Hi _]%elem_of_seqZ.
  unfold cost_of_node. destruct (Z.ltb_spec i (index_generated_ s)); [|apply (value_range INF_COST); reflexivity].
  destruct (node_in s i I ltac:(lia)) as (n & _ & Hn). destruct (i_all s I i ltac:(lia)) as [p Hp]. unfold costs. rewrite Hn. cbn.
  apply value_range. destruct (i_node s I p i n Hp Hn) as [(_ & -> & _)|Hr]; [done|]. destruct (r_f _ _ _ Hr) as [-> _], (r_num _ _ _ Hr). by apply num_sum.
Qed.

Lemma theta_search_ok cancel_checker fuel : forall s i, inv s -> is_Some (par s i) -> 0 <= nodes_opened s -> measure s < Z.of_nat fuel ->
  match search fuel cancel_checker i s with
  | (UB, s') => 2 ^ 31 - 1 <= nodes_opened s'
  | (Throw e, s') => e = planner_cancelled /\ cancel_checker (nodes_opened s') = true /\ inv s' /\ q_elements (queue_ s') = []
  | (Ok j, s') => inv s' /\ is_Some (par s' j) /\ (q_elements (queue_ s') = [] \/ at_cell s' (dst_ s0) j)
  end.
Proof.
  induction fuel as [|fuel IH]; intros s i I Hi Hop Hm; [pose proof (measure_nonneg s I); lia|].
  cbn [search]. expose. unfold get at 1. cbv beta iota. unfold queue_is_empty at 1.
  destruct (bool_decide_reflect (q_elements (queue_ s) = [])) as [He|He]; [cbn; auto|].
  pose proof (open_node_ok cancel_checker s i I Hi Hop He) as Ho. destruct (open_node cancel_checker i s) as [[[j|]|e|] s']; try done.
  - destruct Ho as (I' & Hj & Hop' & Hlt). apply IH; [done..|lia].
  - destruct Ho as (I' & Hj & Hd). cbn. auto.
Qed.

(** More fuel changes nothing. *)
Lemma search_stable cancel_checker fuel : forall s i, inv s -> is_Some (par s i) -> 0 <= nodes_opened s -> measure s < Z.of_nat fuel ->
  search (S fuel) cancel_checker i s = search fuel cancel_checker i s.
Proof.
  induction fuel as [|fuel IH]; intros s i I Hi Hop Hm; [pose proof (measure_nonneg s I); lia|].
  assert (forall n, search (S n) cancel_checker i s = if queue_is_empty s then (Ok i, s) else
    match open_node cancel_checker i s with
    | (Ok (Some j), s') => search n cancel_checker j s'
    | (Ok None, s') => (Ok i, s')
    | (Throw e, s') => (Throw e, s')
    | (UB, s') => (UB, s')
    end) as Hstep.
  { intros n. cbn [search]. expose. unfold get. destruct (queue_is_empty s); [done|]. by destruct (open_node cancel_checker i s) as [[[j|]|e|] s']. }
  rewrite (Hstep (S fuel)), (Hstep fuel). unfold queue_is_empty.
  destruct (bool_decide_reflect (q_elements (queue_ s) = [])) as [He|He]; [done|].
  pose proof (open_node_ok cancel_checker s i I Hi Hop He) as Ho. destruct (open_node cancel_checker i s) as [[[j|]|e|] s']; try done.
  destruct Ho as (I' & Hj & Hop' & Hlt). apply IH; [done..|lia].
Qed.
End Search.
End ThetaStarSearch.
