(* ===== verification/ThetaStarPath.v ===== *)
(** * Theta star: paths

    From the containers of a planner to its paths ([theta_path]), with an instance of the queue and
    with what the planner does wrong. *)

From stdpp Require Import base option list numbers sorting.
From Stdlib Require Import ZArith Lia SpecFloat.
From S2P Require Import Prelude Float64 FloatOrder FloatBounds Costmap Parameters NavfnPlanner ThetaStar ThetaStarLaws ThetaStarSearch ThetaStarPlanner.

Module ThetaStarPath.
Import Costmap ThetaStar ThetaStarLaws ThetaStarSearch.

(** ** Containers *)

Section Containers.
Context {Q : Type} `{HypotenuseLaws} `{OpenListLaws Q}.
Implicit Types s : theta Q.

(** The table has the size of the last map and nothing behind it, and the nodes lie within their
    capacity. The map is the last one, or larger than the table. *)
Record containers s : Prop := {
  c_sizes : 0 <= size_x_ s /\ 0 <= size_y_ s /\ size_x_ s * size_y_ s <= Z.of_nat (length (node_position_ s)) < 2 ^ 31;
  c_rest : forall k o, size_x_ s * size_y_ s <= k -> node_position_ s !! Z.to_nat k = Some o -> o = None;
  c_capacity : Z.of_nat (length (nodes_data_ s)) <= nodes_capacity s;
  c_map : (size_x_ s = size_x (costmap_ s) /\ size_y_ s = size_y (costmap_ s) /\
           size_x (costmap_ s) * size_y (costmap_ s) <= nodes_capacity s) \/
          Z.of_nat (length (node_position_ s)) < size_x (costmap_ s) * size_y (costmap_ s) }.

Lemma clear_prefix (l : list (option Z)) n : (n <= length l)%nat ->
  exists l', for_each n 0 (fun i l => aset l i None) l = Ok l' /\ length l' = length l /\
    forall k o, l' !! k = Some o -> if decide (k < n)%nat then o = None else l !! k = Some o.
Proof.
  intros Hn.
  destruct (for_each_inv (fun i l' => length l' = length l /\ forall k o, l' !! k = Some o -> if decide (Z.of_nat k < i) then o = None else l !! k = Some o)
    (fun i l => aset l i None) n 0 l) as (l' & -> & Hl & Hk).
  - split; [done|]. intros k o Ho. rewrite decide_False by lia. done.
  - intros i l' Hi [Hl Hk]. exists (<[Z.to_nat i := None]> l'). split; [apply aset_ok; split; [lia|done]|]. rewrite length_insert.
    split; [done|]. intros k o Ho. destruct (decide (k = Z.to_nat i)) as [-> |Hne].
    + rewrite list_lookup_insert_eq in Ho by lia. injection Ho as <-. by rewrite decide_True by lia.
    + rewrite list_lookup_insert_ne in Ho by done. specialize (Hk k o Ho).
      destruct (decide (Z.of_nat k < i)), (decide (Z.of_nat k < i + 1)); try lia; done.
  - exists l'. split; [done|]. split; [done|]. intros k o Ho. specialize (Hk k o Ho). destruct (decide (k < n)%nat), (decide (Z.of_nat k < 0 + Z.of_nat n)); try lia; done.
Qed.

(** What remains of a planner when its containers were reset. *)
Record cleared s s' : Prop := {
  l_same : src_ s' = src_ s /\ dst_ s' = dst_ s /\ costmap_ s' = costmap_ s /\ w_traversal_cost_ s' = w_traversal_cost_ s /\
    w_euc_cost_ s' = w_euc_cost_ s /\ w_heuristic_cost_ s' = w_heuristic_cost_ s /\ how_many_corners_ s' = how_many_corners_ s /\
    allow_unknown_ s' = allow_unknown_ s /\ terminal_checking_interval_ s' = terminal_checking_interval_ s /\ queue_ s' = queue_ s;
  l_size : size_x_ s' = size_x (costmap_ s) /\ size_y_ s' = size_y (costmap_ s);
  l_index : index_generated_ s' = 0;
  l_table : size_x (costmap_ s) * size_y (costmap_ s) <= Z.of_nat (length (node_position_ s')) < 2 ^ 31;
  l_none : forall k o, node_position_ s' !! k = Some o -> o = None;
  l_nodes : nodes_data_ s' = nodes_data_ s;
  l_capacity : Z.of_nat (length (nodes_data_ s)) <= nodes_capacity s' /\ size_x (costmap_ s) * size_y (costmap_ s) <= nodes_capacity s' }.

Lemma initialize_ok s inc : 0 <= size_x_ s -> 0 <= size_y_ s -> size_x_ s * size_y_ s <= Z.of_nat (length (node_position_ s)) < 2 ^ 31 ->
  (forall k o, size_x_ s * size_y_ s <= k -> node_position_ s !! Z.to_nat k = Some o -> o = None) ->
  exists l, initializePosn inc s = Ok (set_positions l s) /\ Z.of_nat (length l) = Z.of_nat (length (node_position_ s)) + Z.max 0 inc /\
    forall k o, l !! k = Some o -> o = None.
Proof.
  intros Hx Hy Hl Hrest. unfold initializePosn.
  assert (exists l, (if bool_decide (node_position_ s = []) then Ok [] else
    n ← chk 32 (size_x_ s * size_y_ s); for_each (Z.to_nat n) 0 (fun i l => aset l i None) (node_position_ s)) = Ok l /\
    length l = length (node_position_ s) /\ forall k o, l !! k = Some o -> o = None) as (l & -> & Hlen & Hnone).
  { destruct (bool_decide_reflect (node_position_ s = [])) as [->|_]; [by exists []|].
    rewrite chk_in by (unfold in_s; nia). rewrite bind_Ok.
    destruct (clear_prefix (node_position_ s) (Z.to_nat (size_x_ s * size_y_ s)) ltac:(lia)) as (l & -> & Hlen & Hk).
    exists l. split; [done|]. split; [done|]. intros k o Ho. specialize (Hk k o Ho). destruct (decide _); [done|].
    apply (Hrest (Z.of_nat k)); [lia|by rewrite Nat2Z.id]. }
  rewrite bind_Ok. eexists. split; [done|]. split; [rewrite length_app, length_replicate; lia|].
  intros k o [Ho|[_ Ho]]%lookup_app_Some; [by eapply Hnone|]. by apply lookup_replicate in Ho as [? _].
Qed.

Lemma reset_ok s : map_ok (costmap_ s) -> containers s -> exists s', resetContainers s = Ok s' /\ cleared s s'.
Proof.
  intros [Hx Hy Hsize _ _] [(Hsx & Hsy & Hsl) Hrest Hcap Hmap].
  assert (size_x (costmap_ s) < 2 ^ 30 /\ size_y (costmap_ s) < 2 ^ 30) as [Hwx Hwy] by nia.
  unfold resetContainers. cbn [costmap_ size_x_ size_y_ node_position_ nodes_capacity set_index].
  rewrite (wraps_id 32 (size_x (costmap_ s))), (wraps_id 32 (size_y (costmap_ s))) by (lia || (unfold in_s; lia)).
  set (s1 := set_index 0 s). set (differs := negb (size_x_ s =? size_x (costmap_ s)) || negb (size_y_ s =? size_y (costmap_ s))).
  assert ((if differs then chk 32 (size_x (costmap_ s) * size_y (costmap_ s)) else Ok (size_x (costmap_ s) * size_y (costmap_ s))) =
    Ok (size_x (costmap_ s) * size_y (costmap_ s))) as -> by (destruct differs; [rewrite chk_in by (unfold in_s; nia)|]; done).
  rewrite bind_Ok. rewrite wraps_id by (lia || (unfold in_s; lia)).
  destruct Hmap as [(Ex & Ey & Hroom)|Hlarger].
  - assert (differs = false) as -> by (unfold differs; rewrite Ex, Ey, !Z.eqb_refl; done). cbn [andb].
    destruct (initialize_ok s1 0 Hsx Hsy Hsl Hrest) as (l & -> & Hl & Hnone). rewrite bind_Ok.
    eexists. split; [done|]. rewrite Ex, Ey in Hsl. constructor; cbn in *; try done; lia.
  - assert (differs = true) as ->.
    { unfold differs. destruct (Z.eqb_spec (size_x_ s) (size_x (costmap_ s))) as [Ex|]; [|done].
      destruct (Z.eqb_spec (size_y_ s) (size_y (costmap_ s))) as [Ey|]; [|done]. rewrite Ex, Ey in Hsl. lia. }
    rewrite (proj2 (Z.ltb_lt _ _)) by lia. cbn [andb]. rewrite chk_in by (unfold in_s; nia). rewrite bind_Ok, chk_in by (unfold in_s; nia). rewrite bind_Ok.
    destruct (initialize_ok s1 (size_x (costmap_ s) * size_y (costmap_ s) - size_y_ s * size_x_ s) Hsx Hsy Hsl Hrest) as (l & -> & Hl & Hnone).
    rewrite !bind_Ok. eexists. split; [done|]. constructor; cbn in *; try done; lia.
Qed.

Lemma used_none (l : list (option Z)) : (forall k o, l !! k = Some o -> o = None) -> used l = 0%nat.
Proof.
  unfold used. induction l as [|o l IH]; intros Hn; [done|]. rewrite (Hn 0%nat o eq_refl). rewrite filter_cons_False by (by intros [? ?]).
  apply IH. intros k o' Ho. by apply (Hn (S k)).
Qed.

(** The search starts with the invariant. *)
Lemma start_ok s : plannable s -> containers s -> q_elements (queue_ s) = [] ->
  exists s', start_search s = Ok s' /\ inv s s' /\ is_Some (par s' 0) /\ nodes_opened s' = 0.
Proof.
  intros Hplan Hcont Hq. pose proof (p_map _ Hplan) as Hmap. destruct (p_src _ Hplan) as [Hsrc Hfree].
  unfold start_search. destruct (reset_ok s Hmap Hcont) as (s1 & -> & [(E1 & E2 & E3 & E4 & E5 & E6 & E7 & E8 & E9 & E10) [Ex Ey] Ei Htab Hnone En [Hcap Hroom]]).
  rewrite bind_Ok, Ei, E1. destruct (src_ s) as [sx sy] eqn:Esrc. pose proof (cell_index _ _ Hmap Hsrc) as Hk.
  set (k := snd (sx, sy) * size_x (costmap_ s) + fst (sx, sy)) in *.
  assert (exists l, addToNodesData 0 s1 = Ok (set_nodes l s1) /\ (0 < length l)%nat /\ Z.of_nat (length l) <= nodes_capacity s1) as (l & -> & Hl0 & Hlc).
  { unfold addToNodesData, set_node. rewrite En. destruct (Z.leb_spec (Z.of_nat (length (nodes_data_ s))) 0) as [Hle|Hgt].
    - rewrite (proj2 (Z.ltb_lt _ _)) by lia. eexists. split; [done|]. rewrite length_app. cbn. lia.
    - assert (aset (nodes_data_ s) 0 fresh_node = Ok (<[Z.to_nat 0 := fresh_node]> (nodes_data_ s))) as -> by (apply aset_ok; split; [lia|done]).
      eexists. split; [done|]. rewrite length_insert. lia. }
  rewrite bind_Ok. set (s2 := set_nodes l s1).
  assert (weights_ok s2) as Hw. { destruct (p_weights _ Hplan). unfold s2. constructor; cbn; by rewrite ?E4, ?E5, ?E6. }
  destruct (step_num s2 (sx, sy)) as (g0 & Hg & Ng); [cbn; by rewrite E3|done|cbn; by rewrite E3|]. cbn [fst snd] in Hg.
  rewrite Hg, bind_Ok. assert (getHCost sx sy s2 = getHCost sx sy s) as -> by (unfold getHCost, s2; cbn; by rewrite E2, E6).
  pose proof (heuristic_num s Hplan (sx, sy) Hsrc) as Nh. cbn [fst snd] in Nh. set (h0 := getHCost sx sy s) in *.
  set (n0 := mk_node sx sy g0 h0 (Some 0) true (f64_add g0 h0)).
  unfold set_node at 1. cbn [nodes_data_ set_nodes s2].
  assert (aset l 0 n0 = Ok (<[Z.to_nat 0 := n0]> l)) as -> by (apply aset_ok; split; [lia|done]). rewrite !bind_Ok.
  set (s3 := set_nodes _ s2). unfold addIndex, position. cbn [size_x_ push set_queue s3 set_nodes s2]. rewrite Ex.
  destruct Hmap as [Mx My Ms Mc Mv], Hsrc as [Hsx Hsy]. cbn [fst snd] in Hsx, Hsy.
  rewrite chk_in by (unfold in_s; nia). rewrite bind_Ok, chk_in by (unfold in_s; nia). rewrite bind_Ok.
  cbn [node_position_ push set_queue s3 set_nodes s2].
  assert (size_x (costmap_ s) * sy + sx = k) as -> by (unfold k; cbn; lia).
  assert (aset (node_position_ s1) k (Some 0) = Ok (<[Z.to_nat k := Some 0]> (node_position_ s1))) as -> by (apply aset_ok; split; [lia|done]).
  rewrite !bind_Ok. set (s' := set_opened 0 _). exists s'. split; [done|].
  assert (node_position_ s' = <[Z.to_nat k := Some 0]> (node_position_ s1)) as Epos by done.
  assert (nodes_data_ s' = <[Z.to_nat 0 := n0]> l) as Enodes by done.
  assert (index_generated_ s' = 1) as Eidx by done.
  assert (inside (costmap_ s) (sx, sy)) as Hsrc by done.
  assert (forall p i, at_cell s s' p i <-> p = (sx, sy) /\ i = 0) as Hat.
  { intros p i. unfold at_cell. rewrite Epos. split.
    - intros [Hp Hi]. destruct (decide (p = (sx, sy))) as [-> |Hne].
      + fold k in Hi. rewrite list_lookup_insert_eq in Hi by lia. injection Hi as <-. done.
      + rewrite list_lookup_insert_ne in Hi; [by apply Hnone in Hi|]. intros E. apply Hne.
        pose proof (theta_index_in s Hplan p Hp). apply (theta_index_inj s p (sx, sy) Hp Hsrc). fold k. lia.
    - intros [-> ->]. split; [done|]. fold k. by rewrite list_lookup_insert_eq by lia. }
  assert (nodes_data_ s' !! 0%nat = Some n0) as Hn0 by (rewrite Enodes; by apply list_lookup_insert_eq).
  assert (par s' 0 = Some 0) as Hpar0 by (unfold par; rewrite Eidx; change (Z.to_nat 0) with 0%nat; by rewrite Hn0).
  assert (cost_to s' 0 = value g0) as Hcost0 by (unfold cost_to; change (Z.to_nat 0) with 0%nat; by rewrite Hn0).
  assert (forall i, is_Some (par s' i) -> i = 0) as Honly.
  { intros i Hi. apply par_range in Hi. lia. }
  split; [|split; [by rewrite Hpar0|done]]. constructor.
  - constructor; cbn; try congruence. by rewrite Ex, Ey.
  - rewrite Epos, length_insert. done.
  - intros j o Hj Ho. rewrite Epos, list_lookup_insert_ne in Ho by lia. by eapply Hnone.
  - intros p i [-> ->]%Hat. lia.
  - intros p q i [-> _]%Hat [-> _]%Hat. done.
  - intros i Hi. exists (sx, sy). apply Hat. split; [done|lia].
  - rewrite Eidx, Epos, take_insert_lt by lia. rewrite used_insert.
    + rewrite used_none; [done|]. intros j o [Hj _]%lookup_take_Some. by eapply Hnone.
    + rewrite lookup_take_lt by lia. destruct (lookup_lt_is_Some_2 (node_position_ s1) (Z.to_nat k) ltac:(lia)) as [o Ho].
      rewrite Ho. by rewrite (Hnone _ _ Ho).
  - rewrite Eidx, Enodes, length_insert. split; [|done]. change (nodes_capacity s') with (nodes_capacity s1). lia.
  - intros p i n [-> ->]%Hat Hn. change (Z.to_nat 0) with 0%nat in Hn. assert (n = n0) as -> by congruence. right. constructor; cbn; try done.
    exists 0, (sx, sy). split; [done|]. split; [by apply Hat|]. split; [by rewrite Hpar0|]. split; [rewrite Hcost0; lia|].
    left. unfold king. lia.
  - rewrite Esrc. split; [by apply Hat|done].
  - intros i _ Hi. rewrite (Honly i Hi). by apply rooted_root.
  - intros i Hi. cbn [queue_ set_opened set_index set_positions push set_queue s' s3 set_nodes s2] in Hi. rewrite elements_push in Hi.
    rewrite E10, Hq in Hi. apply list_elem_of_singleton in Hi as ->. rewrite Eidx, Hpar0. split; [lia|done].
Qed.

Lemma inv_containers s s' : plannable s -> inv s s' -> containers s'.
Proof.
  intros Hplan I. destruct (e_size s s' (i_same s s' I)) as [Ex Ey]. destruct (p_map _ Hplan). pose proof (i_table s s' I). pose proof (i_len s s' I).
  constructor; rewrite ?Ex, ?Ey, ?(e_map s s' (i_same s s' I)); [nia| |lia|left; lia].
  intros k o Hk. by apply (i_rest s s' I).
Qed.

(** ** Paths *)

(** The centre of a cell. *)
Definition world (mp : costmap) (p : Z * Z) : f64 * f64 := mapToWorld (fst p) (snd p) mp.

(** The cells from a node to the start. *)
Inductive way s s' : Z -> list (Z * Z) -> Prop :=
  | way_start : way s s' 0 [src_ s]
  | way_up i j p cs : i <> 0 -> par s' i = Some j -> at_cell s s' p i -> way s s' j cs -> way s s' i (p :: cs).

Lemma way_exists s s' i : inv s s' -> rooted (par s') i -> exists cs, way s s' i cs.
Proof.
  intros I. induction 1 as [_|i j Hi Hj _ [cs Hcs]]; [exists [src_ s]; constructor|].
  destruct (i_all s s' I i) as [p Hp]; [by apply par_range; eexists|]. exists (p :: cs). by eapply way_up.
Qed.

Lemma way_head s s' i cs : inv s s' -> way s s' i cs -> exists p, at_cell s s' p i /\ head cs = Some p.
Proof. intros I []; [exists (src_ s); split; [by apply i_root|done]|by eexists]. Qed.

Lemma centre s s' i p n : plannable s -> inv s s' -> at_cell s s' p i -> nodes_data_ s' !! Z.to_nat i = Some n -> is_Some (par s' i) ->
  mapToWorld (wrapu 32 (x n)) (wrapu 32 (y n)) (costmap_ s') = world (costmap_ s) p.
Proof.
  intros Hplan I Hp Hn Hi. destruct (r_pos _ _ _ _ (reached_of s s' p i n I Hp Hn Hi)) as [-> ->]. destruct (p_map _ Hplan), (proj1 Hp).
  rewrite !wrapu_id by (unfold in_u; nia). rewrite (e_map s s' (i_same s s' I)). done.
Qed.

(** Following the parents takes a bounded number of rounds. *)
Lemma trace_way s s' i cs : plannable s -> inv s s' -> way s s' i cs -> i <> 0 -> forall n, (length cs <= n)%nat ->
  trace n false i s' = Ok (world (costmap_ s) <$> cs).
Proof.
  intros Hplan I. induction 1 as [|i j p cs Hi Hj Hp Hcs IH]; [done|]. intros _ n Hn. cbn [length] in Hn. destruct n as [|n]; [lia|].
  assert (is_Some (par s' i)) as Hsi by by eexists. destruct (reached_at s s' i I Hsi) as (p' & ni & Hp' & Hni & Hnl & Hr).
  assert (p' = p) as -> by by eapply (i_inj s s' I). cbn [trace]. rewrite Hni, bind_Ok, (centre s s' i p ni) by done.
  rewrite (par_node s' i ni (par_range s' i Hsi) Hnl) in Hj. rewrite Hj. cbn [pointed]. rewrite bind_Ok.
  destruct (r_parent _ _ _ _ Hr) as (j' & q & Hj' & Hq & Hsj & _). assert (j' = j) as -> by congruence.
  destruct (reached_at s s' j I Hsj) as (q' & nj & Hq' & -> & Hnj & _). assert (q' = q) as -> by by eapply (i_inj s s' I). rewrite bind_Ok.
  rewrite <- (par_node s' j nj (par_range s' j Hsj) Hnj).
  destruct (decide (j = 0)) as [-> |Hne].
  - rewrite (proj2 (i_root s s' I)), bool_decide_true by done. inversion Hcs; subst; [|done].
    rewrite (centre s s' 0 q nj) by done. assert (q = src_ s) as -> by (eapply (i_inj s s' I); [done|apply (i_root s s' I)]). done.
  - rewrite bool_decide_false.
    2:{ apply rooted_not_self; [|done]. apply (i_rooted s s' I); [by apply par_range|done]. }
    rewrite IH by (done || lia). done.
Qed.

(** Each cell of a way is safe and linked with the next one. *)
Lemma way_links s s' i cs : plannable s -> inv s s' -> way s s' i cs ->
  Forall (fun p => inside (costmap_ s) p /\ free_cell s p = true) cs /\
  (forall k p q, cs !! k = Some p -> cs !! S k = Some q -> link s q p) /\ list.last cs = Some (src_ s).
Proof.
  intros Hplan I. induction 1 as [|i j p cs Hi Hj Hp Hcs (IH1 & IH2 & IH3)].
  - split; [by constructor; [apply Hplan|]|]. split; [|done]. intros [|k] p q Hp Hq; [done|]. by destruct k.
  - assert (is_Some (par s' i)) as Hsi by by eexists. destruct (reached_at s s' i I Hsi) as (p' & ni & Hp' & _ & Hnl & Hr).
    assert (p' = p) as -> by by eapply (i_inj s s' I). split; [|split].
    + constructor; [|done]. split; [apply Hp|apply Hr].
    + destruct (way_head s s' j cs I Hcs) as (q & Hq & Hhead). destruct cs as [|q0 cs]; [done|]. injection Hhead as ->.
      intros [|k] a b Ha Hb; [|by apply (IH2 k)]. injection Ha as <-. injection Hb as <-.
      destruct (r_parent _ _ _ _ Hr) as (j' & q' & Hj' & Hq' & _ & _ & Hlink).
      rewrite (par_node s' i ni (par_range s' i Hsi) Hnl) in Hj. assert (j' = j) as -> by congruence.
      assert (q' = q) as -> by by eapply (i_inj s s' I). done.
    + destruct cs as [|q cs]; [by destruct (way_head s s' j [] I Hcs) as (? & _ & ?)|]. done.
Qed.

(** What is returned: the centres of linked safe cells from the start to the goal, with the last one twice. *)
Definition valid_path s (path : list (f64 * f64)) : Prop := exists cs,
  path = world (costmap_ s) <$> cs ++ [dst_ s] /\ head cs = Some (src_ s) /\ list.last cs = Some (dst_ s) /\
  Forall (fun p => inside (costmap_ s) p /\ free_cell s p = true) cs /\
  forall k p q, cs !! k = Some p -> cs !! S k = Some q -> king p q \/ exists c, losCheck (fst q) (snd q) (fst p) (snd p) s = Ok (Some c).

Lemma reverse_next {A} (l : list A) k a b : reverse l !! k = Some a -> reverse l !! S k = Some b ->
  exists j, l !! j = Some b /\ l !! S j = Some a.
Proof.
  intros Ha Hb. pose proof (lookup_lt_Some _ _ _ Hb) as Hl. rewrite length_reverse in Hl.
  rewrite list.reverse_lookup in Ha, Hb by lia. exists (length l - S (S k))%nat. split; [done|].
  by replace (S (length l - S (S k)))%nat with (length l - S k)%nat by lia.
Qed.

Lemma backtrace_ok s s' i : plannable s -> inv s s' -> is_Some (par s' i) -> at_cell s s' (dst_ s) i ->
  exists n path, (forall fuel, (n <= fuel)%nat -> backtrace fuel i s' = Ok path) /\ valid_path s path.
Proof.
  intros Hplan I Hi Hd. destruct (way_exists s s' i I) as [cs Hcs]; [by apply (i_rooted s s' I), Hi; apply par_range|].
  destruct (way_links s s' i cs Hplan I Hcs) as (Hall & Hlinks & Hlast). destruct (way_head s s' i cs I Hcs) as (p & Hp & Hhead).
  assert (p = dst_ s) as -> by by eapply (i_inj s s' I).
  exists (S (length cs)), (reverse (world (costmap_ s) <$> dst_ s :: cs)). split.
  - intros fuel Hf. unfold backtrace. assert (trace fuel true i s' = Ok (world (costmap_ s) <$> dst_ s :: cs)) as ->; [|by rewrite bind_Ok, rev_alt].
    destruct fuel as [|fuel]; [lia|]. cbn [trace].
    destruct (reached_at s s' i I Hi) as (p' & ni & Hp' & Hni & Hnl & Hr). assert (p' = dst_ s) as -> by by eapply (i_inj s s' I).
    rewrite Hni, !bind_Ok, Hni, bind_Ok, (centre s s' i (dst_ s) ni) by done. rewrite <- (par_node s' i ni (par_range s' i Hi) Hnl).
    destruct (decide (i = 0)) as [-> |Hne].
    + rewrite (proj2 (i_root s s' I)), bool_decide_true by done. inversion Hcs; subst; [|done].
      assert (dst_ s = src_ s) as -> by (eapply (i_inj s s' I); [done|apply (i_root s s' I)]). done.
    + rewrite bool_decide_false by (apply rooted_not_self; [by apply (i_rooted s s' I), Hi; apply par_range|done]).
      rewrite (trace_way s s' i cs Hplan I Hcs Hne) by lia. done.
  - exists (reverse cs). rewrite <- fmap_reverse, reverse_cons. split; [done|]. rewrite head_reverse, last_reverse. split; [done|]. split; [done|].
    split.
    + rewrite list.Forall_forall in Hall |- *. intros p Hin. rewrite elem_of_reverse in Hin. by apply Hall.
    + intros k p q Hkp Hkq. destruct (reverse_next cs k p q Hkp Hkq) as (j & Hj & Hj'). exact (Hlinks j q p Hj Hj').
Qed.

(** C29: let the start be a safe cell and the goal a cell of the map, the weights in range, and the first row of the map
    entirely free or entirely blocked, and its first column as well ([plannable]; with a single blocked cell in the first row or
    column the line of sight may read the costmap outside its array, which is undefined: lemma [los_outside]).
    From containers that fit the map a search then needs a bounded number of rounds. It returns a path of
    safe cells from the start to the goal, each a neighbour of the one before or in its line of sight, or finds no path, or
    is cancelled, and it leaves the planner ready for the next search on that map. The only other end on such a map is
    an overflow of the counter of opened nodes. *)
Theorem theta_path (s : theta Q) (cancel_checker : Z -> bool) (Hplan : plannable s) (Hcont : containers s)
    (Hq : q_elements (queue_ s) = []) :
  exists n, forall fuel, (n <= fuel)%nat ->
    match generatePath fuel cancel_checker s with
    | (Ok (Some path), s') => valid_path s path /\ containers s' /\ q_elements (queue_ s') = []
    | (Ok None, s') => containers s' /\ q_elements (queue_ s') = []
    | (Throw e, s') => e = planner_cancelled /\ cancel_checker (nodes_opened s') = true /\
        containers s' /\ q_elements (queue_ s') = []
    | (UB, s') => 2 ^ 31 - 1 <= nodes_opened s'
    end.
Proof.
  destruct (start_ok s Hplan Hcont Hq) as (s1 & Hstart & I1 & Hi1 & Hop1).
  set (n1 := S (Z.to_nat (measure s s1))).
  pose proof (theta_search_ok s Hplan cancel_checker n1 s1 0 I1 Hi1 ltac:(lia) ltac:(lia)) as Hsearch.
  assert (forall fuel, (n1 <= fuel)%nat -> search fuel cancel_checker 0 s1 = search n1 cancel_checker 0 s1) as Hstable.
  { intros fuel Hf. induction Hf as [|fuel Hf IH]; [done|]. rewrite <- IH. apply (search_stable s Hplan); (done || lia). }
  assert (forall fuel, (n1 <= fuel)%nat -> generatePath fuel cancel_checker s =
    match search n1 cancel_checker 0 s1 with
    | (Ok j, s2) => if queue_is_empty s2 then (Ok None, s2) else
        match backtrace fuel j s2 with Ok path => (Ok (Some path), clearQueue s2) | Throw e => (Throw e, s2) | UB => (UB, s2) end
    | (Throw e, s2) => (Throw e, s2)
    | (UB, s2) => (UB, s2)
    end) as Hrun.
  { intros fuel Hf. unfold generatePath. expose. unfold amend. rewrite Hstart, Hstable by done.
    destruct (search n1 cancel_checker 0 s1) as [[j|e|] s2]; try done. unfold get. destruct (queue_is_empty s2); [done|].
    unfold query. by destruct (backtrace fuel j s2). }
  destruct (search n1 cancel_checker 0 s1) as [[j|e|] s2].
  - destruct Hsearch as (I2 & Hj & Hend). unfold queue_is_empty in Hrun.
    destruct (bool_decide_reflect (q_elements (queue_ s2) = [])) as [He|He].
    + exists n1. intros fuel Hf. rewrite Hrun by done. split; [by eapply inv_containers|done].
    + destruct Hend as [|Hgoal]; [done|]. destruct (backtrace_ok s s2 j Hplan I2 Hj Hgoal) as (n2 & path & Hback & Hpath).
      exists (Nat.max n1 n2). intros fuel Hf. rewrite Hrun, Hback by lia. split; [done|]. cbn. rewrite elements_empty. split; [|done].
      destruct (inv_containers s s2 Hplan I2). by constructor.
  - exists n1. intros fuel Hf. rewrite Hrun by done. destruct Hsearch as (-> & Hc & I2 & He). split; [done|]. split; [done|]. split; [by eapply inv_containers|done].
  - exists n1. intros fuel Hf. by rewrite Hrun.
Qed.
End Containers.

(** ** An instance *)

(** Square roots, kept within the law. *)
Definition rooted_hypotenuse (a b : f64) : f64 :=
  let r := f64_sqrt (f64_add (f64_mul a a) (f64_mul b b)) in
  if fin 53 1024 r && (0 <=? sunits 53 1024 r) && (sunits 53 1024 r <=? 2 ^ (33 - emin 53 1024)) then r else f64_zero.
#[local] Instance demo_hypotenuse : Hypotenuse := rooted_hypotenuse.
#[local] Instance demo_hypotenuse_laws : HypotenuseLaws.
Proof.
  constructor. intros a b _ _. unfold hypotenuse, demo_hypotenuse, rooted_hypotenuse. destruct (_ && _) eqn:E; [|apply (between_zero 53 1024)].
  rewrite !andb_true_iff, !Z.leb_le in E. unfold between. tauto.
Qed.

(** A list sorted by cost when a node comes. *)
Fixpoint insert_node (c : Z -> f64) (x : Z) (l : list Z) : list Z :=
  match l with [] => [x] | j :: t => if f64_lt (c x) (c j) then x :: l else j :: insert_node c x t end.
#[local] Instance demo_queue : OpenList (list Z) := {|
  q_empty := []; q_push := insert_node; q_top := head; q_pop _ := tail; q_elements q := q |}.
#[local] Instance demo_queue_laws : OpenListLaws (list Z).
Proof.
  constructor; cbn.
  - done.
  - intros c x q. induction q as [|j q IH]; cbn; [done|]. destruct (f64_lt _ _); [done|]. rewrite IH. by apply Permutation_swap.
  - by intros [].
  - intros c x [|j q]; [done|]. by intros [= ->].
Qed.

Definition grid (w h : Z) (l : list Z) : costmap := mk_costmap w h (f64_of_Z 1) f64_zero f64_zero l 0.
Definition planner_on (mp : costmap) (src dst : Z * Z) : theta (list Z) := set_ends src dst (new mp).
Definition never (n : Z) : bool := false.
(** The cells of a path. *)
Definition cells_of (r : res (option (list (f64 * f64)))) : option (list (option Z * option Z)) :=
  match r with Ok (Some l) => Some ((fun p => (f64_trunc (fst p), f64_trunc (snd p))) <$> l) | _ => None end.
Definition path_on (mp : costmap) (src dst : Z * Z) (fuel : nat) : option (list (option Z * option Z)) :=
  cells_of (fst (generatePath fuel never (planner_on mp src dst))).

Definition open_map : costmap := grid 5 4 [0; 0; 0; 0; 0;  0; 0; 254; 0; 0;  0; 0; 254; 0; 0;  0; 0; 0; 0; 0].

Example open_path : path_on open_map (0, 2) (4, 1) 100 =
  Some [(Some 0, Some 2); (Some 1, Some 1); (Some 3, Some 1); (Some 4, Some 1); (Some 4, Some 1)].
Proof. vm_compute. reflexivity. Qed.

Lemma demo_theta_plannable : plannable (planner_on open_map (0, 2) (4, 1)).
Proof.
  constructor.
  - constructor; [done..|]. apply (bool_decide_unpack _); vm_compute; exact I.
  - constructor; (split; [reflexivity|split; apply Z.leb_le; vm_compute; reflexivity]).
  - split; [split; cbn; lia|vm_compute; reflexivity].
  - split; cbn; lia.
  - split; left.
    + intros a [Ha _]. cbn in Ha. assert (a = 0 \/ a = 1 \/ a = 2 \/ a = 3 \/ a = 4) as [-> |[-> |[-> |[-> | ->]]]] by lia; vm_compute; reflexivity.
    + intros a [_ Ha]. cbn in Ha. assert (a = 0 \/ a = 1 \/ a = 2 \/ a = 3) as [-> |[-> |[-> | ->]]] by lia; vm_compute; reflexivity.
  - cbn. lia.
  - done.
Qed.

Lemma demo_containers : containers (planner_on open_map (0, 2) (4, 1)).
Proof. constructor; cbn; try lia. by intros k o _ Ho. Qed.

Lemma theta_path_witness : exists n, forall fuel, (n <= fuel)%nat ->
  match generatePath fuel never (planner_on open_map (0, 2) (4, 1)) with
  | (Ok (Some path), s') => valid_path (planner_on open_map (0, 2) (4, 1)) path /\ containers s' /\ q_elements (queue_ s') = []
  | (Ok None, s') => containers s' /\ q_elements (queue_ s') = []
  | (Throw e, s') => e = planner_cancelled /\ never (nodes_opened s') = true /\ containers s' /\ q_elements (queue_ s') = []
  | (UB, s') => 2 ^ 31 - 1 <= nodes_opened s'
  end.
Proof. exact (theta_path (planner_on open_map (0, 2) (4, 1)) never demo_theta_plannable demo_containers eq_refl). Defined.

(** ** What the planner does wrong *)

(** In a corridor the last node in the queue is the goal or leads to it, and the loop ends when it is taken. *)
Example corridor_fails : path_on (grid 4 1 [0; 0; 0; 0]) (0, 0) (3, 0) 100 = None /\
  fst (generatePath 100 never (planner_on (grid 4 1 [0; 0; 0; 0]) (0, 0) (3, 0))) = Ok None.
Proof. vm_compute. split; reflexivity. Qed.

(** The path leads straight through three lethal cells. *)
Example path_through_obstacle : path_on (grid 8 4 [0; 0; 0; 0; 0; 0; 0; 0;  0; 0; 0; 0; 0; 0; 0; 0;
    0; 0; 254; 254; 254; 0; 0; 0;  0; 0; 0; 254; 0; 0; 0; 0]) (0, 2) (7, 2) 1000 =
  Some [(Some 0, Some 2); (Some 5, Some 2); (Some 6, Some 2); (Some 7, Some 2); (Some 7, Some 2)].
Proof. vm_compute. reflexivity. Qed.

(** Maps of 4, 2 and 5 cells leave a table of 7 entries with room for 5 nodes: on a map of 6 cells the vector
    of nodes moves while there are pointers to them. *)
Definition next_map (mp : costmap) (dst : Z * Z) (s : theta (list Z)) : res (option (list (f64 * f64))) * theta (list Z) :=
  generatePath 100 never (set_ends (0, 0) dst (set_costmap mp s)).
Example resize_dangles :
  let s := planner_on (grid 4 1 [0; 0; 0; 0]) (0, 0) (3, 0) in
  let s := snd (next_map (grid 4 1 [0; 0; 0; 0]) (3, 0) s) in
  let s := snd (next_map (grid 2 1 [0; 0]) (1, 0) s) in
  let s := snd (next_map (grid 5 1 [0; 0; 0; 0; 0]) (4, 0) s) in
  nodes_capacity s = 5 /\ fst (next_map (grid 3 2 [0; 0; 0; 0; 0; 0]) (2, 0) s) = UB.
Proof. vm_compute. split; reflexivity. Qed.

#[local] Instance demo_rotation : Rotation := {|
  atan2 := fun b a => f64_sub b a; orientationAroundZAxis := fun _ => NavfnPlanner.no_rotation |}.

Definition half_way (p : Z * Z) : NavfnPlanner.pose :=
  NavfnPlanner.mk_pose (fst (world (grid 1 1 []) p)) (snd (world (grid 1 1 []) p)) f64_zero NavfnPlanner.no_rotation.
Definition plugin_on (mp : costmap) : ThetaStarPlanner.planner (list Z) :=
  ThetaStarPlanner.mk_planner String.EmptyString mp (Some (new mp)) false.

(** [clearStart] comes before [setStartAndGoal]: the cell of the previous start is cleared, at first
    (0, 0), and a start within an obstacle is refused. *)
Example previous_start_cleared :
  let '(r, s) := ThetaStarPlanner.createPlan 100 (half_way (2, 1)) (half_way (0, 1)) never (plugin_on (grid 3 2 [254; 0; 0;  0; 0; 254])) in
  r = Throw planner_exception /\ cells (ThetaStarPlanner.costmap_ s) = [0; 0; 0;  0; 0; 254].
Proof. vm_compute. split; reflexivity. Qed.

(** The number of neighbours is checked in [configure], not when the parameter changes. *)
Example unchecked_corners :
  match ThetaStarPlanner.set_parameter (ThetaStarPlanner.HOW_MANY_CORNERS, PARAMETER_INTEGER 9) (plugin_on (grid 3 2 [0; 0; 0;  0; 0; 0])) with
  | Ok s => fst (ThetaStarPlanner.createPlan 100 (half_way (0, 0)) (half_way (2, 1)) never s) = UB
  | _ => False
  end.
Proof. vm_compute. reflexivity. Qed.
End ThetaStarPath.
