(* ===== verification/VelocitySmoother.v ===== *)
(** * The velocity smoother ([nav2_velocity_smoother]: [velocity_smoother.cpp]; [nav2_util]:
    [odometry_utils.cpp], [twist_publisher.hpp], [twist_subscriber.hpp])

    A timer moves the published velocity towards the last command, within limits of velocity and
    acceleration, and towards zero when commands stop arriving. The callbacks of the node run one
    at a time. [abs] is the one for [double]. *)

From stdpp Require Import base option list numbers strings.
From Stdlib Require Import ZArith Lia SpecFloat String.
From S2P Require Import Prelude Float64 Footprint ArrayParser Parameters CollisionZones CollisionSources CollisionMonitor.

(** Times of [rclcpp]: a message carries seconds and nanoseconds, and a time cannot be negative;
    differences are checked. *)
Class Clocks : Type := {
  time_of_stamp : Z * Z -> outcome Z;
  stamp_of_time : Z -> Z * Z;
  elapsed : Z -> Z -> outcome Z }.

(** [create_wall_timer], with a period in milliseconds. *)
Class Timers : Type := create_wall_timer : Z -> outcome ().

Module Velocities.
Export Monitor(Twist, mk_twist, linear, angular, validateTwist, finite).

Record Header : Type := mk_header { stamp : Z * Z; frame_id : string }.
Record TwistStamped : Type := mk_stamped { header : Header; twist : Twist }.

Definition lin_x (t : Twist) : f64 := fst (fst (linear t)).
Definition lin_y (t : Twist) : f64 := snd (fst (linear t)).
Definition ang_z (t : Twist) : f64 := snd (angular t).

(** Messages are created with zeros. *)
Definition planar (x y z : f64) : Twist := mk_twist (x, y, f64_zero) (f64_zero, f64_zero, z).
Definition zero_twist : Twist := planar f64_zero f64_zero f64_zero.
Definition no_header : Header := mk_header (0, 0) EmptyString.
Definition new_stamped : TwistStamped := mk_stamped no_header zero_twist.

(** The assignment of the three components of a planar motion. *)
Definition set_planar (x y z : f64) (t : Twist) : Twist :=
  mk_twist (x, y, snd (linear t)) (fst (fst (angular t)), snd (fst (angular t)), z).

Definition map2 {A B} (f : A -> A -> B) (a b : A * A * A) : B * B * B :=
  (f (fst (fst a)) (fst (fst b)), f (snd (fst a)) (snd (fst b)), f (snd a) (snd b)).
Definition twist_map2 (f : f64 -> f64 -> f64) (a b : Twist) : Twist :=
  mk_twist (map2 f (linear a) (linear b)) (map2 f (angular a) (angular b)).

(** [operator==] of messages *)
Definition all3 (b : bool * bool * bool) : bool := fst (fst b) && snd (fst b) && snd b.
Definition twist_eq (a b : Twist) : bool :=
  all3 (map2 f64_eq (linear a) (linear b)) && all3 (map2 f64_eq (angular a) (angular b)).
End Velocities.

(** ** The mean of the odometry of the last moments *)

Module OdomSmoother.
Import Velocities.

Record Odometry : Type := mk_odometry { odom_header : Header; odom_twist : Twist }.

Record odom : Type := mk_odom {
  odom_history_duration_ : Z;
  odom_history_ : list Odometry;
  odom_cumulate_ : Twist;
  vel_smooth_ : TwistStamped }.

Section OdomSmoother.
Context `{Durations} `{Clocks}.

Definition new (filter_duration : f64) : odom :=
  mk_odom (from_seconds filter_duration) [] zero_twist new_stamped.

(** The loop that removes the messages older than the duration from the sum. *)
Fixpoint expire (current_time duration : Z) (history : list Odometry) (cumulate : Twist) :
    res (list Odometry * Twist) :=
  match history with
  | [] => Ok ([], cumulate)
  | front :: rest =>
      front_time ← of_outcome (time_of_stamp (stamp (odom_header front)));
      age ← of_outcome (elapsed current_time front_time);
      if age >? duration
      then expire current_time duration rest (twist_map2 f64_sub cumulate (odom_twist front))
      else Ok (history, cumulate)
  end.

Definition updateState (o : odom) : res odom :=
  match last (odom_history_ o) with
  | Some m =>
      let cumulate := twist_map2 f64_add (odom_cumulate_ o) (odom_twist m) in
      let size := f64_of_Z (Z.of_nat (List.length (odom_history_ o))) in
      Ok (mk_odom (odom_history_duration_ o) (odom_history_ o) cumulate
            (mk_stamped (odom_header m) (twist_map2 (fun c _ => f64_div c size) cumulate cumulate)))
  | None => UB
  end.

Definition odomCallback (msg : Odometry) (o : odom) : res odom :=
  '(history, cumulate) ← (if bool_decide (odom_history_ o = []) then Ok ([], odom_cumulate_ o) else
    current_time ← of_outcome (time_of_stamp (stamp (odom_header msg)));
    expire current_time (odom_history_duration_ o) (odom_history_ o) (odom_cumulate_ o));
  updateState (mk_odom (odom_history_duration_ o) (history ++ [msg]) cumulate (vel_smooth_ o)).

Definition getTwistStamped (o : odom) : TwistStamped := vel_smooth_ o.
End OdomSmoother.
End OdomSmoother.

(** ** The node *)

Module VelocitySmoother.
Import Velocities OdomSmoother.

(** A publisher or a message without and with a stamp, as the parameter
    [enable_stamped_cmd_vel] demands. *)
Record TwistPublisher : Type := mk_publisher { is_stamped_ : bool; is_activated : bool }.
Inductive message : Type := TWIST (t : Twist) | TWIST_STAMPED (t : TwistStamped).

(** The limits of the three components. *)
Record kinematics : Type := mk_kinematics {
  max_velocities_ : list f64;
  min_velocities_ : list f64;
  max_accels_ : list f64;
  max_decels_ : list f64;
  deadband_velocities_ : list f64 }.

Record smoother : Type := mk_smoother {
  smoothing_frequency_ : f64;
  odom_duration_ : f64;
  odom_topic_ : string;
  open_loop_ : bool;
  stopped_ : bool;
  scale_velocities_ : bool;
  limits : kinematics;
  velocity_timeout_ : Z;
  last_command_time_ : Z;
  command_ : option TwistStamped;
  last_cmd_ : TwistStamped;
  odom_smoother_ : option odom;
  smoothed_cmd_pub_ : option TwistPublisher;
  cmd_sub_ : option bool;
  timer_ : option Z;
  dyn_params_handler_ : bool }.

(** Members without an initializer read as zero. *)
Definition new : smoother :=
  mk_smoother f64_zero f64_zero EmptyString false true false (mk_kinematics [] [] [] [] []) 0 0 None new_stamped
    None None None None false.

(** Parts of the assignments. *)
Definition set_frequency x (s : smoother) : smoother :=
  mk_smoother x (odom_duration_ s) (odom_topic_ s) (open_loop_ s) (stopped_ s) (scale_velocities_ s) (limits s)
    (velocity_timeout_ s) (last_command_time_ s) (command_ s) (last_cmd_ s) (odom_smoother_ s) (smoothed_cmd_pub_ s)
    (cmd_sub_ s) (timer_ s) (dyn_params_handler_ s).
Definition set_odom_source x t (s : smoother) : smoother :=
  mk_smoother (smoothing_frequency_ s) x t (open_loop_ s) (stopped_ s) (scale_velocities_ s) (limits s)
    (velocity_timeout_ s) (last_command_time_ s) (command_ s) (last_cmd_ s) (odom_smoother_ s) (smoothed_cmd_pub_ s)
    (cmd_sub_ s) (timer_ s) (dyn_params_handler_ s).
Definition set_loop b o (s : smoother) : smoother :=
  mk_smoother (smoothing_frequency_ s) (odom_duration_ s) (odom_topic_ s) b (stopped_ s) (scale_velocities_ s) (limits s)
    (velocity_timeout_ s) (last_command_time_ s) (command_ s) (last_cmd_ s) o (smoothed_cmd_pub_ s)
    (cmd_sub_ s) (timer_ s) (dyn_params_handler_ s).
Definition set_scale b (s : smoother) : smoother :=
  mk_smoother (smoothing_frequency_ s) (odom_duration_ s) (odom_topic_ s) (open_loop_ s) (stopped_ s) b (limits s)
    (velocity_timeout_ s) (last_command_time_ s) (command_ s) (last_cmd_ s) (odom_smoother_ s) (smoothed_cmd_pub_ s)
    (cmd_sub_ s) (timer_ s) (dyn_params_handler_ s).
Definition set_limits k (s : smoother) : smoother :=
  mk_smoother (smoothing_frequency_ s) (odom_duration_ s) (odom_topic_ s) (open_loop_ s) (stopped_ s) (scale_velocities_ s) k
    (velocity_timeout_ s) (last_command_time_ s) (command_ s) (last_cmd_ s) (odom_smoother_ s) (smoothed_cmd_pub_ s)
    (cmd_sub_ s) (timer_ s) (dyn_params_handler_ s).
Definition set_timeout z (s : smoother) : smoother :=
  mk_smoother (smoothing_frequency_ s) (odom_duration_ s) (odom_topic_ s) (open_loop_ s) (stopped_ s) (scale_velocities_ s) (limits s)
    z (last_command_time_ s) (command_ s) (last_cmd_ s) (odom_smoother_ s) (smoothed_cmd_pub_ s)
    (cmd_sub_ s) (timer_ s) (dyn_params_handler_ s).
Definition set_command c (s : smoother) : smoother :=
  mk_smoother (smoothing_frequency_ s) (odom_duration_ s) (odom_topic_ s) (open_loop_ s) (stopped_ s) (scale_velocities_ s) (limits s)
    (velocity_timeout_ s) (last_command_time_ s) (Some c) (last_cmd_ s) (odom_smoother_ s) (smoothed_cmd_pub_ s)
    (cmd_sub_ s) (timer_ s) (dyn_params_handler_ s).
Definition set_command_time z (s : smoother) : smoother :=
  mk_smoother (smoothing_frequency_ s) (odom_duration_ s) (odom_topic_ s) (open_loop_ s) (stopped_ s) (scale_velocities_ s) (limits s)
    (velocity_timeout_ s) z (command_ s) (last_cmd_ s) (odom_smoother_ s) (smoothed_cmd_pub_ s)
    (cmd_sub_ s) (timer_ s) (dyn_params_handler_ s).
Definition set_stopped b (s : smoother) : smoother :=
  mk_smoother (smoothing_frequency_ s) (odom_duration_ s) (odom_topic_ s) (open_loop_ s) b (scale_velocities_ s) (limits s)
    (velocity_timeout_ s) (last_command_time_ s) (command_ s) (last_cmd_ s) (odom_smoother_ s) (smoothed_cmd_pub_ s)
    (cmd_sub_ s) (timer_ s) (dyn_params_handler_ s).
Definition set_last_cmd c (s : smoother) : smoother :=
  mk_smoother (smoothing_frequency_ s) (odom_duration_ s) (odom_topic_ s) (open_loop_ s) (stopped_ s) (scale_velocities_ s) (limits s)
    (velocity_timeout_ s) (last_command_time_ s) (command_ s) c (odom_smoother_ s) (smoothed_cmd_pub_ s)
    (cmd_sub_ s) (timer_ s) (dyn_params_handler_ s).
Definition set_topics p c (s : smoother) : smoother :=
  mk_smoother (smoothing_frequency_ s) (odom_duration_ s) (odom_topic_ s) (open_loop_ s) (stopped_ s) (scale_velocities_ s) (limits s)
    (velocity_timeout_ s) (last_command_time_ s) (command_ s) (last_cmd_ s) (odom_smoother_ s) p
    c (timer_ s) (dyn_params_handler_ s).
Definition set_timer t (s : smoother) : smoother :=
  mk_smoother (smoothing_frequency_ s) (odom_duration_ s) (odom_topic_ s) (open_loop_ s) (stopped_ s) (scale_velocities_ s) (limits s)
    (velocity_timeout_ s) (last_command_time_ s) (command_ s) (last_cmd_ s) (odom_smoother_ s) (smoothed_cmd_pub_ s)
    (cmd_sub_ s) t (dyn_params_handler_ s).
Definition set_handler b (s : smoother) : smoother :=
  mk_smoother (smoothing_frequency_ s) (odom_duration_ s) (odom_topic_ s) (open_loop_ s) (stopped_ s) (scale_velocities_ s) (limits s)
    (velocity_timeout_ s) (last_command_time_ s) (command_ s) (last_cmd_ s) (odom_smoother_ s) (smoothed_cmd_pub_ s)
    (cmd_sub_ s) (timer_ s) b.

Definition set_max_velocities l (k : kinematics) : kinematics :=
  mk_kinematics l (min_velocities_ k) (max_accels_ k) (max_decels_ k) (deadband_velocities_ k).
Definition set_min_velocities l (k : kinematics) : kinematics :=
  mk_kinematics (max_velocities_ k) l (max_accels_ k) (max_decels_ k) (deadband_velocities_ k).
Definition set_max_accels l (k : kinematics) : kinematics :=
  mk_kinematics (max_velocities_ k) (min_velocities_ k) l (max_decels_ k) (deadband_velocities_ k).
Definition set_max_decels l (k : kinematics) : kinematics :=
  mk_kinematics (max_velocities_ k) (min_velocities_ k) (max_accels_ k) l (deadband_velocities_ k).
Definition set_deadband l (k : kinematics) : kinematics :=
  mk_kinematics (max_velocities_ k) (min_velocities_ k) (max_accels_ k) (max_decels_ k) l.

Section VelocitySmoother.
Context `{Durations} `{Clocks} `{Timers}.

Definition one : f64 := f64_of_Z 1.

(** ** Commands *)

(** At the time [now]. *)
Definition inputCommandStampedCallback (now : Z) (msg : TwistStamped) : ST smoother () :=
  if negb (validateTwist (twist msg)) then mret tt else
  _ ← modify (set_command msg);
  if (fst (stamp (header msg)) =? 0) && (snd (stamp (header msg)) =? 0)
  then modify (set_command_time now)
  else t ← query (fun _ => of_outcome (time_of_stamp (stamp (header msg)))); modify (set_command_time t).

Definition inputCommandCallback (now : Z) (msg : Twist) : ST smoother () :=
  inputCommandStampedCallback now (mk_stamped no_header msg).

(** ** Acceleration *)

(** Whether the limit of acceleration applies; the one of deceleration otherwise. *)
Definition accelerating (v_curr v_cmd : f64) : bool :=
  f64_le (SFabs v_curr) (SFabs v_cmd) && f64_le f64_zero (f64_mul v_curr v_cmd).

(** The bounds of the change in one period. *)
Definition v_component (frequency v_curr v_cmd accel decel : f64) : f64 * f64 :=
  if accelerating v_curr v_cmd then (f64_div (SFopp accel) frequency, f64_div accel frequency)
  else (f64_div decel frequency, f64_div (SFopp decel) frequency).

Definition findEtaConstraint (frequency v_curr v_cmd accel decel : f64) : f64 :=
  let dv := f64_sub v_cmd v_curr in
  let '(v_component_min, v_component_max) := v_component frequency v_curr v_cmd accel decel in
  if f64_lt v_component_max dv then f64_div v_component_max dv
  else if f64_lt dv v_component_min then f64_div v_component_min dv
  else SFopp one.

(** [std::clamp], whose bounds have to be ordered. *)
Definition clamp (v lo hi : f64) : res f64 :=
  _ ← require (negb (f64_lt hi lo)); Ok (Monitor.clamp v lo hi).

Definition applyConstraints (frequency v_curr v_cmd accel decel eta : f64) : res f64 :=
  let dv := f64_sub v_cmd v_curr in
  let '(v_component_min, v_component_max) := v_component frequency v_curr v_cmd accel decel in
  d ← clamp (f64_mul eta dv) v_component_min v_component_max;
  Ok (f64_add v_curr d).

(** ** The timer *)

Definition clamp_axis (k : kinematics) (i : Z) (v : f64) : res f64 :=
  lo ← aget (min_velocities_ k) i;
  hi ← aget (max_velocities_ k) i;
  clamp v lo hi.

(** The scale factor after another component. *)
Definition scale_axis (frequency : f64) (k : kinematics) (i : Z) (v_curr v_cmd eta : f64) : res f64 :=
  accel ← aget (max_accels_ k) i;
  decel ← aget (max_decels_ k) i;
  let curr_eta := findEtaConstraint frequency v_curr v_cmd accel decel in
  Ok (if f64_lt f64_zero curr_eta && f64_lt (SFabs (f64_sub one eta)) (SFabs (f64_sub one curr_eta))
      then curr_eta else eta).

Definition move_axis (frequency : f64) (k : kinematics) (i : Z) (v_curr v_cmd eta : f64) : res f64 :=
  accel ← aget (max_accels_ k) i;
  decel ← aget (max_decels_ k) i;
  applyConstraints frequency v_curr v_cmd accel decel eta.

Definition deadband_axis (k : kinematics) (i : Z) (v : f64) : res f64 :=
  d ← aget (deadband_velocities_ k) i;
  Ok (if f64_lt (SFabs v) d then f64_zero else v).

Definition each_axis (f : Z -> f64 -> res f64) (t : Twist) : res Twist :=
  x ← f 0 (lin_x t); y ← f 1 (lin_y t); z ← f 2 (ang_z t);
  Ok (set_planar x y z t).

Definition find_eta (s : smoother) (current command : Twist) : res f64 :=
  if scale_velocities_ s then
    let axis := scale_axis (smoothing_frequency_ s) (limits s) in
    eta ← axis 0 (lin_x current) (lin_x command) one;
    eta ← axis 1 (lin_y current) (lin_y command) eta;
    axis 2 (ang_z current) (ang_z command) eta
  else Ok one.

Definition publish (p : option TwistPublisher) (msg : TwistStamped) : res (option message) :=
  match p with
  | None => UB
  | Some p =>
      Ok (if is_activated p then Some (if is_stamped_ p then TWIST_STAMPED msg else TWIST (twist msg)) else None)
  end.

(** The part that follows the check for a timeout. *)
Definition smooth (head : Header) (command : TwistStamped) (s : smoother) : res (option message * smoother) :=
  current ← (if open_loop_ s then Ok (twist (last_cmd_ s)) else
             match odom_smoother_ s with Some o => Ok (twist (getTwistStamped o)) | None => UB end);
  target ← each_axis (clamp_axis (limits s)) (twist command);
  eta ← find_eta s current target;
  let move i c t := move_axis (smoothing_frequency_ s) (limits s) i c t eta in
  x ← move 0 (lin_x current) (lin_x target);
  y ← move 1 (lin_y current) (lin_y target);
  z ← move 2 (ang_z current) (ang_z target);
  let cmd_vel := mk_stamped head (planar x y z) in
  out ← each_axis (deadband_axis (limits s)) (twist cmd_vel);
  m ← publish (smoothed_cmd_pub_ s) (mk_stamped head out);
  Ok (m, set_last_cmd cmd_vel (set_command (mk_stamped (header command) target) (set_stopped false s))).

(** [smootherTimer]: [now] is read for the timeout and [later] for the stamp of a replaced command. *)
Definition smootherTimer (now later : Z) (s : smoother) : res (option message * smoother) :=
  match command_ s with
  | None => Ok (None, s)
  | Some command =>
      age ← of_outcome (elapsed now (last_command_time_ s));
      if age >? velocity_timeout_ s then
        if twist_eq (twist (last_cmd_ s)) zero_twist || stopped_ s then Ok (None, set_stopped true s)
        else smooth (header command) (mk_stamped (mk_header (stamp_of_time later) EmptyString) zero_twist) s
      else smooth (header command) command s
  end.

(** ** Transitions and parameters *)

Definition start_timer : ST smoother () :=
  s ← get;
  period ← query (fun _ => f64_to_int 32 (f64_div (f64_of_Z 1000) (smoothing_frequency_ s)));
  _ ← query (fun _ => of_outcome (create_wall_timer period));
  modify (set_timer (Some period)).

Definition on_activate : ST smoother () :=
  s ← get;
  match smoothed_cmd_pub_ s with
  | None => undefined
  | Some p =>
      _ ← modify (set_topics (Some (mk_publisher (is_stamped_ p) true)) (cmd_sub_ s));
      _ ← start_timer;
      modify (set_handler true)
  end.

Definition on_deactivate : ST smoother () :=
  _ ← modify (set_timer None);
  s ← get;
  match smoothed_cmd_pub_ s with
  | None => undefined
  | Some p =>
      _ ← modify (set_topics (Some (mk_publisher (is_stamped_ p) false)) (cmd_sub_ s));
      modify (set_handler false)
  end.

Definition on_cleanup : ST smoother () :=
  _ ← modify (set_topics None None);
  modify (fun s => set_loop (open_loop_ s) None s).

(** A new history of odometry. *)
Definition restart_odom (s : smoother) : smoother :=
  set_loop (open_loop_ s) (Some (OdomSmoother.new (odom_duration_ s))) s.

(** One pass of the loop over the parameters: the value of [result.successful], and whether the loop
    goes on. *)
Definition update_limits (bad : f64 -> bool) (l : list f64) (f : kinematics -> kinematics) (successful : bool) :
    ST smoother (bool * bool) :=
  let successful := successful && negb (existsb bad l) in
  _ ← modify (fun s => if successful then set_limits (f (limits s)) s else s);
  mret (successful, true).

Definition negative (x : f64) : bool := f64_lt x f64_zero.
Definition positive (x : f64) : bool := f64_lt f64_zero x.

Definition set_parameter (name : string) (p : parameter) (successful : bool) : ST smoother (bool * bool) :=
  let named := String.eqb name in
  match p with
  | PARAMETER_DOUBLE x =>
      _ ← (if named "smoothing_frequency"%string then
             _ ← modify (fun s => set_timer None (set_frequency x s)); start_timer
           else if named "velocity_timeout"%string then modify (set_timeout (from_seconds x))
           else if named "odom_duration"%string then
             modify (fun s => restart_odom (set_odom_source x (odom_topic_ s) s))
           else mret tt);
      mret (successful, true)
  | PARAMETER_DOUBLE_ARRAY l =>
      if negb (Z.of_nat (List.length l) =? 3) then mret (false, false)
      else if named "max_velocity"%string then update_limits negative l (set_max_velocities l) successful
      else if named "min_velocity"%string then update_limits positive l (set_min_velocities l) successful
      else if named "max_accel"%string then update_limits negative l (set_max_accels l) successful
      else if named "max_decel"%string then update_limits positive l (set_max_decels l) successful
      else if named "deadband_velocity"%string then
        _ ← modify (fun s => set_limits (set_deadband l (limits s)) s); mret (successful, true)
      else mret (successful, true)
  | PARAMETER_STRING v =>
      if named "feedback"%string then
        if String.eqb v "OPEN_LOOP" then _ ← modify (set_loop true None); mret (successful, true)
        else if String.eqb v "CLOSED_LOOP" then
          _ ← modify (fun s => set_loop false (Some (OdomSmoother.new (odom_duration_ s))) s); mret (successful, true)
        else mret (false, false)
      else if named "odom_topic"%string then
        _ ← modify (fun s => restart_odom (set_odom_source (odom_duration_ s) v s)); mret (successful, true)
      else mret (successful, true)
  | _ => mret (successful, true)
  end.

Fixpoint set_parameters (parameters : list (string * parameter)) (successful : bool) : ST smoother bool :=
  match parameters with
  | [] => mret successful
  | (name, p) :: parameters =>
      '(successful, continue) ← set_parameter name p successful;
      if (continue : bool) then set_parameters parameters successful else mret successful
  end.

Definition dynamicParametersCallback (parameters : list (string * parameter)) : ST smoother bool :=
  set_parameters parameters true.

(** ** Configuration *)

Context `{NodeParameters}.
Import Parameters.

Definition param {A} (view : parameter -> option A) (name : string) (d : A) : ST smoother A :=
  query (fun _ => read_or view name d).

(** One pass of the loop over the limits: whether they are accepted. *)
Definition check_axis (k : kinematics) (i : Z) : res bool :=
  decel ← aget (max_decels_ k) i;
  if positive decel then Ok false else
  accel ← aget (max_accels_ k) i;
  if negative accel then Ok false else
  lo ← aget (min_velocities_ k) i;
  if positive lo then Ok false else
  hi ← aget (max_velocities_ k) i;
  if negative hi then Ok false else Ok (negb (f64_lt hi lo)).

Definition check_axes (k : kinematics) : res bool :=
  b ← check_axis k 0; if negb b then Ok false else
  b ← check_axis k 1; if negb b then Ok false else check_axis k 2.

Definition size3 (l : list f64) : bool := Z.of_nat (List.length l) =? 3.
Definition sizes_ok (k : kinematics) : bool :=
  size3 (max_velocities_ k) && size3 (min_velocities_ k) && size3 (max_accels_ k) && size3 (max_decels_ k) &&
  size3 (deadband_velocities_ k).

Definition half : f64 := f64_div one (f64_of_Z 2).
Definition two_and_half : f64 := f64_div (f64_of_Z 5) (f64_of_Z 2).
Definition three_and_fifth : f64 := f64_div (f64_of_Z 16) (f64_of_Z 5).
Definition tenth : f64 := f64_div one (f64_of_Z 10).

Definition fail : ST smoother bool := _ ← on_cleanup; mret false.

(** The first part of [on_configure] reads the limits. *)
Definition read_limits : ST smoother () :=
  v ← param as_double_array "max_velocity"%string [half; f64_zero; two_and_half];
  _ ← modify (fun s => set_limits (set_max_velocities v (limits s)) s);
  v ← param as_double_array "min_velocity"%string [SFopp half; f64_zero; SFopp two_and_half];
  _ ← modify (fun s => set_limits (set_min_velocities v (limits s)) s);
  v ← param as_double_array "max_accel"%string [two_and_half; f64_zero; three_and_fifth];
  _ ← modify (fun s => set_limits (set_max_accels v (limits s)) s);
  v ← param as_double_array "max_decel"%string [SFopp two_and_half; f64_zero; SFopp three_and_fifth];
  modify (fun s => set_limits (set_max_decels v (limits s)) s).

(** The last part sets up the topics. [priority] tells whether the system grants the priority of a
    real-time process. *)
Definition setup_topics (priority : bool) : ST smoother bool :=
  stamped ← param as_bool "enable_stamped_cmd_vel"%string false;
  _ ← modify (set_topics (Some (mk_publisher stamped false)) (Some stamped));
  use_realtime_priority ← param as_bool "use_realtime_priority"%string false;
  if use_realtime_priority && negb priority then fail else mret true.

Definition on_configure (priority : bool) : ST smoother bool :=
  frequency ← param as_double "smoothing_frequency"%string (f64_of_Z 20);
  _ ← modify (set_frequency frequency);
  feedback ← param as_string "feedback"%string "OPEN_LOOP"%string;
  scale ← param as_bool "scale_velocities"%string false;
  _ ← modify (set_scale scale);
  _ ← read_limits;
  ok ← query (fun s => check_axes (limits s));
  if negb ok then fail else
  topic ← param as_string "odom_topic"%string "odom"%string;
  duration ← param as_double "odom_duration"%string tenth;
  _ ← modify (set_odom_source duration topic);
  deadband ← param as_double_array "deadband_velocity"%string [f64_zero; f64_zero; f64_zero];
  _ ← modify (fun s => set_limits (set_deadband deadband (limits s)) s);
  timeout ← param as_double "velocity_timeout"%string one;
  _ ← modify (set_timeout (from_seconds timeout));
  s ← get;
  if negb (sizes_ok (limits s)) then fail
  else if String.eqb feedback "OPEN_LOOP" then
    _ ← modify (fun s => set_loop true (odom_smoother_ s) s); setup_topics priority
  else if String.eqb feedback "CLOSED_LOOP" then
    _ ← modify (set_loop false (Some (OdomSmoother.new duration))); setup_topics priority
  else fail.
End VelocitySmoother.
End VelocitySmoother.
