(* ===== verification/VelocitySmootherLaws.v ===== *)
(** * What the velocity smoother promises

    Within the limits of acceleration the output follows the command, and when commands stop
    arriving the robot is brought to a stand in a bounded number of periods, after which nothing
    more is published. *)

From stdpp Require Import base option list numbers strings.
From Stdlib Require Import ZArith Lia SpecFloat String.
From S2P Require Import Prelude Float64 FloatOrder FloatBounds Parameters CollisionZones CollisionSources CollisionMonitor VelocitySmoother.

Module VelocitySmootherLaws.
Import Velocities OdomSmoother VelocitySmoother.

Abbreviation fin64 := (fin 53 1024).
Abbreviation units64 := (sunits 53 1024).

(** ** Arithmetic of one component *)

(** Neither negative nor a NaN below zero. *)
Definition nonneg (x : f64) : Prop := f64_lt x f64_zero = false.

Lemma aux_nonneg m e l : nonneg (binary_round_aux 53 1024 false m e l).
Proof.
  unfold binary_round_aux. destruct (shr_fexp _ _ m e l) as [mrs e1].
  destruct (shr_fexp _ _ _ e1 loc_Exact) as [[m2 r s] e2]. cbn [shr_m].
  destruct m2; try done. by destruct (e2 <=? _).
Qed.

Lemma div_nonneg x y : nonneg x -> f64_lt f64_zero y = true -> nonneg (f64_div x y).
Proof.
  unfold f64_div, f64_prec, f64_emax.
  destruct x as [s|[]| |[] m e], y as [s'|[]| |[] m' e']; try done. intros _ _. cbn [SFdiv].
  destruct (SFdiv_core_binary 53 1024 (Zpos m) e (Zpos m') e') as [[mz ez] lz]. apply aux_nonneg.
Qed.

Lemma positive_nonneg x : positive x = false <-> nonneg (SFopp x).
Proof. by destruct x as [|[]| |[]]. Qed.

(** The bounds of a change are opposite and ordered. *)
Lemma bounds_ordered s : nonneg s -> f64_lt s (SFopp s) = false.
Proof. by destruct s as [|[]| |[]]. Qed.

Lemma zero_units x : fin64 x = true -> units64 x = 0 <-> f64_eq x f64_zero = true.
Proof.
  destruct x as [s|s| |s m e]; try done. cbn [fin sunits]. intros Hb.
  destruct (bounded_mantissa 53 1024 ltac:(lia) ltac:(lia) _ _ Hb) as ([? ?] & _ & _).
  assert (0 < 2 ^ (e - SpecFloat.emin 53 1024)) by (apply Z.pow_pos_nonneg; lia).
  destruct s; cbn [cond_Zopp]; (split; [lia|done]).
Qed.

(** The change towards zero in one period, from the largest change and the velocity. *)
Definition braked (step v v' : f64) : Prop :=
  fin64 v' = true /\
  (units64 v' = 0 \/ 0 < units64 step /\ 2 * Z.abs (units64 v') + units64 step <= 2 * Z.abs (units64 v)).

(** A step that reaches zero or is not lost by rounding. *)
Definition brakes (step v : f64) : Prop :=
  fin64 v = true /\ (units64 v = 0 \/ fin64 step = true /\ Z.abs (units64 v) <= 2 ^ 52 * units64 step).

Lemma add_units x y : fin64 x = true -> fin64 y = true ->
  Z.abs (units64 x + units64 y) <= Z.abs (units64 x) ->
  fin64 (f64_add x y) = true /\ units64 (f64_add x y) = sround 53 (units64 x + units64 y).
Proof.
  intros Hx Hy Hle. apply add_spec; try done; try lia.
  assert (Z.abs (units64 x) < top 53 1024) as Hx'.
  { destruct x as [s|s| |s m e]; try done; cbn [fin sunits] in *.
    destruct (bounded_mantissa 53 1024 ltac:(lia) ltac:(lia) _ _ Hx) as (He & Hm & _).
    pose proof (finite_units_lt 53 1024 ltac:(lia) ltac:(lia) (Zpos m) e He ltac:(lia)).
    assert (0 < 2 ^ (e - SpecFloat.emin 53 1024)) by (apply Z.pow_pos_nonneg; lia).
    destruct s; cbn [cond_Zopp]; lia. }
  pose proof (sround_mono 53 ltac:(lia) _ _ Hle) as Hm.
  destruct (sround_nonneg 53 ltac:(lia) (Z.abs (units64 x + units64 y)) ltac:(lia)) as [E1 _].
  assert (sround 53 (Z.abs (units64 x)) = Z.abs (units64 x)) as E2; [|lia].
  pose proof (sround_fin 53 1024 ltac:(lia) ltac:(lia) x Hx) as E.
  destruct (Z.abs_spec (units64 x)) as [[_ ->]|[_ ->]]; rewrite ?sround_opp, ?E; lia.
Qed.

Lemma round_brake w b : 0 < b -> b < w -> w <= 2 ^ 52 * b ->
  0 <= round_units 53 (w - b) /\ 2 * round_units 53 (w - b) + b <= 2 * w.
Proof.
  intros Hb Hbw Hw. pose proof (round_units_pos 53 ltac:(lia) (w - b) ltac:(lia)).
  pose proof (round_error 53 (w - b) ltac:(lia)).
  pose proof (step_le 53 ltac:(lia) (w - b) b ltac:(lia) ltac:(change (53 - 1) with 52; lia)). lia.
Qed.

Lemma component_bounds frequency v_curr v_cmd accel decel : exists s,
  v_component frequency v_curr v_cmd accel decel = (SFopp s, s) /\
  s = if accelerating v_curr v_cmd then f64_div accel frequency else f64_div (SFopp decel) frequency.
Proof.
  unfold v_component, f64_div. destruct (accelerating v_curr v_cmd).
  - rewrite div_opp. by eexists.
  - eexists. split; [|done]. by rewrite <- div_opp, opp_opp.
Qed.

Lemma one_exact x : fin64 x = true -> f64_mul one x = x.
Proof. intros Hx. by apply (mul_one 53 1024 ltac:(lia) ltac:(lia) 4503599627370496 x). Qed.

Lemma negated v : fin64 v = true -> fin64 (f64_sub f64_zero v) = true /\ units64 (f64_sub f64_zero v) = - units64 v.
Proof. destruct v as [[]|[]| |[] m e]; try done; intros Hv; cbn; (split; [done|lia]). Qed.

(** [Monitor.clamp] between a bound and its opposite. *)
Lemma clamp_units d s : fin64 d = true -> fin64 s = true -> 0 <= units64 s ->
  fin64 (Monitor.clamp d (SFopp s) s) = true /\
  units64 (Monitor.clamp d (SFopp s) s) = Z.max (- units64 s) (Z.min (units64 s) (units64 d)).
Proof.
  intros Hd Hs H0. destruct (opp_fin 53 1024 s) as [Fo Uo]. rewrite Hs in Fo.
  unfold Monitor.clamp, f64_lt. rewrite !(ltb_sunits 53 1024) by (lia || done). rewrite Uo.
  destruct (Z.ltb_spec (units64 d) (- units64 s)); [rewrite Uo; split; [done|lia]|].
  destruct (Z.ltb_spec (units64 s) (units64 d)); (split; [done|lia]).
Qed.

(** A command to stand still. *)
Lemma brake_axis frequency accel decel v :
  nonneg accel -> positive decel = false -> f64_lt f64_zero frequency = true ->
  brakes (f64_div (SFopp decel) frequency) v ->
  exists v', applyConstraints frequency v f64_zero accel decel one = Ok v' /\
    braked (f64_div (SFopp decel) frequency) v v'.
Proof.
  intros Ha Hd Hf [Fv Hb]. apply positive_nonneg in Hd.
  pose proof (div_nonneg _ _ Ha Hf) as Na. pose proof (div_nonneg _ _ Hd Hf) as Nd.
  unfold applyConstraints. destruct (component_bounds frequency v f64_zero accel decel) as (s & -> & Hs).
  destruct (negated v Fv) as [Fd Ud]. rewrite (one_exact _ Fd).
  assert (nonneg s) as Ns by (rewrite Hs; by destruct (accelerating _ _)).
  unfold clamp. rewrite (bounds_ordered s Ns). cbn [negb require]. rewrite !bind_Ok.
  eexists. split; [done|]. clear Na Nd.
  destruct (decide (units64 v = 0)) as [Hz|Hz].
  - apply (zero_units v Fv) in Hz. clear Hb Fd Ud. destruct v as [sv| | |[]]; try done.
    assert (Monitor.clamp (f64_sub f64_zero (S754_zero sv)) (SFopp s) s = S754_zero false) as ->.
    { destruct sv, s as [[]|[]| |[]]; done. }
    by destruct sv; split; auto.
  - destruct Hb as [|[Fs Hb]]; [done|].
    assert (accelerating v f64_zero = false) as Hacc.
    { destruct v as [| | |[]]; try done. }
    rewrite Hacc in Hs. rewrite <- Hs in *. clear Hs Hacc.
    assert (0 < units64 s) as Us by lia.
    destruct (clamp_units _ s Fd Fs ltac:(lia)) as [Fc Uc]. rewrite Ud in Uc.
    destruct (add_units v (Monitor.clamp (f64_sub f64_zero v) (SFopp s) s) Fv Fc ltac:(lia)) as [Fr Ur].
    split; [done|]. rewrite Ur, Uc.
    destruct (Z.le_gt_cases (Z.abs (units64 v)) (units64 s)) as [Hle|Hgt].
    + left. rewrite Z.min_r, Z.max_r by lia. by rewrite Z.add_opp_diag_r.
    + right. destruct (round_brake (Z.abs (units64 v)) (units64 s) Us ltac:(lia) Hb) as [R0 R1].
      destruct (sround_nonneg 53 ltac:(lia) (Z.abs (units64 v) - units64 s) ltac:(lia)) as [Es _].
      rewrite <- Es in R0, R1.
      destruct (Z.abs_spec (units64 v)) as [[? Ea]|[? Ea]]; rewrite Ea in *.
      * replace (units64 v + _) with (units64 v - units64 s) by lia. lia.
      * replace (units64 v + _) with (- (- units64 v - units64 s)) by lia. rewrite sround_opp. lia.
Qed.

(** ** Accepted limits *)

(** The limits that [on_configure] accepts, for a timer of a positive frequency. *)
Definition ready (k : kinematics) (frequency : f64) : Prop :=
  sizes_ok k = true /\ check_axes k = Ok true /\ f64_lt f64_zero frequency = true.

Record axis_ok (lo hi accel decel : f64) : Prop := {
  axis_lo : positive lo = false;
  axis_hi : negative hi = false;
  axis_range : f64_lt hi lo = false;
  axis_accel : nonneg accel;
  axis_decel : positive decel = false }.

Lemma list3 {A} (l : list A) : (Z.of_nat (List.length l) =? 3) = true -> exists a b c, l = [a; b; c].
Proof. intros Hl. apply Z.eqb_eq in Hl. destruct l as [|a [|b [|c [|]]]]; cbn in Hl; try lia. by exists a, b, c. Qed.

Lemma check_axis_ok k i lo hi accel decel : aget (min_velocities_ k) i = Ok lo -> aget (max_velocities_ k) i = Ok hi ->
  aget (max_accels_ k) i = Ok accel -> aget (max_decels_ k) i = Ok decel ->
  check_axis k i = Ok true <-> axis_ok lo hi accel decel.
Proof.
  unfold check_axis. intros -> -> -> ->. rewrite !bind_Ok. split.
  - destruct (positive decel) eqn:E1; [done|]. destruct (negative accel) eqn:E2; [done|].
    destruct (positive lo) eqn:E3; [done|]. destruct (negative hi) eqn:E4; [done|].
    intros [= E5]. apply negb_true_iff in E5. by split.
  - intros [-> -> E5 E2 ->]. unfold negative, nonneg in *. by rewrite E2, E5.
Qed.

(** The limits of an accepted smoother, written out. *)
Lemma ready_axes k frequency : ready k frequency ->
  exists lo0 lo1 lo2 hi0 hi1 hi2 a0 a1 a2 d0 d1 d2 b0 b1 b2,
    k = mk_kinematics [hi0; hi1; hi2] [lo0; lo1; lo2] [a0; a1; a2] [d0; d1; d2] [b0; b1; b2] /\
    axis_ok lo0 hi0 a0 d0 /\ axis_ok lo1 hi1 a1 d1 /\ axis_ok lo2 hi2 a2 d2.
Proof.
  intros (Hs & Hc & _). destruct k as [hi lo a d b]. unfold sizes_ok, size3 in Hs.
  cbn [max_velocities_ min_velocities_ max_accels_ max_decels_ deadband_velocities_] in Hs.
  rewrite !andb_true_iff in Hs. destruct Hs as ((((Hhi & Hlo) & Ha) & Hd) & Hb).
  apply list3 in Hhi as (hi0 & hi1 & hi2 & ->). apply list3 in Hlo as (lo0 & lo1 & lo2 & ->).
  apply list3 in Ha as (a0 & a1 & a2 & ->). apply list3 in Hd as (d0 & d1 & d2 & ->).
  apply list3 in Hb as (b0 & b1 & b2 & ->).
  exists lo0, lo1, lo2, hi0, hi1, hi2, a0, a1, a2, d0, d1, d2, b0, b1, b2. split; [done|].
  unfold check_axes in Hc.
  destruct (check_axis _ 0) as [[]| |] eqn:C0; try done. rewrite bind_Ok in Hc. cbn [negb] in Hc.
  destruct (check_axis _ 1) as [[]| |] eqn:C1; try done. rewrite bind_Ok in Hc. cbn [negb] in Hc.
  split; [by eapply check_axis_ok; [..|exact C0]|]. split; [by eapply check_axis_ok; [..|exact C1]|].
  by eapply check_axis_ok; [..|exact Hc].
Qed.

Lemma clamp_zero lo hi accel decel : axis_ok lo hi accel decel -> clamp f64_zero lo hi = Ok f64_zero.
Proof.
  intros [Hlo Hhi Hr _ _]. unfold clamp, Monitor.clamp. rewrite Hr. cbn [negb require]. rewrite bind_Ok.
  unfold positive, negative in *. by rewrite Hlo, Hhi.
Qed.

(** ** Standing still *)

Definition velocity_of (m : message) : Twist := match m with TWIST t => t | TWIST_STAMPED t => twist t end.

Definition step_at (s : smoother) (i : nat) : f64 :=
  f64_div (SFopp (default f64_zero (max_decels_ (limits s) !! i))) (smoothing_frequency_ s).

(** The state in which nothing but the timer acts: an open loop without scaling, active, with a command. *)
Definition coasting (s : smoother) (x y z : f64) : Prop :=
  ready (limits s) (smoothing_frequency_ s) /\ open_loop_ s = true /\ scale_velocities_ s = false /\
  (exists p, smoothed_cmd_pub_ s = Some p /\ is_activated p = true) /\
  twist (last_cmd_ s) = planar x y z /\
  brakes (step_at s 0) x /\ brakes (step_at s 1) y /\ brakes (step_at s 2) z.

Definition at_rest (v : f64) : Prop := units64 v = 0.

Lemma deadband_rest k i v d : aget (deadband_velocities_ k) i = Ok d -> fin64 v = true ->
  exists v', deadband_axis k i v = Ok v' /\ (at_rest v -> f64_eq v' f64_zero = true).
Proof.
  unfold deadband_axis. intros -> Hv. rewrite bind_Ok. eexists. split; [done|]. intros Hz.
  destruct (f64_lt (SFabs v) d); [done|]. by apply zero_units.
Qed.

Section Braking.
Context `{Durations} `{Clocks}.

(** A period with the command to stand still. *)
Lemma smooth_brakes head h s x y z : coasting s x y z ->
  exists m x' y' z',
    smooth head (mk_stamped h zero_twist) s = Ok (Some m,
      set_last_cmd (mk_stamped head (planar x' y' z')) (set_command (mk_stamped h zero_twist) (set_stopped false s))) /\
    braked (step_at s 0) x x' /\ braked (step_at s 1) y y' /\ braked (step_at s 2) z z' /\
    (at_rest x' -> at_rest y' -> at_rest z' -> twist_eq (velocity_of m) zero_twist = true).
Proof.
  intros (Hr & Hopen & Hscale & (p & Hp & Hact) & Hlast & Bx & By & Bz).
  destruct (ready_axes _ _ Hr) as (lo0 & lo1 & lo2 & hi0 & hi1 & hi2 & a0 & a1 & a2 & d0 & d1 & d2 & b0 & b1 & b2 & Hk & A0 & A1 & A2).
  destruct Hr as (_ & _ & Hf). unfold step_at in *. rewrite Hk in *. cbn [max_decels_] in *.
  change (default f64_zero ([d0; d1; d2] !! 0%nat)) with d0 in *.
  change (default f64_zero ([d0; d1; d2] !! 1%nat)) with d1 in *.
  change (default f64_zero ([d0; d1; d2] !! 2%nat)) with d2 in *.
  set (k := mk_kinematics _ _ _ _ _) in *.
  destruct (brake_axis _ a0 d0 x (axis_accel _ _ _ _ A0) (axis_decel _ _ _ _ A0) Hf Bx) as (x' & Ex & Rx).
  destruct (brake_axis _ a1 d1 y (axis_accel _ _ _ _ A1) (axis_decel _ _ _ _ A1) Hf By) as (y' & Ey & Ry).
  destruct (brake_axis _ a2 d2 z (axis_accel _ _ _ _ A2) (axis_decel _ _ _ _ A2) Hf Bz) as (z' & Ez & Rz).
  destruct (deadband_rest k 0 x' b0 eq_refl (proj1 Rx)) as (ox & Eox & Zx).
  destruct (deadband_rest k 1 y' b1 eq_refl (proj1 Ry)) as (oy & Eoy & Zy).
  destruct (deadband_rest k 2 z' b2 eq_refl (proj1 Rz)) as (oz & Eoz & Zz).
  unfold smooth. rewrite Hopen, bind_Ok, Hk, Hp. cbn [twist header].
  assert (each_axis (clamp_axis k) zero_twist = Ok zero_twist) as ->.
  { unfold each_axis, clamp_axis. change (aget (min_velocities_ k) 0) with (Ok lo0).
    change (aget (min_velocities_ k) 1) with (Ok lo1). change (aget (min_velocities_ k) 2) with (Ok lo2).
    change (aget (max_velocities_ k) 0) with (Ok hi0). change (aget (max_velocities_ k) 1) with (Ok hi1).
    change (aget (max_velocities_ k) 2) with (Ok hi2). rewrite !bind_Ok.
    change (lin_x zero_twist) with f64_zero. change (lin_y zero_twist) with f64_zero.
    change (ang_z zero_twist) with f64_zero.
    rewrite (clamp_zero _ _ _ _ A0), (clamp_zero _ _ _ _ A1), (clamp_zero _ _ _ _ A2). done. }
  rewrite bind_Ok. unfold find_eta. rewrite Hscale, bind_Ok, Hlast.
  unfold move_axis. change (aget (max_accels_ k) 0) with (Ok a0). change (aget (max_accels_ k) 1) with (Ok a1).
  change (aget (max_accels_ k) 2) with (Ok a2). change (aget (max_decels_ k) 0) with (Ok d0).
  change (aget (max_decels_ k) 1) with (Ok d1). change (aget (max_decels_ k) 2) with (Ok d2).
  rewrite !bind_Ok. change (lin_x zero_twist) with f64_zero. change (lin_y zero_twist) with f64_zero.
  change (ang_z zero_twist) with f64_zero. change (lin_x (planar x y z)) with x.
  change (lin_y (planar x y z)) with y. change (ang_z (planar x y z)) with z.
  rewrite Ex, bind_Ok, Ey, bind_Ok, Ez, bind_Ok. unfold each_axis at 1.
  change (lin_x (planar x' y' z')) with x'. change (lin_y (planar x' y' z')) with y'.
  change (ang_z (planar x' y' z')) with z'.
  rewrite Eox, bind_Ok, Eoy, bind_Ok, Eoz, bind_Ok. unfold publish. rewrite Hact, !bind_Ok.
  eexists _, x', y', z'. split; [done|]. split; [done|]. split; [done|]. split; [done|].
  intros Rx0 Ry0 Rz0. assert (twist_eq (set_planar ox oy oz (planar x' y' z')) zero_twist = true) as Ht.
  { unfold twist_eq, all3, map2, set_planar, zero_twist, planar. cbn [linear angular fst snd].
    by rewrite (Zx Rx0), (Zy Ry0), (Zz Rz0). }
  by destruct (is_stamped_ p).
Qed.
End Braking.

(** ** The last periods *)

(** The calls of the timer at the given times. *)
Fixpoint timer_run `{Durations} `{Clocks} (times : list (Z * Z)) (s : smoother) : res (list (option message) * smoother) :=
  match times with
  | [] => Ok ([], s)
  | (now, later) :: times =>
      '(m, s) ← smootherTimer now later s;
      '(l, s) ← timer_run times s;
      Ok (m :: l, s)
  end.

(** The periods that a component needs to reach zero. *)
Definition ticks (step v : f64) : Z :=
  if decide (units64 v = 0) then 0 else 2 * Z.abs (units64 v) / units64 step + 1.

Lemma ticks_nonneg step v : brakes step v -> 0 <= ticks step v.
Proof.
  intros [_ [Hz|[_ Hb]]]; unfold ticks; destruct (decide _) as [|Hn]; try lia.
  assert (0 < units64 step) by lia. pose proof (Z.div_pos (2 * Z.abs (units64 v)) (units64 step) ltac:(lia) ltac:(lia)). lia.
Qed.

Lemma ticks_zero step v : brakes step v -> ticks step v <= 0 -> units64 v = 0.
Proof.
  intros [_ [Hz|[_ Hb]]]; unfold ticks; destruct (decide _) as [|Hn]; try lia.
  assert (0 < units64 step) by lia. pose proof (Z.div_pos (2 * Z.abs (units64 v)) (units64 step) ltac:(lia) ltac:(lia)). lia.
Qed.

Lemma ticks_braked step v v' : brakes step v -> braked step v v' ->
  brakes step v' /\ ticks step v' <= Z.max 0 (ticks step v - 1).
Proof.
  intros [Fv Hb] [Fv' Hd]. unfold brakes, ticks. destruct (decide (units64 v' = 0)) as [Hz|Hz].
  - split; [auto|lia].
  - destruct Hd as [|[Hs Hd]]; [done|]. destruct Hb as [|[Fs Hb]]; [lia|].
    rewrite decide_False by lia. split; [split; [done|right; split; [done|lia]]|].
    assert (2 * Z.abs (units64 v') / units64 step <= (2 * Z.abs (units64 v) - units64 step) / units64 step) as Hle
      by (apply Z.div_le_mono; lia).
    replace (2 * Z.abs (units64 v) - units64 step) with (2 * Z.abs (units64 v) + (-1) * units64 step) in Hle by lia.
    rewrite Z.div_add in Hle by lia. lia.
Qed.

Definition late `{Clocks} (s : smoother) (t : Z * Z) : Prop :=
  exists age, elapsed (fst t) (last_command_time_ s) = Returned age /\ velocity_timeout_ s < age.

Definition resting (s : smoother) : Prop := twist_eq (twist (last_cmd_ s)) zero_twist = true.

Lemma resting_planar s x y z : twist (last_cmd_ s) = planar x y z -> fin64 x = true -> fin64 y = true -> fin64 z = true ->
  resting s <-> at_rest x /\ at_rest y /\ at_rest z.
Proof.
  intros Ht Fx Fy Fz. unfold resting, twist_eq, all3, map2, at_rest. rewrite Ht. unfold zero_twist, planar.
  cbn [linear angular fst snd]. change (f64_eq f64_zero f64_zero) with true.
  rewrite !andb_true_iff, <- !zero_units by done. tauto.
Qed.

(** The last message, or else the last velocity. *)
Definition ends_at_rest (sent : list message) (s : smoother) : Prop :=
  match last sent with Some m => twist_eq (velocity_of m) zero_twist = true | None => resting s end.

Section Stopping.
Context `{Durations} `{Clocks}.

Lemma timer_late t s c : late s t -> command_ s = Some c ->
  smootherTimer (fst t) (snd t) s =
    if twist_eq (twist (last_cmd_ s)) zero_twist || stopped_ s then Ok (None, set_stopped true s)
    else smooth (header c) (mk_stamped (mk_header (stamp_of_time (snd t)) EmptyString) zero_twist) s.
Proof.
  intros (age & Ha & Hlt) Hc. unfold smootherTimer. rewrite Hc, Ha. cbn [of_outcome]. rewrite bind_Ok.
  by rewrite (Z.gtb_ltb age), (proj2 (Z.ltb_lt _ _) Hlt).
Qed.

(** Nothing is sent once the robot stands. *)
Lemma rest_run times : forall s c, command_ s = Some c -> resting s -> Forall (late s) times -> times <> [] ->
  timer_run times s = Ok (repeat None (List.length times), set_stopped true s).
Proof.
  induction times as [|t times IH]; intros s c Hc Hs Hl Hn; [done|]. apply Forall_cons in Hl as [Ht Hl].
  destruct t as [now later]. cbn [timer_run]. pose proof (timer_late (now, later) s c Ht Hc) as Et. cbn [fst snd] in Et. rewrite Et.
  unfold resting in Hs. rewrite Hs. cbn [orb]. rewrite bind_Ok.
  destruct (decide (times = [])) as [->|Hne]; [done|].
  by rewrite (IH (set_stopped true s) c Hc Hs Hl Hne).
Qed.

Lemma stopping_run n : forall times s x y z c, command_ s = Some c -> coasting s x y z -> stopped_ s = false ->
  ticks (step_at s 0) x <= Z.of_nat n -> ticks (step_at s 1) y <= Z.of_nat n -> ticks (step_at s 2) z <= Z.of_nat n ->
  Forall (late s) times -> (n < List.length times)%nat ->
  exists sent s', timer_run times s = Ok (map Some sent ++ repeat None (List.length times - List.length sent), s') /\
    (List.length sent <= n)%nat /\ stopped_ s' = true /\ resting s' /\ ends_at_rest sent s.
Proof.
  induction n as [|n IH]; intros times s x y z c Hc Hco Hst Tx Ty Tz Hl Hn.
  all: pose proof Hco as (_ & _ & _ & _ & Hlast & Bx & By & Bz);
    pose proof (resting_planar s x y z Hlast (proj1 Bx) (proj1 By) (proj1 Bz)) as Hrest.
  all: assert (times <> []) as Hne by (intros ->; cbn in Hn; lia).
  - assert (resting s) as Hs by (apply Hrest; split_and!; eapply ticks_zero; try done; lia).
    exists [], (set_stopped true s). rewrite (rest_run times s c) by done. rewrite Nat.sub_0_r. by split_and!; try done; cbn; lia.
  - destruct (twist_eq (twist (last_cmd_ s)) zero_twist) eqn:Hs.
    { exists [], (set_stopped true s). rewrite (rest_run times s c) by done. rewrite Nat.sub_0_r. by split_and!; try done; cbn; lia. }
    destruct times as [|[now later] times]; [done|]. apply Forall_cons in Hl as [Ht Hl]. cbn [timer_run].
    pose proof (timer_late (now, later) s c Ht Hc) as Et. cbn [fst snd] in Et. rewrite Et, Hs, Hst. cbn [orb].
    set (h := mk_header _ _).
    destruct (smooth_brakes (header c) h s x y z Hco) as (m & x' & y' & z' & -> & Rx & Ry & Rz & Hm).
    rewrite bind_Ok. set (s1 := set_last_cmd _ _).
    destruct (ticks_braked _ _ _ Bx Rx) as [Bx' Tx']. destruct (ticks_braked _ _ _ By Ry) as [By' Ty'].
    destruct (ticks_braked _ _ _ Bz Rz) as [Bz' Tz'].
    assert (coasting s1 x' y' z') as Hco1 by (destruct Hco as (C1 & C2 & C3 & C4 & _); by split_and!).
    destruct (IH times s1 x' y' z' (mk_stamped h zero_twist) eq_refl Hco1 eq_refl) as (sent & s' & Hrun & Hlen & Hst' & Hre & Hend).
    { change (step_at s1 0) with (step_at s 0). lia. }
    { change (step_at s1 1) with (step_at s 1). lia. }
    { change (step_at s1 2) with (step_at s 2). lia. }
    { done. }
    { cbn in Hn. lia. }
    exists (m :: sent), s'. rewrite Hrun, bind_Ok. cbn [map List.length app Nat.sub].
    split; [done|]. split; [lia|]. split; [done|]. split; [done|].
    unfold ends_at_rest in *. destruct sent as [|m1 sent].
    2: { rewrite last_cons. destruct (last (m1 :: sent)) eqn:E; [exact Hend|]. by apply last_None in E. }
    cbn [last] in *.
    apply (resting_planar s1 x' y' z' eq_refl (proj1 Rx) (proj1 Ry) (proj1 Rz)) in Hend as (? & ? & ?). by apply Hm.
Qed.

(** C26: when commands stop arriving, an open loop smoother with accepted limits and without scaling
    brings every component of the velocity to zero: it sends at most the given number of messages, the
    last of which is zero, and nothing after that. The changes of one period have to exceed the
    precision of the velocities. *)
Theorem smoother_stops times s x y z c : command_ s = Some c -> coasting s x y z -> stopped_ s = false ->
  Forall (late s) times ->
  Z.max (ticks (step_at s 0) x) (Z.max (ticks (step_at s 1) y) (ticks (step_at s 2) z)) < Z.of_nat (List.length times) ->
  exists sent s', timer_run times s = Ok (map Some sent ++ repeat None (List.length times - List.length sent), s') /\
    Z.of_nat (List.length sent) <= Z.max (ticks (step_at s 0) x) (Z.max (ticks (step_at s 1) y) (ticks (step_at s 2) z)) /\
    stopped_ s' = true /\ resting s' /\ ends_at_rest sent s.
Proof.
  intros Hc Hco Hst Hl Hn. pose proof Hco as (_ & _ & _ & _ & _ & Bx & _).
  pose proof (ticks_nonneg _ _ Bx) as Hn0. set (n := Z.max _ _) in *.
  destruct (stopping_run (Z.to_nat n) times s x y z c Hc Hco Hst) as (sent & s' & ? & ? & ? & ? & ?); try lia; [done|].
  exists sent, s'. split; [done|]. split; [lia|done].
Qed.
End Stopping.

(** ** Limits of velocity and acceleration *)

Abbreviation within64 := (within 53 1024).

(** Numbers whose sums cannot overflow. *)
Definition modest (x : f64) : Prop := within64 x 1000.

Lemma emin64 : SpecFloat.emin 53 1024 = -1074.
Proof. done. Qed.

Lemma nonneg_units s : fin64 s = true -> nonneg s -> 0 <= units64 s.
Proof.
  intros Hb Hn. destruct s as [s0|s0| |[] m e]; try done. cbn [sunits cond_Zopp fin] in *.
  destruct (bounded_mantissa 53 1024 ltac:(lia) ltac:(lia) _ _ Hb) as ([? ?] & _ & _).
  assert (0 < 2 ^ (e - SpecFloat.emin 53 1024)) by (apply Z.pow_pos_nonneg; lia). lia.
Qed.

Lemma lt_units a b : fin64 a = true -> fin64 b = true -> f64_lt a b = (units64 a <? units64 b).
Proof. by apply ltb_sunits. Qed.

Lemma le_units a b : fin64 a = true -> fin64 b = true -> f64_le a b = (units64 a <=? units64 b).
Proof. by apply leb_sunits. Qed.

Abbreviation sround64 := (sround 53).

Lemma sub_units x y : modest x -> modest y ->
  within64 (f64_sub x y) 1001 /\ units64 (f64_sub x y) = sround64 (units64 x - units64 y).
Proof.
  intros Hx Hy. unfold f64_sub, f64_prec, f64_emax. rewrite sub_add.
  destruct (opp_fin 53 1024 y) as [_ Uo].
  destruct (add_within 53 1024 ltac:(lia) ltac:(lia) x (SFopp y) 1000) as [Hw Hu];
    [done|by apply within_opp|rewrite emin64; lia|]. split; [done|]. by rewrite Hu, Uo.
Qed.

Lemma sub_modest x y : modest x -> modest y -> within64 (f64_sub x y) 1001.
Proof. intros Hx Hy. by apply sub_units. Qed.

(** The scale factor lies between zero and one. *)
Definition ratio (eta : f64) : Prop := between64 eta 0.

Lemma one_ratio : ratio one.
Proof. split; [done|]. by vm_compute. Qed.

Lemma div_signs x y : SFdiv 53 1024 (SFopp x) y = SFdiv 53 1024 x (SFopp y).
Proof. by destruct x as [[]|[]| |[] m e], y as [[]|[]| |[] m' e']. Qed.

Lemma eta_ratio frequency v_curr v_cmd accel decel s :
  v_component frequency v_curr v_cmd accel decel = (SFopp s, s) -> fin64 s = true -> nonneg s ->
  modest v_curr -> modest v_cmd -> let eta := findEtaConstraint frequency v_curr v_cmd accel decel in
  f64_lt f64_zero eta = true -> ratio eta.
Proof.
  intros Hv Hs Ns Hc Ht. unfold findEtaConstraint. rewrite Hv. cbv zeta.
  destruct (sub_modest v_cmd v_curr Ht Hc) as [Fd _]. set (dv := f64_sub v_cmd v_curr) in *.
  pose proof (nonneg_units s Hs Ns) as Us. destruct (opp_fin 53 1024 s) as [Fo Uo]. rewrite Hs in Fo.
  rewrite (lt_units s dv), (lt_units dv (SFopp s)), Uo by done.
  destruct (Z.ltb_spec (units64 s) (units64 dv)) as [Hlt|_].
  - intros _. unfold ratio, f64_div, f64_prec, f64_emax.
    apply (div_le 53 1024 ltac:(lia) ltac:(lia)); [done|done|lia|lia].
  - destruct (Z.ltb_spec (units64 dv) (- units64 s)) as [Hlt|_]; [|by vm_compute].
    intros _. unfold ratio, f64_div, f64_prec, f64_emax. rewrite div_signs.
    destruct (opp_fin 53 1024 dv) as [Fo' Uo']. rewrite Fd in Fo'.
    apply (div_le 53 1024 ltac:(lia) ltac:(lia)); [done|done|lia|lia].
Qed.

Lemma clamp_le v lo hi r : clamp v lo hi = Ok r -> fin64 v = true -> fin64 lo = true -> fin64 hi = true ->
  fin64 r = true /\ units64 lo <= units64 r <= units64 hi.
Proof.
  unfold clamp, Monitor.clamp. rewrite bind_ok. intros (u & Hq & [= <-]) Fv Fl Fh.
  apply require_ok, negb_true_iff in Hq. unfold f64_lt in *. rewrite !(ltb_sunits 53 1024) in * by (lia || done).
  apply Z.ltb_ge in Hq. destruct (Z.ltb_spec (units64 v) (units64 lo)); [split; [done|lia]|].
  destruct (Z.ltb_spec (units64 hi) (units64 v)); (split; [done|lia]).
Qed.

(** A difference that is scaled and bounded keeps its sign, and is no larger. *)
Lemma bounded_part eta dv s d : ratio eta -> fin64 dv = true -> fin64 s = true -> 0 <= units64 s ->
  clamp (f64_mul eta dv) (SFopp s) s = Ok d ->
  fin64 d = true /\ - units64 s <= units64 d <= units64 s /\
  (0 <= units64 dv -> 0 <= units64 d <= units64 dv) /\ (units64 dv <= 0 -> units64 dv <= units64 d <= 0).
Proof.
  intros He Fd Fs Us Hd.
  destruct (opp_fin 53 1024 s) as [Fo Uo]. rewrite Fs in Fo.
  assert (fin64 (f64_mul eta dv) = true /\ (0 <= units64 dv -> 0 <= units64 (f64_mul eta dv) <= units64 dv) /\
    (units64 dv <= 0 -> units64 dv <= units64 (f64_mul eta dv) <= 0)) as (Fm & Hpos & Hneg).
  { destruct (opp_fin 53 1024 dv) as [Fo' Uo']. rewrite Fd in Fo'.
    assert (f64_mul eta dv = SFopp (f64_mul eta (SFopp dv))) as Em.
    { unfold f64_mul. rewrite <- mul_opp. destruct eta as [[]|[]| |[]], dv as [[]|[]| |[]]; done. }
    destruct (Z.le_ge_cases 0 (units64 dv)) as [Hs|Hs].
    - destruct (mul_shrinks 53 1024 ltac:(lia) ltac:(lia) eta dv He Fd Hs) as [Fm Um].
      change (SFmul 53 1024 eta dv) with (f64_mul eta dv) in *. split; [done|]. lia.
    - destruct (mul_shrinks 53 1024 ltac:(lia) ltac:(lia) eta (SFopp dv) He Fo') as [Fm Um]; [lia|].
      change (SFmul 53 1024 eta (SFopp dv)) with (f64_mul eta (SFopp dv)) in *.
      destruct (opp_fin 53 1024 (f64_mul eta (SFopp dv))) as [F2 U2]. rewrite Em, F2, U2. split; [done|]. lia. }
  unfold clamp in Hd. rewrite bind_ok in Hd. destruct Hd as (u & _ & [= <-]).
  destruct (clamp_units _ s Fm Fs Us) as [Fc Uc]. rewrite Uc. split; [done|]. lia.
Qed.

(** A component after one step: between its current value and the one that the whole difference gives. *)
Definition towards (cur tgt new : f64) : Prop :=
  let full := f64_add cur (f64_sub tgt cur) in
  (f64_le cur tgt = true -> f64_le cur new = true /\ f64_le new full = true) /\
  (f64_le tgt cur = true -> f64_le full new = true /\ f64_le new cur = true).

(** One component moves by at most the step, towards its target. *)
Lemma apply_within frequency v_curr v_cmd accel decel eta s r :
  v_component frequency v_curr v_cmd accel decel = (SFopp s, s) -> modest s -> nonneg s -> modest v_curr -> modest v_cmd ->
  ratio eta -> applyConstraints frequency v_curr v_cmd accel decel eta = Ok r ->
  f64_le (f64_sub v_curr s) r = true /\ f64_le r (f64_add v_curr s) = true /\ towards v_curr v_cmd r.
Proof.
  intros Hv Hs Ns Hc Ht He. unfold applyConstraints. rewrite Hv, bind_ok. intros (d & Hd & [= <-]).
  destruct (sub_units v_cmd v_curr Ht Hc) as [[Fdv Wdv] Udv].
  destruct (bounded_part eta _ s d He Fdv (proj1 Hs) (nonneg_units s (proj1 Hs) Ns) Hd) as (Fd & Ud & Hpos & Hneg).
  pose proof (within_opp _ _ _ _ Hs) as Ho. destruct (opp_fin 53 1024 s) as [_ Uo].
  assert (modest d) as Hdm by (split; [done|]; destruct Hs as [_ Hs]; lia).
  assert (forall x, modest x -> within64 x 1001) as Hmore.
  { intros x [Fx Hx]. split; [done|]. rewrite emin64 in *. etrans; [exact Hx|]. by apply Z.pow_le_mono_r. }
  assert (forall x, within64 x 1001 -> fin64 (f64_add v_curr x) = true /\
    units64 (f64_add v_curr x) = sround64 (units64 v_curr + units64 x)) as Hadd.
  { intros x Hx. destruct (add_within 53 1024 ltac:(lia) ltac:(lia) v_curr x 1001 (Hmore _ Hc) Hx) as [[F0 _] U0];
      [rewrite emin64; lia|by split]. }
  pose proof (sround_fin 53 1024 ltac:(lia) ltac:(lia) v_curr (proj1 Hc)) as Hround.
  destruct (Hadd d (Hmore d Hdm)) as [F1 U1]. destruct (Hadd s (Hmore s Hs)) as [F2 U2].
  destruct (Hadd (SFopp s) (Hmore _ Ho)) as [F3 U3]. rewrite Uo in U3.
  destruct (Hadd (f64_sub v_cmd v_curr) (conj Fdv Wdv)) as [F4 U4].
  assert (f64_sub v_curr s = f64_add v_curr (SFopp s)) as -> by (unfold f64_sub, f64_add, f64_prec, f64_emax; by rewrite sub_add).
  assert (forall a b, a <= b -> sround64 a <= sround64 b) as Hmono by (intros; by apply sround_mono).
  assert (sround64 0 = 0) as H0 by done.
  unfold towards. rewrite !le_units, !Z.leb_le by (done || apply Hc || apply Ht). rewrite U1, U2, U3, U4.
  split; [apply Hmono; lia|]. split; [apply Hmono; lia|].
  split; intros Hle.
  - assert (0 <= units64 (f64_sub v_cmd v_curr)) as Hs0 by (rewrite Udv, <- H0; apply Hmono; lia).
    specialize (Hpos Hs0). split; [rewrite <- Hround at 1|]; apply Hmono; lia.
  - assert (units64 (f64_sub v_cmd v_curr) <= 0) as Hs0 by (rewrite Udv, <- H0; apply Hmono; lia).
    specialize (Hneg Hs0). split; [|rewrite <- Hround at 2]; apply Hmono; lia.
Qed.
Definition limit (l : list f64) (i : nat) : f64 := default f64_zero (l !! i).

(** The largest change of a component in one period. *)
Definition change_at (s : smoother) (i : nat) (cur tgt : f64) : f64 :=
  if accelerating cur tgt then f64_div (limit (max_accels_ (limits s)) i) (smoothing_frequency_ s) else step_at s i.

(** The whole difference to the target, or the step where that is more. *)
Definition full_step (change cur tgt : f64) : f64 :=
  f64_add cur (Monitor.clamp (f64_sub tgt cur) (SFopp change) change).

(** A component of the command, of the target, of the new velocity and of what is published. *)
Definition obeys (s : smoother) (i : nat) (cur v tgt new out : f64) : Prop :=
  let lo := limit (min_velocities_ (limits s)) i in
  let hi := limit (max_velocities_ (limits s)) i in
  let change := change_at s i cur tgt in
  tgt = Monitor.clamp v lo hi /\ f64_le lo tgt = true /\ f64_le tgt hi = true /\
  f64_le (f64_sub cur change) new = true /\ f64_le new (f64_add cur change) = true /\ towards cur tgt new /\
  (scale_velocities_ s = false -> new = full_step change cur tgt) /\
  out = if f64_lt (SFabs new) (limit (deadband_velocities_ (limits s)) i) then f64_zero else new.

Definition modest_axis (s : smoother) (i : nat) (cur : f64) : Prop :=
  modest (limit (min_velocities_ (limits s)) i) /\ modest (limit (max_velocities_ (limits s)) i) /\
  modest (f64_div (limit (max_accels_ (limits s)) i) (smoothing_frequency_ s)) /\ modest (step_at s i) /\ modest cur.

Lemma aget_limit l i x : aget l (Z.of_nat i) = Ok x -> limit l i = x.
Proof. rewrite aget_ok, Nat2Z.id. intros [_ Hx]. unfold limit. by rewrite Hx. Qed.

Lemma ready_step s i cur tgt : ready (limits s) (smoothing_frequency_ s) -> (i < 3)%nat -> nonneg (change_at s i cur tgt).
Proof.
  intros Hr Hi. destruct (ready_axes _ _ Hr) as (? & ? & ? & ? & ? & ? & a0 & a1 & a2 & d0 & d1 & d2 & ? & ? & ? & Hk & A0 & A1 & A2).
  destruct Hr as (_ & _ & Hf). unfold change_at, step_at. rewrite Hk. cbn [max_accels_ max_decels_].
  destruct A0 as [_ _ _ ? D0], A1 as [_ _ _ ? D1], A2 as [_ _ _ ? D2].
  apply positive_nonneg in D0, D1, D2.
  destruct (accelerating cur tgt); apply div_nonneg; try done; by destruct i as [|[|[|]]]; try lia.
Qed.

Lemma modest_change s i cur tgt : modest_axis s i cur -> modest (change_at s i cur tgt).
Proof. intros (_ & _ & ? & ? & _). unfold change_at. by destruct (accelerating cur tgt). Qed.

Lemma component_change s i cur tgt :
  v_component (smoothing_frequency_ s) cur tgt (limit (max_accels_ (limits s)) i) (limit (max_decels_ (limits s)) i) =
    (SFopp (change_at s i cur tgt), change_at s i cur tgt).
Proof.
  destruct (component_bounds (smoothing_frequency_ s) cur tgt (limit (max_accels_ (limits s)) i)
    (limit (max_decels_ (limits s)) i)) as (x & -> & ->). done.
Qed.

(** A target within the limits is modest. *)
Lemma target_modest s i cur v tgt : modest_axis s i cur -> fin64 v = true -> clamp_axis (limits s) (Z.of_nat i) v = Ok tgt ->
  modest tgt /\ tgt = Monitor.clamp v (limit (min_velocities_ (limits s)) i) (limit (max_velocities_ (limits s)) i) /\
  f64_le (limit (min_velocities_ (limits s)) i) tgt = true /\
  f64_le tgt (limit (max_velocities_ (limits s)) i) = true.
Proof.
  intros (Hlo & Hhi & _) Fv. unfold clamp_axis. rewrite bind_ok. intros (lo & Elo & Ht). rewrite bind_ok in Ht.
  destruct Ht as (hi & Ehi & Ht). apply aget_limit in Elo as <-, Ehi as <-.
  destruct (clamp_le _ _ _ _ Ht Fv (proj1 Hlo) (proj1 Hhi)) as [Ft Ut].
  unfold f64_le. rewrite !(leb_sunits 53 1024) by (lia || done || apply Hlo || apply Hhi). rewrite !Z.leb_le.
  split; [split; [done|]; destruct Hlo as [_ Hlo], Hhi as [_ Hhi]; lia|].
  split; [|lia]. unfold clamp in Ht. rewrite bind_ok in Ht. by destruct Ht as (u & _ & [= <-]).
Qed.

(** Without scaling the change is the whole difference, or the step. *)
Lemma apply_full frequency v_curr v_cmd accel decel s r :
  v_component frequency v_curr v_cmd accel decel = (SFopp s, s) -> modest v_curr -> modest v_cmd ->
  applyConstraints frequency v_curr v_cmd accel decel one = Ok r -> r = full_step s v_curr v_cmd.
Proof.
  intros Hv Hc Ht. unfold applyConstraints. rewrite Hv, bind_ok. intros (d & Hd & [= <-]).
  rewrite one_exact in Hd by (by apply (sub_modest v_cmd v_curr)).
  unfold clamp in Hd. rewrite bind_ok in Hd. by destruct Hd as (u & _ & [= <-]).
Qed.

Lemma scale_ratio s i cur tgt eta eta' : ready (limits s) (smoothing_frequency_ s) -> (i < 3)%nat -> modest_axis s i cur -> modest tgt ->
  ratio eta -> scale_axis (smoothing_frequency_ s) (limits s) (Z.of_nat i) cur tgt eta = Ok eta' -> ratio eta'.
Proof.
  intros Hr Hi Hm Ht He. unfold scale_axis. rewrite bind_ok. intros (a & Ea & H'). rewrite bind_ok in H'.
  destruct H' as (d & Ed & [= <-]). apply aget_limit in Ea as <-, Ed as <-.
  destruct (f64_lt f64_zero _ && _) eqn:Hb; [|done]. apply andb_true_iff in Hb as [Hpos _].
  pose proof (component_change s i cur tgt) as Hc.
  pose proof (modest_change s i cur tgt Hm) as [Fc _]. destruct Hm as (_ & _ & _ & _ & Hcur).
  by apply (eta_ratio _ _ _ _ _ _ Hc Fc (ready_step s i cur tgt Hr Hi) Hcur Ht).
Qed.

Lemma axis_obeys s i cur v tgt eta new out : ready (limits s) (smoothing_frequency_ s) -> (i < 3)%nat ->
  modest_axis s i cur -> fin64 v = true -> clamp_axis (limits s) (Z.of_nat i) v = Ok tgt ->
  ratio eta -> (scale_velocities_ s = false -> eta = one) ->
  move_axis (smoothing_frequency_ s) (limits s) (Z.of_nat i) cur tgt eta = Ok new ->
  deadband_axis (limits s) (Z.of_nat i) new = Ok out -> obeys s i cur v tgt new out.
Proof.
  intros Hr Hi Hm Fv Hc He H1 Hmove Hdead. destruct (target_modest s i cur v tgt Hm Fv Hc) as (Ht & Htgt & Hlo & Hhi).
  unfold move_axis in Hmove. rewrite bind_ok in Hmove. destruct Hmove as (a & Ea & Hmove).
  rewrite bind_ok in Hmove. destruct Hmove as (d & Ed & Hmove). apply aget_limit in Ea as <-, Ed as <-.
  pose proof (modest_change s i cur tgt Hm) as Hch. pose proof Hm as (_ & _ & _ & _ & Hcur).
  pose proof (component_change s i cur tgt) as Hcomp.
  destruct (apply_within _ _ _ _ _ _ _ _ Hcomp Hch (ready_step s i cur tgt Hr Hi) Hcur Ht He Hmove) as (Hlow & Hup & Hto).
  unfold deadband_axis in Hdead. rewrite bind_ok in Hdead. destruct Hdead as (b & Eb & [= <-]).
  apply aget_limit in Eb as <-. unfold obeys. cbv zeta. split_and!; try done.
  intros Hs. rewrite (H1 Hs) in Hmove. by apply (apply_full _ _ _ _ _ _ _ Hcomp Hcur Ht).
Qed.

Section Limits.
Context `{Durations} `{Clocks}.

(** The velocity the smoother starts from. *)
Definition current (s : smoother) : Twist :=
  if open_loop_ s then twist (last_cmd_ s) else
  match odom_smoother_ s with Some o => twist (getTwistStamped o) | None => zero_twist end.

Definition fin_planar (t : Twist) : Prop := fin64 (lin_x t) = true /\ fin64 (lin_y t) = true /\ fin64 (ang_z t) = true.

(** After a command [v]. *)
Definition followed (s : smoother) (v : Twist) (head : Header) (m : message) (s' : smoother) : Prop :=
  exists h tgt new, command_ s' = Some (mk_stamped h tgt) /\ last_cmd_ s' = mk_stamped head new /\ stopped_ s' = false /\
    obeys s 0 (lin_x (current s)) (lin_x v) (lin_x tgt) (lin_x new) (lin_x (velocity_of m)) /\
    obeys s 1 (lin_y (current s)) (lin_y v) (lin_y tgt) (lin_y new) (lin_y (velocity_of m)) /\
    obeys s 2 (ang_z (current s)) (ang_z v) (ang_z tgt) (ang_z new) (ang_z (velocity_of m)).

Lemma find_eta_ratio s tgt eta : ready (limits s) (smoothing_frequency_ s) ->
  modest_axis s 0 (lin_x (current s)) -> modest_axis s 1 (lin_y (current s)) -> modest_axis s 2 (ang_z (current s)) ->
  modest (lin_x tgt) -> modest (lin_y tgt) -> modest (ang_z tgt) ->
  find_eta s (current s) tgt = Ok eta -> ratio eta.
Proof.
  intros Hr M0 M1 M2 T0 T1 T2. unfold find_eta. destruct (scale_velocities_ s); [|intros [= <-]; apply one_ratio].
  cbv zeta. rewrite bind_ok. intros (e0 & E0 & He). rewrite bind_ok in He. destruct He as (e1 & E1 & E2).
  apply (scale_ratio s 0 _ _ _ _ Hr ltac:(lia) M0 T0 one_ratio) in E0.
  apply (scale_ratio s 1 _ _ _ _ Hr ltac:(lia) M1 T1 E0) in E1.
  by apply (scale_ratio s 2 _ _ _ _ Hr ltac:(lia) M2 T2 E1) in E2.
Qed.

Lemma smooth_followed head c s m s' : ready (limits s) (smoothing_frequency_ s) -> fin_planar (twist c) ->
  modest_axis s 0 (lin_x (current s)) -> modest_axis s 1 (lin_y (current s)) -> modest_axis s 2 (ang_z (current s)) ->
  smooth head c s = Ok (Some m, s') -> followed s (twist c) head m s'.
Proof.
  intros Hr (F0 & F1 & F2) M0 M1 M2. unfold smooth. rewrite bind_ok. intros (cur & Hcur & Hs).
  assert (cur = current s) as ->.
  { unfold current. destruct (open_loop_ s); [by injection Hcur|].
    destruct (odom_smoother_ s); [by injection Hcur|done]. }
  unfold each_axis in Hs. res_inv. cbn [twist] in *.
  repeat match goal with H : context [lin_x (planar ?x ?y ?z)] |- _ => change (lin_x (planar x y z)) with x in H
    | H : context [lin_y (planar ?x ?y ?z)] |- _ => change (lin_y (planar x y z)) with y in H
    | H : context [ang_z (planar ?x ?y ?z)] |- _ => change (ang_z (planar x y z)) with z in H
    | H : context [lin_x (set_planar ?x ?y ?z ?t)] |- _ => change (lin_x (set_planar x y z t)) with x in H
    | H : context [lin_y (set_planar ?x ?y ?z ?t)] |- _ => change (lin_y (set_planar x y z t)) with y in H
    | H : context [ang_z (set_planar ?x ?y ?z ?t)] |- _ => change (ang_z (set_planar x y z t)) with z in H end.
  repeat match goal with H : clamp_axis _ 0 _ = Ok ?t |- _ => rename H into Cx; rename t into tx; revert Cx
    | H : clamp_axis _ 1 _ = Ok ?t |- _ => rename H into Cy; rename t into ty; revert Cy
    | H : clamp_axis _ 2 _ = Ok ?t |- _ => rename H into Cz; rename t into tz; revert Cz
    | H : find_eta _ _ _ = Ok ?e |- _ => rename H into He; rename e into eta; revert He
    | H : move_axis _ _ 0 _ _ _ = Ok ?n |- _ => rename H into Mx; rename n into nx; revert Mx
    | H : move_axis _ _ 1 _ _ _ = Ok ?n |- _ => rename H into My; rename n into ny; revert My
    | H : move_axis _ _ 2 _ _ _ = Ok ?n |- _ => rename H into Mz; rename n into nz; revert Mz
    | H : deadband_axis _ 0 _ = Ok ?o |- _ => rename H into Dx; rename o into ox; revert Dx
    | H : deadband_axis _ 1 _ = Ok ?o |- _ => rename H into Dy; rename o into oy; revert Dy
    | H : deadband_axis _ 2 _ = Ok ?o |- _ => rename H into Dz; rename o into oz; revert Dz
    | H : publish _ _ = _ |- _ => rename H into Hp; revert Hp end.
  intros.
  pose proof (target_modest s 0 _ _ _ M0 F0 Cx) as [T0 _]. pose proof (target_modest s 1 _ _ _ M1 F1 Cy) as [T1 _].
  pose proof (target_modest s 2 _ _ _ M2 F2 Cz) as [T2 _].
  pose proof (find_eta_ratio s (set_planar tx ty tz (twist c)) eta Hr M0 M1 M2 T0 T1 T2 He) as Re.
  assert (scale_velocities_ s = false -> eta = one) as R1.
  { intros Hsc. unfold find_eta in He. rewrite Hsc in He. by injection He. }
  assert (velocity_of m = set_planar ox oy oz (planar nx ny nz)) as Hm.
  { unfold publish in Hp. destruct (smoothed_cmd_pub_ s) as [[[] []]|]; try done; by injection Hp as <-. }
  exists (header c), (set_planar tx ty tz (twist c)), (planar nx ny nz).
  split; [done|]. split; [done|]. split; [done|]. rewrite Hm. split; [|split].
  - exact (axis_obeys s 0 _ _ tx eta nx ox Hr ltac:(lia) M0 F0 Cx Re R1 Mx Dx).
  - exact (axis_obeys s 1 _ _ ty eta ny oy Hr ltac:(lia) M1 F1 Cy Re R1 My Dy).
  - exact (axis_obeys s 2 _ _ tz eta nz oz Hr ltac:(lia) M2 F2 Cz Re R1 Mz Dz).
Qed.

(** C27: with accepted limits, each message the timer sends follows the command, or a command of zero when
    the last one is older than the timeout. In each component the target is the command cut to the limits
    of velocity. The velocity lies between the current one and the sum of the current one and the
    difference to the target (which is the target up to rounding), at most one step of acceleration or
    deceleration from the current one; without scaling it takes the whole difference, or the step where
    that is smaller. Components inside the deadband are sent as zero; target and velocity are kept
    for the next period. The limits, the steps and the current velocity are taken to be at most [2^1000]. *)
Theorem smoother_limits now later s c m s' :
  ready (limits s) (smoothing_frequency_ s) -> command_ s = Some c -> fin_planar (twist c) ->
  modest_axis s 0 (lin_x (current s)) -> modest_axis s 1 (lin_y (current s)) -> modest_axis s 2 (ang_z (current s)) ->
  smootherTimer now later s = Ok (Some m, s') ->
  exists age, elapsed now (last_command_time_ s) = Returned age /\
    followed s (if age >? velocity_timeout_ s then zero_twist else twist c) (header c) m s'.
Proof.
  intros Hr Hc Fc M0 M1 M2. unfold smootherTimer. rewrite Hc, bind_ok. intros (age & Hage & Hs).
  exists age. split; [by destruct (elapsed _ _); [injection Hage as ->|]|].
  destruct (age >? velocity_timeout_ s); [destruct (_ || _); [done|]|].
  - refine (smooth_followed _ _ _ _ _ Hr _ M0 M1 M2 Hs). by split_and!.
  - exact (smooth_followed _ _ _ _ _ Hr Fc M0 M1 M2 Hs).
Qed.
End Limits.

(** ** The history of odometry *)

Section History.
Context `{Durations} `{Clocks}.

(** Messages whose stamps are times in their order. *)
Definition time_of (m : Odometry) (t : Z) : Prop := time_of_stamp (stamp (odom_header m)) = Returned t.

Inductive ordered : list Odometry -> Prop :=
  | ordered_nil : ordered []
  | ordered_cons m t l : time_of m t -> Forall (fun m' => exists t', time_of m' t' /\ t <= t') l -> ordered l -> ordered (m :: l).

Definition differences : Prop := forall a b, elapsed a b = Returned (a - b).

(** No older than the duration at the time [now]. *)
Definition recent (now d : Z) (m : Odometry) : bool :=
  match time_of_stamp (stamp (odom_header m)) with Returned t => now - t <=? d | Raised _ => false end.

Lemma expire_recent now d l : differences -> ordered l -> forall c,
  exists c', expire now d l c = Ok (List.filter (recent now d) l, c').
Proof.
  intros Hd Ho. induction Ho as [|m t l Ht Hl Ho IH]; intros c; cbn [expire List.filter]; [by eexists|].
  unfold time_of in Ht. rewrite Ht. cbn [of_outcome]. rewrite bind_Ok, Hd. cbn [of_outcome]. rewrite bind_Ok.
  unfold recent at 1. rewrite Ht.
  rewrite Z.gtb_ltb. destruct (Z.ltb_spec d (now - t)) as [Hlt|Hle].
  - rewrite (proj2 (Z.leb_gt _ _)) by lia. apply IH.
  - rewrite (proj2 (Z.leb_le _ _)) by lia. exists c. do 2 f_equal. f_equal.
    clear IH Ho. induction Hl as [|m' l (t' & Ht' & Hle') Hl IH]; [done|]. cbn [List.filter].
    unfold recent at 1. unfold time_of in Ht'. rewrite Ht'. rewrite (proj2 (Z.leb_le _ _)) by lia. by rewrite <- IH.
Qed.

Fixpoint odom_run (msgs : list Odometry) (o : odom) : res odom :=
  match msgs with [] => Ok o | m :: msgs => o ← odomCallback m o; odom_run msgs o end.

Lemma ordered_snoc l m t : ordered (l ++ [m]) -> time_of m t ->
  ordered l /\ Forall (fun m' => exists t', time_of m' t' /\ t' <= t) (l ++ [m]).
Proof.
  intros Ho Ht. induction l as [|m0 l IH]; cbn [app] in *.
  - split; [constructor|]. apply Forall_singleton. by exists t.
  - inversion Ho as [|m1 t0 l1 Ht0 Hl Ho1]; subst. destruct (IH Ho1) as [Hol Hall].
    apply Forall_app in Hl as [Hl Hm]. split; [by econstructor|]. constructor; [|done].
    apply Forall_singleton in Hm as (t' & Ht' & Hle). unfold time_of in *.
    rewrite Ht in Ht'. injection Ht' as <-. by exists t0.
Qed.

Lemma filter_filter_recent l now now' d : now <= now' ->
  List.filter (recent now' d) (List.filter (recent now d) l) = List.filter (recent now' d) l.
Proof.
  intros Hle. induction l as [|m l IH]; [done|]. cbn [List.filter].
  destruct (recent now d m) eqn:E; cbn [List.filter]; [by rewrite IH|]. rewrite IH.
  assert (recent now' d m = false) as ->; [|done]. unfold recent in *.
  destruct (time_of_stamp _) as [t|]; [|done]. apply Z.leb_gt in E. apply Z.leb_gt. lia.
Qed.

Lemma ordered_filter (f : Odometry -> bool) l : ordered l -> ordered (List.filter f l).
Proof.
  induction 1 as [|m t l Ht Hl Ho IH]; [constructor|]. cbn [List.filter]. destruct (f m); [|done].
  econstructor; [done| |done]. apply List.Forall_forall. intros x Hx. apply filter_In in Hx as [Hx _].
  rewrite List.Forall_forall in Hl. by apply Hl.
Qed.

Lemma odom_run_snoc msgs m o : odom_run (msgs ++ [m]) o = odom_run msgs o ≫= odomCallback m.
Proof.
  revert o. induction msgs as [|m0 msgs IH]; intros o; cbn [odom_run app].
  - rewrite bind_Ok. destruct (odomCallback m o); done.
  - destruct (odomCallback m0 o) as [o'| |]; [|done..]. rewrite !bind_Ok. apply IH.
Qed.

Lemma callback_window d now m o : differences -> time_of m now -> ordered (odom_history_ o) ->
  odom_history_duration_ o = d ->
  exists o', odomCallback m o = Ok o' /\ odom_history_duration_ o' = d /\
    odom_history_ o' = List.filter (recent now d) (odom_history_ o) ++ [m] /\ header (vel_smooth_ o') = odom_header m.
Proof.
  intros Hd Hm Ho <-. unfold odomCallback.
  assert (exists c, (if bool_decide (odom_history_ o = []) then Ok ([], odom_cumulate_ o) else
    current_time ← of_outcome (time_of_stamp (stamp (odom_header m)));
    expire current_time (odom_history_duration_ o) (odom_history_ o) (odom_cumulate_ o)) =
    Ok (List.filter (recent now (odom_history_duration_ o)) (odom_history_ o), c)) as [c ->].
  { case_bool_decide as He; [rewrite He; by eexists|]. unfold time_of in Hm. rewrite Hm. cbn [of_outcome].
    rewrite bind_Ok. by apply expire_recent. }
  rewrite bind_Ok. unfold updateState. cbn [odom_history_]. rewrite last_snoc. by eexists.
Qed.

Lemma history_window d t : differences -> 0 <= from_seconds d -> forall msgs m, ordered (msgs ++ [m]) -> time_of m t ->
  exists o, odom_run (msgs ++ [m]) (OdomSmoother.new d) = Ok o /\ odom_history_duration_ o = from_seconds d /\
    odom_history_ o = List.filter (recent t (from_seconds d)) (msgs ++ [m]) /\
    header (vel_smooth_ o) = odom_header m.
Proof.
  intros Hd Hpos msgs. revert t. induction msgs as [|m0 msgs IH] using rev_ind; intros t m Ho Ht.
  all: assert (recent t (from_seconds d) m = true) as Hr
    by (unfold recent; unfold time_of in Ht; rewrite Ht; apply Z.leb_le; lia).
  - cbn [app odom_run]. destruct (callback_window (from_seconds d) t m (OdomSmoother.new d) Hd Ht) as (o & -> & ? & Hh & ?);
      [constructor|done|]. rewrite bind_Ok. exists o. split; [done|]. split; [done|]. split; [|done].
    rewrite Hh. cbn [List.filter OdomSmoother.new odom_history_]. by rewrite Hr.
  - destruct (ordered_snoc _ _ _ Ho Ht) as [Ho' Hall]. apply Forall_app in Hall as [Hall _].
    apply Forall_app in Hall as [_ Hm0]. apply Forall_singleton in Hm0 as (t0 & Ht0 & Hle).
    destruct (IH t0 m0 Ho' Ht0) as (o & Hrun & Hdur & Hh & _). rewrite odom_run_snoc, Hrun, bind_Ok.
    destruct (callback_window (from_seconds d) t m o Hd Ht) as (o' & -> & ? & Hh' & ?);
      [rewrite Hh; by apply ordered_filter|done|].
    exists o'. split; [done|]. split; [done|]. split; [|done].
    rewrite Hh', Hh, filter_filter_recent by done. rewrite (List.filter_app _ (msgs ++ [m0])). cbn [List.filter]. by rewrite Hr.
Qed.

(** A component that is no number spoils the sum for good. *)
Definition spoiled (o : odom) : Prop := lin_x (odom_cumulate_ o) = S754_nan.

Lemma expire_spoiled now d l : forall c h c', lin_x c = S754_nan -> expire now d l c = Ok (h, c') -> lin_x c' = S754_nan.
Proof.
  induction l as [|m l IH]; intros c h c' Hc; cbn [expire]; [by intros [= <- <-]|].
  rewrite bind_ok. intros (a & _ & Hx). rewrite bind_ok in Hx. destruct Hx as (b & _ & Hx).
  destruct (b >? d); [|by injection Hx as <- <-]. refine (IH _ h c' _ Hx).
  unfold twist_map2, lin_x, map2 in *. cbn [linear fst snd] in *. by rewrite Hc.
Qed.

Lemma odom_spoiled m o o' : odomCallback m o = Ok o' ->
  spoiled o \/ lin_x (odom_twist m) = S754_nan ->
  spoiled o' /\ lin_x (twist (getTwistStamped o')) = S754_nan.
Proof.
  intros Hm Hs. unfold odomCallback in Hm. rewrite bind_ok in Hm. destruct Hm as ([h c] & Hc & Hm).
  unfold updateState in Hm. cbn [odom_history_ odom_cumulate_ odom_history_duration_] in Hm. rewrite last_snoc in Hm.
  injection Hm as <-. unfold spoiled, getTwistStamped. cbn [odom_cumulate_ vel_smooth_ twist].
  assert (lin_x (twist_map2 f64_add c (odom_twist m)) = S754_nan) as Hn.
  { destruct Hs as [Hs|Hn].
    - assert (lin_x c = S754_nan) as Hcn.
      { destruct (bool_decide _); [by injection Hc as <- <-|]. rewrite bind_ok in Hc. destruct Hc as (now & _ & Hc).
        by apply expire_spoiled in Hc. }
      unfold twist_map2, lin_x, map2 in *. cbn [linear fst snd] in *. by rewrite Hcn.
    - unfold twist_map2, lin_x, map2 in *. cbn [linear fst snd] in *. rewrite Hn.
      by destruct (fst (fst (linear c))) as [[]|[]| |[]]. }
  split; [done|]. unfold twist_map2, lin_x, map2 in *. cbn [linear fst snd] in *. rewrite Hn. done.
Qed.
End History.

(** ** A concrete smoother *)

Definition ns_per_s : Z := 1000000000.

#[local] Instance plain_durations : Durations := {|
  from_seconds := fun v => match f64_trunc (f64_mul v (f64_of_Z ns_per_s)) with Some z => z | None => 0 end;
  seconds := fun z => f64_div (f64_of_Z z) (f64_of_Z ns_per_s) |}.

#[local] Instance plain_clocks : Clocks := {|
  time_of_stamp := fun t => if fst t <? 0 then Raised runtime_error else Returned (fst t * ns_per_s + snd t);
  stamp_of_time := fun t => (t / ns_per_s, t mod ns_per_s);
  elapsed := fun a b => Returned (a - b) |}.

#[local] Instance plain_timers : Timers := fun ms => if ms <? 0 then Raised invalid_argument else Returned tt.

Definition given (l : list (string * parameter)) : NodeParameters := fun name =>
  snd <$> List.find (fun p => String.eqb (fst p) name) l.

Definition tenths (z : Z) : f64 := f64_div (f64_of_Z z) (f64_of_Z 10).

(** Configured with the given parameters and activated. *)
Definition started (l : list (string * parameter)) : smoother :=
  snd (on_activate (snd (on_configure (H2 := given l) true new))).

(** A command at the time 0, and periods of 50 ms after it. *)
Definition commanded (v w : f64) (s : smoother) : smoother := snd (inputCommandCallback 0 (planar v f64_zero w) s).
Definition period_times (from : Z) (n : nat) : list (Z * Z) :=
  (fun i => let t := from + 50000000 * Z.of_nat i in (t, t)) <$> seq 0 n.
Definition after (times : list (Z * Z)) (s : smoother) : smoother :=
  match timer_run times s with Ok (_, s) => s | _ => s end.

(** Driving with 0.3 m/s and 0.5 rad/s after a second of commands. *)
Definition driving : smoother := after (period_times 0 20) (commanded (tenths 3) (tenths 5) (started [])).

Example driving_velocity : twist (last_cmd_ driving) = planar (tenths 3) f64_zero (tenths 5).
Proof. vm_compute. reflexivity. Qed.

Lemma smoother_stops_witness : exists sent s',
  timer_run (period_times 1050000000 40) driving = Ok (map Some sent ++ repeat None (40 - List.length sent), s') /\
  Z.of_nat (List.length sent) <= 7 /\ stopped_ s' = true /\ resting s' /\ ends_at_rest sent driving.
Proof.
  refine (smoother_stops (period_times 1050000000 40) driving (tenths 3) f64_zero (tenths 5)
    (mk_stamped no_header (planar (tenths 3) f64_zero (tenths 5))) _ _ _ _ _).
  - vm_compute. reflexivity.
  - split_and!; try (vm_compute; reflexivity); try (eexists; split; vm_compute; reflexivity).
    + split; [vm_compute; reflexivity|]. right. split; [vm_compute; reflexivity|]. vm_compute. discriminate.
    + split; [vm_compute; reflexivity|]. left. vm_compute. reflexivity.
    + split; [vm_compute; reflexivity|]. right. split; [vm_compute; reflexivity|]. vm_compute. discriminate.
  - vm_compute. reflexivity.
  - apply List.Forall_forall. intros t Ht. unfold period_times in Ht. apply in_map_iff in Ht as (i & <- & _).
    exists (1050000000 + 50000000 * Z.of_nat i). split; [|change (velocity_timeout_ driving) with 1000000000; lia].
    change (last_command_time_ driving) with 0. unfold elapsed, plain_clocks. by rewrite Z.sub_0_r.
  - vm_compute. reflexivity.
Defined.

Lemma smoother_limits_witness : exists m s', smootherTimer 60000000 60000000 (commanded (tenths 30) (tenths 5) driving) = Ok (Some m, s') /\
  followed (commanded (tenths 30) (tenths 5) driving) (planar (tenths 30) f64_zero (tenths 5)) no_header m s'.
Proof.
  eexists _, _. split; [vm_compute; reflexivity|].
  match goal with |- followed ?s ?v ?h ?m ?s' =>
    assert (exists age, elapsed 60000000 (last_command_time_ s) = Returned age /\
      followed s (if age >? velocity_timeout_ s then zero_twist else v) h m s') as (age & Hage & Hf) end.
  { apply (smoother_limits 60000000 60000000 (commanded (tenths 30) (tenths 5) driving)
      (mk_stamped no_header (planar (tenths 30) f64_zero (tenths 5)))).
    - split_and!; vm_compute; reflexivity.
    - vm_compute. reflexivity.
    - split_and!; vm_compute; reflexivity.
    - split_and!; (split; [vm_compute; reflexivity|vm_compute; discriminate]).
    - split_and!; (split; [vm_compute; reflexivity|vm_compute; discriminate]).
    - split_and!; (split; [vm_compute; reflexivity|vm_compute; discriminate]).
    - vm_compute. reflexivity. }
  assert (age = 60000000) as -> by (vm_compute in Hage; by injection Hage).
  exact Hf.
Defined.

(** ** Behaviours to know about *)

(** Two limits of acceleration instead of three are read past their end before the sizes are checked. *)
Example short_limits_undefined :
  fst (on_configure (H2 := given [("max_accel"%string, PARAMETER_DOUBLE_ARRAY [tenths 25; f64_zero])]) true new) = UB.
Proof. vm_compute. reflexivity. Qed.

(** A frequency of zero is accepted, and the period of the timer is the integer of an infinity. *)
Example no_frequency_undefined :
  let s := on_configure (H2 := given [("smoothing_frequency"%string, PARAMETER_DOUBLE f64_zero)]) true new in
  fst s = Ok true /\ fst (on_activate (snd s)) = UB.
Proof. vm_compute. split; reflexivity. Qed.

(** The period is cut to milliseconds, but the steps are those of the frequency: at 600 Hz the limit of 2.5
    is a step of 1/240 for each millisecond, an acceleration above 4. *)
Example truncated_period :
  let s := started [("smoothing_frequency"%string, PARAMETER_DOUBLE (f64_of_Z 600))] in
  timer_ s = Some 1 /\
  f64_lt (f64_of_Z 4) (f64_mul (f64_div (limit (max_accels_ (limits s)) 0) (smoothing_frequency_ s)) (f64_of_Z 1000)) = true.
Proof. vm_compute. split; reflexivity. Qed.

(** A rejected list of parameters leaves those that come before the rejected one in force. *)
Example rejected_but_applied :
  let r := dynamicParametersCallback [("max_velocity"%string, PARAMETER_DOUBLE_ARRAY [tenths 20; f64_zero; tenths 20]);
                                      ("min_velocity"%string, PARAMETER_DOUBLE_ARRAY [tenths 20; f64_zero; tenths 20])] (started []) in
  fst r = Ok false /\ max_velocities_ (limits (snd r)) = [tenths 20; f64_zero; tenths 20].
Proof. vm_compute. split; reflexivity. Qed.

(** A deceleration of zero is accepted, and then the robot does not stop. *)
Example no_deceleration_no_stop :
  let s := started [("max_decel"%string, PARAMETER_DOUBLE_ARRAY [f64_zero; f64_zero; tenths (-32)])] in
  let s := after (period_times 0 20) (commanded (tenths 3) (tenths 5) s) in
  twist (last_cmd_ (after (period_times 1050000000 200) s)) = planar (tenths 3) f64_zero f64_zero.
Proof. vm_compute. reflexivity. Qed.

(** In a closed loop, one odometry message with a NaN makes every later velocity a NaN. *)
Example nan_published :
  let nan_odometry := mk_odometry (mk_header (1, 0) EmptyString) (planar S754_nan f64_zero f64_zero) in
  let fresh := fun i => mk_odometry (mk_header (1 + i, 0) EmptyString) (planar (tenths 3) f64_zero f64_zero) in
  let s := started [("feedback"%string, PARAMETER_STRING "CLOSED_LOOP")] in
  let o := odom_run [nan_odometry; fresh 1; fresh 2; fresh 3] (OdomSmoother.new tenth) in
  match o with
  | Ok o =>
      List.length (odom_history_ o) = 1%nat /\
      match smootherTimer 50000000 50000000 (set_loop false (Some o) (commanded (tenths 3) (tenths 5) s)) with
      | Ok (Some m, _) => lin_x (velocity_of m) = S754_nan
      | _ => False
      end
  | _ => False
  end.
Proof. vm_compute. split; reflexivity. Qed.
End VelocitySmootherLaws.
