(* ===== verification/MapIO.v ===== *)
(** * Maps in files ([nav2_map_server]: [map_io.cpp], [map_io.hpp], [map_mode.cpp], [map_mode.hpp])

    A map is saved as an image and a description that names it. The libraries for images
    ([GraphicsMagick]) and descriptions ([yaml-cpp]) are the classes [Magick] and [Yaml]; names of
    files and other text are lists of characters. *)

From stdpp Require Import base option list numbers strings.
From Stdlib Require Import ZArith Lia SpecFloat Ascii.
From S2P Require Import Prelude Float64 FloatOrder CString.

(** ** Libraries *)

(** [Magick::Color], as the code creates it: a grey level, transparent or not, or equal quantums. *)
Inductive color : Type :=
  | ColorGray (level : f64)
  | TransparentGray (level : f64)
  | GrayQuantum (q : Z).

(** What [Magick::Image] is given before it is written: the rows of pixels from the top, and whether the
    type has a channel of transparency. *)
Record picture : Type := mk_picture { columns : Z; rows : Z; matte_type : bool; pixels : list (list color) }.

(** What it gives after it was read: bytes of intensity and, with a transparency channel, of opacity. *)
Record raster : Type := mk_raster { raster_width : Z; raster_height : Z; intensity : list Z; matte : bool; alpha : list Z }.

Class Magick : Type := {
  image_content : Type;
  MaxRGB : Z;
  encode : picture -> list ascii -> outcome image_content;
  decode : image_content -> outcome raster;
  isWritable : list ascii -> outcome bool }.

(** A node below the root of a document: a scalar, a sequence of scalars, or something else. *)
Inductive node : Type :=
  | SCALAR (s : list ascii)
  | SEQUENCE (l : list (list ascii))
  | OTHER.

(** A document is a map from keys to nodes; reading anything else throws when a key is looked up. *)
Definition document : Type := list (list ascii * node).

Class Yaml : Type := {
  yaml_text : Type;
  emit : document -> yaml_text;
  parse : yaml_text -> outcome document;
  as_double : list ascii -> option f64;
  as_int : list ascii -> option Z;
  as_bool : list ascii -> option bool;
  emit_double : f64 -> list ascii;
  emit_int : Z -> list ascii }.

(** The planar rotations of [tf2]. *)
Record Quaternion : Type := mk_quaternion { qx : f64; qy : f64; qz : f64; qw : f64 }.
Class Yaws : Type := {
  orientationAroundZAxis : f64 -> Quaternion;
  getYaw : Quaternion -> f64 }.

Module MapMode.
Inductive mode : Type := Trinary | Scale | Raw.

#[export] Instance mode_eq_dec : EqDecision mode.
Proof. solve_decision. Defined.

Definition map_mode_to_string (m : mode) : text :=
  match m with Trinary => txt "trinary" | Scale => txt "scale" | Raw => txt "raw" end.

Definition tolower (c : ascii) : ascii :=
  if (65 <=? code c) && (code c <=? 90) then ascii_of_nat (Z.to_nat (code c + 32)) else c.

Definition map_mode_from_string (map_mode_name : text) : res mode :=
  let name := tolower <$> map_mode_name in
  if decide (name = txt "scale") then Ok Scale
  else if decide (name = txt "raw") then Ok Raw
  else if decide (name = txt "trinary") then Ok Trinary
  else Throw invalid_argument.
End MapMode.

Module MapIO.
Import MapMode.

(** ** Messages and parameters *)

Record MapInfo : Type := mk_info {
  map_load_time : Z; resolution : spec_float; width : Z; height : Z;
  position : f64 * f64 * f64; orientation : Quaternion }.

Record OccupancyGrid : Type := mk_grid { frame_id : text; stamp : Z; info : MapInfo; data : list Z }.

Record LoadParameters : Type := mk_load {
  image_file_name : text;
  load_resolution : f64;
  origin : list f64;
  load_free_thresh : f64;
  load_occupied_thresh : f64;
  load_mode : mode;
  negate : bool }.

Inductive LOAD_MAP_STATUS : Type := LOAD_MAP_SUCCESS | MAP_DOES_NOT_EXIST | INVALID_MAP_METADATA | INVALID_MAP_DATA.

Record SaveParameters : Type := mk_save {
  map_file_name : text;
  image_format : text;
  free_thresh : f64;
  occupied_thresh : f64;
  save_mode : mode }.

Definition OCC_GRID_UNKNOWN : Z := -1.
Definition OCC_GRID_FREE : Z := 0.
Definition OCC_GRID_OCCUPIED : Z := 100.

(** ** Files *)

Section Files.
Context `{Magick} `{Yaml}.

Inductive file : Type := TEXT (t : yaml_text) | IMAGE (c : image_content).

(** The files that can be read, and the names that can be opened for writing. *)
Record files : Type := mk_files { contents : text -> option file; can_write : text -> bool }.

Definition write_file (name : text) (f : file) (fs : files) : files :=
  mk_files (fun n => if decide (n = name) then Some f else contents fs n) (can_write fs).

(** [YAML::LoadFile] *)
Definition LoadFile (fs : files) (name : text) : res document :=
  match contents fs name with
  | Some (TEXT t) => of_outcome (parse t)
  | _ => Throw yaml_exception
  end.

(** [Magick::Image img(name)] *)
Definition read_image (fs : files) (name : text) : res raster :=
  match contents fs name with
  | Some (IMAGE c) => of_outcome (decode c)
  | _ => Throw image_exception
  end.
End Files.

(** ** Names of files *)

Definition SLASH : ascii := "/"%char.
Definition BACKSLASH : ascii := "\"%char.
Definition TILDE : ascii := "~"%char.

Fixpoint drop_until (p : ascii -> bool) (s : text) : text :=
  match s with c :: s' => if p c then s else drop_until p s' | [] => [] end.

Definition is_slash (c : ascii) : bool := bool_decide (c = SLASH).

(** [dirname] of the C library. The names of files are texts here: [./x] and [x] are different names, although the system opens
    one file for both. *)
Definition dirname (path : text) : text :=
  match drop_until (fun c => negb (is_slash c)) (reverse path) with
  | [] => match path with [] => txt "." | _ => txt "/" end
  | r =>
      match drop_until is_slash r with
      | [] => txt "."
      | r =>
          match drop_until (fun c => negb (is_slash c)) r with
          | [] => match r with [_; _] => txt "//" | _ => txt "/" end
          | r => reverse r
          end
      end
  end.

Definition expand_user_home_dir_if_needed (yaml_filename home_variable_value : text) : text :=
  match yaml_filename with
  | c :: d :: rest =>
      if negb (bool_decide (c = TILDE) && bool_decide (d = SLASH)) then yaml_filename
      else match home_variable_value with [] => yaml_filename | _ => home_variable_value ++ d :: rest end
  | _ => yaml_filename
  end.

Fixpoint take_until (p : ascii -> bool) (s : text) : text :=
  match s with c :: s' => if p c then [] else c :: take_until p s' | [] => [] end.

(** The part of a path after the last character of ["/\"]. *)
Definition is_separator (c : ascii) : bool := bool_decide (c = SLASH) || bool_decide (c = BACKSLASH).
Definition base_name (path : text) : text := reverse (take_until is_separator (reverse path)).

(** ** Numbers in text *)

Fixpoint fixed_digits (n : nat) (v : Z) : text :=
  match n with O => [] | S n => fixed_digits n (v / 10) ++ [digit_char (v mod 10)] end.

(** [std::fixed] with [std::setprecision]: the nearest decimal, ties to even. *)
Definition to_string_with_precision (value : f64) (precision : nat) : text :=
  let minus (s : bool) := if s then ["-"%char] else [] in
  let point v := print_nonneg (v / 10 ^ Z.of_nat precision) ++
                 match precision with O => [] | _ => "."%char :: fixed_digits precision v end in
  match value with
  | S754_nan => txt "nan"
  | S754_infinity s => minus s ++ txt "inf"
  | S754_zero s => minus s ++ point 0
  | S754_finite s m e =>
      minus s ++ point (if 0 <=? e then Z.pos m * 2 ^ e * 10 ^ Z.of_nat precision
                        else rne (Z.pos m * 10 ^ Z.of_nat precision) (- e))
  end.

(** [std::rint] *)
Definition rint : f64 -> f64 := f64_integer (fun s m e => cond_Zopp s (rne (Z.pos m) (- e))).

Definition hundred : f64 := f64_of_Z 100.
Definition one : f64 := f64_of_Z 1.
Definition f255 : f64 := f64_of_Z 255.
Definition hundredths (z : Z) : f64 := f64_div (f64_of_Z z) hundred.
Definition thousandths (z : Z) : f64 := f64_div (f64_of_Z z) (f64_of_Z 1000).

(** ** Reading *)

Section Reading.
Context `{Magick} `{Yaml} `{Yaws}.

(** [node[key].as<T>()] *)
Definition yaml_get_value {A} (view : node -> option A) (doc : document) (key : text) : res A :=
  match snd <$> List.find (fun p => bool_decide (fst p = key)) doc with
  | Some n => match view n with Some a => Ok a | None => Throw yaml_exception end
  | None => Throw yaml_exception
  end.

Definition view_scalar {A} (f : text -> option A) (n : node) : option A := match n with SCALAR s => f s | _ => None end.
Definition view_string : node -> option text := view_scalar Some.
Definition view_double : node -> option f64 := view_scalar as_double.
Definition view_doubles (n : node) : option (list f64) := match n with SEQUENCE l => mapM as_double l | _ => None end.

Definition read_mode (doc : document) : res mode :=
  match List.find (fun p => bool_decide (fst p = txt "mode")) doc with
  | None => Ok Trinary
  | Some _ => s ← yaml_get_value view_string doc (txt "mode"); map_mode_from_string s
  end.

(** An integer, or else a boolean. *)
Definition read_negate (doc : document) : res bool :=
  match yaml_get_value (view_scalar as_int) doc (txt "negate") with
  | Throw yaml_exception => yaml_get_value (view_scalar as_bool) doc (txt "negate")
  | r => z ← r; Ok (negb (z =? 0))
  end.

Definition loadMapYaml (home : text) (fs : files) (yaml_filename : text) : res LoadParameters :=
  doc ← LoadFile fs (expand_user_home_dir_if_needed yaml_filename home);
  name ← yaml_get_value view_string doc (txt "image");
  image_file_name ←
    match name with
    | [] => Throw yaml_exception
    | c :: _ => Ok (if is_slash c then name else dirname yaml_filename ++ SLASH :: name)
    end;
  resolution ← yaml_get_value view_double doc (txt "resolution");
  origin ← yaml_get_value view_doubles doc (txt "origin");
  _ ← (if negb (Z.of_nat (length origin) =? 3) then Throw yaml_exception else Ok tt);
  free ← yaml_get_value view_double doc (txt "free_thresh");
  occupied ← yaml_get_value view_double doc (txt "occupied_thresh");
  mode ← read_mode doc;
  negate ← read_negate doc;
  Ok (mk_load image_file_name resolution origin free occupied mode negate).

(** ** Cells *)

(** The darkness of a pixel, or its lightness in a negated image, in single precision. *)
Definition normalized (neg : bool) (b : Z) : spec_float :=
  let v := f32_div (f32_of_Z b) (f32_of_Z 255) in
  if neg then v else f32_sub (f32_of_Z 1) v.

(** The masks compare with the thresholds as [float]. *)
Definition is_occupied (p : LoadParameters) (v : spec_float) : bool := SFleb (f32_of_f64 (load_occupied_thresh p)) v.
Definition is_free (p : LoadParameters) (v : spec_float) : bool := SFleb v (f32_of_f64 (load_free_thresh p)).

Definition threshold_cell (p : LoadParameters) (v : spec_float) : Z :=
  if is_free p v then OCC_GRID_FREE else if is_occupied p v then OCC_GRID_OCCUPIED else OCC_GRID_UNKNOWN.

Definition in_between (p : LoadParameters) (v : spec_float) : bool :=
  SFltb (f32_of_f64 (load_free_thresh p)) v && SFltb v (f32_of_f64 (load_occupied_thresh p)).

(** The cast of a scaled value to a cell is undefined outside of its range. *)
Definition scaled_cell (p : LoadParameters) (v : spec_float) : res Z :=
  let range := f32_of_f64 (f64_sub (load_occupied_thresh p) (load_free_thresh p)) in
  let scaled := f32_mul (f32_div (f32_sub v (f32_of_f64 (load_free_thresh p))) range) (f32_of_Z 100) in
  f64_to_int 8 (f32_round scaled).

(** All pixels are scaled as soon as one lies in between. *)
Definition scale_cells (p : LoadParameters) (values : list spec_float) : res (list Z) :=
  if existsb (in_between p) values then
    scaled ← mapM (scaled_cell p) values;
    Ok (zip_with (fun v z => if in_between p v then z else threshold_cell p v) values scaled)
  else Ok (threshold_cell p <$> values).

(** Pixels that are not opaque are unknown. *)
Definition mask_alpha (r : raster) (cells : list Z) : list Z :=
  if matte r then zip_with (fun a c => if a <? 255 then OCC_GRID_UNKNOWN else c) (alpha r) cells else cells.

Definition raw_cell (b : Z) : Z :=
  let c := wraps 8 b in
  if (c <? OCC_GRID_FREE) || (c >? OCC_GRID_OCCUPIED) then OCC_GRID_UNKNOWN else c.

Definition map_cells (p : LoadParameters) (r : raster) : res (list Z) :=
  match load_mode p with
  | Trinary => Ok (mask_alpha r ((threshold_cell p ∘ normalized (negate p)) <$> intensity r))
  | Scale => cells ← scale_cells p (normalized (negate p) <$> intensity r); Ok (mask_alpha r cells)
  | Raw => Ok (raw_cell <$> intensity r)
  end.

(** A matrix as the list of its rows. *)
Fixpoint matrix (w : nat) (h : nat) (l : list Z) : list (list Z) :=
  match h with O => [] | S h => take w l :: matrix w h (drop w l) end.

(** The clock is read twice: [now k] is its [k]-th reading. *)
Definition loadMapFromFile (now : nat -> Z) (fs : files) (p : LoadParameters) : res OccupancyGrid :=
  img ← read_image fs (image_file_name p);
  let w := raster_width img in
  let h := raster_height img in
  x ← aget (origin p) 0;
  y ← aget (origin p) 1;
  yaw ← aget (origin p) 2;
  cells ← map_cells p img;
  let flipped := concat (reverse (matrix (Z.to_nat w) (Z.to_nat h) cells)) in
  _ ← require (bool_decide (w * h <= wrapu 32 (w * h)));
  let inf := mk_info (now 0%nat) (f32_of_f64 (load_resolution p)) (wrapu 32 w) (wrapu 32 h) (x, y, f64_zero)
               (orientationAroundZAxis yaw) in
  Ok (mk_grid (txt "map") (now 1%nat) inf flipped).

(** The second component is the grid that the caller passed, assigned on success only. *)
Definition loadMapFromYaml (home : text) (now : nat -> Z) (fs : files) (yaml_file : text) (map : OccupancyGrid) :
    res (LOAD_MAP_STATUS * OccupancyGrid) :=
  match yaml_file with
  | [] => Ok (MAP_DOES_NOT_EXIST, map)
  | _ =>
      match loadMapYaml home fs yaml_file with
      | UB => UB
      | Throw _ => Ok (INVALID_MAP_METADATA, map)
      | Ok p =>
          match loadMapFromFile now fs p with
          | UB => UB
          | Throw _ => Ok (INVALID_MAP_DATA, map)
          | Ok msg => Ok (LOAD_MAP_SUCCESS, msg)
          end
      end
  end.

(** ** Writing *)

Definition or_default (v : f64) (d : f64) : f64 := if f64_eq v f64_zero then d else v.

(** [now] is the time in seconds, for maps without a name. *)
Definition checkSaveParameters (now : f64) (p : SaveParameters) : res SaveParameters :=
  name ← (match map_file_name p with
          | [] => s ← f64_to_int 32 now; Ok (txt "map_" ++ print_int s)
          | n => Ok n
          end);
  let occupied := or_default (occupied_thresh p) (hundredths 65) in
  let free := or_default (free_thresh p) (hundredths 25) in
  if f64_lt one occupied then Throw runtime_error
  else if f64_lt free f64_zero then Throw runtime_error
  else if f64_le occupied free then Throw runtime_error
  else
    let format := match image_format p with
                  | [] => if decide (save_mode p = Scale) then txt "png" else txt "pgm"
                  | f => f
                  end in
    let format := tolower <$> format in
    format ← (match isWritable format with
              | Returned true => Ok format
              | Returned false => Ok (txt "png")
              | Raised image_exception => Ok (txt "png")
              | Raised e => Throw e
              end);
    Ok (mk_save name format free occupied (save_mode p)).

Definition unknown_cell (c : Z) : bool := (c <? 0) || (100 <? c).

(** The colour of a cell. *)
Definition pixel (m : mode) (free_thresh_int occupied_thresh_int c : Z) : res color :=
  match m with
  | Trinary =>
      Ok (ColorGray (f64_div (f64_of_Z (if unknown_cell c then 205
                                        else if c <=? free_thresh_int then 254
                                        else if occupied_thresh_int <=? c then 0 else 205)) f255))
  | Scale =>
      Ok (if unknown_cell c then TransparentGray (f64_div one (f64_of_Z 2))
          else ColorGray (f64_div (f64_sub hundred (f64_of_Z c)) hundred))
  | Raw =>
      if unknown_cell c then Ok (GrayQuantum MaxRGB)
      else q ← f64_to_uint 64 (f64_mul (f64_div (f64_of_Z c) f255) (f64_of_Z MaxRGB)); Ok (GrayQuantum q)
  end.

Fixpoint loop {A} (n : nat) (i : Z) (f : Z -> res A) : res (list A) :=
  match n with O => Ok [] | S n => a ← f i; l ← loop n (i + 1) f; Ok (a :: l) end.

Definition draw (m : mode) (free_thresh_int occupied_thresh_int : Z) (map : OccupancyGrid) : res picture :=
  let w := width (info map) in
  let h := height (info map) in
  rows ← loop (Z.to_nat h) 0 (fun y => loop (Z.to_nat w) 0 (fun x =>
           c ← aget (data map) (w * (h - y - 1) + x);
           pixel m free_thresh_int occupied_thresh_int c));
  Ok (mk_picture w h (bool_decide (m = Scale)) rows).

(** The description of a saved map. *)
Definition metadata (p : SaveParameters) (mapdatafile : text) (map : OccupancyGrid) : document :=
  let fixed v := to_string_with_precision v 3 in
  let '(x, y, _) := position (info map) in
  let thresholds := match save_mode p with
                    | Trinary => (emit_double (hundredths 65), emit_double (thousandths 196))
                    | _ => (fixed (occupied_thresh p), fixed (free_thresh p))
                    end in
  [(txt "image", SCALAR (base_name mapdatafile));
   (txt "mode", SCALAR (map_mode_to_string (save_mode p)));
   (txt "resolution", SCALAR (fixed (f64_of_f32 (resolution (info map)))));
   (txt "origin", SEQUENCE [fixed x; fixed y; emit_double (getYaw (orientation (info map)))]);
   (txt "negate", SCALAR (emit_int 0));
   (txt "occupied_thresh", SCALAR (fst thresholds));
   (txt "free_thresh", SCALAR (snd thresholds))].

(** An image that cannot be opened throws; a stream that cannot is ignored. *)
Definition tryWriteMapToFile (map : OccupancyGrid) (p : SaveParameters) (fs : files) : res files :=
  let mapdatafile := map_file_name p ++ "."%char :: image_format p in
  free ← f64_to_int 32 (rint (f64_mul (free_thresh p) hundred));
  occupied ← f64_to_int 32 (rint (f64_mul (occupied_thresh p) hundred));
  image ← draw (save_mode p) free occupied map;
  c ← of_outcome (encode image (image_format p));
  fs ← (if can_write fs mapdatafile then Ok (write_file mapdatafile (IMAGE c) fs) else Throw image_exception);
  let mapmetadatafile := map_file_name p ++ txt ".yaml" in
  Ok (if can_write fs mapmetadatafile
      then write_file mapmetadatafile (TEXT (emit (metadata p mapdatafile map))) fs else fs).

(** The result, and the files, which keep what was written before an exception. *)
Definition saveMapToFile (now : f64) (map : OccupancyGrid) (p : SaveParameters) (fs : files) : res (bool * files) :=
  match (p ← checkSaveParameters now p; tryWriteMapToFile map p fs) with
  | Ok fs => Ok (true, fs)
  | Throw _ => Ok (false, fs)
  | UB => UB
  end.
End Reading.
End MapIO.
