(* ===== verification/MapServers.v ===== *)
(** * The nodes of the map server ([nav2_map_server]: [map_server.cpp], [map_saver.cpp],
    [costmap_filter_info_server.cpp])

    The map server serves a map from a file, the saver writes one from a topic, and a third node
    announces filters of the costmap. A service call sees whether the node is active. *)

From stdpp Require Import base option list numbers strings.
From Stdlib Require Import ZArith Lia SpecFloat Ascii.
From S2P Require Import Prelude Float64 CString Parameters CollisionZones CollisionSources MapIO.

Module MapServer.
Import MapMode MapIO Parameters.

(** [Some b]: a publisher exists, and is active. *)
Record server : Type := mk_server {
  frame_id_ : text;
  msg_ : OccupancyGrid;
  map_available_ : bool;
  occ_pub_ : option bool;
  occ_service_ : bool;
  load_map_service_ : bool }.

Definition set_msg m (s : server) : server :=
  mk_server (frame_id_ s) m (map_available_ s) (occ_pub_ s) (occ_service_ s) (load_map_service_ s).
Definition set_frame f (s : server) : server :=
  mk_server f (msg_ s) (map_available_ s) (occ_pub_ s) (occ_service_ s) (load_map_service_ s).
Definition set_available b (s : server) : server :=
  mk_server (frame_id_ s) (msg_ s) b (occ_pub_ s) (occ_service_ s) (load_map_service_ s).
Definition set_endpoints p o l (s : server) : server :=
  mk_server (frame_id_ s) (msg_ s) (map_available_ s) p o l.

Definition no_quaternion : Quaternion := mk_quaternion f64_zero f64_zero f64_zero (f64_of_Z 1).
Definition no_grid : OccupancyGrid :=
  mk_grid [] 0 (mk_info 0 (f32_of_Z 0) 0 0 (f64_zero, f64_zero, f64_zero) no_quaternion) [].

Definition new : server := mk_server [] no_grid false None false false.

(** The response of [LoadMap]; the map is set on success only. *)
Inductive load_result : Type :=
  | RESULT_SUCCESS (map : OccupancyGrid)
  | RESULT_MAP_DOES_NOT_EXIST
  | RESULT_INVALID_MAP_DATA
  | RESULT_INVALID_MAP_METADATA
  | RESULT_UNDEFINED_FAILURE.

Section MapServer.
Context `{Magick} `{Yaml} `{Yaws} `{NodeParameters}.

(** The clock is read twice, after the two readings of the load. *)
Definition updateMsgHeader (now : nat -> Z) (s : server) : server :=
  let m := msg_ s in
  let i := info m in
  set_msg (mk_grid (frame_id_ s) (now 3%nat)
             (mk_info (now 2%nat) (resolution i) (width i) (height i) (position i) (orientation i)) (data m)) s.

Definition loadMapResponseFromYaml (home : text) (now : nat -> Z) (fs : files) (yaml_file : text) : ST server load_result :=
  s ← get;
  '(status, msg) ← query (fun s => loadMapFromYaml home now fs yaml_file (msg_ s));
  _ ← modify (set_msg msg);
  match status with
  | MAP_DOES_NOT_EXIST => mret RESULT_MAP_DOES_NOT_EXIST
  | INVALID_MAP_METADATA => mret RESULT_INVALID_MAP_METADATA
  | INVALID_MAP_DATA => mret RESULT_INVALID_MAP_DATA
  | LOAD_MAP_SUCCESS =>
      _ ← modify (fun s => set_available true (updateMsgHeader now s));
      s ← get;
      mret (RESULT_SUCCESS (msg_ s))
  end.

(** [occ_pub_->publish(msg_)]: what is published. *)
Definition publish : ST server (option OccupancyGrid) :=
  query (fun s => match occ_pub_ s with
                  | Some active => Ok (if (active : bool) then Some (msg_ s) else None)
                  | None => UB
                  end).

Definition loadMapCallback (active : bool) (home : text) (now : nat -> Z) (fs : files) (map_url : text) :
    ST server (load_result * option OccupancyGrid) :=
  if negb active then mret (RESULT_UNDEFINED_FAILURE, None) else
  r ← loadMapResponseFromYaml home now fs map_url;
  match r with
  | RESULT_SUCCESS _ => p ← publish; mret (r, p)
  | _ => mret (r, None)
  end.

(** The response keeps its empty map if the node is not active. *)
Definition getMapCallback (active : bool) (s : server) : OccupancyGrid := if active then msg_ s else no_grid.

Definition on_configure (home : text) (now : nat -> Z) (fs : files) : ST server () :=
  yaml_filename ← query (fun _ => read_set as_string "yaml_filename"%string);
  _ ← query (fun _ => read_or as_string "topic_name"%string "map"%string);
  frame ← query (fun _ => read_or as_string "frame_id"%string "map"%string);
  _ ← modify (set_frame (txt frame));
  _ ← (match txt yaml_filename with
       | [] => mret tt
       | f =>
           r ← loadMapResponseFromYaml home now fs f;
           match r with RESULT_SUCCESS _ => mret tt | _ => throw runtime_error end
       end);
  modify (set_endpoints (Some false) true true).

Definition on_activate : ST server (option OccupancyGrid) :=
  s ← get;
  match occ_pub_ s with
  | None => undefined
  | Some _ =>
      _ ← modify (set_endpoints (Some true) (occ_service_ s) (load_map_service_ s));
      if map_available_ s then publish else mret None
  end.

Definition on_deactivate : ST server () :=
  s ← get;
  match occ_pub_ s with
  | None => undefined
  | Some _ => modify (set_endpoints (Some false) (occ_service_ s) (load_map_service_ s))
  end.

Definition on_cleanup : ST server () :=
  modify (fun s => set_msg no_grid (set_available false (set_endpoints None false false s))).
End MapServer.
End MapServer.

Module MapSaver.
Import MapMode MapIO Parameters.

Record saver : Type := mk_saver {
  save_map_timeout_ : Z;
  free_thresh_default_ : f64;
  occupied_thresh_default_ : f64;
  map_subscribe_transient_local_ : bool;
  save_map_service_ : bool }.

Section MapSaver.
Context `{Magick} `{Yaml} `{Yaws} `{NodeParameters} `{Durations}.

Definition on_configure : res saver :=
  timeout ← read_or as_double "save_map_timeout"%string (f64_of_Z 2);
  free ← read_or as_double "free_thresh_default"%string (hundredths 25);
  occupied ← read_or as_double "occupied_thresh_default"%string (hundredths 65);
  transient ← read_or as_bool "map_subscribe_transient_local"%string true;
  Ok (mk_saver (from_seconds timeout) free occupied transient true).

Definition on_cleanup (s : saver) : saver :=
  mk_saver (save_map_timeout_ s) (free_thresh_default_ s) (occupied_thresh_default_ s) (map_subscribe_transient_local_ s) false.

(** [received topic timeout transient] is the first map that arrives on a topic within the timeout. *)
Context (received : text -> Z -> bool -> option OccupancyGrid).

Definition saveMapTopicToFile (now : f64) (map_topic : text) (p : SaveParameters) (fs : files) (s : saver) : res (bool * files) :=
  let topic := match map_topic with [] => txt "map" | t => t end in
  let free := if f64_eq (free_thresh p) f64_zero then free_thresh_default_ s else free_thresh p in
  let occupied := if f64_eq (occupied_thresh p) f64_zero then occupied_thresh_default_ s else occupied_thresh p in
  match received topic (save_map_timeout_ s) (map_subscribe_transient_local_ s) with
  | None => Ok (false, fs)
  | Some map => saveMapToFile now map (mk_save (map_file_name p) (image_format p) free occupied (save_mode p)) fs
  end.

(** The thresholds of the request are single precision numbers. *)
Definition saveMapCallback (now : f64) (map_topic map_url format map_mode : text) (free occupied : spec_float)
    (fs : files) (s : saver) : res (bool * files) :=
  mode ← (match map_mode_from_string map_mode with
          | Throw invalid_argument => Ok Trinary
          | r => r
          end);
  saveMapTopicToFile now map_topic (mk_save map_url format (f64_of_f32 free) (f64_of_f32 occupied) mode) fs s.
End MapSaver.
End MapSaver.

Module CostmapFilterInfoServer.
Import Parameters.

(** The message: a type of 8 bits, the topic of the mask, and the conversion of its values. *)
Record CostmapFilterInfo : Type := mk_info {
  info_stamp : Z; info_type : Z; filter_mask_topic : string; base : spec_float; multiplier : spec_float }.

Record server : Type := mk_server { publisher_ : option bool; msg_ : CostmapFilterInfo }.

Definition new : server := mk_server None (mk_info 0 0 EmptyString (f32_of_Z 0) (f32_of_Z 0)).

Section CostmapFilterInfoServer.
Context `{NodeParameters}.

Definition on_configure (now : Z) : res server :=
  _ ← read_or as_string "filter_info_topic"%string "costmap_filter_info"%string;
  type ← read_or as_int "type"%string 0;
  topic ← read_or as_string "mask_topic"%string "filter_mask"%string;
  b ← read_or as_double "base"%string f64_zero;
  m ← read_or as_double "multiplier"%string (f64_of_Z 1);
  Ok (mk_server (Some false) (mk_info now (wrapu 8 type) topic (f32_of_f64 b) (f32_of_f64 m))).

Definition on_activate (s : server) : res (CostmapFilterInfo * server) :=
  match publisher_ s with
  | Some _ => Ok (msg_ s, mk_server (Some true) (msg_ s))
  | None => UB
  end.

Definition on_deactivate (s : server) : res server :=
  match publisher_ s with Some _ => Ok (mk_server (Some false) (msg_ s)) | None => UB end.

Definition on_cleanup (s : server) : server := mk_server None (msg_ s).
End CostmapFilterInfoServer.
End CostmapFilterInfoServer.
