(* ===== verification/MapLaws.v ===== *)
(** * What survives in the files of a map

    A saved map is read back with the same size, and with each cell as its mode keeps it. *)

From stdpp Require Import base option list numbers strings.
From Stdlib Require Import ZArith Lia SpecFloat Ascii.
From S2P Require Import Prelude Float64 FloatOrder CString Parameters CollisionZones CollisionSources MapIO MapServers.

(** ** What the libraries promise *)

(** Formats that keep every byte of a grey image without transparency. A grey level of [k / 255] is read
    as [k], or as the byte below where the conversion cuts off; a multiple of the 255th part of the largest
    quantum is read exactly. *)
Class MagickLaws `{Magick} : Type := {
  lossless : text -> Prop;
  color_byte : color -> Z;
  lossless_name format : lossless format -> format <> txt "yaml" /\ Forall (fun c => MapIO.is_separator c = false) format;
  decode_encode p format : lossless format -> 0 < columns p -> 0 < rows p ->
    Z.of_nat (length (pixels p)) = rows p -> Forall (fun l => Z.of_nat (length l) = columns p) (pixels p) ->
    matte_type p = false ->
    exists c, encode p format = Returned c /\
      decode c = Returned (mk_raster (columns p) (rows p) (color_byte <$> concat (pixels p)) false []);
  gray_byte k : 0 <= k <= 255 ->
    0 <= color_byte (ColorGray (f64_div (f64_of_Z k) MapIO.f255)) <= k /\
    k - 1 <= color_byte (ColorGray (f64_div (f64_of_Z k) MapIO.f255));
  quantum_byte k : 0 <= k <= 255 -> color_byte (GrayQuantum (k * (MaxRGB / 255))) = k;
  quantum_depth : MaxRGB ∈ [255; 65535; 4294967295] }.

(** A document is parsed as it was emitted; the decimals of a number are read as a number, and those of
    the two fixed thresholds as these thresholds. *)
Class YamlLaws `{Yaml} : Prop := {
  parse_emit d : parse (emit d) = Returned d;
  as_double_fixed x precision : is_Some (f64_trunc x) -> is_Some (as_double (MapIO.to_string_with_precision x precision));
  as_double_emitted x : is_Some (f64_trunc x) -> is_Some (as_double (emit_double x));
  as_double_occupied : as_double (emit_double (MapIO.hundredths 65)) = Some (MapIO.hundredths 65);
  as_double_free : as_double (emit_double (MapIO.thousandths 196)) = Some (MapIO.thousandths 196);
  as_int_zero : as_int (emit_int 0) = Some 0 }.

Module MapLaws.
Import MapMode MapIO.

(** ** Names *)

Lemma drop_until_at p s c r : Forall (fun d => p d = false) s -> p c = true -> drop_until p (s ++ c :: r) = c :: r.
Proof. intros Hs Hc. induction Hs as [|d s Hd Hs IH]; cbn [app drop_until]; [by rewrite Hc|by rewrite Hd]. Qed.

Lemma take_until_at p s c r : Forall (fun d => p d = false) s -> p c = true -> take_until p (s ++ c :: r) = s.
Proof. intros Hs Hc. induction Hs as [|d s Hd Hs IH]; cbn [app take_until]; [by rewrite Hc|by rewrite Hd, IH]. Qed.

(** A directory without a slash at its end, and a name in it. *)
Definition directory (dir : text) : Prop := exists c d, dir = d ++ [c] /\ is_slash c = false.
Definition plain (name : text) : Prop := name <> [] /\ Forall (fun c => is_separator c = false) name.

Lemma plain_reverse name : plain name ->
  exists c r, reverse name = c :: r /\ Forall (fun d => is_separator d = false) (c :: r).
Proof.
  intros [Hn Hs]. destruct (reverse name) as [|c r] eqn:E.
  - apply (f_equal reverse) in E. rewrite reverse_involutive in E. by destruct Hn.
  - exists c, r. split; [done|]. rewrite <- E. by apply Forall_reverse.
Qed.

Lemma separator_slash c : is_separator c = false -> is_slash c = false.
Proof. unfold is_separator, is_slash. intros [? _]%orb_false_elim. done. Qed.

Lemma reverse_path dir name : reverse (dir ++ SLASH :: name) = reverse name ++ SLASH :: reverse dir.
Proof. by rewrite reverse_app, reverse_cons, <- app_assoc. Qed.

Lemma dirname_path dir name : directory dir -> plain name -> dirname (dir ++ SLASH :: name) = dir.
Proof.
  intros (x & d & -> & Hx) Hn. destruct (plain_reverse name Hn) as (c & r & Er & Hr).
  unfold dirname. rewrite reverse_path, Er, reverse_snoc. apply Forall_cons in Hr as [Hc Hr].
  cbn [app drop_until]. rewrite (separator_slash c Hc). cbn [negb drop_until].
  rewrite ?(separator_slash c Hc), drop_until_at; [|by eapply Forall_impl; [exact Hr|apply separator_slash]|done].
  cbn [drop_until]. change (is_slash SLASH) with true. cbn [negb drop_until]. rewrite Hx. cbn [negb].
  by rewrite reverse_cons, reverse_involutive.
Qed.

Lemma base_name_path dir name : plain name -> base_name (dir ++ SLASH :: name) = name.
Proof.
  intros [Hn Hs]. unfold base_name. rewrite reverse_path, take_until_at; [by rewrite reverse_involutive| |done].
  by apply Forall_reverse.
Qed.

(** ** Matrices *)

Lemma matrix_concat w (l : list (list Z)) : Forall (fun r => length r = w) l -> matrix w (length l) (concat l) = l.
Proof.
  induction 1 as [|r l Hr Hl IH]; [done|]. cbn [length matrix concat].
  by rewrite take_app_length', drop_app_length', IH by done.
Qed.

Lemma concat_matrix w h : forall l : list Z, length l = (w * h)%nat -> concat (matrix w h l) = l.
Proof.
  induction h as [|h IH]; intros l Hl; cbn [matrix concat].
  - rewrite Nat.mul_0_r in Hl. by destruct l.
  - rewrite IH; [apply take_drop|]. rewrite length_drop. lia.
Qed.

Lemma matrix_length w h : forall l : list Z, length (matrix w h l) = h.
Proof. induction h as [|h IH]; intros l; [done|]. cbn [matrix length]. by rewrite IH. Qed.

Lemma matrix_lookup w h : forall (l : list Z) i, (i < h)%nat -> matrix w h l !! i = Some (take w (drop (w * i) l)).
Proof.
  induction h as [|h IH]; intros l i Hi; [lia|]. destruct i as [|i]; cbn [matrix].
  - by rewrite Nat.mul_0_r.
  - cbn [lookup list_lookup]. rewrite IH by lia. rewrite drop_drop. do 3 f_equal. lia.
Qed.

Lemma matrix_rows w h : forall l : list Z, length l = (w * h)%nat -> Forall (fun r => length r = w) (matrix w h l).
Proof.
  induction h as [|h IH]; intros l Hl; cbn [matrix]; constructor.
  - rewrite length_take. lia.
  - apply IH. rewrite length_drop. lia.
Qed.

(** A loop whose passes succeed collects the elements of a list. *)
Lemma loop_lookup {A} (f : Z -> res A) (l : list A) : forall n i, n = length l ->
  (forall j a, l !! j = Some a -> f (i + Z.of_nat j) = Ok a) -> loop n i f = Ok l.
Proof.
  induction l as [|a l IH]; intros n i -> Hf; cbn [length loop]; [done|].
  assert (f i = Ok a) as -> by (specialize (Hf 0%nat a eq_refl); by rewrite Z.add_0_r in Hf).
  rewrite bind_Ok, (IH (length l) (i + 1) eq_refl); [done|].
  intros j b Hb. specialize (Hf (S j) b Hb). by replace (i + 1 + Z.of_nat j) with (i + Z.of_nat (S j)) by lia.
Qed.

(** ** Cells *)

(** What each mode keeps of a cell. *)
Definition kept (m : mode) (free_thresh_int occupied_thresh_int c : Z) : Z :=
  if unknown_cell c then OCC_GRID_UNKNOWN else
  match m with
  | Trinary => if c <=? free_thresh_int then OCC_GRID_FREE
               else if occupied_thresh_int <=? c then OCC_GRID_OCCUPIED else OCC_GRID_UNKNOWN
  | _ => c
  end.

(** The cell of a byte without transparency. *)
Definition cell_of (p : LoadParameters) (b : Z) : Z :=
  match load_mode p with Raw => raw_cell b | _ => threshold_cell p (normalized (negate p) b) end.

Lemma map_cells_opaque p r : load_mode p <> Scale -> matte r = false -> map_cells p r = Ok (cell_of p <$> intensity r).
Proof. unfold map_cells, cell_of, mask_alpha. intros Hm ->. by destruct (load_mode p). Qed.

Lemma known_range c : unknown_cell c = false -> 0 <= c <= 100.
Proof. unfold unknown_cell. intros H. bool_arith. lia. Qed.

Definition quantum_check (M c : Z) : bool :=
  bool_decide (f64_to_uint 64 (f64_mul (f64_div (f64_of_Z c) f255) (f64_of_Z M)) = Ok (c * (M / 255))).

Lemma quantum_checks : forallb (fun M => forallb (quantum_check M) (seqZ 0 101)) [255; 65535; 4294967295] = true.
Proof. vm_compute. reflexivity. Qed.

Lemma raw_quantum M c : M ∈ [255; 65535; 4294967295] -> 0 <= c <= 100 ->
  f64_to_uint 64 (f64_mul (f64_div (f64_of_Z c) f255) (f64_of_Z M)) = Ok (c * (M / 255)).
Proof.
  intros HM Hc. pose proof quantum_checks as Hall. rewrite forallb_forall in Hall.
  specialize (Hall M (proj1 (list_elem_of_In _ _) HM)). rewrite forallb_forall in Hall.
  assert (In c (seqZ 0 101)) as Hin by (apply list_elem_of_In, elem_of_seqZ; lia).
  specialize (Hall c Hin). by apply bool_decide_eq_true in Hall.
Qed.

(** Parameters as the description of a saved map gives them. *)
Definition described (m : mode) (p : LoadParameters) : Prop :=
  load_mode p = m /\ negate p = false /\
  (m = Trinary -> load_free_thresh p = thousandths 196 /\ load_occupied_thresh p = hundredths 65).

Definition grey_check (b c : Z) : bool :=
  threshold_cell (mk_load [] f64_zero [] (thousandths 196) (hundredths 65) Trinary false) (normalized false b) =? c.

Lemma grey_checks : forallb (fun bc => grey_check (fst bc) (snd bc))
  [(0, OCC_GRID_OCCUPIED); (204, OCC_GRID_UNKNOWN); (205, OCC_GRID_UNKNOWN); (253, OCC_GRID_FREE); (254, OCC_GRID_FREE)] = true.
Proof. vm_compute. reflexivity. Qed.

Lemma described_grey p b c : described Trinary p -> grey_check b c = true -> cell_of p b = c.
Proof.
  intros (Hm & Hn & Ht). destruct (Ht eq_refl) as [Hf Ho]. unfold cell_of, grey_check, threshold_cell, is_free, is_occupied.
  rewrite Hm, Hn, Hf, Ho. cbn [load_free_thresh load_occupied_thresh]. intros Hc. by apply Z.eqb_eq in Hc.
Qed.

Section Cells.
Context `{MagickLaws}.

(** The byte that is read where a cell was drawn. *)
Lemma pixel_byte m lo hi c p : m <> Scale -> described m p ->
  exists col, pixel m lo hi c = Ok col /\ cell_of p (color_byte col) = kept m lo hi c.
Proof.
  intros Hm Hp. destruct m; [|done|].
  - eexists. split; [done|]. unfold kept.
    pose proof grey_checks as Hg. cbn [forallb fst snd] in Hg.
    apply andb_prop in Hg as [G0 Hg]. apply andb_prop in Hg as [G204 Hg]. apply andb_prop in Hg as [G205 Hg].
    apply andb_prop in Hg as [G253 Hg]. apply andb_prop in Hg as [G254 _].
    assert (forall k, 0 <= k <= 255 -> let b := color_byte (ColorGray (f64_div (f64_of_Z k) f255)) in
              b = k \/ (b = k - 1 /\ 0 < k)) as Hb.
    { intros k Hk. destruct (gray_byte k Hk) as [Hb1 Hb2]. cbv zeta. lia. }
    assert (cell_of p (color_byte (ColorGray (f64_div (f64_of_Z 205) f255))) = OCC_GRID_UNKNOWN) as C205
      by (destruct (Hb 205 ltac:(lia)) as [->|[-> _]]; by apply described_grey).
    destruct (unknown_cell c); [done|]. destruct (c <=? lo).
    + destruct (Hb 254 ltac:(lia)) as [->|[-> _]]; by apply described_grey.
    + destruct (hi <=? c); [|done]. destruct (Hb 0 ltac:(lia)) as [->|[_ Hlt]]; [by apply described_grey|lia].
  - unfold pixel, kept. destruct Hp as (Hmode & _). unfold cell_of. rewrite Hmode.
    destruct (unknown_cell c) eqn:Hu.
    + eexists. split; [done|].
      assert (MaxRGB = 255 * (MaxRGB / 255)) as E.
      { pose proof quantum_depth as Hq. apply list_elem_of_In in Hq.
        destruct Hq as [E|[E|[E|[]]]]; by rewrite <- E. }
      rewrite E, quantum_byte by lia. done.
    + apply known_range in Hu. rewrite (raw_quantum MaxRGB c quantum_depth Hu), bind_Ok.
      eexists. split; [done|]. rewrite quantum_byte by lia.
      unfold raw_cell. rewrite wraps_id by (unfold in_s; lia).
      unfold OCC_GRID_FREE, OCC_GRID_OCCUPIED. rewrite Z.gtb_ltb, (proj2 (Z.ltb_ge c 0)), (proj2 (Z.ltb_ge 100 c)) by lia. done.
Qed.

(** ** The image of a map *)

Definition well_formed (map : OccupancyGrid) : Prop :=
  0 < width (info map) /\ 0 < height (info map) /\ width (info map) * height (info map) < 2 ^ 32 /\
  Z.of_nat (length (data map)) = width (info map) * height (info map).

Definition color_at (m : mode) (lo hi c : Z) : color :=
  match pixel m lo hi c with Ok col => col | _ => ColorGray f64_zero end.

Lemma draw_rows m lo hi map p : m <> Scale -> described m p -> well_formed map ->
  let w := Z.to_nat (width (info map)) in let h := Z.to_nat (height (info map)) in
  draw m lo hi map = Ok (mk_picture (width (info map)) (height (info map)) false
    ((fun r : list Z => color_at m lo hi <$> r) <$> reverse (matrix w h (data map)))).
Proof.
  intros Hm Hp (Hw & Hh & _ & Hlen). cbv zeta. set (w := Z.to_nat _). set (h := Z.to_nat _).
  assert (length (data map) = (w * h)%nat) as Hl by (unfold w, h; nia).
  unfold draw. rewrite bool_decide_false by done.
  rewrite (loop_lookup _ ((fun r : list Z => color_at m lo hi <$> r) <$> reverse (matrix w h (data map)))); [done| |].
  { by rewrite length_fmap, length_reverse, matrix_length. }
  intros y row Hrow. rewrite list_lookup_fmap in Hrow. apply fmap_Some in Hrow as (r & Hr & ->).
  pose proof (lookup_lt_Some _ _ _ Hr) as Hy. rewrite length_reverse, matrix_length in Hy.
  rewrite reverse_lookup in Hr by (by rewrite matrix_length). rewrite matrix_length in Hr.
  rewrite matrix_lookup in Hr by lia. injection Hr as <-.
  apply loop_lookup.
  { rewrite length_fmap, length_take, length_drop. nia. }
  intros x col Hcol. rewrite list_lookup_fmap in Hcol. apply fmap_Some in Hcol as (c & Hc & ->).
  pose proof (lookup_lt_Some _ _ _ Hc) as Hx. rewrite length_take in Hx.
  rewrite lookup_take_lt, lookup_drop in Hc by lia.
  assert (aget (data map) (width (info map) * (height (info map) - (0 + Z.of_nat y) - 1) + (0 + Z.of_nat x)) = Ok c) as ->.
  { apply aget_ok. split; [nia|]. rewrite <- Hc. f_equal. unfold w, h in *. nia. }
  rewrite bind_Ok. destruct (pixel_byte m lo hi c p Hm Hp) as (col & Hpx & _). unfold color_at. by rewrite Hpx.
Qed.

(** Reading the intensities of that image gives back the cells. *)
Lemma cells_back m lo hi map p : m <> Scale -> described m p -> well_formed map ->
  let w := Z.to_nat (width (info map)) in let h := Z.to_nat (height (info map)) in
  concat (reverse (matrix w h (cell_of p <$> (color_byte <$> concat ((fun r : list Z => color_at m lo hi <$> r) <$> reverse (matrix w h (data map))))))) =
    kept m lo hi <$> data map.
Proof.
  intros Hm Hp (Hw & Hh & _ & Hlen). cbv zeta. set (w := Z.to_nat _). set (h := Z.to_nat _).
  assert (length (data map) = (w * h)%nat) as Hl by (unfold w, h; nia).
  rewrite <- list_fmap_compose. rewrite (list_fmap_ext _ (fun x => cell_of p (color_byte x))) by done.
  assert (forall (l : list (list Z)), (fun x => cell_of p (color_byte x)) <$> concat ((fun r : list Z => color_at m lo hi <$> r) <$> l) =
            concat ((fun r : list Z => kept m lo hi <$> r) <$> l)) as ->.
  { intros l. induction l as [|r l IH]; [done|]. cbn [fmap list_fmap concat]. rewrite fmap_app, <- IH. f_equal.
    rewrite <- list_fmap_compose. apply list_fmap_ext. intros _ c _. cbn [compose].
    destruct (pixel_byte m lo hi c p Hm Hp) as (col & Hpx & Hc). unfold color_at. by rewrite Hpx. }
  rewrite fmap_reverse.
  assert (length (reverse ((fun r : list Z => kept m lo hi <$> r) <$> matrix w h (data map))) = h) as Hlr
    by (by rewrite length_reverse, length_fmap, matrix_length).
  rewrite <- Hlr at 1. rewrite matrix_concat.
  - rewrite reverse_involutive. rewrite <- (concat_matrix w h (data map) Hl) at 2.
    generalize (matrix w h (data map)). intros l. induction l as [|r l IH]; [done|].
    cbn [fmap list_fmap concat]. by rewrite fmap_app, <- IH.
  - apply Forall_reverse, Forall_fmap. eapply Forall_impl; [by apply matrix_rows|].
    intros r Hr. cbn [compose]. by rewrite length_fmap.
Qed.
End Cells.

(** ** Descriptions *)

(** Looking up the keys of a description. *)
Lemma metadata_keys {A} (view : node -> option A) (v1 v2 v3 v4 v5 v6 v7 : node) :
  let d := [(txt "image", v1); (txt "mode", v2); (txt "resolution", v3); (txt "origin", v4); (txt "negate", v5);
            (txt "occupied_thresh", v6); (txt "free_thresh", v7)] in
  let value v := match view v with Some a => Ok a | None => Throw yaml_exception end in
  yaml_get_value view d (txt "image") = value v1 /\ yaml_get_value view d (txt "mode") = value v2 /\
  yaml_get_value view d (txt "resolution") = value v3 /\ yaml_get_value view d (txt "origin") = value v4 /\
  yaml_get_value view d (txt "negate") = value v5 /\ yaml_get_value view d (txt "occupied_thresh") = value v6 /\
  yaml_get_value view d (txt "free_thresh") = value v7.
Proof. split_and!; reflexivity. Qed.

Lemma mode_names m : map_mode_from_string (map_mode_to_string m) = Ok m.
Proof. by destruct m. Qed.

Definition finite_number (x : f64) : Prop := is_Some (f64_trunc x).

(** The numbers a description holds are written as decimals. *)
Definition decimal (x : f64) `{Yaml} : option f64 := as_double (to_string_with_precision x 3).

Section Descriptions.
Context `{Magick} `{YamlLaws} `{Yaws}.

Definition numbers_ok (map : OccupancyGrid) (p : SaveParameters) : Prop :=
  finite_number (f64_of_f32 (resolution (info map))) /\
  finite_number (fst (fst (position (info map)))) /\ finite_number (snd (fst (position (info map)))) /\
  finite_number (getYaw (orientation (info map))) /\ finite_number (free_thresh p) /\ finite_number (occupied_thresh p).

Lemma metadata_read home fs name p mapdatafile map : numbers_ok map p -> plain (base_name mapdatafile) ->
  expand_user_home_dir_if_needed name home = name ->
  contents fs name = Some (TEXT (emit (metadata p mapdatafile map))) ->
  exists res x y yaw q, loadMapYaml home fs name = Ok q /\
    decimal (f64_of_f32 (resolution (info map))) = Some res /\
    decimal (fst (fst (position (info map)))) = Some x /\ decimal (snd (fst (position (info map)))) = Some y /\
    as_double (emit_double (getYaw (orientation (info map)))) = Some yaw /\
    image_file_name q = dirname name ++ SLASH :: base_name mapdatafile /\
    load_resolution q = res /\ origin q = [x; y; yaw] /\ described (save_mode p) q.
Proof.
  intros (Fr & Fx & Fy & Fyaw & Ff & Fo) Hbase Hexp Hc. destruct (position (info map)) as [[x y] z] eqn:Hpos.
  cbn [fst snd] in Fx, Fy |- *.
  destruct (as_double_fixed _ 3 Fr) as [r Er]. destruct (as_double_fixed _ 3 Fx) as [x' Ex].
  destruct (as_double_fixed _ 3 Fy) as [y' Ey]. destruct (as_double_emitted _ Fyaw) as [yaw Eyaw].
  destruct (as_double_fixed _ 3 Ff) as [f Ef]. destruct (as_double_fixed _ 3 Fo) as [o Eo].
  exists r, x', y', yaw.
  assert (exists t1 t2 f' o', metadata p mapdatafile map =
    [(txt "image", SCALAR (base_name mapdatafile)); (txt "mode", SCALAR (map_mode_to_string (save_mode p)));
     (txt "resolution", SCALAR (to_string_with_precision (f64_of_f32 (resolution (info map))) 3));
     (txt "origin", SEQUENCE [to_string_with_precision x 3; to_string_with_precision y 3;
        emit_double (getYaw (orientation (info map)))]);
     (txt "negate", SCALAR (emit_int 0)); (txt "occupied_thresh", SCALAR t1); (txt "free_thresh", SCALAR t2)] /\
    as_double t1 = Some o' /\ as_double t2 = Some f' /\
    (save_mode p = Trinary -> f' = thousandths 196 /\ o' = hundredths 65)) as (t1 & t2 & f' & o' & Hd & E1 & E2 & Ht).
  { unfold metadata. rewrite Hpos. destruct (save_mode p).
    - do 4 eexists. split; [done|]. split; [apply as_double_occupied|]. split; [apply as_double_free|done].
    - do 4 eexists. split; [done|]. split; [exact Eo|]. split; [exact Ef|done].
    - do 4 eexists. split; [done|]. split; [exact Eo|]. split; [exact Ef|done]. }
  unfold loadMapYaml, LoadFile. rewrite Hexp, Hc, parse_emit, Hd. cbn [of_outcome]. rewrite bind_Ok.
  set (d := [_; _; _; _; _; _; _]).
  unfold read_mode, read_negate.
  pose proof (fun A (view : node -> option A) => metadata_keys view (SCALAR (base_name mapdatafile))
    (SCALAR (map_mode_to_string (save_mode p))) (SCALAR (to_string_with_precision (f64_of_f32 (resolution (info map))) 3))
    (SEQUENCE [to_string_with_precision x 3; to_string_with_precision y 3; emit_double (getYaw (orientation (info map)))])
    (SCALAR (emit_int 0)) (SCALAR t1) (SCALAR t2)) as Hk. cbv zeta in Hk. fold d in Hk.
  destruct (Hk _ view_string) as (-> & -> & _). cbn [view_string view_scalar]. rewrite bind_Ok.
  destruct Hbase as [Hne Hsep]. destruct (base_name mapdatafile) as [|c name'] eqn:Hb; [done|].
  apply Forall_cons in Hsep as [Hc0 _]. rewrite (separator_slash c Hc0), bind_Ok.
  destruct (Hk _ view_double) as (_ & _ & -> & _ & _ & -> & ->). cbn [view_double view_scalar].
  rewrite Er, E1, E2, !bind_Ok.
  destruct (Hk _ view_doubles) as (_ & _ & _ & -> & _). cbn [view_doubles mapM].
  rewrite Ex, Ey, Eyaw. cbn [mbind option_bind mret option_ret]. rewrite bind_Ok. cbn [length Z.of_nat negb].
  destruct (Hk _ (view_scalar as_int)) as (_ & _ & _ & _ & -> & _). cbn [view_scalar]. rewrite as_int_zero.
  eexists. split.
  { change (Z.of_nat (length [x'; y'; yaw]) =? 3) with true. cbn [negb]. rewrite !bind_Ok.
    change (List.find (fun p0 => bool_decide (fst p0 = txt "mode")) d) with (Some (txt "mode", SCALAR (map_mode_to_string (save_mode p)))).
    rewrite mode_names, !bind_Ok. reflexivity. }
  by split_and!.
Qed.
End Descriptions.

Section RoundTrip.
Context `{MagickLaws} `{YamlLaws} `{Yaws}.

Definition image_of (p : SaveParameters) : text := map_file_name p ++ "."%char :: image_format p.
Definition yaml_of (p : SaveParameters) : text := map_file_name p ++ txt ".yaml".

(** The parameters of any description of the mode. *)
Lemma some_described m : exists q, described m q.
Proof. exists (mk_load [] f64_zero [] (thousandths 196) (hundredths 65) m false). by split_and!. Qed.

Lemma names_of p dir base : map_file_name p = dir ++ SLASH :: base -> plain base -> lossless (image_format p) ->
  image_of p = dir ++ SLASH :: (base ++ "."%char :: image_format p) /\
  yaml_of p = dir ++ SLASH :: (base ++ txt ".yaml") /\
  plain (base ++ "."%char :: image_format p) /\ plain (base ++ txt ".yaml") /\ image_of p <> yaml_of p.
Proof.
  intros Hname [Hne Hsep] Hfmt. destruct (lossless_name _ Hfmt) as [Hyaml Hf].
  unfold image_of, yaml_of. rewrite Hname, <- !app_assoc. cbn [app].
  split; [done|]. split; [done|]. split; [|split].
  - split; [by destruct base|]. apply Forall_app. split; [done|]. by constructor.
  - split; [by destruct base|]. apply Forall_app. split; [done|]. by repeat constructor.
  - intros Heq. apply app_inv_head in Heq. injection Heq as Heq. apply app_inv_head in Heq. by injection Heq.
Qed.

Lemma not_expanded dir rest home : directory dir -> head dir <> Some TILDE ->
  expand_user_home_dir_if_needed (dir ++ rest) home = dir ++ rest.
Proof.
  intros (c & d & -> & _) Ht. destruct d as [|d0 d]; cbn [app head] in *.
  - destruct rest as [|r rest]; [done|]. cbn [expand_user_home_dir_if_needed]. by rewrite bool_decide_false by congruence.
  - destruct (d ++ [c]) as [|c1 d1] eqn:E; [by destruct d|]. cbn [app expand_user_home_dir_if_needed].
    by rewrite bool_decide_false by congruence.
Qed.

(** What saving does to the files. *)
Lemma saved now map p p' lo hi fs : checkSaveParameters now p = Ok p' -> save_mode p' <> Scale -> lossless (image_format p') ->
  f64_to_int 32 (rint (f64_mul (free_thresh p') hundred)) = Ok lo ->
  f64_to_int 32 (rint (f64_mul (occupied_thresh p') hundred)) = Ok hi ->
  well_formed map -> can_write fs (image_of p') = true -> can_write fs (yaml_of p') = true ->
  let w := Z.to_nat (width (info map)) in let h := Z.to_nat (height (info map)) in
  exists c, saveMapToFile now map p fs =
      Ok (true, write_file (yaml_of p') (TEXT (emit (metadata p' (image_of p') map))) (write_file (image_of p') (IMAGE c) fs)) /\
    decode c = Returned (mk_raster (width (info map)) (height (info map))
      (color_byte <$> concat ((fun r : list Z => color_at (save_mode p') lo hi <$> r) <$> reverse (matrix w h (data map)))) false []).
Proof.
  intros Hcheck Hmode Hfmt Hlo Hhi Hwf Wi Wy. cbv zeta. destruct (some_described (save_mode p')) as [q Hq].
  pose proof (draw_rows (save_mode p') lo hi map q Hmode Hq Hwf) as Hd. cbv zeta in Hd.
  destruct Hwf as (Hw & Hh & _ & Hlen). set (w := Z.to_nat (width (info map))) in *. set (h := Z.to_nat (height (info map))) in *.
  assert (length (data map) = (w * h)%nat) as Hl by (unfold w, h; nia).
  destruct (decode_encode (mk_picture (width (info map)) (height (info map)) false
    ((fun r : list Z => color_at (save_mode p') lo hi <$> r) <$> reverse (matrix w h (data map)))) (image_format p') Hfmt Hw Hh)
    as (c & He & Hc); [| |done|].
  - cbn [pixels rows]. rewrite length_fmap, length_reverse, matrix_length. unfold h. lia.
  - cbn [pixels columns]. apply Forall_fmap, Forall_reverse. eapply Forall_impl; [by apply matrix_rows|].
    intros r Hr. cbn [compose]. rewrite length_fmap. unfold w in Hr. lia.
  - exists c. split; [|exact Hc]. unfold saveMapToFile. rewrite Hcheck, bind_Ok. unfold tryWriteMapToFile.
    rewrite Hlo, Hhi, !bind_Ok, Hd, bind_Ok, He. cbn [of_outcome]. rewrite bind_Ok.
    fold (image_of p') (yaml_of p'). rewrite Wi, bind_Ok. cbn [can_write write_file]. by rewrite Wy.
Qed.

(** C25: a map saved as a grey image in a lossless format, as trinary or raw, can be loaded from its
    description: the size is the same, every cell is what the mode keeps of it, and the resolution is the
    one read from three decimals. No other file changes. *)
Theorem map_roundtrip now map p p' dir base lo hi fs :
  checkSaveParameters now p = Ok p' -> save_mode p' <> Scale -> lossless (image_format p') ->
  map_file_name p' = dir ++ SLASH :: base -> directory dir -> head dir <> Some TILDE -> plain base ->
  f64_to_int 32 (rint (f64_mul (free_thresh p') hundred)) = Ok lo ->
  f64_to_int 32 (rint (f64_mul (occupied_thresh p') hundred)) = Ok hi ->
  well_formed map -> numbers_ok map p' -> can_write fs (image_of p') = true -> can_write fs (yaml_of p') = true ->
  exists fs', saveMapToFile now map p fs = Ok (true, fs') /\
    (forall n, n <> image_of p' -> n <> yaml_of p' -> contents fs' n = contents fs n) /\
    forall home t g, exists g', loadMapFromYaml home t fs' (yaml_of p') g = Ok (LOAD_MAP_SUCCESS, g') /\
      width (info g') = width (info map) /\ height (info g') = height (info map) /\
      data g' = kept (save_mode p') lo hi <$> data map /\
      option_map f32_of_f64 (decimal (f64_of_f32 (resolution (info map)))) = Some (resolution (info g')).
Proof.
  intros Hcheck Hmode Hfmt Hname Hdir Htilde Hbase Hlo Hhi Hwf Hnum Wi Wy.
  destruct (names_of p' dir base Hname Hbase Hfmt) as (Ei & Ey & Pi & Py & Hne).
  destruct (saved now map p p' lo hi fs Hcheck Hmode Hfmt Hlo Hhi Hwf Wi Wy) as (c & Hs & Hc). cbv zeta in Hc.
  eexists. split; [exact Hs|]. split.
  { intros n Hni Hny. unfold write_file. cbn [contents]. by rewrite !decide_False. }
  intros home t g. set (fs' := write_file _ _ _).
  destruct (metadata_read home fs' (yaml_of p') p' (image_of p') map) as (r & x & y & yaw & q & Hq & Hr & _ & _ & _ & Himg & Hres & Hor & Hdes);
    [done|rewrite Ei; by rewrite base_name_path|rewrite Ey; by apply not_expanded| |].
  { unfold fs', write_file. cbn [contents]. by rewrite decide_True. }
  assert (image_file_name q = image_of p') as Hn by (by rewrite Himg, Ey, Ei, dirname_path, base_name_path).
  assert (exists c0 y0, yaml_of p' = c0 :: y0) as (c0 & y0 & Ey0).
  { rewrite Ey. destruct Hdir as (d & d' & -> & _). destruct d'; by do 2 eexists. }
  unfold loadMapFromYaml. rewrite Ey0. rewrite <- Ey0, Hq. unfold loadMapFromFile, read_image. rewrite Hn.
  assert (contents fs' (image_of p') = Some (IMAGE c)) as ->.
  { unfold fs', write_file. cbn [contents]. rewrite decide_False by done. by rewrite decide_True. }
  rewrite Hc. cbn [of_outcome]. rewrite bind_Ok, Hor. cbn [aget raster_width raster_height].
  change (aget [x; y; yaw] 0) with (Ok x). change (aget [x; y; yaw] 1) with (Ok y). change (aget [x; y; yaw] 2) with (Ok yaw).
  rewrite !bind_Ok. rewrite map_cells_opaque; [|by rewrite (proj1 Hdes)|done]. rewrite bind_Ok. cbn [intensity].
  pose proof (cells_back (save_mode p') lo hi map q Hmode Hdes Hwf) as Hcells. cbv zeta in Hcells. rewrite Hcells.
  destruct Hwf as (Hw & Hh & Hwh & _). assert (0 <= width (info map) * height (info map)) by nia. rewrite (wrapu_id 32 (_ * _)) by (unfold in_u; lia).
  rewrite bool_decide_true by lia. cbn [require]. rewrite bind_Ok. eexists. split; [done|]. cbn [info width height data resolution].
  assert (width (info map) <= width (info map) * height (info map)) by nia.
  assert (height (info map) <= width (info map) * height (info map)) by nia.
  rewrite !wrapu_id by (unfold in_u; lia). split; [done|]. split; [done|]. split; [done|].
  by rewrite Hr, Hres.
Qed.
End RoundTrip.

(** ** Loading at run time *)

Section Server.
Context `{Magick} `{Yaml} `{Yaws} `{NodeParameters}.
Import MapServer.

Lemma load_keeps home now fs f g status g' : loadMapFromYaml home now fs f g = Ok (status, g') ->
  status = LOAD_MAP_SUCCESS \/ g' = g.
Proof.
  unfold loadMapFromYaml. destruct f as [|c f]; [intros [= <- <-]; auto|].
  destruct (loadMapYaml _ _ _) as [p|e|]; [|intros [= <- <-]; auto|done].
  destruct (loadMapFromFile _ _ _) as [m|e|]; intros [= <- <-]; auto.
Qed.

(** The map a server publishes: the one of the file, with its own frame and time. *)
Definition served (s : server) (now : nat -> Z) (m : OccupancyGrid) : OccupancyGrid := msg_ (updateMsgHeader now (set_msg m s)).

(** C31: a request to load a map is answered with the stage that failed and then changes nothing, and publishes
    nothing; when it succeeds, the map of the files is stored, with the frame of the node, returned and
    published. It throws no exception. *)
Theorem server_load active home now fs url s :
  match loadMapCallback active home now fs url s with
  | (Ok (RESULT_SUCCESS g, p), s') =>
      active = true /\ exists m b, loadMapFromYaml home now fs url (msg_ s) = Ok (LOAD_MAP_SUCCESS, m) /\
        g = served s now m /\ occ_pub_ s = Some b /\ p = (if (b : bool) then Some g else None) /\
        s' = set_available true (set_msg g s)
  | (Ok (r, p), s') =>
      s' = s /\ p = None /\
      (r = RESULT_UNDEFINED_FAILURE /\ active = false \/
       active = true /\ exists status, loadMapFromYaml home now fs url (msg_ s) = Ok (status, msg_ s) /\
         match status with
         | LOAD_MAP_SUCCESS => False
         | MAP_DOES_NOT_EXIST => r = RESULT_MAP_DOES_NOT_EXIST
         | INVALID_MAP_METADATA => r = RESULT_INVALID_MAP_METADATA
         | INVALID_MAP_DATA => r = RESULT_INVALID_MAP_DATA
         end)
  | (Throw _, _) => False
  | (UB, _) => loadMapFromYaml home now fs url (msg_ s) = UB \/ occ_pub_ s = None
  end.
Proof.
  unfold loadMapCallback. destruct active; cbn [negb]; [|by split_and!; auto].
  unfold loadMapResponseFromYaml, get, query, modify, publish. expose.
  assert (forall e, loadMapFromYaml home now fs url (msg_ s) <> Throw e) as Hth.
  { intros e. unfold loadMapFromYaml. destruct url as [|c f]; [done|]. destruct (loadMapYaml _ _ _); [|done..].
    by destruct (loadMapFromFile _ _ _). }
  destruct (loadMapFromYaml home now fs url (msg_ s)) as [[status m]|e|] eqn:El; [|by destruct (Hth e)|by left].
  destruct (load_keeps _ _ _ _ _ _ _ El) as [-> | ->].
  - cbn [set_msg occ_pub_]. destruct (occ_pub_ s) as [b|] eqn:Eb.
    + unfold set_available, updateMsgHeader, set_msg. cbn. rewrite Eb. split; [done|]. exists m, b. by split_and!.
    + unfold set_available, updateMsgHeader, set_msg. cbn. rewrite Eb. by right.
  - assert (set_msg (msg_ s) s = s) as Es by (by destruct s).
    destruct status; [|cbn; rewrite Es; split; [done|]; split; [done|]; right; split; [done|]; eexists; split; [done|done]..].
    destruct (occ_pub_ s) as [b|] eqn:Eb.
    + unfold set_available, updateMsgHeader, set_msg. cbn. rewrite Eb. split; [done|]. exists (msg_ s), b. by split_and!.
    + unfold set_available, updateMsgHeader, set_msg. cbn. rewrite Eb. by right.
Qed.
End Server.

(** ** Concrete libraries *)

(** Images kept as they are given, with quantums of 16 bits. *)
Definition plain_byte (c : color) : Z :=
  match c with
  | ColorGray v | TransparentGray v =>
      match f64_trunc (f64_mul v (f64_of_Z 65535)) with Some q => (q + 128) / 257 | None => 0 end
  | GrayQuantum q => q / 257
  end.

Definition plain_opacity (c : color) : Z := match c with TransparentGray _ => 0 | _ => 255 end.

#[local] Instance plain_magick : Magick := {|
  image_content := picture; MaxRGB := 65535;
  encode := fun p _ => Returned p;
  decode := fun p => Returned (mk_raster (columns p) (rows p) (plain_byte <$> concat (pixels p)) (matte_type p)
                       (if matte_type p then plain_opacity <$> concat (pixels p) else []));
  isWritable := fun f => Returned (bool_decide (f = txt "png" \/ f = txt "pgm")) |}.

Definition grey_bytes_check (k : Z) : bool :=
  let b := plain_byte (ColorGray (f64_div (f64_of_Z k) f255)) in
  (0 <=? b) && (b <=? k) && (k - 1 <=? b) && (plain_byte (GrayQuantum (k * 257)) =? k).

Lemma grey_bytes : forallb grey_bytes_check (seqZ 0 256) = true.
Proof. vm_compute. reflexivity. Qed.

Lemma grey_byte_at k : 0 <= k <= 255 -> grey_bytes_check k = true.
Proof.
  intros Hk. pose proof grey_bytes as Hall. rewrite forallb_forall in Hall. apply Hall.
  apply list_elem_of_In, elem_of_seqZ. lia.
Qed.

#[local] Program Instance plain_magick_laws : MagickLaws := {|
  lossless := fun f => f = txt "png" \/ f = txt "pgm"; color_byte := plain_byte |}.
Next Obligation. intros format [-> | ->]; split; try done; by repeat constructor. Qed.
Next Obligation. intros p format _ _ _ _ _ Hm. exists p. cbn. by rewrite Hm. Qed.
Next Obligation.
  intros k Hk. pose proof (grey_byte_at k Hk) as Hc. unfold grey_bytes_check in Hc. cbv zeta in Hc.
  rewrite !andb_true_iff, !Z.leb_le in Hc. lia.
Qed.
Next Obligation.
  intros k Hk. pose proof (grey_byte_at k Hk) as Hc. unfold grey_bytes_check in Hc. cbv zeta in Hc.
  rewrite !andb_true_iff, !Z.eqb_eq in Hc. apply Hc.
Qed.
Next Obligation. apply list_elem_of_In. cbn. auto. Qed.

(** The value of a decimal: its digits, and how many follow the point. *)
Fixpoint read_decimal (acc : Z) (after : option Z) (s : text) : f64 :=
  match s with
  | [] => f64_div (f64_of_Z acc) (f64_of_Z (10 ^ default 0 after))
  | c :: s => if is_digit c then read_decimal (10 * acc + digit_val c) (Z.succ <$> after) s else read_decimal acc (Some 0) s
  end.

Definition read_number (s : text) : option f64 :=
  match s with
  | c :: s' => if is_digit c then Some (read_decimal 0 None s)
               else if decide (c = "-"%char) then Some (SFopp (read_decimal 0 None s')) else None
  | [] => None
  end.

#[local] Instance plain_yaml : Yaml := {|
  yaml_text := document; emit := fun d => d; parse := Returned;
  as_double := read_number;
  as_int := fun s => if forallb is_digit s then Some (signed_val s) else None;
  as_bool := fun s => if decide (s = txt "true") then Some true else if decide (s = txt "false") then Some false else None;
  emit_double := fun x => to_string_with_precision x 6; emit_int := print_int |}.

Lemma rne_nonneg a k : 0 <= a -> 0 <= k -> 0 <= rne a k.
Proof. intros Ha Hk. pose proof (rne_mono 0 a k Hk Ha) as Hm. by rewrite <- (Z.mul_0_l (2 ^ k)), rne_multiple in Hm. Qed.

Lemma read_fixed x precision : is_Some (f64_trunc x) -> is_Some (read_number (to_string_with_precision x precision)).
Proof.
  assert (forall v rest, 0 <= v -> exists c r, print_nonneg v ++ rest = c :: r /\ is_digit c = true) as Hp.
  { intros v rest Hv. pose proof (print_nonneg_digits v Hv) as Hd. pose proof (print_nonneg_nonempty v) as Hn.
    destruct (print_nonneg v) as [|c r]; [done|]. apply Forall_cons in Hd as [Hc _]. by exists c, (r ++ rest). }
  assert (forall s v rest, 0 <= v -> is_Some (read_number ((if (s : bool) then ["-"%char] else []) ++ print_nonneg v ++ rest))) as Hr.
  { intros s v rest Hv. destruct (Hp v rest Hv) as (c & r & -> & Hc). destruct s; cbn; rewrite ?Hc; by eexists. }
  assert (0 < 10 ^ Z.of_nat precision) as H10 by (apply Z.pow_pos_nonneg; lia).
  intros [z Hz]. destruct x as [s|s| |s m e]; try done; unfold to_string_with_precision; apply Hr.
  - by rewrite Z.div_0_l by lia.
  - apply Z.div_pos; [|done]. destruct (Z.leb_spec 0 e); [apply Z.mul_nonneg_nonneg; [|lia]|apply rne_nonneg; lia].
    apply Z.mul_nonneg_nonneg; [lia|]. apply Z.pow_nonneg. lia.
Qed.

#[local] Instance plain_yaml_laws : YamlLaws.
Proof.
  split; [done|intros; by apply read_fixed|intros; by apply read_fixed| | |]; vm_compute; reflexivity.
Qed.

#[local] Instance flat_yaws : Yaws := {|
  orientationAroundZAxis := fun a => mk_quaternion f64_zero f64_zero a one; getYaw := qz |}.

(** ** A map saved and loaded *)

Definition no_files : files := mk_files (fun _ => None) (fun _ => true).

(** Three columns and two rows of 2.54 cm. *)
Definition small_map : OccupancyGrid :=
  mk_grid (txt "map") 0 (mk_info 0 (f32_of_f64 (f64_div (f64_of_Z 254) (f64_of_Z 10000))) 3 2
    (f64_of_Z (-1), hundredths 50, f64_zero) (orientationAroundZAxis f64_zero)) [0; 100; -1; 30; 25; 66].

Definition request (m : mode) : SaveParameters := mk_save (txt "/maps/floor") (txt "PGM") f64_zero f64_zero m.
Definition checked_request (m : mode) : SaveParameters :=
  mk_save (txt "/maps/floor") (txt "pgm") (hundredths 25) (hundredths 65) m.

Lemma map_roundtrip_witness : exists fs', saveMapToFile f64_zero small_map (request Trinary) no_files = Ok (true, fs') /\
  (forall n, n <> image_of (checked_request Trinary) -> n <> yaml_of (checked_request Trinary) -> contents fs' n = None) /\
  forall home t g, exists g', loadMapFromYaml home t fs' (txt "/maps/floor.yaml") g = Ok (LOAD_MAP_SUCCESS, g') /\
    width (info g') = 3 /\ height (info g') = 2 /\ data g' = [0; 100; -1; -1; 0; 100] /\
    option_map f32_of_f64 (decimal (f64_of_f32 (resolution (info small_map)))) = Some (resolution (info g')).
Proof.
  refine (map_roundtrip f64_zero small_map (request Trinary) (checked_request Trinary) (txt "/maps") (txt "floor") 25 65 no_files
    _ _ _ _ _ _ _ _ _ _ _ _ _); try (vm_compute; reflexivity); try (vm_compute; discriminate).
  - right. reflexivity.
  - exists "s"%char, (txt "/map"). split; reflexivity.
  - split; [discriminate|]. repeat (constructor; [vm_compute; reflexivity|]). constructor.
  - split_and!; vm_compute; reflexivity.
  - split_and!; eexists; vm_compute; reflexivity.
Defined.

(** ** Behaviours to know about *)

(** The resolution loses its fourth decimal: an inch becomes 25 mm. *)
Example resolution_cut :
  to_string_with_precision (f64_of_f32 (resolution (info small_map))) 3 = txt "0.025".
Proof. vm_compute. reflexivity. Qed.

(** In scale mode a black pixel beside a grey one is scaled to 187, outside of the range of a cell. *)
Example scale_overflow :
  let p := mk_load [] f64_zero [] (hundredths 25) (hundredths 65) Scale false in
  map_cells p (mk_raster 2 1 [0; 128] false []) = UB.
Proof. vm_compute. reflexivity. Qed.

(** A scaled map changes when it is saved and loaded: 50 becomes 63. *)
Example scale_drifts :
  match saveMapToFile f64_zero (mk_grid [] 0 (mk_info 0 (f32_of_Z 1) 2 1 (f64_zero, f64_zero, f64_zero) (orientationAroundZAxis f64_zero))
          [50; -1]) (mk_save (txt "/maps/floor") (txt "png") f64_zero f64_zero Scale) no_files with
  | Ok (true, fs) =>
      match loadMapFromYaml [] (fun _ => 0) fs (txt "/maps/floor.yaml") small_map with
      | Ok (LOAD_MAP_SUCCESS, g) => data g = [63; -1]
      | _ => False
      end
  | _ => False
  end.
Proof. vm_compute. reflexivity. Qed.

(** The home directory is expanded in the name of the description, but not in the directory of its image. *)
Definition home_files : files :=
  match saveMapToFile f64_zero small_map (mk_save (txt "/home/me/floor") (txt "pgm") f64_zero f64_zero Trinary) no_files with
  | Ok (_, fs) => fs
  | _ => no_files
  end.

Example home_of_image :
  fst <$> loadMapFromYaml (txt "/home/me") (fun _ => 0) home_files (txt "/home/me/floor.yaml") small_map = Ok LOAD_MAP_SUCCESS /\
  fst <$> loadMapFromYaml (txt "/home/me") (fun _ => 0) home_files (txt "~/floor.yaml") small_map = Ok INVALID_MAP_DATA.
Proof. vm_compute. split; reflexivity. Qed.

(** A description that cannot be written does not make the save fail. *)
Example unwritten_description :
  match saveMapToFile f64_zero small_map (request Trinary)
          (mk_files (fun _ => None) (fun n => negb (bool_decide (n = txt "/maps/floor.yaml")))) with
  | Ok (true, fs) => fst <$> loadMapFromYaml [] (fun _ => 0) fs (txt "/maps/floor.yaml") small_map = Ok INVALID_MAP_METADATA
  | _ => False
  end.
Proof. vm_compute. reflexivity. Qed.

(** A backslash in a name is taken for a separator in the description only. *)
Example backslash_lost :
  match saveMapToFile f64_zero small_map (mk_save (txt "/maps/a\b") (txt "pgm") f64_zero f64_zero Trinary) no_files with
  | Ok (true, fs) => fst <$> loadMapFromYaml [] (fun _ => 0) fs (txt "/maps/a\b.yaml") small_map = Ok INVALID_MAP_DATA
  | _ => False
  end.
Proof. vm_compute. reflexivity. Qed.

(** A map with fewer cells than its size is read past its end. *)
Example short_data_undefined :
  fst <$> saveMapToFile f64_zero (mk_grid [] 0 (info small_map) [0; 100]) (request Trinary) no_files = UB.
Proof. vm_compute. reflexivity. Qed.

(** A threshold that is not a number passes the checks and is converted to an integer. *)
Example nan_threshold_undefined :
  fst <$> saveMapToFile f64_zero small_map (mk_save (txt "/maps/floor") (txt "pgm") S754_nan f64_zero Trinary) no_files = UB.
Proof. vm_compute. reflexivity. Qed.

(** The locator that the service documents is not understood. *)
Example url_refused :
  fst <$> loadMapFromYaml (txt "/home/me") (fun _ => 0) home_files (txt "file:///home/me/floor.yaml") small_map = Ok INVALID_MAP_METADATA.
Proof. vm_compute. reflexivity. Qed.

(** White pixels are free and black ones occupied, unless the description negates them. *)
Example darkness_is_occupied :
  let p neg := mk_load [] f64_zero [] (hundredths 25) (hundredths 65) Trinary neg in
  map_cells (p false) (mk_raster 2 1 [255; 0] false []) = Ok [OCC_GRID_FREE; OCC_GRID_OCCUPIED] /\
  map_cells (p true) (mk_raster 2 1 [255; 0] false []) = Ok [OCC_GRID_OCCUPIED; OCC_GRID_FREE].
Proof. vm_compute. split; reflexivity. Qed.

(** The type of a filter is cut to eight bits. *)
Example filter_type_cut :
  match CostmapFilterInfoServer.on_configure (H := fun n => if String.eqb n "type" then Some (PARAMETER_INTEGER 256) else None) 0 with
  | Ok s => CostmapFilterInfoServer.info_type (CostmapFilterInfoServer.msg_ s) = 0
  | _ => False
  end.
Proof. vm_compute. reflexivity. Qed.
End MapLaws.
