(* ===== verification/ActionTask.v ===== *)
(** * Tasks of an action server

    A node that serves an action runs its callback in the worker of the action server
    ([ActionServer]) and calls the server again and again, while other threads deliver goals and
    requests. [Node] is the state such a callback sees; a call of the server first lets the
    other threads move. The laws at the end say that every callback written with these
    calls is a sequence of steps of the server. *)

From stdpp Require Import base option list numbers relations.
From Stdlib Require Import ZArith Lia.
From S2P Require Import Prelude ActionServer.

(** ** Methods that keep an invariant, however they end *)

Module Methods.

(** [try { c } catch ...]: [h] chooses the handler of an exception, if there is one. *)
Definition catch {S A} (c : ST S A) (h : exn -> option (ST S A)) : ST S A := fun s =>
  match c s with
  | (Throw e, s) => match h e with Some k => k s | None => (Throw e, s) end
  | r => r
  end.

(** Whatever the method does from a state in [P], its result and state are in [Q]. *)
Definition ends {S A} (P : S -> Prop) (c : ST S A) (Q : res A -> S -> Prop) : Prop :=
  forall s, P s -> Q (fst (c s)) (snd (c s)).

Definition keeps {S A} (I : S -> Prop) (c : ST S A) : Prop := ends I c (fun _ => I).

(** It also has no undefined behaviour. *)
Definition sound {S A} (I : S -> Prop) (c : ST S A) : Prop := ends I c (fun r s => r <> UB /\ I s).

Section Rules.
Context {S : Type}.
Implicit Types (P I : S -> Prop).

Lemma ends_weaken {A} P (c : ST S A) (Q Q' : res A -> S -> Prop) :
  ends P c Q -> (forall r s, Q r s -> Q' r s) -> ends P c Q'.
Proof. intros Hc HQ s Hs. apply HQ, Hc, Hs. Qed.

Lemma ends_pre {A} P' P (c : ST S A) (Q : res A -> S -> Prop) :
  ends P' c Q -> (forall s, P s -> P' s) -> ends P c Q.
Proof. intros Hc HP s Hs. apply Hc, HP, Hs. Qed.

(** The rule of sequences: [R] describes the result of the first method. *)
Lemma ends_bind {A B} P (c : ST S A) (k : A -> ST S B) (R : res A -> S -> Prop) (Q : res B -> S -> Prop) :
  ends P c R -> (forall a, ends (R (Ok a)) (k a) Q) ->
  (forall e s, R (Throw e) s -> Q (Throw e) s) -> (forall s, R UB s -> Q UB s) -> ends P (c ≫= k) Q.
Proof.
  intros Hc Hk Hthrow Hub s Hs. specialize (Hc s Hs). unfold mbind, ST_bind.
  destruct (c s) as [[a|e|] s']; cbn in *; [by apply Hk|by apply Hthrow|by apply Hub].
Qed.

Lemma keeps_bind {A B} I (c : ST S A) (k : A -> ST S B) : keeps I c -> (forall a, keeps I (k a)) -> keeps I (c ≫= k).
Proof. intros Hc Hk. eapply ends_bind; [exact Hc|exact Hk|done|done]. Qed.

Lemma sound_bind {A B} I (c : ST S A) (k : A -> ST S B) : sound I c -> (forall a, sound I (k a)) -> sound I (c ≫= k).
Proof.
  intros Hc Hk. eapply ends_bind; [exact Hc| |by intros e s [_ Hs]|by intros s [Hs _]].
  intros a s [_ Hs]. by apply Hk.
Qed.

(** A method that keeps [P] before another one. *)
Lemma ends_after {A B} P (c : ST S A) (k : A -> ST S B) (Q : res B -> S -> Prop) :
  keeps P c -> (forall a, ends P (k a) Q) -> (forall e s, P s -> Q (Throw e) s) -> (forall s, P s -> Q UB s) ->
  ends P (c ≫= k) Q.
Proof. intros Hc Hk Ht Hu. by eapply ends_bind. Qed.

(** A method that establishes [I] before another one. *)
Lemma sound_then {A B} P I (c : ST S A) (k : A -> ST S B) :
  ends P c (fun r s => r <> UB /\ I s) -> (forall a, sound I (k a)) -> ends P (c ≫= k) (fun r s => r <> UB /\ I s).
Proof.
  intros Hc Hk. eapply ends_bind; [exact Hc| |by intros e s [_ Hs]|by intros s [Hs _]].
  intros a s [_ Hs]. by apply Hk.
Qed.

Lemma keeps_ret {A} I (a : A) : keeps I (mret a).
Proof. by intros s Hs. Qed.
Lemma keeps_throw {A} I e : keeps I (throw (A := A) e).
Proof. by intros s Hs. Qed.
Lemma keeps_undefined {A} I : keeps I (undefined (A := A)).
Proof. by intros s Hs. Qed.
Lemma keeps_get I : keeps I get.
Proof. by intros s Hs. Qed.
Lemma keeps_query {A} I (f : S -> res A) : keeps I (query f).
Proof. by intros s Hs. Qed.
Lemma keeps_modify I f : (forall s, I s -> I (f s)) -> keeps I (modify f).
Proof. intros Hf s Hs. by apply Hf. Qed.

Lemma keeps_catch {A} I (c : ST S A) h : keeps I c -> (forall e k, h e = Some k -> keeps I k) -> keeps I (catch c h).
Proof.
  intros Hc Hh s Hs. specialize (Hc s Hs). unfold catch.
  destruct (c s) as [[a|e|] s']; cbn in *; [done| |done].
  destruct (h e) eqn:E; [|done]. by apply (Hh e _ E).
Qed.

Lemma sound_ret {A} I (a : A) : sound I (mret a).
Proof. by intros s Hs. Qed.
Lemma sound_throw {A} I e : sound I (throw (A := A) e).
Proof. by intros s Hs. Qed.
Lemma sound_get I : sound I get.
Proof. by intros s Hs. Qed.
Lemma sound_query {A} I (f : S -> res A) : (forall s, I s -> f s <> UB) -> sound I (query f).
Proof. intros Hf s Hs. split; [by apply Hf|done]. Qed.
Lemma sound_modify I f : (forall s, I s -> I (f s)) -> sound I (modify f).
Proof. intros Hf s Hs. split; [done|]. by apply Hf. Qed.

Lemma sound_catch {A} I (c : ST S A) h : sound I c -> (forall e k, h e = Some k -> sound I k) -> sound I (catch c h).
Proof.
  intros Hc Hh s Hs. destruct (Hc s Hs) as [Hr Hs']. unfold catch.
  destruct (c s) as [[a|e|] s']; cbn in *; [done| |done].
  destruct (h e) eqn:E; [|done]. by apply (Hh e _ E).
Qed.
End Rules.

Create HintDb keeps.
#[export] Hint Resolve keeps_ret keeps_throw keeps_undefined keeps_get keeps_query
  sound_ret sound_throw sound_get : keeps.

(** Decompose a method into its calls. *)
Ltac keep_step :=
  match goal with
  | |- keeps _ (mbind _ _) => apply keeps_bind; [|intros ?]
  | |- sound _ (mbind _ _) => apply sound_bind; [|intros ?]
  | |- keeps _ (match ?x with _ => _ end) => destruct x
  | |- sound _ (match ?x with _ => _ end) => destruct x
  | |- _ => solve [eauto with keeps]
  end.
Ltac keep := repeat keep_step.
End Methods.

Module Task.
Import ActionServer Methods.

(** What other threads do to the server between two calls of the callback. *)
Class Others (W E : Type) : Type := others : E -> server W -> server W * E.

(** A node: its members, the pointer to its action server, the rest of the world, and the messages
    it has published. *)
Record node (W E C M : Type) : Type := mk_node {
  members : C;
  server_of : option (server W);
  outside : E;
  sent : list M }.
Arguments mk_node {W E C M}.
Arguments members {W E C M}.
Arguments server_of {W E C M}.
Arguments outside {W E C M}.
Arguments sent {W E C M}.

Section Calls.
Context {W G R F E C M : Type} `{!GoalHandles W G R F} `{!Others W E}.

Definition set_members (c : C) (n : node W E C M) : node W E C M := mk_node c (server_of n) (outside n) (sent n).
Definition set_server (s : option (server W)) (n : node W E C M) : node W E C M :=
  mk_node (members n) s (outside n) (sent n).
Definition set_outside (e : E) (n : node W E C M) : node W E C M := mk_node (members n) (server_of n) e (sent n).

(** An assignment to members, a question to the world, a message. *)
Definition assign (f : C -> C) : ST (node W E C M) () := modify (fun n => set_members (f (members n)) n).
Definition look {A} (f : E -> A * E) : ST (node W E C M) A := fun n =>
  let '(a, e) := f (outside n) in (Ok a, set_outside e n).
Definition send (m : M) : ST (node W E C M) () :=
  modify (fun n => mk_node (members n) (server_of n) (outside n) (sent n ++ [m])).

(** A call of the action server. *)
Definition with_server {A} (f : server W -> A * server W) : ST (node W E C M) A := fun n =>
  match server_of n with
  | None => (UB, n)
  | Some s =>
      let '(s, e) := others (outside n) s in
      let '(a, s) := f s in
      (Ok a, mk_node (members n) (Some s) e (sent n))
  end.
Definition ask {A} (f : server W -> A) : ST (node W E C M) A := with_server (fun s => (f s, s)).
Definition tell (c : call R F) : ST (node W E C M) () := with_server (fun s => (tt, run_call c s)).
Definition accept : ST (node W E C M) (option G) := with_server accept_pending_goal.

(** ** A callback makes steps of the server *)

(** Steps of the other threads, and those of the callback as well. *)
Definition is_other (a : actor) : bool := match a with by_goal | by_cancel | by_user => true | _ => false end.
Definition is_task (a : actor) : bool := match a with by_callback => true | _ => is_other a end.

Definition other_step (s s' : server W) : Prop := exists a, is_other a = true /\ step true false a s s'.
Definition task_step (s s' : server W) : Prop := exists a, is_task a = true /\ step true false a s s'.

Class OtherLaws : Prop :=
  others_steps e s : worker s = InCallback -> rtc other_step s (fst (others e s)).

(** The callback that started at [s0] has not returned. *)
Definition running (s0 : server W) (n : node W E C M) : Prop :=
  exists s, server_of n = Some s /\ worker s = InCallback /\ rtc task_step s0 s.

Lemma run_call_worker (c : call R F) s : worker (run_call c s) = worker s.
Proof.
  destruct c; cbn;
    unfold accept_pending_goal, terminate_pending_goal, terminate_all, terminate_current, succeeded_current, publish_feedback;
    unfold terminate_current_handle, terminate_pending_handle;
    repeat (case_match; cbn; try done).
Qed.

Lemma handle_accepted_worker h w s : worker s = InCallback -> worker (handle_accepted h (set_handles w s)) = InCallback.
Proof.
  intros Hw. unfold handle_accepted, is_running, set_handles, worker in *.
  rewrite Hw, orb_true_r. unfold terminate_pending_handle. by repeat (case_match; cbn).
Qed.

Lemma task_step_worker s s' : task_step s s' -> worker s = InCallback -> worker s' = InCallback.
Proof.
  intros (a & Ha & Hs) Hw.
  destruct Hs; cbn in Ha; try discriminate Ha; cbn.
  all: try done; try (by apply handle_accepted_worker); try (by rewrite run_call_worker).
  all: unfold deactivate_wait, deactivate_deadline, terminate_all, terminate_current_handle, terminate_pending_handle.
  all: by repeat (case_match; cbn).
Qed.

Lemma other_task s s' : other_step s s' -> task_step s s'.
Proof. intros (a & Ha & Hs). exists a. split; [by destruct a|done]. Qed.

Lemma others_run s s' : rtc other_step s s' -> worker s = InCallback -> worker s' = InCallback /\ rtc task_step s s'.
Proof.
  induction 1 as [s|s t s' Hst _ IH]; intros Hw; [by split; [|constructor]|].
  apply other_task in Hst. destruct (IH (task_step_worker _ _ Hst Hw)) as [Hw' Hr].
  split; [done|]. by eapply rtc_l.
Qed.

Context `{!OtherLaws}.

(** A call that leaves the server alone or is one of the calls of a callback. *)
Lemma with_server_running {A} (f : server W -> A * server W) s0 :
  (forall s, worker s = InCallback -> snd (f s) = s \/ exists c, snd (f s) = run_call c s) ->
  keeps (running s0) (with_server f).
Proof.
  intros Hf n (s & Hs & Hw & Hr). unfold with_server. rewrite Hs.
  destruct (others_run s _ (others_steps (outside n) s Hw) Hw) as [Hw1 Hr1].
  destruct (others (outside n) s) as [s1 e]. cbn [fst] in *.
  specialize (Hf s1 Hw1). destruct (f s1) as [a s2]. cbn [snd] in *.
  assert (rtc task_step s0 s1) as H1 by (etrans; [exact Hr|exact Hr1]).
  destruct Hf as [-> | [c ->]]; [by exists s1|].
  exists (run_call c s1). split; [done|]. split; [by rewrite run_call_worker|].
  eapply rtc_r; [exact H1|]. exists by_callback. split; [done|by constructor].
Qed.

Lemma ask_running {A} (f : server W -> A) s0 : keeps (running s0) (ask f).
Proof. apply with_server_running. by left. Qed.
Lemma tell_running c s0 : keeps (running s0) (tell c).
Proof. apply with_server_running. intros s _. right. by exists c. Qed.
Lemma accept_running s0 : keeps (running s0) accept.
Proof. apply with_server_running. intros s _. right. by exists call_accept_pending. Qed.
Lemma look_running {A} (f : E -> A * E) s0 : keeps (running s0) (look f).
Proof. intros n (s & Hs & Hn). unfold look. destruct (f (outside n)). by exists s. Qed.
Lemma send_running m s0 : keeps (running s0) (send m).
Proof. intros n (s & Hs & Hn). by exists s. Qed.
Lemma assign_running f s0 : keeps (running s0) (assign f).
Proof. intros n (s & Hs & Hn). by exists s. Qed.

(** The server of a callback is in a state that the server can reach. *)
Lemma running_reachable ok s0 n : reachable ok false s0 -> running s0 n ->
  exists s, server_of n = Some s /\ worker s = InCallback /\ reachable ok false s.
Proof.
  intros (w & Hw & Hr) (s & Hs & Hwk & Hrt). exists s. split; [done|]. split; [done|].
  exists w. split; [done|]. etrans; [exact Hr|]. eapply rtc_subrel; [|exact Hrt].
  intros a b (c & Hc & Hab). exists c.
  destruct Hab; cbn in Hc; try discriminate Hc; by econstructor.
Qed.

(** ** The end of a goal *)

(** The goal that was current is over. *)
Definition over (n : node W E C M) : Prop := exists s, server_of n = Some s /\ is_active (current_handle s) s = false.

(** After one of these calls it is. *)
Definition final (c : call R F) : bool :=
  match c with call_terminate_all _ | call_terminate_current _ | call_succeeded _ => true | _ => false end.

(** The last call of the server. *)
Definition last_call (c : call R F) (n : node W E C M) : Prop := exists s, server_of n = Some (run_call c s).

Lemma terminate_current_none r (s : server W) :
  is_active (current_handle (terminate_current_handle r s)) (terminate_current_handle r s) = false.
Proof.
  unfold terminate_current_handle.
  destruct (current_handle s) eqn:Hc; [destruct (h_is_active n (handles s)) eqn:Ha|]; cbn; by rewrite ?Hc.
Qed.

Lemma final_over `{!GoalHandleLaws W G R F} c (s : server W) :
  final c = true -> is_active (current_handle (run_call c s)) (run_call c s) = false.
Proof.
  destruct c; try done; intros _; cbn.
  - unfold terminate_all. pose proof (terminate_current_none result s) as Hn.
    set (s1 := terminate_current_handle result s) in *. clearbody s1. unfold terminate_pending_handle.
    destruct (pending_handle s1) as [p|]; [|exact Hn].
    destruct (h_is_active p (handles s1)); [|exact Hn]. cbn in *.
    destruct (current_handle s1) as [h|]; [|done]. cbn in *. by rewrite end_goal_active, Hn, andb_false_r.
  - apply terminate_current_none.
  - unfold succeeded_current. destruct (current_handle s) as [h|] eqn:Hc; [destruct (h_is_active h (handles s)) eqn:Ha|];
      cbn; by rewrite ?Hc.
Qed.

Lemma tell_last c (n : node W E C M) r n' : tell c n = (Ok r, n') -> last_call c n'.
Proof.
  unfold tell, with_server. destruct (server_of n) as [s|]; [|done].
  destruct (others (outside n) s) as [s1 e]. intros [= _ <-]. by exists s1.
Qed.

Lemma last_over `{!GoalHandleLaws W G R F} c (n : node W E C M) : final c = true -> last_call c n -> over n.
Proof. intros Hc [s Hs]. exists (run_call c s). split; [done|]. by apply final_over. Qed.

(** ** A callback that has its goal *)

(** Until the callback makes a final call, either its goal is active or a deactivation is under way; if the
    goal was not there when the callback asked for it, [known] is false and the latter is the case. *)
Record held (known : bool) (s : server W) : Prop := {
  held_worker : worker s = InCallback;
  held_inv : inv s;
  held_flags : deactivating s <> NotStopping -> server_active s = false;
  held_goal : is_active (current_handle s) s = true \/ deactivating s <> NotStopping;
  held_known : known = false -> deactivating s <> NotStopping }.

Section Held.
Context `{!GoalHandleLaws W G R F}.

Lemma terminate_pending_current r (s : server W) : inv s ->
  is_active (current_handle s) s = true ->
  is_active (current_handle (terminate_pending_handle r s)) (terminate_pending_handle r s) = true.
Proof.
  intros Hi Ha. unfold terminate_pending_handle. destruct (pending_handle s) as [p|] eqn:Hp; [|done].
  destruct (h_is_active p (handles s)); [|done]. cbn. destruct (current_handle s) as [c|] eqn:Hc; [|done].
  cbn in *. rewrite end_goal_active, Ha, andb_true_r. apply negb_true_iff, bool_decide_eq_false.
  intros ->. by destruct (inv_distinct s Hi p Hp).
Qed.

Lemma accepted_deactivating h (s : server W) : deactivating (handle_accepted h s) = deactivating s /\ server_active (handle_accepted h s) = server_active s.
Proof. unfold handle_accepted, terminate_pending_handle. by repeat (case_match; cbn). Qed.

(** A goal that arrives while the callback runs becomes the pending one. *)
Lemma arrived_current h w (s : server W) : worker s = InCallback -> inv s -> h_is_active h (handles s) = false ->
  (forall h', h' <> h -> h_is_active h' w = h_is_active h' (handles s)) ->
  is_active (current_handle s) s = true ->
  is_active (current_handle (handle_accepted h (set_handles w s))) (handle_accepted h (set_handles w s)) = true.
Proof.
  intros Hw Hi Hh Hsame Ha. destruct (current_handle s) as [c|] eqn:Hc; [|done]. cbn in Ha.
  assert (h_is_active c w = true) as Hcw by (rewrite Hsame; [done|by intros ->; rewrite Ha in Hh]).
  unfold handle_accepted, is_running. cbn. rewrite Hw, orb_true_r. cbn.
  destruct (pending_handle s) as [p|] eqn:Hp; cbn; [|by rewrite ?Hc; cbn; rewrite ?Hcw].
  destruct (h_is_active p w) eqn:Hpw; cbn; [|by rewrite Hc; cbn].
  unfold terminate_pending_handle. cbn. rewrite Hp, Hpw. cbn. rewrite Hc. cbn.
  rewrite end_goal_active, Hcw, andb_true_r. apply negb_true_iff, bool_decide_eq_false.
  intros ->. by destruct (inv_distinct s Hi p Hp).
Qed.

Lemma held_step k (s s' : server W) : other_step s s' -> held k s -> held k s'.
Proof.
  intros (a & Ha & Hs) [Hw Hi Hf Hg Hk].
  assert (worker s' = InCallback) as Hw' by (eapply task_step_worker; [apply other_task; by exists a|done]).
  pose proof (step_inv true false a s s' Hs Hi) as Hi'.
  destruct Hs as [h w' s Hfresh Hc Hp Hnew Hsame|h w' s Hcancel Hsame|s Hwk|s Hwk|s Hwk|s Hwk|s Hwk|s Hwk|c s Hwk|s Hwk
    |s Hd|s Hd|s Hd|passed s Hd|s Hd]; cbn in Ha; try discriminate Ha.
  - destruct (accepted_deactivating h (set_handles w' s)) as [Ed Ea].
    split; rewrite ?Ed, ?Ea; try done. destruct Hg as [Hg|Hg]; [left|by right]. by apply arrived_current.
  - split; try done. destruct Hg as [Hg|Hg]; [left|by right]. cbn in *. destruct (current_handle s); [|done]. cbn in *. by rewrite Hsame.
  - by split.
  - split; try done. by right.
  - split; try done; cbn; rewrite Hw; cbn; [intros _; apply Hf; by rewrite Hd|by right|done].
  - unfold deactivate_wait, is_running in *. rewrite Hw in *. destruct passed; cbn in *; split; try done; cbn.
    + intros _. apply Hf. by rewrite Hd.
    + by right.
  - split; try done; cbn; [|by right]. intros _. unfold terminate_all, terminate_current_handle, terminate_pending_handle.
    assert (server_active s = false) as Hfs by (apply Hf; by rewrite Hd). by repeat (case_match; cbn).
Qed.

Lemma held_others k s s' : rtc other_step s s' -> held k s -> held k s'.
Proof. induction 1 as [|s t s' Hst _ IH]; intros Hs; [done|]. by apply IH, (held_step k s t). Qed.

Lemma held_accept k s : held k s -> held k (snd (accept_pending_goal s)).
Proof.
  intros [Hw Hi Hf Hg Hk]. pose proof (run_call_worker call_accept_pending s) as Hw2. cbn in Hw2.
  destruct (pending_handle s) as [p|] eqn:Hp; [|by rewrite accept_pending_none].
  destruct (accept_pending_spec s p Hi Hp) as (Hi2 & _ & Hc & _ & Hact).
  assert (deactivating (snd (accept_pending_goal s)) = deactivating s /\ server_active (snd (accept_pending_goal s)) = server_active s) as [Ed Ea].
  { unfold accept_pending_goal. rewrite Hp, (inv_pending s Hi p Hp). cbn.
    destruct (current_handle s); [|done]. by case_match. }
  split; rewrite ?Ed, ?Ea; try done; [by rewrite Hw2|]. left. rewrite Hc. cbn. by rewrite Hact, bool_decide_true.
Qed.

(** A server that is being deactivated is not active. *)
Lemma flags_step ok (s s' : server W) : any_step ok false s s' ->
  (deactivating s <> NotStopping -> server_active s = false) -> deactivating s' <> NotStopping -> server_active s' = false.
Proof.
  intros [a Hs] Hf. destruct Hs as [h w' s| | | | |s|s| |c s| | | |s Hd|passed s Hd|s Hd]; try done.
  - destruct (accepted_deactivating h (set_handles w' s)) as [-> ->]. exact Hf.
  - unfold work_condition. by case_match.
  - unfold work_threw, terminate_all, terminate_current_handle, terminate_pending_handle. by repeat (case_match; cbn).
  - unfold work_returned, terminate_all, terminate_current_handle, terminate_pending_handle, accept_pending_goal.
    by repeat (case_match; cbn).
  - destruct c; cbn; unfold accept_pending_goal, terminate_pending_goal, terminate_current, succeeded_current, publish_feedback,
      terminate_all, terminate_current_handle, terminate_pending_handle; by repeat (case_match; cbn).
  - intros _. cbn. apply Hf. by rewrite Hd.
  - intros _. unfold deactivate_wait. assert (server_active s = false) by (apply Hf; by rewrite Hd). by repeat (case_match; cbn).
  - intros _. assert (server_active s = false) by (apply Hf; by rewrite Hd).
    unfold deactivate_deadline, terminate_all, terminate_current_handle, terminate_pending_handle. by repeat (case_match; cbn).
Qed.

Lemma reachable_flags ok (s : server W) : reachable ok false s -> deactivating s <> NotStopping -> server_active s = false.
Proof.
  intros (w & _ & Hr). remember (new w) as s0 eqn:E0.
  assert (deactivating s0 <> NotStopping -> server_active s0 = false) as Hf by (by subst).
  clear E0. induction Hr as [s|s t s' Hst _ IH]; [done|]. by apply IH, (flags_step ok s t).
Qed.

(** When the worker enters the callback it holds its goal. *)
Lemma started_held ok (s : server W) : reachable ok false s -> worker s = AtCondition ->
  worker (work_condition ok s) = InCallback -> held true (work_condition ok s).
Proof.
  intros Hr Hw Hc. pose proof (reachable_flags ok s Hr) as Hf. pose proof (reachable_inv ok false s Hr) as Hi.
  assert (inv (work_condition ok s)) as Hi' by (eapply (step_inv ok false by_worker); [by constructor|done]).
  unfold work_condition in *. destruct (ok && negb (stop_execution s) && is_active (current_handle s) s) eqn:Hb; [|done].
  apply andb_prop in Hb as [_ Hb]. split; try done. by left.
Qed.

(** A callback that holds its goal; [J] is a property of the members, [l] what was sent. *)
Definition holding (k : bool) (J : C -> Prop) (l : list M) (n : node W E C M) : Prop :=
  (exists s, server_of n = Some s /\ held k s) /\ J (members n) /\ sent n = l.

(** A call that leaves it its goal. *)
Lemma holding_server {A} k J l (f : server W -> A * server W) (Q : A -> server W -> Prop) :
  (forall s, held k s -> held k (snd (f s)) /\ Q (fst (f s)) (snd (f s))) ->
  ends (holding k J l) (with_server f) (fun r n => exists a s, r = Ok a /\ server_of n = Some s /\ Q a s /\ holding k J l n).
Proof.
  intros Hf n [(s & Hs & Hh) Hn]. unfold with_server. rewrite Hs.
  pose proof (others_steps (outside n) s (held_worker k s Hh)) as Hr.
  destruct (others (outside n) s) as [s1 e]. cbn [fst] in Hr.
  destruct (Hf s1 (held_others k s s1 Hr Hh)) as [Hh2 HQ]. destruct (f s1) as [a s2]. cbn in *.
  exists a, s2. split; [done|]. split; [done|]. split; [done|]. split; [by exists s2|exact Hn].
Qed.

Lemma holding_ask {A} k J l (f : server W -> A) : sound (holding k J l) (ask f).
Proof.
  eapply ends_weaken; [apply (holding_server k J l _ (fun _ _ => True)); by intros s Hs|].
  by intros r n (a & s & -> & _ & _ & Hn).
Qed.
Lemma holding_accept k J l : sound (holding k J l) accept.
Proof.
  eapply ends_weaken; [apply (holding_server k J l _ (fun _ _ => True)); intros s Hs; split; [by apply held_accept|done]|].
  by intros r n (a & s & -> & _ & _ & Hn).
Qed.
Lemma holding_look {A} k J l (f : E -> A * E) : sound (holding k J l) (look f).
Proof. intros n Hn. unfold look. by destruct (f (outside n)). Qed.

(** The goal the callback asks for is there, unless the server is being deactivated. *)
Lemma holding_goal k J l : ends (holding k J l) (ask get_current_goal)
  (fun r n => exists g, r = Ok g /\ holding (k && bool_decide (is_Some g)) J l n).
Proof.
  intros n Hn.
  destruct (holding_server k J l (fun s => (get_current_goal s, s)) (fun g s => g = get_current_goal s)
    (fun s Hs => conj Hs eq_refl) n Hn) as (g & s & Hr & Hs & Hg & (s' & Hs' & Hh) & HJ).
  rewrite Hs in Hs'. injection Hs' as <-. exists g. split; [exact Hr|]. split; [|exact HJ]. exists s. split; [done|].
  destruct Hh as [Hw Hi Hf Hgoal Hk]. split; try done. intros Hkg.
  destruct k; [|by apply Hk]. cbn in Hkg. apply bool_decide_eq_false in Hkg. destruct Hgoal as [Ha|]; [|done].
  destruct Hkg. subst g. unfold get_current_goal. destruct (current_handle s); [|done]. cbn in Ha. rewrite Ha. by eexists.
Qed.

(** Where it is not there, the server is not active. *)
Lemma holding_active k J l : ends (holding k J l) (ask is_server_active)
  (fun r n => exists b, r = Ok b /\ holding k J l n /\ (b = true -> k = true)).
Proof.
  intros n Hn.
  destruct (holding_server k J l (fun s => (is_server_active s, s)) (fun b s => b = is_server_active s)
    (fun s Hs => conj Hs eq_refl) n Hn) as (b & s & Hr & Hs & Hb & Hh).
  exists b. split; [exact Hr|]. split; [exact Hh|]. intros ->. destruct k; [done|].
  destruct Hh as [(s' & Hs' & [_ _ Hf _ Hk]) _]. rewrite Hs in Hs'. injection Hs' as <-.
  unfold is_server_active in Hb. by rewrite (Hf (Hk eq_refl)) in Hb.
Qed.

(** A final call ends the goal, and sends nothing. *)
Lemma holding_final k J l c : final c = true -> ends (holding k J l) (tell c)
  (fun r n => r = Ok tt /\ over n /\ last_call c n /\ J (members n) /\ sent n = l).
Proof.
  intros Hc n [(s & Hs & Hh) Hn]. pose proof (tell_last c n tt (snd (tell c n))) as Hl.
  unfold tell, with_server in *. rewrite Hs in *. destruct (others (outside n) s) as [s1 e]. cbn [fst snd] in *.
  specialize (Hl eq_refl). split; [done|]. split; [by apply (last_over c)|]. split; [done|exact Hn].
Qed.
End Held.
End Calls.
End Task.

(** ** A library of goal handles for runs *)

Module Book.
Import ActionServer Task.

Section Book.
Context {G R F : Type} (no_goal : G) (no_result : R).

(** The active handles with their goals and whether they are being cancelled, and the results. *)
Record book : Type := mk_book { live : list (nat * (G * bool)); results : list (nat * R) }.

Definition drop_live (h : nat) (l : list (nat * (G * bool))) : list (nat * (G * bool)) :=
  List.filter (fun x => negb (Nat.eqb x.1 h)) l.
Definition has_live (h : nat) (l : list (nat * (G * bool))) : bool := existsb (fun x => Nat.eqb x.1 h) l.
Definition finish (h : nat) (r : R) (w : book) : book := mk_book (drop_live h (live w)) (results w ++ [(h, r)]).

Definition book_handles : GoalHandles book G R F := {|
  h_is_active h w := has_live h (live w);
  h_is_canceling h w := existsb (fun x => Nat.eqb x.1 h && x.2.2) (live w);
  h_get_goal h w := match List.find (fun x => Nat.eqb x.1 h) (live w) with Some x => x.2.1 | None => no_goal end;
  h_get_goal_id h w := Z.of_nat h;
  h_abort := finish;
  h_canceled := finish;
  h_succeed := finish;
  h_publish_feedback _ _ w := w;
  empty_result := no_result |}.

#[local] Existing Instance book_handles.

Lemma drop_live_has h l h' : has_live h' (drop_live h l) = negb (bool_decide (h' = h)) && has_live h' l.
Proof.
  unfold drop_live, has_live. induction l as [|[k b] l IH]; [by rewrite andb_false_r|].
  cbn [List.filter existsb fst]. destruct (Nat.eqb_spec k h) as [->|D]; cbn [negb existsb fst]; rewrite IH.
  - destruct (Nat.eqb_spec h h') as [->|]; [|done]. by rewrite bool_decide_true.
  - destruct (Nat.eqb_spec k h') as [->|]; [|done]. by rewrite bool_decide_false.
Qed.

Lemma book_laws : GoalHandleLaws book G R F.
Proof. constructor; intros; cbn; try done; apply drop_live_has. Qed.

(** What another thread may do. *)
Inductive move : Type := Arrive (h : nat) (g : G) | AskCancel (h : nat) | Flags | Future | Wait (passed : bool) | AtDeadline.

Definition mark (h : nat) (w : book) : book :=
  mk_book (map (fun x => if Nat.eqb x.1 h then (x.1, (x.2.1, true)) else x) (live w)) (results w).

Definition is_fresh (h : nat) (s : server book) : bool :=
  negb (h_is_active h (handles s)) && negb (bool_decide (current_handle s = Some h)) &&
  negb (bool_decide (pending_handle s = Some h)).

Definition make_move (m : move) (s : server book) : server book :=
  match m with
  | Arrive h g =>
      if is_fresh h s
      then handle_accepted h (set_handles (mk_book ((h, (g, false)) :: live (handles s)) (results (handles s))) s) else s
  | AskCancel h => if h_is_active h (handles s) then set_handles (mark h (handles s)) s else s
  | Flags => if decide (deactivating s = NotStopping) then deactivate_flags s else s
  | Future => if decide (deactivating s = Stopping) then deactivate_future s else s
  | Wait passed => if decide (deactivating s = Waiting) then deactivate_wait passed s else s
  | AtDeadline => if decide (deactivating s = Deadline) then deactivate_deadline false s else s
  end.

Lemma mark_live h l h' : has_live h' (map (fun x => if Nat.eqb x.1 h then (x.1, (x.2.1, true)) else x) l) = has_live h' l.
Proof.
  unfold has_live. induction l as [|[k [g b]] l IH]; [done|]. cbn [map existsb fst]. rewrite IH. by destruct (Nat.eqb k h).
Qed.

(** A move is a step of another thread; only the last one is taken at a deadline. *)
Lemma move_step m s : make_move m s = s \/ exists a, is_other a = true /\
  (a = by_user -> m <> AtDeadline -> deactivating s <> Deadline) /\ step true false a s (make_move m s).
Proof.
  destruct m; cbn [make_move].
  - destruct (is_fresh h s) eqn:Hf; [right|by left]. unfold is_fresh in Hf.
    apply andb_prop in Hf as [[Ha Hc]%andb_prop Hp]. exists by_goal. split; [done|]. split; [done|].
    apply step_goal; [by apply negb_true_iff in Ha| | | |].
    + by apply negb_true_iff, bool_decide_eq_false in Hc.
    + by apply negb_true_iff, bool_decide_eq_false in Hp.
    + cbn. by rewrite Nat.eqb_refl.
    + intros h' Hne. cbn. by destruct (Nat.eqb_spec h h') as [->|].
  - destruct (h_is_active h (handles s)) eqn:Ha; [right|by left]. exists by_cancel. split; [done|]. split; [done|].
    apply (step_cancel true false h).
    + unfold handle_cancel. by rewrite Ha.
    + intros h'. apply mark_live.
  - destruct (decide (deactivating s = NotStopping)) as [D|]; [right|by left]. exists by_user.
    split; [done|]. split; [by rewrite D|]. by constructor.
  - destruct (decide (deactivating s = Stopping)) as [D|]; [right|by left]. exists by_user.
    split; [done|]. split; [by rewrite D|]. by constructor.
  - destruct (decide (deactivating s = Waiting)) as [D|]; [right|by left]. exists by_user.
    split; [done|]. split; [by rewrite D|]. by constructor.
  - destruct (decide (deactivating s = Deadline)) as [D|]; [right|by left]. exists by_user.
    split; [done|]. split; [done|]. by constructor.
Qed.

Definition make_moves (l : list move) (s : server book) : server book := fold_left (fun s m => make_move m s) l s.

Lemma moves_steps l s : rtc other_step s (make_moves l s).
Proof.
  revert s. induction l as [|m l IH]; intros s; [constructor|]. cbn.
  destruct (move_step m s) as [E | (a & Ha & _ & Hs)]; [rewrite E; apply IH|].
  eapply rtc_l; [by exists a|apply IH].
Qed.

(** A server that serves the goal 1. *)
Definition serving (g : G) : server book :=
  work_condition true (handle_accepted 1 (set_handles (mk_book [(1%nat, (g, false))] []) (activate (new (mk_book [] []))))).

Lemma serving_reachable g : reachable true false (serving g).
Proof.
  exists (mk_book [] []). split; [done|]. unfold serving.
  eapply rtc_l; [exists by_user; by apply step_activate|].
  eapply rtc_l; [exists by_goal; apply (step_goal true false 1 (mk_book [(1%nat, (g, false))] [])); try done|].
  { by intros [|[|h]] Hh. }
  eapply rtc_l; [exists by_worker; by apply step_condition|]. constructor.
Qed.

Lemma serving_held g : held (F := F) true (serving g).
Proof.
  split; [done| |by intros []|by left|done]. eapply (reachable_inv (GoalHandleLaws0 := book_laws)), serving_reachable.
Qed.
End Book.

Arguments book : clear implicits.
Arguments move : clear implicits.
End Book.
#[export] Hint Resolve Task.holding_ask Task.holding_accept Task.holding_look : keeps.
#[export] Hint Resolve Task.ask_running Task.tell_running Task.accept_running Task.look_running
  Task.send_running Task.assign_running : keeps.
