(* ===== verification/NavMessages.v ===== *)
(** * Poses, paths and their geometry ([nav_2d_utils]: [conversions.cpp], [tf_help.cpp];
    [nav2_util/geometry_utils.hpp])

    What the servers of navigation share: messages with poses, conversions between planar and
    spatial poses, lengths of paths, and the transformation of a pose to another frame. *)

From stdpp Require Import base option list numbers strings.
From Stdlib Require Import ZArith Lia SpecFloat String.
From S2P Require Import Prelude Float64 Footprint NavFn NavfnPlanner VelocitySmoother.

(** [tf2::getYaw] and the package [angles]. *)
Class Angles : Type := {
  getYaw : quaternion -> f64;
  shortest_angular_distance : f64 -> f64 -> f64 }.

Module Messages.
Export NavfnPlanner(pose, mk_pose, px, py, pz, orientation).
Export Velocities.

Record PoseStamped : Type := mk_pose_stamped { pose_header : Header; pose_of : pose }.
Record Path : Type := mk_path { path_header : Header; poses : list PoseStamped }.
Record Pose2D : Type := mk_pose2d { pose2d_x : f64; pose2d_y : f64; pose2d_theta : f64 }.
Record Twist2D : Type := mk_twist2d { twist2d_x : f64; twist2d_y : f64; twist2d_theta : f64 }.
Record Path2D : Type := mk_path2d { path2d_header : Header; poses2d : list Pose2D }.

(** Messages are created with zeros and the identity. *)
Definition identity_rotation : quaternion := mk_quaternion f64_zero f64_zero f64_zero (f64_of_Z 1).
Definition new_pose : pose := mk_pose f64_zero f64_zero f64_zero identity_rotation.
Definition new_pose_stamped : PoseStamped := mk_pose_stamped no_header new_pose.
Definition new_path : Path := mk_path no_header [].

(** ** Conversions *)

Section Conversions.
Context `{Angles} `{Rotation}.

Definition twist2Dto3D (t : Twist2D) : Twist := planar (twist2d_x t) (twist2d_y t) (twist2d_theta t).
Definition twist3Dto2D (t : Twist) : Twist2D := mk_twist2d (lin_x t) (lin_y t) (ang_z t).

Definition poseToPose2D (p : pose) : Pose2D := mk_pose2d (px p) (py p) (getYaw (orientation p)).
Definition poseStampedToPose2D (p : PoseStamped) : Header * Pose2D := (pose_header p, poseToPose2D (pose_of p)).
Definition pose2DToPose (p : Pose2D) : pose :=
  mk_pose (pose2d_x p) (pose2d_y p) f64_zero (orientationAroundZAxis (pose2d_theta p)).
Definition pose2DToPoseStamped (p : Header * Pose2D) : PoseStamped := mk_pose_stamped (fst p) (pose2DToPose (snd p)).

Definition posesToPath (l : list PoseStamped) : Path :=
  match l with [] => new_path | p :: _ => mk_path (pose_header p) l end.
Definition pathToPath2D (p : Path) : Path2D :=
  mk_path2d (path_header p) (map (fun q => poseToPose2D (pose_of q)) (poses p)).
Definition poses2DToPath (l : list Pose2D) (frame : string) (time : Z * Z) : Path :=
  mk_path (mk_header time frame) (map (fun q => pose2DToPoseStamped (mk_header time frame, q)) l).
Definition pathToPath (p : Path2D) : Path :=
  mk_path (path2d_header p) (map (fun q => mk_pose_stamped (path2d_header p) (pose2DToPose q)) (poses2d p)).
End Conversions.

(** ** Distances *)

Section Distances.
Context `{Hypot}.

(** [euclidean_distance] of points, in the plane. *)
Definition euclidean_distance (p q : pose) : f64 := hypot (f64_sub (px p) (px q)) (f64_sub (py p) (py q)).
Definition euclidean_distance_2d (p q : Pose2D) : f64 :=
  hypot (f64_sub (pose2d_x p) (pose2d_x q)) (f64_sub (pose2d_y p) (pose2d_y q)).

(** The loop of [calculate_path_length], over the poses that are left. *)
Fixpoint sum_lengths (l : list PoseStamped) (path_length : f64) : f64 :=
  match l with
  | p :: (q :: _) as rest => sum_lengths rest (f64_add path_length (euclidean_distance (pose_of p) (pose_of q)))
  | _ => path_length
  end.

Definition calculate_path_length (path : Path) (start_index : nat) : f64 :=
  if (List.length (poses path) <=? start_index + 1)%nat then f64_zero
  else sum_lengths (drop start_index (poses path)) f64_zero.
End Distances.

(** ** Transformation to another frame *)

(** The buffer of transforms: [transform] and [lookupTransform], whose exceptions are
    [extrapolation_exception] and others derived from [transform_exception], and [doTransform]. *)
Class TransformBuffer (E : Type) : Type := {
  transform_stamped : Type;
  tf_stamp : transform_stamped -> Z * Z;
  tf_transform : PoseStamped -> string -> E -> outcome PoseStamped * E;
  lookupTransform : string -> string -> E -> outcome transform_stamped * E;
  doTransform : PoseStamped -> transform_stamped -> PoseStamped }.

Section Transform.
Context {E : Type} `{!TransformBuffer E} `{!Clocks}.

(** A call out of the program. *)
Definition out_call {A} (f : E -> outcome A * E) : ST E A := fun e => let '(o, e) := f e in (of_outcome o, e).

(** After an [ExtrapolationException]. *)
Definition transform_latest (frame : string) (in_pose : PoseStamped) (transform_tolerance : Z) :
    ST E (option PoseStamped) :=
  transform ← out_call (lookupTransform frame (frame_id (pose_header in_pose)));
  in_time ← query (fun _ => of_outcome (time_of_stamp (stamp (pose_header in_pose))));
  time ← query (fun _ => of_outcome (time_of_stamp (tf_stamp transform)));
  age ← query (fun _ => of_outcome (elapsed in_time time));
  mret (if age >? transform_tolerance then None else Some (doTransform in_pose transform)).

(** [transformPose]: [None] when it returns false. *)
Definition transformPose (frame : string) (in_pose : PoseStamped) (transform_tolerance : Z) :
    ST E (option PoseStamped) := fun e =>
  if String.eqb (frame_id (pose_header in_pose)) frame then (Ok (Some in_pose), e) else
  match out_call (tf_transform in_pose frame) e with
  | (Ok p, e) => (Ok (Some p), e)
  | (Throw extrapolation_exception, e) => transform_latest frame in_pose transform_tolerance e
  | (Throw transform_exception, e) => (Ok None, e)
  | (Throw x, e) => (Throw x, e)
  | (UB, e) => (UB, e)
  end.
End Transform.
End Messages.

(** A virtual call of a plugin, which may look at the world. *)
Definition virtual (P E A : Type) : Type := P -> E -> outcome A * P * E.

(** [Node::now] *)
Class Clock (E : Type) : Type := now : E -> Z * E.
