(* ===== verification/PluginNode.v ===== *)
(** * Nodes that run plugins for an action server

    The servers of navigation hold plugins by name and call them from the callback of an action
    ([ActionTask]). The parts they share: calls by name, loading, the wait for the costmap, and
    the deactivation of the action server. *)

From stdpp Require Import base option list numbers strings gmap relations.
From Stdlib Require Import ZArith Lia SpecFloat String.
From S2P Require Import Prelude Float64 Parameters CollisionSources VelocitySmoother NavMessages ActionServer ActionTask.

(** The order of iteration over an unordered map with these keys. *)
Class Buckets : Type := bucket_order : list string -> list string.

Module PluginNode.
Import ActionServer Methods Task Parameters.

Section Node.
Context {W E C M : Type}.

Abbreviation method := (ST (node W E C M)).

Definition own {A} (f : C -> A) : method A := n ← get; mret (f (members n)).

(** A call out of the program that may throw. *)
Definition out {A} (f : E -> outcome A * E) : method A := fun n =>
  let '(o, e) := f (outside n) in (of_outcome o, set_outside e n).

(** A time that passed; the subtraction is checked. *)
Definition since `{!Clocks} (t t0 : Z) : method Z := query (fun _ => of_outcome (elapsed t t0)).

(** ** Calls of plugins *)

(** [m[id]->f()], where the element of a missing key is a null pointer. *)
Definition call_plugin {P A} (m : C -> gmap string P) (put : gmap string P -> C -> C)
    (id : string) (f : virtual P E A) : method A := fun n =>
  match m (members n) !! id with
  | None => (UB, n)
  | Some p =>
      let '(o, p, e) := f p (outside n) in
      (of_outcome o, set_outside e (set_members (put (<[id := p]> (m (members n))) (members n)) n))
  end.

(** A loop over all plugins. *)
Fixpoint each_plugin {P} (m : C -> gmap string P) (put : gmap string P -> C -> C) (l : list string) (f : virtual P E ()) :
    method () :=
  match l with
  | [] => mret tt
  | id :: l => _ ← call_plugin m put id f; each_plugin m put l f
  end.

Definition for_plugins `{!Buckets} {P} (m : C -> gmap string P) (put : gmap string P -> C -> C) (f : virtual P E ()) :
    method () :=
  n ← get; each_plugin m put (bucket_order (map_to_list (m (members n))).*1) f.

(** A name that is a key, or no name where there is a single plugin. *)
Definition find_id {P} (m : gmap string P) (c_name : string) : option string :=
  match m !! c_name with
  | Some _ => Some c_name
  | None =>
      if (size m =? 1)%nat && String.eqb c_name ""
      then match map_to_list m with (id, _) :: _ => Some id | [] => None end
      else None
  end.

(** A name that was found belongs to the map. *)
Lemma find_id_dom {P} (m : gmap string P) name id : find_id m name = Some id -> id ∈ dom m.
Proof.
  unfold find_id. destruct (m !! name) as [q|] eqn:Hq; [intros [= <-]; apply elem_of_dom; by exists q|].
  destruct (_ && _); [|done]. destruct (map_to_list m) as [|[k v] l] eqn:Hl; [done|]. intros [= <-].
  apply elem_of_dom. exists v. apply elem_of_map_to_list. rewrite Hl. set_solver.
Qed.

(** ** Waiting *)

(** The wait for the costmap; false after [rounds] without an end. *)
Fixpoint wait_for_costmap `{!Clock E} `{!Clocks} (current : E -> bool * E) (timeout : C -> Z) (late : exn) (rounds : nat)
    (waiting_start : Z) : method bool :=
  match rounds with
  | O => mret false
  | S rounds =>
      ready ← look current;
      if (ready : bool) then mret true else
      time ← look now;
      age ← since time waiting_start;
      limit ← own timeout;
      if age >? limit then throw late else wait_for_costmap current timeout late rounds waiting_start
  end.

(** [action_server == nullptr || !action_server->is_server_active()] *)
Definition server_inactive `{!Others W E} : method bool :=
  n ← get;
  match server_of n with
  | None => mret true
  | Some _ => active ← ask is_server_active; mret (negb active)
  end.

(** The call of [deactivate], which waits for the worker; false if it still waits after [rounds]. *)
Fixpoint await_server `{!GoalHandles W G R F} `{!Others W E} (deadline_passed : E -> bool * E) (rounds : nat) : method bool :=
  match rounds with
  | O => mret false
  | S rounds =>
      state ← ask deactivating;
      match state with
      | NotStopping => mret true
      | Stopping => _ ← with_server (fun s => (tt, deactivate_future s)); await_server deadline_passed rounds
      | Waiting =>
          passed ← look deadline_passed;
          _ ← with_server (fun s => (tt, deactivate_wait passed s)); await_server deadline_passed rounds
      | Deadline => _ ← with_server (fun s => (tt, deactivate_deadline false s)); await_server deadline_passed rounds
      end
  end.

Definition deactivate_server `{!GoalHandles W G R F} `{!Others W E} (deadline_passed : E -> bool * E) (rounds : nat) :
    method bool :=
  _ ← with_server (fun s => (tt, deactivate_flags s)); await_server deadline_passed rounds.

(** ** Configuration *)

Context `{!NodeParameters}.

Definition param {A} (view : parameter -> option A) (name : string) (d : A) : method A :=
  query (fun _ => read_or view name d).

(** The types of the plugins with default names are declared with default values. *)
Definition declare_types (ids default_ids : list string) (default_type : string) : method () :=
  if bool_decide (ids = default_ids)
  then query (fun _ => for_list (fun id _ => _ ← read_or as_string (id ++ ".plugin")%string default_type; Ok tt) default_ids tt)
  else mret tt.

Definition get_plugin_type_param (default_type : option string) (id : string) : res string :=
  match read as_string default_type (id ++ ".plugin")%string with
  | Throw parameter_uninitialized => Throw runtime_error
  | r => r
  end.

Definition default_for (ids default_ids : list string) (default_type : string) : option string :=
  if bool_decide (ids = default_ids) then Some default_type else None.

(** [map::insert] *)
Definition insert_new {P} (id : string) (p : P) (m : gmap string P) : gmap string P :=
  match m !! id with Some _ => m | None => <[id := p]> m end.

(** A plugin that was just created is initialised. *)
Definition init_plugin {P} (f : virtual P E ()) (p : P) : method P := fun n =>
  let '(o, p, e) := f p (outside n) in ((fun _ => p) <$> of_outcome o, set_outside e n).

(** The loops that load plugins: [make] creates a plugin of a type and a name. *)
Fixpoint load_plugins {P} (m : C -> gmap string P) (put : gmap string P -> C -> C)
    (make : string -> string -> method P) (type : option string) (ids : list string) : method () :=
  match ids with
  | [] => mret tt
  | id :: ids =>
      t ← query (fun _ => get_plugin_type_param type id);
      p ← make t id;
      _ ← assign (fun c => put (insert_new id p (m c)) c);
      load_plugins m put make type ids
  end.
End Node.

Definition is_std (e : exn) : bool := negb (bool_decide (e = foreign_exception)).
Definition is_pluginlib (e : exn) : bool := bool_decide (e = pluginlib_exception).

Definition has_dot (name : string) : bool :=
  match String.index 0 "." name with Some _ => true | None => false end.

(** ** Velocities that were sent *)

Definition is_zero (m : VelocitySmoother.message) : Prop :=
  match m with
  | VelocitySmoother.TWIST t => t = Velocities.zero_twist
  | VelocitySmoother.TWIST_STAMPED m => Velocities.twist m = Velocities.zero_twist
  end.

(** The last velocity that was sent is zero. *)
Definition stopped {W E C} (n : node W E C VelocitySmoother.message) : Prop :=
  exists m, last (sent n) = Some m /\ is_zero m.

(** ** Laws *)

Section Laws.
Context {W E C M : Type}.

Lemma own_keeps {A} I (f : C -> A) : keeps I (own (W := W) (E := E) (M := M) f).
Proof. intros n Hn. exact Hn. Qed.
Lemma since_keeps `{!Clocks} I t t0 : keeps I (since (W := W) (E := E) (C := C) (M := M) t t0).
Proof. intros n Hn. exact Hn. Qed.
Lemma own_sound {A} I (f : C -> A) : sound I (own (W := W) (E := E) (M := M) f).
Proof. intros n Hn. by split. Qed.
Lemma of_outcome_defined {A} (o : outcome A) : of_outcome o <> UB.
Proof. by destruct o. Qed.
Lemma since_sound `{!Clocks} I t t0 : sound I (since (W := W) (E := E) (C := C) (M := M) t t0).
Proof. intros n Hn. split; [apply of_outcome_defined|exact Hn]. Qed.

(** A value of the members is known to what follows. *)
Lemma own_value {A B} I (f : C -> A) (k : A -> ST (node W E C M) B) :
  (forall a, ends (fun n => I n /\ f (members n) = a) (k a) (fun r n => r <> UB /\ I n)) -> sound I (own f ≫= k).
Proof. intros Hk n Hn. by apply (Hk (f (members n)) n). Qed.

Lemma own_any {A B} P (f : C -> A) (k : A -> ST (node W E C M) B) (Q : res B -> node W E C M -> Prop) :
  (forall a, ends P (k a) Q) -> ends P (own f ≫= k) Q.
Proof. intros Hk n Hn. by apply (Hk (f (members n)) n). Qed.

Lemma own_found {P A} (m : C -> gmap string P) name (k : option string -> ST (node W E C M) A) I (Q : res A -> node W E C M -> Prop) :
  ends I (k None) Q -> (forall id, ends (fun n => I n /\ id ∈ dom (m (members n))) (k (Some id)) Q) ->
  ends I (own (fun c => find_id (m c) name) ≫= k) Q.
Proof.
  intros Hnone Hsome n Hn. change ((own (fun c => find_id (m c) name) ≫= k) n) with (k (find_id (m (members n)) name) n).
  destruct (find_id (m (members n)) name) as [id|] eqn:Hid; [|by apply Hnone].
  apply Hsome. split; [done|]. by apply find_id_dom in Hid.
Qed.

(** A plugin that exists can be called. *)
Lemma call_plugin_ok {P A} (m : C -> gmap string P) put id (f : virtual P E A) (n : node W E C M) :
  id ∈ dom (m (members n)) -> fst (call_plugin m put id f n) <> UB.
Proof.
  intros [p Hp]%elem_of_dom. unfold call_plugin. rewrite Hp. destruct (f p (outside n)) as [[o p'] e]. apply of_outcome_defined.
Qed.
End Laws.
End PluginNode.
#[export] Hint Resolve PluginNode.own_keeps PluginNode.since_keeps PluginNode.own_sound PluginNode.since_sound : keeps.
