(* ===== verification/ControllerPlugins.v ===== *)
(** * Progress and goal checkers of the controller server ([nav2_controller/plugins])

    A progress checker tells whether the robot still moves, a goal checker whether it has arrived.
    The classes are the interfaces of [nav2_core]; each plugin of the repository is an instance. *)

From stdpp Require Import base option list numbers strings.
From Stdlib Require Import ZArith Lia SpecFloat String.
From S2P Require Import Prelude Float64 Footprint NavFn NavfnPlanner Parameters CollisionSources VelocitySmoother NavMessages.

Import Messages.

(** [nav2_core::ProgressChecker]: [check] may change the pose it is given. *)
Class ProgressCheckers (P E : Type) : Type := {
  check_progress : PoseStamped -> virtual P E (bool * PoseStamped);
  reset_progress : virtual P E () }.

(** [nav2_core::GoalChecker] *)
Class GoalCheckers (P E : Type) : Type := {
  reset_goal : virtual P E ();
  check_goal : pose -> pose -> Twist -> virtual P E bool;
  tolerances : virtual P E (bool * pose * Twist) }.

Module Checkers.
Import Messages Parameters.

Section Checkers.
Context `{Hypot} `{Angles} `{Rotation} `{Durations} `{Clocks} `{NodeParameters}.

Definition half : f64 := f64_div (f64_of_Z 1) (f64_of_Z 2).
Definition quarter : f64 := f64_div (f64_of_Z 1) (f64_of_Z 4).

(** ** [SimpleProgressChecker] *)

Record simple_progress : Type := mk_simple_progress {
  plugin_name_ : string;
  radius_ : f64;
  time_allowance_ : Z;
  baseline_pose_ : Pose2D;
  baseline_time_ : Z;
  baseline_pose_set_ : bool }.

Definition set_baseline (p : Pose2D) (t : Z) (b : bool) (s : simple_progress) : simple_progress :=
  mk_simple_progress (plugin_name_ s) (radius_ s) (time_allowance_ s) p t b.
Definition set_allowance (r : f64) (t : Z) (s : simple_progress) : simple_progress :=
  mk_simple_progress (plugin_name_ s) r t (baseline_pose_ s) (baseline_time_ s) (baseline_pose_set_ s).

Definition progress_initialize (name : string) : res simple_progress :=
  radius ← read_or as_double (name ++ ".required_movement_radius")%string half;
  time_allowance_param ← read_or as_double (name ++ ".movement_time_allowance")%string (f64_of_Z 10);
  Ok (mk_simple_progress name radius (from_seconds time_allowance_param) (mk_pose2d f64_zero f64_zero f64_zero) 0 false).

Definition progress_reset (s : simple_progress) : simple_progress :=
  set_baseline (baseline_pose_ s) (baseline_time_ s) false s.

(** The clock is read once, at [time]. *)
Definition resetBaselinePose (time : Z) (p : Pose2D) (s : simple_progress) : simple_progress := set_baseline p time true s.

Definition pose_distance (p q : Pose2D) : f64 :=
  hypot (f64_sub (pose2d_x p) (pose2d_x q)) (f64_sub (pose2d_y p) (pose2d_y q)).

Definition isRobotMovedEnough (p : Pose2D) (s : simple_progress) : bool :=
  f64_lt (radius_ s) (pose_distance p (baseline_pose_ s)).

(** [check] for a test of movement: whether there is progress. *)
Definition check_with (moved : Pose2D -> simple_progress -> bool) (time : Z) (p : pose) (s : simple_progress) :
    outcome bool * simple_progress :=
  let current_pose2d := poseToPose2D p in
  if negb (baseline_pose_set_ s) || moved current_pose2d s then (Returned true, resetBaselinePose time current_pose2d s)
  else match elapsed time (baseline_time_ s) with
       | Returned age => (Returned (negb (age >? time_allowance_ s)), s)
       | Raised e => (Raised e, s)
       end.

Definition check : Z -> pose -> simple_progress -> outcome bool * simple_progress := check_with isRobotMovedEnough.

Definition set_progress_parameter (q : string * parameter) (s : simple_progress) : simple_progress :=
  let named suffix := String.eqb (fst q) (plugin_name_ s ++ suffix)%string in
  match snd q with
  | PARAMETER_DOUBLE x =>
      if named ".required_movement_radius"%string then set_allowance x (time_allowance_ s) s
      else if named ".movement_time_allowance"%string then set_allowance (radius_ s) (from_seconds x) s
      else s
  | _ => s
  end.

Definition progress_parameters (l : list (string * parameter)) (s : simple_progress) : simple_progress :=
  fold_left (fun s q => set_progress_parameter q s) l s.

(** ** [PoseProgressChecker] *)

Record pose_progress : Type := mk_pose_progress {
  simple_of : simple_progress;
  required_movement_angle_ : f64 }.

Definition pose_initialize (name : string) : res pose_progress :=
  s ← progress_initialize name;
  angle ← read_or as_double (name ++ ".required_movement_angle")%string half;
  Ok (mk_pose_progress s angle).

Definition poseAngleDistance (p q : Pose2D) : f64 := SFabs (shortest_angular_distance (pose2d_theta p) (pose2d_theta q)).

Definition isRobotMovedOrTurned (angle : f64) (p : Pose2D) (s : simple_progress) : bool :=
  f64_lt (radius_ s) (pose_distance p (baseline_pose_ s)) || f64_lt angle (poseAngleDistance p (baseline_pose_ s)).

Definition pose_check (time : Z) (p : pose) (s : pose_progress) : outcome bool * pose_progress :=
  let '(o, b) := check_with (isRobotMovedOrTurned (required_movement_angle_ s)) time p (simple_of s) in
  (o, mk_pose_progress b (required_movement_angle_ s)).

(** The class adds a callback; the one of its base class is called too. *)
Definition set_pose_parameter (q : string * parameter) (s : pose_progress) : pose_progress :=
  match snd q with
  | PARAMETER_DOUBLE x =>
      if String.eqb (fst q) (plugin_name_ (simple_of s) ++ ".required_movement_angle")%string
      then mk_pose_progress (simple_of s) x else s
  | _ => s
  end.

Definition pose_parameters (l : list (string * parameter)) (s : pose_progress) : pose_progress :=
  fold_left (fun s q => set_pose_parameter q s) l (mk_pose_progress (progress_parameters l (simple_of s)) (required_movement_angle_ s)).

(** ** [SimpleGoalChecker] *)

Record simple_goal : Type := mk_simple_goal {
  goal_name_ : string;
  xy_goal_tolerance_ : f64;
  yaw_goal_tolerance_ : f64;
  stateful_ : bool;
  check_xy_ : bool;
  xy_goal_tolerance_sq_ : f64 }.

Definition set_check_xy b (s : simple_goal) : simple_goal :=
  mk_simple_goal (goal_name_ s) (xy_goal_tolerance_ s) (yaw_goal_tolerance_ s) (stateful_ s) b (xy_goal_tolerance_sq_ s).
Definition set_tolerances xy yaw b sq (s : simple_goal) : simple_goal :=
  mk_simple_goal (goal_name_ s) xy yaw b (check_xy_ s) sq.

Definition goal_initialize (name : string) : res simple_goal :=
  xy ← read_or as_double (name ++ ".xy_goal_tolerance")%string quarter;
  yaw ← read_or as_double (name ++ ".yaw_goal_tolerance")%string quarter;
  stateful ← read_or as_bool (name ++ ".stateful")%string true;
  Ok (mk_simple_goal name xy yaw stateful true (f64_mul xy xy)).

Definition goal_reset (s : simple_goal) : simple_goal := set_check_xy true s.

(** The square of the distance in the plane. *)
Definition distance_sq (query_pose goal_pose : pose) : f64 :=
  let dx := f64_sub (px query_pose) (px goal_pose) in
  let dy := f64_sub (py query_pose) (py goal_pose) in
  f64_add (f64_mul dx dx) (f64_mul dy dy).

Definition heading_reached (query_pose goal_pose : pose) (s : simple_goal) : bool :=
  let dyaw := shortest_angular_distance (getYaw (orientation query_pose)) (getYaw (orientation goal_pose)) in
  f64_le (SFabs dyaw) (yaw_goal_tolerance_ s).

Definition isGoalReached (query_pose goal_pose : pose) (s : simple_goal) : bool * simple_goal :=
  if check_xy_ s then
    if f64_lt (xy_goal_tolerance_sq_ s) (distance_sq query_pose goal_pose) then (false, s)
    else let s := if stateful_ s then set_check_xy false s else s in (heading_reached query_pose goal_pose s, s)
  else (heading_reached query_pose goal_pose s, s).

Definition same_velocity (v : f64) : Twist := mk_twist (v, v, v) (v, v, v).

Definition getTolerances (s : simple_goal) : bool * pose * Twist :=
  (true,
   mk_pose (xy_goal_tolerance_ s) (xy_goal_tolerance_ s) f64_lowest (orientationAroundZAxis (yaw_goal_tolerance_ s)),
   same_velocity f64_lowest).

Definition set_goal_parameter (q : string * parameter) (s : simple_goal) : simple_goal :=
  let named suffix := String.eqb (fst q) (goal_name_ s ++ suffix)%string in
  match snd q with
  | PARAMETER_DOUBLE x =>
      if named ".xy_goal_tolerance"%string then set_tolerances x (yaw_goal_tolerance_ s) (stateful_ s) (f64_mul x x) s
      else if named ".yaw_goal_tolerance"%string
      then set_tolerances (xy_goal_tolerance_ s) x (stateful_ s) (xy_goal_tolerance_sq_ s) s
      else s
  | PARAMETER_BOOL b =>
      if named ".stateful"%string
      then set_tolerances (xy_goal_tolerance_ s) (yaw_goal_tolerance_ s) b (xy_goal_tolerance_sq_ s) s else s
  | _ => s
  end.

Definition goal_parameters (l : list (string * parameter)) (s : simple_goal) : simple_goal :=
  fold_left (fun s q => set_goal_parameter q s) l s.

(** ** [StoppedGoalChecker] *)

Record stopped_goal : Type := mk_stopped_goal {
  goal_of : simple_goal;
  rot_stopped_velocity_ : f64;
  trans_stopped_velocity_ : f64 }.

Definition stopped_initialize (name : string) : res stopped_goal :=
  s ← goal_initialize name;
  rot ← read_or as_double (name ++ ".rot_stopped_velocity")%string quarter;
  trans ← read_or as_double (name ++ ".trans_stopped_velocity")%string quarter;
  Ok (mk_stopped_goal s rot trans).

Definition set_goal_of (g : simple_goal) (s : stopped_goal) : stopped_goal :=
  mk_stopped_goal g (rot_stopped_velocity_ s) (trans_stopped_velocity_ s).

Definition is_stopped (velocity : Twist) (s : stopped_goal) : bool :=
  f64_le (SFabs (ang_z velocity)) (rot_stopped_velocity_ s) &&
  f64_le (hypot (lin_x velocity) (lin_y velocity)) (trans_stopped_velocity_ s).

Definition stopped_isGoalReached (query_pose goal_pose : pose) (velocity : Twist) (s : stopped_goal) : bool * stopped_goal :=
  let '(ret, g) := isGoalReached query_pose goal_pose (goal_of s) in
  (if ret then is_stopped velocity s else false, set_goal_of g s).

Definition stopped_getTolerances (s : stopped_goal) : bool * pose * Twist :=
  let '(rtn, p, _) := getTolerances (goal_of s) in
  (true && rtn, p,
   mk_twist (trans_stopped_velocity_ s, trans_stopped_velocity_ s, f64_lowest)
     (f64_lowest, f64_lowest, rot_stopped_velocity_ s)).

Definition set_stopped_parameter (q : string * parameter) (s : stopped_goal) : stopped_goal :=
  let named suffix := String.eqb (fst q) (goal_name_ (goal_of s) ++ suffix)%string in
  match snd q with
  | PARAMETER_DOUBLE x =>
      if named ".rot_stopped_velocity"%string then mk_stopped_goal (goal_of s) x (trans_stopped_velocity_ s)
      else if named ".trans_stopped_velocity"%string then mk_stopped_goal (goal_of s) (rot_stopped_velocity_ s) x
      else s
  | _ => s
  end.

Definition stopped_parameters (l : list (string * parameter)) (s : stopped_goal) : stopped_goal :=
  fold_left (fun s q => set_stopped_parameter q s) l (set_goal_of (goal_parameters l (goal_of s)) s).

(** ** [PositionGoalChecker] *)

Record position_goal : Type := mk_position_goal {
  position_name_ : string;
  position_tolerance_ : f64;
  position_tolerance_sq_ : f64;
  position_stateful_ : bool;
  position_reached_ : bool }.

Definition set_reached b (s : position_goal) : position_goal :=
  mk_position_goal (position_name_ s) (position_tolerance_ s) (position_tolerance_sq_ s) (position_stateful_ s) b.
Definition setXYGoalTolerance (tolerance : f64) (s : position_goal) : position_goal :=
  mk_position_goal (position_name_ s) tolerance (f64_mul tolerance tolerance) (position_stateful_ s) (position_reached_ s).
Definition set_stateful b (s : position_goal) : position_goal :=
  mk_position_goal (position_name_ s) (position_tolerance_ s) (position_tolerance_sq_ s) b (position_reached_ s).

Definition position_initialize (name : string) : res position_goal :=
  xy ← read_or as_double (name ++ ".xy_goal_tolerance")%string quarter;
  stateful ← read_or as_bool (name ++ ".stateful")%string true;
  Ok (mk_position_goal name xy (f64_mul xy xy) stateful false).

Definition position_reset (s : position_goal) : position_goal := set_reached false s.

Definition position_isGoalReached (query_pose goal_pose : pose) (s : position_goal) : bool * position_goal :=
  if position_stateful_ s && position_reached_ s then (true, s) else
  let position_reached := f64_le (distance_sq query_pose goal_pose) (position_tolerance_sq_ s) in
  (position_reached, if position_stateful_ s && position_reached then set_reached true s else s).

Definition position_getTolerances (s : position_goal) : bool * pose * Twist :=
  (true, mk_pose (position_tolerance_ s) (position_tolerance_ s) f64_lowest identity_rotation, same_velocity f64_lowest).

(** Parameters of other nodes are skipped; the names that remain begin with the one of the plugin. *)
Definition set_position_parameter (q : string * parameter) (s : position_goal) : position_goal :=
  let named suffix := String.eqb (fst q) (position_name_ s ++ suffix)%string in
  match snd q with
  | PARAMETER_DOUBLE x => if named ".xy_goal_tolerance"%string then setXYGoalTolerance x s else s
  | PARAMETER_BOOL b => if named ".stateful"%string then set_stateful b s else s
  | _ => s
  end.

Definition position_parameters (l : list (string * parameter)) (s : position_goal) : position_goal :=
  fold_left (fun s q => set_position_parameter q s) l s.

(** ** The plugins as instances *)

Context {E : Type} `{!Clock E}.

Definition map_outcome {A B} (f : A -> B) (o : outcome A) : outcome B :=
  match o with Returned a => Returned (f a) | Raised e => Raised e end.

(** A method that reads the clock once, and one that does not. *)
Definition timed {S A} (f : Z -> S -> outcome A * S) : virtual S E A := fun s e =>
  let '(t, e) := now e in let '(o, s) := f t s in (o, s, e).
Definition pure {S A} (f : S -> A * S) : virtual S E A := fun s e => let '(a, s) := f s in (Returned a, s, e).

Definition kept_pose (p : PoseStamped) (o : outcome bool) : outcome (bool * PoseStamped) := map_outcome (fun b => (b, p)) o.

#[export] Instance simple_progress_checker : ProgressCheckers simple_progress E := {|
  check_progress p := timed (fun t s => let '(o, s) := check t (pose_of p) s in (kept_pose p o, s));
  reset_progress := pure (fun s => (tt, progress_reset s)) |}.

#[export] Instance pose_progress_checker : ProgressCheckers pose_progress E := {|
  check_progress p := timed (fun t s => let '(o, s) := pose_check t (pose_of p) s in (kept_pose p o, s));
  reset_progress := pure (fun s => (tt, mk_pose_progress (progress_reset (simple_of s)) (required_movement_angle_ s))) |}.

#[export] Instance simple_goal_checker : GoalCheckers simple_goal E := {|
  reset_goal := pure (fun s => (tt, goal_reset s));
  check_goal q g _ := pure (isGoalReached q g);
  tolerances := pure (fun s => (getTolerances s, s)) |}.

#[export] Instance stopped_goal_checker : GoalCheckers stopped_goal E := {|
  reset_goal := pure (fun s => (tt, set_goal_of (goal_reset (goal_of s)) s));
  check_goal q g v := pure (stopped_isGoalReached q g v);
  tolerances := pure (fun s => (stopped_getTolerances s, s)) |}.

#[export] Instance position_goal_checker : GoalCheckers position_goal E := {|
  reset_goal := pure (fun s => (tt, position_reset s));
  check_goal q g _ := pure (position_isGoalReached q g);
  tolerances := pure (fun s => (position_getTolerances s, s)) |}.
End Checkers.
End Checkers.
