(* ===== verification/ControllerServer.v ===== *)
(** * The controller server ([nav2_controller/controller_server.hpp], [controller_server.cpp])

    The node runs controllers, which are plugins: for a goal it gives the path to a controller and,
    in a loop, checks progress, lets the controller compute a velocity, publishes it, and asks a
    goal checker whether the robot has arrived. The callback [computeControl] runs in the worker of
    its action server ([ActionTask]). The strings that only fill log messages, bonds and the
    throttling of logs are left out. *)

From stdpp Require Import base option list numbers strings gmap relations.
From Stdlib Require Import ZArith Lia SpecFloat String.
From S2P Require Import Prelude Float64 Footprint NavFn Parameters CollisionSources VelocitySmoother NavMessages ActionServer ActionTask PluginNode ControllerPlugins.

Import Messages.

(** [nav2_core::Controller]. [computeVelocityCommands] has a pointer to the goal checker. *)
Class Controllers (K GC E : Type) : Type := {
  controller_configure : string -> virtual K E ();
  controller_cleanup : virtual K E ();
  controller_activate : virtual K E ();
  controller_deactivate : virtual K E ();
  setPlan : Path -> virtual K E ();
  computeVelocityCommands : PoseStamped -> Twist -> GC -> K -> E -> outcome TwistStamped * GC * K * E;
  cancel : virtual K E bool;
  setSpeedLimit : f64 -> bool -> virtual K E ();
  controller_reset : virtual K E () }.

(** The loaders of plugins make an instance of a type and, for checkers, initialize it with its
    name. *)
Class Loaders (PC GC K E : Type) : Type := {
  load_progress_checker : string -> string -> E -> outcome PC * E;
  load_goal_checker : string -> string -> E -> outcome GC * E;
  load_controller : string -> E -> outcome K * E }.

(** What the node asks of the ROS client library, its costmap node and its odometry subscriber. *)
Class Surroundings (W E : Type) : Type := {
  rclcpp_ok : E -> bool * E;
  make_rate : f64 -> outcome ();
  costmap_configure : E -> () * E;
  costmap_activate : E -> bool * E;
  costmap_deactivate : E -> () * E;
  costmap_cleanup : E -> () * E;
  isCurrent : E -> bool * E;
  costmap_robot_pose : E -> option PoseStamped * E;
  getTransformTolerance : E -> f64 * E;
  getBaseFrameID : E -> string * E;
  getGlobalFrameID : E -> string * E;
  odom_velocity : E -> Twist2D * E;
  publish_zero_velocity : E -> bool * E;
  get_subscription_count : E -> Z * E;
  deadline_passed : E -> bool * E;
  new_handles : E -> W * E }.

Module ControllerServer.
Import ActionServer Methods Task Parameters VelocitySmoother PluginNode.

(** ** [FollowPath] *)

Record Goal : Type := mk_goal {
  goal_path : Path;
  controller_id : string;
  goal_checker_id : string;
  progress_checker_id : string }.

(** A result is its error code; a feedback has a distance and a speed. *)
Definition NONE : Z := 0.
Definition UNKNOWN : Z := 100.
Definition INVALID_CONTROLLER : Z := 101.
Definition TF_ERROR : Z := 102.
Definition INVALID_PATH : Z := 103.
Definition PATIENCE_EXCEEDED : Z := 104.
Definition FAILED_TO_MAKE_PROGRESS : Z := 105.
Definition NO_VALID_CONTROL : Z := 106.
Definition CONTROLLER_TIMED_OUT : Z := 107.

Record Feedback : Type := mk_feedback { distance_to_goal : spec_float; speed : spec_float }.

(** ** State *)

Record settings : Type := mk_settings {
  controller_frequency_ : f64;
  min_x_velocity_threshold_ : f64;
  min_y_velocity_threshold_ : f64;
  min_theta_velocity_threshold_ : f64;
  failure_tolerance_ : f64;
  use_realtime_priority_ : bool;
  costmap_update_timeout_ : Z }.

(** The plugins of the current task. *)
Record selection : Type := mk_selection {
  current_controller_ : string;
  current_goal_checker_ : string;
  current_progress_checker_ : string }.

(** The other state of the current task. *)
Record track : Type := mk_track {
  end_pose_ : PoseStamped;
  last_valid_cmd_time_ : Z;
  current_path_ : Path }.

(** Pointers that are null or not. *)
Record links : Type := mk_links {
  dyn_params_handler_ : bool;
  costmap_thread_ : bool;
  odom_sub_ : bool;
  speed_limit_sub_ : bool }.

Section Server.
Context {PC GC K W E : Type}.

Record controller : Type := mk_controller {
  progress_checkers_ : gmap string PC;
  goal_checkers_ : gmap string GC;
  controllers_ : gmap string K;
  settings_of : settings;
  selected : selection;
  track_of : track;
  vel_publisher_ : option TwistPublisher;
  links_of : links }.

Definition set_progress_checkers m (c : controller) : controller :=
  mk_controller m (goal_checkers_ c) (controllers_ c) (settings_of c) (selected c) (track_of c) (vel_publisher_ c) (links_of c).
Definition set_goal_checkers m (c : controller) : controller :=
  mk_controller (progress_checkers_ c) m (controllers_ c) (settings_of c) (selected c) (track_of c) (vel_publisher_ c) (links_of c).
Definition set_controllers m (c : controller) : controller :=
  mk_controller (progress_checkers_ c) (goal_checkers_ c) m (settings_of c) (selected c) (track_of c) (vel_publisher_ c) (links_of c).
Definition set_settings x (c : controller) : controller :=
  mk_controller (progress_checkers_ c) (goal_checkers_ c) (controllers_ c) x (selected c) (track_of c) (vel_publisher_ c) (links_of c).
Definition select x (c : controller) : controller :=
  mk_controller (progress_checkers_ c) (goal_checkers_ c) (controllers_ c) (settings_of c) x (track_of c) (vel_publisher_ c) (links_of c).
Definition set_track x (c : controller) : controller :=
  mk_controller (progress_checkers_ c) (goal_checkers_ c) (controllers_ c) (settings_of c) (selected c) x (vel_publisher_ c) (links_of c).
Definition set_publisher x (c : controller) : controller :=
  mk_controller (progress_checkers_ c) (goal_checkers_ c) (controllers_ c) (settings_of c) (selected c) (track_of c) x (links_of c).
Definition set_links x (c : controller) : controller :=
  mk_controller (progress_checkers_ c) (goal_checkers_ c) (controllers_ c) (settings_of c) (selected c) (track_of c) (vel_publisher_ c) x.

Definition select_controller id (c : controller) : controller :=
  select (mk_selection id (current_goal_checker_ (selected c)) (current_progress_checker_ (selected c))) c.
Definition select_goal_checker id (c : controller) : controller :=
  select (mk_selection (current_controller_ (selected c)) id (current_progress_checker_ (selected c))) c.
Definition select_progress_checker id (c : controller) : controller :=
  select (mk_selection (current_controller_ (selected c)) (current_goal_checker_ (selected c)) id) c.
Definition set_end_pose p (c : controller) : controller :=
  set_track (mk_track p (last_valid_cmd_time_ (track_of c)) (current_path_ (track_of c))) c.
Definition set_valid_time t (c : controller) : controller :=
  set_track (mk_track (end_pose_ (track_of c)) t (current_path_ (track_of c))) c.
Definition set_current_path p (c : controller) : controller :=
  set_track (mk_track (end_pose_ (track_of c)) (last_valid_cmd_time_ (track_of c)) p) c.

(** ** Calls of plugins *)

Context `{!GoalHandles W Goal Z Feedback} `{!Others W E}.
Context `{!ProgressCheckers PC E} `{!GoalCheckers GC E} `{!Controllers K GC E} `{!Loaders PC GC K E}.
Context `{!Buckets} `{!Surroundings W E} `{!Clock E} `{!TransformBuffer E}.
Context `{!Hypot} `{!Clocks} `{!Durations}.

Abbreviation control := (ST (node W E controller message)).

Definition call_controller {A} : string -> virtual K E A -> control A := call_plugin controllers_ set_controllers.
Definition call_goal_checker {A} : string -> virtual GC E A -> control A := call_plugin goal_checkers_ set_goal_checkers.
Definition call_progress_checker {A} : string -> virtual PC E A -> control A :=
  call_plugin progress_checkers_ set_progress_checkers.

Definition for_controllers : virtual K E () -> control () := for_plugins controllers_ set_controllers.

(** ** Names of plugins *)

Definition findControllerId (c_name : string) : control (option string) := own (fun c => find_id (controllers_ c) c_name).
Definition findGoalCheckerId (c_name : string) : control (option string) := own (fun c => find_id (goal_checkers_ c) c_name).
Definition findProgressCheckerId (c_name : string) : control (option string) :=
  own (fun c => find_id (progress_checkers_ c) c_name).

(** ** Velocities *)

Definition publishVelocity (velocity : TwistStamped) : control () :=
  p ← own vel_publisher_;
  match p with
  | None => undefined
  | Some p =>
      if is_activated p then
        count ← look get_subscription_count;
        if 0 <? count then
          m ← query (fun _ => publish (Some p) velocity);
          match m with Some m => send m | None => mret tt end
        else mret tt
      else mret tt
  end.

(** A velocity of zero, in the frame of the robot and at the current time. *)
Definition zero_velocity : control TwistStamped :=
  frame ← look getBaseFrameID;
  time ← look now;
  mret (mk_stamped (mk_header (stamp_of_time time) frame) zero_twist).

Definition publishZeroVelocity : control () :=
  enabled ← look publish_zero_velocity;
  _ ← (if (enabled : bool) then velocity ← zero_velocity; publishVelocity velocity else mret tt);
  for_controllers controller_reset.

(** ** One cycle *)

Definition getThresholdedVelocity (velocity threshold : f64) : f64 :=
  if f64_lt threshold (SFabs velocity) then velocity else f64_zero.

Definition getThresholdedTwist (t : Twist2D) (s : settings) : Twist2D :=
  mk_twist2d (getThresholdedVelocity (twist2d_x t) (min_x_velocity_threshold_ s))
    (getThresholdedVelocity (twist2d_y t) (min_y_velocity_threshold_ s))
    (getThresholdedVelocity (twist2d_theta t) (min_theta_velocity_threshold_ s)).

Definition robot_velocity : control Twist :=
  t ← look odom_velocity;
  s ← own settings_of;
  mret (twist2Dto3D (getThresholdedTwist t s)).

Definition setPlannerPath (path : Path) : control () :=
  match last (poses path) with
  | None => throw invalid_path
  | Some p =>
      id ← own (fun c => current_controller_ (selected c));
      _ ← call_controller id (setPlan path);
      _ ← assign (set_end_pose (mk_pose_stamped (mk_header (stamp (pose_header p)) (frame_id (path_header path))) (pose_of p)));
      id ← own (fun c => current_goal_checker_ (selected c));
      _ ← call_goal_checker id reset_goal;
      assign (set_current_path path)
  end.

(** The lambda [find_closest_pose_idx], from the index [curr_idx] on. *)
Fixpoint find_closest (p : pose) (l : list PoseStamped) (curr_idx closest_pose_idx : nat) (curr_min_dist : f64) : nat :=
  match l with
  | [] => closest_pose_idx
  | q :: l =>
      let curr_dist := euclidean_distance p (pose_of q) in
      if f64_lt curr_dist curr_min_dist then find_closest p l (S curr_idx) curr_idx curr_dist
      else find_closest p l (S curr_idx) closest_pose_idx curr_min_dist
  end.

Definition find_closest_pose_idx (p : pose) (path : Path) : nat := find_closest p (poses path) 0 0 f64_highest.

Definition compute_velocity (p : PoseStamped) (velocity : Twist) : control TwistStamped := fun n =>
  let c := members n in
  match controllers_ c !! current_controller_ (selected c), goal_checkers_ c !! current_goal_checker_ (selected c) with
  | Some k, Some g =>
      let '(o, g, k, e) := computeVelocityCommands p velocity g k (outside n) in
      (of_outcome o,
       set_outside e (set_members (set_goal_checkers (<[current_goal_checker_ (selected c) := g]> (goal_checkers_ c))
         (set_controllers (<[current_controller_ (selected c) := k]> (controllers_ c)) c)) n))
  | _, _ => (UB, n)
  end.

(** The velocity of the controller with the header of the current time. *)
Definition valid_velocity (p : PoseStamped) (velocity : Twist) : control TwistStamped :=
  v ← compute_velocity p velocity;
  time ← look now;
  _ ← assign (set_valid_time time);
  frame ← look getBaseFrameID;
  mret (mk_stamped (mk_header (stamp_of_time time) frame) (twist v)).

Definition minus_one : f64 := f64_of_Z (-1).

(** The handler of [NoValidControl]. *)
Definition keep_patience : control TwistStamped :=
  tolerance ← own (fun c => failure_tolerance_ (settings_of c));
  if f64_lt f64_zero tolerance || f64_eq tolerance minus_one then
    v ← zero_velocity;
    time ← look now;
    last_time ← own (fun c => last_valid_cmd_time_ (track_of c));
    age ← since time last_time;
    if f64_lt tolerance (seconds age) && negb (f64_eq tolerance minus_one) then throw patience_exceeded
    else mret v
  else throw no_valid_control.

Definition computeAndPublishVelocity : control () :=
  p ← look costmap_robot_pose;
  match p with
  | None => throw controller_tf_error
  | Some p =>
      id ← own (fun c => current_progress_checker_ (selected c));
      '(progress, p) ← call_progress_checker id (check_progress p);
      if negb (progress : bool) then throw failed_to_make_progress else
      velocity ← robot_velocity;
      cmd_vel ← catch (valid_velocity p velocity)
        (fun e => if bool_decide (e = no_valid_control) then Some keep_patience else None);
      path ← own (fun c => current_path_ (track_of c));
      let speed := hypot (lin_x (twist cmd_vel)) (lin_y (twist cmd_vel)) in
      let distance := calculate_path_length path (find_closest_pose_idx (pose_of p) path) in
      _ ← tell (call_feedback (mk_feedback (f32_of_f64 distance) (f32_of_f64 speed)));
      publishVelocity cmd_vel
  end.

Definition updateGlobalPath : control () :=
  preempt ← ask is_preempt_requested;
  if negb preempt then mret tt else
  goal ← accept;
  match goal with
  | None => undefined
  | Some goal =>
      id ← findControllerId (controller_id goal);
      match id with
      | None => tell (call_terminate_current empty_result)
      | Some id =>
          _ ← assign (select_controller id);
          id ← findGoalCheckerId (goal_checker_id goal);
          match id with
          | None => tell (call_terminate_current empty_result)
          | Some id =>
              _ ← assign (select_goal_checker id);
              id ← findProgressCheckerId (progress_checker_id goal);
              match id with
              | None => tell (call_terminate_current empty_result)
              | Some id =>
                  current ← own (fun c => current_progress_checker_ (selected c));
                  _ ← (if String.eqb current id then mret tt else
                       _ ← assign (select_progress_checker id);
                       call_progress_checker id reset_progress);
                  setPlannerPath (goal_path goal)
              end
          end
      end
  end.

Definition transform_pose (frame : string) (p : PoseStamped) (tolerance : Z) : control (option PoseStamped) := fun n =>
  let '(r, e) := transformPose frame p tolerance (outside n) in (r, set_outside e n).

(** The pose is a fresh message where the transformation failed. *)
Definition isGoalReached : control bool :=
  p ← look costmap_robot_pose;
  match p with
  | None => mret false
  | Some p =>
      velocity ← robot_velocity;
      tolerance ← look getTransformTolerance;
      frame ← look getGlobalFrameID;
      end_pose ← own (fun c => end_pose_ (track_of c));
      transformed ← transform_pose frame end_pose (from_seconds tolerance);
      id ← own (fun c => current_goal_checker_ (selected c));
      call_goal_checker id (check_goal (pose_of p) (pose_of (default new_pose_stamped transformed)) velocity)
  end.

(** ** The callback *)

(** How [computeControl] ends; [Running] where the rounds did not suffice. *)
Inductive ending : Type := NoGoal | Inactive | Cancelled | Succeeded | Failed (code : Z) | Running.

(** A request to cancel: whether the controller has finished. *)
Definition cancel_requested : control bool :=
  requested ← ask is_cancel_requested;
  if (requested : bool) then
    id ← own (fun c => current_controller_ (selected c));
    call_controller id cancel
  else mret false.

Fixpoint control_loop (waits rounds : nat) : control ending :=
  match rounds with
  | O => mret Running
  | S rounds =>
      running ← look rclcpp_ok;
      if negb running then mret Succeeded else
      _ ← look now;
      inactive ← server_inactive;
      if (inactive : bool) then mret Inactive else
      cancelled ← cancel_requested;
      if (cancelled : bool) then
        _ ← tell (call_terminate_all empty_result);
        _ ← publishZeroVelocity;
        mret Cancelled
      else
        waiting_start ← look now;
        current ← wait_for_costmap isCurrent (fun c => costmap_update_timeout_ (settings_of c)) controller_timed_out waits waiting_start;
        if negb current then mret Running else
        _ ← updateGlobalPath;
        _ ← computeAndPublishVelocity;
        reached ← isGoalReached;
        if (reached : bool) then mret Succeeded else control_loop waits rounds
  end.

(** The plugins of a goal. *)
Definition choose_plugins (goal : Goal) : control () :=
  id ← findControllerId (controller_id goal);
  match id with
  | None => throw invalid_controller
  | Some id =>
      _ ← assign (select_controller id);
      id ← findGoalCheckerId (goal_checker_id goal);
      match id with
      | None => throw controller_exception
      | Some id =>
          _ ← assign (select_goal_checker id);
          id ← findProgressCheckerId (progress_checker_id goal);
          match id with
          | None => throw controller_exception
          | Some id => assign (select_progress_checker id)
          end
      end
  end.

(** The block of [try]. *)
Definition follow_path (waits rounds : nat) : control ending :=
  goal ← ask get_current_goal;
  match goal with
  | None => mret NoGoal
  | Some goal =>
      _ ← choose_plugins goal;
      _ ← setPlannerPath (goal_path goal);
      id ← own (fun c => current_progress_checker_ (selected c));
      _ ← call_progress_checker id reset_progress;
      time ← look now;
      _ ← assign (set_valid_time time);
      frequency ← own (fun c => controller_frequency_ (settings_of c));
      _ ← query (fun _ => of_outcome (make_rate frequency));
      control_loop waits rounds
  end.

(** The clauses of [catch]: all exceptions of the standard library. *)
Definition error_code (e : exn) : option Z :=
  match e with
  | invalid_controller => Some INVALID_CONTROLLER
  | controller_tf_error => Some TF_ERROR
  | no_valid_control => Some NO_VALID_CONTROL
  | failed_to_make_progress => Some FAILED_TO_MAKE_PROGRESS
  | patience_exceeded => Some PATIENCE_EXCEEDED
  | invalid_path => Some INVALID_PATH
  | controller_timed_out => Some CONTROLLER_TIMED_OUT
  | foreign_exception => None
  | _ => Some UNKNOWN
  end.

Definition fail_with (code : Z) : control ending :=
  _ ← publishZeroVelocity;
  _ ← tell (call_terminate_current code);
  mret (Failed code).

Definition computeControl (waits rounds : nat) : control ending :=
  e ← catch (follow_path waits rounds) (fun e => fail_with <$> error_code e);
  match e with
  | Succeeded =>
      _ ← publishZeroVelocity;
      _ ← tell (call_succeeded empty_result);
      mret Succeeded
  | e => mret e
  end.

(** ** Other callbacks *)

Definition speedLimitCallback (speed_limit : f64) (percentage : bool) : control () :=
  for_controllers (setSpeedLimit speed_limit percentage).

Definition set_parameter (name : string) (p : parameter) (s : settings) : settings :=
  let named := String.eqb name in
  match p with
  | PARAMETER_DOUBLE x =>
      if named "controller_frequency"%string
      then mk_settings x (min_x_velocity_threshold_ s) (min_y_velocity_threshold_ s) (min_theta_velocity_threshold_ s)
             (failure_tolerance_ s) (use_realtime_priority_ s) (costmap_update_timeout_ s)
      else if named "min_x_velocity_threshold"%string
      then mk_settings (controller_frequency_ s) x (min_y_velocity_threshold_ s) (min_theta_velocity_threshold_ s)
             (failure_tolerance_ s) (use_realtime_priority_ s) (costmap_update_timeout_ s)
      else if named "min_y_velocity_threshold"%string
      then mk_settings (controller_frequency_ s) (min_x_velocity_threshold_ s) x (min_theta_velocity_threshold_ s)
             (failure_tolerance_ s) (use_realtime_priority_ s) (costmap_update_timeout_ s)
      else if named "min_theta_velocity_threshold"%string
      then mk_settings (controller_frequency_ s) (min_x_velocity_threshold_ s) (min_y_velocity_threshold_ s) x
             (failure_tolerance_ s) (use_realtime_priority_ s) (costmap_update_timeout_ s)
      else if named "failure_tolerance"%string
      then mk_settings (controller_frequency_ s) (min_x_velocity_threshold_ s) (min_y_velocity_threshold_ s)
             (min_theta_velocity_threshold_ s) x (use_realtime_priority_ s) (costmap_update_timeout_ s)
      else s
  | _ => s
  end.

(** [locked] tells whether [computeControl] holds the lock. *)
Fixpoint dynamicParametersCallback (locked : bool) (parameters : list (string * parameter)) (s : settings) : bool * settings :=
  match parameters with
  | [] => (true, s)
  | (name, p) :: parameters =>
      if has_dot name then dynamicParametersCallback locked parameters s
      else if locked then (false, s)
      else dynamicParametersCallback locked parameters (set_parameter name p s)
  end.

(** ** Transitions *)

Definition update_links (f : links -> links) : control () := assign (fun c => set_links (f (links_of c)) c).

Definition on_cleanup : control bool :=
  _ ← for_controllers controller_cleanup;
  _ ← assign (set_controllers ∅);
  _ ← assign (set_goal_checkers ∅);
  _ ← assign (set_progress_checkers ∅);
  _ ← look costmap_cleanup;
  _ ← modify (set_server None);
  _ ← update_links (fun l => mk_links (dyn_params_handler_ l) false false false);
  _ ← assign (set_publisher None);
  mret true.

Definition fail : control bool := _ ← on_cleanup; mret false.

Definition on_activate : control bool :=
  active ← look costmap_activate;
  if negb active then mret false else
  _ ← for_controllers controller_activate;
  p ← own vel_publisher_;
  match p with
  | None => undefined
  | Some p =>
      _ ← assign (set_publisher (Some (mk_publisher (is_stamped_ p) true)));
      _ ← with_server (fun s => (tt, activate s));
      _ ← update_links (fun l => mk_links true (costmap_thread_ l) (odom_sub_ l) (speed_limit_sub_ l));
      mret true
  end.

(** The result is false where [deactivate] has not returned within the rounds. *)
Definition on_deactivate (rounds : nat) : control bool :=
  stopped ← deactivate_server deadline_passed rounds;
  if negb stopped then mret false else
  _ ← for_controllers controller_deactivate;
  _ ← look costmap_deactivate;
  velocity ← zero_velocity;
  _ ← publishVelocity velocity;
  p ← own vel_publisher_;
  match p with
  | None => undefined
  | Some p =>
      _ ← assign (set_publisher (Some (mk_publisher (is_stamped_ p) false)));
      _ ← update_links (fun l => mk_links false (costmap_thread_ l) (odom_sub_ l) (speed_limit_sub_ l));
      mret true
  end.

Definition on_shutdown : control bool := mret true.

(** ** Configuration *)

Context `{!NodeParameters}.

Definition make_controller (type id : string) : control K :=
  k ← out (load_controller type); init_plugin (controller_configure id) k.

(** The loops with their handlers: [on_cleanup], and the transition fails. The progress checkers are
    guarded against all exceptions, the others against those of the plugin loader. *)
Definition load_guarded {P} (caught : exn -> bool) (m : controller -> gmap string P)
    (put : gmap string P -> controller -> controller) (make : string -> string -> control P)
    (type : option string) (ids : list string) : control bool :=
  catch (_ ← load_plugins m put make type ids; mret true) (fun e => if caught e then Some fail else None).

Definition read_settings : control () :=
  frequency ← param as_double "controller_frequency"%string (f64_of_Z 20);
  min_x ← param as_double "min_x_velocity_threshold"%string (f64_div (f64_of_Z 1) (f64_of_Z 10000));
  min_y ← param as_double "min_y_velocity_threshold"%string (f64_div (f64_of_Z 1) (f64_of_Z 10000));
  min_theta ← param as_double "min_theta_velocity_threshold"%string (f64_div (f64_of_Z 1) (f64_of_Z 10000));
  _ ← param as_string "speed_limit_topic"%string "speed_limit"%string;
  tolerance ← param as_double "failure_tolerance"%string f64_zero;
  realtime ← param as_bool "use_realtime_priority"%string false;
  assign (fun c => set_settings (mk_settings frequency min_x min_y min_theta tolerance realtime
    (costmap_update_timeout_ (settings_of c))) c).

Definition default_progress_checker_ids_ : list string := ["progress_checker"%string].
Definition default_progress_checker_type : string := "nav2_controller::SimpleProgressChecker".
Definition default_goal_checker_ids_ : list string := ["goal_checker"%string].
Definition default_goal_checker_type : string := "nav2_controller::SimpleGoalChecker".
Definition default_ids_ : list string := ["FollowPath"%string].
Definition default_type : string := "dwb_core::DWBLocalPlanner".

(** The last part: topics and the action server. [priority] tells whether the system grants the
    priority of a real-time process. *)
Definition create_topics (priority : bool) : control bool :=
  _ ← param as_string "odom_topic"%string "odom"%string;
  _ ← update_links (fun l => mk_links (dyn_params_handler_ l) (costmap_thread_ l) true (speed_limit_sub_ l));
  stamped ← param as_bool "enable_stamped_cmd_vel"%string false;
  _ ← assign (set_publisher (Some (mk_publisher stamped false)));
  _ ← param as_double "action_server_result_timeout"%string (f64_of_Z 10);
  timeout ← param as_double "costmap_update_timeout"%string (f64_div (f64_of_Z 3) (f64_of_Z 10));
  _ ← assign (fun c => set_settings (mk_settings (controller_frequency_ (settings_of c))
    (min_x_velocity_threshold_ (settings_of c)) (min_y_velocity_threshold_ (settings_of c))
    (min_theta_velocity_threshold_ (settings_of c)) (failure_tolerance_ (settings_of c))
    (use_realtime_priority_ (settings_of c)) (from_seconds timeout)) c);
  realtime ← own (fun c => use_realtime_priority_ (settings_of c));
  if realtime && negb priority then fail else
  w ← look new_handles;
  _ ← modify (set_server (Some (ActionServer.new w)));
  _ ← update_links (fun l => mk_links (dyn_params_handler_ l) (costmap_thread_ l) (odom_sub_ l) true);
  mret true.

Definition on_configure (priority : bool) : control bool :=
  pids ← param as_string_array "progress_checker_plugins"%string default_progress_checker_ids_;
  _ ← declare_types pids default_progress_checker_ids_ default_progress_checker_type;
  gids ← param as_string_array "goal_checker_plugins"%string default_goal_checker_ids_;
  _ ← declare_types gids default_goal_checker_ids_ default_goal_checker_type;
  ids ← param as_string_array "controller_plugins"%string default_ids_;
  _ ← declare_types ids default_ids_ default_type;
  _ ← read_settings;
  _ ← look costmap_configure;
  _ ← update_links (fun l => mk_links (dyn_params_handler_ l) true (odom_sub_ l) (speed_limit_sub_ l));
  loaded ← load_guarded is_std progress_checkers_ set_progress_checkers (fun t id => out (load_progress_checker t id))
    (default_for pids default_progress_checker_ids_ default_progress_checker_type) pids;
  if negb loaded then mret false else
  loaded ← load_guarded is_pluginlib goal_checkers_ set_goal_checkers (fun t id => out (load_goal_checker t id))
    (default_for gids default_goal_checker_ids_ default_goal_checker_type) gids;
  if negb loaded then mret false else
  loaded ← load_guarded is_pluginlib controllers_ set_controllers make_controller
    (default_for ids default_ids_ default_type) ids;
  if negb loaded then mret false else
  create_topics priority.
End Server.

Arguments controller : clear implicits.
End ControllerServer.
