(* ===== verification/ControllerLaws.v ===== *)
(** * Laws of the controller server

    The callback [computeControl] is a sequence of steps of the action server; when it ends a goal
    the robot has been stopped; and it has no undefined behaviour unless a deactivation runs out of
    time. Examples show what happens otherwise. *)

From stdpp Require Import base option list numbers strings gmap relations.
From Stdlib Require Import ZArith Lia SpecFloat String.
From S2P Require Import Prelude Float64 Footprint NavFn NavfnPlanner Parameters CollisionSources VelocitySmoother NavMessages ActionServer ActionTask PluginNode ControllerPlugins ControllerServer.

Module ControllerLaws.
Import Messages ActionServer Methods Task VelocitySmoother PluginNode ControllerServer.

Section Laws.
Context {PC GC K W E : Type}.
Context `{!GoalHandles W Goal Z Feedback} `{!Others W E}.
Context `{!ProgressCheckers PC E} `{!GoalCheckers GC E} `{!Controllers K GC E}.
Context `{!Buckets} `{!Surroundings W E} `{!Clock E} `{!TransformBuffer E}.
Context `{!Hypot} `{!Clocks} `{!Durations}.

Abbreviation state := (node W E (controller PC GC K) message).
Abbreviation control := (ST state).

Implicit Types n : state.

(** ** What calls of plugins and of the world leave alone *)

Record same n n' : Prop := {
  same_server : server_of n' = server_of n;
  same_sent : sent n' = sent n;
  same_publisher : vel_publisher_ (members n') = vel_publisher_ (members n);
  same_selected : selected (members n') = selected (members n);
  same_progress : dom (progress_checkers_ (members n')) = dom (progress_checkers_ (members n));
  same_goal : dom (goal_checkers_ (members n')) = dom (goal_checkers_ (members n));
  same_controllers : dom (controllers_ (members n')) = dom (controllers_ (members n)) }.

#[local] Instance same_preorder : PreOrder same.
Proof.
  split; [by intros n; split|].
  intros n1 n2 n3 [A1 A2 A3 A4 A5 A6 A7] [B1 B2 B3 B4 B5 B6 B7]. split; by etrans.
Qed.

Lemma dom_update {P} (m : gmap string P) id p q : m !! id = Some q -> dom (<[id := p]> m) = dom m.
Proof. intros Hm. apply dom_insert_lookup_L. by exists q. Qed.

Lemma quiet_look {A} (f : E -> A * E) n0 : keeps (same n0) (look f).
Proof. intros n Hn. etrans; [exact Hn|]. unfold look. by destruct (f (outside n)). Qed.

Lemma quiet_assign f n0 : (forall c, vel_publisher_ (f c) = vel_publisher_ c /\ selected (f c) = selected c /\
  progress_checkers_ (f c) = progress_checkers_ c /\ goal_checkers_ (f c) = goal_checkers_ c /\
  controllers_ (f c) = controllers_ c) -> keeps (same n0) (assign f).
Proof.
  intros Hf n Hn. etrans; [exact Hn|]. destruct (Hf (members n)) as (Ef1 & Ef2 & Ef3 & Ef4 & Ef5).
  by split; cbn; rewrite ?Ef1, ?Ef2, ?Ef3, ?Ef4, ?Ef5.
Qed.

Lemma quiet_controller {A} id (f : virtual K E A) n0 : keeps (same n0) (call_controller id f).
Proof.
  intros n Hn. etrans; [exact Hn|]. unfold call_controller, call_plugin.
  destruct (controllers_ (members n) !! id) eqn:Hid; [|done].
  destruct (f k (outside n)) as [[o k'] e]. split; try done. cbn. by eapply dom_update.
Qed.
Lemma quiet_goal_checker {A} id (f : virtual GC E A) n0 : keeps (same n0) (call_goal_checker id f).
Proof.
  intros n Hn. etrans; [exact Hn|]. unfold call_goal_checker, call_plugin.
  destruct (goal_checkers_ (members n) !! id) eqn:Hid; [|done].
  destruct (f g (outside n)) as [[o k'] e]. split; try done. cbn. by eapply dom_update.
Qed.
Lemma quiet_progress_checker {A} id (f : virtual PC E A) n0 : keeps (same n0) (call_progress_checker id f).
Proof.
  intros n Hn. etrans; [exact Hn|]. unfold call_progress_checker, call_plugin.
  destruct (progress_checkers_ (members n) !! id) eqn:Hid; [|done].
  destruct (f p (outside n)) as [[o k'] e]. split; try done. cbn. by eapply dom_update.
Qed.

Lemma quiet_compute p v n0 : keeps (same n0) (compute_velocity p v).
Proof.
  intros n Hn. etrans; [exact Hn|]. unfold compute_velocity.
  destruct (controllers_ (members n) !! _) eqn:Hk; [|done].
  destruct (goal_checkers_ (members n) !! _) eqn:Hg; [|done].
  destruct (computeVelocityCommands p v g k (outside n)) as [[[o g'] k'] e].
  split; try done; cbn; by eapply dom_update.
Qed.

Lemma quiet_transform frame p t n0 : keeps (same n0) (transform_pose frame p t).
Proof.
  intros n Hn. etrans; [exact Hn|]. unfold transform_pose. by destruct (transformPose frame p t (outside n)).
Qed.

#[local] Hint Resolve quiet_look quiet_controller quiet_goal_checker quiet_progress_checker
  quiet_compute quiet_transform : keeps.

Lemma quiet_for f n0 : keeps (same n0) (for_controllers f).
Proof.
  apply keeps_bind; [apply keeps_get|intros n]. generalize (bucket_order (map_to_list (controllers_ (members n))).*1).
  intros l. induction l as [|id l IH]; cbn; keep.
Qed.
Lemma quiet_zero n0 : keeps (same n0) zero_velocity.
Proof. unfold zero_velocity. keep. Qed.
Lemma quiet_velocity n0 : keeps (same n0) robot_velocity.
Proof. unfold robot_velocity. keep. Qed.
#[local] Hint Resolve quiet_for quiet_zero quiet_velocity : keeps.

Lemma quiet_plan path n0 : keeps (same n0) (setPlannerPath path).
Proof. unfold setPlannerPath. keep; by apply quiet_assign. Qed.
Lemma quiet_patience n0 : keeps (same n0) keep_patience.
Proof. unfold keep_patience. keep. Qed.
Lemma quiet_valid p v n0 : keeps (same n0) (valid_velocity p v).
Proof. unfold valid_velocity. keep. by apply quiet_assign. Qed.
Lemma quiet_reached n0 : keeps (same n0) isGoalReached.
Proof. unfold isGoalReached. keep. Qed.
Lemma quiet_wait current limit late waits t n0 :
  keeps (same n0) (wait_for_costmap (W := W) (M := message) current limit late waits t).
Proof. induction waits as [|w IH]; cbn; keep. Qed.
#[local] Hint Resolve quiet_plan quiet_patience quiet_valid quiet_reached quiet_wait : keeps.

Lemma quiet_command p v n0 : keeps (same n0) (catch (valid_velocity p v)
  (fun e => if bool_decide (e = no_valid_control) then Some keep_patience else None)).
Proof. apply keeps_catch; [auto with keeps|]. intros e k Hk. case_bool_decide; [|done]. injection Hk as <-. auto with keeps. Qed.
#[local] Hint Resolve quiet_command : keeps.

(** A property that these calls cannot change. *)
Class Stable (I : state -> Prop) : Prop := stable n n' : same n n' -> I n -> I n'.

Lemma keeps_quiet {A} I (c : control A) `{!Stable I} : (forall n0, keeps (same n0) c) -> keeps I c.
Proof. intros Hc n Hn. apply (stable n); [|done]. by apply (Hc n n). Qed.

#[local] Hint Extern 9 (keeps _ _) => (apply keeps_quiet; [apply _|solve [auto with keeps]]) : keeps.

(** ** The callback makes steps of the action server *)

#[local] Instance running_stable s0 : Stable (running s0).
Proof. intros n n' [Hs _ _ _ _ _ _] (s & Hn & Hr). exists s. by rewrite Hs. Qed.

Abbreviation runs := (running (W := W) (E := E) (C := controller PC GC K) (M := message)).

Section Running.
Context `{!OtherLaws (G := Goal) (R := Z) (F := Feedback)}.

Lemma publish_running v s0 : keeps (runs s0) (publishVelocity v).
Proof. unfold publishVelocity. keep. Qed.
#[local] Hint Resolve publish_running : keeps.
Lemma publish_zero_running s0 : keeps (runs s0) publishZeroVelocity.
Proof. unfold publishZeroVelocity. keep. Qed.
Lemma update_running s0 : keeps (runs s0) updateGlobalPath.
Proof. unfold updateGlobalPath, findControllerId, findGoalCheckerId, findProgressCheckerId. keep. Qed.
Lemma compute_running s0 : keeps (runs s0) computeAndPublishVelocity.
Proof. unfold computeAndPublishVelocity. keep. Qed.
Lemma inactive_running s0 : keeps (runs s0) server_inactive.
Proof. unfold server_inactive. keep. Qed.
Lemma cancel_running s0 : keeps (runs s0) cancel_requested.
Proof. unfold cancel_requested. keep. Qed.
#[local] Hint Resolve publish_zero_running update_running compute_running inactive_running cancel_running : keeps.

Lemma loop_running waits rounds s0 : keeps (runs s0) (control_loop waits rounds).
Proof. induction rounds as [|r IH]; cbn; keep. Qed.
Lemma choose_running goal s0 : keeps (runs s0) (choose_plugins goal).
Proof. unfold choose_plugins, findControllerId, findGoalCheckerId, findProgressCheckerId. keep. Qed.
#[local] Hint Resolve loop_running choose_running : keeps.

Lemma follow_running waits rounds s0 : keeps (runs s0) (follow_path waits rounds).
Proof. unfold follow_path. keep. Qed.
Lemma fail_running code s0 : keeps (runs s0) (fail_with code).
Proof. unfold fail_with. keep. Qed.
#[local] Hint Resolve follow_running fail_running : keeps.

Lemma control_running waits rounds s0 : keeps (runs s0) (computeControl waits rounds).
Proof.
  unfold computeControl. apply keeps_bind; [|intros e; keep].
  apply keeps_catch; [auto with keeps|]. intros e k Hk.
  destruct (error_code e); [|done]. injection Hk as <-. auto with keeps.
Qed.

(** Whatever the plugins, the world and the other threads do, a run of the callback that
    starts in the worker of the action server is a sequence of its calls and of steps of other threads,
    so that the server stays in a state it can reach, still in its callback. *)
Lemma control_refines ok waits rounds n s0 : server_of n = Some s0 -> worker s0 = InCallback -> reachable ok false s0 ->
  exists s, server_of (snd (computeControl waits rounds n)) = Some s /\ worker s = InCallback /\
    rtc task_step s0 s /\ reachable ok false s.
Proof.
  intros Hn Hw Hr. assert (runs s0 (snd (computeControl waits rounds n))) as Hrun.
  { apply control_running. by exists s0. }
  destruct (running_reachable ok s0 _ Hr Hrun) as (s & Hs & Hws & Hrs).
  destruct Hrun as (s' & Hs' & _ & Hrt). rewrite Hs in Hs'. injection Hs' as <-. by exists s.
Qed.
End Running.

(** ** The end of a task *)

Definition active n : Prop := exists p, vel_publisher_ (members n) = Some p /\ is_activated p = true.

#[local] Instance active_stable : Stable active.
Proof. intros n n' [_ _ Hp _ _ _ _] (p & Hn & Ha). exists p. by rewrite Hp. Qed.
#[local] Instance over_stable : Stable over.
Proof. intros n n' [Hs _ _ _ _ _ _] (s & Hn & Ha). exists s. by rewrite Hs. Qed.
#[local] Instance stopped_stable : Stable stopped.
Proof. intros n n' [_ Hs _ _ _ _ _] (m & Hm & Hz). exists m. by rewrite Hs. Qed.
#[local] Instance and_stable I J `{!Stable I, !Stable J} : Stable (fun n => I n /\ J n).
Proof. intros n n' Hs [HI HJ]. split; by apply (stable n n' Hs). Qed.

Lemma active_assign f : (forall c, vel_publisher_ (f c) = vel_publisher_ c) -> keeps active (assign f).
Proof. intros Hf n (p & Hp & Ha). exists p. cbn. by rewrite Hf. Qed.
Lemma active_server {A} (f : server W -> A * server W) : keeps active (with_server f).
Proof.
  intros n Hn. unfold with_server. destruct (server_of n); [|done].
  destruct (others (outside n) s) as [s1 e]. destruct (f s1). exact Hn.
Qed.
Lemma active_send m : keeps active (send m).
Proof. intros n Hn. exact Hn. Qed.
#[local] Hint Resolve active_send : keeps.
#[local] Hint Extern 1 (keeps active (ask _)) => apply active_server : keeps.
#[local] Hint Extern 1 (keeps active (tell _)) => apply active_server : keeps.
#[local] Hint Extern 1 (keeps active accept) => apply active_server : keeps.
#[local] Hint Extern 1 (keeps active (assign _)) => (by apply active_assign) : keeps.

Lemma active_publish v : keeps active (publishVelocity v).
Proof. unfold publishVelocity. keep. Qed.
#[local] Hint Resolve active_publish : keeps.
Lemma active_update : keeps active updateGlobalPath.
Proof. unfold updateGlobalPath, findControllerId, findGoalCheckerId, findProgressCheckerId. keep. Qed.
Lemma active_compute : keeps active computeAndPublishVelocity.
Proof. unfold computeAndPublishVelocity. keep. Qed.
Lemma active_inactive : keeps active server_inactive.
Proof. unfold server_inactive. keep. Qed.
Lemma active_cancel : keeps active cancel_requested.
Proof. unfold cancel_requested. keep. Qed.
Lemma active_choose goal : keeps active (choose_plugins goal).
Proof. unfold choose_plugins, findControllerId, findGoalCheckerId, findProgressCheckerId. keep. Qed.
#[local] Hint Resolve active_update active_compute active_inactive active_cancel active_choose : keeps.

Section Stopping.
Context (enabled : forall e, fst (publish_zero_velocity e) = true).
Context (listened : forall e, 0 < fst (get_subscription_count e)).

(** A velocity reaches the topic. *)
Lemma publish_sends v : ends active (publishVelocity v) (fun r n => active n /\
  r = Ok tt /\ exists m, last (sent n) = Some m /\ (twist v = zero_twist -> is_zero m)).
Proof.
  intros n (p & Hp & Ha). unfold publishVelocity, own, look, query. expose. cbn. rewrite Hp. cbn. rewrite Ha.
  pose proof (listened (outside n)) as Hl.
  destruct (get_subscription_count (outside n)) as [count e]. cbn in *.
  rewrite (proj2 (Z.ltb_lt 0 count) Hl). cbn.
  split; [by exists p|]. split; [done|].
  eexists. split; [by apply last_snoc|]. by destruct (is_stamped_ p).
Qed.

Lemma zero_velocity_is : ends active zero_velocity (fun r n => active n /\ exists v, r = Ok v /\ twist v = zero_twist).
Proof.
  intros n Hn. unfold zero_velocity, look. expose.
  destruct (getBaseFrameID (outside n)) as [frame e]. cbn. destruct (now e) as [t e']. cbn.
  split; [exact Hn|]. eexists. by split.
Qed.

Lemma zero_sent : ends active publishZeroVelocity (fun _ n => active n /\ stopped n).
Proof.
  unfold publishZeroVelocity.
  apply (ends_bind active _ _ (fun r n => active n /\ r = Ok true)).
  - intros n Hn. unfold look. pose proof (enabled (outside n)) as Hb.
    destruct (publish_zero_velocity (outside n)) as [b e]. cbn in *. subst b. by split.
  - intros b. apply (ends_bind _ _ _ (fun r n => r = Ok tt /\ active n /\ stopped n)).
    + intros n [Hn [= ->]].
      refine (ends_bind active _ _ (fun r n => active n /\ exists v, r = Ok v /\ twist v = zero_twist)
        (fun r n => r = Ok tt /\ active n /\ stopped n) zero_velocity_is _ _ _ n Hn).
      * intros v n1 (Hn1 & v' & [= <-] & Hv). destruct (publish_sends v n1 Hn1) as (Hn2 & Hr & m & Hm & Hz).
        split; [done|]. split; [done|]. exists m. auto.
      * by intros e s (_ & v & ? & _).
      * by intros s (_ & v & ? & _).
    + intros u n (_ & Hn). apply (keeps_quiet (fun n => active n /\ stopped n)); [apply _|auto with keeps|done].
    + by intros e s (? & _).
    + by intros s (? & _).
  - by intros e s [_ ?].
  - by intros s [_ ?].
Qed.

(** Nothing of the server is called in between. *)
Lemma over_zero : keeps over (publishZeroVelocity : control ()).
Proof.
  assert (forall v, keeps over (publishVelocity v : control ())) as Hp.
  { intros v. unfold publishVelocity. keep. }
  unfold publishZeroVelocity. keep.
Qed.

Lemma ended_stopped : ends (fun n => active n /\ over n) publishZeroVelocity (fun _ n => active n /\ over n /\ stopped n).
Proof.
  intros n [Hn Ho]. pose proof (over_zero n Ho). pose proof (zero_sent n Hn) as [? ?]. auto.
Qed.

Context `{!GoalHandleLaws W Goal Z Feedback}.

Lemma tell_over c : final c = true -> ends active (tell c) (fun r n => active n /\ (r = Ok tt -> over n)).
Proof.
  intros Hc n Hn. split; [by apply active_server|]. unfold tell, with_server.
  destruct (server_of n) as [s|]; [|done]. destruct (others (outside n) s) as [s1 e]. intros _.
  exists (run_call c s1). split; [done|]. by apply final_over.
Qed.

Lemma tell_stopped c : final c = true -> ends (fun n => active n /\ stopped n) (tell c)
  (fun r n => stopped n /\ (r = Ok tt -> over n)).
Proof.
  intros Hc n [Hn Hs]. pose proof (tell_over c Hc n Hn) as [_ Ho]. split; [|done].
  unfold tell, with_server. destruct (server_of n) as [s|]; [|done].
  by destruct (others (outside n) s) as [s1 e].
Qed.

(** What holds at the end of a goal. *)
Definition finished n : Prop := stopped n /\ over n.

Lemma tell_final c : final c = true -> ends (fun n => active n /\ stopped n) (tell c)
  (fun r n => stopped n /\ (r = Ok tt -> over n /\ last_call c n)).
Proof.
  intros Hc n Hn. destruct (tell_stopped c Hc n Hn) as [Hs Ho]. split; [done|].
  intros Hr. split; [by apply Ho|]. apply (tell_last c n tt). by destruct (tell c n); cbn in *; subst.
Qed.

Lemma fail_done code : ends active (fail_with code) (fun r n => stopped n /\
  forall e, r = Ok e -> e = Failed code /\ finished n /\ last_call (call_terminate_current code) n).
Proof.
  unfold fail_with. eapply ends_bind; [apply zero_sent| | |].
  - intros []. eapply ends_bind; [by apply tell_final| | |].
    + intros [] n [Hs Ho]. split; [done|]. intros e [= <-]. destruct (Ho eq_refl). by repeat split.
    + intros e n [Hs _]. by split.
    + intros n [Hs _]. by split.
  - intros e n [_ Hs]. by split.
  - intros n [_ Hs]. by split.
Qed.

Lemma loop_cancelled waits rounds :
  ends active (control_loop waits rounds) (fun r n => active n /\ (r = Ok Cancelled -> finished n) /\ forall c, r <> Ok (Failed c)).
Proof.
  assert (forall e n, active n -> active n /\ (Throw e = Ok Cancelled -> finished n) /\ forall c, Throw e <> Ok (Failed c)) as Ht by (intros; split; [done|split; [done|by intros ? [=]]]).
  assert (forall n, active n -> active n /\ (UB = Ok Cancelled -> finished n) /\ forall c, UB <> Ok (Failed c)) as Hu by (intros; split; [done|split; [done|by intros ? [=]]]).
  assert (forall e : ending, e <> Cancelled -> (forall c, e <> Failed c) ->
    ends active (mret e) (fun r n => active n /\ (r = Ok Cancelled -> finished n) /\ forall c, r <> Ok (Failed c))) as Hret.
  { intros e He Hf n Hn. split; [done|]. split; [by intros [= ->]|]. intros c [= ->]. by apply (Hf c). }
  induction rounds as [|r IH]; cbn [control_loop]; [by apply Hret|].
  apply ends_after; [keep| |done|done]. intros [|]; cbn [negb]; [|by apply Hret].
  apply ends_after; [keep| |done|done]. intros _.
  apply ends_after; [keep| |done|done]. intros [|]; [by apply Hret|].
  apply ends_after; [keep| |done|done]. intros [|].
  - eapply ends_bind; [by apply tell_over| | |].
    + intros []. eapply ends_bind; [| | |].
      * intros n [Hn Ho]. exact (ended_stopped n (conj Hn (Ho eq_refl))).
      * intros [] n (Hn & Ho & Hs). split; [done|]. split; [by intros _; split|]. by intros c [=].
      * intros e n (Hn & _). by apply Ht.
      * intros n (Hn & _). by apply Hu.
    + intros e n (Hn & _). by apply Ht.
    + intros n (Hn & _). by apply Hu.
  - apply ends_after; [keep| |done|done]. intros t.
    apply ends_after; [keep| |done|done]. intros [|]; cbn [negb]; [|by apply Hret].
    apply ends_after; [keep| |done|done]. intros _.
    apply ends_after; [keep| |done|done]. intros _.
    apply ends_after; [keep| |done|done]. intros [|]; [by apply Hret|done].
Qed.
Lemma follow_cancelled waits rounds :
  ends active (follow_path waits rounds) (fun r n => active n /\ (r = Ok Cancelled -> finished n) /\ forall c, r <> Ok (Failed c)).
Proof.
  assert (forall e n, active n -> active n /\ (Throw e = Ok Cancelled -> finished n) /\ forall c, Throw e <> Ok (Failed c)) as Ht
    by (intros; split; [done|split; [done|by intros ? [=]]]).
  assert (forall n, active n -> active n /\ (UB = Ok Cancelled -> finished n) /\ forall c, UB <> Ok (Failed c)) as Hu
    by (intros; split; [done|split; [done|by intros ? [=]]]).
  unfold follow_path. apply ends_after; [keep| |done|done]. intros [goal|].
  2: { intros n Hn. split; [done|]. split; [by intros [=]|by intros c [=]]. }
  do 8 (apply ends_after; [keep| |done|done]; intros ?). apply loop_cancelled.
Qed.

(** The result that the goal gets, and the call that gives it. *)
Definition end_of waits rounds n (r : res ending) n' : Prop :=
  match r with
  | Ok Cancelled => finished n'
  | Ok Succeeded => finished n' /\ last_call (call_succeeded empty_result) n'
  | Ok (Failed c) => finished n' /\ last_call (call_terminate_current c) n' /\
      exists e n1, follow_path waits rounds n = (Throw e, n1) /\ error_code e = Some c
  | Throw e => stopped n' \/ e = foreign_exception
  | _ => True
  end.

(** C10: let the publisher of velocities be activated, the parameter [publish_zero_velocity] be true, and the topic have a
    subscriber. When the callback ends a goal (it succeeded, was cancelled, or an exception was caught) the
    last velocity that was published is zero, the goal is over, and its result is the success or the
    error code of the exception; an exception can only leave the callback after the zero velocity was
    published, unless it is none of the standard library. (With the parameter false, or without a subscriber, nothing is
    published at the end: controller_server.cpp:755 and :745.) *)
Theorem control_stops waits rounds n : active n ->
  end_of waits rounds n (fst (computeControl waits rounds n)) (snd (computeControl waits rounds n)).
Proof.
  intros Hn. unfold computeControl.
  destruct (follow_cancelled waits rounds n Hn) as (Ha & Hc & Hf).
  unfold mbind, ST_bind, catch. destruct (follow_path waits rounds n) as [[e|e|] n1] eqn:Ef; cbn [fst snd] in *; [| |done].
  - destruct e as [| | | |c|]; cbn; try done; [by apply Hc| |by destruct (Hf c)].
    destruct (zero_sent n1 Ha) as [Ha2 Hs2].
    destruct (publishZeroVelocity n1) as [[[]|x|] n2]; cbn [fst snd] in *; [|by left|done].
    destruct (tell_final (call_succeeded empty_result) eq_refl n2 (conj Ha2 Hs2)) as [Hs3 Ho3].
    destruct (tell (call_succeeded empty_result) n2) as [[[]|x|] n3]; cbn in *; [|by left|done].
    destruct (Ho3 eq_refl). by repeat split.
  - destruct (error_code e) as [c|] eqn:Ec; cbn.
    + destruct (fail_done c n1 Ha) as [Hs2 Hr2].
      destruct (fail_with c n1) as [[x|x|] n2]; cbn [fst snd] in *; [|by left|done].
      destruct (Hr2 x eq_refl) as (-> & Hfin & Hlast). cbn. repeat split; try done; try apply Hfin. by eexists _, _.
    + right. by destruct e.
Qed.
End Stopping.

(** ** One cycle *)

#[local] Arguments minus_one : simpl never.

Section Cycle.
Context (listened : forall e, 0 < fst (get_subscription_count e)).

(** The robot is at [p], where its progress checker is content; the world is [e] after that. *)
Definition progressing n (p : PoseStamped) (e : E) : Prop := exists p0 e0 c c',
  costmap_robot_pose (outside n) = (Some p0, e0) /\
  progress_checkers_ (members n) !! current_progress_checker_ (selected (members n)) = Some c /\
  check_progress p0 c e0 = (Prelude.Returned (true, p), c', e).

(** The answer of the chosen controller for this pose, the velocity of the odometry and the chosen goal checker. *)
Definition answered n (p : PoseStamped) (o : outcome TwistStamped) (e : E) : Prop := exists e0 e1 t k k' g g',
  progressing n p e0 /\ odom_velocity e0 = (t, e1) /\
  controllers_ (members n) !! current_controller_ (selected (members n)) = Some k /\
  goal_checkers_ (members n) !! current_goal_checker_ (selected (members n)) = Some g /\
  computeVelocityCommands p (twist2Dto3D (getThresholdedTwist t (settings_of (members n)))) g k e1 = (o, g', k', e).

Definition tolerance n : f64 := failure_tolerance_ (settings_of (members n)).

(** A tolerance of minus one is unlimited. *)
Definition tolerant n : Prop := f64_lt f64_zero (tolerance n) = true \/ f64_eq (tolerance n) minus_one = true.

(** The time since the last velocity of a controller, read after the frame and the stamp of a velocity of zero. *)
Definition age_of n (e : E) : outcome Z :=
  elapsed (fst (now (snd (now (snd (getBaseFrameID e)))))) (last_valid_cmd_time_ (track_of (members n))).

(** What a cycle publishes, and when it takes the last valid velocity to be. *)
Inductive commands n : Twist -> Z -> Prop :=
  | Fresh p v e : answered n p (Prelude.Returned v) e -> commands n (twist v) (fst (now e))
  | Patient p e age : answered n p (Raised no_valid_control) e -> tolerant n -> age_of n e = Prelude.Returned age ->
      f64_lt (tolerance n) (seconds age) = false \/ f64_eq (tolerance n) minus_one = true ->
      commands n zero_twist (last_valid_cmd_time_ (track_of (members n))).

(** Why it publishes nothing. *)
Inductive refuses n : exn -> Prop :=
  | Lost : fst (costmap_robot_pose (outside n)) = None -> refuses n controller_tf_error
  | Unchecked p e c c' e' x : costmap_robot_pose (outside n) = (Some p, e) ->
      progress_checkers_ (members n) !! current_progress_checker_ (selected (members n)) = Some c ->
      check_progress p c e = (Raised x, c', e') -> refuses n x
  | Stuck p p' e c c' e' : costmap_robot_pose (outside n) = (Some p, e) ->
      progress_checkers_ (members n) !! current_progress_checker_ (selected (members n)) = Some c ->
      check_progress p c e = (Prelude.Returned (false, p'), c', e') -> refuses n failed_to_make_progress
  | Refused p x e : answered n p (Raised x) e -> x <> no_valid_control -> refuses n x
  | Impatient p e : answered n p (Raised no_valid_control) e -> ~ tolerant n -> refuses n no_valid_control
  | Exceeded p e age : answered n p (Raised no_valid_control) e -> tolerant n -> age_of n e = Prelude.Returned age ->
      f64_lt (tolerance n) (seconds age) = true -> f64_eq (tolerance n) minus_one = false -> refuses n patience_exceeded
  | Timeless p e x : answered n p (Raised no_valid_control) e -> tolerant n -> age_of n e = Raised x -> refuses n x.

(** The chosen plugins are there, and the server is. *)
Definition equipped n : Prop :=
  is_Some (progress_checkers_ (members n) !! current_progress_checker_ (selected (members n))) /\
  is_Some (controllers_ (members n) !! current_controller_ (selected (members n))) /\
  is_Some (goal_checkers_ (members n) !! current_goal_checker_ (selected (members n))) /\ is_Some (server_of n).

Definition twist_of (m : message) : Twist := match m with TWIST t => t | TWIST_STAMPED v => twist v end.

Definition cycle_result n (r : res ()) n' : Prop :=
  match r with
  | Ok _ => exists m, sent n' = sent n ++ [m] /\ commands n (twist_of m) (last_valid_cmd_time_ (track_of (members n')))
  | Throw e => sent n' = sent n /\ refuses n e
  | UB => sent n' = sent n /\ ~ equipped n
  end.

(** The velocity that is published, from a state [n1] that the check of the progress has left. *)
Definition command (p : PoseStamped) : control TwistStamped :=
  velocity ← robot_velocity;
  catch (valid_velocity p velocity) (fun e => if bool_decide (e = no_valid_control) then Some keep_patience else None).

Lemma command_cases n p e (checkers : gmap string PC) : progressing n p e ->
  let n1 := set_outside e (set_members (set_progress_checkers checkers (members n)) n) in
  match command p n1 with
  | (Ok v, n') => commands n (twist v) (last_valid_cmd_time_ (track_of (members n')))
  | (Throw x, _) => refuses n x
  | (UB, _) => ~ equipped n
  end.
Proof.
  intros Hp n1. unfold command, robot_velocity, own, look. expose. cbn.
  destruct (odom_velocity e) as [t e1] eqn:Ht. cbn.
  unfold catch, valid_velocity, compute_velocity, look, assign, modify. expose. cbn.
  destruct (controllers_ (members n) !! current_controller_ (selected (members n))) as [k|] eqn:Hk.
  2: { intros (_ & [? ?] & _). congruence. }
  destruct (goal_checkers_ (members n) !! current_goal_checker_ (selected (members n))) as [g|] eqn:Hg.
  2: { intros (_ & _ & [? ?] & _). congruence. }
  match goal with |- context [computeVelocityCommands ?p ?v g k e1] =>
    destruct (computeVelocityCommands p v g k e1) as [[[o g'] k'] e2] eqn:Hc end.
  assert (answered n p o e2) as Ha by (by exists e, e1, t, k, k', g, g').
  destruct o as [v|x]; cbn.
  { destruct (now e2) as [time e3] eqn:Hnow. cbn. destruct (getBaseFrameID e3) as [frame e4]. cbn.
    replace time with (fst (now e2)) by (by rewrite Hnow). by eapply Fresh. }
  case_bool_decide as Hx; [subst x|by eapply Refused].
  unfold keep_patience, zero_velocity, own, look, since, query. expose. cbn. fold (tolerance n).
  destruct (f64_lt f64_zero (tolerance n) || f64_eq (tolerance n) minus_one) eqn:Htol; cbn.
  2: { apply orb_false_elim in Htol as [Hz Hone]. eapply Impatient; [done|]. intros [|]; congruence. }
  assert (tolerant n) as Hpatient by (by apply orb_prop in Htol).
  pose (age := age_of n e2). unfold age_of in age.
  destruct (getBaseFrameID e2) as [frame e3] eqn:Hframe. cbn. destruct (now e3) as [time e4] eqn:Hnow. cbn.
  destruct (now e4) as [time' e5] eqn:Hnow'. cbn.
  assert (age_of n e2 = elapsed time' (last_valid_cmd_time_ (track_of (members n)))) as Hage.
  { unfold age_of. by rewrite Hframe; cbn; rewrite Hnow; cbn; rewrite Hnow'. }
  destruct (elapsed time' _) as [d|x]; cbn; [|by eapply Timeless].
  destruct (f64_lt (tolerance n) (seconds d)) eqn:Hlt, (f64_eq (tolerance n) minus_one) eqn:Heq; cbn.
  - eapply Patient; eauto.
  - by eapply Exceeded.
  - eapply Patient; eauto.
  - eapply Patient; eauto.
Qed.

(** The feedback and the velocity. *)
Definition report (p : PoseStamped) (cmd_vel : TwistStamped) : control () :=
  path ← own (fun c => current_path_ (track_of c));
  let speed := hypot (lin_x (twist cmd_vel)) (lin_y (twist cmd_vel)) in
  let distance := calculate_path_length path (find_closest_pose_idx (pose_of p) path) in
  _ ← tell (call_feedback (mk_feedback (f32_of_f64 distance) (f32_of_f64 speed)));
  publishVelocity cmd_vel.

Lemma report_sends p v n : active n ->
  match report p v n with
  | (Ok _, n') => (exists m, sent n' = sent n ++ [m] /\ twist_of m = twist v) /\ members n' = members n
  | (Throw _, _) => False
  | (UB, n') => sent n' = sent n /\ server_of n = None
  end.
Proof.
  intros (pub & Hpub & Hact). unfold report, own, tell, with_server. expose. cbn.
  destruct (server_of n) as [s|]; cbn; [|done]. destruct (others (outside n) s) as [s1 e]. cbn.
  unfold publishVelocity, own, look, query. expose. cbn. rewrite Hpub. cbn. rewrite Hact. cbn.
  pose proof (listened e) as Hl. destruct (get_subscription_count e) as [count e']. cbn in *.
  rewrite (proj2 (Z.ltb_lt 0 count) Hl). cbn. split; [|done]. eexists. split; [done|]. by destruct (is_stamped_ pub).
Qed.

Lemma command_same p n0 : keeps (same n0) (command p).
Proof. unfold command. keep. Qed.

(** C12: one cycle of the controller, for an activated publisher with a subscriber, from any state. If it returns, it has published
    exactly one velocity: the one that the chosen controller computed for the present pose of the robot, from the
    thresholded velocity of the odometry, after the progress checker was content, and its time is remembered; or zero, where that
    controller found no valid velocity and the last valid one is not older than the tolerance allows (or the tolerance
    is unlimited), and the remembered time stays. If it throws, it has published nothing, and the exception tells why: the pose is
    not known, there is no progress, the checker, the controller or the clock threw, there is no tolerance, or
    it was exceeded. It is undefined only where a chosen plugin or the server is missing. *)
Theorem control_cycle n : active n -> cycle_result n (fst (computeAndPublishVelocity n)) (snd (computeAndPublishVelocity n)).
Proof.
  intros Hn. unfold computeAndPublishVelocity, own, look. expose. cbn.
  destruct (costmap_robot_pose (outside n)) as [[p0|] e0] eqn:Hp0; cbn.
  2: { split; [done|]. apply Lost. by rewrite Hp0. }
  unfold call_progress_checker, call_plugin. cbn.
  destruct (progress_checkers_ (members n) !! current_progress_checker_ (selected (members n))) as [c|] eqn:Hc.
  2: { split; [done|]. intros ([? ?] & _). congruence. }
  destruct (check_progress p0 c e0) as [[[[[|] p]|x] c'] e] eqn:Hcheck; cbn.
  2: { split; [done|]. by eapply Stuck. }
  2: { split; [done|]. by eapply Unchecked. }
  match goal with |- context [robot_velocity ?m] => set (n1 := m) end.
  assert (progressing n p e) as Hp by (by exists p0, e0, c, c').
  pose proof (command_cases n p e (<[current_progress_checker_ (selected (members n)) := c']> (progress_checkers_ (members n))) Hp)
    as Hcommand. cbv zeta in Hcommand. change (set_outside e _) with n1 in Hcommand.
  destruct (command_same p n1 n1 (reflexivity n1)) as [Hserver Hsent Hpub _ _ _ _].
  unfold command in *. expose. expose in Hcommand. expose in Hserver. expose in Hsent. expose in Hpub.
  destruct (robot_velocity n1) as [[velocity|x|] n2]; cbn [fst snd] in *; [|by split|by split].
  destruct (catch (valid_velocity p velocity) _ n2) as [[v|x|] n3]; cbn [fst snd] in *; [|by split|by split].
  assert (active n3) as Hn3 by (destruct Hn as (pub & Hp1 & Ha); exists pub; by rewrite Hpub).
  pose proof (report_sends p v n3 Hn3) as Hreport.
  match goal with |- cycle_result n (fst ?r) _ => change r with (report p v n3) end.
  destruct (report p v n3) as [[u|x|] n4]; cbn [fst snd cycle_result] in *; [|done|].
  - destruct Hreport as ((m & Hm & Htw) & Hmem). exists m. rewrite Hm, Hsent, Htw, Hmem. by split.
  - destruct Hreport as [Hs Hnone]. split; [by rewrite Hs|]. intros (_ & _ & _ & [s Hsome]). rewrite Hserver in Hnone.
    cbn in Hnone. congruence.
Qed.
End Cycle.

(** ** No undefined behaviour *)

Section Sound.
Context `{!GoalHandleLaws W Goal Z Feedback}.

(** The loop over an unordered map reaches its elements only. *)
Context (buckets : forall l, bucket_order l ⊆ l).

(** No deactivation runs out of time: the other threads do not terminate goals. *)
Definition calm_step (s s' : server W) : Prop :=
  exists a, is_other a = true /\ (a = by_user -> deactivating s <> Deadline) /\ step true false a s s'.
Context (calm : forall e s, worker s = InCallback -> rtc calm_step s (fst (others e s))).

Definition base n : Prop :=
  (exists p, vel_publisher_ (members n) = Some p) /\
  exists s, server_of n = Some s /\ worker s = InCallback /\ inv s.

Definition has_controller id n : Prop := id ∈ dom (controllers_ (members n)).
Definition has_goal_checker id n : Prop := id ∈ dom (goal_checkers_ (members n)).
Definition has_progress_checker id n : Prop := id ∈ dom (progress_checkers_ (members n)).

(** The plugins of the task exist. *)
Definition chosen n : Prop :=
  base n /\ has_controller (current_controller_ (selected (members n))) n /\
  has_goal_checker (current_goal_checker_ (selected (members n))) n /\
  has_progress_checker (current_progress_checker_ (selected (members n))) n.

#[local] Instance base_stable : Stable base.
Proof. intros n n' [Hs _ Hp _ _ _ _] [Hn Hb]. split; [by rewrite Hp|by rewrite Hs]. Qed.
#[local] Instance has_controller_stable id : Stable (has_controller id).
Proof. intros n n' [_ _ _ _ _ _ Hk] Hn. unfold has_controller. by rewrite Hk. Qed.
#[local] Instance has_goal_checker_stable id : Stable (has_goal_checker id).
Proof. intros n n' [_ _ _ _ _ Hg _] Hn. unfold has_goal_checker. by rewrite Hg. Qed.
#[local] Instance has_progress_checker_stable id : Stable (has_progress_checker id).
Proof. intros n n' [_ _ _ _ Hp _ _] Hn. unfold has_progress_checker. by rewrite Hp. Qed.
#[local] Instance chosen_stable : Stable chosen.
Proof.
  intros n n' Hs (Hb & Hk & Hg & Hp). destruct (same_selected n n' Hs).
  split; [by apply (stable n)|]. repeat split; by apply (stable (I := _) n).
Qed.

(** Calls that are no undefined behaviour. *)
Lemma sound_quiet {A} I (c : control A) `{!Stable I} : (forall n, I n -> fst (c n) <> UB) -> (forall n0, keeps (same n0) c) -> sound I c.
Proof. intros Hu Hc n Hn. split; [by apply Hu|]. by apply (keeps_quiet I). Qed.

Lemma sound_look {A} I (f : E -> A * E) `{!Stable I} : sound I (look f).
Proof. apply sound_quiet; [done| |auto with keeps]. intros n _. unfold look. by destruct (f (outside n)). Qed.
#[local] Hint Resolve sound_look : keeps.
#[local] Hint Extern 1 (Stable _) => apply _ : keeps.

Lemma call_controller_ok {A} id (f : virtual K E A) n : has_controller id n -> fst (call_controller id f n) <> UB.
Proof. apply call_plugin_ok. Qed.
Lemma call_goal_checker_ok {A} id (f : virtual GC E A) n : has_goal_checker id n -> fst (call_goal_checker id f n) <> UB.
Proof. apply call_plugin_ok. Qed.
Lemma call_progress_checker_ok {A} id (f : virtual PC E A) n :
  has_progress_checker id n -> fst (call_progress_checker id f n) <> UB.
Proof. apply call_plugin_ok. Qed.

(** Calls of the current plugins. *)
Lemma current_controller_sound {A} (f : virtual K E A) id :
  ends (fun n => chosen n /\ current_controller_ (selected (members n)) = id) (call_controller id f)
    (fun r n => r <> UB /\ chosen n).
Proof.
  intros n [Hn <-]. split; [apply call_controller_ok, Hn|].
  apply (keeps_quiet chosen); [apply _|auto with keeps|done].
Qed.
Lemma current_goal_checker_sound {A} (f : virtual GC E A) id :
  ends (fun n => chosen n /\ current_goal_checker_ (selected (members n)) = id) (call_goal_checker id f)
    (fun r n => r <> UB /\ chosen n).
Proof.
  intros n [Hn <-]. split; [apply call_goal_checker_ok, Hn|].
  apply (keeps_quiet chosen); [apply _|auto with keeps|done].
Qed.
Lemma current_progress_checker_sound {A} (f : virtual PC E A) id :
  ends (fun n => chosen n /\ current_progress_checker_ (selected (members n)) = id) (call_progress_checker id f)
    (fun r n => r <> UB /\ chosen n).
Proof.
  intros n [Hn <-]. split; [apply call_progress_checker_ok, Hn|].
  apply (keeps_quiet chosen); [apply _|auto with keeps|done].
Qed.
#[local] Hint Resolve current_controller_sound current_goal_checker_sound current_progress_checker_sound : keeps.

(** A call of a plugin whose name is a value of the members. *)
Ltac current := apply own_value; intros ?; first [solve [auto with keeps]|eapply sound_then; [solve [auto with keeps]|intros ?]].

Lemma each_sound f l I `{!Stable I} :
  ends (fun n => I n /\ forall id, id ∈ l -> has_controller id n) (each_plugin controllers_ set_controllers l f) (fun r n => r <> UB /\ I n).
Proof.
  induction l as [|id l IH]; cbn; [intros n [Hn _]; by split|].
  apply (ends_bind _ _ _ (fun r n => r <> UB /\ I n /\ forall id, id ∈ l -> has_controller id n)).
  - intros n [Hn Hl]. split; [apply call_controller_ok, Hl; set_solver|].
    assert (same n (snd (call_controller id f n))) as Hs by (by apply (quiet_controller id f n n)).
    split; [by apply (stable n)|]. intros id' Hid. apply (stable (I := has_controller id') n _ Hs), Hl. set_solver.
  - intros [] n (_ & Hn). by apply IH.
  - by intros e n (_ & Hn & _).
  - by intros n (? & _).
Qed.

Lemma for_sound f I `{!Stable I} : sound I (for_controllers f).
Proof.
  intros n Hn. unfold for_controllers, get. expose. apply each_sound; [done|]. split; [done|].
  intros id Hid. apply buckets, list_elem_of_fmap in Hid as ([k v] & -> & Hkv). cbn.
  apply elem_of_dom. exists v. by apply elem_of_map_to_list.
Qed.
#[local] Hint Resolve for_sound : keeps.

(** Calls of the server. *)
Lemma calm_run s s' : rtc calm_step s s' -> worker s = InCallback -> inv s ->
  worker s' = InCallback /\ inv s' /\ (preempt_requested s = true -> preempt_requested s' = true).
Proof.
  induction 1 as [s|s t s' (a & Ho & Hd & Hst) _ IH]; intros Hw Hi; [done|].
  assert (worker t = InCallback) as Hwt.
  { eapply task_step_worker; [|exact Hw]. apply other_task. by exists a. }
  destruct (IH Hwt (step_inv true false a s t Hst Hi)) as (Hw' & Hi' & Hp). split; [done|]. split; [done|].
  intros Hs. apply Hp. destruct Hst; cbn in Ho; try discriminate Ho; try done.
  - unfold handle_accepted, is_running. cbn. rewrite Hw, orb_true_r. by repeat (case_match; cbn).
  - unfold deactivate_wait. by repeat (case_match; cbn).
  - by destruct (Hd eq_refl).
Qed.

(** A state whose server is as it should be and whose members have a property. *)
Definition good (J : controller PC GC K -> Prop) n : Prop := base n /\ J (members n).

Lemma server_sound {A} J (f : server W -> A * server W) :
  (forall s, worker s = InCallback -> inv s -> worker (snd (f s)) = InCallback /\ inv (snd (f s))) ->
  sound (good J) (with_server f).
Proof.
  intros Hf n [[Hp (s & Hs & Hw & Hi)] HJ]. unfold with_server. rewrite Hs.
  destruct (calm_run s _ (calm (outside n) s Hw) Hw Hi) as (Hw1 & Hi1 & _).
  destruct (others (outside n) s) as [s1 e]. cbn [fst] in *. destruct (Hf s1 Hw1 Hi1) as [Hw2 Hi2].
  destruct (f s1) as [a s2]. cbn in *. split; [done|]. split; [|exact HJ]. split; [exact Hp|]. by exists s2.
Qed.

Lemma ask_sound {A} J (f : server W -> A) : sound (good J) (ask f).
Proof. by apply server_sound. Qed.
Lemma tell_sound J c : sound (good J) (tell c).
Proof. apply server_sound. intros s Hw Hi. cbn. rewrite run_call_worker. split; [done|]. by apply run_call_inv. Qed.

(** The part of [chosen] that speaks of the members. *)
Definition names_exist (c : controller PC GC K) : Prop :=
  current_controller_ (selected c) ∈ dom (controllers_ c) /\
  current_goal_checker_ (selected c) ∈ dom (goal_checkers_ c) /\
  current_progress_checker_ (selected c) ∈ dom (progress_checkers_ c).

Lemma ask_base {A} (f : server W -> A) : sound base (ask f).
Proof. intros n Hn. destruct (ask_sound (fun _ => True) f n (conj Hn I)) as (? & ? & _). done. Qed.
Lemma tell_base c : sound base (tell c).
Proof. intros n Hn. destruct (tell_sound (fun _ => True) c n (conj Hn I)) as (? & ? & _). done. Qed.
Lemma ask_chosen {A} (f : server W -> A) : sound chosen (ask f).
Proof. exact (ask_sound names_exist f). Qed.
Lemma tell_chosen c : sound chosen (tell c).
Proof. exact (tell_sound names_exist c). Qed.
#[local] Hint Resolve ask_base tell_base ask_chosen tell_chosen : keeps.

Definition preempting n : Prop := exists s, server_of n = Some s /\ preempt_requested s = true.

Lemma ask_preempt : ends chosen (ask is_preempt_requested)
  (fun r n => exists b, r = Ok b /\ chosen n /\ (b = true -> preempting n)).
Proof.
  intros n Hn. destruct (ask_chosen is_preempt_requested n Hn) as [Hu Hc].
  unfold ask, with_server in *. destruct (server_of n) as [s|]; [|done].
  destruct (others (outside n) s) as [s1 e]. eexists. split; [done|]. split; [exact Hc|].
  intros Hp. by exists s1.
Qed.

Lemma accept_chosen : ends (fun n => chosen n /\ preempting n) accept (fun r n => exists g, r = Ok (Some g) /\ chosen n).
Proof.
  intros n [[[Hp (s & Hs & Hw & Hi)] HJ] (s' & Hs' & Hpre)]. rewrite Hs in Hs'. injection Hs' as <-.
  unfold accept, with_server. rewrite Hs.
  destruct (calm_run s _ (calm (outside n) s Hw) Hw Hi) as (Hw1 & Hi1 & Hp1).
  destruct (others (outside n) s) as [s1 e]. cbn [fst] in *. specialize (Hp1 Hpre).
  apply (inv_preempt s1 Hi1) in Hp1. destruct (pending_handle s1) as [p|] eqn:Epend; [|done].
  destruct (accept_pending_spec s1 p Hi1 Epend) as (Hi2 & Hg & _).
  pose proof (run_call_worker call_accept_pending s1) as Hw2. cbn in Hw2. rewrite Hw1 in Hw2.
  destruct (accept_pending_goal s1) as [g s2]. cbn in *. subst g. eexists. split; [done|].
  split; [|exact HJ]. split; [exact Hp|]. by exists s2.
Qed.

(** The pointer to the publisher is set. *)
Lemma publish_sound J v : sound (good J) (publishVelocity v).
Proof.
  intros n Hn. pose proof Hn as [[[p Hp] _] _]. unfold publishVelocity, own, look, query. expose. cbn. rewrite Hp.
  destruct (is_activated p) eqn:Ha; [|by split].
  destruct (get_subscription_count (outside n)) as [count e]. cbn. rewrite ?Ha.
  destruct (0 <? count); by split.
Qed.
Lemma publish_base v : sound base (publishVelocity v).
Proof. intros n Hn. destruct (publish_sound (fun _ => True) v n (conj Hn I)) as (? & ? & _). done. Qed.
Lemma publish_chosen v : sound chosen (publishVelocity v).
Proof. exact (publish_sound names_exist v). Qed.
#[local] Hint Resolve publish_base publish_chosen : keeps.

Lemma zero_velocity_sound I `{!Stable I} : sound I zero_velocity.
Proof. unfold zero_velocity. keep. Qed.
Lemma robot_velocity_sound I `{!Stable I} : sound I robot_velocity.
Proof. unfold robot_velocity. keep. Qed.
#[local] Hint Resolve zero_velocity_sound robot_velocity_sound : keeps.
Lemma publish_zero_base : sound base publishZeroVelocity.
Proof. unfold publishZeroVelocity. keep. Qed.
Lemma publish_zero_chosen : sound chosen publishZeroVelocity.
Proof. unfold publishZeroVelocity. keep. Qed.
#[local] Hint Resolve publish_zero_base publish_zero_chosen : keeps.

Lemma assign_sound I f `{!Stable I} : (forall n0, keeps (same n0) (assign f)) -> sound I (assign f).
Proof. intros Hf. by apply sound_quiet. Qed.

Ltac quiet_assign := apply assign_sound; [apply _|intros ?; by apply quiet_assign].

Lemma plan_sound path : sound chosen (setPlannerPath path).
Proof.
  unfold setPlannerPath. destruct (last (poses path)) as [p|]; [|auto with keeps].
  current. apply sound_bind; [quiet_assign|intros _].
  current. quiet_assign.
Qed.
#[local] Hint Resolve plan_sound : keeps.

Lemma compute_chosen p v : sound chosen (compute_velocity p v).
Proof.
  apply sound_quiet; [apply _| |auto with keeps]. intros n (_ & [k Hk]%elem_of_dom & [g Hg]%elem_of_dom & _).
  unfold compute_velocity. rewrite Hk, Hg. destruct (computeVelocityCommands p v g k (outside n)) as [[[o g'] k'] e].
  apply of_outcome_defined.
Qed.
Lemma valid_sound p v : sound chosen (valid_velocity p v).
Proof.
  unfold valid_velocity. apply sound_bind; [apply compute_chosen|intros u].
  apply sound_bind; [auto with keeps|intros time].
  apply sound_bind; [quiet_assign|intros _]. keep.
Qed.
Lemma patience_sound : sound chosen keep_patience.
Proof. unfold keep_patience. keep. Qed.
#[local] Hint Resolve valid_sound patience_sound : keeps.

Lemma command_sound p v : sound chosen (catch (valid_velocity p v)
  (fun e => if bool_decide (e = no_valid_control) then Some keep_patience else None)).
Proof. apply sound_catch; [auto with keeps|]. intros e k Hk. case_bool_decide; [|done]. injection Hk as <-. auto with keeps. Qed.
#[local] Hint Resolve command_sound : keeps.

Lemma compute_sound : sound chosen computeAndPublishVelocity.
Proof.
  unfold computeAndPublishVelocity. apply sound_bind; [auto with keeps|intros [p|]; [|auto with keeps]].
  current. destruct a0 as [[|] q]; cbn [negb]; [|auto with keeps]. keep.
Qed.

Lemma latest_sound frame p t : sound (fun _ : E => True) (transform_latest frame p t).
Proof.
  unfold transform_latest. apply sound_bind.
  - intros e _. split; [|done]. unfold out_call. destruct (lookupTransform _ _ _) as [o e']. apply of_outcome_defined.
  - intros tr. do 3 (apply sound_bind; [apply sound_query; intros e _; apply of_outcome_defined|intros ?]). auto with keeps.
Qed.

Lemma reached_sound : sound chosen isGoalReached.
Proof.
  unfold isGoalReached. apply sound_bind; [auto with keeps|intros [p|]; [|auto with keeps]].
  apply sound_bind; [auto with keeps|intros velocity].
  apply sound_bind; [auto with keeps|intros tolerance].
  apply sound_bind; [auto with keeps|intros frame].
  apply sound_bind; [auto with keeps|intros end_pose].
  apply sound_bind; [|intros transformed; current].
  apply sound_quiet; [apply _| |auto with keeps].
  intros n _. unfold transform_pose, transformPose. destruct (String.eqb _ _); [done|].
  unfold out_call. destruct (tf_transform _ _ _) as [[p'|x] e]; cbn; [done|].
  destruct x; try done. pose proof (latest_sound frame end_pose (from_seconds tolerance) e I) as [Hl _].
  by destruct (transform_latest _ _ _ e).
Qed.
#[local] Hint Resolve compute_sound reached_sound : keeps.

(** The steps of an update keep the choice valid. *)
Lemma select_controller_chosen id : ends (fun n => chosen n /\ has_controller id n) (assign (select_controller id))
  (fun r n => r <> UB /\ chosen n).
Proof. intros n [(Hb & _ & Hg & Hp) Hid]. split; [done|]. exact (conj Hb (conj Hid (conj Hg Hp))). Qed.
Lemma select_goal_checker_chosen id : ends (fun n => chosen n /\ has_goal_checker id n) (assign (select_goal_checker id))
  (fun r n => r <> UB /\ chosen n).
Proof. intros n [(Hb & Hk & _ & Hp) Hid]. split; [done|]. exact (conj Hb (conj Hk (conj Hid Hp))). Qed.
Lemma select_progress_checker_chosen id : ends (fun n => chosen n /\ has_progress_checker id n)
  (assign (select_progress_checker id))
  (fun r n => r <> UB /\ chosen n /\ has_progress_checker id n).
Proof. intros n [(Hb & Hk & Hg & _) Hid]. split; [done|]. exact (conj (conj Hb (conj Hk (conj Hg Hid))) Hid). Qed.

Lemma change_progress_sound id : ends (fun n => chosen n /\ has_progress_checker id n)
  (_ ← assign (select_progress_checker id); call_progress_checker id reset_progress) (fun r n => r <> UB /\ chosen n).
Proof.
  eapply ends_bind; [apply select_progress_checker_chosen| |by intros e n (_ & ? & _)|by intros n (? & _)].
  intros [] n (_ & Hn & Hid). split; [by apply call_progress_checker_ok|].
  apply (keeps_quiet chosen); [apply _|auto with keeps|done].
Qed.

Lemma update_sound : sound chosen updateGlobalPath.
Proof.
  unfold updateGlobalPath. eapply ends_bind; [apply ask_preempt| |by intros e n (b & ? & _)|by intros n (b & ? & _)].
  intros [|]; cbn [negb]; [|intros n (b & [= <-] & Hn & _); by split].
  apply (ends_pre (fun n => chosen n /\ preempting n)); [|intros n (b & [= <-] & Hn & Hp); auto].
  eapply ends_bind; [apply accept_chosen| |by intros e n (g & ? & _)|by intros n (g & ? & _)].
  intros [goal|]; [|by intros n (g & ? & _)].
  apply (ends_pre chosen); [|by intros n (g & _ & Hn)].
  apply own_found; [apply tell_chosen|intros id].
  eapply sound_then; [apply select_controller_chosen|intros _]. apply own_found; [apply tell_chosen|intros gid].
  eapply sound_then; [apply select_goal_checker_chosen|intros _]. apply own_found; [apply tell_chosen|intros pid].
  apply own_any. intros current. eapply sound_then; [|intros []; auto with keeps].
  destruct (String.eqb current pid); [by intros n [Hn _]|apply change_progress_sound].
Qed.
#[local] Hint Resolve update_sound : keeps.

Lemma inactive_sound : sound chosen server_inactive.
Proof. unfold server_inactive. apply sound_bind; [auto with keeps|intros n]. destruct (server_of n); keep. Qed.
Lemma cancel_sound : sound chosen cancel_requested.
Proof. unfold cancel_requested. apply sound_bind; [auto with keeps|intros [|]; [|auto with keeps]]. current. Qed.
Lemma wait_sound current limit late waits t : sound chosen (wait_for_costmap (M := message) current limit late waits t).
Proof. induction waits as [|w IH]; cbn; keep. Qed.
#[local] Hint Resolve inactive_sound cancel_sound wait_sound : keeps.

Lemma loop_sound waits rounds : sound chosen (control_loop waits rounds).
Proof. induction rounds as [|r IH]; cbn; keep. Qed.

(** From any state the plugins are chosen, or an exception is thrown. *)
Lemma choose_sound goal : ends base (choose_plugins goal) (fun r n => r <> UB /\ base n /\ (r = Ok tt -> chosen n)).
Proof.
  unfold choose_plugins. apply own_found; [by intros n Hn|intros id].
  apply (ends_bind _ _ _ (fun r n => r = Ok tt /\ base n /\ has_controller (current_controller_ (selected (members n))) n));
    [by intros n [Hn Hid]|intros []|by intros e n (? & _)|by intros n (? & _)].
  apply (ends_pre (fun n => base n /\ has_controller (current_controller_ (selected (members n))) n)); [|by intros n (_ & Hn)].
  apply own_found; [by intros n (Hb & _)|intros gid].
  apply (ends_bind _ _ _ (fun r n => r = Ok tt /\ base n /\ has_controller (current_controller_ (selected (members n))) n /\
    has_goal_checker (current_goal_checker_ (selected (members n))) n));
    [intros n [[Hb Hk] Hid]; exact (conj eq_refl (conj Hb (conj Hk Hid)))|intros []|by intros e n (? & _)|by intros n (? & _)].
  apply (ends_pre (fun n => base n /\ has_controller (current_controller_ (selected (members n))) n /\
    has_goal_checker (current_goal_checker_ (selected (members n))) n)); [|by intros n (_ & Hn)].
  apply own_found; [by intros n (Hb & _)|intros pid].
  intros n [(Hb & Hk & Hg) Hid]. split; [done|]. split; [exact Hb|]. intros _. exact (conj Hb (conj Hk (conj Hg Hid))).
Qed.

Lemma follow_sound waits rounds : ends base (follow_path waits rounds) (fun r n => r <> UB /\ base n).
Proof.
  unfold follow_path. apply sound_bind; [auto with keeps|intros [goal|]; [|auto with keeps]].
  eapply ends_bind; [apply choose_sound| |by intros e n (? & ? & _)|by intros n (? & ? & _)].
  intros []. apply (ends_pre chosen); [|intros n (_ & _ & Hn); by apply Hn].
  apply (ends_weaken chosen _ (fun r n => r <> UB /\ chosen n)); [|by intros r n [? [? _]]].
  apply sound_bind; [auto with keeps|intros _]. current.
  apply sound_bind; [auto with keeps|intros t].
  apply sound_bind; [quiet_assign|intros _].
  apply sound_bind; [auto with keeps|intros f].
  apply sound_bind; [apply sound_query; intros n _; apply of_outcome_defined|intros _]. apply loop_sound.
Qed.

(** C11: whatever goals arrive, are cancelled or replaced, and whatever plugins and world do, the callback
    has no undefined behaviour: plugins are called by names that exist, and a pending goal that preempts is
    there when it is accepted, as long as no deactivation terminates it at its deadline. *)
Theorem control_defined waits rounds n : base n ->
  fst (computeControl waits rounds n) <> UB /\ base (snd (computeControl waits rounds n)).
Proof.
  enough (sound base (computeControl waits rounds)) as Hs by (intros Hn; by apply Hs).
  unfold computeControl. apply sound_bind.
  - apply sound_catch; [apply follow_sound|]. intros e k Hk. destruct (error_code e); [|done]. injection Hk as <-.
    unfold fail_with. keep.
  - intros e. keep.
Qed.
End Sound.
End Laws.

(** ** Runs *)

Import Checkers Book.

(** The clock advances by one at each reading. Another thread makes the next list of moves; the
    robot is at the next pose, and stays at the last one. *)
Record world : Type := mk_world {
  clock : Z;
  script : list (list (move Goal));
  robot : list pose;
  transforms : bool;
  up : bool }.

Definition no_goal : Goal := mk_goal new_path "" "" "".
#[local] Instance demo_handles : GoalHandles (book Goal Z) Goal Z Feedback := book_handles no_goal NONE.
#[local] Instance demo_handle_laws : GoalHandleLaws (book Goal Z) Goal Z Feedback := book_laws no_goal NONE.

Definition others_with (allowed : move Goal -> bool) : Others (book Goal Z) world := fun e s =>
  match script e with
  | [] => (s, e)
  | l :: rest => (make_moves (F := Feedback) no_goal NONE (List.filter allowed l) s,
                  mk_world (clock e) rest (robot e) (transforms e) (up e))
  end.

#[local] Instance demo_others : Others (book Goal Z) world := others_with (fun _ => true).

#[local] Instance demo_others_laws : OtherLaws (W := book Goal Z) (E := world).
Proof. intros e s _. unfold others, demo_others, others_with. destruct (script e); [constructor|]. apply moves_steps. Qed.

#[local] Instance demo_clock : Clock world := fun e =>
  (clock e, mk_world (clock e + 1) (script e) (robot e) (transforms e) (up e)).
#[local] Instance plain_hypot : Hypot := {| hypot := Footprint.demo_hypot; hypotf a b := a |}.
#[local] Instance plain_durations : Durations := {|
  from_seconds x := match f64_to_int 64 x with Ok z => z | _ => 0 end;
  seconds z := f64_of_Z z |}.
#[local] Instance plain_clocks : Clocks := {|
  time_of_stamp s := Prelude.Returned (fst s);
  stamp_of_time t := (t, 0);
  elapsed t t0 := Prelude.Returned (t - t0) |}.
#[local] Instance plain_angles : Angles := {| getYaw _ := f64_zero; shortest_angular_distance _ _ := f64_zero |}.
#[local] Instance plain_rotation : Rotation := {| atan2 _ _ := f64_zero; orientationAroundZAxis _ := identity_rotation |}.
#[local] Instance plain_buckets : Buckets := fun l => l.

(** A transformation takes the coordinates as they are, or fails. *)
#[local] Instance demo_transforms : TransformBuffer world := {|
  transform_stamped := ();
  tf_stamp _ := (0, 0);
  tf_transform p _ e := (if transforms e then Prelude.Returned p else Raised transform_exception, e);
  lookupTransform _ _ e := (Prelude.Returned tt, e);
  doTransform p _ := p |}.

Definition look_robot (e : world) : option PoseStamped * world :=
  match robot e with
  | [] => (None, e)
  | [p] => (Some (mk_pose_stamped no_header p), e)
  | p :: l => (Some (mk_pose_stamped no_header p), mk_world (clock e) (script e) l (transforms e) (up e))
  end.

#[local] Instance demo_surroundings : Surroundings (book Goal Z) world := {|
  rclcpp_ok e := (up e, e);
  make_rate x := if f64_lt f64_zero x then Prelude.Returned tt else Raised invalid_argument;
  costmap_configure e := (tt, e);
  costmap_activate e := (true, e);
  costmap_deactivate e := (tt, e);
  costmap_cleanup e := (tt, e);
  isCurrent e := (true, e);
  costmap_robot_pose := look_robot;
  getTransformTolerance e := (f64_zero, e);
  getBaseFrameID e := ("base_link"%string, e);
  getGlobalFrameID e := ("odom"%string, e);
  odom_velocity e := (mk_twist2d f64_zero f64_zero f64_zero, e);
  publish_zero_velocity e := (true, e);
  get_subscription_count e := (1, e);
  deadline_passed e := (true, e);
  new_handles e := (mk_book [] [], e) |}.

(** A controller is the list of its answers; the last one is repeated. *)
Definition answers : Type := list (outcome TwistStamped).
#[local] Instance demo_controllers : Controllers answers simple_goal world := {|
  controller_configure _ k e := (Prelude.Returned tt, k, e);
  controller_cleanup k e := (Prelude.Returned tt, k, e);
  controller_activate k e := (Prelude.Returned tt, k, e);
  controller_deactivate k e := (Prelude.Returned tt, k, e);
  setPlan _ k e := (Prelude.Returned tt, k, e);
  computeVelocityCommands _ _ g k e :=
    match k with [] => (Raised no_valid_control, g, k, e) | [a] => (a, g, k, e) | a :: l => (a, g, l, e) end;
  cancel k e := (Prelude.Returned true, k, e);
  setSpeedLimit _ _ k e := (Prelude.Returned tt, k, e);
  controller_reset k e := (Prelude.Returned tt, k, e) |}.

Definition at_point (x y : Z) : pose := mk_pose (f64_of_Z x) (f64_of_Z y) f64_zero identity_rotation.
Definition path_to (frame : string) (l : list (Z * Z)) : Path :=
  mk_path (mk_header (0, 0) frame) (map (fun q => mk_pose_stamped (mk_header (0, 0) frame) (at_point (fst q) (snd q))) l).
Definition forward : outcome TwistStamped := Prelude.Returned (mk_stamped no_header (planar (f64_of_Z 1) f64_zero f64_zero)).

(** Progress of one unit in 100 ticks is required, and the goal is reached within one unit. *)
Definition demo_progress : simple_progress :=
  mk_simple_progress "progress_checker" (f64_of_Z 1) 100 (mk_pose2d f64_zero f64_zero f64_zero) 0 false.
Definition demo_goal_checker : simple_goal := mk_simple_goal "goal_checker" (f64_of_Z 1) (f64_of_Z 1) true true (f64_of_Z 1).

Definition demo_node (goal : Goal) (k : answers) (e : world) :
    node (book Goal Z) world (controller simple_progress simple_goal answers) message :=
  mk_node
    (mk_controller {["progress_checker"%string := demo_progress]} {["goal_checker"%string := demo_goal_checker]}
       {["FollowPath"%string := k]}
       (mk_settings (f64_of_Z 20) f64_zero f64_zero f64_zero f64_zero false 1000) (mk_selection "" "" "")
       (mk_track new_pose_stamped 0 new_path) (Some (mk_publisher true true)) (mk_links true true true true))
    (Some (serving (F := Feedback) no_goal NONE goal)) e [].

Definition demo_goal (path : Path) : Goal := mk_goal path "" "" "".
Definition to_ten : Goal := demo_goal (path_to "odom" [(0, 0); (5, 0); (10, 0)]).
Definition calm_world (moves : list (list (move Goal))) (robot : list pose) : world := mk_world 0 moves robot true true.

(** The linear velocities that were sent, and the results of the goals. *)
Definition velocities (l : list message) : list f64 :=
  map (fun m => match m with TWIST t => lin_x t | TWIST_STAMPED m => lin_x (twist m) end) l.
Definition results_of (n : node (book Goal Z) world (controller simple_progress simple_goal answers) message) : list (nat * Z) :=
  match server_of n with Some s => results (handles s) | None => [] end.
Definition run_control (rounds : nat) n : res ending * list f64 * list (nat * Z) :=
  let '(r, n) := computeControl rounds rounds n in (r, velocities (sent n), results_of n).

(** The robot arrives; its goal is cancelled; it does not move; its controller finds no velocity. *)
Example run_arrives :
  run_control 9 (demo_node to_ten [forward] (calm_world [] [at_point 0 0; at_point 0 0; at_point 9 0; at_point 10 0])) =
  (Ok Succeeded, [f64_of_Z 1; f64_of_Z 1; f64_zero], [(1%nat, NONE)]).
Proof. vm_compute. reflexivity. Qed.
Example run_cancelled :
  run_control 9 (demo_node to_ten [forward] (calm_world [[]; []; []; []; []; [AskCancel 1]] [at_point 0 0])) =
  (Ok Cancelled, [f64_of_Z 1; f64_zero], [(1%nat, NONE)]).
Proof. vm_compute. reflexivity. Qed.
Example run_stuck : let '(r, l, w) := run_control 40 (demo_node to_ten [forward] (calm_world [] [at_point 0 0])) in
  (r, last l, w) = (Ok (Failed FAILED_TO_MAKE_PROGRESS), Some f64_zero, [(1%nat, FAILED_TO_MAKE_PROGRESS)]).
Proof. vm_compute. reflexivity. Qed.
Example run_no_control :
  run_control 9 (demo_node to_ten [forward; Raised no_valid_control] (calm_world [] [at_point 0 0])) =
  (Ok (Failed NO_VALID_CONTROL), [f64_of_Z 1; f64_zero], [(1%nat, NO_VALID_CONTROL)]).
Proof. vm_compute. reflexivity. Qed.

(** A goal with an unknown controller preempts: both goals are over, but the robot goes on along the
    path of the first one. *)
Definition bad_goal : Goal := mk_goal (path_to "odom" [(0, 0); (0, 9)]) "unknown" "" "".
Example invalid_preemption :
  run_control 3 (demo_node to_ten [forward] (calm_world [[]; []; []; [Arrive 2 bad_goal]] [at_point 0 0])) =
  (Ok Running, [f64_of_Z 1; f64_of_Z 1; f64_of_Z 1], [(1%nat, NONE); (2%nat, NONE)]).
Proof. vm_compute. reflexivity. Qed.

(** A deactivation reaches its deadline between the question whether a goal preempts and its
    acceptance: the pointer to the goal is null. *)
Example preempt_race : fst (fst (run_control 3 (demo_node to_ten [forward]
  (calm_world [[]; []; []; [Arrive 2 to_ten]; [Flags; Future; Wait true; AtDeadline]] [at_point 0 0])))) = UB.
Proof. vm_compute. reflexivity. Qed.

(** The end of a path in another frame cannot be transformed: a robot at the origin has arrived. *)
Example arrived_at_origin :
  run_control 3 (demo_node (demo_goal (path_to "map" [(0, 0); (5, 0); (10, 0)])) [forward]
    (mk_world 0 [] [at_point 0 0] false true)) = (Ok Succeeded, [f64_of_Z 1; f64_zero], [(1%nat, NONE)]).
Proof. vm_compute. reflexivity. Qed.

(** When the process is shut down the goal counts as reached. *)
Example shut_down_succeeds : run_control 3 (demo_node to_ten [forward] (mk_world 0 [] [at_point 0 0] true false)) =
  (Ok Succeeded, [f64_zero], [(1%nat, NONE)]).
Proof. vm_compute. reflexivity. Qed.

Definition demo_run := demo_node to_ten [forward] (calm_world [[]; []; []; [Arrive 2 to_ten]] [at_point 0 0; at_point 10 0]).

Lemma control_refines_run : exists s, server_of (snd (computeControl 9 9 demo_run)) = Some s /\ worker s = InCallback /\
  rtc task_step (serving (F := Feedback) no_goal NONE to_ten) s /\ reachable true false s.
Proof.
  apply (control_refines true 9 9 demo_run); [reflexivity|reflexivity|apply serving_reachable].
Qed.

(** In a cycle, with these answers of the controller, and a tolerance of ten ticks. *)
Definition in_cycle (k : answers) := set_members
  (select_progress_checker "progress_checker" (select_goal_checker "goal_checker" (select_controller "FollowPath"
    (set_settings (mk_settings (f64_of_Z 20) f64_zero f64_zero f64_zero (f64_of_Z 10) false 1000)
      (members (demo_node to_ten k (calm_world [] [at_point 1 0]))))))) (demo_node to_ten k (calm_world [] [at_point 1 0])).

(** The velocity of the controller is published, and zero where it has none. *)
Lemma control_cycle_witness :
  (exists m, sent (snd (computeAndPublishVelocity (in_cycle [forward]))) = [m] /\
    commands (in_cycle [forward]) (twist_of m)
      (last_valid_cmd_time_ (track_of (members (snd (computeAndPublishVelocity (in_cycle [forward]))))))) /\
  exists m, sent (snd (computeAndPublishVelocity (in_cycle []))) = [m] /\ commands (in_cycle []) (twist_of m) 0.
Proof.
  assert (forall k, active (in_cycle k)) as Ha by (intros k; by eexists).
  pose proof (control_cycle (PC := simple_progress) (E := world) (fun e => eq_refl) (in_cycle [forward]) (Ha _)) as H1.
  pose proof (control_cycle (PC := simple_progress) (E := world) (fun e => eq_refl) (in_cycle []) (Ha _)) as H2.
  assert (fst (computeAndPublishVelocity (in_cycle [forward])) = Ok tt) as E1 by (vm_compute; reflexivity).
  assert (fst (computeAndPublishVelocity (in_cycle [])) = Ok tt) as E2 by (vm_compute; reflexivity).
  assert (last_valid_cmd_time_ (track_of (members (snd (computeAndPublishVelocity (in_cycle []))))) = 0) as E3 by (vm_compute; reflexivity).
  rewrite E1 in H1. rewrite E2 in H2. cbn [cycle_result] in H2. rewrite E3 in H2. split; [exact H1|exact H2].
Defined.

Lemma control_stops_witness : fst (computeControl 9 9 demo_run) = Ok Succeeded /\ finished (snd (computeControl 9 9 demo_run)).
Proof.
  assert (end_of 9 9 demo_run (fst (computeControl 9 9 demo_run)) (snd (computeControl 9 9 demo_run))) as He.
  { apply (control_stops (E := world)); [by intros e|by intros e|apply _|by eexists]. }
  assert (fst (computeControl 9 9 demo_run) = Ok Succeeded) as Hr by (vm_compute; reflexivity).
  split; [exact Hr|]. rewrite Hr in He. exact (proj1 He).
Defined.

(** Other threads that never reach a deadline. *)
Section Calm.
Definition no_deadline (m : move Goal) : bool := match m with AtDeadline => false | _ => true end.
#[local] Instance calm_others : Others (book Goal Z) world := others_with no_deadline.

Lemma calm_others_calm e s : worker s = InCallback -> rtc calm_step s (fst (others e s)).
Proof.
  intros _. unfold others, calm_others, others_with. destruct (script e) as [|l rest]; [constructor|]. cbn.
  revert s. induction l as [|m l IH]; intros s; [constructor|]. cbn.
  destruct (no_deadline m) eqn:Hm; [|apply IH]. cbn.
  destruct (move_step (F := Feedback) no_goal NONE m s) as [E | (a & Ha & Hd & Hs)]; [unfold make_moves in IH; rewrite E; apply IH|].
  eapply rtc_l; [|apply IH]. exists a. split; [done|]. split; [|done]. intros Hu. apply Hd; [done|]. by intros ->.
Qed.

Lemma control_defined_witness : fst (computeControl 9 9 demo_run) <> UB /\ base (snd (computeControl 9 9 demo_run)).
Proof.
  apply control_defined; [by intros l x|exact calm_others_calm|].
  split; [by eexists|]. eexists. split; [reflexivity|]. split; [reflexivity|].
  eapply reachable_inv, serving_reachable.
Defined.
End Calm.
End ControllerLaws.
