(* ===== verification/FootprintCollision.v ===== *)
(** * The cost of a footprint ([nav2_costmap_2d]: [footprint_collision_checker.cpp];
    [nav2_util/line_iterator.hpp])

    The outline of the robot at a pose is laid down in the costmap; its cost is the one of
    its worst cell. The lines of the outline are walked by [LineIterator]. *)

From stdpp Require Import base option list numbers.
From Stdlib Require Import ZArith Lia SpecFloat.
From S2P Require Import Prelude Float64 Line Costmap CostmapPolygon Footprint.

Module LineIterator.

Record iterator : Type := mk_iterator {
  x_ : Z;
  y_ : Z;
  curpixel_ : Z;
  xinc1_ : Z;
  xinc2_ : Z;
  yinc1_ : Z;
  yinc2_ : Z;
  den_ : Z;
  num_ : Z;
  numadd_ : Z;
  numpixels_ : Z }.

Definition direction (a0 a1 : Z) : Z := if a1 >=? a0 then 1 else -1.

(** The constructor; [int] has 32 bits. *)
Definition new (x0 y0 x1 y1 : Z) : res iterator :=
  dx ← chk 32 (x1 - x0);
  deltax ← chk 32 (Z.abs dx);
  dy ← chk 32 (y1 - y0);
  deltay ← chk 32 (Z.abs dy);
  let xinc := direction x0 x1 in
  let yinc := direction y0 y1 in
  Ok (if deltax >=? deltay
      then mk_iterator x0 y0 0 0 xinc yinc 0 deltax (deltax / 2) deltay deltax
      else mk_iterator x0 y0 0 xinc 0 0 yinc deltay (deltay / 2) deltax deltay).

Definition isValid (l : iterator) : bool := curpixel_ l <=? numpixels_ l.

Definition advance (l : iterator) : res iterator :=
  num ← chk 32 (num_ l + numadd_ l);
  let '(num, x, y) := if num >=? den_ l then (num - den_ l, x_ l + xinc1_ l, y_ l + yinc1_ l) else (num, x_ l, y_ l) in
  pixel ← chk 32 (curpixel_ l + 1);
  Ok (mk_iterator (x + xinc2_ l) (y + yinc2_ l) pixel (xinc1_ l) (xinc2_ l) (yinc1_ l) (yinc2_ l)
        (den_ l) num (numadd_ l) (numpixels_ l)).

(** ** The walk meets the cells of the discrete line *)

Import Costmap(MapLocation, mk_loc, loc_x, loc_y) CostmapPolygon.

(** The iterator at the [i]-th cell of the line from [p] to [q]. *)
Definition at_pixel (p q : MapLocation) (i : Z) (l : iterator) : Prop :=
  let da := edge_da p q in
  let dx := Z.abs (loc_x q - loc_x p) in
  let dy := Z.abs (loc_y q - loc_y p) in
  x_ l = loc_x (edge_cell p q i) /\ y_ l = loc_y (edge_cell p q i) /\ curpixel_ l = i /\
  den_ l = da /\ numpixels_ l = da /\ (0 < da -> num_ l = err da (Z.min dx dy) i) /\ 0 <= num_ l <= da /\
  numadd_ l = Z.min dx dy /\
  (if dx >=? dy then xinc1_ l = 0 /\ xinc2_ l = direction (loc_x p) (loc_x q) /\
                     yinc1_ l = direction (loc_y p) (loc_y q) /\ yinc2_ l = 0
   else xinc1_ l = direction (loc_x p) (loc_x q) /\ xinc2_ l = 0 /\
        yinc1_ l = 0 /\ yinc2_ l = direction (loc_y p) (loc_y q)).

Definition small (p : MapLocation) : Prop := 0 <= loc_x p < 2 ^ 30 /\ 0 <= loc_y p < 2 ^ 30.

Lemma new_spec p q : small p -> small q -> exists l, new (loc_x p) (loc_y p) (loc_x q) (loc_y q) = Ok l /\ at_pixel p q 0 l.
Proof.
  intros [Hpx Hpy] [Hqx Hqy]. unfold new.
  rewrite (chk_in 32 (loc_x q - loc_x p)), bind_Ok by (unfold in_s; lia).
  rewrite (chk_in 32 (Z.abs (loc_x q - loc_x p))), bind_Ok by (unfold in_s; lia).
  rewrite (chk_in 32 (loc_y q - loc_y p)), bind_Ok by (unfold in_s; lia).
  rewrite (chk_in 32 (Z.abs (loc_y q - loc_y p))), bind_Ok by (unfold in_s; lia).
  eexists. split; [done|]. unfold at_pixel, edge_cell, edge_da. cbn [loc_x loc_y].
  rewrite !coordinate_start by lia. rewrite Z.geb_leb.
  destruct (Z.leb_spec (Z.abs (loc_y q - loc_y p)) (Z.abs (loc_x q - loc_x p))); cbn;
    rewrite ?Z.geb_leb; repeat split; try lia; try zdiv_lia; intros; rewrite err_start by lia; f_equal; lia.
Qed.

(** A step on one axis. *)
Lemma coordinate_next da a0 a1 i : 0 < da -> Z.abs (a1 - a0) <= da ->
  coordinate da a0 a1 (i + 1) =
    coordinate da a0 a1 i + (if da <=? err da (Z.abs (a1 - a0)) i + Z.abs (a1 - a0) then direction a0 a1 else 0).
Proof.
  intros Hda Hd. unfold coordinate, Line.sign, direction. rewrite Z.gtb_ltb, Z.geb_leb.
  destruct (steps_succ da (Z.abs (a1 - a0)) i Hda ltac:(lia)) as [(Hle & -> & _)|(Hlt & -> & _)].
  - rewrite (proj2 (Z.leb_le _ _) Hle).
    pose proof (err_range da (Z.abs (a1 - a0)) i Hda).
    destruct (Z.ltb_spec 0 (a1 - a0)), (Z.leb_spec a0 a1); lia.
  - rewrite (proj2 (Z.leb_gt _ _) Hlt). lia.
Qed.

Lemma coordinate_dominant da a0 a1 i : 0 < da -> Z.abs (a1 - a0) = da ->
  coordinate da a0 a1 (i + 1) = coordinate da a0 a1 i + direction a0 a1.
Proof.
  intros Hda Hd. unfold coordinate, Line.sign, direction. rewrite Hd, !steps_dominant by done.
  rewrite Z.gtb_ltb, Z.geb_leb. destruct (Z.ltb_spec 0 (a1 - a0)), (Z.leb_spec a0 a1); lia.
Qed.

Lemma err_next da d i : 0 < da -> 0 <= d <= da ->
  err da d (i + 1) = if da <=? err da d i + d then err da d i + d - da else err da d i + d.
Proof.
  intros Hda Hd. destruct (steps_succ da d i Hda Hd) as [(Hle & _ & ->)|(Hlt & _ & ->)].
  - by rewrite (proj2 (Z.leb_le _ _) Hle).
  - by rewrite (proj2 (Z.leb_gt _ _) Hlt).
Qed.

Lemma advance_spec p q i l : small p -> small q -> 0 <= i < edge_da p q -> at_pixel p q i l ->
  exists l', advance l = Ok l' /\ at_pixel p q (i + 1) l'.
Proof.
  intros [Hpx Hpy] [Hqx Hqy] Hi (Hx & Hy & Hc & Hden & Hpix & Hnum & _ & Hadd & Hinc).
  unfold edge_cell, edge_da in *. cbn [loc_x loc_y] in *.
  set (dx := Z.abs (loc_x q - loc_x p)) in *. set (dy := Z.abs (loc_y q - loc_y p)) in *.
  assert (0 < Z.max dx dy) as Hpos by lia. specialize (Hnum Hpos).
  pose proof (err_range (Z.max dx dy) (Z.min dx dy) i Hpos) as Her.
  unfold advance. rewrite Hnum, Hadd, Hden, Hc.
  rewrite (chk_in 32 (err (Z.max dx dy) (Z.min dx dy) i + Z.min dx dy)), bind_Ok by (unfold in_s; lia).
  rewrite Z.geb_leb.
  pose proof (err_next (Z.max dx dy) (Z.min dx dy) i Hpos ltac:(lia)) as Hnext.
  rewrite Z.geb_leb in Hinc. destruct (Z.leb_spec dy dx) as [Hxy|Hxy].
  - destruct Hinc as (E1 & E2 & E3 & E4).
    pose proof (coordinate_dominant (Z.max dx dy) (loc_x p) (loc_x q) i Hpos ltac:(lia)) as Hcx.
    pose proof (coordinate_next (Z.max dx dy) (loc_y p) (loc_y q) i Hpos ltac:(lia)) as Hcy.
    fold dy in Hcy. replace (Z.min dx dy) with dy in * by lia.
    revert Hnext Hcy. destruct (Z.leb_spec (Z.max dx dy) (err (Z.max dx dy) dy i + dy)); intros Hnext Hcy;
      cbv beta iota; rewrite chk_in, bind_Ok by (unfold in_s; lia); eexists; (split; [done|]);
      unfold at_pixel, edge_cell, edge_da; cbn; fold dx dy; rewrite Z.geb_leb, (proj2 (Z.leb_le dy dx)) by done;
      replace (Z.min dx dy) with dy by lia; repeat split; lia.
  - destruct Hinc as (E1 & E2 & E3 & E4).
    pose proof (coordinate_dominant (Z.max dx dy) (loc_y p) (loc_y q) i Hpos ltac:(lia)) as Hcy.
    pose proof (coordinate_next (Z.max dx dy) (loc_x p) (loc_x q) i Hpos ltac:(lia)) as Hcx.
    fold dx in Hcx. replace (Z.min dx dy) with dx in * by lia.
    revert Hnext Hcx. destruct (Z.leb_spec (Z.max dx dy) (err (Z.max dx dy) dx i + dx)); intros Hnext Hcx;
      cbv beta iota; rewrite chk_in, bind_Ok by (unfold in_s; lia); eexists; (split; [done|]);
      unfold at_pixel, edge_cell, edge_da; cbn; fold dx dy; rewrite Z.geb_leb, (proj2 (Z.leb_gt dy dx)) by done;
      replace (Z.min dx dy) with dx by lia; repeat split; lia.
Qed.

(** After the last cell the iterator is not valid. *)
Lemma last_advance p q l : small p -> small q -> at_pixel p q (edge_da p q) l ->
  exists l', advance l = Ok l' /\ isValid l' = false.
Proof.
  intros [Hpx Hpy] [Hqx Hqy] (_ & _ & Hc & Hden & Hpix & _ & Hnum & Hadd & _).
  unfold advance. rewrite Hadd. rewrite (chk_in 32 (num_ l + _)), bind_Ok by (unfold in_s, edge_da in *; lia).
  destruct (if _ >=? _ then _ else _) as [[num x] y]. rewrite Hc, chk_in, bind_Ok by (unfold in_s, edge_da in *; lia).
  eexists. split; [done|]. unfold isValid. cbn. rewrite Hpix. apply Z.leb_gt. lia.
Qed.
End LineIterator.

(** ** The checker *)

Module FootprintCollision.
Import Costmap Footprint.

Definition lethal : f64 := f64_of_Z LETHAL_OBSTACLE.

(** The conversion from [unsigned int] to [int] and back. *)
Definition to_int (z : Z) : Z := wraps 32 z.

Definition pointCost (x y : Z) (m : costmap) : res f64 :=
  c ← getCost (wrapu 32 x) (wrapu 32 y) m; Ok (f64_of_Z c).

Fixpoint line_loop (fuel : nat) (m : costmap) (line : LineIterator.iterator) (line_cost : f64) : res f64 :=
  if LineIterator.isValid line then
    match fuel with
    | O => UB
    | S fuel =>
        point_cost ← pointCost (LineIterator.x_ line) (LineIterator.y_ line) m;
        if f64_eq point_cost lethal then Ok point_cost else
        line ← LineIterator.advance line;
        line_loop fuel m line (if f64_lt line_cost point_cost then point_cost else line_cost)
    end
  else Ok line_cost.

(** The iterator is valid once more than the number of its pixels. *)
Definition lineCost (x0 x1 y0 y1 : Z) (m : costmap) : res f64 :=
  line ← LineIterator.new x0 y0 x1 y1;
  line_loop (Z.to_nat (LineIterator.numpixels_ line + 1)) m line f64_zero.

(** The loop over the points after the first, from the cell [(x0, y0)]: the cost of an obstacle, or
    the last cell and the cost so far. *)
Fixpoint edges_cost (m : costmap) (x0 y0 : Z) (rest : list Point) (footprint_cost : f64) : res (f64 + Z * Z * f64) :=
  match rest with
  | [] => Ok (inr (x0, y0, footprint_cost))
  | p :: rest =>
      '(inside, c) ← worldToMap (x p) (y p) m;
      match inside, c with
      | true, Some (x1, y1) =>
          line ← lineCost (to_int x0) (to_int x1) (to_int y0) (to_int y1) m;
          let footprint_cost := f64_max line footprint_cost in
          if f64_eq footprint_cost lethal then Ok (inl footprint_cost)
          else edges_cost m x1 y1 rest footprint_cost
      | _, _ => Ok (inl lethal)
      end
  end.

(** Without a second point the coordinates of the last one are not set. *)
Definition footprintCost (footprint : list Point) (m : costmap) : res f64 :=
  match footprint with
  | [] => UB
  | p :: rest =>
      '(inside, c) ← worldToMap (x p) (y p) m;
      match inside, c with
      | true, Some (xstart, ystart) =>
          r ← edges_cost m xstart ystart rest f64_zero;
          match r with
          | inl cost => Ok cost
          | inr (x1, y1, footprint_cost) =>
              _ ← require (negb (bool_decide (rest = [])));
              line ← lineCost (to_int xstart) (to_int x1) (to_int ystart) (to_int y1) m;
              Ok (f64_max line footprint_cost)
          end
      | _, _ => Ok lethal
      end
  end.

Section Pose.
Context (cos sin : f64 -> f64).

Definition footprintCostAtPose (px py theta : f64) (footprint : list Point) (m : costmap) : res f64 :=
  let cos_th := cos theta in
  let sin_th := sin theta in
  footprintCost ((fun p => mk_point (new_x px cos_th sin_th p) (new_y py cos_th sin_th p) f64_zero) <$> footprint) m.
End Pose.
End FootprintCollision.

(** ** What the cost tells *)

Module FootprintLaws.
Import Costmap Footprint CostmapPolygon LineIterator FootprintCollision.

(** Costs as numbers of double precision. *)
Definition is_cost (a : Z) : Prop := 0 <= a < 256.

Definition float_agrees (a b : Z) : bool :=
  Bool.eqb (f64_lt (f64_of_Z a) (f64_of_Z b)) (a <? b) && Bool.eqb (f64_eq (f64_of_Z a) (f64_of_Z b)) (a =? b).

Lemma float_costs a b : is_cost a -> is_cost b ->
  f64_lt (f64_of_Z a) (f64_of_Z b) = (a <? b) /\ f64_eq (f64_of_Z a) (f64_of_Z b) = (a =? b).
Proof.
  intros Ha Hb.
  assert (forallb (fun a => forallb (float_agrees a) (seqZ 0 256)) (seqZ 0 256) = true) as H by (vm_compute; reflexivity).
  rewrite forallb_forall in H. specialize (H a). rewrite <- list_elem_of_In, elem_of_seqZ in H.
  unfold is_cost in *. specialize (H ltac:(lia)). rewrite forallb_forall in H. specialize (H b).
  rewrite <- list_elem_of_In, elem_of_seqZ in H. specialize (H ltac:(lia)).
  apply andb_prop in H as [Hl He]. by split; apply Bool.eqb_prop.
Qed.

Lemma float_max a b : is_cost a -> is_cost b -> f64_max (f64_of_Z a) (f64_of_Z b) = f64_of_Z (Z.max a b).
Proof.
  intros Ha Hb. unfold f64_max. rewrite (proj1 (float_costs a b Ha Hb)). destruct (Z.ltb_spec a b); f_equal; lia.
Qed.

Lemma lethal_cost : is_cost LETHAL_OBSTACLE.
Proof. unfold is_cost, LETHAL_OBSTACLE. lia. Qed.

(** The cost of a line with these costs of cells, [a] before the walk. *)
Fixpoint line_value (l : list Z) (a : Z) : Z :=
  match l with
  | [] => a
  | c :: l => if c =? LETHAL_OBSTACLE then LETHAL_OBSTACLE else line_value l (Z.max a c)
  end.

Lemma line_value_cost l : forall a, is_cost a -> Forall is_cost l -> is_cost (line_value l a).
Proof.
  induction l as [|c l IH]; intros a Ha Hl; [done|]. apply list.Forall_cons in Hl as [Hc Hl]. cbn.
  destruct (c =? LETHAL_OBSTACLE); [apply lethal_cost|]. apply IH; [unfold is_cost in *; lia|done].
Qed.

Lemma line_value_lethal l a : LETHAL_OBSTACLE ∈ l -> line_value l a = LETHAL_OBSTACLE.
Proof.
  revert a. induction l as [|c l IH]; intros a Hin; [by apply not_elem_of_nil in Hin|]. cbn.
  destruct (Z.eqb_spec c LETHAL_OBSTACLE) as [|Hc]; [done|]. apply IH.
  by apply elem_of_cons in Hin as [Heq|]; [destruct (Hc (eq_sym Heq))|].
Qed.

Lemma line_value_max l : forall a, LETHAL_OBSTACLE ∉ l ->
  a <= line_value l a /\ (forall c, c ∈ l -> c <= line_value l a) /\ (line_value l a = a \/ line_value l a ∈ l).
Proof.
  induction l as [|c l IH]; intros a Hn; cbn; [split; [lia|split; [|by left]]; intros c Hc; by apply not_elem_of_nil in Hc|].
  apply not_elem_of_cons in Hn as [Hc Hn]. destruct (Z.eqb_spec c LETHAL_OBSTACLE) as [|_]; [done|].
  destruct (IH (Z.max a c) Hn) as (Hle & Hall & Hin). split; [lia|]. split.
  - intros c' [->|Hc']%elem_of_cons; [lia|by apply Hall].
  - destruct Hin as [Heq|Hin]; [|right; by right].
    destruct (Z.max_spec a c) as [[_ Hm]|[_ Hm]]; rewrite Hm in *; [right; rewrite Heq; by left|by left].
Qed.

Section Map.
Context (m : costmap).
Hypothesis Hwf : wf m.
Hypothesis Hsx : size_x m <= 2 ^ 30.
Hypothesis Hsy : size_y m <= 2 ^ 30.

Definition cost_of (c : MapLocation) : Z := default 0 (cell m (loc_x c) (loc_y c)).

Lemma in_map_small p : in_map m p -> small p.
Proof. unfold in_map, inside, small. lia. Qed.

Lemma cost_is_cost c : in_map m c -> is_cost (cost_of c).
Proof.
  intros Hin. unfold cost_of, cell, at_cell. destruct (cells m !! _) as [v|] eqn:Hv; cbn; [|unfold is_cost; lia].
  pose proof (Forall_lookup_1 _ _ _ _ (wf_bytes m Hwf) Hv) as Hb. unfold in_u in Hb. unfold is_cost. lia.
Qed.

Lemma point_cost c : in_map m c -> pointCost (loc_x c) (loc_y c) m = Ok (f64_of_Z (cost_of c)).
Proof.
  intros Hin. pose proof Hin as [Hx Hy]. unfold pointCost.
  rewrite !wrapu_id by (unfold in_u; lia).
  destruct (index_spec m _ _ Hwf Hin) as [Hi Hr]. unfold getCost, getCost_at, cost_of, cell, at_cell. rewrite Hi.
  destruct (lookup_lt_is_Some_2 (cells m) (Z.to_nat (loc_y c * size_x m + loc_x c))) as [v Hv].
  { pose proof (wf_cells m Hwf). lia. }
  rewrite (proj2 (aget_ok _ _ v)) by (split; [lia|done]). by rewrite Hv.
Qed.

Definition costs (p q : MapLocation) : list Z := cost_of <$> edge_cells p q.

Lemma edge_in_map p q c : in_map m p -> in_map m q -> c ∈ edge_cells p q -> in_map m c.
Proof. intros Hp Hq Hc. exact (edge_cell_inside m p q Hp Hq c Hc). Qed.

Lemma costs_are p q : in_map m p -> in_map m q -> Forall is_cost (costs p q).
Proof.
  intros Hp Hq. apply list.Forall_forall. intros v (c & -> & Hc)%list_elem_of_fmap.
  by apply cost_is_cost, (edge_in_map p q).
Qed.

Lemma line_loop_spec p q : in_map m p -> in_map m q -> forall k i a line fuel,
  i + Z.of_nat k = edge_da p q + 1 -> 0 <= i -> at_pixel p q i line -> (k <= fuel)%nat -> is_cost a ->
  (k = O -> edge_da p q < curpixel_ line) ->
  line_loop fuel m line (f64_of_Z a) = Ok (f64_of_Z (line_value (cost_of <$> (edge_cell p q <$> seqZ i (Z.of_nat k))) a)).
Proof.
  intros Hp Hq. pose proof (in_map_small p Hp) as Sp. pose proof (in_map_small q Hq) as Sq.
  assert (0 <= edge_da p q) as Hda by (unfold edge_da; lia).
  induction k as [|k IH]; intros i a line fuel Hk Hi Hat Hf Ha H0.
  - pose proof Hat as (_ & _ & _ & _ & Hpix & _). specialize (H0 eq_refl).
    assert (isValid line = false) as Hv by (unfold isValid; rewrite Hpix; apply Z.leb_gt; lia).
    destruct fuel; cbn [line_loop]; by rewrite Hv.
  - destruct fuel as [|fuel]; [lia|]. pose proof Hat as (Hx & Hy & Hc & _ & Hpix & _).
    assert (isValid line = true) as Hv by (unfold isValid; rewrite Hpix, Hc; apply Z.leb_le; lia).
    assert (in_map m (edge_cell p q i)) as Hin.
    { apply (edge_in_map p q); [done|done|]. apply list_elem_of_fmap. exists i. split; [done|]. apply elem_of_seqZ. lia. }
    cbn [line_loop]. rewrite Hv, Hx, Hy, point_cost, bind_Ok by done.
    rewrite seqZ_cons by lia. cbn [fmap list_fmap line_value].
    pose proof (cost_is_cost _ Hin) as Hcost.
    unfold lethal. rewrite (proj2 (float_costs _ _ Hcost lethal_cost)).
    destruct (Z.eqb_spec (cost_of (edge_cell p q i)) LETHAL_OBSTACLE) as [->|_]; [done|].
    rewrite (proj1 (float_costs _ _ Ha Hcost)).
    assert ((if a <? cost_of (edge_cell p q i) then f64_of_Z (cost_of (edge_cell p q i)) else f64_of_Z a) =
      f64_of_Z (Z.max a (cost_of (edge_cell p q i)))) as ->.
    { destruct (Z.ltb_spec a (cost_of (edge_cell p q i))); f_equal; lia. }
    destruct (decide (i < edge_da p q)) as [Hlt|Hge].
    + destruct (advance_spec p q i line Sp Sq ltac:(lia) Hat) as (line' & -> & Hat'). rewrite bind_Ok.
      etransitivity; [apply (IH (i + 1) _ line' fuel); [lia|lia|exact Hat'|lia|unfold is_cost in *; lia|lia]|].
      by replace (Z.succ i) with (i + 1) by lia; replace (Z.pred (Z.of_nat (S k))) with (Z.of_nat k) by lia.
    + assert (k = O) as -> by lia. assert (i = edge_da p q) as -> by lia.
      destruct (last_advance p q line Sp Sq Hat) as (line' & -> & Hpast). rewrite bind_Ok.
      destruct fuel; cbn [line_loop]; by rewrite Hpast.
Qed.

Lemma to_int_small z : 0 <= z < 2 ^ 30 -> to_int z = z.
Proof. intros. apply wraps_id; [lia|]. unfold in_s. lia. Qed.

Definition edge_value (p q : MapLocation) : Z := line_value (costs p q) 0.

Lemma lineCost_spec p q : in_map m p -> in_map m q ->
  lineCost (to_int (loc_x p)) (to_int (loc_x q)) (to_int (loc_y p)) (to_int (loc_y q)) m = Ok (f64_of_Z (edge_value p q)).
Proof.
  intros Hp Hq. pose proof (in_map_small p Hp) as Sp. pose proof (in_map_small q Hq) as Sq.
  unfold lineCost. destruct Sp as [Px Py], Sq as [Qx Qy]. rewrite !to_int_small by done.
  destruct (new_spec p q (conj Px Py) (conj Qx Qy)) as (line & -> & Hat). rewrite bind_Ok.
  pose proof Hat as (_ & _ & Hc & _ & Hpix & _). rewrite Hpix.
  assert (0 <= edge_da p q) as Hda by (unfold edge_da; lia).
  change f64_zero with (f64_of_Z 0).
  rewrite (line_loop_spec p q Hp Hq (Z.to_nat (edge_da p q + 1)) 0 0 line); try done; try lia.
  unfold edge_value, costs, edge_cells. by rewrite Z2Nat.id by lia.
Qed.

Lemma edge_value_cost p q : in_map m p -> in_map m q -> is_cost (edge_value p q).
Proof. intros. apply line_value_cost; [unfold is_cost; lia|by apply costs_are]. Qed.

(** ** Outlines *)

(** The point [p] of the footprint is in cell [c]; or it is outside the map. *)
Definition located (p : Point) (c : MapLocation) : Prop := worldToMap (x p) (y p) m = Ok (true, Some (loc_x c, loc_y c)).
Definition outside (p : Point) : Prop := exists o, worldToMap (x p) (y p) m = Ok (false, o).

Lemma located_in p c : located p c -> in_map m c.
Proof. intros Hp. apply (world_to_map_true m (x p) (y p)) in Hp as ([? _] & [? _] & ? & ?). by repeat split. Qed.

(** The loop over the points: [None] when it ends at an obstacle. *)
Fixpoint run_edges (values : list Z) (a : Z) : option Z :=
  match values with
  | [] => Some a
  | v :: values => if Z.max v a =? LETHAL_OBSTACLE then None else run_edges values (Z.max v a)
  end.

Definition values_of (l : list MapLocation) : list Z := (fun e => edge_value e.1 e.2) <$> path_edges l.

Definition loop_result (c0 : MapLocation) (l : list MapLocation) (a : Z) : f64 + Z * Z * f64 :=
  match run_edges (values_of (c0 :: l)) a with
  | None => inl lethal
  | Some a => inr (loc_x (List.last l c0), loc_y (List.last l c0), f64_of_Z a)
  end.

Lemma last_any {A} (l : list A) a b d : List.last (a :: l) b = List.last (a :: l) d.
Proof. revert a. induction l as [|c l IH]; intros a; [done|]. exact (IH c). Qed.

Lemma points_split l : Forall (fun p => outside p \/ exists c, located p c) l ->
  (exists p, p ∈ l /\ outside p) \/ exists cs, Forall2 located l cs.
Proof.
  induction 1 as [|p l [Hp|[c Hp]] _ IH]; [right; by exists []|left; exists p; split; [by left|done]|].
  destruct IH as [(q & Hq & Ho)|[cs Hcs]]; [left; exists q; split; [by right|done]|right; exists (c :: cs); by constructor].
Qed.

(** One round of the loop. *)
Lemma edges_round c0 c p rest a : in_map m c0 -> is_cost a -> located p c ->
  edges_cost m (loc_x c0) (loc_y c0) (p :: rest) (f64_of_Z a) =
  if Z.max (edge_value c0 c) a =? LETHAL_OBSTACLE then Ok (inl lethal)
  else edges_cost m (loc_x c) (loc_y c) rest (f64_of_Z (Z.max (edge_value c0 c) a)).
Proof.
  intros Hc0 Ha Hp. pose proof (located_in p c Hp) as Hc. cbn [edges_cost]. rewrite Hp, bind_Ok.
  rewrite lineCost_spec, bind_Ok by done. pose proof (edge_value_cost c0 c Hc0 Hc) as He.
  rewrite float_max by done.
  assert (is_cost (Z.max (edge_value c0 c) a)) as Hm by (unfold is_cost in *; lia).
  unfold lethal. rewrite (proj2 (float_costs _ _ Hm lethal_cost)).
  destruct (Z.eqb_spec (Z.max (edge_value c0 c) a) LETHAL_OBSTACLE) as [->|]; done.
Qed.

Lemma edges_inside rest : forall l c0 a, Forall2 located rest l -> in_map m c0 -> is_cost a ->
  edges_cost m (loc_x c0) (loc_y c0) rest (f64_of_Z a) = Ok (loop_result c0 l a).
Proof.
  induction rest as [|p rest IH]; intros l c0 a Hl Hc0 Ha; inversion Hl as [|p' c rest' l' Hp Hrest]; subst; [done|].
  pose proof (located_in p c Hp) as Hc. rewrite (edges_round c0 c p rest a Hc0 Ha Hp).
  unfold loop_result, values_of. rewrite path_edges_cons. cbn [fmap list_fmap run_edges fst snd].
  destruct (Z.max (edge_value c0 c) a =? LETHAL_OBSTACLE); [done|].
  assert (is_cost (Z.max (edge_value c0 c) a)) as Hm.
  { pose proof (edge_value_cost c0 c Hc0 Hc). unfold is_cost in *. lia. }
  rewrite (IH l' c _ Hrest Hc Hm). unfold loop_result, values_of.
  assert (List.last (c :: l') c0 = List.last l' c) as -> by (destruct l' as [|c1 l']; [done|exact (last_any l' c1 c0 c)]).
  done.
Qed.

Lemma edges_outside rest : forall c0 a, Forall (fun p => outside p \/ exists c, located p c) rest ->
  (exists p, p ∈ rest /\ outside p) -> in_map m c0 -> is_cost a ->
  edges_cost m (loc_x c0) (loc_y c0) rest (f64_of_Z a) = Ok (inl lethal).
Proof.
  induction rest as [|p rest IH]; intros c0 a Hall (q & Hq & Ho) Hc0 Ha; [by apply not_elem_of_nil in Hq|].
  apply list.Forall_cons in Hall as [[(o & Hp)|[c Hp]] Hall].
  - cbn [edges_cost]. by rewrite Hp, bind_Ok.
  - rewrite (edges_round c0 c p rest a Hc0 Ha Hp).
    destruct (Z.max (edge_value c0 c) a =? LETHAL_OBSTACLE); [done|]. pose proof (located_in p c Hp) as Hc.
    apply IH; [done| |done|].
    + apply elem_of_cons in Hq as [->|Hq]; [|by exists q]. destruct Ho as [o Ho]. unfold located in Hp. by rewrite Ho in Hp.
    + pose proof (edge_value_cost c0 c Hc0 Hc). unfold is_cost in *. lia.
Qed.

(** ** The worst cell *)

Lemma run_edges_none values : forall a, a <> LETHAL_OBSTACLE -> run_edges values a = None -> LETHAL_OBSTACLE ∈ values.
Proof.
  induction values as [|v values IH]; intros a Ha; cbn; [done|].
  destruct (Z.eqb_spec (Z.max v a) LETHAL_OBSTACLE) as [He|He]; intros Hr.
  - assert (v = LETHAL_OBSTACLE) as -> by lia. left.
  - right. by apply (IH (Z.max v a)).
Qed.

Lemma run_edges_some values : forall a b, run_edges values a = Some b ->
  a <= b /\ (forall v, v ∈ values -> v <= b) /\ (b = a \/ b ∈ values).
Proof.
  induction values as [|v values IH]; intros a b; cbn.
  { intros [= <-]. split; [lia|]. split; [|by left]. intros v Hv. by apply not_elem_of_nil in Hv. }
  destruct (Z.max v a =? LETHAL_OBSTACLE); [done|]. intros Hr. destruct (IH _ _ Hr) as (Hle & Hall & Hin).
  split; [lia|]. split.
  - intros w [->|Hw]%elem_of_cons; [lia|by apply Hall].
  - destruct Hin as [Heq|Hin]; [|right; by right].
    destruct (Z.max_spec v a) as [[_ Hm]|[_ Hm]]; rewrite Hm in *; [by left|right; rewrite Heq; by left].
Qed.

Lemma run_edges_lethal values : forall a, a <= LETHAL_OBSTACLE -> (forall v, v ∈ values -> v <= LETHAL_OBSTACLE) ->
  LETHAL_OBSTACLE ∈ values -> run_edges values a = None.
Proof.
  induction values as [|v values IH]; intros a Ha Hall Hin; [by apply not_elem_of_nil in Hin|]. cbn.
  pose proof (Hall v ltac:(by left)) as Hv.
  destruct (Z.eqb_spec (Z.max v a) LETHAL_OBSTACLE) as [|Hne]; [done|].
  apply IH; [lia|intros w Hw; apply Hall; by right|]. apply elem_of_cons in Hin as [<-|Hin]; [lia|done].
Qed.

(** The cells of the outline: the edges in their order, and the line from the first vertex to the last. *)
Definition outline_of (l : list MapLocation) : list MapLocation :=
  cells_of (path_edges l) ++ match l with [] => [] | c :: _ => edge_cells c (List.last l c) end.

Definition touches (v : Z) (l : list MapLocation) : Prop :=
  exists c, c ∈ outline_of l /\ cell m (loc_x c) (loc_y c) = Some v.

(** The cost of the whole outline of two or more vertices. *)
Definition outline_value (c0 : MapLocation) (l : list MapLocation) : Z :=
  match run_edges (values_of (c0 :: l)) 0 with
  | None => LETHAL_OBSTACLE
  | Some a => Z.max (edge_value c0 (List.last l c0)) a
  end.

Lemma cost_touches v p q l : v <> 0 -> v ∈ costs p q -> (forall c, c ∈ edge_cells p q -> c ∈ outline_of l) -> touches v l.
Proof.
  intros Hv (c & -> & Hc)%list_elem_of_fmap Hl. exists c. split; [by apply Hl|].
  unfold cost_of in *. by destruct (cell m (loc_x c) (loc_y c)).
Qed.

Lemma edge_worst p q l : (forall c, c ∈ edge_cells p q -> c ∈ outline_of l) ->
  (edge_value p q = LETHAL_OBSTACLE -> touches LETHAL_OBSTACLE l) /\
  (edge_value p q = 0 \/ touches (edge_value p q) l) /\
  (~ touches LETHAL_OBSTACLE l -> forall c, c ∈ edge_cells p q -> cost_of c <= edge_value p q).
Proof.
  intros Hl. unfold edge_value. destruct (decide (LETHAL_OBSTACLE ∈ costs p q)) as [Hin|Hn].
  - rewrite (line_value_lethal _ 0 Hin).
    assert (touches LETHAL_OBSTACLE l) as Ht by (by apply (cost_touches _ p q)). by repeat split; [|right|].
  - destruct (line_value_max (costs p q) 0 Hn) as (Hle & Hall & Hv). set (v := line_value (costs p q) 0) in *.
    assert (v = 0 \/ touches v l) as Ht.
    { destruct (decide (v = 0)) as [|Hne]; [by left|right]. apply (cost_touches v p q); [done| |done].
      destruct Hv; [done|done]. }
    repeat split; [intros He; rewrite He in Ht; by destruct Ht|done|].
    intros _ c Hc. apply Hall. apply list_elem_of_fmap. by exists c.
Qed.

Lemma path_outline e l : e ∈ path_edges l -> forall c, c ∈ edge_cells e.1 e.2 -> c ∈ outline_of l.
Proof. intros He c Hc. apply elem_of_app. left. unfold cells_of. apply list_elem_of_bind. by exists e. Qed.

Lemma value_of_edge v l : v ∈ values_of l -> exists e, e ∈ path_edges l /\ v = edge_value e.1 e.2.
Proof. intros (e & -> & He)%list_elem_of_fmap. by exists e. Qed.

(** Every cell of the outline is on an edge. *)
Lemma outline_edge c c0 l : c ∈ outline_of (c0 :: l) ->
  (exists e, e ∈ path_edges (c0 :: l) /\ c ∈ edge_cells e.1 e.2) \/ c ∈ edge_cells c0 (List.last l c0).
Proof.
  assert (List.last (c0 :: l) c0 = List.last l c0) as Hlast by (by destruct l).
  intros [Hc|Hc]%elem_of_app; [left|right; by rewrite Hlast in Hc].
  unfold cells_of in Hc. apply list_elem_of_bind in Hc as (e & Hc & He). by exists e.
Qed.

Lemma closing_outline c0 l c : c ∈ edge_cells c0 (List.last l c0) -> c ∈ outline_of (c0 :: l).
Proof.
  assert (List.last (c0 :: l) c0 = List.last l c0) as Hlast by (by destruct l).
  intros Hc. apply elem_of_app. right. by rewrite Hlast.
Qed.

Lemma outline_value_spec c0 l : Forall (in_map m) (c0 :: l) ->
  (touches LETHAL_OBSTACLE (c0 :: l) -> ~ touches NO_INFORMATION (c0 :: l) -> outline_value c0 l = LETHAL_OBSTACLE) /\
  (~ touches LETHAL_OBSTACLE (c0 :: l) ->
     (forall c v, c ∈ outline_of (c0 :: l) -> cell m (loc_x c) (loc_y c) = Some v -> v <= outline_value c0 l) /\
     (outline_value c0 l = 0 \/ touches (outline_value c0 l) (c0 :: l))).
Proof.
  intros Hin. destruct (edge_worst c0 (List.last l c0) (c0 :: l) (closing_outline c0 l)) as (Kl & Kv & Kmax).
  assert (forall e, e ∈ path_edges (c0 :: l) -> in_map m e.1 /\ in_map m e.2) as Hends.
  { intros e He. apply path_edges_ends in He as [H1 H2]. rewrite list.Forall_forall in Hin. split; by apply Hin. }
  assert (in_map m (List.last l c0)) as Hlast.
  { rewrite list.Forall_forall in Hin. apply Hin. destruct l as [|c l]; [by left|].
    right. apply list_elem_of_In. destruct (exists_last (l := c :: l) ltac:(done)) as (pre & z & ->).
    rewrite last_last. apply in_app_iff. right. by left. }
  assert (forall v, v ∈ values_of (c0 :: l) -> is_cost v /\ (v = 0 \/ touches v (c0 :: l)) /\ (v = LETHAL_OBSTACLE -> touches LETHAL_OBSTACLE (c0 :: l))) as Hval.
  { intros v (e & He & ->)%value_of_edge. destruct (Hends e He).
    destruct (edge_worst e.1 e.2 (c0 :: l) (path_outline e _ He)) as (? & ? & _). split; [by apply edge_value_cost|done]. }
  assert (in_map m c0) as Hc0 by (by apply list.Forall_cons in Hin as [? _]).
  pose proof (edge_value_cost c0 (List.last l c0) Hc0 Hlast) as Hclose.
  unfold outline_value. split.
  - intros (c & Hc & Hcell) Hunk.
    assert (forall v, is_cost v -> (v = 0 \/ touches v (c0 :: l)) -> v <= LETHAL_OBSTACLE) as Hbound.
    { intros v Hv Ht. unfold is_cost, LETHAL_OBSTACLE in *. destruct (decide (v = 255)) as [->|]; [|lia].
      by destruct Ht as [|Ht]. }
    assert (edge_value c0 (List.last l c0) <= LETHAL_OBSTACLE) as Hcl by (by apply Hbound).
    assert (forall p q, c ∈ edge_cells p q -> edge_value p q = LETHAL_OBSTACLE) as Hedge.
    { intros p q Hpq. apply line_value_lethal. apply list_elem_of_fmap. exists c. split; [|done]. unfold cost_of. by rewrite Hcell. }
    destruct (outline_edge c c0 l Hc) as [(e & He & Hce)|Hce].
    + rewrite (run_edges_lethal _ 0); [done|done| |].
      * intros v Hv. destruct (Hval v Hv) as (? & ? & _). by apply Hbound.
      * apply list_elem_of_fmap. exists e. split; [|done]. symmetry. by apply Hedge.
    + destruct (run_edges _ 0) as [a|] eqn:Er; [|done]. destruct (run_edges_some _ _ _ Er) as (_ & _ & Ha).
      assert (a <= LETHAL_OBSTACLE).
      { destruct Ha as [->|Ha]; [done|]. destruct (Hval a Ha) as (? & ? & _). by apply Hbound. }
      rewrite (Hedge _ _ Hce). lia.
  - intros Hfree. destruct (run_edges _ 0) as [a|] eqn:Er.
    2: { apply run_edges_none in Er; [|done]. destruct (Hval _ Er) as (_ & _ & Ht). by destruct (Hfree (Ht eq_refl)). }
    destruct (run_edges_some _ _ _ Er) as (Ha0 & Hall & Ha). split.
    + intros c v Hc Hcell. assert (cost_of c = v) as <- by (unfold cost_of; by rewrite Hcell).
      destruct (outline_edge c c0 l Hc) as [(e & He & Hce)|Hce]; [|specialize (Kmax Hfree c Hce); lia].
      destruct (edge_worst e.1 e.2 (c0 :: l) (path_outline e _ He)) as (_ & _ & Hmax). specialize (Hmax Hfree c Hce).
      assert (edge_value e.1 e.2 <= a) by (apply Hall, list_elem_of_fmap; by exists e). lia.
    + destruct (Z.max_spec (edge_value c0 (List.last l c0)) a) as [[_ ->]|[_ ->]]; [|done].
      destruct Ha as [->|Ha]; [by left|]. by destruct (Hval a Ha) as (_ & ? & _).
Qed.

Lemma located_same fp l l' : Forall2 located fp l -> Forall2 located fp l' -> l = l'.
Proof.
  intros Hloc. revert l'. induction Hloc as [|q c l1 l2 Hq _ IH]; intros l' H2; inversion H2 as [|? c' ? l3 Hq' H2']; subst; [done|].
  f_equal; [|by apply IH]. unfold located in *. rewrite Hq in Hq'. injection Hq' as Ex Ey. destruct c, c'; cbn in *; by subst.
Qed.

Lemma all_located fp l : Forall2 located fp l -> Forall (in_map m) l.
Proof. induction 1 as [|p c fp l Hp _ IH]; constructor; [by apply (located_in p)|done]. Qed.

Lemma last_in_map c0 cs : Forall (in_map m) (c0 :: cs) -> in_map m (List.last cs c0).
Proof.
  intros Hin. rewrite list.Forall_forall in Hin. apply Hin. destruct cs as [|c cs]; [by left|].
  right. apply list_elem_of_In. destruct (exists_last (l := c :: cs) ltac:(done)) as (pre & z & ->).
  rewrite last_last. apply in_app_iff. right. by left.
Qed.

Lemma run_edges_cost l a : Forall (in_map m) l -> run_edges (values_of l) 0 = Some a -> is_cost a.
Proof.
  intros Hin Er. destruct (run_edges_some _ _ _ Er) as (_ & _ & [->|Ha]); [unfold is_cost; lia|].
  apply value_of_edge in Ha as (e & He & ->). apply path_edges_ends in He as [H1 H2].
  rewrite list.Forall_forall in Hin. apply edge_value_cost; by apply Hin.
Qed.

Lemma outline_value_cost c0 cs : Forall (in_map m) (c0 :: cs) -> is_cost (outline_value c0 cs).
Proof.
  intros Hin. unfold outline_value. destruct (run_edges _ 0) as [a|] eqn:Er; [|apply lethal_cost].
  pose proof (run_edges_cost _ _ Hin Er) as Ha. pose proof (last_in_map _ _ Hin) as Hl.
  apply list.Forall_cons in Hin as [Hc0 _]. pose proof (edge_value_cost c0 _ Hc0 Hl). unfold is_cost in *. lia.
Qed.

(** The cost of a footprint inside of the map. *)
Lemma footprint_value p p1 rest c0 cs : Forall2 located (p :: p1 :: rest) (c0 :: cs) ->
  footprintCost (p :: p1 :: rest) m = Ok (f64_of_Z (outline_value c0 cs)).
Proof.
  intros Hloc. pose proof (all_located _ _ Hloc) as Hin. pose proof (last_in_map _ _ Hin) as Hlast.
  inversion Hloc as [|? ? ? ? Hc0 Hcs]; subst. pose proof (located_in p c0 Hc0) as Hin0.
  set (tl := p1 :: rest) in *. cbn [footprintCost]. rewrite Hc0, bind_Ok. cbv beta iota.
  change f64_zero with (f64_of_Z 0). assert (is_cost 0) as H00 by (unfold is_cost; lia).
  rewrite (edges_inside tl cs c0 0 Hcs Hin0 H00). unfold loop_result, outline_value.
  destruct (run_edges (values_of (c0 :: cs)) 0) as [a|] eqn:Er; [|done]. cbn [mbind res_bind].
  pose proof (run_edges_cost _ _ Hin Er) as Ha.
  assert (require (negb (bool_decide (tl = []))) = Ok tt) as -> by done. cbn [mbind res_bind].
  rewrite lineCost_spec by done. cbn [mbind res_bind]. by rewrite float_max by (done || by apply edge_value_cost).
Qed.

(** A footprint with a point outside of the map. *)
Lemma footprint_outside p p1 rest : Forall (fun p => outside p \/ exists c, located p c) (p :: p1 :: rest) ->
  (exists q, q ∈ p :: p1 :: rest /\ outside q) -> footprintCost (p :: p1 :: rest) m = Ok lethal.
Proof.
  intros Hall (q & Hq & Hout). set (tl := p1 :: rest) in *. apply list.Forall_cons in Hall as [[[o Ho]|[c0 Hc0]] Htl].
  { cbn [footprintCost]. by rewrite Ho. }
  cbn [footprintCost]. rewrite Hc0, bind_Ok. cbv beta iota. change f64_zero with (f64_of_Z 0).
  rewrite (edges_outside tl c0 0 Htl); [done| |by apply (located_in p)|unfold is_cost; lia].
  apply elem_of_cons in Hq as [->|Hq]; [|by exists q]. destruct Hout as [o Ho]. unfold located in Hc0. by rewrite Ho in Hc0.
Qed.

(** The cost is below that of an obstacle just if all cells of the outline are. *)
Lemma outline_free c0 l : Forall (in_map m) (c0 :: l) ->
  outline_value c0 l < LETHAL_OBSTACLE <->
  forall c v, c ∈ outline_of (c0 :: l) -> cell m (loc_x c) (loc_y c) = Some v -> v < LETHAL_OBSTACLE.
Proof.
  intros Hin. destruct (outline_value_spec c0 l Hin) as [_ Hfree]. split.
  - intros Hv c v Hc Hcell. destruct (decide (v < LETHAL_OBSTACLE)) as [|Hge]; [done|exfalso].
    destruct (decide (Exists (fun c => cost_of c = LETHAL_OBSTACLE) (outline_of (c0 :: l)))) as [Hl|Hl].
    + apply list.Exists_exists in Hl as (d & Hd & Hdl).
      assert (forall p q, d ∈ edge_cells p q -> edge_value p q = LETHAL_OBSTACLE) as Hedge.
      { intros p q Hpq. apply line_value_lethal. apply list_elem_of_fmap. by exists d. }
      revert Hv. unfold outline_value. destruct (run_edges _ 0) as [a|] eqn:Er; [|lia].
      destruct (run_edges_some _ _ _ Er) as (_ & Hall & _).
      destruct (outline_edge d c0 l Hd) as [(e & He & Hde)|Hde]; [|rewrite (Hedge _ _ Hde); lia].
      assert (edge_value e.1 e.2 <= a) by (apply Hall, list_elem_of_fmap; by exists e). rewrite (Hedge _ _ Hde) in *. lia.
    + destruct Hfree as [Hmax _]; [|specialize (Hmax c v Hc Hcell); lia].
      intros (d & Hd & Hdl). apply Hl, list.Exists_exists. exists d. split; [done|]. unfold cost_of. by rewrite Hdl.
  - intros Hall. destruct Hfree as [_ [->|(c & Hc & Hcell)]]; [|done|by apply (Hall c)].
    intros (c & Hc & Hcell). specialize (Hall c _ Hc Hcell). lia.
Qed.

(** A footprint of two or more points whose cells can be computed has a cost: that of an obstacle if a
    point is outside the map; otherwise, if no cell of its outline is an obstacle, the greatest cost on
    the outline, and if one is, the cost of an obstacle, provided that no cell of the outline is unknown. *)
Lemma footprint_cost fp : (2 <= length fp)%nat -> Forall (fun p => outside p \/ exists c, located p c) fp ->
  exists v, footprintCost fp m = Ok (f64_of_Z v) /\
    ((exists p, p ∈ fp /\ outside p) -> v = LETHAL_OBSTACLE) /\
    forall l, Forall2 located fp l ->
      (touches LETHAL_OBSTACLE l -> ~ touches NO_INFORMATION l -> v = LETHAL_OBSTACLE) /\
      (~ touches LETHAL_OBSTACLE l ->
         (forall c w, c ∈ outline_of l -> cell m (loc_x c) (loc_y c) = Some w -> w <= v) /\ (v = 0 \/ touches v l)).
Proof.
  intros Hlen Hall.
  assert (forall p l, p ∈ fp -> outside p -> ~ Forall2 located fp l) as Hno.
  { intros p l Hp [o Ho] H2. apply list_elem_of_lookup in Hp as [i Hp].
    destruct (Forall2_lookup_l _ _ _ _ _ H2 Hp) as (c & _ & Hc). unfold located in Hc. by rewrite Ho in Hc. }
  destruct fp as [|p rest]; [cbn in Hlen; lia|]. destruct rest as [|p1 rest]; [cbn in Hlen; lia|].
  destruct (points_split _ Hall) as [(q & Hq & Ho)|[l Hl]].
  - exists LETHAL_OBSTACLE. split; [apply footprint_outside; [done|by exists q]|]. split; [done|].
    intros l H2. by destruct (Hno q l).
  - inversion Hl as [|? c0 ? cs ? ?]; subst. exists (outline_value c0 cs).
    split; [by apply footprint_value|]. split; [intros (q & Hq & Ho); by destruct (Hno q (c0 :: cs) Hq Ho)|].
    intros l H2. rewrite (located_same _ _ _ H2 Hl). by apply outline_value_spec, (all_located (p :: p1 :: rest)).
Qed.
End Map.

(** ** A map *)

(** Three rows of four cells; the last is an obstacle, the one before is unknown. *)
Definition demo_map (l : list Z) : costmap := mk_costmap 4 3 (f64_of_Z 1) f64_zero f64_zero l 0.
Definition demo_point (q : Z * Z) : Point := mk_point (f64_of_Z (fst q)) (f64_of_Z (snd q)) f64_zero.
Definition demo_footprint : list Point := demo_point <$> [(0, 0); (3, 0); (3, 2)].

(** An unknown cell on the first edge hides the obstacle on the second one. *)
Example unknown_hides_obstacle :
  footprintCost demo_footprint (demo_map [0; 255; 0; 0; 0; 0; 0; 254; 0; 0; 0; 0]) = Ok (f64_of_Z NO_INFORMATION) /\
  footprintCost demo_footprint (demo_map [0; 0; 0; 0; 0; 0; 0; 254; 0; 0; 0; 0]) = Ok lethal.
Proof. split; vm_compute; reflexivity. Qed.

Example one_point_undefined : footprintCost [demo_point (0, 0)] (demo_map [0; 0; 0; 0; 0; 0; 0; 0; 0; 0; 0; 0]) = UB.
Proof. vm_compute. reflexivity. Qed.

Example footprint_cost_demo : exists v,
  footprintCost demo_footprint (demo_map [0; 0; 7; 0; 0; 0; 0; 254; 0; 0; 0; 0]) = Ok (f64_of_Z v) /\ v = LETHAL_OBSTACLE.
Proof.
  set (m := demo_map [0; 0; 7; 0; 0; 0; 0; 254; 0; 0; 0; 0]).
  assert (wf m) as Hwf.
  { by constructor; vm_compute; repeat constructor. }
  destruct (footprint_cost m Hwf ltac:(vm_compute; done) ltac:(vm_compute; done) demo_footprint ltac:(cbn; lia)) as (v & Hv & _ & Hl).
  { constructor; [right; exists (mk_loc 0 0); vm_compute; done|]. constructor; [right; exists (mk_loc 3 0); vm_compute; done|].
    constructor; [right; exists (mk_loc 3 2); vm_compute; done|constructor]. }
  exists v. split; [exact Hv|].
  destruct (Hl [mk_loc 0 0; mk_loc 3 0; mk_loc 3 2]) as [Hlethal _]; [repeat constructor; vm_compute; done|].
  apply Hlethal.
  - exists (mk_loc 3 1). split; [|vm_compute; done].
    apply (bool_decide_unpack _). vm_compute. exact I.
  - intros (c & Hc & Hcell). revert Hcell.
    assert (Forall (fun c => cell m (loc_x c) (loc_y c) <> Some NO_INFORMATION) (outline_of [mk_loc 0 0; mk_loc 3 0; mk_loc 3 2])) as Hall.
    { repeat constructor; vm_compute; done. }
    rewrite list.Forall_forall in Hall. exact (Hall c Hc).
Defined.
End FootprintLaws.
