(* ===== verification/PlannerServer.v ===== *)
(** * The planner server ([nav2_planner/planner_server.hpp], [planner_server.cpp])

    The node runs planners, which are plugins, for two actions: a path to a pose and a path through
    poses. Each has an action server of its own; a mutex lets only one of the two callbacks run at a
    time, so both are written for the state of one server ([ActionTask.Task.node]) and lifted to the
    whole node. A service tells whether a path is still free. Warnings that measure the time of
    a plan, bonds and texts are left out. *)

From stdpp Require Import base option list numbers strings gmap relations.
From Stdlib Require Import ZArith Lia SpecFloat String.
From S2P Require Import Prelude Float64 Costmap CostmapLayer Footprint NavFn Parameters CollisionSources VelocitySmoother NavMessages ActionServer ActionTask PluginNode FootprintCollision.

Import Messages.

(** A run of [createPlan]: it may ask [cancel_checker] any number of times, each time with the plugin
    in its own code, and ends with a path or an exception. *)
Inductive planning (P E : Type) : Type :=
  | Planned (o : outcome Path) (p : P) (e : E)
  | AskCancel (e : E) (answer : bool -> E -> planning P E).
Arguments Planned {P E}.
Arguments AskCancel {P E}.

(** [nav2_core::GlobalPlanner] *)
Class Planners (P E : Type) : Type := {
  load_planner : string -> E -> outcome P * E;
  planner_configure : string -> virtual P E ();
  planner_cleanup : virtual P E ();
  planner_activate : virtual P E ();
  planner_deactivate : virtual P E ();
  createPlan : PoseStamped -> PoseStamped -> P -> E -> planning P E }.

(** What the node asks of its costmap node and of the client library. *)
Class PlannerSurroundings (W1 W2 E : Type) : Type := {
  costmap_configure : E -> () * E;
  costmap_activate : E -> bool * E;
  costmap_deactivate : E -> () * E;
  costmap_cleanup : E -> () * E;
  isCurrent : E -> bool * E;
  getCostmap : E -> Costmap.costmap * E;
  getUseRadius : E -> bool * E;
  getRobotFootprint : E -> list Footprint.Point * E;
  getRobotPose : E -> option PoseStamped * E;
  transformPoseToGlobalFrame : PoseStamped -> E -> option PoseStamped * E;
  plan_subscriptions : E -> Z * E;
  deadline_passed : E -> bool * E;
  pose_handles : E -> W1 * E;
  poses_handles : E -> W2 * E }.

Module PlannerServer.
Import ActionServer Methods Task Parameters PluginNode.

(** ** The actions *)

Record ToPose : Type := mk_to_pose { goal : PoseStamped; start : PoseStamped; planner_id : string; use_start : bool }.
Record ThroughPoses : Type := mk_through_poses {
  goals : list PoseStamped; poses_start : PoseStamped; poses_planner_id : string; poses_use_start : bool }.

(** Both results; times are in nanoseconds. *)
Record Result : Type := mk_result { result_path : Path; planning_time : Z; error_code : Z }.
Definition NONE : Z := 0.
Definition new_result : Result := mk_result new_path 0 NONE.
Definition set_code (code : Z) (r : Result) : Result := mk_result (result_path r) (planning_time r) code.

Inductive failure : Type :=
  | UNKNOWN | INVALID_PLANNER | TF_ERROR | START_OUTSIDE_MAP | GOAL_OUTSIDE_MAP | START_OCCUPIED | GOAL_OCCUPIED
  | TIMEOUT | NO_VALID_PATH | NO_VIAPOINTS_GIVEN.

Definition to_pose_code (f : failure) : Z :=
  match f with
  | UNKNOWN => 200
  | INVALID_PLANNER => 201
  | TF_ERROR => 202
  | START_OUTSIDE_MAP => 203
  | GOAL_OUTSIDE_MAP => 204
  | START_OCCUPIED => 205
  | GOAL_OCCUPIED => 206
  | TIMEOUT => 207
  | NO_VALID_PATH => 208
  | NO_VIAPOINTS_GIVEN => 200
  end.

Definition through_poses_code (f : failure) : Z :=
  match f with
  | UNKNOWN => 300
  | INVALID_PLANNER => 301
  | TF_ERROR => 302
  | START_OUTSIDE_MAP => 303
  | GOAL_OUTSIDE_MAP => 304
  | START_OCCUPIED => 305
  | GOAL_OCCUPIED => 306
  | TIMEOUT => 307
  | NO_VALID_PATH => 308
  | NO_VIAPOINTS_GIVEN => 309
  end.

(** ** State *)

Section Members.
Context {P : Type}.

Record planner : Type := mk_planner {
  planners_ : gmap string P;
  planner_ids_ : list string;
  max_planner_duration_ : f64;
  costmap_update_timeout_ : Z;
  plan_publisher_ : option bool;
  costmap_ : bool;
  collision_checker_ : bool;
  tf_ : bool;
  costmap_thread_ : bool;
  is_path_valid_service_ : bool;
  dyn_params_handler_ : bool }.

Definition set_planners m (c : planner) : planner :=
  mk_planner m (planner_ids_ c) (max_planner_duration_ c) (costmap_update_timeout_ c) (plan_publisher_ c) (costmap_ c)
    (collision_checker_ c) (tf_ c) (costmap_thread_ c) (is_path_valid_service_ c) (dyn_params_handler_ c).
Definition set_max_duration x (c : planner) : planner :=
  mk_planner (planners_ c) (planner_ids_ c) x (costmap_update_timeout_ c) (plan_publisher_ c) (costmap_ c)
    (collision_checker_ c) (tf_ c) (costmap_thread_ c) (is_path_valid_service_ c) (dyn_params_handler_ c).
Definition set_timeout t (c : planner) : planner :=
  mk_planner (planners_ c) (planner_ids_ c) (max_planner_duration_ c) t (plan_publisher_ c) (costmap_ c)
    (collision_checker_ c) (tf_ c) (costmap_thread_ c) (is_path_valid_service_ c) (dyn_params_handler_ c).
Definition set_publisher p (c : planner) : planner :=
  mk_planner (planners_ c) (planner_ids_ c) (max_planner_duration_ c) (costmap_update_timeout_ c) p (costmap_ c)
    (collision_checker_ c) (tf_ c) (costmap_thread_ c) (is_path_valid_service_ c) (dyn_params_handler_ c).
Definition set_costmap costmap tf thread (c : planner) : planner :=
  mk_planner (planners_ c) (planner_ids_ c) (max_planner_duration_ c) (costmap_update_timeout_ c) (plan_publisher_ c) costmap
    (collision_checker_ c) tf thread (is_path_valid_service_ c) (dyn_params_handler_ c).
Definition set_checker b (c : planner) : planner :=
  mk_planner (planners_ c) (planner_ids_ c) (max_planner_duration_ c) (costmap_update_timeout_ c) (plan_publisher_ c) (costmap_ c)
    b (tf_ c) (costmap_thread_ c) (is_path_valid_service_ c) (dyn_params_handler_ c).
Definition set_interfaces service dyn (c : planner) : planner :=
  mk_planner (planners_ c) (planner_ids_ c) (max_planner_duration_ c) (costmap_update_timeout_ c) (plan_publisher_ c) (costmap_ c)
    (collision_checker_ c) (tf_ c) (costmap_thread_ c) service dyn.
End Members.

Arguments planner : clear implicits.

(** How a callback ends; [Running] where the waits did not suffice. *)
Inductive ending : Type := Inactive | Cancelled | Succeeded | Failed (f : failure) | Running.

(** The handlers of both callbacks: exceptions of the standard library other than a cancellation. *)
Definition failure_of (e : exn) : failure :=
  match e with
  | invalid_planner => INVALID_PLANNER
  | start_occupied => START_OCCUPIED
  | goal_occupied => GOAL_OCCUPIED
  | no_valid_path => NO_VALID_PATH
  | planner_timed_out => TIMEOUT
  | start_outside_map => START_OUTSIDE_MAP
  | goal_outside_map => GOAL_OUTSIDE_MAP
  | planner_tf_error => TF_ERROR
  | no_viapoints_given => NO_VIAPOINTS_GIVEN
  | _ => UNKNOWN
  end.

(** The clause of [std::exception] catches it where a callback has none of its own. *)
Definition to_pose_failure (e : exn) : failure :=
  match failure_of e with NO_VIAPOINTS_GIVEN => UNKNOWN | f => f end.

(** ** What the two callbacks share *)

Section Server.
Context {W G P W1 W2 E : Type}.
Context `{!GoalHandles W G Result ()} `{!Others W E} `{!Planners P E} `{!PlannerSurroundings W1 W2 E} `{!Clock E}.
Context `{!Hypot} `{!Clocks} `{!Angles}.

Abbreviation method := (ST (node W E (planner P) Path)).

Definition isCancelRequested : method bool :=
  requested ← ask is_cancel_requested;
  if (requested : bool) then _ ← tell (call_terminate_all empty_result); mret true else mret false.

Definition waitForCostmap (waits : nat) : method bool :=
  waiting_start ← look now;
  wait_for_costmap isCurrent costmap_update_timeout_ planner_timed_out waits waiting_start.

(** The pointer to the goal is passed by value: the caller keeps its own. *)
Definition getPreemptedGoalIfRequested : method () :=
  preempt ← ask is_preempt_requested;
  if (preempt : bool) then _ ← accept; mret tt else mret tt.

Definition getStartPose (use_start : bool) (start : PoseStamped) : method (option PoseStamped) :=
  if use_start then mret (Some start) else look getRobotPose.

Definition transformPosesToGlobalFrame (curr_start curr_goal : PoseStamped) : method (option (PoseStamped * PoseStamped)) :=
  s ← look (transformPoseToGlobalFrame curr_start);
  match s with
  | None => mret None
  | Some s => g ← look (transformPoseToGlobalFrame curr_goal); mret ((fun g => (s, g)) <$> g)
  end.

Definition validatePath (path : Path) : bool := negb (bool_decide (poses path = [])).

(** The run of a planner; its questions go to the action server. *)
Fixpoint run_planning (id : string) (t : planning P E) : method Path := fun n =>
  match t with
  | Planned o p e => (of_outcome o, set_outside e (set_members (set_planners (<[id := p]> (planners_ (members n))) (members n)) n))
  | AskCancel e answer =>
      match ask is_cancel_requested (set_outside e n) with
      | (Ok b, n) => run_planning id (answer b (outside n)) n
      | (Throw x, n) => (Throw x, n)
      | (UB, n) => (UB, n)
      end
  end.

(** [planners_[id]->createPlan(...)] *)
Definition call_planner (id : string) (start goal : PoseStamped) : method Path := fun n =>
  match planners_ (members n) !! id with
  | None => (UB, n)
  | Some p => run_planning id (createPlan start goal p (outside n)) n
  end.

Definition getPlan (start goal : PoseStamped) (planner_id : string) : method Path :=
  id ← own (fun c => find_id (planners_ c) planner_id);
  match id with
  | None => throw invalid_planner
  | Some id => call_planner id start goal
  end.

Definition publishPlan (path : Path) : method () :=
  p ← own plan_publisher_;
  match p with
  | None => undefined
  | Some activated =>
      if (activated : bool) then
        count ← look plan_subscriptions;
        if 0 <? count then send path else mret tt
      else mret tt
  end.

(** The handlers, for the goal and the result at hand. *)
Definition handle {A} (code : failure -> Z) (classify : exn -> failure) (goal : option A) (result : Result) (e : exn) :
    option (method ending) :=
  if bool_decide (e = foreign_exception) then None
  else if bool_decide (e = planner_cancelled)
  then Some (_ ← tell (call_terminate_all empty_result); mret Cancelled)
  else Some (match goal with
             | None => undefined
             | Some _ => _ ← tell (call_terminate_current (set_code (code (classify e)) result)); mret (Failed (classify e))
             end).

(** The end of both blocks of [try], after the path was stored in the result. *)
Definition succeed (start_time : Z) (path : Path) : method ending :=
  _ ← publishPlan path;
  time ← look now;
  cycle_duration ← since time start_time;
  _ ← tell (call_succeeded (mk_result path cycle_duration NONE));
  mret Succeeded.

(** A block of [try] up to a path that is stored in the result, or an earlier return, and the rest of it; the
    handlers find the path in the result if it was stored. *)
Definition try_plan {A} (code : failure -> Z) (classify : exn -> failure) (goal : option A)
    (c : method (ending + Path)) (rest : Path -> method ending) : method ending :=
  r ← catch c (fun e => (fun k => r ← k; mret (inl r)) <$> handle code classify goal new_result e);
  match r with
  | inl e => mret e
  | inr path => catch (rest path) (handle code classify goal (mk_result path 0 NONE))
  end.

(** The first steps: the server is active, the goal is not cancelled, the costmap is current. *)
Definition prepare {A} (waits : nat) (rest : method (ending + A)) : method (ending + A) :=
  inactive ← server_inactive;
  if (inactive : bool) then mret (inl Inactive) else
  cancelled ← isCancelRequested;
  if (cancelled : bool) then mret (inl Cancelled) else
  ready ← waitForCostmap waits;
  if negb ready then mret (inl Running) else
  _ ← getPreemptedGoalIfRequested;
  rest.

(** One plan in the global frame. *)
Definition plan_between (start goal : PoseStamped) (planner_id : string) : method (Path * PoseStamped) :=
  t ← transformPosesToGlobalFrame start goal;
  match t with
  | None => throw planner_tf_error
  | Some (start, goal) => path ← getPlan start goal planner_id; mret (path, goal)
  end.

(** The loop of [computePlanThroughPoses]; [concat_path] is none before the first round. *)
Fixpoint plan_legs (start : PoseStamped) (planner_id : string) (goals : list PoseStamped) (concat_path : option Path) :
    method Path :=
  match goals with
  | [] => mret (default new_path concat_path)
  | curr_goal :: goals =>
      curr_start ← query (fun _ =>
        match concat_path with
        | None => Ok start
        | Some c => match last (poses c) with Some p => Ok (mk_pose_stamped (path_header c) (pose_of p)) | None => UB end
        end);
      '(curr_path, _) ← plan_between curr_start curr_goal planner_id;
      if negb (validatePath curr_path) then throw no_valid_path else
      let added :=
        match concat_path with
        | None => poses curr_path
        | Some c => poses c ++ (if (1 <? List.length (poses curr_path))%nat then tail (poses curr_path) else [])
        end in
      plan_legs start planner_id goals (Some (mk_path (path_header curr_path) added))
  end.
End Server.

(** ** The callbacks *)

Section Callbacks.
Context {W1 W2 P E : Type}.
Context `{!GoalHandles W1 ToPose Result ()} `{!GoalHandles W2 ThroughPoses Result ()} `{!Others W1 E} `{!Others W2 E}.
Context `{!Planners P E} `{!PlannerSurroundings W1 W2 E} `{!Clock E} `{!Hypot} `{!Clocks} `{!Angles}.

Definition path_to_pose (waits : nat) (goal : option ToPose) : ST (node W1 E (planner P) Path) (ending + Path) :=
  prepare waits (
    match goal with
    | None => undefined
    | Some g =>
        s ← getStartPose (use_start g) (start g);
        match s with
        | None => throw planner_tf_error
        | Some s => '(path, _) ← plan_between s (PlannerServer.goal g) (planner_id g); mret (inr path)
        end
    end).

Definition computePlan (waits : nat) : ST (node W1 E (planner P) Path) ending :=
  start_time ← look now;
  goal ← ask get_current_goal;
  try_plan to_pose_code to_pose_failure goal (path_to_pose waits goal)
    (fun path => if negb (validatePath path) then throw no_valid_path else succeed start_time path).

Definition path_through_poses (waits : nat) (goal : option ThroughPoses) : ST (node W2 E (planner P) Path) (ending + Path) :=
  prepare waits (
    match goal with
    | None => undefined
    | Some g =>
        if bool_decide (goals g = []) then throw no_viapoints_given else
        s ← getStartPose (poses_use_start g) (poses_start g);
        match s with
        | None => throw planner_tf_error
        | Some s => path ← plan_legs s (poses_planner_id g) (goals g) None; mret (inr path)
        end
    end).

Definition computePlanThroughPoses (waits : nat) : ST (node W2 E (planner P) Path) ending :=
  start_time ← look now;
  goal ← ask get_current_goal;
  try_plan through_poses_code failure_of goal (path_through_poses waits goal) (succeed start_time).
End Callbacks.

(** ** The service *)

Section Service.
Context {W W1 W2 P E : Type}.
Context `{!PlannerSurroundings W1 W2 E} `{!Hypot} `{!Angles} (cos sin : f64 -> f64).

Abbreviation method := (ST (node W E (planner P) Path)).

(** [std::numeric_limits<float>::max()] *)
Definition f32_highest : spec_float := S754_finite false 16777215 104.

(** The search for the pose nearest to the robot, from the index [i] on; distances are rounded to [float]. *)
Fixpoint closest_point (p : pose) (l : list PoseStamped) (i closest_point_index : nat) (closest_distance : spec_float) : nat :=
  match l with
  | [] => closest_point_index
  | q :: l =>
      let current_distance := f32_of_f64 (euclidean_distance p (pose_of q)) in
      if NavFn.f32_lt current_distance closest_distance then closest_point p l (S i) i current_distance
      else closest_point p l (S i) closest_point_index closest_distance
  end.

(** The cost of the robot at a pose. *)
Definition pose_cost (use_radius : bool) (m : Costmap.costmap) (p : pose) : method Z :=
  if use_radius then
    query (fun _ =>
      '(inside, c) ← Costmap.worldToMap (px p) (py p) m;
      match inside, c with
      | true, Some (mx, my) => Costmap.getCost mx my m
      | _, _ => Ok Costmap.LETHAL_OBSTACLE
      end)
  else
    footprint ← look getRobotFootprint;
    checker ← own collision_checker_;
    _ ← query (fun _ => require checker);
    query (fun _ =>
      cost ← FootprintCollision.footprintCostAtPose cos sin (px p) (py p) (getYaw (orientation p)) footprint m;
      f64_to_uint 32 cost).

Definition blocked (use_radius : bool) (cost : Z) : bool :=
  (use_radius && ((cost =? Costmap.LETHAL_OBSTACLE) || (cost =? CostmapLayer.INSCRIBED_INFLATED_OBSTACLE)))
  || (cost =? Costmap.LETHAL_OBSTACLE).

Fixpoint poses_free (use_radius : bool) (m : Costmap.costmap) (l : list PoseStamped) : method bool :=
  match l with
  | [] => mret true
  | p :: l =>
      cost ← pose_cost use_radius m (pose_of p);
      if blocked use_radius cost then mret false else poses_free use_radius m l
  end.

Definition isPathValid (path : Path) : method bool :=
  if bool_decide (poses path = []) then mret false else
  p ← look getRobotPose;
  match p with
  | None => mret true
  | Some p =>
      let closest_point_index := closest_point (pose_of p) (poses path) 0 0 f32_highest in
      costmap ← own costmap_;
      _ ← query (fun _ => require costmap);
      m ← look getCostmap;
      use_radius ← look getUseRadius;
      poses_free use_radius m (drop closest_point_index (poses path))
  end.
End Service.

(** ** Parameters *)

Definition planner_duration (expected_planner_frequency : f64) : f64 :=
  if f64_lt f64_zero expected_planner_frequency then f64_div (f64_of_Z 1) expected_planner_frequency else f64_zero.

Definition set_parameter {P} (q : string * parameter) (c : planner P) : planner P :=
  match snd q with
  | PARAMETER_DOUBLE x =>
      if String.eqb (fst q) "expected_planner_frequency" then set_max_duration (planner_duration x) c else c
  | _ => c
  end.

(** It waits for the lock that a callback holds, and always succeeds. *)
Definition dynamicParametersCallback {P} (parameters : list (string * parameter)) (c : planner P) : bool * planner P :=
  (true, fold_left (fun c q => set_parameter q c) parameters c).

(** ** The node *)

Record planner_node (W1 W2 E P : Type) : Type := mk_planner_node {
  shared : planner P;
  action_server_pose_ : option (server W1);
  action_server_poses_ : option (server W2);
  world : E;
  plans : list Path }.
Arguments mk_planner_node {W1 W2 E P}.
Arguments shared {W1 W2 E P}.
Arguments action_server_pose_ {W1 W2 E P}.
Arguments action_server_poses_ {W1 W2 E P}.
Arguments world {W1 W2 E P}.
Arguments plans {W1 W2 E P}.

Section Node.
Context {W1 W2 P E : Type}.
Context `{!GoalHandles W1 ToPose Result ()} `{!GoalHandles W2 ThroughPoses Result ()} `{!Others W1 E} `{!Others W2 E}.
Context `{!Planners P E} `{!PlannerSurroundings W1 W2 E} `{!Clock E} `{!Durations} `{!NodeParameters} `{!Buckets}.

Abbreviation transition := (ST (planner_node W1 W2 E P)).

(** A method that uses one of the action servers. *)
Definition on_pose {A} (c : ST (node W1 E (planner P) Path) A) : transition A := fun n =>
  let '(r, m) := c (mk_node (shared n) (action_server_pose_ n) (world n) (plans n)) in
  (r, mk_planner_node (members m) (server_of m) (action_server_poses_ n) (outside m) (sent m)).
Definition on_poses {A} (c : ST (node W2 E (planner P) Path) A) : transition A := fun n =>
  let '(r, m) := c (mk_node (shared n) (action_server_poses_ n) (world n) (plans n)) in
  (r, mk_planner_node (members m) (action_server_pose_ n) (server_of m) (outside m) (sent m)).

Definition update (f : planner P -> planner P) : transition () := on_pose (assign f).
Definition look_at {A} (f : E -> A * E) : transition A := on_pose (look f).
Definition all_planners (f : virtual P E ()) : transition () := on_pose (for_plugins planners_ set_planners f).

Definition default_ids_ : list string := ["GridBased"%string].
Definition default_type : string := "nav2_navfn_planner::NavfnPlanner".

(** The constructor. *)
Definition new (e : E) : res (planner_node W1 W2 E P) :=
  ids ← read_or as_string_array "planner_plugins" default_ids_;
  _ ← (if bool_decide (ids = default_ids_) then read_or as_string "GridBased.plugin" default_type else Ok ""%string);
  Ok (mk_planner_node (mk_planner ∅ ids f64_zero 1000000000 None false false false false false false) None None e []).

Definition on_cleanup : transition bool :=
  _ ← on_pose (modify (set_server None));
  _ ← on_poses (modify (set_server None));
  _ ← update (set_publisher None);
  _ ← look_at costmap_cleanup;
  _ ← all_planners planner_cleanup;
  _ ← update (fun c => set_costmap false false false (set_planners ∅ c));
  mret true.

Definition make_planner (type id : string) : ST (node W1 E (planner P) Path) P :=
  p ← out (load_planner type); init_plugin (planner_configure id) p.

(** The loop over the planners, of which any exception is caught. *)
Definition load : transition bool :=
  ids ← on_pose (own planner_ids_);
  catch (_ ← on_pose (load_plugins planners_ set_planners make_planner (default_for ids default_ids_ default_type) ids); mret true)
    (fun e => if is_std e then Some (_ ← on_cleanup; mret false) else None).

Definition on_configure : transition bool :=
  _ ← look_at costmap_configure;
  use_radius ← look_at getUseRadius;
  _ ← update (fun c => set_costmap true true true (if negb use_radius then set_checker true c else c));
  loaded ← load;
  if negb (loaded : bool) then mret false else
  frequency ← on_pose (param as_double "expected_planner_frequency" (f64_of_Z 1));
  _ ← update (fun c => set_publisher (Some false) (set_max_duration (planner_duration frequency) c));
  _ ← on_pose (param as_double "action_server_result_timeout" (f64_of_Z 10));
  timeout ← on_pose (param as_double "costmap_update_timeout" (f64_of_Z 1));
  _ ← update (set_timeout (from_seconds timeout));
  w1 ← look_at pose_handles;
  w2 ← look_at poses_handles;
  _ ← on_pose (modify (set_server (Some (ActionServer.new w1))));
  _ ← on_poses (modify (set_server (Some (ActionServer.new w2))));
  mret true.

(** [plan_publisher_->on_activate()] and its counterpart. *)
Definition switch_publisher (activated : bool) : transition () :=
  p ← on_pose (own plan_publisher_);
  match p with None => undefined | Some _ => update (set_publisher (Some activated)) end.

Definition on_activate : transition bool :=
  _ ← switch_publisher true;
  _ ← on_pose (with_server (fun s => (tt, activate s)));
  _ ← on_poses (with_server (fun s => (tt, activate s)));
  active ← look_at costmap_activate;
  if negb (active : bool) then mret false else
  _ ← all_planners planner_activate;
  _ ← update (set_interfaces true true);
  mret true.

(** The result is false where [deactivate] of a server has not returned within the rounds. *)
Definition on_deactivate (rounds : nat) : transition bool :=
  stopped ← on_pose (deactivate_server deadline_passed rounds);
  if negb (stopped : bool) then mret false else
  stopped ← on_poses (deactivate_server deadline_passed rounds);
  if negb (stopped : bool) then mret false else
  _ ← switch_publisher false;
  _ ← look_at costmap_deactivate;
  _ ← all_planners planner_deactivate;
  _ ← update (fun c => set_interfaces (is_path_valid_service_ c) false c);
  mret true.

Definition on_shutdown : transition bool := mret true.
End Node.
End PlannerServer.
