(* ===== verification/PlannerLaws.v ===== *)
(** * Laws of the planner server

    Every run of the two callbacks ends its goal with a path that a planner returned or with the code of
    the exception, unless the server is being deactivated or the waits are used up; nothing is undefined.
    A path is valid when no pose from the one nearest to the robot on is blocked. Examples show what
    becomes of a goal that preempts, and answers that do not mean what they say. *)

From stdpp Require Import base option list numbers strings gmap relations.
From Stdlib Require Import ZArith Lia SpecFloat String.
From S2P Require Import Prelude Float64 Costmap CostmapLayer Footprint NavFn NavfnPlanner Parameters CollisionSources VelocitySmoother NavMessages ActionServer ActionTask PluginNode FootprintCollision PlannerServer.

Module PlannerLaws.
Import Messages ActionServer Methods Task PluginNode PlannerServer.

Section Server.
Context {W G P W1 W2 E : Type}.
Context `{!GoalHandles W G Result ()} `{!GoalHandleLaws W G Result ()} `{!Others W E} `{!OtherLaws (G := G) (R := Result) (F := ())}.
Context `{!Planners P E} `{!PlannerSurroundings W1 W2 E} `{!Clock E} `{!Hypot} `{!Clocks} `{!Angles}.

Abbreviation state := (node W E (planner P) Path).
Abbreviation method := (ST state).

Implicit Types n : state.

(** The publisher exists, and is active or not. *)
Definition publishing (b : bool) (c : planner P) : Prop := plan_publisher_ c = Some b.

Abbreviation ready k b l := (holding (F := ()) (G := G) (R := Result) (W := W) (E := E) k (publishing b) l).

Lemma sound_wait k b l waits : sound (ready k b l) (waitForCostmap waits).
Proof.
  unfold waitForCostmap. apply sound_bind; [auto with keeps|intros t].
  induction waits as [|w IH]; cbn [wait_for_costmap]; keep.
Qed.
#[local] Hint Resolve sound_wait : keeps.

Lemma sound_preempted k b l : sound (ready k b l) getPreemptedGoalIfRequested.
Proof. unfold getPreemptedGoalIfRequested. keep. Qed.
Lemma sound_start k b l u s : sound (ready k b l) (getStartPose u s).
Proof. unfold getStartPose. destruct u; auto with keeps. Qed.
Lemma sound_transform k b l s g : sound (ready k b l) (transformPosesToGlobalFrame s g).
Proof. unfold transformPosesToGlobalFrame. keep. Qed.
#[local] Hint Resolve sound_preempted sound_start sound_transform : keeps.

Lemma sound_planning k b l id t : sound (ready k b l) (run_planning id t).
Proof.
  induction t as [o p e|e answer IH]; intros n Hn; cbn [run_planning]; [by split; [apply of_outcome_defined|]|].
  destruct (holding_ask k (publishing b) l is_cancel_requested (set_outside e n) Hn) as [Hu Hs].
  destruct (ask is_cancel_requested (set_outside e n)) as [[c|x|] n']; cbn in *; [by apply IH|done|done].
Qed.

Lemma sound_plan k b l s g id : sound (ready k b l) (getPlan s g id).
Proof.
  unfold getPlan. apply own_found; [apply sound_throw|intros i n [Hn Hi]].
  unfold call_planner. apply elem_of_dom in Hi. destruct Hi as [p Hp]. rewrite Hp. by apply sound_planning.
Qed.
#[local] Hint Resolve sound_plan : keeps.

(** A path that a planner returned between two poses, in the global frame. *)
Definition between (s g : PoseStamped) (id : string) (path : Path) : Prop :=
  exists (e1 e2 : E) s' g' n n', fst (transformPoseToGlobalFrame s e1) = Some s' /\
    fst (transformPoseToGlobalFrame g e2) = Some g' /\ getPlan s' g' id n = (Ok path, n').

Lemma between_spec k b l s g id : ends (ready k b l) (plan_between s g id)
  (fun r n => r <> UB /\ ready k b l n /\ forall path g', r = Ok (path, g') -> between s g id path).
Proof.
  intros n Hn. unfold plan_between, transformPosesToGlobalFrame, look. expose.
  destruct (transformPoseToGlobalFrame s (outside n)) as [s' e1] eqn:Es. cbn.
  destruct s' as [s'|]; cbn; [|split; [done|by split; [exact Hn|]]].
  destruct (transformPoseToGlobalFrame g e1) as [g' e2] eqn:Eg. cbn.
  destruct g' as [g'|]; cbn; [|split; [done|by split; [exact Hn|]]].
  set (m := set_outside e2 (set_outside e1 n)).
  destruct (sound_plan k b l s' g' id m Hn) as [Hu Hs].
  destruct (getPlan s' g' id m) as [[path|x|] n'] eqn:Ep; cbn in *; [|split; [done|by split]|done].
  split; [done|]. split; [done|]. intros path0 g0 [= <- <-].
  exists (outside n), e1, s', g', m, n'. by rewrite Es, Eg.
Qed.

(** ** The blocks of [try] *)

Section Answers.
Context (listened : forall e : E, 0 < fst (plan_subscriptions (W1 := W1) (W2 := W2) e)).

Lemma publish_spec b l path : ends (ready true b l) (publishPlan path)
  (fun r n => r = Ok tt /\ ready true b (l ++ if b then [path] else []) n).
Proof.
  intros n (Hs & Hp & Hl). unfold publishPlan, own, look. expose. cbn. rewrite Hp. cbn.
  destruct b; cbn; [|by rewrite app_nil_r].
  pose proof (listened (outside n)) as Hc. destruct (plan_subscriptions (outside n)) as [count e]. cbn in *.
  rewrite (proj2 (Z.ltb_lt 0 count) Hc). cbn. split; [done|]. split; [exact Hs|]. split; [exact Hp|]. cbn. by rewrite Hl.
Qed.

(** What a block of [try] leaves: an answer, or an exception while the goal is still held. *)
Definition block (b : bool) (l : list Path) (V : Path -> Prop) (r : res ending) n : Prop :=
  match r with
  | Ok Inactive | Ok Running => exists k, ready k b l n
  | Ok Cancelled => over n /\ last_call (call_terminate_all empty_result) n /\ sent n = l
  | Ok Succeeded => over n /\ exists path t, V path /\ last_call (call_succeeded (mk_result path t NONE)) n /\
      sent n = l ++ if b then [path] else []
  | Ok (Failed _) | UB => False
  | Throw _ => exists l', ready true b l' n
  end.

Lemma succeed_spec b l (V : Path -> Prop) start_time path : V path ->
  ends (ready true b l) (succeed start_time path) (block b l V).
Proof.
  intros HV. unfold succeed. eapply ends_bind; [apply publish_spec|intros []|by intros e n [? _]|by intros n [? _]].
  apply (ends_pre (ready true b (l ++ if b then [path] else []))); [|by intros n [_ Hn]].
  set (l' := l ++ if b then [path] else []).
  eapply ends_bind; [apply (holding_look (F := ()) true (publishing b) l')|intros t| |by intros n [? _]].
  2: { intros e n [_ Hn]. by exists l'. }
  apply (ends_pre (ready true b l')); [|by intros n [_ Hn]].
  eapply ends_bind; [apply (since_sound (ready true b l'))|intros d| |by intros n [? _]].
  2: { intros e n [_ Hn]. by exists l'. }
  apply (ends_pre (ready true b l')); [|by intros n [_ Hn]].
  eapply ends_bind; [by apply holding_final|intros []|by intros e n [? _]|by intros n [? _]].
  intros n (_ & Ho & Hl & _ & Hs). cbn. split; [exact Ho|]. exists path, d. by repeat split.
Qed.

(** The first part of a block, up to the path; [k] tells whether the goal was there. *)
Definition stage {A} (k b : bool) (l : list Path) (V : A -> Prop) (r : res (ending + A)) n : Prop :=
  match r with
  | Ok (inl e) => forall V, block b l V (Ok e) n
  | Ok (inr a) => k = true /\ V a /\ ready true b l n
  | Throw _ => k = true /\ ready true b l n
  | UB => False
  end.

Lemma inactive_spec k b l : ends (ready k b l) server_inactive
  (fun r n => exists i, r = Ok i /\ ready k b l n /\ (i = false -> k = true)).
Proof.
  intros n Hn. pose proof Hn as [(s & Hs & _) _]. unfold server_inactive, get. expose. cbn. rewrite Hs. cbn.
  destruct (holding_active k (publishing b) l n Hn) as (a & Hr & Hh & Ha).
  destruct (ask is_server_active n) as [[x|x|] n']; cbn in *; try done. injection Hr as ->.
  eexists. split; [done|]. split; [done|]. destruct a; [intros _; by apply Ha|done].
Qed.

Lemma cancel_spec k b l : ends (ready k b l) isCancelRequested (fun r n =>
  r = Ok true /\ over n /\ last_call (call_terminate_all empty_result) n /\ sent n = l \/ r = Ok false /\ ready k b l n).
Proof.
  unfold isCancelRequested. eapply ends_bind.
  - eapply ends_weaken; [apply (holding_server k (publishing b) l _ (fun _ _ => True)); by intros s Hs|].
    intros r n (c & s & Hr & _ & _ & Hn). exact (conj (ex_intro (fun c => r = Ok c) c Hr) Hn).
  - intros [|]; [|intros n [_ Hn]; by right].
    apply (ends_pre (ready k b l)); [|by intros n [_ Hn]].
    eapply ends_bind; [by apply holding_final|intros []|by intros e n [? _]|by intros n [? _]].
    intros n (_ & Ho & Hl & _ & Hs). by left.
  - by intros e n [[c ?] _].
  - by intros n [[c ?] _].
Qed.

Lemma prepare_spec {A} k b l waits (rest : method (ending + A)) (V : A -> Prop) :
  (k = true -> ends (ready true b l) rest (stage k b l V)) -> ends (ready k b l) (prepare waits rest) (stage k b l V).
Proof.
  intros Hrest. unfold prepare.
  eapply ends_bind; [apply inactive_spec| |by intros e n (i & ? & _)|by intros n (i & ? & _)].
  intros [|]; [intros n (i & _ & Hn & _) V'; by exists k|].
  destruct k; [|by intros n (i & [= <-] & _ & Hi); specialize (Hi eq_refl)].
  apply (ends_pre (ready true b l)); [|by intros n (i & _ & Hn & _)].
  eapply ends_bind; [apply cancel_spec| |by intros e n [(? & _)|(? & _)]|by intros n [(? & _)|(? & _)]].
  intros [|]; [intros n [(_ & Hc)|(? & _)]; [by intros V'|done]|].
  apply (ends_pre (ready true b l)); [|by intros n [(? & _)|(_ & Hn)]].
  eapply ends_bind; [apply sound_wait| |by intros e n (_ & Hn)|by intros n (? & _)].
  intros [|]; cbn [negb]; [|intros n (_ & Hn) V'; by exists true].
  apply (ends_pre (ready true b l)); [|by intros n (_ & Hn)].
  eapply ends_bind; [apply sound_preempted| |by intros e n (_ & Hn)|by intros n (? & _)].
  intros []. apply (ends_pre (ready true b l)); [|by intros n (_ & Hn)]. by apply Hrest.
Qed.

(** A block of [try] without its handlers. *)
Definition attempt (c : method (ending + Path)) (rest : Path -> method ending) : method ending :=
  r ← c; match r with inl e => mret e | inr path => rest path end.

(** What a callback answers: [thrown] tells which exception left the block. *)
Definition answered (code : failure -> Z) (classify : exn -> failure) (b : bool) (l : list Path) (V : Path -> Prop)
    (thrown : exn -> Prop) (r : res ending) n : Prop :=
  match r with
  | Ok (Failed f) => over n /\ exists path e, last_call (call_terminate_current (mk_result path 0 (code f))) n /\
      thrown e /\ f = classify e
  | Ok Cancelled => over n /\ last_call (call_terminate_all empty_result) n
  | Throw e => e = foreign_exception /\ thrown e
  | r => block b l V r n
  end.

Lemma handle_spec {A} code classify b l V (thrown : exn -> Prop) (goal : A) path e k l' :
  handle code classify (Some goal) (mk_result path 0 NONE) e = Some k -> thrown e ->
  ends (ready true b l') k (answered code classify b l V thrown).
Proof.
  unfold handle. case_bool_decide as Hf; [done|]. case_bool_decide as Hc.
  - intros [= <-] _. eapply ends_bind; [by apply holding_final|intros []|by intros x n [? _]|by intros n [? _]].
    intros n (_ & Ho & Hl & _). by split.
  - intros [= <-] He. eapply ends_bind; [by apply holding_final|intros []|by intros x n [? _]|by intros n [? _]].
    intros n (_ & Ho & Hl & _). split; [done|]. exists path, e. split; [exact Hl|done].
Qed.

Lemma block_answered code classify b l V thrown (r : res ending) n :
  (forall e, r <> Throw e) -> block b l V r n -> answered code classify b l V thrown r n.
Proof. intros Hr. destruct r as [[]|e|]; cbn; try done; [by intros (? & ? & ?)|by destruct (Hr e)]. Qed.

Lemma try_plan_spec {A} code classify (goal : option A) b l (V V' : Path -> Prop) c rest n :
  ready (bool_decide (is_Some goal)) b l n ->
  ends (ready (bool_decide (is_Some goal)) b l) c (stage (bool_decide (is_Some goal)) b l V) ->
  (forall path, V path -> ends (ready true b l) (rest path) (block b l V')) ->
  answered code classify b l V' (fun e => fst (attempt c rest n) = Throw e)
    (fst (try_plan code classify goal c rest n)) (snd (try_plan code classify goal c rest n)).
Proof.
  intros Hn Hc Hrest. specialize (Hc n Hn). unfold try_plan, attempt, catch, mbind, ST_bind in *.
  destruct (c n) as [[[e|path]|x|] n1] eqn:Ec; cbn [fst snd] in *.
  - apply block_answered; [done|apply Hc].
  - destruct Hc as (Hk & HV & Hn1). specialize (Hrest path HV n1 Hn1).
    apply bool_decide_eq_true in Hk. destruct goal as [goal|]; [|by destruct Hk].
    destruct (rest path n1) as [[e|x|] n2] eqn:Er; cbn [fst snd] in *; [by apply block_answered| |done].
    destruct Hrest as [l' Hn2]. destruct (handle code classify (Some goal) _ x) as [k|] eqn:Eh.
    + by apply (handle_spec code classify b l V' _ goal path x k l').
    + split; [|done]. unfold handle in Eh. case_bool_decide; [done|]. by case_bool_decide.
  - destruct Hc as [Hk Hn1]. apply bool_decide_eq_true in Hk. destruct goal as [goal|]; [|by destruct Hk].
    destruct (handle code classify (Some goal) new_result x) as [k|] eqn:Eh; cbn.
    + pose proof (handle_spec code classify b l V' (fun e => Throw (A := ending) x = Throw e) goal new_path x k l Eh eq_refl n1 Hn1) as Ha.
      destruct (k n1) as [[a|y|] n2]; cbn in *; exact Ha.
    + split; [|done]. unfold handle in Eh. case_bool_decide; [done|]. by case_bool_decide.
  - done.
Qed.

(** The goal's start pose, and what follows it. *)
Lemma start_spec {A} b l (V : A -> Prop) u s (k : PoseStamped -> method (ending + A)) :
  (forall p, (u = true -> p = s) -> ends (ready true b l) (k p) (stage true b l V)) ->
  ends (ready true b l) (o ← getStartPose u s; match o with None => throw planner_tf_error | Some p => k p end) (stage true b l V).
Proof.
  intros Hk. apply (ends_bind _ _ _ (fun r n => ready true b l n /\ exists o, r = Ok o /\ forall p, o = Some p -> u = true -> p = s)).
  - intros n Hn. unfold getStartPose. destruct u; cbn; [split; [done|]; eexists; split; [done|]; by intros p [= <-]|].
    unfold look. destruct (getRobotPose (outside n)) as [o e]. cbn. split; [exact Hn|]. by exists o.
  - intros [p|] n (Hn & o & [= <-] & Ho); [|by split]. by apply (Hk p (Ho p eq_refl)).
  - by intros e n (_ & o & ? & _).
  - by intros n (_ & o & ? & _).
Qed.
End Answers.
End Server.

(** ** The two callbacks *)

Section Callbacks.
Context {W1 W2 P E : Type}.
Context `{!GoalHandles W1 ToPose Result ()} `{!GoalHandleLaws W1 ToPose Result ()}.
Context `{!GoalHandles W2 ThroughPoses Result ()} `{!GoalHandleLaws W2 ThroughPoses Result ()}.
Context `{!Others W1 E} `{!OtherLaws (G := ToPose) (R := Result) (F := ())} `{!Others W2 E} `{!OtherLaws (G := ThroughPoses) (R := Result) (F := ())}.
Context `{!Planners P E} `{!PlannerSurroundings W1 W2 E} `{!Clock E} `{!Hypot} `{!Clocks} `{!Angles}.
Context (listened : forall e : E, 0 < fst (plan_subscriptions (W1 := W1) (W2 := W2) e)).

(** The first calls of a callback: the time and the goal. *)
Definition begins {W G} `{!GoalHandles W G Result ()} `{!Others W E} (n : node W E (planner P) Path) (t : Z) (g : option G)
    (n' : node W E (planner P) Path) : Prop :=
  exists m, look now n = (Ok t, m) /\ ask get_current_goal m = (Ok g, n').

Lemma begins_ready {W G} `{!GoalHandles W G Result ()} `{!GoalHandleLaws W G Result ()} `{!Others W E}
    `{!OtherLaws (G := G) (R := Result) (F := ())} b l (n : node W E (planner P) Path) :
  holding (F := ()) (G := G) (R := Result) true (publishing b) l n ->
  exists t g n', begins n t g n' /\ holding (F := ()) (G := G) (R := Result) (bool_decide (is_Some g)) (publishing b) l n'.
Proof.
  intros Hn. destruct (look now n) as [[t|x|] m] eqn:El; [|by unfold look in El; destruct (now (outside n))..].
  pose proof (holding_look (F := ()) (G := G) (R := Result) true (publishing b) l now n Hn) as [_ Hm]. rewrite El in Hm. cbn in Hm.
  destruct (holding_goal true (publishing b) l m Hm) as (g & Hr & Hn').
  destruct (ask get_current_goal m) as [[g'|x|] n'] eqn:Ea; cbn in *; try done. injection Hr as ->.
  exists t, g, n'. split; [by exists m|exact Hn'].
Qed.

(** A path for the goal the callback began with. *)
Definition planned (g : option ToPose) (path : Path) : Prop :=
  exists goal s, g = Some goal /\ (use_start goal = true -> s = start goal) /\
    between (W := W1) (W1 := W1) (W2 := W2) (P := P) (E := E) s (PlannerServer.goal goal) (planner_id goal) path.

Lemma pose_stage waits b l g : ends (holding (F := ()) (G := ToPose) (R := Result) (bool_decide (is_Some g)) (publishing b) l)
  (path_to_pose waits g) (stage (bool_decide (is_Some g)) b l (planned g)).
Proof.
  unfold path_to_pose. apply prepare_spec. intros Hk. apply bool_decide_eq_true in Hk. destruct g as [g|]; [|by destruct Hk].
  apply start_spec. intros s Hs.
  eapply ends_bind; [apply between_spec| |by intros e n (_ & Hn & _)|by intros n (? & _)].
  intros [path g'] n (_ & Hn & Hb). split; [done|]. split; [|exact Hn]. exists g, s. split; [done|]. split; [done|]. by eapply Hb.
Qed.

(** The block of [computePlan] after its goal was read. *)
Definition pose_block (waits : nat) (t : Z) (g : option ToPose) : ST (node W1 E (planner P) Path) ending :=
  attempt (path_to_pose waits g) (fun path => if negb (validatePath path) then throw no_valid_path else succeed t path).

Lemma computePlan_begins waits n m n' t g : look now n = (Ok t, m) -> ask get_current_goal m = (Ok g, n') ->
  computePlan waits n = try_plan to_pose_code to_pose_failure g (path_to_pose waits g)
    (fun path => if negb (validatePath path) then throw no_valid_path else succeed t path) n'.
Proof. intros Hl Ha. unfold computePlan, mbind, ST_bind. by rewrite Hl, Ha. Qed.

Lemma computePoses_begins waits n m n' t g : look now n = (Ok t, m) -> ask get_current_goal m = (Ok g, n') ->
  computePlanThroughPoses waits n =
    try_plan through_poses_code failure_of g (path_through_poses waits g) (succeed t) n'.
Proof. intros Hl Ha. unfold computePlanThroughPoses, mbind, ST_bind. by rewrite Hl, Ha. Qed.

(** C13: whatever planners, world and other threads do, [computePlan] has no undefined behaviour and answers: a path
    that a planner returned for the goal the callback began with, which is not empty and was published; the
    code of the exception that left its block; or a cancelled goal. Each of these answers ends the goal. Otherwise the
    server is not active, the waits were used up, or an exception is none of the standard library. *)
Theorem plan_answers waits b l n : holding true (publishing b) l n ->
  exists t g n', begins n t g n' /\
    answered to_pose_code to_pose_failure b l (fun path => planned g path /\ poses path <> [])
      (fun e => fst (pose_block waits t g n') = Throw e) (fst (computePlan waits n)) (snd (computePlan waits n)).
Proof.
  intros Hn. destruct (begins_ready b l n Hn) as (t & g & n' & Hb & Hn'). exists t, g, n'. split; [exact Hb|].
  destruct Hb as (m & Hl & Ha). rewrite (computePlan_begins waits n m n' t g Hl Ha).
  eapply try_plan_spec; [exact Hn'|apply pose_stage|].
  intros path Hp. destruct (validatePath path) eqn:Hv; cbn [negb]; [|by intros m' Hm'; exists l].
  unfold validatePath in Hv. apply negb_true_iff, bool_decide_eq_false in Hv. by apply succeed_spec.
Qed.

(** ** A path through poses *)

Abbreviation state := (node W2 E (planner P) Path).

(** The legs joined: of each later leg the first pose is left out. *)
Definition joined (ls : list Path) : list PoseStamped :=
  match ls with [] => [] | l :: ls => poses l ++ List.concat (map (fun l => tail (poses l)) ls) end.

Lemma joined_snoc ls l : ls <> [] -> joined (ls ++ [l]) = joined ls ++ tail (poses l).
Proof.
  destruct ls as [|l0 ls]; [done|]. intros _. cbn. by rewrite map_app, List.concat_app, app_assoc; cbn; rewrite app_nil_r.
Qed.

(** Where the leg after [ls] starts: at the start, later at the last pose of the legs before, in their frame. *)
Definition leg_start (s : PoseStamped) (ls : list Path) : PoseStamped :=
  match last ls with
  | None => s
  | Some l => mk_pose_stamped (path_header l) (pose_of (default new_pose_stamped (last (joined ls))))
  end.

(** One leg for each goal. *)
Definition legs (id : string) (s : PoseStamped) (gs : list PoseStamped) (ls : list Path) : Prop :=
  List.length ls = List.length gs /\ forall i g l, gs !! i = Some g -> ls !! i = Some l ->
    poses l <> [] /\ between (W := W2) (W1 := W1) (W2 := W2) (P := P) (E := E) (leg_start s (take i ls)) g id l.

Lemma legs_snoc id s gs ls g l : legs id s gs ls -> poses l <> [] ->
  between (W := W2) (W1 := W1) (W2 := W2) (P := P) (E := E) (leg_start s ls) g id l -> legs id s (gs ++ [g]) (ls ++ [l]).
Proof.
  intros [Hlen Hl] Hne Hb. split; [by rewrite !length_app, Hlen|]. intros i g' l' Hg Hl'.
  destruct (decide (i < List.length ls)%nat) as [Hi|Hi].
  - rewrite lookup_app_l in Hl' by done. rewrite lookup_app_l in Hg by lia. rewrite take_app_le by lia. by apply Hl.
  - assert (i = List.length ls) as -> by (apply lookup_lt_Some in Hl'; rewrite length_app in Hl'; cbn in Hl'; lia).
    rewrite list_lookup_middle in Hl' by done. injection Hl' as <-.
    rewrite Hlen, list_lookup_middle in Hg by done. injection Hg as <-. by rewrite take_app_length.
Qed.

Lemma joined_not_nil id s gs ls : legs id s gs ls -> ls <> [] -> joined ls <> [].
Proof.
  intros [Hlen Hl] Hne. destruct ls as [|l ls]; [done|]. destruct gs as [|g gs]; [done|]. cbn.
  destruct (Hl 0%nat g l eq_refl eq_refl) as [Hp _]. by destruct (poses l).
Qed.

Lemma ends_value {A B} (Q1 : state -> Prop) (a : A) (k : A -> ST state B) (Q : res B -> state -> Prop) :
  ends Q1 (k a) Q -> ends Q1 (query (fun _ => Ok a) ≫= k) Q.
Proof. intros Hk n Hn. exact (Hk n Hn). Qed.

(** The path so far. *)
Definition so_far (ls : list Path) : option Path := (fun l => mk_path (path_header l) (joined ls)) <$> last ls.

Lemma tail_short {A} (l : list A) : l <> [] -> (if (1 <? List.length l)%nat then tail l else []) = tail l.
Proof. destruct l as [|a [|a' l]]; done. Qed.

Lemma legs_spec b l s id gs : forall done_gs ls, legs id s done_gs ls ->
  ends (holding (F := ()) (G := ThroughPoses) (R := Result) true (publishing b) l) (plan_legs s id gs (so_far ls))
    (fun r n => r <> UB /\ holding (F := ()) (G := ThroughPoses) (R := Result) true (publishing b) l n /\
      forall path, r = Ok path -> exists ls', legs id s (done_gs ++ gs) ls' /\ path = default new_path (so_far ls')).
Proof.
  induction gs as [|g gs IH]; intros done_gs ls Hls; cbn [plan_legs].
  { intros n Hn. split; [done|]. split; [exact Hn|]. intros path [= <-]. exists ls. by rewrite app_nil_r. }
  assert (match so_far ls with None => Ok s | Some c => match last (poses c) with
            Some p => Ok (mk_pose_stamped (path_header c) (pose_of p)) | None => UB end end = Ok (leg_start s ls)) as Hstart.
  { unfold so_far, leg_start. destruct (last ls) as [l0|] eqn:El; [|done]. cbn.
    assert (joined ls <> []) as Hj by (apply (joined_not_nil id s done_gs); [done|by intros ->]).
    destruct (last (joined ls)) eqn:Ej; [done|]. by apply last_None in Ej. }
  rewrite Hstart. apply ends_value.
  eapply ends_bind; [apply between_spec| |intros e n (_ & Hn & _); by split|by intros n (? & _)].
  intros [curr_path g'] n (_ & Hn & Hb). specialize (Hb _ _ eq_refl).
  destruct (validatePath curr_path) eqn:Hv; cbn [negb]; [|by split; [|split]].
  unfold validatePath in Hv. apply negb_true_iff, bool_decide_eq_false in Hv.
  pose proof (legs_snoc id s done_gs ls g curr_path Hls Hv Hb) as Hls'.
  specialize (IH (done_gs ++ [g]) (ls ++ [curr_path]) Hls' n Hn). rewrite <- app_assoc in IH. cbn [app] in IH.
  replace (Some _) with (so_far (ls ++ [curr_path])); [exact IH|].
  unfold so_far at 1. rewrite last_snoc. cbn. f_equal. f_equal. unfold so_far. destruct (last ls) as [l0|] eqn:El; cbn.
  - rewrite joined_snoc by (by intros ->). f_equal. by rewrite <- (tail_short (poses curr_path)) at 1.
  - apply last_None in El as ->. cbn. by rewrite app_nil_r.
Qed.

(** A path for the goal the callback began with: its legs, joined. *)
Definition joins (g : option ThroughPoses) (path : Path) : Prop :=
  exists goal s ls, g = Some goal /\ (poses_use_start goal = true -> s = poses_start goal) /\
    legs (poses_planner_id goal) s (goals goal) ls /\ poses path = joined ls /\ poses path <> [].

Lemma poses_stage waits b l g : ends (holding (F := ()) (G := ThroughPoses) (R := Result) (bool_decide (is_Some g)) (publishing b) l)
  (path_through_poses waits g) (stage (bool_decide (is_Some g)) b l (joins g)).
Proof.
  unfold path_through_poses. apply prepare_spec. intros Hk. apply bool_decide_eq_true in Hk. destruct g as [g|]; [|by destruct Hk].
  case_bool_decide as Hg; [by intros n Hn|].
  apply start_spec. intros s Hs.
  assert (legs (poses_planner_id g) s [] []) as Hnil by (split; [done|]; by intros i g0 l0 Hi; rewrite lookup_nil in Hi).
  eapply ends_bind; [exact (legs_spec b l s (poses_planner_id g) (goals g) [] [] Hnil)| |by intros e n (_ & Hn & _)|by intros n (? & _)].
  intros path n (_ & Hn & Hp). destruct (Hp path eq_refl) as (ls & Hls & ->). split; [done|]. split; [|exact Hn].
  assert (ls <> []) as Hne. { intros ->. destruct Hls as [Hlen _]. cbn in Hlen. by destruct (goals g). }
  exists g, s, ls. unfold so_far. destruct (last ls) as [l0|] eqn:El; [|by apply last_None in El]. cbn.
  split; [done|]. split; [done|]. split; [exact Hls|]. split; [done|]. by eapply joined_not_nil.
Qed.

(** The block of [computePlanThroughPoses] after its goal was read. *)
Definition poses_block (waits : nat) (t : Z) (g : option ThroughPoses) : ST state ending :=
  attempt (path_through_poses waits g) (succeed t).

(** C14: [computePlanThroughPoses] answers in the same way; its path joins one path of the planner for each pose of the
    goal, each from the end of those before it, and leaves the first pose of each later one out. *)
Theorem plan_through waits b l n : holding true (publishing b) l n ->
  exists t g n', begins n t g n' /\
    answered through_poses_code failure_of b l (joins g)
      (fun e => fst (poses_block waits t g n') = Throw e)
      (fst (computePlanThroughPoses waits n)) (snd (computePlanThroughPoses waits n)).
Proof.
  intros Hn. destruct (begins_ready b l n Hn) as (t & g & n' & Hb & Hn'). exists t, g, n'. split; [exact Hb|].
  destruct Hb as (m & Hl & Ha). rewrite (computePoses_begins waits n m n' t g Hl Ha).
  eapply try_plan_spec; [exact Hn'|apply poses_stage|]. intros path Hp. by apply succeed_spec.
Qed.
End Callbacks.

(** ** The service *)

Section Service.
Context {W W1 W2 P E : Type}.
Context `{!PlannerSurroundings W1 W2 E} `{!Hypot} `{!Angles} (cos sin : f64 -> f64).

Abbreviation state := (node W E (planner P) Path).
Implicit Types n : state.

(** The distance of a pose of the path from the robot. *)
Definition distance_of (p : pose) (q : PoseStamped) : spec_float := f32_of_f64 (euclidean_distance p (pose_of q)).

(** The pose with index [k] is one of the nearest; the first one where no distance counts. *)
Definition nearest (p : pose) (l : list PoseStamped) (k : nat) : Prop :=
  exists d, (forall i q, l !! i = Some q -> f64_lt (distance_of p q) d = false) /\
    ((exists q, l !! k = Some q /\ distance_of p q = d) \/ k = 0%nat /\ d = f32_highest).

Lemma closest_spec p l : forall i k d, exists d',
  (d' = d \/ f64_lt d' d = true) /\
  (forall j q, l !! j = Some q -> f64_lt (distance_of p q) d' = false) /\
  (closest_point p l i k d = k /\ d' = d \/
   exists j q, closest_point p l i k d = (i + j)%nat /\ l !! j = Some q /\ distance_of p q = d').
Proof.
  induction l as [|q0 l IH]; intros i k d; cbn [closest_point].
  { exists d. split; [by left|]. split; [by intros j q Hj; rewrite lookup_nil in Hj|by left]. }
  change NavFn.f32_lt with f64_lt. fold (distance_of p q0).
  destruct (f64_lt (distance_of p q0) d) eqn:Hlt.
  - destruct (IH (S i) i (distance_of p q0)) as (d' & Hd & Hl & Hk). exists d'.
    assert (f64_lt (distance_of p q0) d' = false) as H00.
    { destruct Hd as [->|Hd]; [apply f64_lt_irrefl|]. destruct (f64_lt (distance_of p q0) d') eqn:Hc; [|done].
      pose proof (f64_lt_trans _ _ _ Hd Hc) as Hx. by rewrite f64_lt_irrefl in Hx. }
    split; [right; destruct Hd as [->|Hd]; [done|by eapply f64_lt_trans]|].
    split; [intros [|j] q Hj; [by injection Hj as <-|by eapply Hl]|]. right.
    destruct Hk as [[-> ->]|(j & q & -> & Hj & Hq)]; [exists 0%nat, q0|exists (S j), q]; repeat split; try done; lia.
  - destruct (IH (S i) k d) as (d' & Hd & Hl & Hk). exists d'. split; [done|].
    split; [intros [|j] q Hj; [|by eapply Hl]|].
    + injection Hj as <-. destruct Hd as [->|Hd]; [done|]. destruct (f64_lt (distance_of p q0) d') eqn:Hc; [|done].
      by rewrite (f64_lt_trans _ _ _ Hc Hd) in Hlt.
    + destruct Hk as [Hk|(j & q & -> & Hj & Hq)]; [by left|right]. exists (S j), q. split; [lia|done].
Qed.

Lemma closest_nearest p l : nearest p l (closest_point p l 0 0 f32_highest).
Proof.
  destruct (closest_spec p l 0%nat 0%nat f32_highest) as (d & _ & Hl & Hk). exists d. split; [done|].
  destruct Hk as [[-> ->]|(j & q & -> & Hj & Hq)]; [by right|left]. by exists q.
Qed.

Section Map.
Context (m : Costmap.costmap) (Hwf : Costmap.wf m).

(** The cell of a pose, if it is on the map. *)
Definition on_cell (p : pose) (x y : Z) : Prop := Costmap.worldToMap (px p) (py p) m = Ok (true, Some (x, y)).
Definition off_map (p : pose) : Prop := exists o, Costmap.worldToMap (px p) (py p) m = Ok (false, o).

(** A robot with a radius may stand there. *)
Definition free (q : PoseStamped) : Prop := exists x y v, on_cell (pose_of q) x y /\ Costmap.cell m x y = Some v /\
  v <> Costmap.LETHAL_OBSTACLE /\ v <> CostmapLayer.INSCRIBED_INFLATED_OBSTACLE.

Lemma radius_cost n q : off_map (pose_of q) \/ (exists x y, on_cell (pose_of q) x y) ->
  exists v, pose_cost (P := P) (W := W) cos sin true m (pose_of q) n = (Ok v, n) /\ (blocked true v = false <-> free q).
Proof.
  intros Hq. unfold pose_cost, query. destruct Hq as [[o Ho]|(x & y & Hxy)].
  - exists Costmap.LETHAL_OBSTACLE. rewrite Ho. split; [done|]. split; [intros Hb; discriminate Hb|].
    intros (x & y & v & Hxy & _). unfold on_cell in Hxy. by rewrite Ho in Hxy.
  - pose proof Hxy as Hin. apply Costmap.world_to_map_true in Hin as (Hx & Hy & Hx2 & Hy2).
    destruct (Costmap.cell_some m x y Hwf) as (v & Hv & _ & Hg); [unfold Costmap.inside, in_u in *; lia|].
    exists v. rewrite Hxy. cbn [mbind res_bind]. rewrite Hg. split; [done|]. unfold blocked. cbn [andb]. split.
    + intros [[H1 H2]%orb_false_iff _]%orb_false_iff. exists x, y, v. rewrite Z.eqb_neq in H1, H2. done.
    + intros (x' & y' & v' & Hxy' & Hv' & H1 & H2). unfold on_cell in *. rewrite Hxy in Hxy'. injection Hxy' as <- <-.
      rewrite Hv in Hv'. injection Hv' as <-. by rewrite !(proj2 (Z.eqb_neq _ _)).
Qed.

Lemma poses_free_spec l n : Forall (fun q => off_map (pose_of q) \/ exists x y, on_cell (pose_of q) x y) l ->
  exists b, poses_free (P := P) (W := W) cos sin true m l n = (Ok b, n) /\ (b = true <-> Forall free l).
Proof.
  induction 1 as [|q l Hq _ (b & Hb & IH)]; cbn [poses_free]; [by exists true|].
  destruct (radius_cost n q Hq) as (v & Hv & Hfree). unfold mbind, ST_bind. rewrite Hv.
  destruct (blocked true v) eqn:Hbl.
  - exists false. split; [done|]. split; [done|]. intros [Hf _]%list.Forall_cons. by apply Hfree in Hf.
  - exists b. split; [exact Hb|]. rewrite list.Forall_cons, IH. assert (free q) by (by apply Hfree). tauto.
Qed.
End Map.

(** for a robot that is described by a radius, whose pose is known, a path is valid exactly when every pose from the one
    nearest to the robot on lies on the map, in a cell that is neither an obstacle nor within the inscribed radius of one. *)
Theorem path_valid n p path : fst (getRobotPose (W1 := W1) (W2 := W2) (outside n)) = Some p -> costmap_ (members n) = true ->
  let e := snd (getRobotPose (W1 := W1) (W2 := W2) (outside n)) in
  let m := fst (getCostmap (W1 := W1) (W2 := W2) e) in
  fst (getUseRadius (W1 := W1) (W2 := W2) (snd (getCostmap (W1 := W1) (W2 := W2) e))) = true -> poses path <> [] ->
  Costmap.wf m -> Forall (fun q => off_map m (pose_of q) \/ exists x y, on_cell m (pose_of q) x y) (poses path) ->
  exists valid k, fst (isPathValid cos sin path n) = Ok valid /\ nearest (pose_of p) (poses path) k /\
    (valid = true <-> forall i q, (k <= i)%nat -> poses path !! i = Some q -> free m q).
Proof.
  intros Hp Hc e m Hr Hne Hwf Hall. set (k := closest_point (pose_of p) (poses path) 0 0 f32_highest).
  assert (Forall (fun q => off_map m (pose_of q) \/ exists x y, on_cell m (pose_of q) x y) (drop k (poses path))) as Hdrop
    by (by apply Forall_drop).
  unfold isPathValid. rewrite bool_decide_false by done. unfold look, own, query. expose.
  subst m e. destruct (getRobotPose (outside n)) as [o e1]. cbn in Hp, Hr, Hwf, Hdrop |- *. subst o. cbn. rewrite Hc. cbn.
  destruct (getCostmap e1) as [m e2]. cbn in Hr, Hwf, Hdrop |- *.
  destruct (getUseRadius e2) as [u e3]. cbn in Hr |- *. subst u. cbn.
  match goal with |- context [poses_free _ _ _ _ _ ?s] => destruct (poses_free_spec m Hwf (drop k (poses path)) s Hdrop) as (b & Hb & Hfree) end.
  fold k. exists b, k. rewrite Hb. split; [done|]. split; [apply closest_nearest|]. rewrite Hfree, list.Forall_forall. split.
  - intros Hf i q Hi Hq. apply Hf. apply list_elem_of_lookup. exists (i - k)%nat. rewrite lookup_drop. by replace (k + (i - k))%nat with i by lia.
  - intros Hf q Hq. apply list_elem_of_lookup in Hq as [i Hq]. rewrite lookup_drop in Hq. apply (Hf (k + i)%nat q); [lia|done].
Qed.
End Service.

(** ** Runs *)

Import Book.

(** The clock advances by one at each reading; for each action another thread makes the next list of moves. *)
Record world : Type := mk_world {
  clock : Z;
  pose_script : list (list (move ToPose));
  poses_script : list (list (move ThroughPoses));
  robot : option pose;
  map_of : Costmap.costmap;
  radius : bool;
  starts : bool }.

Definition at_point (x y : Z) : pose := mk_pose (f64_of_Z x) (f64_of_Z y) f64_zero identity_rotation.
Definition turned : quaternion := mk_quaternion f64_zero f64_zero (f64_of_Z 1) f64_zero.
Definition stamped (p : pose) : PoseStamped := mk_pose_stamped (mk_header (0, 0) "map") p.
Definition no_goal : ToPose := mk_to_pose new_pose_stamped new_pose_stamped "" false.
Definition no_goals : ThroughPoses := mk_through_poses [] new_pose_stamped "" false.

#[local] Instance pose_book : GoalHandles (book ToPose Result) ToPose Result () := book_handles no_goal new_result.
#[local] Instance pose_book_laws : GoalHandleLaws (book ToPose Result) ToPose Result () := book_laws no_goal new_result.
#[local] Instance poses_book : GoalHandles (book ThroughPoses Result) ThroughPoses Result () := book_handles no_goals new_result.
#[local] Instance poses_book_laws : GoalHandleLaws (book ThroughPoses Result) ThroughPoses Result () := book_laws no_goals new_result.

#[local] Instance pose_others : Others (book ToPose Result) world := fun e s =>
  match pose_script e with
  | [] => (s, e)
  | l :: rest => (make_moves (F := ()) no_goal new_result l s,
                  mk_world (clock e) rest (poses_script e) (robot e) (map_of e) (radius e) (starts e))
  end.
#[local] Instance poses_others : Others (book ThroughPoses Result) world := fun e s =>
  match poses_script e with
  | [] => (s, e)
  | l :: rest => (make_moves (F := ()) no_goals new_result l s,
                  mk_world (clock e) (pose_script e) rest (robot e) (map_of e) (radius e) (starts e))
  end.
#[local] Instance pose_others_laws : OtherLaws (G := ToPose) (R := Result) (F := ()) (W := book ToPose Result) (E := world).
Proof. intros e s _. unfold others, pose_others. destruct (pose_script e); [constructor|]. apply moves_steps. Qed.
#[local] Instance poses_others_laws : OtherLaws (G := ThroughPoses) (R := Result) (F := ()) (W := book ThroughPoses Result) (E := world).
Proof. intros e s _. unfold others, poses_others. destruct (poses_script e); [constructor|]. apply moves_steps. Qed.

#[local] Instance demo_clock : Clock world := fun e =>
  (clock e, mk_world (clock e + 1) (pose_script e) (poses_script e) (robot e) (map_of e) (radius e) (starts e)).
#[local] Instance plain_hypot : Hypot := {| hypot := Footprint.demo_hypot; hypotf a b := a |}.
#[local] Instance plain_clocks : Clocks := {|
  time_of_stamp s := Prelude.Returned (fst s);
  stamp_of_time t := (t, 0);
  elapsed t t0 := Prelude.Returned (t - t0) |}.
#[local] Instance plain_angles : Angles := {| getYaw _ := f64_zero; shortest_angular_distance _ _ := f64_zero |}.
#[local] Instance plain_buckets : Buckets := fun l => l.

(** A robot of two points. *)
Definition two_points : list Footprint.Point := [FootprintLaws.demo_point (0, 0); FootprintLaws.demo_point (1, 0); FootprintLaws.demo_point (1, 1)].

#[local] Instance demo_surroundings : PlannerSurroundings (book ToPose Result) (book ThroughPoses Result) world := {|
  costmap_configure e := (tt, e);
  costmap_activate e := (starts e, e);
  costmap_deactivate e := (tt, e);
  costmap_cleanup e := (tt, e);
  isCurrent e := (true, e);
  getCostmap e := (map_of e, e);
  getUseRadius e := (radius e, e);
  getRobotFootprint e := (two_points, e);
  getRobotPose e := (stamped <$> robot e, e);
  transformPoseToGlobalFrame p e := (Some p, e);
  plan_subscriptions e := (1, e);
  deadline_passed e := (true, e);
  pose_handles e := (mk_book [] [], e);
  poses_handles e := (mk_book [] [], e) |}.

(** A planner that goes straight, and stays where it is if the goal has the same position. *)
Definition straight (s g : PoseStamped) : Path :=
  mk_path (mk_header (0, 0) "map")
    (if f64_eq (px (pose_of s)) (px (pose_of g)) && f64_eq (py (pose_of s)) (py (pose_of g)) then [s] else [s; g]).
#[local] Instance demo_planners : Planners () world := {|
  load_planner _ e := (Prelude.Returned tt, e);
  planner_configure _ k e := (Prelude.Returned tt, k, e);
  planner_cleanup k e := (Prelude.Returned tt, k, e);
  planner_activate k e := (Prelude.Returned tt, k, e);
  planner_deactivate k e := (Prelude.Returned tt, k, e);
  createPlan s g k e := PlannerServer.AskCancel e (fun cancelled e =>
    Planned (if cancelled then Raised planner_cancelled else Prelude.Returned (straight s g)) k e) |}.

Definition demo_members (publisher : option bool) : planner () :=
  mk_planner {["GridBased"%string := ()]} ["GridBased"%string] f64_zero 1000 publisher true true true true true true.
Definition empty_map : Costmap.costmap := FootprintLaws.demo_map [0; 0; 0; 0; 0; 0; 0; 0; 0; 0; 0; 0].
Definition demo_world l l' : world := mk_world 0 l l' (Some (at_point 0 0)) empty_map true true.

Definition pose_node (g : ToPose) (l : list (list (move ToPose))) : node (book ToPose Result) world (planner ()) Path :=
  mk_node (demo_members (Some true)) (Some (serving (F := ()) no_goal new_result g)) (demo_world l []) [].
Definition poses_node (g : ThroughPoses) (l : list (list (move ThroughPoses))) :
    node (book ThroughPoses Result) world (planner ()) Path :=
  mk_node (demo_members (Some true)) (Some (serving (F := ()) no_goals new_result g)) (demo_world [] l) [].

Definition ends_at (r : Result) : option pose := pose_of <$> last (poses (result_path r)).
Definition pose_answers {G C} (n : node (book G Result) world C Path) : list (nat * option pose * Z) :=
  match server_of n with Some s => map (fun x => (fst x, ends_at (snd x), error_code (snd x))) (results (handles s)) | None => [] end.

Definition to_pose (x y : Z) (id : string) : ToPose := mk_to_pose (stamped (at_point x y)) new_pose_stamped id false.

(** A plan; a goal that is cancelled while it is planned; a planner that does not exist. *)
Example run_plans : let n := pose_node (to_pose 3 0 "") [] in
  (fst (computePlan 9 n), pose_answers (snd (computePlan 9 n)), map (fun p => List.length (poses p)) (sent (snd (computePlan 9 n)))) =
  (Ok Succeeded, [(1%nat, Some (at_point 3 0), NONE)], [2%nat]).
Proof. vm_compute. reflexivity. Qed.
Example plan_cancelled : let n := pose_node (to_pose 3 0 "") [[]; []; []; []; [Book.AskCancel 1]] in
  (fst (computePlan 9 n), pose_answers (snd (computePlan 9 n))) = (Ok Cancelled, [(1%nat, None, NONE)]).
Proof. vm_compute. reflexivity. Qed.
Example run_unknown : let n := pose_node (to_pose 3 0 "other") [] in
  (fst (computePlan 9 n), pose_answers (snd (computePlan 9 n))) = (Ok (Failed INVALID_PLANNER), [(1%nat, None, 201)]).
Proof. vm_compute. reflexivity. Qed.

(** The goal that preempts is accepted, but it is given a path to the goal before. *)
Example preempted_goal : let n := pose_node (to_pose 3 0 "") [[]; []; []; [Arrive 2 (to_pose 0 7 "")]] in
  (fst (computePlan 9 n), pose_answers (snd (computePlan 9 n))) =
  (Ok Succeeded, [(1%nat, None, NONE); (2%nat, Some (at_point 3 0), NONE)]).
Proof. vm_compute. reflexivity. Qed.

(** A leg of one pose is dropped: the robot does not turn at the end of the path. *)
Definition turn_at_three : ThroughPoses := mk_through_poses
  [stamped (at_point 3 0); stamped (mk_pose (f64_of_Z 3) f64_zero f64_zero turned)] new_pose_stamped "" false.
Example last_leg_dropped : let n := poses_node turn_at_three [] in
  (fst (computePlanThroughPoses 9 n), pose_answers (snd (computePlanThroughPoses 9 n))) =
  (Ok Succeeded, [(1%nat, Some (at_point 3 0), NONE)]).
Proof. vm_compute. reflexivity. Qed.

(** Without a pose of the robot every path is valid; with a footprint, an unknown cell hides an obstacle. *)
Definition wall : Costmap.costmap := FootprintLaws.demo_map [0; 0; 0; 0; 0; 254; 0; 0; 0; 0; 0; 0].
Definition hidden_wall : Costmap.costmap := FootprintLaws.demo_map [0; 255; 0; 0; 0; 254; 0; 0; 0; 0; 0; 0].
Definition valid_on (m : Costmap.costmap) (robot : option pose) (radius : bool) (l : list (Z * Z)) : res bool :=
  fst (isPathValid (W := book ToPose Result) (P := ()) (fun _ => f64_of_Z 1) (fun _ => f64_zero)
         (mk_path no_header (map (fun q => stamped (at_point (fst q) (snd q))) l))
         (mk_node (demo_members (Some true)) None (mk_world 0 [] [] robot m radius true) [])).
Example lost_robot : valid_on wall None true [(0, 0); (1, 1)] = Ok true /\ valid_on wall (Some (at_point 0 0)) true [(0, 0); (1, 1)] = Ok false.
Proof. split; vm_compute; reflexivity. Qed.
Example hidden_obstacle : valid_on wall (Some (at_point 0 0)) false [(0, 0)] = Ok false /\
  valid_on hidden_wall (Some (at_point 0 0)) false [(0, 0)] = Ok true.
Proof. split; vm_compute; reflexivity. Qed.

(** A costmap that does not start leaves both action servers active, and a node that was cleaned up still has
    its service, which reads the costmap that is gone. *)
#[local] Instance plain_durations : Durations := {|
  from_seconds x := match f64_to_int 64 x with Ok z => z | _ => 0 end;
  seconds z := f64_of_Z z |}.
#[local] Instance no_parameters : NodeParameters := fun _ => None.

Definition demo_start (starts : bool) : res bool * planner_node (book ToPose Result) (book ThroughPoses Result) world () :=
  match new (mk_world 0 [] [] (Some (at_point 0 0)) empty_map true starts) with
  | Ok n => (_ ← on_configure; on_activate) n
  | _ => (UB, mk_planner_node (demo_members None) None None (demo_world [] []) [])
  end.

Definition active_servers (n : planner_node (book ToPose Result) (book ThroughPoses Result) world ()) : option (bool * bool) :=
  match action_server_pose_ n, action_server_poses_ n with
  | Some s1, Some s2 => Some (server_active s1, server_active s2)
  | _, _ => None
  end.

Example failed_activation : (fst (demo_start false), active_servers (snd (demo_start false))) = (Ok false, Some (true, true)).
Proof. vm_compute. reflexivity. Qed.

Example service_after_cleanup : let '(r, n) := (_ ← on_deactivate 9; on_cleanup) (snd (demo_start true)) in
  (r, is_path_valid_service_ (shared n),
   fst (on_pose (isPathValid (fun _ => f64_of_Z 1) (fun _ => f64_zero) (straight (stamped (at_point 0 0)) (stamped (at_point 1 0)))) n)) =
  (Ok true, true, UB).
Proof. vm_compute. reflexivity. Qed.

(** ** Witnesses *)

Definition demo_pose_node := pose_node (to_pose 3 0 "") [[]; []; []; [Arrive 2 (to_pose 0 7 "")]].
Definition demo_poses_node :=
  poses_node (mk_through_poses [stamped (at_point 3 0); stamped (at_point 3 2)] new_pose_stamped "" false) [].

Lemma plan_answers_witness : fst (computePlan 9 demo_pose_node) = Ok Succeeded /\
  over (snd (computePlan 9 demo_pose_node)) /\ exists path, planned (W2 := book ThroughPoses Result) (P := ()) (E := world) (Some (to_pose 3 0 "")) path /\
    sent (snd (computePlan 9 demo_pose_node)) = [path].
Proof.
  destruct (plan_answers (W1 := book ToPose Result) (W2 := book ThroughPoses Result) (E := world) (P := ()) ltac:(by intros e) 9 true [] demo_pose_node)
    as (t & g & n' & (m & Hl & Ha) & Hans).
  { split; [|by split]. eexists. split; [reflexivity|]. apply serving_held. }
  assert (fst (computePlan 9 demo_pose_node) = Ok Succeeded) as Hr by (vm_compute; reflexivity).
  split; [exact Hr|]. rewrite Hr in Hans. destruct Hans as (Ho & path & t' & [Hp _] & _ & Hs).
  split; [exact Ho|]. exists path. split; [|exact Hs].
  assert (g = Some (to_pose 3 0 "")) as <-; [|exact Hp].
  vm_compute in Hl. injection Hl as <- <-. vm_compute in Ha. by injection Ha as <- _.
Defined.

Lemma plan_through_witness : fst (computePlanThroughPoses 9 demo_poses_node) = Ok Succeeded /\
  over (snd (computePlanThroughPoses 9 demo_poses_node)).
Proof.
  destruct (plan_through (W1 := book ToPose Result) (W2 := book ThroughPoses Result) (E := world) (P := ()) ltac:(by intros e) 9 true [] demo_poses_node)
    as (t & g & n' & _ & Hans).
  { split; [|by split]. eexists. split; [reflexivity|]. apply serving_held. }
  assert (fst (computePlanThroughPoses 9 demo_poses_node) = Ok Succeeded) as Hr by (vm_compute; reflexivity).
  split; [exact Hr|]. rewrite Hr in Hans. exact (proj1 Hans).
Defined.

Lemma path_valid_witness : exists k, nearest (at_point 0 0) [stamped (at_point 0 0); stamped (at_point 1 1)] k /\
  ~ forall i q, (k <= i)%nat -> [stamped (at_point 0 0); stamped (at_point 1 1)] !! i = Some q -> free wall q.
Proof.
  set (l := [stamped (at_point 0 0); stamped (at_point 1 1)]).
  set (n := mk_node (W := book ToPose Result) (M := Path) (demo_members (Some true)) None (mk_world 0 [] [] (Some (at_point 0 0)) wall true true) []).
  assert (Costmap.wf wall) as Hwf by (by constructor; vm_compute; repeat constructor).
  destruct (path_valid (W := book ToPose Result) (PlannerSurroundings0 := demo_surroundings) (P := ()) (fun _ => f64_of_Z 1) (fun _ => f64_zero) n (stamped (at_point 0 0))
    (mk_path no_header l) eq_refl eq_refl eq_refl ltac:(discriminate) Hwf) as (valid & k & Hv & Hk & Hiff).
  - constructor; [right; exists 0, 0; vm_compute; done|]. constructor; [right; exists 1, 1; vm_compute; done|constructor].
  - exists k. split; [exact Hk|]. intros Hf. apply Hiff in Hf. rewrite Hf in Hv. vm_compute in Hv. discriminate Hv.
Defined.
End PlannerLaws.
