(* ===== verification/CostmapTopics.v ===== *)
(** * The costmap and the footprint of other nodes ([nav2_costmap_2d]: [costmap_subscriber.cpp],
    [footprint_subscriber.cpp], [costmap_topic_collision_checker.cpp]; [nav2_util/robot_utils.cpp])

    A node that has no costmap of its own subscribes to the one that another node publishes, and to its
    footprint, and asks whether the robot would be free of collisions at a pose. A costmap
    that arrives is only stored until it is needed; updates are rectangles of it. The mutexes and
    logging are left out. *)

From stdpp Require Import base option list numbers strings.
From Stdlib Require Import ZArith Lia SpecFloat String.
From S2P Require Import Prelude Float64 Costmap Footprint ArrayParser FootprintCollision NavFn CollisionZones CollisionSources VelocitySmoother NavMessages.

Import Messages.

(** [tf2_ros::Buffer::transform] with a timeout in seconds. *)
Class TimedTransforms (E : Type) : Type := transform_within : PoseStamped -> string -> f64 -> E -> outcome PoseStamped * E.

(** ** The pose of the robot *)

Module RobotPose.
Section RobotPose.
Context {E : Type} `{!TimedTransforms E} `{!Clocks}.

(** All exceptions of transforms are caught. *)
Definition transformPoseInTargetFrame (input_pose : PoseStamped) (target_frame : string) (transform_timeout : f64) :
    ST E (option PoseStamped) := fun e =>
  match transform_within input_pose target_frame transform_timeout e with
  | (Returned p, e) => (Ok (Some p), e)
  | (Raised x, e) =>
      if bool_decide (x = transform_exception \/ x = extrapolation_exception) then (Ok None, e) else (Throw x, e)
  end.

(** [stamp] is a time of the client library. *)
Definition getCurrentPose (global_frame robot_frame : string) (transform_timeout : f64) (stamp : Z) :
    ST E (option PoseStamped) :=
  transformPoseInTargetFrame (mk_pose_stamped (mk_header (stamp_of_time stamp) robot_frame) new_pose) global_frame
    transform_timeout.
End RobotPose.
End RobotPose.

(** ** Costmaps *)

Module CostmapSubscriber.
Import Costmap.

(** The resolution is a [float]. *)
Record CostmapMsg : Type := mk_costmap_msg {
  meta_size_x : Z; meta_size_y : Z; meta_resolution : spec_float; meta_x : f64; meta_y : f64; msg_data : list Z }.
Record CostmapUpdate : Type := mk_update {
  upd_x : Z; upd_y : Z; upd_size_x : Z; upd_size_y : Z; upd_data : list Z }.

Record subscriber : Type := mk_subscriber { costmap_ : option costmap; costmap_msg_ : option CostmapMsg }.

Definition new_subscriber : subscriber := mk_subscriber None None.

Definition isCostmapReceived (s : subscriber) : bool := bool_decide (is_Some (costmap_ s)).

Definition hasCostmapSizeChanged (c : costmap) (m : CostmapMsg) : bool :=
  negb (getSizeInCellsX c =? meta_size_x m) || negb (getSizeInCellsY c =? meta_size_y m).
Definition hasCostmapResolutionChanged (c : costmap) (m : CostmapMsg) : bool :=
  negb (f64_eq (resolution c) (f64_of_f32 (meta_resolution m))).
Definition hasCostmapOriginPositionChanged (c : costmap) (m : CostmapMsg) : bool :=
  negb (f64_eq (origin_x c) (meta_x m)) || negb (f64_eq (origin_y c) (meta_y m)).
Definition haveCostmapParametersChanged (c : costmap) (m : CostmapMsg) : bool :=
  hasCostmapSizeChanged c m || hasCostmapResolutionChanged c m || hasCostmapOriginPositionChanged c m.

Section Memory.
Context (garbage : nat -> Z).

(** The data of the message is copied whole. *)
Definition processCurrentCostmapMsg (s : subscriber) : res subscriber :=
  match costmap_ s, costmap_msg_ s with
  | Some c, Some m =>
      c ← (if haveCostmapParametersChanged c m
           then resizeMap garbage (meta_size_x m) (meta_size_y m) (f64_of_f32 (meta_resolution m)) (meta_x m) (meta_y m) c
           else Ok c);
      l ← memcpy (cells c) 0 (msg_data m) 0 (Z.of_nat (List.length (msg_data m)));
      Ok (mk_subscriber (Some (set_cells l c)) None)
  | _, _ => UB
  end.

Definition process_pending (s : subscriber) : res subscriber :=
  match costmap_msg_ s with Some _ => processCurrentCostmapMsg s | None => Ok s end.

(** The costmap that is returned is the one of the result. *)
Definition getCostmap (s : subscriber) : res subscriber :=
  if negb (isCostmapReceived s) then Throw runtime_error else process_pending s.

Definition costmapCallback (m : CostmapMsg) (s : subscriber) : res subscriber :=
  if isCostmapReceived s then Ok (mk_subscriber (costmap_ s) (Some m)) else
  c ← new garbage (meta_size_x m) (meta_size_y m) (f64_of_f32 (meta_resolution m)) (meta_x m) (meta_y m) FREE_SPACE;
  processCurrentCostmapMsg (mk_subscriber (Some c) (Some m)).

(** The sums of unsigned numbers wrap around; the index of a row is a [size_t]. *)
Definition update_rejected (c : costmap) (u : CostmapUpdate) : bool :=
  (getSizeInCellsX c <? wrapu 32 (upd_x u + upd_size_x u)) || (getSizeInCellsY c <? wrapu 32 (upd_y u + upd_size_y u)).

Definition costmapUpdateCallback (u : CostmapUpdate) (s : subscriber) : res subscriber :=
  if negb (isCostmapReceived s) then Ok s else
  s ← process_pending s;
  match costmap_ s with
  | None => UB
  | Some c =>
      if update_rejected c u then Ok s else
      l ← copy_rows (Z.to_nat (upd_size_y u)) (upd_data u) 0 (upd_size_x u)
            (cells c) (upd_y u * getSizeInCellsX c + upd_x u) (getSizeInCellsX c) (upd_size_x u);
      Ok (mk_subscriber (Some (set_cells l c)) (costmap_msg_ s))
  end.
End Memory.
End CostmapSubscriber.

(** ** Footprints *)

Module FootprintSubscriber.
Import Footprint RobotPose.

Record subscriber : Type := mk_subscriber {
  robot_base_frame_ : string;
  transform_tolerance_ : f64;
  footprint_received_ : bool;
  footprint_msg_ : option (Header * list Point32) }.

Definition new_subscriber (robot_base_frame : string) (transform_tolerance : f64) : subscriber :=
  mk_subscriber robot_base_frame transform_tolerance false None.

Definition footprint_callback (m : Header * list Point32) (s : subscriber) : subscriber :=
  mk_subscriber (robot_base_frame_ s) (transform_tolerance_ s) true (Some m).

(** None when no footprint was received. *)
Definition getFootprintRaw (s : subscriber) : res (option (list Point * Header)) :=
  if negb (footprint_received_ s) then Ok None else
  match footprint_msg_ s with
  | None => UB
  | Some (h, polygon) => Ok (Some (toPointVector polygon, h))
  end.

Section Frame.
Context {E : Type} `{!TimedTransforms E} `{!Clocks} `{!Angles} `{!Mathematics}.

(** A question to the world from a method that writes a footprint. *)
Definition in_world {A} (c : ST E A) : ST (list Point * E) A := fun s =>
  let '(r, e) := c (snd s) in (r, (fst s, e)).
Definition write (footprint : list Point) : ST (list Point * E) () := modify (fun s => (footprint, snd s)).

(** The footprint is written even if the frame of the robot is not known then. *)
Definition getFootprintInRobotFrame (s : subscriber) : ST (list Point * E) bool :=
  raw ← query (fun _ => getFootprintRaw s);
  match raw with
  | None => mret false
  | Some (footprint, h) =>
      _ ← write footprint;
      time ← query (fun _ => of_outcome (time_of_stamp (stamp h)));
      p ← in_world (getCurrentPose (frame_id h) (robot_base_frame_ s) (transform_tolerance_ s) time);
      match p with
      | None => mret false
      | Some p =>
          let theta := getYaw (orientation (pose_of p)) in
          let temp := transformFootprint cos sin (SFopp (px (pose_of p))) (SFopp (py (pose_of p))) f64_zero footprint [] in
          _ ← write (transformFootprint cos sin f64_zero f64_zero (SFopp theta) temp footprint);
          mret true
      end
  end.
End Frame.
End FootprintSubscriber.

(** ** The checker *)

Module TopicChecker.
Import Costmap Footprint FootprintCollision CostmapSubscriber(getCostmap, costmapCallback, costmapUpdateCallback, costmap_).
Import FootprintSubscriber(getFootprintInRobotFrame) ArrayParser.

(** The checker and its subscribers. The footprint is fixed if there is no subscriber; the costmap of the
    footprint checker is null or the one of the subscriber, which is an object that never changes its place. *)
Record checker (E : Type) : Type := mk_checker {
  costmap_sub_ : CostmapSubscriber.subscriber;
  footprint_sub_ : option FootprintSubscriber.subscriber;
  footprint_ : list Point;
  has_costmap : bool;
  tf_world : E }.
Arguments mk_checker {E}.
Arguments costmap_sub_ {E}.
Arguments footprint_sub_ {E}.
Arguments footprint_ {E}.
Arguments has_costmap {E}.
Arguments tf_world {E}.

Definition set_costmap_sub {E} s (c : checker E) : checker E :=
  mk_checker s (footprint_sub_ c) (footprint_ c) (has_costmap c) (tf_world c).
Definition set_footprint_sub {E} s (c : checker E) : checker E :=
  mk_checker (costmap_sub_ c) s (footprint_ c) (has_costmap c) (tf_world c).
Definition set_footprint {E} fp (e : E) (c : checker E) : checker E :=
  mk_checker (costmap_sub_ c) (footprint_sub_ c) fp (has_costmap c) e.
Definition set_costmap {E} (c : checker E) : checker E :=
  mk_checker (costmap_sub_ c) (footprint_sub_ c) (footprint_ c) true (tf_world c).

(** The two constructors; the second one reads the footprint from a string. *)
Definition new_checker {E} costmap_sub footprint_sub (e : E) : checker E := mk_checker costmap_sub (Some footprint_sub) [] false e.

Definition new_checker_from_string `{NumberReader} {E} costmap_sub (footprint_string : list Ascii.ascii) (e : E) : res (checker E) :=
  match makeFootprintFromString footprint_string [] with
  | (true, fp) => Ok (mk_checker costmap_sub None fp false e)
  | (false, _) => Throw collision_checker_exception
  end.

Section Checker.
Context {E : Type} `{!TimedTransforms E} `{!Clocks} `{!Angles} `{!Mathematics} (garbage : nat -> Z).

(** [collision_checker_.setCostmap(costmap_sub_.getCostmap())] *)
Definition fetch_costmap : ST (checker E) () := fun c =>
  match getCostmap garbage (costmap_sub_ c) with
  | Ok s => (Ok tt, set_costmap (set_costmap_sub s c))
  | Throw runtime_error => (Throw collision_checker_exception, c)
  | Throw e => (Throw e, c)
  | UB => (UB, c)
  end.

(** The costmap of the footprint checker. *)
Definition checked_costmap : ST (checker E) costmap :=
  query (fun c => if has_costmap c then match costmap_ (costmap_sub_ c) with Some m => Ok m | None => UB end else UB).

Definition fetch_footprint : ST (checker E) () := fun c =>
  match footprint_sub_ c with
  | None => (Ok tt, c)
  | Some s =>
      let '(r, (fp, e)) := getFootprintInRobotFrame s (footprint_ c, tf_world c) in
      (match r with Ok true => Ok tt | Ok false => Throw collision_checker_exception | Throw e => Throw e | UB => UB end,
       set_footprint fp e c)
  end.

Definition getFootprint (p : Pose2D) (fetch_latest_footprint : bool) : ST (checker E) (list Point) :=
  _ ← (if fetch_latest_footprint then fetch_footprint else mret tt);
  c ← get;
  mret (transformFootprint cos sin (pose2d_x p) (pose2d_y p) (pose2d_theta p) (footprint_ c) []).

Definition scorePose (p : Pose2D) (fetch_costmap_and_footprint : bool) : ST (checker E) f64 :=
  _ ← (if fetch_costmap_and_footprint then fetch_costmap else mret tt);
  m ← checked_costmap;
  '(inside, _) ← query (fun _ => worldToMap (pose2d_x p) (pose2d_y p) m);
  if negb (inside : bool) then throw illegal_pose_exception else
  fp ← getFootprint p fetch_costmap_and_footprint;
  query (fun _ => footprintCost fp m).

(** Every exception is caught. *)
Definition isCollisionFree (p : Pose2D) (fetch_costmap_and_footprint : bool) : ST (checker E) bool :=
  try_all (score ← scorePose p fetch_costmap_and_footprint; mret (negb (f64_le lethal score))) (mret false).
End Checker.
End TopicChecker.
