(* ===== verification/TopicLaws.v ===== *)
(** * Laws of the costmap subscriber and of the collision checker

    The subscriber, which stores messages until they are needed, shows the map that an eager one would;
    the checker finds a pose free exactly when the outline of the robot is free in that map. *)

From stdpp Require Import base option list numbers strings.
From Stdlib Require Import ZArith Lia SpecFloat String.
From S2P Require Import Prelude Float64 Costmap CostmapPolygon Footprint FootprintCollision NavFn NavfnPlanner CollisionZones CollisionSources VelocitySmoother NavMessages CostmapTopics.

Import Messages.

Module SubscriberLaws.
Import Costmap CostmapSubscriber.

(** ** An eager subscriber *)

(** The last costmap message with the updates since. *)
Definition shown : Type := option CostmapMsg.

(** The cells of an update lie over those of the map. *)
Definition overlay (u : CostmapUpdate) (w : Z) (l : list Z) : list Z :=
  imap (fun i c =>
    let x := Z.of_nat i mod w in
    let y := Z.of_nat i / w in
    if within (upd_x u) (upd_size_x u) x && within (upd_y u) (upd_size_y u) y
    then default c (at_cell (upd_size_x u) (upd_data u) (x - upd_x u) (y - upd_y u)) else c) l.

Definition fits (u : CostmapUpdate) (m : CostmapMsg) : bool :=
  (upd_x u + upd_size_x u <=? meta_size_x m) && (upd_y u + upd_size_y u <=? meta_size_y m).

Definition set_data l (m : CostmapMsg) : CostmapMsg :=
  mk_costmap_msg (meta_size_x m) (meta_size_y m) (meta_resolution m) (meta_x m) (meta_y m) l.

Inductive event : Type := Received (m : CostmapMsg) | Updated (u : CostmapUpdate) | Asked.

Definition show (r : shown) (e : event) : shown :=
  match e with
  | Received m => Some m
  | Updated u => (fun m => if fits u m then set_data (overlay u (meta_size_x m) (msg_data m)) m else m) <$> r
  | Asked => r
  end.

(** ** The subscriber *)

Section Subscriber.
Context (garbage : nat -> Z) (bytes : forall i, in_u 8 (garbage i)).

(** A request while no costmap was received changes nothing. *)
Definition handle (s : subscriber) (e : event) : res subscriber :=
  match e with
  | Received m => costmapCallback garbage m s
  | Updated u => costmapUpdateCallback garbage u s
  | Asked => match getCostmap garbage s with Throw _ => Ok s | r => r end
  end.

Fixpoint run (l : list event) (s : subscriber) : res subscriber :=
  match l with
  | [] => Ok s
  | e :: l => s ← handle s e; run l s
  end.

(** Messages whose data has the size they declare. *)
Record good_map (m : CostmapMsg) : Prop := {
  good_x : 0 <= meta_size_x m < 2 ^ 31;
  good_y : 0 <= meta_size_y m < 2 ^ 31;
  good_area : meta_size_x m * meta_size_y m < 2 ^ 32;
  good_length : Z.of_nat (List.length (msg_data m)) = meta_size_x m * meta_size_y m;
  good_bytes : Forall (in_u 8) (msg_data m) }.

Record good_update (u : CostmapUpdate) : Prop := {
  good_ux : 0 <= upd_x u /\ 0 <= upd_size_x u /\ upd_x u + upd_size_x u < 2 ^ 32;
  good_uy : 0 <= upd_y u /\ 0 <= upd_size_y u /\ upd_y u + upd_size_y u < 2 ^ 32;
  good_ulength : Z.of_nat (List.length (upd_data u)) = upd_size_x u * upd_size_y u;
  good_ubytes : Forall (in_u 8) (upd_data u) }.

Definition good (e : event) : Prop :=
  match e with Received m => good_map m | Updated u => good_update u | Asked => True end.

(** Numbers that are equal as numbers or the same. *)
Definition same_float (a b : f64) : Prop := a = b \/ f64_eq a b = true.

(** The costmap shows the message. *)
Record shows (c : costmap) (m : CostmapMsg) : Prop := {
  shows_x : size_x c = meta_size_x m;
  shows_y : size_y c = meta_size_y m;
  shows_resolution : same_float (resolution c) (f64_of_f32 (meta_resolution m));
  shows_origin_x : same_float (origin_x c) (meta_x m);
  shows_origin_y : same_float (origin_y c) (meta_y m);
  shows_cells : cells c = msg_data m }.

Lemma copy_all l src : List.length l = List.length src ->
  memcpy l 0 src 0 (Z.of_nat (List.length src)) = Ok src.
Proof.
  intros Hl. unfold memcpy. destruct (Z.eqb_spec (Z.of_nat (List.length src)) 0) as [Hz|Hz].
  - destruct src; [|done]. by destruct l.
  - rewrite bool_decide_eq_true_2 by lia. cbn [require mbind res_bind]. f_equal.
    change (Z.to_nat 0) with 0%nat. rewrite Z.add_0_l, Nat2Z.id, <- Hl at 1.
    rewrite (drop_ge l) by lia. rewrite Hl, firstn_all. by rewrite app_nil_r.
Qed.

Lemma allocated_bytes n : Forall (in_u 8) (allocate garbage n).
Proof. unfold allocate. apply Forall_fmap, list.Forall_forall. intros i _. apply bytes. Qed.

(** A map of fresh memory that is then set to the default value. *)
Lemma reset_new sx sy resol ox oy d : 0 <= sx < 2 ^ 31 -> 0 <= sy < 2 ^ 31 -> sx * sy < 2 ^ 32 -> in_u 8 d ->
  exists l, resetMaps (initMaps garbage sx sy (mk_costmap 0 0 resol ox oy [] d)) = Ok (mk_costmap sx sy resol ox oy l d) /\
    wf (mk_costmap sx sy resol ox oy l d).
Proof.
  intros Hx Hy Ha Hd. unfold initMaps. cbn [set_sizes set_cells size_x size_y resolution origin_x origin_y cells default_value].
  assert (0 <= sx * sy) as Hpos by (apply Z.mul_nonneg_nonneg; lia). rewrite wrapu_id by (unfold in_u; lia).
  set (m := mk_costmap sx sy resol ox oy (allocate garbage (sx * sy)) d).
  assert (wf m) as Hwf.
  { constructor; cbn; try done. - apply allocate_length. nia. - apply allocated_bytes. }
  destruct (resetMaps_spec m Hwf) as (l & Hr & Hl & Hv). exists l.
  split; [exact Hr|].
  destruct (wf_rewritten m l (fun _ _ => Some d) m Hwf Hl) as [Hw _]; try done.
  by intros x y c _ [= <-].
Qed.

Lemma new_wf m : good_map m -> exists c,
  new garbage (meta_size_x m) (meta_size_y m) (f64_of_f32 (meta_resolution m)) (meta_x m) (meta_y m) FREE_SPACE = Ok c /\ wf c.
Proof.
  intros []. destruct (reset_new (meta_size_x m) (meta_size_y m) (f64_of_f32 (meta_resolution m)) (meta_x m) (meta_y m) FREE_SPACE)
    as (l & Hr & Hw); try done. by eexists.
Qed.

Lemma resize_wf c m : wf c -> good_map m -> exists l, resizeMap garbage (meta_size_x m) (meta_size_y m)
    (f64_of_f32 (meta_resolution m)) (meta_x m) (meta_y m) c =
    Ok (mk_costmap (meta_size_x m) (meta_size_y m) (f64_of_f32 (meta_resolution m)) (meta_x m) (meta_y m) l (default_value c)) /\
  wf (mk_costmap (meta_size_x m) (meta_size_y m) (f64_of_f32 (meta_resolution m)) (meta_x m) (meta_y m) l (default_value c)).
Proof. intros Hc []. by apply reset_new; try apply wf_default. Qed.

Lemma process_spec c m : wf c -> good_map m -> exists c',
  processCurrentCostmapMsg garbage (mk_subscriber (Some c) (Some m)) = Ok (mk_subscriber (Some c') None) /\ wf c' /\ shows c' m.
Proof.
  intros Hc Hm. unfold processCurrentCostmapMsg. cbn [costmap_ costmap_msg_].
  assert (exists c1, (if haveCostmapParametersChanged c m
      then resizeMap garbage (meta_size_x m) (meta_size_y m) (f64_of_f32 (meta_resolution m)) (meta_x m) (meta_y m) c else Ok c) = Ok c1 /\
    wf c1 /\ size_x c1 = meta_size_x m /\ size_y c1 = meta_size_y m /\ same_float (resolution c1) (f64_of_f32 (meta_resolution m)) /\
    same_float (origin_x c1) (meta_x m) /\ same_float (origin_y c1) (meta_y m)) as (c1 & -> & Hw & Ex & Ey & Er & Eox & Eoy).
  { destruct (haveCostmapParametersChanged c m) eqn:Hch.
    - destruct (resize_wf c m Hc Hm) as (l & -> & Hw). eexists. split; [done|]. split; [done|]. split; [done|]. split; [done|]. split; [by left|]. split; by left.
    - exists c. split; [done|]. split; [done|].
      unfold haveCostmapParametersChanged, hasCostmapSizeChanged, hasCostmapResolutionChanged, hasCostmapOriginPositionChanged in Hch.
      rewrite !orb_false_iff, !negb_false_iff, !Z.eqb_eq in Hch. destruct Hch as [[[? ?] ?] [? ?]]. split; [done|]. split; [done|]. split; [by right|]. split; by right. }
  rewrite bind_Ok, copy_all by (apply Nat2Z.inj; rewrite (good_length m Hm), (wf_cells c1 Hw); congruence).
  rewrite bind_Ok. eexists. split; [done|]. split; [|by split].
  destruct Hw as [W1 W2 W3 W4 W5 W6]. destruct Hm as [? ? ? Hlen Hb]. split; cbn; try done. by rewrite Hlen, Ex, Ey.
Qed.

(** ** Updates *)

Lemma rejected_fits c m u : good_update u -> shows c m -> update_rejected c u = negb (fits u m).
Proof.
  intros [(? & ? & ?) (? & ? & ?) _ _] []. unfold update_rejected, fits, getSizeInCellsX, getSizeInCellsY.
  rewrite !wrapu_id by (unfold in_u; lia). rewrite negb_andb, <- !Z.ltb_antisym. congruence.
Qed.

Lemma overlay_lookup u w l i c : l !! i = Some c -> overlay u w l !! i =
  Some (let x := Z.of_nat i mod w in let y := Z.of_nat i / w in
    if within (upd_x u) (upd_size_x u) x && within (upd_y u) (upd_size_y u) y
    then default c (at_cell (upd_size_x u) (upd_data u) (x - upd_x u) (y - upd_y u)) else c).
Proof. intros Hi. unfold overlay. by rewrite list_lookup_imap, Hi. Qed.

Lemma overlay_length u w l : List.length (overlay u w l) = List.length l.
Proof. apply length_imap. Qed.

Lemma update_cells c u : wf c -> good_update u ->
  upd_x u + upd_size_x u <= size_x c -> upd_y u + upd_size_y u <= size_y c ->
  copy_rows (Z.to_nat (upd_size_y u)) (upd_data u) 0 (upd_size_x u) (cells c) (upd_y u * size_x c + upd_x u) (size_x c) (upd_size_x u) =
    Ok (overlay u (size_x c) (cells c)).
Proof.
  intros Hw [(Ux & Usx & _) (Uy & Usy & _) Ul _] Hx Hy. pose proof Hw as [Wx Wy Wa Wc _ _].
  destruct (copyMapRegion_spec (upd_data u) 0 0 (upd_size_x u) (cells c) (upd_x u) (upd_y u) (size_x c) (upd_size_x u) (upd_size_y u))
    as (l & Hr & Hl & Hv); [lia..|nia|nia|nia|nia|].
  assert (copy_rows (Z.to_nat (upd_size_y u)) (upd_data u) 0 (upd_size_x u) (cells c) (upd_y u * size_x c + upd_x u) (size_x c) (upd_size_x u) = Ok l) as ->.
  { rewrite <- Hr. unfold copyMapRegion. destruct (Z.eqb_spec (upd_size_y u) 0) as [->|]; [done|].
    rewrite !(wrapu_id 32) by (unfold in_u; nia). done. }
  f_equal. apply list_eq. intros i. destruct (cells c !! i) as [v|] eqn:Hi.
  2: { apply lookup_ge_None_1 in Hi. rewrite !lookup_ge_None_2; [done|rewrite overlay_length; lia|lia]. }
  rewrite (overlay_lookup u _ _ _ v Hi). pose proof (lookup_lt_Some _ _ _ Hi) as Hlt.
  assert (0 < size_x c) as Hpos by nia.
  pose proof (Z.mod_pos_bound (Z.of_nat i) (size_x c) Hpos) as Hmod. pose proof (Z.div_mod (Z.of_nat i) (size_x c) ltac:(lia)) as Hdm.
  assert (0 <= Z.of_nat i / size_x c) as Hdiv by (apply Z.div_pos; lia).
  specialize (Hv (Z.of_nat i mod size_x c) (Z.of_nat i / size_x c) Hmod Hdiv). unfold at_cell in Hv.
  replace (Z.to_nat (Z.of_nat i / size_x c * size_x c + Z.of_nat i mod size_x c)) with i in Hv by lia.
  rewrite Hv. cbv zeta. destruct (within_spec (upd_x u) (upd_size_x u) (Z.of_nat i mod size_x c)) as [Bx|],
    (within_spec (upd_y u) (upd_size_y u) (Z.of_nat i / size_x c)) as [By|]; cbn [andb]; try done.
  unfold at_cell. rewrite !Z.add_0_l.
  set (x := Z.of_nat i mod size_x c) in *. set (y := Z.of_nat i / size_x c) in *.
  destruct (lookup_lt_is_Some_2 (upd_data u) (Z.to_nat ((y - upd_y u) * upd_size_x u + (x - upd_x u)))) as [b Hb]; [nia|].
  by rewrite Hb.
Qed.

Lemma overlay_good u m : good_update u -> good_map m -> good_map (set_data (overlay u (meta_size_x m) (msg_data m)) m).
Proof.
  intros [_ _ _ Ub] [? ? ? Hl Hb]. split; cbn; try done; [by rewrite overlay_length|].
  apply list.Forall_forall. intros v Hv. apply list_elem_of_lookup in Hv as [i Hi].
  assert (i < List.length (msg_data m))%nat as Hlt by (rewrite <- (overlay_length u (meta_size_x m)); by eapply lookup_lt_Some).
  destruct (lookup_lt_is_Some_2 _ _ Hlt) as [c Hc]. rewrite (overlay_lookup u _ _ _ c Hc) in Hi. injection Hi as <-.
  pose proof (Forall_lookup_1 _ _ _ _ Hb Hc) as Hcb. destruct (_ && _); [|done].
  unfold at_cell. destruct (upd_data u !! _) as [b|] eqn:Eb; [|done]. exact (Forall_lookup_1 _ _ _ _ Ub Eb).
Qed.

(** ** Refinement *)

(** What the subscriber will show when it is asked. *)
Inductive mirrors : subscriber -> shown -> Prop :=
  | mirrors_none : mirrors new_subscriber None
  | mirrors_pending c m : wf c -> good_map m -> mirrors (mk_subscriber (Some c) (Some m)) (Some m)
  | mirrors_shown c m : wf c -> good_map m -> shows c m -> mirrors (mk_subscriber (Some c) None) (Some m).

Lemma process_pending_spec s m : mirrors s (Some m) ->
  exists c, process_pending garbage s = Ok (mk_subscriber (Some c) None) /\ wf c /\ good_map m /\ shows c m.
Proof.
  intros Hs. inversion Hs as [|c m' Hc Hm|c m' Hc Hm Hsh]; subst; cbn.
  - destruct (process_spec c m Hc Hm) as (c' & Hp & Hw & Hsh). by exists c'.
  - by exists c.
Qed.

Lemma handle_mirrors s r e : good e -> mirrors s r -> exists s', handle s e = Ok s' /\ mirrors s' (show r e).
Proof.
  intros He Hs. destruct r as [m|].
  - assert (exists c, costmap_ s = Some c /\ isCostmapReceived s = true) as (c0 & Hc0 & Hrec) by (inversion Hs; by eexists).
    destruct (process_pending_spec s m Hs) as (c & Hp & Hw & Hm & Hsh).
    destruct e as [m'|u|]; cbn [handle show fmap option_fmap option_map].
    + unfold costmapCallback. rewrite Hrec. eexists. split; [done|]. rewrite Hc0. inversion Hs; subst; cbn in Hc0; simplify_eq; by constructor.
    + unfold costmapUpdateCallback. rewrite Hrec, Hp. cbn [negb]. rewrite bind_Ok. cbn [costmap_ costmap_msg_].
      rewrite (rejected_fits c m u He Hsh). destruct (fits u m) eqn:Hf; cbn [negb].
      * apply andb_prop in Hf as [Hfx%Z.leb_le Hfy%Z.leb_le]. destruct Hsh as [Ex Ey ? ? ? Ec].
        unfold getSizeInCellsX. rewrite update_cells by (done || lia). rewrite bind_Ok. eexists. split; [done|].
        rewrite Ex, Ec. pose proof (overlay_good u m He Hm) as Hg. constructor; [|done|by split].
        destruct Hw as [W1 W2 W3 W4 W5 W6]. destruct Hg as [? ? ? Hl Hb]. split; cbn in *; try done. rewrite Hl. congruence.
      * eexists. split; [done|]. by constructor.
    + unfold getCostmap. rewrite Hrec, Hp. eexists. split; [done|]. by constructor.
  - inversion Hs; subst. destruct e as [m'|u|]; cbn [handle show fmap option_fmap option_map].
    + unfold costmapCallback. change (isCostmapReceived new_subscriber) with false. cbv iota. destruct (new_wf m' He) as (c & -> & Hw). rewrite bind_Ok.
      destruct (process_spec c m' Hw He) as (c' & -> & Hw' & Hsh). eexists. split; [done|]. by constructor.
    + eexists. split; [done|]. constructor.
    + eexists. split; [done|]. constructor.
Qed.

(** C17: whatever messages with data of the size they declare arrive and whenever the costmap is asked for, nothing is written
    outside of the map, and the costmap that a request gets is the one of an eager subscriber: the last message with all updates that
    fit into it since; without a message the request throws. *)
Theorem subscriber_mirrors l : Forall good l -> exists s, run l new_subscriber = Ok s /\
  match fold_left show l None with
  | None => getCostmap garbage s = Throw runtime_error
  | Some m => exists c, getCostmap garbage s = Ok (mk_subscriber (Some c) None) /\ shows c m
  end.
Proof.
  intros Hl.
  assert (forall s r, mirrors s r -> exists s', run l s = Ok s' /\ mirrors s' (fold_left show l r)) as Hrun.
  { induction Hl as [|e l He _ IH]; intros s r Hs; [by exists s|]. cbn.
    destruct (handle_mirrors s r e He Hs) as (s1 & -> & Hs1). rewrite bind_Ok. by apply IH. }
  destruct (Hrun new_subscriber None ltac:(constructor)) as (s & Hs & Hm). exists s. split; [done|].
  destruct (fold_left show l None) as [m|]; [|by inversion Hm; subst].
  destruct (process_pending_spec s m Hm) as (c & Hp & _ & _ & Hsh). exists c. split; [|done].
  unfold getCostmap. rewrite Hp. by inversion Hm.
Qed.
End Subscriber.

(** ** Examples *)

Definition no_memory (i : nat) : Z := 7.

Definition demo_msg : CostmapMsg := mk_costmap_msg 3 2 (f64_of_Z 1) f64_zero f64_zero [1; 2; 3; 4; 5; 6].
Definition demo_update : CostmapUpdate := mk_update 1 0 2 2 [20; 30; 50; 60].

Lemma subscriber_mirrors_witness : exists s c,
  run no_memory [Asked; Received demo_msg; Updated demo_update] new_subscriber = Ok s /\
  getCostmap no_memory s = Ok (mk_subscriber (Some c) None) /\ cells c = [1; 20; 30; 4; 50; 60].
Proof.
  destruct (subscriber_mirrors no_memory ltac:(intros i; vm_compute; done) [Asked; Received demo_msg; Updated demo_update]) as (s & Hs & Hm).
  - repeat constructor; vm_compute; done.
  - cbn in Hm. destruct Hm as (c & Hc & Hsh). exists s, c. split; [exact Hs|]. split; [exact Hc|]. exact (shows_cells _ _ Hsh).
Defined.

(** The sum of a position and a size wraps around: the update is accepted and written outside of the map. *)
Example update_wraps :
  run no_memory [Received demo_msg; Updated (mk_update (2 ^ 32 - 1) 0 1 1 [99])] new_subscriber = UB.
Proof. vm_compute. reflexivity. Qed.

(** A message with more data than cells is written outside of the map. *)
Example data_too_long :
  run no_memory [Received (mk_costmap_msg 1 1 (f64_of_Z 1) f64_zero f64_zero [1; 2])] new_subscriber = UB.
Proof. vm_compute. reflexivity. Qed.
End SubscriberLaws.

(** ** The checker *)

Module CheckerLaws.
Import Costmap Footprint CostmapPolygon FootprintCollision FootprintLaws TopicChecker.

Section Checker.
Context {E : Type} `{!TimedTransforms E} `{!Clocks} `{!Angles} `{!Mathematics} (garbage : nat -> Z).

(** The robot at a pose with this outline, in the map: the pose is in the map, and so is the outline, whose cells are
    neither obstacles nor unknown. *)
Definition clear (m : costmap) (p : Pose2D) (fp : list Point) : Prop :=
  (exists d, worldToMap (pose2d_x p) (pose2d_y p) m = Ok (true, Some (loc_x d, loc_y d))) /\
  exists l, Forall2 (located m) fp l /\
    forall d v, d ∈ outline_of l -> cell m (loc_x d) (loc_y d) = Some v -> v < LETHAL_OBSTACLE.

(** Coordinates that can be converted to cells. *)
Definition convertible (m : costmap) (q : Point) : Prop := outside m q \/ exists c, located m q c.

Lemma lethal_le v : is_cost v -> f64_le lethal (f64_of_Z v) = (LETHAL_OBSTACLE <=? v).
Proof.
  intros Hv.
  assert (forallb (fun v => Bool.eqb (f64_le lethal (f64_of_Z v)) (LETHAL_OBSTACLE <=? v)) (seqZ 0 256) = true) as Hall by (vm_compute; reflexivity).
  rewrite forallb_forall in Hall. specialize (Hall v). rewrite <- list_elem_of_In, elem_of_seqZ in Hall.
  unfold is_cost in Hv. specialize (Hall ltac:(lia)). by apply Bool.eqb_prop.
Qed.

(** Nothing is thrown. *)
Lemma checker_throws_nothing p fetch (c : checker E) e : fst (isCollisionFree garbage p fetch c) <> Throw e.
Proof.
  unfold isCollisionFree, try_all. expose. destruct (scorePose garbage p fetch c) as [[v|x|] c']; done.
Qed.

(** Without the data the robot is not free. *)
Lemma no_costmap_not_free p (c : checker E) : CostmapSubscriber.costmap_ (costmap_sub_ c) = None ->
  isCollisionFree garbage p true c = (Ok false, c).
Proof.
  intros Hc. unfold isCollisionFree, scorePose, fetch_costmap, CostmapSubscriber.getCostmap, CostmapSubscriber.isCostmapReceived, try_all.
  expose. rewrite Hc. cbn [negb]. rewrite bool_decide_eq_false_2 by (by intros [? ?]). done.
Qed.

(** C18: once the costmap and the footprint are there, a pose is found free just if it is in the map, the whole outline of the
    robot at the pose is in the map, and no cell of the outline is an obstacle or unknown. *)
Theorem checker_clear p (fetch : bool) (c c1 c2 : checker E) m fp :
  (if fetch then fetch_costmap garbage c else (Ok tt, c)) = (Ok tt, c1) -> checked_costmap c1 = (Ok m, c1) ->
  getFootprint p fetch c1 = (Ok fp, c2) ->
  wf m -> size_x m <= 2 ^ 30 -> size_y m <= 2 ^ 30 ->
  convertible m (mk_point (pose2d_x p) (pose2d_y p) f64_zero) -> (2 <= List.length fp)%nat -> Forall (convertible m) fp ->
  exists b, fst (isCollisionFree garbage p fetch c) = Ok b /\ (b = true <-> clear m p fp).
Proof.
  intros Hfetch Hm Hfp Hwf Hx Hy Hp Hlen Hall. unfold isCollisionFree, scorePose, try_all. expose.
  assert ((if fetch then fetch_costmap garbage else fun s => (Ok tt, s)) c = (Ok tt, c1)) as -> by (by destruct fetch).
  rewrite Hm.
  unfold query. expose. destruct Hp as [[o Ho]|[d Hd]]; cbn [x y] in *.
  - rewrite Ho. cbn. exists false. split; [done|]. split; [done|]. intros [[d Hd] _]. by rewrite Ho in Hd.
  - unfold located in Hd. cbn [x y] in Hd. rewrite Hd. cbn [negb]. rewrite Hfp.
    destruct fp as [|q [|q1 rest]]; [cbn in Hlen; lia|cbn in Hlen; lia|].
    destruct (points_split m _ Hall) as [Hout|[l Hl]].
    + rewrite (footprint_outside m Hwf Hx Hy q q1 rest Hall Hout). exists false. split; [done|]. split; [done|].
      intros [_ (l & Hl & _)]. destruct Hout as (r & Hr & [o Ho]). apply list_elem_of_lookup in Hr as [i Hi].
      destruct (Forall2_lookup_l _ _ _ _ _ Hl Hi) as (e & _ & He). unfold located in He. by rewrite Ho in He.
    + inversion Hl as [|? e ? cs ? ?]; subst. pose proof (all_located m _ _ Hl) as Hin.
      rewrite (footprint_value m Hwf Hx Hy q q1 rest e cs Hl). cbn [fst].
      rewrite lethal_le by (by apply outline_value_cost). eexists. split; [done|].
      rewrite negb_true_iff, Z.leb_gt, (outline_free m Hwf e cs Hin). split.
      * intros Hfree. split; [by exists d|]. by exists (e :: cs).
      * intros [_ (l' & Hl' & Hfree)]. by rewrite (located_same m _ _ _ Hl Hl').
Qed.
End Checker.

(** ** A robot in a map *)

#[local] Instance demo_transforms : TimedTransforms () := fun p _ _ e => (Returned p, e).
#[local] Instance demo_clocks : Clocks := {|
  time_of_stamp s := Returned (fst s * 10 ^ 9 + snd s); stamp_of_time t := (t / 10 ^ 9, t mod 10 ^ 9);
  elapsed a b := Returned (a - b) |}.
#[local] Instance demo_angles : Angles := {| getYaw _ := f64_zero; shortest_angular_distance a b := f64_sub b a |}.
#[local] Instance demo_mathematics : Mathematics := {|
  cos _ := f64_of_Z 1; sin a := a; cosf x := x; sinf x := x; atan2 a _ := a; hypot a b := f64_add (SFabs a) (SFabs b);
  hypotf a _ := a |}.

Definition demo_point (q : Z * Z) : Point32 := mk_point32 (f32_of_f64 (f64_of_Z (fst q))) (f32_of_f64 (f64_of_Z (snd q))) f64_zero.

(** A triangle, in a map of three rows of four cells whose last cell is an obstacle. *)
Definition demo_checker : checker () := mk_checker
  (CostmapSubscriber.mk_subscriber None None)
  (Some (FootprintSubscriber.footprint_callback (no_header, demo_point <$> [(0, 0); (1, 0); (1, 1)])
    (FootprintSubscriber.new_subscriber "base_link" f64_zero))) [] false tt.

Definition demo_map : CostmapSubscriber.CostmapMsg :=
  CostmapSubscriber.mk_costmap_msg 4 3 (f64_of_Z 1) f64_zero f64_zero [0; 0; 7; 0; 0; 0; 0; 0; 0; 0; 0; 254].

Definition or_else {A} (d : A) (r : res A) : A := match r with Ok a => a | _ => d end.

(** The checker after the map has arrived, and after it has fetched the map and the footprint. *)
Definition ready_checker : checker () :=
  set_costmap_sub (or_else CostmapSubscriber.new_subscriber
    (CostmapSubscriber.costmapCallback SubscriberLaws.no_memory demo_map (costmap_sub_ demo_checker))) demo_checker.
Definition demo_pose (x y : Z) : Pose2D := mk_pose2d (f64_of_Z x) (f64_of_Z y) f64_zero.
Definition fetched_checker : checker () := snd (fetch_costmap SubscriberLaws.no_memory ready_checker).
Definition fetched_map : costmap :=
  or_else (mk_costmap 0 0 f64_zero f64_zero f64_zero [] 0) (fst (checked_costmap fetched_checker)).
Definition placed (x y : Z) : res (list Point) * checker () := getFootprint (demo_pose x y) true fetched_checker.

Definition free_at (x y : Z) : res bool := fst (isCollisionFree SubscriberLaws.no_memory (demo_pose x y) true ready_checker).

Example demo_free : free_at 1 0 = Ok true /\ free_at 2 1 = Ok false /\ free_at 3 0 = Ok false.
Proof. repeat split; vm_compute; reflexivity. Qed.

Lemma checker_clear_witness : exists b, free_at 1 0 = Ok b /\
  (b = true <-> clear fetched_map (demo_pose 1 0) (or_else [] (fst (placed 1 0)))).
Proof.
  apply (checker_clear SubscriberLaws.no_memory (demo_pose 1 0) true ready_checker fetched_checker (snd (placed 1 0)) fetched_map).
  - vm_compute. reflexivity.
  - vm_compute. reflexivity.
  - vm_compute. reflexivity.
  - constructor; vm_compute; try done; repeat constructor; done.
  - vm_compute. done.
  - vm_compute. done.
  - right. exists (mk_loc 1 0). vm_compute. reflexivity.
  - vm_compute. lia.
  - constructor; [right; exists (mk_loc 1 0); vm_compute; reflexivity|].
    constructor; [right; exists (mk_loc 2 0); vm_compute; reflexivity|].
    constructor; [right; exists (mk_loc 2 1); vm_compute; reflexivity|constructor].
Defined.
End CheckerLaws.
