(* ===== verification/TimedBehavior.v ===== *)
(** * Behaviors ([nav2_behaviors/timed_behavior.hpp])

    A behavior is a plugin with an action server of its own. Its callback calls [onRun] once and
    [onCycleUpdate] in a loop; both are virtual and given by the class [Behavior]. The callback runs in
    the worker of the action server ([ActionTask]). Logs are left out; times and durations are numbers of
    nanoseconds, the start time included. *)

From stdpp Require Import base option list numbers strings.
From Stdlib Require Import ZArith Lia SpecFloat String.
From S2P Require Import Prelude Float64 NavFn Parameters CollisionZones CollisionSources VelocitySmoother NavMessages ActionServer ActionTask PluginNode CostmapTopics.

Import Messages.

(** The sum of a time and a duration, which is checked. *)
Class Deadlines : Type := later : Z -> Z -> outcome Z.

(** What a behavior asks of the client library. *)
Class BehaviorWorld (W E : Type) : Type := {
  rclcpp_ok : E -> bool * E;
  make_rate : f64 -> outcome ();
  deadline_passed : E -> bool * E;
  new_handles : E -> W * E }.

(** The interface of a collision checker: whether a pose is free; the flag asks for the latest data. *)
Class CollisionChecking (E : Type) : Type := collision_free : Pose2D -> bool -> ST E bool.

Module TimedBehavior.
Import ActionServer Methods Task Parameters VelocitySmoother PluginNode.

Inductive Status : Type := SUCCEEDED | FAILED | RUNNING.
Record ResultStatus : Type := mk_result_status { status : Status; error_code : Z }.

(** The results of all behaviors. *)
Record Result : Type := mk_result { total_elapsed_time : Z; result_error_code : Z }.
Definition NONE : Z := 0.

Inductive CostmapInfoType : Type := NO_COSTMAP | LOCAL | GLOBAL | BOTH.

(** The members of a behavior; [derived] are those of the derived class. *)
Record timed (D : Type) : Type := mk_timed {
  cycle_frequency_ : f64;
  enabled_ : bool;
  local_frame_ : string;
  global_frame_ : string;
  robot_base_frame_ : string;
  transform_tolerance_ : f64;
  vel_pub_ : option TwistPublisher;
  local_collision_checker_ : bool;
  global_collision_checker_ : bool;
  elasped_time_ : Z;
  derived : D }.
Arguments mk_timed {D}.
Arguments cycle_frequency_ {D}.
Arguments enabled_ {D}.
Arguments local_frame_ {D}.
Arguments global_frame_ {D}.
Arguments robot_base_frame_ {D}.
Arguments transform_tolerance_ {D}.
Arguments vel_pub_ {D}.
Arguments local_collision_checker_ {D}.
Arguments global_collision_checker_ {D}.
Arguments elasped_time_ {D}.
Arguments derived {D}.

Section Members.
Context {D : Type}.

(** The constructor. *)
Definition new_timed (d : D) : timed D :=
  mk_timed (f64_of_Z 10) false "" "" "" f64_zero None false false 0 d.

Definition set_derived d (c : timed D) : timed D :=
  mk_timed (cycle_frequency_ c) (enabled_ c) (local_frame_ c) (global_frame_ c) (robot_base_frame_ c) (transform_tolerance_ c)
    (vel_pub_ c) (local_collision_checker_ c) (global_collision_checker_ c) (elasped_time_ c) d.
Definition set_elapsed t (c : timed D) : timed D :=
  mk_timed (cycle_frequency_ c) (enabled_ c) (local_frame_ c) (global_frame_ c) (robot_base_frame_ c) (transform_tolerance_ c)
    (vel_pub_ c) (local_collision_checker_ c) (global_collision_checker_ c) t (derived c).
Definition set_enabled b (c : timed D) : timed D :=
  mk_timed (cycle_frequency_ c) b (local_frame_ c) (global_frame_ c) (robot_base_frame_ c) (transform_tolerance_ c)
    (vel_pub_ c) (local_collision_checker_ c) (global_collision_checker_ c) (elasped_time_ c) (derived c).
Definition set_vel_pub p (c : timed D) : timed D :=
  mk_timed (cycle_frequency_ c) (enabled_ c) (local_frame_ c) (global_frame_ c) (robot_base_frame_ c) (transform_tolerance_ c)
    p (local_collision_checker_ c) (global_collision_checker_ c) (elasped_time_ c) (derived c).
Definition set_checkers local global (c : timed D) : timed D :=
  mk_timed (cycle_frequency_ c) (enabled_ c) (local_frame_ c) (global_frame_ c) (robot_base_frame_ c) (transform_tolerance_ c)
    (vel_pub_ c) local global (elasped_time_ c) (derived c).
Definition set_frames frequency local_frame global_frame robot_base_frame tolerance (c : timed D) : timed D :=
  mk_timed frequency (enabled_ c) local_frame global_frame robot_base_frame tolerance
    (vel_pub_ c) (local_collision_checker_ c) (global_collision_checker_ c) (elasped_time_ c) (derived c).
End Members.

(** How the callback ends: [NotOk] when the loop ended by itself, [Running] where the rounds did not
    suffice. *)
Inductive ending : Type := Inactive | Rejected (code : Z) | Preempted | Canceled | Succeeded | Failed (code : Z) | NotOk | Running.

(** The virtual methods of a behavior with members [D], goals [G] and feedback [F]. [onCycleUpdate] gives
    none where a loop of it did not end within its rounds. *)
Class Behavior (W E D G : Type) : Type := {
  onRun : option G -> ST (node W E (timed D) message) ResultStatus;
  onCycleUpdate : ST (node W E (timed D) message) (option ResultStatus);
  onActionCompletion : ST (node W E (timed D) message) ();
  onConfigure : ST (node W E (timed D) message) ();
  onCleanup : ST (node W E (timed D) message) ();
  getResourceInfo : CostmapInfoType }.

(** ** What behaviors use *)

Section Methods.
Context {W E D : Type}.
Context `{!Clock E} `{!Clocks} `{!Deadlines} `{!TimedTransforms E} `{!CollisionChecking E}.

Abbreviation method := (ST (node W E (timed D) message)).

(** A method of the world that may throw or be undefined. *)
Definition world {A} (c : ST E A) : method A := fun n =>
  let '(r, e) := c (outside n) in (r, set_outside e n).

Definition update (f : D -> D) : method () := assign (fun c => set_derived (f (derived c)) c).
Definition mine {A} (f : D -> A) : method A := own (fun c => f (derived c)).

Definition publish_velocity (velocity : TwistStamped) : method () :=
  p ← own vel_pub_;
  m ← query (fun _ => publish p velocity);
  match m with Some m => send m | None => mret tt end.

(** A velocity with the header of the base of the robot and the current time. *)
Definition stamped_velocity (t : Twist) : method TwistStamped :=
  frame ← own robot_base_frame_;
  time ← look now;
  mret (mk_stamped (mk_header (stamp_of_time time) frame) t).

Definition stopRobot : method () :=
  cmd_vel ← stamped_velocity zero_twist;
  publish_velocity cmd_vel.

(** [end_time_ = now + allowance] *)
Definition end_time (allowance : Z) : method Z :=
  time ← look now;
  query (fun _ => of_outcome (later time allowance)).

(** [end_time_ - now] *)
Definition time_remaining (end_time : Z) : method Z :=
  time ← look now;
  since end_time time.

(** The pose of the robot in the local frame. *)
Definition robot_pose : method (option PoseStamped) :=
  c ← own (fun c => c);
  world (RobotPose.getCurrentPose (local_frame_ c) (robot_base_frame_ c) (transform_tolerance_ c) 0).

(** [local_collision_checker_->isCollisionFree(pose, fetch_data)] *)
Definition local_free (p : Pose2D) (fetch_data : bool) : method bool :=
  c ← own local_collision_checker_;
  if (c : bool) then world (collision_free p fetch_data) else undefined.

(** The loop that simulates the motion: the pose of each cycle is checked until [past] the target. *)
Fixpoint simulate (cycles : nat) (cycle_count : Z) (pose_at : Z -> Pose2D) (past : Z -> bool) (fetch_data : bool) :
    method bool :=
  match cycles with
  | O => mret true
  | S cycles =>
      if past cycle_count then mret true else
      free ← local_free (pose_at cycle_count) fetch_data;
      if negb (free : bool) then mret false else simulate cycles (cycle_count + 1) pose_at past false
  end.
End Methods.

(** ** The callback *)

Section Execute.
Context {W E D G F : Type} `{!GoalHandles W G Result F} `{!Others W E}.
Context `{!Clock E} `{!Clocks} `{!BehaviorWorld W E} `{!Behavior W E D G}.

Abbreviation method := (ST (node W E (timed D) message)).

(** The time since the start, for a result. *)
Definition elapsed_since (start_time : Z) : method Z := time ← look now; since time start_time.

Definition finish (start_time : Z) (code : Z) (c : Result -> call Result F) : method () :=
  total ← elapsed_since start_time;
  _ ← onActionCompletion;
  tell (c (mk_result total code)).

Fixpoint cycle_loop (rounds : nat) (start_time : Z) : method ending :=
  match rounds with
  | O => mret Running
  | S rounds =>
      running ← look rclcpp_ok;
      if negb running then mret NotOk else
      elapsed_time ← elapsed_since start_time;
      _ ← assign (set_elapsed elapsed_time);
      preempt ← ask is_preempt_requested;
      if (preempt : bool) then
        _ ← stopRobot;
        _ ← finish start_time NONE call_terminate_current;
        mret Preempted
      else
        cancel ← ask is_cancel_requested;
        if (cancel : bool) then
          _ ← stopRobot;
          total ← own elasped_time_;
          _ ← onActionCompletion;
          _ ← tell (call_terminate_all (mk_result total NONE));
          mret Canceled
        else
          r ← onCycleUpdate;
          match r with
          | None => mret Running
          | Some r =>
              match status r with
              | SUCCEEDED => _ ← finish start_time NONE call_succeeded; mret Succeeded
              | FAILED => _ ← finish start_time (error_code r) call_terminate_current; mret (Failed (error_code r))
              | RUNNING => cycle_loop rounds start_time
              end
          end
  end.

Definition execute (rounds : nat) : method ending :=
  enabled ← own enabled_;
  if negb enabled then mret Inactive else
  goal ← ask get_current_goal;
  r ← onRun goal;
  match status r with
  | SUCCEEDED =>
      start_time ← look now;
      frequency ← own cycle_frequency_;
      _ ← query (fun _ => of_outcome (make_rate frequency));
      cycle_loop rounds start_time
  | _ =>
      _ ← tell (call_terminate_current (mk_result 0 (error_code r)));
      mret (Rejected (error_code r))
  end.

(** ** Transitions *)

Context `{!NodeParameters}.

(** The pointers to the checkers are those of the server. *)
Definition configure (local_checker global_checker : bool) : method () :=
  frequency ← param as_double "cycle_frequency" (f64_of_Z 10);
  local_frame ← param as_string "local_frame" "odom"%string;
  global_frame ← param as_string "global_frame" "map"%string;
  robot_base_frame ← param as_string "robot_base_frame" "base_link"%string;
  tolerance ← param as_double "transform_tolerance" tenth;
  _ ← assign (set_frames frequency local_frame global_frame robot_base_frame tolerance);
  _ ← param as_double "action_server_result_timeout" (f64_of_Z 10);
  w ← look new_handles;
  _ ← modify (set_server (Some (ActionServer.new w)));
  _ ← assign (set_checkers local_checker global_checker);
  stamped ← param as_bool "enable_stamped_cmd_vel"%string false;
  _ ← assign (set_vel_pub (Some (mk_publisher stamped false)));
  onConfigure.

Definition cleanup : method () :=
  _ ← modify (set_server None);
  _ ← assign (set_vel_pub None);
  onCleanup.

Definition switch_publisher (activated : bool) : method () :=
  p ← own vel_pub_;
  match p with
  | None => undefined
  | Some p => assign (set_vel_pub (Some (mk_publisher (is_stamped_ p) activated)))
  end.

Definition activate : method () :=
  _ ← switch_publisher true;
  _ ← with_server (fun s => (tt, ActionServer.activate s));
  assign (set_enabled true).

(** False where [deactivate] of the server has not returned within the rounds. *)
Definition deactivate (rounds : nat) : method bool :=
  _ ← switch_publisher false;
  stopped ← deactivate_server deadline_passed rounds;
  if negb (stopped : bool) then mret false else
  _ ← assign (set_enabled false);
  mret true.
End Execute.
End TimedBehavior.
