(* ===== verification/Behaviors.v ===== *)
(** * The behaviors of [nav2_behaviors/plugins]

    Driving on the heading, backing up, spinning, waiting and assisted teleoperation, as instances of
    [TimedBehavior.Behavior]. [abs] is the one for [double]. The callbacks of the topics of the teleoperation
    run whenever their data is read. *)

From stdpp Require Import base option list numbers strings.
From Stdlib Require Import ZArith Lia SpecFloat String.
From S2P Require Import Prelude Float64 NavFn Footprint NavfnPlanner Parameters CollisionZones CollisionSources VelocitySmoother NavMessages ActionServer ActionTask PluginNode CostmapTopics TimedBehavior.

Import Messages.

(** The messages that the topics of the teleoperation have received. *)
Inductive teleop_event : Type := Teleop (t : Twist) | TeleopStamped (t : TwistStamped) | PreemptTeleop.
Class TeleopTopics (E : Type) : Type := receive : E -> list teleop_event * E.

Definition succeeds : TimedBehavior.ResultStatus := TimedBehavior.mk_result_status TimedBehavior.SUCCEEDED TimedBehavior.NONE.
Definition continues : TimedBehavior.ResultStatus := TimedBehavior.mk_result_status TimedBehavior.RUNNING TimedBehavior.NONE.
Definition fails (code : Z) : TimedBehavior.ResultStatus := TimedBehavior.mk_result_status TimedBehavior.FAILED code.

Definition pose_2d (p : PoseStamped) `{!Angles} : Pose2D := poseToPose2D (pose_of p).

(** ** What some behaviors share *)

Module Cycles.
Import Task VelocitySmoother TimedBehavior.

(** How far the robot is in a cycle of the simulation. *)
Definition sim_position_change (velocity frequency : f64) (cycle_count : Z) : f64 :=
  f64_mul velocity (f64_div (f64_of_Z cycle_count) frequency).

Section Cycles.
Context {W E D : Type} `{!Clock E} `{!Clocks} `{!Durations}.

Abbreviation method := (ST (node W E (timed D) message)).

(** The time is up, where the command has a time. *)
Definition out_of_time (end_time allowance : Z) : method bool :=
  remaining ← time_remaining end_time;
  mret (f64_lt (seconds remaining) f64_zero && f64_lt f64_zero (seconds allowance)).

Definition max_cycle_count (frequency ahead : f64) : method Z := query (fun _ => f64_to_int 32 (f64_mul frequency ahead)).
End Cycles.
End Cycles.

(** ** [drive_on_heading.hpp], [back_up.cpp] *)

Module DriveOnHeading.
Import ActionServer Methods Task Parameters VelocitySmoother PluginNode TimedBehavior Cycles.

(** The goal of both actions: a point, a speed of single precision, and a duration. *)
Record Goal : Type := mk_goal {
  target_x : f64; target_y : f64; target_z : f64; speed : spec_float; time_allowance : Z }.

(** The error codes of an action. *)
Record codes : Type := mk_codes { TIMEOUT : Z; TF_ERROR : Z; COLLISION_AHEAD : Z; INVALID_INPUT : Z }.
Definition drive_codes : codes := mk_codes 721 722 723 724.
Definition back_up_codes : codes := mk_codes 711 712 714 713.

Record drive : Type := mk_drive {
  initial_pose_ : PoseStamped;
  command_x_ : f64;
  command_speed_ : f64;
  command_time_allowance_ : Z;
  end_time_ : Z;
  simulate_ahead_time_ : f64 }.

Definition new_drive : drive := mk_drive new_pose_stamped f64_zero f64_zero 0 0 f64_zero.

Definition set_initial_pose p (d : drive) : drive :=
  mk_drive p (command_x_ d) (command_speed_ d) (command_time_allowance_ d) (end_time_ d) (simulate_ahead_time_ d).
Definition set_command x v allowance (d : drive) : drive :=
  mk_drive (initial_pose_ d) x v allowance (end_time_ d) (simulate_ahead_time_ d).
Definition set_end_time t (d : drive) : drive :=
  mk_drive (initial_pose_ d) (command_x_ d) (command_speed_ d) (command_time_allowance_ d) t (simulate_ahead_time_ d).
Definition set_simulate_ahead_time t (d : drive) : drive :=
  mk_drive (initial_pose_ d) (command_x_ d) (command_speed_ d) (command_time_allowance_ d) (end_time_ d) t.

Section Drive.
Context {W E : Type} `{!GoalHandles W Goal Result spec_float} `{!Others W E}.
Context `{!Clock E} `{!Clocks} `{!Deadlines} `{!Durations} `{!TimedTransforms E} `{!CollisionChecking E}.
Context `{!Mathematics} `{!Angles} `{!NodeParameters} (action : codes).

Abbreviation method := (ST (node W E (timed drive) message)).

(** The part that both [onRun] share. *)
Definition begin_drive (x v : f64) (allowance : Z) : method ResultStatus :=
  _ ← update (set_command x v allowance);
  t ← end_time allowance;
  _ ← update (set_end_time t);
  p ← robot_pose;
  match p with
  | None => mret (fails (TF_ERROR action))
  | Some p => _ ← update (set_initial_pose p); mret succeeds
  end.

Definition only_x (goal : Goal) : bool := f64_eq (target_y goal) f64_zero && f64_eq (target_z goal) f64_zero.

(** [DriveOnHeading::onRun] *)
Definition drive_run (command : option Goal) : method ResultStatus :=
  match command with
  | None => undefined
  | Some command =>
      if negb (only_x command) then mret (fails (INVALID_INPUT action)) else
      if negb (Bool.eqb (f64_lt f64_zero (target_x command)) (f64_lt f64_zero (f64_of_f32 (speed command))))
      then mret (fails (INVALID_INPUT action))
      else begin_drive (target_x command) (f64_of_f32 (speed command)) (time_allowance command)
  end.

(** [BackUp::onRun] *)
Definition back_up_run (command : option Goal) : method ResultStatus :=
  match command with
  | None => undefined
  | Some command =>
      if negb (only_x command) then mret (fails (INVALID_INPUT action)) else
      begin_drive (SFopp (SFabs (target_x command))) (f64_of_f32 (SFopp (SFabs (speed command)))) (time_allowance command)
  end.

Definition drive_pose (init : Pose2D) (change : f64) : Pose2D :=
  mk_pose2d (f64_add (pose2d_x init) (f64_mul change (cos (pose2d_theta init))))
    (f64_add (pose2d_y init) (f64_mul change (sin (pose2d_theta init)))) (pose2d_theta init).

Definition isCollisionFree (distance : f64) (cmd_vel : Twist) (init_pose : Pose2D) : method bool :=
  d ← mine (fun d => d);
  frequency ← own cycle_frequency_;
  let diff_dist := f64_sub (SFabs (command_x_ d)) distance in
  max ← max_cycle_count frequency (simulate_ahead_time_ d);
  let change := sim_position_change (lin_x cmd_vel) frequency in
  simulate (Z.to_nat max) 0 (fun k => drive_pose init_pose (change k))
    (fun k => f64_le (f64_sub diff_dist (SFabs (change k))) f64_zero) true.

Definition distance_driven (initial current : PoseStamped) : f64 :=
  hypot (f64_sub (px (pose_of initial)) (px (pose_of current))) (f64_sub (py (pose_of initial)) (py (pose_of current))).

Definition onCycleUpdate : method ResultStatus :=
  d ← mine (fun d => d);
  late ← out_of_time (end_time_ d) (command_time_allowance_ d);
  if (late : bool) then _ ← stopRobot; mret (fails (TIMEOUT action)) else
  p ← robot_pose;
  match p with
  | None => mret (fails (TF_ERROR action))
  | Some p =>
      let distance := distance_driven (initial_pose_ d) p in
      _ ← tell (call_feedback (f32_of_f64 distance));
      if f64_le (SFabs (command_x_ d)) distance then _ ← stopRobot; mret succeeds else
      cmd_vel ← stamped_velocity (planar (command_speed_ d) f64_zero f64_zero);
      free ← isCollisionFree distance (twist cmd_vel) (pose_2d p);
      if negb free then _ ← stopRobot; mret (fails (COLLISION_AHEAD action)) else
      _ ← publish_velocity cmd_vel;
      mret continues
  end.

Definition onConfigure : method () :=
  t ← param as_double "simulate_ahead_time" (f64_of_Z 2);
  update (set_simulate_ahead_time t).
End Drive.

Section Plugins.
Context {W E : Type} `{!GoalHandles W Goal Result spec_float} `{!Others W E}.
Context `{!Clock E} `{!Clocks} `{!Deadlines} `{!Durations} `{!TimedTransforms E} `{!CollisionChecking E}.
Context `{!Mathematics} `{!Angles} `{!NodeParameters}.

Definition plugin (action : codes) (run : option Goal -> ST (node W E (timed drive) message) ResultStatus) :
    Behavior W E drive Goal := {|
  onRun := run;
  TimedBehavior.onCycleUpdate := r ← onCycleUpdate action; mret (Some r);
  onActionCompletion := mret tt;
  TimedBehavior.onConfigure := onConfigure;
  onCleanup := mret tt;
  getResourceInfo := LOCAL |}.

Definition drive_on_heading : Behavior W E drive Goal := plugin drive_codes (drive_run drive_codes).
Definition back_up : Behavior W E drive Goal := plugin back_up_codes (back_up_run back_up_codes).
End Plugins.
End DriveOnHeading.

(** ** [spin.cpp] *)

Module Spin.
Import ActionServer Methods Task Parameters VelocitySmoother PluginNode TimedBehavior.
Import Cycles.

Record Goal : Type := mk_goal { target_yaw : spec_float; time_allowance : Z }.

Definition TIMEOUT : Z := 701.
Definition TF_ERROR : Z := 702.
Definition COLLISION_AHEAD : Z := 703.

Record spin : Type := mk_spin {
  min_rotational_vel_ : f64;
  max_rotational_vel_ : f64;
  rotational_acc_lim_ : f64;
  cmd_yaw_ : f64;
  prev_yaw_ : f64;
  relative_yaw_ : f64;
  simulate_ahead_time_ : f64;
  command_time_allowance_ : Z;
  end_time_ : Z }.

Definition new_spin : spin := mk_spin f64_zero f64_zero f64_zero f64_zero f64_zero f64_zero f64_zero 0 0.

Definition set_limits ahead vmax vmin acc (s : spin) : spin :=
  mk_spin vmin vmax acc (cmd_yaw_ s) (prev_yaw_ s) (relative_yaw_ s) ahead (command_time_allowance_ s) (end_time_ s).
Definition set_yaw prev relative (s : spin) : spin :=
  mk_spin (min_rotational_vel_ s) (max_rotational_vel_ s) (rotational_acc_lim_ s) (cmd_yaw_ s) prev relative
    (simulate_ahead_time_ s) (command_time_allowance_ s) (end_time_ s).
Definition set_command yaw allowance (s : spin) : spin :=
  mk_spin (min_rotational_vel_ s) (max_rotational_vel_ s) (rotational_acc_lim_ s) yaw (prev_yaw_ s) (relative_yaw_ s)
    (simulate_ahead_time_ s) allowance (end_time_ s).
Definition set_end_time t (s : spin) : spin :=
  mk_spin (min_rotational_vel_ s) (max_rotational_vel_ s) (rotational_acc_lim_ s) (cmd_yaw_ s) (prev_yaw_ s)
    (relative_yaw_ s) (simulate_ahead_time_ s) (command_time_allowance_ s) t.

(** [std::copysign] *)
Definition sign_of (x : f64) : bool :=
  match x with S754_zero s | S754_infinity s | S754_finite s _ _ => s | S754_nan => false end.
Definition copysign (x y : f64) : f64 := if sign_of y then SFopp (SFabs x) else SFabs x.

(** [1e-6] *)
Definition micro : f64 := f64_div (f64_of_Z 1) (f64_of_Z 1000000).

Section Spin.
Context {W E : Type} `{!GoalHandles W Goal Result spec_float} `{!Others W E}.
Context `{!Clock E} `{!Clocks} `{!Deadlines} `{!Durations} `{!TimedTransforms E} `{!CollisionChecking E}.
Context `{!Angles} `{!NodeParameters}.

Abbreviation method := (ST (node W E (timed spin) message)).

Definition onRun (command : option Goal) : method ResultStatus :=
  p ← robot_pose;
  match p with
  | None => mret (fails TF_ERROR)
  | Some p =>
      _ ← update (set_yaw (getYaw (orientation (pose_of p))) f64_zero);
      match command with
      | None => undefined
      | Some command =>
          _ ← update (set_command (f64_of_f32 (target_yaw command)) (time_allowance command));
          t ← end_time (time_allowance command);
          _ ← update (set_end_time t);
          mret succeeds
      end
  end.

(** The turn since the last cycle; a jump of the angle is undone. *)
Definition delta_yaw (current_yaw prev_yaw : f64) : f64 :=
  let delta_yaw := f64_sub current_yaw prev_yaw in
  if f64_lt f64_pi (SFabs delta_yaw) then copysign (f64_sub f64_two_pi (SFabs delta_yaw)) prev_yaw else delta_yaw.

Definition spin_velocity (s : spin) (remaining_yaw : f64) : f64 :=
  let vel := f64_sqrt (f64_mul (f64_mul (f64_of_Z 2) (rotational_acc_lim_ s)) remaining_yaw) in
  f64_min (f64_max vel (min_rotational_vel_ s)) (max_rotational_vel_ s).

Definition isCollisionFree (relative_yaw : f64) (cmd_vel : Twist) (init_pose : Pose2D) : method bool :=
  s ← mine (fun s => s);
  frequency ← own cycle_frequency_;
  max ← max_cycle_count frequency (simulate_ahead_time_ s);
  let change := sim_position_change (ang_z cmd_vel) frequency in
  simulate (Z.to_nat max) 0
    (fun k => mk_pose2d (pose2d_x init_pose) (pose2d_y init_pose) (f64_add (pose2d_theta init_pose) (change k)))
    (fun k => f64_le (f64_sub (SFabs relative_yaw) (SFabs (change k))) f64_zero) true.

Definition onCycleUpdate : method ResultStatus :=
  s ← mine (fun s => s);
  late ← out_of_time (end_time_ s) (command_time_allowance_ s);
  if (late : bool) then _ ← stopRobot; mret (fails TIMEOUT) else
  p ← robot_pose;
  match p with
  | None => mret (fails TF_ERROR)
  | Some p =>
      let current_yaw := getYaw (orientation (pose_of p)) in
      let relative_yaw := f64_add (relative_yaw_ s) (delta_yaw current_yaw (prev_yaw_ s)) in
      _ ← update (set_yaw current_yaw relative_yaw);
      _ ← tell (call_feedback (f32_of_f64 relative_yaw));
      let remaining_yaw := f64_sub (SFabs (cmd_yaw_ s)) (SFabs relative_yaw) in
      if f64_lt remaining_yaw micro then _ ← stopRobot; mret succeeds else
      cmd_vel ← stamped_velocity (planar f64_zero f64_zero (copysign (spin_velocity s remaining_yaw) (cmd_yaw_ s)));
      free ← isCollisionFree relative_yaw (twist cmd_vel) (pose_2d p);
      if negb free then _ ← stopRobot; mret (fails COLLISION_AHEAD) else
      _ ← publish_velocity cmd_vel;
      mret continues
  end.

Definition onConfigure : method () :=
  ahead ← param as_double "simulate_ahead_time" (f64_of_Z 2);
  vmax ← param as_double "max_rotational_vel" (f64_of_Z 1);
  vmin ← param as_double "min_rotational_vel" (f64_div (f64_of_Z 2) (f64_of_Z 5));
  acc ← param as_double "rotational_acc_lim" three_and_fifth;
  update (set_limits ahead vmax vmin acc).

Definition spin_behavior : Behavior W E spin Goal := {|
  TimedBehavior.onRun := onRun;
  TimedBehavior.onCycleUpdate := r ← onCycleUpdate; mret (Some r);
  onActionCompletion := mret tt;
  TimedBehavior.onConfigure := onConfigure;
  onCleanup := mret tt;
  getResourceInfo := LOCAL |}.
End Spin.
End Spin.

(** ** [wait.cpp] *)

Module Wait.
Import ActionServer Methods Task VelocitySmoother PluginNode TimedBehavior.

(** The goal is a duration, the only member the end of the wait. *)
Section Wait.
Context {W E : Type} `{!GoalHandles W Z Result Z} `{!Others W E}.
Context `{!Clock E} `{!Clocks} `{!Deadlines}.

Abbreviation method := (ST (node W E (timed Z) message)).

Definition onRun (command : option Z) : method ResultStatus :=
  time ← look now;
  match command with
  | None => undefined
  | Some duration =>
      wait_end ← query (fun _ => of_outcome (later time duration));
      _ ← update (fun _ => wait_end);
      mret succeeds
  end.

Definition onCycleUpdate : method ResultStatus :=
  current_point ← look now;
  wait_end ← mine (fun w => w);
  time_left ← since wait_end current_point;
  _ ← tell (call_feedback time_left);
  mret (if time_left >? 0 then continues else succeeds).

Definition wait_behavior : Behavior W E Z Z := {|
  TimedBehavior.onRun := onRun;
  TimedBehavior.onCycleUpdate := r ← onCycleUpdate; mret (Some r);
  onActionCompletion := mret tt;
  onConfigure := mret tt;
  onCleanup := mret tt;
  getResourceInfo := LOCAL |}.
End Wait.
End Wait.

(** ** [assisted_teleop.cpp] *)

Module AssistedTeleop.
Import ActionServer Methods Task Parameters VelocitySmoother PluginNode TimedBehavior.
Import Cycles.

Definition TIMEOUT : Z := 731.
Definition TF_ERROR : Z := 732.

(** [vel_sub_] is null or has a flag that demands stamped messages. *)
Record teleop : Type := mk_teleop {
  projection_time_ : f64;
  simulation_time_step_ : f64;
  teleop_twist_ : TwistStamped;
  preempt_teleop_ : bool;
  vel_sub_ : option bool;
  preempt_teleop_sub_ : bool;
  command_time_allowance_ : Z;
  end_time_ : Z }.

Definition new_teleop : teleop := mk_teleop f64_zero f64_zero new_stamped false None false 0 0.

Definition set_topics projection step stamped (t : teleop) : teleop :=
  mk_teleop projection step (teleop_twist_ t) (preempt_teleop_ t) (Some stamped) true (command_time_allowance_ t) (end_time_ t).
Definition set_teleop_twist v (t : teleop) : teleop :=
  mk_teleop (projection_time_ t) (simulation_time_step_ t) v (preempt_teleop_ t) (vel_sub_ t) (preempt_teleop_sub_ t)
    (command_time_allowance_ t) (end_time_ t).
Definition set_preempt_teleop b (t : teleop) : teleop :=
  mk_teleop (projection_time_ t) (simulation_time_step_ t) (teleop_twist_ t) b (vel_sub_ t) (preempt_teleop_sub_ t)
    (command_time_allowance_ t) (end_time_ t).
Definition set_times allowance e (t : teleop) : teleop :=
  mk_teleop (projection_time_ t) (simulation_time_step_ t) (teleop_twist_ t) (preempt_teleop_ t) (vel_sub_ t)
    (preempt_teleop_sub_ t) allowance e.

(** The callbacks of the topics. *)
Definition callback (t : teleop) (e : teleop_event) : teleop :=
  match e with
  | Teleop v => if bool_decide (vel_sub_ t = Some false) then set_teleop_twist (mk_stamped (header (teleop_twist_ t)) v) t else t
  | TeleopStamped v => if bool_decide (vel_sub_ t = Some true) then set_teleop_twist v t else t
  | PreemptTeleop => if preempt_teleop_sub_ t then set_preempt_teleop true t else t
  end.

Section Teleop.
Context {W E : Type} `{!GoalHandles W Z Result Z} `{!Others W E}.
Context `{!Clock E} `{!Clocks} `{!Deadlines} `{!Durations} `{!TimedTransforms E} `{!CollisionChecking E} `{!TeleopTopics E}.
Context `{!Mathematics} `{!Angles} `{!NodeParameters}.

Abbreviation method := (ST (node W E (timed teleop) message)).

(** What a member holds when it is read. *)
Definition read {A} (f : teleop -> A) : method A :=
  l ← look receive;
  _ ← update (fun t => fold_left callback l t);
  mine f.

Definition onConfigure : method () :=
  projection ← param as_double "projection_time" (f64_of_Z 1);
  step ← param as_double "simulation_time_step" tenth;
  _ ← param as_string "cmd_vel_teleop" "cmd_vel_teleop"%string;
  stamped ← param as_bool "enable_stamped_cmd_vel"%string false;
  update (set_topics projection step stamped).

Definition onRun (command : option Z) : method ResultStatus :=
  _ ← update (set_preempt_teleop false);
  match command with
  | None => undefined
  | Some allowance =>
      t ← end_time allowance;
      _ ← update (set_times allowance t);
      mret succeeds
  end.

Definition onActionCompletion : method () :=
  update (fun t => set_preempt_teleop false (set_teleop_twist new_stamped t)).

Definition projectPose (p : Pose2D) (v : Twist) (projection_time : f64) : Pose2D :=
  mk_pose2d
    (f64_add (pose2d_x p) (f64_mul projection_time
      (f64_add (f64_mul (lin_x v) (cos (pose2d_theta p))) (f64_mul (lin_y v) (sin (pose2d_theta p))))))
    (f64_add (pose2d_y p) (f64_mul projection_time
      (f64_sub (f64_mul (lin_x v) (sin (pose2d_theta p))) (f64_mul (lin_y v) (cos (pose2d_theta p))))))
    (f64_add (pose2d_theta p) (f64_mul projection_time (ang_z v))).

Definition map_twist (f : Twist -> Twist) (v : TwistStamped) : TwistStamped := mk_stamped (header v) (f (twist v)).
Definition scale (factor : f64) (v : Twist) : Twist :=
  set_planar (f64_mul (lin_x v) factor) (f64_mul (lin_y v) factor) (f64_mul (ang_z v) factor) v.

(** The velocity after a collision at [time]. *)
Definition slow_down (step projection time : f64) (v : Twist) : Twist :=
  if f64_eq time step then set_planar f64_zero f64_zero f64_zero v else scale (f64_div time projection) v.

(** The loop over the projection, with the velocity to be sent; none after [rounds] without an end. *)
Fixpoint project (rounds : nat) (step projection time : f64) (projected_pose : Pose2D) (scaled_twist : TwistStamped) :
    method (option TwistStamped) :=
  match rounds with
  | O => mret None
  | S rounds =>
      if negb (f64_lt time projection) then mret (Some scaled_twist) else
      v ← read teleop_twist_;
      let projected_pose := projectPose projected_pose (twist v) step in
      free ← local_free projected_pose true;
      if negb (free : bool) then mret (Some (map_twist (slow_down step projection time) scaled_twist))
      else project rounds step projection (f64_add time step) projected_pose scaled_twist
  end.

Definition onCycleUpdate (rounds : nat) : method (option ResultStatus) :=
  elapsed_time ← own elasped_time_;
  _ ← tell (call_feedback elapsed_time);
  t ← mine (fun t => t);
  late ← out_of_time (end_time_ t) (command_time_allowance_ t);
  if (late : bool) then _ ← stopRobot; mret (Some (fails TIMEOUT)) else
  preempt ← read preempt_teleop_;
  if (preempt : bool) then _ ← stopRobot; mret (Some succeeds) else
  p ← robot_pose;
  match p with
  | None => mret (Some (fails TF_ERROR))
  | Some p =>
      v ← read teleop_twist_;
      v ← project rounds (simulation_time_step_ t) (projection_time_ t) (simulation_time_step_ t) (pose_2d p) v;
      match v with
      | None => mret None
      | Some v => _ ← publish_velocity v; mret (Some continues)
      end
  end.

(** A goal is a duration, and so is a feedback. *)
Definition teleop_behavior (rounds : nat) : Behavior W E teleop Z := {|
  TimedBehavior.onRun := onRun;
  TimedBehavior.onCycleUpdate := onCycleUpdate rounds;
  TimedBehavior.onActionCompletion := onActionCompletion;
  TimedBehavior.onConfigure := onConfigure;
  onCleanup := mret tt;
  getResourceInfo := LOCAL |}.
End Teleop.
End AssistedTeleop.
