(* ===== verification/BehaviorServer.v ===== *)
(** * The behavior server ([nav2_behaviors]: [behavior_server.hpp], [behavior_server.cpp])

    The node loads behaviors, which are plugins, gives them the collision checkers of the costmaps
    they ask for, and passes its transitions on to them. The subscribers of the costmaps and the
    footprints are those of [CostmapTopics]; bonds and logs are left out. *)

From stdpp Require Import base option list numbers strings.
From Stdlib Require Import ZArith Lia SpecFloat String.
From S2P Require Import Prelude Float64 Parameters CollisionSources VelocitySmoother NavMessages ActionServer ActionTask PluginNode CostmapTopics TimedBehavior.

(** [nav2_core::Behavior]: [behavior_configure] has the name and tells which checkers are not null. *)
Class BehaviorPlugins (B E : Type) : Type := {
  load_behavior : string -> E -> outcome B * E;
  behavior_configure : string -> bool -> bool -> virtual B E ();
  behavior_cleanup : virtual B E ();
  behavior_activate : virtual B E ();
  behavior_deactivate : virtual B E ();
  behavior_info : B -> TimedBehavior.CostmapInfoType }.

Module BehaviorServer.
Import TimedBehavior(CostmapInfoType, NO_COSTMAP, LOCAL, GLOBAL, BOTH) Methods Parameters.

(** The subscribers and the checker of a costmap; null or not. *)
Record resources : Type := mk_resources { costmap_sub_ : bool; footprint_sub_ : bool; collision_checker_ : bool }.
Definition no_resources : resources := mk_resources false false false.
Definition new_resources : resources := mk_resources true true true.

Record behavior_server (B E : Type) : Type := mk_behavior_server {
  behaviors_ : list B;
  behavior_ids_ : list string;
  behavior_types_ : list string;
  local_ : resources;
  global_ : resources;
  tf_ : bool;
  transform_listener_ : bool;
  world : E }.
Arguments mk_behavior_server {B E}.
Arguments behaviors_ {B E}.
Arguments behavior_ids_ {B E}.
Arguments behavior_types_ {B E}.
Arguments local_ {B E}.
Arguments global_ {B E}.
Arguments tf_ {B E}.
Arguments transform_listener_ {B E}.
Arguments world {B E}.

Section Server.
Context {B E : Type} `{!BehaviorPlugins B E} `{!NodeParameters}.

Abbreviation transition := (ST (behavior_server B E)).

Definition set_behaviors l e (s : behavior_server B E) : behavior_server B E :=
  mk_behavior_server l (behavior_ids_ s) (behavior_types_ s) (local_ s) (global_ s) (tf_ s) (transform_listener_ s) e.
Definition set_types l (s : behavior_server B E) : behavior_server B E :=
  mk_behavior_server (behaviors_ s) (behavior_ids_ s) l (local_ s) (global_ s) (tf_ s) (transform_listener_ s) (world s).
Definition set_resources local global (s : behavior_server B E) : behavior_server B E :=
  mk_behavior_server (behaviors_ s) (behavior_ids_ s) (behavior_types_ s) local global (tf_ s) (transform_listener_ s) (world s).
Definition set_tf b (s : behavior_server B E) : behavior_server B E :=
  mk_behavior_server (behaviors_ s) (behavior_ids_ s) (behavior_types_ s) (local_ s) (global_ s) b b (world s).

Definition default_ids_ : list string := ["spin"; "backup"; "drive_on_heading"; "wait"]%string.
Definition default_types_ : list string :=
  ["nav2_behaviors::Spin"; "nav2_behaviors::BackUp"; "nav2_behaviors::DriveOnHeading"; "nav2_behaviors::Wait"]%string.

Definition param {S A} (view : parameter -> option A) (name : string) (d : A) : ST S A := query (fun _ => read_or view name d).

(** The parameters the constructor declares; the types have defaults if the names are the default ones. *)
Definition new (e : E) : res (behavior_server B E) :=
  _ ← read_or as_string "local_costmap_topic" "local_costmap/costmap_raw"%string;
  _ ← read_or as_string "global_costmap_topic" "global_costmap/costmap_raw"%string;
  _ ← read_or as_string "local_footprint_topic" "local_costmap/published_footprint"%string;
  _ ← read_or as_string "global_footprint_topic" "global_costmap/published_footprint"%string;
  _ ← read_or as_double "cycle_frequency" (f64_of_Z 10);
  ids ← read_or as_string_array "behavior_plugins" default_ids_;
  _ ← (if bool_decide (ids = default_ids_)
       then for_list (fun p _ => _ ← read_or as_string (p.1 ++ ".plugin")%string p.2; Ok tt) (zip default_ids_ default_types_) tt
       else Ok tt);
  _ ← read_or as_string "local_frame" "odom"%string;
  _ ← read_or as_string "global_frame" "map"%string;
  _ ← read_or as_string "robot_base_frame" "base_link"%string;
  _ ← read_or as_double "transform_tolerance" VelocitySmoother.tenth;
  Ok (mk_behavior_server [] ids [] no_resources no_resources false false e).

(** A virtual call of [behaviors_[i]]. *)
Definition call_behavior {A} (i : nat) (f : virtual B E A) : transition A := fun s =>
  match behaviors_ s !! i with
  | None => (UB, s)
  | Some b =>
      let '(o, b, e) := f b (world s) in
      (of_outcome o, set_behaviors (<[i := b]> (behaviors_ s)) e s)
  end.

(** The calls of [n] behaviors from the [i]-th one on. *)
Fixpoint each_behavior (n i : nat) (f : nat -> virtual B E ()) : transition () :=
  match n with
  | O => mret tt
  | S n => _ ← call_behavior i (f i); each_behavior n (S i) f
  end.

Definition all_behaviors (f : virtual B E ()) : transition () :=
  s ← get; each_behavior (List.length (behaviors_ s)) 0 (fun _ => f).

Definition on_cleanup : transition bool :=
  _ ← all_behaviors behavior_cleanup;
  _ ← modify (fun s => set_behaviors [] (world s) s);
  _ ← modify (set_tf false);
  _ ← modify (set_resources no_resources no_resources);
  mret true.

(** The default of the type of the [i]-th behavior, where it was declared. *)
Definition default_type (ids : list string) (i : nat) : option string :=
  if bool_decide (ids = default_ids_) then default_types_ !! i else None.

(** The loop of [loadBehaviorPlugins], from the [i]-th name on. *)
Fixpoint load_behaviors (all ids : list string) (i : nat) : transition () :=
  match ids with
  | [] => mret tt
  | id :: ids =>
      type ← query (fun _ => PluginNode.get_plugin_type_param (default_type all i) id);
      _ ← modify (fun s => set_types (<[i := type]> (behavior_types_ s)) s);
      _ ← (fun s =>
        let '(o, e) := load_behavior type (world s) in
        match o with
        | Returned b => (Ok tt, set_behaviors (behaviors_ s ++ [b]) e s)
        | Raised x => (Throw x, set_behaviors (behaviors_ s) e s)
        end) : transition ();
      load_behaviors all ids (S i)
  end.

Definition loadBehaviorPlugins : transition bool :=
  s ← get;
  catch (_ ← load_behaviors (behavior_ids_ s) (behavior_ids_ s) 0; mret true)
    (fun e => if PluginNode.is_std e then Some (mret false) else None).

Definition configureBehaviorPlugins : transition () :=
  s ← get;
  each_behavior (List.length (behavior_ids_ s)) 0 (fun i =>
    behavior_configure (nth i (behavior_ids_ s) ""%string) (collision_checker_ (local_ s)) (collision_checker_ (global_ s))).

(** The loop that finds out which costmaps are needed. *)
Fixpoint costmaps_needed (l : list CostmapInfoType) (local global : bool) : bool * bool :=
  match l with
  | [] => (local, global)
  | BOTH :: _ => (true, true)
  | LOCAL :: l => costmaps_needed l true global
  | GLOBAL :: l => costmaps_needed l local true
  | NO_COSTMAP :: l => costmaps_needed l local global
  end.

Definition setupResourcesForBehaviorPlugins : transition () :=
  _ ← param as_string "local_costmap_topic" "local_costmap/costmap_raw"%string;
  _ ← param as_string "global_costmap_topic" "global_costmap/costmap_raw"%string;
  _ ← param as_string "local_footprint_topic" "local_costmap/published_footprint"%string;
  _ ← param as_string "global_footprint_topic" "global_costmap/published_footprint"%string;
  _ ← param as_string "robot_base_frame" "base_link"%string;
  _ ← param as_double "transform_tolerance" VelocitySmoother.tenth;
  s ← get;
  let '(local, global) := costmaps_needed (behavior_info <$> behaviors_ s) false false in
  modify (set_resources (if local then new_resources else local_ s) (if global then new_resources else global_ s)).

(** The types get as many places as there are names. *)
Definition on_configure : transition bool :=
  _ ← modify (set_tf true);
  _ ← modify (fun s => set_types (take (List.length (behavior_ids_ s)) (behavior_types_ s) ++
    replicate (List.length (behavior_ids_ s) - List.length (behavior_types_ s)) ""%string) s);
  loaded ← loadBehaviorPlugins;
  if negb (loaded : bool) then _ ← on_cleanup; mret false else
  _ ← setupResourcesForBehaviorPlugins;
  _ ← configureBehaviorPlugins;
  mret true.

Definition on_activate : transition bool := _ ← all_behaviors behavior_activate; mret true.
Definition on_deactivate : transition bool := _ ← all_behaviors behavior_deactivate; mret true.
Definition on_shutdown : transition bool := mret true.

(** ** Laws *)

Definition wants_local (i : CostmapInfoType) : bool := match i with LOCAL | BOTH => true | _ => false end.
Definition wants_global (i : CostmapInfoType) : bool := match i with GLOBAL | BOTH => true | _ => false end.

(** The loop, which stops at the first behavior that wants both, finds all that is wanted. *)
Lemma costmaps_needed_spec l : forall local global,
  costmaps_needed l local global = (local || existsb wants_local l, global || existsb wants_global l).
Proof.
  induction l as [|[] l IH]; intros local global; cbn; rewrite ?IH, ?orb_false_r, ?orb_true_r; try done; by destruct local, global.
Qed.

(** Every behavior gets the checkers that it wants. *)
Lemma setup_provides (s s' : behavior_server B E) i b : setupResourcesForBehaviorPlugins s = (Ok tt, s') -> behaviors_ s !! i = Some b ->
  behaviors_ s' = behaviors_ s /\
  (wants_local (behavior_info b) = true -> collision_checker_ (local_ s') = true) /\
  (wants_global (behavior_info b) = true -> collision_checker_ (global_ s') = true).
Proof.
  intros Hs Hi. assert (In (behavior_info b) (behavior_info <$> behaviors_ s)) as Hin.
  { apply list_elem_of_In, list_elem_of_fmap. exists b. split; [done|]. by eapply list_elem_of_lookup_2. }
  unfold setupResourcesForBehaviorPlugins, param, query, modify, get in Hs. expose in Hs.
  repeat match type of Hs with context [match read_or ?a ?b ?c with _ => _ end] => destruct (read_or a b c); try discriminate Hs end.
  rewrite costmaps_needed_spec in Hs. cbn in Hs. injection Hs as <-. cbn. split; [done|].
  split; intros Hw.
  - assert (existsb wants_local (behavior_info <$> behaviors_ s) = true) as -> by (apply existsb_exists; by eexists). done.
  - assert (existsb wants_global (behavior_info <$> behaviors_ s) = true) as -> by (apply existsb_exists; by eexists). done.
Qed.

Lemma cleanup_clears (s s' : behavior_server B E) b : on_cleanup s = (Ok b, s') ->
  b = true /\ behaviors_ s' = [] /\ tf_ s' = false /\ local_ s' = no_resources /\ global_ s' = no_resources.
Proof.
  unfold on_cleanup, modify. expose. destruct (all_behaviors behavior_cleanup s) as [[[]|e|] s1]; [|done|done].
  by intros [= <- <-].
Qed.

(** A configuration that fails leaves nothing behind. *)
Lemma failed_configure (s s' : behavior_server B E) : on_configure s = (Ok false, s') ->
  behaviors_ s' = [] /\ tf_ s' = false /\ local_ s' = no_resources /\ global_ s' = no_resources.
Proof.
  unfold on_configure, modify. expose. destruct (loadBehaviorPlugins _) as [[[|]|e|] s1]; cbn [negb]; [|intros Hc|done|done].
  - destruct (setupResourcesForBehaviorPlugins s1) as [[u|e|] s2]; [|done|done].
    by destruct (configureBehaviorPlugins s2) as [[v|e|] s3].
  - destruct (on_cleanup s1) as [[b|e|] s2] eqn:Hu; [|done|done]. apply cleanup_clears in Hu as [_ Hu].
    injection Hc as <-. exact Hu.
Qed.
End Server.
End BehaviorServer.
