(* ===== verification/BehaviorLaws.v ===== *)
(** * Laws of behaviors

    What the callback of a behavior does whatever its virtual methods are: the result that ends the goal, and that
    the robot was stopped before. The laws of the virtual methods are a class, which the behaviors that move
    implement. The velocities they send have been checked for collisions. Examples show when a
    robot goes on moving. *)

From stdpp Require Import base option list numbers strings.
From Stdlib Require Import ZArith Lia SpecFloat String.
From S2P Require Import Prelude Float64 NavFn Footprint NavfnPlanner Parameters CollisionZones CollisionSources VelocitySmoother NavMessages ActionServer ActionTask PluginNode CostmapTopics TimedBehavior Behaviors.

Import Messages.

Module BehaviorLaws.
Import ActionServer Methods Task VelocitySmoother PluginNode TimedBehavior.

Section Timed.
Context {W E D : Type}.

Abbreviation state := (node W E (timed D) message).

Implicit Types n : state.

(** The publisher of velocities is activated. *)
Definition active n : Prop := exists p, vel_pub_ (members n) = Some p /\ is_activated p = true.

(** It is, and these velocities were sent. *)
Definition quiet (l : list message) n : Prop := active n /\ sent n = l.

(** After those, only such velocities were sent. *)
Definition sends (allowed : message -> Prop) (l : list message) n : Prop :=
  active n /\ exists l', sent n = l ++ l' /\ Forall allowed l'.

Lemma quiet_active {A} (c : ST state A) : (forall l, keeps (quiet l) c) -> keeps active c.
Proof. intros Hc n Hn. by destruct (Hc (sent n) n (conj Hn eq_refl)). Qed.

Lemma quiet_sends {A} allowed l (c : ST state A) : (forall l, keeps (quiet l) c) -> keeps (sends allowed l) c.
Proof. intros Hc n (Hn & l' & Hl & Hall). destruct (Hc (sent n) n (conj Hn eq_refl)) as [Ha Hs]. split; [done|]. exists l'. by rewrite Hs. Qed.

Lemma sends_active {A} (c : ST state A) : (forall l, keeps (sends (fun _ => True) l) c) -> keeps active c.
Proof.
  intros Hc n Hn. destruct (Hc (sent n) n) as [Ha _]; [|done]. split; [done|]. exists []. by rewrite app_nil_r.
Qed.

(** A property that questions and the server leave alone, and one that assignments leave alone as well. *)
Class Still (I : state -> Prop) : Prop := still n n' : sent n' = sent n -> members n' = members n -> I n -> I n'.
Class Calm (I : state -> Prop) : Prop := calm n n' :
  sent n' = sent n -> vel_pub_ (members n') = vel_pub_ (members n) -> I n -> I n'.

#[local] Instance calm_still I `{!Calm I} : Still I.
Proof. intros n n' Hs Hm. apply calm; [done|]. by rewrite Hm. Qed.
#[local] Instance quiet_calm l : Calm (quiet l).
Proof. intros n n' Hs Hp [(p & Hn & Ha) Hl]. split; [exists p; by rewrite Hp|by rewrite Hs]. Qed.
#[local] Instance active_calm : Calm active.
Proof. intros n n' Hs Hp (p & Hn & Ha). exists p. by rewrite Hp. Qed.
#[local] Instance sends_calm allowed l : Calm (sends allowed l).
Proof. intros n n' Hs Hp [(p & Hn & Ha) Hl]. split; [exists p; by rewrite Hp|by rewrite Hs]. Qed.

Section Rules.
Context (I : state -> Prop).

Lemma look_calm `{!Still I} {A} (f : E -> A * E) : keeps I (look f).
Proof. intros n Hn. unfold look. destruct (f (outside n)). by apply (still n). Qed.
Lemma world_calm `{!Still I} {A} (c : ST E A) : keeps I (world c).
Proof. intros n Hn. unfold world. destruct (c (outside n)). by apply (still n). Qed.
Lemma assign_calm `{!Calm I} f : (forall c, vel_pub_ (f c) = vel_pub_ c) -> keeps I (assign f).
Proof. intros Hf n Hn. by apply (calm n); [|apply Hf|]. Qed.
Lemma update_calm `{!Calm I} (f : D -> D) : keeps I (update f).
Proof. by apply assign_calm. Qed.
Lemma mine_calm {A} (f : D -> A) : keeps I (mine f).
Proof. intros n Hn. exact Hn. Qed.
Lemma server_calm `{!Still I} `{!Others W E} {A} (f : server W -> A * server W) : keeps I (with_server f).
Proof.
  intros n Hn. unfold with_server. destruct (server_of n); [|done].
  destruct (others (outside n) s) as [s1 e]. destruct (f s1). by apply (still n).
Qed.
End Rules.

#[local] Hint Resolve look_calm world_calm update_calm mine_calm : keeps.
#[local] Hint Extern 1 (Calm _) => apply _ : keeps.
#[local] Hint Extern 1 (Still _) => apply _ : keeps.
#[local] Hint Extern 1 (keeps _ (ask _)) => (apply server_calm; apply _) : keeps.
#[local] Hint Extern 1 (keeps _ (tell _)) => (apply server_calm; apply _) : keeps.
#[local] Hint Extern 1 (keeps _ (assign (set_elapsed _))) => (by apply assign_calm) : keeps.

Section Methods.
Context `{!Clock E} `{!Clocks} `{!Deadlines} `{!TimedTransforms E} `{!CollisionChecking E} (I : state -> Prop) `{!Still I}.

Lemma stamped_calm t : keeps I (stamped_velocity t).
Proof. unfold stamped_velocity. keep. Qed.
Lemma end_time_calm a : keeps I (end_time a).
Proof. unfold end_time. keep. Qed.
Lemma remaining_calm a : keeps I (time_remaining a).
Proof. unfold time_remaining. keep. Qed.
Lemma robot_pose_calm : keeps I robot_pose.
Proof. unfold robot_pose. keep. Qed.
Lemma local_free_calm p b : keeps I (local_free p b).
Proof. unfold local_free. keep. Qed.
#[local] Hint Resolve local_free_calm : keeps.
Lemma simulate_calm cycles pose past : forall k b, keeps I (simulate cycles k pose past b).
Proof. induction cycles as [|m IH]; intros k b; cbn; keep. Qed.
Lemma elapsed_calm t : keeps I (elapsed_since t).
Proof. unfold elapsed_since. keep. Qed.
Lemma late_calm `{!Durations} t a : keeps I (Cycles.out_of_time t a).
Proof. unfold Cycles.out_of_time. apply keeps_bind; [by apply remaining_calm|]. intros ?. keep. Qed.
Lemma max_calm f a : keeps I (Cycles.max_cycle_count f a).
Proof. unfold Cycles.max_cycle_count. keep. Qed.
End Methods.
#[local] Hint Resolve stamped_calm end_time_calm remaining_calm robot_pose_calm local_free_calm simulate_calm elapsed_calm
  late_calm max_calm : keeps.

(** ** Velocities *)

Definition message_of (p : TwistPublisher) (v : TwistStamped) : message := if is_stamped_ p then TWIST_STAMPED v else TWIST (twist v).

(** The twist of a message. *)
Definition twist_of (m : message) : Twist := match m with TWIST t => t | TWIST_STAMPED v => twist v end.

Lemma velocity_sends v l : ends (quiet l) (publish_velocity v) (fun r n => r = Ok tt /\
  active n /\ exists m, sent n = l ++ [m] /\ twist_of m = twist v).
Proof.
  intros n [(p & Hp & Ha) Hl]. unfold publish_velocity, own, query, publish. expose. cbn. rewrite Hp. cbn. rewrite Ha.
  split; [done|]. split; [by exists p|]. exists (message_of p v). cbn. rewrite Hl. split; [done|].
  unfold message_of. by destruct (is_stamped_ p).
Qed.

Lemma publish_allowed (allowed : message -> Prop) v l : (forall m, twist_of m = twist v -> allowed m) ->
  keeps (sends allowed l) (publish_velocity v).
Proof.
  intros Hv n (Hn & l' & Hl & Hall). destruct (velocity_sends v (sent n) n (conj Hn eq_refl)) as (_ & Ha & m & Hm & Ht).
  split; [done|]. exists (l' ++ [m]). rewrite Hm, Hl, app_assoc. split; [done|]. apply Forall_app. split; [done|].
  constructor; [by apply Hv|constructor].
Qed.

Lemma zero_message m : twist_of m = zero_twist -> is_zero m.
Proof. by destruct m. Qed.

Section Stop.
Context `{!Clock E} `{!Clocks}.

(** The robot stops. *)
Lemma stop_sends l : ends (quiet l) stopRobot (fun r n => r = Ok tt /\
  active n /\ exists m, sent n = l ++ [m] /\ is_zero m).
Proof.
  intros n Hn. unfold stopRobot, stamped_velocity, own, look. expose. cbn. destruct (now (outside n)) as [t e]. cbn.
  match goal with |- context [publish_velocity ?v ?n1] => pose proof (velocity_sends v l n1 Hn) as Hp end.
  destruct (publish_velocity _ _) as [r n2]. destruct Hp as (-> & Ha & m & Hm & Ht).
  split; [done|]. split; [done|]. exists m. split; [done|]. by apply zero_message.
Qed.

Lemma stop_stops : ends active stopRobot (fun r n => r = Ok tt /\ active n /\ stopped n).
Proof.
  intros n Hn. destruct (stop_sends (sent n) n (conj Hn eq_refl)) as (Hr & Ha & m & Hm & Hz).
  split; [done|]. split; [done|]. exists m. rewrite Hm. by rewrite last_snoc.
Qed.

Lemma stop_allowed allowed l : (forall m, is_zero m -> allowed m) -> keeps (sends allowed l) stopRobot.
Proof.
  intros Hz n (Hn & l' & Hl & Hall). destruct (stop_sends (sent n) n (conj Hn eq_refl)) as (_ & Ha & m & Hm & Hzm).
  split; [done|]. exists (l' ++ [m]). rewrite Hm, Hl, app_assoc. split; [done|]. apply Forall_app. split; [done|].
  constructor; [by apply Hz|constructor].
Qed.

(** A publisher that is not activated sends nothing, as after a transition has deactivated it. *)
Lemma stop_unheard p n : vel_pub_ (members n) = Some p -> is_activated p = false ->
  fst (stopRobot n) = Ok tt /\ sent (snd (stopRobot n)) = sent n.
Proof.
  intros Hp Ha. unfold stopRobot, stamped_velocity, publish_velocity, own, look, query, publish. expose. cbn.
  destruct (now (outside n)) as [t e]. cbn. rewrite Hp. cbn. by rewrite Ha.
Qed.
End Stop.
End Timed.

#[local] Existing Instances calm_still quiet_calm active_calm sends_calm.
#[local] Hint Extern 1 (Calm _) => apply _ : keeps.
#[local] Hint Extern 1 (Still _) => apply _ : keeps.
#[local] Hint Extern 1 (keeps _ (ask _)) => (apply server_calm; apply _) : keeps.
#[local] Hint Extern 1 (keeps _ (tell _)) => (apply server_calm; apply _) : keeps.
#[local] Hint Extern 1 (keeps _ (assign (set_elapsed _))) => (by apply assign_calm) : keeps.
#[local] Hint Resolve look_calm world_calm update_calm mine_calm stamped_calm end_time_calm remaining_calm robot_pose_calm
  local_free_calm simulate_calm elapsed_calm late_calm max_calm : keeps.

(** ** The callback *)

(** The laws of a behavior that moves the robot: the velocities that it sends are [allowed], and it ends a cycle with zero
    velocity if it has succeeded or failed, unless the error is in [lost]. *)
Class MotionLaws `{!Behavior W E D G} (allowed : message -> Prop) (lost : Z -> Prop) : Prop := {
  run_quiet : forall g l, keeps (quiet (W := W) l) (onRun g);
  completion_quiet : forall l, keeps (quiet (W := W) l) onActionCompletion;
  zero_allowed : forall m, is_zero m -> allowed m;
  cycle_sends : forall l, keeps (sends (W := W) allowed l) onCycleUpdate;
  cycle_stops : ends (active (W := W)) onCycleUpdate (fun r n => forall s, r = Ok (Some s) ->
    (status s = SUCCEEDED -> stopped n) /\ (status s = FAILED -> stopped n \/ lost (error_code s))) }.

Section Execute.
Context {W E D G F : Type} `{!GoalHandles W G Result F} `{!Others W E}.
Context `{!Clock E} `{!Clocks} `{!BehaviorWorld W E} `{B : !Behavior W E D G}.
Context (allowed : message -> Prop) (lost : Z -> Prop) `{L : !MotionLaws allowed lost}.

Abbreviation state := (node W E (timed D) message).

Implicit Types n : state.

Lemma completion_stops : keeps (fun n => active n /\ stopped n) onActionCompletion.
Proof.
  intros n [Hn (m & Hm & Hz)]. destruct (completion_quiet (sent n) n (conj Hn eq_refl)) as [Ha Hs].
  split; [done|]. exists m. by rewrite Hs.
Qed.

Definition at_rest n : Prop := active n /\ stopped n.
#[local] Instance rest_calm : Calm at_rest.
Proof.
  intros n n' Hs Hp [(p & Hn & Ha) (m & Hm & Hz)]. split; [exists p; by rewrite Hp|]. exists m. by rewrite Hs.
Qed.

(** The calls that end the goal, where [P] holds before and after. *)
Lemma finish_last (P : state -> Prop) `{!Calm P} t code c : keeps P onActionCompletion ->
  ends P (finish t code c) (fun r n => P n /\ (r = Ok tt -> exists total, last_call (c (mk_result total code)) n)).
Proof.
  intros HP. unfold finish. eapply ends_bind; [apply (elapsed_calm P)| | |].
  - intros total. eapply ends_bind; [exact HP| | |].
    + intros u n Hn. split; [by apply (server_calm P)|]. intros Hr. exists total. apply (tell_last _ n tt).
      by destruct (tell _ n); cbn in *; subst.
    + intros e n Hn. by split.
    + intros n Hn. by split.
  - intros e n Hn. by split.
  - intros n Hn. by split.
Qed.

Context `{!GoalHandleLaws W G Result F}.

(** The goal is over with this call, and the velocities are as they should. *)
Definition ended (e : ending) n : Prop :=
  match e with
  | Preempted => at_rest n /\ over n /\ exists t, last_call (call_terminate_current (mk_result t NONE)) n
  | Canceled => at_rest n /\ over n /\ exists t, last_call (call_terminate_all (mk_result t NONE)) n
  | Succeeded => at_rest n /\ over n /\ exists t, last_call (call_succeeded (mk_result t NONE)) n
  | Failed c => (at_rest n \/ lost c) /\ over n /\ exists t, last_call (call_terminate_current (mk_result t c)) n
  | NotOk | Running => True
  | Inactive | Rejected _ => False
  end.

Lemma finish_over (P : state -> Prop) `{!Calm P} t code c : (forall r, final (c r) = true) -> keeps P onActionCompletion ->
  ends P (finish t code c) (fun r n => P n /\ (r = Ok tt -> over n /\ exists total, last_call (c (mk_result total code)) n)).
Proof.
  intros Hc HP. eapply ends_weaken; [by apply (finish_last P)|]. intros r n [Hn Hl]. split; [done|].
  intros Hr. destruct (Hl Hr) as [total Ht]. split; [by eapply last_over; [apply Hc|]|]. by exists total.
Qed.

Definition loop_ends (r : res ending) n : Prop := forall e, r = Ok e -> ended e n.

Lemma loop_throw e n : loop_ends (Throw e) n.
Proof. by intros e' [=]. Qed.
Lemma loop_ub n : loop_ends UB n.
Proof. by intros e' [=]. Qed.
#[local] Hint Resolve loop_throw loop_ub : core.

(** A call that ends the goal and then gives the ending. *)
Lemma ends_ending (P : state -> Prop) (c : ST state ()) (e : ending) :
  ends P c (fun r n => r = Ok tt -> ended e n) -> ends P (_ ← c; mret e) loop_ends.
Proof.
  intros Hc. eapply ends_bind; [exact Hc| | |]; [|by intros x n _|by intros n _].
  intros [] n Hn e' [= <-]. by apply Hn.
Qed.

Lemma preempted_ends t : ends active (_ ← stopRobot; _ ← finish t NONE call_terminate_current; mret Preempted) loop_ends.
Proof.
  eapply ends_bind; [apply stop_stops| | |]; [|by intros x n _|by intros n _]. intros [].
  eapply ends_pre; [apply (ends_ending at_rest)|by intros n (_ & Hn)].
  eapply ends_weaken; [apply (finish_over at_rest); [done|apply completion_stops]|]. intros r n [Hn Ho] Hr. split; [done|auto].
Qed.

Lemma canceled_ends : ends active
  (_ ← stopRobot; total ← own elasped_time_; _ ← onActionCompletion; _ ← tell (call_terminate_all (mk_result total NONE)); mret Canceled) loop_ends.
Proof.
  eapply ends_bind; [apply stop_stops| | |]; [|by intros x n _|by intros n _]. intros [].
  eapply ends_pre; [|by intros n (_ & Hn); exact Hn]. apply own_any. intros total.
  eapply (ends_bind at_rest); [apply completion_stops| | |]; [|by intros x n _|by intros n _]. intros [].
  apply (ends_ending at_rest). intros n Hn Hr. split; [by apply (server_calm at_rest)|].
  assert (last_call (call_terminate_all (mk_result total NONE)) (snd (tell (call_terminate_all (mk_result total NONE)) n))) as Hl.
  { apply (tell_last _ n tt). by destruct (tell _ n); cbn in *; subst. }
  split; [by eapply last_over; [|exact Hl]|]. by exists total.
Qed.

Lemma succeeded_ends t : ends at_rest (_ ← finish t NONE call_succeeded; mret Succeeded) loop_ends.
Proof.
  apply ends_ending. eapply ends_weaken; [apply (finish_over at_rest); [done|apply completion_stops]|].
  intros r n [Hn Ho] Hr. split; [done|auto].
Qed.

Lemma failed_ends t code (P : state -> Prop) `{!Calm P} : keeps P onActionCompletion -> (forall n, P n -> at_rest n \/ lost code) ->
  ends P (_ ← finish t code call_terminate_current; mret (Failed code)) loop_ends.
Proof.
  intros HP Hrest. apply ends_ending. eapply ends_weaken; [by apply (finish_over P)|].
  intros r n [Hn Ho] Hr. split; [by apply Hrest|auto].
Qed.

Lemma cycle_active : keeps (active (W := W)) onCycleUpdate.
Proof.
  intros n Hn. destruct (cycle_sends (sent n) n) as [Ha _]; [|done]. split; [done|]. exists []. by rewrite app_nil_r.
Qed.

Lemma loop_ended rounds t : ends active (cycle_loop rounds t) loop_ends.
Proof.
  induction rounds as [|k IH]; cbn [cycle_loop]; [by intros n _ e [= <-]|].
  apply ends_after; [keep| |done|done]. intros [|]; cbn [negb]; [|by intros n _ e [= <-]].
  apply ends_after; [keep| |done|done]. intros elapsed_time.
  apply ends_after; [keep| |done|done]. intros _.
  apply ends_after; [keep| |done|done]. intros [|]; [apply preempted_ends|].
  apply ends_after; [keep| |done|done]. intros [|]; [apply canceled_ends|].
  eapply (ends_bind _ _ _ (fun r n => active n /\ forall s, r = Ok (Some s) ->
    (status s = SUCCEEDED -> stopped n) /\ (status s = FAILED -> stopped n \/ lost (error_code s)))).
  - intros n Hn. split; [by apply cycle_active|by apply cycle_stops].
  - intros [s|]; [|by intros n _ e [= <-]]. destruct (status s) eqn:Hs.
    + eapply ends_pre; [apply succeeded_ends|]. intros n [Hn Hc]. split; [done|]. by apply (Hc s).
    + intros n [Hn Hc]. destruct (Hc s eq_refl) as [_ Hf]. destruct (Hf Hs) as [Hst|Hl].
      * apply (failed_ends t (error_code s) at_rest); [apply completion_stops|by left|done].
      * apply (failed_ends t (error_code s) active); [|by right|done]. apply quiet_active, completion_quiet.
    + eapply ends_pre; [exact IH|]. by intros n [Hn _].
  - by intros e n _.
  - by intros n _.
Qed.

(** What holds when the callback returns: as after the loop; or it did nothing; or the goal was rejected before any
    velocity was sent. *)
Definition returned n (e : ending) n' : Prop :=
  match e with
  | Inactive => n' = n
  | Rejected c => sent n' = sent n /\ over n' /\ last_call (call_terminate_current (mk_result 0 c)) n'
  | e => ended e n'
  end.

Lemma execute_returned rounds n e : active n -> fst (execute rounds n) = Ok e -> returned n e (snd (execute rounds n)).
Proof.
  intros Hn. unfold execute, own. expose. cbn. destruct (enabled_ (members n)); cbn [negb]; [|by intros [= <-]].
  assert (ends (quiet (sent n)) (goal ← ask get_current_goal; r ← onRun goal;
      match status r with
      | SUCCEEDED => start_time ← look now; frequency ← (n ← get; mret (cycle_frequency_ (members n)));
          _ ← query (fun _ => of_outcome (make_rate frequency)); cycle_loop rounds start_time
      | _ => _ ← tell (call_terminate_current (mk_result 0 (error_code r))); mret (Rejected (error_code r))
      end) (fun r n' => forall e, r = Ok e -> returned n e n')) as Hends.
  { apply ends_after; [keep| |done|done]. intros goal.
    apply ends_after; [apply run_quiet| |done|done]. intros r.
    assert (ends (quiet (sent n)) (_ ← tell (call_terminate_current (mk_result 0 (error_code r))); mret (Rejected (error_code r)))
      (fun r n' => forall e, r = Ok e -> returned n e n')) as Hrej.
    { intros n1 [Hn1 Hs1] x. expose. pose proof (server_calm (quiet (sent n))
        (fun s => (tt, run_call (call_terminate_current (mk_result 0 (error_code r))) s)) n1 (conj Hn1 Hs1)) as [_ Hq].
      pose proof (tell_last (call_terminate_current (mk_result 0 (error_code r))) n1 tt) as Hl. unfold tell in *.
      destruct (with_server _ n1) as [[[]|y|] n2]; cbn in *; try done. intros [= <-]. specialize (Hl n2 eq_refl).
      split; [done|]. split; [by eapply last_over; [|exact Hl]|done]. }
    destruct (status r); [|exact Hrej|exact Hrej].
    apply ends_after; [keep| |done|done]. intros t. apply ends_after; [keep| |done|done]. intros f.
    apply ends_after; [keep| |done|done]. intros _.
    intros n1 [Hn1 _] x Hx. pose proof (loop_ended rounds t n1 Hn1 x Hx) as He. by destruct x. }
  exact (Hends n (conj Hn eq_refl) e).
Qed.

(** Only such velocities are sent. *)
Lemma execute_sends rounds l : keeps (sends allowed l) (execute rounds).
Proof.
  assert (keeps (sends allowed l) onActionCompletion) as Hc by (apply quiet_sends, completion_quiet).
  assert (forall t code c, keeps (sends allowed l) (finish t code c)) as Hf by (intros; unfold finish; keep).
  assert (keeps (sends (W := W) (D := D) allowed l) stopRobot) as Hs by (apply stop_allowed, zero_allowed).
  pose proof (cycle_sends l) as Hy.
  assert (forall t, keeps (sends allowed l) (cycle_loop rounds t)) as Hloop.
  { intros t. induction rounds as [|k IH]; cbn [cycle_loop]; keep. }
  assert (forall g, keeps (sends allowed l) (onRun g)) as Hr by (intros g; apply quiet_sends, run_quiet).
  unfold execute. keep.
Qed.
End Execute.

(** ** Looking ahead *)

Section Ahead.
Context {W E D : Type} `{!TimedTransforms E} `{!Clocks} `{!CollisionChecking E}.

(** Where the robot is free, as far as the checker tells. *)
Context (free : Pose2D -> Prop) (sees : forall p fetch e, fst (collision_free p fetch e) = Ok true -> free p).

Abbreviation state := (node W E (timed D) message).

Lemma local_free_sees (I : state -> Prop) `{!Still I} p fetch :
  ends I (local_free p fetch) (fun r n => I n /\ (r = Ok true -> free p)).
Proof.
  intros n Hn. split; [by apply local_free_calm|]. unfold local_free, own, world. expose. cbn.
  destruct (local_collision_checker_ (members n)); [|done]. intros Hr. apply (sees p fetch (outside n)).
  by destruct (collision_free p fetch (outside n)).
Qed.

(** All cycles up to the one that is past the target are free. *)
Lemma simulate_free (I : state -> Prop) `{!Still I} pose past cycles : forall k fetch,
  ends I (simulate cycles k pose past fetch) (fun r n => I n /\ (r = Ok true ->
    forall j, k <= j < k + Z.of_nat cycles -> (forall i, k <= i <= j -> past i = false) -> free (pose j))).
Proof.
  induction cycles as [|cycles IH]; intros k fetch; cbn [simulate].
  { intros n Hn. split; [done|]. intros _ j Hj. lia. }
  destruct (past k) eqn:Hp.
  { intros n Hn. split; [done|]. intros _ j Hj Hpast. rewrite Hpast in Hp by lia. done. }
  eapply ends_bind; [apply (local_free_sees I)| | |]; [|by intros e n [Hn _]|by intros n [Hn _]].
  intros [|]; cbn [negb]; [|by intros n [Hn _]].
  intros n [Hn Hf]. destruct (IH (k + 1) false n Hn) as [Hn' Hall]. split; [done|]. intros Hr j Hj Hpast.
  destruct (decide (j = k)) as [->|]; [by apply Hf|]. apply (Hall Hr); [lia|]. intros i Hi. apply Hpast. lia.
Qed.

(** The pose of the robot is an answer of the transforms. *)
Definition robot_at (c : timed D) (p : PoseStamped) : Prop := exists e e',
  RobotPose.getCurrentPose (local_frame_ c) (robot_base_frame_ c) (transform_tolerance_ c) 0 e = (Ok (Some p), e').

Lemma robot_pose_at (I : state -> Prop) `{!Still I} c : ends (fun n => I n /\ members n = c) robot_pose
  (fun r n => (I n /\ members n = c) /\ forall p, r = Ok (Some p) -> robot_at c p).
Proof.
  intros n [Hn <-]. unfold robot_pose, own, world. expose. cbn.
  destruct (RobotPose.getCurrentPose _ _ _ _ _) as [r e] eqn:Hp. cbn. split; [split; [by apply (still n)|done]|].
  intros p ->. by exists (outside n), e.
Qed.
End Ahead.

(** A result that is always there. *)
Lemma some_keeps {S A} (I : S -> Prop) (c : ST S A) : keeps I c -> keeps I (r ← c; mret (Some r)).
Proof. intros Hc. keep. Qed.

Lemma some_ends {S A} (P : S -> Prop) (c : ST S A) (Q : A -> S -> Prop) :
  ends P c (fun r n => forall s, r = Ok s -> Q s n) -> ends P (r ← c; mret (Some r)) (fun r n => forall s, r = Ok (Some s) -> Q s n).
Proof.
  intros Hc n Hn s. specialize (Hc n Hn). expose. destruct (c n) as [[a|e|] n']; cbn in *; [|done|done]. intros [= <-]. by apply Hc.
Qed.

(** ** Driving *)

Section Drive.
Import Cycles DriveOnHeading.
Context {W E : Type} `{!GoalHandles W Goal Result spec_float} `{!Others W E}.
Context `{!Clock E} `{!Clocks} `{!Deadlines} `{!Durations} `{!TimedTransforms E} `{!CollisionChecking E}.
Context `{!Mathematics} `{!Angles} `{!NodeParameters} (action : codes).
Context (free : Pose2D -> Prop) (sees : forall p fetch e, fst (collision_free p fetch e) = Ok true -> free p).

Abbreviation state := (node W E (timed drive) message).

(** A velocity that was checked from the members [c]: it is the one of the command; from the pose of the robot, which has not reached
    the target, it was simulated for the time ahead; and each pose before the target is free. *)
Definition checked_drive (c : timed drive) (m : message) : Prop := exists p max,
  robot_at c p /\ twist_of m = planar (command_speed_ (derived c)) f64_zero f64_zero /\
  let distance := distance_driven (initial_pose_ (derived c)) p in
  let change := sim_position_change (command_speed_ (derived c)) (cycle_frequency_ c) in
  f64_le (SFabs (command_x_ (derived c))) distance = false /\
  f64_to_int 32 (f64_mul (cycle_frequency_ c) (simulate_ahead_time_ (derived c))) = Ok max /\
  forall k, 0 <= k < max ->
    (forall j, 0 <= j <= k ->
      f64_le (f64_sub (f64_sub (SFabs (command_x_ (derived c))) distance) (SFabs (change j))) f64_zero = false) ->
    free (drive_pose (pose_2d p) (change k)).

(** The members are these, and the velocities sent as well. *)
Definition from (c : timed drive) (l : list message) (n : state) : Prop := quiet l n /\ members n = c.

#[local] Instance from_still c l : Still (from c l).
Proof. intros n n' Hs Hm [Hq <-]. split; [|done]. by apply (still n). Qed.

Lemma collision_free_checks c l p v : lin_x v = command_speed_ (derived c) ->
  let distance := distance_driven (initial_pose_ (derived c)) p in
  let change := sim_position_change (command_speed_ (derived c)) (cycle_frequency_ c) in
  ends (from c l) (isCollisionFree distance v (pose_2d p)) (fun r n => from c l n /\ (r = Ok true ->
    exists max, f64_to_int 32 (f64_mul (cycle_frequency_ c) (simulate_ahead_time_ (derived c))) = Ok max /\
      forall k, 0 <= k < max ->
        (forall j, 0 <= j <= k ->
          f64_le (f64_sub (f64_sub (SFabs (command_x_ (derived c))) distance) (SFabs (change j))) f64_zero = false) ->
        free (drive_pose (pose_2d p) (change k)))).
Proof.
  intros Hv distance change n Hn. pose proof Hn as [_ Hc]. unfold isCollisionFree, mine, own, max_cycle_count, query. expose. cbn.
  rewrite Hc, Hv. destruct (f64_to_int 32 _) as [max| |] eqn:Hmax; [|done|done].
  match goal with |- context [simulate ?a ?b ?p ?q ?f n] =>
    destruct (simulate_free free sees (from c l) p q a b f n Hn) as [Hn' Hall] end.
  split; [exact Hn'|]. intros Hr. exists max. split; [done|]. intros k Hk Hpast. apply (Hall Hr k); [lia|exact Hpast].
Qed.

(** What a cycle does. *)
Definition drive_result (c : timed drive) (l : list message) (r : res ResultStatus) (n : state) : Prop :=
  active n /\
  match r with
  | Ok s =>
      match status s with
      | RUNNING => exists m, sent n = l ++ [m] /\ checked_drive c m
      | SUCCEEDED => exists m, sent n = l ++ [m] /\ is_zero m
      | FAILED => (error_code s = TF_ERROR action /\ sent n = l) \/ exists m, sent n = l ++ [m] /\ is_zero m
      end
  | _ => sent n = l
  end.

Lemma stop_result c l s : status s = SUCCEEDED \/ status s = FAILED ->
  ends (from c l) (_ ← stopRobot; mret s) (drive_result c l).
Proof.
  intros Hs n [Hn _]. destruct (stop_sends l n Hn) as (Hr & Ha & m & Hm & Hz). expose.
  destruct (stopRobot n) as [r n']. cbn in *. subst r. split; [exact Ha|]. cbn.
  destruct Hs as [-> | ->]; [by exists m|right; by exists m].
Qed.

Lemma drive_cycle_ends c l : ends (from c l) (onCycleUpdate action) (drive_result c l).
Proof.
  assert (forall e n, from c l n -> drive_result c l (Throw e) n) as Ht by (by intros e n [[Ha Hl] _]).
  assert (forall n, from c l n -> drive_result c l UB n) as Hu by (by intros n [[Ha Hl] _]).
  unfold onCycleUpdate.
  apply (ends_bind _ _ _ (fun r n => from c l n /\ r = Ok (derived c))); [by intros n [Hn <-]| |by intros e n [_ ?]|by intros n [_ ?]].
  intros d n [Hn [= ->]]. revert n Hn.
  change (ends (from c l) (late ← out_of_time (end_time_ (derived c)) (command_time_allowance_ (derived c));
    if (late : bool) then _ ← stopRobot; mret (fails (TIMEOUT action)) else
    p ← robot_pose;
    match p with
    | None => mret (fails (TF_ERROR action))
    | Some p =>
        let distance := distance_driven (initial_pose_ (derived c)) p in
        _ ← tell (call_feedback (f32_of_f64 distance));
        if f64_le (SFabs (command_x_ (derived c))) distance then _ ← stopRobot; mret succeeds else
        cmd_vel ← stamped_velocity (planar (command_speed_ (derived c)) f64_zero f64_zero);
        free ← isCollisionFree distance (twist cmd_vel) (pose_2d p);
        if negb free then _ ← stopRobot; mret (fails (COLLISION_AHEAD action)) else
        _ ← publish_velocity cmd_vel;
        mret continues
    end) (drive_result c l)).
  apply ends_after; [keep| |exact Ht|exact Hu]. intros [|]; [apply stop_result; by right|].
  eapply (ends_bind _ _ _ (fun r n => from c l n /\ forall p, r = Ok (Some p) -> robot_at c p));
    [apply (robot_pose_at (quiet l))| |by intros e n [Hn _]; apply Ht|by intros n [Hn _]; apply Hu].
  intros [p|]; [|intros n [[[Ha Hl] _] _]; split; [done|by left]].
  intros n [Hn Hp]. specialize (Hp p eq_refl). revert n Hn. cbv zeta.
  match goal with |- forall n, from c l n -> drive_result c l (fst (?k n)) (snd (?k n)) => change (ends (from c l) k (drive_result c l)) end.
  apply ends_after; [keep| |exact Ht|exact Hu]. intros _.
  destruct (f64_le _ _) eqn:Hdist; [apply stop_result; by left|].
  apply (ends_bind _ _ _ (fun r n => from c l n /\ forall v, r = Ok v -> twist v = planar (command_speed_ (derived c)) f64_zero f64_zero)).
  { intros n Hn. split; [by apply stamped_calm; [apply _|]|]. unfold stamped_velocity, own, look. expose. cbn.
    destruct (now (outside n)) as [t e]. cbn. by intros v [= <-]. }
  2: { intros e n [Hn _]. by apply Ht. }
  2: { intros n [Hn _]. by apply Hu. }
  intros v n [Hn Hv]. specialize (Hv v eq_refl). revert n Hn.
  match goal with |- forall n, from c l n -> drive_result c l (fst (?k n)) (snd (?k n)) => change (ends (from c l) k (drive_result c l)) end.
  eapply ends_bind; [apply (collision_free_checks c l p (twist v)); by rewrite Hv| |by intros e n [Hn _]; apply Ht|by intros n [Hn _]; apply Hu].
  intros [|]; cbn [negb]; [|intros n [Hn _]; by apply stop_result; [right|]].
  intros n [[Hn Hc] Hfree]. destruct (Hfree eq_refl) as (max & Hmax & Hall).
  destruct (velocity_sends v l n Hn) as (Hr & Ha & m & Hm & Htw). expose. destruct (publish_velocity v n) as [r n']. cbn in *. subst r.
  split; [done|]. cbn. exists m. split; [done|]. exists p, max. rewrite Htw, Hv. by repeat split.
Qed.

(** C16: a cycle of driving on the heading sends at most one velocity. If it goes on, that is the velocity of the command, and
    every pose that the simulation reaches before the target, from the pose of the robot, was found free; if it
    succeeds, it is zero; if it fails, it is zero or, where the pose of the robot is not known, nothing is sent. *)
Theorem drive_cycle c l n : active n -> sent n = l -> members n = c ->
  drive_result c l (fst (onCycleUpdate action n)) (snd (onCycleUpdate action n)).
Proof. intros Ha Hl Hc. by apply drive_cycle_ends. Qed.

(** A cycle does not change the members. *)
Definition fixed (c : timed drive) (n : state) : Prop := members n = c.
#[local] Instance fixed_still c : Still (fixed c).
Proof. intros n n' _ Hm Hn. unfold fixed. by rewrite Hm. Qed.

Lemma publish_fixed c v : keeps (fixed c) (publish_velocity v).
Proof.
  intros n Hn. unfold publish_velocity, own, query, publish. expose. cbn.
  destruct (vel_pub_ (members n)) as [p|]; cbn; [|done]. by destruct (is_activated p).
Qed.
#[local] Hint Resolve publish_fixed : keeps.
Lemma stop_fixed c : keeps (fixed c) stopRobot.
Proof. unfold stopRobot. keep. Qed.
#[local] Hint Resolve stop_fixed : keeps.
Lemma free_fixed c d v p : keeps (fixed c) (isCollisionFree d v p).
Proof. unfold isCollisionFree. keep. Qed.
#[local] Hint Resolve free_fixed : keeps.
Lemma cycle_fixed c : keeps (fixed c) (onCycleUpdate action).
Proof. unfold onCycleUpdate. keep. Qed.

(** A robot that drives with the members [c], but for the time that has elapsed, has sent zero and velocities
    that were checked from [c]. *)
Definition trip (c : timed drive) (l : list message) (n : state) : Prop :=
  active n /\ (exists t, members n = set_elapsed t c) /\
  exists l', sent n = l ++ l' /\ Forall (fun m => is_zero m \/ checked_drive c m) l'.

#[local] Instance trip_still c l : Still (trip c l).
Proof.
  intros n n' Hs Hm (Ha & (t & Ht) & l' & Hl & Hall). split; [by apply (still n)|].
  split; [exists t; by rewrite Hm|]. exists l'. by rewrite Hs.
Qed.

Lemma trip_elapsed c l t : keeps (trip c l) (assign (set_elapsed t)).
Proof.
  intros n (Ha & (t' & Ht) & l' & Hl & Hall). split; [by apply (assign_calm active)|].
  split; [|by exists l']. exists t. cbn. by rewrite Ht.
Qed.

Lemma trip_more c l n n' m t : trip c l n -> active n' -> members n' = set_elapsed t c -> sent n' = sent n ++ [m] ->
  is_zero m \/ checked_drive c m -> trip c l n'.
Proof.
  intros (_ & _ & l' & Hl & Hall) Ha Ht Hs Hm. split; [done|]. split; [by exists t|]. exists (l' ++ [m]).
  rewrite Hs, Hl, app_assoc. split; [done|]. apply Forall_app. split; [done|]. by constructor.
Qed.

Lemma trip_stop c l : keeps (trip c l) stopRobot.
Proof.
  intros n Hn. pose proof Hn as (Ha & (t & Ht) & _).
  destruct (stop_sends (sent n) n (conj Ha eq_refl)) as (_ & Ha' & m & Hm & Hz).
  apply (trip_more c l n _ m t); [done|done| |done|by left]. by apply stop_fixed.
Qed.

Lemma trip_cycle c l : keeps (trip c l) (onCycleUpdate action).
Proof.
  intros n Hn. pose proof Hn as (Ha & (t & Ht) & l' & Hl & Hall).
  destruct (drive_cycle_ends (members n) (sent n) n (conj (conj Ha eq_refl) eq_refl)) as [Ha' Hr].
  assert (members (snd (onCycleUpdate action n)) = set_elapsed t c) as Hm' by by apply cycle_fixed.
  assert (sent (snd (onCycleUpdate action n)) = sent n -> trip c l (snd (onCycleUpdate action n))) as Hnone.
  { intros Hs. split; [done|]. split; [by exists t|]. exists l'. by rewrite Hs. }
  pose proof (fun m => trip_more c l n _ m t Hn Ha' Hm') as Hone.
  destruct (fst (onCycleUpdate action n)) as [s|e|]; [|by apply Hnone|by apply Hnone].
  destruct (status s).
  - destruct Hr as (m & Hm & Hz). apply (Hone m Hm). by left.
  - destruct Hr as [[_ Hs]|(m & Hm & Hz)]; [by apply Hnone|]. apply (Hone m Hm). by left.
  - destruct Hr as (m & Hm & Hc). apply (Hone m Hm). right. rewrite Ht in Hc. exact Hc.
Qed.

(** What is sent while the robot drives. *)
Definition allowed_drive (m : message) : Prop := is_zero m \/ exists c, checked_drive c m.

Definition no_pose (c : Z) : Prop := c = TF_ERROR action.

Lemma drive_sends l : keeps (sends allowed_drive l) (onCycleUpdate action).
Proof.
  intros n (Hn & l' & Hl & Hall).
  destruct (drive_cycle_ends (members n) (sent n) n (conj (conj Hn eq_refl) eq_refl)) as [Ha Hr]. split; [done|].
  assert (forall m, sent (snd (onCycleUpdate action n)) = sent n ++ [m] -> allowed_drive m ->
    exists l', sent (snd (onCycleUpdate action n)) = l ++ l' /\ Forall allowed_drive l') as Hone.
  { intros m Hm Hok. exists (l' ++ [m]). rewrite Hm, Hl, app_assoc. split; [done|]. apply Forall_app. split; [done|].
    constructor; [done|constructor]. }
  destruct (fst (onCycleUpdate action n)) as [s|e|].
  - destruct (status s).
    + destruct Hr as (m & Hm & Hz). apply (Hone m Hm). by left.
    + destruct Hr as [[_ Hs]|(m & Hm & Hz)]; [by exists l'; rewrite Hs|]. apply (Hone m Hm). by left.
    + destruct Hr as (m & Hm & Hc). apply (Hone m Hm). right. by eexists.
  - exists l'. by rewrite Hr.
  - exists l'. by rewrite Hr.
Qed.

Lemma drive_stops_cycle : ends (active (W := W)) (onCycleUpdate action) (fun r n => forall s, r = Ok s ->
  (status s = SUCCEEDED -> stopped n) /\ (status s = FAILED -> stopped n \/ no_pose (error_code s))).
Proof.
  intros n Hn s Hs.
  destruct (drive_cycle_ends (members n) (sent n) n (conj (conj Hn eq_refl) eq_refl)) as [_ Hr]. rewrite Hs in Hr.
  assert (forall m, sent (snd (onCycleUpdate action n)) = sent n ++ [m] -> is_zero m -> stopped (snd (onCycleUpdate action n))) as Hst.
  { intros m Hm Hz. exists m. rewrite Hm. by rewrite last_snoc. }
  split; intros E1; rewrite E1 in Hr.
  - destruct Hr as (m & Hm & Hz). by apply (Hst m).
  - destruct Hr as [[He _]|(m & Hm & Hz)]; [by right|left; by apply (Hst m)].
Qed.

(** The two commands send nothing. *)
Lemma begin_quiet x v a l : keeps (quiet (W := W) l) (begin_drive action x v a).
Proof. unfold begin_drive. keep. Qed.
Lemma drive_run_quiet g l : keeps (quiet (W := W) l) (drive_run action g).
Proof. pose proof begin_quiet. unfold drive_run. keep. Qed.
Lemma back_up_run_quiet g l : keeps (quiet (W := W) l) (back_up_run action g).
Proof. pose proof begin_quiet. unfold back_up_run. keep. Qed.

(** The members of a run that has begun: those at its start, with the pose of the robot and the command. *)
Definition begun (c0 : timed drive) (command : f64 * f64) (c : timed drive) : Prop := exists p allowance t,
  robot_at c0 p /\
  c = set_derived (mk_drive p (fst command) (snd command) allowance t (simulate_ahead_time_ (derived c0))) c0.

Lemma begin_begun c0 l x v a : ends (from c0 l) (begin_drive action x v a)
  (fun r n => quiet l n /\ forall s, r = Ok s -> status s = SUCCEEDED -> begun c0 (x, v) (members n)).
Proof.
  intros n [Hn Hc]. split; [by apply begin_quiet|]. intros s.
  unfold begin_drive, update, assign, modify, end_time, robot_pose, world, own, look, query. expose. cbn. rewrite Hc.
  destruct (now (outside n)) as [t e1]. cbn. destruct (later t a) as [te|x0]; cbn; [|done].
  match goal with |- context [RobotPose.getCurrentPose ?f ?b ?tol 0 e1] =>
    destruct (RobotPose.getCurrentPose f b tol 0 e1) as [[[p|]|x0|] e2] eqn:Hp end; cbn; try done.
  - intros [= <-] _. exists p, a, te. split; [by exists e1, e2|done].
  - by intros [= <-].
Qed.
(** The distance and the velocity that a goal demands. *)
Definition drive_command (goal : Goal) : f64 * f64 := (target_x goal, f64_of_f32 (speed goal)).
Definition back_up_command (goal : Goal) : f64 * f64 :=
  (SFopp (SFabs (target_x goal)), f64_of_f32 (SFopp (SFabs (speed goal)))).

(** What a run that succeeds has begun. *)
Definition run_begins (run : option Goal -> ST state ResultStatus) (command : Goal -> f64 * f64) : Prop :=
  forall c0 l g, ends (from c0 l) (run g) (fun r n => quiet l n /\ forall s, r = Ok s -> status s = SUCCEEDED ->
    exists goal, g = Some goal /\ begun c0 (command goal) (members n)).

Lemma begin_run c0 l x v a goal (command : Goal -> f64 * f64) : command goal = (x, v) ->
  ends (from c0 l) (begin_drive action x v a) (fun r n => quiet l n /\ forall s, r = Ok s -> status s = SUCCEEDED ->
    exists goal', Some goal = Some goal' /\ begun c0 (command goal') (members n)).
Proof.
  intros Hc. eapply ends_weaken; [apply begin_begun|]. intros r n [Hq Hb]. split; [done|].
  intros s Hr Hs. exists goal. split; [done|]. rewrite Hc. by apply (Hb s).
Qed.

Lemma reject_run c0 l g code (command : Goal -> f64 * f64) : ends (from c0 l) (mret (fails code))
  (fun r n => quiet l n /\ forall s, r = Ok s -> status s = SUCCEEDED ->
    exists goal, g = Some goal /\ begun c0 (command goal) (members n)).
Proof. intros n [Hn _]. split; [done|]. by intros s [= <-]. Qed.

Lemma drive_run_begins : run_begins (drive_run action) drive_command.
Proof.
  intros c0 l [goal|]; [|by intros n [Hn _]]. unfold drive_run. do 2 (case_match; [apply reject_run|]).
  by apply begin_run.
Qed.
Lemma back_up_run_begins : run_begins (back_up_run action) back_up_command.
Proof.
  intros c0 l [goal|]; [|by intros n [Hn _]]. unfold back_up_run. case_match; [apply reject_run|].
  by apply begin_run.
Qed.

Lemma drive_laws run : (forall g l, keeps (quiet l) (run g)) ->
  MotionLaws (Behavior0 := plugin action run) allowed_drive no_pose.
Proof.
  intros Hrun. constructor.
  - exact Hrun.
  - intros l. apply keeps_ret.
  - intros m Hm. by left.
  - intros l. apply some_keeps, drive_sends.
  - apply some_ends, drive_stops_cycle.
Qed.
End Drive.

Section DriveTasks.
Import DriveOnHeading.
Context {W E : Type} `{!GoalHandles W Goal Result spec_float} `{!Others W E} `{!BehaviorWorld W E} `{!GoalHandleLaws W Goal Result spec_float}.
Context `{!Clock E} `{!Clocks} `{!Deadlines} `{!Durations} `{!TimedTransforms E} `{!CollisionChecking E}.
Context `{!Mathematics} `{!Angles} `{!NodeParameters}.
Context (free : Pose2D -> Prop) (sees : forall p fetch e, fst (collision_free p fetch e) = Ok true -> free p).

(** A run of the callback sends zero and velocities that were checked from the members it has begun with. *)
Section Trip.
Context (action : codes) (run : option Goal -> ST (node W E (timed drive) message) ResultStatus).
Context (command : Goal -> f64 * f64) (Hbegins : run_begins run command).
#[local] Instance this_behavior : Behavior W E drive Goal := plugin action run.

Lemma trip_completion c l : keeps (trip free c l) onActionCompletion.
Proof. apply keeps_ret. Qed.

Lemma trip_loop c l t rounds : keeps (trip free c l) (cycle_loop rounds t).
Proof.
  pose proof (trip_stop (W := W) free c l) as Hs. pose proof (trip_completion c l) as Hc.
  pose proof (fun t => trip_elapsed (W := W) (E := E) free c l t) as He.
  assert (keeps (trip (W := W) (E := E) free c l) TimedBehavior.onCycleUpdate) as Hy by (apply some_keeps, (trip_cycle action free sees)).
  pose proof (trip_still (W := W) (E := E) free c l) as Hst.
  assert (forall t code c', keeps (trip free c l) (finish t code c')) as Hf by (intros; unfold finish; keep).
  induction rounds as [|k IH]; cbn [cycle_loop]; keep.
Qed.

(** What was sent since [n], for the goal that the server had. *)
Definition travels (n n' : node W E (timed drive) message) : Prop := exists l, sent n' = sent n ++ l /\
  (l = [] \/ exists s goal c, server_of n = Some s /\ get_current_goal (fst (others (outside n) s)) = Some goal /\
     begun (members n) (command goal) c /\ Forall (fun m => is_zero m \/ checked_drive free c m) l).

Lemma execute_travels rounds n : active n -> travels n (snd (execute rounds n)).
Proof.
  intros Hn. assert (forall n', sent n' = sent n -> travels n n') as Hnone.
  { intros n' Hs. exists []. split; [by rewrite app_nil_r|by left]. }
  unfold execute, own. expose. cbn. destruct (enabled_ (members n)); cbn [negb]; [|by apply Hnone].
  unfold ask, with_server. destruct (server_of n) as [s|] eqn:Hserver; [|by apply Hnone].
  destruct (others (outside n) s) as [s1 e1] eqn:Ho. cbn.
  match goal with |- context [run ?g ?n1] => pose proof (Hbegins (members n) (sent n) g n1) as Hr; set (n1' := n1) in * end.
  assert (from (members n) (sent n) n1') as Hfrom by by split.
  specialize (Hr Hfrom). destruct (run (get_current_goal s1) n1') as [[st|x|] n2]; cbn in *;
    [|apply Hnone, Hr|apply Hnone, Hr].
  destruct Hr as [[Ha2 Hs2] Hb]. specialize (Hb st eq_refl).
  assert (status st = SUCCEEDED \/ status st <> SUCCEEDED) as [Hst|Hst] by (destruct (status st); auto).
  2: { apply Hnone. rewrite <- Hs2. destruct (status st); [done| |];
    unfold tell, with_server; cbn; destruct (server_of n2); cbn; try done; by destruct (others (outside n2) _). }
  destruct (Hb Hst) as (goal & Hgoal & Hbegun). rewrite Hst. cbn. unfold look. cbn.
  destruct (now (outside n2)) as [t e2]. cbn.
  destruct (make_rate (cycle_frequency_ (members n2))) as [[]|x]; cbn; [|apply Hnone; exact Hs2].
  match goal with |- context [cycle_loop rounds t ?m] => set (n3 := m) end.
  assert (trip free (members n2) (sent n) n3) as Htrip.
  { split; [exact Ha2|]. split; [exists (elasped_time_ (members n2)); cbn; by destruct (members n2)|].
    exists []. rewrite app_nil_r. by split. }
  destruct (trip_loop (members n2) (sent n) t rounds n3 Htrip) as (_ & _ & l & Hl & Hall).
  exists l. split; [exact Hl|]. right. exists s, goal, (members n2). by rewrite Ho.
Qed.
End Trip.

(** One of the two behaviors, with the codes of its action and the command of a goal. *)
Inductive drives : codes -> (Goal -> f64 * f64) -> Behavior W E drive Goal -> Prop :=
  | Forwards : drives drive_codes drive_command drive_on_heading
  | Backwards : drives back_up_codes back_up_command back_up.

Lemma drives_laws action command b : drives action command b ->
  MotionLaws (Behavior0 := b) (allowed_drive free) (no_pose action).
Proof. intros []; apply (drive_laws _ free sees); intros g l; [apply drive_run_quiet|apply back_up_run_quiet]. Qed.

Lemma drives_travels action command b rounds n : drives action command b -> active n ->
  travels command n (snd (execute (Behavior0 := b) rounds n)).
Proof.
  intros [] Hn.
  - exact (execute_travels drive_codes (drive_run drive_codes) drive_command (drive_run_begins drive_codes) rounds n Hn).
  - exact (execute_travels back_up_codes (back_up_run back_up_codes) back_up_command (back_up_run_begins back_up_codes) rounds n Hn).
Qed.

(** C15: let a behavior that drives or backs up have its publisher activated. When its callback returns, its goal is over with the
    result of that end, and the last velocity that was sent is zero, unless the goal was rejected and nothing was sent, or the pose
    of the robot was not known, or the client library was shut down. And whatever happens, velocities are sent only for the
    goal that the server had at the start: each one is zero, or is the one that this goal commands and was checked for collisions,
    from a pose of the robot and for the time ahead, with the initial pose that was read for this goal. (Where the node is
    deactivated, the publisher drops the zero of [stopRobot] as well: lemma [stop_unheard].) *)
Theorem drive_ends action command b rounds (n : node W E (timed drive) message) : drives action command b -> active n ->
  (forall e, fst (execute (Behavior0 := b) rounds n) = Ok e -> returned (no_pose action) n e (snd (execute (Behavior0 := b) rounds n))) /\
  travels command n (snd (execute (Behavior0 := b) rounds n)).
Proof.
  intros Hb Hn. pose proof (drives_laws action command b Hb) as HL. split; [|by apply (drives_travels action)].
  intros e He. by apply (execute_returned (allowed_drive free) (no_pose action) (B := b)).
Qed.
End DriveTasks.

(** ** Leaves of a cycle *)

Section Leaves.
Context {W E D : Type} `{!Clock E} `{!Clocks} (lost : Z -> Prop).

Abbreviation state := (node W E (timed D) message).

(** The end of a cycle, as the law of motion demands. *)
Definition cycle_end (r : res ResultStatus) (n : state) : Prop := forall s, r = Ok s ->
  (status s = SUCCEEDED -> stopped n) /\ (status s = FAILED -> stopped n \/ lost (error_code s)).

Lemma cycle_end_throw e n : cycle_end (Throw e) n.
Proof. by intros s [=]. Qed.
Lemma cycle_end_ub n : cycle_end UB n.
Proof. by intros s [=]. Qed.

Lemma stop_end s : ends active (_ ← stopRobot; mret s) cycle_end.
Proof.
  eapply ends_bind; [apply stop_stops| | |]; [|by intros x n _|by intros n _].
  intros [] n (_ & _ & Hn) s' [= <-]. split; [done|by left].
Qed.

Lemma lost_end code : lost code -> ends active (mret (fails code)) cycle_end.
Proof. intros Hl n _ s [= <-]. split; [done|by right]. Qed.

Lemma go_end (c : ST state ()) : ends active (_ ← c; mret continues) cycle_end.
Proof.
  intros n _ s. expose. destruct (c n) as [[[]|x|] n']; [|done|done]. by intros [= <-].
Qed.

(** What follows a velocity that was given its header. *)
Lemma stamped_then {A} (P : state -> Prop) `{!Still P} t (k : TwistStamped -> ST state A) (Q : res A -> state -> Prop) :
  (forall v, twist v = t -> ends P (k v) Q) -> ends P (v ← stamped_velocity t; k v) Q.
Proof.
  intros Hk n Hn. unfold stamped_velocity, own, look. expose. cbn. destruct (now (outside n)) as [time e]. cbn.
  apply Hk; [done|]. by apply (still n).
Qed.
End Leaves.

#[local] Hint Resolve cycle_end_throw cycle_end_ub stop_end go_end : core.

(** ** Spinning *)

Section Spin.
Import Cycles Spin.
Context {W E : Type} `{!GoalHandles W Goal Result spec_float} `{!Others W E}.
Context `{!Clock E} `{!Clocks} `{!Deadlines} `{!Durations} `{!TimedTransforms E} `{!CollisionChecking E}.
Context `{!Angles} `{!NodeParameters}.

Abbreviation state := (node W E (timed spin) message).

(** The robot turns about its axis only, with the velocity for what remains. *)
Definition allowed_spin (m : message) : Prop := is_zero m \/
  exists s remaining, f64_lt remaining micro = false /\
    twist_of m = planar f64_zero f64_zero (copysign (spin_velocity s remaining) (cmd_yaw_ s)).

Definition no_yaw (c : Z) : Prop := c = TF_ERROR.

Lemma spin_run_quiet g l : keeps (quiet (W := W) l) (onRun g).
Proof. unfold onRun. keep. Qed.

Lemma collision_calm (I : state -> Prop) `{!Still I} r v p : keeps I (isCollisionFree r v p).
Proof. unfold isCollisionFree. keep. Qed.
#[local] Hint Resolve collision_calm : keeps.

Lemma spin_sends l : keeps (sends allowed_spin l) (onCycleUpdate : ST state _).
Proof.
  assert (keeps (sends (W := W) (D := spin) allowed_spin l) stopRobot) as Hs by (apply stop_allowed; by left).
  unfold onCycleUpdate. apply keeps_bind; [keep|intros s]. apply keeps_bind; [keep|intros [|]]; [keep|].
  apply keeps_bind; [keep|intros [p|]]; [|keep]. apply keeps_bind; [keep|intros _]. apply keeps_bind; [keep|intros _].
  destruct (f64_lt _ micro) eqn:Hr; [keep|].
  apply (stamped_then (sends (W := W) (D := spin) allowed_spin l)). intros v Hv.
  apply keeps_bind; [keep|intros [|]]; cbn [negb]; [|keep].
  apply keeps_bind; [|intros _; keep]. apply publish_allowed. intros m Hm. right. exists s. eexists.
  split; [exact Hr|]. by rewrite Hm, Hv.
Qed.

Lemma spin_stops_cycle : ends (active (W := W)) onCycleUpdate (cycle_end no_yaw).
Proof.
  unfold onCycleUpdate. apply ends_after; [keep|intros s|done|done].
  apply ends_after; [keep|intros [|]|done|done]; [done|].
  apply ends_after; [keep|intros [p|]|done|done]; [|by apply lost_end].
  apply ends_after; [keep|intros _|done|done]. apply ends_after; [keep|intros _|done|done].
  destruct (f64_lt _ micro); [done|]. apply stamped_then; [apply _|]. intros v _.
  apply ends_after; [keep|intros [|]|done|done]; cbn [negb]; done.
Qed.

#[export] Instance spin_laws : MotionLaws (Behavior0 := spin_behavior) allowed_spin no_yaw.
Proof.
  constructor.
  - apply spin_run_quiet.
  - intros l. apply keeps_ret.
  - intros m Hm. by left.
  - intros l. apply some_keeps, spin_sends.
  - apply some_ends, spin_stops_cycle.
Qed.

(** The simulation compares with the angle that the robot has turned, not with the one that remains: as long as it has
    not turned, nothing is checked. *)
Lemma spin_unchecked sign v init (n : state) max : finite (ang_z v) = true ->
  finite (cycle_frequency_ (members n)) = true -> f64_eq (cycle_frequency_ (members n)) f64_zero = false ->
  f64_to_int 32 (f64_mul (cycle_frequency_ (members n)) (simulate_ahead_time_ (derived (members n)))) = Ok max ->
  isCollisionFree (S754_zero sign) v init n = (Ok true, n).
Proof.
  intros Hv Hf Hf0 Hmax. unfold isCollisionFree, mine, own, max_cycle_count, query. expose. cbn. rewrite Hmax.
  destruct (Z.to_nat max) as [|k]; [done|]. cbn [simulate].
  match goal with |- (if ?b then _ else _) n = _ => assert (b = true) as -> end; [|done].
  unfold sim_position_change. destruct (cycle_frequency_ (members n)); try done; by destruct (ang_z v).
Qed.
End Spin.

(** ** Waiting *)

Section Wait.
Import Wait.
Context {W E : Type} `{!GoalHandles W Z Result Z} `{!Others W E}.
Context `{!Clock E} `{!Clocks} `{!Deadlines}.

(** It sends no velocity, and it succeeds just when the time that was read is past the end. *)
Lemma wait_quiet l : keeps (quiet (W := W) l) onCycleUpdate.
Proof. unfold onCycleUpdate. keep. Qed.

Lemma wait_succeeds (n : node W E (timed Z) message) s : fst (onCycleUpdate n) = Ok s ->
  exists left, elapsed (derived (members n)) (fst (now (outside n))) = Prelude.Returned left /\
    (status s = SUCCEEDED <-> left <= 0) /\ (status s = RUNNING <-> 0 < left).
Proof.
  unfold onCycleUpdate, look, mine, own, since, query. expose. cbn. destruct (now (outside n)) as [t e]. cbn.
  destruct (elapsed (derived (members n)) t) as [d|x] eqn:Hd; cbn; [|done].
  destruct (tell _ _) as [[[]|x|] n']; cbn; [|done|done]. intros [= <-]. exists d. split; [done|].
  rewrite Z.gtb_ltb. destruct (Z.ltb_spec 0 d); cbn; split; split; done || lia.
Qed.
End Wait.

(** ** Assisted teleoperation *)

Section Teleop.
Import Cycles AssistedTeleop.
Context {W E : Type} `{!GoalHandles W Z Result Z} `{!Others W E}.
Context `{!Clock E} `{!Clocks} `{!Deadlines} `{!Durations} `{!TimedTransforms E} `{!CollisionChecking E} `{!TeleopTopics E}.
Context `{!Mathematics} `{!Angles} `{!NodeParameters}.

Abbreviation state := (node W E (timed teleop) message).

Definition no_robot (c : Z) : Prop := c = TF_ERROR.

Lemma read_calm {A} (I : state -> Prop) `{!Calm I} (f : teleop -> A) : keeps I (read f).
Proof. unfold read. keep. Qed.
#[local] Hint Resolve read_calm : keeps.

Lemma project_calm (I : state -> Prop) `{!Calm I} rounds step projection : forall time p v, keeps I (project rounds step projection time p v).
Proof. induction rounds as [|k IH]; intros time p v; cbn [project]; keep. Qed.
#[local] Hint Resolve project_calm : keeps.

(** The outcome of the projection: the velocity at hand; or, where a pose is not free, that velocity without its motion if this is the
    first pose, and otherwise scaled by the time of the collision. *)
Lemma project_result rounds step projection : forall time p v (n : state) w,
  fst (project rounds step projection time p v n) = Ok (Some w) ->
  w = v \/ exists time', w = map_twist (slow_down step projection time') v /\ f64_lt time' projection = true.
Proof.
  induction rounds as [|k IH]; intros time p v n w; cbn [project]; [done|].
  destruct (f64_lt time projection) eqn:Ht; cbn [negb]; [|intros [= <-]; by left].
  expose. destruct (read teleop_twist_ n) as [[v0|x|] n1]; [|done|done].
  destruct (local_free _ true n1) as [[[|]|x|] n2]; cbn [negb]; [apply IH| |done|done].
  intros [= <-]. right. by exists time.
Qed.

Lemma teleop_run_quiet g l : keeps (quiet (W := W) l) (onRun g).
Proof. unfold onRun. keep. Qed.

Lemma teleop_stops_cycle rounds : ends (active (W := W)) (onCycleUpdate rounds) (fun r n => forall s, r = Ok (Some s) ->
  (status s = SUCCEEDED -> stopped n) /\ (status s = FAILED -> stopped n \/ no_robot (error_code s))).
Proof.
  assert (forall s, ends (active (W := W) (D := teleop)) (_ ← stopRobot; mret (Some s)) (fun r n => forall s, r = Ok (Some s) ->
    (status s = SUCCEEDED -> stopped n) /\ (status s = FAILED -> stopped n \/ no_robot (error_code s)))) as Hstop.
  { intros s. eapply ends_bind; [apply stop_stops| | |]; [|by intros x n _|by intros n _].
    intros [] n (_ & _ & Hn) s' [= <-]. split; [done|by left]. }
  unfold onCycleUpdate. apply ends_after; [keep|intros t|done|done]. apply ends_after; [keep|intros _|done|done].
  apply ends_after; [keep|intros s|done|done]. apply ends_after; [keep|intros [|]|done|done]; [apply Hstop|].
  apply ends_after; [keep|intros [|]|done|done]; [apply Hstop|].
  apply ends_after; [keep|intros [p|]|done|done]; [|intros n _ s' [= <-]; split; [done|by right]].
  apply ends_after; [keep|intros v|done|done]. apply ends_after; [keep|intros [w|]|done|done]; [|by intros n _ s' [=]].
  intros n _ s'. expose. destruct (publish_velocity w n) as [[[]|x|] n']; [|done|done]. by intros [= <-].
Qed.

Lemma teleop_sends rounds l : keeps (sends (W := W) (fun _ => True) l) (onCycleUpdate rounds).
Proof.
  assert (keeps (sends (W := W) (D := teleop) (fun _ => True) l) stopRobot) as Hs by (by apply stop_allowed).
  assert (forall v, keeps (sends (W := W) (E := E) (D := teleop) (fun _ => True) l) (publish_velocity v)) as Hp by (intros; by apply publish_allowed).
  unfold onCycleUpdate. keep.
Qed.

#[export] Instance teleop_laws rounds : MotionLaws (Behavior0 := teleop_behavior rounds) (fun _ => True) no_robot.
Proof.
  constructor.
  - apply teleop_run_quiet.
  - intros l. apply update_calm. apply _.
  - done.
  - apply teleop_sends.
  - apply teleop_stops_cycle.
Qed.

(** With a time step of zero, where the robot is free the projection never ends. *)
Lemma project_endless rounds projection p v (n : state) : f64_lt f64_zero projection = true ->
  local_collision_checker_ (members n) = true -> (forall q e, fst (collision_free q true e) = Ok true) ->
  fst (project rounds f64_zero projection f64_zero p v n) = Ok None.
Proof.
  intros Hp Hc Hfree. revert p v n Hc. induction rounds as [|k IH]; intros p v n Hc; [done|]. cbn [project]. rewrite Hp. cbn [negb].
  assert (exists v0 n1, read teleop_twist_ n = (Ok v0, n1) /\ local_collision_checker_ (members n1) = true) as (v0 & n1 & Hr & Hc1).
  { unfold read, look, update, assign, mine, own, modify. expose. cbn. destruct (receive (outside n)) as [l e]. cbn. by do 2 eexists. }
  expose. rewrite Hr. unfold local_free, own, world. expose. cbn. rewrite Hc1.
  specialize (Hfree (projectPose p (twist v0) f64_zero) (outside n1)).
  destruct (collision_free _ true (outside n1)) as [r e] eqn:Hf. cbn in Hfree. subst r. cbn. by apply IH.
Qed.
End Teleop.

(** ** Runs *)

Import Book.

(** The clock advances by one at each reading. Another thread makes the next list of moves; the robot is at the next pose, if it is
    known, and stays at the last one; the client library is shut down after a number of rounds. *)
Record task_world : Type := mk_world { clock : Z; script : list (list (move DriveOnHeading.Goal)); robot : list (option pose); up : nat }.

Definition no_goal : DriveOnHeading.Goal := DriveOnHeading.mk_goal f64_zero f64_zero f64_zero f64_zero 0.
Definition no_result : Result := mk_result 0 NONE.

#[local] Instance demo_handles : GoalHandles (book DriveOnHeading.Goal Result) DriveOnHeading.Goal Result spec_float :=
  book_handles no_goal no_result.
#[local] Instance demo_handle_laws : GoalHandleLaws (book DriveOnHeading.Goal Result) DriveOnHeading.Goal Result spec_float :=
  book_laws no_goal no_result.
#[local] Instance demo_others : Others (book DriveOnHeading.Goal Result) task_world := fun e s =>
  match script e with
  | [] => (s, e)
  | l :: rest => (make_moves (F := spec_float) no_goal no_result l s, mk_world (clock e) rest (robot e) (up e))
  end.
#[local] Instance demo_clock : Clock task_world := fun e => (clock e, mk_world (clock e + 1) (script e) (robot e) (up e)).
#[local] Instance demo_transforms : TimedTransforms task_world := fun _ _ _ e =>
  let answer (p : option pose) := match p with Some p => Prelude.Returned (mk_pose_stamped no_header p) | None => Raised transform_exception end in
  match robot e with
  | [] => (Raised transform_exception, e)
  | [p] => (answer p, e)
  | p :: l => (answer p, mk_world (clock e) (script e) l (up e))
  end.
#[local] Instance demo_world : BehaviorWorld (book DriveOnHeading.Goal Result) task_world := {|
  rclcpp_ok e := (negb (up e =? 0)%nat, mk_world (clock e) (script e) (robot e) (pred (up e)));
  make_rate x := if f64_lt f64_zero x then Prelude.Returned tt else Raised invalid_argument;
  deadline_passed e := (true, e);
  new_handles e := (mk_book [] [], e) |}.
#[local] Instance demo_clocks : Clocks := {|
  time_of_stamp s := Prelude.Returned (fst s);
  stamp_of_time t := (t, 0);
  elapsed t t0 := Prelude.Returned (t - t0) |}.
#[local] Instance demo_deadlines : Deadlines := fun t d => Prelude.Returned (t + d).
#[local] Instance demo_durations : Durations := {|
  from_seconds x := match f64_to_int 64 x with Ok z => z | _ => 0 end;
  seconds z := f64_of_Z z |}.
#[local] Instance demo_angles : Angles := {| getYaw q := qz q; shortest_angular_distance _ _ := f64_zero |}.
#[local] Instance demo_mathematics : Mathematics := {|
  cos _ := f64_of_Z 1; sin a := a; cosf a := a; sinf a := a; atan2 a _ := a; hypot := Footprint.demo_hypot; hypotf a _ := a |}.
#[local] Instance demo_parameters : NodeParameters := fun _ => None.

(** There is a wall where the first coordinate is five. *)
Definition before_wall (p : Pose2D) : Prop := f64_lt (pose2d_x p) (f64_of_Z 5) = true.
#[local] Instance demo_checker : CollisionChecking task_world := fun p _ e => (Ok (f64_lt (pose2d_x p) (f64_of_Z 5)), e).

Lemma checker_sees p fetch (e : task_world) : fst (collision_free p fetch e) = Ok true -> before_wall p.
Proof. by intros [= Hp]. Qed.

Definition at_x (x : Z) : option pose := Some (mk_pose (f64_of_Z x) f64_zero f64_zero identity_rotation).

(** One cycle per second, two of which are simulated; one metre per second. *)
Definition task (D : Type) : Type := node (book DriveOnHeading.Goal Result) task_world (timed D) message.
Definition demo_timed {D} (d : D) : timed D :=
  mk_timed (f64_of_Z 1) true "odom" "map" "base_link" f64_zero (Some (mk_publisher true true)) true false 0 d.
Definition drive_task (distance : Z) (moves : list (list (move DriveOnHeading.Goal))) (robot : list (option pose)) (up : nat) :
    task DriveOnHeading.drive :=
  mk_node (demo_timed (DriveOnHeading.set_simulate_ahead_time (f64_of_Z 2) DriveOnHeading.new_drive))
    (Some (serving (F := spec_float) no_goal no_result
      (DriveOnHeading.mk_goal (f64_of_Z distance) f64_zero f64_zero (f32_of_f64 (f64_of_Z 1)) 0)))
    (mk_world 0 moves robot up) [].

Definition run_drive rounds (n : task DriveOnHeading.drive) : res ending * list f64 * list (nat * Z) :=
  let '(r, n) := execute (Behavior0 := DriveOnHeading.drive_on_heading) rounds n in
  (r, map (fun m => lin_x (twist_of m)) (sent n),
   match server_of n with Some s => map (fun q => (fst q, result_error_code (snd q))) (results (handles s)) | None => [] end).

Definition one : f64 := f64_of_Z 1.

(** The robot arrives; its goal is cancelled; there is a wall ahead. *)
Example drive_arrives : run_drive 9 (drive_task 3 [] [at_x 0; at_x 0; at_x 1; at_x 2; at_x 3] 9) =
  (Ok Succeeded, [one; one; one; f64_zero], [(1%nat, NONE)]).
Proof. vm_compute. reflexivity. Qed.
Example drive_cancelled : run_drive 9 (drive_task 3 [[]; []; []; []; []; [AskCancel 1]] [at_x 0] 9) =
  (Ok Canceled, [one; f64_zero], [(1%nat, NONE)]).
Proof. vm_compute. reflexivity. Qed.
Example drive_wall : run_drive 9 (drive_task 8 [] [at_x 0; at_x 0; at_x 2; at_x 4] 9) =
  (Ok (Failed 723), [one; one; f64_zero], [(1%nat, 723)]).
Proof. vm_compute. reflexivity. Qed.

(** Where the pose of the robot is lost, or the client library shuts down, the last velocity that was sent is not zero. *)
Example drive_lost : run_drive 9 (drive_task 3 [] [at_x 0; at_x 0; None] 9) = (Ok (Failed 722), [one], [(1%nat, 722)]).
Proof. vm_compute. reflexivity. Qed.
Example drive_shut_down : run_drive 9 (drive_task 3 [] [at_x 0] 2) = (Ok NotOk, [one; one], []).
Proof. vm_compute. reflexivity. Qed.

(** A deadline of a deactivation passes before the goal is read: the pointer to the goal is null. *)
Example drive_null_goal : fst (fst (run_drive 9 (drive_task 3 [[Flags; Future; Wait true; AtDeadline]] [at_x 0] 9))) = UB.
Proof. vm_compute. reflexivity. Qed.

Lemma drive_ends_witness : fst (execute (Behavior0 := DriveOnHeading.drive_on_heading) 9 (drive_task 3 [] [at_x 0; at_x 0; at_x 3] 9)) = Ok Succeeded /\
  stopped (snd (execute (Behavior0 := DriveOnHeading.drive_on_heading) 9 (drive_task 3 [] [at_x 0; at_x 0; at_x 3] 9))).
Proof.
  set (n := drive_task 3 [] [at_x 0; at_x 0; at_x 3] 9).
  destruct (drive_ends before_wall checker_sees DriveOnHeading.drive_codes drive_command DriveOnHeading.drive_on_heading 9 n) as [Hr _].
  - constructor.
  - by eexists.
  - assert (fst (execute (Behavior0 := DriveOnHeading.drive_on_heading) 9 n) = Ok Succeeded) as He by (vm_compute; reflexivity).
    split; [exact He|]. destruct (Hr Succeeded He) as [[_ Hs] _]. exact Hs.
Defined.

(** In a cycle at one metre from the start. *)
Definition under_way : task DriveOnHeading.drive :=
  mk_node (demo_timed (DriveOnHeading.mk_drive (mk_pose_stamped no_header (mk_pose f64_zero f64_zero f64_zero identity_rotation))
    (f64_of_Z 3) one 0 0 (f64_of_Z 2)))
    (server_of (drive_task 3 [] [] 9)) (mk_world 0 [] [at_x 1] 9) [].

Lemma drive_cycle_witness : fst (DriveOnHeading.onCycleUpdate DriveOnHeading.drive_codes under_way) = Ok continues /\
  exists m, sent (snd (DriveOnHeading.onCycleUpdate DriveOnHeading.drive_codes under_way)) = [m] /\
    checked_drive before_wall (members under_way) m.
Proof.
  destruct (drive_cycle DriveOnHeading.drive_codes before_wall checker_sees (members under_way) [] under_way) as [_ Hr];
    [by eexists|reflexivity|reflexivity|].
  assert (fst (DriveOnHeading.onCycleUpdate DriveOnHeading.drive_codes under_way) = Ok continues) as He by (vm_compute; reflexivity).
  split; [exact He|]. rewrite He in Hr. exact Hr.
Defined.

(** A motion to the left is projected to the right. *)
Example project_wrong_side :
  pose2d_y (AssistedTeleop.projectPose (mk_pose2d f64_zero f64_zero f64_zero) (planar f64_zero one f64_zero) one) = SFopp one.
Proof. vm_compute. reflexivity. Qed.
End BehaviorLaws.
